(* ===== verification/_CoqProject ===== *)
-Q . S2P
Prelude.v
Text.v
BTreeMap.v
Json.v
Externals.v
Tsdb.v
TsdbProofs.v
Auth.v
AuthProofs.v
Totp.v
Net.v
Security.v
SecurityProofs.v
NatPolicy.v
Registry.v
RegistryProofs.v
IoStreams.v
IoStreamsProofs.v
Base64.v
Interleave.v
NatTunnel.v
NatTunnelProofs.v
Alerts.v
AlertsProofs.v
Tasks.v
TasksProofs.v
DispatchProofs.v
AgentTokens.v
AgentTokensProofs.v
Secrets.v
SecretsProofs.v
Rfc3339.v
Tables.v
Sessions.v
SessionsProofs.v
Users.v
Accounts.v
AccountsProofs.v
AdminProofs.v
AccountExamples.v
Transfers.v
ServerOps.v
TransfersProofs.v
ServerOpsProofs.v
TransferAuthority.v
TransferExamples.v
AgentConfig.v
AgentFiles.v
AgentFilesProofs.v
AgentGuards.v
AgentPolicy.v
AgentPolicyProofs.v
AgentSession.v
AgentSessionProofs.v
AgentUpdateProofs.v
AgentExamples.v
Realtime.v
RealtimeProofs.v
Telemetry.v
TelemetryProofs.v
ServerMeta.v
Fleet.v
FleetStreams.v
ServerAdmin.v
FleetPool.v
FleetProofs.v
FleetStreamsProofs.v
FleetLife.v
ServerAdminProofs.v
FleetExamples.v
OAuth.v
OAuthProofs.v
OAuthExamples.v
Pats.v
PatsProofs.v
PatsLife.v
PatsExamples.v
Monitor.v
MonitorProofs.v
MonitorExamples.v
