(* ===== verification/Prelude.v ===== *)
(** * XLStatus: verification library

    XLStatus is a monitoring server ([crates/server]) with Agents on the
    monitored hosts ([crates/agent]). Agents keep gRPC streams to the server:
    a session stream for tasks and metrics and an I/O stream that carries
    terminals, file transfers and NAT tunnels. Users reach the server over HTTP
    with a session cookie or a personal access token. This library models the
    parts that decide who may do what, that keep shared state under
    concurrency, and that hold data, and proves what makes them correct.

    ** Conventions

    Rust's [Result] is [result], integers are [Z] with saturation and
    wrap-around written out where the code can reach it ([saturating_add],
    [saturating_sub], [wrap]), text is the list of its code points ([rstr]) and
    its length is the length of its UTF-8 form ([byte_len]), a [HashMap] is a
    [gmap], a [BTreeMap] is a sorted association list, an instant is its number
    of nanoseconds. Time, environment variables, DNS and random identifiers
    enter as arguments. A log line or a metric is not modelled. Error messages
    are constructors, one per message.

    What is outside the repository is a parameter: [Chrono] (the range of
    instants), [UuidLib] (UUID text, with its round-trip laws), [Crypto]
    (SHA-256, HMAC-SHA-256, hexadecimal, header text), HMAC-SHA-1, the URL
    parser, the DNS resolver and the JSON decoder of tunnel control messages.
    For the middleware, tunnels, alerts and tasks the database is a record of
    the queries made ([AuthDb], [NatDb], [AlertDb]); for accounts it is modelled
    as tables of rows ([Tables]). Where a repository has a branch per backend the
    SQLite one is modelled. [canonical] in [Externals] is a concrete UUID library that
    satisfies the laws, used by the witnesses.

    ** Files

    - [Prelude]: results, machine integers, tactics, hint databases and lemmas
      shared by every file. [Text]: the parts of [str] and [char] the code uses.
      [BTreeMap]: ordered maps. [Json]: [serde_json] values and 64-bit floats.
      [Externals]: instants, durations and UUIDs. [Net]: IP addresses, their
      classification, parsing and printing as in the standard library, and CIDR
      membership.
    - [Tsdb] and [TsdbProofs]: [crates/tsdb/src/lib.rs], the metric store. State
      [InMemoryState]; operations [write], [write_batch], [query], [latest],
      [list_agents], [export_samples], [compact], [set_retention]; the trait
      [MetricBackend] as a record of operations with its default batch write.
      The theorems: the store invariant over every sequence of operations, exact
      characterisations of the reads, what a write makes visible, the optimised
      batch write against the default one, which reads the clock for each sample
      (no later read can tell their stores apart), what compaction keeps and
      reports, and which payloads are accepted.
    - [Auth] and [AuthProofs]: [crates/shared/src/authz.rs] and
      [crates/server/src/auth/{rbac,middleware,mod}.rs]. Scopes and the policy
      of personal access tokens, and [session_middleware] as a function of the
      request, the clock and the database. The theorems: the policy validator
      and the scope check against declarative specifications, no escalation for
      members, and soundness and completeness of the middleware with its CSRF
      check.
    - [Totp]: [crates/server/src/auth/totp.rs]. Base32 and one-time codes; the
      round trip of base32 on its 32-bit register and the exact window of
      accepted codes.
    - [Security] and [SecurityProofs]: [crates/server/src/security.rs]. The
      guard of outbound requests, proxy headers, WebSocket origins. The
      theorems: blocked addresses as tables of CIDR blocks, which hosts resolve,
      that forwarding headers of untrusted peers have no effect, and which
      origins are accepted.
    - [NatPolicy]: [crates/server/src/nat/policy.rs] and
      [crates/shared/src/nat.rs]. Validation of NAT mappings and source lists.
    - [Registry] and [RegistryProofs]: [crates/server/src/grpc/session.rs]
      (lines 26 to 287). The session registry and [send_to_current] as a step
      relation: each step is what the code does between two points where it can
      be suspended, under the locks it holds, so a sequence of steps is an
      interleaving of concurrent calls: a disconnect marks, removes and signals in
      three. The theorems hold in every reachable state: revocation is final, a
      message only goes to the Agent's current stream and at most once, no wake-up
      is lost, no permit leaks.
    - [IoStreams] and [IoStreamsProofs]: the rest of the same file. The I/O
      stream registry and the registry of pending task responses, also as step
      relations, with the validation of what Agents send and the truncation of
      text. The lookup of a subscriber and the hand-over of a frame are two steps,
      as are the removal of subscriptions and the frames that say so.
    - [NatTunnel] and [NatTunnelProofs]: [crates/server/src/nat/tunnel.rs].
      Reload of the listeners, acceptance of a connection, rate windows,
      reservation of a tunnel, the bridge between the public side and the
      Agent's stream, and the release of tunnel and subscription. It uses the
      policy of [NatPolicy] and the registry of [IoStreams].
    - [Alerts] and [AlertsProofs]: [crates/server/src/alerts/engine.rs]. Loading
      and validating rules, the Agents whose results count for a service, values
      from telemetry, duration and traffic windows, evaluation and firing, over
      the queries of the SQLite backend ([AlertDb]). The theorems: [once] rules
      alternate, [always] rules are throttled, a recovery follows a firing, what
      a duration means, and that an alert is caused by a condition that held on
      its owner's resources, names the Agent of it, and starts and tells only what
      belongs to its owner; and a run that shows a window surviving while an earlier
      condition hides it. An evaluation of a rule is taken at one moment, with one
      reading of the wall clock and one telemetry.
    - [Tasks], [TasksProofs] and [DispatchProofs]: [crates/shared/src/tasks.rs],
      [crates/server/src/tasks/{mod,scheduler}.rs] and
      [crates/server/src/db/repository/tasks.rs]. Definitions and their
      validation, paging through the scheduled tasks, one tick of the scheduler,
      the resolution of a selector, the dispatch of a task to its Agents with its
      runs, cancellation guard and report, and settlement after a restart. The
      theorems: a schedule fires exactly on its ticks, paging ends and misses
      nothing, which Agents a selector gives, that a triggered command only goes
      to Agents of its owner, and that every run is settled.
    - [AgentTokens] and [AgentTokensProofs]: [crates/server/src/auth/jwt.rs] and
      [crates/server/src/api/v1/agent_jwt.rs]. Signing and verification of Agent
      tokens and the challenge protocol as a step relation over the shared store
      of challenges. The theorems: the store refines a set of tickets that are
      issued and taken once, a token is granted only for a fresh challenge that the
      Agent named in it signed, and is accepted for its five minutes and the clock
      skew around them, no longer.
    - [Secrets] and [SecretsProofs]: [crates/server/src/secrets.rs]. Encryption
      at rest and the migration of secrets stored in the clear: round trips, and
      that a migration interrupted anywhere loses nothing.
    - [Rfc3339]: times as text that SQLite compares. [Tables]: the rows of the
      account tables and a state and error monad over an oracle for clock,
      identifiers, randomness and failing statements. [Sessions] and
      [SessionsProofs]: [crates/server/src/auth/session.rs]. [Users]:
      [crates/server/src/db/repository/{user,pat}.rs]. [Accounts],
      [AccountsProofs] and [AdminProofs]: [crates/server/src/api/v1/auth.rs],
      login, second factors, bans, lockout and user administration.
      The theorems: a session is found until it expires and a user holds at most
      32; a login takes every factor; a one-time code works once and guesses are
      bounded, over any history; repeated failures lock an address out; an
      administrator remains after any sequence of requests; and after a password
      reset or a change of role, [session_middleware] of [Auth], reading these
      tables, refuses every credential issued before. [AccountExamples] runs the
      programs on concrete tables, and an interleaving of two demotions that
      leaves no administrator.
    - [Base64]: the base64 of file contents, with its round trip. [Interleave]:
      programs as trees of atomic actions, their interleavings with other
      threads, what a program running alone does, and the rules to reason about
      both.
    - [Transfers], [ServerOps], [TransfersProofs], [ServerOpsProofs],
      [TransferAuthority] and [TransferExamples]:
      [crates/server/src/api/v1/{transfers,server_ops}.rs] and
      [crates/server/src/db/repository/temporary_transfer.rs]. URLs for one
      download or upload, file operations, remote configuration and forced
      updates, as programs of single SQL statements and Agent round trips. The
      theorems, over every interleaving of requests: a URL is used once; what
      runs for it is what was issued, while the session or token it was issued
      under is alive and its owner may; privileged operations and sensitive
      settings need a fresh cookie session with a second factor; and a download
      delivers the bytes of the file.
    - [AgentConfig], [AgentGuards] and [AgentPolicy] with [AgentPolicyProofs]:
      [crates/agent/src/main.rs] and [executor/shell.rs]. The configuration of
      an Agent and its enrolment; limits of tasks, blocked addresses and the
      environment of a command; the validation of a remote configuration and the
      replacement of the configuration file. The theorems: the file always holds
      all of the old or all of the new text, whatever system call fails or is
      the last one; after an update it holds what is in memory.
    - [AgentFiles] and [AgentFilesProofs]:
      [crates/agent/src/executor/files.rs], file access as programs of system
      calls over inodes, directory entries and symbolic links. Other processes
      change the file system arbitrarily between two calls. The theorems: a task
      changes and reads only what lies under an allowed root, reached through
      real directories.
    - [AgentSession], [AgentSessionProofs], [AgentUpdateProofs] and
      [AgentExamples]: the rest of the Agent: messages of the server, tasks,
      probes, terminals ([executor/terminal.rs]) and tunnels as threads over the
      shared policy and session tables. The theorems, over every interleaving:
      the policy only tightens, as it is written down, and stays well formed, and
      everything the Agent does to the outside was permitted by a policy that was
      in force while the handler that does it ran. A forced update
      that [ServerOps] sends passes the checks of [AgentPolicy].

    - [Realtime] and [RealtimeProofs]: [crates/server/src/realtime/mod.rs], the
      hub that passes events of Agents to dashboards: cleaning, the cache of
      latest events, the channel with its lag. Every event that leaves is clean
      and bounded, and the cache never exceeds its limit.
    - [Telemetry] and [TelemetryProofs]: the end of
      [crates/server/src/grpc/mod.rs], how metrics and host information become
      stored JSON: the stored text is that of an object with what was reported
      under its names, or flagged and inside the limits.
    - [Fleet], [FleetStreams], [ServerMeta] and [ServerAdmin]: the Agents as the
      server sees them, over one shared state of tables, registries and hub
      ([Fleet.Fleet]). [Fleet] is
      [crates/server/src/db/repository/agent.rs] and
      [crates/server/src/api/v1/agent.rs]: enrolment tokens, enrolment,
      revocation, deletion. [FleetStreams] is the authentication and the streams
      of [grpc/mod.rs] and the dashboard sockets of [realtime/ws.rs]. [ServerMeta]
      and [ServerAdmin] are [crates/server/src/api/v1/servers.rs]: metadata,
      tags, listings, batches, ownership transfers and groups. Every handler is a
      program of single statements and lock sections ([Interleave]).
    - [FleetPool], [FleetProofs], [FleetStreamsProofs], [FleetLife],
      [ServerAdminProofs] and [FleetExamples]: what each handler may do to the
      shared state, and what follows for every pool of concurrent handlers: a
      token enrols one Agent, before it expires, for the user who had it issued; an Agent that was reported
      revoked or deleted has no stream and gets none, even when one was being
      opened at the time; owners change only in the recorded transaction of an
      administrator who made the call, with a second factor; a stream acts on its
      own Agent only, after authentication, and its frames reach only subscribers
      of that Agent; a dashboard is sent only what its session may see;
      visibility and tags change only for those who may. [FleetExamples] runs the
      handlers on concrete tables, two races among them.
    - [OAuth]: [crates/server/src/api/v1/oauth.rs], login with an external
      provider and the binding of external accounts: the state that travels
      through the provider, signed and tied to the browser by a cookie; the
      requests for a token and an identity, through the guard of [Security]; the
      table of bindings; and the handlers, which use the accounts, sessions and
      bans of [Accounts] and [Sessions]. URLs, forms, hexadecimal digits and the
      JSON of a state belong to libraries and are the class [OAuthLib].
    - [OAuthProofs] and [OAuthExamples]: a callback opens a session only for the
      user an identity is bound to, after every check; only the user himself binds
      or unbinds; bindings stay unique under concurrent callbacks and never pass
      from one user to another; a flow that was started can be finished for ten
      minutes, in the same browser only, if its state is not too long.
    - [Pats]: [crates/server/src/api/v1/pat.rs] and the rest of
      [crates/server/src/db/repository/pat.rs], the issuing, listing and revoking
      of API tokens, over the account tables and the table of Agents.
    - [PatsProofs], [PatsLife] and [PatsExamples]: a token is issued only to a
      user with a cookie and a second factor, for scopes of his role and servers of
      his own, and for a year at most; the session middleware of [Auth], reading
      the tables through [Users], gives a request with the token exactly what was
      asked for until it expires, and nothing once it is revoked.
    - [Monitor]: [crates/server/src/services/monitor.rs], the service monitor: the
      loading and checking of services, their schedule, the choice of Agents, probes
      through Agents side by side and from the server, the storing of results, and
      the tasks that a change of state starts. The outcome of a probe over the
      network ([services/probe.rs]) comes from the environment, as do the answers of
      the registries of sessions and replies; eight probes run at a time in the code,
      any number in the model.
    - [MonitorProofs] and [MonitorExamples]: Agents are asked, and tasks started, only
      for the owner of a service; tasks start exactly at transitions; every service
      keeps its own clock; whatever is loaded is well formed.

    ** Bounds and fuel

    Loops are structural recursions over the data they consume. Three use an
    explicit bound: [emit_groups] of [Totp] takes five of the [bits_left] pending
    bits per turn, so [bits_left] turns are enough ([base32_roundtrip] shows that
    every group is emitted); [back_to_boundary] of [IoStreams]
    counts down to a character boundary; [print_radix] of [Net] prints at most
    20 digits, enough for 64 bits. In [AgentFiles] a path walk follows at most 40
    symbolic links, as the kernel does, and the recursive deletion is bounded by
    the descriptors a process may hold, which the code holds one of per level; both
    bounds are errors of the modelled calls. The loops of the Agent that forward
    the output of a terminal or a socket, and those of the server that read a
    stream or write to a dashboard, take what they read as an argument, and the
    theorems hold for every such list. The byte counters of a bridge are unbounded
    integers: they would need 2^64 bytes through one connection to wrap.

    ** Not modelled

    Bandwidth pacing of tunnels, statistics and health reports; lists for
    administrators, which only read; the PostgreSQL branches of the
    repositories; the axum and tonic glue; the Agent's connection loop, its
    token request and its collectors; the web interface; the network side of local probes; DDNS,
    notifications, configuration and the REST handlers of settings, tasks,
    alerts, services and the public pages; [get_server_metrics], which reads the metric
    store. *)

From stdpp Require Export base gmap strings list fin_maps sorting.
From Stdlib Require Export ZArith Lia.

#[global] Open Scope Z_scope.

(** ** Results: Rust's [Result<A, E>] *)

Inductive result (E A : Type) : Type :=
| Ok (a : A)
| Err (e : E).
Arguments Ok {E A} a.
Arguments Err {E A} e.

#[global] Instance result_ret E : MRet (result E) := fun A => Ok.
#[global] Instance result_bind E : MBind (result E) := fun A B k r =>
  match r with Ok a => k a | Err e => Err e end.
#[global] Instance result_fmap E : FMap (result E) := fun A B f r =>
  match r with Ok a => Ok (f a) | Err e => Err e end.
#[global] Instance result_eq_dec {E A} `{EqDecision E, EqDecision A} : EqDecision (result E A).
Proof. solve_decision. Defined.

(** [Result::is_ok]. *)
Definition is_ok {E A} (r : result E A) : bool :=
  match r with Ok _ => true | Err _ => false end.

(** [Option::ok_or]. *)
Definition ok_or {E A} (o : option A) (e : E) : result E A :=
  match o with Some a => Ok a | None => Err e end.

(** [for x in l { f(x)?; }]: stops at the first error. *)
Fixpoint try_for_each {E A} (f : A → result E unit) (l : list A) : result E unit :=
  match l with
  | [] => Ok ()
  | x :: l => f x ;; try_for_each f l
  end.

(** [for x in l { acc = f(acc, x)?; }]: a fold that stops at the first error. *)
Definition try_fold {E A B} (f : B → A → result E B) : list A → B → result E B :=
  fix go l acc :=
    match l with
    | [] => Ok acc
    | x :: l => acc ← f acc x; go l acc
    end.

(** ** Machine integers

    A [usize] is 64 bits wide: the server and the Agent are built for 64-bit
    targets. Lengths are kept in [Z]. *)

Definition u8_max : Z := 2 ^ 8 - 1.
Definition u16_max : Z := 2 ^ 16 - 1.
Definition u32_max : Z := 2 ^ 32 - 1.
Definition u64_max : Z := 2 ^ 64 - 1.
Definition i64_max : Z := 2 ^ 63 - 1.
Definition i64_min : Z := - 2 ^ 63.
Definition usize_max : Z := u64_max.

Definition saturating_add (max a b : Z) : Z := Z.min max (a + b).
Definition saturating_sub (a b : Z) : Z := Z.max 0 (a - b).

(** Truncation of a left shift to [w] bits ([<<] on a [w]-bit integer). *)
Definition wrap (w z : Z) : Z := z mod 2 ^ w.

(** [as i64] of a [u64]. *)
Definition u64_as_i64 (z : Z) : Z := if 2 ^ 63 <=? z then z - 2 ^ 64 else z.

Definition zlen {A} (l : list A) : Z := Z.of_nat (length l).

(** [Vec::contains] and [Iterator::any]/[all] on lists. *)
Definition contains {A} `{EqDecision A} (x : A) (l : list A) : bool :=
  existsb (fun y => bool_decide (x = y)) l.

(** ** Proof automation *)

Create HintDb xls discriminated.

(** Case analysis on the scrutinee of an [if] or [match] of the goal, or of
    a hypothesis. *)
Ltac split_goal :=
  match goal with
  | |- context [if ?b then _ else _] => destruct b eqn:?
  | |- context [match ?x with _ => _ end] => destruct x eqn:?
  end.
Ltac split_hyp :=
  match goal with
  | H : context [if ?b then _ else _] |- _ => destruct b eqn:?
  | H : context [match ?x with _ => _ end] |- _ => destruct x eqn:?
  end.

(** Boolean tests of the model, as propositions. *)
Ltac bool_prop :=
  repeat match goal with
  | H : _ && _ = true |- _ => apply andb_true_iff in H; destruct H
  | H : _ && _ = false |- _ => apply andb_false_iff in H
  | H : _ || _ = false |- _ => apply orb_false_iff in H; destruct H
  | H : _ || _ = true |- _ => apply orb_true_iff in H
  | H : negb _ = true |- _ => apply negb_true_iff in H
  | H : negb _ = false |- _ => apply negb_false_iff in H
  | H : bool_decide _ = true |- _ => apply bool_decide_eq_true in H
  | H : bool_decide _ = false |- _ => apply bool_decide_eq_false in H
  | H : (_ =? _) = true |- _ => apply Z.eqb_eq in H
  | H : (_ =? _) = false |- _ => apply Z.eqb_neq in H
  | H : (_ <? _) = true |- _ => apply Z.ltb_lt in H
  | H : (_ <? _) = false |- _ => apply Z.ltb_ge in H
  | H : (_ <=? _) = true |- _ => apply Z.leb_le in H
  | H : (_ <=? _) = false |- _ => apply Z.leb_gt in H
  end.

(** ** Shared lemmas *)

Lemma bind_Ok {E A B} (r : result E A) (k : A → result E B) b :
  r ≫= k = Ok b ↔ ∃ a, r = Ok a ∧ k a = Ok b.
Proof. destruct r; cbn; split; [eauto|naive_solver|done|naive_solver]. Qed.

Lemma bind_Err {E A B} (r : result E A) (k : A → result E B) e :
  r ≫= k = Err e ↔ r = Err e ∨ ∃ a, r = Ok a ∧ k a = Err e.
Proof. destruct r; cbn; naive_solver. Qed.

Lemma Ok_inj {E A} (a b : A) : Ok (E := E) a = Ok b → a = b.
Proof. congruence. Qed.

Lemma ok_or_Ok {E A} (o : option A) (e : E) a : ok_or o e = Ok a ↔ o = Some a.
Proof. destruct o; cbn; naive_solver. Qed.

Lemma is_ok_true {E A} (r : result E A) : is_ok r = true ↔ ∃ a, r = Ok a.
Proof. destruct r; cbn; naive_solver. Qed.

Lemma try_for_each_Ok {E A} (f : A → result E unit) l :
  try_for_each f l = Ok () ↔ Forall (fun x => f x = Ok ()) l.
Proof.
  induction l as [|x l IH]; cbn; [by split|].
  rewrite bind_Ok, Forall_cons, <- IH. split; [|by intros [? ?]; exists ()].
  by intros [[] ?].
Qed.

Lemma contains_spec {A} `{EqDecision A} (x : A) l : contains x l = true ↔ x ∈ l.
Proof.
  unfold contains. rewrite existsb_exists. setoid_rewrite bool_decide_eq_true.
  setoid_rewrite <- list_elem_of_In. naive_solver.
Qed.

Lemma contains_false {A} `{EqDecision A} (x : A) l : contains x l = false ↔ x ∉ l.
Proof. rewrite <- contains_spec. by destruct (contains x l). Qed.

Lemma existsb_In {A} (f : A → bool) l : existsb f l = true ↔ ∃ x, x ∈ l ∧ f x = true.
Proof. rewrite existsb_exists. by setoid_rewrite <- list_elem_of_In. Qed.

Lemma forallb_In {A} (f : A → bool) l : forallb f l = true ↔ ∀ x, x ∈ l → f x = true.
Proof. rewrite forallb_forall. by setoid_rewrite <- list_elem_of_In. Qed.

Lemma zlen_app {A} (l k : list A) : zlen (l ++ k) = zlen l + zlen k.
Proof. unfold zlen. rewrite length_app. lia. Qed.

Lemma zlen_nonneg {A} (l : list A) : 0 <= zlen l.
Proof. unfold zlen. lia. Qed.

Lemma length_filter_filter {A} (P Q : A → Prop) `{!∀ x, Decision (P x), !∀ x, Decision (Q x)} (l : list A) :
  (length (filter P (filter Q l)) <= length (filter P l))%nat.
Proof.
  induction l as [|x l IH]; [done|]. rewrite (filter_cons Q), (filter_cons P).
  case_decide; [rewrite filter_cons|]; case_decide; cbn; lia.
Qed.

(** Lists whose keys are distinct. *)
Lemma fmap_nodup_elem {A B} (f : A → B) (l : list A) x y : NoDup (f <$> l) → x ∈ l → y ∈ l → f x = f y → x = y.
Proof.
  induction l as [|z l IH]; [by intros _ ?%not_elem_of_nil|]. cbn. intros [Hno Hl]%NoDup_cons. rewrite !elem_of_cons.
  intros [->|Hx] [->|Hy] Heq; [done| | |by apply IH]; destruct Hno; apply list_elem_of_fmap; eauto.
Qed.

Lemma omap_nodup_lookup {A B} (f : A → option B) (l : list A) i j x y k :
  NoDup (omap f l) → l !! i = Some x → l !! j = Some y → f x = Some k → f y = Some k → i = j.
Proof.
  revert i j. induction l as [|z l IH]; [done|]. intros i j Hnd.
  assert (∀ n w, f z = Some k → l !! n = Some w → f w = Some k → False) as Hz.
  { intros n w Hk Hn Hw. cbn in Hnd. rewrite Hk in Hnd. apply NoDup_cons in Hnd as [Hno _]. apply Hno.
    apply list_elem_of_omap. exists w. split; [by eapply list_elem_of_lookup_2|done]. }
  assert (NoDup (omap f l)) as Hl by (cbn in Hnd; destruct (f z); [by apply NoDup_cons in Hnd as [_ ?]|done]).
  destruct i as [|i], j as [|j]; cbn; intros Hi Hj Hx Hy; [done| | |f_equal; by eapply IH];
    exfalso; [injection Hi as ->|injection Hj as ->]; eauto.
Qed.

Lemma saturating_add_bound max a b : saturating_add max a b <= max.
Proof. unfold saturating_add. lia. Qed.

#[export] Hint Resolve zlen_nonneg saturating_add_bound : xls.
#[export] Hint Rewrite @zlen_app : xls.
