(* ===== verification/Text.v ===== *)
(** * Text: the [str] operations the sources use

    A Rust [String] or [&str] is modelled as the list of its Unicode scalar
    values ([char]s); [byte_len] is [str::len], the length in UTF-8 bytes.
    The operations below are those of the Rust standard library that the
    modelled code calls; [lit] writes a literal. *)

From S2P Require Import Prelude.
From Stdlib Require Import Ascii.

Abbreviation rstr := (list Z).

Definition chr (a : ascii) : Z := Z.of_N (N_of_ascii a).
Definition lit (s : string) : rstr := chr <$> String.list_ascii_of_string s.


(** ** Characters *)

(** [char::len_utf8]. *)
Definition len_utf8 (c : Z) : Z :=
  if c <? 0x80 then 1 else if c <? 0x800 then 2 else if c <? 0x10000 then 3 else 4.

(** [char::encode_utf8], as bytes. *)
Definition encode_utf8 (c : Z) : list Z :=
  if c <? 0x80 then [c]
  else if c <? 0x800 then [0xC0 + c / 64; 0x80 + c mod 64]
  else if c <? 0x10000 then [0xE0 + c / 4096; 0x80 + (c / 64) mod 64; 0x80 + c mod 64]
  else [0xF0 + c / 262144; 0x80 + (c / 4096) mod 64; 0x80 + (c / 64) mod 64; 0x80 + c mod 64].

(** A [char] is a Unicode scalar value. *)
Definition is_scalar (c : Z) : bool := ((0 <=? c) && (c <? 0xD800)) || ((0xE000 <=? c) && (c <? 0x110000)).

(** [String::from_utf8]: the bytes must be the encoding of scalar values, so
    neither overlong nor of a surrogate. *)
Definition utf8_width (lead : Z) : nat :=
  if lead <? 0x80 then 1 else if lead <? 0xE0 then 2 else if lead <? 0xF0 then 3 else 4.
Definition utf8_value (bytes : list Z) : Z :=
  match bytes with
  | [a] => a
  | [a; b] => (a - 0xC0) * 64 + (b - 0x80)
  | [a; b; c] => (a - 0xE0) * 4096 + (b - 0x80) * 64 + (c - 0x80)
  | [a; b; c; d] => (a - 0xF0) * 262144 + (b - 0x80) * 4096 + (c - 0x80) * 64 + (d - 0x80)
  | _ => -1
  end.
Fixpoint decode_utf8 (fuel : nat) (bytes : list Z) : option rstr :=
  match bytes, fuel with
  | [], _ => Some []
  | _, O => None
  | lead :: _, S fuel =>
      let here := take (utf8_width lead) bytes in
      let c := utf8_value here in
      if is_scalar c && bool_decide (encode_utf8 c = here)
      then rest ← decode_utf8 fuel (drop (utf8_width lead) bytes); Some (c :: rest)
      else None
  end.
Definition from_utf8 (bytes : list Z) : option rstr := decode_utf8 (length bytes) bytes.

(** [char::is_control]: the general category Cc. *)
Definition is_control (c : Z) : bool := (c <? 0x20) || ((0x7F <=? c) && (c <=? 0x9F)).

(** [char::is_whitespace]: the property White_Space. *)
Definition is_whitespace (c : Z) : bool :=
  ((0x09 <=? c) && (c <=? 0x0D)) || (c =? 0x20) || (c =? 0x85) || (c =? 0xA0)
  || (c =? 0x1680) || ((0x2000 <=? c) && (c <=? 0x200A)) || (c =? 0x2028) || (c =? 0x2029)
  || (c =? 0x202F) || (c =? 0x205F) || (c =? 0x3000).

Definition is_ascii_digit (c : Z) : bool := (48 <=? c) && (c <=? 57).
Definition is_ascii_upper (c : Z) : bool := (65 <=? c) && (c <=? 90).
Definition is_ascii_lower (c : Z) : bool := (97 <=? c) && (c <=? 122).
Definition is_ascii_alphanumeric (c : Z) : bool :=
  is_ascii_digit c || is_ascii_upper c || is_ascii_lower c.

(** [char::to_ascii_lowercase]. *)
Definition ascii_lower (c : Z) : Z := if is_ascii_upper c then c + 32 else c.

(** [char::to_digit]. *)
Definition to_digit (radix c : Z) : option Z :=
  let d := if is_ascii_digit c then c - 48
           else if is_ascii_lower c then c - 97 + 10
           else if is_ascii_upper c then c - 65 + 10 else radix in
  if d <? radix then Some d else None.

(** ** Strings *)

Fixpoint byte_len (s : rstr) : Z :=
  match s with [] => 0 | c :: s => len_utf8 c + byte_len s end.
Definition str_bytes (s : rstr) : list Z := s ≫= encode_utf8.
Definition is_empty {A} (s : list A) : bool := match s with [] => true | _ => false end.

Definition to_ascii_lowercase (s : rstr) : rstr := ascii_lower <$> s.
Definition eq_ignore_ascii_case (s t : rstr) : bool :=
  bool_decide (to_ascii_lowercase s = to_ascii_lowercase t).

(** [str::trim_start_matches], [trim_end_matches] and [trim_matches] with a
    character predicate; [trim] is the one of the whitespace characters. *)
Fixpoint trim_start_by (f : Z → bool) (s : rstr) : rstr :=
  match s with
  | c :: s' => if f c then trim_start_by f s' else s
  | [] => []
  end.
Definition trim_end_by (f : Z → bool) (s : rstr) : rstr := reverse (trim_start_by f (reverse s)).
Definition trim_by (f : Z → bool) (s : rstr) : rstr := trim_end_by f (trim_start_by f s).
Definition trim (s : rstr) : rstr := trim_by is_whitespace s.

Definition starts_with (p s : rstr) : bool := bool_decide (p `prefix_of` s).
Definition ends_with (p s : rstr) : bool := bool_decide (p `suffix_of` s).

(** [str::strip_prefix] and [str::strip_suffix] with one character. *)
Definition strip_prefix_char (c : Z) (s : rstr) : option rstr :=
  match s with d :: s' => if d =? c then Some s' else None | [] => None end.
Definition strip_suffix_char (c : Z) (s : rstr) : option rstr :=
  match reverse s with d :: s' => if d =? c then Some (reverse s') else None | [] => None end.

(** [str::split_once] and [str::rsplit_once] with one character. *)
Fixpoint split_once (c : Z) (s : rstr) : option (rstr * rstr) :=
  match s with
  | [] => None
  | d :: s' => if d =? c then Some ([], s')
               else match split_once c s' with
                    | Some (a, b) => Some (d :: a, b)
                    | None => None
                    end
  end.
Definition rsplit_once (c : Z) (s : rstr) : option (rstr * rstr) :=
  match split_once c (reverse s) with
  | Some (a, b) => Some (reverse b, reverse a)
  | None => None
  end.

(** [str::split] with a set of separator characters: always at least one
    piece. *)
Fixpoint split_by (f : Z → bool) (s : rstr) : list rstr :=
  match s with
  | [] => [[]]
  | c :: s' => if f c then [] :: split_by f s'
               else match split_by f s' with
                    | p :: ps => (c :: p) :: ps
                    | [] => [[c]]
                    end
  end.

(** [str::split_whitespace]. *)
Definition split_whitespace (s : rstr) : list rstr :=
  filter (fun p => p ≠ []) (split_by is_whitespace s).

(** [str::split_once] with a string. *)
Fixpoint split_once_str (sep s : rstr) : option (rstr * rstr) :=
  if starts_with sep s then Some ([], drop (length sep) s) else
  match s with
  | [] => None
  | c :: s' => match split_once_str sep s' with
               | Some (a, b) => Some (c :: a, b)
               | None => None
               end
  end.

(** [<[String]>::join]. *)
Fixpoint join (sep : rstr) (l : list rstr) : rstr :=
  match l with
  | [] => []
  | [p] => p
  | p :: l => p ++ sep ++ join sep l
  end.

(** [<uN as FromStr>::from_str] in base ten: an optional [+], at least one
    digit, and no overflow. *)
Fixpoint parse_digits (max acc : Z) (s : rstr) : option Z :=
  match s with
  | [] => Some acc
  | c :: s => if is_ascii_digit c
              then let acc := acc * 10 + (c - 48) in
                   if max <? acc then None else parse_digits max acc s
              else None
  end.
Definition parse_unsigned (max : Z) (s : rstr) : option Z :=
  let digits := match s with 43 :: s' => s' | _ => s end in
  if is_empty digits then None else parse_digits max 0 digits.

(** [<i64 as FromStr>::from_str], and [format!("{}", n)]: twenty digits are
    enough for 64 bits. *)
Definition parse_i64 (s : rstr) : option Z :=
  match s with
  | 45 :: t => if is_empty t then None else match parse_digits (2 ^ 63) 0 t with Some n => Some (- n) | None => None end
  | _ => parse_unsigned (2 ^ 63 - 1) s
  end.
Fixpoint dec_digits (fuel : nat) (n : Z) : rstr :=
  match fuel with
  | O => []
  | S fuel => (if n <? 10 then [] else dec_digits fuel (n / 10)) ++ [48 + n mod 10]
  end.
Definition print_i64 (n : Z) : rstr := if n <? 0 then 45 :: dec_digits 20 (- n) else dec_digits 20 n.

(** ** Lemmas *)

(** Decoding inverts encoding. *)
Lemma encode_utf8_shape c : is_scalar c = true →
  ∃ lead rest, encode_utf8 c = lead :: rest ∧ utf8_width lead = S (length rest) ∧ utf8_value (lead :: rest) = c
    ∧ Forall (fun b => 0 <= b < 256) (lead :: rest).
Proof.
  unfold is_scalar, encode_utf8, utf8_width. intros Hc.
  assert (0 <= c < 0x110000) as Hr by (bool_prop; lia). clear Hc.
  repeat case_match; bool_prop; do 2 eexists; (split; [reflexivity|]); cbn [length utf8_value];
    repeat case_match; bool_prop; (split; [done || (exfalso; Z.to_euclidean_division_equations; lia)|]); split;
    try (rewrite !Forall_cons; repeat split; try apply Forall_nil_2); try (Z.to_euclidean_division_equations; lia); done.
Qed.

Lemma decode_utf8_str_bytes s fuel :
  Forall (fun c => is_scalar c = true) s → (length (str_bytes s) <= fuel)%nat → decode_utf8 fuel (str_bytes s) = Some s.
Proof.
  intros Hs. revert fuel. induction Hs as [|c s Hc _ IH]; intros fuel Hl; [by destruct fuel|].
  unfold str_bytes in *. cbn [mbind list_bind] in *. fold (s ≫= encode_utf8) in *.
  destruct (encode_utf8_shape c Hc) as (lead & rest & He & Hw & Hv & _). rewrite He in *.
  rewrite length_app in Hl. cbn [length] in Hl. destruct fuel as [|fuel]; [lia|]. cbn [decode_utf8 app]. rewrite Hw.
  change (lead :: rest ++ (s ≫= encode_utf8)) with ((lead :: rest) ++ (s ≫= encode_utf8)).
  rewrite take_app_length', drop_app_length' by done. rewrite Hv, Hc, bool_decide_eq_true_2 by done. cbn [andb].
  by rewrite IH by lia.
Qed.

Lemma from_utf8_str_bytes s : Forall (fun c => is_scalar c = true) s → from_utf8 (str_bytes s) = Some s.
Proof. intros Hs. by apply decode_utf8_str_bytes. Qed.

Lemma str_bytes_bytes s : Forall (fun c => is_scalar c = true) s → Forall (fun b => 0 <= b < 256) (str_bytes s).
Proof.
  unfold str_bytes. induction 1 as [|c s Hc _ IH]; cbn; [constructor|]. apply Forall_app. split; [|done].
  destruct (encode_utf8_shape c Hc) as (lead & rest & -> & _ & _ & Hb). done.
Qed.

Lemma byte_len_app s t : byte_len (s ++ t) = byte_len s + byte_len t.
Proof. induction s; cbn; lia. Qed.

Lemma len_utf8_pos c : 1 <= len_utf8 c <= 4.
Proof. unfold len_utf8. repeat case_match; lia. Qed.

Lemma byte_len_nonneg s : 0 <= byte_len s.
Proof. induction s; cbn; [lia|]. pose proof (len_utf8_pos a). lia. Qed.

Lemma byte_len_zero s : byte_len s = 0 ↔ s = [].
Proof.
  split; [|by intros ->]. destruct s; cbn; [done|].
  pose proof (len_utf8_pos z). pose proof (byte_len_nonneg s). lia.
Qed.

Lemma encode_utf8_len c : zlen (encode_utf8 c) = len_utf8 c.
Proof. unfold encode_utf8, len_utf8. by repeat case_match. Qed.

Lemma str_bytes_len s : zlen (str_bytes s) = byte_len s.
Proof.
  induction s as [|c s IH]; [done|]. unfold str_bytes in *. rewrite bind_cons, zlen_app, encode_utf8_len, IH.
  done.
Qed.

Lemma is_empty_spec {A} (s : list A) : is_empty s = true ↔ s = [].
Proof. by destruct s. Qed.

Lemma is_empty_false {A} (s : list A) : is_empty s = false ↔ s ≠ [].
Proof. by destruct s. Qed.

Lemma trim_start_by_suffix f s : trim_start_by f s `suffix_of` s.
Proof.
  induction s as [|c s IH]; cbn; [done|]. case_match; [by apply suffix_cons_r|done].
Qed.

Lemma trim_start_by_head f s c s' : trim_start_by f s = c :: s' → f c = false.
Proof. induction s as [|d s IH]; cbn; [done|]. case_match; [auto|]. by intros [= <- <-]. Qed.

Lemma trim_start_by_id f c s : f c = false → trim_start_by f (c :: s) = c :: s.
Proof. intros H. cbn. by rewrite H. Qed.

Lemma trim_start_by_idemp f s : trim_start_by f (trim_start_by f s) = trim_start_by f s.
Proof. induction s as [|c s IH]; cbn; [done|]. case_match; cbn; [done|]. by rewrite H. Qed.

(** A trimmed string keeps a prefix of what [trim_start_by] left. *)
Lemma trim_end_by_prefix f s : trim_end_by f s `prefix_of` s.
Proof.
  unfold trim_end_by. destruct (trim_start_by_suffix f (reverse s)) as [k E].
  exists (reverse k). rewrite <- reverse_app, <- E. by rewrite reverse_involutive.
Qed.

Lemma trim_end_by_idemp f s : trim_end_by f (trim_end_by f s) = trim_end_by f s.
Proof. unfold trim_end_by. by rewrite reverse_involutive, trim_start_by_idemp. Qed.

Lemma trim_by_idemp f s : trim_by f (trim_by f s) = trim_by f s.
Proof.
  unfold trim_by. enough (trim_start_by f (trim_end_by f (trim_start_by f s))
    = trim_end_by f (trim_start_by f s)) as -> by apply trim_end_by_idemp.
  destruct (trim_end_by f (trim_start_by f s)) as [|c t] eqn:E; [done|].
  apply trim_start_by_id. destruct (trim_end_by_prefix f (trim_start_by f s)) as [k E'].
  rewrite E in E'. cbn in E'. by apply trim_start_by_head in E'.
Qed.

(** Everything [trim_by] drops satisfies the predicate, so a string none of
    whose characters does is left alone. *)
Lemma trim_start_by_none f s : Forall (fun c => f c = false) s → trim_start_by f s = s.
Proof. destruct 1 as [|c s Hc _]; cbn; [done|]. by rewrite Hc. Qed.

Lemma trim_by_none f s : Forall (fun c => f c = false) s → trim_by f s = s.
Proof.
  intros H. unfold trim_by, trim_end_by. rewrite (trim_start_by_none f s) by done.
  rewrite trim_start_by_none by by apply Forall_reverse. apply reverse_involutive.
Qed.

Lemma trim_by_elem f s c : c ∈ trim_by f s → c ∈ s.
Proof.
  unfold trim_by. intros Hc. destruct (trim_end_by_prefix f (trim_start_by f s)) as [k E].
  destruct (trim_start_by_suffix f s) as [k' E']. rewrite E', E. set_solver.
Qed.

Lemma split_once_app c a b : c ∉ a → split_once c (a ++ c :: b) = Some (a, b).
Proof.
  induction a as [|d a IH]; cbn; [by rewrite Z.eqb_refl|]. intros H.
  destruct (Z.eqb_spec d c) as [->|]; [set_solver|]. rewrite IH; [done|set_solver].
Qed.

Lemma split_once_Some c s a b : split_once c s = Some (a, b) ↔ s = a ++ c :: b ∧ c ∉ a.
Proof.
  split; [|intros [-> ?]; by apply split_once_app].
  revert a. induction s as [|d s IH]; intros a; cbn; [done|].
  destruct (Z.eqb_spec d c) as [->|Hne].
  - intros [= <- <-]. split; [done|apply not_elem_of_nil].
  - destruct (split_once c s) as [[a' b']|]; [|done]. intros [= <- <-].
    destruct (IH a' eq_refl) as [-> ?]. split; [done|set_solver].
Qed.

Lemma split_once_None c s : split_once c s = None ↔ c ∉ s.
Proof.
  induction s as [|d s IH]; cbn; [set_solver|].
  destruct (Z.eqb_spec d c) as [->|Hne]; [set_solver|].
  destruct (split_once c s) as [[a b]|]; split; try done; set_solver.
Qed.

Lemma split_by_nonempty f s : split_by f s ≠ [].
Proof. destruct s; cbn; [done|]. by repeat case_match. Qed.

(** The pieces of [split_by] hold no separator, and with one separator
    character they join back to the string. *)
Lemma split_by_pieces f s : Forall (Forall (fun c => f c = false)) (split_by f s).
Proof.
  induction s as [|c s IH]; cbn; [repeat constructor|].
  destruct (f c) eqn:Hc; [by constructor|].
  destruct (split_by f s); inversion IH; subst; repeat constructor; auto.
Qed.

Lemma join_split_by c s : join [c] (split_by (Z.eqb c) s) = s.
Proof.
  induction s as [|d s IH]; [done|]. cbn [split_by].
  pose proof (split_by_nonempty (Z.eqb c) s).
  destruct (Z.eqb_spec c d) as [<-|Hne].
  - destruct (split_by (Z.eqb c) s) eqn:E; [done|]. rewrite <- IH. done.
  - destruct (split_by (Z.eqb c) s) as [|p [|q ps]] eqn:E; [done| |]; cbn in *; by rewrite <- IH.
Qed.

Lemma join_cons sep p l : l ≠ [] → join sep (p :: l) = p ++ sep ++ join sep l.
Proof. by destruct l. Qed.

Lemma split_by_app_sep f p c s :
  Forall (fun d => f d = false) p → f c = true → split_by f (p ++ c :: s) = p :: split_by f s.
Proof.
  intros Hp Hc. induction Hp as [|d p Hd Hp IH]; cbn; [by rewrite Hc|]. by rewrite Hd, IH.
Qed.

Lemma split_by_none f s : Forall (fun c => f c = false) s → split_by f s = [s].
Proof. induction 1 as [|c s Hc _ IH]; cbn; [done|]. by rewrite Hc, IH. Qed.

Lemma split_by_join c l :
  l ≠ [] → Forall (fun p => c ∉ p) l → split_by (Z.eqb c) (join [c] l) = l.
Proof.
  intros Hne H. induction H as [|p l Hp Hl IH]; [done|].
  assert (Forall (fun d => (c =? d) = false) p) as Hp'.
  { apply Forall_forall. intros d Hd. apply Z.eqb_neq. set_solver. }
  destruct l as [|q l]; [by apply split_by_none|].
  rewrite join_cons by done. cbn [app]. rewrite split_by_app_sep by (done || apply Z.eqb_refl).
  by rewrite IH.
Qed.

(** ** Trimming and joining *)

Lemma trim_by_edges f c s d :
  f c = false → last (c :: s) = Some d → f d = false → trim_by f (c :: s) = c :: s.
Proof.
  intros Hc Hl Hd. unfold trim_by, trim_end_by. rewrite trim_start_by_id by done.
  destruct (reverse (c :: s)) as [|e t] eqn:E.
  { apply (f_equal length) in E. by rewrite length_reverse in E. }
  assert (e = d) as ->.
  { apply (f_equal reverse) in E. rewrite reverse_involutive, reverse_cons in E.
    rewrite E, last_snoc in Hl. congruence. }
  rewrite trim_start_by_id by done. by rewrite <- E, reverse_involutive.
Qed.

Lemma trim_by_fixed f s :
  trim_by f s = s → ∀ c d, head s = Some c → last s = Some d → f c = false ∧ f d = false.
Proof.
  intros E c d Hc Hd.
  destruct (trim_end_by_prefix f (trim_start_by f s)) as [k1 E1], (trim_start_by_suffix f s) as [k2 E2].
  fold (trim_by f s) in E1. rewrite E in E1.
  assert (length k1 = 0%nat ∧ length k2 = 0%nat) as [L1 L2].
  { apply (f_equal length) in E1, E2. rewrite !length_app in *. lia. }
  apply length_zero_iff_nil in L1, L2. subst. rewrite app_nil_r in E1. split.
  - destruct s as [|c' s]; [done|]. cbn in Hc. simplify_eq. by apply trim_start_by_head in E1.
  - unfold trim_by in E. rewrite E1 in E. unfold trim_end_by in E.
    destruct (trim_start_by f (reverse s)) as [|e t] eqn:Er.
    { cbn in E. by rewrite <- E in Hd. }
    apply trim_start_by_head in Er as He. rewrite reverse_cons in E. rewrite <- E, last_snoc in Hd.
    by simplify_eq.
Qed.

Lemma byte_len_trim_by f s : byte_len (trim_by f s) <= byte_len s.
Proof.
  unfold trim_by. destruct (trim_end_by_prefix f (trim_start_by f s)) as [k1 E1].
  destruct (trim_start_by_suffix f s) as [k2 E2]. rewrite E2 at 2. rewrite E1 at 2.
  rewrite !byte_len_app. pose proof (byte_len_nonneg k1). pose proof (byte_len_nonneg k2). lia.
Qed.

Lemma split_by_join_pred f c l :
  f c = true → l ≠ [] → Forall (Forall (fun d => f d = false)) l → split_by f (join [c] l) = l.
Proof.
  intros Hc Hne H. induction H as [|p l Hp Hl IH]; [done|].
  destruct l as [|q l]; [by apply split_by_none|].
  rewrite join_cons by done. cbn [app]. rewrite split_by_app_sep by done. by rewrite IH.
Qed.

(** Each piece with the separator that follows it. *)
Definition pieces_len (l : list rstr) : Z := foldr (fun p n => byte_len p + 1 + n) 0 l.

Lemma pieces_len_join c l : len_utf8 c = 1 → l ≠ [] → byte_len (join [c] l) + 1 = pieces_len l.
Proof.
  intros Hc Hne. induction l as [|p l IH]; [done|]. cbn [pieces_len foldr]. fold (pieces_len l).
  destruct l as [|q l]; [cbn; lia|]. rewrite join_cons, !byte_len_app by done. cbn [byte_len].
  rewrite Hc, <- IH by done. lia.
Qed.

Lemma pieces_len_split f s :
  (∀ c, f c = true → len_utf8 c = 1) → pieces_len (split_by f s) = byte_len s + 1.
Proof.
  intros Hf. induction s as [|c s IH]; [done|]. cbn [split_by byte_len].
  destruct (f c) eqn:Hc.
  - cbn [pieces_len foldr]. fold (pieces_len (split_by f s)). rewrite IH, Hf by done. cbn [byte_len]. lia.
  - pose proof (split_by_nonempty f s). destruct (split_by f s) as [|p ps]; [done|].
    cbn [pieces_len foldr byte_len] in *. lia.
Qed.

Lemma parse_digits_bound max acc s n :
  0 <= acc <= max → parse_digits max acc s = Some n → 0 <= n <= max.
Proof.
  revert acc. induction s as [|c s IH]; intros acc Hacc; cbn; [by intros [= <-]|].
  unfold is_ascii_digit. case_match; [|done]. case_match; [done|]. bool_prop.
  apply IH. lia.
Qed.

Lemma parse_digits_app max acc s t :
  parse_digits max acc (s ++ t) = parse_digits max acc s ≫= fun a => parse_digits max a t.
Proof. revert acc. induction s as [|c s IH]; intros acc; [done|]. cbn. repeat case_match; done. Qed.

Lemma parse_dec_digits max fuel n :
  0 <= n <= max → n < 10 ^ Z.of_nat fuel → parse_digits max 0 (dec_digits fuel n) = Some n.
Proof.
  revert n. induction fuel as [|fuel IH]; intros n Hn Hf; [cbn in *; f_equal; lia|].
  rewrite Nat2Z.inj_succ, Z.pow_succ_r in Hf by lia. cbn [dec_digits]. rewrite parse_digits_app.
  assert (parse_digits max 0 (if n <? 10 then [] else dec_digits fuel (n / 10)) = Some (n / 10)) as ->.
  { destruct (n <? 10) eqn:Hlt; bool_prop; [cbn; f_equal; Z.to_euclidean_division_equations; lia|].
    apply IH; [Z.to_euclidean_division_equations; lia|]. apply Z.div_lt_upper_bound; lia. }
  cbn [mbind option_bind parse_digits]. unfold is_ascii_digit.
  rewrite (proj2 (Z.leb_le _ _)), (proj2 (Z.leb_le _ _)) by (Z.to_euclidean_division_equations; lia). cbn [andb].
  rewrite (proj2 (Z.ltb_ge _ _)) by (Z.to_euclidean_division_equations; lia). f_equal. Z.to_euclidean_division_equations; lia.
Qed.

Lemma dec_digits_head fuel n : 0 <= n → ∃ c s, dec_digits (S fuel) n = c :: s ∧ 48 <= c <= 57.
Proof.
  revert n. induction fuel as [|fuel IH]; intros n Hn.
  { cbn. destruct (n <? 10); do 2 eexists; (split; [done|]); Z.to_euclidean_division_equations; lia. }
  cbn [dec_digits]. destruct (n <? 10); [do 2 eexists; (split; [done|]); Z.to_euclidean_division_equations; lia|].
  destruct (IH (n / 10)) as (c & s & He & Hc); [Z.to_euclidean_division_equations; lia|]. cbn [dec_digits] in He. rewrite He. by do 2 eexists.
Qed.

Lemma parse_print_i64 n : - 2 ^ 63 <= n < 2 ^ 63 → parse_i64 (print_i64 n) = Some n.
Proof.
  intros Hn. unfold print_i64. destruct (n <? 0) eqn:Hneg; bool_prop.
  - cbn [parse_i64]. destruct (dec_digits_head 19 (- n)) as (c & s & He & _); [lia|]. rewrite He. cbn [is_empty]. rewrite <- He.
    rewrite parse_dec_digits by lia. f_equal. lia.
  - destruct (dec_digits_head 19 n) as (c & s & He & Hc); [lia|].
    assert (parse_i64 (dec_digits 20 n) = parse_digits (2 ^ 63 - 1) 0 (dec_digits 20 n)) as ->; [|by rewrite parse_dec_digits by lia].
    rewrite He. unfold parse_i64, parse_unsigned. destruct (decide (c = 45)) as [->|H1]; [lia|]. destruct (decide (c = 43)) as [->|H2]; [lia|].
    repeat case_match; simplify_eq; done.
Qed.

Lemma parse_unsigned_bound max s n :
  0 <= max → parse_unsigned max s = Some n → 0 <= n <= max.
Proof.
  unfold parse_unsigned. intros Hm. case_match; [done|]. apply parse_digits_bound. lia.
Qed.

#[export] Hint Resolve byte_len_nonneg len_utf8_pos : xls.
