(* ===== verification/BTreeMap.v ===== *)
(** * BTreeMap: ordered maps

    [std::collections::BTreeMap], used by the metric store (keyed by time) and
    inside [serde_json::Map] (keyed by string), as the list of its entries in
    increasing key order. [bt_wf] is the ordering invariant; the operations
    below preserve it. The iteration order of the Rust type is the order of the
    list. *)

From S2P Require Import Prelude Text.

(** A strict total order on keys, as a decision procedure with its laws. *)
Class TotalKey (K : Type) : Type := {
  key_ltb : K → K → bool;
  key_irrefl a : key_ltb a a = false;
  key_trans a b c : key_ltb a b = true → key_ltb b c = true → key_ltb a c = true;
  key_total a b : key_ltb a b = true ∨ a = b ∨ key_ltb b a = true;
}.

#[global] Instance Z_key : TotalKey Z.
Proof.
  refine {| key_ltb := Z.ltb |}; intros *; rewrite ?Z.ltb_lt; [apply Z.ltb_irrefl|lia|lia].
Defined.

(** Strings are compared by their UTF-8 bytes, which is the order of their
    scalar values. *)
Fixpoint str_ltb (s t : rstr) : bool :=
  match s, t with
  | _, [] => false
  | [], _ :: _ => true
  | a :: s, b :: t => (a <? b) || ((a =? b) && str_ltb s t)
  end.

#[global] Instance str_key : TotalKey rstr.
Proof.
  refine {| key_ltb := str_ltb |}.
  - induction a as [|x a IH]; [done|]. cbn. by rewrite Z.ltb_irrefl, Z.eqb_refl.
  - induction a as [|x a IH]; intros [|y b] [|z c]; cbn; try done.
    rewrite !orb_true_iff, !andb_true_iff, !Z.ltb_lt, !Z.eqb_eq.
    intros [?|[-> ?]] [?|[-> ?]]; [left; lia|left; lia|left; lia|right; eauto].
  - induction a as [|x a IH]; intros [|y b]; cbn; auto.
    rewrite !orb_true_iff, !andb_true_iff, !Z.ltb_lt, !Z.eqb_eq.
    destruct (Z.lt_trichotomy x y) as [?|[->|?]]; [auto| |auto].
    destruct (IH b) as [?|[->|?]]; auto.
Defined.

Section btree.
Context {K V : Type} `{!TotalKey K}.
Implicit Types (m : list (K * V)) (k : K) (v : V).

(** ** Operations *)

(** [BTreeMap::insert]: replaces the value of an existing key. *)
Fixpoint bt_insert k v m : list (K * V) :=
  match m with
  | [] => [(k, v)]
  | (k', v') :: m' =>
      if key_ltb k k' then (k, v) :: m
      else if key_ltb k' k then (k', v') :: bt_insert k v m'
      else (k, v) :: m'
  end.

(** [BTreeMap::get]. *)
Fixpoint bt_get k m : option V :=
  match m with
  | [] => None
  | (k', v') :: m' =>
      if key_ltb k k' then None else if key_ltb k' k then bt_get k m' else Some v'
  end.

(** The part of the map at or above [k]: what [BTreeMap::split_off] returns
    and [BTreeMap::range(k..)] iterates over. *)
Definition bt_from k m : list (K * V) := filter (fun p => key_ltb p.1 k = false) m.

(** [BTreeMap::pop_first], repeated [n] times. *)
Fixpoint bt_pop_first (n : nat) m : list (K * V) :=
  match n with O => m | S n => bt_pop_first n (tail m) end.

(** [BTreeMap::last_key_value]. *)
Definition bt_last m : option (K * V) := last m.

(** ** The ordering invariant *)

Definition klt (p q : K * V) : Prop := key_ltb p.1 q.1 = true.
Definition bt_wf m : Prop := StronglySorted klt m.

(** ** Lemmas *)

Lemma key_asym a b : key_ltb a b = true → key_ltb b a = false.
Proof.
  intros H. destruct (key_ltb b a) eqn:E; [|done].
  pose proof (key_trans _ _ _ H E) as C. by rewrite key_irrefl in C.
Qed.

Lemma key_eq a b : key_ltb a b = false → key_ltb b a = false → a = b.
Proof. intros H1 H2. destruct (key_total a b) as [?|[?|?]]; congruence. Qed.

Lemma bt_wf_nil : bt_wf [].
Proof. constructor. Qed.

Lemma bt_wf_cons p m : bt_wf (p :: m) ↔ Forall (klt p) m ∧ bt_wf m.
Proof. split; [inversion 1; auto|by intros []; constructor]. Qed.

Lemma bt_insert_keys k v m q : q ∈ bt_insert k v m → q = (k, v) ∨ q ∈ m.
Proof.
  induction m as [|[k' v'] m IH]; cbn; [set_solver|].
  repeat case_match; set_solver.
Qed.

Lemma bt_insert_wf k v m : bt_wf m → bt_wf (bt_insert k v m).
Proof.
  induction m as [|[k' v'] m IH]; [repeat constructor|].
  rewrite bt_wf_cons. intros [Hall Hwf]. cbn.
  destruct (key_ltb k k') eqn:E1; [|destruct (key_ltb k' k) eqn:E2].
  - rewrite !bt_wf_cons, Forall_cons. split; [split; [done|]|done].
    eapply Forall_impl; [done|]. intros q. unfold klt; cbn. eauto using key_trans.
  - rewrite bt_wf_cons. split; [|auto].
    apply Forall_forall. intros q [->|Hq]%bt_insert_keys; [done|].
    by eapply Forall_forall in Hall.
  - rewrite bt_wf_cons. rewrite (key_eq k k') by done. split; [|done]. done.
Qed.

Lemma bt_get_Some k v m : bt_wf m → bt_get k m = Some v ↔ (k, v) ∈ m.
Proof.
  induction m as [|[k' v'] m IH]; cbn; [set_solver|].
  rewrite bt_wf_cons. intros [Hall Hwf]. rewrite elem_of_cons.
  assert (∀ w, (k, w) ∈ m → key_ltb k' k = true) as Hlt.
  { intros w Hw. by apply (proj1 (Forall_forall _ _) Hall) in Hw. }
  destruct (key_ltb k k') eqn:E1; [|destruct (key_ltb k' k) eqn:E2].
  - split; [done|]. intros [[= -> ->]|Hv]; [by rewrite key_irrefl in E1|].
    apply Hlt, key_asym in Hv. congruence.
  - rewrite IH by done. split; [auto|]. intros [[= -> ->]|Hv]; [|done].
    by rewrite key_irrefl in E2.
  - pose proof (key_eq _ _ E1 E2) as <-. split; [intros [= ->]; auto|].
    intros [[= ->]|Hv]; [done|]. apply Hlt in Hv. congruence.
Qed.

Lemma bt_get_insert k v m : bt_get k (bt_insert k v m) = Some v.
Proof.
  induction m as [|[k' v'] m IH]; cbn; [by rewrite key_irrefl|].
  destruct (key_ltb k k') eqn:E1; [|destruct (key_ltb k' k) eqn:E2]; cbn.
  - by rewrite key_irrefl.
  - by rewrite E1, E2.
  - by rewrite key_irrefl.
Qed.

Lemma bt_get_insert_ne k k' v m : k ≠ k' → bt_get k (bt_insert k' v m) = bt_get k m.
Proof.
  intros Hne. induction m as [|[l w] m IH]; cbn.
  - destruct (key_ltb k k') eqn:?, (key_ltb k' k) eqn:?; try done. by destruct Hne; apply key_eq.
  - destruct (key_ltb k' l) eqn:E1; [|destruct (key_ltb l k') eqn:E2]; cbn.
    + destruct (key_ltb k k') eqn:E3; [by rewrite (key_trans _ _ _ E3 E1)|].
      destruct (key_ltb k' k) eqn:E4; [done|]. by destruct Hne; apply key_eq.
    + by rewrite IH.
    + pose proof (key_eq _ _ E1 E2) as <-.
      destruct (key_ltb k k') eqn:E3; [done|].
      destruct (key_ltb k' k) eqn:E4; [done|]. by destruct Hne; apply key_eq.
Qed.

(** Entries of [m] keyed below [p] cannot precede [p]. *)
Lemma bt_filter_wf (P : K * V → Prop) `{!∀ p, Decision (P p)} m : bt_wf m → bt_wf (filter P m).
Proof.
  induction m as [|p m IH]; [done|]. rewrite bt_wf_cons. intros [Hall Hwf].
  rewrite filter_cons. case_decide; [|auto]. apply bt_wf_cons. split; [|auto].
  apply Forall_forall. intros q [_ Hq]%list_elem_of_filter. by eapply Forall_forall in Hall.
Qed.

Lemma bt_from_wf k m : bt_wf m → bt_wf (bt_from k m).
Proof. apply bt_filter_wf. Qed.

Lemma bt_from_elem k m p : p ∈ bt_from k m ↔ p ∈ m ∧ key_ltb p.1 k = false.
Proof. unfold bt_from. rewrite list_elem_of_filter. naive_solver. Qed.

Lemma bt_pop_first_drop n m : bt_pop_first n m = drop n m.
Proof.
  revert m. induction n as [|n IH]; intros m; [by rewrite drop_0|]. cbn. rewrite IH.
  destruct m; cbn; [by rewrite drop_nil|done].
Qed.

Lemma bt_drop_wf n m : bt_wf m → bt_wf (drop n m).
Proof.
  revert n. induction m as [|p m IH]; intros [|n]; try done.
  rewrite bt_wf_cons. cbn. naive_solver.
Qed.

(** Dropping entries from the front keeps the entries with the largest keys. *)
Lemma bt_drop_newest n m p q : bt_wf m → p ∈ take n m → q ∈ drop n m → klt p q.
Proof.
  revert n. induction m as [|x m IH]; intros [|n]; cbn; try set_solver.
  rewrite bt_wf_cons. intros [Hall Hwf] [->|Hp]%elem_of_cons Hq; [|by eapply IH].
  eapply Forall_forall; [done|]. rewrite <- (take_drop n m). set_solver.
Qed.

Lemma bt_last_newest m p q : bt_wf m → bt_last m = Some p → q ∈ m → q = p ∨ klt q p.
Proof.
  induction m as [|x m IH]; [done|]. rewrite bt_wf_cons. intros [Hall Hwf] Hl.
  unfold bt_last in *. destruct m as [|y m]; [injection Hl as ->; set_solver|].
  rewrite last_cons_cons in Hl. intros [->|Hq]%elem_of_cons; [|by apply IH].
  right. eapply Forall_forall; [done|]. by apply last_Some_elem_of.
Qed.

(** A well-formed map is determined by its lookups. *)
Lemma bt_wf_ext m1 m2 : bt_wf m1 → bt_wf m2 → (∀ p, p ∈ m1 ↔ p ∈ m2) → m1 = m2.
Proof.
  revert m2. induction m1 as [|p1 m1 IH]; intros [|p2 m2]; try done.
  - intros _ _ H. specialize (H p2). set_solver.
  - intros _ _ H. specialize (H p1). set_solver.
  - rewrite !bt_wf_cons. intros [Ha1 Hw1] [Ha2 Hw2] H.
    assert (∀ p, ¬ klt p p) as Hirr by (intros p Hp; unfold klt in Hp; by rewrite key_irrefl in Hp).
    assert (∀ p q, klt p q → klt q p → False) as Hasym.
    { intros p q Hpq Hqp. apply key_asym in Hpq. unfold klt in *. congruence. }
    rewrite Forall_forall in Ha1, Ha2.
    assert (p1 = p2) as ->.
    { destruct (proj1 (elem_of_cons _ _ _) (proj1 (H p1) ltac:(set_solver))) as [?|H1]; [done|].
      destruct (proj1 (elem_of_cons _ _ _) (proj2 (H p2) ltac:(set_solver))) as [?|H2]; [done|].
      exfalso. eauto. }
    f_equal. apply IH; [done|done|]. intros p. specialize (H p). rewrite !elem_of_cons in H.
    split; intros Hp.
    + destruct (proj1 H (or_intror Hp)) as [->|?]; [|done]. by destruct (Hirr p2); auto.
    + destruct (proj2 H (or_intror Hp)) as [->|?]; [|done]. by destruct (Hirr p2); auto.
Qed.

Lemma bt_insert_spec k v m p :
  bt_wf m → p ∈ bt_insert k v m ↔ p = (k, v) ∨ (p ∈ m ∧ p.1 ≠ k).
Proof.
  intros Hwf. destruct p as [k' v'].
  rewrite <- bt_get_Some by by apply bt_insert_wf.
  destruct (key_total k' k) as [H|[->|H]].
  2: { rewrite bt_get_insert. cbn. naive_solver. }
  all: assert (k' ≠ k) as Hne by (intros ->; by rewrite key_irrefl in H).
  all: rewrite bt_get_insert_ne, bt_get_Some by done; cbn; naive_solver.
Qed.

(** ** The newest entries *)

(** The [n] entries with the largest keys. *)
Definition newest (n : nat) m : list (K * V) := drop (length m - n) m.

Lemma newest_small n m : (length m <= n)%nat → newest n m = m.
Proof. intros H. unfold newest. by replace (length m - n)%nat with 0%nat by lia. Qed.

Lemma newest_length n m : length (newest n m) = Nat.min n (length m).
Proof. unfold newest. rewrite length_drop. lia. Qed.

Lemma newest_app n m1 m2 : (n <= length m2)%nat → newest n (m1 ++ m2) = newest n m2.
Proof.
  intros H. unfold newest. rewrite length_app, drop_app_ge by lia. f_equal. lia.
Qed.

Lemma newest_idemp n m : newest n (newest n m) = newest n m.
Proof. apply newest_small. rewrite newest_length. lia. Qed.

Lemma newest_wf n m : bt_wf m → bt_wf (newest n m).
Proof. apply bt_drop_wf. Qed.

Lemma newest_elem n m p : p ∈ newest n m → p ∈ m.
Proof. unfold newest. intros H. rewrite <- (take_drop (length m - n) m). set_solver. Qed.

Lemma bt_wf_app m1 m2 :
  bt_wf (m1 ++ m2) ↔ bt_wf m1 ∧ bt_wf m2 ∧ ∀ p q, p ∈ m1 → q ∈ m2 → klt p q.
Proof.
  induction m1 as [|p m1 IH]; cbn; [set_solver by eauto using bt_wf_nil|].
  rewrite !bt_wf_cons, IH, Forall_app, !Forall_forall. set_solver.
Qed.

Lemma bt_insert_app_r k v m1 m2 :
  (∀ p, p ∈ m1 → key_ltb p.1 k = true) → bt_insert k v (m1 ++ m2) = m1 ++ bt_insert k v m2.
Proof.
  induction m1 as [|[k' v'] m1 IH]; intros H; [done|]. cbn.
  pose proof (H (k', v') ltac:(set_solver)) as Hk. cbn in Hk.
  rewrite (key_asym _ _ Hk), Hk. f_equal. apply IH. set_solver.
Qed.

Lemma bt_insert_app_l k v m1 m2 :
  (∀ p, p ∈ m2 → key_ltb k p.1 = true) → bt_insert k v (m1 ++ m2) = bt_insert k v m1 ++ m2.
Proof.
  intros H. induction m1 as [|[k' v'] m1 IH]; cbn.
  - destruct m2 as [|[k' v'] m2]; [done|]. pose proof (H (k', v') ltac:(set_solver)) as Hk.
    cbn in *. by rewrite Hk.
  - rewrite IH. by repeat case_match.
Qed.

Lemma bt_insert_length k v m : (length m <= length (bt_insert k v m))%nat.
Proof. induction m as [|[k' v'] m IH]; cbn; [lia|]. repeat case_match; cbn; lia. Qed.

(** Keeping the newest [n] before an insertion does not change which [n] are
    newest after it. *)
Lemma newest_insert n k v m :
  bt_wf m → newest n (bt_insert k v (newest n m)) = newest n (bt_insert k v m).
Proof.
  intros Hwf. destruct (decide (length m <= n)%nat) as [|Hlen]; [by rewrite (newest_small n m)|].
  rewrite <- (take_drop (length m - n) m) in Hwf |- * at 2.
  fold (newest n m) in *. set (old := take _ _) in *. set (new := newest n m) in *.
  assert (length new = n) as Hn by (unfold new; rewrite newest_length; lia).
  apply bt_wf_app in Hwf as (_ & Hnew & Hlt). clearbody old new. clear m Hlen.
  destruct new as [|[k' v'] new].
  { cbn in Hn. subst n. unfold newest. by rewrite !Nat.sub_0_r, !drop_all. }
  destruct (key_ltb k k') eqn:Hk.
  - assert (∀ p, p ∈ (k', v') :: new → key_ltb k p.1 = true) as Hall.
    { intros p [->|Hp]%elem_of_cons; [done|]. apply bt_wf_cons in Hnew as [Hnew _].
      eapply key_trans; [done|]. by apply (proj1 (Forall_forall _ _) Hnew p). }
    rewrite bt_insert_app_l by done. cbn [bt_insert]. rewrite Hk.
    rewrite (newest_app n _ ((k', v') :: new)) by lia.
    apply (newest_app n [(k, v)] ((k', v') :: new)). lia.
  - rewrite bt_insert_app_r.
    + rewrite newest_app; [done|]. rewrite <- Hn. apply bt_insert_length.
    + intros p Hp. pose proof (Hlt p (k', v') Hp ltac:(set_solver)) as Hpk. unfold klt in Hpk. cbn in Hpk.
      destruct (key_total k' k) as [H|[<-|H]]; [by eapply key_trans|done|congruence].
Qed.

(** A lookup below, inside or above a cutoff. *)
Lemma bt_from_insert c k v m :
  bt_wf m → bt_from c (bt_insert k v m)
    = if key_ltb k c then bt_from c m else bt_insert k v (bt_from c m).
Proof.
  intros Hwf. apply bt_wf_ext; [by apply bt_from_wf, bt_insert_wf|case_match; eauto using bt_insert_wf, bt_from_wf|].
  intros p. rewrite bt_from_elem, bt_insert_spec by done. destruct (key_ltb k c) eqn:E.
  - rewrite bt_from_elem. split.
    + intros [[->|[? ?]] Hc]; cbn in *; [congruence|auto].
    + intros [Hp Hc]. split; [|done]. right. split; [done|]. intros Heq. congruence.
  - rewrite bt_insert_spec, bt_from_elem by by apply bt_from_wf. split; [intuition|].
    intros [->|[[] ?]]; cbn; auto.
Qed.

Lemma bt_from_idemp c m : bt_from c (bt_from c m) = bt_from c m.
Proof. unfold bt_from. rewrite list_filter_filter. apply list_filter_iff. tauto. Qed.

End btree.

#[export] Hint Resolve bt_wf_nil bt_insert_wf bt_from_wf bt_filter_wf bt_drop_wf : xls.
