(* ===== verification/Json.v ===== *)
(** * Json: [serde_json::Value]

    The value type the Agents' telemetry, the metric store and the alert
    engine exchange. Numbers are [serde_json]'s three cases; an [f64] is
    Rocq's [spec_float], the IEEE 754 binary64 datum with the arithmetic of
    [SpecFloat] at precision 53 and maximal exponent 1024. An object is the
    [BTreeMap] of its fields ([serde_json] is built without its
    [preserve_order] feature). *)

From S2P Require Import Prelude Text BTreeMap.
From Stdlib Require Import SpecFloat.

(** ** binary64 *)

Abbreviation f64 := spec_float.

Definition f64_of_Z (z : Z) : f64 := binary_normalize 53 1024 z 0 false.
Definition f64_div : f64 → f64 → f64 := SFdiv 53 1024.
Definition f64_mul : f64 → f64 → f64 := SFmul 53 1024.
Definition f64_add : f64 → f64 → f64 := SFadd 53 1024.
Definition f64_abs : f64 → f64 := SFabs.
Definition f64_zero : f64 := S754_zero false.

(** The comparison operators: false as soon as an operand is a NaN. *)
Definition f64_gt (x y : f64) : bool := SFltb y x.
Definition f64_lt (x y : f64) : bool := SFltb x y.
Definition f64_ge (x y : f64) : bool := SFleb y x.
Definition f64_le (x y : f64) : bool := SFleb x y.

(** [f64::is_finite]. *)
Definition is_finite (x : f64) : bool :=
  match x with S754_zero _ | S754_finite _ _ _ => true | _ => false end.

(** [str::parse::<f64>]: an optional sign, then [inf], [infinity] or [nan] in
    any case, or decimal digits with an optional point and exponent. The decimal
    [m * 10^e] is rounded to the nearest value, ties to even: one rounding of an
    exact integer, or of an exact quotient. *)
Fixpoint span_digits (s : rstr) : rstr * rstr :=
  match s with
  | c :: t => if is_ascii_digit c then let '(ds, rest) := span_digits t in (c :: ds, rest) else ([], s)
  | [] => ([], [])
  end.

Definition decimal_value (ds : rstr) : Z := foldl (fun acc c => acc * 10 + (c - 48)) 0 ds.

(** A sign, if there is one: whether it is a minus, and the rest. *)
Definition read_sign (s : rstr) : bool * rstr :=
  match s with
  | 43 :: s => (false, s)
  | 45 :: s => (true, s)
  | _ => (false, s)
  end.

(** [digits [. digits] [e [sign] digits]], as a mantissa and an exponent. *)
Definition read_decimal (s : rstr) : option (Z * Z) :=
  let '(whole, s) := span_digits s in
  let '(fraction, s) := match s with 46 :: t => span_digits t | _ => ([], s) end in
  if is_empty (whole ++ fraction) then None else
  let m := decimal_value (whole ++ fraction) in
  match s with
  | [] => Some (m, - zlen fraction)
  | c :: s =>
      if negb (ascii_lower c =? 101) then None else
      let '(neg, s) := read_sign s in
      let '(ds, s) := span_digits s in
      if is_empty ds || negb (is_empty s) then None
      else Some (m, (if neg then - decimal_value ds else decimal_value ds) - zlen fraction)
  end.

Definition f64_of_decimal (neg : bool) (m e : Z) : f64 :=
  match m with
  | Zpos p =>
      if 0 <=? e then binary_normalize 53 1024 ((if neg then -1 else 1) * (m * 10 ^ e)) 0 neg
      else let '(q, x, l) := SFdiv_core_binary 53 1024 (Zpos p) 0 (10 ^ (- e)) 0 in
           binary_round_aux 53 1024 neg q x l
  | _ => S754_zero neg
  end.

Definition parse_f64 (s : rstr) : option f64 :=
  let '(neg, s) := read_sign s in
  match read_decimal s with
  | Some (m, e) => Some (f64_of_decimal neg m e)
  | None =>
      if eq_ignore_ascii_case s (lit "nan") then Some S754_nan
      else if eq_ignore_ascii_case s (lit "inf") || eq_ignore_ascii_case s (lit "infinity")
           then Some (S754_infinity neg) else None
  end.

Lemma parse_f64_examples :
  parse_f64 (lit "0.1") = Some (S754_finite false 7205759403792794 (-56))
  ∧ parse_f64 (lit "-12.5e1") = Some (f64_of_Z (-125)) ∧ parse_f64 (lit "+3.") = Some (f64_of_Z 3)
  ∧ parse_f64 (lit "Infinity") = Some (S754_infinity false) ∧ parse_f64 (lit "1e") = None ∧ parse_f64 (lit ".") = None.
Proof. by vm_compute. Qed.

(** ** Values *)

Inductive number : Type :=
| PosInt (n : Z)      (** a [u64] *)
| NegInt (n : Z)      (** a negative [i64] *)
| Float (x : f64).

#[local] Unset Elimination Schemes.
Inductive json : Type :=
| JNull
| JBool (b : bool)
| JNumber (n : number)
| JString (s : rstr)
| JArray (items : list json)
| JObject (fields : list (rstr * json)).
#[local] Set Elimination Schemes.

Section json_ind.
Variable P : json → Prop.
Hypothesis HNull : P JNull.
Hypothesis HBool : ∀ b, P (JBool b).
Hypothesis HNumber : ∀ n, P (JNumber n).
Hypothesis HString : ∀ s, P (JString s).
Hypothesis HArray : ∀ items, Forall P items → P (JArray items).
Hypothesis HObject : ∀ fields, Forall (fun kv => P kv.2) fields → P (JObject fields).

Fixpoint json_ind (v : json) : P v :=
  match v with
  | JNull => HNull
  | JBool b => HBool b
  | JNumber n => HNumber n
  | JString s => HString s
  | JArray items =>
      HArray items ((fix go l : Forall P l :=
        match l with [] => Forall_nil_2 _ | x :: l => Forall_cons_2 _ _ _ (json_ind x) (go l) end) items)
  | JObject fields =>
      HObject fields ((fix go l : Forall (fun kv => P kv.2) l :=
        match l with [] => Forall_nil_2 _ | x :: l => Forall_cons_2 _ _ _ (json_ind x.2) (go l) end) fields)
  end.
End json_ind.

(** ** Accessors *)

(** [Value::get] with a string key. *)
Definition json_get (key : rstr) (v : json) : option json :=
  match v with JObject fields => bt_get key fields | _ => None end.

Definition as_array (v : json) : option (list json) :=
  match v with JArray items => Some items | _ => None end.
Definition as_str (v : json) : option rstr :=
  match v with JString s => Some s | _ => None end.
Definition as_bool (v : json) : option bool :=
  match v with JBool b => Some b | _ => None end.

Definition number_as_f64 (n : number) : f64 :=
  match n with PosInt n | NegInt n => f64_of_Z n | Float x => x end.
Definition as_f64 (v : json) : option f64 :=
  match v with JNumber n => Some (number_as_f64 n) | _ => None end.
Definition as_u64 (v : json) : option Z :=
  match v with JNumber (PosInt n) => Some n | _ => None end.
Definition as_i64 (v : json) : option Z :=
  match v with
  | JNumber (PosInt n) => if n <=? i64_max then Some n else None
  | JNumber (NegInt n) => Some n
  | _ => None
  end.

Definition as_object (v : json) : option (list (rstr * json)) :=
  match v with JObject fields => Some fields | _ => None end.

(** ** [crates/server/src/api/v1/agent_json.rs]

    The JSON an Agent or the dashboard stored, with [serde_json::from_str] as an
    argument: nothing longer than the limit is parsed. *)
Definition AGENT_DASHBOARD_METADATA_JSON_MAX_BYTES : Z := 16 * 1024.
Definition AGENT_TELEMETRY_JSON_MAX_BYTES : Z := 256 * 1024.

Definition parse_bounded_agent_json {A} (json_parse : rstr → option A) (value : option rstr) (max_bytes : Z)
    : option A :=
  value ← value;
  if max_bytes <? byte_len value then None else
  let value := trim value in
  if is_empty value || (max_bytes <? byte_len value) then None else json_parse value.

(** ** Well-formed values: what [serde_json] can build *)

Definition number_wf (n : number) : bool :=
  match n with
  | PosInt n => (0 <=? n) && (n <=? u64_max)
  | NegInt n => (i64_min <=? n) && (n <? 0)
  | Float x => is_finite x
  end.

(** The nesting depth: a scalar or an empty container is at depth 0. *)
Fixpoint json_depth (v : json) : Z :=
  match v with
  | JArray items => foldr (fun x d => Z.max (1 + json_depth x) d) 0 items
  | JObject fields => foldr (fun kv d => Z.max (1 + json_depth kv.2) d) 0 fields
  | _ => 0
  end.

Fixpoint json_forall_numbers (f : number → bool) (v : json) : bool :=
  match v with
  | JNumber n => f n
  | JArray items => forallb (json_forall_numbers f) items
  | JObject fields => forallb (fun kv => json_forall_numbers f kv.2) fields
  | _ => true
  end.

Lemma json_depth_nonneg v : 0 <= json_depth v.
Proof. destruct v as [| | | |l|l]; cbn; try lia; induction l; cbn; lia. Qed.
