(* ===== verification/Externals.v ===== *)
(** * Externals: the third-party crates the modelled code relies on

    The crates [chrono] and [uuid] are not part of the repository: what the
    code uses of them is a class, whose laws are their documented behaviour.
    Each class has an instance, with which the witnesses are evaluated. *)

From S2P Require Import Prelude Text.

(** ** chrono

    A [DateTime<Utc>] is its distance to the Unix epoch in nanoseconds; the
    crate represents the interval between [MIN_UTC] and [MAX_UTC], which holds
    the epoch. A [Duration] is a signed number of nanoseconds. *)

Class Chrono : Type := {
  MIN_UTC : Z;
  MAX_UTC : Z;
  epoch_in_range : MIN_UTC <= 0 <= MAX_UTC;
}.

Definition UNIX_EPOCH : Z := 0.
Definition milliseconds (n : Z) : Z := n * 1000000.
Definition seconds (n : Z) : Z := n * 1000000000.
Definition days (n : Z) : Z := seconds (n * 86400).

(** [DateTime::timestamp]: whole seconds since the epoch, rounded down. *)
Definition timestamp (t : Z) : Z := t / 1000000000.

(** [Duration::num_seconds]: whole seconds, rounded toward zero. *)
Definition num_seconds (d : Z) : Z := Z.quot d 1000000000.

Section chrono.
Context `{Chrono}.

Definition in_range (t : Z) : bool := (MIN_UTC <=? t) && (t <=? MAX_UTC).

Definition checked_add_signed (t d : Z) : option Z :=
  if in_range (t + d) then Some (t + d) else None.
Definition checked_sub_signed (t d : Z) : option Z :=
  if in_range (t - d) then Some (t - d) else None.
End chrono.

(** The bounds of chrono 0.4: the years -262143 to 262142. *)
#[export] Instance chrono_0_4 : Chrono.
Proof.
  refine {| MIN_UTC := -8334601228800000000000; MAX_UTC := 8210266876799999999999 |}. lia.
Defined.

(** ** uuid

    [Uuid::parse_str] and [Uuid::to_string]. The text [to_string] produces is
    the canonical one: 36 ASCII characters, and [parse_str] reads it back. *)

Definition uuid_ok (u : Z) : Prop := 0 <= u < 2 ^ 128.

Class UuidLib : Type := {
  uuid_parse : rstr → option Z;
  uuid_to_string : Z → rstr;
  uuid_parse_ok s u : uuid_parse s = Some u → uuid_ok u;
  uuid_roundtrip u : uuid_ok u → uuid_parse (uuid_to_string u) = Some u;
  uuid_text_len u : byte_len (uuid_to_string u) = 36;
  uuid_text_hex u c : c ∈ uuid_to_string u → 48 <= c <= 57 ∨ 97 <= c <= 102 ∨ c = 45;
}.

(** The canonical printer, and a parser of exactly the texts it prints. *)
Definition hex_digit (d : Z) : Z := if d <? 10 then 48 + d else 87 + d.
Fixpoint hex_digits (n : nat) (u : Z) : rstr :=
  match n with O => [] | S n => hex_digits n (u / 16) ++ [hex_digit (u mod 16)] end.
Definition hyphenate (s : rstr) : rstr :=
  take 8 s ++ [45] ++ take 4 (drop 8 s) ++ [45] ++ take 4 (drop 12 s) ++ [45]
  ++ take 4 (drop 16 s) ++ [45] ++ drop 20 s.
Fixpoint hex_value (acc : Z) (s : rstr) : option Z :=
  match s with
  | [] => Some acc
  | c :: s => match to_digit 16 c with Some d => hex_value (16 * acc + d) s | None => None end
  end.
Definition canonical_print (u : Z) : rstr := hyphenate (hex_digits 32 u).
Definition canonical_parse (s : rstr) : option Z :=
  match hex_value 0 (filter (fun c => c ≠ 45) s) with
  | Some u => if bool_decide (canonical_print u = s ∧ uuid_ok u) then Some u else None
  | None => None
  end.

Section canonical.
Lemma hex_digits_length n u : length (hex_digits n u) = n.
Proof. revert u. induction n; intros u; cbn; [done|]. rewrite length_app, IHn. cbn. lia. Qed.

Lemma hex_digit_range d : 0 <= d < 16 → 48 <= hex_digit d <= 57 ∨ 97 <= hex_digit d <= 102.
Proof. unfold hex_digit. intros. case_match; bool_prop; lia. Qed.

Lemma hex_digits_range n u : Forall (fun c => 48 <= c <= 57 ∨ 97 <= c <= 102) (hex_digits n u).
Proof.
  revert u. induction n; intros u; cbn; [constructor|]. apply Forall_app. split; [auto|].
  apply Forall_singleton, hex_digit_range, Z.mod_pos_bound. lia.
Qed.

Lemma to_digit_hex d : 0 <= d < 16 → to_digit 16 (hex_digit d) = Some d.
Proof.
  intros H. assert (d ∈ seqZ 0 16) as Hd by (apply elem_of_seqZ; lia).
  revert Hd. clear H. revert d. apply Forall_forall. repeat constructor.
Qed.

Lemma hex_value_app acc s t :
  hex_value acc (s ++ t) = hex_value acc s ≫= fun a => hex_value a t.
Proof. revert acc. induction s as [|c s IH]; intros acc; cbn; [done|]. by case_match. Qed.

Lemma hex_value_digits n acc u :
  0 <= u → hex_value acc (hex_digits n u) = Some (16 ^ Z.of_nat n * acc + u mod 16 ^ Z.of_nat n).
Proof.
  revert acc u. induction n as [|n IH]; intros acc u Hu; cbn [hex_digits].
  - cbn [hex_value]. f_equal. rewrite Z.pow_0_r, Z.mod_1_r. lia.
  - rewrite hex_value_app, IH by (apply Z.div_pos; lia). cbn [mbind option_bind hex_value].
    rewrite to_digit_hex by (apply Z.mod_pos_bound; lia). f_equal.
    rewrite Nat2Z.inj_succ, Z.pow_succ_r by lia.
    rewrite (Z.rem_mul_r u 16) by (try apply Z.pow_pos_nonneg; lia). ring.
Qed.

Lemma filter_hyphenate s :
  Forall (fun c => c ≠ 45) s → filter (fun c => c ≠ 45) (hyphenate s) = s.
Proof.
  intros Hs. assert (∀ t, Forall (fun c => c ≠ 45) t → filter (fun c => c ≠ 45) t = t) as Hid.
  { induction 1 as [|c t Hc _ IH]; [done|]. rewrite filter_cons_True by done. by f_equal. }
  unfold hyphenate. rewrite !filter_app. change (filter (fun c => c ≠ 45) [45]) with (@nil Z).
  repeat (rewrite Hid by auto using Forall_take, Forall_drop). cbn [app].
  replace (drop 20 s) with (drop 4 (drop 16 s)) by by rewrite drop_drop.
  rewrite take_drop. replace (drop 16 s) with (drop 4 (drop 12 s)) by by rewrite drop_drop.
  rewrite take_drop. replace (drop 12 s) with (drop 4 (drop 8 s)) by by rewrite drop_drop.
  by rewrite !take_drop.
Qed.

Lemma Forall_hyphenate (P : Z → Prop) s : P 45 → Forall P s → Forall P (hyphenate s).
Proof.
  intros H45 Hs. unfold hyphenate. rewrite !Forall_app, !Forall_singleton.
  auto 10 using Forall_take, Forall_drop.
Qed.

Lemma byte_len_ascii s : Forall (fun c => c < 128) s → byte_len s = zlen s.
Proof.
  unfold zlen. induction 1 as [|c s Hc _ IH]; [done|]. cbn. rewrite IH. unfold len_utf8.
  rewrite (proj2 (Z.ltb_lt c 0x80)) by done. lia.
Qed.

Lemma canonical_print_chars u : Forall (fun c => 48 <= c <= 57 ∨ 97 <= c <= 102 ∨ c = 45) (canonical_print u).
Proof.
  apply Forall_hyphenate; [lia|]. eapply Forall_impl; [apply hex_digits_range|]. cbn. lia.
Qed.

Lemma canonical_print_len u : byte_len (canonical_print u) = 36.
Proof.
  rewrite byte_len_ascii.
  - unfold zlen, canonical_print, hyphenate. pose proof (hex_digits_length 32 u) as H.
    rewrite !length_app, !length_take, !length_drop, H. done.
  - eapply Forall_impl; [apply canonical_print_chars|]. cbn. lia.
Qed.

Lemma canonical_roundtrip u : uuid_ok u → canonical_parse (canonical_print u) = Some u.
Proof.
  intros Hu. unfold canonical_parse. unfold canonical_print at 1. rewrite filter_hyphenate.
  - unfold uuid_ok in Hu. rewrite hex_value_digits by lia.
    replace (16 ^ Z.of_nat 32) with (2 ^ 128) by done.
    rewrite Z.mul_0_r, Z.add_0_l, Z.mod_small by done. by rewrite bool_decide_eq_true_2.
  - eapply Forall_impl; [apply hex_digits_range|]. cbn. lia.
Qed.
End canonical.

#[export] Instance uuid_canonical : UuidLib.
Proof.
  refine {| uuid_parse := canonical_parse; uuid_to_string := canonical_print |}.
  - unfold canonical_parse. intros s u. repeat case_match; try done. intros [= <-].
    bool_prop. naive_solver.
  - apply canonical_roundtrip.
  - apply canonical_print_len.
  - intros u c. apply (Forall_forall (fun c => 48 <= c <= 57 ∨ 97 <= c <= 102 ∨ c = 45)), canonical_print_chars.
Defined.

(** ** What the laws give *)

Section uuid.
Context `{UuidLib}.

Lemma uuid_to_string_inj u v : uuid_ok u → uuid_ok v → uuid_to_string u = uuid_to_string v → u = v.
Proof.
  intros Hu Hv E. apply (f_equal uuid_parse) in E. rewrite !uuid_roundtrip in E by done. congruence.
Qed.

Lemma uuid_text_chars u c : c ∈ uuid_to_string u → 32 < c < 127.
Proof. intros Hc%uuid_text_hex. lia. Qed.

Lemma uuid_text_length u : length (uuid_to_string u) = 36%nat.
Proof.
  pose proof (uuid_text_len u) as Hl. rewrite byte_len_ascii in Hl; [unfold zlen in Hl; lia|].
  apply Forall_forall. intros c Hc%uuid_text_chars. lia.
Qed.

Lemma uuid_to_string_nonempty u : uuid_to_string u ≠ [].
Proof. intros E. pose proof (uuid_text_len u) as L. by rewrite E in L. Qed.

(** A canonical text survives [trim] and holds no control character. *)
Lemma uuid_to_string_trim u : trim (uuid_to_string u) = uuid_to_string u.
Proof.
  apply trim_by_none, Forall_forall. intros c Hc%uuid_text_chars. unfold is_whitespace.
  repeat (apply orb_false_iff; split); rewrite ?andb_false_iff, ?Z.leb_gt, ?Z.eqb_neq; lia.
Qed.
End uuid.

(** ** hex

    Hexadecimal text, for the instances of the classes that rely on the crate. *)

Definition hex_of (l : list Z) : rstr := l ≫= hex_digits 2.
Fixpoint hex_bytes (s : rstr) : option (list Z) :=
  match s with
  | [] => Some []
  | a :: b :: s => x ← to_digit 16 a; y ← to_digit 16 b; l ← hex_bytes s; Some (16 * x + y :: l)
  | _ => None
  end.

Lemma hex_of_cons b l : hex_of (b :: l) = hex_digit (b / 16 mod 16) :: hex_digit (b mod 16) :: hex_of l.
Proof. done. Qed.

Lemma hex_bytes_of l : Forall (fun b => 0 <= b < 256) l → hex_bytes (hex_of l) = Some l.
Proof.
  induction 1 as [|b l Hb _ IH]; [done|]. rewrite hex_of_cons. cbn [hex_bytes].
  rewrite !to_digit_hex by (apply Z.mod_pos_bound; lia). rewrite IH. cbn [mbind option_bind].
  do 2 f_equal. Z.to_euclidean_division_equations; lia.
Qed.

Lemma hex_of_length l : length (hex_of l) = (2 * length l)%nat.
Proof. induction l as [|b l IH]; [done|]. rewrite hex_of_cons. cbn [length]. lia. Qed.

Lemma hex_of_chars l : Forall (fun c => 48 <= c <= 57 ∨ 97 <= c <= 102) (hex_of l).
Proof.
  induction l as [|b l IH]; [constructor|]. rewrite hex_of_cons.
  repeat (apply Forall_cons; split; [apply hex_digit_range, Z.mod_pos_bound; lia|]). done.
Qed.
