(* ===== verification/Tsdb.v ===== *)
(** * Tsdb: the embedded time-series store ([crates/tsdb])

    [InMemoryMetricStore] keeps, per Agent, the samples of the retention window
    ordered by time. The model has its state ([InMemoryState]), the payload and
    timestamp validation, compaction, every operation of the [MetricBackend]
    trait and the [MetricStore] facade. The clock ([Utc::now]) is the argument
    [now] of the operations that read it. *)

From S2P Require Import Prelude Text BTreeMap Json Externals.

Module Tsdb.

(** ** Data *)

Definition MAX_SAMPLE_PAYLOAD_BYTES : Z := 64 * 1024.
Definition MAX_SAMPLE_JSON_DEPTH : Z := 16.
Definition MAX_BATCH_SAMPLES : Z := 256000.
Definition MAX_SAMPLES_PER_AGENT : Z := 50000.
Definition MAX_RETENTION_DAYS : Z := 3650.
Definition MAX_FUTURE_SKEW_SECONDS : Z := 86400.

(** The messages of [MetricError::Backend]. *)
Inductive BackendReason : Type :=
| PayloadTooLarge | PayloadTooDeep | NonFiniteNumber
| BatchTooLarge (n : Z)
| RetentionNotPositive | RetentionTooLong
| NoSampleExport | NoDynamicRetention.

(** [InvalidTimestamp] carries the instant its text prints. *)
Inductive MetricError : Type :=
| InvalidTimestamp (t : Z)
| Backend (why : BackendReason).

(** An [AgentId] is its UUID, as a number. *)
Abbreviation AgentId := Z (only parsing).

Record MetricSample := {
  agent_id : AgentId;
  sample_at : Z;
  fields_json : json;
}.

Record MetricSeries := {
  series_agent : AgentId;
  samples : list MetricSample;
}.

(** [MetricSeries::latest]. *)
Definition series_latest (s : MetricSeries) : option MetricSample := last (samples s).

Inductive QueryRange : Type := Day1 | Day7 | Day30.

Definition to_chrono_duration (r : QueryRange) : Z :=
  match r with Day1 => days 1 | Day7 => days 7 | Day30 => days 30 end.

Definition QueryRange_as_str (r : QueryRange) : rstr :=
  match r with Day1 => lit "1d" | Day7 => lit "7d" | Day30 => lit "30d" end.

Definition QueryRange_parse (s : rstr) : option QueryRange :=
  if bool_decide (s = lit "1d") then Some Day1
  else if bool_decide (s = lit "7d") then Some Day7
  else if bool_decide (s = lit "30d") then Some Day30
  else None.

(** One Agent's samples: a [BTreeMap] from time to payload. *)
Abbreviation entries := (list (Z * json)) (only parsing).

Record InMemoryState := {
  series : gmap AgentId entries;
  retention : Z;
}.

(** ** Retention and validation *)

Definition normalize_retention (r : Z) : Z :=
  Z.max (milliseconds 1) (Z.min (days MAX_RETENTION_DAYS) r).

Definition cutoff_for_retention `{Chrono} (now r : Z) : Z :=
  let clamped := Z.max r 0 in
  Z.max (default UNIX_EPOCH (checked_sub_signed now clamped)) UNIX_EPOCH.

Definition add_bytes (accumulated n : Z) : result MetricError Z :=
  let accumulated := saturating_add usize_max accumulated n in
  if MAX_SAMPLE_PAYLOAD_BYTES <? accumulated then Err (Backend PayloadTooLarge)
  else Ok accumulated.

(** The recursive descent over the payload; the accumulated byte count is
    threaded through the result. *)
Fixpoint walk (value : json) (depth accumulated : Z) : result MetricError Z :=
  if MAX_SAMPLE_JSON_DEPTH <? depth then Err (Backend PayloadTooDeep) else
  match value with
  | JNull => add_bytes accumulated 4
  | JBool b => add_bytes accumulated (if b then 4 else 5)
  | JNumber num =>
      if negb (is_finite (number_as_f64 num)) then Err (Backend NonFiniteNumber)
      else add_bytes accumulated 24
  | JString s => add_bytes accumulated (saturating_add usize_max (byte_len s) 2)
  | JArray items =>
      accumulated ← add_bytes accumulated 2;
      try_fold (fun accumulated item =>
        accumulated ← add_bytes accumulated 1;
        walk item (depth + 1) accumulated) items accumulated
  | JObject map =>
      accumulated ← add_bytes accumulated 2;
      try_fold (fun accumulated kv =>
        accumulated ← add_bytes accumulated (saturating_add usize_max (byte_len kv.1) 4);
        walk kv.2 (depth + 1) accumulated) map accumulated
  end.

Definition validate_sample_payload (value : json) : result MetricError Z := walk value 0 0.

Definition validate_sample `{Chrono} (sample : MetricSample) (now : Z) : result MetricError unit :=
  if timestamp (sample_at sample) <? 0 then Err (InvalidTimestamp (sample_at sample)) else
  let max_allowed := default MAX_UTC (checked_add_signed now (seconds MAX_FUTURE_SKEW_SECONDS)) in
  if max_allowed <? sample_at sample then Err (InvalidTimestamp (sample_at sample)) else
  validate_sample_payload (fields_json sample) ;;
  Ok ().

(** ** Compaction *)

(** [compact_series]: the kept entries and the number dropped. *)
Definition compact_series (e : entries) (cutoff : Z) : entries * Z :=
  let before := zlen e in
  let e := bt_from cutoff e in
  let e := if MAX_SAMPLES_PER_AGENT <? zlen e
           then bt_pop_first (Z.to_nat (zlen e - MAX_SAMPLES_PER_AGENT)) e else e in
  (e, saturating_sub before (zlen e)).

Definition compact_agent (m : gmap AgentId entries) (a : AgentId) (cutoff : Z)
    : gmap AgentId entries * Z :=
  match m !! a with
  | None => (m, 0)
  | Some e =>
      let (e, dropped) := compact_series e cutoff in
      (if is_empty e then delete a m else <[a := e]> m, dropped)
  end.

(** [HashMap::retain] over every series. *)
Definition compact_all (st : InMemoryState) (cutoff : Z) : InMemoryState * Z :=
  ({| series := omap (fun e => let e := (compact_series e cutoff).1 in
                               if is_empty e then None else Some e) (series st);
      retention := retention st |},
   map_fold (fun _ e dropped => saturating_add usize_max dropped (compact_series e cutoff).2)
     0 (series st)).

(** ** The store's operations *)

Definition with_retention (r : Z) : InMemoryState :=
  {| series := ∅; retention := normalize_retention r |}.
Definition new_store : InMemoryState := with_retention (to_chrono_duration Day30).

Section ops.
Context `{Chrono}.
Implicit Types (st : InMemoryState) (now : Z).

Definition compact now st : Z * InMemoryState :=
  let (st, dropped) := compact_all st (cutoff_for_retention now (retention st)) in (dropped, st).

(** [InMemoryMetricStore::set_retention]. *)
Definition store_set_retention (r now : Z) st : Z * InMemoryState :=
  let r := normalize_retention r in
  let (st, dropped) :=
    compact_all {| series := series st; retention := r |} (cutoff_for_retention now r) in
  (dropped, st).

Definition len st : Z := map_fold (fun _ e n => n + zlen e) 0 (series st).

Definition to_samples (a : AgentId) (e : entries) : list MetricSample :=
  (fun p => {| agent_id := a; sample_at := p.1; fields_json := p.2 |}) <$> e.

(** The order of [sort_by_key] in [export_samples]. *)
Definition sample_key_le (x y : MetricSample) : Prop :=
  agent_id x < agent_id y ∨ (agent_id x = agent_id y ∧ sample_at x <= sample_at y).
#[global] Instance sample_key_le_dec : RelDecision sample_key_le.
Proof. intros x y. unfold sample_key_le. apply _. Defined.

Definition export_samples now st : list MetricSample :=
  let cutoff := cutoff_for_retention now (retention st) in
  merge_sort sample_key_le
    (map_to_list (series st) ≫= fun p => to_samples p.1 (bt_from cutoff p.2)).

Definition insert_sample (s : MetricSample) (m : gmap AgentId entries) : gmap AgentId entries :=
  <[agent_id s := bt_insert (sample_at s) (fields_json s) (default [] (m !! agent_id s))]> m.

Definition write now (s : MetricSample) st : result MetricError unit * InMemoryState :=
  match validate_sample s now with
  | Err e => (Err e, st)
  | Ok _ =>
      let cutoff := cutoff_for_retention now (retention st) in
      let m := insert_sample s (series st) in
      (Ok (), {| series := (compact_agent m (agent_id s) cutoff).1; retention := retention st |})
  end.

Definition write_batch now (l : list MetricSample) st : result MetricError Z * InMemoryState :=
  if MAX_BATCH_SAMPLES <? zlen l then (Err (Backend (BatchTooLarge (zlen l))), st) else
  match try_for_each (fun s => validate_sample s now) l with
  | Err e => (Err e, st)
  | Ok _ =>
      let cutoff := cutoff_for_retention now (retention st) in
      let affected : gset AgentId := list_to_set (agent_id <$> l) in
      let m := foldl (fun m s => insert_sample s m) (series st) l in
      let m := foldl (fun m a => (compact_agent m a cutoff).1) m (elements affected) in
      (Ok (zlen l), {| series := m; retention := retention st |})
  end.

Definition query now (a : AgentId) (range : QueryRange) st : MetricSeries :=
  let range_cutoff := cutoff_for_retention now (to_chrono_duration range) in
  let retention_cutoff := cutoff_for_retention now (retention st) in
  let cutoff := Z.max range_cutoff retention_cutoff in
  {| series_agent := a;
     samples := match series st !! a with
                | Some e => to_samples a (bt_from cutoff e)
                | None => []
                end |}.

Definition latest now (a : AgentId) st : option MetricSample :=
  let cutoff := cutoff_for_retention now (retention st) in
  match series st !! a ≫= bt_last with
  | Some (ts, payload) =>
      if cutoff <=? ts then Some {| agent_id := a; sample_at := ts; fields_json := payload |}
      else None
  | None => None
  end.

(** The filter of [list_agents]: the newest sample is inside the window. *)
Definition has_fresh (cutoff : Z) (e : entries) : bool :=
  match bt_last e with Some (ts, _) => cutoff <=? ts | None => false end.

Definition list_agents now st : list AgentId :=
  let cutoff := cutoff_for_retention now (retention st) in
  fst <$> filter (fun p => has_fresh cutoff p.2 = true) (map_to_list (series st)).

(** [<InMemoryMetricStore as MetricBackend>::set_retention]. *)
Definition set_retention (r now : Z) st : result MetricError unit * InMemoryState :=
  if r <=? 0 then (Err (Backend RetentionNotPositive), st)
  else if days MAX_RETENTION_DAYS <? r then (Err (Backend RetentionTooLong), st)
  else (Ok (), (store_set_retention r now st).2).
End ops.

(** ** The trait and the facade

    [MetricBackend] as a record of operations over a backend's state;
    [default_write_batch] is the body the trait gives [write_batch]. *)

Record MetricBackend (S : Type) := {
  be_write : Z → MetricSample → S → result MetricError unit * S;
  be_write_batch : Z → list MetricSample → S → result MetricError Z * S;
  be_query : Z → AgentId → QueryRange → S → result MetricError MetricSeries;
  be_latest : Z → AgentId → S → result MetricError (option MetricSample);
  be_list_agents : Z → S → result MetricError (list AgentId);
  be_export_samples : Z → S → result MetricError (list MetricSample);
  be_compact : Z → S → result MetricError Z * S;
  be_retention : S → option Z;
  be_set_retention : Z → Z → S → result MetricError unit * S;
}.
Arguments be_write {S}. Arguments be_write_batch {S}. Arguments be_query {S}.
Arguments be_latest {S}. Arguments be_list_agents {S}. Arguments be_export_samples {S}.
Arguments be_compact {S}. Arguments be_retention {S}. Arguments be_set_retention {S}.

(** The loop of the trait's [write_batch]: the first failing write stops it. Each
    sample comes with the reading of the clock that its own [write] makes. *)
Fixpoint write_each {S} (w : Z → MetricSample → S → result MetricError unit * S)
    (l : list (Z * MetricSample)) (st : S) : result MetricError unit * S :=
  match l with
  | [] => (Ok (), st)
  | (now, s) :: l => match w now s st with
              | (Ok _, st) => write_each w l st
              | (Err e, st) => (Err e, st)
              end
  end.

Definition default_write_batch {S} (w : Z → MetricSample → S → result MetricError unit * S)
    (l : list (Z * MetricSample)) (st : S) : result MetricError Z * S :=
  match write_each w l st with
  | (Ok _, st) => (Ok (zlen l), st)
  | (Err e, st) => (Err e, st)
  end.

Definition in_memory `{Chrono} : MetricBackend InMemoryState := {|
  be_write := write;
  be_write_batch := write_batch;
  be_query now a r st := Ok (query now a r st);
  be_latest now a st := Ok (latest now a st);
  be_list_agents now st := Ok (list_agents now st);
  be_export_samples now st := Ok (export_samples now st);
  be_compact now st := let (n, st) := compact now st in (Ok n, st);
  be_retention st := Some (retention st);
  be_set_retention := set_retention;
|}.

(** [MetricStore::write_json] and [write_json_batch], over any backend. *)
Definition write_json {S} (B : MetricBackend S) (now : Z) (a t : Z) (v : json) (st : S) :=
  be_write B now {| agent_id := a; sample_at := t; fields_json := v |} st.

Definition write_json_batch {S} (B : MetricBackend S) (now : Z) (l : list (Z * Z * json)) (st : S) :=
  be_write_batch B now
    ((fun p => {| agent_id := p.1.1; sample_at := p.1.2; fields_json := p.2 |}) <$> l) st.

End Tsdb.
