(* ===== verification/TsdbProofs.v ===== *)
(** * TsdbProofs: correctness of the time-series store

    The payload validator against a reference size and depth, compaction
    against "the newest entries of the window", the batch write against the
    trait's loop, the reachable-state invariant, and what [query], [latest],
    [compact] and [export_samples] return. *)

From S2P Require Import Prelude Text BTreeMap Json Externals Tsdb.
Import Tsdb.

#[local] Arguments compact_series : simpl never.
#[local] Arguments newest : simpl never.
#[local] Arguments bt_from : simpl never.

(** ** The payload validator accepts exactly the small, shallow, finite values *)

(** Reference size of a payload. *)
Fixpoint json_size (v : json) : Z :=
  match v with
  | JNull => 4
  | JBool b => if b then 4 else 5
  | JNumber _ => 24
  | JString s => byte_len s + 2
  | JArray items => foldr (fun x n => 1 + json_size x + n) 2 items
  | JObject fields => foldr (fun kv n => byte_len kv.1 + 4 + json_size kv.2 + n) 2 fields
  end.

Definition json_finite : json → bool := json_forall_numbers (fun n => is_finite (number_as_f64 n)).

Lemma json_size_pos v : 0 <= json_size v.
Proof.
  induction v as [|[]| |s|l IH|l IH] using json_ind; cbn; try lia.
  - pose proof (byte_len_nonneg s). lia.
  - induction IH; cbn; lia.
  - induction IH as [|[k v] l Hv _ IHl]; cbn in *; [lia|]. pose proof (byte_len_nonneg k). lia.
Qed.

(** A count that fits the budget is not saturated. *)
Lemma add_bytes_Ok acc n a :
  0 <= acc → 0 <= n →
  add_bytes acc n = Ok a ↔ acc + n <= MAX_SAMPLE_PAYLOAD_BYTES ∧ a = acc + n.
Proof.
  intros Hacc Hn. unfold add_bytes, saturating_add, usize_max, u64_max, MAX_SAMPLE_PAYLOAD_BYTES.
  case_match; bool_prop; split; [done|lia|intros [= <-]; lia|intros [? ->]; f_equal; lia].
Qed.

Lemma saturating_add_byte_len s n a acc :
  0 <= acc → 0 <= n <= 4 →
  add_bytes acc (saturating_add usize_max (byte_len s) n) = Ok a
  ↔ acc + (byte_len s + n) <= MAX_SAMPLE_PAYLOAD_BYTES ∧ a = acc + (byte_len s + n).
Proof.
  intros Hacc Hn. pose proof (byte_len_nonneg s). rewrite add_bytes_Ok;
    unfold saturating_add, usize_max, u64_max, MAX_SAMPLE_PAYLOAD_BYTES; lia.
Qed.

(** A fold that charges [w x] for each element within a budget. *)
Lemma try_fold_budget {A} (f : Z → A → result MetricError Z) (Q : A → Prop) (w : A → Z) l acc n :
  Forall (fun x => 0 <= w x ∧ ∀ acc n, 0 <= acc →
    f acc x = Ok n ↔ Q x ∧ acc + w x <= MAX_SAMPLE_PAYLOAD_BYTES ∧ n = acc + w x) l →
  0 <= acc <= MAX_SAMPLE_PAYLOAD_BYTES →
  try_fold f l acc = Ok n ↔
    Forall Q l ∧ acc + foldr (fun x s => w x + s) 0 l <= MAX_SAMPLE_PAYLOAD_BYTES
    ∧ n = acc + foldr (fun x s => w x + s) 0 l.
Proof.
  intros Hl. revert acc. induction Hl as [|x l [Hw Hf] Hl IH]; intros acc Hacc; cbn.
  - split; [intros [= <-]; rewrite Z.add_0_r; auto with lia|].
    intros (_ & _ & ->). by rewrite Z.add_0_r.
  - assert (0 <= foldr (fun x s => w x + s) 0 l) by (clear -Hl; induction Hl as [|? ? [] ? ?]; cbn; lia).
    rewrite bind_Ok, Forall_cons. split.
    + intros (a & (HQ & Ha & ->)%Hf & Hn); [|lia]. apply IH in Hn as (HQs & Hb & ->); [|lia].
      repeat split; auto; lia.
    + intros ([HQ HQs] & Hb & ->). exists (acc + w x). rewrite Hf, IH by lia.
      repeat split; auto; lia.
Qed.

Lemma foldr_max_le {A} (g : A → Z) l c d :
  0 <= c - d → d + foldr (fun x m => Z.max (1 + g x) m) 0 l <= c ↔ Forall (fun x => d + 1 + g x <= c) l.
Proof.
  intros Hc. induction l as [|x l IH]; cbn; [split; [constructor|lia]|].
  rewrite Forall_cons, <- IH. lia.
Qed.

Lemma foldr_plus {A} (g : A → Z) l c : foldr (fun x n => g x + n) c l = foldr (fun x n => g x + n) 0 l + c.
Proof. induction l as [|x l IH]; cbn; lia. Qed.

(** One child: its header, then the child itself. *)
Lemma walk_child_step (h : Z → result MetricError Z) (c : Z) (v : json) (d : Z) :
  (∀ acc n, 0 <= acc → h acc = Ok n ↔ acc + c <= MAX_SAMPLE_PAYLOAD_BYTES ∧ n = acc + c) →
  0 <= c → 0 <= d →
  (∀ d acc n, 0 <= acc → 0 <= d → walk v d acc = Ok n ↔
    d + json_depth v <= MAX_SAMPLE_JSON_DEPTH ∧ json_finite v = true
    ∧ acc + json_size v <= MAX_SAMPLE_PAYLOAD_BYTES ∧ n = acc + json_size v) →
  0 <= c + json_size v ∧ ∀ acc n, 0 <= acc →
    (acc ← h acc; walk v (d + 1) acc) = Ok n ↔
    (d + 1 + json_depth v <= MAX_SAMPLE_JSON_DEPTH ∧ json_finite v = true)
    ∧ acc + (c + json_size v) <= MAX_SAMPLE_PAYLOAD_BYTES ∧ n = acc + (c + json_size v).
Proof.
  intros Hh Hc Hd Hv. pose proof (json_size_pos v). split; [lia|].
  intros acc n Hacc. rewrite bind_Ok. split.
  - intros (b & (Hb & ->)%Hh & (? & ? & ? & ->)%Hv); [|lia..]. repeat split; auto; lia.
  - intros ((? & ?) & ? & ->). exists (acc + c). rewrite Hh, Hv by lia. repeat split; auto; lia.
Qed.

(** The children of an array or object, each charged [c x] for its own header. *)
Lemma walk_children {A} (child : A → json) (c : A → Z) (head : Z → A → result MetricError Z) l d acc n :
  (∀ acc x n, 0 <= acc → head acc x = Ok n ↔ acc + c x <= MAX_SAMPLE_PAYLOAD_BYTES ∧ n = acc + c x) →
  (∀ x, 0 <= c x) →
  Forall (fun x => ∀ d acc n, 0 <= acc → 0 <= d → walk (child x) d acc = Ok n ↔
    d + json_depth (child x) <= MAX_SAMPLE_JSON_DEPTH ∧ json_finite (child x) = true
    ∧ acc + json_size (child x) <= MAX_SAMPLE_PAYLOAD_BYTES ∧ n = acc + json_size (child x)) l →
  0 <= acc → 0 <= d <= MAX_SAMPLE_JSON_DEPTH →
  (acc ← add_bytes acc 2; try_fold (fun acc x => acc ← head acc x; walk (child x) (d + 1) acc) l acc) = Ok n ↔
    d + foldr (fun x m => Z.max (1 + json_depth (child x)) m) 0 l <= MAX_SAMPLE_JSON_DEPTH
    ∧ forallb (fun x => json_finite (child x)) l = true
    ∧ acc + foldr (fun x n => c x + json_size (child x) + n) 2 l <= MAX_SAMPLE_PAYLOAD_BYTES
    ∧ n = acc + foldr (fun x n => c x + json_size (child x) + n) 2 l.
Proof.
  intros Hhead Hc IH Hacc Hd. rewrite bind_Ok, (foldr_max_le (fun x => json_depth (child x))) by lia.
  rewrite (foldr_plus (fun x => c x + json_size (child x))), forallb_In.
  pose (Q x := d + 1 + json_depth (child x) <= MAX_SAMPLE_JSON_DEPTH ∧ json_finite (child x) = true).
  eassert (Forall _ l) as HF.
  { eapply Forall_impl; [exact IH|]. intros x Hx.
    exact (walk_child_step (fun a => head a x) (c x) (child x) d
      (fun a n Ha => Hhead a x n Ha) (Hc x) (proj1 Hd) Hx). }
  pose proof (fun a => try_fold_budget (fun acc x => acc ← head acc x; walk (child x) (d + 1) acc)
    Q (fun x => c x + json_size (child x)) l a n HF) as Hfold.
  setoid_rewrite add_bytes_Ok; [|lia..].
  assert (Forall Q l ↔ Forall (fun x => d + 1 + json_depth (child x) <= MAX_SAMPLE_JSON_DEPTH) l
          ∧ ∀ x, x ∈ l → json_finite (child x) = true) as HQ.
  { unfold Q. rewrite !Forall_forall. naive_solver. }
  assert (0 <= foldr (fun x n => c x + json_size (child x) + n) 0 l) as Hsum.
  { clear -Hc. induction l as [|x l IHl]; cbn; [lia|].
    pose proof (Hc x). pose proof (json_size_pos (child x)). lia. }
  split.
  - intros (a & (? & ->) & Hn). apply Hfold in Hn as (HQs & ? & ->); [|lia].
    apply HQ in HQs as []. repeat split; auto; lia.
  - intros (? & ? & ? & ->). exists (acc + 2). split; [lia|]. apply Hfold; [lia|].
    rewrite HQ. repeat split; auto; lia.
Qed.

Lemma walk_spec v d acc n :
  0 <= acc → 0 <= d →
  walk v d acc = Ok n ↔
    d + json_depth v <= MAX_SAMPLE_JSON_DEPTH ∧ json_finite v = true
    ∧ acc + json_size v <= MAX_SAMPLE_PAYLOAD_BYTES ∧ n = acc + json_size v.
Proof.
  revert d acc n. induction v as [|b|num|s|l IH|l IH] using json_ind; intros d acc n Hacc Hd.
  all: destruct (Z.leb_spec d MAX_SAMPLE_JSON_DEPTH) as [Hle|Hgt];
    [cbn [walk]; rewrite (proj2 (Z.ltb_ge _ _) Hle)
    |match goal with |- walk ?v _ _ = _ ↔ _ => pose proof (json_depth_nonneg v) end;
     cbn [walk]; rewrite (proj2 (Z.ltb_lt _ _) Hgt); split; [done|lia]].
  - rewrite add_bytes_Ok by lia. cbn. intuition lia.
  - rewrite add_bytes_Ok by (destruct b; lia). cbn. intuition lia.
  - unfold json_finite. cbn. destruct (is_finite (number_as_f64 num)); cbn.
    + rewrite add_bytes_Ok by lia. intuition lia.
    + naive_solver.
  - rewrite saturating_add_byte_len by lia. cbn. intuition lia.
  - apply (walk_children id (fun _ => 1) (fun acc _ => add_bytes acc 1)); try done.
    intros. apply add_bytes_Ok; lia.
  - apply (walk_children snd (fun kv => byte_len kv.1 + 4)
      (fun acc kv => add_bytes acc (saturating_add usize_max (byte_len kv.1) 4))); try done.
    + intros. rewrite saturating_add_byte_len by lia. done.
    + intros kv. pose proof (byte_len_nonneg kv.1). lia.
Qed.

(** [validate_sample_payload] accepts a payload exactly when it nests at
    most 16 levels deep, holds only finite numbers and is at most 64 KiB by the
    reference size, which is then the count it returns; no addition saturates
    on the way to an accepted result. *)
Theorem validate_payload_exact v n :
  validate_sample_payload v = Ok n ↔
    json_depth v <= MAX_SAMPLE_JSON_DEPTH ∧ json_finite v = true
    ∧ json_size v <= MAX_SAMPLE_PAYLOAD_BYTES ∧ n = json_size v.
Proof. apply (walk_spec v 0 0 n); lia. Qed.

(** ** Compaction keeps the newest samples of the window *)

Definition cap : nat := Z.to_nat MAX_SAMPLES_PER_AGENT.

(** Reference: the newest [cap] entries at or above the cutoff. *)
Definition kept (cutoff : Z) (e : entries) : entries := newest cap (bt_from cutoff e).
#[local] Arguments kept : simpl never.

Lemma compact_series_kept e cutoff :
  compact_series e cutoff = (kept cutoff e, zlen e - zlen (kept cutoff e)).
Proof.
  unfold compact_series, kept.
  assert ((if MAX_SAMPLES_PER_AGENT <? zlen (bt_from cutoff e)
           then bt_pop_first (Z.to_nat (zlen (bt_from cutoff e) - MAX_SAMPLES_PER_AGENT)) (bt_from cutoff e)
           else bt_from cutoff e) = newest cap (bt_from cutoff e)) as ->.
  { unfold zlen, cap. case_match; bool_prop.
    - rewrite bt_pop_first_drop. unfold newest. f_equal. unfold MAX_SAMPLES_PER_AGENT in *. lia.
    - symmetry. apply newest_small. lia. }
  f_equal. unfold saturating_sub, zlen. rewrite newest_length.
  pose proof (length_filter (fun p : Z * json => key_ltb p.1 cutoff = false) e).
  unfold bt_from. lia.
Qed.

Lemma kept_wf c e : bt_wf e → bt_wf (kept c e).
Proof. intros. by apply newest_wf, bt_from_wf. Qed.

Lemma kept_length c e : zlen (kept c e) <= MAX_SAMPLES_PER_AGENT.
Proof. unfold kept, zlen. rewrite newest_length. unfold cap, MAX_SAMPLES_PER_AGENT. lia. Qed.

Lemma kept_elem c e p : p ∈ kept c e → p ∈ e ∧ c <= p.1.
Proof. intros [? H]%newest_elem%bt_from_elem. cbn in H. bool_prop. auto. Qed.

Lemma filter_all (P : Z * json → Prop) `{!∀ p, Decision (P p)} (e : entries) :
  (∀ p, p ∈ e → P p) → filter P e = e.
Proof.
  induction e as [|p e IH]; [done|]. intros He. rewrite filter_cons_True by set_solver.
  f_equal. apply IH. set_solver.
Qed.

Lemma bt_from_all c e : (∀ p, p ∈ e → c <= p.1) → bt_from (V := json) c e = e.
Proof.
  intros H. apply filter_all. intros p Hp. by apply Z.ltb_ge, H.
Qed.

Lemma kept_from c e : bt_from c (kept c e) = kept c e.
Proof. apply bt_from_all. intros p Hp. by apply kept_elem in Hp as [_ ?]. Qed.

Lemma kept_idemp c e : kept c (kept c e) = kept c e.
Proof. unfold kept at 1. rewrite kept_from. apply newest_idemp. Qed.

(** Inserting into a compacted series and compacting is the same as inserting
    into the series and compacting. *)
Lemma kept_insert c k v e : bt_wf e → kept c (bt_insert k v (kept c e)) = kept c (bt_insert k v e).
Proof.
  intros Hwf. unfold kept at 1 3. rewrite !bt_from_insert by auto using kept_wf.
  rewrite kept_from. destruct (key_ltb k c); [apply newest_idemp|]. unfold kept. by apply newest_insert, bt_from_wf.
Qed.

(** A series splits at any time into what is older and what is not. *)
Lemma bt_split c (e : entries) :
  bt_wf e → ∃ old, e = old ++ bt_from c e ∧ bt_from c old = [].
Proof.
  induction e as [|p e IH]; [by exists []|]. intros [Hall Hwf]%bt_wf_cons. unfold bt_from in *.
  destruct (Z.ltb_spec p.1 c) as [Hlt|Hge].
  - destruct (IH Hwf) as (old & He & Ho). exists (p :: old).
    rewrite !filter_cons_False by (cbn; rewrite Z.ltb_ge; lia). split; [by rewrite He at 1|done].
  - exists []. split; [|done]. symmetry. apply (bt_from_all c (p :: e)). rewrite Forall_forall in Hall.
    intros q [->|Hq]%elem_of_cons; [done|]. apply Hall in Hq. unfold klt in Hq. cbn in Hq. bool_prop. lia.
Qed.

Lemma bt_from_newest c n (e : entries) : bt_wf e → bt_from c (newest n e) = newest n (bt_from c e).
Proof.
  intros Hwf. destruct (bt_split c e Hwf) as (old & He & Ho). set (new := bt_from c e) in *.
  assert (∀ p, p ∈ new → c <= p.1) as Hnew by (intros p [_ Hp]%bt_from_elem; cbn in Hp; by bool_prop).
  rewrite He. destruct (decide (n <= length new)%nat) as [Hle|Hgt].
  - rewrite newest_app by done. apply bt_from_all. intros p Hp%newest_elem. by apply Hnew.
  - rewrite (newest_small n new) by lia. unfold newest. rewrite drop_app_le by (rewrite length_app; lia).
    unfold bt_from in *. rewrite filter_app. replace (filter _ (drop _ old)) with (@nil (Z * json)).
    + by apply (bt_from_all c new).
    + symmetry. apply elem_of_nil_inv. intros p [Hp Hin]%list_elem_of_filter.
      apply (not_elem_of_nil p). rewrite <- Ho. apply list_elem_of_filter. split; [done|].
      rewrite <- (take_drop (length (old ++ new) - n) old). set_solver.
Qed.

(** A compaction made earlier, with a cutoff no later, changes nothing to a later one. *)
Lemma kept_later c C e : c <= C → bt_wf e → kept C (kept c e) = kept C e.
Proof.
  intros Hc Hwf. unfold kept. rewrite bt_from_newest, newest_idemp by by apply bt_from_wf. f_equal.
  unfold bt_from. rewrite list_filter_filter. apply list_filter_iff. intros p. cbn. rewrite !Z.ltb_ge. lia.
Qed.

Lemma kept_insert_later c C k v e :
  c <= C → bt_wf e → kept C (bt_insert k v (kept c e)) = kept C (bt_insert k v e).
Proof.
  intros Hc Hwf. rewrite <- (kept_later c C), kept_insert by auto using bt_insert_wf, kept_wf.
  by apply kept_later, bt_insert_wf.
Qed.

(** ** The state as a function from Agents to series *)

Definition get (m : gmap AgentId entries) (a : AgentId) : entries := default [] (m !! a).
Definition no_empty (m : gmap AgentId entries) : Prop := map_Forall (fun _ e => e ≠ []) m.

Lemma get_ext m1 m2 : no_empty m1 → no_empty m2 → (∀ a, get m1 a = get m2 a) → m1 = m2.
Proof.
  intros H1 H2 H. apply map_eq. intros a. specialize (H a). unfold get in H.
  destruct (m1 !! a) eqn:E1, (m2 !! a) eqn:E2; cbn in *; subst; try done.
  - by apply H1 in E1.
  - by apply H2 in E2.
Qed.

Lemma get_insert_sample s m a :
  get (insert_sample s m) a =
    if decide (a = agent_id s) then bt_insert (sample_at s) (fields_json s) (get m a) else get m a.
Proof.
  unfold insert_sample, get. rewrite lookup_insert. repeat case_decide; subst; try done.
Qed.

Lemma get_compact_agent m a c b :
  get (compact_agent m a c).1 b = if decide (b = a) then kept c (get m b) else get m b.
Proof.
  unfold compact_agent, get. destruct (m !! a) as [e|] eqn:E.
  - rewrite compact_series_kept. cbn. destruct (kept c e) as [|p k] eqn:Ek; cbn.
    + rewrite lookup_delete. repeat case_decide; subst; try done. by rewrite E, <- Ek.
    + rewrite lookup_insert. repeat case_decide; subst; try done. by rewrite E, <- Ek.
  - cbn. case_decide; subst; [|done]. by rewrite E.
Qed.

Lemma compact_agent_no_empty m a c :
  (∀ b, b ≠ a → m !! b ≠ Some []) → no_empty (compact_agent m a c).1.
Proof.
  intros H b e. unfold compact_agent. destruct (m !! a) as [ea|] eqn:E.
  - rewrite compact_series_kept. cbn. destruct (kept c ea) as [|p k] eqn:Ek; cbn.
    + intros [Hne Hb]%lookup_delete_Some. intros ->. by apply (H b).
    + intros [[-> <-]|[Hne Hb]]%lookup_insert_Some; [done|]. intros ->. by apply (H b).
  - cbn. intros Hb ->. destruct (decide (b = a)); [congruence|]. by apply (H b).
Qed.

Lemma insert_sample_wf s m : (∀ a, bt_wf (get m a)) → ∀ a, bt_wf (get (insert_sample s m) a).
Proof. intros H a. rewrite get_insert_sample. case_decide; auto using bt_insert_wf. Qed.

(** ** What a batch write and a loop of writes do to each series *)

Section batch.
Context `{Chrono}.
Implicit Types (m : gmap AgentId entries) (c : Z) (l : list MetricSample).

(** The samples of one Agent inserted in order, and inserted and compacted in
    order. *)
Fixpoint insert_for (a : AgentId) (e : entries) l : entries :=
  match l with
  | [] => e
  | s :: l => insert_for a (if decide (a = agent_id s)
                            then bt_insert (sample_at s) (fields_json s) e else e) l
  end.
Fixpoint write_for (c : Z) (a : AgentId) (e : entries) l : entries :=
  match l with
  | [] => e
  | s :: l => write_for c a (if decide (a = agent_id s)
                             then kept c (bt_insert (sample_at s) (fields_json s) e) else e) l
  end.

Lemma get_insert_all l m a :
  get (foldl (fun m s => insert_sample s m) m l) a = insert_for a (get m a) l.
Proof.
  revert m. induction l as [|s l IH]; intros m; cbn; [done|]. rewrite IH, get_insert_sample.
  by case_decide.
Qed.

Lemma insert_for_wf a e l : bt_wf e → bt_wf (insert_for a e l).
Proof.
  revert e. induction l as [|s l IH]; intros e He; cbn; [done|]. apply IH.
  case_decide; auto using bt_insert_wf.
Qed.

(** Each affected Agent is compacted once, whatever the order. *)
Lemma get_compact_each m c (ids : list AgentId) a :
  NoDup ids →
  get (foldl (fun m a => (compact_agent m a c).1) m ids) a
  = if decide (a ∈ ids) then kept c (get m a) else get m a.
Proof.
  intros Hnd. revert m. induction Hnd as [|b ids Hb Hnd IH]; intros m; cbn; [by case_decide; [set_solver|]|].
  rewrite IH, get_compact_agent. repeat case_decide; subst; try done; set_solver.
Qed.

Lemma insert_for_kept c C a e l :
  c <= C → bt_wf e → kept C (insert_for a (kept c e) l) = kept C (insert_for a e l).
Proof.
  intros Hc. revert e. induction l as [|s l IH]; intros e He; cbn; [by apply kept_later|].
  case_decide; [|auto]. pose proof (λ x, IH (bt_insert (sample_at s) (fields_json s) x)) as IHi.
  rewrite <- (IHi (kept c e)), <- (IHi e) by auto using bt_insert_wf, kept_wf. by rewrite kept_insert.
Qed.

Lemma insert_for_none a e l : a ∉ agent_id <$> l → insert_for a e l = e.
Proof. induction l as [|s l IH]; cbn; [done|]. intros Ha. rewrite decide_False; set_solver. Qed.

Lemma write_for_kept c a e l :
  bt_wf e →
  write_for c a e l = if decide (a ∈ agent_id <$> l) then kept c (insert_for a e l) else e.
Proof.
  revert e. induction l as [|s l IH]; intros e He; [by cbn; case_decide; [set_solver|]|].
  cbn [write_for insert_for]. rewrite fmap_cons. destruct (decide (a = agent_id s)) as [->|Hne].
  - rewrite IH by auto using kept_wf, bt_insert_wf. rewrite (decide_True (P := _ ∈ _ :: _)) by set_solver.
    case_decide; [by rewrite insert_for_kept by (lia || auto using bt_insert_wf)|].
    by rewrite insert_for_none.
  - rewrite IH by done. repeat case_decide; try done; set_solver.
Qed.

Definition all_wf m : Prop := ∀ a, bt_wf (get m a).

Lemma write_valid now s st :
  no_empty (series st) → validate_sample s now = Ok () →
  ∃ m, write now s st = (Ok (), {| series := m; retention := retention st |}) ∧ no_empty m ∧
    ∀ a, get m a = write_for (cutoff_for_retention now (retention st)) a (get (series st) a) [s].
Proof.
  intros Hne Hv. unfold write. rewrite Hv. eexists. split; [done|]. split.
  - apply compact_agent_no_empty. intros b Hb. unfold insert_sample.
    rewrite lookup_insert_ne by done. intros E. by apply Hne in E.
  - intros a. rewrite get_compact_agent, get_insert_sample. cbn. by case_decide.
Qed.

(** The samples of one Agent, each inserted and compacted at its own time. *)
Fixpoint write_at (r : Z) (a : AgentId) (e : entries) (l : list (Z * MetricSample)) : entries :=
  match l with
  | [] => e
  | (t, s) :: l => write_at r a (write_for (cutoff_for_retention t r) a e [s]) l
  end.

Lemma write_each_valid (l : list (Z * MetricSample)) st :
  no_empty (series st) → Forall (fun p => validate_sample p.2 p.1 = Ok ()) l →
  ∃ m, write_each write l st = (Ok (), {| series := m; retention := retention st |}) ∧ no_empty m ∧
    ∀ a, get m a = write_at (retention st) a (get (series st) a) l.
Proof.
  intros Hne Hl. revert st Hne. induction Hl as [|[t s] l Hs Hl IH]; intros st Hne; cbn [write_each].
  - exists (series st). by destruct st.
  - destruct (write_valid t s st Hne Hs) as (m & -> & Hm & Hget).
    destruct (IH {| series := m; retention := retention st |} Hm) as (m' & -> & Hm' & Hget').
    exists m'. split; [done|]. split; [done|]. intros a. rewrite Hget'. cbn [series retention write_at].
    by rewrite Hget.
Qed.

(** Seen from a later time, compacting in between made no difference. *)
Lemma write_at_later r a e (l : list (Z * MetricSample)) C :
  bt_wf e → Forall (fun p : Z * MetricSample => cutoff_for_retention p.1 r <= C) l →
  kept C (write_at r a e l) = kept C (insert_for a e (snd <$> l)).
Proof.
  intros He Hl. revert e He. induction Hl as [|[t s] l Ht Hl IH]; intros e He; [done|].
  cbn [write_at write_for insert_for fmap list_fmap snd]. rewrite IH by (case_decide; auto using kept_wf, bt_insert_wf).
  case_decide; [|done]. by rewrite insert_for_kept by auto using bt_insert_wf.
Qed.

(** An Agent no sample names keeps its series, so only affected Agents can be
    left with an empty one before the compaction. *)
Lemma compact_affected_no_empty m c (ids : list AgentId) :
  (∀ b, b ∉ ids → m !! b ≠ Some []) → no_empty (foldl (fun m a => (compact_agent m a c).1) m ids).
Proof.
  revert m. induction ids as [|a ids IH]; intros m Hm; cbn [foldl].
  - intros b e E ->. by apply (Hm b); [set_solver|].
  - apply IH. intros b Hb. unfold compact_agent. destruct (m !! a) as [e|] eqn:Ea.
    + rewrite compact_series_kept. cbn [fst]. destruct (kept c e) eqn:Ek; cbn [is_empty].
      * rewrite lookup_delete. case_decide; [done|]. apply Hm. set_solver.
      * rewrite lookup_insert. case_decide; [done|]. apply Hm. set_solver.
    + cbn. destruct (decide (b = a)) as [->|]; [by rewrite Ea|]. apply Hm. set_solver.
Qed.

Lemma insert_all_lookup l m a : a ∉ agent_id <$> l →
  foldl (fun m s => insert_sample s m) m l !! a = m !! a.
Proof.
  revert m. induction l as [|s l IH]; intros m Ha; cbn [foldl]; [done|].
  rewrite fmap_cons in Ha. rewrite IH by set_solver. unfold insert_sample.
  rewrite lookup_insert_ne; set_solver.
Qed.

Lemma write_batch_valid now l st :
  no_empty (series st) → all_wf (series st) →
  zlen l <= MAX_BATCH_SAMPLES → Forall (fun s => validate_sample s now = Ok ()) l →
  ∃ m, write_batch now l st = (Ok (zlen l), {| series := m; retention := retention st |}) ∧ no_empty m ∧
    ∀ a, get m a = write_for (cutoff_for_retention now (retention st)) a (get (series st) a) l.
Proof.
  intros Hne Hwf Hlen Hv. unfold write_batch.
  rewrite (proj2 (Z.ltb_ge _ _) Hlen), (proj2 (try_for_each_Ok _ _) Hv).
  eexists. split; [done|]. split.
  - apply compact_affected_no_empty. intros b Hb.
    rewrite elem_of_elements, elem_of_list_to_set in Hb.
    rewrite insert_all_lookup by done. intros E. by apply Hne in E.
  - intros a. rewrite get_compact_each by apply NoDup_elements.
    rewrite get_insert_all, write_for_kept by done.
    rewrite (decide_ext (a ∈ elements _) (a ∈ agent_id <$> l))
      by by rewrite elem_of_elements, elem_of_list_to_set.
    case_decide; [done|]. by apply insert_for_none.
Qed.

End batch.

(** ** The invariant of reachable states *)

Definition series_ok (e : entries) : Prop :=
  bt_wf e ∧ e ≠ [] ∧ zlen e <= MAX_SAMPLES_PER_AGENT.

Definition store_wf (st : InMemoryState) : Prop :=
  map_Forall (fun _ e => series_ok e) (series st)
  ∧ milliseconds 1 <= retention st <= days MAX_RETENTION_DAYS.

(** The operations that change the store, as steps. *)
Inductive step `{Chrono} : InMemoryState → InMemoryState → Prop :=
| step_write now s st : step st (write now s st).2
| step_write_batch now l st : step st (write_batch now l st).2
| step_compact now st : step st (compact now st).2
| step_set_retention r now st : step st (set_retention r now st).2.

Section invariant.
Context `{Chrono}.
Implicit Types (m : gmap AgentId entries) (st : InMemoryState).

Lemma series_wf_get m :
  map_Forall (fun _ e => series_ok e) m
  ↔ no_empty m ∧ ∀ a, bt_wf (get m a) ∧ zlen (get m a) <= MAX_SAMPLES_PER_AGENT.
Proof.
  unfold no_empty, get, series_ok. split.
  - intros Hm. split; [by intros a e (_ & ? & _)%Hm|]. intros a.
    destruct (m !! a) as [e|] eqn:E; cbn; [by apply Hm in E as (? & _ & ?)|].
    split; [apply bt_wf_nil|done].
  - intros [Hne Hm] a e E. specialize (Hm a). rewrite E in Hm. cbn in Hm.
    destruct Hm. repeat split; auto. by apply Hne in E.
Qed.

Lemma write_for_ok c a e l :
  bt_wf e ∧ zlen e <= MAX_SAMPLES_PER_AGENT →
  bt_wf (write_for c a e l) ∧ zlen (write_for c a e l) <= MAX_SAMPLES_PER_AGENT.
Proof.
  intros [? ?]. rewrite write_for_kept by done. case_decide; [|done].
  split; [by apply kept_wf, insert_for_wf|apply kept_length].
Qed.

Lemma compact_all_wf st c :
  map_Forall (fun _ e => series_ok e) (series st) →
  map_Forall (fun _ e => series_ok e) (series (compact_all st c).1).
Proof.
  intros Hm a e. cbn. rewrite lookup_omap. destruct (series st !! a) as [e0|] eqn:E; [|done].
  cbn. rewrite compact_series_kept. cbn. destruct (is_empty _) eqn:Ee; [done|].
  intros [= <-]. apply Hm in E as (? & _ & _). apply is_empty_false in Ee.
  split; [by apply kept_wf|]. split; [done|apply kept_length].
Qed.

Lemma normalize_retention_range r :
  milliseconds 1 <= normalize_retention r <= days MAX_RETENTION_DAYS.
Proof. unfold normalize_retention, milliseconds, days, seconds, MAX_RETENTION_DAYS. lia. Qed.

Lemma step_store_wf st st' : step st st' → store_wf st → store_wf st'.
Proof.
  unfold store_wf. destruct 1 as [now s st|now l st|now st|r now st].
  - intros [Hs Hr]. unfold write. destruct (validate_sample s now) as [[]|] eqn:Hv; [|done].
    apply series_wf_get in Hs as [Hne Hs].
    destruct (write_valid now s st Hne Hv) as (m & Hw & Hm & Hget).
    unfold write in Hw. rewrite Hv in Hw. rewrite Hw. cbn. split; [|done].
    apply series_wf_get. split; [done|]. intros a. rewrite Hget. by apply write_for_ok.
  - intros [Hs Hr]. apply series_wf_get in Hs as [Hne Hs].
    destruct (decide (zlen l <= MAX_BATCH_SAMPLES)) as [Hlen|Hlen].
    2: { unfold write_batch. rewrite (proj2 (Z.ltb_lt _ _)) by lia. cbn. split; [by apply series_wf_get|done]. }
    destruct (try_for_each (fun s => validate_sample s now) l) as [[]|e] eqn:Hv.
    2: { unfold write_batch. rewrite Hv. case_match; cbn; (split; [by apply series_wf_get|done]). }
    apply try_for_each_Ok in Hv.
    destruct (write_batch_valid now l st Hne (fun a => proj1 (Hs a)) Hlen Hv) as (m & -> & Hm & Hget).
    cbn. split; [|done]. apply series_wf_get. split; [done|]. intros a. rewrite Hget.
    by apply write_for_ok.
  - intros [Hs Hr]. unfold compact. cbn. split; [by apply (compact_all_wf st)|done].
  - intros [Hs Hr]. unfold set_retention. repeat case_match; cbn; [done..|].
    split; [|apply normalize_retention_range].
    by apply (compact_all_wf {| series := series st; retention := normalize_retention r |}).
Qed.

(** C23: whatever sequence of writes, batch writes, compactions and retention
    changes a store goes through, every series it keeps is ordered by time
    with one sample per instant, non-empty and at most 50000 samples long, and
    its retention stays between one millisecond and 3650 days. *)
Theorem reachable_store_wf r st : rtc step (with_retention r) st → store_wf st.
Proof.
  intros Hr. cut (store_wf (with_retention r)); [|split; [apply map_Forall_empty|apply normalize_retention_range]].
  induction Hr; eauto using step_store_wf.
Qed.
End invariant.

(** ** Reads *)

Section reads.
Context `{Chrono}.
Implicit Types (st : InMemoryState) (a now : Z).

Definition earlier (x y : MetricSample) : Prop := sample_at x < sample_at y.

Lemma to_samples_elem a e x :
  x ∈ to_samples a e ↔ agent_id x = a ∧ (sample_at x, fields_json x) ∈ e.
Proof.
  unfold to_samples. rewrite list_elem_of_fmap. split.
  - intros ([t v] & -> & ?). auto.
  - intros [<- ?]. by exists (sample_at x, fields_json x); destruct x.
Qed.

Lemma to_samples_sorted a e : bt_wf e → StronglySorted earlier (to_samples a e).
Proof.
  induction e as [|p e IH]; cbn; [constructor|]. rewrite bt_wf_cons. intros [Hall Hwf].
  constructor; [auto|]. apply Forall_fmap. eapply Forall_impl; [exact Hall|].
  intros q Hq. unfold klt in Hq. cbn in Hq. bool_prop. done.
Qed.

Lemma wf_get st a : store_wf st → bt_wf (get (series st) a).
Proof. intros [Hs _]. apply series_wf_get in Hs as [_ Hs]. apply Hs. Qed.

Lemma query_get now a r st :
  samples (query now a r st) =
  to_samples a (bt_from (Z.max (cutoff_for_retention now (to_chrono_duration r))
                               (cutoff_for_retention now (retention st))) (get (series st) a)).
Proof. unfold query, get. cbn. by destruct (series st !! a). Qed.

(** C22: [query] returns, in strictly increasing time order, exactly the samples
    the store holds for that Agent that are inside both the requested range and
    the retention window. *)
Theorem query_exact now a r st :
  store_wf st →
  StronglySorted earlier (samples (query now a r st)) ∧
  ∀ x, x ∈ samples (query now a r st) ↔
    agent_id x = a ∧ (sample_at x, fields_json x) ∈ get (series st) a
    ∧ cutoff_for_retention now (to_chrono_duration r) <= sample_at x
    ∧ cutoff_for_retention now (retention st) <= sample_at x.
Proof.
  intros Hwf. rewrite query_get. split; [by apply to_samples_sorted, bt_from_wf, wf_get|].
  intros x. rewrite to_samples_elem, bt_from_elem. cbn. rewrite Z.ltb_ge. intuition lia.
Qed.

Lemma latest_get now a st :
  latest now a st = match bt_last (get (series st) a) with
    | Some p => if cutoff_for_retention now (retention st) <=? p.1
                then Some {| agent_id := a; sample_at := p.1; fields_json := p.2 |} else None
    | None => None end.
Proof.
  unfold latest, get. destruct (series st !! a) as [e|]; cbn [mbind option_bind default]; [|done].
  change (id e) with e. by destruct (bt_last e) as [[]|].
Qed.

(** [latest] returns a sample exactly when it is the newest one the store
    holds for the Agent and it is still inside the retention window. *)
Theorem latest_exact now a st x :
  store_wf st →
  latest now a st = Some x ↔
    agent_id x = a ∧ (sample_at x, fields_json x) ∈ get (series st) a
    ∧ cutoff_for_retention now (retention st) <= sample_at x
    ∧ ∀ p, p ∈ get (series st) a → p.1 <= sample_at x.
Proof.
  intros Hwf%(fun h => wf_get st a h). rewrite latest_get.
  destruct (bt_last (get (series st) a)) as [p|] eqn:Hl.
  - assert (∀ q, q ∈ get (series st) a → q = p ∨ q.1 < p.1) as Hmax.
    { intros q Hq. destruct (bt_last_newest _ _ _ Hwf Hl Hq) as [?|Hk]; [auto|].
      unfold klt in Hk. cbn in Hk. bool_prop. auto. }
    assert (p ∈ get (series st) a) as Hp by by apply last_Some_elem_of.
    split.
    + case_match; [|done]. intros [= <-]. bool_prop. cbn. split; [done|].
      destruct p; cbn in *. repeat split; auto. intros q [->|?]%Hmax; cbn; lia.
    + intros (<- & Hx & Hc & Hnew). apply Hmax in Hx as [Hx|Hx].
      * destruct p. injection Hx as <- <-. cbn in *. rewrite (proj2 (Z.leb_le _ _) Hc). by destruct x.
      * cbn in Hx. apply Hnew in Hp. lia.
  - apply last_None in Hl. rewrite Hl. split; [done|]. intros (_ & ? & _). set_solver.
Qed.

(** ** The batch write is the trait's loop of writes *)

Lemma cutoff_mono t t' r : t <= t' <= MAX_UTC → cutoff_for_retention t r <= cutoff_for_retention t' r.
Proof.
  intros Ht. unfold cutoff_for_retention, checked_sub_signed, in_range, UNIX_EPOCH. pose proof epoch_in_range.
  repeat match goal with |- context [Z.leb ?x ?y] => destruct (Z.leb_spec x y) end; cbn; lia.
Qed.

Lemma validate_later s t t' :
  MIN_UTC <= t <= t' → t' <= MAX_UTC → validate_sample s t = Ok () → validate_sample s t' = Ok ().
Proof.
  intros Ht Ht'. unfold validate_sample. destruct (timestamp (sample_at s) <? 0); [done|]. cbv zeta.
  set (skew := seconds MAX_FUTURE_SKEW_SECONDS).
  assert (0 <= skew) by done.
  assert (default MAX_UTC (checked_add_signed t skew) <= default MAX_UTC (checked_add_signed t' skew)) as Hle.
  { unfold checked_add_signed, in_range.
    repeat match goal with |- context [Z.leb ?x ?y] => destruct (Z.leb_spec x y) end; cbn; lia. }
  destruct (default MAX_UTC (checked_add_signed t skew) <? _) eqn:H1; [done|].
  rewrite (proj2 (Z.ltb_ge (default MAX_UTC (checked_add_signed t' skew)) _)); [done|]. bool_prop. lia.
Qed.

Lemma write_each_wf l : ∀ st, store_wf st → store_wf (write_each write l st).2.
Proof.
  induction l as [|[t s] l IH]; intros st Hst; cbn [write_each]; [done|].
  pose proof (step_store_wf st _ (step_write t s st) Hst) as Hw. destruct (write t s st) as [[]  st']; [by apply IH|done].
Qed.

Lemma kept_within c e : zlen e <= MAX_SAMPLES_PER_AGENT → kept c e = bt_from c e.
Proof.
  intros Hlen. apply newest_small. pose proof (length_filter (fun p : Z * json => key_ltb p.1 c = false) e).
  unfold bt_from, cap, zlen, MAX_SAMPLES_PER_AGENT in *. lia.
Qed.

Lemma kept_small C st a : store_wf st → kept C (get (series st) a) = bt_from C (get (series st) a).
Proof. intros [Hs _]. apply series_wf_get in Hs as [_ Hs]. by apply kept_within, Hs. Qed.

(** Two stores of the same retention that show the same samples from the cutoff
    at [t] on: what [t] can tell of them is the same. *)
Record same_at (t : Z) st st' : Prop := {
  same_compact : (compact t st).2 = (compact t st').2;
  same_query a r : query t a r st = query t a r st';
  same_latest a : latest t a st = latest t a st';
}.

Lemma get_compact_all st c a : get (series (compact_all st c).1) a = kept c (get (series st) a).
Proof.
  unfold get. cbn [compact_all fst series]. rewrite lookup_omap. destruct (series st !! a) as [e|]; cbn; [|done].
  rewrite compact_series_kept. cbn [fst]. by destruct (kept c e).
Qed.

Lemma same_at_kept t st st' :
  store_wf st → store_wf st' → retention st' = retention st →
  (∀ a, kept (cutoff_for_retention t (retention st)) (get (series st) a)
        = kept (cutoff_for_retention t (retention st)) (get (series st') a)) →
  same_at t st st'.
Proof.
  intros Hwf Hwf' Hr Hk. set (C := cutoff_for_retention t (retention st)) in *.
  assert (∀ a, bt_from C (get (series st) a) = bt_from C (get (series st') a)) as Hfrom.
  { intros a. specialize (Hk a). by rewrite !kept_small in Hk. }
  split.
  - pose proof (compact_all_wf st C (proj1 Hwf)) as [Hn _]%series_wf_get.
    pose proof (compact_all_wf st' C (proj1 Hwf')) as [Hn' _]%series_wf_get.
    unfold compact. rewrite Hr. fold C. destruct (compact_all st C) as [x n] eqn:Hx, (compact_all st' C) as [x' n'] eqn:Hx'.
    cbn [fst snd] in *. destruct x as [m r], x' as [m' r']. cbn [series] in *.
    assert (r = r') as <- by (unfold compact_all in Hx, Hx'; congruence). f_equal. apply get_ext; [done..|].
    intros a. pose proof (get_compact_all st C a) as H1. pose proof (get_compact_all st' C a) as H2.
    rewrite Hx in H1. rewrite Hx' in H2. cbn in H1, H2. by rewrite H1, H2.
  - intros a r. assert (samples (query t a r st) = samples (query t a r st')) as Hs; [|by unfold query in *; cbn in *; f_equal].
    rewrite !query_get, Hr. fold C. set (c := Z.max _ C).
    assert (∀ e : entries, bt_from c e = bt_from c (bt_from C e)) as Hc; [|by rewrite (Hc (get (series st) a)), Hfrom, <- Hc].
    intros e. unfold bt_from. rewrite list_filter_filter. apply list_filter_iff. intros p. cbn. rewrite !Z.ltb_ge. lia.
  - intros a. apply option_eq. intros x. rewrite !latest_exact by done. rewrite Hr. fold C. specialize (Hfrom a).
    assert (∀ p, C <= p.1 → p ∈ get (series st) a ↔ p ∈ get (series st') a) as Hin.
    { intros p Hp. assert (∀ e : entries, p ∈ e ↔ p ∈ bt_from C e) as He; [|by rewrite He, Hfrom, <- He].
      intros e. rewrite bt_from_elem. cbn. rewrite Z.ltb_ge. tauto. }
    assert (∀ e e' : entries, (∀ p, C <= p.1 → p ∈ e ↔ p ∈ e') → C <= sample_at x →
      (∀ p, p ∈ e → p.1 <= sample_at x) → ∀ p, p ∈ e' → p.1 <= sample_at x) as Hmax.
    { intros e e' He Hx Ha p Hp. destruct (Z.le_gt_cases C p.1); [apply Ha, He; auto|lia]. }
    split; intros (? & Hx & Hc & Hn); split_and!; try done; [by apply (Hin (_, _))|by eapply Hmax|by apply (Hin (_, _))|].
    eapply Hmax; [|done|exact Hn]. intros p Hp. symmetry. by apply Hin.
Qed.

(** C40: on a batch of at most 256000 samples that are valid when it starts, the
    store's own [write_batch] (one reading of the clock, validate all, insert all,
    compact each affected Agent once) and the trait's default body (write the samples
    one by one, each with its own reading of a clock that only goes on, compacting
    after each) both succeed and return the same count, and from any time no earlier
    than the readings on the two stores cannot be told apart: a compaction then
    leaves the same state, and every [query] and [latest] returns the same. When the
    clock stands still during the loop, the two states are equal at once. *)
Theorem write_batch_is_default now (l : list (Z * MetricSample)) st :
  store_wf st → MIN_UTC <= now → zlen l <= MAX_BATCH_SAMPLES →
  Forall (fun p => now <= p.1 <= MAX_UTC) l → Forall (fun p => validate_sample p.2 now = Ok ()) l →
  ∃ st1 st2, write_batch now (snd <$> l) st = (Ok (zlen l), st1) ∧ default_write_batch write l st = (Ok (zlen l), st2)
    ∧ (∀ later, now <= later <= MAX_UTC → Forall (fun p => p.1 <= later) l → same_at later st1 st2)
    ∧ (Forall (fun p => p.1 = now) l → st1 = st2).
Proof.
  intros Hwf Hmin Hlen Hclk Hv. pose proof Hwf as [[Hne Hall]%series_wf_get _].
  assert (Forall (fun s => validate_sample s now = Ok ()) (snd <$> l)) as Hvb by by apply Forall_fmap.
  assert (Forall (fun p : Z * MetricSample => validate_sample p.2 p.1 = Ok ()) l) as Hve.
  { apply Forall_forall. intros p Hp. rewrite Forall_forall in Hclk, Hv. destruct (Hclk p Hp). eapply validate_later; [|done|by apply Hv]. lia. }
  assert (zlen (snd <$> l) = zlen l) as Hz by (unfold zlen; by rewrite length_fmap).
  destruct (write_each_valid l st Hne Hve) as (m2 & He & Hm2 & Hget2).
  destruct (write_batch_valid now (snd <$> l) st Hne (fun a => proj1 (Hall a)) ltac:(by rewrite Hz) Hvb) as (m1 & Hb & Hm1 & Hget1).
  eexists _, _. split; [by rewrite Hb, Hz|]. unfold default_write_batch. rewrite He. split; [done|].
  pose proof (step_store_wf _ _ (step_write_batch now (snd <$> l) st) Hwf) as Hwf1. rewrite Hb in Hwf1.
  pose proof (write_each_wf l st Hwf) as Hwf2. rewrite He in Hwf2. cbn [snd] in Hwf1, Hwf2. split.
  - intros later Hlater Hread. apply same_at_kept; [done..|]. intros a. cbn [series retention]. rewrite Hget1, Hget2.
    set (C := cutoff_for_retention later (retention st)).
    assert (Forall (fun p : Z * MetricSample => cutoff_for_retention p.1 (retention st) <= C) l) as HC.
    { eapply Forall_impl; [exact Hread|]. intros p Hp. cbn beta in Hp. apply cutoff_mono. lia. }
    rewrite write_at_later, write_for_kept by (apply Hall || done).
    case_decide as Ha; [|by rewrite insert_for_none by done].
    apply (kept_later _ C); [by apply cutoff_mono|by apply insert_for_wf, Hall].
  - intros Hsame. do 2 f_equal. apply get_ext; [done..|]. intros a. rewrite Hget1, Hget2.
    generalize (get (series st) a). clear -Hsame. induction Hsame as [|[t s] l Ht _ IH]; intros e; [done|].
    cbn in Ht. subst t. cbn [write_at write_for fmap list_fmap snd]. apply IH.
Qed.

Lemma newest_elem_count n (e : entries) (p : Z * json) :
  bt_wf e → p ∈ e → (length (filter (fun q => (p.1 < q.1)%Z) e) < n)%nat → p ∈ newest n e.
Proof.
  unfold newest. induction e as [|x e IH]; [set_solver|]. rewrite bt_wf_cons. intros [Hall Hwf].
  rewrite Forall_forall in Hall. assert (∀ q, q ∈ e → x.1 < q.1) as Hx.
  { intros q Hq%Hall. unfold klt in Hq. cbn in Hq. by bool_prop. }
  intros [->|Hp]%elem_of_cons.
  - rewrite filter_cons_False by lia. rewrite (filter_all (fun q => x.1 < q.1)) by done.
    intros Hlt. cbn [length]. replace (S (length e) - n)%nat with 0%nat by lia. set_solver.
  - rewrite filter_cons_False by (apply Hx in Hp; lia). intros Hlt%IH; [|done..].
    cbn [length]. destruct (decide (length e < n)%nat).
    + replace (S (length e) - n)%nat with 0%nat by lia. set_solver.
    + by replace (S (length e) - n)%nat with (S (length e - n)) by lia.
Qed.

Lemma filter_newer_insert k v (e : entries) :
  filter (fun q => k < q.1) (bt_insert k v e) = filter (fun q => k < q.1) e.
Proof.
  induction e as [|[k' v'] e IH]; cbn [bt_insert key_ltb Z_key];
    [by rewrite filter_cons_False by (cbn; lia)|].
  destruct (Z.ltb_spec k k'); [by rewrite filter_cons_False by (cbn; lia)|].
  destruct (Z.ltb_spec k' k); rewrite !filter_cons_False by (cbn; lia); done.
Qed.

(** a sample whose write succeeded inside the window, with fewer than 50000
    newer ones stored for its Agent, is returned by the next [query], and the
    write leaves what every other Agent's query returns unchanged. *)
Theorem write_then_query now r s st st' :
  store_wf st → write now s st = (Ok (), st') →
  cutoff_for_retention now (to_chrono_duration r) <= sample_at s →
  cutoff_for_retention now (retention st) <= sample_at s →
  zlen (filter (fun q => sample_at s < q.1) (get (series st) (agent_id s))) < MAX_SAMPLES_PER_AGENT →
  s ∈ samples (query now (agent_id s) r st')
  ∧ ∀ b, b ≠ agent_id s → query now b r st' = query now b r st.
Proof.
  intros Hst Hw Hr Hc Hn. pose proof (wf_get st (agent_id s) Hst) as Hwf.
  destruct Hst as [Hs _]. apply series_wf_get in Hs as [Hne _].
  destruct (validate_sample s now) as [[]|] eqn:Hv; [|by unfold write in Hw; rewrite Hv in Hw].
  destruct (write_valid now s st Hne Hv) as (m & Hw' & Hm & Hget). rewrite Hw' in Hw. injection Hw as <-.
  split.
  - rewrite query_get, to_samples_elem, bt_from_elem. cbn. rewrite Z.ltb_ge. split; [done|]. split; [|lia].
    rewrite Hget. cbn. rewrite decide_True by done. unfold kept.
    assert ((sample_at s, fields_json s) ∈ bt_insert (sample_at s) (fields_json s) (get (series st) (agent_id s)))
      as Hin by (apply bt_insert_spec; auto).
    apply newest_elem_count; [by apply bt_from_wf, bt_insert_wf| |].
    + apply bt_from_elem. split; [done|]. by apply Z.ltb_ge.
    + cbn [fst]. rewrite bt_from_insert by done. cbn [key_ltb Z_key].
      rewrite (proj2 (Z.ltb_ge _ _) Hc), filter_newer_insert. unfold bt_from.
      eapply Nat.le_lt_trans; [apply length_filter_filter|]. unfold zlen in Hn. unfold cap. lia.
  - intros b Hb. unfold query. do 2 f_equal. cbn [series retention]. specialize (Hget b).
    cbn in Hget. rewrite decide_False in Hget by done. unfold get in Hget.
    destruct (m !! b) eqn:E1, (series st !! b) eqn:E2; cbn in Hget; subst; try done.
Qed.
End reads.

(** ** Compaction and export *)

Section compaction.
Context `{Chrono}.
Implicit Types (m : gmap AgentId entries) (st : InMemoryState).

Definition total (f : entries → Z) m : Z := map_fold (fun _ e n => n + f e) 0 m.

Lemma total_insert f m a e : m !! a = None → total f (<[a := e]> m) = total f m + f e.
Proof. intros. unfold total. rewrite map_fold_insert_L; [done|intros; lia|done]. Qed.

Lemma total_nonneg f m : (∀ e, 0 <= f e) → 0 <= total f m.
Proof.
  intros Hf. induction m as [|a e m Ha IH] using map_ind; [done|].
  rewrite total_insert by done. specialize (Hf e). lia.
Qed.

(** The saturating sum of the dropped counts, against the plain sum. *)
Lemma saturating_total f m :
  (∀ e, 0 <= f e) →
  map_fold (fun _ e n => saturating_add usize_max n (f e)) 0 m = Z.min usize_max (total f m).
Proof.
  intros Hf. induction m as [|a e m Ha IH] using map_ind; [done|].
  rewrite map_fold_insert_L by (done || (intros; unfold saturating_add; pose proof (Hf z1); pose proof (Hf z2); lia)).
  rewrite total_insert, IH by done. unfold saturating_add. pose proof (Hf e).
  pose proof (total_nonneg f m Hf). lia.
Qed.

Lemma total_ext f g m : (∀ a e, m !! a = Some e → f e = g e) → total f m = total g m.
Proof.
  induction m as [|a e m Ha IH] using map_ind; [done|]. intros Hfg.
  rewrite !total_insert by done. f_equal.
  - apply IH. intros b e' Hb. apply (Hfg b). by rewrite lookup_insert_ne by congruence.
  - apply (Hfg a). by rewrite lookup_insert_eq.
Qed.

Lemma total_omap_kept c m (F : entries → option entries) :
  (∀ e, F e = if is_empty (kept c e) then None else Some (kept c e)) →
  total zlen (omap F m) = total (fun e => zlen (kept c e)) m.
Proof.
  intros HF. induction m as [|a e m Ha IH] using map_ind; [done|].
  rewrite omap_insert, (total_insert (fun e => zlen (kept c e))), HF by done.
  destruct (kept c e) as [|p k] eqn:Ek; cbn [is_empty].
  - rewrite delete_id by by rewrite lookup_omap, Ha. rewrite IH. unfold zlen. cbn. lia.
  - rewrite total_insert by by rewrite lookup_omap, Ha. by rewrite IH.
Qed.

Lemma compact_series_drop_nonneg e c : 0 <= (compact_series e c).2.
Proof. unfold compact_series, saturating_sub. cbn. lia. Qed.

Lemma total_sub f g m : total (fun e => f e - g e) m = total f m - total g m.
Proof.
  induction m as [|a e m Ha IH] using map_ind; [done|]. rewrite !total_insert by done. lia.
Qed.

(** [compact] keeps exactly the samples at or above the retention cutoff,
    and the number it reports is the number of samples that left the store. *)
Theorem compact_exact now st :
  store_wf st → len st <= usize_max →
  (∀ a p, p ∈ get (series (compact now st).2) a ↔
     p ∈ get (series st) a ∧ cutoff_for_retention now (retention st) <= p.1)
  ∧ (compact now st).1 = len st - len (compact now st).2.
Proof.
  intros [Hs _] Hlen. unfold compact. cbn [fst snd compact_all series]. split.
  - intros a p. pose proof (get_compact_all st (cutoff_for_retention now (retention st)) a) as Hg.
    cbn [compact_all fst series] in Hg. rewrite Hg.
    apply series_wf_get in Hs as [_ Hs]. rewrite kept_within by apply Hs.
    rewrite bt_from_elem. cbn. by rewrite Z.ltb_ge.
  - change (len st) with (total zlen (series st)) in *. unfold len. cbn [series].
    set (c := cutoff_for_retention now (retention st)).
    fold (total zlen (omap (fun e => let e := (compact_series e c).1 in
                                     if is_empty e then None else Some e) (series st))).
    rewrite (total_omap_kept c) by (intros e; by rewrite compact_series_kept).
    rewrite (saturating_total (fun e => (compact_series e c).2))
      by (intros; apply compact_series_drop_nonneg).
    rewrite (total_ext _ (fun e => zlen e - zlen (kept c e))) by (intros; by rewrite compact_series_kept).
    rewrite total_sub.
    pose proof (total_nonneg (fun e => zlen (kept c e)) (series st) (fun e => zlen_nonneg _)). lia.
Qed.
End compaction.

Section export.
Context `{Chrono}.

#[local] Instance sample_key_le_trans : Transitive sample_key_le.
Proof. intros x y z. unfold sample_key_le. lia. Qed.
#[local] Instance sample_key_le_total : Total sample_key_le.
Proof. intros x y. unfold sample_key_le. lia. Qed.

(** [export_samples] lists exactly the samples inside the retention window,
    of every Agent, ordered by Agent and then by time. *)
Theorem export_exact now st :
  StronglySorted sample_key_le (export_samples now st) ∧
  ∀ x, x ∈ export_samples now st ↔
    (sample_at x, fields_json x) ∈ get (series st) (agent_id x)
    ∧ cutoff_for_retention now (retention st) <= sample_at x.
Proof.
  unfold export_samples. split; [apply StronglySorted_merge_sort; apply _|].
  intros x. rewrite (merge_sort_Permutation sample_key_le), list_elem_of_bind. split.
  - intros ([a e] & Hx & He%elem_of_map_to_list). apply to_samples_elem in Hx as [Ha Hx].
    apply bt_from_elem in Hx as [Hin Hc]. cbn in *. bool_prop. unfold get. by rewrite Ha, He.
  - unfold get. destruct (series st !! agent_id x) as [e|] eqn:E; cbn; [|set_solver].
    intros [Hin Hc]. exists (agent_id x, e). rewrite elem_of_map_to_list, to_samples_elem, bt_from_elem.
    cbn. by rewrite Z.ltb_ge.
Qed.
End export.

(** ** Witnesses *)

Definition day0 : Z := seconds 1800000000.
Definition sample0 (a t n : Z) : MetricSample :=
  {| agent_id := a; sample_at := t; fields_json := JObject [(lit "cpu", JNumber (PosInt n))] |}.
Definition store0 : InMemoryState := (write day0 (sample0 7 day0 12) new_store).2.

(** Three samples, the second thirty days old to the second: the loop's clock moves
    on and its compaction drops it, the batch keeps it until it is looked at. *)
Definition batch0 : list (Z * MetricSample) :=
  [(day0, sample0 7 day0 1); (day0 + 1, sample0 8 (day0 - days 30) 2); (day0 + 2, sample0 7 day0 3)].

Lemma write_batch_is_default_witness :
  (write_batch day0 (snd <$> batch0) new_store).2 ≠ (default_write_batch write batch0 new_store).2
  ∧ same_at (day0 + 2) (write_batch day0 (snd <$> batch0) new_store).2 (default_write_batch write batch0 new_store).2.
Proof.
  split.
  - intros Heq. apply (f_equal (fun st => bool_decide (series st !! 8 = None))) in Heq. vm_compute in Heq. discriminate Heq.
  - destruct (write_batch_is_default day0 batch0 new_store) as (st1 & st2 & -> & -> & Hsame & _).
    + split; [apply map_Forall_empty|by vm_compute].
    + by vm_compute.
    + by vm_compute.
    + repeat constructor; by vm_compute.
    + repeat constructor.
    + apply Hsame; [by vm_compute|]. repeat constructor; by vm_compute.
Defined.

Lemma store0_reachable : rtc step new_store store0.
Proof. apply rtc_once, step_write. Defined.

Lemma store0_wf : store_wf store0.
Proof. apply (step_store_wf new_store); [apply step_write|]. split; [apply map_Forall_empty|by vm_compute]. Qed.

Lemma reachable_store_wf_witness : store_wf store0.
Proof. apply (reachable_store_wf (days 30)). apply store0_reachable. Defined.

Lemma store0_get : get (series store0) 7 = [(day0, JObject [(lit "cpu", JNumber (PosInt 12))])].
Proof. by vm_compute. Qed.

Lemma query_exact_witness : sample0 7 day0 12 ∈ samples (query day0 7 Day1 store0).
Proof.
  apply (query_exact day0 7 Day1 store0 store0_wf). rewrite store0_get.
  split; [done|]. split; [apply list_elem_of_singleton; done|]. split; by vm_compute.
Defined.

