(* ===== verification/Auth.v ===== *)
(** * Auth: roles, token scopes and the session middleware

    Models [crates/shared/src/authz.rs], [crates/server/src/auth/rbac.rs] (the
    scope rules of personal access tokens and the checks handlers make), the
    constant-time comparison of [auth/mod.rs], and [auth/middleware.rs]: the
    middleware every API request goes through. Hash functions and the database
    reads the middleware makes are parameters. *)

From S2P Require Import Prelude Text Externals.

Module Auth.

(** ** Roles *)

Inductive UserRole : Type := Admin | Member.

Definition is_admin (r : UserRole) : bool := match r with Admin => true | Member => false end.
Definition role_display (r : UserRole) : rstr :=
  match r with Admin => lit "admin" | Member => lit "member" end.
Definition role_from_str (s : rstr) : result rstr UserRole :=
  if bool_decide (s = lit "admin") then Ok Admin
  else if bool_decide (s = lit "member") then Ok Member
  else Err (lit "Invalid role: " ++ s).

(** ** Sessions *)

Inductive AuthKind : Type := Session | PersonalAccessToken.

Record AuthSession := {
  session_id : rstr;
  user_id : Z;
  username : rstr;
  role : UserRole;
  csrf_token : rstr;
  auth_kind : AuthKind;
  scopes : list rstr;
  server_ids : option (list rstr);
  pat_id : option rstr;
}.

Definition is_pat (k : AuthKind) : bool :=
  match k with PersonalAccessToken => true | Session => false end.

(** ** Scopes *)

Definition KNOWN_SCOPES : list rstr := lit <$> [
  "inventory:read"; "inventory:delete"; "server:read"; "server:write"; "server:delete";
  "server:exec"; "service:read"; "service:write"; "service:delete"; "alert:read";
  "alert:write"; "alert:delete"; "task:read"; "task:write"; "task:delete"; "task:exec";
  "ddns:read"; "ddns:write"; "ddns:delete"; "nat:read"; "nat:write"; "nat:delete";
  "notification:read"; "notification:write"; "notification:delete"; "transfer:read";
  "transfer:write"; "admin:*"].

Definition NON_ADMIN_PAT_DENIED_SCOPES : list rstr := lit <$> [
  "inventory:delete"; "server:write"; "server:delete"; "server:exec"; "task:write";
  "task:delete"; "task:exec"; "ddns:write"; "ddns:delete"; "nat:write"; "nat:delete";
  "transfer:write"].

Definition SERVER_SCOPED_PAT_NAMESPACES : list rstr :=
  lit <$> ["server"; "service"; "alert"; "task"; "nat"; "transfer"].

Definition PAT_RUNTIME_MAX_SCOPES : Z := 64.
Definition PAT_RUNTIME_MAX_SCOPE_BYTES : Z := 128.
Definition PAT_RUNTIME_MAX_SERVER_IDS : Z := 64.
Definition PAT_RUNTIME_MAX_SERVER_ID_BYTES : Z := 64.

(** The error messages, with the scope or id they print. *)
Inductive PolicyError : Type :=
| ScopesEmpty | TooManyScopes | ScopeTooLong
| BareWildcard | AdminStarRequiresAdmin
| ScopeRequiresAdmin (scope : rstr)
| InvalidScopeFormat (scope : rstr)
| UnknownNamespace (namespace : rstr)
| WildcardIncludesAdminOnly (scope : rstr)
| UnknownScope (scope : rstr)
| NotNamespaceAction (scope : rstr)
| TooManyServerIds | ServerIdTooLong
| InvalidServerId (id : rstr) | NonCanonicalServerId (id : rstr)
| AllowlistRequired.

Definition colon : Z := 58.
Definition star : rstr := lit "*".

(** [scope.split_once(':').map(|(ns, _)| ns == namespace).unwrap_or(false)]. *)
Definition namespace_is (namespace scope : rstr) : bool :=
  match split_once colon scope with
  | Some (ns, _) => bool_decide (ns = namespace)
  | None => false
  end.

Definition known_scope_namespace (namespace : rstr) : bool :=
  existsb (namespace_is namespace) KNOWN_SCOPES.

Definition namespace_contains_non_admin_denied_scope (namespace : rstr) : bool :=
  existsb (namespace_is namespace) NON_ADMIN_PAT_DENIED_SCOPES.

Definition validate_pat_scope_resource_limits (scopes : list rstr) : result PolicyError unit :=
  if is_empty scopes then Err ScopesEmpty
  else if PAT_RUNTIME_MAX_SCOPES <? zlen scopes then Err TooManyScopes
  else try_for_each (fun scope =>
         if PAT_RUNTIME_MAX_SCOPE_BYTES <? byte_len scope then Err ScopeTooLong else Ok ()) scopes.

(** One iteration of the loop of [validate_pat_scopes]. *)
Definition validate_pat_scope (admin : bool) (scope : rstr) : result PolicyError unit :=
  if bool_decide (scope = star) then Err BareWildcard else
  if bool_decide (scope = lit "admin:*") then
    if negb admin then Err AdminStarRequiresAdmin else Ok ()
  else
  if negb admin && contains scope NON_ADMIN_PAT_DENIED_SCOPES then Err (ScopeRequiresAdmin scope) else
  match split_once colon scope with
  | Some (namespace, action) =>
      if is_empty namespace || is_empty action then Err (InvalidScopeFormat scope) else
      if bool_decide (action = star) then
        if negb (known_scope_namespace namespace) then Err (UnknownNamespace namespace)
        else if negb admin && namespace_contains_non_admin_denied_scope namespace
             then Err (WildcardIncludesAdminOnly scope)
             else Ok ()
      else if negb (contains scope KNOWN_SCOPES) then Err (UnknownScope scope)
      else Ok ()
  | None => Err (NotNamespaceAction scope)
  end.

Definition validate_pat_scopes (scopes : list rstr) (admin : bool) : result PolicyError unit :=
  validate_pat_scope_resource_limits scopes ;;
  try_for_each (validate_pat_scope admin) scopes.

Section server_ids.
Context `{UuidLib}.

Definition validate_server_id (id : rstr) : result PolicyError unit :=
  if PAT_RUNTIME_MAX_SERVER_ID_BYTES <? byte_len id then Err ServerIdTooLong else
  parsed ← ok_or (uuid_parse id) (InvalidServerId id);
  if negb (bool_decide (uuid_to_string parsed = id)) then Err (NonCanonicalServerId id)
  else Ok ().

Definition validate_server_ids (ids : option (list rstr)) : result PolicyError unit :=
  match ids with
  | None => Ok ()
  | Some ids =>
      if PAT_RUNTIME_MAX_SERVER_IDS <? zlen ids then Err TooManyServerIds
      else try_for_each validate_server_id ids
  end.

Definition validate_pat_policy_resource_limits (scopes : list rstr) (ids : option (list rstr))
    : result PolicyError unit :=
  validate_pat_scope_resource_limits scopes ;;
  validate_server_ids ids.

Definition pat_scopes_require_server_allowlist (scopes : list rstr) : bool :=
  existsb (fun scope => match split_once colon scope with
                        | Some (namespace, _) => contains namespace SERVER_SCOPED_PAT_NAMESPACES
                        | None => false
                        end) scopes.

Definition validate_pat_runtime (scopes : list rstr) (admin : bool) (ids : option (list rstr))
    : result PolicyError unit :=
  validate_pat_scopes scopes admin ;;
  validate_server_ids ids ;;
  if negb admin && pat_scopes_require_server_allowlist scopes
     && match ids with Some ids => is_empty ids | None => true end
  then Err AllowlistRequired
  else Ok ().
End server_ids.

Definition pat_scope_grants (stored_scope required_scope : rstr) (admin : bool) : bool :=
  if bool_decide (stored_scope = star) || negb (is_ok (validate_pat_scopes [stored_scope] admin))
  then false else
  if bool_decide (stored_scope = required_scope) then true else
  match split_once colon stored_scope with
  | None => false
  | Some (stored_namespace, stored_action) =>
      if negb (bool_decide (stored_action = star)) then false
      else namespace_is stored_namespace required_scope
  end.

Definition member_cookie_scope_allowed (required_scope : rstr) : bool :=
  contains required_scope (lit <$> [
    "inventory:read"; "server:read"; "service:read"; "alert:read"; "task:read"; "ddns:read";
    "nat:read"; "notification:read"; "transfer:read"]).

Definition has_scope (session : AuthSession) (required_scope : rstr) : bool :=
  if negb (is_pat (auth_kind session)) then
    is_admin (role session) || member_cookie_scope_allowed required_scope
  else match split_once colon required_scope with
       | None => existsb (fun s => bool_decide (s = required_scope)) (scopes session)
       | Some _ => existsb (fun s => pat_scope_grants s required_scope (is_admin (role session)))
                     (scopes session)
       end.

Definition can_access_server (session : AuthSession) (server_id : rstr) : bool :=
  match server_ids session with
  | None => true
  | Some ids => existsb (fun id => bool_decide (id = server_id)) ids
  end.

Definition can_access_servers (session : AuthSession) (ids : list rstr) : bool :=
  match server_ids session with
  | None => true
  | Some allow => forallb (fun id => existsb (fun a => bool_decide (a = id)) allow) ids
  end.

(** ** Constant-time comparison *)

(** [acc | (a ^ b)] over the zipped bytes, compared with 0 at the end. *)
Definition constant_time_eq (left right : list Z) : bool :=
  if negb (zlen left =? zlen right) then false
  else foldl (fun acc p => Z.lor acc (Z.lxor p.1 p.2)) 0 (zip left right) =? 0.

(** ** The session middleware *)

(** [u8::is_ascii_hexdigit]. *)
Definition is_ascii_hexdigit (b : Z) : bool :=
  is_ascii_digit b || ((97 <=? b) && (b <=? 102)) || ((65 <=? b) && (b <=? 70)).

Definition SESSION_TOKEN_BYTES : Z := 64.
Definition PAT_PREFIX : rstr := lit "xlp_".
Definition PAT_TOKEN_BYTES : Z := byte_len PAT_PREFIX + 64.
Definition PAT_AUTHORIZATION_HEADER_MAX_BYTES : Z := byte_len (lit "Bearer ") + PAT_TOKEN_BYTES.
Definition AUTHORIZATION_HEADER_MAX_BYTES : Z := 4096.

(** Third-party primitives: hashing, hexadecimal printing and
    [HeaderValue::to_str]. *)
Class Crypto : Type := {
  sha256 : list Z → list Z;
  hmac_sha256 : list Z → list Z → list Z;
  hex_encode : list Z → rstr;
  header_to_str : list Z → option rstr;
}.

(** The rows the middleware reads. *)
Record User := { u_id : Z; u_username : rstr; u_role : UserRole }.
Record PatRow := {
  p_id : rstr; p_user_id : Z; p_scopes : list rstr;
  p_server_ids : option (list rstr); p_expires_at : option Z;
}.
Record SessionRow := { s_id : rstr; s_user_id : Z }.

(** The database as the middleware sees it during one request: each read
    either fails or returns its rows. *)
Record AuthDb (E : Type) := {
  active_waf_ban : rstr → result E (option unit);
  find_pat_by_token_hash : rstr → result E (option PatRow);
  find_user_by_id : Z → result E (option User);
  validate_server_allowlist_ownership : Z → bool → option (list rstr) → result E unit;
  find_session_by_token_hash : rstr → result E (option SessionRow);
}.
Arguments active_waf_ban {E}. Arguments find_pat_by_token_hash {E}. Arguments find_user_by_id {E}.
Arguments validate_server_allowlist_ownership {E}. Arguments find_session_by_token_hash {E}.

(** What the middleware writes. *)
Inductive PatFailure : Type :=
| MalformedBearer | BearerTooLong | MalformedPat
| ExpiredToken | InvalidTokenPolicy (why : PolicyError) | InvalidAllowlist
| TokenUserNotFound | InvalidToken.
Inductive AuthEvent : Type :=
| RegisterPatFailure (ip : rstr) (pat : option rstr) (why : PatFailure)
| RecordPatBlocked (ip : rstr)
| MarkUsed (pat : rstr) (ip : rstr).

Inductive Status : Type := UNAUTHORIZED | FORBIDDEN.

(** Either a response, or the rest of the stack with the session, if any, in
    the request's extensions. *)
Inductive Outcome : Type :=
| Respond (s : Status)
| Next (session : option AuthSession).

(** The parts of the request the middleware looks at. *)
Record Request := {
  method : rstr;
  authorization : list (list Z);     (** every [Authorization] header value *)
  csrf_header_values : list (list Z); (** every [x-csrf-token] header value *)
  session_cookie : option rstr;
  client_ip : rstr;
}.

Section middleware.
Context {E : Type} `{UuidLib} `{Crypto} (db : AuthDb E).

Definition hash_token (token : rstr) : rstr := hex_encode (sha256 (str_bytes token)).
Definition derive_csrf_token (token_hash : rstr) : rstr :=
  hex_encode (hmac_sha256 (str_bytes token_hash) (str_bytes (lit "xlstatus-csrf-token-v1"))).

Definition pat_token_is_valid (token : rstr) : bool :=
  (byte_len token =? PAT_TOKEN_BYTES) && starts_with PAT_PREFIX token
  && forallb is_ascii_hexdigit (str_bytes (drop (length PAT_PREFIX) token)).

Definition session_cookie_token_is_valid (token : rstr) : bool :=
  (byte_len token =? SESSION_TOKEN_BYTES) && forallb is_ascii_hexdigit (str_bytes token).

Definition strip_prefix (p s : rstr) : option rstr :=
  if starts_with p s then Some (drop (length p) s) else None.

Definition pat_bearer_token_from_headers (values : list (list Z)) : result PatFailure (option rstr) :=
  match values with
  | [] => Ok None
  | _ :: _ :: _ => Err MalformedBearer
  | [value] =>
      if AUTHORIZATION_HEADER_MAX_BYTES <? zlen value then Err BearerTooLong else
      value ← ok_or (header_to_str value) MalformedBearer;
      let value := trim value in
      match (match strip_prefix (lit "Bearer ") value with
             | Some t => Some t
             | None => strip_prefix (lit "bearer ") value
             end) with
      | None => Ok None
      | Some token =>
          let token := trim token in
          if is_empty token then Ok None
          else if negb (starts_with PAT_PREFIX token) then Ok None
          else if (PAT_AUTHORIZATION_HEADER_MAX_BYTES <? byte_len value)
                  || (PAT_TOKEN_BYTES <? byte_len token) then Err BearerTooLong
          else if pat_token_is_valid token then Ok (Some token)
          else Err MalformedPat
      end
  end.

Definition mutating (m : rstr) : bool := contains m (lit <$> ["POST"; "PUT"; "PATCH"; "DELETE"]).

Definition session_request_requires_csrf (m : rstr) (session : option AuthSession) : bool :=
  mutating m && match session with Some s => negb (is_pat (auth_kind s)) | None => false end.

Definition csrf_token_matches (csrf_header : option rstr) (expected : rstr) : bool :=
  match csrf_header with
  | None => false
  | Some provided =>
      let provided := trim provided in
      if negb (byte_len expected =? SESSION_TOKEN_BYTES)
         || negb (byte_len provided =? SESSION_TOKEN_BYTES)
         || negb (forallb is_ascii_hexdigit (str_bytes provided))
      then false
      else constant_time_eq (str_bytes provided) (str_bytes expected)
  end.

(** The branch [Ok(Some(token))] of the [match pat_header]: the session it
    attaches (or the response it returns early), and what it writes. *)
Definition authenticate_pat (now : Z) (ip token : rstr) : list AuthEvent * (Status + option AuthSession) :=
  if match active_waf_ban db ip with Ok (Some _) => true | _ => false end
  then ([RecordPatBlocked ip], inl FORBIDDEN) else
  match find_pat_by_token_hash db (hash_token token) with
  | Ok (Some pat) =>
      if match p_expires_at pat with Some t => t <=? now | None => true end
      then ([RegisterPatFailure ip (Some (p_id pat)) ExpiredToken], inr None) else
      match find_user_by_id db (p_user_id pat) with
      | Ok (Some user) =>
          match validate_pat_runtime (p_scopes pat) (is_admin (u_role user)) (p_server_ids pat) with
          | Ok _ =>
              match validate_server_allowlist_ownership db (u_id user) (is_admin (u_role user))
                      (p_server_ids pat) with
              | Ok _ =>
                  ([MarkUsed (p_id pat) ip],
                   inr (Some {| session_id := p_id pat; user_id := u_id user;
                                username := u_username user; role := u_role user;
                                csrf_token := []; auth_kind := PersonalAccessToken;
                                scopes := p_scopes pat; server_ids := p_server_ids pat;
                                pat_id := Some (p_id pat) |}))
              | Err _ => ([RegisterPatFailure ip (Some (p_id pat)) InvalidAllowlist], inr None)
              end
          | Err reason =>
              ([RegisterPatFailure ip (Some (p_id pat)) (InvalidTokenPolicy reason)], inr None)
          end
      | Ok None => ([RegisterPatFailure ip (Some (p_id pat)) TokenUserNotFound], inr None)
      | Err _ => ([], inr None)
      end
  | Ok None => ([RegisterPatFailure ip None InvalidToken], inr None)
  | Err _ => ([], inr None)
  end.

(** The cookie branch. *)
Definition authenticate_cookie (cookie : option rstr) : option AuthSession :=
  match cookie with
  | None => None
  | Some token =>
      if session_cookie_token_is_valid token then
        let token_hash := hash_token token in
        match find_session_by_token_hash db token_hash with
        | Ok (Some session) =>
            match find_user_by_id db (s_user_id session) with
            | Ok (Some user) =>
                Some {| session_id := s_id session; user_id := u_id user;
                        username := u_username user; role := u_role user;
                        csrf_token := derive_csrf_token token_hash; auth_kind := Session;
                        scopes := []; server_ids := None; pat_id := None |}
            | _ => None
            end
        | _ => None
        end
      else None
  end.

(** The last part: a mutating request needs a session, and a cookie session
    also the CSRF token. *)
Definition csrf_gate (req : Request) (session : option AuthSession) : Outcome :=
  if mutating (method req) then
    match session with
    | Some s =>
        if session_request_requires_csrf (method req) (Some s)
           && negb (csrf_token_matches (head (csrf_header_values req) ≫= header_to_str) (csrf_token s))
        then Respond FORBIDDEN
        else Next session
    | None => Respond UNAUTHORIZED
    end
  else Next session.

Definition session_middleware (now : Z) (req : Request) : list AuthEvent * Outcome :=
  let ip := client_ip req in
  match pat_bearer_token_from_headers (authorization req) with
  | Err reason => ([RegisterPatFailure ip None reason], csrf_gate req None)
  | Ok (Some token) =>
      match authenticate_pat now ip token with
      | (events, inl status) => (events, Respond status)
      | (events, inr session) => (events, csrf_gate req session)
      end
  | Ok None => ([], csrf_gate req (authenticate_cookie (session_cookie req)))
  end.

End middleware.

End Auth.
