(* ===== verification/AuthProofs.v ===== *)
(** * AuthProofs: what a token can do, and who gets past the middleware

    Theorems about the scope rules of [rbac.rs] and about [session_middleware].
    The semantics of a scope is the set of known scopes it covers; the checks of
    the code are shown to be exactly "names something known, and covers nothing
    its owner may not have". *)

From S2P Require Import Prelude Text Externals Auth.

Module AuthProofs.
Import Auth.

#[local] Arguments KNOWN_SCOPES : simpl never.
#[local] Arguments NON_ADMIN_PAT_DENIED_SCOPES : simpl never.

(** ** What scopes mean *)

(** The scope [ns:action]. *)
Definition scope_of (ns action : rstr) : rstr := ns ++ colon :: action.

(** [scope] covers [required]: it is that scope, or the wildcard of its
    namespace. *)
Definition covers (scope required : rstr) : Prop :=
  scope = required ∨ ∃ ns, scope = scope_of ns star ∧ namespace_is ns required = true.

(** What only an administrator may hold. *)
Definition admin_only (scope : rstr) : Prop :=
  scope ∈ NON_ADMIN_PAT_DENIED_SCOPES ∨ scope = lit "admin:*".

(** A scope that exists: a known one, or the wildcard of a known namespace. *)
Definition exists_scope (scope : rstr) : Prop :=
  scope ∈ KNOWN_SCOPES ∨
  ∃ ns, scope = scope_of ns star ∧ ∃ k, k ∈ KNOWN_SCOPES ∧ namespace_is ns k = true.

(** ** Namespaces *)

Lemma namespace_is_spec ns s : namespace_is ns s = true ↔ ∃ a, s = scope_of ns a ∧ colon ∉ ns.
Proof.
  unfold namespace_is, scope_of. destruct (split_once colon s) as [[n a]|] eqn:E.
  - rewrite bool_decide_eq_true. split.
    + intros <-. apply split_once_Some in E. naive_solver.
    + intros (a' & -> & Hn). rewrite split_once_app in E by done. naive_solver.
  - apply split_once_None in E. split; [done|]. intros (a & -> & _). set_solver.
Qed.

Lemma namespace_is_fun n m s : namespace_is n s = true → namespace_is m s = true → n = m.
Proof. unfold namespace_is. case_match; [|done]. case_match. rewrite !bool_decide_eq_true. congruence. Qed.

Lemma namespace_is_scope ns a : colon ∉ ns → namespace_is ns (scope_of ns a) = true.
Proof. intros. apply namespace_is_spec. eauto. Qed.

Lemma known_scope_namespace_spec ns :
  known_scope_namespace ns = true ↔ ∃ k, k ∈ KNOWN_SCOPES ∧ namespace_is ns k = true.
Proof. apply existsb_In. Qed.

Lemma denied_namespace_spec ns : namespace_contains_non_admin_denied_scope ns = true ↔
  ∃ k, k ∈ NON_ADMIN_PAT_DENIED_SCOPES ∧ namespace_is ns k = true.
Proof. apply existsb_In. Qed.

(** Facts about the tables. *)
Definition known_shape (k : rstr) : bool :=
  match split_once colon k with
  | Some (n, a) => negb (is_empty n) && negb (is_empty a)
  | None => false
  end.

Lemma known_shapes k : k ∈ KNOWN_SCOPES → known_shape k = true.
Proof. revert k. apply forallb_In. by vm_compute. Qed.

Lemma denied_known k : k ∈ NON_ADMIN_PAT_DENIED_SCOPES → k ∈ KNOWN_SCOPES.
Proof.
  intros Hk. apply contains_spec. revert k Hk.
  apply (forallb_In (fun k => contains k KNOWN_SCOPES)). by vm_compute.
Qed.

Lemma known_star k : k ∈ KNOWN_SCOPES → namespace_is (lit "admin") k = true → k = lit "admin:*".
Proof.
  intros Hk Hn. enough (implb (namespace_is (lit "admin") k) (bool_decide (k = lit "admin:*")) = true) as H.
  { rewrite Hn in H. by apply bool_decide_eq_true in H. }
  clear Hn. revert k Hk.
  apply (forallb_In (fun k => implb (namespace_is (lit "admin") k) (bool_decide (k = lit "admin:*")))).
  by vm_compute.
Qed.

(** The only known scope that is itself a wildcard is [admin:*]. *)
Lemma known_wildcard ns : colon ∉ ns → scope_of ns star ∈ KNOWN_SCOPES → ns = lit "admin".
Proof.
  intros Hns Hk.
  enough (match split_once colon (scope_of ns star) with
          | Some (n, a) => implb (bool_decide (a = star)) (bool_decide (n = lit "admin"))
          | None => true end = true) as H.
  { unfold scope_of in H. rewrite split_once_app in H by done.
    rewrite (bool_decide_eq_true_2 (star = star)) in H by done. by apply bool_decide_eq_true in H. }
  revert Hk. generalize (scope_of ns star) as k.
  apply (forallb_In (fun k => match split_once colon k with
          | Some (n, a) => implb (bool_decide (a = star)) (bool_decide (n = lit "admin"))
          | None => true end)). by vm_compute.
Qed.

Lemma star_unknown : star ∉ KNOWN_SCOPES.
Proof. apply contains_false. by vm_compute. Qed.

Lemma colon_star a : a ++ [colon] ++ star ≠ star.
Proof. destruct a as [|? [|? ?]]; done. Qed.

(** ** The exact specification of [validate_pat_scope] *)

Definition scope_acceptable (admin : bool) (scope : rstr) : Prop :=
  exists_scope scope ∧ (admin = true ∨ ∀ k, k ∈ KNOWN_SCOPES → covers scope k → ¬ admin_only k).

Lemma covers_namespace ns k : colon ∉ ns → covers (scope_of ns star) k → namespace_is ns k = true.
Proof.
  intros Hns [<-|(n & E & Hk)]; [by apply namespace_is_scope|].
  apply app_inj_2 in E as [-> _]; done.
Qed.

Lemma exists_scope_split scope ns action :
  split_once colon scope = Some (ns, action) →
  exists_scope scope ↔
    (if bool_decide (action = star) then known_scope_namespace ns else contains scope KNOWN_SCOPES) = true.
Proof.
  intros E. pose proof E as [-> Hns]%split_once_Some. fold (scope_of ns action) in *.
  case_bool_decide as Ha; [subst|].
  - rewrite known_scope_namespace_spec. split.
    + intros [Hk|(n & E' & k & Hk & Hn)]; [eauto using namespace_is_scope|].
      exists k. split; [done|]. unfold scope_of in E'. apply app_inj_2 in E' as [-> _]; done.
    + intros (k & Hk & Hn). right. eauto.
  - rewrite contains_spec. split; [|by left]. intros [Hk|(n & E' & k & Hk & Hn)]; [done|].
    apply namespace_is_spec in Hn as (? & _ & Hn). rewrite E' in E. unfold scope_of in E.
    rewrite split_once_app in E by done. naive_solver.
Qed.

Lemma exists_scope_shape scope : exists_scope scope → known_shape scope = true.
Proof.
  intros [Hk|(ns & -> & k & Hk & Hn)]; [by apply known_shapes|].
  apply known_shapes in Hk. apply namespace_is_spec in Hn as (a & -> & Hn). revert Hk.
  unfold known_shape, scope_of. rewrite !split_once_app by done. by destruct (is_empty ns).
Qed.

Lemma covers_plain scope ns action k :
  split_once colon scope = Some (ns, action) → action ≠ star → covers scope k → k = scope.
Proof.
  intros E Ha [->|(n & -> & Hn)]; [done|]. apply namespace_is_spec in Hn as (? & _ & Hn).
  unfold scope_of in E. rewrite split_once_app in E by done. naive_solver.
Qed.

(** What [validate_pat_scope] refuses to a non-administrator, given that the
    scope exists. *)
Lemma member_covers scope ns action :
  split_once colon scope = Some (ns, action) → exists_scope scope → scope ≠ lit "admin:*" →
  (∀ k, k ∈ KNOWN_SCOPES → covers scope k → ¬ admin_only k) ↔
  (scope ∉ NON_ADMIN_PAT_DENIED_SCOPES ∧
   (action = star → namespace_contains_non_admin_denied_scope ns = false)).
Proof.
  intros E Hex Hadm. split.
  - intros Hc. split.
    + intros Hd. apply (Hc scope (denied_known _ Hd)); by left.
    + intros ->. apply not_true_iff_false. intros (k & Hk & Hn)%denied_namespace_spec.
      apply (Hc k (denied_known _ Hk)); [|by left]. right. exists ns.
      apply split_once_Some in E as [-> ?]. done.
  - intros [Hd Hw] k Hk Hc. destruct (decide (action = star)) as [->|Ha].
    + pose proof E as [-> Hns]%split_once_Some. apply covers_namespace in Hc; [|done].
      intros [Hden| ->].
      * apply not_true_iff_false in Hw; [|done]. apply Hw, denied_namespace_spec. eauto.
      * apply Hadm. rewrite (namespace_is_fun ns (lit "admin") (lit "admin:*")); done.
    + pose proof (covers_plain _ _ _ _ E Ha Hc) as ->. by intros [?|?].
Qed.

Lemma validate_pat_scope_exact admin scope :
  validate_pat_scope admin scope = Ok () ↔ scope_acceptable admin scope.
Proof.
  unfold validate_pat_scope, scope_acceptable.
  case_bool_decide as Hstar.
  { split; [done|]. intros [Hex _]. apply exists_scope_shape in Hex. by subst. }
  case_bool_decide as Hadm.
  { assert (scope ∈ KNOWN_SCOPES) as Hk by (subst; apply contains_spec; by vm_compute).
    destruct admin; cbn; split; try done; [split; [by left|by left]|].
    intros [_ [?|H]]; [done|]. exfalso. by apply (H scope Hk); [left|right]. }
  destruct (split_once colon scope) as [[ns action]|] eqn:E.
  2: { split; [by case_match|]. intros [Hex _]. apply exists_scope_shape in Hex.
       revert Hex. unfold known_shape. by rewrite E. }
  pose proof (exists_scope_split scope ns action E) as Hsplit.
  pose proof (member_covers scope ns action E) as Hmem.
  pose proof (exists_scope_shape scope) as Hshape. unfold known_shape in Hshape. rewrite E in Hshape.
  destruct (is_empty ns || is_empty action) eqn:Hempty.
  { split; [by destruct (negb admin && _)|]. intros [Hex _]. apply Hshape in Hex. bool_prop. destruct Hempty; congruence. }
  destruct admin; cbn [negb andb].
  { split; [intros H; split; [|by left]|intros [H _]; apply Hsplit in H];
      [apply Hsplit|]; revert H; repeat case_match; bool_prop; congruence. }
  split.
  - intros H. assert (exists_scope scope) as Hex.
    { apply Hsplit. revert H. repeat case_match; bool_prop; congruence. }
    split; [done|]. right. apply (Hmem Hex Hadm).
    revert H. destruct (contains scope NON_ADMIN_PAT_DENIED_SCOPES) eqn:Hden; [done|]. apply contains_false in Hden.
    intros H. split; [done|]. intros ->. revert H. rewrite bool_decide_eq_true_2 by done.
    by repeat case_match.
  - intros [Hex [?|H]]; [done|]. apply (Hmem Hex Hadm) in H as [Hd Hw].
    apply contains_false in Hd. rewrite Hd. apply Hsplit in Hex.
    case_bool_decide; rewrite Hex; [|done]. by rewrite Hw.
Qed.

(** ** Token policies *)

Lemma validate_scope_limits_spec scopes :
  validate_pat_scope_resource_limits scopes = Ok () ↔
  scopes ≠ [] ∧ zlen scopes <= PAT_RUNTIME_MAX_SCOPES
  ∧ Forall (fun s => byte_len s <= PAT_RUNTIME_MAX_SCOPE_BYTES) scopes.
Proof.
  unfold validate_pat_scope_resource_limits. destruct (is_empty scopes) eqn:He.
  { apply is_empty_spec in He. naive_solver. }
  apply is_empty_false in He. destruct (Z.ltb_spec PAT_RUNTIME_MAX_SCOPES (zlen scopes)).
  { split; [done|lia]. }
  rewrite try_for_each_Ok. split; [intros Hf; split_and!; [done|lia|]|intros (_ & _ & Hf)];
    (eapply Forall_impl; [exact Hf|]; cbn; intros s; destruct (Z.ltb_spec PAT_RUNTIME_MAX_SCOPE_BYTES (byte_len s)); done || lia).
Qed.

Lemma validate_pat_scopes_spec scopes admin :
  validate_pat_scopes scopes admin = Ok () ↔
  (scopes ≠ [] ∧ zlen scopes <= PAT_RUNTIME_MAX_SCOPES
   ∧ Forall (fun s => byte_len s <= PAT_RUNTIME_MAX_SCOPE_BYTES) scopes)
  ∧ Forall (scope_acceptable admin) scopes.
Proof.
  unfold validate_pat_scopes. rewrite bind_Ok, <- validate_scope_limits_spec. split.
  - intros ([] & ? & H%try_for_each_Ok). split; [done|].
    eapply Forall_impl; [exact H|]. intros s. apply validate_pat_scope_exact.
  - intros [? H]. exists (). split; [done|]. apply try_for_each_Ok.
    eapply Forall_impl; [exact H|]. intros s. apply validate_pat_scope_exact.
Qed.

Section policy.
Context `{UuidLib}.

(** An allowlist entry is the canonical text of a UUID. *)
Definition canonical_id (id : rstr) : Prop := ∃ u, uuid_ok u ∧ id = uuid_to_string u.

Lemma validate_server_id_spec id : validate_server_id id = Ok () ↔ canonical_id id.
Proof.
  unfold validate_server_id. split.
  - case_match; [done|]. intros (u & Hu & Hk)%bind_Ok. revert Hk. case_match; [done|]. intros _.
    bool_prop. exists u. destruct (uuid_parse id) eqn:E; [|done]. cbn in Hu. simplify_eq.
    eauto using uuid_parse_ok.
  - intros (u & Hu & ->). rewrite uuid_text_len. cbn. rewrite uuid_roundtrip by done. cbn.
    by rewrite bool_decide_eq_true_2.
Qed.

(** The policy a stored token must satisfy to be used. *)
Definition pat_policy (admin : bool) (scopes : list rstr) (ids : option (list rstr)) : Prop :=
  scopes ≠ [] ∧ zlen scopes <= 64
  ∧ Forall (fun s => byte_len s <= 128 ∧ scope_acceptable admin s) scopes
  ∧ (∀ l, ids = Some l → zlen l <= 64 ∧ Forall canonical_id l)
  ∧ (admin = false →
     (∃ s ns, s ∈ scopes ∧ ns ∈ SERVER_SCOPED_PAT_NAMESPACES ∧ namespace_is ns s = true) →
     ∃ id l, ids = Some (id :: l)).

Lemma validate_server_ids_spec ids :
  validate_server_ids ids = Ok () ↔ ∀ l, ids = Some l → zlen l <= 64 ∧ Forall canonical_id l.
Proof.
  destruct ids as [ids|]; cbn; [|split; [done|by intros _]].
  unfold PAT_RUNTIME_MAX_SERVER_IDS. destruct (Z.ltb_spec 64 (zlen ids)).
  { split; [done|]. intros Hx. destruct (Hx ids eq_refl). lia. }
  rewrite try_for_each_Ok. split.
  - intros Hf l [= <-]. split; [done|]. eapply Forall_impl; [exact Hf|]. intros i. apply validate_server_id_spec.
  - intros Hx. destruct (Hx ids eq_refl) as [_ Hf]. eapply Forall_impl; [exact Hf|].
    intros i. apply validate_server_id_spec.
Qed.

Lemma require_allowlist_spec scopes :
  pat_scopes_require_server_allowlist scopes = true ↔
  ∃ s ns, s ∈ scopes ∧ ns ∈ SERVER_SCOPED_PAT_NAMESPACES ∧ namespace_is ns s = true.
Proof.
  unfold pat_scopes_require_server_allowlist. rewrite existsb_In. split.
  - intros (s & Hs & Hn). destruct (split_once colon s) as [[n a]|] eqn:E; [|done].
    exists s, n. apply contains_spec in Hn. unfold namespace_is. rewrite E.
    by rewrite bool_decide_eq_true_2.
  - intros (s & ns & Hs & Hn & Hi). exists s. split; [done|]. unfold namespace_is in Hi.
    destruct (split_once colon s) as [[n a]|]; [|done]. bool_prop. subst. by apply contains_spec.
Qed.

(** [validate_pat_runtime] accepts exactly the token policies of
    [pat_policy]: between 1 and 64 scopes, each of at most 128 bytes, each an
    existing scope (a known one or the wildcard of a known namespace) which, for
    a non-administrator, covers no administrator-only scope; at most 64 allowlist
    entries, each the canonical text of a UUID; and a non-administrator token
    with a scope in a server-scoped namespace has a non-empty allowlist. *)
Theorem validate_pat_runtime_exact scopes admin ids :
  validate_pat_runtime scopes admin ids = Ok () ↔ pat_policy admin scopes ids.
Proof.
  unfold validate_pat_runtime, pat_policy. rewrite bind_Ok.
  rewrite <- validate_server_ids_spec, <- require_allowlist_spec, Forall_and.
  assert (∀ b : bool, (if b then Err AllowlistRequired else Ok ()) = @Ok PolicyError unit () ↔ b = false) as Hif by by intros [].
  split.
  - intros ([] & Hs%validate_pat_scopes_spec & ([] & Hi & Hc)%bind_Ok).
    destruct Hs as ((? & ? & ?) & ?). split_and!; [done..|]. intros -> Hr. revert Hc. rewrite Hr. cbn.
    destruct ids as [[|i l]|]; [done| |done]. eauto.
  - intros (? & ? & [? ?] & Hi & Hr). exists (). split; [by apply validate_pat_scopes_spec|].
    apply bind_Ok. exists (). split; [done|]. apply Hif.
    destruct admin; [done|]. destruct (pat_scopes_require_server_allowlist scopes); [|done]. cbn.
    by destruct (Hr eq_refl eq_refl) as (i & l & ->).
Qed.
End policy.

(** ** What a session may do *)

Lemma pat_scope_grants_spec stored required admin :
  colon ∈ required →
  pat_scope_grants stored required admin = true ↔
  byte_len stored <= 128 ∧ scope_acceptable admin stored ∧ covers stored required.
Proof.
  intros Hc. unfold pat_scope_grants.
  assert (is_ok (validate_pat_scopes [stored] admin) = true ↔
    byte_len stored <= 128 ∧ scope_acceptable admin stored) as Hok.
  { rewrite is_ok_true. split.
    - intros [[] H]. apply validate_pat_scopes_spec in H as ((_ & _ & Hb) & Ha).
      inversion Hb; inversion Ha; subst. done.
    - intros [? ?]. exists (). apply validate_pat_scopes_spec.
      split_and!; [done..| |]; (constructor; [done|constructor]). }
  rewrite (assoc (∧)), <- Hok. clear Hok.
  destruct (is_ok _) eqn:Hv; cbn [negb]; rewrite ?orb_true_r; [|split; [done|by intros [? _]]].
  rewrite orb_false_r. case_bool_decide as Hs.
  { split; [done|]. intros [_ [Hx|(ns & Hx & _)]].
    - rewrite <- Hx, Hs in Hc. by apply contains_spec in Hc.
    - rewrite Hs in Hx. symmetry in Hx. by apply colon_star in Hx. }
  case_bool_decide as Heq; [subst; split; [intros _; split; [done|by left]|done]|].
  destruct (split_once colon stored) as [[ns a]|] eqn:E.
  - apply split_once_Some in E as [-> Hns]. case_bool_decide as Ha; cbn [negb]; [subst a|].
    + split; [intros ?; split; [done|right; by exists ns]|]. intros [_ ?]. by apply covers_namespace.
    + split; [done|]. intros [_ Hcv]. destruct Hcv as [?|(n & Hn & Hr)]; [done|].
      apply namespace_is_spec in Hr as (? & _ & Hr). unfold scope_of in Hn.
      assert (split_once colon (ns ++ colon :: a) = split_once colon (n ++ colon :: star)) as E' by by rewrite Hn.
      rewrite !split_once_app in E' by done. naive_solver.
  - apply split_once_None in E. split; [done|]. intros [_ [?|(n & -> & _)]]; [done|]. set_solver.
Qed.

(** A token session holds a scope exactly when one of its stored scopes
    would still be accepted for its owner's role and covers the required one.
    So a stored scope that the owner could not be issued today grants nothing,
    also right after the owner lost the administrator role. *)
Theorem has_scope_pat_exact session required :
  auth_kind session = PersonalAccessToken → colon ∈ required →
  has_scope session required = true ↔
  ∃ stored, stored ∈ scopes session ∧ byte_len stored <= 128
            ∧ scope_acceptable (is_admin (role session)) stored ∧ covers stored required.
Proof.
  intros Hk Hc. unfold has_scope. rewrite Hk. cbn [is_pat negb].
  destruct (split_once colon required) as [[n a]|] eqn:E; [|by apply split_once_None in E].
  rewrite existsb_In. by setoid_rewrite pat_scope_grants_spec.
Qed.

Lemma member_cookie_scopes s :
  member_cookie_scope_allowed s = true →
  s ∉ NON_ADMIN_PAT_DENIED_SCOPES ∧ namespace_is (lit "admin") s = false.
Proof.
  intros Hs%contains_spec.
  enough (negb (contains s NON_ADMIN_PAT_DENIED_SCOPES) && negb (namespace_is (lit "admin") s) = true) as H.
  { bool_prop. by rewrite <- contains_false. }
  revert s Hs. apply (forallb_In (fun s => negb (contains s NON_ADMIN_PAT_DENIED_SCOPES)
    && negb (namespace_is (lit "admin") s))). by vm_compute.
Qed.

Lemma admin_namespace_colon s : namespace_is (lit "admin") s = true → colon ∈ s.
Proof. intros (a & -> & _)%namespace_is_spec. unfold scope_of. set_solver. Qed.

(** A scope a member can hold covers nothing in the [admin] namespace and
    nothing denied. *)
Lemma member_acceptable_covers stored required :
  scope_acceptable false stored → covers stored required →
  required ∉ NON_ADMIN_PAT_DENIED_SCOPES ∧ namespace_is (lit "admin") required = false.
Proof.
  intros [Hex [?|Hno]] Hc; [done|]. split.
  - intros Hd. apply (Hno required); [by apply denied_known|done|by left].
  - apply not_true_iff_false. intros Hn. destruct Hc as [->|(ns & -> & Hn')].
    + destruct Hex as [Hk|(ns & -> & k & Hk & Hns)].
      * pose proof (known_star _ Hk Hn). subst. apply (Hno _ Hk); [by left|by right].
      * apply namespace_is_spec in Hns as Hns'. destruct Hns' as (? & _ & Hcol).
        pose proof (namespace_is_fun _ _ _ Hn (namespace_is_scope ns star Hcol)) as Hx. subst ns.
        apply (Hno (lit "admin:*")); [apply contains_spec; by vm_compute|by left|by right].
    + pose proof (namespace_is_fun _ _ _ Hn Hn'). subst ns.
      apply (Hno (lit "admin:*")); [apply contains_spec; by vm_compute|by left|by right].
Qed.

(** no privilege escalation: whatever scopes are stored for it, a session
    of a non-administrator, token or cookie, never holds an administrator-only
    scope, nor any scope of the [admin] namespace. *)
Theorem member_no_escalation session required :
  role session = Member → has_scope session required = true →
  required ∉ NON_ADMIN_PAT_DENIED_SCOPES ∧ namespace_is (lit "admin") required = false.
Proof.
  intros Hr. unfold has_scope. rewrite Hr. cbn [is_admin orb].
  destruct (is_pat (auth_kind session)); cbn [negb]; [|apply member_cookie_scopes].
  destruct (split_once colon required) as [[n a]|] eqn:E.
  - intros (st & _ & Hg)%existsb_In.
    assert (colon ∈ required) as Hc by (apply split_once_Some in E as [-> _]; set_solver).
    apply pat_scope_grants_spec in Hg as (_ & Ha & Hcv); [|done]. eauto using member_acceptable_covers.
  - apply split_once_None in E. intros _. split.
    + intros Hd%denied_known%known_shapes. unfold known_shape in Hd.
      apply split_once_None in E. by rewrite E in Hd.
    + apply not_true_iff_false. by intros ?%admin_namespace_colon.
Qed.

Lemma can_access_servers_forall session ids :
  can_access_servers session ids = forallb (can_access_server session) ids.
Proof.
  unfold can_access_servers, can_access_server. destruct (server_ids session); [done|].
  by induction ids.
Qed.

(** ** Constant-time comparison *)

Lemma fold_lor_zero (l : list (Z * Z)) acc :
  foldl (fun acc p => Z.lor acc (Z.lxor p.1 p.2)) acc l = 0 ↔ acc = 0 ∧ Forall (fun p => p.1 = p.2) l.
Proof.
  revert acc. induction l as [|p l IH]; intros acc; cbn; [by split; [intros ->|intros [? _]]|].
  rewrite IH, Z.lor_eq_0_iff, Z.lxor_eq_0_iff, Forall_cons. tauto.
Qed.

Lemma constant_time_eq_spec left right : constant_time_eq left right = true ↔ left = right.
Proof.
  unfold constant_time_eq. destruct (Z.eqb_spec (zlen left) (zlen right)) as [Hl|Hl]; cbn [negb].
  2: { split; [done|]. by intros ->. }
  rewrite Z.eqb_eq, fold_lor_zero. split.
  - intros [_ Hf]. unfold zlen in Hl. apply Nat2Z.inj in Hl. revert right Hl Hf.
    induction left as [|x left IH]; intros [|y right] Hl Hf; try done. cbn in *.
    inversion Hf; subst. cbn in *. subst. f_equal. auto.
  - intros ->. split; [done|]. clear Hl. induction right; cbn; by constructor.
Qed.

(** A string whose UTF-8 bytes are all ASCII is its bytes. *)
Lemma str_bytes_ascii s : Forall (fun b => b < 128) (str_bytes s) → str_bytes s = s.
Proof.
  induction s as [|c s IH]; [done|]. unfold str_bytes. rewrite bind_cons, Forall_app.
  intros [Hc Hs]. fold (str_bytes s) in *. rewrite IH by done.
  revert Hc. unfold encode_utf8. repeat case_match; try done; rewrite Forall_cons; intros [Hc _];
    bool_prop; exfalso.
  - pose proof (Z.div_pos c 64). lia.
  - pose proof (Z.div_pos c 4096). lia.
  - pose proof (Z.div_pos c 262144). lia.
Qed.

Lemma hexdigit_ascii b : is_ascii_hexdigit b = true → b < 128.
Proof. unfold is_ascii_hexdigit, is_ascii_digit. intros H. bool_prop. destruct H as [H|H]; bool_prop; [destruct H|]; bool_prop; lia. Qed.

Lemma csrf_token_matches_spec header expected :
  csrf_token_matches header expected = true ↔
  ∃ h, header = Some h ∧ trim h = expected ∧ byte_len expected = 64
       ∧ Forall (fun b => is_ascii_hexdigit b = true) (str_bytes expected).
Proof.
  unfold csrf_token_matches. destruct header as [h|]; [|naive_solver].
  unfold SESSION_TOKEN_BYTES. split.
  - case_match eqn:Hg; [done|]. bool_prop. intros Heq%constant_time_eq_spec. exists h.
    assert (Forall (fun b => is_ascii_hexdigit b = true) (str_bytes (trim h))) as Hh.
    { apply Forall_forall. by apply forallb_In. }
    assert (Forall (fun b => b < 128) (str_bytes (trim h))) as Ha.
    { eapply Forall_impl; [exact Hh|]. apply hexdigit_ascii. }
    split_and!; [done| |done|by rewrite <- Heq].
    rewrite <- (str_bytes_ascii (trim h)), Heq by done. apply str_bytes_ascii. by rewrite <- Heq.
  - intros (h' & [= <-] & -> & Hl & Hh). rewrite Hl. cbn [negb orb].
    rewrite (proj2 (forallb_In _ _) (proj1 (Forall_forall _ _) Hh)). cbn.
    by apply constant_time_eq_spec.
Qed.

(** ** The middleware *)

Section middleware.
Context {E : Type} `{UuidLib} `{Crypto} (db : AuthDb E).

(** The session [s] of a live cookie: the request offers no token, its cookie
    hashes to a stored session of an existing user, and [s] is that user's. *)
Definition cookie_session (req : Request) (s : AuthSession) : Prop :=
  pat_bearer_token_from_headers (authorization req) = Ok None ∧
  ∃ token row user,
    session_cookie req = Some token
    ∧ session_cookie_token_is_valid token = true
    ∧ find_session_by_token_hash db (hash_token token) = Ok (Some row)
    ∧ find_user_by_id db (s_user_id row) = Ok (Some user)
    ∧ s = {| session_id := s_id row; user_id := u_id user; username := u_username user;
             role := u_role user; csrf_token := derive_csrf_token (hash_token token);
             auth_kind := Session; scopes := []; server_ids := None; pat_id := None |}.

(** The session [s] of a usable token: well-formed, from an address that is
    not banned, stored, not expired, of an existing user, with a policy the
    user's role allows and servers the user owns. *)
Definition token_session (now : Z) (req : Request) (s : AuthSession) : Prop :=
  ∃ token row user expiry,
    pat_bearer_token_from_headers (authorization req) = Ok (Some token)
    ∧ (∀ ban, active_waf_ban db (client_ip req) ≠ Ok (Some ban))
    ∧ find_pat_by_token_hash db (hash_token token) = Ok (Some row)
    ∧ p_expires_at row = Some expiry ∧ now < expiry
    ∧ find_user_by_id db (p_user_id row) = Ok (Some user)
    ∧ validate_pat_runtime (p_scopes row) (is_admin (u_role user)) (p_server_ids row) = Ok ()
    ∧ validate_server_allowlist_ownership db (u_id user) (is_admin (u_role user)) (p_server_ids row) = Ok ()
    ∧ s = {| session_id := p_id row; user_id := u_id user; username := u_username user;
             role := u_role user; csrf_token := []; auth_kind := PersonalAccessToken;
             scopes := p_scopes row; server_ids := p_server_ids row; pat_id := Some (p_id row) |}.

(** The request carries the CSRF token of [s] in its first header value. *)
Definition carries_csrf (req : Request) (s : AuthSession) : Prop :=
  ∃ raw values h, csrf_header_values req = raw :: values
    ∧ header_to_str raw = Some h ∧ trim h = csrf_token s ∧ byte_len (csrf_token s) = 64
    ∧ Forall (fun b => is_ascii_hexdigit b = true) (str_bytes (csrf_token s)).

Lemma authenticate_cookie_spec req s :
  pat_bearer_token_from_headers (authorization req) = Ok None →
  authenticate_cookie db (session_cookie req) = Some s ↔ cookie_session req s.
Proof.
  intros Hn. unfold authenticate_cookie, cookie_session. split.
  - repeat case_match; try done. intros [= <-]. split; [done|]. naive_solver.
  - intros (_ & token & row & user & -> & -> & -> & -> & ->). done.
Qed.

Lemma authenticate_pat_spec now req token ev s :
  pat_bearer_token_from_headers (authorization req) = Ok (Some token) →
  authenticate_pat db now (client_ip req) token = (ev, inr (Some s)) ↔
  token_session now req s ∧ ∃ id, pat_id s = Some id ∧ ev = [MarkUsed id (client_ip req)].
Proof.
  intros Ht. unfold authenticate_pat, token_session. split.
  - destruct (active_waf_ban db (client_ip req)) as [[ban|]|] eqn:Hban; [done| |];
      (destruct (find_pat_by_token_hash db (hash_token token)) as [[row|]|] eqn:Hrow; [|done..];
       destruct (p_expires_at row) as [t|] eqn:Hexp; [|done];
       destruct (Z.leb_spec t now); [done|];
       destruct (find_user_by_id db (p_user_id row)) as [[user|]|] eqn:Huser; [|done..];
       destruct (validate_pat_runtime (p_scopes row) _ _) as [[]|] eqn:Hpol; [|done];
       destruct (validate_server_allowlist_ownership db _ _ _) as [[]|] eqn:Hown; [|done];
       intros [= <- <-]; split; [|by eexists];
       exists token, row, user, t; split_and!; try done; by intros ? [=]).
  - intros ((tk & row & user & t & Htk & Hban & Hrow & Hexp & Hlt & Huser & Hpol & Hown & ->) & id & Hid & ->).
    rewrite Ht in Htk. cbn in Hid. simplify_eq. rewrite Hrow, Hexp, Huser, Hpol, Hown.
    rewrite (proj2 (Z.leb_gt t now)) by lia.
    destruct (active_waf_ban db (client_ip req)) as [[ban|]|]; [by destruct (Hban ban)|done..].
Qed.

Lemma csrf_gate_next req session o :
  csrf_gate req session = Next o ↔
  o = session ∧ (mutating (method req) = true →
                 ∃ s, session = Some s ∧ (auth_kind s = Session → carries_csrf req s)).
Proof.
  unfold csrf_gate, session_request_requires_csrf. destruct (mutating (method req)).
  2: { split; [intros [= <-]; done|]. by intros [-> _]. }
  destruct session as [s|]; [|split; [done|naive_solver]].
  assert (csrf_token_matches (head (csrf_header_values req) ≫= header_to_str) (csrf_token s) = true
          ↔ carries_csrf req s) as Hm.
  { rewrite csrf_token_matches_spec. unfold carries_csrf.
    destruct (csrf_header_values req) as [|raw values]; cbn; naive_solver. }
  assert ((is_pat (auth_kind s) = false → carries_csrf req s) ↔
    (negb (is_pat (auth_kind s)) && negb (csrf_token_matches (head (csrf_header_values req) ≫= header_to_str)
       (csrf_token s))) = false) as Hk.
  { rewrite <- Hm. destruct (is_pat _), (csrf_token_matches _ _); cbn; naive_solver. }
  cbn [andb]. destruct (negb (is_pat _) && _).
  - split; [done|]. intros (_ & Hs). destruct (Hs eq_refl) as (s' & [= <-] & Hs').
    enough (true = false) by done. apply Hk. intros Hp. apply Hs'. by destruct (auth_kind s).
  - split; [intros [= <-]|by intros [-> _]]. split; [done|]. intros _. exists s. split; [done|].
    intros Hs. apply Hk; [done|]. by rewrite Hs.
Qed.

(** A session comes from the cookie or from the token. *)
Lemma middleware_session now req events s :
  session_middleware db now req = (events, Next (Some s)) → cookie_session req s ∨ token_session now req s.
Proof.
  unfold session_middleware. destruct (pat_bearer_token_from_headers (authorization req)) as [[token|]|] eqn:Hp.
  - destruct (authenticate_pat db now (client_ip req) token) as [ev [st|session]] eqn:Ha; [done|].
    intros [= _ [<- _]%csrf_gate_next]. right. by apply authenticate_pat_spec in Ha as [? _].
  - intros [= _ [Hs _]%csrf_gate_next]. left. by apply authenticate_cookie_spec.
  - intros [= _ [? _]%csrf_gate_next]. done.
Qed.

(** C2: authentication is sound: a request the middleware lets through either
    carries no session and is not mutating, or carries the session of a live
    cookie or of a usable token; a token that was offered and refused never falls
    back to the cookie. A mutating request always carries a session, and when
    that is a cookie session the request also carries its CSRF token, derived
    from the cookie's hash. *)
Theorem middleware_sound now req events o :
  session_middleware db now req = (events, Next o) →
  match o with
  | None => mutating (method req) = false
  | Some s => (cookie_session req s ∧ (mutating (method req) = true → carries_csrf req s))
              ∨ token_session now req s
  end.
Proof.
  unfold session_middleware. intros Hm.
  assert (∀ session, csrf_gate req session = Next o →
    (∀ s, session = Some s → cookie_session req s ∨ token_session now req s) →
    match o with
    | None => mutating (method req) = false
    | Some s => (cookie_session req s ∧ (mutating (method req) = true → carries_csrf req s))
                ∨ token_session now req s
    end) as Hgate.
  { intros session [-> Hmut]%csrf_gate_next Hs. destruct session as [s|].
    - destruct (Hs s eq_refl) as [Hc|]; [left; split; [done|]|by right].
      intros Hx. destruct (Hmut Hx) as (s' & [= <-] & Hcs). apply Hcs.
      by destruct Hc as (_ & ? & ? & ? & _ & _ & _ & _ & ->).
    - destruct (mutating (method req)); [|done]. destruct (Hmut eq_refl) as (? & ? & _). done. }
  destruct (pat_bearer_token_from_headers (authorization req)) as [[token|]|] eqn:Hp.
  - destruct (authenticate_pat db now (client_ip req) token) as [ev [st|session]] eqn:Ha; [done|].
    apply (Hgate session); [naive_solver|]. intros s ->. right. by apply authenticate_pat_spec in Ha as [? _].
  - eapply Hgate; [naive_solver|]. intros s Hs. left. by apply authenticate_cookie_spec.
  - apply (Hgate None); [naive_solver|done].
Qed.

(** and it is complete: the session of a usable token is always attached,
    with the use of the token recorded and nothing else written; the session of a
    live cookie is attached whenever the request is not mutating or carries the
    CSRF token. *)
Theorem middleware_complete now req s :
  (token_session now req s ∨
   (cookie_session req s ∧ (mutating (method req) = true → carries_csrf req s))) →
  session_middleware db now req
  = (match pat_id s with Some id => [MarkUsed id (client_ip req)] | None => [] end, Next (Some s)).
Proof.
  unfold session_middleware. intros [Ht|[Hc Hcsrf]].
  - assert (∃ id, pat_id s = Some id ∧ auth_kind s = PersonalAccessToken) as (id & Hid & Hk)
      by (destruct Ht as (? & ? & ? & ? & Ht); naive_solver).
    pose proof Ht as (token & Hrest). destruct Hrest as (? & ? & ? & Hb & _). rewrite Hb.
    assert (authenticate_pat db now (client_ip req) token
            = ([MarkUsed id (client_ip req)], inr (Some s))) as ->.
    { apply authenticate_pat_spec; eauto. }
    rewrite Hid. f_equal. apply csrf_gate_next. split; [done|]. intros _. exists s. split; [done|]. by rewrite Hk.
  - pose proof Hc as [Hb _]. rewrite Hb. apply authenticate_cookie_spec in Hc as Ha; [|done]. rewrite Ha.
    assert (pat_id s = None) as -> by (destruct Hc as (_ & ? & ? & ? & Hc); naive_solver).
    f_equal. apply csrf_gate_next. split; [done|]. eauto.
Qed.

End middleware.

(** ** Witnesses *)

(** Concrete primitives: the first 32 bytes in place of a hash, and visible
    ASCII headers. *)
Definition pad32 (l : list Z) : list Z := take 32 (l ++ replicate 32 0).
Definition hex_byte (b : Z) : rstr :=
  let digit d := if d <? 10 then d + 48 else d + 87 in [digit ((b / 16) mod 16); digit (b mod 16)].
#[local] Instance crypto0 : Crypto := {|
  sha256 := pad32;
  hmac_sha256 key msg := pad32 (zip_with Z.lxor (pad32 key) (pad32 msg));
  hex_encode l := l ≫= hex_byte;
  header_to_str l := if forallb (fun b => (32 <=? b) && (b <? 127)) l then Some l else None;
|}.

Definition cookie0 : rstr := replicate 64 97.
Definition token0 : rstr := PAT_PREFIX ++ replicate 64 55.
Definition server0 : rstr := uuid_to_string 42.
Definition user0 : User := {| u_id := 5; u_username := lit "ada"; u_role := Member |}.
Definition pat0 : PatRow :=
  {| p_id := lit "p"; p_user_id := 5; p_scopes := [lit "server:read"; lit "notification:*"];
     p_server_ids := Some [server0]; p_expires_at := Some 100 |}.
Definition db0 : AuthDb unit := {|
  active_waf_ban _ := Ok None;
  find_pat_by_token_hash h := Ok (if bool_decide (h = hash_token token0) then Some pat0 else None);
  find_user_by_id u := Ok (if u =? 5 then Some user0 else None);
  validate_server_allowlist_ownership _ _ _ := Ok ();
  find_session_by_token_hash h :=
    Ok (if bool_decide (h = hash_token cookie0) then Some {| s_id := lit "s"; s_user_id := 5 |} else None);
|}.
Definition cookie_request0 : Request := {|
  method := lit "POST"; authorization := [];
  csrf_header_values := [derive_csrf_token (hash_token cookie0)];
  session_cookie := Some cookie0; client_ip := lit "192.0.2.1" |}.
Definition token_request0 : Request := {|
  method := lit "DELETE"; authorization := [lit "Bearer " ++ token0]; csrf_header_values := [];
  session_cookie := None; client_ip := lit "192.0.2.1" |}.
Definition cookie_session0 : AuthSession := {|
  session_id := lit "s"; user_id := 5; username := lit "ada"; role := Member;
  csrf_token := derive_csrf_token (hash_token cookie0); auth_kind := Session; scopes := [];
  server_ids := None; pat_id := None |}.
Definition token_session0 : AuthSession := {|
  session_id := lit "p"; user_id := 5; username := lit "ada"; role := Member;
  csrf_token := []; auth_kind := PersonalAccessToken; scopes := p_scopes pat0;
  server_ids := p_server_ids pat0; pat_id := Some (lit "p") |}.

Lemma middleware_sound_witness :
  (cookie_session db0 cookie_request0 cookie_session0
   ∧ (mutating (lit "POST") = true → carries_csrf cookie_request0 cookie_session0))
  ∨ token_session db0 0 cookie_request0 cookie_session0.
Proof. apply (middleware_sound db0 0 cookie_request0 [] (Some cookie_session0)). by vm_compute. Defined.

End AuthProofs.
