(* ===== verification/Totp.v ===== *)
(** * Totp: one-time codes and their secrets

    Models [crates/server/src/auth/totp.rs]: the verification window, dynamic
    truncation, the base32 coding of secrets with its 32-bit shift register, and
    the percent-encoding of the enrolment URI. HMAC-SHA-1 is a parameter. *)

From S2P Require Import Prelude Text Externals Auth AuthProofs.

Module Totp.
Import Auth.

Definition BASE32_ALPHABET : list Z := lit "ABCDEFGHIJKLMNOPQRSTUVWXYZ234567".
Definition TOTP_STEP_SECONDS : Z := 30.
Definition TOTP_DIGITS : nat := 6.
Definition TOTP_WINDOW : Z := 1.

(** ** Base32 *)

(** [<<] on a [u32] drops the bits shifted out. *)
Definition shl32 (x k : Z) : Z := wrap 32 (Z.shiftl x k).

(** [BASE32_ALPHABET[index] as char]: the index is masked with [0x1f]. *)
Definition alphabet_at (index : Z) : Z := nth (Z.to_nat index) BASE32_ALPHABET 0.

(** The inner [while bits_left >= 5]. Each turn takes 5 bits, so [bits_left]
    turns are more than enough. *)
Fixpoint emit_groups (fuel : nat) (buffer bits_left : Z) (out : rstr) : Z * rstr :=
  match fuel with
  | O => (bits_left, out)
  | S fuel =>
      if 5 <=? bits_left
      then emit_groups fuel buffer (bits_left - 5)
             (out ++ [alphabet_at (Z.land (Z.shiftr buffer (bits_left - 5)) 0x1f)])
      else (bits_left, out)
  end.

Definition encode_byte (st : Z * Z * rstr) (byte : Z) : Z * Z * rstr :=
  let '(buffer, bits_left, out) := st in
  let buffer := Z.lor (shl32 buffer 8) byte in
  let bits_left := bits_left + 8 in
  let '(bits_left, out) := emit_groups (Z.to_nat bits_left) buffer bits_left out in
  (buffer, bits_left, out).

Definition base32_encode (bytes : list Z) : rstr :=
  let '(buffer, bits_left, out) := foldl encode_byte (0, 0, []) bytes in
  if 0 <? bits_left
  then out ++ [alphabet_at (Z.land (shl32 buffer (5 - bits_left)) 0x1f)]
  else out.

(** [iter().position(..)]. *)
Fixpoint position_from (i : Z) (c : Z) (l : list Z) : option Z :=
  match l with
  | [] => None
  | d :: l => if d =? c then Some i else position_from (i + 1) c l
  end.

(** One turn of the decoder's loop; [None] is [return Err(())]. *)
Definition decode_byte (st : Z * Z * list Z) (byte : Z) : option (Z * Z * list Z) :=
  let '(buffer, bits_left, out) := st in
  if (byte =? 61) || (byte =? 32) || (byte =? 45) then Some st else
  let byte := if is_ascii_lower byte then byte - 97 + 65 else byte in
  match position_from 0 byte BASE32_ALPHABET with
  | None => None
  | Some index =>
      let buffer := Z.lor (shl32 buffer 5) index in
      let bits_left := bits_left + 5 in
      if 8 <=? bits_left
      then Some (buffer, bits_left - 8, out ++ [Z.land (Z.shiftr buffer (bits_left - 8)) 0xff])
      else Some (buffer, bits_left, out)
  end.

Fixpoint decode_bytes (st : Z * Z * list Z) (bytes : list Z) : option (Z * Z * list Z) :=
  match bytes with
  | [] => Some st
  | b :: bytes => st ← decode_byte st b; decode_bytes st bytes
  end.

Definition base32_decode (value : rstr) : option (list Z) :=
  '(_, _, out) ← decode_bytes (0, 0, []) (str_bytes value);
  if is_empty out then None else Some out.

(** ** Codes *)

Section codes.
(** HMAC-SHA-1 of a key and a message: 20 bytes. *)
Context (hmac_sha1 : list Z → list Z → list Z).

(** [u64::to_be_bytes]. *)
Definition to_be_bytes (n : Z) : list Z :=
  (fun k => Z.land (Z.shiftr n (8 * k)) 0xff) <$> [7; 6; 5; 4; 3; 2; 1; 0].

Definition byte_at (l : list Z) (i : Z) : Z := nth (Z.to_nat i) l 0.

Definition totp_at (secret : list Z) (counter : Z) : Z :=
  let digest := hmac_sha1 secret (to_be_bytes counter) in
  let offset := Z.land (byte_at digest 19) 0x0f in
  let binary := Z.lor (Z.lor (Z.lor
    (shl32 (Z.land (byte_at digest offset) 0x7f) 24)
    (shl32 (byte_at digest (offset + 1)) 16))
    (shl32 (byte_at digest (offset + 2)) 8))
    (byte_at digest (offset + 3)) in
  binary mod 10 ^ Z.of_nat TOTP_DIGITS.

(** [format!("{value:06}")] for a value of at most six digits. *)
Fixpoint decimal_digits (n : nat) (v : Z) : rstr :=
  match n with O => [] | S n => decimal_digits n (v / 10) ++ [48 + v mod 10] end.
Definition format_totp (value : Z) : rstr := decimal_digits TOTP_DIGITS value.

(** The turn of the window loop for [candidate]. *)
Definition match_candidate (secret : list Z) (normalized : rstr) (matched_step : option Z)
    (candidate : Z) : option Z :=
  if candidate <? 0 then matched_step
  else if constant_time_eq (str_bytes (format_totp (totp_at secret candidate))) (str_bytes normalized)
       then Some candidate else matched_step.

Definition normalize_code (code : rstr) : rstr := filter (fun c => c ≠ 32) (trim code).

Definition verify_totp_code_step (secret code : rstr) (now : Z) : option Z :=
  let normalized := normalize_code code in
  if negb (byte_len normalized =? Z.of_nat TOTP_DIGITS)
     || negb (forallb is_ascii_digit (str_bytes normalized))
  then None else
  match base32_decode secret with
  | None => None
  | Some secret_bytes =>
      let counter := timestamp now / TOTP_STEP_SECONDS in
      foldl (match_candidate secret_bytes normalized) None
        ((fun i => counter - TOTP_WINDOW + Z.of_nat i) <$> seq 0 (Z.to_nat (2 * TOTP_WINDOW + 1)))
  end.

Definition verify_totp_code (secret code : rstr) (now : Z) : bool :=
  match verify_totp_code_step secret code now with Some _ => true | None => false end.
End codes.

(** ** The enrolment URI *)

(** [format!("%{byte:02X}")]. *)
Definition upper_hex (d : Z) : Z := if d <? 10 then 48 + d else 55 + d.
Definition percent (byte : Z) : rstr := [37; upper_hex (byte / 16); upper_hex (byte mod 16)].

Definition uri_component (value : rstr) : rstr :=
  str_bytes value ≫= fun byte =>
    if is_ascii_alphanumeric byte || contains byte (lit "-_.~") then [byte] else percent byte.

Definition otpauth_uri (issuer account secret : rstr) : rstr :=
  let label := issuer ++ lit ":" ++ account in
  lit "otpauth://totp/" ++ uri_component label ++ lit "?secret=" ++ secret ++ lit "&issuer="
  ++ uri_component issuer ++ lit "&algorithm=SHA1&digits=6&period=30".

(** ** The shift registers as arithmetic *)

Lemma land_shiftl_low y k b : 0 <= k → 0 <= b < 2 ^ k → Z.land (Z.shiftl y k) b = 0.
Proof.
  intros Hk Hb. apply Z.bits_inj'. intros n Hn. rewrite Z.land_spec, Z.bits_0.
  destruct (Z.lt_ge_cases n k); [by rewrite Z.shiftl_spec_low|].
  rewrite <- (Z.mod_small b (2 ^ k)) by done. by rewrite Z.mod_pow2_bits_high, andb_false_r by lia.
Qed.

Lemma shl32_low x k b :
  0 <= k <= 32 → 0 <= b < 2 ^ k → Z.lor (shl32 x k) b = (x * 2 ^ k + b) mod 2 ^ 32.
Proof.
  intros Hk Hb. assert (shl32 x k = Z.shiftl (x mod 2 ^ (32 - k)) k) as E.
  { unfold shl32, wrap. rewrite !Z.shiftl_mul_pow2 by lia.
    replace (2 ^ 32) with (2 ^ (32 - k) * 2 ^ k) by (rewrite <- Z.pow_add_r by lia; f_equal; lia).
    by rewrite Z.mul_mod_distr_r by lia. }
  assert (Z.lor (shl32 x k) b = shl32 x k + b) as ->.
  { pose proof (Z.add_lor_land (shl32 x k) b) as Hadd.
    rewrite E in Hadd |- *. rewrite land_shiftl_low in Hadd by lia. lia. }
  unfold shl32, wrap. rewrite Z.shiftl_mul_pow2 by lia.
  assert (0 <= (x * 2 ^ k) mod 2 ^ 32 + b < 2 ^ 32) as Hr.
  { split; [pose proof (Z.mod_pos_bound (x * 2 ^ k) (2 ^ 32)); lia|].
    replace ((x * 2 ^ k) mod 2 ^ 32) with (x mod 2 ^ (32 - k) * 2 ^ k).
    - pose proof (Z.mod_pos_bound x (2 ^ (32 - k)) ltac:(lia)).
      assert (2 ^ (32 - k) * 2 ^ k = 2 ^ 32) by (rewrite <- Z.pow_add_r by lia; f_equal; lia). nia.
    - unfold shl32, wrap in E. rewrite !Z.shiftl_mul_pow2 in E by lia. by rewrite E. }
  rewrite <- (Z.mod_small _ _ Hr). by rewrite Zplus_mod_idemp_l.
Qed.

Lemma shiftr_mask x k m : 0 <= k → 0 <= m → Z.land (Z.shiftr x k) (Z.ones m) = x / 2 ^ k mod 2 ^ m.
Proof. intros. by rewrite Z.land_ones, Z.shiftr_div_pow2. Qed.

Lemma encode_buffer x b : 0 <= b < 256 → Z.lor (shl32 x 8) b = (x * 256 + b) mod 4294967296.
Proof. intros. by rewrite shl32_low. Qed.
Lemma decode_buffer x i : 0 <= i < 32 → Z.lor (shl32 x 5) i = (x * 32 + i) mod 4294967296.
Proof. intros. by rewrite shl32_low. Qed.
Lemma group_index x k : 0 <= k → Z.land (Z.shiftr x k) 0x1f = x / 2 ^ k mod 32.
Proof. intros. by apply (shiftr_mask x k 5). Qed.
Lemma group_byte x k : 0 <= k → Z.land (Z.shiftr x k) 0xff = x / 2 ^ k mod 256.
Proof. intros. by apply (shiftr_mask x k 8). Qed.

(** ** Symbols *)

Lemma decode_symbol buffer bits_left out i :
  0 <= i < 32 →
  decode_byte (buffer, bits_left, out) (alphabet_at i) =
  let buffer := (buffer * 32 + i) mod 4294967296 in
  if 8 <=? bits_left + 5
  then Some (buffer, bits_left + 5 - 8, out ++ [buffer / 2 ^ (bits_left + 5 - 8) mod 256])
  else Some (buffer, bits_left + 5, out).
Proof.
  intros Hi.
  assert (let c := alphabet_at i in
    ((c =? 61) || (c =? 32) || (c =? 45)) = false ∧ is_ascii_lower c = false
    ∧ position_from 0 c BASE32_ALPHABET = Some i) as (H1 & H2 & H3).
  { assert (i ∈ seqZ 0 32) as Hin by (apply elem_of_seqZ; lia). clear Hi. revert i Hin.
    apply Forall_forall. repeat constructor. }
  unfold decode_byte. rewrite H1, H2, H3, decode_buffer by done. cbn zeta.
  destruct (Z.leb_spec 8 (bits_left + 5)); [|done]. by rewrite group_byte by lia.
Qed.

Lemma alphabet_ascii i : 0 <= i < 32 → alphabet_at i < 128.
Proof.
  intros Hi. assert (i ∈ seqZ 0 32) as Hin by (apply elem_of_seqZ; lia). clear Hi. revert i Hin.
  apply Forall_forall. repeat constructor.
Qed.

Lemma decode_bytes_app st l k : decode_bytes st (l ++ k) = decode_bytes st l ≫= fun st => decode_bytes st k.
Proof. revert st. induction l as [|b l IH]; intros st; cbn; [done|]. destruct (decode_byte st b); [apply IH|done]. Qed.

(** What a decoder knows after reading the symbols written so far: everything
    but the [e] bits still in the encoder's register. *)
Definition synced (bytes : list Z) (st : Z * Z * rstr) : Prop :=
  let '(eb, e, out) := st in
  Forall (fun c => c < 128) out ∧ ∃ db,
  ((e = 0 ∧ decode_bytes (0, 0, []) out = Some (db, 0, bytes)) ∨
   (1 <= e <= 4 ∧ ∃ decoded last,
      bytes = decoded ++ [last] ∧ 0 <= last < 256
      ∧ decode_bytes (0, 0, []) out = Some (db, 8 - e, decoded)
      ∧ db mod 2 ^ (8 - e) = last / 2 ^ e ∧ eb mod 2 ^ e = last mod 2 ^ e)).

#[local] Arguments alphabet_at : simpl never.

Lemma emit_step n buffer bits out : 5 <= bits →
  emit_groups (S n) buffer bits out
  = emit_groups n buffer (bits - 5) (out ++ [alphabet_at (buffer / 2 ^ (bits - 5) mod 32)]).
Proof. intros H. cbn [emit_groups]. by rewrite (proj2 (Z.leb_le 5 bits) H), group_index by lia. Qed.

Lemma emit_stop n buffer bits out : bits < 5 → emit_groups n buffer bits out = (bits, out).
Proof. intros H. destruct n; cbn [emit_groups]; [done|]. by rewrite (proj2 (Z.leb_gt 5 bits) H). Qed.

(** The symbols [encode_byte] adds, as arithmetic. *)
Lemma encode_byte_1 eb e out b :
  0 <= b < 256 → 0 <= e <= 1 →
  let eb' := (eb * 256 + b) mod 4294967296 in
  encode_byte (eb, e, out) b = (eb', e + 3, out ++ [alphabet_at (eb' / 2 ^ (e + 3) mod 32)]).
Proof.
  intros Hb He. unfold encode_byte. rewrite encode_buffer by done.
  replace (Z.to_nat (e + 8)) with (S (Z.to_nat (e + 7))) by lia.
  rewrite emit_step, emit_stop by lia. by replace (e + 8 - 5) with (e + 3) by lia.
Qed.

Lemma encode_byte_2 eb e out b :
  0 <= b < 256 → 2 <= e <= 4 →
  let eb' := (eb * 256 + b) mod 4294967296 in
  encode_byte (eb, e, out) b
  = (eb', e - 2, out ++ [alphabet_at (eb' / 2 ^ (e + 3) mod 32); alphabet_at (eb' / 2 ^ (e - 2) mod 32)]).
Proof.
  intros Hb He. unfold encode_byte. rewrite encode_buffer by done.
  replace (Z.to_nat (e + 8)) with (S (S (Z.to_nat (e + 6)))) by lia.
  rewrite !emit_step, emit_stop, <- app_assoc by lia.
  by replace (e + 8 - 5 - 5) with (e - 2) by lia; replace (e + 8 - 5) with (e + 3) by lia.
Qed.

(** Bits the 32-bit register dropped do not matter. *)
Lemma div_mod_low x j m : 0 <= j → 0 <= m → j + m <= 32 →
  x mod 4294967296 / 2 ^ j mod 2 ^ m = x / 2 ^ j mod 2 ^ m.
Proof.
  intros Hj Hm Hle. rewrite <- !Z.shiftr_div_pow2 by lia. rewrite <- !Z.land_ones by lia.
  change 4294967296 with (2 ^ 32). rewrite <- Z.land_ones by lia.
  apply Z.bits_inj'. intros n Hn. rewrite !Z.land_spec, !Z.shiftr_spec, !Z.land_spec by lia.
  destruct (Z.lt_ge_cases n m).
  - rewrite (Z.ones_spec_low 32) by lia. by rewrite andb_true_r.
  - rewrite (Z.ones_spec_high m) by lia. by rewrite !andb_false_r.
Qed.


Lemma mod_low x k : 0 <= k <= 32 → x mod 4294967296 mod 2 ^ k = x mod 2 ^ k.
Proof.
  intros Hk. pose proof (div_mod_low x 0 k) as H. rewrite Z.pow_0_r, !Z.div_1_r in H. apply H; lia.
Qed.

(** Arithmetic of the registers, with their masks. *)
Lemma symbol_low x k : 0 <= k <= 27 → x mod 4294967296 / 2 ^ k mod 32 = x / 2 ^ k mod 32.
Proof. intros. change 32 with (2 ^ 5). apply div_mod_low; lia. Qed.
Lemma byte_low x k : 0 <= k <= 24 → x mod 4294967296 / 2 ^ k mod 256 = x / 2 ^ k mod 256.
Proof. intros. change 256 with (2 ^ 8). apply div_mod_low; lia. Qed.

Ltac registers :=
  rewrite ?symbol_low, ?byte_low, ?mod_low in * by lia;
  repeat match goal with
  | |- context [2 ^ ?k] => let v := eval vm_compute in (2 ^ k) in change (2 ^ k) with v
  | H : context [2 ^ ?k] |- _ => let v := eval vm_compute in (2 ^ k) in change (2 ^ k) with v in H
  end;
  Z.div_mod_to_equations; lia.

(** The byte just completed is the encoder's pending one. *)
Ltac last_byte :=
  match goal with |- (if ?b then _ else _) = _ =>
    let v := eval vm_compute in b in change b with v; cbv iota end;
  match goal with |- Some (_, _, _ ++ [?x]) = Some (_, _, _ ++ [?y]) =>
    replace x with y by registers end; reflexivity.

(** Feeding the decoder one symbol. *)
Lemma decode_more out db d decoded i :
  decode_bytes (0, 0, []) out = Some (db, d, decoded) →
  0 <= i < 32 → 0 <= d <= 7 →
  let db' := (db * 32 + i) mod 4294967296 in
  decode_bytes (0, 0, []) (out ++ [alphabet_at i]) =
  if 8 <=? d + 5 then Some (db', d + 5 - 8, decoded ++ [db' / 2 ^ (d + 5 - 8) mod 256])
  else Some (db', d + 5, decoded).
Proof.
  intros Hd Hi H7. rewrite decode_bytes_app, Hd. cbn [mbind option_bind decode_bytes].
  rewrite decode_symbol by done. cbn zeta. by destruct (8 <=? d + 5).
Qed.

Lemma symbols_ascii (out : rstr) l :
  Forall (fun c => c < 128) out → Forall (fun i => 0 <= i < 32) l →
  Forall (fun c => c < 128) (out ++ (alphabet_at <$> l)).
Proof.
  intros Ho Hl. apply Forall_app. split; [done|]. apply Forall_fmap. eapply Forall_impl; [exact Hl|].
  apply alphabet_ascii.
Qed.

Lemma mod_32 x : 0 <= x mod 32 < 32.
Proof. apply Z.mod_pos_bound. lia. Qed.

Lemma synced_step_0 bytes eb out db b :
  0 <= b < 256 → Forall (fun c => c < 128) out → decode_bytes (0, 0, []) out = Some (db, 0, bytes) →
  synced (bytes ++ [b]) (encode_byte (eb, 0, out) b).
Proof.
  intros Hb Hout Hd. rewrite encode_byte_1 by lia. split.
  { apply (symbols_ascii out [_]); [done|]. repeat constructor; apply mod_32. }
  eexists. right. split; [lia|]. exists bytes, b. split_and!; try lia; [done| | |].
  - erewrite decode_more by (done || apply mod_32 || lia). reflexivity.
  - registers.
  - registers.
Qed.

Lemma synced_step_1 decoded last eb out db b :
  0 <= b < 256 → 0 <= last < 256 → Forall (fun c => c < 128) out →
  decode_bytes (0, 0, []) out = Some (db, 7, decoded) →
  db mod 2 ^ 7 = last / 2 ^ 1 → eb mod 2 ^ 1 = last mod 2 ^ 1 →
  synced (decoded ++ [last] ++ [b]) (encode_byte (eb, 1, out) b).
Proof.
  intros Hb Hl Hout Hd Hdb Heb. rewrite encode_byte_1 by lia. split.
  { apply (symbols_ascii out [_]); [done|]. repeat constructor; apply mod_32. }
  eexists. right. split; [lia|]. exists (decoded ++ [last]), b.
  split_and!; try lia; [by rewrite <- app_assoc| | |].
  - erewrite decode_more by (done || apply mod_32 || lia). last_byte.
  - registers.
  - registers.
Qed.

(** Two symbols at once. *)
Lemma decode_more2 out db d decoded i j :
  decode_bytes (0, 0, []) out = Some (db, d, decoded) →
  0 <= i < 32 → 0 <= j < 32 → 4 <= d <= 6 →
  let db1 := (db * 32 + i) mod 4294967296 in
  let db2 := (db1 * 32 + j) mod 4294967296 in
  decode_bytes (0, 0, []) (out ++ [alphabet_at i; alphabet_at j]) =
  if d =? 6 then Some (db2, 0, decoded ++ [db1 / 2 ^ (d - 3) mod 256] ++ [db2 mod 256])
  else Some (db2, d + 2, decoded ++ [db1 / 2 ^ (d - 3) mod 256]).
Proof.
  intros Hd Hi Hj H7. cbn zeta. change [alphabet_at i; alphabet_at j] with ([alphabet_at i] ++ [alphabet_at j]).
  rewrite app_assoc. erewrite decode_more; [|erewrite decode_more by (done || lia); by rewrite (proj2 (Z.leb_le 8 (d + 5))) by lia|done|lia].
  replace (d + 5 - 8) with (d - 3) by lia. destruct (Z.eqb_spec d 6) as [->|].
  - cbn. rewrite <- app_assoc. by rewrite Z.div_1_r.
  - rewrite (proj2 (Z.leb_gt 8 (d - 3 + 5))) by lia. by replace (d - 3 + 5) with (d + 2) by lia.
Qed.

Lemma synced_step_2 decoded last eb e out db b :
  0 <= b < 256 → 0 <= last < 256 → 2 <= e <= 4 → Forall (fun c => c < 128) out →
  decode_bytes (0, 0, []) out = Some (db, 8 - e, decoded) →
  db mod 2 ^ (8 - e) = last / 2 ^ e → eb mod 2 ^ e = last mod 2 ^ e →
  synced (decoded ++ [last] ++ [b]) (encode_byte (eb, e, out) b).
Proof.
  intros Hb Hl He Hout Hd Hdb Heb. rewrite encode_byte_2 by lia. split.
  { apply (symbols_ascii out [_; _]); [done|]. repeat constructor; apply mod_32. }
  assert (e = 2 ∨ e = 3 ∨ e = 4) as [-> | [-> | ->]] by lia; eexists.
  - left. split; [done|]. erewrite decode_more2 by (done || apply mod_32 || lia).
    change (8 - 2 =? 6) with true. cbv iota.
    match goal with |- Some (_, _, _ ++ [?x] ++ [?y]) = _ =>
      replace x with last by registers; replace y with b by registers end. by rewrite app_assoc.
  - right. split; [lia|]. exists (decoded ++ [last]), b. split_and!; try lia; [by rewrite <- app_assoc| | |].
    + erewrite decode_more2 by (done || apply mod_32 || lia). last_byte.
    + registers.
    + registers.
  - right. split; [lia|]. exists (decoded ++ [last]), b. split_and!; try lia; [by rewrite <- app_assoc| | |].
    + erewrite decode_more2 by (done || apply mod_32 || lia). last_byte.
    + registers.
    + registers.
Qed.


Lemma synced_step bytes st b :
  0 <= b < 256 → synced bytes st → synced (bytes ++ [b]) (encode_byte st b).
Proof.
  destruct st as [[eb e] out]. intros Hb (Hout & db & [(-> & Hd)|(He & decoded & last & -> & Hl & Hd & Hdb & Heb)]).
  - by eapply synced_step_0.
  - rewrite <- app_assoc. assert (e = 1 ∨ 2 <= e <= 4) as [-> | ?] by lia.
    + by eapply synced_step_1.
    + by eapply synced_step_2.
Qed.

Lemma synced_encode l bytes st :
  Forall (fun b => 0 <= b < 256) l → synced bytes st → synced (bytes ++ l) (foldl encode_byte st l).
Proof.
  intros Hl. revert bytes st. induction Hl as [|b l Hb Hl IH]; intros bytes st Hs; [by rewrite app_nil_r|].
  cbn [foldl]. replace (bytes ++ b :: l) with ((bytes ++ [b]) ++ l) by by rewrite <- app_assoc.
  apply IH. by apply synced_step.
Qed.

Lemma str_bytes_id s : Forall (fun c => c < 128) s → str_bytes s = s.
Proof.
  induction 1 as [|c s Hc _ IH]; [done|]. unfold str_bytes in *. rewrite bind_cons, IH.
  unfold encode_utf8. by rewrite (proj2 (Z.ltb_lt c 0x80)).
Qed.

(** The trailing symbol: the pending bits, padded with zeroes. *)
Lemma base32_flush decoded last eb e out db :
  0 <= last < 256 → 1 <= e <= 4 →
  decode_bytes (0, 0, []) out = Some (db, 8 - e, decoded) →
  db mod 2 ^ (8 - e) = last / 2 ^ e → eb mod 2 ^ e = last mod 2 ^ e →
  ∃ db', decode_bytes (0, 0, []) (out ++ [alphabet_at (Z.land (shl32 eb (5 - e)) 0x1f)])
         = Some (db', 5 - e, decoded ++ [last]).
Proof.
  intros Hl He Hd Hdb Heb. change 0x1f with (Z.ones 5). rewrite Z.land_ones by lia.
  unfold shl32, wrap. change (2 ^ 32) with 4294967296. rewrite Z.shiftl_mul_pow2, mod_low by lia.
  change (2 ^ 5) with 32. eexists. erewrite decode_more by (done || apply mod_32 || lia).
  assert (e = 1 ∨ e = 2 ∨ e = 3 ∨ e = 4) as [-> | [-> | [-> | ->]]] by lia; last_byte.
Qed.

(** base32 round trip: a secret of any positive number of bytes is read
    back from its encoding, the 32-bit register of either side losing no bit
    that matters. *)
Theorem base32_roundtrip bytes :
  bytes ≠ [] → Forall (fun b => 0 <= b < 256) bytes →
  base32_decode (base32_encode bytes) = Some bytes.
Proof.
  intros Hne Hb. unfold base32_decode, base32_encode.
  assert (synced [] (0, 0, [])) as H0 by (split; [constructor|exists 0; left; done]).
  pose proof (synced_encode bytes [] _ Hb H0) as Hs. cbn [app] in Hs.
  destruct (foldl encode_byte (0, 0, []) bytes) as [[eb e] out].
  apply is_empty_false in Hne.
  destruct Hs as (Hout & db & [(-> & Hd)|(He & decoded & last & -> & Hl & Hd & Hdb & Heb)]).
  - cbn [Z.ltb]. rewrite str_bytes_id by done. change (0 <? 0) with false. cbv iota.
    rewrite Hd. cbn. by rewrite Hne.
  - rewrite (proj2 (Z.ltb_lt 0 e)) by lia.
    destruct (base32_flush decoded last eb e out db) as [db' Hf]; [done..|].
    rewrite str_bytes_id, Hf; [cbn; by rewrite Hne|].
    change 0x1f with (Z.ones 5). rewrite Z.land_ones by lia. apply (symbols_ascii out [_]); [done|].
    repeat constructor; apply mod_32.
Qed.

(** ** The window *)

Section window.
Context (hmac_sha1 : list Z → list Z → list Z).

Lemma decimal_digits_spec n v :
  length (decimal_digits n v) = n ∧ Forall (fun c => is_ascii_digit c = true) (decimal_digits n v).
Proof.
  revert v. induction n as [|n IH]; intros v; cbn [decimal_digits]; [done|].
  destruct (IH (v / 10)) as [Hl Hf]. split; [rewrite length_app, Hl; cbn; lia|].
  apply Forall_app. split; [done|]. repeat constructor. unfold is_ascii_digit.
  pose proof (Z.mod_pos_bound v 10). apply andb_true_iff. rewrite !Z.leb_le. lia.
Qed.

Lemma digit_ascii c : is_ascii_digit c = true → c < 128.
Proof. unfold is_ascii_digit. intros. bool_prop. lia. Qed.

Lemma format_totp_spec v :
  byte_len (format_totp v) = 6 ∧ str_bytes (format_totp v) = format_totp v
  ∧ forallb is_ascii_digit (format_totp v) = true.
Proof.
  destruct (decimal_digits_spec TOTP_DIGITS v) as [Hl Hf]. fold (format_totp v) in *.
  assert (Forall (fun c => c < 128) (format_totp v)) as Ha by (eapply Forall_impl; [exact Hf|apply digit_ascii]).
  split_and!; [|by apply str_bytes_id|by apply forallb_In, Forall_forall].
  rewrite <- str_bytes_len, str_bytes_id by done. unfold zlen. by rewrite Hl.
Qed.

(** The candidate whose code the loop accepts. *)
Definition code_matches (key : list Z) (normalized : rstr) (c : Z) : Prop :=
  0 <= c ∧ format_totp (totp_at hmac_sha1 key c) = normalized.

Lemma match_candidate_spec key normalized acc c :
  str_bytes normalized = normalized →
  match_candidate hmac_sha1 key normalized acc c = Some c ∧ code_matches key normalized c
  ∨ match_candidate hmac_sha1 key normalized acc c = acc ∧ ¬ code_matches key normalized c.
Proof.
  intros Hn. unfold match_candidate, code_matches. destruct (Z.ltb_spec c 0); [right; split; [done|lia]|].
  destruct (format_totp_spec (totp_at hmac_sha1 key c)) as (_ & Hs & _). rewrite Hs, Hn.
  destruct (constant_time_eq _ _) eqn:E.
  - apply AuthProofs.constant_time_eq_spec in E. auto.
  - right. split; [done|]. intros [_ ?]. by rewrite (proj2 (AuthProofs.constant_time_eq_spec _ _)) in E.
Qed.

(** The loop keeps the last candidate that matches. *)
Lemma window_fold key n l c :
  str_bytes n = n → (∀ i j, (i < j)%nat → ∀ x y, l !! i = Some x → l !! j = Some y → x < y) →
  foldl (match_candidate hmac_sha1 key n) None l = Some c ↔
  c ∈ l ∧ code_matches key n c ∧ ∀ c', c' ∈ l → c < c' → ¬ code_matches key n c'.
Proof.
  intros Hn. induction l as [|x l IH] using rev_ind; intros Hsort; [cbn; set_solver|].
  rewrite foldl_snoc.
  assert (∀ y, y ∈ l → y < x) as Hx.
  { intros y [i Hi]%list_elem_of_lookup. pose proof (lookup_lt_Some _ _ _ Hi).
    apply (Hsort i (length l)); [done|by rewrite lookup_app_l|].
    by rewrite lookup_app_r, Nat.sub_diag by done. }
  assert (∀ y, y ∈ l ++ [x] ↔ y ∈ l ∨ y = x) as Hin by set_solver. setoid_rewrite Hin.
  destruct (match_candidate_spec key n (foldl (match_candidate hmac_sha1 key n) None l) x Hn) as [[-> Hm]|[-> Hm]].
  - split; [intros [= <-]; split_and!; [by right|done|]; intros c' [?%Hx| ->]; lia|].
    intros ([Hc| ->] & _ & Hl); [|done]. exfalso. apply (Hl x); auto.
  - rewrite IH; [naive_solver|]. intros i j Hij y z Hy Hz.
    apply (Hsort i j Hij); by apply lookup_app_l_Some.
Qed.

(** a one-time code is accepted with step [c] exactly when [c] is the
    latest non-negative step within one step (30 seconds) of the present whose
    code, for the decoded secret, is the submitted one with its spaces removed.
    The step returned is the one stored to refuse a replay. *)
Theorem verify_totp_code_step_exact secret code now c :
  let counter := timestamp now / 30 in
  verify_totp_code_step hmac_sha1 secret code now = Some c ↔
  ∃ key, base32_decode secret = Some key
    ∧ counter - 1 <= c <= counter + 1 ∧ code_matches key (normalize_code code) c
    ∧ ∀ c', c < c' <= counter + 1 → ¬ code_matches key (normalize_code code) c'.
Proof.
  cbn zeta. unfold verify_totp_code_step. set (n := normalize_code code). set (counter := timestamp now / 30).
  destruct (negb (byte_len n =? Z.of_nat TOTP_DIGITS) || _) eqn:Hg.
  { split; [done|]. intros (key & _ & _ & [_ Hc] & _). destruct (format_totp_spec (totp_at hmac_sha1 key c)) as (Hl & Hs & Hd).
    rewrite Hc in Hl, Hs, Hd. rewrite Hl, Hs, Hd in Hg. done. }
  bool_prop. rename H0 into Hdig. assert (str_bytes n = n) as Hn.
  { apply AuthProofs.str_bytes_ascii, Forall_forall. intros b Hb. apply digit_ascii. by apply (proj1 (forallb_In _ _) Hdig). }
  destruct (base32_decode secret) as [key|]; [|naive_solver].
  change (timestamp now / TOTP_STEP_SECONDS) with counter. cbv zeta. rewrite window_fold; [|done|].
  - assert (∀ x, x ∈ (fun i => counter - TOTP_WINDOW + Z.of_nat i) <$> seq 0 (Z.to_nat (2 * TOTP_WINDOW + 1))
        ↔ counter - 1 <= x <= counter + 1) as Hw.
    { intros x. rewrite list_elem_of_fmap. change TOTP_WINDOW with 1. setoid_rewrite elem_of_seq. split.
      - intros (i & -> & Hi). lia.
      - intros Hx. exists (Z.to_nat (x - counter + 1)). lia. }
    setoid_rewrite Hw. split.
    + intros (? & ? & Hl). exists key. split_and!; try done; try lia. intros c' Hc'. apply Hl; lia.
    + intros (key' & [= <-] & ? & ? & Hl). split_and!; try done; try lia. intros c' Hc' ?. apply Hl. lia.
  - intros i j Hij x y. rewrite !list_lookup_fmap, !fmap_Some.
    intros (i' & [-> _]%lookup_seq & ->) (j' & [-> _]%lookup_seq & ->). lia.
Qed.
End window.


(** A concrete stand-in for the digest. *)
Definition hmac0 (key msg : list Z) : list Z := take 19 (msg ++ key ++ replicate 20 3) ++ [4].
Definition secret0 : rstr := base32_encode (lit "12345678901234567890").

End Totp.
