(* ===== verification/Net.v ===== *)
(** * Net: [std::net] addresses, as the sources use them

    Addresses, their parser (the recursive-descent parser behind
    [str::parse::<IpAddr>]), their printer, and CIDR membership, which the
    server writes twice ([ip_in_cidr] of [security.rs] and [nat_ip_in_cidr] of
    [nat/policy.rs]). *)

From S2P Require Import Prelude Text.

Module Net.

(** An IPv4 address as a [u32], an IPv6 address as a [u128]. *)
Inductive IpAddr : Type := V4 (ip : Z) | V6 (ip : Z).
#[global] Instance ip_eq_dec : EqDecision IpAddr.
Proof. solve_decision. Defined.

Definition ip_ok (a : IpAddr) : Prop :=
  match a with V4 ip => 0 <= ip < 2 ^ 32 | V6 ip => 0 <= ip < 2 ^ 128 end.

Definition from_octets (a b c d : Z) : Z := a * 2 ^ 24 + b * 2 ^ 16 + c * 2 ^ 8 + d.
(** [octets()[i]]. *)
Definition octet (i ip : Z) : Z := (ip / 2 ^ (24 - 8 * i)) mod 2 ^ 8.
(** [segments()[i]]. *)
Definition segment (i ip : Z) : Z := (ip / 2 ^ (112 - 16 * i)) mod 2 ^ 16.
Definition from_segments (l : list Z) : Z := foldl (fun acc s => acc * 2 ^ 16 + s) 0 l.
Definition segments (ip : Z) : list Z := (fun i => segment i ip) <$> [0; 1; 2; 3; 4; 5; 6; 7].

(** ** Classification *)

Definition is_private (ip : Z) : bool :=
  (octet 0 ip =? 10)
  || ((octet 0 ip =? 172) && (16 <=? octet 1 ip) && (octet 1 ip <=? 31))
  || ((octet 0 ip =? 192) && (octet 1 ip =? 168)).
Definition is_loopback_v4 (ip : Z) : bool := octet 0 ip =? 127.
Definition is_link_local (ip : Z) : bool := (octet 0 ip =? 169) && (octet 1 ip =? 254).
Definition is_multicast_v4 (ip : Z) : bool := (224 <=? octet 0 ip) && (octet 0 ip <=? 239).
Definition is_unspecified (ip : Z) : bool := ip =? 0.
Definition is_broadcast (ip : Z) : bool := ip =? 2 ^ 32 - 1.
Definition is_documentation (ip : Z) : bool :=
  ((octet 0 ip =? 192) && (octet 1 ip =? 0) && (octet 2 ip =? 2))
  || ((octet 0 ip =? 198) && (octet 1 ip =? 51) && (octet 2 ip =? 100))
  || ((octet 0 ip =? 203) && (octet 1 ip =? 0) && (octet 2 ip =? 113)).

Definition is_loopback_v6 (ip : Z) : bool := ip =? 1.
Definition is_multicast_v6 (ip : Z) : bool := Z.land (segment 0 ip) 0xff00 =? 0xff00.

Definition is_loopback (a : IpAddr) : bool :=
  match a with V4 ip => is_loopback_v4 ip | V6 ip => is_loopback_v6 ip end.

(** [Ipv6Addr::to_ipv4_mapped] and [IpAddr::to_canonical]. *)
Definition to_ipv4_mapped (ip : Z) : option Z :=
  if ip / 2 ^ 32 =? 0xffff then Some (ip mod 2 ^ 32) else None.
Definition to_canonical (a : IpAddr) : IpAddr :=
  match a with
  | V4 _ => a
  | V6 ip => match to_ipv4_mapped ip with Some v4 => V4 v4 | None => a end
  end.

(** ** Parsing

    Each reader returns what it read with the rest of the input; [None] leaves
    the input where it was ([read_atomically]). *)

Definition read_given_char (c : Z) (s : rstr) : option rstr := strip_prefix_char c s.

Fixpoint read_digits (radix max_digits result digit_count : Z) (s : rstr) : option (Z * Z * rstr) :=
  match s with
  | c :: s' =>
      match to_digit radix c with
      | Some digit =>
          let result := result * radix + digit in
          let digit_count := digit_count + 1 in
          if max_digits <? digit_count then None
          else read_digits radix max_digits result digit_count s'
      | None => Some (result, digit_count, s)
      end
  | [] => Some (result, digit_count, s)
  end.

Definition read_number (radix max_digits max : Z) (allow_zero_prefix : bool) (s : rstr) : option (Z * rstr) :=
  let has_leading_zero := match s with 48 :: _ => true | _ => false end in
  '(result, digit_count, rest) ← read_digits radix max_digits 0 0 s;
  if digit_count =? 0 then None
  else if negb allow_zero_prefix && has_leading_zero && (1 <? digit_count) then None
  else if max <? result then None
  else Some (result, rest).

Definition read_separator {A} (sep : Z) (index : nat) (inner : rstr → option (A * rstr)) (s : rstr)
    : option (A * rstr) :=
  match index with O => inner s | S _ => s ← read_given_char sep s; inner s end.

Definition dot : Z := 46.
Definition read_octet : rstr → option (Z * rstr) := read_number 10 3 u8_max false.

Definition read_ipv4_addr (s : rstr) : option (Z * rstr) :=
  '(a, s) ← read_separator dot 0 read_octet s;
  '(b, s) ← read_separator dot 1 read_octet s;
  '(c, s) ← read_separator dot 2 read_octet s;
  '(d, s) ← read_separator dot 3 read_octet s;
  Some (from_octets a b c d, s).

(** [read_groups] with [n] slots left, the next one of index [i]: the groups
    read and whether they end with an embedded IPv4 address. *)
Fixpoint read_groups (n i : nat) (s : rstr) : list Z * bool * rstr :=
  match n with
  | O => ([], false, s)
  | S n =>
      match (match n with O => None | S _ => read_separator 58 i read_ipv4_addr s end) with
      | Some (v4, rest) => ([v4 / 2 ^ 16; v4 mod 2 ^ 16], true, rest)
      | None =>
          match read_separator 58 i (read_number 16 4 u16_max true) s with
          | Some (g, rest) => let '(gs, b, rest) := read_groups n (S i) rest in (g :: gs, b, rest)
          | None => ([], false, s)
          end
      end
  end.

Definition read_ipv6_addr (s : rstr) : option (Z * rstr) :=
  let '(head, head_ipv4, s) := read_groups 8 0 s in
  if (length head =? 8)%nat then Some (from_segments head, s)
  else if head_ipv4 then None
  else
    s ← read_given_char 58 s;
    s ← read_given_char 58 s;
    let '(tail, _, s) := read_groups (8 - (length head + 1)) 0 s in
    Some (from_segments (head ++ replicate (8 - length head - length tail) 0 ++ tail), s).

(** [<IpAddr as FromStr>::from_str]: the whole input must be read. *)
Definition parse_ip (s : rstr) : option IpAddr :=
  let r := match read_ipv4_addr s with
           | Some (ip, rest) => Some (V4 ip, rest)
           | None => match read_ipv6_addr s with
                     | Some (ip, rest) => Some (V6 ip, rest)
                     | None => None
                     end
           end in
  match r with Some (a, []) => Some a | _ => None end.

(** ** Printing *)

Fixpoint print_radix (radix : Z) (fuel : nat) (n : Z) (acc : rstr) : rstr :=
  match fuel with
  | O => acc
  | S fuel =>
      let d := n mod radix in
      let c := if d <? 10 then 48 + d else 87 + d in
      if n <? radix then c :: acc else print_radix radix fuel (n / radix) (c :: acc)
  end.
(** [format!("{}", n)] of an integer of at most 20 digits, [format!("{:x}", n)]. *)
Definition print_dec (n : Z) : rstr := print_radix 10 20 n [].
Definition print_hex (n : Z) : rstr := print_radix 16 20 n [].

Definition print_ipv4 (ip : Z) : rstr :=
  join (lit ".") ((fun i => print_dec (octet i ip)) <$> [0; 1; 2; 3]).

(** The first longest run of zero segments: its start and length. *)
Definition zero_span (segs : list Z) : nat * nat :=
  let step (st : (nat * nat) * (nat * nat) * nat) (seg : Z) :=
    let '(longest, current, i) := st in
    if seg =? 0 then
      let current := if (current.2 =? 0)%nat then (i, 1%nat) else (current.1, S current.2) in
      ((if (longest.2 <? current.2)%nat then current else longest), current, S i)
    else (longest, (0%nat, 0%nat), S i) in
  (foldl step ((0, 0), (0, 0), 0)%nat segs).1.1.

Definition print_ipv6 (ip : Z) : rstr :=
  match to_ipv4_mapped ip with
  | Some v4 => lit "::ffff:" ++ print_ipv4 v4
  | None =>
      let segs := segments ip in
      let sub l := join (lit ":") (print_hex <$> l) in
      let '(start, len) := zero_span segs in
      if (1 <? len)%nat then sub (take start segs) ++ lit "::" ++ sub (drop (start + len) segs)
      else sub segs
  end.

Definition print_ip (a : IpAddr) : rstr :=
  match a with V4 ip => print_ipv4 ip | V6 ip => print_ipv6 ip end.

(** ** CIDR blocks *)

(** [if prefix == 0 { 0 } else { uN::MAX << (N - prefix) }]. *)
Definition prefix_mask (w prefix : Z) : Z :=
  if prefix =? 0 then 0 else wrap w (Z.shiftl (2 ^ w - 1) (w - prefix)).

Definition ip_in_cidr (ip network : IpAddr) (prefix : Z) : bool :=
  match ip, network with
  | V4 ip, V4 network =>
      if prefix <=? 32
      then let mask := prefix_mask 32 prefix in Z.land ip mask =? Z.land network mask
      else false
  | V6 ip, V6 network =>
      if prefix <=? 128
      then let mask := prefix_mask 128 prefix in Z.land ip mask =? Z.land network mask
      else false
  | _, _ => false
  end.

(** ** Lemmas *)

Lemma prefix_mask_ones w p : 0 <= p <= w → prefix_mask w p = Z.shiftl (Z.ones p) (w - p).
Proof.
  intros Hp. unfold prefix_mask. destruct (Z.eqb_spec p 0) as [->|Hp0].
  { by rewrite Z.shiftl_mul_pow2 by lia. }
  unfold wrap. rewrite <- Z.land_ones by lia. rewrite Z.sub_1_r, <- Z.ones_equiv.
  apply Z.bits_inj'. intros m Hm. rewrite Z.land_spec, !Z.shiftl_spec by lia.
  destruct (Z.lt_ge_cases m w).
  - rewrite (Z.ones_spec_low w m), andb_true_r by lia.
    destruct (Z.lt_ge_cases m (w - p)); [by rewrite !Z.testbit_neg_r by lia|].
    by rewrite !Z.ones_spec_low by lia.
  - rewrite (Z.ones_spec_high w m), andb_false_r by lia. by rewrite Z.ones_spec_high by lia.
Qed.

Lemma land_prefix_mask w p ip :
  0 <= p <= w → 0 <= ip < 2 ^ w → Z.land ip (prefix_mask w p) = ip / 2 ^ (w - p) * 2 ^ (w - p).
Proof.
  intros Hp Hip. rewrite prefix_mask_ones by done.
  rewrite <- Z.shiftr_div_pow2, <- Z.shiftl_mul_pow2 by lia.
  apply Z.bits_inj'. intros n Hn. rewrite Z.land_spec, !Z.shiftl_spec by lia.
  destruct (Z.lt_ge_cases n (w - p)).
  { rewrite !(Z.testbit_neg_r _ (n - (w - p))) by lia. apply andb_false_r. }
  rewrite Z.shiftr_spec by lia. replace (n - (w - p) + (w - p)) with n by lia.
  destruct (Z.lt_ge_cases n w); [by rewrite Z.ones_spec_low, andb_true_r by lia|].
  rewrite <- (Z.mod_small ip (2 ^ w)) by done. by rewrite Z.mod_pow2_bits_high by lia.
Qed.

(** An address is in a block when it agrees with the network on the first
    [prefix] bits. *)
Definition in_block (w ip network prefix : Z) : Prop :=
  ip / 2 ^ (w - prefix) = network / 2 ^ (w - prefix).

Lemma masked_eq w ip network p :
  0 <= p <= w → 0 <= ip < 2 ^ w → 0 <= network < 2 ^ w →
  (Z.land ip (prefix_mask w p) =? Z.land network (prefix_mask w p)) = true ↔ in_block w ip network p.
Proof.
  intros Hp Hi Hn. rewrite Z.eqb_eq, !land_prefix_mask by done. unfold in_block.
  assert (0 < 2 ^ (w - p)) by (apply Z.pow_pos_nonneg; lia). split; [nia|by intros ->].
Qed.

Lemma ip_in_cidr_spec ip network p :
  ip_ok ip → ip_ok network → 0 <= p →
  ip_in_cidr ip network p = true ↔
  match ip, network with
  | V4 ip, V4 network => p <= 32 ∧ in_block 32 ip network p
  | V6 ip, V6 network => p <= 128 ∧ in_block 128 ip network p
  | _, _ => False
  end.
Proof.
  intros Hi Hn Hp. destruct ip as [ip|ip], network as [n|n]; cbn [ip_in_cidr]; try done; cbn in Hi, Hn.
  - destruct (Z.leb_spec p 32); [rewrite masked_eq by done; tauto|split; [done|lia]].
  - destruct (Z.leb_spec p 128); [rewrite masked_eq by done; tauto|split; [done|lia]].
Qed.

(** What the parser returns is an address. *)
Lemma read_number_range radix md mx z s n r :
  2 <= radix → read_number radix md mx z s = Some (n, r) → 0 <= n <= mx.
Proof.
  intros Hr. unfold read_number.
  assert (∀ s res cnt n c r, 0 <= res → read_digits radix md res cnt s = Some (n, c, r) → 0 <= n) as Hd.
  { clear s n r. induction s as [|c s IH]; intros res cnt n k r Hres; cbn [read_digits]; [naive_solver|].
    destruct (to_digit radix c) as [d|] eqn:Ed; [|naive_solver].
    assert (0 <= d) as Hd0.
    { revert Ed. unfold to_digit, is_ascii_digit, is_ascii_lower, is_ascii_upper.
      repeat case_match; intros [= <-]; bool_prop; lia. }
    case_match; [done|]. apply IH. nia. }
  destruct (read_digits radix md 0 0 s) as [[[res cnt] rest]|] eqn:E; cbn; [|done].
  apply Hd in E; [|lia]. destruct (cnt =? 0); [done|]. destruct (negb z && _ && _); [done|].
  destruct (Z.ltb_spec mx res); [done|]. intros [= <- <-]. lia.
Qed.

Lemma read_separator_range {A} (P : A → Prop) sep i inner s a r :
  (∀ s a r, inner s = Some (a, r) → P a) → read_separator sep i inner s = Some (a, r) → P a.
Proof.
  intros Hin. destruct i; cbn; [apply Hin|]. destruct (read_given_char sep s); cbn; [apply Hin|done].
Qed.

Lemma read_octet_range i s n r : read_separator dot i read_octet s = Some (n, r) → 0 <= n <= 255.
Proof.
  apply (read_separator_range (fun n => 0 <= n <= 255)). intros ? ? ? H.
  by apply read_number_range in H.
Qed.

Lemma read_ipv4_range s ip r : read_ipv4_addr s = Some (ip, r) → 0 <= ip < 2 ^ 32.
Proof.
  unfold read_ipv4_addr. intros H.
  repeat (apply bind_Some in H as ([? ?] & ?%read_octet_range & H)). simplify_eq. unfold from_octets. lia.
Qed.

Lemma from_segments_range l : Forall (fun g => 0 <= g < 2 ^ 16) l →
  0 <= from_segments l < 2 ^ (16 * zlen l).
Proof.
  unfold from_segments. induction l as [|g l IH] using rev_ind; [by cbn|].
  rewrite Forall_app, Forall_singleton, foldl_snoc, zlen_app. intros [Hl Hg]. specialize (IH Hl).
  change (zlen [g]) with 1. replace (16 * (zlen l + 1)) with (16 * zlen l + 16) by lia.
  rewrite Z.pow_add_r by (unfold zlen; lia). nia.
Qed.

Lemma read_groups_range n i s gs b r :
  read_groups n i s = (gs, b, r) → (length gs <= n)%nat ∧ Forall (fun g => 0 <= g < 2 ^ 16) gs.
Proof.
  revert i s gs b r. induction n as [|n IH]; intros i s gs b r; cbn [read_groups]; [by intros [= <- <- <-]|].
  destruct (match n with O => None | _ => _ end) as [[v4 rest]|] eqn:E4.
  { intros [= <- <- <-]. destruct n; [done|]. cbn [length]. split; [lia|].
    apply (read_separator_range (fun v => 0 <= v < 2 ^ 32)) in E4; [|apply read_ipv4_range].
    repeat constructor; try apply Z.mod_pos_bound; try (apply Z.div_pos; lia); try done.
    apply Z.div_lt_upper_bound; lia. }
  destruct (read_separator 58 i (read_number 16 4 u16_max true) s) as [[g rest]|] eqn:Eg.
  - destruct (read_groups n (S i) rest) as [[gs' b'] r'] eqn:E. intros [= <- <- <-].
    apply IH in E as [Hl Hf]. cbn [length]. split; [lia|]. constructor; [|done].
    apply (read_separator_range (fun v => 0 <= v <= u16_max)) in Eg; [unfold u16_max in Eg; lia|].
    intros ? ? ? H. by apply read_number_range in H.
  - intros [= <- <- <-]. cbn. split; [lia|constructor].
Qed.

Lemma read_ipv6_range s ip r : read_ipv6_addr s = Some (ip, r) → 0 <= ip < 2 ^ 128.
Proof.
  unfold read_ipv6_addr. destruct (read_groups 8 0 s) as [[hd b] s1] eqn:Eh.
  apply read_groups_range in Eh as [Hl Hf].
  assert (∀ l, length l = 8%nat → Forall (fun g => 0 <= g < 2 ^ 16) l → 0 <= from_segments l < 2 ^ 128) as H8.
  { intros l Hl8 Hfl. apply from_segments_range in Hfl. unfold zlen in Hfl. by rewrite Hl8 in Hfl. }
  destruct (Nat.eqb_spec (length hd) 8); [intros [= <- <-]; auto|].
  destruct b; [done|]. intros (s2 & _ & (s3 & _ & H)%bind_Some)%bind_Some.
  destruct (read_groups _ 0 s3) as [[tl b'] s4] eqn:Et. apply read_groups_range in Et as [Hl' Hf'].
  injection H as <- <-. apply H8.
  - rewrite !length_app, length_replicate. lia.
  - apply Forall_app. split; [done|]. apply Forall_app. split; [|done]. apply Forall_replicate. lia.
Qed.

Lemma parse_ip_ok s a : parse_ip s = Some a → ip_ok a.
Proof.
  unfold parse_ip. destruct (read_ipv4_addr s) as [[ip r]|] eqn:E4.
  { destruct r; [|done]. intros [= <-]. by apply read_ipv4_range in E4. }
  destruct (read_ipv6_addr s) as [[ip [|]]|] eqn:E6; try done.
  intros [= <-]. by apply read_ipv6_range in E6.
Qed.

Lemma to_canonical_ok a : ip_ok a → ip_ok (to_canonical a).
Proof.
  destruct a as [ip|ip]; cbn; [done|]. unfold to_ipv4_mapped. case_match; [|done]. case_match; [|done].
  simplify_eq. intros _. by apply Z.mod_pos_bound.
Qed.

(** ** Examples *)

Example parse_examples :
  (parse_ip <$> [lit "192.0.2.7"; lit "256.0.0.1"; lit "01.2.3.4"; lit "::1"; lit "2001:db8::ff:0:1";
                 lit "::ffff:10.0.0.1"; lit "1:2:3:4:5:6:7:8"; lit "1::2::3"; lit "fe80::1%eth0"; lit "::"])
  = [Some (V4 0xc0000207); None; None; Some (V6 1); Some (V6 0x20010db8_00000000_000000ff_00000001);
     Some (V6 0xffff_0a000001); Some (V6 0x0001_0002_0003_0004_0005_0006_0007_0008); None; None; Some (V6 0)].
Proof. vm_compute. reflexivity. Qed.

End Net.
