(* ===== verification/Security.v ===== *)
(** * Security: outbound targets, client addresses and WebSocket origins

    Models [crates/server/src/security.rs]: which targets the server may
    connect to (the SSRF guard), which client address a request is attributed
    to, and which browser origins may open a WebSocket. DNS, the URL parser and
    [HeaderValue::to_str] are parameters; the process environment is an
    argument. *)

From S2P Require Import Prelude Text Net.

Module Security.
Import Net.

Definition HTTP_FORWARDED_HEADER_MAX_BYTES : Z := 1024.

(** [std::env::var(name).ok()]. *)
Abbreviation Env := (rstr → option rstr).

(** [matches!(value.as_str(), "1" | "true" | "TRUE" | "yes" | "YES")]. *)
Definition truthy (value : rstr) : bool :=
  contains value (lit <$> ["1"; "true"; "TRUE"; "yes"; "YES"]).
Definition env_truthy (env : Env) (name : rstr) : bool :=
  match env name with Some value => truthy value | None => false end.

Definition allow_private_outbound (env : Env) : bool :=
  env_truthy env (lit "XLSTATUS_ALLOW_PRIVATE_OUTBOUND").
Definition allow_private_webhooks (env : Env) : bool :=
  allow_private_outbound env || env_truthy env (lit "XLSTATUS_ALLOW_PRIVATE_WEBHOOKS").

(** ** Blocked addresses *)

Definition is_blocked_ipv4 (ip : Z) : bool :=
  is_private ip || is_loopback_v4 ip || is_link_local ip || is_multicast_v4 ip || is_unspecified ip
  || is_documentation ip || is_broadcast ip
  || (octet 0 ip =? 0)
  || (224 <=? octet 0 ip)
  || ((octet 0 ip =? 100) && ((64 <=? octet 1 ip) && (octet 1 ip <=? 127)))
  || ((octet 0 ip =? 169) && (octet 1 ip =? 254))
  || ((octet 0 ip =? 192) && (octet 1 ip =? 0) && (octet 2 ip =? 0))
  || ((octet 0 ip =? 192) && (octet 1 ip =? 88) && (octet 2 ip =? 99))
  || ((octet 0 ip =? 198) && ((18 <=? octet 1 ip) && (octet 1 ip <=? 19)))
  || ((octet 0 ip =? 255) && (octet 1 ip =? 255) && (octet 2 ip =? 255) && (octet 3 ip =? 255)).

(** [hi as u8] keeps the low byte. *)
Definition ipv4_from_segments (hi lo : Z) : Z :=
  from_octets (wrap 8 (Z.shiftr hi 8)) (wrap 8 hi) (wrap 8 (Z.shiftr lo 8)) (wrap 8 lo).

(** [segments()[..6] == l]. *)
Definition first6 (ip : Z) (l : list Z) : bool := bool_decide (take 6 (segments ip) = l).

Definition embedded_ipv4 (ip : Z) : option Z :=
  match to_ipv4_mapped ip with
  | Some mapped => Some mapped
  | None =>
      if first6 ip [0; 0; 0; 0; 0; 0] || first6 ip [0; 0; 0; 0; 0xffff; 0]
      then Some (ipv4_from_segments (segment 6 ip) (segment 7 ip))
      else if first6 ip [0x0064; 0xff9b; 0; 0; 0; 0]
              || ((segment 0 ip =? 0x0064) && (segment 1 ip =? 0xff9b) && (segment 2 ip =? 1))
      then Some (ipv4_from_segments (segment 6 ip) (segment 7 ip))
      else if segment 0 ip =? 0x2002
      then Some (ipv4_from_segments (segment 1 ip) (segment 2 ip))
      else None
  end.

Definition is_blocked_ipv6 (ip : Z) : bool :=
  let first := segment 0 ip in
  is_loopback_v6 ip || is_unspecified ip || is_multicast_v6 ip
  || (Z.land first 0xfe00 =? 0xfc00)
  || (Z.land first 0xffc0 =? 0xfe80)
  || (Z.land first 0xffc0 =? 0xfec0)
  || ((segment 0 ip =? 0x2001) && (segment 1 ip =? 0x0db8))
  || (Z.land (segment 0 ip) 0xfff0 =? 0x3ff0)
  || ((segment 0 ip =? 0x2001) && (segment 1 ip <? 0x0200))
  || ((segment 0 ip =? 0x0100) && bool_decide (take 3 (drop 1 (segments ip)) = [0; 0; 0]))
  || first6 ip [0; 0; 0; 0; 0; 0]
  || first6 ip [0; 0; 0; 0; 0xffff; 0]
  || first6 ip [0x0064; 0xff9b; 0; 0; 0; 0]
  || ((segment 0 ip =? 0x0064) && (segment 1 ip =? 0xff9b) && (segment 2 ip =? 0x0001))
  || match embedded_ipv4 ip with Some v4 => is_blocked_ipv4 v4 | None => false end.

Definition is_blocked_ip (ip : IpAddr) : bool :=
  match ip with V4 ip => is_blocked_ipv4 ip | V6 ip => is_blocked_ipv6 ip end.

(** ** Outbound targets *)

Record SocketAddr := { sa_ip : IpAddr; sa_port : Z }.

(** The parts of a parsed URL the code reads. *)
Record Url := {
  scheme : rstr; username : rstr; password : option rstr; host_str : option rstr;
  port : option Z; port_or_known_default : option Z; path : rstr;
  query : option rstr; fragment : option rstr;
}.

Inductive OutboundError : Type :=
| UrlInvalid | SchemeNotAllowed (scheme : rstr) | HasCredentials | NoHost | NoPort
| HostInvalid | ResolveFailed | NoAddress | Disallowed (ip : IpAddr) | DisallowedHost (host : rstr).

Definition ensure_public_ip (ip : IpAddr) : result OutboundError unit :=
  if is_blocked_ip ip then Err (Disallowed ip) else Ok ().

(** [strip_prefix('[').and_then(strip_suffix(']')).unwrap_or(host)]. *)
Definition unbracket (host : rstr) : rstr :=
  default host (strip_prefix_char 91 host ≫= strip_suffix_char 93).

Record ValidatedOutboundUrl := { v_url : Url; v_host : rstr; v_addrs : list SocketAddr }.

Section outbound.
(** [tokio::net::lookup_host] and [reqwest::Url::parse]. *)
Context (lookup_host : rstr → Z → option (list SocketAddr)) (url_parse : rstr → option Url).

Definition resolve_outbound_host_with_policy (host : rstr) (port : Z) (allow_private : bool)
    : result OutboundError (list SocketAddr) :=
  let trimmed_host := trim host in
  if is_empty trimmed_host || existsb is_control trimmed_host then Err HostInvalid else
  let unbracketed := unbracket trimmed_host in
  if is_empty unbracketed || contains 37 unbracketed then Err HostInvalid else
  if allow_private then
    match parse_ip unbracketed with
    | Some ip => Ok [{| sa_ip := ip; sa_port := port |}]
    | None =>
        resolved ← ok_or (lookup_host unbracketed port) ResolveFailed;
        if is_empty resolved then Err NoAddress else Ok resolved
    end
  else
  match parse_ip unbracketed with
  | Some ip => ensure_public_ip ip ;; Ok [{| sa_ip := ip; sa_port := port |}]
  | None =>
      let normalized_domain := to_ascii_lowercase (trim_end_by (Z.eqb 46) unbracketed) in
      if bool_decide (normalized_domain = lit "localhost") || ends_with (lit ".localhost") normalized_domain
      then Err (DisallowedHost host) else
      addrs ← ok_or (lookup_host unbracketed port) ResolveFailed;
      resolved ← try_fold (fun resolved addr =>
        ensure_public_ip (sa_ip addr) ;; Ok (resolved ++ [addr])) addrs [];
      if is_empty resolved then Err NoAddress else Ok resolved
  end.

Definition validate_outbound_url_resolved_with_policy (url : rstr) (allow_private : bool)
    : result OutboundError ValidatedOutboundUrl :=
  parsed ← ok_or (url_parse url) UrlInvalid;
  if negb (contains (scheme parsed) (lit <$> ["http"; "https"])) then Err (SchemeNotAllowed (scheme parsed)) else
  if negb (is_empty (username parsed)) || match password parsed with Some _ => true | None => false end
  then Err HasCredentials else
  host ← ok_or (host_str parsed) NoHost;
  port ← ok_or (port_or_known_default parsed) NoPort;
  addrs ← resolve_outbound_host_with_policy host port allow_private;
  Ok {| v_url := parsed; v_host := host; v_addrs := addrs |}.

Definition resolve_outbound_host (env : Env) (host : rstr) (port : Z) : result OutboundError (list SocketAddr) :=
  resolve_outbound_host_with_policy host port (allow_private_outbound env).
Definition validate_outbound_host (env : Env) (host : rstr) (port : Z) : result OutboundError unit :=
  (fun _ => ()) <$> resolve_outbound_host env host port.
Definition validate_outbound_url_resolved (env : Env) (url : rstr) : result OutboundError ValidatedOutboundUrl :=
  validate_outbound_url_resolved_with_policy url (allow_private_outbound env).
Definition validate_webhook_outbound_url_resolved (env : Env) (url : rstr)
    : result OutboundError ValidatedOutboundUrl :=
  validate_outbound_url_resolved_with_policy url (allow_private_webhooks env).
End outbound.

(** ** Client addresses *)

Definition trust_proxy_headers (env : Env) : bool := env_truthy env (lit "XLSTATUS_TRUST_PROXY_HEADERS").

Definition bounded_forwarded_header_str (value : rstr) : option rstr :=
  if (HTTP_FORWARDED_HEADER_MAX_BYTES <? byte_len value) || existsb is_control value then None
  else let trimmed := trim value in if is_empty trimmed then None else Some trimmed.

Definition parse_header_ip (value : rstr) : option IpAddr :=
  parse_ip (trim_end_by (Z.eqb 93) (trim_start_by (Z.eqb 91) (trim value))).

Definition sanitize_ip_label (value : option rstr) : option rstr :=
  value ← value;
  let value := trim value in
  if is_empty value then None else print_ip <$> parse_header_ip value.

Definition trusted_proxy_entry_matches (entry : rstr) (ip : IpAddr) : bool :=
  let canonical_ip := to_canonical ip in
  match parse_ip entry with
  | Some exact => bool_decide (exact = ip) || bool_decide (to_canonical exact = canonical_ip)
  | None =>
      match split_once 47 entry with
      | None => false
      | Some (network, prefix) =>
          match parse_ip network with
          | None => false
          | Some network =>
              match parse_unsigned u8_max prefix with
              | None => false
              | Some prefix => ip_in_cidr ip network prefix || ip_in_cidr canonical_ip network prefix
              end
          end
      end
  end.

(** [split([',', ' ', '\n', '\t'])]. *)
Definition is_list_separator (c : Z) : bool := contains c [44; 32; 10; 9].

Definition trusted_proxy_ip (env : Env) (ip : IpAddr) : bool :=
  match env (lit "XLSTATUS_TRUSTED_PROXIES") with
  | None => false
  | Some raw =>
      existsb (fun item => trusted_proxy_entry_matches item ip)
        (filter (fun item => is_empty item = false) (trim <$> split_by is_list_separator raw))
  end.

Definition unknown : rstr := lit "unknown".
Definition label_or_unknown (fallback : option rstr) : rstr := default unknown (sanitize_ip_label fallback).

Definition first_of {A} (o : option A) (k : option A) : option A :=
  match o with Some _ => o | None => k end.

Definition forwarded_client_ip_with_peer (env : Env) (get_header : rstr → option rstr)
    (fallback : option rstr) (peer_ip : option IpAddr) : rstr :=
  if negb (trust_proxy_headers env) then label_or_unknown fallback else
  let peer_is_trusted := match peer_ip with Some ip => trusted_proxy_ip env ip | None => false end in
  let header name := get_header name ≫= bounded_forwarded_header_str in
  let forwarded :=
    first_of (value ← header (lit "x-forwarded-for");
              value ← trim <$> head (split_by (Z.eqb 44) value);
              sanitize_ip_label (Some value))
   (first_of (value ← header (lit "x-real-ip"); sanitize_ip_label (Some value))
             (value ← header (lit "cf-connecting-ip"); sanitize_ip_label (Some value))) in
  match (if peer_is_trusted then forwarded else None) with
  | Some ip => ip
  | None => label_or_unknown fallback
  end.

Section headers.
(** [HeaderValue::to_str], and the values of each header of the request. *)
Context (to_str : list Z → option rstr) (url_parse : rstr → option Url).
Abbreviation Headers := (rstr → list (list Z)).

Definition bounded_http_forwarded_header_value (value : list Z) : option rstr :=
  if HTTP_FORWARDED_HEADER_MAX_BYTES <? zlen value then None
  else to_str value ≫= bounded_forwarded_header_str.

Definition header_get (headers : Headers) (name : rstr) : option rstr :=
  head (headers name) ≫= bounded_http_forwarded_header_value.

Definition client_ip_from_headers_and_peer (env : Env) (headers : Headers) (peer_addr : option SocketAddr) : rstr :=
  let peer_ip := sa_ip <$> peer_addr in
  if negb (trust_proxy_headers env) then label_or_unknown (print_ip <$> peer_ip)
  else forwarded_client_ip_with_peer env (header_get headers) (print_ip <$> peer_ip) peer_ip.

Definition client_ip_from_headers (env : Env) (headers : Headers) : rstr :=
  client_ip_from_headers_and_peer env headers None.

(** ** Forwarded protocol *)

Definition forwarded_header_param (value name : rstr) : option rstr :=
  first ← head (split_by (Z.eqb 44) value);
  let part_value part :=
    '(key, value) ← split_once 61 (trim part);
    if eq_ignore_ascii_case (trim key) name then Some (trim_by (Z.eqb 34) (trim value)) else None in
  head (omap part_value (split_by (Z.eqb 59) first)).

Definition forwarded_proto_header_value (headers : Headers) : option rstr :=
  first_of (value ← header_get headers (lit "x-forwarded-proto"); trim <$> head (split_by (Z.eqb 44) value))
           (value ← header_get headers (lit "forwarded"); forwarded_header_param value (lit "proto")).

Definition normalize_forwarded_proto (value : rstr) : option rstr :=
  let v := to_ascii_lowercase (trim_by (Z.eqb 34) (trim value)) in
  if bool_decide (v = lit "https") then Some (lit "https")
  else if bool_decide (v = lit "http") then Some (lit "http") else None.

Definition forwarded_proto_from_headers_and_peer (env : Env) (headers : Headers) (peer_addr : option SocketAddr)
    : option rstr :=
  if negb (trust_proxy_headers env) then None else
  peer_ip ← sa_ip <$> peer_addr;
  if negb (trusted_proxy_ip env peer_ip) then None
  else forwarded_proto_header_value headers ≫= normalize_forwarded_proto.

(** ** WebSocket origins *)

(** No credentials, no path, query or fragment. *)
Definition bare_url (u : Url) : bool :=
  is_empty (username u) && match password u with None => true | _ => false end
  && bool_decide (path u = lit "/") && match query u with None => true | _ => false end
  && match fragment u with None => true | _ => false end.

Definition default_port_of (s : rstr) : option Z :=
  if bool_decide (s = lit "http") then Some 80
  else if bool_decide (s = lit "https") then Some 443 else None.

Definition normalized_host_port (value : rstr) (default_scheme : option rstr) : option rstr :=
  parsed ← url_parse (match default_scheme with Some _ => value | None => lit "http://" ++ value end);
  host ← to_ascii_lowercase <$> host_str parsed;
  match first_of (port parsed) (default_scheme ≫= default_port_of) with
  | Some port => Some (host ++ lit ":" ++ print_dec port)
  | None => Some host
  end.

Definition normalized_origin (origin : rstr) : option rstr :=
  if existsb is_control origin then None else
  parsed ← url_parse origin;
  if negb (contains (scheme parsed) (lit <$> ["http"; "https"])) then None else
  if negb (bare_url parsed) then None else
  host ← normalized_host_port origin (Some (scheme parsed));
  Some (to_ascii_lowercase (scheme parsed) ++ lit "://" ++ host).

Definition origin_matches_allowed_origin (origin allowed : rstr) : bool :=
  if bool_decide (trim allowed = lit "*") then false
  else match normalized_origin origin, normalized_origin allowed with
       | Some origin, Some allowed => bool_decide (origin = allowed)
       | _, _ => false
       end.

Record OriginHost := { o_host : rstr; o_port : option Z; o_default_port : Z }.
Record RequestHost := { r_host : rstr; r_port : option Z }.

Definition parse_origin_host (origin : rstr) : option OriginHost :=
  if existsb is_control origin then None else
  parsed ← url_parse origin;
  if negb (bare_url parsed) then None else
  default_port ← default_port_of (scheme parsed);
  host ← host_str parsed;
  Some {| o_host := to_ascii_lowercase host; o_port := port parsed; o_default_port := default_port |}.

Definition parse_request_host (request_host : rstr) : option RequestHost :=
  if existsb is_control request_host then None else
  parsed ← url_parse (lit "http://" ++ request_host);
  if negb (bare_url parsed) then None else
  host ← host_str parsed;
  Some {| r_host := to_ascii_lowercase host; r_port := port parsed |}.

Definition origin_host_matches_request_host (origin request_host : rstr) : bool :=
  match parse_origin_host origin, parse_request_host request_host with
  | Some origin, Some request =>
      if negb (eq_ignore_ascii_case (o_host origin) (r_host request)) then false
      else match o_port origin, r_port request with
           | Some origin_port, Some request_port => origin_port =? request_port
           | Some origin_port, None => origin_port =? o_default_port origin
           | None, Some request_port => request_port =? o_default_port origin
           | None, None => true
           end
  | _, _ => false
  end.

(** [to_str().ok().map(trim).filter(non-empty, no control character)]. *)
Definition clean_header (value : list Z) : option rstr :=
  value ← to_str value;
  let value := trim value in
  if is_empty value || existsb is_control value then None else Some value.

Definition validate_websocket_origin (headers : Headers) (allowed_origins : list rstr) : bool :=
  match headers (lit "origin") with
  | [] => true
  | _ :: _ :: _ => false
  | [first_origin] =>
      if HTTP_FORWARDED_HEADER_MAX_BYTES <? zlen first_origin then false else
      match clean_header first_origin with
      | None => false
      | Some origin =>
          if eq_ignore_ascii_case origin (lit "null") then false else
          if existsb (origin_matches_allowed_origin origin) allowed_origins then true else
          match headers (lit "host") with
          | [first_host] =>
              if zlen first_host <=? HTTP_FORWARDED_HEADER_MAX_BYTES
              then match clean_header first_host with
                   | Some host => origin_host_matches_request_host origin host
                   | None => false
                   end
              else false
          | _ => false
          end
      end
  end.
End headers.

End Security.
