(* ===== verification/SecurityProofs.v ===== *)
(** * SecurityProofs: the SSRF guard is a table of blocks

    The address tests of [security.rs] are shown to be membership in explicit
    tables of CIDR blocks; what [resolve_outbound_host_with_policy] returns is
    characterised exactly; and forwarding headers are shown to have no influence
    unless the peer is a configured proxy. *)

From S2P Require Import Prelude Text Net Security.

Module SecurityProofs.
Import Net Security.

(** ** Tables *)

Definition v4 := from_octets.

(** The IPv4 blocks the server never connects to. *)
Definition SPECIAL_V4 : list (Z * Z) :=
  [(v4 0 0 0 0, 8); (v4 10 0 0 0, 8); (v4 100 64 0 0, 10); (v4 127 0 0 0, 8); (v4 169 254 0 0, 16);
   (v4 172 16 0 0, 12); (v4 192 0 0 0, 24); (v4 192 0 2 0, 24); (v4 192 88 99 0, 24);
   (v4 192 168 0 0, 16); (v4 198 18 0 0, 15); (v4 198 51 100 0, 24); (v4 203 0 113 0, 24);
   (v4 224 0 0 0, 3)].

Definition seg := from_segments.

(** The IPv6 blocks the server never connects to, whatever they embed. *)
Definition SPECIAL_V6 : list (Z * Z) :=
  [(seg [0; 0; 0; 0; 0; 0; 0; 0], 96); (seg [0; 0; 0; 0; 0xffff; 0; 0; 0], 96);
   (seg [0x64; 0xff9b; 0; 0; 0; 0; 0; 0], 96); (seg [0x64; 0xff9b; 1; 0; 0; 0; 0; 0], 48);
   (seg [0x100; 0; 0; 0; 0; 0; 0; 0], 64); (seg [0x2001; 0; 0; 0; 0; 0; 0; 0], 23);
   (seg [0x2001; 0xdb8; 0; 0; 0; 0; 0; 0], 32); (seg [0x3ff0; 0; 0; 0; 0; 0; 0; 0], 12);
   (seg [0xfc00; 0; 0; 0; 0; 0; 0; 0], 7); (seg [0xfe80; 0; 0; 0; 0; 0; 0; 0], 10);
   (seg [0xfec0; 0; 0; 0; 0; 0; 0; 0], 10); (seg [0xff00; 0; 0; 0; 0; 0; 0; 0], 8)].

(** ** IPv4 *)

Lemma octets_of ip : 0 <= ip < 2 ^ 32 →
  ip = from_octets (octet 0 ip) (octet 1 ip) (octet 2 ip) (octet 3 ip)
  ∧ 0 <= octet 0 ip < 256 ∧ 0 <= octet 1 ip < 256 ∧ 0 <= octet 2 ip < 256 ∧ 0 <= octet 3 ip < 256.
Proof.
  intros H. unfold from_octets, octet.
  change (2 ^ (24 - 8 * 0)) with 16777216. change (2 ^ (24 - 8 * 1)) with 65536.
  change (2 ^ (24 - 8 * 2)) with 256. change (2 ^ (24 - 8 * 3)) with 1. change (2 ^ 8) with 256.
  change (2 ^ 24) with 16777216. change (2 ^ 16) with 65536.
  rewrite Z.div_1_r. Z.div_mod_to_equations. lia.
Qed.

(** Membership in one of the listed blocks. *)
Definition in_table (mk : Z → IpAddr) (table : list (Z * Z)) (ip : Z) : bool :=
  existsb (fun '(network, prefix) => ip_in_cidr (mk ip) (mk network) prefix) table.

Definition table_ok (w : Z) (table : list (Z * Z)) : bool :=
  forallb (fun '(n, p) => (0 <=? n) && (n <? 2 ^ w) && (0 <=? p) && (p <=? w)) table.

Lemma in_table_blocks w mk table ip :
  ((w = 32 ∧ mk = V4) ∨ (w = 128 ∧ mk = V6)) → table_ok w table = true → 0 <= ip < 2 ^ w →
  in_table mk table ip = existsb (fun '(n, p) => ip / 2 ^ (w - p) =? n / 2 ^ (w - p)) table.
Proof.
  intros Hw Ht Hip. induction table as [|[n p] table IH]; [done|]. cbn [table_ok forallb] in Ht. bool_prop.
  unfold in_table. cbn [existsb]. f_equal; [|by apply IH]. apply eq_true_iff_eq. rewrite Z.eqb_eq.
  destruct Hw as [[-> ->]|[-> ->]]; rewrite ip_in_cidr_spec by (cbn; lia); unfold in_block; intuition lia.
Qed.

(** Decides a block by its octets (or segments), all quantities literal. *)
Ltac block_arith :=
  intros; apply eq_true_iff_eq; rewrite ?orb_true_iff, ?andb_true_iff, ?Z.eqb_eq, ?Z.leb_le, ?Z.ltb_lt;
  Z.div_mod_to_equations; lia.

(** A disjunction of tests, from one of them. *)
Ltac pick H := rewrite H; rewrite ?orb_true_r; reflexivity.
Ltac split_or H := repeat (apply orb_true_iff in H as [H|H]).

Ltac split_nor := repeat match goal with H : _ || _ = false |- _ => apply orb_false_iff in H as [? ?] end.

Section v4_octets.
Context (a b c d : Z) (Ha : 0 <= a < 256) (Hb : 0 <= b < 256) (Hc : 0 <= c < 256) (Hd : 0 <= d < 256).
Let ip : Z := a * 16777216 + b * 65536 + c * 256 + d.

Lemma v4_slash8 n : 0 <= n → (ip / 16777216 =? n) = (a =? n).
Proof. unfold ip. block_arith. Qed.
Lemma v4_slash16 x y : 0 <= y < 256 → (ip / 65536 =? x * 256 + y) = (a =? x) && (b =? y).
Proof. unfold ip. block_arith. Qed.
Lemma v4_slash24 x y z : 0 <= y < 256 → 0 <= z < 256 →
  (ip / 256 =? x * 65536 + y * 256 + z) = (a =? x) && (b =? y) && (c =? z).
Proof. unfold ip. block_arith. Qed.
Lemma v4_slash10 : (ip / 4194304 =? 401) = (a =? 100) && ((64 <=? b) && (b <=? 127)).
Proof. unfold ip. block_arith. Qed.
Lemma v4_slash12 : (ip / 1048576 =? 2753) = (a =? 172) && (16 <=? b) && (b <=? 31).
Proof. unfold ip. block_arith. Qed.
Lemma v4_slash15 : (ip / 131072 =? 25353) = (a =? 198) && ((18 <=? b) && (b <=? 19)).
Proof. unfold ip. block_arith. Qed.
Lemma v4_slash3 : (ip / 536870912 =? 7) = (224 <=? a).
Proof. unfold ip. block_arith. Qed.
End v4_octets.

Lemma blocked_v4_table ip : 0 <= ip < 2 ^ 32 → is_blocked_ipv4 ip = in_table V4 SPECIAL_V4 ip.
Proof.
  intros Hip. rewrite (in_table_blocks 32) by (auto || by vm_compute).
  destruct (octets_of ip Hip) as (E & H0 & H1 & H2 & H3). unfold from_octets in E.
  change (2 ^ 24) with 16777216 in E. change (2 ^ 16) with 65536 in E. change (2 ^ 8) with 256 in E.
  unfold SPECIAL_V4, is_blocked_ipv4, is_private, is_loopback_v4, is_link_local, is_multicast_v4,
    is_unspecified, is_documentation, is_broadcast. cbn [existsb].
  revert E H0 H1 H2 H3. generalize (octet 0 ip), (octet 1 ip), (octet 2 ip), (octet 3 ip).
  intros a b c d E H0 H1 H2 H3. subst ip.
  change (v4 192 0 0 0 / 2 ^ (32 - 24)) with (192 * 65536 + 0 * 256 + 0).
  change (v4 192 0 2 0 / 2 ^ (32 - 24)) with (192 * 65536 + 0 * 256 + 2).
  change (v4 192 88 99 0 / 2 ^ (32 - 24)) with (192 * 65536 + 88 * 256 + 99).
  change (v4 198 51 100 0 / 2 ^ (32 - 24)) with (198 * 65536 + 51 * 256 + 100).
  change (v4 203 0 113 0 / 2 ^ (32 - 24)) with (203 * 65536 + 0 * 256 + 113).
  change (v4 169 254 0 0 / 2 ^ (32 - 16)) with (169 * 256 + 254).
  change (v4 192 168 0 0 / 2 ^ (32 - 16)) with (192 * 256 + 168).
  repeat match goal with
  | |- context [v4 ?x ?y ?z ?w / ?k] => let v := eval vm_compute in (v4 x y z w / k) in change (v4 x y z w / k) with v
  | |- context [2 ^ (32 - ?k)] => let v := eval vm_compute in (2 ^ (32 - k)) in change (2 ^ (32 - k)) with v
  end.
  change (2 ^ 32 - 1) with 4294967295.
  rewrite !v4_slash8, !v4_slash16, !v4_slash24, v4_slash10, v4_slash12, v4_slash15, v4_slash3 by lia.
  apply eq_true_iff_eq. split; intros H; split_or H; try discriminate H; try pick H.
  all: bool_prop.
  all: first [assert ((a =? 0) = true) as Hx by (apply Z.eqb_eq; lia); pick Hx
             |assert ((224 <=? a) = true) as Hx by (apply Z.leb_le; lia); pick Hx].
Qed.

(** ** IPv6 *)

Lemma segments_of ip : 0 <= ip < 2 ^ 128 →
  ip = seg (segments ip) ∧ Forall (fun s => 0 <= s < 65536) (segments ip).
Proof.
  intros H. split.
  - unfold seg, from_segments, segments, segment. cbn [fmap list_fmap foldl].
    repeat match goal with
    | |- context [2 ^ (112 - ?k)] => let v := eval vm_compute in (2 ^ (112 - k)) in change (2 ^ (112 - k)) with v
    end.
    change (2 ^ 16) with 65536. change (2 ^ 128) with 340282366920938463463374607431768211456 in H.
    rewrite Z.div_1_r. Z.div_mod_to_equations. lia.
  - repeat constructor; apply Z.mod_pos_bound; lia.
Qed.

Lemma seg_inj l k : length l = length k →
  Forall (fun s => 0 <= s < 65536) l → Forall (fun s => 0 <= s < 65536) k → seg l = seg k → l = k.
Proof.
  unfold seg, from_segments. revert k. induction l as [|x l IH] using rev_ind; intros k Hl Hfl Hfk.
  { by destruct k. }
  destruct k as [|y k _] using rev_ind; [by rewrite length_app in Hl; cbn in Hl; lia|].
  rewrite !length_app in Hl. cbn in Hl. apply Forall_app in Hfl as [Hfl Hx], Hfk as [Hfk Hy].
  apply Forall_cons in Hx as [Hx _], Hy as [Hy _]. rewrite !foldl_snoc. intros E. cbv beta in E, Hx, Hy.
  rewrite (IH k); [f_equal; f_equal; lia|lia|done..|lia].
Qed.

Ltac all_words := repeat (apply Forall_cons; split; [lia|]); apply Forall_nil; exact I.

(** The high [p] bits of a 16-bit word, as the code masks them. *)
Lemma high_bits p m x n : prefix_mask 16 p = m → 0 <= p <= 16 → 0 <= x < 65536 → 0 <= n < 65536 →
  Z.land n m = n → (Z.land x m =? n) = (x / 2 ^ (16 - p) =? n / 2 ^ (16 - p)).
Proof.
  intros <- Hp Hx Hn E. apply eq_true_iff_eq. rewrite <- E at 1. rewrite masked_eq by done.
  unfold in_block. by rewrite Z.eqb_eq.
Qed.

Section v6_segments.
Context (s0 s1 s2 s3 s4 s5 s6 s7 : Z)
  (H0 : 0 <= s0 < 65536) (H1 : 0 <= s1 < 65536) (H2 : 0 <= s2 < 65536) (H3 : 0 <= s3 < 65536)
  (H4 : 0 <= s4 < 65536) (H5 : 0 <= s5 < 65536) (H6 : 0 <= s6 < 65536) (H7 : 0 <= s7 < 65536).
Let ip : Z := seg [s0; s1; s2; s3; s4; s5; s6; s7].
Let top (k : nat) : Z := seg (take k [s0; s1; s2; s3; s4; s5; s6; s7]).

Lemma seg_div : ip / 2 ^ 112 = top 1 ∧ ip / 2 ^ 96 = top 2 ∧ ip / 2 ^ 80 = top 3 ∧ ip / 2 ^ 64 = top 4
  ∧ ip / 2 ^ 32 = top 6 ∧ ip mod 2 ^ 32 = s6 * 65536 + s7.
Proof.
  unfold ip, top, seg, from_segments. cbn [take foldl]. change (2 ^ 16) with 65536.
  change (2 ^ 112) with 5192296858534827628530496329220096. change (2 ^ 96) with 79228162514264337593543950336.
  change (2 ^ 80) with 1208925819614629174706176. change (2 ^ 64) with 18446744073709551616.
  change (2 ^ 32) with 4294967296. Z.div_mod_to_equations. lia.
Qed.

(** The table's entries as conditions on segments. *)
Lemma v6_slash96 a b c d e f :
  Forall (fun s => 0 <= s < 65536) [a; b; c; d; e; f] →
  (ip / 2 ^ 32 =? seg [a; b; c; d; e; f]) = bool_decide ([s0; s1; s2; s3; s4; s5] = [a; b; c; d; e; f]).
Proof.
  intros HF. destruct seg_div as (_ & _ & _ & _ & -> & _). apply eq_true_iff_eq.
  rewrite Z.eqb_eq, bool_decide_eq_true. unfold top. cbn [take]. split; [|by intros ->].
  apply seg_inj; [done| |done]. all_words.
Qed.
Lemma v6_slash64 : (ip / 2 ^ 64 =? 0x100 * 2 ^ 48) = (s0 =? 0x100) && bool_decide ([s1; s2; s3] = [0; 0; 0]).
Proof.
  destruct seg_div as (_ & _ & _ & -> & _). apply eq_true_iff_eq.
  rewrite andb_true_iff, !Z.eqb_eq, bool_decide_eq_true. unfold top. cbn [take].
  change (0x100 * 2 ^ 48) with (seg [0x100; 0; 0; 0]). split; [|by intros [-> [= -> -> ->]]].
  intros E. apply seg_inj in E; [naive_solver|done|all_words|all_words].
Qed.
Lemma v6_slash48 a b c : 0 <= b < 65536 → 0 <= c < 65536 →
  (ip / 2 ^ 80 =? seg [a; b; c]) = (s0 =? a) && (s1 =? b) && (s2 =? c).
Proof.
  destruct seg_div as (_ & _ & -> & _). unfold top, seg, from_segments. cbn [take foldl].
  change (2 ^ 16) with 65536. block_arith.
Qed.
Lemma v6_slash32 a b : 0 <= b < 65536 → (ip / 2 ^ 96 =? seg [a; b]) = (s0 =? a) && (s1 =? b).
Proof.
  destruct seg_div as (_ & -> & _). unfold top, seg, from_segments. cbn [take foldl].
  change (2 ^ 16) with 65536. block_arith.
Qed.
Lemma v6_slash23 : (ip / 2 ^ 105 =? 0x2001 * 128) = (s0 =? 0x2001) && (s1 <? 0x200).
Proof.
  change (2 ^ 105) with (2 ^ 96 * 2 ^ 9). rewrite <- Z.div_div by lia.
  destruct seg_div as (_ & -> & _). unfold top, seg, from_segments. cbn [take foldl].
  change (2 ^ 16) with 65536. change (2 ^ 9) with 512. block_arith.
Qed.
Lemma v6_first p m n : prefix_mask 16 p = m → 0 <= p <= 16 → 0 <= n < 65536 → Z.land n m = n →
  (ip / 2 ^ (128 - p) =? n / 2 ^ (16 - p)) = (Z.land s0 m =? n).
Proof.
  intros Hm Hp Hn E. rewrite (high_bits p m s0 n) by done. f_equal.
  replace (128 - p) with (112 + (16 - p)) by lia. rewrite Z.pow_add_r, <- Z.div_div by lia.
  destruct seg_div as (-> & _). unfold top, seg, from_segments. cbn [take foldl]. by rewrite Z.mul_0_l, Z.add_0_l.
Qed.

Lemma v6_table_segments :
  in_table V6 SPECIAL_V6 ip =
  existsb id
   [bool_decide ([s0; s1; s2; s3; s4; s5] = [0; 0; 0; 0; 0; 0]);
    bool_decide ([s0; s1; s2; s3; s4; s5] = [0; 0; 0; 0; 0xffff; 0]);
    bool_decide ([s0; s1; s2; s3; s4; s5] = [0x64; 0xff9b; 0; 0; 0; 0]);
    (s0 =? 0x64) && (s1 =? 0xff9b) && (s2 =? 1);
    (s0 =? 0x100) && bool_decide ([s1; s2; s3] = [0; 0; 0]);
    (s0 =? 0x2001) && (s1 <? 0x200);
    (s0 =? 0x2001) && (s1 =? 0xdb8);
    Z.land s0 0xfff0 =? 0x3ff0; Z.land s0 0xfe00 =? 0xfc00; Z.land s0 0xffc0 =? 0xfe80;
    Z.land s0 0xffc0 =? 0xfec0; Z.land s0 0xff00 =? 0xff00].
Proof.
  assert (0 <= ip < 2 ^ 128) as Hr.
  { apply (from_segments_range [s0; s1; s2; s3; s4; s5; s6; s7]). all_words. }
  rewrite (in_table_blocks 128) by (auto || by vm_compute). clear Hr.
  unfold SPECIAL_V6. cbn [existsb id].
  f_equal; [exact (v6_slash96 0 0 0 0 0 0 ltac:(all_words))|].
  f_equal; [exact (v6_slash96 0 0 0 0 0xffff 0 ltac:(all_words))|].
  f_equal; [exact (v6_slash96 0x64 0xff9b 0 0 0 0 ltac:(all_words))|].
  f_equal; [exact (v6_slash48 0x64 0xff9b 1 ltac:(lia) ltac:(lia))|].
  f_equal; [exact v6_slash64|].
  f_equal; [exact v6_slash23|].
  f_equal; [exact (v6_slash32 0x2001 0xdb8 ltac:(lia))|].
  f_equal; [exact (v6_first 12 0xfff0 0x3ff0 eq_refl ltac:(lia) ltac:(lia) eq_refl)|].
  f_equal; [exact (v6_first 7 0xfe00 0xfc00 eq_refl ltac:(lia) ltac:(lia) eq_refl)|].
  f_equal; [exact (v6_first 10 0xffc0 0xfe80 eq_refl ltac:(lia) ltac:(lia) eq_refl)|].
  f_equal; [exact (v6_first 10 0xffc0 0xfec0 eq_refl ltac:(lia) ltac:(lia) eq_refl)|].
  f_equal. exact (v6_first 8 0xff00 0xff00 eq_refl ltac:(lia) ltac:(lia) eq_refl).
Qed.

Lemma segment_nth : segments ip = [s0; s1; s2; s3; s4; s5; s6; s7].
Proof.
  assert (0 <= ip < 2 ^ 128) as Hr.
  { apply (from_segments_range [s0; s1; s2; s3; s4; s5; s6; s7]). all_words. }
  destruct (segments_of ip Hr) as [E HF]. symmetry. apply seg_inj; [done|all_words|done|done].
Qed.
End v6_segments.

Lemma ipv4_from_segments_spec hi lo : 0 <= hi < 65536 → 0 <= lo < 65536 →
  ipv4_from_segments hi lo = hi * 65536 + lo ∧ 0 <= ipv4_from_segments hi lo < 2 ^ 32.
Proof.
  intros Hh Hl. unfold ipv4_from_segments, from_octets, wrap. rewrite !Z.shiftr_div_pow2 by lia.
  change (2 ^ 8) with 256. change (2 ^ 24) with 16777216. change (2 ^ 16) with 65536. change (2 ^ 32) with 4294967296.
  Z.div_mod_to_equations. lia.
Qed.

(** The IPv4 address a transition address carries, when its prefix is not
    blocked as a whole: an IPv4-mapped or a 6to4 address. *)
Definition carried_v4 (ip : Z) : option Z :=
  if ip / 2 ^ 32 =? 0xffff then Some (ip mod 2 ^ 32)
  else if ip / 2 ^ 112 =? 0x2002 then Some (ip / 2 ^ 80 mod 2 ^ 32) else None.

Definition carries_special (ip : Z) : bool :=
  match carried_v4 ip with Some v4 => in_table V4 SPECIAL_V4 v4 | None => false end.


Section v6.
Context (ip : Z) (Hip : 0 <= ip < 2 ^ 128).

Lemma words : Forall (fun s => 0 <= s < 65536) (segments ip).
Proof. by apply segments_of. Qed.

(** The tests of [is_blocked_ipv6] other than the embedded address. *)
Lemma v6_table_tests :
  in_table V6 SPECIAL_V6 ip =
  existsb id
   [first6 ip [0; 0; 0; 0; 0; 0]; first6 ip [0; 0; 0; 0; 0xffff; 0]; first6 ip [0x64; 0xff9b; 0; 0; 0; 0];
    (segment 0 ip =? 0x64) && (segment 1 ip =? 0xff9b) && (segment 2 ip =? 1);
    (segment 0 ip =? 0x100) && bool_decide (take 3 (drop 1 (segments ip)) = [0; 0; 0]);
    (segment 0 ip =? 0x2001) && (segment 1 ip <? 0x200);
    (segment 0 ip =? 0x2001) && (segment 1 ip =? 0xdb8);
    Z.land (segment 0 ip) 0xfff0 =? 0x3ff0; Z.land (segment 0 ip) 0xfe00 =? 0xfc00;
    Z.land (segment 0 ip) 0xffc0 =? 0xfe80; Z.land (segment 0 ip) 0xffc0 =? 0xfec0; is_multicast_v6 ip].
Proof.
  pose proof words as HF. unfold segments in HF. cbn [fmap list_fmap] in HF.
  do 8 (apply Forall_cons in HF as [? HF]). destruct (segments_of ip Hip) as [E _].
  rewrite E at 1. unfold segments at 1. cbn [fmap list_fmap]. by rewrite v6_table_segments.
Qed.

Lemma v6_divs :
  ip / 2 ^ 112 = segment 0 ip ∧ ip / 2 ^ 80 mod 2 ^ 32 = segment 1 ip * 65536 + segment 2 ip.
Proof.
  unfold segment. change (112 - 16 * 0) with 112. change (112 - 16 * 1) with 96. change (112 - 16 * 2) with 80.
  change (2 ^ 112) with 5192296858534827628530496329220096. change (2 ^ 96) with 79228162514264337593543950336.
  change (2 ^ 80) with 1208925819614629174706176. change (2 ^ 32) with 4294967296. change (2 ^ 16) with 65536.
  change (2 ^ 128) with 340282366920938463463374607431768211456 in Hip. split.
  - rewrite Z.mod_small; [done|]. Z.div_mod_to_equations. lia.
  - Z.div_mod_to_equations. lia.
Qed.

(** Once the table is left aside, the embedded address is the carried one. *)
Lemma embedded_carried :
  in_table V6 SPECIAL_V6 ip = false →
  match embedded_ipv4 ip with Some v4 => is_blocked_ipv4 v4 | None => false end = carries_special ip.
Proof.
  rewrite v6_table_tests. cbn [existsb id]. intros Ht. split_nor.
  unfold embedded_ipv4, carries_special, carried_v4, to_ipv4_mapped. destruct v6_divs as [-> ->].
  destruct (ip / 2 ^ 32 =? 0xffff).
  { apply blocked_v4_table, Z.mod_pos_bound. lia. }
  repeat match goal with H : ?b = false |- context [?b] => rewrite H end. cbn [orb].
  destruct (segment 0 ip =? 0x2002); [|done].
  assert (∀ i, i ∈ [0; 1; 2; 3; 4; 5; 6; 7] → 0 <= segment i ip < 65536) as Hw.
  { intros i Hi. apply (proj1 (Forall_forall _ _) words). apply list_elem_of_fmap. eauto. }
  destruct (ipv4_from_segments_spec (segment 1 ip) (segment 2 ip)) as [E Hr];
    [apply Hw; set_solver..|]. rewrite <- E. by apply blocked_v4_table.
Qed.

Lemma low_in_table : (is_loopback_v6 ip || is_unspecified ip) = true → in_table V6 SPECIAL_V6 ip = true.
Proof.
  intros [H|H]%orb_true_iff; apply Z.eqb_eq in H; rewrite H; by vm_compute.
Qed.
End v6.

(** the addresses the SSRF guard refuses are exactly those of two tables
    of CIDR blocks, and the IPv6 addresses that carry a refused IPv4 address in
    an IPv4-mapped or 6to4 form: none of the octet and segment tests of
    [is_blocked_ip] misses part of a block or reaches outside it. *)
Theorem is_blocked_ip_exact ip :
  ip_ok ip →
  is_blocked_ip ip = match ip with
                     | V4 ip => in_table V4 SPECIAL_V4 ip
                     | V6 ip => in_table V6 SPECIAL_V6 ip || carries_special ip
                     end.
Proof.
  destruct ip as [ip|ip]; cbn [ip_ok is_blocked_ip]; intros Hip; [by apply blocked_v4_table|].
  destruct (in_table V6 SPECIAL_V6 ip) eqn:Ht; cbn [orb].
  - pose proof Ht as Hp. rewrite v6_table_tests in Hp by done. cbn [existsb id] in Hp.
    unfold is_blocked_ipv6. split_or Hp; try discriminate Hp; pick Hp.
  - rewrite <- embedded_carried by done. pose proof (low_in_table ip) as Hlow. rewrite Ht in Hlow.
    rewrite v6_table_tests in Ht by done. cbn [existsb id] in Ht.
    destruct (is_loopback_v6 ip || is_unspecified ip) eqn:Hl; [by specialize (Hlow eq_refl)|].
    unfold is_blocked_ipv6. split_nor.
    repeat match goal with H : ?b = false |- context [?b] => rewrite H end. done.
Qed.

(** the range refused for documentation is 3ff0::/12 as a whole, sixteen /16
    blocks of which only part of one, 3fff::/20, is the documentation range the
    comment names: [3ff5::1] is refused though it lies outside 3fff::/20. *)
Theorem documentation_block_too_wide :
  (∀ ip, 0 <= ip < 2 ^ 128 →
     ip_in_cidr (V6 ip) (V6 (seg [0x3ff0; 0; 0; 0; 0; 0; 0; 0])) 12 = true → is_blocked_ip (V6 ip) = true)
  ∧ ip_in_cidr (V6 (seg [0x3ff5; 0; 0; 0; 0; 0; 0; 1])) (V6 (seg [0x3ff0; 0; 0; 0; 0; 0; 0; 0])) 12 = true
  ∧ ip_in_cidr (V6 (seg [0x3ff5; 0; 0; 0; 0; 0; 0; 1])) (V6 (seg [0x3fff; 0; 0; 0; 0; 0; 0; 0])) 20 = false.
Proof.
  split; [|by vm_compute]. intros ip Hip Hin.
  apply ip_in_cidr_spec in Hin as [_ Hin]; [|done|by vm_compute|lia].
  assert ((Z.land (segment 0 ip) 0xfff0 =? 0x3ff0) = true) as Hm.
  { destruct (v6_divs ip Hip) as [Hs _]. rewrite <- Hs. set (x := ip / 2 ^ 112).
    assert (x / 2 ^ 4 = 0x3ff) as Hx.
    { unfold x, in_block in *. rewrite Z.div_div by lia. change (2 ^ 112 * 2 ^ 4) with (2 ^ (128 - 12)).
      rewrite Hin. by vm_compute. }
    assert (∃ k, x = 0x3ff0 + k ∧ 0 <= k < 16) as (k & -> & Hk).
    { exists (x - 0x3ff0). change (2 ^ 4) with 16 in Hx. Z.div_mod_to_equations. lia. }
    assert (k ∈ seqZ 0 16) as Hk' by (apply elem_of_seqZ; lia). clear Hx Hs Hk.
    revert k Hk'. apply Forall_forall. by apply (bool_decide_unpack _); vm_compute. }
  cbn [is_blocked_ip]. unfold is_blocked_ipv6. pick Hm.
Qed.

(** ** Outbound targets *)

Definition public (a : SocketAddr) : Prop := is_blocked_ip (sa_ip a) = false.

(** A host text that reaches the resolver. *)
Definition usable_host (host : rstr) : Prop :=
  let trimmed := trim host in
  trimmed ≠ [] ∧ existsb is_control trimmed = false
  ∧ unbracket trimmed ≠ [] ∧ 37 ∉ unbracket trimmed.

Definition localhost_name (host : rstr) : Prop :=
  let name := to_ascii_lowercase (trim_end_by (Z.eqb 46) host) in
  name = lit "localhost" ∨ lit ".localhost" `suffix_of` name.

Lemma ensure_public_Ok ip : ensure_public_ip ip = Ok () ↔ is_blocked_ip ip = false.
Proof. unfold ensure_public_ip. by destruct (is_blocked_ip ip). Qed.

Lemma keep_public_Ok addrs acc resolved :
  try_fold (fun resolved addr => ensure_public_ip (sa_ip addr) ;; Ok (resolved ++ [addr])) addrs acc
  = Ok resolved ↔ resolved = acc ++ addrs ∧ Forall public addrs.
Proof.
  revert acc. induction addrs as [|a addrs IH]; intros acc; cbn [try_fold].
  { rewrite app_nil_r. split; [by intros [= ->]|by intros [-> _]]. }
  fold (@try_fold OutboundError SocketAddr (list SocketAddr)) in *.
  rewrite Forall_cons. unfold public at 1. rewrite <- ensure_public_Ok. split.
  - intros (acc' & ([] & Ha & [= <-])%bind_Ok & H)%bind_Ok. apply IH in H as [-> ?].
    by rewrite <- app_assoc.
  - intros (-> & Ha & Hf). rewrite Ha. cbn [mbind result_bind]. apply IH. by rewrite <- app_assoc.
Qed.

Section outbound.
Context (lookup_host : rstr → Z → option (list SocketAddr)) (url_parse : rstr → option Url).

(** with private targets not allowed, resolving an outbound host succeeds
    exactly for a well-formed host that is a literal public address, or a name
    other than localhost whose DNS answer is not empty and holds public
    addresses only; and the result is that one answer, so the addresses the
    client is pinned to are the ones that were checked. *)
Theorem resolve_outbound_exact host port addrs :
  resolve_outbound_host_with_policy lookup_host host port false = Ok addrs ↔
  usable_host host ∧
  let h := unbracket (trim host) in
  match parse_ip h with
  | Some ip => is_blocked_ip ip = false ∧ addrs = [{| sa_ip := ip; sa_port := port |}]
  | None => ¬ localhost_name h ∧ lookup_host h port = Some addrs ∧ addrs ≠ [] ∧ Forall public addrs
  end.
Proof.
  unfold resolve_outbound_host_with_policy, usable_host, localhost_name. cbn zeta.
  set (t := trim host). set (h := unbracket t).
  destruct (is_empty t) eqn:Et; cbn [orb].
  { apply is_empty_spec in Et. split; [done|]. by intros [[? _] _]. }
  destruct (existsb is_control t) eqn:Ec; [split; [done|by intros [(_ & ? & _) _]]|].
  destruct (is_empty h) eqn:Eh; cbn [orb].
  { apply is_empty_spec in Eh. split; [done|]. by intros [(_ & _ & ? & _) _]. }
  destruct (contains 37 h) eqn:Ep.
  { apply contains_spec in Ep. split; [done|]. by intros [(_ & _ & _ & ?) _]. }
  apply is_empty_false in Et, Eh. apply contains_false in Ep.
  destruct (parse_ip h) as [ip|].
  { rewrite bind_Ok, <- ensure_public_Ok. split.
    - intros ([] & ? & [= <-]). auto.
    - intros (_ & ? & ->). by exists (). }
  unfold ends_with. set (name := to_ascii_lowercase _).
  destruct (bool_decide (name = lit "localhost") || _) eqn:El.
  { apply orb_true_iff in El. rewrite !bool_decide_eq_true in El. split; [done|]. by intros (_ & ? & _). }
  apply orb_false_iff in El. rewrite !bool_decide_eq_false in El.
  assert (¬ (name = lit "localhost" ∨ lit ".localhost" `suffix_of` name)) as Hname by tauto.
  destruct (lookup_host h port) as [answer|]; [|split; [done|by intros (_ & _ & ? & _)]].
  cbn [ok_or mbind result_bind]. fold (@mbind (result OutboundError) _). split.
  - intros (res & [-> Hf]%keep_public_Ok & H)%bind_Ok. cbn [app] in *.
    destruct (is_empty answer) eqn:Ea; [done|]. apply is_empty_false in Ea. naive_solver.
  - intros (_ & _ & [= ->] & Ha & Hf). apply bind_Ok. exists addrs.
    split; [by apply keep_public_Ok|]. apply is_empty_false in Ha. by rewrite Ha.
Qed.
End outbound.

(** ** Client addresses *)

(** What an entry of [XLSTATUS_TRUSTED_PROXIES] stands for. *)
Definition proxy_entry (entry : rstr) (ip : IpAddr) : Prop :=
  (∃ exact, parse_ip entry = Some exact ∧ to_canonical exact = to_canonical ip)
  ∨ (parse_ip entry = None ∧ ∃ network prefix net n,
       split_once 47 entry = Some (network, prefix) ∧ parse_ip network = Some net
       ∧ parse_unsigned u8_max prefix = Some n
       ∧ (ip_in_cidr ip net n = true ∨ ip_in_cidr (to_canonical ip) net n = true)).

Lemma trusted_proxy_entry_spec entry ip :
  trusted_proxy_entry_matches entry ip = true ↔ proxy_entry entry ip.
Proof.
  unfold trusted_proxy_entry_matches, proxy_entry. destruct (parse_ip entry) as [exact|].
  { rewrite orb_true_iff, !bool_decide_eq_true. naive_solver. }
  destruct (split_once 47 entry) as [[network prefix]|]; [|naive_solver].
  destruct (parse_ip network) as [net|] eqn:En; [|naive_solver].
  destruct (parse_unsigned u8_max prefix) as [n|] eqn:Ep; [|naive_solver].
  rewrite orb_true_iff. naive_solver.
Qed.

(** The peer's word is taken for nothing. *)
Definition peer_untrusted (env : Env) (peer : option SocketAddr) : Prop :=
  trust_proxy_headers env = false ∨
  ∀ a raw entry, peer = Some a → env (lit "XLSTATUS_TRUSTED_PROXIES") = Some raw →
    entry ∈ split_by is_list_separator raw → trim entry ≠ [] → ¬ proxy_entry (trim entry) (sa_ip a).

Lemma untrusted_proxy env a :
  (∀ raw entry, env (lit "XLSTATUS_TRUSTED_PROXIES") = Some raw →
     entry ∈ split_by is_list_separator raw → trim entry ≠ [] → ¬ proxy_entry (trim entry) (sa_ip a)) →
  trusted_proxy_ip env (sa_ip a) = false.
Proof.
  unfold trusted_proxy_ip. intros H. destruct (env (lit "XLSTATUS_TRUSTED_PROXIES")) as [raw|]; [|done].
  apply not_true_iff_false. intros (item & Hi & Hm)%existsb_In.
  apply list_elem_of_filter in Hi as [Hne (e & -> & He)%list_elem_of_fmap].
  apply (H raw e eq_refl He); [by apply is_empty_false|]. by apply trusted_proxy_entry_spec.
Qed.

(** forwarding headers cannot spoof an address: unless proxy headers are
    enabled and the peer is one of the configured proxies, the client address
    and the protocol the server derives do not depend on the headers at all. *)
Theorem forwarded_headers_ignored to_str env peer h1 h2 :
  peer_untrusted env peer →
  client_ip_from_headers_and_peer to_str env h1 peer = client_ip_from_headers_and_peer to_str env h2 peer
  ∧ forwarded_proto_from_headers_and_peer to_str env h1 peer = None.
Proof.
  unfold client_ip_from_headers_and_peer, forwarded_proto_from_headers_and_peer, forwarded_client_ip_with_peer.
  intros Hu. destruct (trust_proxy_headers env) eqn:Ht; cbn [negb]; [|done].
  destruct Hu as [Hu|Hu]; [congruence|]. destruct peer as [a|]; cbn; [|done].
  rewrite (untrusted_proxy env a) by (intros raw entry; by apply Hu). done.
Qed.

(** ** WebSocket origins *)

(** a browser page can open a WebSocket only from an origin that is a bare
    http or https URL (no credentials, path, query or fragment), and that is one
    of the allowed origins other than the wildcard or has the host of the
    request: with an [Origin] header present, nothing else is accepted. *)
Theorem websocket_origin_sound to_str url_parse headers allowed first rest :
  headers (lit "origin") = first :: rest →
  validate_websocket_origin to_str url_parse headers allowed = true →
  rest = [] ∧ ∃ origin u, clean_header to_str first = Some origin
    ∧ url_parse origin = Some u ∧ bare_url u = true
    ∧ (scheme u = lit "http" ∨ scheme u = lit "https")
    ∧ ((∃ a, a ∈ allowed ∧ trim a ≠ lit "*" ∧ normalized_origin url_parse a = normalized_origin url_parse origin)
       ∨ ∃ raw host, headers (lit "host") = [raw] ∧ clean_header to_str raw = Some host
                     ∧ origin_host_matches_request_host url_parse origin host = true).
Proof.
  unfold validate_websocket_origin. intros -> Hm. destruct rest; [|done]. split; [done|].
  destruct (HTTP_FORWARDED_HEADER_MAX_BYTES <? zlen first); [done|].
  destruct (clean_header to_str first) as [origin|]; [|done]. exists origin.
  destruct (eq_ignore_ascii_case origin (lit "null")); [done|].
  destruct (existsb (origin_matches_allowed_origin url_parse origin) allowed) eqn:Ea.
  - clear Hm. apply existsb_In in Ea as (a & Ha & Hm). unfold origin_matches_allowed_origin in Hm.
    case_bool_decide; [done|]. destruct (normalized_origin url_parse origin) as [o|] eqn:Eo; [|done].
    destruct (normalized_origin url_parse a) as [o'|] eqn:Eo'; [|done]. bool_prop. subst o'.
    pose proof Eo as Eo2. unfold normalized_origin in Eo2. destruct (existsb is_control origin); [done|].
    apply bind_Some in Eo2 as (u & Hu & Eo2). exists u.
    destruct (contains (scheme u) _) eqn:Es; [|done]. destruct (bare_url u) eqn:Eb; [|done].
    apply contains_spec in Es. split_and!; try done; [set_solver|]. left. exists a. by rewrite Eo'.
  - destruct (headers (lit "host")) as [|raw [|]] eqn:Eh; try done.
    destruct (zlen raw <=? HTTP_FORWARDED_HEADER_MAX_BYTES); [|done].
    destruct (clean_header to_str raw) as [host|] eqn:Er; [|done]. pose proof Hm as Hm2.
    unfold origin_host_matches_request_host in Hm2. destruct (parse_origin_host url_parse origin) as [oh|] eqn:Eo; [|done].
    unfold parse_origin_host in Eo. destruct (existsb is_control origin); [done|].
    apply bind_Some in Eo as (u & Hu & Eo). exists u. destruct (bare_url u) eqn:Eb; [|done].
    apply bind_Some in Eo as (dp & Hdp & _). unfold default_port_of in Hdp.
    split_and!; try done; [|right; eauto]. repeat case_bool_decide; auto; done.
Qed.

(** ** Witnesses *)

Definition env0 : Env := fun name =>
  if bool_decide (name = lit "XLSTATUS_TRUST_PROXY_HEADERS") then Some (lit "1")
  else if bool_decide (name = lit "XLSTATUS_TRUSTED_PROXIES") then Some (lit "10.0.0.0/8,::1")
  else None.
Definition peer0 : option SocketAddr := Some {| sa_ip := V4 (v4 192 0 2 1); sa_port := 40000 |}.

(** A URL parser for one origin. *)
Definition url_parse0 (s : rstr) : option Url :=
  if bool_decide (s = lit "https://panel.example") then
    Some {| scheme := lit "https"; username := []; password := None; host_str := Some (lit "panel.example");
            port := None; port_or_known_default := Some 443; path := lit "/"; query := None; fragment := None |}
  else None.
Definition headers0 (name : rstr) : list (list Z) :=
  if bool_decide (name = lit "origin") then [lit "https://panel.example"] else [].

End SecurityProofs.
