(* ===== verification/NatPolicy.v ===== *)
(** * NatPolicy: what a NAT mapping may ask for

    Models [crates/server/src/nat/policy.rs] and the mapping type of
    [crates/shared/src/nat.rs]: validation and normalisation of a stored mapping
    before it is served, and the source lists that say who may connect. *)

From S2P Require Import Prelude Text Externals Net Security.

Module NatPolicy.
Import Net Security.

Inductive Protocol : Type := Tcp | Udp.
Definition Protocol_as_str (p : Protocol) : rstr := match p with Tcp => lit "tcp" | Udp => lit "udp" end.
(** [s.to_lowercase()]: no other character lower-cases to a letter of the two
    names, so ASCII lower-casing decides the same. *)
Definition Protocol_parse (s : rstr) : option Protocol :=
  let s := to_ascii_lowercase s in
  if bool_decide (s = lit "tcp") then Some Tcp
  else if bool_decide (s = lit "udp") then Some Udp else None.

Record NatMapping := {
  id : rstr; agent_id : rstr; local_host : rstr; local_port : Z; public_port : Z;
  protocol : Protocol; enabled : bool; description : option rstr;
  allowed_sources : option rstr; max_active_tunnels : option Z;
  idle_timeout_seconds : option Z; max_bytes_per_tunnel : option Z;
  max_bandwidth_bytes_per_second : option Z; rate_limit_window_seconds : option Z;
  max_connections_per_window : option Z; max_bytes_per_window : option Z;
  created_at : rstr; updated_at : rstr;
}.

Definition DEFAULT_NAT_MIN_PUBLIC_PORT : Z := 1024.
Definition NAT_UUID_TEXT_LEN : Z := 36.
Definition NAT_MAX_LOCAL_HOST_BYTES : Z := 253.
Definition NAT_MAX_DESCRIPTION_BYTES : Z := 1024.
Definition NAT_MAX_ALLOWED_SOURCES_BYTES : Z := 4096.
Definition NAT_MAX_ALLOWED_SOURCE_ENTRIES : Z := 64.
Definition NAT_MAX_ALLOWED_SOURCE_ENTRY_BYTES : Z := 128.
Definition NAT_MAX_ACTIVE_TUNNELS_PER_MAPPING : Z := 1024.
Definition NAT_MAX_IDLE_TIMEOUT_SECONDS : Z := 24 * 60 * 60.
Definition NAT_MAX_BYTES_PER_TUNNEL : Z := 1024 * 1024 * 1024 * 1024.
Definition NAT_MAX_BANDWIDTH_BYTES_PER_SECOND : Z := 1024 * 1024 * 1024.
Definition NAT_MAX_RATE_LIMIT_WINDOW_SECONDS : Z := 24 * 60 * 60.
Definition NAT_MAX_CONNECTIONS_PER_WINDOW : Z := 100000.
Definition NAT_MAX_BYTES_PER_WINDOW : Z := 1024 * 1024 * 1024 * 1024.

Inductive Field : Type :=
| F_id | F_agent_id | F_local_host | F_description | F_max_active_tunnels | F_idle_timeout_seconds
| F_max_bytes_per_tunnel | F_max_bandwidth_bytes_per_second | F_rate_limit_window_seconds
| F_max_connections_per_window | F_max_bytes_per_window.

Inductive NatError : Type :=
| NotCanonicalUuid (f : Field) | Required (f : Field) | TooLong (f : Field)
| LocalHostNotLoopback | LocalPortZero | PublicPortTooLow (port : Z)
| SourcesTooLong | TooManySources | SourceEntryTooLong | InvalidSource (entry : rstr)
| MustBePositive (f : Field) | TooLarge (f : Field).

Section policy.
Context `{UuidLib} (env : Env).

(** ** Ports and targets *)

Definition nat_public_port_min : Z :=
  default DEFAULT_NAT_MIN_PUBLIC_PORT
    (value ← env (lit "XLSTATUS_NAT_PUBLIC_PORT_MIN"); parse_unsigned u16_max (trim value)).
Definition nat_public_port_allowed (port : Z) : bool := nat_public_port_min <=? port.

Definition nat_private_targets_allowed : bool :=
  existsb (env_truthy env) (lit <$> ["XLSTATUS_ALLOW_PRIVATE_NAT_TARGETS"; "XLSTATUS_ALLOW_PRIVATE_OUTBOUND"]).

Definition nat_local_target_is_loopback (host : rstr) : bool :=
  let host := trim host in
  if is_empty host then false
  else if eq_ignore_ascii_case host (lit "localhost") then true
  else match parse_ip host with Some ip => is_loopback ip | None => false end.

Definition nat_local_target_allowed (host : rstr) : bool :=
  nat_private_targets_allowed || nat_local_target_is_loopback host.

(** ** Source lists *)

Definition nat_source_entry_valid (entry : rstr) : bool :=
  match parse_ip entry with
  | Some _ => true
  | None =>
      match split_once 47 entry with
      | None => false
      | Some (network, prefix) =>
          match parse_ip network with
          | None => false
          | Some network =>
              match parse_unsigned u8_max prefix with
              | None => false
              | Some prefix => match network with V4 _ => prefix <=? 32 | V6 _ => prefix <=? 128 end
              end
          end
      end
  end.

Definition nat_source_entries (value : rstr) : list rstr :=
  filter (fun item => is_empty item = false) (trim <$> split_by is_list_separator value).

Definition check_source_entry (entry : rstr) : result NatError unit :=
  if NAT_MAX_ALLOWED_SOURCE_ENTRY_BYTES <? byte_len entry then Err SourceEntryTooLong
  else if negb (nat_source_entry_valid entry) then Err (InvalidSource entry)
  else Ok ().

Definition normalize_nat_allowed_sources (value : option rstr) : result NatError (option rstr) :=
  match trim <$> value with
  | None => Ok None
  | Some value =>
      if is_empty value then Ok None else
      if NAT_MAX_ALLOWED_SOURCES_BYTES <? byte_len value then Err SourcesTooLong else
      let entries := nat_source_entries value in
      if is_empty entries then Ok None else
      if NAT_MAX_ALLOWED_SOURCE_ENTRIES <? zlen entries then Err TooManySources else
      try_for_each check_source_entry entries ;;
      Ok (Some (join [44] entries))
  end.

Definition nat_ip_in_cidr (ip network : IpAddr) (prefix : Z) : bool :=
  match ip, network with
  | V4 ip, V4 network =>
      if prefix <=? 32
      then let mask := prefix_mask 32 prefix in Z.land ip mask =? Z.land network mask
      else false
  | V6 ip, V6 network =>
      if prefix <=? 128
      then let mask := prefix_mask 128 prefix in Z.land ip mask =? Z.land network mask
      else false
  | _, _ => false
  end.

Definition nat_source_entry_matches (entry : rstr) (ip : IpAddr) : bool :=
  match parse_ip entry with
  | Some exact => bool_decide (exact = ip)
  | None =>
      match split_once 47 entry with
      | None => false
      | Some (network, prefix) =>
          match parse_ip network with
          | None => false
          | Some network =>
              match parse_unsigned u8_max prefix with
              | None => false
              | Some prefix => nat_ip_in_cidr ip network prefix
              end
          end
      end
  end.

Definition nat_source_list_allows (raw : rstr) (peer_ip : IpAddr) : bool :=
  match normalize_nat_allowed_sources (Some raw) with
  | Ok (Some normalized) =>
      existsb (fun item => nat_source_entry_matches item peer_ip) (split_by (Z.eqb 44) normalized)
  | _ => false
  end.

(** ** Mappings *)

Definition validate_canonical_uuid (value : rstr) (f : Field) : result NatError rstr :=
  if negb (byte_len value =? NAT_UUID_TEXT_LEN) then Err (NotCanonicalUuid f) else
  parsed ← ok_or (uuid_parse value) (NotCanonicalUuid f);
  let canonical := uuid_to_string parsed in
  if negb (bool_decide (canonical = value)) then Err (NotCanonicalUuid f) else Ok canonical.

Definition validate_required_text (value : rstr) (max_bytes : Z) (f : Field) : result NatError rstr :=
  let value := trim value in
  if is_empty value then Err (Required f)
  else if max_bytes <? byte_len value then Err (TooLong f) else Ok value.

Definition validate_optional_text (value : option rstr) (max_bytes : Z) (f : Field)
    : result NatError (option rstr) :=
  match trim <$> value with
  | None => Ok None
  | Some value =>
      if is_empty value then Ok None
      else if max_bytes <? byte_len value then Err (TooLong f) else Ok (Some value)
  end.

(** [validate_optional_u32] and [validate_optional_u64]: the same code at two
    widths. *)
Definition validate_optional_uint (value : option Z) (max_value : Z) (f : Field) : result NatError unit :=
  match value with
  | None => Ok ()
  | Some value =>
      if value =? 0 then Err (MustBePositive f)
      else if max_value <? value then Err (TooLarge f) else Ok ()
  end.

Definition validate_nat_mapping_runtime_policy (mapping : NatMapping) : result NatError NatMapping :=
  m_id ← validate_canonical_uuid (id mapping) F_id;
  m_agent_id ← validate_canonical_uuid (agent_id mapping) F_agent_id;
  m_local_host ← validate_required_text (local_host mapping) NAT_MAX_LOCAL_HOST_BYTES F_local_host;
  if negb (nat_local_target_allowed m_local_host) then Err LocalHostNotLoopback else
  if local_port mapping =? 0 then Err LocalPortZero else
  if negb (nat_public_port_allowed (public_port mapping)) then Err (PublicPortTooLow (public_port mapping)) else
  m_description ← validate_optional_text (description mapping) NAT_MAX_DESCRIPTION_BYTES F_description;
  m_allowed_sources ← normalize_nat_allowed_sources (allowed_sources mapping);
  validate_optional_uint (max_active_tunnels mapping) NAT_MAX_ACTIVE_TUNNELS_PER_MAPPING F_max_active_tunnels ;;
  validate_optional_uint (idle_timeout_seconds mapping) NAT_MAX_IDLE_TIMEOUT_SECONDS F_idle_timeout_seconds ;;
  validate_optional_uint (max_bytes_per_tunnel mapping) NAT_MAX_BYTES_PER_TUNNEL F_max_bytes_per_tunnel ;;
  validate_optional_uint (max_bandwidth_bytes_per_second mapping) NAT_MAX_BANDWIDTH_BYTES_PER_SECOND
    F_max_bandwidth_bytes_per_second ;;
  validate_optional_uint (rate_limit_window_seconds mapping) NAT_MAX_RATE_LIMIT_WINDOW_SECONDS
    F_rate_limit_window_seconds ;;
  validate_optional_uint (max_connections_per_window mapping) NAT_MAX_CONNECTIONS_PER_WINDOW
    F_max_connections_per_window ;;
  validate_optional_uint (max_bytes_per_window mapping) NAT_MAX_BYTES_PER_WINDOW F_max_bytes_per_window ;;
  Ok {| id := m_id; agent_id := m_agent_id; local_host := m_local_host;
        local_port := local_port mapping; public_port := public_port mapping;
        protocol := protocol mapping; enabled := enabled mapping; description := m_description;
        allowed_sources := m_allowed_sources; max_active_tunnels := max_active_tunnels mapping;
        idle_timeout_seconds := idle_timeout_seconds mapping;
        max_bytes_per_tunnel := max_bytes_per_tunnel mapping;
        max_bandwidth_bytes_per_second := max_bandwidth_bytes_per_second mapping;
        rate_limit_window_seconds := rate_limit_window_seconds mapping;
        max_connections_per_window := max_connections_per_window mapping;
        max_bytes_per_window := max_bytes_per_window mapping;
        created_at := created_at mapping; updated_at := updated_at mapping |}.
End policy.

(** ** Source lists, as text *)

(** An entry as the normaliser leaves it. *)
Definition clean_entry (e : rstr) : Prop :=
  e ≠ [] ∧ trim e = e ∧ Forall (fun c => is_list_separator c = false) e.

Lemma clean_entries v : Forall clean_entry (nat_source_entries v).
Proof.
  apply Forall_forall. intros e [Hne (p & -> & Hp)%list_elem_of_fmap]%list_elem_of_filter.
  split_and!; [by apply is_empty_false|apply trim_by_idemp|].
  pose proof (proj1 (Forall_forall _ _) (split_by_pieces is_list_separator v) p Hp) as Hs.
  apply Forall_forall. intros c Hc%trim_by_elem. by apply (proj1 (Forall_forall _ _) Hs).
Qed.

Lemma entries_of_join l : l ≠ [] → Forall clean_entry l → nat_source_entries (join [44] l) = l.
Proof.
  intros Hne Hl. unfold nat_source_entries. rewrite split_by_join_pred; [|done|done|].
  - assert (trim <$> l = l) as ->.
    { clear Hne. induction Hl as [|e l (_ & Ht & _) Hl IH]; [done|]. by rewrite fmap_cons, Ht, IH. }
    clear Hne. induction Hl as [|e l (He & _) Hl IH]; [done|].
    rewrite filter_cons_True by by apply is_empty_false. by rewrite IH.
  - eapply Forall_impl; [exact Hl|]. by intros e (_ & _ & ?).
Qed.

Lemma join_last l p e : last l = Some e → e ≠ [] → last (join [44] (p :: l)) = last e.
Proof.
  revert p. induction l as [|q l IH]; intros p He Hne; [done|].
  rewrite join_cons by done. cbn [app]. destruct l as [|r l].
  - cbn in He. simplify_eq. cbn [join]. rewrite last_app, last_cons. by destruct (last e) eqn:El; [|apply last_None in El].
  - rewrite last_app_cons, last_cons, IH; [|by rewrite last_cons_cons in He|done].
    by destruct (last e) eqn:El; [|apply last_None in El].
Qed.

Lemma trim_join l : l ≠ [] → Forall clean_entry l → trim (join [44] l) = join [44] l.
Proof.
  intros Hne Hl. destruct l as [|p l]; [done|]. apply Forall_cons in Hl as [(Hp & Ht & _) Hl].
  destruct l as [|q l]; [done|].
  destruct (last (q :: l)) as [e|] eqn:El; [|by apply last_None in El].
  assert (clean_entry e) as (He & Hte & _).
  { apply (proj1 (Forall_forall _ _) Hl). by apply last_Some_elem_of. }
  pose proof (join_last (q :: l) p e El He) as Hlast. rewrite join_cons in * by done.
  destruct p as [|c p]; [done|]. cbn [app] in *.
  destruct (last e) as [d|] eqn:Ed; [|by apply last_None in Ed].
  destruct (last (c :: p)) as [d'|] eqn:Ed'; [|by apply last_None in Ed'].
  destruct e as [|c' e']; [done|].
  apply (trim_by_edges _ _ _ d); [|by rewrite Hlast|].
  - by eapply (trim_by_fixed _ _ Ht c d').
  - by eapply (trim_by_fixed _ _ Hte c' d).
Qed.

Lemma separators_ascii c : is_list_separator c = true → len_utf8 c = 1.
Proof. intros Hc%contains_spec. revert c Hc. apply Forall_forall. repeat constructor. Qed.

Lemma entries_len v : nat_source_entries v ≠ [] → byte_len (join [44] (nat_source_entries v)) <= byte_len v.
Proof.
  intros Hne. pose proof (pieces_len_join 44 _ eq_refl Hne) as H1.
  pose proof (pieces_len_split is_list_separator v separators_ascii) as H2.
  enough (pieces_len (nat_source_entries v) <= pieces_len (split_by is_list_separator v)) by lia.
  unfold nat_source_entries. generalize (split_by is_list_separator v). clear.
  induction l as [|p l IH]; [done|]. rewrite fmap_cons, filter_cons.
  pose proof (byte_len_trim_by is_whitespace p). pose proof (byte_len_nonneg (trim p)).
  fold (trim p) in *. unfold pieces_len in *. case_decide; cbn [foldr]; lia.
Qed.

Lemma normalize_sources_fixed value t :
  normalize_nat_allowed_sources value = Ok (Some t) →
  normalize_nat_allowed_sources (Some t) = Ok (Some t).
Proof.
  unfold normalize_nat_allowed_sources. destruct value as [v|]; [|done]. cbn [fmap option_fmap option_map].
  destruct (is_empty (trim v)); [done|].
  destruct (NAT_MAX_ALLOWED_SOURCES_BYTES <? byte_len (trim v)) eqn:Hlen; [done|].
  destruct (is_empty (nat_source_entries (trim v))) eqn:He; [done|].
  destruct (NAT_MAX_ALLOWED_SOURCE_ENTRIES <? _) eqn:Hn; [done|].
  intros ([] & Hall & [= <-])%bind_Ok. apply is_empty_false in He.
  pose proof (clean_entries (trim v)) as Hc. pose proof (entries_len (trim v) He) as Hl.
  rewrite trim_join, entries_of_join, Hn, Hall by done. bool_prop.
  assert (join [44] (nat_source_entries (trim v)) ≠ []) as Hj.
  { intros Hj. apply (f_equal nat_source_entries) in Hj. by rewrite entries_of_join in Hj. }
  apply is_empty_false in Hj, He. rewrite Hj, He. by rewrite (proj2 (Z.ltb_ge _ _)) by lia.
Qed.

(** Normalising a source list is idempotent: what is stored is accepted again,
    unchanged, each time the mapping is loaded. *)
Lemma normalize_sources_idempotent value t :
  normalize_nat_allowed_sources value = Ok (Some t) →
  normalize_nat_allowed_sources (Some t) = Ok (Some t).
Proof. apply normalize_sources_fixed. Qed.

(** ** Who a source list admits *)

(** A list that is accepted as a whole. *)
Definition list_valid (raw : rstr) : Prop :=
  byte_len (trim raw) <= NAT_MAX_ALLOWED_SOURCES_BYTES
  ∧ zlen (nat_source_entries (trim raw)) <= NAT_MAX_ALLOWED_SOURCE_ENTRIES
  ∧ Forall (fun e => byte_len e <= NAT_MAX_ALLOWED_SOURCE_ENTRY_BYTES ∧ nat_source_entry_valid e = true)
      (nat_source_entries (trim raw)).

(** What one entry stands for: an address, or a block given by its prefix. *)
Definition entry_admits (e : rstr) (ip : IpAddr) : Prop :=
  parse_ip e = Some ip
  ∨ (parse_ip e = None ∧ ∃ network prefix n,
       split_once 47 e = Some (network, prefix) ∧ parse_unsigned u8_max prefix = Some n
       ∧ match ip with
         | V4 a => ∃ net, parse_ip network = Some (V4 net) ∧ n <= 32 ∧ in_block 32 a net n
         | V6 a => ∃ net, parse_ip network = Some (V6 net) ∧ n <= 128 ∧ in_block 128 a net n
         end).

Lemma nat_cidr_same ip network p : nat_ip_in_cidr ip network p = ip_in_cidr ip network p.
Proof. done. Qed.

Lemma entry_matches_spec e ip : ip_ok ip → nat_source_entry_matches e ip = true ↔ entry_admits e ip.
Proof.
  intros Hip. unfold nat_source_entry_matches, entry_admits. destruct (parse_ip e) as [x|].
  { rewrite bool_decide_eq_true. naive_solver. }
  destruct (split_once 47 e) as [[network prefix]|]; [|naive_solver].
  destruct (parse_unsigned u8_max prefix) as [n|] eqn:Ep.
  2: { destruct (parse_ip network); naive_solver. }
  apply parse_unsigned_bound in Ep as Hn; [|done].
  destruct (parse_ip network) as [net|] eqn:En.
  - rewrite nat_cidr_same, ip_in_cidr_spec by (done || (eapply parse_ip_ok; eassumption) || lia).
    destruct ip, net; naive_solver.
  - destruct ip; naive_solver.
Qed.

Lemma check_entries_spec l :
  try_for_each check_source_entry l = Ok () ↔
  Forall (fun e => byte_len e <= NAT_MAX_ALLOWED_SOURCE_ENTRY_BYTES ∧ nat_source_entry_valid e = true) l.
Proof.
  rewrite try_for_each_Ok. apply Forall_proper; [|done]. intros e. unfold check_source_entry.
  destruct (Z.ltb_spec NAT_MAX_ALLOWED_SOURCE_ENTRY_BYTES (byte_len e)); [split; [done|lia]|].
  destruct (nat_source_entry_valid e); cbn; naive_solver.
Qed.

(** a source list admits an address exactly when the whole list is valid
    and one of its entries is that address or a block of its family that contains
    it. One bad entry closes the list: it admits nobody. *)
Theorem nat_source_list_exact raw ip :
  ip_ok ip →
  nat_source_list_allows raw ip = true ↔
  list_valid raw ∧ ∃ e, e ∈ nat_source_entries (trim raw) ∧ entry_admits e ip.
Proof.
  intros Hip. unfold nat_source_list_allows, normalize_nat_allowed_sources, list_valid.
  cbn [fmap option_fmap option_map]. set (v := trim raw).
  assert (v = [] → nat_source_entries v = []) as Hnil by by intros ->.
  destruct (is_empty v) eqn:Hv.
  { apply is_empty_spec in Hv. split; [done|]. intros [_ (e & He & _)]. rewrite Hnil in He by done. set_solver. }
  destruct (Z.ltb_spec NAT_MAX_ALLOWED_SOURCES_BYTES (byte_len v)); [split; [done|lia]|].
  destruct (is_empty (nat_source_entries v)) eqn:He.
  { apply is_empty_spec in He. rewrite He. split; [done|]. set_solver. }
  apply is_empty_false in He.
  destruct (Z.ltb_spec NAT_MAX_ALLOWED_SOURCE_ENTRIES (zlen (nat_source_entries v))); [split; [done|lia]|].
  rewrite <- check_entries_spec.
  destruct (try_for_each check_source_entry (nat_source_entries v)) as [[]|err]; cbn [mbind result_bind];
    [|naive_solver].
  rewrite split_by_join_pred; [|done|done|].
  - rewrite existsb_In. setoid_rewrite entry_matches_spec; [|done]. naive_solver.
  - eapply Forall_impl; [apply clean_entries|]. intros e (_ & _ & Hs). eapply Forall_impl; [exact Hs|].
    intros c Hc. apply contains_false in Hc. apply Z.eqb_neq. set_solver.
Qed.

(** ** Validated mappings *)

Section mapping.
Context `{UuidLib} (env : Env).

Lemma canonical_uuid_fixed v f r : validate_canonical_uuid v f = Ok r → r = v.
Proof.
  unfold validate_canonical_uuid. case_match; [done|]. intros (u & _ & H')%bind_Ok. revert H'.
  case_match; [done|]. intros [= <-]. by bool_prop.
Qed.

Lemma required_text_fixed v m f r : validate_required_text v m f = Ok r → validate_required_text r m f = Ok r.
Proof.
  unfold validate_required_text, trim. destruct (is_empty (trim_by is_whitespace v)) eqn:He; [done|].
  destruct (m <? _) eqn:Hm; [done|]. intros [= <-]. by rewrite trim_by_idemp, He, Hm.
Qed.

Lemma optional_text_fixed v m f r : validate_optional_text v m f = Ok r → validate_optional_text r m f = Ok r.
Proof.
  unfold validate_optional_text, trim. destruct v as [v|]; cbn [fmap option_fmap option_map]; [|by intros [= <-]].
  destruct (is_empty (trim_by is_whitespace v)) eqn:He; [by intros [= <-]|].
  destruct (m <? _) eqn:Hm; [done|]. intros [= <-]. cbn. by rewrite trim_by_idemp, He, Hm.
Qed.

Lemma sources_fixed v r : normalize_nat_allowed_sources v = Ok r → normalize_nat_allowed_sources r = Ok r.
Proof. destruct r as [t|]; [apply normalize_sources_fixed|done]. Qed.

Lemma validate_mapping_fixed m m' :
  validate_nat_mapping_runtime_policy env m = Ok m' → validate_nat_mapping_runtime_policy env m' = Ok m'.
Proof.
  unfold validate_nat_mapping_runtime_policy. intros Hv.
  apply bind_Ok in Hv as (i & Hi & Hv). apply bind_Ok in Hv as (a & Ha & Hv).
  apply bind_Ok in Hv as (h & Hh & Hv).
  destruct (negb (nat_local_target_allowed env h)) eqn:Ht; [done|].
  destruct (local_port m =? 0) eqn:Hp; [done|].
  destruct (negb (nat_public_port_allowed env (public_port m))) eqn:Hpub; [done|].
  apply bind_Ok in Hv as (d & Hd & Hv). apply bind_Ok in Hv as (src & Hsrc & Hv).
  do 7 (apply bind_Ok in Hv as ([] & ? & Hv)). injection Hv as <-.
  cbn [id agent_id local_host local_port public_port description allowed_sources max_active_tunnels
       idle_timeout_seconds max_bytes_per_tunnel max_bandwidth_bytes_per_second rate_limit_window_seconds
       max_connections_per_window max_bytes_per_window].
  pose proof (canonical_uuid_fixed _ _ _ Hi). pose proof (canonical_uuid_fixed _ _ _ Ha). subst i a.
  apply required_text_fixed in Hh. apply optional_text_fixed in Hd. apply sources_fixed in Hsrc.
  rewrite Hi. cbn [mbind result_bind]. rewrite Ha. cbn [mbind result_bind]. rewrite Hh. cbn [mbind result_bind].
  rewrite Ht, Hp, Hpub, Hd. cbn [mbind result_bind]. rewrite Hsrc. cbn [mbind result_bind].
  repeat match goal with H : validate_optional_uint _ _ _ = Ok () |- _ => rewrite H; clear H; cbn [mbind result_bind] end.
  done.
Qed.

(** A mapping that passed the runtime policy passes it again and comes out
    unchanged, so the second validation, when the listener is started, never
    refuses nor alters what the reload accepted. *)
Theorem validate_mapping_idempotent m m' :
  validate_nat_mapping_runtime_policy env m = Ok m' → validate_nat_mapping_runtime_policy env m' = Ok m'.
Proof. apply validate_mapping_fixed. Qed.
End mapping.

(** ** Witnesses *)

Definition no_env : Env := fun _ => None.
Definition mapping0 : NatMapping := {|
  id := uuid_to_string 77; agent_id := uuid_to_string 78; local_host := lit " localhost "; local_port := 22;
  public_port := 20022; protocol := Tcp; enabled := true; description := Some (lit "  ");
  allowed_sources := Some (lit " 192.0.2.0/24  2001:db8::/32,203.0.113.9 ");
  max_active_tunnels := Some 4; idle_timeout_seconds := None; max_bytes_per_tunnel := Some 1000000;
  max_bandwidth_bytes_per_second := None; rate_limit_window_seconds := Some 60;
  max_connections_per_window := Some 10; max_bytes_per_window := None; created_at := []; updated_at := [] |}.
Definition normal0 : rstr := lit "192.0.2.0/24,2001:db8::/32,203.0.113.9".

Definition validated0 : NatMapping :=
  match validate_nat_mapping_runtime_policy no_env mapping0 with Ok m => m | Err _ => mapping0 end.

End NatPolicy.
