(* ===== verification/Registry.v ===== *)
(** * Registry: live Agent streams and the sends that target them

    Models [crates/server/src/grpc/session.rs]: [RegisteredSender],
    [send_to_current], and [SessionRegistry]. A registry is shared by every
    request handler, so it is modelled as a transition system: the state holds
    the registry, the channels and the sends in flight, and each step is one
    critical section of the code (what runs between two points where a lock is
    taken or released, or a future is awaited). [disconnect] takes two locks in turn and
    signals after them: it is three steps. *)

From S2P Require Import Prelude Text.

Module Registry.

(** ** Channels *)

(** A bounded [mpsc] channel: messages waiting, permits handed out, and whether
    the receiver is gone. *)
Record Chan (A : Type) := { capacity : Z; queue : list A; reserved : Z; closed : bool }.
Arguments capacity {A}. Arguments queue {A}. Arguments reserved {A}. Arguments closed {A}.

(** [RegisteredSender]: the channel and its watch, by identity. *)
Record RegisteredSender := { sender : Z; changes : Z }.

(** A [watch::channel(0)]: its generation, wrapped to 64 bits, and whether its
    sender is alive. *)
Record Watch := { generation : Z; alive : bool }.

Inductive SendError : Type := Revoked | Missing | Closed | TimedOut.

(** Where a [send_to_current] is: before the lookup, waiting on a reservation or
    a change, holding a permit it has not used, or finished. *)
Inductive SendState : Type :=
| Lookup
| Waiting (chan watch seen : Z)
| Holding (chan : Z)
| Done (r : result SendError unit).

#[global] Instance send_error_eq_dec : EqDecision SendError.
Proof. solve_decision. Defined.
#[global] Instance send_state_eq_dec : EqDecision SendState.
Proof. solve_decision. Defined.

Record Send (A : Type) := { target : Z; value : A; state : SendState }.
Arguments target {A}. Arguments value {A}. Arguments state {A}.

Record Registry (A : Type) := {
  senders : gmap Z RegisteredSender;  (** by Agent *)
  revoked : gset Z;
  watches : gmap Z Watch;
  chans : gmap Z (Chan A);
  sends : gmap Z (Send A);            (** calls of [send_to_current], by call *)
  log : list (Z * Z * Z);             (** call, Agent and channel of every message sent *)
  departing : gset Z;                 (** watches of senders that a [disconnect] has removed and
                                          not yet signalled *)
}.
Arguments senders {A}. Arguments revoked {A}. Arguments watches {A}. Arguments chans {A}.
Arguments sends {A}. Arguments log {A}. Arguments departing {A}.

Section registry.
Context {A : Type}.
Implicit Types (w : Registry A) (a c i : Z).

Definition new_registry : Registry A :=
  {| senders := ∅; revoked := ∅; watches := ∅; chans := ∅; sends := ∅; log := []; departing := ∅ |}.

Definition set_senders f w : Registry A :=
  {| senders := f (senders w); revoked := revoked w; watches := watches w; chans := chans w;
     sends := sends w; log := log w; departing := departing w |}.
Definition set_revoked f w : Registry A :=
  {| senders := senders w; revoked := f (revoked w); watches := watches w; chans := chans w;
     sends := sends w; log := log w; departing := departing w |}.
Definition set_watches f w : Registry A :=
  {| senders := senders w; revoked := revoked w; watches := f (watches w); chans := chans w;
     sends := sends w; log := log w; departing := departing w |}.
Definition set_chans f w : Registry A :=
  {| senders := senders w; revoked := revoked w; watches := watches w; chans := f (chans w);
     sends := sends w; log := log w; departing := departing w |}.
Definition set_state i st w : Registry A :=
  {| senders := senders w; revoked := revoked w; watches := watches w; chans := chans w;
     sends := alter (fun s => {| target := target s; value := value s; state := st |}) i (sends w);
     log := log w; departing := departing w |}.
Definition set_departing f w : Registry A :=
  {| senders := senders w; revoked := revoked w; watches := watches w; chans := chans w;
     sends := sends w; log := log w; departing := f (departing w) |}.

(** ** The watch of a registered sender *)

(** [RegisteredSender::notify_changed], and the drop of the sender that always
    follows it. *)
Definition notify_changed (rs : RegisteredSender) w : Registry A :=
  set_watches (alter (fun x => {| generation := wrap 64 (generation x + 1); alive := false |}) (changes rs)) w.

(** ** [SessionRegistry] *)

(** [register], with the identity [watch] of the new watch channel. *)
Definition register a c watch w : Registry A * bool :=
  if bool_decide (a ∈ revoked w) then (w, false)
  else
    let w := set_watches <[watch := {| generation := 0; alive := true |}]> w in
    let previous := senders w !! a in
    let w := set_senders <[a := {| sender := c; changes := watch |}]> w in
    (match previous with Some previous => notify_changed previous w | None => w end, true).

(** [unregister]: [c] is the channel of the weak sender, if it still upgrades. *)
Definition unregister a (c : option Z) w : Registry A * bool :=
  let is_current := match senders w !! a, c with
                    | Some current, Some c => sender current =? c
                    | _, _ => false
                    end in
  if is_current
  then (match senders w !! a with
        | Some current => notify_changed current (set_senders (delete a) w)
        | None => w
        end, true)
  else (w, false).

(** [disconnect]: one step per lock, and one for the signal, which is given when
    both locks are released. *)
Definition disconnect_revoke a w : Registry A := set_revoked (fun r => {[a]} ∪ r) w.
Definition disconnect_remove a w : Registry A :=
  match senders w !! a with
  | Some current => set_departing (fun d => {[changes current]} ∪ d) (set_senders (delete a) w)
  | None => w
  end.
Definition disconnect_notify (current : RegisteredSender) w : Registry A :=
  notify_changed current (set_departing (fun d => d ∖ {[changes current]}) w).

Definition count w : Z := Z.of_nat (size (senders w)).
Definition is_online a w : bool := bool_decide (is_Some (senders w !! a)).

(** ** [send_to_current] *)

(** Under the two read locks: refuse a revoked or unknown Agent, otherwise take
    its sender and subscribe to its changes. *)
Definition send_lookup i (s : Send A) w : Registry A :=
  if bool_decide (target s ∈ revoked w) then set_state i (Done (Err Revoked)) w else
  match senders w !! target s with
  | None => set_state i (Done (Err Missing)) w
  | Some current =>
      match watches w !! changes current with
      | Some x => set_state i (Waiting (sender current) (changes current) (generation x)) w
      | None => set_state i (Done (Err Missing)) w
      end
  end.

Definition has_room (ch : Chan A) : bool := zlen (queue ch) + reserved ch <? capacity ch.
Definition add_reserved (n : Z) (ch : Chan A) : Chan A :=
  {| capacity := capacity ch; queue := queue ch; reserved := reserved ch + n; closed := closed ch |}.

(** The reservation fails because the receiver is gone: look again. *)
Definition send_closed i (s : Send A) c w : Registry A :=
  if bool_decide (target s ∈ revoked w) then set_state i (Done (Err Revoked)) w else
  match senders w !! target s with
  | Some current => if negb (sender current =? c) then set_state i Lookup w
                    else set_state i (Done (Err Closed)) w
  | None => set_state i (Done (Err Missing)) w
  end.

Definition push_reserved (v : A) (ch : Chan A) : Chan A :=
  {| capacity := capacity ch; queue := queue ch ++ [v]; reserved := reserved ch - 1; closed := closed ch |}.

(** With the permit in hand, check under the locks that its channel is still
    the Agent's, and only then send; otherwise the permit is given back. *)
Definition send_commit i (s : Send A) c w : Registry A :=
  let give_back := set_chans (alter (add_reserved (-1)) c) in
  if bool_decide (target s ∈ revoked w) then give_back (set_state i (Done (Err Revoked)) w) else
  match senders w !! target s with
  | Some current =>
      if sender current =? c
      then let w := set_chans (alter (push_reserved (value s)) c) (set_state i (Done (Ok ())) w) in
           {| senders := senders w; revoked := revoked w; watches := watches w; chans := chans w;
              sends := sends w; log := log w ++ [(i, target s, c)]; departing := departing w |}
      else give_back (set_state i Lookup w)
  | None => give_back (set_state i (Done (Err Missing)) w)
  end.

(** The five-second timeout drops the future, and with it a permit it holds. *)
Definition send_timeout i (s : Send A) w : Registry A :=
  let w' := set_state i (Done (Err TimedOut)) w in
  match state s with
  | Holding c => set_chans (alter (add_reserved (-1)) c) w'
  | _ => w'
  end.

(** One step of the send [i]. *)
Inductive send_step i w : Registry A → Prop :=
| step_lookup s :
    sends w !! i = Some s → state s = Lookup → send_step i w (send_lookup i s w)
| step_reserved s c x n ch :
    sends w !! i = Some s → state s = Waiting c x n →
    chans w !! c = Some ch → closed ch = false → has_room ch = true →
    send_step i w (set_chans (alter (add_reserved 1) c) (set_state i (Holding c) w))
| step_closed s c x n ch :
    sends w !! i = Some s → state s = Waiting c x n →
    chans w !! c = Some ch → closed ch = true → send_step i w (send_closed i s c w)
| step_changed s c x n wt :
    sends w !! i = Some s → state s = Waiting c x n →
    watches w !! x = Some wt → generation wt ≠ n → send_step i w (set_state i Lookup w)
| step_dropped s c x n wt :
    sends w !! i = Some s → state s = Waiting c x n →
    watches w !! x = Some wt → generation wt = n → alive wt = false →
    send_step i w (set_state i (Done (Err Missing)) w)
| step_commit s c :
    sends w !! i = Some s → state s = Holding c → send_step i w (send_commit i s c w)
| step_timeout s :
    sends w !! i = Some s → (∀ r, state s ≠ Done r) → send_step i w (send_timeout i s w).

(** Everything that can happen to a registry. *)
Inductive step w : Registry A → Prop :=
| step_register a c x :
    is_Some (chans w !! c) → watches w !! x = None → step w (register a c x w).1
| step_unregister a (oc : option Z) : step w (unregister a oc w).1
| step_revoke a : step w (disconnect_revoke a w)
| step_remove a : a ∈ revoked w → step w (disconnect_remove a w)
| step_notify rs : changes rs ∈ departing w → step w (disconnect_notify rs w)
| step_new_chan c n :
    chans w !! c = None → 1 <= n →
    step w (set_chans <[c := {| capacity := n; queue := []; reserved := 0; closed := false |}]> w)
| step_recv c ch v q :
    chans w !! c = Some ch → queue ch = v :: q →
    step w (set_chans <[c := {| capacity := capacity ch; queue := q; reserved := reserved ch;
                                closed := closed ch |}]> w)
| step_close c ch :
    chans w !! c = Some ch →
    step w (set_chans <[c := {| capacity := capacity ch; queue := queue ch; reserved := reserved ch;
                                closed := true |}]> w)
| step_call i a v :
    sends w !! i = None →
    step w {| senders := senders w; revoked := revoked w; watches := watches w; chans := chans w;
              sends := <[i := {| target := a; value := v; state := Lookup |}]> (sends w); log := log w;
              departing := departing w |}
| step_send i w' : send_step i w w' → step w w'.

Definition reachable w : Prop := rtc step new_registry w.
End registry.
End Registry.
