(* ===== verification/RegistryProofs.v ===== *)
(** * RegistryProofs: sends reach live streams, once, and never after revocation

    Safety and wake-up properties of the transition system of [Registry], by
    induction on its steps. *)

From S2P Require Import Prelude Text Registry.

Module RegistryProofs.
Import Registry.

#[local] Arguments register : simpl never.
#[local] Arguments unregister : simpl never.
#[local] Arguments disconnect_remove : simpl never.
#[local] Arguments disconnect_revoke : simpl never.
#[local] Arguments disconnect_notify : simpl never.
#[local] Arguments send_lookup : simpl never.
#[local] Arguments send_closed : simpl never.
#[local] Arguments send_commit : simpl never.
#[local] Arguments send_timeout : simpl never.

Section proofs.
Context {A : Type}.
Implicit Types (w : Registry A) (a c i : Z).

(** ** What each operation leaves alone *)

(** Senders and their watches are changed by [register], [unregister] and
    [disconnect] only: a sender is added, taken out and signalled at once, taken
    out by a disconnect, or signalled by one. *)
Inductive senders_change w w' : Prop :=
| senders_same : senders w' = senders w → watches w' = watches w → departing w' = departing w → senders_change w w'
| senders_insert a c x :
    a ∉ revoked w → watches w !! x = None → sends w' = sends w → departing w' = departing w →
    senders w' = <[a := {| sender := c; changes := x |}]> (senders w) →
    watches w' = (match senders w !! a with
      | Some p => alter (fun y => {| generation := wrap 64 (generation y + 1); alive := false |}) (changes p)
      | None => fun m => m end) (<[x := {| generation := 0; alive := true |}]> (watches w)) →
    senders_change w w'
| senders_delete a p :
    senders w !! a = Some p → sends w' = sends w → departing w' = departing w → senders w' = delete a (senders w) →
    watches w' = alter (fun y => {| generation := wrap 64 (generation y + 1); alive := false |})
                   (changes p) (watches w) →
    senders_change w w'
| senders_remove a p :
    senders w !! a = Some p → a ∈ revoked w → sends w' = sends w → departing w' = {[changes p]} ∪ departing w →
    senders w' = delete a (senders w) → watches w' = watches w → senders_change w w'
| senders_signal x :
    x ∈ departing w → sends w' = sends w → departing w' = departing w ∖ {[x]} → senders w' = senders w →
    watches w' = alter (fun y => {| generation := wrap 64 (generation y + 1); alive := false |}) x (watches w) →
    senders_change w w'.

Lemma send_step_frame i w w' :
  send_step i w w' → senders w' = senders w ∧ watches w' = watches w ∧ revoked w' = revoked w ∧ departing w' = departing w.
Proof.
  destruct 1; try done.
  - unfold send_lookup. repeat case_match; done.
  - unfold send_closed. repeat case_match; done.
  - unfold send_commit. repeat case_match; done.
  - unfold send_timeout. repeat case_match; done.
Qed.

Lemma step_senders w w' : step w w' → senders_change w w'.
Proof.
  destruct 1 as [a c x Hc Hx|a oc|a|a Ha|rs Hrs| | | | |i w' Hs]; try by apply senders_same.
  - unfold register. case_bool_decide; [by apply senders_same|].
    apply (senders_insert _ _ a c x); [done..| | | |]; cbn; by destruct (senders w !! a).
  - unfold unregister. destruct (senders w !! a) as [p|] eqn:Hp; [|by apply senders_same].
    destruct oc as [c|]; [|by apply senders_same].
    destruct (sender p =? c); [|by apply senders_same]. by apply (senders_delete _ _ a p).
  - unfold disconnect_remove. destruct (senders w !! a) as [p|] eqn:Hp; [|by apply senders_same].
    by apply (senders_remove _ _ a p).
  - by apply (senders_signal _ _ (changes rs)).
  - apply send_step_frame in Hs as (? & ? & _ & ?). by apply senders_same.
Qed.

Lemma step_revoked_mono w w' : step w w' → revoked w ⊆ revoked w'.
Proof.
  destruct 1 as [a c x Hc Hx|a oc|a|a Ha|rs Hrs| | | | |i w' Hs]; try done.
  - unfold register. case_bool_decide; [done|]. cbn. by destruct (senders w !! a).
  - unfold unregister. destruct (senders w !! a); [|done]. destruct oc; [|done]. by case_match.
  - cbn. set_solver.
  - unfold disconnect_remove. by case_match.
  - apply send_step_frame in Hs as (_ & _ & -> & _). done.
Qed.

(** ** The log *)

(** A step either sends nothing, or sends one message: to the channel that is
    at that moment registered for an Agent that is not revoked. *)
Lemma step_log w w' :
  step w w' →
  log w' = log w ∨
  ∃ i s rs, sends w !! i = Some s ∧ state s = Holding (sender rs) ∧ senders w !! target s = Some rs
    ∧ target s ∉ revoked w ∧ log w' = log w ++ [(i, target s, sender rs)]
    ∧ sends w' = sends (set_state i (Done (Ok ())) w).
Proof.
  destruct 1 as [a c x Hc Hx|a oc|a|a Ha|rs Hrs| | | | |i w' Hs]; try by left.
  - left. unfold register. case_bool_decide; [done|]. cbn. by destruct (senders w !! a).
  - left. unfold unregister. destruct (senders w !! a); [|done]. destruct oc; [|done]. by case_match.
  - left. unfold disconnect_remove. by case_match.
  - destruct Hs as [s Hs Hst| | | | |s c Hs Hst|s Hs Hst]; try by left.
    + left. unfold send_lookup. by repeat case_match.
    + left. unfold send_closed. by repeat case_match.
    + unfold send_commit. case_bool_decide as Hr; [by left|].
      destruct (senders w !! target s) as [rs|] eqn:Hrs; [|by left].
      destruct (Z.eqb_spec (sender rs) c) as [<-|]; [|by left].
      right. exists i, s, rs. by split_and!.
    + left. unfold send_timeout. by repeat case_match.
Qed.

(** ** Revocation *)

Definition sent_to a (l : list (Z * Z * Z)) : list (Z * Z * Z) := filter (fun e => e.1.2 = a) l.

Lemma revoked_step w w' a :
  step w w' → a ∈ revoked w →
  sent_to a (log w') = sent_to a (log w) ∧ (senders w !! a = None → senders w' !! a = None).
Proof.
  intros Hs Ha. split.
  - destruct (step_log w w' Hs) as [->|(i & s & rs & _ & _ & _ & Hr & -> & _)]; [done|].
    unfold sent_to. rewrite filter_app, filter_cons, filter_nil. cbn.
    case_decide as Hc; [congruence|]. by rewrite app_nil_r.
  - intros Hn. destruct (step_senders w w' Hs) as [-> _|b c x Hb _ _ _ -> _|b p Hp _ _ -> _|b p Hp _ _ _ -> _|x _ _ _ -> _]; [done| | | |done].
    + by rewrite lookup_insert_ne by (intros ->; done).
    + by apply lookup_delete_None; right.
    + by apply lookup_delete_None; right.
Qed.

(** C1: revocation is final. From the moment an Agent is marked revoked, in
    every interleaving of the operations, no further message is sent to it, also
    by a send that was already waiting or already held a permit; it stays
    revoked; and once its stream is removed it is never registered again. *)
Theorem revocation_final w w' a :
  rtc step w w' → a ∈ revoked w →
  a ∈ revoked w' ∧ sent_to a (log w') = sent_to a (log w)
  ∧ (senders w !! a = None → senders w' !! a = None).
Proof.
  intros Hr. induction Hr as [w|w u w' Hs Hr IH]; intros Ha; [done|].
  destruct (revoked_step w u a Hs Ha) as [H1 H2].
  assert (a ∈ revoked u) as Hu by (by apply (step_revoked_mono w u Hs)).
  destruct (IH Hu) as (H3 & H4 & H5). split_and!; [done|congruence|auto].
Qed.

(** ** Current streams *)

(** a message is only ever sent into the stream registered for its Agent:
    at the moment of each send in the log, the channel that received it was the
    Agent's current one, and the Agent was not revoked. A send that reserved a
    slot in a stream that was then replaced gives the slot back. *)
Theorem sends_reach_current w i a c :
  reachable w → (i, a, c) ∈ log w →
  ∃ u rs, reachable u ∧ rtc step u w ∧ senders u !! a = Some rs ∧ sender rs = c ∧ a ∉ revoked u.
Proof.
  intros Hr. unfold reachable in *. revert w Hr. refine (rtc_ind_r _ _ _ _).
  { intros Hin. by apply not_elem_of_nil in Hin. }
  intros u w Hu Hs IH Hin. destruct (step_log u w Hs) as [E|(j & s & rs & Hj & _ & Hrs & Hrev & E & _)].
  - rewrite E in Hin. destruct (IH Hin) as (x & rs & ? & ? & ?). exists x, rs. split; [done|]. split; [|done].
    by eapply rtc_r.
  - rewrite E in Hin. apply elem_of_app in Hin as [Hin|Hin].
    + destruct (IH Hin) as (x & rs' & ? & ? & ?). exists x, rs'. split; [done|]. split; [|done]. by eapply rtc_r.
    + apply list_elem_of_singleton in Hin. simplify_eq. exists u, rs. split_and!; try done. by apply rtc_once.
Qed.

(** ** Exactly once *)

Definition sent_by i (l : list (Z * Z * Z)) : list (Z * Z * Z) := filter (fun e => e.1.1 = i) l.

(** What the log holds of one call, by the call's state. *)
Definition call_logged w i : Prop :=
  match sends w !! i with
  | Some s => match state s with
              | Done (Ok _) => ∃ c, sent_by i (log w) = [(i, target s, c)]
              | _ => sent_by i (log w) = []
              end
  | None => sent_by i (log w) = []
  end.

Ltac call_state i s w :=
  match goal with |- context [set_state i ?st w] => exists i, s, st end;
  split_and!; [done|done|done|left; by split].

(** A step changes at most one call, and never one that is done. *)
Lemma step_sends w w' :
  step w w' →
  (∃ i a v, sends w !! i = None ∧ sends w' = <[i := {| target := a; value := v; state := Lookup |}]> (sends w)
     ∧ log w' = log w)
  ∨ (sends w' = sends w ∧ log w' = log w)
  ∨ ∃ i s st, sends w !! i = Some s ∧ (∀ r, state s ≠ Done r)
      ∧ sends w' = sends (set_state i st w)
      ∧ ((log w' = log w ∧ st ≠ Done (Ok ())) ∨ (st = Done (Ok ()) ∧ ∃ c, log w' = log w ++ [(i, target s, c)])).
Proof.
  destruct 1 as [a c x Hc Hx|a oc|a|a Ha|rs Hrs| | | |i a v Hi|i w' Hs]; try (right; left; by split).
  - right; left. unfold register. case_bool_decide; [done|]. cbn. by destruct (senders w !! a).
  - right; left. unfold unregister. destruct (senders w !! a); [|done]. destruct oc; [|done]. by case_match.
  - right; left. unfold disconnect_remove. by case_match.
  - left. by exists i, a, v.
  - right; right. destruct Hs as [s Hs Hst|s c x n ch Hs Hst|s c x n ch Hs Hst|s c x n wt Hs Hst|s c x n wt Hs Hst|s c Hs Hst|s Hs Hst];
      try (assert (∀ r, state s ≠ Done r) as Hnd by (rewrite Hst; done)).
    + unfold send_lookup. repeat case_match; call_state i s w.
    + call_state i s w.
    + unfold send_closed. repeat case_match; call_state i s w.
    + call_state i s w.
    + call_state i s w.
    + unfold send_commit. case_bool_decide; [call_state i s w|].
      destruct (senders w !! target s) as [rs|]; [|call_state i s w].
      destruct (sender rs =? c); [|call_state i s w].
      exists i, s, (Done (Ok ())). split_and!; [done..|]. right. split; [done|]. by exists c.
    + exists i, s, (Done (Err TimedOut)). split_and!; [done|done| |left; split; [|done]];
        unfold send_timeout; by destruct (state s).
Qed.

(** each call of [send_to_current] sends its message at most once, and
    reports success exactly when it did: a call that ended well has one entry in
    the log, to its own Agent, and a call that failed, timed out or is still
    running has none. *)
Theorem send_exactly_once w i : reachable w → call_logged w i.
Proof.
  unfold reachable. intros Hr. revert w Hr. refine (rtc_ind_r _ _ _ _).
  { unfold call_logged. cbn [sends new_registry]. by rewrite lookup_empty. }
  intros u w Hu Hs IH. unfold call_logged in *.
  destruct (step_sends u w Hs) as [(j & a & v & Hj & -> & ->)|[[-> ->]|(j & s & st & Hj & Hnd & -> & Hl)]].
  - destruct (decide (j = i)) as [->|]; [rewrite lookup_insert_eq; by rewrite Hj in IH|by rewrite lookup_insert_ne].
  - done.
  - cbn. destruct (decide (j = i)) as [->|Hne].
    + rewrite lookup_alter_eq, Hj. cbn. rewrite Hj in IH.
      assert (sent_by i (log u) = []) as Hnil.
      { destruct (state s) as [| | |r]; try done. by destruct (Hnd r). }
      destruct Hl as [[-> Hst]|[-> [c ->]]].
      * destruct st as [| | |[[]|]]; done.
      * exists c. unfold sent_by in *. rewrite filter_app, Hnil, filter_cons_True by done. done.
    + rewrite lookup_alter_ne by done.
      assert (sent_by i (log w) = sent_by i (log u)) as ->; [|done].
      destruct Hl as [[-> _]|[_ [c ->]]]; [done|]. unfold sent_by.
      rewrite filter_app, filter_cons_False by done. by rewrite filter_nil, app_nil_r.
Qed.

(** ** Wake-ups *)

Definition fresh_watch : Watch := {| generation := 0; alive := true |}.
Definition spent_watch : Watch := {| generation := 1; alive := false |}.

(** The watch of a registered sender is fresh, and so is one that a disconnect is
    about to signal, which no registered sender has. Every other one is spent. *)
Record watches_ok w : Prop := {
  wok_senders : ∀ a rs, senders w !! a = Some rs → watches w !! changes rs = Some fresh_watch;
  wok_inj : ∀ a b rs rs', senders w !! a = Some rs → senders w !! b = Some rs' → changes rs = changes rs' → a = b;
  wok_states : ∀ x wt, watches w !! x = Some wt → wt = fresh_watch ∨ wt = spent_watch;
  wok_departing : ∀ x, x ∈ departing w → watches w !! x = Some fresh_watch;
  wok_apart : ∀ x a rs, x ∈ departing w → senders w !! a = Some rs → changes rs ≠ x;
}.

(** A waiting send saw a fresh watch, which stays fresh only while the sender it
    waits on is the current one, or until the disconnect that removed it signals. *)
Definition waits_ok w : Prop :=
  ∀ i s c x n, sends w !! i = Some s → state s = Waiting c x n →
    n = 0 ∧ ∃ wt, watches w !! x = Some wt
                  ∧ (wt = fresh_watch → senders w !! target s = Some {| sender := c; changes := x |}
                                        ∨ x ∈ departing w ∧ target s ∈ revoked w).

Lemma spend_states (m : gmap Z Watch) x y wt :
  m !! x = Some fresh_watch → (∀ z v, m !! z = Some v → v = fresh_watch ∨ v = spent_watch) →
  alter (fun v => {| generation := wrap 64 (generation v + 1); alive := false |}) x m !! y = Some wt → wt = fresh_watch ∨ wt = spent_watch.
Proof.
  intros Hx Hm. destruct (decide (x = y)) as [<-|Hy]; [|rewrite lookup_alter_ne by done; apply Hm].
  rewrite lookup_alter_eq, Hx. cbn. intros [= <-]. by right.
Qed.
Lemma insert_states (m : gmap Z Watch) x y wt :
  (∀ z v, m !! z = Some v → v = fresh_watch ∨ v = spent_watch) → <[x := fresh_watch]> m !! y = Some wt → wt = fresh_watch ∨ wt = spent_watch.
Proof. intros Hm [[_ <-]|[_ Hy]]%lookup_insert_Some; [by left|by eapply Hm]. Qed.

(** A new sender with a new watch; the one it replaces is signalled. *)
Lemma watches_ok_insert w w' a c x :
  watches_ok w → watches w !! x = None → departing w' = departing w →
  senders w' = <[a := {| sender := c; changes := x |}]> (senders w) →
  watches w' = (match senders w !! a with
    | Some p => alter (fun y => {| generation := wrap 64 (generation y + 1); alive := false |}) (changes p)
    | None => fun m => m end) (<[x := {| generation := 0; alive := true |}]> (watches w)) → watches_ok w'.
Proof.
  intros [H1 H2 H3 H4 H5] Hx Ed Es Ew.
  assert (∀ b rs, senders w !! b = Some rs → changes rs ≠ x) as Hne by (intros b rs Hb%H1 Hc; congruence).
  assert (∀ y, y ≠ x → (∀ p, senders w !! a = Some p → changes p ≠ y) → watches w' !! y = watches w !! y) as Hkeep.
  { intros y Hy Hp. rewrite Ew. destruct (senders w !! a) as [p|]; [rewrite lookup_alter_ne by auto|]; by rewrite lookup_insert_ne. }
  split; rewrite ?Ed, ?Es.
  - intros b rs [[<- <-]|[Hba Hb]]%lookup_insert_Some.
    + rewrite Ew. cbn. destruct (senders w !! a) as [p|] eqn:Hp; [rewrite lookup_alter_ne by eauto|]; by rewrite lookup_insert_eq.
    + rewrite Hkeep; [by apply (H1 b)|by apply (Hne b)|]. intros p Hp E. apply Hba. by apply (H2 a b p rs).
  - intros b b' rs rs' [[<- <-]|[Hba Hb]]%lookup_insert_Some [[<- <-]|[Hba' Hb']]%lookup_insert_Some E; cbn in E; [done|..].
    + by destruct (Hne b' rs').
    + by destruct (Hne b rs).
    + by apply (H2 b b' rs rs').
  - intros y wt. rewrite Ew. destruct (senders w !! a) as [p|] eqn:Hp; [|by apply insert_states].
    apply spend_states; [|intros z v; by apply insert_states]. rewrite lookup_insert_ne by (intros E; by apply (Hne a p)). by apply (H1 a).
  - intros y Hy. rewrite Hkeep; [by apply H4| |intros p Hp; by apply (H5 y a p)]. intros ->. apply H4 in Hy. congruence.
  - intros y b rs Hy [[<- <-]|[Hba Hb]]%lookup_insert_Some; [|by apply (H5 y b)]. cbn. intros ->. apply H4 in Hy. congruence.
Qed.

Lemma watches_ok_step w w' : step w w' → watches_ok w → watches_ok w'.
Proof.
  intros Hs Hok. pose proof Hok as [H1 H2 H3 H4 H5].
  destruct (step_senders w w' Hs) as [Es Ew Ed|a c x Ha Hx _ Ed Es Ew|a p Hp _ Ed Es Ew|a p Hp Hr _ Ed Es Ew|x Hx _ Ed Es Ew].
  - split; by rewrite ?Es, ?Ew, ?Ed.
  - by eapply watches_ok_insert.
  - split; rewrite ?Es, ?Ew, ?Ed.
    + intros b rs [Hba Hb]%lookup_delete_Some. rewrite lookup_alter_ne; [by apply (H1 b)|]. intros E. apply Hba. by apply (H2 a b p rs).
    + intros b b' rs rs' [_ Hb]%lookup_delete_Some [_ Hb']%lookup_delete_Some. by apply H2.
    + intros y wt. apply spend_states; [by apply (H1 a)|done].
    + intros y Hy. rewrite lookup_alter_ne by (by apply (H5 y a)). by apply H4.
    + intros y b rs Hy [_ Hb]%lookup_delete_Some. by apply (H5 y b).
  - split; rewrite ?Es, ?Ew, ?Ed.
    + intros b rs [_ Hb]%lookup_delete_Some. by apply (H1 b).
    + intros b b' rs rs' [_ Hb]%lookup_delete_Some [_ Hb']%lookup_delete_Some. by apply H2.
    + done.
    + intros y [->%elem_of_singleton|Hy]%elem_of_union; [by apply (H1 a)|by apply H4].
    + intros y b rs [->%elem_of_singleton|Hy]%elem_of_union [Hba Hb]%lookup_delete_Some E; [|by apply (H5 y b rs)]. apply Hba. by apply (H2 a b p rs).
  - split; rewrite ?Es, ?Ew, ?Ed.
    + intros b rs Hb. rewrite lookup_alter_ne; [by apply (H1 b)|]. intros E. by apply (H5 x b rs).
    + done.
    + intros y wt. apply spend_states; [by apply H4|done].
    + intros y [Hy Hne]%elem_of_difference. rewrite lookup_alter_ne by set_solver. by apply H4.
    + intros y b rs [Hy _]%elem_of_difference. by apply (H5 y b).
Qed.

(** Only the lookup starts a wait, on the current sender. *)
Lemma send_step_waiting i j w w' s c x n :
  send_step i w w' → sends w' !! j = Some s → state s = Waiting c x n →
  (sends w !! j = Some s)
  ∨ (senders w !! target s = Some {| sender := c; changes := x |}
     ∧ ∃ wt, watches w !! x = Some wt ∧ generation wt = n).
Proof.
  intros Hs Hj Hst. destruct (decide (j = i)) as [->|Hne].
  2: { left. destruct Hs; cbn in Hj;
       unfold send_lookup, send_closed, send_commit, send_timeout in Hj;
       repeat case_match; cbn in Hj; by rewrite lookup_alter_ne in Hj. }
  destruct Hs as [s0 Hs H0|s0 ? ? ? ? Hs H0|s0 ? ? ? ? Hs H0|s0 ? ? ? ? Hs H0|s0 ? ? ? ? Hs H0|s0 ? Hs H0|s0 Hs H0];
    unfold send_lookup, send_closed, send_commit, send_timeout in Hj; repeat case_match; cbn in Hj;
    rewrite lookup_alter_eq, Hs in Hj; cbn in Hj; injection Hj as <-; cbn in *; try discriminate Hst.
  injection Hst as <- <- <-. right. split; [|eauto]. by destruct r.
Qed.

(** A send that waits on a watch which was signalled. *)
Lemma signalled (m : gmap Z Watch) x wt (P : Prop) :
  m !! x = Some fresh_watch → m !! x = Some wt →
  ∃ wt', alter (fun y => {| generation := wrap 64 (generation y + 1); alive := false |}) x m !! x = Some wt' ∧ (wt' = fresh_watch → P).
Proof. intros Hf Hx. rewrite lookup_alter_eq, Hf. by eexists. Qed.

Lemma waits_ok_senders w w' :
  senders_change w w' → sends w' = sends w → revoked w ⊆ revoked w' → watches_ok w → waits_ok w → waits_ok w'.
Proof.
  intros Hc Esd Hrev [H1 H2 H3 H4 H5] Hw i s c x n Hi Hst. rewrite Esd in Hi.
  destruct (Hw i s c x n Hi Hst) as (-> & wt & Hx & Hf). split; [done|].
  destruct Hc as [Es Ew Ed|a c' y Ha Hy _ Ed Es Ew|a p Hp _ Ed Es Ew|a p Hp Hr _ Ed Es Ew|y Hy _ Ed Es Ew]; rewrite Es, Ew, Ed.
  - exists wt. split; [done|]. intros [?|[??]]%Hf; [by left|right; auto].
  - assert (x ≠ y) as Hxy by congruence. destruct (senders w !! a) as [p|] eqn:Hp.
    + destruct (decide (changes p = x)) as [<-|Hpx].
      * rewrite lookup_alter_eq, lookup_insert_ne, (H1 a p Hp) by done. by eexists.
      * rewrite lookup_alter_ne, lookup_insert_ne by done. exists wt. split; [done|]. intros [Hcur|[??]]%Hf; [left|right; auto].
        rewrite lookup_insert_ne; [done|]. intros ->. rewrite Hcur in Hp. by simplify_eq.
    + rewrite lookup_insert_ne by done. exists wt. split; [done|]. intros [Hcur|[??]]%Hf; [left|right; auto].
      rewrite lookup_insert_ne; [done|]. intros ->. congruence.
  - destruct (decide (changes p = x)) as [<-|Hpx]; [by eapply signalled; [apply (H1 a)|]|].
    rewrite lookup_alter_ne by done. exists wt. split; [done|]. intros [Hcur|[??]]%Hf; [left|right; auto].
    rewrite lookup_delete_ne; [done|]. intros ->. rewrite Hcur in Hp. by simplify_eq.
  - exists wt. split; [done|]. intros [Hcur|[??]]%Hf; [|right; set_solver].
    destruct (decide (target s = a)) as [<-|Hne]; [|left; by rewrite lookup_delete_ne].
    rewrite Hcur in Hp. simplify_eq. right. cbn. set_solver.
  - destruct (decide (y = x)) as [->|Hne]; [by eapply signalled; [apply H4|]|].
    rewrite lookup_alter_ne by done. exists wt. split; [done|]. intros [?|[??]]%Hf; [by left|right; set_solver].
Qed.

(** What no call makes happen leaves the calls alone. *)
Lemma step_calls w w' : step w w' → (∃ i, send_step i w w') ∨ sends w' = sends w ∨
  ∃ i a v, sends w !! i = None ∧ sends w' = <[i := {| target := a; value := v; state := Lookup |}]> (sends w)
    ∧ senders w' = senders w ∧ watches w' = watches w ∧ departing w' = departing w ∧ revoked w' = revoked w.
Proof.
  intros Hs. destruct Hs as [a c x Hc Hx|a oc|a|a Ha|rs Hrs| | | |i a v Hi|i w' Hs]; try (by right; left).
  - right; left. unfold register. case_bool_decide; [done|]. cbn. by destruct (senders w !! a).
  - right; left. unfold unregister. destruct (senders w !! a); [|done]. destruct oc; [|done]. by case_match.
  - right; left. unfold disconnect_remove. by case_match.
  - right; right. by exists i, a, v.
  - left. by exists i.
Qed.

Lemma waits_ok_step w w' : step w w' → watches_ok w → waits_ok w → waits_ok w'.
Proof.
  intros Hs Hok Hw.
  destruct (step_calls w w' Hs) as [[i Hi]|[Esd|(i & a & v & Hi & Esd & Es & Ew & Ed & Er)]].
  - pose proof (send_step_frame i w w' Hi) as (Es & Ew & Er & Ed). intros j s c x n Hj Hst. rewrite Es, Ew, Er, Ed.
    destruct (send_step_waiting i j w w' s c x n Hi Hj Hst) as [Hold|[Hcur (wt & Hwt & <-)]]; [by apply (Hw j)|].
    pose proof (wok_senders w Hok _ _ Hcur) as Hf. cbn in Hf. rewrite Hf in Hwt. simplify_eq. split; [done|]. exists fresh_watch. auto.
  - apply (waits_ok_senders w); [by apply step_senders|done|by apply step_revoked_mono|done..].
  - intros j s c x n Hj Hst. rewrite Esd in Hj. apply lookup_insert_Some in Hj as [[_ <-]|[_ Hj]]; [done|].
    rewrite Es, Ew, Ed, Er. by apply (Hw j).
Qed.

Lemma reachable_waits w : reachable w → watches_ok w ∧ waits_ok w.
Proof.
  unfold reachable. revert w. refine (rtc_ind_r _ _ _ _).
  - split; [split|unfold waits_ok]; cbn [senders watches sends departing new_registry]; intros *;
      rewrite ?lookup_empty; set_solver.
  - intros u w _ Hs [? ?]. split; [by eapply watches_ok_step|by eapply waits_ok_step].
Qed.

(** C24: no lost wake-up, also while a disconnect has released the lock and not
    yet signalled: a send waiting for room in a stream is either waiting on the
    stream that is registered for its Agent right now; or a change has already
    been signalled to it, so that its next step looks the Agent up again; or its
    stream was removed by a disconnect of its Agent, which is revoked, and whose
    next step signals it. It never fails because the watch it waits on went away
    silently. *)
Theorem no_lost_wakeup w i s c x n :
  reachable w → sends w !! i = Some s → state s = Waiting c x n →
  (senders w !! target s = Some {| sender := c; changes := x |}
   ∨ send_step i w (set_state i Lookup w)
   ∨ x ∈ departing w ∧ target s ∈ revoked w ∧
     let w' := disconnect_notify {| sender := c; changes := x |} w in step w w' ∧ send_step i w' (set_state i Lookup w'))
  ∧ ∀ wt, watches w !! x = Some wt → generation wt = n → alive wt = true.
Proof.
  intros Hr Hi Hst. destruct (reachable_waits w Hr) as [Hok Hw].
  destruct (Hw i s c x n Hi Hst) as (-> & wt & Hx & Hf). destruct (wok_states w Hok x wt Hx) as [->| ->].
  - split; [|intros wt' Hwt' _; rewrite Hx in Hwt'; by simplify_eq]. destruct (Hf eq_refl) as [Hcur|[Hd Ht]]; [by left|]. right; right.
    split; [done|]. split; [done|]. split; [by apply step_notify|]. eapply step_changed; [exact Hi|exact Hst| |].
    + unfold disconnect_notify. cbn. by rewrite lookup_alter_eq, Hx.
    + done.
  - split; [right; left; by eapply step_changed|]. intros wt' Hwt' Hg. rewrite Hx in Hwt'. by simplify_eq.
Qed.

(** ** Permits *)

(** The sends that hold a permit of channel [c]. *)
Definition holders c (m : gmap Z (Send A)) : Z :=
  Z.of_nat (size (filter (fun p => state p.2 = Holding c) m)).

Definition chans_ok w : Prop :=
  (∀ c ch, chans w !! c = Some ch →
     reserved ch = holders c (sends w) ∧ zlen (queue ch) + reserved ch <= capacity ch)
  ∧ ∀ i s c, sends w !! i = Some s → state s = Holding c → is_Some (chans w !! c).

Definition holds (st : SendState) c : Z := if decide (st = Holding c) then 1 else 0.

Lemma holders_insert c m i s : m !! i = None → holders c (<[i := s]> m) = holders c m + holds (state s) c.
Proof.
  intros Hi. unfold holders, holds. rewrite map_filter_insert. cbn. case_decide.
  - rewrite map_size_insert_None; [lia|]. apply map_lookup_filter_None. by left.
  - rewrite delete_id by done. lia.
Qed.

Lemma holders_alter c m i s st :
  m !! i = Some s →
  holders c (alter (fun s => {| target := target s; value := value s; state := st |}) i m)
  = holders c m - holds (state s) c + holds st c.
Proof.
  intros Hi. assert (m = <[i := s]> (delete i m)) as E by by rewrite insert_delete_id.
  set (s' := {| target := target s; value := value s; state := st |}).
  assert (alter (fun s => {| target := target s; value := value s; state := st |}) i m
          = <[i := s']> (delete i m)) as ->.
  { apply map_eq. intros j. destruct (decide (j = i)) as [->|].
    - by rewrite lookup_alter_eq, lookup_insert_eq, Hi.
    - by rewrite lookup_alter_ne, lookup_insert_ne, lookup_delete_ne. }
  rewrite E at 2. rewrite !holders_insert by apply lookup_delete_eq. unfold s'. cbn [state]. lia.
Qed.

Lemma holders_zero c m : (∀ i s, m !! i = Some s → state s ≠ Holding c) → holders c m = 0.
Proof.
  intros H. unfold holders. replace (filter _ m) with (∅ : gmap Z (Send A)); [done|].
  symmetry. apply map_empty. intros i. apply map_lookup_filter_None. destruct (m !! i) as [s|] eqn:Hi; [|by left].
  right. intros s' [= <-]. by apply (H i).
Qed.

(** A step of one call that changes at most one channel, by as many permits as
    the call gained. *)
Lemma chans_ok_update w w' i s st (f : Chan A → Chan A) c d :
  chans_ok w → sends w !! i = Some s → sends w' = sends (set_state i st w) → chans w' = alter f c (chans w) →
  (∀ c', holds st c' - holds (state s) c' = if decide (c' = c) then d else 0) →
  (∀ ch, chans w !! c = Some ch →
     reserved (f ch) = reserved ch + d
     ∧ (zlen (queue ch) + reserved ch <= capacity ch → zlen (queue (f ch)) + reserved (f ch) <= capacity (f ch))) →
  (∀ c', st = Holding c' → is_Some (chans w !! c')) →
  chans_ok w'.
Proof.
  intros [H1 H2] Hi Es Ec Hd Hf Hst. split; rewrite Es, Ec.
  - intros c' ch' Hch'. cbn. rewrite (holders_alter c' _ i s st Hi). specialize (Hd c').
    destruct (decide (c' = c)) as [->|Hne].
    + rewrite lookup_alter_eq in Hch'. apply fmap_Some in Hch' as (ch & Hch & ->).
      destruct (H1 c ch Hch) as [Hr Hq], (Hf ch Hch) as [Hfr Hfq]. split; [lia|auto].
    + rewrite lookup_alter_ne in Hch' by done. destruct (H1 c' ch' Hch') as [Hr Hq]. split; [lia|done].
  - intros j s' c' Hj Hs'. cbn in Hj. assert (is_Some (chans w !! c')) as [ch Hch].
    { destruct (decide (j = i)) as [->|].
      - rewrite lookup_alter_eq, Hi in Hj. cbn in Hj. injection Hj as <-. by apply Hst.
      - rewrite lookup_alter_ne in Hj by done. by apply (H2 j s'). }
    destruct (decide (c = c')) as [->|]; [rewrite lookup_alter_eq, Hch; by eexists|].
    rewrite lookup_alter_ne, Hch by done. by eexists.
Qed.

(** A call that holds no permit before and after. *)
Lemma chans_ok_state w i s st :
  chans_ok w → sends w !! i = Some s → (∀ c, state s ≠ Holding c) → (∀ c, st ≠ Holding c) →
  chans_ok (set_state i st w).
Proof.
  intros Hok Hi Hs Hst. eapply (chans_ok_update w _ i s st (fun x => x) 0 0); try done.
  - cbn. symmetry. apply alter_id. done.
  - intros c'. unfold holds. rewrite !decide_False by done. by case_decide.
  - intros ch _. split; [lia|done].
  - intros c' ->. by destruct (Hst c').
Qed.

(** A call that uses or gives back the permit it holds. *)
Lemma chans_ok_release w w' i s c st f :
  chans_ok w → sends w !! i = Some s → state s = Holding c → (∀ c', st ≠ Holding c') →
  sends w' = sends (set_state i st w) → chans w' = alter f c (chans w) →
  (∀ ch, reserved (f ch) = reserved ch - 1 ∧ capacity (f ch) = capacity ch
         ∧ zlen (queue (f ch)) <= zlen (queue ch) + 1) →
  chans_ok w'.
Proof.
  intros Hok Hi Hs Hst Es Ec Hf. eapply (chans_ok_update w w' i s st f c (-1)); try done.
  - intros c'. unfold holds. rewrite Hs. destruct (decide (st = Holding c')) as [E|_]; [by destruct (Hst c')|].
    destruct (decide (Holding c = Holding c')), (decide (c' = c)); congruence || lia.
  - intros ch _. destruct (Hf ch) as (? & ? & ?). split; lia.
  - intros c' E. by destruct (Hst c').
Qed.

Lemma chans_ok_send i w w' : send_step i w w' → chans_ok w → chans_ok w'.
Proof.
  intros Hs Hok.
  destruct Hs as [s Hs Hst|s c x n ch Hs Hst Hc Hcl Hroom|s c x n ch Hs Hst|s c x n wt Hs Hst|s c x n wt Hs Hst|s c Hs Hst|s Hs Hst].
  - unfold send_lookup. repeat case_match; apply (chans_ok_state w i s); try done; by rewrite Hst.
  - eapply (chans_ok_update w _ i s (Holding c) (add_reserved 1) c 1); try done.
    + intros c'. unfold holds. rewrite Hst. destruct (decide (Waiting c x n = Holding c')); [done|].
      destruct (decide (Holding c = Holding c')), (decide (c' = c)); congruence || lia.
    + intros ch' Hc'. rewrite Hc in Hc'. injection Hc' as <-. unfold has_room in Hroom. bool_prop. cbn. lia.
    + intros c' [= <-]. by rewrite Hc.
  - unfold send_closed. repeat case_match; apply (chans_ok_state w i s); try done; by rewrite Hst.
  - apply (chans_ok_state w i s); try done; by rewrite Hst.
  - apply (chans_ok_state w i s); try done; by rewrite Hst.
  - unfold send_commit. repeat case_match;
      (eapply (chans_ok_release w _ i s c); [done..| | | |]; [|reflexivity|reflexivity|]; [done|];
       intros ch; cbn; rewrite ?zlen_app; unfold zlen; cbn; lia).
  - unfold send_timeout. destruct (state s) as [|c x n|c|r] eqn:E; [..|by destruct (Hst r)].
    + apply (chans_ok_state w i s); try done; by rewrite E.
    + apply (chans_ok_state w i s); try done; by rewrite E.
    + eapply (chans_ok_release w _ i s c); [done..| | | |]; [|reflexivity|reflexivity|]; [done|].
      intros ch. cbn. unfold zlen. lia.
Qed.

Lemma chans_ok_step w w' : step w w' → chans_ok w → chans_ok w'.
Proof.
  intros Hs Hok. pose proof Hok as [H1 H2].
  destruct Hs as [a c x Hc Hx|a oc|a|a Ha|rs Hrs|c n Hc Hn|c ch v q Hc Hq|c ch Hc|i a v Hi|i w' Hs].
  - unfold register. case_bool_decide; [done|]. cbn. by destruct (senders w !! a).
  - unfold unregister. destruct (senders w !! a); [|done]. destruct oc; [|done]. by case_match.
  - done.
  - unfold disconnect_remove. by case_match.
  - done.
  - split; cbn.
    + intros c' ch'. destruct (decide (c' = c)) as [->|]; [rewrite lookup_insert_eq|rewrite lookup_insert_ne by done; apply H1].
      intros [= <-]. cbn. rewrite holders_zero; [split; [done|unfold zlen; cbn; lia]|].
      intros i s Hi E. destruct (H2 i s c Hi E) as [ch Hch]. congruence.
    + intros i s c' Hi E. destruct (H2 i s c' Hi E) as [ch Hch]. rewrite lookup_insert_ne by congruence. by eexists.
  - split; cbn.
    + intros c' ch'. destruct (decide (c' = c)) as [->|]; [rewrite lookup_insert_eq|rewrite lookup_insert_ne by done; apply H1].
      intros [= <-]. cbn. destruct (H1 c ch Hc) as [-> Hle]. rewrite Hq in Hle. unfold zlen in *. cbn in Hle. lia.
    + intros i s c' Hi E. destruct (decide (c' = c)) as [->|]; [rewrite lookup_insert_eq; by eexists|].
      rewrite lookup_insert_ne by done. by apply (H2 i s).
  - split; cbn.
    + intros c' ch'. destruct (decide (c' = c)) as [->|]; [rewrite lookup_insert_eq|rewrite lookup_insert_ne by done; apply H1].
      intros [= <-]. cbn. by apply H1.
    + intros i s c' Hi E. destruct (decide (c' = c)) as [->|]; [rewrite lookup_insert_eq; by eexists|].
      rewrite lookup_insert_ne by done. by apply (H2 i s).
  - split; cbn.
    + intros c' ch' Hc'. rewrite holders_insert by done. cbn. destruct (H1 c' ch' Hc'). unfold holds.
      rewrite decide_False by done. lia.
    + intros j s c' Hj E. destruct (decide (j = i)) as [->|].
      * rewrite lookup_insert_eq in Hj. injection Hj as <-. done.
      * rewrite lookup_insert_ne in Hj by done. by apply (H2 j s).
  - by eapply chans_ok_send.
Qed.

(** permits are accounted for: in every reachable state, the permits a
    stream has handed out are exactly the sends that hold one, whether they
    committed, gave up, timed out or found their stream replaced; so a stream
    never holds more messages and permits than its capacity, and no permit
    leaks. *)
Theorem permits_accounted w c ch :
  reachable w → chans w !! c = Some ch →
  reserved ch = holders c (sends w) ∧ zlen (queue ch) + reserved ch <= capacity ch.
Proof.
  intros Hr. assert (chans_ok w) as [H _]; [|apply H].
  unfold reachable in Hr. revert w Hr. refine (rtc_ind_r _ _ _ _).
  - split; cbn [chans sends new_registry]; intros *; by rewrite lookup_empty.
  - intros u w _ Hs. by apply chans_ok_step.
Qed.
End proofs.

(** ** Witnesses *)

(** Agent 7 registers stream 1; call 0 sends to it; call 1 waits behind it,
    the stream having room for one message; then stream 2 replaces stream 1. *)
Definition chan0 : Chan Z := {| capacity := 1; queue := []; reserved := 0; closed := false |}.
Definition r0 : Registry Z := set_chans <[1 := chan0]> new_registry.
Definition r1 : Registry Z := set_chans <[2 := chan0]> r0.
Definition r2 : Registry Z := (register 7 1 100 r1).1.
Definition call0 (i v : Z) (w : Registry Z) : Registry Z :=
  {| senders := senders w; revoked := revoked w; watches := watches w; chans := chans w;
     sends := <[i := {| target := 7; value := v; state := Lookup |}]> (sends w); log := log w; departing := departing w |}.
Definition send0 (i : Z) (w : Registry Z) : Send Z :=
  default {| target := 0; value := 0; state := Lookup |} (sends w !! i).
Definition r3 : Registry Z := call0 0 55 r2.
Definition r4 : Registry Z := send_lookup 0 (send0 0 r3) r3.
Definition r5 : Registry Z := set_chans (alter (add_reserved 1) 1) (set_state 0 (Holding 1) r4).
Definition r6 : Registry Z := send_commit 0 (send0 0 r5) 1 r5.
Definition r7 : Registry Z := call0 1 66 r6.
Definition r8 : Registry Z := send_lookup 1 (send0 1 r7) r7.
Definition r9 : Registry Z := (register 7 2 101 r8).1.

Lemma r9_reachable : reachable r6 ∧ rtc step r6 r9.
Proof.
  split.
  - apply (rtc_l _ _ r0); [apply step_new_chan; [reflexivity|lia]|].
    apply (rtc_l _ _ r1); [apply step_new_chan; [reflexivity|lia]|].
    apply (rtc_l _ _ r2); [apply step_register; [by eexists|reflexivity]|].
    apply (rtc_l _ _ r3); [apply step_call; reflexivity|].
    apply (rtc_l _ _ r4); [apply step_send with 0, step_lookup; reflexivity|].
    apply (rtc_l _ _ r5); [eapply step_send with 0, step_reserved; reflexivity|].
    apply (rtc_l _ _ r6); [apply step_send with 0, step_commit; reflexivity|]. apply rtc_refl.
  - apply (rtc_l _ _ r7); [apply step_call; reflexivity|].
    apply (rtc_l _ _ r8); [apply step_send with 1, step_lookup; reflexivity|].
    apply (rtc_l _ _ r9); [apply step_register; [by eexists|reflexivity]|]. apply rtc_refl.
Qed.

Lemma r9_reach : reachable r9.
Proof. destruct r9_reachable. unfold reachable; etrans; eassumption. Qed.

(** Agent 7 is revoked while call 1 waits: its stream is gone, and the disconnect
    has not signalled yet. *)
Definition r10 : Registry Z := disconnect_remove 7 (disconnect_revoke 7 r8).
Lemma r10_reach : reachable r10.
Proof.
  destruct r9_reachable as [H6 _]. unfold reachable. etrans; [exact H6|].
  apply (rtc_l _ _ r7); [apply step_call; reflexivity|].
  apply (rtc_l _ _ r8); [apply step_send with 1, step_lookup; reflexivity|].
  apply (rtc_l _ _ (disconnect_revoke 7 r8)); [apply step_revoke|].
  apply (rtc_l _ _ r10); [apply step_remove; cbn; set_solver|]. apply rtc_refl.
Qed.

Lemma no_lost_wakeup_witness :
  senders r10 !! 7 = None ∧ (senders r10 !! 7 = Some {| sender := 1; changes := 100 |}
   ∨ send_step 1 r10 (set_state 1 Lookup r10)
   ∨ 100 ∈ departing r10 ∧ 7 ∈ revoked r10 ∧
     let w' := disconnect_notify {| sender := 1; changes := 100 |} r10 in step r10 w' ∧ send_step 1 w' (set_state 1 Lookup w')).
Proof.
  split; [reflexivity|].
  exact (proj1 (no_lost_wakeup r10 1 (send0 1 r10) 1 100 0 r10_reach ltac:(reflexivity) ltac:(reflexivity))).
Defined.

Lemma revocation_final_witness :
  sent_to 7 (log (disconnect_remove 7 (disconnect_revoke 7 r9))) = [(0, 7, 1)].
Proof.
  refine (eq_trans (proj1 (proj2 (revocation_final (disconnect_revoke 7 r9)
    (disconnect_remove 7 (disconnect_revoke 7 r9)) 7 _ _))) _).
  - apply rtc_once, step_remove. cbn. set_solver.
  - cbn. set_solver.
  - reflexivity.
Defined.

End RegistryProofs.
