(* ===== verification/IoStreams.v ===== *)
(** * IoStreams: subscriptions to Agent I/O, and waiters for task results

    Models the second half of [crates/server/src/grpc/session.rs]:
    [IoRegistry] (which handler receives the frames of which stream),
    [TaskResponseRegistry] (which request waits for which task result), the
    validity checks on what an Agent sends, and the truncation of its output.
    The streams a registry sends to are those of [Registry]; here an Agent's
    stream is the identity of its channel. Each operation is split where it
    releases a lock: subscriptions are taken out under the locks and told so
    after them, and a delivery finds its subscriber before it sends. *)

From S2P Require Import Prelude Text Externals.

Module IoStreams.

Definition IO_STREAM_CLOSED_CODE : rstr := lit "agent_io_stream_closed".
Definition MAX_IO_STREAM_ID_BYTES : Z := 128.
Definition MAX_IO_FRAME_DATA_BYTES : Z := 1024 * 1024.
Definition MAX_IO_CONTROL_TEXT_BYTES : Z := 4096.
Definition MAX_TASK_ID_BYTES : Z := 128.
Definition MAX_PENDING_TASK_WAITERS : Z := 4096.
Definition MAX_ACTIVE_IO_STREAMS : Z := 1024.

(** ** Messages *)

Inductive Payload : Type :=
| Data (data : list Z)
| Close (reason : rstr)
| Error (code message : rstr).

Record IoFrame := { stream_id : rstr; sequence : Z; f_agent_id : rstr; payload : option Payload }.

Record TaskResult := {
  t_task_id : rstr; status : Z; exit_code : Z; stdout : rstr; stderr : rstr; error : rstr;
  started_at : Z; finished_at : Z; t_agent_id : rstr;
}.

(** [result.agent_id = ..] and [result.stdout = ..; ..]. *)
Definition set_result_agent (a : rstr) (r : TaskResult) : TaskResult :=
  {| t_task_id := t_task_id r; status := status r; exit_code := exit_code r; stdout := stdout r;
     stderr := stderr r; error := error r; started_at := started_at r; finished_at := finished_at r;
     t_agent_id := a |}.
Definition set_result_text (out err msg : rstr) (r : TaskResult) : TaskResult :=
  {| t_task_id := t_task_id r; status := status r; exit_code := exit_code r; stdout := out;
     stderr := err; error := msg; started_at := started_at r; finished_at := finished_at r;
     t_agent_id := t_agent_id r |}.

(** ** Checks on what an Agent sends *)

Definition valid_id (max : Z) (s : rstr) : bool :=
  negb (is_empty s) && (byte_len s <=? max) && negb (existsb is_control s).
Definition valid_io_stream_id (s : rstr) : bool := valid_id MAX_IO_STREAM_ID_BYTES s.
Definition valid_task_id (s : rstr) : bool := valid_id MAX_TASK_ID_BYTES s.

Section checks.
Context `{UuidLib}.

Definition valid_io_frame_from_agent (agent_id : Z) (frame : IoFrame) : bool :=
  if negb (valid_io_stream_id (stream_id frame)) then false else
  if negb (is_empty (f_agent_id frame)) && negb (bool_decide (f_agent_id frame = uuid_to_string agent_id))
  then false else
  match payload frame with
  | Some (Data data) => zlen data <=? MAX_IO_FRAME_DATA_BYTES
  | Some (Close reason) => byte_len reason <=? MAX_IO_CONTROL_TEXT_BYTES
  | Some (Error code message) =>
      (byte_len code <=? MAX_IO_STREAM_ID_BYTES) && (byte_len message <=? MAX_IO_CONTROL_TEXT_BYTES)
  | None => true
  end.

Definition valid_task_result_from_agent (agent_id : Z) (task_id : rstr) (result : TaskResult) : bool :=
  if negb (valid_task_id task_id) then false else
  if negb (is_empty (t_task_id result)) && negb (bool_decide (t_task_id result = task_id)) then false else
  if negb (is_empty (t_agent_id result)) && negb (bool_decide (t_agent_id result = uuid_to_string agent_id))
  then false else true.

(** ** [IoRegistry] *)

(** The receiving end of a subscription: the frames waiting in it. *)
Record Inbox := { frames : list IoFrame; is_closed : bool }.
Definition SUBSCRIBER_CAPACITY : Z := 128.

Record IoSubscriber := { agent_id : Z; sender : Z; changes : Z }.

(** A delivery that has found its subscriber and is about to send. *)
Record Delivery := { d_agent : Z; d_frame : IoFrame; d_sender : Z; d_changes : Z }.

Record IoRegistry := {
  agent_streams : gmap Z Z;                      (** the channel of each Agent's stream *)
  stream_subscribers : gmap rstr IoSubscriber;
  revoked_agents : gset Z;
  notified : gset Z;                             (** watches of [notify_closed] *)
  inboxes : gmap Z Inbox;
  closing : list (list (rstr * IoSubscriber) * Z * rstr);
                                                 (** subscriptions that were taken out and are not
                                                     told yet, with the Agent and the reason *)
  deliveries : gmap Z Delivery;
  delivered : list (Z * Z * IoFrame);            (** Agent, inbox and frame of each delivery *)
}.

Implicit Types (r : IoRegistry) (a c x d : Z) (sid : rstr).

Definition new_io_registry : IoRegistry :=
  {| agent_streams := ∅; stream_subscribers := ∅; revoked_agents := ∅; notified := ∅; inboxes := ∅; closing := [];
     deliveries := ∅; delivered := [] |}.

Definition set_streams f r : IoRegistry :=
  {| agent_streams := f (agent_streams r); stream_subscribers := stream_subscribers r;
     revoked_agents := revoked_agents r; notified := notified r; inboxes := inboxes r; closing := closing r;
     deliveries := deliveries r; delivered := delivered r |}.
(** Replaces the subscriptions, signalling the watches of those in [gone]. *)
Definition set_subscribers (subs : gmap rstr IoSubscriber) (gone : list IoSubscriber) r : IoRegistry :=
  {| agent_streams := agent_streams r; stream_subscribers := subs;
     revoked_agents := revoked_agents r; notified := list_to_set (changes <$> gone) ∪ notified r;
     inboxes := inboxes r; closing := closing r; deliveries := deliveries r; delivered := delivered r |}.
Definition set_inboxes f r : IoRegistry :=
  {| agent_streams := agent_streams r; stream_subscribers := stream_subscribers r;
     revoked_agents := revoked_agents r; notified := notified r; inboxes := f (inboxes r); closing := closing r;
     deliveries := deliveries r; delivered := delivered r |}.
Definition set_deliveries f r : IoRegistry :=
  {| agent_streams := agent_streams r; stream_subscribers := stream_subscribers r;
     revoked_agents := revoked_agents r; notified := notified r; inboxes := inboxes r; closing := closing r;
     deliveries := f (deliveries r); delivered := delivered r |}.
Definition set_closing f r : IoRegistry :=
  {| agent_streams := agent_streams r; stream_subscribers := stream_subscribers r;
     revoked_agents := revoked_agents r; notified := notified r; inboxes := inboxes r; closing := f (closing r);
     deliveries := deliveries r; delivered := delivered r |}.

(** [sender.is_closed()]. *)
Definition sender_closed r c : bool :=
  match inboxes r !! c with Some i => is_closed i | None => true end.

(** The subscribers that satisfy a test, and the map without them. *)
Definition subs_where (P : IoSubscriber → bool) (m : gmap rstr IoSubscriber) : list (rstr * IoSubscriber) :=
  map_to_list (filter (fun p => P p.2 = true) m).
Definition subs_without (P : IoSubscriber → bool) (m : gmap rstr IoSubscriber) : gmap rstr IoSubscriber :=
  filter (fun p => P p.2 = false) m.

Definition prune_closed_io_subscribers r : IoRegistry :=
  let dead s := sender_closed r (sender s) in
  set_subscribers (subs_without dead (stream_subscribers r)) (snd <$> subs_where dead (stream_subscribers r)) r.

(** The subscriptions to the Agent's streams, and the registry without them. *)
Definition take_agent_subscribers a r : list (rstr * IoSubscriber) * IoRegistry :=
  let mine s := agent_id s =? a in
  (subs_where mine (stream_subscribers r), set_subscribers (subs_without mine (stream_subscribers r)) [] r).

(** [try_send]: only when there is room and the receiver is alive. *)
Definition try_send c (frame : IoFrame) (m : gmap Z Inbox) : gmap Z Inbox :=
  alter (fun i => if is_closed i || (SUBSCRIBER_CAPACITY <=? zlen (frames i)) then i
                  else {| frames := frames i ++ [frame]; is_closed := is_closed i |}) c m.

(** Signals the watches of the subscriptions that were taken out, and tries to
    send each a last frame. *)
Definition notify_closed_subscribers (closed : list (rstr * IoSubscriber)) a (reason : rstr) r : IoRegistry :=
  set_inboxes (fun m => foldl (fun m '(sid, s) =>
    try_send (sender s) {| stream_id := sid; sequence := 0; f_agent_id := uuid_to_string a;
                           payload := Some (Error IO_STREAM_CLOSED_CODE reason) |} m) m closed)
    (set_subscribers (stream_subscribers r) (snd <$> closed) r).

(** [register_agent], [unregister_agent] and [disconnect_agent] up to the release
    of the locks: [None] when the call ends there, otherwise the subscriptions
    that [notify_closed_subscribers] is then called with. *)
Definition REPLACED : rstr := lit "Agent IO stream was replaced".
Definition DISCONNECTED : rstr := lit "Agent IO stream disconnected".
Definition REVOKED : rstr := lit "Agent was revoked".

Definition register_agent a c r : IoRegistry * option (list (rstr * IoSubscriber)) :=
  if bool_decide (a ∈ revoked_agents r) then (r, None) else
  let previous := agent_streams r !! a in
  let r := set_streams <[a := c]> r in
  match previous with
  | Some _ => let '(closed, r) := take_agent_subscribers a r in (r, Some closed)
  | None => (r, Some [])
  end.

Definition unregister_agent a (c : option Z) r : IoRegistry * option (list (rstr * IoSubscriber)) :=
  let is_current := match agent_streams r !! a, c with
                    | Some current, Some c => current =? c
                    | _, _ => false
                    end in
  if is_current
  then let '(closed, r) := take_agent_subscribers a (set_streams (delete a) r) in (r, Some closed)
  else (r, None).

(** [disconnect_agent] takes two locks in turn. *)
Definition disconnect_agent_revoke a r : IoRegistry :=
  {| agent_streams := agent_streams r; stream_subscribers := stream_subscribers r;
     revoked_agents := {[a]} ∪ revoked_agents r; notified := notified r; inboxes := inboxes r; closing := closing r;
     deliveries := deliveries r; delivered := delivered r |}.
Definition disconnect_agent_remove a r : IoRegistry * list (rstr * IoSubscriber) :=
  let '(closed, r) := take_agent_subscribers a (set_streams (delete a) r) in (r, closed).

(** [subscribe_stream], with the identities of the new inbox and watch. The
    inbox of a refused subscription is dropped with its sender, so its receiver
    reads the end of the stream at once. *)
Definition subscribe_stream sid a c x r : IoRegistry :=
  if negb (valid_io_stream_id sid) then r else
  if bool_decide (a ∈ revoked_agents r) then r else
  if negb (bool_decide (is_Some (agent_streams r !! a))) then r else
  let r := prune_closed_io_subscribers r in
  let insert (gone : list IoSubscriber) :=
    set_inboxes <[c := {| frames := []; is_closed := false |}]>
      (set_subscribers (<[sid := {| agent_id := a; sender := c; changes := x |}]> (stream_subscribers r)) gone r) in
  match stream_subscribers r !! sid with
  | Some existing => if negb (agent_id existing =? a) then r else insert [existing]
  | None => if MAX_ACTIVE_IO_STREAMS <=? Z.of_nat (size (stream_subscribers r)) then r else insert []
  end.

Definition unsubscribe_stream sid r : IoRegistry :=
  let r := prune_closed_io_subscribers r in
  match stream_subscribers r !! sid with
  | Some s => set_subscribers (delete sid (stream_subscribers r)) [s] r
  | None => r
  end.

Definition is_agent_online a r : bool := bool_decide (is_Some (agent_streams r !! a)).

(** The checks of [send_to_agent] before the send of [Registry]. *)
Inductive IoSendError : Type := AgentMismatch | StreamBoundElsewhere.
Definition send_to_agent_check a (frame : IoFrame) r : result IoSendError unit :=
  if negb (is_empty (f_agent_id frame)) && negb (bool_decide (f_agent_id frame = uuid_to_string a))
  then Err AgentMismatch else
  if is_empty (stream_id frame) then Ok () else
  match stream_subscribers r !! stream_id frame with
  | Some s => if negb (sender_closed r (sender s)) && negb (agent_id s =? a)
              then Err StreamBoundElsewhere else Ok ()
  | None => Ok ()
  end.

(** [deliver_from_agent] up to the send: the frame is stamped with the sender's
    identity and its subscriber looked up. [None] is the early [return false]. *)
Definition deliver_lookup a (frame : IoFrame) r : option Delivery :=
  if negb (valid_io_frame_from_agent a frame) then None else
  let frame := {| stream_id := stream_id frame; sequence := sequence frame;
                  f_agent_id := uuid_to_string a; payload := payload frame |} in
  match stream_subscribers r !! stream_id frame with
  | Some s => if (agent_id s =? a) && negb (sender_closed r (sender s))
              then Some {| d_agent := a; d_frame := frame; d_sender := sender s; d_changes := changes s |}
              else None
  | None => None
  end.

Definition deliver_start d (del : Delivery) r : IoRegistry := set_deliveries <[d := del]> r.

(** The biased [select!]: the send wins only if no change was signalled, the
    receiver is alive and there is room. *)
Definition can_deliver (del : Delivery) r : bool :=
  negb (bool_decide (d_changes del ∈ notified r)) &&
  match inboxes r !! d_sender del with
  | Some i => negb (is_closed i) && (zlen (frames i) <? SUBSCRIBER_CAPACITY)
  | None => false
  end.
Definition hand_over (del : Delivery) r : IoRegistry :=
  {| agent_streams := agent_streams r; stream_subscribers := stream_subscribers r;
     revoked_agents := revoked_agents r; notified := notified r;
     inboxes := alter (fun i => {| frames := frames i ++ [d_frame del]; is_closed := is_closed i |}) (d_sender del) (inboxes r);
     closing := closing r; deliveries := deliveries r; delivered := delivered r ++ [(d_agent del, d_sender del, d_frame del)] |}.
Definition deliver_commit d (del : Delivery) r : IoRegistry := hand_over del (set_deliveries (delete d) r).
(** A change, a closed receiver, or the timeout. *)
Definition deliver_abandon d r : IoRegistry := set_deliveries (delete d) r.

(** An operation that took subscriptions out has still to tell them. *)
Definition still_to_tell a reason (res : IoRegistry * option (list (rstr * IoSubscriber))) : IoRegistry :=
  match res.2 with Some closed => set_closing (fun l => l ++ [(closed, a, reason)]) res.1 | None => res.1 end.

Inductive io_step r : IoRegistry → Prop :=
| io_register a c : io_step r (still_to_tell a REPLACED (register_agent a c r))
| io_unregister a (oc : option Z) : io_step r (still_to_tell a DISCONNECTED (unregister_agent a oc r))
| io_revoke a : io_step r (disconnect_agent_revoke a r)
| io_remove a : a ∈ revoked_agents r → io_step r (still_to_tell a REVOKED (prod_map id Some (disconnect_agent_remove a r)))
| io_notify closed a reason l1 l2 :
    closing r = l1 ++ (closed, a, reason) :: l2 →
    io_step r (notify_closed_subscribers closed a reason (set_closing (fun _ => l1 ++ l2) r))
| io_prune : io_step r (prune_closed_io_subscribers r)
| io_subscribe sid a c x :
    inboxes r !! c = None → x ∉ notified r →
    (∀ s sub, stream_subscribers r !! s = Some sub → changes sub ≠ x) →
    (∀ d del, deliveries r !! d = Some del → d_changes del ≠ x) →
    (∀ t sub, t ∈ closing r → sub ∈ t.1.1.*2 → changes sub ≠ x) →
    io_step r (subscribe_stream sid a c x r)
| io_unsubscribe sid : io_step r (unsubscribe_stream sid r)
| io_close c i :
    inboxes r !! c = Some i →
    io_step r (set_inboxes <[c := {| frames := frames i; is_closed := true |}]> r)
| io_recv c i f l :
    inboxes r !! c = Some i → frames i = f :: l →
    io_step r (set_inboxes <[c := {| frames := l; is_closed := is_closed i |}]> r)
| io_deliver_start d a frame del :
    deliveries r !! d = None → deliver_lookup a frame r = Some del → io_step r (deliver_start d del r)
| io_deliver_commit d del :
    deliveries r !! d = Some del → can_deliver del r = true → io_step r (deliver_commit d del r)
| io_deliver_abandon d del :
    deliveries r !! d = Some del → io_step r (deliver_abandon d r).

Definition io_reachable r : Prop := rtc io_step new_io_registry r.
End checks.

(** ** [TaskResponseRegistry] *)

(** A waiter: the Agent whose result it waits for, and the identity of its
    registration (the [Arc] and the one-shot channel created with it). *)
Record PendingTaskResponse := { w_agent : Z; registration : Z }.

Record TaskResponseRegistry := {
  pending : gmap rstr PendingTaskResponse;
  dropped : gset Z;                     (** registrations whose receiver is gone *)
  answered : list (Z * TaskResult);     (** results handed to a waiter *)
}.

Definition new_task_registry : TaskResponseRegistry :=
  {| pending := ∅; dropped := ∅; answered := [] |}.

Section tasks.
Context `{UuidLib}.
Implicit Types (t : TaskResponseRegistry) (a g : Z) (task_id : rstr).

Definition set_pending f t : TaskResponseRegistry :=
  {| pending := f (pending t); dropped := dropped t; answered := answered t |}.

Definition prune_closed_task_waiters t : TaskResponseRegistry :=
  set_pending (filter (fun p => registration p.2 ∉ dropped t)) t.

(** [register], with the identity [g] of the new registration. *)
Definition task_register task_id a g t : TaskResponseRegistry :=
  if negb (valid_task_id task_id) then t else
  let t := prune_closed_task_waiters t in
  let can_insert := match pending t !! task_id with
                    | Some existing => w_agent existing =? a
                    | None => Z.of_nat (size (pending t)) <? MAX_PENDING_TASK_WAITERS
                    end in
  if can_insert then set_pending <[task_id := {| w_agent := a; registration := g |}]> t else t.

Definition task_deliver a task_id (result : TaskResult) t : TaskResponseRegistry * bool :=
  if negb (valid_task_result_from_agent a task_id result) then (t, false) else
  let result := set_result_agent (uuid_to_string a) result in
  let t := prune_closed_task_waiters t in
  match pending t !! task_id with
  | None => (t, false)
  | Some waiter =>
      if negb (w_agent waiter =? a) then (t, false)
      else
        let t := set_pending (delete task_id) t in
        if bool_decide (registration waiter ∈ dropped t) then (t, false)
        else ({| pending := pending t; dropped := dropped t;
                 answered := answered t ++ [(registration waiter, result)] |}, true)
  end.

Definition task_cancel task_id t : TaskResponseRegistry :=
  set_pending (delete task_id) (prune_closed_task_waiters t).

(** [Drop for TaskResponseReceiver]: removes the entry only if it is this
    receiver's own, then the channel is closed. *)
Definition task_drop task_id g t : TaskResponseRegistry :=
  let owns_registration := match pending t !! task_id with
                           | Some entry => registration entry =? g
                           | None => false
                           end in
  let t := if owns_registration then set_pending (delete task_id) t else t in
  {| pending := pending t; dropped := {[g]} ∪ dropped t; answered := answered t |}.

Inductive task_step t : TaskResponseRegistry → Prop :=
| task_do_register task_id a g :
    g ∉ dropped t → (∀ k p, pending t !! k = Some p → registration p ≠ g) →
    g ∉ (fst <$> answered t) → task_step t (task_register task_id a g t)
| task_do_deliver a task_id r : task_step t (task_deliver a task_id r t).1
| task_do_cancel task_id : task_step t (task_cancel task_id t)
| task_do_drop task_id g : task_step t (task_drop task_id g t).

Definition task_reachable t : Prop := rtc task_step new_task_registry t.
End tasks.

(** ** Output limits *)

(** The prefix of [s] of exactly [n] bytes, if [n] is a character boundary. *)
Fixpoint prefix_bytes (s : rstr) (n : Z) : option rstr :=
  if n =? 0 then Some [] else
  match s with
  | [] => None
  | c :: s => if n <? len_utf8 c then None else cons c <$> prefix_bytes s (n - len_utf8 c)
  end.
Definition is_char_boundary (s : rstr) (n : Z) : bool :=
  match prefix_bytes s n with Some _ => true | None => false end.

(** [while end > 0 && !value.is_char_boundary(end) { end -= 1 }], counting down
    from [end]. *)
Fixpoint back_to_boundary (s : rstr) (n : nat) : nat :=
  match n with
  | O => O
  | S m => if is_char_boundary s (Z.of_nat n) then n else back_to_boundary s m
  end.

Definition truncate_utf8_to_bytes (value : rstr) (max_bytes : Z) : rstr * bool :=
  if byte_len value <=? max_bytes then (value, false)
  else if max_bytes =? 0 then ([], true)
  else let end_ := back_to_boundary value (Z.to_nat max_bytes) in
       (default [] (prefix_bytes value (Z.of_nat end_)), true).

Definition truncate_task_result_text (r : TaskResult) (stdout_max stderr_max error_max : Z)
    : TaskResult * (bool * bool * bool) :=
  let '(out, out_t) := truncate_utf8_to_bytes (stdout r) stdout_max in
  let '(err, err_t) := truncate_utf8_to_bytes (stderr r) stderr_max in
  let '(msg, msg_t) := truncate_utf8_to_bytes (error r) error_max in
  (set_result_text out err msg r, (out_t, err_t, msg_t)).

Inductive TextTooLong : Type := StdoutTooLong | StderrTooLong | ErrorTooLong.
Definition ensure_task_result_text_within (r : TaskResult) (stdout_max stderr_max error_max : Z)
    : result TextTooLong unit :=
  if stdout_max <? byte_len (stdout r) then Err StdoutTooLong
  else if stderr_max <? byte_len (stderr r) then Err StderrTooLong
  else if error_max <? byte_len (error r) then Err ErrorTooLong
  else Ok ().

Definition base64_encoded_len (decoded_len : Z) : Z :=
  let full := decoded_len / 3 in
  let rem := decoded_len mod 3 in
  saturating_add usize_max (Z.min usize_max (full * 4)) (if rem =? 0 then 0 else 4).

End IoStreams.
