(* ===== verification/IoStreamsProofs.v ===== *)
(** * IoStreamsProofs: frames and results reach their owner

    Invariants of the I/O registry and of the task waiters, by induction on
    their steps, and the exact behaviour of the output truncation. *)

From S2P Require Import Prelude Text Externals IoStreams.

Module IoStreamsProofs.
Import IoStreams.

Section io.
Context `{UuidLib}.
Implicit Types (r : IoRegistry) (a c x d : Z) (sid : rstr).

(** ** Subscriptions that go away *)

Lemma subs_where_spec P m sid s : (sid, s) ∈ subs_where P m ↔ m !! sid = Some s ∧ P s = true.
Proof. unfold subs_where. rewrite elem_of_map_to_list, map_lookup_filter_Some. done. Qed.

Lemma subs_without_spec P m sid s : subs_without P m !! sid = Some s ↔ m !! sid = Some s ∧ P s = false.
Proof. unfold subs_without. rewrite map_lookup_filter_Some. done. Qed.

(** The registry after some subscriptions, those of [P], were dropped and their
    watches signalled. *)
Record drops (P : IoSubscriber → bool) r r' : Prop := {
  drops_subs sid s : stream_subscribers r' !! sid = Some s ↔ stream_subscribers r !! sid = Some s ∧ P s = false;
  drops_notified x : x ∈ notified r' ↔
    x ∈ notified r ∨ ∃ sid s, stream_subscribers r !! sid = Some s ∧ P s = true ∧ changes s = x;
  drops_deliveries : deliveries r' = deliveries r;
  drops_delivered : delivered r' = delivered r;
  drops_closing : closing r' = closing r;
}.

Lemma drops_set P r : drops P r
  (set_subscribers (subs_without P (stream_subscribers r)) (snd <$> subs_where P (stream_subscribers r)) r).
Proof.
  split; try done; cbn.
  - intros sid s. apply subs_without_spec.
  - intros x. rewrite elem_of_union, elem_of_list_to_set, list_elem_of_fmap. split.
    + intros [(s & -> & ([sid s'] & -> & Hs%subs_where_spec)%list_elem_of_fmap)|]; [|by left]. right. naive_solver.
    + intros [?|(sid & s & Hs & HP & <-)]; [by right|]. left. exists s. split; [done|].
      apply list_elem_of_fmap. exists (sid, s). split; [done|]. by apply subs_where_spec.
Qed.

Lemma drops_prune r : drops (fun s => sender_closed r (sender s)) r (prune_closed_io_subscribers r).
Proof. apply drops_set. Qed.

(** ** The invariant *)

(** The subscription a delivery is headed for: in place, or taken out and not yet
    told. *)
Definition target_of (del : Delivery) : IoSubscriber :=
  {| agent_id := d_agent del; sender := d_sender del; changes := d_changes del |}.
Definition in_place r (del : Delivery) : Prop :=
  stream_subscribers r !! stream_id (d_frame del) = Some (target_of del)
  ∨ ∃ t, t ∈ closing r ∧ (stream_id (d_frame del), target_of del) ∈ t.1.1.

Record io_ok r : Prop := {
  io_bounded : Z.of_nat (size (stream_subscribers r)) <= MAX_ACTIVE_IO_STREAMS;
  io_streams sid s : stream_subscribers r !! sid = Some s → is_Some (agent_streams r !! agent_id s);
  io_fresh sid s : stream_subscribers r !! sid = Some s → changes s ∉ notified r;
  io_unique sid sid' s s' : stream_subscribers r !! sid = Some s → stream_subscribers r !! sid' = Some s' →
    changes s = changes s' → sid = sid';
  io_apart t sid s s' : t ∈ closing r → s' ∈ t.1.1.*2 → stream_subscribers r !! sid = Some s → changes s ≠ changes s';
  io_current d del : deliveries r !! d = Some del → d_changes del ∉ notified r → in_place r del;
  io_stamped d del : deliveries r !! d = Some del → f_agent_id (d_frame del) = uuid_to_string (d_agent del);
}.

Lemma drops_size P r r' : drops P r r' → (size (stream_subscribers r') <= size (stream_subscribers r))%nat.
Proof.
  intros Hd. apply map_subseteq_size, map_subseteq_spec. intros sid s Hs. by apply (drops_subs P r r' Hd).
Qed.

Lemma io_ok_drops P r r' :
  drops P r r' → io_ok r →
  (∀ sid s, stream_subscribers r' !! sid = Some s → is_Some (agent_streams r' !! agent_id s)) → io_ok r'.
Proof.
  intros Hd Hok Hst. pose proof (drops_size P r r' Hd). destruct Hd as [Hs Hn Hdl _ Hcl], Hok as [H1 H2 H3 H4 Ha H5 H6].
  split; [lia|done|..].
  - intros sid s [Hsub HP]%Hs [Hin|(sid' & s' & Hs' & HP' & E)]%Hn; [by apply (H3 sid s)|].
    assert (sid' = sid) as -> by by apply (H4 sid' sid s' s). congruence.
  - intros sid sid' s s' [? _]%Hs [? _]%Hs. by apply H4.
  - intros t sid s s'. rewrite Hcl. intros Ht Hs' [Hsub _]%Hs. by apply (Ha t sid).
  - intros d del. rewrite Hdl. intros Hdel Hx. destruct (H5 d del Hdel) as [Hsub|Hc].
    + intros ?. apply Hx, Hn. by left.
    + left. apply Hs. split; [done|]. apply not_true_iff_false. intros HP. apply Hx, Hn. right. by do 2 eexists.
    + right. by rewrite Hcl.
  - intros d del. rewrite Hdl. apply H6.
Qed.

Lemma prune_ok r : io_ok r → io_ok (prune_closed_io_subscribers r).
Proof.
  intros Hok. apply (io_ok_drops _ r _ (drops_prune r) Hok). intros sid s [Hs _]%(drops_subs _ _ _ (drops_prune r)).
  by apply (io_streams r Hok sid).
Qed.

(** Taking out the subscriptions of one Agent, whatever was done to its stream:
    they wait to be told. *)
Lemma take_ok a reason f r :
  io_ok r → (∀ b, b ≠ a → f (agent_streams r) !! b = agent_streams r !! b) →
  let res := take_agent_subscribers a (set_streams f r) in
  io_ok (set_closing (fun l => l ++ [(res.1, a, reason)]) res.2).
Proof.
  intros [H1 H2 H3 H4 Ha H5 H6] Hf res. split; cbn.
  - etrans; [|exact H1]. apply Nat2Z.inj_le, map_subseteq_size, map_filter_subseteq.
  - intros sid s [Hs Hm]%subs_without_spec. rewrite Hf by (by apply Z.eqb_neq). by apply (H2 sid).
  - intros sid s [Hs _]%subs_without_spec. rewrite union_empty_l_L. by apply (H3 sid).
  - intros sid sid' s s' [? _]%subs_without_spec [? _]%subs_without_spec. by apply H4.
  - intros t sid s s' Ht Hs' [Hs Hm]%subs_without_spec. apply elem_of_app in Ht as [Ht|Ht%list_elem_of_singleton]; [by apply (Ha t sid)|].
    subst t. cbn in Hs'. apply list_elem_of_fmap in Hs' as ([k s0] & -> & [Hs0 Hm0]%subs_where_spec). cbn. intros E.
    assert (sid = k) as -> by by apply (H4 sid k s s0). congruence.
  - intros d del Hd Hx. rewrite union_empty_l_L in Hx. destruct (H5 d del Hd Hx) as [Hs|(t & Ht & Hin)].
    + destruct (agent_id (target_of del) =? a) eqn:Hm; [right|left; by apply subs_without_spec].
      eexists. split; [apply elem_of_app; right; by apply list_elem_of_singleton|]. cbn. by apply subs_where_spec.
    + right. exists t. split; [apply elem_of_app; by left|done].
  - done.
Qed.

Lemma register_ok a c r : io_ok r → io_ok (still_to_tell a REPLACED (register_agent a c r)).
Proof.
  intros Hok. unfold register_agent. case_bool_decide; [done|].
  destruct (agent_streams r !! a) as [c'|] eqn:Ha.
  - apply (take_ok a REPLACED <[a := c]> r Hok). intros b Hb. by rewrite lookup_insert_ne.
  - destruct Hok as [H1 H2 H3 H4 Hap H5 H6]. split; cbn; try done.
    + intros sid s Hs. apply lookup_insert_is_Some'. right. by apply (H2 sid).
    + intros t sid s s' Ht Hs'. apply elem_of_app in Ht as [Ht|Ht%list_elem_of_singleton]; [by apply (Hap t sid)|].
      subst t. by apply not_elem_of_nil in Hs'.
    + intros d del Hd Hx. destruct (H5 d del Hd Hx) as [Hs|(t & Ht & Hin)]; [by left|right].
      exists t. split; [apply elem_of_app; by left|done].
Qed.

Lemma unregister_ok a oc r : io_ok r → io_ok (still_to_tell a DISCONNECTED (unregister_agent a oc r)).
Proof.
  intros Hok. unfold unregister_agent. destruct (agent_streams r !! a); [|done]. destruct oc; [|done].
  case_match; [|done]. apply (take_ok a DISCONNECTED (delete a) r Hok). intros b Hb. by rewrite lookup_delete_ne.
Qed.

(** Telling them: their watches are signalled, and no live subscription has one of
    those. *)
Lemma notify_ok closed a reason l1 l2 r :
  io_ok r → closing r = l1 ++ (closed, a, reason) :: l2 →
  io_ok (notify_closed_subscribers closed a reason (set_closing (fun _ => l1 ++ l2) r)).
Proof.
  intros [H1 H2 H3 H4 Ha H5 H6] Hcl. assert (∀ t, t ∈ l1 ++ l2 → t ∈ closing r) as Hsub by (intros t; rewrite Hcl; set_solver).
  assert ((closed, a, reason) ∈ closing r) as Hin by (rewrite Hcl; set_solver). split; cbn; try done.
  - intros sid s Hs [(s' & E & Hs')%elem_of_list_to_set%list_elem_of_fmap|Hn]%elem_of_union; [|by apply (H3 sid s)].
    by apply (Ha _ sid s s' Hin).
  - intros t sid s s' Ht. apply (Ha t sid), Hsub, Ht.
  - intros d del Hd Hx. apply not_elem_of_union in Hx as [Hx1 Hx2]. destruct (H5 d del Hd Hx2) as [Hs|(t & Ht & Hin')]; [by left|right].
    rewrite Hcl in Ht. apply elem_of_app in Ht as [Ht|[->|Ht]%elem_of_cons].
    + exists t. split; [apply elem_of_app; by left|done].
    + exfalso. apply Hx1. apply elem_of_list_to_set, list_elem_of_fmap. exists (target_of del). split; [done|].
      apply list_elem_of_fmap. exists (stream_id (d_frame del), target_of del). done.
    + exists t. split; [apply elem_of_app; by right|done].
Qed.

(** A new subscription, in a pruned registry. *)
Lemma insert_ok sid a c x gone r :
  io_ok r → is_Some (agent_streams r !! a) → x ∉ notified r →
  (∀ k s, stream_subscribers r !! k = Some s → changes s ≠ x) →
  (∀ d del, deliveries r !! d = Some del → d_changes del ≠ x) →
  (∀ t s, t ∈ closing r → s ∈ t.1.1.*2 → changes s ≠ x) →
  match stream_subscribers r !! sid with
  | Some e => gone = [e]
  | None => gone = [] ∧ Z.of_nat (size (stream_subscribers r)) < MAX_ACTIVE_IO_STREAMS
  end →
  io_ok (set_inboxes <[c := {| frames := []; is_closed := false |}]>
    (set_subscribers (<[sid := {| agent_id := a; sender := c; changes := x |}]> (stream_subscribers r)) gone r)).
Proof.
  intros [H1 H2 H3 H4 Hap H5 H6] Ha Hx Hxs Hxd Hxc Hg.
  assert (∀ y, y ∈ (list_to_set (changes <$> gone) : gset Z) ↔
               ∃ e, stream_subscribers r !! sid = Some e ∧ changes e = y) as Hgone.
  { intros y. rewrite elem_of_list_to_set. destruct (stream_subscribers r !! sid) as [e|].
    - rewrite Hg. cbn. rewrite list_elem_of_singleton. naive_solver.
    - destruct Hg as [-> _]. cbn. split; [intros Hn; by apply not_elem_of_nil in Hn|naive_solver]. }
  assert (∀ k s, k ≠ sid → stream_subscribers r !! k = Some s → changes s ∉ (list_to_set (changes <$> gone) : gset Z)) as Hother.
  { intros k s Hk Hs (e & He & Ee)%Hgone. apply Hk. by apply (H4 k sid s e). }
  split; cbn [stream_subscribers agent_streams notified deliveries closing set_inboxes set_subscribers].
  - destruct (stream_subscribers r !! sid) as [e|] eqn:He.
    + rewrite map_size_insert_Some by done. done.
    + rewrite map_size_insert_None by done. lia.
  - intros k s. destruct (decide (k = sid)) as [->|]; [rewrite lookup_insert_eq; by intros [= <-]|].
    rewrite lookup_insert_ne by done. apply H2.
  - intros k s. destruct (decide (k = sid)) as [->|Hk].
    + rewrite lookup_insert_eq. intros [= <-]. cbn. intros [(e & He & Ee)%Hgone|?]%elem_of_union; [|done].
      by apply (Hxs sid e).
    + rewrite lookup_insert_ne by done. intros Hs [Hn|Hn]%elem_of_union; [by apply (Hother k s)|by apply (H3 k s)].
  - intros k k' s s' Hk Hk' E. destruct (decide (k = sid)) as [->|], (decide (k' = sid)) as [->|]; [done|..].
    + rewrite lookup_insert_eq in Hk. rewrite lookup_insert_ne in Hk' by done. injection Hk as <-. cbn in E.
      by destruct (Hxs k' s').
    + rewrite lookup_insert_eq in Hk'. rewrite lookup_insert_ne in Hk by done. injection Hk' as <-. cbn in E.
      by destruct (Hxs k s).
    + rewrite !lookup_insert_ne in * by done. eauto.
  - intros t k s s' Ht Hs' [[<- <-]|[_ Hs]]%lookup_insert_Some; [cbn; intros E; by apply (Hxc t s')|by apply (Hap t k)].
  - intros d del Hd Hn. apply not_elem_of_union in Hn as [Hn1 Hn2]. destruct (H5 d del Hd Hn2) as [Hs|Hc]; [left|by right].
    cbn. destruct (decide (stream_id (d_frame del) = sid)) as [E|]; [|by rewrite lookup_insert_ne].
    exfalso. apply Hn1, Hgone. rewrite E in Hs. eauto.
  - apply H6.
Qed.

Lemma prune_frame r :
  agent_streams (prune_closed_io_subscribers r) = agent_streams r
  ∧ deliveries (prune_closed_io_subscribers r) = deliveries r
  ∧ revoked_agents (prune_closed_io_subscribers r) = revoked_agents r.
Proof. done. Qed.

Lemma subscribe_ok sid a c x r :
  io_ok r → x ∉ notified r →
  (∀ k s, stream_subscribers r !! k = Some s → changes s ≠ x) →
  (∀ d del, deliveries r !! d = Some del → d_changes del ≠ x) →
  (∀ t s, t ∈ closing r → s ∈ t.1.1.*2 → changes s ≠ x) →
  io_ok (subscribe_stream sid a c x r).
Proof.
  intros Hok Hx Hxs Hxd Hxc. unfold subscribe_stream.
  destruct (valid_io_stream_id sid); cbn [negb]; [|done]. case_bool_decide; [done|].
  case_bool_decide as Ha; cbn [negb]; [|done].
  pose proof (prune_ok r Hok) as Hp. pose proof (drops_prune r) as [Ds Dn _ _ _].
  assert (x ∉ notified (prune_closed_io_subscribers r)) as Hx'.
  { intros [?|(k & s & Hs & _ & E)]%Dn; [done|]. by apply (Hxs k s). }
  assert (∀ k s, stream_subscribers (prune_closed_io_subscribers r) !! k = Some s → changes s ≠ x) as Hxs'.
  { intros k s [Hs _]%Ds. by apply (Hxs k). }
  cbv zeta. destruct (stream_subscribers (prune_closed_io_subscribers r) !! sid) as [e|] eqn:He.
  - destruct (agent_id e =? a); cbn [negb]; [|done]. apply insert_ok; try done. by rewrite He.
  - destruct (Z.leb_spec MAX_ACTIVE_IO_STREAMS (Z.of_nat (size (stream_subscribers (prune_closed_io_subscribers r))))); [done|].
    apply insert_ok; try done. rewrite He. done.
Qed.

Lemma unsubscribe_ok sid r : io_ok r → io_ok (unsubscribe_stream sid r).
Proof.
  intros Hok%prune_ok. unfold unsubscribe_stream. cbv zeta.
  destruct (stream_subscribers (prune_closed_io_subscribers r) !! sid) as [e|] eqn:He; [|done].
  revert Hok He. generalize (prune_closed_io_subscribers r). clear r. intros r Hok He.
  apply (io_ok_drops (fun s => changes s =? changes e) r); [|done|].
  - split; try done; cbn.
    + intros k s. rewrite lookup_delete_Some. split.
      * intros [Hk Hs]. split; [done|]. apply Z.eqb_neq. intros E. apply Hk. symmetry. by apply (io_unique r Hok k sid s e).
      * intros [Hs Hne]. bool_prop. split; [|done]. intros ->. congruence.
    + intros y. split; [intros [?|?]%elem_of_union; [right|by left]|intros [?|(k & s & Hs & E & <-)]; apply elem_of_union; [by right|left]].
      * exists sid, e. rewrite Z.eqb_refl. set_solver.
      * bool_prop. set_solver.
  - cbn. intros k s [_ Hs]%lookup_delete_Some. by apply (io_streams r Hok k).
Qed.

Lemma deliver_lookup_spec a frame r del :
  deliver_lookup a frame r = Some del →
  stream_subscribers r !! stream_id (d_frame del) = Some (target_of del)
  ∧ d_agent del = a ∧ f_agent_id (d_frame del) = uuid_to_string a
  ∧ valid_io_frame_from_agent a frame = true.
Proof.
  unfold deliver_lookup. destruct (valid_io_frame_from_agent a frame); cbn [negb]; [|done].
  cbv zeta. cbn [stream_id]. destruct (stream_subscribers r !! stream_id frame) as [s|] eqn:Hs; [|done].
  destruct (agent_id s =? a) eqn:Ha; [|done]. destruct (sender_closed r (sender s)); [done|]. cbn.
  intros [= <-]. cbn. bool_prop. subst a. rewrite Hs. split_and!; try done. by destruct s.
Qed.

Lemma io_ok_step r r' : io_step r r' → io_ok r → io_ok r'.
Proof.
  intros Hs Hok. pose proof Hok as [H1 H2 H3 H4 Ha H5 H6].
  destruct Hs as [a c|a oc|a|a Hr|closed a reason l1 l2 Hc| |sid a c x Hc Hx Hxs Hxd Hxc|sid|c i Hi|c i f l Hi Hf|d a frame del Hd Hdel|d del Hd Hn|d del Hd].
  - by apply register_ok.
  - by apply unregister_ok.
  - by split.
  - apply (take_ok a REVOKED (delete a) r Hok). intros b Hb. by rewrite lookup_delete_ne.
  - by apply notify_ok.
  - by apply prune_ok.
  - by apply subscribe_ok.
  - by apply unsubscribe_ok.
  - by split.
  - by split.
  - apply deliver_lookup_spec in Hdel as (Hsub & Ea & Ef & _). split; try done; cbn.
    + intros k e [[<- <-]|[_ Hk]]%lookup_insert_Some; [by left|by apply (H5 k)].
    + intros k e [[<- <-]|[_ Hk]]%lookup_insert_Some; [congruence|by apply (H6 k)].
  - split; try done; cbn; intros k e [_ Hk]%lookup_delete_Some; eauto.
  - split; try done; cbn; intros k e [_ Hk]%lookup_delete_Some; eauto.
Qed.

Lemma io_reachable_ok r : io_reachable r → io_ok r.
Proof.
  unfold io_reachable. revert r. refine (rtc_ind_r _ _ _ _).
  - split; cbn [stream_subscribers new_io_registry deliveries closing]; intros *; rewrite ?lookup_empty; try done.
  - intros u r _ Hs. by apply io_ok_step.
Qed.

(** in every reachable state there are at most 1024 subscriptions; each is
    to an Agent whose stream is registered, so a stream that is replaced, closed
    or revoked takes its subscriptions with it; and a frame on its way whose
    subscription was not signalled as closed is headed for the subscription that
    still owns its stream id, held for the Agent that sent it, or for one that
    was just taken out and is about to be told. *)
Theorem io_registry_invariant r :
  io_reachable r →
  Z.of_nat (size (stream_subscribers r)) <= 1024
  ∧ (∀ sid s, stream_subscribers r !! sid = Some s → is_Some (agent_streams r !! agent_id s))
  ∧ (∀ d del, deliveries r !! d = Some del → d_changes del ∉ notified r → in_place r del).
Proof. intros [H1 H2 _ _ _ H5 _]%io_reachable_ok. auto. Qed.

(** What a step does to the deliveries on their way and to those made. *)
Lemma delivered_step r r' :
  io_step r r' → (deliveries r' ⊆ deliveries r ∧ delivered r' = delivered r) ∨
  (∃ d a frame del, deliver_lookup a frame r = Some del ∧ deliveries r' = <[d := del]> (deliveries r) ∧ delivered r' = delivered r) ∨
  ∃ d del, deliveries r !! d = Some del ∧ deliveries r' ⊆ deliveries r
    ∧ delivered r' = delivered r ++ [(d_agent del, d_sender del, d_frame del)].
Proof.
  destruct 1 as [a c|a oc|a|a Hr|closed a reason l1 l2 Hc| |sid a c x Hc Hx Hxs Hxd Hxc|sid|c i Hi|c i f l Hi Hf|d a frame del Hd Hdel|d del Hd Hn|d del Hd];
    try by left.
  - left. unfold register_agent. case_bool_decide; [done|]. by destruct (agent_streams r !! a).
  - left. unfold unregister_agent. destruct (agent_streams r !! a); [|done]. destruct oc; [|done]. by case_match.
  - left. unfold subscribe_stream. by repeat case_match.
  - left. unfold unsubscribe_stream. cbv zeta. by case_match.
  - right; left. by exists d, a, frame, del.
  - right; right. exists d, del. split_and!; [done|apply delete_subseteq|done].
  - left. split; [apply delete_subseteq|done].
Qed.

(** The subscription an earlier state had for the frame. *)
Definition subscribed_before r a c f : Prop :=
  f_agent_id f = uuid_to_string a
  ∧ ∃ u x, io_reachable u ∧ rtc io_step u r
      ∧ stream_subscribers u !! stream_id f = Some {| agent_id := a; sender := c; changes := x |}
      ∧ is_Some (agent_streams u !! a).
Lemma subscribed_step u r a c f : io_step u r → subscribed_before u a c f → subscribed_before r a c f.
Proof. intros Hs (? & v & x & ? & ? & ?). split; [done|]. exists v, x. split_and!; [done| |naive_solver..]. by eapply rtc_r. Qed.

(** I/O frames are authentic: every frame handed to a subscriber came from
    the Agent that the subscription was for when the frame found it, and bears
    that Agent's identity whatever the Agent wrote in it; and that Agent's stream
    was registered then. *)
Theorem deliveries_authentic r a c f :
  io_reachable r → (a, c, f) ∈ delivered r → subscribed_before r a c f.
Proof.
  intros Hr. assert ((∀ a c f, (a, c, f) ∈ delivered r → subscribed_before r a c f)
    ∧ ∀ d del, deliveries r !! d = Some del → subscribed_before r (d_agent del) (d_sender del) (d_frame del)) as [Hd _]; [|apply Hd].
  clear a c f. unfold io_reachable in Hr. revert r Hr. refine (rtc_ind_r _ _ _ _).
  { split; [intros a c f Hin; by apply not_elem_of_nil in Hin|intros d del; cbn; by rewrite lookup_empty]. }
  intros u r Hu Hs [IH1 IH2].
  destruct (delivered_step u r Hs) as [[Hd E]|[(d & b & frame & del & Hl & Hd & E)|(d & del & Hdel & Hd & E)]]; rewrite E.
  - split; [intros; eapply subscribed_step; eauto|]. intros k del Hk. eapply subscribed_step; [exact Hs|]. apply (IH2 k). by eapply lookup_weaken.
  - split; [intros; eapply subscribed_step; eauto|]. intros k del' Hk. rewrite Hd in Hk.
    apply lookup_insert_Some in Hk as [[<- <-]|[_ Hk]]; eapply subscribed_step; eauto.
    apply deliver_lookup_spec in Hl as (Hsub & <- & Hf & _). split; [done|]. exists u, (d_changes del).
    split_and!; [done|apply rtc_refl|done|]. apply (io_streams u (io_reachable_ok u Hu) _ _ Hsub).
  - split; [|intros k del' Hk; eapply subscribed_step; [exact Hs|]; apply (IH2 k); by eapply lookup_weaken].
    intros a c f [Hin|Hin%list_elem_of_singleton]%elem_of_app; eapply subscribed_step; eauto. injection Hin as -> -> ->. by apply (IH2 d).
Qed.

(** a stream cannot be hijacked: while its receiver is alive, a
    subscription keeps its stream id against a subscription for any other Agent,
    and frames sent to that Agent on the stream are refused. *)
Theorem no_stream_hijack r sid s b c x frame :
  stream_subscribers r !! sid = Some s → sender_closed r (sender s) = false → agent_id s ≠ b →
  stream_subscribers (subscribe_stream sid b c x r) !! sid = Some s
  ∧ (stream_id frame = sid → sid ≠ [] → ∃ e, send_to_agent_check b frame r = Err e)
  ∧ (stream_id frame = sid → deliver_lookup b frame r = None).
Proof.
  intros Hs Hc Hb. split_and!.
  - unfold subscribe_stream. destruct (negb (valid_io_stream_id sid)); [done|].
    case_bool_decide; [done|]. case_bool_decide; cbn [negb]; [|done]. cbv zeta.
    assert (stream_subscribers (prune_closed_io_subscribers r) !! sid = Some s) as Hp.
    { apply (drops_subs _ _ _ (drops_prune r)). done. }
    rewrite Hp. by rewrite (proj2 (Z.eqb_neq _ _) Hb).
  - intros <- Hne. unfold send_to_agent_check. case_match; [by eexists|].
    apply is_empty_false in Hne. rewrite Hne, Hs, Hc, (proj2 (Z.eqb_neq _ _) Hb). by eexists.
  - intros <-. unfold deliver_lookup. destruct (valid_io_frame_from_agent b frame); cbn [negb]; [|done].
    cbv zeta. cbn [stream_id]. by rewrite Hs, (proj2 (Z.eqb_neq _ _) Hb).
Qed.
End io.

(** ** Task results *)

Section tasks.
Context `{UuidLib}.
Implicit Types (t : TaskResponseRegistry) (a g : Z).

Record task_ok t : Prop := {
  task_bounded : Z.of_nat (size (pending t)) <= MAX_PENDING_TASK_WAITERS;
  task_unique k k' p p' : pending t !! k = Some p → pending t !! k' = Some p' →
    registration p = registration p' → k = k';
  task_unanswered k p : pending t !! k = Some p → registration p ∉ (fst <$> answered t);
  task_once : NoDup (fst <$> answered t);
}.

(** Waiters may only disappear. *)
Lemma task_ok_shrink t t' :
  task_ok t → pending t' ⊆ pending t → answered t' = answered t → task_ok t'.
Proof.
  intros [H1 H2 H3 H4] Hsub E. pose proof (map_subseteq_size _ _ Hsub) as Hsz.
  rewrite map_subseteq_spec in Hsub. split; rewrite ?E; [lia| | |done]; eauto.
Qed.

Lemma prune_waiters_spec t k p :
  pending (prune_closed_task_waiters t) !! k = Some p ↔ pending t !! k = Some p ∧ registration p ∉ dropped t.
Proof. cbn. rewrite map_lookup_filter_Some. done. Qed.

Lemma prune_waiters_sub t : pending (prune_closed_task_waiters t) ⊆ pending t.
Proof. apply map_subseteq_spec. intros k p [? _]%prune_waiters_spec. done. Qed.

(** What a delivery does, case by case. *)
Lemma task_deliver_spec a task_id r t t' b :
  task_deliver a task_id r t = (t', b) →
  pending t' ⊆ pending t ∧ dropped t' = dropped t
  ∧ match b with
    | true => ∃ p, pending t !! task_id = Some p ∧ w_agent p = a ∧ registration p ∉ dropped t
                ∧ pending t' !! task_id = None
                ∧ answered t' = answered t ++ [(registration p, set_result_agent (uuid_to_string a) r)]
    | false => answered t' = answered t
    end.
Proof.
  unfold task_deliver. case_match; [by intros [= <- <-]|]. cbv zeta.
  destruct (pending (prune_closed_task_waiters t) !! task_id) as [p|] eqn:Hp.
  2: { intros [= <- <-]. split; [apply prune_waiters_sub|done]. }
  destruct (w_agent p =? a) eqn:Ha; cbn [negb].
  2: { intros [= <- <-]. split; [apply prune_waiters_sub|done]. }
  assert (delete task_id (pending (prune_closed_task_waiters t)) ⊆ pending t) as Hsub.
  { etrans; [apply delete_subseteq|apply prune_waiters_sub]. }
  apply prune_waiters_spec in Hp as [Hp Hd]. rewrite bool_decide_eq_false_2 by done.
  intros [= <- <-]. cbn [pending dropped answered]. split; [exact Hsub|]. split; [done|].
  exists p. bool_prop. split_and!; try done. apply lookup_delete_eq.
Qed.

Lemma task_ok_step t t' : task_step t t' → task_ok t → task_ok t'.
Proof.
  intros Hs Hok. destruct Hs as [task_id a g Hg Hp Ha|a task_id r|task_id|task_id g].
  - unfold task_register. case_match; [done|]. cbv zeta.
    assert (task_ok (prune_closed_task_waiters t)) as Hok'.
    { by apply (task_ok_shrink t); [|apply prune_waiters_sub|]. }
    destruct Hok' as [H1 H2 H3 H4]. case_match eqn:Hc; [|done].
    assert (∀ k p, pending (prune_closed_task_waiters t) !! k = Some p → registration p ≠ g) as Hp'.
    { intros k p [Hk _]%prune_waiters_spec. by apply (Hp k). }
    split; cbn [pending answered set_pending].
    + destruct (pending (prune_closed_task_waiters t) !! task_id) as [e|] eqn:He.
      * rewrite map_size_insert_Some by done. done.
      * rewrite map_size_insert_None by done. bool_prop. lia.
    + intros k k' p p' Hk Hk' E. destruct (decide (k = task_id)) as [->|], (decide (k' = task_id)) as [->|]; [done|..].
      * rewrite lookup_insert_eq in Hk. rewrite lookup_insert_ne in Hk' by done. injection Hk as <-. cbn in E.
        by destruct (Hp' k' p').
      * rewrite lookup_insert_eq in Hk'. rewrite lookup_insert_ne in Hk by done. injection Hk' as <-. cbn in E.
        by destruct (Hp' k p).
      * rewrite !lookup_insert_ne in * by done. eauto.
    + intros k p. destruct (decide (k = task_id)) as [->|]; [rewrite lookup_insert_eq; by intros [= <-]|].
      rewrite lookup_insert_ne by done. apply H3.
    + done.
  - destruct (task_deliver a task_id r t) as [t' b] eqn:E. apply task_deliver_spec in E as (Hsub & _ & Hb). cbn [fst].
    destruct b; [|by apply (task_ok_shrink t)].
    destruct Hb as (p & Hp & _ & _ & Hgone & Ean). pose proof (map_subseteq_size _ _ Hsub) as Hsz.
    destruct Hok as [H1 H2 H3 H4]. rewrite map_subseteq_spec in Hsub. split.
    + lia.
    + eauto.
    + intros k q Hq. rewrite Ean, fmap_app, elem_of_app. intros [Hin|Hin]; [by apply (H3 k q); auto|].
      cbn in Hin. apply list_elem_of_singleton in Hin.
      assert (k = task_id) as -> by (apply (H2 k task_id q p); auto). congruence.
    + rewrite Ean, fmap_app. apply NoDup_app. split_and!; [done| |apply NoDup_singleton].
      intros y Hy Hin. cbn in Hin. apply list_elem_of_singleton in Hin as ->. by apply (H3 task_id p).
  - apply (task_ok_shrink t); [done| |done]. etrans; [apply delete_subseteq|apply prune_waiters_sub].
  - apply (task_ok_shrink t); [done| |]; unfold task_drop; cbv zeta; cbn [pending answered].
    + case_match; [apply delete_subseteq|done].
    + by case_match.
Qed.

(** In every reachable state at most 4096 requests wait for a task result,
    each waiter has a registration of its own that was not answered yet, and no
    registration is ever answered twice. *)
Theorem task_waiters_invariant t :
  task_reachable t →
  Z.of_nat (size (pending t)) <= 4096 ∧ NoDup (fst <$> answered t)
  ∧ (∀ k p, pending t !! k = Some p → registration p ∉ (fst <$> answered t))
  ∧ (∀ k k' p p', pending t !! k = Some p → pending t !! k' = Some p' →
       registration p = registration p' → k = k').
Proof.
  intros Hr. assert (task_ok t) as [H1 H2 H3 H4]; [|by auto].
  unfold task_reachable in Hr. revert t Hr. refine (rtc_ind_r _ _ _ _).
  - split; cbn [pending answered new_task_registry fmap list_fmap]; try constructor; intros *; by rewrite ?lookup_empty.
  - intros u t _ Hs. by apply task_ok_step.
Qed.

(** a task result is accepted exactly when it is well formed for the
    authenticated Agent and a request waits for that task from that very Agent
    with its receiver still alive; it is then handed to that request, stamped
    with the Agent's identity, and the request no longer waits. *)
Theorem task_deliver_exact a task_id r t :
  (task_deliver a task_id r t).2 = true ↔
  valid_task_result_from_agent a task_id r = true
  ∧ ∃ p, pending t !! task_id = Some p ∧ w_agent p = a ∧ registration p ∉ dropped t
      ∧ answered (task_deliver a task_id r t).1
        = answered t ++ [(registration p, set_result_agent (uuid_to_string a) r)]
      ∧ pending (task_deliver a task_id r t).1 !! task_id = None.
Proof.
  destruct (task_deliver a task_id r t) as [t' b] eqn:E. cbn [fst snd]. split.
  - intros ->. pose proof E as E'. apply task_deliver_spec in E' as (_ & _ & p & Hp).
    unfold task_deliver in E. destruct (valid_task_result_from_agent a task_id r); [|done]. naive_solver.
  - intros (Hv & p & Hp & Ha & Hd & _ & _). revert E. unfold task_deliver. rewrite Hv. cbn [negb]. cbv zeta.
    assert (pending (prune_closed_task_waiters t) !! task_id = Some p) as Hp' by by apply prune_waiters_spec.
    rewrite Hp', (proj2 (Z.eqb_eq _ _) Ha). cbn [negb]. rewrite bool_decide_eq_false_2 by done. by intros [= _ <-].
Qed.

End tasks.

(** ** Truncation *)

Lemma prefix_bytes_spec s n p :
  0 <= n → prefix_bytes s n = Some p ↔ p `prefix_of` s ∧ byte_len p = n.
Proof.
  revert n p. induction s as [|c s IH]; intros n p Hn; cbn [prefix_bytes].
  - destruct (Z.eqb_spec n 0) as [->|Hne].
    + split; [intros [= <-]; split; [apply prefix_nil|done]|]. by intros [->%prefix_nil_inv _].
    + split; [done|]. intros [->%prefix_nil_inv <-]. done.
  - destruct (Z.eqb_spec n 0) as [->|Hne].
    + split; [intros [= <-]; split; [apply prefix_nil|done]|]. intros [_ H%byte_len_zero]. by subst.
    + pose proof (len_utf8_pos c). destruct (Z.ltb_spec n (len_utf8 c)) as [Hlt|Hge].
      * split; [done|]. intros [Hp Hl]. destruct p as [|c' p]; [cbn in Hl; lia|].
        apply prefix_cons_inv_1 in Hp as ->. cbn in Hl. pose proof (byte_len_nonneg p). lia.
      * rewrite fmap_Some. setoid_rewrite (IH (n - len_utf8 c)); [|lia]. split.
        -- intros (q & [Hq Hl] & ->). split; [by apply prefix_cons|]. cbn. lia.
        -- intros [Hp Hl]. destruct p as [|c' p]; [cbn in Hl; lia|]. cbn in Hl.
           pose proof (prefix_cons_inv_1 _ _ _ _ Hp) as ->. apply prefix_cons_inv_2 in Hp.
           exists p. split_and!; [done|lia|done].
Qed.

(** The loop stops at the largest boundary it can reach. *)
Lemma back_to_boundary_spec s n :
  ∃ p, prefix_bytes s (Z.of_nat (back_to_boundary s n)) = Some p ∧ byte_len p <= Z.of_nat n
       ∧ ∀ q, q `prefix_of` s → byte_len q <= Z.of_nat n → byte_len q <= byte_len p.
Proof.
  induction n as [|n IH]; cbn [back_to_boundary].
  - exists []. destruct s; (split; [done|]); split; [cbn; lia| |cbn; lia|]; intros q _; cbn; lia.
  - unfold is_char_boundary. destruct (prefix_bytes s (Z.of_nat (S n))) as [p|] eqn:E.
    + exists p. split; [done|]. apply prefix_bytes_spec in E as [_ Hl]; [|lia]. split; [lia|]. intros q _. lia.
    + destruct IH as (p & Hp & Hl & Hmax). exists p. split; [done|]. split; [lia|]. intros q Hq Hle.
      apply Hmax; [done|]. assert (byte_len q ≠ Z.of_nat (S n)); [|lia]. intros Hx.
      assert (prefix_bytes s (Z.of_nat (S n)) = Some q) as E' by (apply prefix_bytes_spec; [lia|done]).
      congruence.
Qed.

(** Truncating text to a byte limit returns the longest prefix of whole
    characters that fits, and says whether anything was cut: it never splits a
    character and never drops one that would have fitted. *)
Theorem truncate_exact value max out cut :
  0 <= max → truncate_utf8_to_bytes value max = (out, cut) →
  out `prefix_of` value ∧ byte_len out <= max
  ∧ (∀ p, p `prefix_of` value → byte_len p <= max → p `prefix_of` out)
  ∧ (cut = false ↔ out = value).
Proof.
  intros Hmax. unfold truncate_utf8_to_bytes. destruct (Z.leb_spec (byte_len value) max) as [Hle|Hgt].
  { intros [= <- <-]. split_and!; try done. }
  assert (∀ p q, p `prefix_of` value → q `prefix_of` value → byte_len p <= byte_len q → p `prefix_of` q) as Hcmp.
  { intros p q Hp Hq Hl. destruct (prefix_weak_total p q value Hp Hq) as [?|[k ->]]; [done|].
    rewrite byte_len_app in Hl. pose proof (byte_len_nonneg k).
    assert (k = []) as -> by (apply byte_len_zero; lia). by rewrite app_nil_r. }
  destruct (Z.eqb_spec max 0) as [->|Hne].
  { intros [= <- <-]. split_and!; [apply prefix_nil|done| |].
    - intros p Hp Hl. apply Hcmp; [done|apply prefix_nil|]. cbn. lia.
    - split; [done|]. intros <-. cbn in Hgt. lia. }
  destruct (back_to_boundary_spec value (Z.to_nat max)) as (p & Hp & Hl & Hbest).
  rewrite Hp. cbn [default]. intros [= <- <-]. apply prefix_bytes_spec in Hp as [Hpre _]; [|lia].
  rewrite Z2Nat.id in * by lia. split_and!; [done|done| |].
  - intros q Hq Hlq. apply Hcmp; auto.
  - split; [done|]. intros ->. lia.
Qed.

(** ** Witnesses *)

(** Agent 9 opens a stream, a handler subscribes to "s", a frame arrives. *)
Definition frame0 : IoFrame :=
  {| stream_id := lit "s"; sequence := 4; f_agent_id := []; payload := Some (Data [1; 2]) |}.
Definition i0 : IoRegistry := still_to_tell 9 REPLACED (register_agent 9 1 new_io_registry).
Definition i1 : IoRegistry := subscribe_stream (lit "s") 9 2 3 i0.
Definition del0 : Delivery := default {| d_agent := 0; d_frame := frame0; d_sender := 0; d_changes := 0 |} (deliver_lookup 9 frame0 i1).
Definition i2 : IoRegistry := deliver_start 0 del0 i1.
Definition i3 : IoRegistry := deliver_commit 0 del0 i2.

Lemma i3_reachable : io_reachable i3.
Proof.
  apply (rtc_l _ _ i0); [apply io_register|].
  apply (rtc_l _ _ i1).
  { apply io_subscribe; [done|set_solver|intros k s|intros k s|intros t s Ht Hs].
    - change (stream_subscribers i0) with (∅ : gmap rstr IoSubscriber). by rewrite lookup_empty.
    - change (deliveries i0) with (∅ : gmap Z Delivery). by rewrite lookup_empty.
    - cbn in Ht. apply list_elem_of_singleton in Ht as ->. by apply not_elem_of_nil in Hs. }
  apply (rtc_l _ _ i2); [apply (io_deliver_start i1 0 9 frame0); by vm_compute|].
  apply (rtc_l _ _ i3); [|apply rtc_refl]. apply io_deliver_commit; by vm_compute.
Qed.

Definition result0 : TaskResult :=
  {| t_task_id := []; status := 0; exit_code := 0; stdout := lit "ok"; stderr := []; error := [];
     started_at := 0; finished_at := 1; t_agent_id := [] |}.
Definition t1 : TaskResponseRegistry := (task_deliver 9 (lit "job") result0 (task_register (lit "job") 9 4 new_task_registry)).1.

Lemma t1_reachable : task_reachable t1.
Proof.
  apply (rtc_l _ _ (task_register (lit "job") 9 4 new_task_registry)).
  - apply task_do_register; [set_solver|intros k p|apply not_elem_of_nil].
    change (pending new_task_registry) with (∅ : gmap rstr PendingTaskResponse). by rewrite lookup_empty.
  - apply rtc_once, task_do_deliver.
Qed.

End IoStreamsProofs.
