(* ===== verification/Base64.v ===== *)
(** * Base64: file contents between the Agent and the server

    [base64_encode] of [crates/agent/src/main.rs], which prints the bytes of a
    file, and [base64_decode] of [crates/server/src/api/v1/transfers.rs] (the
    same code as [decode_base64] of [server_ops.rs]), which reads them. *)

From S2P Require Import Prelude Text Externals Totp IoStreams.

Module Base64.

Definition ALPH : list Z := lit "ABCDEFGHIJKLMNOPQRSTUVWXYZabcdefghijklmnopqrstuvwxyz0123456789+/".

(** [ALPH[((n >> k) & 0x3f) as usize] as char]. *)
Definition symbol (n k : Z) : Z := nth (Z.to_nat (Z.land (Z.shiftr n k) 63)) ALPH 0.

(** The loop takes three bytes at a time; what follows it handles the rest. *)
Fixpoint base64_encode (data : list Z) : rstr :=
  match data with
  | a :: b :: c :: data =>
      let n := Z.lor (Z.lor (Z.shiftl a 16) (Z.shiftl b 8)) c in
      symbol n 18 :: symbol n 12 :: symbol n 6 :: symbol n 0 :: base64_encode data
  | [a; b] =>
      let n := Z.lor (Z.shiftl a 16) (Z.shiftl b 8) in [symbol n 18; symbol n 12; symbol n 6; 61]
  | [a] => let n := Z.shiftl a 16 in [symbol n 18; symbol n 12; 61; 61]
  | [] => []
  end.

Inductive Base64Error : Type := LengthNotMultiple | InvalidByte (b : Z).
#[global] Instance base64_error_eq_dec : EqDecision Base64Error.
Proof. solve_decision. Defined.

(** One byte of a chunk: its value and whether it is padding. *)
Definition sextet (b : Z) : result Base64Error (Z * Z) :=
  if (65 <=? b) && (b <=? 90) then Ok (b - 65, 0) else
  if (97 <=? b) && (b <=? 122) then Ok (b - 97 + 26, 0) else
  if (48 <=? b) && (b <=? 57) then Ok (b - 48 + 52, 0) else
  if b =? 43 then Ok (62, 0) else
  if b =? 47 then Ok (63, 0) else
  if b =? 61 then Ok (0, 1) else Err (InvalidByte b).

Definition decode_chunk (w x y z : Z) : result Base64Error (list Z) :=
  '(v0, p0) ← sextet w; '(v1, p1) ← sextet x; '(v2, p2) ← sextet y; '(v3, p3) ← sextet z;
  let padding := p0 + p1 + p2 + p3 in
  let n := Z.lor (Z.lor (Z.lor (Z.shiftl v0 18) (Z.shiftl v1 12)) (Z.shiftl v2 6)) v3 in
  Ok ([Z.land (Z.shiftr n 16) 255] ++ (if padding <? 2 then [Z.land (Z.shiftr n 8) 255] else [])
      ++ (if padding <? 1 then [Z.land n 255] else [])).

Fixpoint decode_chunks (bytes : list Z) : result Base64Error (list Z) :=
  match bytes with
  | w :: x :: y :: z :: bytes => out ← decode_chunk w x y z; rest ← decode_chunks bytes; Ok (out ++ rest)
  | _ => Ok []
  end.

Definition base64_decode (input : rstr) : result Base64Error (list Z) :=
  let bytes := str_bytes input in
  if negb (zlen bytes mod 4 =? 0) then Err LengthNotMultiple else decode_chunks bytes.

(** ** Lemmas *)

Abbreviation byte b := (0 <= b < 256).

(** Induction three bytes at a time. *)
Lemma triples_ind (P : list Z → Prop) :
  P [] → (∀ a, P [a]) → (∀ a b, P [a; b]) → (∀ a b c l, P l → P (a :: b :: c :: l)) → ∀ l, P l.
Proof.
  intros H0 H1 H2 H3. fix IH 1. intros [|a [|b [|c l]]]; [exact H0|apply H1|apply H2|]. apply H3, IH.
Qed.

Lemma sextet_symbol v : 0 <= v < 64 → sextet (nth (Z.to_nat v) ALPH 0) = Ok (v, 0).
Proof.
  intros Hv. assert (forallb (fun v => bool_decide (sextet (nth v ALPH 0) = Ok (Z.of_nat v, 0))) (seq 0 64) = true) as Hall by by vm_compute.
  rewrite forallb_In in Hall. specialize (Hall (Z.to_nat v) ltac:(apply elem_of_seq; lia)). apply bool_decide_eq_true in Hall.
  rewrite Hall. do 2 f_equal. lia.
Qed.

Lemma symbol_arith n k : 0 <= n → 0 <= k → symbol n k = nth (Z.to_nat (n / 2 ^ k mod 64)) ALPH 0.
Proof. intros Hn Hk. unfold symbol. change 63 with (Z.ones 6). by rewrite Z.land_ones, Z.shiftr_div_pow2 by lia. Qed.

Lemma sextet_shift n k : 0 <= n → 0 <= k → sextet (symbol n k) = Ok (n / 2 ^ k mod 64, 0).
Proof. intros Hn Hk. rewrite symbol_arith by done. apply sextet_symbol. by apply Z.mod_pos_bound. Qed.

Lemma symbol_ascii n k : symbol n k < 128.
Proof.
  unfold symbol. assert (Forall (fun v => v < 128) ALPH) as Hall by by apply (bool_decide_unpack _).
  destruct (nth_in_or_default (Z.to_nat (Z.land (Z.shiftr n k) 63)) ALPH 0) as [Hin| ->]; [|lia].
  apply list_elem_of_In in Hin. exact (proj1 (Forall_forall _ _) Hall _ Hin).
Qed.

(** Numbers side by side, as sums. *)
Lemma lor_low a b k : 0 <= a → 0 <= k → 0 <= b < 2 ^ k → Z.lor (Z.shiftl a k) b = a * 2 ^ k + b.
Proof.
  intros Ha Hk Hb. rewrite <- Z.shiftl_mul_pow2 by lia. pose proof (Z.add_lor_land (Z.shiftl a k) b) as Hadd.
  rewrite Totp.land_shiftl_low in Hadd by lia. lia.
Qed.

Definition word3 a b c : Z := a * 65536 + b * 256 + c.

Lemma word3_lor a b c : byte a → byte b → byte c → Z.lor (Z.lor (Z.shiftl a 16) (Z.shiftl b 8)) c = word3 a b c.
Proof.
  intros Ha Hb Hc. unfold word3. rewrite <- Z.lor_assoc, (lor_low b c 8) by lia. rewrite (lor_low a _ 16) by lia. lia.
Qed.

Lemma word4_lor v0 v1 v2 v3 :
  0 <= v0 < 64 → 0 <= v1 < 64 → 0 <= v2 < 64 → 0 <= v3 < 64 →
  Z.lor (Z.lor (Z.lor (Z.shiftl v0 18) (Z.shiftl v1 12)) (Z.shiftl v2 6)) v3 = v0 * 262144 + v1 * 4096 + v2 * 64 + v3.
Proof.
  intros H0 H1 H2 H3. rewrite <- !Z.lor_assoc, (lor_low v2 v3 6), (lor_low v1 _ 12), (lor_low v0 _ 18) by lia. lia.
Qed.

(** The three bytes come back out of the four symbols. *)
Lemma regroup n : 0 <= n < 2 ^ 24 →
  n / 2 ^ 18 mod 64 * 262144 + n / 2 ^ 12 mod 64 * 4096 + n / 2 ^ 6 mod 64 * 64 + n / 2 ^ 0 mod 64 = n.
Proof. intros Hn. rewrite Z.pow_0_r, Z.div_1_r. Z.to_euclidean_division_equations. lia. Qed.

Lemma low_byte n k : 0 <= n → 0 <= k → Z.land (Z.shiftr n k) 255 = n / 2 ^ k mod 256.
Proof. intros. change 255 with (Z.ones 8). by rewrite Z.land_ones, Z.shiftr_div_pow2 by lia. Qed.

Lemma word3_bytes a b c :
  byte a → byte b → byte c →
  word3 a b c / 2 ^ 16 mod 256 = a ∧ word3 a b c / 2 ^ 8 mod 256 = b ∧ word3 a b c mod 256 = c.
Proof. unfold word3. intros. Z.to_euclidean_division_equations. lia. Qed.

Lemma decode_word w x y z v0 v1 v2 v3 p2 p3 :
  sextet w = Ok (v0, 0) → sextet x = Ok (v1, 0) → sextet y = Ok (v2, p2) → sextet z = Ok (v3, p3) →
  0 <= v0 < 64 → 0 <= v1 < 64 → 0 <= v2 < 64 → 0 <= v3 < 64 →
  let n := v0 * 262144 + v1 * 4096 + v2 * 64 + v3 in
  decode_chunk w x y z =
    Ok ([n / 2 ^ 16 mod 256] ++ (if p2 + p3 <? 2 then [n / 2 ^ 8 mod 256] else []) ++ (if p2 + p3 <? 1 then [n mod 256] else [])).
Proof.
  intros Hw Hx Hy Hz H0 H1 H2 H3 n. unfold decode_chunk. rewrite Hw, Hx, Hy, Hz. cbn [mbind result_bind].
  rewrite word4_lor by done. fold n. assert (0 <= n) by lia. rewrite !low_byte by lia.
  change 255 with (Z.ones 8). rewrite Z.land_ones by lia. by rewrite !Z.add_0_l.
Qed.

Lemma decode_triple a b c :
  byte a → byte b → byte c →
  let n := word3 a b c in decode_chunk (symbol n 18) (symbol n 12) (symbol n 6) (symbol n 0) = Ok [a; b; c].
Proof.
  intros Ha Hb Hc n. assert (0 <= n < 2 ^ 24) as Hn by (unfold n, word3; lia).
  erewrite decode_word by (apply sextet_shift || apply Z.mod_pos_bound; lia).
  rewrite regroup by done. destruct (word3_bytes a b c Ha Hb Hc) as (H1 & H2 & H3). fold n in H1, H2, H3. by rewrite H1, H2, H3.
Qed.

Lemma decode_pair a b :
  byte a → byte b → let n := word3 a b 0 in decode_chunk (symbol n 18) (symbol n 12) (symbol n 6) 61 = Ok [a; b].
Proof.
  intros Ha Hb n. assert (0 <= n < 2 ^ 24) as Hn by (unfold n, word3; lia).
  rewrite (decode_word _ _ _ _ (n / 2 ^ 18 mod 64) (n / 2 ^ 12 mod 64) (n / 2 ^ 6 mod 64) (n / 2 ^ 0 mod 64) 0 1);
    try (apply sextet_shift; lia); try (apply Z.mod_pos_bound; lia).
  - rewrite regroup by done. destruct (word3_bytes a b 0 Ha Hb ltac:(lia)) as (H1 & H2 & _). fold n in H1, H2. by rewrite H1, H2.
  - cbn. do 2 f_equal. unfold n, word3. rewrite Z.div_1_r. Z.to_euclidean_division_equations. lia.
Qed.

Lemma decode_single a : byte a → let n := word3 a 0 0 in decode_chunk (symbol n 18) (symbol n 12) 61 61 = Ok [a].
Proof.
  intros Ha n. assert (0 <= n < 2 ^ 24) as Hn by (unfold n, word3; lia).
  rewrite (decode_word _ _ _ _ (n / 2 ^ 18 mod 64) (n / 2 ^ 12 mod 64) (n / 2 ^ 6 mod 64) (n / 2 ^ 0 mod 64) 1 1);
    try (apply sextet_shift; lia); try (apply Z.mod_pos_bound; lia).
  - rewrite regroup by done. destruct (word3_bytes a 0 0 Ha ltac:(lia) ltac:(lia)) as (H1 & _). fold n in H1. by rewrite H1.
  - cbn. do 2 f_equal. unfold n, word3. Z.to_euclidean_division_equations. lia.
  - cbn. do 2 f_equal. unfold n, word3. rewrite Z.div_1_r. Z.to_euclidean_division_equations. lia.
Qed.

Lemma encode_ascii data : Forall (fun c => c < 128) (base64_encode data).
Proof.
  induction data as [|a|a b|a b c l IH] using triples_ind; cbn [base64_encode]; repeat constructor; try apply symbol_ascii; try done.
Qed.

Lemma encode_len data : zlen (base64_encode data) = 4 * ((zlen data + 2) / 3).
Proof.
  induction data as [|a|a b|a b c l IH] using triples_ind; [done..|]. cbn [base64_encode]. unfold zlen in *. cbn [length].
  replace (Z.of_nat (S (S (S (length l)))) + 2) with (Z.of_nat (length l) + 2 + 1 * 3) by lia. rewrite Z.div_add by lia. lia.
Qed.

Lemma decode_encode data : Forall (fun b => byte b) data → decode_chunks (base64_encode data) = Ok data.
Proof.
  induction data as [|a|a b|a b c l IH] using triples_ind; intros Hd; [done|..].
  - apply Forall_cons in Hd as [Ha _]. cbn [base64_encode decode_chunks].
    replace (Z.shiftl a 16) with (word3 a 0 0) by (rewrite Z.shiftl_mul_pow2 by lia; unfold word3; lia).
    by rewrite decode_single.
  - apply Forall_cons in Hd as [Ha [Hb _]%Forall_cons]. cbn [base64_encode decode_chunks].
    replace (Z.lor (Z.shiftl a 16) (Z.shiftl b 8)) with (word3 a b 0) by (rewrite <- word3_lor by lia; by rewrite Z.lor_0_r).
    by rewrite decode_pair.
  - apply Forall_cons in Hd as [Ha [Hb [Hc Hd]%Forall_cons]%Forall_cons]. cbn [base64_encode decode_chunks].
    rewrite word3_lor by done. rewrite decode_triple by done. cbn [mbind result_bind]. by rewrite IH.
Qed.

(** A file read by the Agent arrives unchanged: the text it prints is ASCII, is
    as long as the server's limit computes, and decodes to the bytes printed. *)
Theorem base64_roundtrip data :
  Forall (fun b => byte b) data → zlen data < 2 ^ 60 →
  base64_decode (base64_encode data) = Ok data
  ∧ byte_len (base64_encode data) = IoStreams.base64_encoded_len (zlen data).
Proof.
  intros Hd Hl. pose proof (Totp.str_bytes_id _ (encode_ascii data)) as Hs. pose proof (zlen_nonneg data) as H0.
  unfold base64_decode. rewrite Hs, encode_len, <- str_bytes_len, Hs, encode_len.
  split.
  - rewrite (Z.mul_comm 4), Z.mod_mul by lia. cbn. by apply decode_encode.
  - unfold IoStreams.base64_encoded_len, saturating_add. change usize_max with (2 ^ 64 - 1). destruct (_ =? 0) eqn:Hr; bool_prop;
      Z.to_euclidean_division_equations; lia.
Qed.

End Base64.
