(* ===== verification/Interleave.v ===== *)
(** * Interleave: concurrent programs over shared state

    A handler of the server is an [async] function: between two [await]s other
    handlers run. Here it is a tree of atomic steps over a shared state; each
    step also sees the environment at that moment (clock, fresh identifiers,
    answers from outside). Any number of such programs run in one pool, in any
    order; a program that is never scheduled again is one whose client went away.

    Reasoning is by permissions: each program holds one, every atomic step must be
    an action its permission allows, and an invariant over the state and all
    permissions that every action preserves then holds in every reachable pool. *)

From S2P Require Import Prelude.

Module Interleave.

Section programs.
Context {Env S : Type}.

Inductive Proc (A : Type) : Type :=
| Ret (a : A)
| Step (effect : Env → S → S) (next : Env → S → Proc A).
Arguments Ret {A} a. Arguments Step {A} effect next.

Fixpoint proc_bind {A B} (m : Proc A) (k : A → Proc B) : Proc B :=
  match m with
  | Ret a => k a
  | Step f n => Step f (fun e s => proc_bind (n e s) k)
  end.

(** Programs that can fail: [?] is the bind. *)
Definition P (X A : Type) : Type := Proc (result X A).
#[global] Instance P_ret X : MRet (P X) := fun A a => Ret (Ok a).
#[global] Instance P_bind X : MBind (P X) := fun A B k m =>
  proc_bind m (fun r => match r with Ok a => k a | Err e => Ret (Err e) end).

Definition throw {X A} (e : X) : P X A := Ret (Err e).
Definition of_result {X A} (r : result X A) : P X A := Ret r.
Definition map_err {X Y A} (f : X → Y) (m : P X A) : P Y A :=
  proc_bind m (fun r => Ret (match r with Ok a => Ok a | Err e => Err (f e) end)).
(** Run for its effect: the outcome is logged and dropped. *)
Definition ignore {X Y A} (m : P X A) : P Y unit := proc_bind m (fun _ => Ret (Ok ())).

(** One atomic step, and a step that only looks at the environment. *)
Definition atomic {X A} (f : Env → S → result X A * S) : P X A :=
  Step (fun e s => (f e s).2) (fun e s => Ret (f e s).1).
Definition observe {X A} (f : Env → A) : P X A := Step (fun e s => s) (fun e s => Ret (Ok (f e))).

(** ** Runs of one program

    The other programs may do anything to the state between two steps, so a run
    is the list of what each step saw. *)

Inductive returns {A} : Proc A → list (Env * S) → A → Prop :=
| returns_ret a : returns (Ret a) [] a
| returns_step f n e s h a : returns (n e s) h a → returns (Step f n) ((e, s) :: h) a.

Lemma returns_bind {A B} (m : Proc A) (k : A → Proc B) h b :
  returns (proc_bind m k) h b → ∃ a h1 h2, h = h1 ++ h2 ∧ returns m h1 a ∧ returns (k a) h2 b.
Proof.
  revert h. induction m as [a|f n IH]; intros h; cbn; [intros Hr; by exists a, [], h; split_and!; [|constructor|]|].
  inversion 1 as [|? ? e s h' ? Hr]; subst. apply IH in Hr as (a & h1 & h2 & -> & Hm & Hk).
  exists a, ((e, s) :: h1), h2. split_and!; [done|by constructor|done].
Qed.
Lemma returns_try {X A B} (m : P X A) (k : A → P X B) h b :
  returns (m ≫= k) h (Ok b) → ∃ a h1 h2, h = h1 ++ h2 ∧ returns m h1 (Ok a) ∧ returns (k a) h2 (Ok b).
Proof.
  intros ([a|x] & h1 & h2 & -> & Hm & Hk)%returns_bind; [by exists a, h1, h2|inversion Hk].
Qed.

(** The result and the final state of a program run to its end, in a given
    sequence of environments, while others change the state before each step. *)
Fixpoint run_to_end {A} (env : nat → Env) (others : nat → S → S) (m : Proc A) (s : S) : A * S :=
  match m with
  | Ret a => (a, s)
  | Step f n => let s := others O s in run_to_end (fun i => env (Datatypes.S i)) (fun i => others (Datatypes.S i)) (n (env O) s) (f (env O) s)
  end.
Lemma run_to_end_returns {A} env others (m : Proc A) s : ∃ h, returns m h (run_to_end env others m s).1.
Proof.
  revert env others s. induction m as [a|f n IH]; intros env others s; cbn; [exists []; constructor|].
  edestruct IH as [h Hh]. exists ((env O, others O s) :: h). constructor. exact Hh.
Qed.

(** After the steps [h] the program makes the step from [s] to [s'] in [e]. *)
Inductive makes {A} : Proc A → list (Env * S) → Env → S → S → Prop :=
| makes_now f n e s : makes (Step f n) [] e s (f e s)
| makes_later f n e s h e' t t' : makes (n e s) h e' t t' → makes (Step f n) ((e, s) :: h) e' t t'.

Lemma makes_bind {A B} (m : Proc A) (k : A → Proc B) h e s s' : makes (proc_bind m k) h e s s' →
  makes m h e s s' ∨ ∃ a h1 h2, h = h1 ++ h2 ∧ returns m h1 a ∧ makes (k a) h2 e s s'.
Proof.
  revert h. induction m as [a|f n IH]; intros h; cbn; [intros Hm; right; exists a, [], h; by split_and!; [|constructor|]|].
  inversion 1 as [|? ? e0 s0 h' ? ? ? Hm]; subst; [left; constructor|].
  apply IH in Hm as [Hm|(a & h1 & h2 & -> & Hr & Hm)]; [left; by constructor|]. right. exists a, ((e0, s0) :: h1), h2. by split_and!; [|constructor|].
Qed.

(** The steps of a program that runs alone, in the given environments. *)
Fixpoint solo {A} (es : list Env) (m : Proc A) (s : S) : list (Env * S * S) :=
  match es, m with
  | e :: es, Step f n => (e, s, f e s) :: solo es (n e s) (f e s)
  | _, _ => []
  end.

Lemma solo_makes {A} es (m : Proc A) s k e t t' :
  solo es m s !! k = Some (e, t, t') → makes m (fst <$> take k (solo es m s)) e t t'.
Proof.
  revert m s k. induction es as [|e0 es IH]; intros m s k; [done|]. destruct m as [a|f n]; [done|]. cbn [solo].
  destruct k as [|k]; cbn; [intros [= <- <- <-]; apply makes_now|]. intros Hk. by apply makes_later, IH.
Qed.

Lemma solo_env {A} es (m : Proc A) s e t t' : (e, t, t') ∈ solo es m s → e ∈ es.
Proof.
  revert m s. induction es as [|e0 es IH]; intros [a|f n] s; cbn; try (by intros ?%not_elem_of_nil).
  intros [[= -> _ _]|Hin]%elem_of_cons; [left|right; by eapply IH].
Qed.

(** Its result, if it comes to one. *)
Fixpoint outcome {A} (es : list Env) (m : Proc A) (s : S) : option A :=
  match m, es with
  | Ret a, _ => Some a
  | Step f n, e :: es => outcome es (n e s) (f e s)
  | Step _ _, [] => None
  end.

Lemma outcome_returns {A} es (m : Proc A) s a : outcome es m s = Some a → returns m (fst <$> solo es m s) a.
Proof.
  revert m s. induction es as [|e es IH]; intros m s; destruct m as [b|f n]; cbn; try done; try (intros [= ->]; constructor).
  intros Ho. constructor. by apply IH.
Qed.

(** A program logic for programs that run alone: [I] holds after every step,
    whatever the environments. *)
Fixpoint alone {A} (I : S → Prop) (m : Proc A) (s : S) (Q : A → S → Prop) : Prop :=
  match m with
  | Ret a => Q a s
  | Step f n => ∀ e, I (f e s) ∧ alone I (n e s) (f e s) Q
  end.

Lemma alone_mono {A} I (m : Proc A) s (Q Q' : A → S → Prop) : (∀ a t, Q a t → Q' a t) → alone I m s Q → alone I m s Q'.
Proof.
  intros HQ. revert s. induction m as [a|f n IH]; intros s; cbn; [apply HQ|]. intros Hm e. destruct (Hm e) as [HI Hn]. eauto.
Qed.
Lemma alone_bind {A B} I (m : Proc A) (k : A → Proc B) s Q :
  alone I m s (fun a t => alone I (k a) t Q) → alone I (proc_bind m k) s Q.
Proof.
  revert s. induction m as [a|f n IH]; intros s; cbn; [done|]. intros Hm e. destruct (Hm e) as [HI Hn]. eauto.
Qed.
Lemma alone_try {X A B} I (m : P X A) (k : A → P X B) s Q :
  alone I m s (fun r t => match r with Ok a => alone I (k a) t Q | Err e => Q (Err e) t end) → alone I (m ≫= k) s Q.
Proof. intros Hm. apply alone_bind. eapply alone_mono, Hm. by intros [a|e] t. Qed.
Lemma alone_map_err {X Y A} I (g : X → Y) (m : P X A) s Q :
  alone I m s (fun r t => Q (match r with Ok a => Ok a | Err e => Err (g e) end) t) → alone I (map_err g m) s Q.
Proof. intros Hm. apply alone_bind. eapply alone_mono, Hm. done. Qed.

(** What holds along the run, and of its result. *)
Lemma alone_solo {A} I (m : Proc A) s Q es e t t' : alone I m s Q → (e, t, t') ∈ solo es m s → I t'.
Proof.
  revert m s. induction es as [|e0 es IH]; intros m s; [intros _ Hin; by apply elem_of_nil in Hin|].
  destruct m as [a|f n]; cbn [solo]; [intros _ Hin; by apply elem_of_nil in Hin|].
  intros Hm Hin. destruct (Hm e0) as [HI Hn]. apply elem_of_cons in Hin as [[= -> -> ->]|Hin]; [done|by eapply IH].
Qed.

Lemma alone_run {A} I (m : Proc A) s Q env : alone I m s Q → let '(a, t) := run_to_end env (fun _ => id) m s in Q a t.
Proof.
  revert env s. induction m as [a|f n IH]; intros env s; cbn; [done|]. intros Hm. destruct (Hm (env O)) as [_ Hn]. by apply IH.
Qed.

(** A program logic for programs among others: before each step the others may
    change the state as [R] says. *)
Fixpoint among {A} (R : S → S → Prop) (m : Proc A) (s : S) (Q : A → S → Prop) : Prop :=
  match m with
  | Ret a => Q a s
  | Step f n => ∀ e s', R s s' → among R (n e s') (f e s') Q
  end.
Lemma among_mono {A} R (m : Proc A) s (Q Q' : A → S → Prop) : (∀ a t, Q a t → Q' a t) → among R m s Q → among R m s Q'.
Proof. intros HQ. revert s. induction m as [a|f n IH]; intros s; cbn; [apply HQ|]. intros Hm e s' Hs. eauto. Qed.
Lemma among_bind {A B} R (m : Proc A) (k : A → Proc B) s Q :
  among R m s (fun a t => among R (k a) t Q) → among R (proc_bind m k) s Q.
Proof. revert s. induction m as [a|f n IH]; intros s; cbn; [done|]. intros Hm e s' Hs. eauto. Qed.
Lemma among_try {X A B} R (m : P X A) (k : A → P X B) s Q :
  among R m s (fun r t => match r with Ok a => among R (k a) t Q | Err e => Q (Err e) t end) → among R (m ≫= k) s Q.
Proof. intros Hm. apply among_bind. eapply among_mono, Hm. by intros [a|e] t. Qed.
Lemma among_run {A} R (m : Proc A) s Q env others :
  (∀ i t, R t (others i t)) → among R m s Q → let '(a, t) := run_to_end env others m s in Q a t.
Proof.
  revert env others s. induction m as [a|f n IH]; intros env others s Ho; cbn; [done|]. intros Hm. apply IH; [intros i t; apply Ho|]. by apply Hm.
Qed.

(** A program logic for runs: every step satisfies [I], given the steps before
    it, and every result [Q], given all steps. *)
Fixpoint traced {A} (I : list (Env * S) → Env → S → S → Prop) (h : list (Env * S)) (m : Proc A) (Q : list (Env * S) → A → Prop) : Prop :=
  match m with
  | Ret a => Q h a
  | Step f n => ∀ e s, I h e s (f e s) ∧ traced I (h ++ [(e, s)]) (n e s) Q
  end.

Lemma traced_returns {A} I h (m : Proc A) Q h' a : traced I h m Q → returns m h' a → Q (h ++ h') a.
Proof.
  intros Hm Hr. revert h Hm. induction Hr as [a|f n e s h' a _ IH]; intros h Hm; cbn in Hm; [by rewrite app_nil_r|].
  destruct (Hm e s) as [_ Hn]. apply IH in Hn. by rewrite <-app_assoc in Hn.
Qed.

Lemma traced_makes {A} I h (m : Proc A) Q h' e s s' : traced I h m Q → makes m h' e s s' → I (h ++ h') e s s'.
Proof.
  intros Hm Hr. revert h Hm. induction Hr as [f n e s|f n e s h' e' t t' _ IH]; intros h Hm; cbn in Hm.
  - rewrite app_nil_r. apply Hm.
  - destruct (Hm e s) as [_ Hn]. apply IH in Hn. by rewrite <-app_assoc in Hn.
Qed.

Lemma traced_mono {A} I h (m : Proc A) (Q Q' : list (Env * S) → A → Prop) :
  (∀ h' a, Q (h ++ h') a → Q' (h ++ h') a) → traced I h m Q → traced I h m Q'.
Proof.
  revert h. induction m as [a|f n IH]; intros h HQ Hm; cbn in *.
  - specialize (HQ [] a). rewrite app_nil_r in HQ. by apply HQ.
  - intros e s. destruct (Hm e s) as [HI Hn]. split; [done|]. apply IH; [|done]. intros h' a.
    rewrite <-app_assoc. apply HQ.
Qed.

(** A weaker condition on each step. *)
Lemma traced_impl {A} I J h (m : Proc A) Q :
  (∀ h' e s s', I (h ++ h') e s s' → J (h ++ h') e s s') → traced I h m Q → traced J h m Q.
Proof.
  revert h. induction m as [a|f n IH]; intros h HIJ; cbn; [done|]. intros Hm e s. destruct (Hm e s) as [HI Hn]. split.
  - specialize (HIJ [] e s (f e s)). rewrite app_nil_r in HIJ. auto.
  - apply IH; [|done]. intros h' e' t t'. rewrite <-app_assoc. apply HIJ.
Qed.

Lemma traced_bind {A B} I h (m : Proc A) (k : A → Proc B) Q :
  traced I h m (fun h' a => traced I h' (k a) Q) → traced I h (proc_bind m k) Q.
Proof.
  revert h. induction m as [a|f n IH]; intros h Hm; cbn in *; [done|].
  intros e s. destruct (Hm e s) as [HI Hn]. split; [done|]. by apply IH.
Qed.

Lemma traced_try {X A B} I h (m : P X A) (k : A → P X B) Q :
  traced I h m (fun h' r => match r with Ok a => traced I h' (k a) Q | Err e => Q h' (Err e) end) → traced I h (m ≫= k) Q.
Proof. intros Hm. apply traced_bind. eapply traced_mono, Hm. by intros h' [a|e]. Qed.

(** A value followed by the rest of a program, where an error ends it. *)
Lemma try_pure {X A B} I h (r : result X A) (k : A → P X B) (Q : list (Env * S) → result X B → Prop) :
  (∀ h x, Q h (Err x)) → (∀ a, r = Ok a → traced I h (k a) Q) → traced I h (of_result r ≫= k) Q.
Proof. intros He Hk. apply traced_try. destruct r as [a|x]; cbn; auto. Qed.
(** A program whose result is known, then the rest, where an error ends it. *)
Lemma traced_seq {X A B} I h (m : P X A) (k : A → P X B) Qm (Q : list (Env * S) → result X B → Prop) :
  traced I h m Qm → (∀ h x, Q h (Err x)) → (∀ h' a, Qm (h ++ h') (Ok a) → traced I (h ++ h') (k a) Q) → traced I h (m ≫= k) Q.
Proof. intros Hm He Hk. apply traced_try. eapply traced_mono, Hm. intros h' [a|x]; auto. Qed.
Lemma traced_observe {X A} I h (f : Env → A) (Q : list (Env * S) → result X A → Prop) :
  (∀ e s, I h e s s ∧ Q (h ++ [(e, s)]) (Ok (f e))) → traced I h (observe f : P X A) Q.
Proof. done. Qed.

(** The same without the history: every step of the program, in whatever state
    it is made, is in [T]. *)
Fixpoint always {A} (T : Env → S → S → Prop) (m : Proc A) : Prop :=
  match m with
  | Ret _ => True
  | Step f n => ∀ e s, T e s (f e s) ∧ always T (n e s)
  end.

Section always.
Context (T : Env → S → S → Prop).

Lemma always_bind {A B} (m : Proc A) (k : A → Proc B) : always T m → (∀ a, always T (k a)) → always T (proc_bind m k).
Proof.
  intros Hm Hk. induction m as [a|f n IH]; cbn in *; [apply Hk|]. intros e s. destruct (Hm e s) as [HT Hn]. auto.
Qed.
Lemma always_try {X A B} (m : P X A) (k : A → P X B) : always T m → (∀ a, always T (k a)) → always T (m ≫= k).
Proof. intros Hm Hk. apply always_bind; [done|]. by intros [a|x]. Qed.
Lemma always_map_err {X Y A} (g : X → Y) (m : P X A) : always T m → always T (map_err g m).
Proof. intros Hm. by apply always_bind. Qed.
Lemma always_ignore {X Y A} (m : P X A) : always T m → always T (ignore m : P Y unit).
Proof. intros Hm. by apply always_bind. Qed.
Lemma always_makes {A} (m : Proc A) h e s s' : always T m → makes m h e s s' → T e s s'.
Proof. intros Hm Hr. induction Hr as [f n e s|f n e s h e' t t' _ IH]; cbn in Hm; [apply Hm|]. apply IH, Hm. Qed.
Lemma always_traced {A} (I : list (Env * S) → Env → S → S → Prop) h (m : Proc A) Q :
  always T m → (∀ h' e s s', T e s s' → I (h ++ h') e s s') → (∀ h' a, Q (h ++ h') a) → traced I h m Q.
Proof.
  revert h. induction m as [a|f n IH]; intros h Hm HI HQ; cbn in *.
  - specialize (HQ [] a). by rewrite app_nil_r in HQ.
  - intros e s. destruct (Hm e s) as [HT Hn]. split; [specialize (HI []); rewrite app_nil_r in HI; by apply HI|].
    apply IH; [done|..]; intros h'; rewrite <-app_assoc; auto.
Qed.
End always.

Lemma always_mono {A} (T T' : Env → S → S → Prop) (m : Proc A) : (∀ e s s', T e s s' → T' e s s') → always T m → always T' m.
Proof. intros HT. induction m as [a|f n IH]; cbn; [done|]. intros Hm e s. destruct (Hm e s) as [Hf Hn]. auto. Qed.

(** What neither the others nor the program itself change. *)
Lemma among_keeps {A} (R : S → S → Prop) (T : Env → S → S → Prop) (J : S → Prop) (m : Proc A) s :
  (∀ t t', R t t' → J t → J t') → (∀ e t t', T e t t' → J t → J t') → always T m → J s → among R m s (fun _ t => J t).
Proof.
  intros HR HT. revert s. induction m as [a|f n IH]; intros s; cbn; [done|]. intros Hm Hs e s' Hr. destruct (Hm e s') as [Hf Hn]. eauto.
Qed.

Lemma traced_always {A} (I : list (Env * S) → Env → S → S → Prop) (T : Env → S → S → Prop) h (m : Proc A) Q :
  (∀ h e s s', I h e s s' → T e s s') → traced I h m Q → always T m.
Proof.
  intros HI. revert h. induction m as [a|f n IH]; intros h Hm; cbn in *; [done|]. intros e s. destruct (Hm e s) as [Hf Hn]. eauto.
Qed.

(** At some step of a run. *)
Definition once (h : list (Env * S)) (Q : Env → S → Prop) : Prop := ∃ e s, (e, s) ∈ h ∧ Q e s.

Lemma once_here h e s (Q : Env → S → Prop) : Q e s → once (h ++ [(e, s)]) Q.
Proof. intros HQ. exists e, s. split; [apply elem_of_app; right; by apply list_elem_of_singleton|done]. Qed.
Lemma once_app h h' Q : once h Q → once (h ++ h') Q.
Proof. intros (e & s & Hin & HQ). exists e, s. split; [apply elem_of_app; by left|done]. Qed.

Lemma once_sub h h' Q : h `sublist_of` h' → once h Q → once h' Q.
Proof. intros Hs (e & s & Hin & HQ). exists e, s. split; [by eapply elem_of_submseteq, sublist_submseteq|done]. Qed.

(** ** Programs that run side by side

    [join_all] and the concurrent streams of [futures]: every step belongs to one
    of the programs, and the environment says to which. *)

Section par.
Context (first : nat → Env → bool).

Fixpoint par2 {A B} (i : nat) (m : Proc A) : Proc B → Proc (A * B) :=
  fix other (n : Proc B) : Proc (A * B) :=
    match m with
    | Ret a => match n with Ret b => Ret (a, b) | Step g l => Step g (fun e s => other (l e s)) end
    | Step f k =>
        match n with
        | Ret b => Step f (fun e s => par2 i (k e s) (Ret b))
        | Step g l => Step (fun e s => if first i e then f e s else g e s)
                           (fun e s => if first i e then par2 i (k e s) n else other (l e s))
        end
    end.
Fixpoint par {A} (i : nat) (ms : list (Proc A)) : Proc (list A) :=
  match ms with
  | [] => Ret []
  | m :: ms => proc_bind (par2 i m (par (Datatypes.S i) ms)) (fun r => Ret (r.1 :: r.2))
  end.

Lemma always_par2 {A B} T i (m : Proc A) (n : Proc B) : always T m → always T n → always T (par2 i m n).
Proof.
  revert n. induction m as [a|f k IH]; intros n.
  - intros _. induction n as [b|g l IHn]; cbn; [done|]. intros Hn e s. destruct (Hn e s). auto.
  - intros Hm. induction n as [b|g l IHn]; cbn; intros Hn e s; destruct (Hm e s) as [Hf Hk]; [auto|]. destruct (Hn e s) as [Hg Hl].
    destruct (first i e); split; [done|by apply IH|done|by apply IHn].
Qed.
Lemma always_par {A} T i (ms : list (Proc A)) : Forall (always T) ms → always T (par i ms).
Proof. intros Hms. revert i. induction Hms as [|m ms Hm _ IH]; intros i; cbn; [done|]. apply always_bind; [by apply always_par2|done]. Qed.

(** What a program knows of its own steps it also knows when others step in between. *)
Definition grows (I : list (Env * S) → Env → S → S → Prop) : Prop := ∀ h h' e s s', h `sublist_of` h' → I h e s s' → I h' e s s'.
Definition grows_post {A} (Q : list (Env * S) → A → Prop) : Prop := ∀ h h' a, h `sublist_of` h' → Q h a → Q h' a.
Lemma traced_sub {A} I h h' (m : Proc A) Q : grows I → grows_post Q → h `sublist_of` h' → traced I h m Q → traced I h' m Q.
Proof.
  intros HI HQ. revert h h'. induction m as [a|f n IH]; intros h h' Hs; cbn; [by apply HQ|]. intros Hm e s. destruct (Hm e s) as [Hf Hn].
  split; [by eapply HI|]. eapply IH, Hn. by apply sublist_app.
Qed.
Lemma traced_par2 {A B} I h i (m : Proc A) (n : Proc B) Qm Qn :
  grows I → grows_post Qm → grows_post Qn → traced I h m Qm → traced I h n Qn → traced I h (par2 i m n) (fun h r => Qm h r.1 ∧ Qn h r.2).
Proof.
  intros HI Hqm Hqn. revert h n. induction m as [a|f k IH]; intros h n.
  - revert h. induction n as [b|g l IHn]; intros h Hm Hn; cbn in *; [done|]. intros e s. destruct (Hn e s) as [Hg Hl].
    split; [done|]. apply IHn; [|done]. eapply Hqm, Hm. by apply sublist_inserts_r.
  - revert h. induction n as [b|g l IHn]; intros h Hm Hn; cbn; intros e s; destruct (Hm e s) as [Hf Hk].
    + split; [done|]. apply IH; [done|]. cbn. eapply Hqn, Hn. by apply sublist_inserts_r.
    + destruct (Hn e s) as [Hg Hl]. destruct (first i e); (split; [done|]).
      * apply IH; [done|]. eapply traced_sub, Hn; [done..|by apply sublist_inserts_r].
      * apply IHn; [|done]. eapply (traced_sub I h _ (Step f k)), Hm; [done..|by apply sublist_inserts_r].
Qed.
Lemma traced_par {A} I h i (ms : list (Proc A)) Q :
  grows I → grows_post Q → Forall (fun m => traced I h m Q) ms → traced I h (par i ms) (fun h l => Forall (Q h) l).
Proof.
  intros HI HQ Hms. revert i. induction Hms as [|m ms Hm _ IH]; intros i; cbn; [done|]. apply traced_bind.
  eapply traced_mono; [|apply traced_par2; [done|exact HQ| |exact Hm|apply IH]]; [intros h' [a l] [Ha Hl]; by constructor|].
  intros h1 h2 l Hs Hl. eapply Forall_impl; [exact Hl|]. intros a. by apply HQ.
Qed.
End par.

(** ** Pools *)

Context {R : Type}.
Record Pool := { state : S; threads : list (Proc R) }.

(** A program may be started, and the environment in which a step is made may
    be restricted ([admits], for example to fresh identifiers). *)
Context (program : Proc R → Prop) (admits : Env → S → Prop).

Inductive pool_step (p : Pool) : Pool → Prop :=
| pool_spawn m : program m → pool_step p {| state := state p; threads := threads p ++ [m] |}
| pool_run i e f n :
    threads p !! i = Some (Step f n) → admits e (state p) →
    pool_step p {| state := f e (state p); threads := <[i := n e (state p)]> (threads p) |}.

(** Running a given schedule: which program steps next, in which environment; a
    program that has finished, or an environment that is not admitted, is passed over. *)
Fixpoint execute `{∀ e s, Decision (admits e s)} (schedule : list (nat * Env)) (p : Pool) : Pool :=
  match schedule with
  | [] => p
  | (i, e) :: schedule =>
      match threads p !! i with
      | Some (Step f n) =>
          if decide (admits e (state p)) then execute schedule {| state := f e (state p); threads := <[i := n e (state p)]> (threads p) |}
          else execute schedule p
      | _ => execute schedule p
      end
  end.

Lemma execute_steps `{∀ e s, Decision (admits e s)} schedule p : rtc pool_step p (execute schedule p).
Proof.
  revert p. induction schedule as [|[i e] l IH]; intros p; cbn; [done|].
  destruct (threads p !! i) as [[a|f n]|] eqn:Et; try apply IH. case_decide as He; [|apply IH].
  eapply rtc_l; [by eapply pool_run|]. apply IH.
Qed.

Lemma spawn_all s l : Forall program l → rtc pool_step {| state := s; threads := [] |} {| state := s; threads := l |}.
Proof.
  induction l as [|m l IH] using rev_ind; [done|]. intros [Hl Hm]%Forall_app. apply Forall_cons in Hm as [Hm _].
  eapply rtc_r; [by apply IH|]. exact (pool_spawn {| state := s; threads := l |} m Hm).
Qed.

(** ** Permissions *)

Context {Perm : Type} (fresh : Perm).
(** What holding a permission tells about the state, and the actions it allows:
    in environment [e] the step from [s] to [s'] leaves the second permission. *)
Context (knows : Perm → S → Prop) (act : Perm → Env → S → S → Perm → Prop).

Fixpoint wp {A} (π : Perm) (m : Proc A) (Q : A → Perm → Prop) : Prop :=
  match m with
  | Ret a => Q a π
  | Step f n => ∀ e s, admits e s → knows π s → ∃ π', act π e s (f e s) π' ∧ wp π' (n e s) Q
  end.

Lemma wp_mono {A} π (m : Proc A) (Q Q' : A → Perm → Prop) :
  (∀ a π, Q a π → Q' a π) → wp π m Q → wp π m Q'.
Proof.
  intros HQ. revert π. induction m as [a|f n IH]; intros π; cbn; [apply HQ|].
  intros Hm e s He Hk. destruct (Hm e s He Hk) as (π' & Ha & Hn). exists π'. split; [done|]. by apply IH.
Qed.

Lemma wp_bind {A B} π (m : Proc A) (k : A → Proc B) (Q : B → Perm → Prop) :
  wp π m (fun a π' => wp π' (k a) Q) → wp π (proc_bind m k) Q.
Proof.
  revert π. induction m as [a|f n IH]; intros π; cbn; [done|].
  intros Hm e s He Hk. destruct (Hm e s He Hk) as (π' & Ha & Hn). exists π'. split; [done|]. by apply IH.
Qed.

(** Every step a program makes is an action, where the steps before it are admitted. *)
Lemma wp_makes {A} π (m : Proc A) Q h e s s' :
  wp π m Q → makes m h e s s' → (∀ e0 s0, (e0, s0) ∈ h ++ [(e, s)] → admits e0 s0 ∧ ∀ π, knows π s0) → ∃ π1 π2, act π1 e s s' π2.
Proof.
  intros Hm Hr. revert π Hm. induction Hr as [f n e s|f n e s h e' t t' _ IH]; intros π Hm Hin; cbn in Hm.
  - destruct (Hin e s) as [Ha Hk]; [left|]. destruct (Hm e s Ha (Hk π)) as (π' & Hact & _). eauto.
  - destruct (Hin e s) as [Ha Hk]; [left|]. destruct (Hm e s Ha (Hk π)) as (π' & _ & Hn). apply (IH π' Hn). intros e0 s0 He. apply Hin. by right.
Qed.

(** Steps the permission allows without using it up. *)
Lemma wp_always {A} (T : Env → S → S → Prop) π (m : Proc A) :
  (∀ e s s', admits e s → knows π s → T e s s' → act π e s s' π) → always T m → wp π m (fun _ π' => π' = π).
Proof.
  intros HT. induction m as [a|f n IH]; cbn; [done|]. intros Hm e s He Hk. destruct (Hm e s) as [Hf Hn]. exists π. auto.
Qed.

(** The rule for [?]: an error ends the program. *)
Lemma wp_try {X A B} π (m : P X A) (k : A → P X B) (Q : result X B → Perm → Prop) :
  wp π m (fun r π' => match r with Ok a => wp π' (k a) Q | Err e => Q (Err e) π' end) → wp π (m ≫= k) Q.
Proof. intros Hm. apply wp_bind. eapply wp_mono, Hm. by intros [a|e] π'. Qed.

(** Two programs whose effect is known together, then a third. *)
Lemma wp_try_seq {X A} π (m n : P X unit) (k : P X A) Q :
  wp π (m;; n) (fun r π' => match r with Ok _ => wp π' k Q | Err x => Q (Err x) π' end) → wp π (m;; n;; k) Q.
Proof.
  unfold mbind, P_bind. revert π. induction m as [r|f nx IH]; intros π; cbn.
  - destruct r as [[]|x]; [|done]. apply wp_try.
  - intros Hm e s He Hk. destruct (Hm e s He Hk) as (π' & Hact & Hn). exists π'. split; [done|]. by apply IH.
Qed.

(** ** Adequacy *)

(** What holds of a result, given the permission the program ends with. *)
Context (Inv : S → list Perm → Prop) (Post : R → Perm → Prop).
Hypothesis inv_knows : ∀ s πs i π, Inv s πs → πs !! i = Some π → knows π s.
Hypothesis inv_act : ∀ e s s' πs i π π',
  Inv s πs → admits e s → πs !! i = Some π → act π e s s' π' → Inv s' (<[i := π']> πs).
Hypothesis inv_spawn : ∀ s πs, Inv s πs → Inv s (πs ++ [fresh]).
Hypothesis programs_ok : ∀ m, program m → wp fresh m Post.

Definition accounted (p : Pool) : Prop :=
  ∃ πs, Inv (state p) πs ∧ Forall2 (fun m π => wp π m Post) (threads p) πs.

Lemma accounted_step p p' : accounted p → pool_step p p' → accounted p'.
Proof.
  intros (πs & HI & Hts) [m Hm|i e f n Hi He]; unfold accounted; cbn [state threads].
  - exists (πs ++ [fresh]). split; [by apply inv_spawn|]. apply Forall2_app; [done|]. constructor; [by apply programs_ok|constructor].
  - destruct (Forall2_lookup_l _ _ _ _ _ Hts Hi) as (π & Hπ & Hw). cbn in Hw.
    destruct (Hw e (state p) He (inv_knows _ _ _ _ HI Hπ)) as (π' & Ha & Hn). exists (<[i := π']> πs).
    split; [by eapply inv_act|]. by apply Forall2_insert.
Qed.

(** Every change of the state is an action. *)
Lemma accounted_acts p p' : accounted p → pool_step p p' → state p' = state p ∨ ∃ π e π', act π e (state p) (state p') π'.
Proof.
  intros (πs & HI & Hts) [m Hm|i e f n Hi He]; [by left|]. right.
  destruct (Forall2_lookup_l _ _ _ _ _ Hts Hi) as (π & Hπ & Hw). destruct (Hw e (state p) He (inv_knows _ _ _ _ HI Hπ)) as (π' & Ha & _). eauto.
Qed.

(** In every pool reached from one with no program running, the invariant holds
    for the permissions the programs have acquired. *)
Lemma reachable_accounted s p :
  Inv s [] → rtc pool_step {| state := s; threads := [] |} p → accounted p.
Proof.
  intros H0 Hp. assert (accounted {| state := s; threads := [] |}) as Hacc by (exists []; split; [done|constructor]).
  clear H0. induction Hp as [q|q1 q2 q3 Hs _ IH]; [done|]. apply IH. by eapply accounted_step.
Qed.

(** What a program that has finished ends with. *)
Lemma reachable_finished s p i a :
  Inv s [] → rtc pool_step {| state := s; threads := [] |} p → threads p !! i = Some (Ret a) →
  ∃ πs π, Inv (state p) πs ∧ πs !! i = Some π ∧ Post a π.
Proof.
  intros H0 Hp Hi. destruct (reachable_accounted s p H0 Hp) as (πs & HI & Hts).
  destruct (Forall2_lookup_l _ _ _ _ _ Hts Hi) as (π & Hπ & Hw). by exists πs, π.
Qed.
End programs.

#[global] Arguments Ret {Env S A} a.
#[global] Arguments Step {Env S A} effect next.
#[global] Arguments Proc : clear implicits.
#[global] Arguments Pool : clear implicits.
#[global] Arguments P : clear implicits.

End Interleave.
