(* ===== verification/NatTunnel.v ===== *)
(** * NatTunnel: the NAT tunnel manager

    Models [crates/server/src/nat/tunnel.rs]: which ports may be served, which
    connections are accepted, the rate limits per source, the reservation and
    release of tunnels, and the loop that carries bytes between the public
    connection and the Agent. The database, the Agent's streams, the sockets and
    the JSON parser are parameters; the clock is an argument. Pacing to the
    configured bandwidth only delays and is left out. *)

From S2P Require Import Prelude Text Externals Net Security NatPolicy IoStreams.

Module NatTunnel.
Import Net Security NatPolicy.

Definition DEFAULT_NAT_MAX_ACTIVE_TUNNELS : Z := 128.
Definition PRIVILEGED_PORT_MAX : Z := 1023.
Definition DEFAULT_RESERVED_CONTROL_PLANE_PORTS : list Z := [3000; 8080; 50051].
Definition MAX_TRACKED_SOURCE_IPS_PER_MAPPING : Z := 4096.
Definition MAX_NAT_FRAME_BYTES : Z := 64 * 1024.

(** ** Ports *)

(** [str::parse::<SocketAddr>]: [ip:port] or [[ip%scope]:port]. *)
Fixpoint read_checked (max acc : Z) (count : nat) (s : rstr) : option (Z * nat * rstr) :=
  match s with
  | c :: s' =>
      match to_digit 10 c with
      | Some d => if max <? acc * 10 + d then None else read_checked max (acc * 10 + d) (S count) s'
      | None => Some (acc, count, s)
      end
  | [] => Some (acc, count, s)
  end.
Definition read_port (s : rstr) : option (Z * rstr) :=
  s ← read_given_char 58 s;
  '(n, count, rest) ← read_checked u16_max 0 0 s;
  if (count =? 0)%nat then None else Some (n, rest).
Definition read_scope_id (s : rstr) : option rstr :=
  s ← read_given_char 37 s;
  '(_, count, rest) ← read_checked u32_max 0 0 s;
  if (count =? 0)%nat then None else Some rest.
Definition parse_socket_port (s : rstr) : option Z :=
  let v4 := '(_, s) ← read_ipv4_addr s; read_port s in
  let v6 :=
    s ← read_given_char 91 s;
    '(_, s) ← read_ipv6_addr s;
    let s := default s (read_scope_id s) in
    s ← read_given_char 93 s;
    read_port s in
  match first_of v4 v6 with Some (port, []) => Some port | _ => None end.

Definition parse_port_from_bind_spec (spec : rstr) : option Z :=
  let spec := trim spec in
  first_of (parse_socket_port spec)
    ('(_, port_str) ← rsplit_once 58 spec; parse_unsigned u16_max (trim port_str)).

Section manager.
Context `{UuidLib} (env : Env).

Definition is_reserved_control_plane_port (port : Z) : bool :=
  if contains port DEFAULT_RESERVED_CONTROL_PLANE_PORTS then true else
  if existsb (fun env_name => match env env_name ≫= parse_port_from_bind_spec with
                              | Some bound_port => bound_port =? port
                              | None => false
                              end)
       (lit <$> ["HTTP_BIND"; "GRPC_BIND"; "XLSTATUS_HTTP_BIND"; "XLSTATUS_GRPC_BIND"])
  then true else
  match env (lit "XLSTATUS_NAT_RESERVED_PORTS") with
  | Some raw_ports =>
      existsb (fun token => match parse_unsigned u16_max (trim token) with
                            | Some reserved => reserved =? port
                            | None => false
                            end) (split_by is_list_separator raw_ports)
  | None => false
  end.

Inductive BindError : Type := Privileged | BelowMinimum | ReservedPort.
Definition validate_nat_bind_port (port : Z) : result BindError unit :=
  if port <=? PRIVILEGED_PORT_MAX then Err Privileged
  else if negb (nat_public_port_allowed env port) then Err BelowMinimum
  else if is_reserved_control_plane_port port then Err ReservedPort
  else Ok ().

Definition nat_max_active_tunnels : Z :=
  match value ← env (lit "XLSTATUS_NAT_MAX_ACTIVE_TUNNELS"); parse_unsigned usize_max (trim value) with
  | Some value => if 0 <? value then value else DEFAULT_NAT_MAX_ACTIVE_TUNNELS
  | None => DEFAULT_NAT_MAX_ACTIVE_TUNNELS
  end.

Definition nat_bind_addr (port : Z) : rstr :=
  let host := match trim <$> env (lit "XLSTATUS_NAT_BIND_HOST") with
              | Some value => if is_empty value then lit "127.0.0.1" else value
              | None => lit "127.0.0.1"
              end in
  host ++ lit ":" ++ print_dec port.

Definition nat_source_allowed (peer : SocketAddr) : bool :=
  nat_source_list_allows (default (lit "127.0.0.0/8,::1/128") (env (lit "XLSTATUS_NAT_ALLOWED_SOURCES")))
    (sa_ip peer).
Definition nat_mapping_source_allowed (mapping : NatMapping) (peer : SocketAddr) : bool :=
  match allowed_sources mapping with
  | None => true
  | Some raw => nat_source_list_allows raw (sa_ip peer)
  end.

(** ** Rate limits *)

Record TrackedSourceRateState := {
  window_start : Z; connection_count : Z; bytes_transferred : Z; rate_updated_at : Z;
}.
Abbreviation Sources := (gmap rstr TrackedSourceRateState).

Inductive RateError : Type := EmptySource | TooManyTrackedSources | ConnectionRate | ByteWindow.

Definition prune_expired_source_rate_windows (sources : Sources) (min_window_start : Z) : Sources :=
  filter (fun p => min_window_start <= window_start p.2) sources.

Definition record_source_connection_in_map (sources : Sources) (source_ip : rstr) (start now : Z)
    (max_tracked_ips : Z) (max_connections max_bytes : option Z)
    : Sources * result RateError TrackedSourceRateState :=
  let sources := prune_expired_source_rate_windows sources start in
  let ip := trim source_ip in
  if is_empty ip then (sources, Err EmptySource) else
  if negb (bool_decide (is_Some (sources !! ip))) && (max_tracked_ips <=? Z.of_nat (size sources))
  then (sources, Err TooManyTrackedSources) else
  let '(conn_count, byte_count) :=
    match sources !! ip with
    | Some state => if window_start state =? start then (connection_count state, bytes_transferred state) else (0, 0)
    | None => (0, 0)
    end in
  let conn_count := saturating_add u64_max conn_count 1 in
  let updated := {| window_start := start; connection_count := conn_count; bytes_transferred := byte_count;
                    rate_updated_at := now |} in
  if match max_connections with Some limit => limit <? conn_count | None => false end
  then (<[ip := updated]> sources, Err ConnectionRate) else
  if match max_bytes with Some limit => limit <? byte_count | None => false end
  then (sources, Err ByteWindow) else
  (<[ip := updated]> sources, Ok updated).

Definition record_source_bytes_in_map (sources : Sources) (source_ip : rstr) (start bytes now max_tracked_ips : Z)
    : Sources * option TrackedSourceRateState :=
  let sources := prune_expired_source_rate_windows sources start in
  let ip := trim source_ip in
  if is_empty ip then (sources, None) else
  if negb (bool_decide (is_Some (sources !! ip))) && (max_tracked_ips <=? Z.of_nat (size sources))
  then (sources, None) else
  let entry := default {| window_start := start; connection_count := 0; bytes_transferred := 0;
                          rate_updated_at := now |} (sources !! ip) in
  let entry := if negb (window_start entry =? start)
               then {| window_start := start; connection_count := 0; bytes_transferred := 0;
                       rate_updated_at := rate_updated_at entry |}
               else entry in
  let entry := {| window_start := window_start entry; connection_count := connection_count entry;
                  bytes_transferred := saturating_add u64_max (bytes_transferred entry) bytes;
                  rate_updated_at := now |} in
  (<[ip := entry]> sources, Some entry).

Definition nat_rate_limit_window_seconds (mapping : NatMapping) : option Z :=
  match max_connections_per_window mapping, max_bytes_per_window mapping with
  | None, None => None
  | _, _ => first_of (rate_limit_window_seconds mapping) (Some 60)
  end.

(** The start of the window that holds [now], in nanoseconds like [now]. *)
Definition current_nat_usage_window (now window_seconds : Z) : Z :=
  let window_seconds := Z.max window_seconds 1 in
  let ts := timestamp now in
  seconds (ts - ts mod window_seconds).

(** ** Tunnels *)

Record ActiveTunnel := {
  tunnel_id : rstr; mapping_id : rstr; t_agent : rstr; t_created_at : Z; bytes_sent : Z; bytes_received : Z;
}.
Abbreviation Tunnels := (gmap rstr ActiveTunnel).

Inductive TunnelError : Type := GlobalLimit | MappingLimit | DuplicateId.

Definition count_for_mapping (tunnels : Tunnels) (mapping : rstr) : Z :=
  Z.of_nat (size (filter (fun p => mapping_id p.2 = mapping) tunnels)).

Definition reserve_active_tunnel (tunnels : Tunnels) (tunnel : ActiveTunnel) (global_limit : Z)
    (mapping_limit : option Z) : result TunnelError Tunnels :=
  if global_limit <=? Z.of_nat (size tunnels) then Err GlobalLimit else
  if match mapping_limit with
     | Some limit => limit <=? count_for_mapping tunnels (mapping_id tunnel)
     | None => false
     end then Err MappingLimit else
  if bool_decide (is_Some (tunnels !! tunnel_id tunnel)) then Err DuplicateId else
  Ok (<[tunnel_id tunnel := tunnel]> tunnels).

Definition verify_agent_id_matches (expected : Z) (candidate : rstr) : bool :=
  let candidate := trim candidate in
  if is_empty candidate then false
  else match uuid_parse candidate with Some parsed => parsed =? expected | None => false end.

Inductive FrameError : Type :=
| InvalidTunnelId | UnknownTunnel | NotOwner | FrameAgentMismatch | FrameTooLarge | NotDelivered
| StreamMismatch.

Definition verify_tunnel_ownership (tunnels : Tunnels) (tid : rstr) (sender : Z) : result FrameError unit :=
  if is_empty tid || existsb is_control tid then Err InvalidTunnelId else
  tunnel ← ok_or (tunnels !! tid) UnknownTunnel;
  if negb (verify_agent_id_matches sender (t_agent tunnel)) then Err NotOwner else Ok ().

(** [deliver_agent_frame]; [deliver] is the registry's answer. *)
Definition deliver_agent_frame (tunnels : Tunnels) (sender : Z) (frame : IoStreams.IoFrame) (deliver : bool)
    : result FrameError unit :=
  verify_tunnel_ownership tunnels (IoStreams.stream_id frame) sender ;;
  if negb (is_empty (IoStreams.f_agent_id frame)) && negb (verify_agent_id_matches sender (IoStreams.f_agent_id frame))
  then Err FrameAgentMismatch else
  if match IoStreams.payload frame with
     | Some (IoStreams.Data data) => MAX_NAT_FRAME_BYTES <? zlen data
     | _ => false
     end then Err FrameTooLarge else
  if negb deliver then Err NotDelivered else Ok ().

Definition verify_inbound_tunnel_frame (tid : rstr) (agent : Z) (frame : IoStreams.IoFrame) : result FrameError unit :=
  if negb (bool_decide (IoStreams.stream_id frame = tid)) then Err StreamMismatch else
  if negb (verify_agent_id_matches agent (IoStreams.f_agent_id frame)) then Err FrameAgentMismatch else Ok ().

(** ** The manager *)

Record Manager := {
  listeners : gset Z;                     (** ports with an accept loop *)
  active_tunnels : Tunnels;
  rate_limits : gmap rstr Sources;        (** by mapping *)
}.

(** What the manager asks the database. *)
Record NatDb (E : Type) := {
  list_enabled_for_active_agents : result E (list NatMapping);
  get_active_by_public_port : Z → result E (option NatMapping);
  (** connections and bytes of the window, after the update *)
  record_connection_window : rstr → rstr → Z → result E (Z * Z);
}.
#[global] Arguments list_enabled_for_active_agents {E}.
#[global] Arguments get_active_by_public_port {E}.
#[global] Arguments record_connection_window {E}.

Section db.
Context {E : Type} (db : NatDb E).

Definition is_tcp (m : NatMapping) : bool := match protocol m with Tcp => true | Udp => false end.

(** The mappings [reload] keeps: valid, on an allowed port, TCP. *)
Definition servable_mapping (m : NatMapping) : option NatMapping :=
  match validate_nat_mapping_runtime_policy env m with
  | Err _ => None
  | Ok m =>
      match validate_nat_bind_port (public_port m) with
      | Err _ => None
      | Ok _ => if is_tcp m then Some m else None
      end
  end.

(** [start_listener]: [bind] says whether the address could be bound. *)
Definition start_listener (bind : rstr → bool) (m : NatMapping) (mgr : Manager) : Manager :=
  match validate_nat_mapping_runtime_policy env m with
  | Err _ => mgr
  | Ok m =>
      match validate_nat_bind_port (public_port m) with
      | Err _ => mgr
      | Ok _ =>
          if negb (is_tcp m) then mgr
          else if negb (bind (nat_bind_addr (public_port m))) then mgr
          else {| listeners := {[public_port m]} ∪ listeners mgr; active_tunnels := active_tunnels mgr;
                  rate_limits := rate_limits mgr |}
      end
  end.

(** [reload]: the new state and the ports whose accept loop is told to stop. *)
Definition reload (bind : rstr → bool) (mgr : Manager) : result E (Manager * gset Z) :=
  mappings ← list_enabled_for_active_agents db;
  let tcp_mappings := omap servable_mapping mappings in
  let desired_ports : gset Z := list_to_set (public_port <$> tcp_mappings) in
  let active_mapping_ids := id <$> tcp_mappings in
  let mgr' := {| listeners := listeners mgr ∩ desired_ports; active_tunnels := active_tunnels mgr;
                 rate_limits := filter (fun p => p.1 ∈ active_mapping_ids) (rate_limits mgr) |} in
  Ok (foldl (fun mgr m => if bool_decide (public_port m ∈ listeners mgr) then mgr
                          else start_listener bind m mgr) mgr' tcp_mappings,
      listeners mgr ∖ desired_ports).

Definition current_mapping_for_port (port : Z) : result E (option NatMapping) :=
  match validate_nat_bind_port port with
  | Err _ => Ok None
  | Ok _ =>
      mapping ← get_active_by_public_port db port;
      match mapping with
      | None => Ok None
      | Some mapping => if is_tcp mapping then Ok (Some mapping) else Ok None
      end
  end.

Record NatUsageWindowKey := { k_window_start : Z; k_source_ip : rstr }.

Inductive Reject : Type :=
| SourceNotAllowed | MappingMissing | MappingLookupFailed (e : E) | SourceNotAllowedByMapping
| TooManyTunnels | TooManyTunnelsForMapping | RateLimited (e : RateError) | UsageFailed (e : E).

Definition record_nat_connection (mapping : NatMapping) (peer : SocketAddr) (now : Z) (mgr : Manager)
    : Manager * result Reject (option NatUsageWindowKey) :=
  let source_ip := print_ip (sa_ip peer) in
  let start := current_nat_usage_window now (default 60 (nat_rate_limit_window_seconds mapping)) in
  let sources := default ∅ (rate_limits mgr !! id mapping) in
  let '(sources, r) := record_source_connection_in_map sources source_ip start now
    MAX_TRACKED_SOURCE_IPS_PER_MAPPING (max_connections_per_window mapping) (max_bytes_per_window mapping) in
  let mgr := {| listeners := listeners mgr; active_tunnels := active_tunnels mgr;
                rate_limits := <[id mapping := sources]> (rate_limits mgr) |} in
  match r with
  | Err e => (mgr, Err (RateLimited e))
  | Ok _ =>
      match nat_rate_limit_window_seconds mapping with
      | None => (mgr, Ok None)
      | Some _ =>
          match record_connection_window db (id mapping) source_ip start with
          | Err e => (mgr, Err (UsageFailed e))
          | Ok (connections, bytes) =>
              if match max_connections_per_window mapping with Some limit => limit <? connections | None => false end
              then (mgr, Err (RateLimited ConnectionRate)) else
              if match max_bytes_per_window mapping with Some limit => u64_as_i64 limit <? bytes | None => false end
              then (mgr, Err (RateLimited ByteWindow)) else
              (mgr, Ok (Some {| k_window_start := start; k_source_ip := source_ip |}))
          end
      end
  end.

(** One connection taken from the listener of [port] by [accept_loop]. *)
Definition accept_connection (port : Z) (peer : SocketAddr) (now : Z) (mgr : Manager)
    : Manager * result Reject (NatMapping * option NatUsageWindowKey) :=
  if negb (nat_source_allowed peer) then (mgr, Err SourceNotAllowed) else
  match current_mapping_for_port port with
  | Err e => (mgr, Err (MappingLookupFailed e))
  | Ok None => (mgr, Err MappingMissing)
  | Ok (Some mapping) =>
      if negb (nat_mapping_source_allowed mapping peer) then (mgr, Err SourceNotAllowedByMapping) else
      if nat_max_active_tunnels <=? Z.of_nat (size (active_tunnels mgr)) then (mgr, Err TooManyTunnels) else
      if match max_active_tunnels mapping with
         | Some limit => limit <=? count_for_mapping (active_tunnels mgr) (id mapping)
         | None => false
         end then (mgr, Err TooManyTunnelsForMapping) else
      let '(mgr, r) := record_nat_connection mapping peer now mgr in
      match r with
      | Err e => (mgr, Err e)
      | Ok window => (mgr, Ok (mapping, window))
      end
  end.

(** The database write that follows can only lead to a warning. *)
Definition record_nat_window_bytes (mapping : NatMapping) (window : NatUsageWindowKey) (bytes now : Z) (mgr : Manager)
    : Manager :=
  match max_bytes_per_window mapping with
  | None => mgr
  | Some _ =>
      if bytes =? 0 then mgr
      else match rate_limits mgr !! id mapping with
           | None => mgr
           | Some sources =>
               {| listeners := listeners mgr; active_tunnels := active_tunnels mgr;
                  rate_limits := <[id mapping := (record_source_bytes_in_map sources (k_source_ip window)
                    (k_window_start window) bytes now MAX_TRACKED_SOURCE_IPS_PER_MAPPING).1]> (rate_limits mgr) |}
           end
  end.
End db.

(** ** The bridge *)

Inductive Control : Type := Open (local_host : rstr) (local_port : Z) | Ready.

Record BridgeConfig := {
  b_tunnel : rstr; b_agent : Z; b_agent_str : rstr; b_max_bytes : option Z;
}.
Record BridgeState := { b_sequence : Z; sent_total : Z; received_total : Z; saw_ready : bool }.
Definition bridge_start : BridgeState :=
  {| b_sequence := 2; sent_total := 0; received_total := 0; saw_ready := false |}.

(** An event, with the outcome of the I/O it leads to: whether the frame to the
    Agent could be sent and the bytes written to the public side. *)
Inductive BridgeEvent : Type :=
| PublicRead (data : option (list Z)) (sent : bool)   (** [None]: the read failed; [Some []]: closed *)
| AgentFrame (frame : option IoStreams.IoFrame) (written : bool)
| IdleTimeout (sent : bool).

Inductive BridgeAction : Type :=
| SendAgent (frame : IoStreams.IoFrame)
| WritePublic (data : list Z).

Inductive BridgeResult : Type :=
| Continue (st : BridgeState)
| Finished (st : BridgeState)      (** [Ok((sent_total, received_total))] *)
| Failed.

Section bridge.
Context (parse_control : list Z → option Control) (cfg : BridgeConfig).

Definition frame_to_agent (sequence : Z) (p : IoStreams.Payload) : IoStreams.IoFrame :=
  {| IoStreams.stream_id := b_tunnel cfg; IoStreams.sequence := sequence;
     IoStreams.f_agent_id := b_agent_str cfg; IoStreams.payload := Some p |}.
Definition close_frame (sequence : Z) (reason : rstr) : IoStreams.IoFrame :=
  frame_to_agent sequence (IoStreams.Close reason).

(** [ensure_nat_byte_limit]: carry on, or close the tunnel and fail. *)
Definition ensure_nat_byte_limit (st : BridgeState) : list BridgeAction * BridgeResult :=
  match b_max_bytes cfg with
  | Some limit =>
      if saturating_add u64_max (sent_total st) (received_total st) <=? limit then ([], Continue st)
      else ([SendAgent (close_frame (b_sequence st) (lit "NAT tunnel byte limit exceeded"))], Failed)
  | None => ([], Continue st)
  end.

(** Data from the Agent that is to be written to the public side. *)
Definition write_public (st : BridgeState) (data : list Z) (written : bool) : list BridgeAction * BridgeResult :=
  if negb written then ([], Failed) else
  let st := {| b_sequence := b_sequence st; sent_total := sent_total st;
               received_total := received_total st + zlen data; saw_ready := saw_ready st |} in
  let '(acts, r) := ensure_nat_byte_limit st in (WritePublic data :: acts, r).

Definition set_ready (st : BridgeState) : BridgeState :=
  {| b_sequence := b_sequence st; sent_total := sent_total st; received_total := received_total st;
     saw_ready := true |}.

Definition bridge_step (tunnels : Tunnels) (st : BridgeState) (ev : BridgeEvent) : list BridgeAction * BridgeResult :=
  match ev with
  | PublicRead None _ => ([], Failed)
  | PublicRead (Some []) sent =>
      if sent then ([SendAgent (close_frame (b_sequence st) (lit "public stream closed"))], Finished st)
      else ([], Failed)
  | PublicRead (Some data) sent =>
      if negb sent then ([], Failed) else
      let frame := frame_to_agent (b_sequence st) (IoStreams.Data data) in
      let st := {| b_sequence := saturating_add u64_max (b_sequence st) 1; sent_total := sent_total st + zlen data;
                   received_total := received_total st; saw_ready := saw_ready st |} in
      let '(acts, r) := ensure_nat_byte_limit st in (SendAgent frame :: acts, r)
  | AgentFrame None _ => ([], Finished st)
  | AgentFrame (Some frame) written =>
      if negb (is_ok (verify_inbound_tunnel_frame (b_tunnel cfg) (b_agent cfg) frame)) then ([], Continue st) else
      if negb (match tunnels !! b_tunnel cfg with
               | Some tunnel => verify_agent_id_matches (b_agent cfg) (t_agent tunnel)
               | None => false
               end) then ([], Finished st) else
      match IoStreams.payload frame with
      | Some (IoStreams.Data data) =>
          if MAX_NAT_FRAME_BYTES <? zlen data
          then ([SendAgent (close_frame (b_sequence st) (lit "NAT tunnel frame size limit exceeded"))], Failed)
          else if negb (saw_ready st) then
            match parse_control data with
            | Some Ready => ([], Continue (set_ready st))
            | Some (Open _ _) => ([], Continue st)
            | None => write_public (set_ready st) data written
            end
          else write_public st data written
      | Some (IoStreams.Close _) => ([], Finished st)
      | Some (IoStreams.Error _ _) => ([], Failed)
      | None => ([], Continue st)
      end
  | IdleTimeout sent =>
      (if sent then [SendAgent (close_frame (b_sequence st) (lit "NAT tunnel idle timeout"))] else [], Failed)
  end.

(** The loop over a sequence of events; [Continue] at the end: still running. *)
Fixpoint run_bridge (st : BridgeState) (events : list (Tunnels * BridgeEvent)) : list BridgeAction * BridgeResult :=
  match events with
  | [] => ([], Continue st)
  | (tunnels, ev) :: events =>
      let '(acts, r) := bridge_step tunnels st ev in
      match r with
      | Continue st => let '(acts', r) := run_bridge st events in (acts ++ acts', r)
      | _ => (acts, r)
      end
  end.
End bridge.

Inductive HandleError : Type := BadPort | BadAgentId | AgentOffline | NotReserved (e : TunnelError) | OpenFailed | BridgeFailed.

(** The request that opens the tunnel; [encode_open] is its JSON text. *)
Definition open_frame (encode_open : rstr → Z → list Z) (mapping : NatMapping) (tid : rstr) : IoStreams.IoFrame :=
  {| IoStreams.stream_id := tid; IoStreams.sequence := 1; IoStreams.f_agent_id := agent_id mapping;
     IoStreams.payload := Some (IoStreams.Data (encode_open (local_host mapping) (local_port mapping))) |}.

(** [handle_connection], on the manager and the I/O registry: the tunnel is
    reserved and its stream subscribed, used, and both are released whatever
    happened in between. [c] and [w] are the identities of the new inbox and
    watch; [opened] and [events] are the answers of the Agent's stream, and
    [meanwhile] is what other tasks do to the two tables while this connection
    runs. [None]: the bridge is still running. *)
Definition handle_connection (parse_control : list Z → option Control) (encode_open : rstr → Z → list Z)
    (mapping : NatMapping) (tid : rstr) (c w now : Z) (window : option NatUsageWindowKey) (opened : bool)
    (events : list (Tunnels * BridgeEvent))
    (meanwhile : Manager * IoStreams.IoRegistry → Manager * IoStreams.IoRegistry)
    (mgr : Manager) (io : IoStreams.IoRegistry)
    : option (Manager * IoStreams.IoRegistry * result HandleError (Z * Z)) :=
  match validate_nat_bind_port (public_port mapping) with
  | Err _ => Some (mgr, io, Err BadPort)
  | Ok _ =>
  match uuid_parse (agent_id mapping) with
  | None => Some (mgr, io, Err BadAgentId)
  | Some agent =>
  if negb (IoStreams.is_agent_online agent io) then Some (mgr, io, Err AgentOffline) else
  let tunnel := {| tunnel_id := tid; mapping_id := id mapping; t_agent := agent_id mapping; t_created_at := now;
                   bytes_sent := 0; bytes_received := 0 |} in
  match reserve_active_tunnel (active_tunnels mgr) tunnel nat_max_active_tunnels (max_active_tunnels mapping) with
  | Err e => Some (mgr, io, Err (NotReserved e))
  | Ok tunnels =>
      let io := IoStreams.subscribe_stream tid agent c w io in
      let opened := is_ok (IoStreams.send_to_agent_check agent (open_frame encode_open mapping tid) io) && opened in
      let '(mgr, io) :=
        meanwhile ({| listeners := listeners mgr; active_tunnels := tunnels; rate_limits := rate_limits mgr |}, io) in
      let r := if opened
               then (run_bridge parse_control
                      {| b_tunnel := tid; b_agent := agent; b_agent_str := agent_id mapping;
                         b_max_bytes := max_bytes_per_tunnel mapping |} bridge_start events).2
               else Failed in
      let io := IoStreams.unsubscribe_stream tid io in
      let released := {| listeners := listeners mgr; active_tunnels := delete tid (active_tunnels mgr);
                         rate_limits := rate_limits mgr |} in
      match r with
      | Continue _ => None
      | Finished st =>
          Some (match window with
                | Some window => record_nat_window_bytes mapping window (sent_total st + received_total st) now released
                | None => released
                end, io, Ok (sent_total st, received_total st))
      | Failed => Some (released, io, Err (if opened then BridgeFailed else OpenFailed))
      end
  end end end.
End manager.
End NatTunnel.
