(* ===== verification/NatTunnelProofs.v ===== *)
(** * NatTunnelProofs: limits hold, and the bridge accounts for every byte

    The rate limits over any sequence of connections, the limits on tunnels,
    the ports a reload may serve, and the accounting of the bridge loop. *)

From S2P Require Import Prelude Text Externals Net Security NatPolicy IoStreams NatTunnel.

Module NatTunnelProofs.
Import Net Security NatPolicy NatTunnel.

(** ** Tunnels *)

Lemma count_insert (tunnels : gmap rstr ActiveTunnel) t mapping :
  tunnels !! tunnel_id t = None →
  count_for_mapping (<[tunnel_id t := t]> tunnels) mapping
  = count_for_mapping tunnels mapping + (if bool_decide (mapping_id t = mapping) then 1 else 0).
Proof.
  intros Hn. unfold count_for_mapping. rewrite map_filter_insert. cbn.
  case_decide as Hm; case_bool_decide; try done.
  - rewrite map_size_insert_None; [lia|]. apply map_lookup_filter_None. by left.
  - rewrite delete_id by done. lia.
Qed.

(** A tunnel is reserved exactly when there is room for it overall and for
    its mapping and its id is new; both limits then still hold with it counted
    in, and nothing else changes. *)
Theorem reserve_exact tunnels t global limit tunnels' :
  reserve_active_tunnel tunnels t global limit = Ok tunnels' ↔
  tunnels' = <[tunnel_id t := t]> tunnels ∧ tunnels !! tunnel_id t = None
  ∧ Z.of_nat (size tunnels') <= global
  ∧ (∀ l, limit = Some l → count_for_mapping tunnels' (mapping_id t) <= l).
Proof.
  unfold reserve_active_tunnel. split.
  - destruct (Z.leb_spec global (Z.of_nat (size tunnels))); [done|].
    destruct (match limit with Some l => _ | None => false end) eqn:Hl; [done|].
    case_bool_decide as Hs; [done|]. intros [= <-].
    assert (tunnels !! tunnel_id t = None) as Hn by (by apply eq_None_not_Some).
    split_and!; [done|done| |].
    + rewrite map_size_insert_None by done. lia.
    + intros l ->. bool_prop. rewrite count_insert by done. rewrite bool_decide_eq_true_2 by done. lia.
  - intros (-> & Hn & Hg & Hl). rewrite map_size_insert_None in Hg by done.
    rewrite (proj2 (Z.leb_gt _ _)) by lia.
    assert (match limit with Some l => l <=? count_for_mapping tunnels (mapping_id t) | None => false end = false) as ->.
    { destruct limit as [l|]; [|done]. specialize (Hl l eq_refl). rewrite count_insert in Hl by done.
      rewrite bool_decide_eq_true_2 in Hl by done. apply Z.leb_gt. lia. }
    rewrite bool_decide_eq_false_2; [done|]. rewrite Hn. by intros [? ?].
Qed.

(** ** Rate limits *)

(** The connections counted for a source in the window that starts at [start]. *)
Definition counted (sources : gmap rstr TrackedSourceRateState) (start : Z) (ip : rstr) : Z :=
  match sources !! ip with
  | Some s => if window_start s =? start then connection_count s else 0
  | None => 0
  end.

Definition counts_ok (sources : gmap rstr TrackedSourceRateState) : Prop :=
  map_Forall (fun _ s => 0 <= connection_count s <= u64_max) sources.

Lemma prune_lookup sources start ip s :
  prune_expired_source_rate_windows sources start !! ip = Some s ↔ sources !! ip = Some s ∧ start <= window_start s.
Proof. unfold prune_expired_source_rate_windows. rewrite map_lookup_filter_Some. done. Qed.

Lemma prune_counted sources start ip :
  counted (prune_expired_source_rate_windows sources start) start ip = counted sources start ip.
Proof.
  unfold counted. destruct (sources !! ip) as [s|] eqn:Hs.
  - destruct (Z.eqb_spec (window_start s) start) as [E|E].
    + assert (prune_expired_source_rate_windows sources start !! ip = Some s) as ->.
      { apply prune_lookup. split; [done|lia]. }
      by rewrite (proj2 (Z.eqb_eq _ _) E).
    + destruct (prune_expired_source_rate_windows sources start !! ip) as [s'|] eqn:Hp; [|done].
      apply prune_lookup in Hp as [Hp _]. rewrite Hs in Hp. injection Hp as <-.
      by rewrite (proj2 (Z.eqb_neq _ _) E).
  - destruct (prune_expired_source_rate_windows sources start !! ip) as [s'|] eqn:Hp; [|done].
    apply prune_lookup in Hp as [Hp _]. congruence.
Qed.

Lemma prune_counts_ok sources start : counts_ok sources → counts_ok (prune_expired_source_rate_windows sources start).
Proof. intros Hok ip s [Hs _]%prune_lookup. by apply (Hok ip). Qed.

Lemma counted_range sources start ip : counts_ok sources → 0 <= counted sources start ip <= u64_max.
Proof.
  intros Hok. unfold counted. destruct (sources !! ip) as [s|] eqn:Hs; [|done].
  case_match; [by apply (Hok ip)|done].
Qed.

(** What one connection does to the counts. *)
Lemma record_connection_spec sources ip start now cap limit bytes sources' r :
  counts_ok sources →
  record_source_connection_in_map sources ip start now cap limit bytes = (sources', r) →
  counts_ok sources'
  ∧ (∀ k, k ≠ trim ip → counted sources' start k = counted sources start k)
  ∧ counted sources start (trim ip) <= counted sources' start (trim ip)
  ∧ (Z.of_nat (size sources) <= cap → Z.of_nat (size sources') <= cap)
  ∧ (∀ l st, r = Ok st → limit = Some l → l < u64_max →
       counted sources' start (trim ip) = counted sources start (trim ip) + 1
       ∧ counted sources' start (trim ip) <= l).
Proof.
  intros Hok. unfold record_source_connection_in_map. cbv zeta.
  pose proof (prune_counts_ok sources start Hok) as Hpok.
  assert (size (prune_expired_source_rate_windows sources start) ≤ size sources)%nat as Hsz.
  { apply map_subseteq_size, map_subseteq_spec. intros k s [? _]%prune_lookup. done. }
  assert (∀ k, counted (prune_expired_source_rate_windows sources start) start k = counted sources start k) as Hpc
    by (intros; apply prune_counted).
  revert Hpok Hsz Hpc. generalize (prune_expired_source_rate_windows sources start). intros p Hpok Hsz Hpc.
  destruct (is_empty (trim ip)).
  { intros [= <- <-]. split_and!; first [done|by intros; apply Hpc|rewrite ?Hpc; lia]. }
  destruct (negb (bool_decide (is_Some (p !! trim ip))) && (cap <=? Z.of_nat (size p))) eqn:Hcap.
  { intros [= <- <-]. split_and!; first [done|by intros; apply Hpc|rewrite ?Hpc; lia]. }
  assert (match p !! trim ip with
          | Some s => if window_start s =? start then (connection_count s, bytes_transferred s) else (0, 0)
          | None => (0, 0) end
          = (counted p start (trim ip), match p !! trim ip with
              | Some s => if window_start s =? start then bytes_transferred s else 0 | None => 0 end)) as ->.
  { unfold counted. destruct (p !! trim ip) as [s|]; [|done]. by destruct (window_start s =? start). }
  pose proof (counted_range p start (trim ip) Hpok) as Hcr. pose proof (Hpc (trim ip)) as Hpi.
  set (n := saturating_add u64_max (counted p start (trim ip)) 1).
  assert (counted p start (trim ip) <= n <= u64_max ∧ 0 <= n) as Hn by (unfold n, saturating_add; lia).
  assert (∀ u, connection_count u = n → window_start u = start →
    counts_ok (<[trim ip := u]> p)
    ∧ (∀ k, k ≠ trim ip → counted (<[trim ip := u]> p) start k = counted sources start k)
    ∧ counted (<[trim ip := u]> p) start (trim ip) = n
    ∧ (Z.of_nat (size sources) <= cap → Z.of_nat (size (<[trim ip := u]> p)) <= cap)) as Hins.
  { intros u Hu Hw. split_and!.
    - apply map_Forall_insert_2; [rewrite Hu; lia|done].
    - intros k Hk. unfold counted. rewrite lookup_insert_ne by done. apply Hpc.
    - unfold counted. rewrite lookup_insert_eq, Hw, Z.eqb_refl. done.
    - intros Hle. destruct (p !! trim ip) as [e|] eqn:He.
      + rewrite map_size_insert_Some by done. lia.
      + rewrite map_size_insert_None by done. cbn in Hcap. bool_prop. lia. }
  destruct (match limit with Some l => l <? n | None => false end) eqn:Hlim.
  { match goal with |- (<[_ := ?u]> _, _) = _ → _ => destruct (Hins u eq_refl eq_refl) as (? & ? & E & ?) end.
    intros [= <- <-]. split_and!; first [done|rewrite E; lia]. }
  destruct (match bytes with Some l => _ | None => false end).
  { intros [= <- <-]. split_and!; first [done|by intros; apply Hpc|rewrite ?Hpc; lia]. }
  match goal with |- (<[_ := ?u]> _, _) = _ → _ => destruct (Hins u eq_refl eq_refl) as (? & ? & E & ?) end.
    intros [= <- <-]. split_and!; [done|done|rewrite E; lia|done|].
  intros l st _ -> Hl. bool_prop. rewrite E. unfold n, saturating_add in *. lia.
Qed.

(** What a finished tunnel does to the counts: nothing. *)
Lemma record_bytes_spec sources ip start bytes now cap sources' r :
  counts_ok sources → record_source_bytes_in_map sources ip start bytes now cap = (sources', r) →
  counts_ok sources' ∧ (∀ k, counted sources' start k = counted sources start k)
  ∧ (Z.of_nat (size sources) <= cap → Z.of_nat (size sources') <= cap).
Proof.
  intros Hok. unfold record_source_bytes_in_map. cbv zeta.
  pose proof (prune_counts_ok sources start Hok) as Hpok.
  assert (size (prune_expired_source_rate_windows sources start) ≤ size sources)%nat as Hsz.
  { apply map_subseteq_size, map_subseteq_spec. intros k s [? _]%prune_lookup. done. }
  assert (∀ k, counted (prune_expired_source_rate_windows sources start) start k = counted sources start k) as Hpc
    by (intros; apply prune_counted).
  revert Hpok Hsz Hpc. generalize (prune_expired_source_rate_windows sources start). intros p Hpok Hsz Hpc.
  destruct (is_empty (trim ip)); [intros [= <- <-]; split_and!; [done|done|lia]|].
  destruct (negb (bool_decide (is_Some (p !! trim ip))) && (cap <=? Z.of_nat (size p))) eqn:Hcap;
    [intros [= <- <-]; split_and!; [done|done|lia]|].
  match goal with |- (<[_ := ?u]> _, _) = _ → _ => set (e := u) end. intros [= <- <-].
  assert (connection_count e = counted p start (trim ip) ∧ window_start e = start) as [He Hw].
  { unfold e, counted. destruct (p !! trim ip) as [s|]; cbn; [|by rewrite Z.eqb_refl].
    destruct (Z.eqb_spec (window_start s) start); by cbn. }
  split_and!.
  - apply map_Forall_insert_2; [|done]. rewrite He. by apply counted_range.
  - intros k. rewrite <- Hpc. unfold counted at 1. destruct (decide (k = trim ip)) as [->|].
    + rewrite lookup_insert_eq, Hw, Z.eqb_refl. done.
    + by rewrite lookup_insert_ne.
  - intros Hle. destruct (p !! trim ip) as [s|] eqn:Hs.
    + rewrite map_size_insert_Some by done. lia.
    + rewrite map_size_insert_None by done. cbn in Hcap. bool_prop. lia.
Qed.

(** What happens to the sources of a mapping within one window. *)
Inductive rate_op : Type :=
| Connect (ip : rstr) (now : Z)
| Transfer (ip : rstr) (bytes now : Z).

Fixpoint run_rate (start cap : Z) (limit bytes : option Z) (sources : gmap rstr TrackedSourceRateState)
    (ops : list rate_op) (k : rstr) : gmap rstr TrackedSourceRateState * Z :=
  match ops with
  | [] => (sources, 0)
  | Connect ip now :: ops =>
      let '(sources, r) := record_source_connection_in_map sources ip start now cap limit bytes in
      let '(sources, n) := run_rate start cap limit bytes sources ops k in
      (sources, n + if is_ok r && bool_decide (trim ip = k) then 1 else 0)
  | Transfer ip b now :: ops =>
      run_rate start cap limit bytes (record_source_bytes_in_map sources ip start b now cap).1 ops k
  end.

Lemma run_rate_bound start cap l bytes ops k : ∀ sources,
  counts_ok sources → l < u64_max →
  (run_rate start cap (Some l) bytes sources ops k).2 <= Z.max 0 (l - counted sources start k)
  ∧ (Z.of_nat (size sources) <= cap → Z.of_nat (size (run_rate start cap (Some l) bytes sources ops k).1) <= cap).
Proof.
  induction ops as [|[ip now|ip b now] ops IH]; intros sources Hok Hl; cbn [run_rate]; [cbn; lia|..].
  - destruct (record_source_connection_in_map sources ip start now cap (Some l) bytes) as [sources' r] eqn:Er.
    pose proof (record_connection_spec _ _ _ _ _ _ _ _ _ Hok Er) as (Hok' & Hother & Hmono & Hsize & Hacc).
    specialize (IH sources' Hok' Hl). destruct (run_rate start cap (Some l) bytes sources' ops k) as [fin n].
    cbn [fst snd] in *. split; [|intros ?; apply IH; auto].
    destruct (decide (trim ip = k)) as [<-|Hne].
    + rewrite bool_decide_eq_true_2 by done. destruct r as [st|e]; cbn; [|lia].
      destruct (Hacc l st eq_refl eq_refl Hl). lia.
    + rewrite bool_decide_eq_false_2, andb_false_r by done. rewrite Hother in IH by congruence. lia.
  - destruct (record_source_bytes_in_map sources ip start b now cap) as [sources' r] eqn:Er.
    pose proof (record_bytes_spec _ _ _ _ _ _ _ _ Hok Er) as (Hok' & Hsame & Hsize).
    specialize (IH sources' Hok' Hl). rewrite Hsame in IH. cbn [fst]. split; [apply IH|]. intros ?. apply IH; auto.
Qed.

(** the connection limit is enforced: over any sequence of connections and
    finished tunnels within one window, at most [l] connections from a source are
    accepted, and never more than [cap] sources are tracked, so a flood from many
    addresses cannot exhaust memory. *)
Theorem rate_limit_enforced start cap l bytes ops k :
  0 <= l < u64_max → 0 <= cap →
  (run_rate start cap (Some l) bytes ∅ ops k).2 <= l
  ∧ Z.of_nat (size (run_rate start cap (Some l) bytes ∅ ops k).1) <= cap.
Proof.
  intros Hl Hcap. destruct (run_rate_bound start cap l bytes ops k ∅) as [H1 H2]; [apply map_Forall_empty|lia|].
  unfold counted in H1. rewrite lookup_empty in H1. rewrite map_size_empty in H2. split; [lia|apply H2; lia].
Qed.

(** ** Ports *)

Section ports.
Context `{UuidLib} (env : Env).

Lemma servable_spec m m' :
  servable_mapping env m = Some m' →
  validate_nat_mapping_runtime_policy env m' = Ok m' ∧ validate_nat_bind_port env (public_port m') = Ok ()
  ∧ is_tcp m' = true.
Proof.
  unfold servable_mapping. destruct (validate_nat_mapping_runtime_policy env m) as [v|] eqn:Hv; [|done].
  destruct (validate_nat_bind_port env (public_port v)) as [[]|] eqn:Hp; [|done].
  destruct (is_tcp v) eqn:Ht; [|done]. intros [= <-]. split_and!; [|done..]. by apply validate_mapping_fixed in Hv.
Qed.

Lemma bind_port_Ok port :
  validate_nat_bind_port env port = Ok () ↔
  1023 < port ∧ nat_public_port_min env <= port ∧ is_reserved_control_plane_port env port = false.
Proof.
  unfold validate_nat_bind_port, nat_public_port_allowed, PRIVILEGED_PORT_MAX.
  destruct (Z.leb_spec port 1023); [split; [done|lia]|].
  destruct (Z.leb_spec (nat_public_port_min env) port); cbn [negb]; [|split; [done|lia]].
  destruct (is_reserved_control_plane_port env port); naive_solver.
Qed.

Lemma reserved_defaults port : is_reserved_control_plane_port env port = false → port ∉ [3000; 8080; 50051].
Proof.
  unfold is_reserved_control_plane_port. destruct (contains port _) eqn:Hc; [done|]. intros _.
  by apply contains_false in Hc.
Qed.

Lemma start_listener_spec bind m mgr :
  validate_nat_mapping_runtime_policy env m = Ok m → validate_nat_bind_port env (public_port m) = Ok () →
  is_tcp m = true →
  start_listener env bind m mgr =
  if bind (nat_bind_addr env (public_port m))
  then {| listeners := {[public_port m]} ∪ listeners mgr; active_tunnels := active_tunnels mgr;
          rate_limits := rate_limits mgr |}
  else mgr.
Proof. intros Hv Hp Ht. unfold start_listener. rewrite Hv, Hp, Ht. cbn. by destruct (bind _). Qed.

(** The loop that starts the listeners. *)
Lemma start_all_spec bind ms mgr :
  Forall (fun m => validate_nat_mapping_runtime_policy env m = Ok m
                   ∧ validate_nat_bind_port env (public_port m) = Ok () ∧ is_tcp m = true) ms →
  let mgr' := foldl (fun mgr m => if bool_decide (public_port m ∈ listeners mgr) then mgr
                                  else start_listener env bind m mgr) mgr ms in
  (∀ p, p ∈ listeners mgr' ↔
     p ∈ listeners mgr ∨ ∃ m, m ∈ ms ∧ public_port m = p ∧ bind (nat_bind_addr env p) = true)
  ∧ rate_limits mgr' = rate_limits mgr ∧ active_tunnels mgr' = active_tunnels mgr.
Proof.
  intros Hms. revert mgr. induction Hms as [|m ms (Hv & Hp & Ht) Hms IH]; intros mgr; cbn [foldl].
  { split; [|done]. intros p. set_solver. }
  rewrite (start_listener_spec bind m mgr Hv Hp Ht).
  set (mgr1 := if bool_decide _ then mgr else _). destruct (IH mgr1) as (H1 & H2 & H3).
  assert (rate_limits mgr1 = rate_limits mgr ∧ active_tunnels mgr1 = active_tunnels mgr
    ∧ ∀ p, p ∈ listeners mgr1 ↔ p ∈ listeners mgr ∨ (public_port m = p ∧ bind (nat_bind_addr env p) = true))
    as (E1 & E2 & E3).
  { unfold mgr1. case_bool_decide as Hin; [|destruct (bind (nat_bind_addr env (public_port m))) eqn:Hb].
    - split_and!; [done..|]. intros p. split; [by left|]. by intros [?|[<- _]].
    - split_and!; [done..|]. intros p. cbn. rewrite elem_of_union, elem_of_singleton. naive_solver.
    - split_and!; [done..|]. intros p. split; [by left|]. intros [?|[<- ?]]; [done|congruence]. }
  split; [|split; congruence]. intros p. rewrite H1, E3. setoid_rewrite elem_of_cons. naive_solver.
Qed.

(** a reload serves allowed ports only: every port with an accept loop
    afterwards belongs to an enabled TCP mapping that passed the runtime policy,
    is neither privileged, below the configured minimum nor reserved for the
    control plane; loops of other ports are told to stop; every such mapping
    whose address can be bound is served; and rate-limit state is kept for served
    mappings only. *)
Theorem reload_exact {E} (db : NatDb E) bind mgr mgr' stale mappings :
  list_enabled_for_active_agents db = Ok mappings →
  reload env db bind mgr = Ok (mgr', stale) →
  (∀ p, p ∈ listeners mgr' → ∃ m, m ∈ omap (servable_mapping env) mappings ∧ public_port m = p
        ∧ 1023 < p ∧ p ∉ [3000; 8080; 50051])
  ∧ (∀ m, m ∈ omap (servable_mapping env) mappings → bind (nat_bind_addr env (public_port m)) = true →
        public_port m ∈ listeners mgr')
  ∧ (∀ p, p ∈ stale ↔ p ∈ listeners mgr ∧ p ∉ (public_port <$> omap (servable_mapping env) mappings))
  ∧ (∀ i s, rate_limits mgr' !! i = Some s → i ∈ (id <$> omap (servable_mapping env) mappings))
  ∧ active_tunnels mgr' = active_tunnels mgr.
Proof.
  intros Hl. unfold reload. rewrite Hl. cbn [mbind result_bind]. intros [= <- <-].
  set (ms := omap (servable_mapping env) mappings).
  assert (Forall (fun m => validate_nat_mapping_runtime_policy env m = Ok m
    ∧ validate_nat_bind_port env (public_port m) = Ok () ∧ is_tcp m = true) ms) as Hms.
  { apply Forall_forall. intros m (m0 & _ & Hm)%list_elem_of_omap. by apply servable_spec in Hm. }
  match goal with |- context [foldl _ ?m0 ms] => destruct (start_all_spec bind ms m0 Hms) as (H1 & H2 & H3) end.
  cbn [listeners rate_limits active_tunnels] in *. split_and!.
  - intros p Hp%H1. assert (∃ m, m ∈ ms ∧ public_port m = p) as (m & Hm & <-).
    { destruct Hp as [Hp|(m & Hm & Hp & _)]; [|eauto]. apply elem_of_intersection in Hp as [_ Hp].
      apply elem_of_list_to_set, list_elem_of_fmap in Hp as (m & -> & Hm). eauto. }
    exists m. split; [done|]. split; [done|].
    destruct (proj1 (Forall_forall _ _) Hms m Hm) as (_ & (? & _ & Hr)%bind_port_Ok & _).
    split; [done|]. by apply reserved_defaults.
  - intros m Hm Hb. apply H1. right. exists m. by split_and!.
  - intros p. rewrite elem_of_difference, elem_of_list_to_set. done.
  - intros i s. rewrite H2. intros [_ Hi]%map_lookup_filter_Some. done.
  - done.
Qed.
End ports.

(** ** The bridge *)

Section bridge.
Context `{UuidLib} (parse_control : list Z → option Control) (cfg : BridgeConfig).

(** The bytes written to the public side, the bytes sent to the Agent, and the
    sequence numbers of the frames sent to it. *)
Definition written (acts : list BridgeAction) : list Z :=
  acts ≫= fun a => match a with WritePublic data => data | SendAgent _ => [] end.
Definition forwarded (acts : list BridgeAction) : list Z :=
  acts ≫= fun a => match a with
                   | SendAgent f => match IoStreams.payload f with Some (IoStreams.Data d) => d | _ => [] end
                   | WritePublic _ => []
                   end.
Definition sequences (acts : list BridgeAction) : list Z :=
  acts ≫= fun a => match a with SendAgent f => [IoStreams.sequence f] | WritePublic _ => [] end.

Definition within_limit (st : BridgeState) : Prop :=
  match b_max_bytes cfg with Some l => sent_total st + received_total st <= l | None => True end.

Definition totals (st : BridgeState) : Z := sent_total st + received_total st.

(** What one event accounts for: the totals move by what was carried. *)
Definition accounts (st : BridgeState) (acts : list BridgeAction) (st' : BridgeState) : Prop :=
  sent_total st' = sent_total st + zlen (forwarded acts)
  ∧ received_total st' = received_total st + zlen (written acts).

Lemma accounts_refl st acts : forwarded acts = [] → written acts = [] → accounts st acts st.
Proof. intros Hf Hw. unfold accounts. rewrite Hf, Hw. unfold zlen. cbn. lia. Qed.

Lemma byte_limit_spec st acts r :
  (∀ l, b_max_bytes cfg = Some l → l < u64_max) →
  ensure_nat_byte_limit cfg st = (acts, r) →
  forwarded acts = [] ∧ written acts = []
  ∧ ((r = Continue st ∧ acts = [] ∧ within_limit st)
     ∨ (r = Failed ∧ sequences acts = [b_sequence st] ∧ ∃ l, b_max_bytes cfg = Some l ∧ l < totals st)).
Proof.
  intros Hl. unfold ensure_nat_byte_limit, within_limit, totals. destruct (b_max_bytes cfg) as [l|].
  - specialize (Hl l eq_refl). unfold saturating_add. destruct (Z.leb_spec (Z.min u64_max (sent_total st + received_total st)) l);
      intros [= <- <-]; (split; [done|]); (split; [done|]); [left|right]; split_and!; try done; try lia.
    exists l. split; [done|lia].
  - intros [= <- <-]. split_and!; try done. by left.
Qed.

Definition chunk (ev : BridgeEvent) : Z :=
  match ev with
  | PublicRead (Some data) _ => zlen data
  | AgentFrame (Some f) _ =>
      match IoStreams.payload f with
      | Some (IoStreams.Data data) => if MAX_NAT_FRAME_BYTES <? zlen data then 0 else zlen data
      | _ => 0
      end
  | _ => 0
  end.

Lemma zlen_cons {X} (x : X) l : zlen (x :: l) = 1 + zlen l.
Proof. unfold zlen. cbn [length]. lia. Qed.

Lemma write_public_spec st data ok acts r :
  (∀ l, b_max_bytes cfg = Some l → l < u64_max) →
  write_public cfg st data ok = (acts, r) →
  zlen (forwarded acts) = 0 ∧ zlen (written acts) <= zlen data
  ∧ match r with
    | Continue st' => accounts st acts st' ∧ within_limit st' ∧ sequences acts = [] ∧ b_sequence st' = b_sequence st
                      ∧ written acts = data
    | Finished _ => False
    | Failed => sequences acts = [] ∨ sequences acts = [b_sequence st]
    end.
Proof.
  intros Hl. unfold write_public. destruct ok; cbn [negb].
  2: { intros [= <- <-]. unfold zlen. cbn. split_and!; [done|lia|by left]. }
  destruct (ensure_nat_byte_limit cfg _) as [acts0 r0] eqn:E. intros [= <- <-].
  apply byte_limit_spec in E as (Hf & Hw & Hc); [|done].
  assert (forwarded (WritePublic data :: acts0) = []) as -> by done.
  assert (written (WritePublic data :: acts0) = data) as Hwr.
  { unfold written in *. rewrite bind_cons, Hw. apply app_nil_r. }
  rewrite Hwr. split; [done|]. split; [lia|]. destruct Hc as [(-> & -> & Hlim)|(-> & Hs & _)].
  - unfold accounts. rewrite Hwr. cbn [sent_total received_total b_sequence]. unfold forwarded. cbn. unfold zlen. cbn.
    split_and!; try done; lia.
  - right. exact Hs.
Qed.

Definition increasing_from (n : Z) (l : list Z) : Prop := StronglySorted Z.lt l ∧ Forall (fun k => n <= k) l.

Lemma increasing_nil n : increasing_from n [].
Proof. split; constructor. Qed.
Lemma increasing_one n : increasing_from n [n].
Proof. split; repeat constructor. lia. Qed.

(** One event of the loop. *)
Lemma bridge_step_spec tunnels st ev acts r :
  (∀ l, b_max_bytes cfg = Some l → l < u64_max) → within_limit st → b_sequence st < u64_max →
  bridge_step parse_control cfg tunnels st ev = (acts, r) →
  zlen (forwarded acts) + zlen (written acts) <= chunk ev
  ∧ increasing_from (b_sequence st) (sequences acts)
  ∧ match r with
    | Continue st' => accounts st acts st' ∧ within_limit st'
        ∧ b_sequence st <= b_sequence st' <= b_sequence st + 1 ∧ Forall (fun k => k < b_sequence st') (sequences acts)
    | Finished st' => accounts st acts st' ∧ within_limit st'
    | Failed => True
    end.
Proof.
  intros Hl Hlim Hseq. assert (∀ ev, 0 <= chunk ev) as Hc0.
  { intros [[d|] ?|[f|] ?|?]; cbn; unfold zlen; try lia. destruct (IoStreams.payload f) as [[]|]; try lia. case_match; lia. }
  assert (∀ st', b_sequence st' = b_sequence st → sent_total st' = sent_total st → received_total st' = received_total st →
    accounts st [] st' ∧ within_limit st' ∧ b_sequence st <= b_sequence st' <= b_sequence st + 1
    ∧ Forall (fun k => k < b_sequence st') (sequences [])) as Hidle.
  { intros st' E1 E2 E3. unfold accounts, within_limit in *. rewrite E1, E2, E3. unfold zlen. cbn.
    split_and!; try lia; try done. }
  destruct ev as [[[|b data]|] sent|[f|] ok|sent]; cbn [bridge_step].
  - destruct sent; intros [= <- <-]; (split; [cbn; unfold zlen; cbn; lia|]).
    + split; [apply increasing_one|]. split; [by apply accounts_refl|done].
    + split; [apply increasing_nil|done].
  - destruct sent; cbn [negb].
    2: { intros [= <- <-]. split; [apply Hc0|]. split; [apply increasing_nil|done]. }
    destruct (ensure_nat_byte_limit cfg _) as [acts0 r0] eqn:E. intros [= <- <-].
    apply byte_limit_spec in E as (Hf & Hw & Hc); [|done].
    assert (forwarded (SendAgent (frame_to_agent cfg (b_sequence st) (IoStreams.Data (b :: data))) :: acts0)
            = b :: data) as Hfw.
    { unfold forwarded in *. rewrite bind_cons, Hf. cbn. by rewrite app_nil_r. }
    assert (written (SendAgent (frame_to_agent cfg (b_sequence st) (IoStreams.Data (b :: data))) :: acts0) = []) as Hwr
      by exact Hw.
    assert (saturating_add u64_max (b_sequence st) 1 = b_sequence st + 1) as Hs by (unfold saturating_add; lia).
    unfold accounts. rewrite Hfw, Hwr. cbn [chunk]. split; [cbn; unfold zlen; cbn; lia|].
    cbn [b_sequence] in Hc. rewrite Hs in Hc.
    destruct Hc as [(-> & -> & Hlim')|(-> & Hsq & _)].
    + split; [apply increasing_one|]. cbn [sent_total received_total b_sequence].
      split; [cbn; unfold zlen; cbn; lia|]. split; [done|]. split; [lia|]. cbn. repeat constructor. lia.
    + split; [|done]. unfold sequences in *. rewrite bind_cons, Hsq. cbn. split; repeat constructor; lia.
  - intros [= <- <-]. split; [cbn; unfold zlen; cbn; lia|]. split; [apply increasing_nil|done].
  - destruct (is_ok _); cbn [negb].
    2: { intros [= <- <-]. split; [apply Hc0|]. split; [apply increasing_nil|]. by apply Hidle. }
    destruct (negb _).
    { intros [= <- <-]. split; [apply Hc0|]. split; [apply increasing_nil|]. split; [by apply accounts_refl|done]. }
    cbn [chunk]. destruct (IoStreams.payload f) as [[data|reason|code msg]|].
    + destruct (MAX_NAT_FRAME_BYTES <? zlen data).
      { intros [= <- <-]. split; [cbn; unfold zlen; cbn; lia|]. split; [apply increasing_one|done]. }
      assert (∀ st0 acts r, b_sequence st0 = b_sequence st → sent_total st0 = sent_total st →
        received_total st0 = received_total st → write_public cfg st0 data ok = (acts, r) →
        zlen (forwarded acts) + zlen (written acts) <= zlen data ∧ increasing_from (b_sequence st) (sequences acts)
        ∧ match r with
          | Continue st' => accounts st acts st' ∧ within_limit st'
              ∧ b_sequence st <= b_sequence st' <= b_sequence st + 1 ∧ Forall (fun k => k < b_sequence st') (sequences acts)
          | Finished st' => accounts st acts st' ∧ within_limit st'
          | Failed => True
          end) as Hwp.
      { intros st0 acts0 r0 E1 E2 E3 (Hf & Hw & Hr)%write_public_spec; [|done]. split; [lia|].
        destruct r0 as [st'|st'|]; [|done|].
        - destruct Hr as (Ha & Hlim' & Hs & Hsq & _). rewrite Hs. split; [apply increasing_nil|].
          unfold accounts in *. rewrite E2, E3 in Ha. split_and!; try done; try lia.
        - split; [|done]. rewrite E1 in Hr. destruct Hr as [-> | ->]; [apply increasing_nil|apply increasing_one]. }
      destruct (saw_ready st); cbn [negb]; [by apply Hwp|].
      destruct (parse_control data) as [[h p|]|].
      * intros [= <- <-]. split; [cbn; unfold zlen; cbn; lia|]. split; [apply increasing_nil|]. by apply Hidle.
      * intros [= <- <-]. split; [cbn; unfold zlen; cbn; lia|]. split; [apply increasing_nil|]. by apply Hidle.
      * by apply Hwp.
    + intros [= <- <-]. split; [done|]. split; [apply increasing_nil|]. split; [by apply accounts_refl|done].
    + intros [= <- <-]. split; [done|]. split; [apply increasing_nil|done].
    + intros [= <- <-]. split; [done|]. split; [apply increasing_nil|]. by apply Hidle.
  - intros [= <- <-]. split; [done|]. split; [apply increasing_nil|]. split; [by apply accounts_refl|done].
  - intros [= <- <-]. destruct sent; (split; [done|]); (split; [apply increasing_one || apply increasing_nil|done]).
Qed.

Lemma actions_app a b :
  written (a ++ b) = written a ++ written b ∧ forwarded (a ++ b) = forwarded a ++ forwarded b
  ∧ sequences (a ++ b) = sequences a ++ sequences b.
Proof. unfold written, forwarded, sequences. by rewrite !bind_app. Qed.

Lemma increasing_app n m l k :
  increasing_from n l → Forall (fun x => x < m) l → increasing_from m k → n <= m → increasing_from n (l ++ k).
Proof.
  intros [H1 H2] H3 [H4 H5] Hnm. split.
  - induction l as [|x l IH]; [done|]. cbn. inversion H1; inversion H2; inversion H3; subst. constructor; [by apply IH|].
    apply Forall_app. split; [done|]. eapply Forall_impl; [exact H5|]. cbn. lia.
  - apply Forall_app. split; [done|]. eapply Forall_impl; [exact H5|]. cbn. lia.
Qed.

Lemma run_bridge_spec events : ∀ st acts r,
  (∀ l, b_max_bytes cfg = Some l → l < u64_max) → within_limit st →
  b_sequence st + zlen events < u64_max →
  run_bridge parse_control cfg st events = (acts, r) →
  increasing_from (b_sequence st) (sequences acts)
  ∧ match r with Continue st' | Finished st' => accounts st acts st' ∧ within_limit st' | Failed => True end
  ∧ (∀ c l, b_max_bytes cfg = Some l → (∀ t ev, (t, ev) ∈ events → chunk ev <= c) → 0 <= c →
       totals st + zlen (forwarded acts) + zlen (written acts) <= l + c).
Proof.
  induction events as [|[tunnels ev] events IH]; intros st acts r Hl Hlim Hseq; cbn [run_bridge].
  { intros [= <- <-]. split; [apply increasing_nil|]. split; [split; [by apply accounts_refl|done]|].
    intros c l Hml _ Hc. unfold within_limit in Hlim. rewrite Hml in Hlim. unfold totals, zlen. cbn. lia. }
  rewrite zlen_cons in Hseq. pose proof (zlen_nonneg events) as Hnn.
  destruct (bridge_step parse_control cfg tunnels st ev) as [acts1 r1] eqn:E1.
  pose proof (bridge_step_spec tunnels st ev acts1 r1 Hl Hlim ltac:(lia) E1) as (Hch & Hinc & Hr).
  assert (∀ c l, b_max_bytes cfg = Some l → (∀ t e, (t, e) ∈ (tunnels, ev) :: events → chunk e <= c) → 0 <= c →
    totals st + zlen (forwarded acts1) + zlen (written acts1) <= l + c) as Hone.
  { intros c l Hml Hall _. specialize (Hall tunnels ev ltac:(set_solver)). unfold within_limit in Hlim.
    rewrite Hml in Hlim. unfold totals. lia. }
  destruct r1 as [st1|st1|]; [|intros [= <- <-]; split; [done|]; split; [exact Hr|exact Hone]..].
  destruct Hr as (Hacc & Hlim1 & Hsq & Hbelow).
  destruct (run_bridge parse_control cfg st1 events) as [acts2 r2] eqn:E2. intros [= <- <-].
  destruct (IH st1 acts2 r2 Hl Hlim1 ltac:(lia) E2) as (Hinc2 & Hr2 & Hb2).
  destruct (actions_app acts1 acts2) as (-> & -> & ->). split_and!.
  - eapply increasing_app; [done|done|done|lia].
  - destruct r2 as [st2|st2|]; [| |done]; (destruct Hr2 as [Ha2 ?]; split; [|done]);
      unfold accounts in *; destruct (actions_app acts1 acts2) as (-> & -> & _); rewrite !zlen_app; lia.
  - intros c l Hml Hall Hc. assert (∀ t e, (t, e) ∈ events → chunk e <= c) as Hall2 by (intros t e He; apply (Hall t e); set_solver).
    specialize (Hb2 c l Hml Hall2 Hc). unfold accounts, totals in *. rewrite !zlen_app. lia.
Qed.

(** the bridge accounts for every byte and numbers its frames: in a run of
    the loop that is still going or ended well, the two totals are exactly the
    bytes sent to the Agent and written to the public side, and together they are
    within the tunnel's limit; the frames sent to the Agent carry strictly
    increasing sequence numbers, starting after the open request's; and in any
    run, even a failing one, the bytes carried pass the limit by at most one
    chunk. *)
Theorem bridge_accounting events acts r :
  (∀ l, b_max_bytes cfg = Some l → 0 <= l < u64_max) → zlen events < 2 ^ 63 →
  run_bridge parse_control cfg bridge_start events = (acts, r) →
  match r with
  | Continue st | Finished st =>
      sent_total st = zlen (forwarded acts) ∧ received_total st = zlen (written acts)
      ∧ ∀ l, b_max_bytes cfg = Some l → sent_total st + received_total st <= l
  | Failed => True
  end
  ∧ increasing_from 2 (sequences acts)
  ∧ ∀ l c, b_max_bytes cfg = Some l → (∀ t ev, (t, ev) ∈ events → chunk ev <= c) → 0 <= c →
      zlen (forwarded acts) + zlen (written acts) <= l + c.
Proof.
  intros Hl Hn Hr. assert (within_limit bridge_start) as H0.
  { unfold within_limit. destruct (b_max_bytes cfg) as [l|]; [|done]. cbn. by apply Hl. }
  destruct (run_bridge_spec events bridge_start acts r) as (Hinc & Hacc & Hb); [|done| |done|].
  { intros l Hml. by apply Hl. } { unfold u64_max. cbn [b_sequence bridge_start]. lia. }
  split_and!; [|done|].
  - destruct r as [st|st|]; [| |done]; destruct Hacc as [[H1 H2] H3]; cbn in H1, H2; unfold within_limit in H3;
      (split_and!; [done..|]); intros l Hml; by rewrite Hml in H3.
  - intros l c Hml Hall Hc. specialize (Hb c l Hml Hall Hc). unfold totals in Hb. cbn in Hb. lia.
Qed.

(** A frame the bridge may write: from the tunnel's Agent, on its stream, while
    the tunnel is active and owned by it, and of bounded size. *)
Definition writable (tunnels : gmap rstr ActiveTunnel) (frame : IoStreams.IoFrame) (data : list Z) : Prop :=
  IoStreams.stream_id frame = b_tunnel cfg
  ∧ verify_agent_id_matches (b_agent cfg) (IoStreams.f_agent_id frame) = true
  ∧ (∃ t, tunnels !! b_tunnel cfg = Some t ∧ verify_agent_id_matches (b_agent cfg) (t_agent t) = true)
  ∧ IoStreams.payload frame = Some (IoStreams.Data data) ∧ zlen data <= 65536.

Lemma limit_writes st acts r data :
  ensure_nat_byte_limit cfg st = (acts, r) → WritePublic data ∉ acts.
Proof.
  unfold ensure_nat_byte_limit. repeat case_match; intros [= <- <-]; try apply not_elem_of_nil.
  by intros ?%list_elem_of_singleton.
Qed.

Lemma bridge_step_writes tunnels st ev acts r data :
  bridge_step parse_control cfg tunnels st ev = (acts, r) → WritePublic data ∈ acts →
  ∃ frame, ev = AgentFrame (Some frame) true ∧ writable tunnels frame data.
Proof.
  assert (∀ f, ¬ WritePublic data ∈ [SendAgent f]) as Hsend by (intros f Hx; by apply list_elem_of_singleton in Hx).
  destruct ev as [[[|b d]|] sent|[f|] ok|sent]; cbn [bridge_step]; intros Hb Hin.
  - destruct sent; injection Hb as <- <-; [by apply Hsend in Hin|by apply not_elem_of_nil in Hin].
  - destruct sent; cbn [negb] in Hb; [|injection Hb as <- <-; by apply not_elem_of_nil in Hin].
    destruct (ensure_nat_byte_limit cfg _) as [acts0 r0] eqn:E. injection Hb as <- <-.
    apply elem_of_cons in Hin as [?|Hin]; [done|]. by apply limit_writes with (data := data) in E.
  - injection Hb as <- <-. by apply not_elem_of_nil in Hin.
  - destruct (is_ok _) eqn:Hv; cbn [negb] in Hb; [|injection Hb as <- <-; by apply not_elem_of_nil in Hin].
    destruct (negb _) eqn:Ho; [injection Hb as <- <-; by apply not_elem_of_nil in Hin|].
    destruct (IoStreams.payload f) as [[d|reason|code msg]|] eqn:Hp; try (injection Hb as <- <-; by apply not_elem_of_nil in Hin).
    destruct (Z.ltb_spec MAX_NAT_FRAME_BYTES (zlen d)) as [|Hsz]; [injection Hb as <- <-; by apply Hsend in Hin|].
    assert (∀ st0, write_public cfg st0 d ok = (acts, r) → d = data ∧ ok = true) as Hwp.
    { intros st0. unfold write_public. destruct ok; cbn [negb]; [|intros [= <- <-]; by apply not_elem_of_nil in Hin].
      destruct (ensure_nat_byte_limit cfg _) as [acts0 r0] eqn:E. intros [= <- <-].
      apply elem_of_cons in Hin as [[= ->]|Hin]; [done|]. by apply limit_writes with (data := data) in E. }
    assert (d = data ∧ ok = true) as [-> ->].
    { destruct (saw_ready st); cbn [negb] in Hb; [by eapply Hwp|].
      destruct (parse_control d) as [[]|]; [injection Hb as <- <-; by apply not_elem_of_nil in Hin..|]. by eapply Hwp. }
    exists f. split; [done|]. unfold writable. revert Hv. unfold verify_inbound_tunnel_frame.
    case_bool_decide; cbn [negb]; [|done]. destruct (verify_agent_id_matches (b_agent cfg) (IoStreams.f_agent_id f)) eqn:Hva;
      cbn [negb]; [|done]. intros _. apply negb_false_iff in Ho.
    destruct (tunnels !! b_tunnel cfg) as [t|]; [|done]. split_and!; eauto.
  - injection Hb as <- <-. by apply not_elem_of_nil in Hin.
  - destruct sent; injection Hb as <- <-; [by apply Hsend in Hin|by apply not_elem_of_nil in Hin].
Qed.

(** only the tunnel's own Agent reaches the public side: whatever frames
    arrive, every chunk of bytes the bridge writes is the payload of a frame on
    the tunnel's stream that names the tunnel's Agent, received while the tunnel
    was active and owned by that Agent, and is at most 64 KiB. *)
Theorem bridge_writes_authentic events acts r data :
  run_bridge parse_control cfg bridge_start events = (acts, r) → WritePublic data ∈ acts →
  ∃ tunnels frame, (tunnels, AgentFrame (Some frame) true) ∈ events ∧ writable tunnels frame data.
Proof.
  generalize bridge_start. revert acts r. induction events as [|[tunnels ev] events IH]; intros acts r st; cbn [run_bridge].
  { intros [= <- <-] Hin. by apply not_elem_of_nil in Hin. }
  destruct (bridge_step parse_control cfg tunnels st ev) as [acts1 r1] eqn:E1.
  assert (WritePublic data ∈ acts1 → ∃ tunnels0 frame,
    (tunnels0, AgentFrame (Some frame) true) ∈ (tunnels, ev) :: events ∧ writable tunnels0 frame data) as Hnow.
  { intros Hin. destruct (bridge_step_writes _ _ _ _ _ _ E1 Hin) as (frame & -> & Hw).
    exists tunnels, frame. split; [apply list_elem_of_here|done]. }
  destruct r1 as [st1|st1|]; [|by intros [= <- <-]..].
  destruct (run_bridge parse_control cfg st1 events) as [acts2 r2] eqn:E2. intros [= <- <-] [Hin|Hin]%elem_of_app; [auto|].
  destruct (IH acts2 r2 st1 E2 Hin) as (t0 & frame & Hev & Hw). exists t0, frame. split; [by apply list_elem_of_further|done].
Qed.
End bridge.

(** ** Connections *)

Section connections.
Context `{UuidLib} (env : Env).

Lemma record_connection_tunnels {E} (db : NatDb E) mapping peer now mgr :
  active_tunnels (record_nat_connection db mapping peer now mgr).1 = active_tunnels mgr
  ∧ listeners (record_nat_connection db mapping peer now mgr).1 = listeners mgr.
Proof.
  unfold record_nat_connection. destruct (record_source_connection_in_map _ _ _ _ _ _ _) as [src [st|e]]; [|done].
  destruct (nat_rate_limit_window_seconds mapping); [|done].
  destruct (record_connection_window db _ _ _) as [[conn bytes]|]; [|done]. by repeat case_match.
Qed.

(** a connection is accepted only if the global source list and the
    mapping's own list admit its address, its port is served by an enabled TCP
    mapping on an allowed port, and neither tunnel limit is reached; accepting it
    changes neither the tunnels nor the listeners. *)
Theorem accept_sound {E} (db : NatDb E) port peer now mgr mgr' mapping window :
  accept_connection env db port peer now mgr = (mgr', Ok (mapping, window)) →
  nat_source_allowed env peer = true ∧ nat_mapping_source_allowed mapping peer = true
  ∧ validate_nat_bind_port env port = Ok () ∧ get_active_by_public_port db port = Ok (Some mapping)
  ∧ protocol mapping = Tcp
  ∧ Z.of_nat (size (active_tunnels mgr)) < nat_max_active_tunnels env
  ∧ (∀ l, max_active_tunnels mapping = Some l → count_for_mapping (active_tunnels mgr) (id mapping) < l)
  ∧ active_tunnels mgr' = active_tunnels mgr ∧ listeners mgr' = listeners mgr.
Proof.
  unfold accept_connection. destruct (nat_source_allowed env peer); cbn [negb]; [|done].
  unfold current_mapping_for_port. destruct (validate_nat_bind_port env port) as [[]|]; [|done].
  destruct (get_active_by_public_port db port) as [[m|]|]; cbn [mbind result_bind]; [|done..].
  destruct (is_tcp m) eqn:Ht; [|done].
  destruct (nat_mapping_source_allowed m peer) eqn:Hs; cbn [negb]; [|done].
  destruct (Z.leb_spec (nat_max_active_tunnels env) (Z.of_nat (size (active_tunnels mgr)))); [done|].
  destruct (match max_active_tunnels m with Some l => _ | None => false end) eqn:Hl; [done|].
  pose proof (record_connection_tunnels db m peer now mgr) as [Ha Hli].
  destruct (record_nat_connection db m peer now mgr) as [mgr1 [w|e]]; [|done].
  intros [= <- <- <-]. cbn in Ha, Hli. split_and!; try done.
  - unfold is_tcp in Ht. by destruct (protocol m).
  - intros l Hm. rewrite Hm in Hl. bool_prop. done.
Qed.

Lemma window_bytes_tunnels mapping window bytes now mgr :
  active_tunnels (record_nat_window_bytes mapping window bytes now mgr) = active_tunnels mgr.
Proof. unfold record_nat_window_bytes. by repeat case_match. Qed.

Lemma unsubscribed tid io : IoStreams.stream_subscribers (IoStreams.unsubscribe_stream tid io) !! tid = None.
Proof.
  unfold IoStreams.unsubscribe_stream. cbv zeta.
  destruct (IoStreams.stream_subscribers (IoStreams.prune_closed_io_subscribers io) !! tid) eqn:E; [|done].
  apply lookup_delete_eq.
Qed.

(** a tunnel never outlives its connection: once [handle_connection] has
    returned, with success or with any error and whatever other tasks did
    meanwhile, the tunnel is not in the table and its stream is not subscribed;
    and if the others left the table alone, it is the same as before the
    connection. *)
Theorem tunnel_released parse_control encode_open mapping tid c w now window opened events meanwhile mgr io mgr' io' r :
  active_tunnels mgr !! tid = None → IoStreams.stream_subscribers io !! tid = None →
  handle_connection env parse_control encode_open mapping tid c w now window opened events meanwhile mgr io
    = Some (mgr', io', r) →
  active_tunnels mgr' !! tid = None ∧ IoStreams.stream_subscribers io' !! tid = None
  ∧ ((∀ m, active_tunnels (meanwhile m).1 = active_tunnels m.1) → active_tunnels mgr' = active_tunnels mgr).
Proof.
  intros Hfresh Hsub. unfold handle_connection.
  destruct (validate_nat_bind_port env (public_port mapping)); [|by intros [= <- <- <-]].
  destruct (uuid_parse (agent_id mapping)) as [agent|]; [|by intros [= <- <- <-]].
  destruct (IoStreams.is_agent_online agent io); cbn [negb]; [|by intros [= <- <- <-]].
  destruct (reserve_active_tunnel _ _ _ _) as [tunnels|] eqn:Hr; [|by intros [= <- <- <-]].
  assert (∃ t, tunnels = <[tid := t]> (active_tunnels mgr)) as [t ->].
  { unfold reserve_active_tunnel in Hr. repeat case_match; try done; injection Hr as <-; by eexists. }
  cbv zeta. destruct (meanwhile _) as [mgr1 io1] eqn:Em.
  assert (∀ m, active_tunnels m = delete tid (active_tunnels mgr1) →
    active_tunnels m !! tid = None ∧ IoStreams.stream_subscribers (IoStreams.unsubscribe_stream tid io1) !! tid = None
    ∧ ((∀ m, active_tunnels (meanwhile m).1 = active_tunnels m.1) → active_tunnels m = active_tunnels mgr)) as Hm.
  { intros m ->. split_and!; [apply lookup_delete_eq|apply unsubscribed|]. intros Hmw.
    apply (f_equal (active_tunnels ∘ fst)) in Em. cbn in Em. rewrite Hmw in Em. cbn in Em. rewrite <- Em.
    by apply delete_insert_id. }
  destruct (if _ && opened then _ else _) as [st|st|].
  - done.
  - intros [= <- <- <-]. apply Hm. destruct window; [by rewrite window_bytes_tunnels|done].
  - intros [= <- <- <-]. by apply Hm.
Qed.
End connections.

(** ** Witnesses *)

Definition start0 : Z := seconds 1800000000.
Definition ops0 : list rate_op :=
  [Connect (lit "192.0.2.7") start0; Transfer (lit "192.0.2.7") 900 start0; Connect (lit "192.0.2.7") start0;
   Connect (lit "198.51.100.1") start0; Connect (lit "192.0.2.7") start0].

Definition tunnel0 : ActiveTunnel :=
  {| tunnel_id := lit "t"; mapping_id := id validated0; t_agent := agent_id validated0; t_created_at := 0;
     bytes_sent := 0; bytes_received := 0 |}.

Definition db0 : NatDb unit :=
  {| list_enabled_for_active_agents := Ok [mapping0]; get_active_by_public_port _ := Ok (Some validated0);
     record_connection_window _ _ _ := Ok (1, 0) |}.
Definition mgr0 : Manager := {| listeners := {[9000]}; active_tunnels := ∅; rate_limits := ∅ |}.
Definition reloaded0 : Manager := {| listeners := {[20022]}; active_tunnels := ∅; rate_limits := ∅ |}.

Definition cfg0 : BridgeConfig :=
  {| b_tunnel := lit "t"; b_agent := 78; b_agent_str := uuid_to_string 78; b_max_bytes := Some 100 |}.
Definition ready0 (data : list Z) : option Control := if bool_decide (data = [0]) then Some Ready else None.
Definition agent_frame0 (data : list Z) : gmap rstr ActiveTunnel * BridgeEvent :=
  ({[lit "t" := tunnel0]},
   AgentFrame (Some {| IoStreams.stream_id := lit "t"; IoStreams.sequence := 1; IoStreams.f_agent_id := uuid_to_string 78;
                       IoStreams.payload := Some (IoStreams.Data data) |}) true).
Definition events0 : list (gmap rstr ActiveTunnel * BridgeEvent) :=
  [agent_frame0 [0]; agent_frame0 [1; 2; 3]; (∅, PublicRead (Some [7; 8]) true); (∅, PublicRead (Some []) true)].
Definition run0 : list BridgeAction * BridgeResult := run_bridge ready0 cfg0 bridge_start events0.

Definition peer1 : SocketAddr := {| sa_ip := V4 (from_octets 127 0 0 1); sa_port := 40000 |}.
Definition open_mapping0 : NatMapping := {|
  id := id validated0; agent_id := agent_id validated0; local_host := local_host validated0; local_port := 22;
  public_port := 20022; protocol := Tcp; enabled := true; description := None; allowed_sources := None;
  max_active_tunnels := Some 4; idle_timeout_seconds := None; max_bytes_per_tunnel := None;
  max_bandwidth_bytes_per_second := None; rate_limit_window_seconds := None; max_connections_per_window := None;
  max_bytes_per_window := None; created_at := []; updated_at := [] |}.
Definition db1 : NatDb unit :=
  {| list_enabled_for_active_agents := Ok []; get_active_by_public_port _ := Ok (Some open_mapping0);
     record_connection_window _ _ _ := Ok (1, 0) |}.

Definition agent0 : Z := default 0 (uuid_parse (agent_id open_mapping0)).
Definition io0 : IoStreams.IoRegistry :=
  (IoStreams.register_agent agent0 7 IoStreams.new_io_registry).1.

End NatTunnelProofs.
