(* ===== verification/Alerts.v ===== *)
(** * Alerts: the alert engine

    [crates/server/src/alerts/engine.rs]. The rules an administrator or a member
    configures are loaded from the database, validated and evaluated every 15
    seconds against service results, Agent rows and the latest telemetry; a rule
    that starts or stops holding writes an event, starts tasks and notifies. The
    queries are those of the SQLite backend; each is a field of [AlertDb]. One
    evaluation of a rule reads the wall clock once. *)

From S2P Require Import Prelude Text BTreeMap Json Externals.
From Stdlib Require Import SpecFloat.

Module Alerts.

(** ** Rules *)

Inductive TriggerMode : Type := Always | Once.

Inductive ResourceType : Type :=
| Cpu | Memory | Disk | Network | NetworkIn | NetworkOut | NetworkTotal | TrafficInTotal
| TrafficOutTotal | Load | Load5 | Load15 | Swap | Tcp | Udp | Process | Temperature | Gpu.

Inductive TrafficQuotaDirection : Type := Total | In | Out.

Inductive Operator : Type := Gt | Lt | Gte | Lte.

Inductive AlertCondition : Type :=
| ServiceDown (service_id : rstr) (consecutive_failures : Z)
| ServiceLatency (service_id : rstr) (max_latency_ms : Z)
| CertificateExpiry (service_id : rstr) (days_before : Z)
| ServerExpiry (agent_id : rstr) (days_before : Z)
| ServerTrafficQuota (agent_id : rstr) (percent : f64) (direction : TrafficQuotaDirection)
| ServerOffline (agent_id : rstr) (offline_seconds : Z)
| ServerResource (agent_id : rstr) (resource : ResourceType) (operator : Operator) (threshold : f64)
    (duration_seconds : Z).

Record AlertRule := {
  id : rstr;
  owner_user_id : rstr;
  name : rstr;
  enabled : bool;
  trigger_mode : TriggerMode;
  conditions : list AlertCondition;
  notification_group_id : option rstr;
  failure_task_ids : list rstr;
  recovery_task_ids : list rstr;
}.

#[global] Instance trigger_mode_eq : EqDecision TriggerMode.
Proof. solve_decision. Defined.
#[global] Instance resource_type_eq : EqDecision ResourceType.
Proof. solve_decision. Defined.
#[global] Instance operator_eq : EqDecision Operator.
Proof. solve_decision. Defined.
#[global] Instance f64_eq : EqDecision f64.
Proof. solve_decision. Defined.

#[global] Instance resource_type_countable : Countable ResourceType.
Proof.
  refine (inj_countable' (fun r => match r with
    | Cpu => 0 | Memory => 1 | Disk => 2 | Network => 3 | NetworkIn => 4 | NetworkOut => 5 | NetworkTotal => 6
    | TrafficInTotal => 7 | TrafficOutTotal => 8 | Load => 9 | Load5 => 10 | Load15 => 11 | Swap => 12 | Tcp => 13
    | Udp => 14 | Process => 15 | Temperature => 16 | Gpu => 17 end)
    (fun n => match n with
    | 0 => Cpu | 1 => Memory | 2 => Disk | 3 => Network | 4 => NetworkIn | 5 => NetworkOut | 6 => NetworkTotal
    | 7 => TrafficInTotal | 8 => TrafficOutTotal | 9 => Load | 10 => Load5 | 11 => Load15 | 12 => Swap | 13 => Tcp
    | 14 => Udp | 15 => Process | 16 => Temperature | _ => Gpu end) _).
  by intros [].
Defined.
#[global] Instance operator_countable : Countable Operator.
Proof.
  refine (inj_countable' (fun o => match o with Gt => 0 | Lt => 1 | Gte => 2 | Lte => 3 end)
    (fun n => match n with 0 => Gt | 1 => Lt | 2 => Gte | _ => Lte end) _). by intros [].
Defined.
#[global] Instance f64_countable : Countable f64.
Proof.
  refine (inj_countable' (fun x => match x with
    | S754_zero s => inl (inl s) | S754_infinity s => inl (inr (Some s)) | S754_nan => inl (inr None)
    | S754_finite s m e => inr (s, m, e) end)
    (fun y => match y with
    | inl (inl s) => S754_zero s | inl (inr (Some s)) => S754_infinity s | inl (inr None) => S754_nan
    | inr (s, m, e) => S754_finite s m e end) _). by intros [].
Defined.

Definition from_db (s : rstr) : TriggerMode := if bool_decide (s = lit "always") then Always else Once.
Definition as_db (m : TriggerMode) : rstr := match m with Always => lit "always" | Once => lit "once" end.

Definition compare (op : Operator) (left right : f64) : bool :=
  match op with
  | Gt => f64_gt left right
  | Lt => f64_lt left right
  | Gte => f64_ge left right
  | Lte => f64_le left right
  end.

(** ** Telemetry *)

Definition json_f64 (v : json) : option f64 :=
  match as_f64 v with
  | Some x => if is_finite x then Some x else None
  | None => match as_str v ≫= (fun s => parse_f64 (trim s)) with
            | Some x => if is_finite x then Some x else None
            | None => None
            end
  end.

Definition json_u64 (v : json) : option Z :=
  match as_u64 v with
  | Some n => Some n
  | None => match as_i64 v with
            | Some n => if 0 <=? n then Some n else None
            | None => as_str v ≫= (fun s => parse_unsigned u64_max (trim s))
            end
  end.

(** The first key under which [f] finds a value. *)
Fixpoint first_by_keys {A} (f : json → option A) (v : json) (keys : list rstr) : option A :=
  match keys with
  | [] => None
  | key :: keys => match json_get key v ≫= f with
                   | Some x => Some x
                   | None => first_by_keys f v keys
                   end
  end.

Definition json_f64_by_keys (state : json) (keys : list rstr) : option f64 := first_by_keys json_f64 state keys.

(** [Iterator::max_by]: of equal elements the last one; a NaN compares equal. *)
Definition max_by_partial (l : list f64) : option f64 :=
  match l with
  | [] => None
  | x :: l => Some (foldl (fun m y => if f64_gt m y then m else y) x l)
  end.

Definition max_array_number (state : json) (array_key : rstr) (keys : list rstr) : option f64 :=
  items ← json_get array_key state ≫= as_array;
  max_by_partial (omap (fun item => json_f64_by_keys item keys) items).

Definition bytes_recv : rstr := lit "bytes_recv".
Definition bytes_sent : rstr := lit "bytes_sent".

Definition network_total_by_field (state : json) (field : rstr) : option Z :=
  let direct_keys :=
    if bool_decide (field = bytes_recv) then lit <$> ["network_in_total"; "net_rx_bytes"; "bytes_recv_total"]
    else if bool_decide (field = bytes_sent) then lit <$> ["network_out_total"; "net_tx_bytes"; "bytes_sent_total"]
    else [] in
  match first_by_keys json_u64 state direct_keys with
  | Some value => Some value
  | None =>
      net_io ← json_get (lit "net_io") state ≫= as_array;
      Some (foldl (fun total nic => saturating_add u64_max total (default 0 (json_get field nic ≫= json_u64)))
              0 net_io)
  end.

Definition network_total_bytes (state : json) : option Z :=
  let recv := default 0 (network_total_by_field state bytes_recv) in
  let sent := default 0 (network_total_by_field state bytes_sent) in
  if (0 <? recv) || (0 <? sent) then Some (saturating_add u64_max recv sent) else None.

Definition traffic_used_bytes (state : json) (direction : TrafficQuotaDirection) : option Z :=
  match direction with
  | Total => network_total_bytes state
  | In => network_total_by_field state bytes_recv
  | Out => network_total_by_field state bytes_sent
  end.

Definition f64_100 : f64 := f64_of_Z 100.
Definition percentage (used total : f64) : f64 := f64_mul (f64_div used total) f64_100.

Definition traffic_quota_percent (state : json) (quota_bytes : Z) (direction : TrafficQuotaDirection) : option f64 :=
  if quota_bytes =? 0 then None else
  used ← traffic_used_bytes state direction;
  Some (percentage (f64_of_Z used) (f64_of_Z quota_bytes)).

(** [(total > 0.0).then_some((used / total) * 100.0)]. *)
Definition share (used total : f64) : option f64 :=
  if f64_gt total f64_zero then Some (percentage used total) else None.

Definition add_disk (acc : f64 * f64) (d : json) : f64 * f64 :=
  match json_get (lit "used") d ≫= as_f64, json_get (lit "total") d ≫= as_f64 with
  | Some u, Some t => (f64_add acc.1 u, f64_add acc.2 t)
  | _, _ => acc
  end.

Definition network_in (state : json) : option f64 :=
  json_f64_by_keys state (lit <$> ["net_rx_bps"; "network_in_speed"; "network_rx_bps"; "rx_bps"]).
Definition network_out (state : json) : option f64 :=
  json_f64_by_keys state (lit <$> ["net_tx_bps"; "network_out_speed"; "network_tx_bps"; "tx_bps"]).

Definition or_else {A} (o : option A) (k : option A) : option A := match o with Some a => Some a | None => k end.

Definition resource_value (state : json) (resource : ResourceType) : option f64 :=
  match resource with
  | Cpu => json_get (lit "cpu_percent") state ≫= as_f64
  | Memory =>
      used ← json_get (lit "memory_used") state ≫= as_f64;
      total ← json_get (lit "memory_total") state ≫= as_f64;
      share used total
  | Disk =>
      arr ← json_get (lit "disks") state ≫= as_array;
      let '(used, total) := foldl add_disk (f64_zero, f64_zero) arr in
      share used total
  | Network => f64_of_Z <$> network_total_bytes state
  | NetworkIn => network_in state
  | NetworkOut => network_out state
  | NetworkTotal =>
      let rx := default f64_zero (network_in state) in
      let tx := default f64_zero (network_out state) in
      if f64_gt rx f64_zero || f64_gt tx f64_zero then Some (f64_add rx tx) else None
  | TrafficInTotal => f64_of_Z <$> network_total_by_field state bytes_recv
  | TrafficOutTotal => f64_of_Z <$> network_total_by_field state bytes_sent
  | Load => json_get (lit "load_1") state ≫= as_f64
  | Load5 => json_f64_by_keys state (lit <$> ["load_5"; "load5"])
  | Load15 => json_f64_by_keys state (lit <$> ["load_15"; "load15"])
  | Swap =>
      or_else (json_f64_by_keys state (lit <$> ["swap_percent"; "swap_usage"]))
        (used ← json_f64_by_keys state [lit "swap_used"];
         total ← json_f64_by_keys state [lit "swap_total"];
         share used total)
  | Tcp => json_f64_by_keys state (lit <$> ["tcp_connections"; "tcp_conn_count"; "tcp_count"])
  | Udp => json_f64_by_keys state (lit <$> ["udp_connections"; "udp_conn_count"; "udp_count"])
  | Process => json_f64_by_keys state (lit <$> ["process_count"; "processes"; "processes_count"])
  | Temperature =>
      or_else (or_else (json_f64_by_keys state (lit <$> ["temperature"; "cpu_temp"; "max_temp"; "temp"]))
                 (max_array_number state (lit "temperatures") (lit <$> ["value"; "temperature"; "temp"])))
        (max_array_number state (lit "components") (lit <$> ["temperature"; "temp"]))
  | Gpu =>
      or_else (json_f64_by_keys state (lit <$> ["gpu_percent"; "gpu_usage"; "gpu_utilization"]))
        (max_array_number state (lit "gpus") (lit <$> ["utilization"; "usage"; "gpu_percent"]))
  end.

(** ** Identifiers in lists *)

Definition push_new (out : list rstr) (v : rstr) : list rstr := if contains v out then out else out ++ [v].

Definition normalize_id_list (values : list rstr) : list rstr :=
  foldl (fun out value => let trimmed := trim value in
                          if is_empty trimmed then out else push_new out trimmed) [] values.

Definition condition_agent_id (c : AlertCondition) : option rstr :=
  match c with
  | ServerExpiry a _ | ServerTrafficQuota a _ _ | ServerOffline a _ | ServerResource a _ _ _ _ => Some a
  | ServiceDown _ _ | ServiceLatency _ _ | CertificateExpiry _ _ => None
  end.

(** The Agent all the conditions that have one agree on. *)
Fixpoint infer_condition_agent_id_from (found : option rstr) (l : list AlertCondition) : option rstr :=
  match l with
  | [] => found
  | c :: l =>
      match condition_agent_id c with
      | None => infer_condition_agent_id_from found l
      | Some a => match found with
                  | Some existing => if bool_decide (existing = a) then infer_condition_agent_id_from found l else None
                  | None => infer_condition_agent_id_from (Some a) l
                  end
      end
  end.
Definition infer_condition_agent_id (l : list AlertCondition) : option rstr := infer_condition_agent_id_from None l.

(** ** The engine's state *)

Record AlertState := {
  rule_id : rstr;
  is_active : bool;
  last_fired_at : option Z;
  last_always_fire_at : option Z;   (** an [Instant] *)
}.

Record TrafficWindow := { bytes : Z; sampled_at : Z; last_result : bool }.

(** [resource:{agent_id}:{resource:?}:{operator:?}:{threshold}:{duration}], as the
    tuple of what it prints. *)
Definition WindowKey : Type := rstr * ResourceType * Operator * f64 * Z.

Inductive Kind : Type := Fired | Recovered.
Definition kind_text (k : Kind) : rstr := match k with Fired => lit "fired" | Recovered => lit "recovered" end.

(** A row of [alert_events]; the tasks [spawn_triggered_tasks] starts; a message
    handed to a channel. *)
Record AlertEvent := { e_rule_id : rstr; e_agent_id : option rstr; e_kind : Kind; e_fired_at : Z }.
Record Spawned := { tasks : list rstr; trigger : rstr; source_agent : option rstr; run_owner : rstr }.
Record NotificationMessage := { title : rstr; text : rstr; severity_error : bool; at_time : Z }.

Section engine.
Context {E Row Chan : Type} `{UuidLib}.

Record AlertEngine := {
  states : gmap rstr AlertState;
  condition_windows : gmap WindowKey Z;
  traffic_windows : gmap WindowKey TrafficWindow;
  latest : gmap rstr json;
  events : list AlertEvent;
  spawned : list Spawned;
  sent : list (Chan * NotificationMessage);
}.

Definition new_engine : AlertEngine :=
  {| states := ∅; condition_windows := ∅; traffic_windows := ∅; latest := ∅; events := []; spawned := []; sent := [] |}.

Definition set_states f (st : AlertEngine) : AlertEngine :=
  {| states := f (states st); condition_windows := condition_windows st; traffic_windows := traffic_windows st;
     latest := latest st; events := events st; spawned := spawned st; sent := sent st |}.
Definition set_condition_windows f (st : AlertEngine) : AlertEngine :=
  {| states := states st; condition_windows := f (condition_windows st); traffic_windows := traffic_windows st;
     latest := latest st; events := events st; spawned := spawned st; sent := sent st |}.
Definition set_traffic_windows f (st : AlertEngine) : AlertEngine :=
  {| states := states st; condition_windows := condition_windows st; traffic_windows := f (traffic_windows st);
     latest := latest st; events := events st; spawned := spawned st; sent := sent st |}.
Definition add_outputs (ev : list AlertEvent) (sp : list Spawned) (msgs : list (Chan * NotificationMessage))
    (st : AlertEngine) : AlertEngine :=
  {| states := states st; condition_windows := condition_windows st; traffic_windows := traffic_windows st;
     latest := latest st; events := events st ++ ev; spawned := spawned st ++ sp; sent := sent st ++ msgs |}.

Definition observe_agent_state (agent : rstr) (payload : json) (st : AlertEngine) : AlertEngine :=
  {| states := states st; condition_windows := condition_windows st; traffic_windows := traffic_windows st;
     latest := <[agent := payload]> (latest st); events := events st; spawned := spawned st; sent := sent st |}.

(** ** The database and the libraries *)

Record LoadedAlertRuleRow := {
  r_id : rstr; r_owner_user_id : rstr; r_name : rstr; r_enabled : bool; r_trigger_mode : rstr; r_rules_json : rstr;
  r_notification_group_id : option rstr; r_fail_task_ids_json : option rstr; r_recover_task_ids_json : option rstr;
}.

(** One field per statement. A [service_results] query takes the Agents of its
    [server_id IN (...)], or [None] for [server_id IS NULL]. *)
Record AlertDb := {
  alert_rules : result E (list LoadedAlertRuleRow);              (** the enabled ones *)
  service_owner : rstr → result E (option (option rstr));
  active_agent_owner : rstr → result E (option rstr);            (** [revoked_at IS NULL] *)
  agent_owner : rstr → result E (option rstr);
  service_config : rstr → result E (option (rstr * option rstr * option rstr * option rstr));
  service_servers : rstr → Z → result E (list rstr);             (** at most so many *)
  active_agents_of : rstr → result E (list rstr);
  result_statuses : rstr → option (list rstr) → Z → result E (list rstr);
  result_latency : rstr → option (list rstr) → result E (option (option Z));
  result_cert : rstr → option (list rstr) → result E (option rstr);
  agent_last_seen : rstr → result E (option (option rstr));
  agent_expires_at : rstr → result E (option (option rstr));
  agent_metadata : rstr → result E (option (option rstr));
  enabled_task_owner : rstr → result E (option rstr);
  group_channels : rstr → rstr → result E (list Row);
  insert_event : AlertEvent → result E unit;
}.

(** chrono's date parsers, [serde_json], the derived decoder of a condition, and
    the construction of a notification channel from its row. *)
Record AlertLib := {
  parse_rfc3339 : rstr → option Z;
  parse_ymd : rstr → option Z;               (** midnight of a [%Y-%m-%d] date *)
  json_parse : rstr → option json;
  json_len : json → Z;                       (** bytes of the printed value *)
  condition_of_json : json → option AlertCondition;
  channel_of_row : Row → option Chan;
}.

Inductive AlertError : Type :=
| DbError (e : E) | BadTimestamp | TooManyChannels
| NotCanonicalUuid | TextRequired | TextTooLong | BadTriggerMode | RulesTooLong | RulesInvalid | NoConditions
| TooManyConditions | ConditionTooLong | ConditionInvalid | OutOfRange | TaskIdsInvalid | TooManyTaskIds.

Definition from_query {A} (r : result E A) : result AlertError A :=
  match r with Ok a => Ok a | Err e => Err (DbError e) end.

Context (db : AlertDb) (lib : AlertLib).

(** ** Ownership *)

Definition NOTIFICATION_MAX_GROUP_CHANNELS : Z := 32.
Definition SERVICE_MAX_SERVER_IDS : Z := 64.

(** The owner in a row, compared as a UUID. *)
Definition owned_by (owner : Z) (row : option rstr) : bool :=
  match row ≫= (fun o => uuid_parse (trim o)) with Some o => o =? owner | None => false end.

Definition service_belongs_to_owner (service owner : rstr) : result AlertError bool :=
  match uuid_parse (trim owner), uuid_parse (trim service) with
  | Some owner, Some service =>
      row ← from_query (service_owner db (uuid_to_string service));
      Ok (owned_by owner (mjoin row))
  | _, _ => Ok false
  end.

Definition agent_belongs_to_owner (agent owner : rstr) : result AlertError bool :=
  match uuid_parse (trim owner), uuid_parse (trim agent) with
  | Some owner, Some agent =>
      row ← from_query (active_agent_owner db (uuid_to_string agent));
      Ok (owned_by owner row)
  | _, _ => Ok false
  end.

Definition condition_belongs_to_rule_owner (rule : AlertRule) (c : AlertCondition) : result AlertError bool :=
  match c with
  | ServiceDown s _ | ServiceLatency s _ | CertificateExpiry s _ => service_belongs_to_owner s (owner_user_id rule)
  | ServerExpiry a _ | ServerTrafficQuota a _ _ | ServerOffline a _ | ServerResource a _ _ _ _ =>
      agent_belongs_to_owner a (owner_user_id rule)
  end.

(** ** Which Agents' results count for a service *)

Definition normalize_uuid_id_list (values : list rstr) : list rstr :=
  foldl (fun out value => match uuid_parse (trim value) with
                          | Some u => push_new out (uuid_to_string u)
                          | None => out
                          end) [] values.

Fixpoint unique_uuid_value_from (found : option Z) (values : list rstr) : option Z :=
  match values with
  | [] => found
  | v :: values =>
      match uuid_parse (trim v) with
      | None => None
      | Some u => match found with
                  | Some existing => if existing =? u then unique_uuid_value_from found values else None
                  | None => unique_uuid_value_from (Some u) values
                  end
      end
  end.
Definition unique_uuid_value (values : list rstr) : option Z := unique_uuid_value_from None values.

(** [serde_json::from_str::<Vec<String>>]. *)
Definition parse_strings (s : rstr) : option (list rstr) :=
  items ← json_parse lib s ≫= as_array; mapM as_str items.

Definition parse_id_list_json (value : option rstr) : list rstr :=
  match value ≫= parse_strings with Some l => normalize_id_list l | None => [] end.

Definition nonempty_trimmed (value : option rstr) : option rstr :=
  match value with
  | Some v => if is_empty (trim v) then None else Some (trim v)
  | None => None
  end.

Definition load_active_agent_ids_for_owner_uuid (owner : Z) : result AlertError (list rstr) :=
  rows ← from_query (active_agents_of db (uuid_to_string owner)); Ok (normalize_uuid_id_list rows).

Definition load_active_agent_ids_for_owner (owner : option rstr) : result AlertError (list rstr) :=
  match owner ≫= uuid_parse with
  | Some owner => load_active_agent_ids_for_owner_uuid owner
  | None => Ok []
  end.

Fixpoint load_agent_owner_ids (server_ids : list rstr) : result AlertError (list rstr) :=
  match server_ids with
  | [] => Ok []
  | s :: server_ids =>
      row ← from_query (agent_owner db s);
      rest ← load_agent_owner_ids server_ids;
      Ok (match row with Some o => o :: rest | None => rest end)
  end.

Definition service_scope_owner (owner : option rstr) (server_ids : list rstr) : result AlertError (option Z) :=
  match owner with
  | Some owner => Ok (uuid_parse owner)
  | None =>
      owner_ids ← load_agent_owner_ids server_ids;
      if negb (zlen owner_ids =? zlen server_ids) then Ok None else Ok (unique_uuid_value owner_ids)
  end.

Definition filter_agent_ids_to_service_owner (owner : option rstr) (server_ids : list rstr)
    : result AlertError (list rstr) :=
  let server_ids := normalize_uuid_id_list server_ids in
  if is_empty server_ids then Ok [] else
  o ← service_scope_owner owner server_ids;
  match o with
  | None => Ok []
  | Some owner =>
      owned ← load_active_agent_ids_for_owner_uuid owner;
      Ok (filter (fun s => s ∈ owned) server_ids)
  end.

Definition bound_alert_service_server_ids (row_count : Z) (values : list rstr) : option (list rstr) :=
  if SERVICE_MAX_SERVER_IDS <? row_count then None else Some (normalize_id_list values).

Definition load_service_server_ids (service : rstr) : result AlertError (option (list rstr)) :=
  rows ← from_query (service_servers db service (SERVICE_MAX_SERVER_IDS + 1));
  Ok (bound_alert_service_server_ids (zlen rows) rows).

Inductive ServiceResultScope : Type := Local | Servers (ids : list rstr).

Definition service_result_scope (service : rstr) : result AlertError ServiceResultScope :=
  config ← from_query (service_config db service);
  match config with
  | None => Ok (Servers [])
  | Some (cover_mode, owner, legacy_server_id, exclude_json) =>
      let owner := nonempty_trimmed owner in
      if bool_decide (cover_mode = lit "specific") then
        ids ← load_service_server_ids service;
        match ids with
        | None => Ok (Servers [])
        | Some ids =>
            let ids := if is_empty ids then match nonempty_trimmed legacy_server_id with Some s => [s] | None => [] end
                       else ids in
            Servers <$> filter_agent_ids_to_service_owner owner ids
        end
      else if bool_decide (cover_mode = lit "all") then Servers <$> load_active_agent_ids_for_owner owner
      else if bool_decide (cover_mode = lit "exclude") then
        let excluded := normalize_uuid_id_list (parse_id_list_json exclude_json) in
        ids ← load_active_agent_ids_for_owner owner;
        Ok (Servers (filter (fun s => s ∉ excluded) ids))
      else Ok Local
  end.

(** The Agents to put in a query: [None] when no Agent's results count. *)
Definition scope_filter (scope : ServiceResultScope) : option (option (list rstr)) :=
  match scope with
  | Local => Some None
  | Servers [] => None
  | Servers ids => Some (Some ids)
  end.

Definition count_failures (statuses : list rstr) : Z := zlen (filter (fun s => s = lit "failure") statuses).

Definition count_recent_service_failures (service : rstr) (n : Z) : result AlertError Z :=
  scope ← service_result_scope service;
  match scope_filter scope with
  | None => Ok 0
  | Some ids => rows ← from_query (result_statuses db service ids n); Ok (count_failures rows)
  end.

Definition latest_service_latency_ms (service : rstr) : result AlertError Z :=
  scope ← service_result_scope service;
  match scope_filter scope with
  | None => Ok (-1)
  | Some ids => row ← from_query (result_latency db service ids); Ok (default (-1) (mjoin row))
  end.

Definition latest_cert_not_after (service : rstr) : result AlertError (option Z) :=
  scope ← service_result_scope service;
  match scope_filter scope with
  | None => Ok None
  | Some ids =>
      row ← from_query (result_cert db service ids);
      match row with
      | None => Ok None
      | Some value => t ← ok_or (parse_rfc3339 lib value) BadTimestamp; Ok (Some t)
      end
  end.

(** ** Conditions *)

(** The readings of the clocks during one evaluation of a rule: the wall clock,
    and the monotonic clock when the throttle is checked and after firing. *)
Record Clock := { now : Z; tick : Z; tick_after : Z }.

Definition last_seen_age_seconds (agent : rstr) (now : Z) : result AlertError Z :=
  match uuid_parse (trim agent) with
  | None => Ok i64_max
  | Some u =>
      row ← from_query (agent_last_seen db (uuid_to_string u));
      match row with
      | Some (Some ts) => parsed ← ok_or (parse_rfc3339 lib ts) BadTimestamp; Ok (num_seconds (now - parsed))
      | _ => Ok i64_max
      end
  end.

Definition parse_server_expiry (value : rstr) : option Z :=
  let trimmed := trim value in
  if is_empty trimmed then None
  else or_else (parse_rfc3339 lib trimmed)
         ((fun midnight => midnight + seconds (23 * 3600 + 59 * 60 + 59)) <$> parse_ymd lib trimmed).

Definition server_expires_at (agent : rstr) : result AlertError (option Z) :=
  match uuid_parse (trim agent) with
  | None => Ok None
  | Some u =>
      row ← from_query (agent_expires_at db (uuid_to_string u));
      Ok (mjoin row ≫= parse_server_expiry)
  end.

(** The first of the containers in which one of the keys is found. *)
Fixpoint first_in_containers (v : json) (keys containers : list rstr) : option Z :=
  match containers with
  | [] => None
  | c :: containers =>
      match json_get c v ≫= (fun child => first_by_keys json_u64 child keys) with
      | Some n => Some n
      | None => first_in_containers v keys containers
      end
  end.

Definition metadata_u64_from_value (v : json) (keys : list rstr) : option Z :=
  or_else (first_by_keys json_u64 v keys)
    (first_in_containers v keys (lit <$> ["billing"; "plan"; "metadata"; "custom"; "traffic"; "limits"])).

Definition metadata_traffic_quota_bytes (value : rstr) : option Z :=
  parsed ← parse_bounded_agent_json (json_parse lib) (Some value) AGENT_DASHBOARD_METADATA_JSON_MAX_BYTES;
  metadata_u64_from_value parsed (lit <$> ["traffic_quota_bytes"; "traffic_quota"; "quota_bytes";
    "bandwidth_quota_bytes"; "monthly_traffic_bytes"]).

Definition server_traffic_quota_bytes (agent : rstr) : result AlertError (option Z) :=
  match uuid_parse (trim agent) with
  | None => Ok None
  | Some u =>
      row ← from_query (agent_metadata db (uuid_to_string u));
      Ok (mjoin row ≫= metadata_traffic_quota_bytes)
  end.

Definition check_server_traffic_quota (agent : rstr) (percent : f64) (direction : TrafficQuotaDirection)
    (st : AlertEngine) : result AlertError bool :=
  if negb (is_finite percent) || f64_le percent f64_zero then Ok false else
  quota ← server_traffic_quota_bytes agent;
  Ok (match quota, latest st !! agent with
      | Some quota, Some state =>
          match traffic_quota_percent state quota direction with
          | Some current_percent => f64_ge current_percent percent
          | None => false
          end
      | _, _ => false
      end).

(** [apply_duration_window]: whether a triggered condition has been seen
    triggered for long enough. *)
Definition apply_duration_window (key : WindowKey) (triggered : bool) (duration now : Z) (st : AlertEngine)
    : bool * AlertEngine :=
  if negb triggered then (false, set_condition_windows (delete key) st) else
  if duration =? 0 then (true, st) else
  let first_seen := default now (condition_windows st !! key) in
  (u64_as_i64 duration <=? num_seconds (now - first_seen), set_condition_windows <[key := first_seen]> st).

Definition check_network_window (key : WindowKey) (state : json) (op : Operator) (threshold : f64) (duration now : Z)
    (st : AlertEngine) : bool * AlertEngine :=
  match network_total_bytes state with
  | None => (false, set_traffic_windows (delete key) st)
  | Some total =>
      match traffic_windows st !! key with
      | None => (false, set_traffic_windows <[key := {| bytes := total; sampled_at := now; last_result := false |}]> st)
      | Some window =>
          let elapsed := Z.max (num_seconds (now - sampled_at window)) 0 in
          if elapsed <? duration then (last_result window, st) else
          let triggered := compare op (f64_of_Z (saturating_sub total (bytes window))) threshold in
          (triggered,
           set_traffic_windows <[key := {| bytes := total; sampled_at := now; last_result := triggered |}]> st)
      end
  end.

Definition check_resource_condition (agent : rstr) (resource : ResourceType) (op : Operator) (threshold : f64)
    (duration now : Z) (st : AlertEngine) : bool * AlertEngine :=
  match latest st !! agent with
  | None => (false, st)
  | Some state =>
      let key := (agent, resource, op, threshold, duration) in
      if bool_decide (resource = Network) && (0 <? duration)
      then check_network_window key state op threshold duration now st
      else match resource_value state resource with
           | None => (false, set_condition_windows (delete key) st)
           | Some value => apply_duration_window key (compare op value threshold) duration now st
           end
  end.

Definition check_condition (c : AlertCondition) (now : Z) (st : AlertEngine) : result AlertError bool * AlertEngine :=
  match c with
  | ServiceDown s n => ((fun failures => n <=? failures) <$> count_recent_service_failures s n, st)
  | ServiceLatency s ms => ((fun lat => ms <? lat) <$> latest_service_latency_ms s, st)
  | CertificateExpiry s d =>
      ((fun v => match v with Some t => t <=? now + days d | None => false end) <$> latest_cert_not_after s, st)
  | ServerExpiry a d =>
      ((fun v => match v with Some t => t <=? now + days d | None => false end) <$> server_expires_at a, st)
  | ServerTrafficQuota a p dir => (check_server_traffic_quota a p dir st, st)
  | ServerOffline a s =>
      let since := match last_seen_age_seconds a now with Ok n => n | Err _ => i64_max end in
      (Ok (u64_as_i64 s <=? since), st)
  | ServerResource a r op t d => let '(b, st) := check_resource_condition a r op t d now st in (Ok b, st)
  end.

(** ** Firing *)

Fixpoint owned_tasks (owner : Z) (task_ids : list rstr) : result AlertError (list rstr) :=
  match task_ids with
  | [] => Ok []
  | t :: task_ids =>
      row ← from_query (enabled_task_owner db t);
      rest ← owned_tasks owner task_ids;
      Ok (if owned_by owner row then t :: rest else rest)
  end.

Definition tasks_for_rule_owner (rule : AlertRule) (task_ids : list rstr) : result AlertError (list rstr) :=
  match uuid_parse (trim (owner_user_id rule)) with
  | None => Ok []
  | Some owner => owned_tasks owner (normalize_uuid_id_list task_ids)
  end.

Definition channels_for_rule (rule : AlertRule) : result AlertError (list Chan) :=
  match notification_group_id rule with
  | None => Ok []
  | Some ng =>
      match uuid_parse (trim ng), uuid_parse (trim (owner_user_id rule)) with
      | Some group, Some owner =>
          rows ← from_query (group_channels db (uuid_to_string group) (uuid_to_string owner));
          if NOTIFICATION_MAX_GROUP_CHANNELS <? zlen rows then Err TooManyChannels
          else Ok (omap (channel_of_row lib) rows)
      | _, _ => Ok []
      end
  end.

Definition trigger_tasks (rule : AlertRule) (kind : Kind) (source : option rstr) : list Spawned :=
  let task_ids := match kind with Fired => failure_task_ids rule | Recovered => recovery_task_ids rule end in
  if is_empty task_ids then [] else
  match tasks_for_rule_owner rule task_ids with
  | Err _ | Ok [] => []
  | Ok ids => [{| tasks := ids; trigger := lit "alert:" ++ id rule ++ lit ":" ++ kind_text kind;
                  source_agent := source; run_owner := owner_user_id rule |}]
  end.

Definition message_for (rule : AlertRule) (kind : Kind) (now : Z) : NotificationMessage :=
  {| title := lit "[" ++ kind_text kind ++ lit "] " ++ name rule;
     text := lit "Alert rule " ++ name rule ++ lit " fired: " ++ kind_text kind;
     severity_error := match kind with Fired => true | Recovered => false end; at_time := now |}.

(** The source Agent, when it belongs to the owner of the rule. *)
Definition trusted_source (rule : AlertRule) (source : option rstr) : result AlertError (option rstr) :=
  match source with
  | None => Ok None
  | Some a => owned ← agent_belongs_to_owner a (owner_user_id rule); Ok (if (owned : bool) then Some a else None)
  end.

Definition fire (rule : AlertRule) (kind : Kind) (source : option rstr) (now : Z) (st : AlertEngine)
    : result AlertError unit * AlertEngine :=
  match trusted_source rule source with
  | Err e => (Err e, st)
  | Ok source =>
      let event := {| e_rule_id := id rule; e_agent_id := source; e_kind := kind; e_fired_at := now |} in
      match from_query (insert_event db event) with
      | Err e => (Err e, st)
      | Ok _ =>
          let channels := match channels_for_rule rule with Ok l => l | Err _ => [] end in
          (Ok (), add_outputs [event] (trigger_tasks rule kind source)
                    ((fun ch => (ch, message_for rule kind now)) <$> channels) st)
      end
  end.

(** ** Evaluating a rule *)

(** The loop over the conditions: the trusted ones that were looked at, and the
    Agent of the one that triggered. *)
Fixpoint check_conditions (rule : AlertRule) (now : Z) (l trusted : list AlertCondition) (st : AlertEngine)
    : result AlertError (bool * option rstr * list AlertCondition) * AlertEngine :=
  match l with
  | [] => (Ok (false, None, trusted), st)
  | c :: l =>
      match condition_belongs_to_rule_owner rule c with
      | Err e => (Err e, st)
      | Ok false => check_conditions rule now l trusted st
      | Ok true =>
          let trusted := trusted ++ [c] in
          let '(r, st) := check_condition c now st in
          match r with
          | Err e => (Err e, st)
          | Ok true => (Ok (true, condition_agent_id c, trusted), st)
          | Ok false => check_conditions rule now l trusted st
          end
      end
  end.

Definition rule_active (rule : rstr) (st : AlertEngine) : bool :=
  match states st !! rule with Some s => is_active s | None => false end.

Definition fire_and_set (rule : AlertRule) (kind : Kind) (source : option rstr) (now : Z) (s : AlertState)
    (st : AlertEngine) : result AlertError unit * AlertEngine :=
  match fire rule kind source now st with
  | (Err e, st) => (Err e, st)
  | (Ok _, st) => (Ok (), set_states <[id rule := s]> st)
  end.

Definition evaluate_rule (rule : AlertRule) (clock : Clock) (st : AlertEngine) : result AlertError unit * AlertEngine :=
  match check_conditions rule (now clock) (conditions rule) [] st with
  | (Err e, st) => (Err e, st)
  | (Ok (any_triggered, source, trusted), st) =>
      if is_empty trusted then (Ok (), set_states (delete (id rule)) st) else
      let source := or_else source (infer_condition_agent_id trusted) in
      let already := rule_active (id rule) st in
      let fired := {| rule_id := id rule; is_active := true; last_fired_at := Some (now clock);
                      last_always_fire_at := match trigger_mode rule with
                                             | Once => None
                                             | Always => Some (tick_after clock)
                                             end |} in
      let recovered := {| rule_id := id rule; is_active := false; last_fired_at := None; last_always_fire_at := None |} in
      match trigger_mode rule with
      | Once =>
          if any_triggered && negb already then fire_and_set rule Fired source (now clock) fired st
          else if negb any_triggered && already then fire_and_set rule Recovered source (now clock) recovered st
          else (Ok (), st)
      | Always =>
          if any_triggered then
            let throttle_ok := match states st !! id rule ≫= last_always_fire_at with
                               | Some t => seconds 60 <=? tick clock - t
                               | None => true
                               end in
            if throttle_ok then fire_and_set rule Fired source (now clock) fired st else (Ok (), st)
          else if already then fire_and_set rule Recovered source (now clock) recovered st
          else (Ok (), st)
      end
  end.

(** ** Loading the rules *)

Definition ALERT_MAX_NAME_BYTES : Z := 128.
Definition ALERT_MAX_CONDITIONS : Z := 32.
Definition ALERT_MAX_CONDITION_BYTES : Z := 4 * 1024.
Definition ALERT_MAX_TASK_IDS : Z := 32.
Definition ALERT_MAX_CONSECUTIVE_FAILURES : Z := 100.
Definition ALERT_MAX_LATENCY_MS : Z := 86400000.
Definition ALERT_MAX_DAYS_BEFORE : Z := 3650.
Definition ALERT_MAX_OFFLINE_SECONDS : Z := 31536000.
Definition ALERT_MAX_RESOURCE_DURATION_SECONDS : Z := 31536000.
Definition ALERT_MAX_TRAFFIC_PERCENT : f64 := f64_of_Z 1000000.
Definition ALERT_MAX_RESOURCE_THRESHOLD : f64 := f64_of_Z 1000000000000.

Definition require_canonical_uuid (value : rstr) : result AlertError rstr :=
  let value := trim value in
  if negb (byte_len value =? 36) then Err NotCanonicalUuid else
  parsed ← ok_or (uuid_parse value) NotCanonicalUuid;
  if negb (bool_decide (uuid_to_string parsed = value)) then Err NotCanonicalUuid else Ok value.

Definition ensure_bounded_nonempty_text (value : rstr) (max_bytes : Z) : result AlertError unit :=
  if is_empty value then Err TextRequired else if max_bytes <? byte_len value then Err TextTooLong else Ok ().

Definition parse_trigger_mode (value : rstr) : result AlertError TriggerMode :=
  if bool_decide (trim value = lit "always") then Ok Always
  else if bool_decide (trim value = lit "once") then Ok Once else Err BadTriggerMode.

Definition ensure_days_before (d : Z) : result AlertError unit :=
  if negb ((0 <=? d) && (d <=? ALERT_MAX_DAYS_BEFORE)) then Err OutOfRange else Ok ().

Definition validate_runtime_condition (c : AlertCondition) : result AlertError unit :=
  match c with
  | ServiceDown s n =>
      require_canonical_uuid s ;;
      if (n =? 0) || (ALERT_MAX_CONSECUTIVE_FAILURES <? n) then Err OutOfRange else Ok ()
  | ServiceLatency s ms =>
      require_canonical_uuid s ;; if (ms <=? 0) || (ALERT_MAX_LATENCY_MS <? ms) then Err OutOfRange else Ok ()
  | CertificateExpiry s d => require_canonical_uuid s ;; ensure_days_before d
  | ServerExpiry a d => require_canonical_uuid a ;; ensure_days_before d
  | ServerTrafficQuota a p _ =>
      require_canonical_uuid a ;;
      if negb (is_finite p) || f64_le p f64_zero || f64_gt p ALERT_MAX_TRAFFIC_PERCENT then Err OutOfRange else Ok ()
  | ServerOffline a s =>
      require_canonical_uuid a ;;
      if (s =? 0) || (ALERT_MAX_OFFLINE_SECONDS <? s) then Err OutOfRange else Ok ()
  | ServerResource a _ _ t d =>
      require_canonical_uuid a ;;
      if negb (is_finite t) || f64_gt (f64_abs t) ALERT_MAX_RESOURCE_THRESHOLD then Err OutOfRange else
      if ALERT_MAX_RESOURCE_DURATION_SECONDS <? d then Err OutOfRange else Ok ()
  end.

Definition parse_condition (v : json) : result AlertError AlertCondition :=
  if ALERT_MAX_CONDITION_BYTES <? json_len lib v then Err ConditionTooLong else
  c ← ok_or (condition_of_json lib v) ConditionInvalid;
  validate_runtime_condition c ;; Ok c.

Definition parse_bounded_alert_conditions (value : rstr) : result AlertError (list AlertCondition) :=
  if ALERT_MAX_CONDITIONS * ALERT_MAX_CONDITION_BYTES <? byte_len value then Err RulesTooLong else
  raw ← ok_or (json_parse lib value ≫= as_array) RulesInvalid;
  if is_empty raw then Err NoConditions else
  if ALERT_MAX_CONDITIONS <? zlen raw then Err TooManyConditions else
  try_fold (fun out v => c ← parse_condition v; Ok (out ++ [c])) raw [].

Definition parse_bounded_task_ids_json (value : option rstr) : result AlertError (list rstr) :=
  match value with
  | None => Ok []
  | Some value =>
      if is_empty (trim value) then Ok [] else
      values ← ok_or (parse_strings value) TaskIdsInvalid;
      if ALERT_MAX_TASK_IDS <? zlen values then Err TooManyTaskIds else
      try_fold (fun out v => i ← require_canonical_uuid v; Ok (push_new out i)) values []
  end.

Definition validate_loaded_alert_rule (row : LoadedAlertRuleRow) : result AlertError AlertRule :=
  i ← require_canonical_uuid (r_id row);
  owner ← require_canonical_uuid (r_owner_user_id row);
  let nm := trim (r_name row) in
  ensure_bounded_nonempty_text nm ALERT_MAX_NAME_BYTES ;;
  mode ← parse_trigger_mode (r_trigger_mode row);
  cs ← parse_bounded_alert_conditions (r_rules_json row);
  group ← match r_notification_group_id row with
          | None => Ok None
          | Some g => g ← require_canonical_uuid g; Ok (Some g)
          end;
  failure ← parse_bounded_task_ids_json (r_fail_task_ids_json row);
  recovery ← parse_bounded_task_ids_json (r_recover_task_ids_json row);
  Ok {| id := i; owner_user_id := owner; name := nm; enabled := r_enabled row; trigger_mode := mode; conditions := cs;
        notification_group_id := group; failure_task_ids := failure; recovery_task_ids := recovery |}.

(** A row that does not validate is skipped. *)
Definition load_alert_rules : result AlertError (list AlertRule) :=
  rows ← from_query (alert_rules db);
  Ok (omap (M := list) (fun row => match validate_loaded_alert_rule row with Ok r => Some r | Err _ => None end) rows).

(** [evaluate_all]: forget the rules that are gone, then evaluate each one; an
    evaluation that fails is logged. *)
Definition evaluate_rules (clock : AlertRule → Clock) (rules : list AlertRule) (st : AlertEngine) : AlertEngine :=
  foldl (fun st rule => if enabled rule then (evaluate_rule rule (clock rule) st).2 else st) st rules.

Definition evaluate_all (clock : AlertRule → Clock) (st : AlertEngine) : result AlertError unit * AlertEngine :=
  match load_alert_rules with
  | Err e => (Err e, st)
  | Ok rules =>
      let active : gset rstr := list_to_set (id <$> filter (fun r : AlertRule => enabled r = true) rules) in
      let st := set_states (filter (fun p : rstr * AlertState => p.1 ∈ active)) st in
      (Ok (), evaluate_rules clock rules st)
  end.
End engine.
#[global] Arguments AlertEngine : clear implicits.
#[global] Arguments AlertDb : clear implicits.
#[global] Arguments AlertLib : clear implicits.
#[global] Arguments AlertError : clear implicits.
End Alerts.
