(* ===== verification/AlertsProofs.v ===== *)
(** * AlertsProofs: when alerts fire, for how long a condition must hold, and
    whose resources an alert can see. *)

From S2P Require Import Prelude Text BTreeMap Json Externals Alerts.
From Stdlib Require Import SpecFloat.

Module AlertsProofs.
Import Alerts.

Section proofs.
Context {E Row Chan : Type} `{UuidLib}.
Implicit Types (db : AlertDb E Row) (lib : AlertLib Row Chan) (rule : AlertRule) (st : AlertEngine Chan).

(** ** What an evaluation leaves alone *)

(** The windows aside, a condition changes nothing. *)
Definition same_outputs st st' : Prop :=
  states st' = states st ∧ events st' = events st ∧ spawned st' = spawned st ∧ sent st' = sent st
  ∧ latest st' = latest st.

Lemma same_outputs_trans st1 st2 st3 : same_outputs st1 st2 → same_outputs st2 st3 → same_outputs st1 st3.
Proof. unfold same_outputs. intros (-> & -> & -> & -> & ->) (-> & -> & -> & -> & ->). done. Qed.

Lemma check_condition_outputs db lib c now st : same_outputs st (check_condition db lib c now st).2.
Proof.
  destruct c; try done. cbn [check_condition].
  unfold check_resource_condition, check_network_window, apply_duration_window.
  destruct (latest st !! agent_id) as [v|]; [|done]. cbv zeta.
  destruct (bool_decide _ && _).
  - destruct (network_total_bytes v); [|done]. destruct (traffic_windows st !! _); [|done].
    by destruct (_ <? duration_seconds).
  - destruct (resource_value v resource); [|done]. destruct (negb _); [done|]. by destruct (duration_seconds =? 0).
Qed.

(** The loop looks at trusted conditions only, and says which one triggered. *)
Lemma check_conditions_spec db lib rule now l : ∀ trusted st r st',
  check_conditions db lib rule now l trusted st = (r, st') →
  same_outputs st st' ∧
  match r with
  | Err _ => True
  | Ok (triggered, source, trusted') =>
      (∃ more, trusted' = trusted ++ more
         ∧ Forall (fun c => c ∈ l ∧ condition_belongs_to_rule_owner db rule c = Ok true) more)
      ∧ (triggered = true → ∃ c u, c ∈ l ∧ condition_belongs_to_rule_owner db rule c = Ok true
           ∧ same_outputs st u ∧ (check_condition db lib c now u).1 = Ok true ∧ source = condition_agent_id c)
      ∧ ((∃ c, c ∈ l ∧ condition_belongs_to_rule_owner db rule c = Ok true) → trusted' ≠ [])
  end.
Proof.
  induction l as [|c l IH]; intros trusted st r st'; cbn [check_conditions].
  { intros [= <- <-]. split; [done|]. split_and!; [exists []; by rewrite app_nil_r|done|].
    by intros (c & ?%not_elem_of_nil & _). }
  destruct (condition_belongs_to_rule_owner db rule c) as [[]|] eqn:Hb.
  - pose proof (check_condition_outputs db lib c now st) as Hout.
    destruct (check_condition db lib c now st) as [[[]|] st1] eqn:Hc; cbn [snd] in Hout.
    + intros [= <- <-]. split; [done|]. split_and!.
      * exists [c]. split; [done|]. apply Forall_singleton. split; [set_solver|done].
      * intros _. exists c, st. rewrite Hc. split_and!; [set_solver|done|done|done|done].
      * intros _. by destruct trusted.
    + intros Hl. apply IH in Hl as [Hs Hr]. split; [by eapply same_outputs_trans|].
      destruct r as [[[triggered source] trusted']|]; [|done].
      destruct Hr as ((more & -> & Hmore) & Ht & Hf). split_and!.
      * exists (c :: more). rewrite <- app_assoc. split; [done|]. constructor; [split; [set_solver|done]|].
        eapply Forall_impl; [exact Hmore|]. set_solver.
      * intros Htr. destruct (Ht Htr) as (c' & u & ? & ? & ? & ? & ?). exists c', u.
        split_and!; [set_solver|done|by eapply same_outputs_trans|done|done].
      * intros _. rewrite <- app_assoc. by destruct trusted.
    + intros [= <- <-]. done.
  - intros Hl. apply IH in Hl as [Hs Hr]. split; [done|].
    destruct r as [[[triggered source] trusted']|]; [|done].
    destruct Hr as ((more & -> & Hmore) & Ht & Hf). split_and!.
    + exists more. split; [done|]. eapply Forall_impl; [exact Hmore|]. set_solver.
    + intros Htr. destruct (Ht Htr) as (c' & u & ? & ? & ? & ? & ?). exists c', u. split_and!; [set_solver|done..].
    + intros (c' & [->|Hin]%elem_of_cons & Hb'); [congruence|]. apply Hf. eauto.
  - by intros [= <- <-].
Qed.

(** ** Firing *)

Lemma fire_spec db lib rule kind source now st r st' :
  fire db lib rule kind source now st = (r, st') →
  match r with
  | Err _ => st' = st
  | Ok _ => ∃ trusted msgs, trusted_source db rule source = Ok trusted
      ∧ st' = add_outputs [{| e_rule_id := id rule; e_agent_id := trusted; e_kind := kind; e_fired_at := now |}]
                (trigger_tasks db rule kind trusted) msgs st
  end.
Proof.
  unfold fire. destruct (trusted_source db rule source) as [trusted|]; [|by intros [= <- <-]]. cbv zeta.
  destruct (from_query _); intros [= <- <-]; [|done]. eauto.
Qed.

(** What one evaluation does: nothing visible (also on every error), or it
    forgets a rule none of whose conditions is in scope, or it emits one event. *)
Inductive effect db lib rule (clock : Clock) st st' : Prop :=
| effect_quiet : same_outputs st st' → effect db lib rule clock st st'
| effect_forget :
    states st' = delete (id rule) (states st) → events st' = events st → spawned st' = spawned st →
    (∀ c, c ∈ conditions rule → condition_belongs_to_rule_owner db rule c ≠ Ok true) →
    effect db lib rule clock st st'
| effect_event kind source trusted s :
    states st' = <[id rule := s]> (states st) →
    events st' = events st ++ [{| e_rule_id := id rule; e_agent_id := trusted; e_kind := kind; e_fired_at := now clock |}] →
    spawned st' = spawned st ++ trigger_tasks db rule kind trusted →
    trusted_source db rule source = Ok trusted →
    is_active s = match kind with Fired => true | Recovered => false end →
    last_always_fire_at s = match kind, trigger_mode rule with
                            | Fired, Always => Some (tick_after clock)
                            | _, _ => None
                            end →
    match kind with
    | Fired =>
        (trigger_mode rule = Once → rule_active (id rule) st = false)
        ∧ (trigger_mode rule = Always → ∀ t, states st !! id rule ≫= last_always_fire_at = Some t →
             seconds 60 <= tick clock - t)
        ∧ ∃ c u, c ∈ conditions rule ∧ condition_belongs_to_rule_owner db rule c = Ok true
             ∧ same_outputs st u ∧ (check_condition db lib c (now clock) u).1 = Ok true
    | Recovered => rule_active (id rule) st = true
    end →
    effect db lib rule clock st st'.

Lemma evaluate_rule_effect db lib rule clock st : effect db lib rule clock st (evaluate_rule db lib rule clock st).2.
Proof.
  unfold evaluate_rule.
  destruct (check_conditions db lib rule (now clock) (conditions rule) [] st) as [[[[triggered source] trusted]|] st1] eqn:Hc;
    apply check_conditions_spec in Hc as [Hs Hr]; [|by apply effect_quiet].
  destruct Hr as ((more & -> & Hmore) & Ht & Hf). cbn [app] in *.
  destruct Hs as (Es & Ee & Esp & En & El). destruct (is_empty more) eqn:Hem.
  { apply is_empty_spec in Hem as ->. apply effect_forget; cbn [snd set_states states events spawned]; [by rewrite Es|done|done|].
    intros c Hin Hb. destruct Hf; [eauto|done]. }
  assert (∀ kind s src,
    is_active s = match kind with Fired => true | Recovered => false end →
    last_always_fire_at s = match kind, trigger_mode rule with Fired, Always => Some (tick_after clock) | _, _ => None end →
    match kind with
    | Fired => (trigger_mode rule = Once → rule_active (id rule) st = false)
        ∧ (trigger_mode rule = Always → ∀ t, states st !! id rule ≫= last_always_fire_at = Some t →
             seconds 60 <= tick clock - t)
        ∧ ∃ c u, c ∈ conditions rule ∧ condition_belongs_to_rule_owner db rule c = Ok true
             ∧ same_outputs st u ∧ (check_condition db lib c (now clock) u).1 = Ok true
    | Recovered => rule_active (id rule) st = true end →
    effect db lib rule clock st (fire_and_set db lib rule kind src (now clock) s st1).2) as Hfire.
  { intros kind s src Ha Hl Hk. unfold fire_and_set.
    destruct (fire db lib rule kind src (now clock) st1) as [[[]|] st2] eqn:Hfi; apply fire_spec in Hfi.
    - destruct Hfi as (tr & msgs & Htr & ->). eapply effect_event; cbn [snd set_states add_outputs states events spawned];
        rewrite ?Es, ?Ee, ?Esp; done.
    - subst st2. by apply effect_quiet. }
  assert (effect db lib rule clock st st1) as Hquiet by by apply effect_quiet.
  cbv zeta. assert (rule_active (id rule) st1 = rule_active (id rule) st) as -> by by unfold rule_active; rewrite Es.
  destruct (trigger_mode rule) eqn:Hm.
  - destruct triggered.
    + rewrite Es. destruct (match states st !! id rule ≫= last_always_fire_at with Some t => _ | None => true end) eqn:Hth; [|done].
      apply (Hfire Fired); [done|done|]. split_and!; [done| |].
      * intros _ t Hlast. rewrite Hlast in Hth. by bool_prop.
      * destruct (Ht eq_refl) as (c & u & ? & ? & ? & ? & _). eauto 10.
    + destruct (rule_active (id rule) st) eqn:Hact; [|done]. by apply (Hfire Recovered).
  - destruct triggered, (rule_active (id rule) st) eqn:Hact; cbn [andb negb]; try done.
    + apply (Hfire Fired); [done|done|]. split_and!; [done|done|].
      destruct (Ht eq_refl) as (c & u & ? & ? & ? & ? & _). eauto 10.
    + by apply (Hfire Recovered).
Qed.

(** ** Events of a rule *)

Definition kinds_of (i : rstr) (l : list AlertEvent) : list Kind :=
  e_kind <$> filter (fun e => e_rule_id e = i) l.

Lemma kinds_of_app i l k : kinds_of i (l ++ k) = kinds_of i l ++ kinds_of i k.
Proof. unfold kinds_of. by rewrite filter_app, fmap_app. Qed.

Lemma kinds_of_one i e : kinds_of i [e] = if bool_decide (e_rule_id e = i) then [e_kind e] else [].
Proof. unfold kinds_of. rewrite filter_cons, filter_nil. case_decide; [by rewrite bool_decide_eq_true_2|by rewrite bool_decide_eq_false_2]. Qed.

(** Everything that happens to the engine. *)
Inductive step st : AlertEngine Chan → Prop :=
| step_evaluate db lib clock : step st (evaluate_all db lib clock st).2
| step_observe agent payload : step st (observe_agent_state agent payload st).

Definition reachable st : Prop := rtc step new_engine st.

(** A rule that is active fired last, and each recovery follows a firing. *)
Record paired st : Prop := {
  paired_active i : rule_active i st = true → last (kinds_of i (events st)) = Some Fired;
  paired_recovered i pre post : kinds_of i (events st) = pre ++ Recovered :: post → last pre = Some Fired;
}.

Lemma paired_mono st st' :
  events st' = events st → (∀ i, rule_active i st' = true → rule_active i st = true) → paired st → paired st'.
Proof. intros Ev Ha [H1 H2]. split; rewrite Ev; eauto. Qed.

Lemma snoc_split {A} (l : list A) x pre y post :
  l ++ [x] = pre ++ y :: post → (post = [] ∧ pre = l ∧ x = y) ∨ ∃ post', l = pre ++ y :: post'.
Proof.
  destruct post as [|z post _] using rev_ind.
  - intros [-> [= ->]]%app_inj_tail. by left.
  - rewrite app_comm_cons, app_assoc. intros [-> _]%app_inj_tail. right. eauto.
Qed.

Lemma paired_evaluate db lib rule clock st : paired st → paired (evaluate_rule db lib rule clock st).2.
Proof.
  intros Hp. destruct (evaluate_rule_effect db lib rule clock st) as
    [(Es & Ee & _)|Es Ee _ _|kind source trusted s Es Ee _ _ Ha _ Hk].
  - apply (paired_mono st); [done| |done]. intros i. unfold rule_active. by rewrite Es.
  - apply (paired_mono st); [done| |done]. intros i. unfold rule_active. rewrite Es.
    destruct (decide (id rule = i)) as [->|]; [by rewrite lookup_delete_eq|by rewrite lookup_delete_ne].
  - destruct Hp as [H1 H2]. split.
    + intros i. unfold rule_active. rewrite Es, Ee, kinds_of_app, kinds_of_one. cbn [e_rule_id e_kind].
      destruct (decide (id rule = i)) as [<-|Hne].
      * rewrite lookup_insert_eq, bool_decide_eq_true_2, last_snoc by done. rewrite Ha. by destruct kind.
      * rewrite lookup_insert_ne, bool_decide_eq_false_2, app_nil_r by done. apply H1.
    + intros i pre post. rewrite Ee, kinds_of_app, kinds_of_one. cbn [e_rule_id e_kind].
      destruct (decide (id rule = i)) as [<-|Hne]; [rewrite bool_decide_eq_true_2 by done|].
      * intros [(-> & -> & ->)|(post' & Hl)]%snoc_split; [by apply H1|by eapply H2].
      * rewrite bool_decide_eq_false_2, app_nil_r by done. apply H2.
Qed.

Lemma paired_rules db lib clock rules : ∀ st, paired st → paired (evaluate_rules db lib clock rules st).
Proof.
  unfold evaluate_rules. induction rules as [|rule rules IH]; intros st Hp; [done|]. cbn. apply IH.
  destruct (enabled rule); [by apply paired_evaluate|done].
Qed.

Lemma paired_step st st' : step st st' → paired st → paired st'.
Proof.
  intros [db lib clock|agent payload] Hp; [|by apply (paired_mono st)].
  unfold evaluate_all. destruct (load_alert_rules db lib) as [rules|]; [|done]. cbv zeta. cbn [snd].
  apply paired_rules, (paired_mono st); [done| |done]. intros i. unfold rule_active. cbn [states set_states].
  destruct (filter _ (states st) !! i) as [s|] eqn:Hl; [|done].
  apply map_lookup_filter_Some in Hl as [-> _]. done.
Qed.

(** a recovery is only announced for an alert that was announced: in every
    reachable state of the engine, whatever the rules, the telemetry, the
    database and its failures were, each [recovered] event of a rule comes right
    after a [fired] event of that rule. *)
Theorem recovery_follows_fire st i pre post :
  reachable st → kinds_of i (events st) = pre ++ Recovered :: post → last pre = Some Fired.
Proof.
  intros Hr. assert (paired st) as [_ H2]; [|by apply H2]. unfold reachable in Hr. revert st Hr.
  refine (rtc_ind_r _ _ _ _); [|intros u st _; apply paired_step].
  split; [done|]. intros j p q Hn. by destruct p.
Qed.

(** ** One rule over time *)

Definition in_scope db rule : Prop :=
  ∃ c, c ∈ conditions rule ∧ condition_belongs_to_rule_owner db rule c = Ok true.

(** The events a sequence of evaluations of a rule emits, with the clock of each. *)
Fixpoint run_rule rule (l : list (AlertDb E Row * AlertLib Row Chan * Clock)) st : list (Kind * Clock) :=
  match l with
  | [] => []
  | (db, lib, clock) :: l =>
      let st' := (evaluate_rule db lib rule clock st).2 in
      ((fun e => (e_kind e, clock)) <$> drop (length (events st)) (events st')) ++ run_rule rule l st'
  end.

Fixpoint alternating (active : bool) (l : list Kind) : Prop :=
  match l with
  | [] => True
  | k :: l => k = (if active then Recovered else Fired) ∧ alternating (negb active) l
  end.

(** Two firings with no recovery in between are 60 seconds apart. *)
Fixpoint spaced (last : option Z) (l : list (Kind * Clock)) : Prop :=
  match l with
  | [] => True
  | (Fired, c) :: l => (∀ t, last = Some t → seconds 60 <= tick c - t) ∧ spaced (Some (tick_after c)) l
  | (Recovered, _) :: l => spaced None l
  end.

Lemma new_events (l : list AlertEvent) k : drop (length l) (l ++ k) = k.
Proof. by rewrite drop_app_length. Qed.

(** a [once] rule is edge-triggered: as long as one of its conditions is in
    its owner's scope, the events of any sequence of its evaluations alternate,
    [fired] first, starting from the state the rule is in. An evaluation that
    fails, or whose event cannot be stored, counts as not having happened. *)
Theorem once_alternates rule l st :
  trigger_mode rule = Once → Forall (fun x => in_scope x.1.1 rule) l →
  alternating (rule_active (id rule) st) (fst <$> run_rule rule l st).
Proof.
  intros Hm. revert st. induction l as [|[[db lib] clock] l IH]; intros st Hsc; [done|].
  apply Forall_cons in Hsc as [Hsc Hl]. cbn [run_rule fst] in *. cbv zeta. specialize (IH (evaluate_rule db lib rule clock st).2 Hl).
  destruct (evaluate_rule_effect db lib rule clock st) as
    [(Es & Ee & _)|_ _ _ Hno|kind source trusted s Es Ee _ _ Ha _ Hk].
  - unfold rule_active in *. rewrite Es in IH. by rewrite Ee, drop_all.
  - destruct Hsc as (c & Hin & Hb). by destruct (Hno c Hin).
  - rewrite Ee, new_events. unfold rule_active in IH at 1. rewrite Es, lookup_insert_eq, Ha in IH.
    destruct kind; cbn.
    + destruct Hk as (Hk & _). by rewrite Hk by done.
    + by rewrite Hk.
Qed.

(** an [always] rule is throttled: as long as one of its conditions is in its
    owner's scope, two firings with no recovery in between are at least 60
    seconds apart on the monotonic clock, however often it is evaluated. *)
Theorem always_throttled rule l st :
  trigger_mode rule = Always → Forall (fun x => in_scope x.1.1 rule) l →
  spaced (states st !! id rule ≫= last_always_fire_at) (run_rule rule l st).
Proof.
  intros Hm. revert st. induction l as [|[[db lib] clock] l IH]; intros st Hsc; [done|].
  apply Forall_cons in Hsc as [Hsc Hl]. cbn [run_rule fst] in *. cbv zeta. specialize (IH (evaluate_rule db lib rule clock st).2 Hl).
  destruct (evaluate_rule_effect db lib rule clock st) as
    [(Es & Ee & _)|_ _ _ Hno|kind source trusted s Es Ee _ _ Ha Hlast Hk].
  - rewrite Es in IH. by rewrite Ee, drop_all.
  - destruct Hsc as (c & Hin & Hb). by destruct (Hno c Hin).
  - rewrite Ee, new_events. rewrite Es, lookup_insert_eq in IH. cbn [mbind option_bind] in IH. rewrite Hlast, Hm in IH.
    destruct kind; cbn; [|done]. split; [|done]. intros t Ht. destruct Hk as (_ & Hk & _). by apply Hk.
Qed.

(** ** Duration windows *)

(** The results of a sequence of observations of one condition; the last one's. *)
Definition run_window (key : WindowKey) (d : Z) (obs : list (bool * Z)) st : bool * AlertEngine Chan :=
  foldl (fun acc o => apply_duration_window key o.1 d o.2 acc.2) (false, st) obs.

(** Since when the condition has been seen triggered. *)
Definition since (obs : list (bool * Z)) : option Z :=
  foldl (fun acc o => if (o.1 : bool) then Some (default o.2 acc) else None) None obs.

Lemma since_snoc obs o : since (obs ++ [o]) = if o.1 then Some (default o.2 (since obs)) else None.
Proof. unfold since. by rewrite foldl_app. Qed.

Lemma since_None obs : since obs = None ↔ ∀ o, last obs = Some o → o.1 = false.
Proof.
  destruct obs as [|[b t] obs _] using rev_ind; [done|]. rewrite since_snoc, last_snoc. cbn.
  destruct b; split; try done; [intros Hl; by specialize (Hl _ eq_refl)|by intros _ o [= <-]].
Qed.

Lemma since_Some obs t0 :
  since obs = Some t0 ↔ ∃ pre mid, obs = pre ++ (true, t0) :: mid ∧ Forall (fun o => o.1 = true) mid
    ∧ ∀ o, last pre = Some o → o.1 = false.
Proof.
  induction obs as [|[b t] obs IH] using rev_ind.
  { split; [done|]. intros ([|??] & mid & Hl & _); discriminate Hl. }
  rewrite since_snoc. cbn [fst snd]. split.
  - destruct b; [|done]. destruct (since obs) as [t1|] eqn:Hs; cbn [default]; intros [= ->].
    + destruct (proj1 IH eq_refl) as (pre & mid & -> & Hmid & Hpre). exists pre, (mid ++ [(true, t)]).
      rewrite <- app_assoc. split_and!; [done| |done]. apply Forall_app. split; [done|]. by apply Forall_singleton.
    + exists obs, []. split_and!; [done|done|]. by apply since_None.
  - intros (pre & mid & Hl & Hmid & Hpre). destruct mid as [|o mid _] using rev_ind.
    + apply app_inj_tail in Hl as [-> [= -> ->]]. by rewrite (proj2 (since_None pre)).
    + rewrite app_comm_cons, app_assoc in Hl. apply app_inj_tail in Hl as [-> <-].
      apply Forall_app in Hmid as [Hmid Ho]. apply Forall_cons in Ho as [Ho _]. cbn in Ho. subst b.
      by rewrite (proj2 IH) by eauto.
Qed.

Lemma window_since key d obs st :
  d ≠ 0 → condition_windows st !! key = None → condition_windows (run_window key d obs st).2 !! key = since obs.
Proof.
  intros Hd Hk. induction obs as [|[b t] obs IH] using rev_ind; [done|].
  rewrite since_snoc. unfold run_window in *. rewrite foldl_app. cbn [foldl fst snd]. unfold apply_duration_window at 1.
  destruct b; cbn [negb]; [|apply lookup_delete_eq]. rewrite (proj2 (Z.eqb_neq _ _) Hd).
  cbn [snd set_condition_windows condition_windows]. by rewrite lookup_insert_eq, IH.
Qed.

(** a condition with a duration triggers exactly when it has been seen
    triggered at every observation since one that is at least [d] whole seconds
    old: starting without a window, the last of a sequence of observations
    reports the condition exactly when the unbroken run of triggered
    observations that it ends began that long ago. *)
Theorem duration_window_exact key d obs b t st :
  0 < d < 2 ^ 63 → condition_windows st !! key = None →
  (run_window key d (obs ++ [(b, t)]) st).1 = true ↔
  ∃ pre t0 mid, obs ++ [(b, t)] = pre ++ (true, t0) :: mid ∧ Forall (fun o => o.1 = true) mid
    ∧ (∀ o, last pre = Some o → o.1 = false) ∧ d <= num_seconds (t - t0).
Proof.
  intros Hd Hk. assert (u64_as_i64 d = d) as Hi.
  { unfold u64_as_i64. by rewrite (proj2 (Z.leb_gt _ _)) by lia. }
  transitivity (∃ t0, since (obs ++ [(b, t)]) = Some t0 ∧ d <= num_seconds (t - t0)).
  2: { setoid_rewrite since_Some. naive_solver. }
  rewrite since_snoc. unfold run_window. rewrite foldl_app. cbn [foldl fst snd].
  pose proof (window_since key d obs st) as Hw. unfold run_window in Hw. unfold apply_duration_window at 1.
  destruct b; cbn [negb]; [|by split; [|intros (? & ? & _)]].
  rewrite (proj2 (Z.eqb_neq d 0)) by lia. cbn [fst]. rewrite Hw, Hi, Z.leb_le by (done || lia).
  split; [eauto|by intros (? & [= <-] & ?)].
Qed.

(** ** Whose resources an alert sees *)

Lemma owned_by_true owner row : owned_by owner row = true ↔ ∃ o, row = Some o ∧ uuid_parse (trim o) = Some owner.
Proof.
  unfold owned_by. destruct row as [o|]; cbn [mbind option_bind]; [|by split; [|intros (? & ? & _)]].
  destruct (uuid_parse (trim o)) as [u|] eqn:Eu.
  - rewrite Z.eqb_eq. split; [intros ->; eauto|]. intros (? & [= <-] & ?). congruence.
  - split; [done|]. intros (? & [= <-] & ?). congruence.
Qed.

Lemma from_query_Ok {A} (r : result E A) a : from_query r = Ok a ↔ r = Ok a.
Proof. destruct r; cbn; naive_solver. Qed.

(** ** Which Agents' results count for a service *)

Lemma push_new_spec out v : NoDup out → NoDup (push_new out v) ∧ ∀ x, x ∈ push_new out v ↔ x ∈ out ∨ x = v.
Proof.
  intros Hn. unfold push_new. destruct (contains v out) eqn:Hc.
  - apply contains_spec in Hc. split; [done|]. intros x. naive_solver.
  - apply contains_false in Hc. split; [|intros x; set_solver].
    apply NoDup_app. split_and!; [done|set_solver|apply NoDup_singleton].
Qed.

Lemma normalize_uuid_spec l :
  NoDup (normalize_uuid_id_list l)
  ∧ ∀ s, s ∈ normalize_uuid_id_list l ↔ ∃ r u, r ∈ l ∧ uuid_parse (trim r) = Some u ∧ s = uuid_to_string u.
Proof.
  induction l as [|r l IH] using rev_ind.
  { split; [constructor|]. intros s. set_solver. }
  unfold normalize_uuid_id_list in *. rewrite foldl_app. cbn [foldl]. destruct IH as [Hn Hs].
  destruct (uuid_parse (trim r)) as [u|] eqn:Hu.
  - destruct (push_new_spec _ (uuid_to_string u) Hn) as [Hn' Hs']. split; [done|]. intros s. rewrite Hs', Hs.
    setoid_rewrite elem_of_app. setoid_rewrite list_elem_of_singleton. naive_solver.
  - split; [done|]. intros s. rewrite Hs. setoid_rewrite elem_of_app. setoid_rewrite list_elem_of_singleton. naive_solver.
Qed.

(** [s] is the canonical id of an Agent of [owner] that is not revoked. *)
Definition active_agent db (owner : Z) (s : rstr) : Prop :=
  ∃ rows r u, active_agents_of db (uuid_to_string owner) = Ok rows ∧ r ∈ rows
    ∧ uuid_parse (trim r) = Some u ∧ s = uuid_to_string u.

Lemma load_owner_uuid_spec db owner ids :
  load_active_agent_ids_for_owner_uuid db owner = Ok ids → NoDup ids ∧ ∀ s, s ∈ ids → active_agent db owner s.
Proof.
  intros (rows & Hq%from_query_Ok & [= <-])%bind_Ok. destruct (normalize_uuid_spec rows) as [Hn Hs].
  split; [done|]. intros s (r & u & ? & ? & ?)%Hs. by exists rows, r, u.
Qed.

Lemma load_owner_spec db owner ids :
  load_active_agent_ids_for_owner db owner = Ok ids →
  NoDup ids ∧ ∀ s, s ∈ ids → ∃ o u, owner = Some o ∧ uuid_parse o = Some u ∧ active_agent db u s.
Proof.
  unfold load_active_agent_ids_for_owner. destruct owner as [o|]; cbn [mbind option_bind].
  2: { intros [= <-]. split; [constructor|set_solver]. }
  destruct (uuid_parse o) as [u|] eqn:Hu; [|intros [= <-]; split; [constructor|set_solver]].
  intros [Hn Hs]%load_owner_uuid_spec. split; [done|]. intros s Hin%Hs. eauto.
Qed.

Lemma filter_owner_spec db owner l ids :
  filter_agent_ids_to_service_owner db owner l = Ok ids →
  NoDup ids ∧ ∀ s, s ∈ ids → ∃ u, active_agent db u s ∧ ∀ o, owner = Some o → uuid_parse o = Some u.
Proof.
  unfold filter_agent_ids_to_service_owner. cbv zeta. destruct (normalize_uuid_spec l) as [Hn _].
  destruct (is_empty _); [intros [= <-]; split; [constructor|set_solver]|].
  intros ([u|] & Ho & Hk)%bind_Ok; [|injection Hk as <-; split; [constructor|set_solver]].
  apply bind_Ok in Hk as (owned & [_ Hs]%load_owner_uuid_spec & [= <-]).
  split; [by apply NoDup_filter|]. intros s [Hin _]%list_elem_of_filter. exists u. split; [by apply Hs|].
  intros o ->. cbn in Ho. congruence.
Qed.

(** the results an alert counts for a service covered by Agents come only
    from active Agents of one owner, each counted once: that owner is the
    service's when it has one, and an Agent the service excludes is left out. *)
Theorem service_scope_owned db lib service ids :
  service_result_scope db lib service = Ok (Servers ids) →
  NoDup ids ∧ ∀ s, s ∈ ids →
    ∃ mode owner legacy excluded u, service_config db service = Ok (Some (mode, owner, legacy, excluded))
      ∧ active_agent db u s ∧ (∀ o, nonempty_trimmed owner = Some o → uuid_parse o = Some u)
      ∧ (mode = lit "exclude" → s ∉ normalize_uuid_id_list (parse_id_list_json lib excluded)).
Proof.
  intros (config & Hc%from_query_Ok & Hk)%bind_Ok.
  destruct config as [[[[mode owner] legacy] excl]|]; [|injection Hk as <-; split; [constructor|set_solver]].
  cbv zeta in Hk. case_bool_decide as Hsp; [|case_bool_decide as Hall; [|case_bool_decide as Hex; [|done]]].
  - apply bind_Ok in Hk as ([l|] & _ & Hk); [|injection Hk as <-; split; [constructor|set_solver]].
    destruct (filter_agent_ids_to_service_owner db _ _) as [l'|] eqn:Hf; [|done]. injection Hk as ->.
    apply filter_owner_spec in Hf as [Hn Hs]. split; [done|]. intros s (u & Ha & Ho)%Hs.
    exists mode, owner, legacy, excl, u. split_and!; [done..|]. intros ->. by vm_compute in Hsp.
  - destruct (load_active_agent_ids_for_owner db _) as [l'|] eqn:Hf; [|done]. injection Hk as ->.
    apply load_owner_spec in Hf as [Hn Hs]. split; [done|]. intros s (o & u & Ho & Hu & Ha)%Hs.
    exists mode, owner, legacy, excl, u. split_and!; [done..|congruence|]. intros ->. by vm_compute in Hall.
  - apply bind_Ok in Hk as (l & [Hn Hs]%load_owner_spec & [= <-]). split; [by apply NoDup_filter|].
    intros s [Hne (o & u & Ho & Hu & Ha)%Hs]%list_elem_of_filter.
    exists mode, owner, legacy, excl, u. split_and!; [done..|congruence|done].
Qed.

(** ** Loaded rules *)

Definition canonical (s : rstr) : Prop := ∃ u, uuid_parse s = Some u ∧ s = uuid_to_string u.

Definition condition_ok (c : AlertCondition) : Prop :=
  match c with
  | ServiceDown s n => canonical (trim s) ∧ n ≠ 0 ∧ n <= 100
  | ServiceLatency s ms => canonical (trim s) ∧ 0 < ms <= 86400000
  | CertificateExpiry s d | ServerExpiry s d => canonical (trim s) ∧ 0 <= d <= 3650
  | ServerTrafficQuota a p _ => canonical (trim a) ∧ is_finite p = true ∧ f64_le p f64_zero = false
      ∧ f64_gt p ALERT_MAX_TRAFFIC_PERCENT = false
  | ServerOffline a s => canonical (trim a) ∧ s ≠ 0 ∧ s <= 31536000
  | ServerResource a _ _ t d => canonical (trim a) ∧ is_finite t = true
      ∧ f64_gt (f64_abs t) ALERT_MAX_RESOURCE_THRESHOLD = false ∧ d <= 31536000
  end.

Definition task_ids_ok (l : list rstr) : Prop := NoDup l ∧ zlen l <= 32 ∧ Forall canonical l.

Record rule_ok rule : Prop := {
  ok_id : canonical (id rule);
  ok_owner : canonical (owner_user_id rule);
  ok_name : name rule ≠ [] ∧ trim (name rule) = name rule ∧ byte_len (name rule) <= 128;
  ok_conditions : conditions rule ≠ [] ∧ zlen (conditions rule) <= 32 ∧ Forall condition_ok (conditions rule);
  ok_group g : notification_group_id rule = Some g → canonical g;
  ok_failure : task_ids_ok (failure_task_ids rule);
  ok_recovery : task_ids_ok (recovery_task_ids rule);
}.

Lemma require_uuid_Ok v r :
  (require_canonical_uuid v : result (AlertError E) rstr) = Ok r ↔ r = trim v ∧ canonical (trim v).
Proof.
  unfold require_canonical_uuid, canonical. cbv zeta. destruct (Z.eqb_spec (byte_len (trim v)) 36) as [Hl|Hl]; cbn [negb].
  - destruct (uuid_parse (trim v)) as [u|] eqn:Hu; cbn; [|by split; [|intros (_ & ? & ? & _)]].
    case_bool_decide as Hc; cbn [negb]; split; [intros [= <-]; eauto| |done|].
    + by intros [-> _].
    + intros (_ & ? & [= <-] & ?). congruence.
  - split; [done|]. intros (_ & u & _ & Hu). destruct Hl. rewrite Hu. apply uuid_text_len.
Qed.

(** A range test, as the code writes it. *)
Lemma guard_Ok (b : bool) (P : Prop) :
  (b = false ↔ P) → (if b then Err OutOfRange else Ok () : result (AlertError E) unit) = Ok () ↔ P.
Proof. intros <-. by destruct b. Qed.

Lemma condition_Ok c : (validate_runtime_condition c : result (AlertError E) unit) = Ok () ↔ condition_ok c.
Proof.
  assert (∀ s (k : result (AlertError E) ()), (require_canonical_uuid s ;; k) = Ok () ↔ canonical (trim s) ∧ k = Ok ()) as Hseq.
  { intros s k. rewrite bind_Ok. setoid_rewrite require_uuid_Ok. naive_solver. }
  destruct c; cbn [validate_runtime_condition condition_ok]; rewrite Hseq; apply and_iff_compat_l;
    unfold ensure_days_before, ALERT_MAX_CONSECUTIVE_FAILURES, ALERT_MAX_LATENCY_MS, ALERT_MAX_DAYS_BEFORE,
      ALERT_MAX_OFFLINE_SECONDS, ALERT_MAX_RESOURCE_DURATION_SECONDS.
  1, 2, 6: apply guard_Ok; rewrite orb_false_iff, ?Z.eqb_neq, ?Z.leb_gt, Z.ltb_ge; lia.
  1, 2: apply guard_Ok; rewrite negb_false_iff, andb_true_iff, !Z.leb_le; lia.
  - apply guard_Ok. rewrite !orb_false_iff, negb_false_iff. tauto.
  - destruct (negb (is_finite threshold) || _) eqn:Hb.
    + split; [done|]. intros (Hf & Hg & _). by rewrite Hf, Hg in Hb.
    + apply orb_false_iff in Hb as [Hf%negb_false_iff Hg].
      rewrite guard_Ok; [|apply Z.ltb_ge]. tauto.
Qed.

Lemma try_fold_snoc {A B} (f : A → result (AlertError E) B) l : ∀ acc out,
  try_fold (fun out v => c ← f v; Ok (out ++ [c])) l acc = Ok out →
  ∃ new, out = acc ++ new ∧ Forall2 (fun v c => f v = Ok c) l new.
Proof.
  induction l as [|v l IH]; intros acc out; cbn.
  - intros [= <-]. exists []. by rewrite app_nil_r.
  - intros (acc' & (c & Hc & [= <-])%bind_Ok & Hl)%bind_Ok. apply IH in Hl as (new & -> & Hf).
    exists (c :: new). rewrite <- app_assoc. by split; [|constructor].
Qed.

Lemma conditions_Ok lib v cs :
  (parse_bounded_alert_conditions lib v : result (AlertError E) _) = Ok cs →
  cs ≠ [] ∧ zlen cs <= 32 ∧ Forall condition_ok cs.
Proof.
  unfold parse_bounded_alert_conditions. destruct (_ <? byte_len v); [done|].
  intros (raw & _ & Hk)%bind_Ok. destruct (is_empty raw) eqn:He; [done|]. apply is_empty_false in He.
  destruct (Z.ltb_spec ALERT_MAX_CONDITIONS (zlen raw)) as [|Hlen]; [done|].
  apply try_fold_snoc in Hk as (new & -> & Hf). cbn [app]. pose proof (Forall2_length _ _ _ Hf) as Hl.
  split_and!.
  - by destruct raw, new.
  - unfold zlen in *. rewrite <- Hl. exact Hlen.
  - clear -Hf. induction Hf as [|x c raw new Hx _ IH]; [constructor|]. constructor; [|done].
    unfold parse_condition in Hx. destruct (_ <? json_len lib x); [done|].
    apply bind_Ok in Hx as (c' & _ & ([] & Hv & [= <-])%bind_Ok). by apply condition_Ok.
Qed.

Lemma task_ids_Ok lib v l : (parse_bounded_task_ids_json lib v : result (AlertError E) _) = Ok l → task_ids_ok l.
Proof.
  assert (task_ids_ok []) as Hnil by by split; [constructor|].
  unfold parse_bounded_task_ids_json. destruct v as [v|]; [|by intros [= <-]].
  destruct (is_empty (trim v)); [by intros [= <-]|]. intros (values & _ & Hk)%bind_Ok.
  destruct (Z.ltb_spec ALERT_MAX_TASK_IDS (zlen values)) as [|Hlen]; [done|].
  assert (∀ acc, NoDup acc → Forall canonical acc →
    try_fold (fun out v => i ← require_canonical_uuid v; Ok (push_new out i)) values acc = (Ok l : result (AlertError E) _) →
    NoDup l ∧ zlen l <= zlen acc + zlen values ∧ Forall canonical l) as Hind.
  { clear. induction values as [|v values IH]; intros acc Hn Hc; cbn.
    - intros [= <-]. unfold zlen. cbn. split_and!; [done|lia|done].
    - intros (acc' & (i & [-> Hi]%require_uuid_Ok & [= <-])%bind_Ok & Hl)%bind_Ok.
      destruct (push_new_spec acc (trim v) Hn) as [Hn' Hs]. destruct (IH (push_new acc (trim v))) as (? & Hz & ?); [done| |done|].
      + apply Forall_forall. intros x [Hx| ->]%Hs; [by eapply Forall_forall in Hc|done].
      + split_and!; [done| |done]. assert (zlen (push_new acc (trim v)) <= zlen acc + 1).
        { unfold push_new. destruct (contains _ _); [lia|]. rewrite zlen_app. unfold zlen. cbn [length]. lia. }
        assert (zlen (v :: values) = zlen values + 1) by (unfold zlen; cbn [length]; lia). lia. }
  destruct (Hind []) as (? & Hz & ?); [constructor|constructor|done|]. split_and!; [done| |done].
  unfold ALERT_MAX_TASK_IDS in Hlen. change (zlen (@nil rstr)) with 0 in Hz. lia.
Qed.

(** The engine only ever evaluates valid rules: whatever is stored in the
    database, a rule that is loaded has canonical ids, a trimmed name of 1 to 128
    bytes, 1 to 32 conditions each of whose parameters is in its range, and at
    most 32 distinct task ids of each kind; rows that do not are skipped. *)
Theorem loaded_rules_valid db lib rules :
  load_alert_rules db lib = Ok rules → Forall rule_ok rules.
Proof.
  intros (rows & _ & [= <-])%bind_Ok. apply Forall_forall. intros rule (row & _ & Hr)%list_elem_of_omap.
  destruct (validate_loaded_alert_rule lib row) as [r|] eqn:Hv; [|done]. injection Hr as ->.
  apply bind_Ok in Hv as (i & [-> Hi]%require_uuid_Ok & Hv).
  apply bind_Ok in Hv as (o & [-> Ho]%require_uuid_Ok & Hv). cbv zeta in Hv.
  apply bind_Ok in Hv as ([] & Hname & Hv). apply bind_Ok in Hv as (mode & _ & Hv).
  apply bind_Ok in Hv as (cs & Hcs%conditions_Ok & Hv). apply bind_Ok in Hv as (g & Hg & Hv).
  apply bind_Ok in Hv as (fl & Hfl%task_ids_Ok & Hv). apply bind_Ok in Hv as (rc & Hrc%task_ids_Ok & [= <-]).
  split; cbn [id owner_user_id name conditions notification_group_id failure_task_ids recovery_task_ids]; try done.
  - unfold ensure_bounded_nonempty_text in Hname. destruct (is_empty (trim (r_name row))) eqn:He; [done|].
    apply is_empty_false in He. destruct (Z.ltb_spec ALERT_MAX_NAME_BYTES (byte_len (trim (r_name row)))) as [|Hb]; [done|].
    split_and!; [done|apply trim_by_idemp|done].
  - intros x ->. destruct (r_notification_group_id row) as [y|]; [|done].
    by apply bind_Ok in Hg as (z & [-> ?]%require_uuid_Ok & [= <-]).
Qed.

(** ** An alert and its owner's resources *)

Lemma condition_ok_loaded db lib rules rule :
  load_alert_rules db lib = Ok rules → rule ∈ rules → Forall condition_ok (conditions rule).
Proof. intros Hok%loaded_rules_valid Hin. rewrite Forall_forall in Hok. by destruct (ok_conditions _ (Hok _ Hin)) as (_ & _ & ?). Qed.

(** The stored owner [o] is the owner of the rule. *)
Definition owner_is rule (o : rstr) : Prop :=
  ∃ u, uuid_parse (trim (owner_user_id rule)) = Some u ∧ uuid_parse (trim o) = Some u.

(** The row of the Agent, of the service or of the task names the rule's owner; the
    query for an Agent leaves revoked ones out, the one for a task disabled ones. *)
Definition agent_owned db rule (a : rstr) : Prop :=
  ∃ u o, uuid_parse (trim a) = Some u ∧ active_agent_owner db (uuid_to_string u) = Ok (Some o) ∧ owner_is rule o.
Definition service_owned db rule (s : rstr) : Prop :=
  ∃ u o, uuid_parse (trim s) = Some u ∧ service_owner db (uuid_to_string u) = Ok (Some (Some o)) ∧ owner_is rule o.
Definition task_owned db rule (t : rstr) : Prop :=
  ∃ o, enabled_task_owner db t = Ok (Some o) ∧ owner_is rule o.

Definition condition_owned db rule (c : AlertCondition) : Prop :=
  match c with
  | ServiceDown s _ | ServiceLatency s _ | CertificateExpiry s _ => service_owned db rule s
  | ServerExpiry a _ | ServerTrafficQuota a _ _ | ServerOffline a _ | ServerResource a _ _ _ _ => agent_owned db rule a
  end.

(** What it means for a condition to hold at [now] in the engine [st]. A network
    condition with a duration compares what was transferred since the sample its
    window keeps, once the window is over, and repeats the last answer until then;
    any other resource condition with a duration must have been seen first that long
    ago, where one with no window is seen first [now]. *)
Definition holds db lib (c : AlertCondition) (now : Z) st : Prop :=
  match c with
  | ServiceDown s n => ∃ k, count_recent_service_failures db lib s n = Ok k ∧ n <= k
  | ServiceLatency s ms => ∃ k, latest_service_latency_ms db lib s = Ok k ∧ ms < k
  | CertificateExpiry s d => ∃ t, latest_cert_not_after db lib s = Ok (Some t) ∧ t <= now + days d
  | ServerExpiry a d => ∃ t, server_expires_at db lib a = Ok (Some t) ∧ t <= now + days d
  | ServerTrafficQuota a p dir =>
      ∃ quota state used, server_traffic_quota_bytes db lib a = Ok (Some quota) ∧ latest st !! a = Some state
        ∧ quota ≠ 0 ∧ traffic_used_bytes state dir = Some used
        ∧ f64_ge (percentage (f64_of_Z used) (f64_of_Z quota)) p = true
  | ServerOffline a s => ∀ age, last_seen_age_seconds db lib a now = Ok age → s <= age
  | ServerResource a r op t d =>
      ∃ state, latest st !! a = Some state ∧
      if decide (r = Network ∧ 0 < d) then
        ∃ total w, network_total_bytes state = Some total ∧ traffic_windows st !! (a, r, op, t, d) = Some w
          ∧ if decide (Z.max (num_seconds (now - sampled_at w)) 0 < d) then last_result w = true
            else compare op (f64_of_Z (saturating_sub total (bytes w))) t = true
      else ∃ value, resource_value state r = Some value ∧ compare op value t = true
          ∧ (d = 0 ∨ d <= num_seconds (now - default now (condition_windows st !! (a, r, op, t, d))))
  end.

Lemma owned_by_owner rule owner row :
  uuid_parse (trim (owner_user_id rule)) = Some owner → owned_by owner row = true ↔ ∃ o, row = Some o ∧ owner_is rule o.
Proof. intros Ho. rewrite owned_by_true. unfold owner_is. rewrite Ho. naive_solver. Qed.

Lemma agent_belongs_true db rule a : agent_belongs_to_owner db a (owner_user_id rule) = Ok true ↔ agent_owned db rule a.
Proof.
  unfold agent_belongs_to_owner, agent_owned. destruct (uuid_parse (trim (owner_user_id rule))) as [owner|] eqn:Ho.
  2: { split; [done|]. intros (? & ? & _ & _ & ? & ? & _). congruence. }
  destruct (uuid_parse (trim a)) as [u|]; [|by split; [|intros (? & ? & ? & _)]]. rewrite bind_Ok. split.
  - intros (row & Hq%from_query_Ok & [= Hb]). apply (owned_by_owner rule) in Hb as (o & -> & ?); [|done]. eauto.
  - intros (? & o & [= <-] & Hq & Hi). exists (Some o). rewrite from_query_Ok. split; [done|].
    f_equal. apply (owned_by_owner rule); eauto.
Qed.

Lemma service_belongs_true db rule s : service_belongs_to_owner db s (owner_user_id rule) = Ok true ↔ service_owned db rule s.
Proof.
  unfold service_belongs_to_owner, service_owned. destruct (uuid_parse (trim (owner_user_id rule))) as [owner|] eqn:Ho.
  2: { split; [done|]. intros (? & ? & _ & _ & ? & ? & _). congruence. }
  destruct (uuid_parse (trim s)) as [u|]; [|by split; [|intros (? & ? & ? & _)]]. rewrite bind_Ok. split.
  - intros (row & Hq%from_query_Ok & [= Hb]). apply (owned_by_owner rule) in Hb as (o & Hrow & ?); [|done].
    exists u, o. split_and!; [done| |done]. destruct row as [row|]; cbn in Hrow; [by subst|done].
  - intros (? & o & [= <-] & Hq & Hi). exists (Some (Some o)). rewrite from_query_Ok. split; [done|].
    f_equal. apply (owned_by_owner rule); eauto.
Qed.

Lemma condition_belongs_true db rule c : condition_belongs_to_rule_owner db rule c = Ok true ↔ condition_owned db rule c.
Proof. destruct c; cbn [condition_belongs_to_rule_owner condition_owned]; (apply service_belongs_true || apply agent_belongs_true). Qed.

(** The Agent of an event is the one the conditions name, where the owner has it. *)
Lemma trusted_source_owned db rule source trusted :
  trusted_source db rule source = Ok trusted →
  (∀ a, trusted = Some a → source = Some a ∧ agent_owned db rule a)
  ∧ (∀ a, source = Some a → agent_owned db rule a → trusted = Some a).
Proof.
  destruct source as [x|]; cbn [trusted_source]; [|by intros [= <-]]. setoid_rewrite <- agent_belongs_true.
  intros (owned & Hb & [= <-])%bind_Ok. destruct owned; (split; [intros a Ha|intros a Ha Hown]).
  all: congruence || (injection Ha as <-; congruence || done).
Qed.

Lemma u64_as_i64_small z : z <= 31536000 → u64_as_i64 z = z.
Proof. intros Hz. unfold u64_as_i64. by rewrite (proj2 (Z.leb_gt _ _)) by lia. Qed.

(** [check_condition] answers exactly whether the condition holds. *)
Lemma check_resource_holds db lib a r op t d now st :
  d <= 31536000 →
  (check_resource_condition a r op t d now st).1 = true ↔ holds db lib (ServerResource a r op t d) now st.
Proof.
  intros Hd. cbn [holds]. unfold check_resource_condition. destruct (latest st !! a) as [v|]; [|by split; [|intros (? & ? & _)]].
  transitivity (if decide (r = Network ∧ 0 < d) then
    (check_network_window (a, r, op, t, d) v op t d now st).1 = true
    else (match resource_value v r with
          | None => (false, set_condition_windows (delete (a, r, op, t, d)) st)
          | Some value => apply_duration_window (a, r, op, t, d) (compare op value t) d now st
          end).1 = true).
  { cbv zeta. destruct (decide (r = Network ∧ 0 < d)) as [[-> Hp]|Hn].
    - by rewrite bool_decide_eq_true_2, (proj2 (Z.ltb_lt _ _) Hp).
    - replace (bool_decide (r = Network) && (0 <? d)) with false; [done|]. symmetry. apply andb_false_iff.
      rewrite bool_decide_eq_false, Z.ltb_ge. destruct (decide (r = Network)) as [->|]; [right|by left]. apply Z.nlt_ge. tauto. }
  transitivity (∃ state, v = state ∧ if decide (r = Network ∧ 0 < d) then
      ∃ total w, network_total_bytes state = Some total ∧ traffic_windows st !! (a, r, op, t, d) = Some w
        ∧ if decide (Z.max (num_seconds (now - sampled_at w)) 0 < d) then last_result w = true
          else compare op (f64_of_Z (saturating_sub total (bytes w))) t = true
    else ∃ value, resource_value state r = Some value ∧ compare op value t = true
        ∧ (d = 0 ∨ d <= num_seconds (now - default now (condition_windows st !! (a, r, op, t, d))))).
  2: { split; [intros (x & <- & Hk)|intros (x & [= <-] & Hk)]; by exists v. }
  destruct (decide _) as [[-> Hp]|Hn].
  - unfold check_network_window. destruct (network_total_bytes v) as [total|] eqn:Ht; [|naive_solver].
    destruct (traffic_windows st !! _) as [w|]; [|naive_solver]. cbv zeta. split.
    + intros Hr. exists v. split; [done|]. exists total, w. split_and!; [done..|].
      destruct (decide _) as [Hl|Hl]; [rewrite (proj2 (Z.ltb_lt _ _) Hl) in Hr; done|].
      apply Z.nlt_ge in Hl. by rewrite (proj2 (Z.ltb_ge _ _) Hl) in Hr.
    + intros (? & <- & total' & w' & Ht' & [= <-] & Hr). rewrite Ht in Ht'. injection Ht' as <-.
      destruct (decide _) as [Hl|Hl]; [by rewrite (proj2 (Z.ltb_lt _ _) Hl)|].
      apply Z.nlt_ge in Hl. by rewrite (proj2 (Z.ltb_ge _ _) Hl).
  - destruct (resource_value v r) as [value|] eqn:Hv; [|naive_solver]. unfold apply_duration_window.
    destruct (compare op value t) eqn:Hc; cbn [negb]; [|naive_solver congruence].
    rewrite u64_as_i64_small by done. split.
    + intros Hr. exists v. split; [done|]. exists value. split_and!; [done..|]. destruct (Z.eqb_spec d 0); [by left|right].
      by apply Z.leb_le.
    + intros (? & <- & value' & _ & _ & Hw). destruct (Z.eqb_spec d 0); [done|]. apply Z.leb_le. by destruct Hw.
Qed.

Lemma fmap_answer {A} (f : A → bool) (r : result (AlertError E) A) : f <$> r = Ok true ↔ ∃ a, r = Ok a ∧ f a = true.
Proof. destruct r as [a|]; cbn; split; [intros [= ?]; eauto|intros (? & [= <-] & ->); done|done|by intros (? & ? & _)]. Qed.

Lemma check_condition_holds db lib c now st :
  condition_ok c → (check_condition db lib c now st).1 = Ok true ↔ holds db lib c now st.
Proof.
  destruct c as [s n|s ms|s d|a d|a p dir|a s|a r op t d]; cbn [condition_ok check_condition fst]; intros Hok.
  1, 2: rewrite fmap_answer; cbn [holds]; by setoid_rewrite Z.leb_le || setoid_rewrite Z.ltb_lt.
  1, 2: rewrite fmap_answer; cbn [holds]; split; [intros ([x|] & Hx & Hl); [exists x; split; [done|by bool_prop]|done]|];
    intros (x & Hx & Hl); exists (Some x); split; [done|by apply Z.leb_le].
  - destruct Hok as (_ & Hf & Hp & _). cbn [holds]. unfold check_server_traffic_quota. rewrite Hf, Hp. cbn [negb orb].
    rewrite bind_Ok. unfold traffic_quota_percent. split.
    + intros ([q|] & Hq & Hr); [|done]. destruct (latest st !! a) as [v|] eqn:Hv in Hr; [|done].
      destruct (Z.eqb_spec q 0) as [|Hq0] in Hr; [done|]. destruct (traffic_used_bytes v dir) as [used|] eqn:Hu in Hr; [|done].
      injection Hr as Hr. by exists q, v, used.
    + intros (q & v & used & Hq & -> & Hq0 & Hu & Hr). exists (Some q). split; [done|]. f_equal.
      rewrite (proj2 (Z.eqb_neq q 0) Hq0), Hu. exact Hr.
  - destruct Hok as (_ & _ & Hs). cbn [holds]. rewrite u64_as_i64_small by done.
    destruct (last_seen_age_seconds db lib a now) as [age|]; split.
    + intros [= Hl] ? [= <-]. by bool_prop.
    + intros Hl. f_equal. by apply Z.leb_le, Hl.
    + done.
    + intros _. f_equal. apply Z.leb_le. unfold i64_max. lia.
  - destruct Hok as (_ & _ & _ & Hd). rewrite <- (check_resource_holds db lib) by done.
    destruct (check_resource_condition a r op t d now st) as [b st']. cbn. split; congruence.
Qed.

(** A resource condition touches no window but its own, and asked twice at the
    same time it does not change its mind. *)
Lemma check_resource_windows a r op t d now st key :
  key ≠ (a, r, op, t, d) →
  condition_windows (check_resource_condition a r op t d now st).2 !! key = condition_windows st !! key
  ∧ traffic_windows (check_resource_condition a r op t d now st).2 !! key = traffic_windows st !! key.
Proof.
  intros Hne. unfold check_resource_condition, check_network_window, apply_duration_window. cbv zeta.
  repeat case_match; cbn [snd set_condition_windows set_traffic_windows condition_windows traffic_windows];
    rewrite ?lookup_insert_ne, ?lookup_delete_ne by done; done.
Qed.

Lemma check_resource_again a r op t d now st :
  d <= 31536000 → (check_resource_condition a r op t d now st).1 = false →
  (check_resource_condition a r op t d now (check_resource_condition a r op t d now st).2).1 = false.
Proof.
  intros Hd. assert (latest (check_resource_condition a r op t d now st).2 = latest st) as Hlat.
  { unfold check_resource_condition, check_network_window, apply_duration_window. cbv zeta. by repeat case_match. }
  unfold check_resource_condition at 1 2. rewrite Hlat. unfold check_resource_condition.
  destruct (latest st !! a) as [v|] eqn:Hl; [|done]. cbv zeta.
  destruct (bool_decide (r = Network) && (0 <? d)) eqn:Hn.
  - apply andb_true_iff in Hn as [_ Hpos]. bool_prop. unfold check_network_window.
    destruct (network_total_bytes v) as [total|]; [|done].
    assert (Z.max (num_seconds (now - now)) 0 <? d = true) as Hnow by (rewrite Z.sub_diag; by apply Z.ltb_lt).
    destruct (traffic_windows st !! _) as [w|] eqn:Hw; cbv zeta.
    + destruct (Z.max (num_seconds (now - sampled_at w)) 0 <? d) eqn:He; cbn [fst snd set_traffic_windows traffic_windows]; [by rewrite Hw, He|].
      intros ->. by rewrite lookup_insert_eq; cbn [sampled_at last_result]; rewrite Hnow.
    + cbn [fst snd set_traffic_windows traffic_windows]. by rewrite lookup_insert_eq; cbn [sampled_at last_result]; rewrite Hnow.
  - destruct (resource_value v r) as [value|]; [|done]. unfold apply_duration_window.
    destruct (compare op value t); cbn [negb]; [|done]. destruct (d =? 0); [done|].
    cbn [fst snd set_condition_windows condition_windows]. by rewrite lookup_insert_eq.
Qed.

(** So a condition that was looked at and does not hold changes what holds for no condition. *)
Lemma holds_after db lib c c' now st :
  condition_ok c → condition_ok c' → (check_condition db lib c' now st).1 = Ok false →
  holds db lib c now (check_condition db lib c' now st).2 ↔ holds db lib c now st.
Proof.
  intros Hc Hc' Hf. destruct (check_condition_outputs db lib c' now st) as (_ & _ & _ & _ & Hlat).
  destruct c' as [| | | | | |a' r' op' t' d']; try done. cbn [check_condition condition_ok] in *.
  destruct (check_resource_condition a' r' op' t' d' now st) as [b st'] eqn:Hr. cbn [fst snd] in *. injection Hf as ->.
  destruct c as [| | | | | |a r op t d]; try done; [cbn [holds]; by rewrite Hlat|].
  destruct (decide ((a, r, op, t, d) = (a', r', op', t', d'))) as [[= -> -> -> -> ->]|Hne].
  - rewrite <- !(check_resource_holds db lib) by apply Hc'. pose proof (check_resource_again a' r' op' t' d' now st) as Hag.
    rewrite Hr in *. cbn [fst snd] in *. rewrite Hag by (done || apply Hc'). done.
  - pose proof (check_resource_windows a' r' op' t' d' now st _ Hne) as [Hcw Htw]. rewrite Hr in Hcw, Htw. cbn [snd] in *.
    cbn [holds]. by rewrite Hlat, Hcw, Htw.
Qed.

(** What the loop finds out, in terms of the engine it started with. *)
Lemma check_conditions_holds db lib rule now l : ∀ trusted st r st',
  Forall condition_ok l → check_conditions db lib rule now l trusted st = (Ok r, st') →
  if r.1.1 then ∃ c, c ∈ l ∧ condition_owned db rule c ∧ holds db lib c now st ∧ r.1.2 = condition_agent_id c
  else r.1.2 = None ∧ ∀ c, c ∈ l → condition_owned db rule c → ¬ holds db lib c now st.
Proof.
  induction l as [|c l IH]; intros trusted st r st' Hok; cbn [check_conditions].
  { intros [= <- <-]. split; [done|]. intros c ?%not_elem_of_nil. done. }
  apply Forall_cons in Hok as [Hc Hok]. destruct (condition_belongs_to_rule_owner db rule c) as [[]|] eqn:Hb; [| |done].
  - apply condition_belongs_true in Hb. pose proof (check_condition_holds db lib c now st Hc) as Hh.
    assert (∀ c', condition_ok c' → (check_condition db lib c now st).1 = Ok false →
      holds db lib c' now (check_condition db lib c now st).2 ↔ holds db lib c' now st) as Haft by (intros; by apply holds_after).
    destruct (check_condition db lib c now st) as [[[]|] st1]; cbn [fst snd] in *; [| |done].
    + intros [= <- <-]. exists c. split_and!; [set_solver|done|by apply Hh|done].
    + intros Hl%IH; [|done]. destruct (r.1.1).
      * destruct Hl as (c' & Hin & Hown & Hho & Hs). exists c'. split_and!; [set_solver|done| |done].
        apply Haft; [by eapply Forall_forall in Hok|done|done].
      * split; [apply Hl|]. intros c' [->|Hin]%elem_of_cons Hown; [rewrite <- Hh; done|]. rewrite <- Haft; [by apply Hl| |done].
        by eapply Forall_forall in Hok.
  - intros Hl%IH; [|done]. destruct (r.1.1).
    + destruct Hl as (c' & ? & ?). exists c'. set_solver.
    + split; [apply Hl|]. intros c' [->|Hin]%elem_of_cons Hown; [|by apply Hl]. apply condition_belongs_true in Hown. congruence.
Qed.

(** The tasks a rule lists for an event of this kind. *)
Definition listed_tasks rule (kind : Kind) : list rstr :=
  match kind with Fired => failure_task_ids rule | Recovered => recovery_task_ids rule end.

Lemma owned_tasks_spec db rule owner l :
  uuid_parse (trim (owner_user_id rule)) = Some owner →
  ∀ ids, owned_tasks db owner l = Ok ids → ∀ t, t ∈ ids → t ∈ l ∧ task_owned db rule t.
Proof.
  intros Ho. induction l as [|t l IH]; intros ids; cbn [owned_tasks]; [by intros [= <-] ? ?%not_elem_of_nil|].
  intros (row & Hq%from_query_Ok & (rest & Hrest & [= <-])%bind_Ok)%bind_Ok t' Ht'.
  destruct (owned_by owner row) eqn:Hb; [|destruct (IH _ Hrest t' Ht'); set_solver].
  apply elem_of_cons in Ht' as [->|Ht']; [|destruct (IH _ Hrest t' Ht'); set_solver].
  apply (owned_by_owner rule) in Hb as (o & -> & ?); [|done]. split; [set_solver|by exists o].
Qed.

Lemma trigger_tasks_owned db rule kind source sp :
  sp ∈ trigger_tasks db rule kind source →
  run_owner sp = owner_user_id rule ∧ source_agent sp = source
  ∧ ∀ t, t ∈ tasks sp → task_owned db rule t
      ∧ ∃ r u, r ∈ listed_tasks rule kind ∧ uuid_parse (trim r) = Some u ∧ t = uuid_to_string u.
Proof.
  unfold trigger_tasks. fold (listed_tasks rule kind). cbv zeta. destruct (is_empty _); [by intros ?%not_elem_of_nil|].
  destruct (tasks_for_rule_owner db rule _) as [[|t0 ids]|] eqn:Ht; [by intros ?%not_elem_of_nil| |by intros ?%not_elem_of_nil].
  intros ->%list_elem_of_singleton. cbn [run_owner source_agent tasks]. split_and!; [done|done|]. intros t Hin.
  unfold tasks_for_rule_owner in Ht. destruct (uuid_parse (trim (owner_user_id rule))) as [u|] eqn:Hu; [|done].
  destruct (owned_tasks_spec _ _ _ _ Hu _ Ht t Hin) as [Hl ?]. split; [done|]. by apply normalize_uuid_spec.
Qed.

(** A channel of the rule's notification group, under the rule's owner. *)
Definition channel_owned db lib rule (ch : Chan) : Prop :=
  ∃ g group owner rows row, notification_group_id rule = Some g ∧ uuid_parse (trim g) = Some group
    ∧ uuid_parse (trim (owner_user_id rule)) = Some owner
    ∧ group_channels db (uuid_to_string group) (uuid_to_string owner) = Ok rows ∧ row ∈ rows ∧ channel_of_row lib row = Some ch.

Lemma channels_owned db lib rule l : channels_for_rule db lib rule = Ok l → ∀ ch, ch ∈ l → channel_owned db lib rule ch.
Proof.
  unfold channels_for_rule. destruct (notification_group_id rule) as [g|] eqn:Hg; [|intros [= <-]; set_solver].
  destruct (uuid_parse (trim g)) as [group|] eqn:Hgr; [|intros [= <-]; set_solver].
  destruct (uuid_parse (trim (owner_user_id rule))) as [owner|] eqn:Ho; [|intros [= <-]; set_solver].
  intros (rows & Hq%from_query_Ok & Hk)%bind_Ok. destruct (_ <? zlen rows); [done|]. injection Hk as <-.
  intros ch (row & ? & ?)%list_elem_of_omap. by exists g, group, owner, rows, row.
Qed.

(** An evaluation shows nothing, or it fired what the loop over the conditions found. *)
Lemma evaluate_rule_fired db lib rule clock st :
  let st' := (evaluate_rule db lib rule clock st).2 in
  (events st' = events st ∧ spawned st' = spawned st ∧ sent st' = sent st)
  ∨ ∃ triggered source conds st1 st2,
      check_conditions db lib rule (now clock) (conditions rule) [] st = (Ok (triggered, source, conds), st1)
      ∧ fire db lib rule (if triggered then Fired else Recovered) (or_else source (infer_condition_agent_id conds)) (now clock) st1
        = (Ok (), st2)
      ∧ (triggered = false → rule_active (id rule) st = true)
      ∧ events st' = events st2 ∧ spawned st' = spawned st2 ∧ sent st' = sent st2.
Proof.
  cbv zeta. unfold evaluate_rule.
  destruct (check_conditions db lib rule (now clock) (conditions rule) [] st) as [r st1] eqn:Hc.
  pose proof (check_conditions_spec _ _ _ _ _ _ _ _ _ Hc) as [(Es & Ee & Esp & En & _) _].
  destruct r as [[[triggered source] conds]|]; [|left; done]. destruct (is_empty conds); [left; done|]. cbv zeta.
  assert (rule_active (id rule) st1 = rule_active (id rule) st) as -> by by unfold rule_active; rewrite Es.
  set (src := or_else _ _).
  assert (∀ s, (triggered = false → rule_active (id rule) st = true) →
    let st' := (fire_and_set db lib rule (if triggered then Fired else Recovered) src (now clock) s st1).2 in
    (events st' = events st ∧ spawned st' = spawned st ∧ sent st' = sent st)
    ∨ ∃ st2, fire db lib rule (if triggered then Fired else Recovered) src (now clock) st1 = (Ok (), st2)
        ∧ (triggered = false → rule_active (id rule) st = true)
        ∧ events st' = events st2 ∧ spawned st' = spawned st2 ∧ sent st' = sent st2) as Hfire.
  { intros s Ha. unfold fire_and_set. destruct (fire _ _ _ _ _ _ st1) as [[[]|] st2] eqn:Hf; [by right; exists st2|].
    left. apply fire_spec in Hf as ->. done. }
  destruct (trigger_mode rule), triggered, (rule_active (id rule) st) eqn:Ha; cbn [andb negb snd];
    try (left; done); try case_match; try (left; done);
    (edestruct Hfire as [?|(st2 & ?)]; [done|left; eassumption|right; do 5 eexists; split; [reflexivity|eassumption]]).
Qed.

Lemma infer_from_in l : ∀ found a,
  infer_condition_agent_id_from found l = Some a → found = Some a ∨ ∃ c, c ∈ l ∧ condition_agent_id c = Some a.
Proof.
  induction l as [|c l IH]; intros found a; cbn [infer_condition_agent_id_from]; [by left|].
  destruct (condition_agent_id c) as [x|] eqn:Hx; [destruct found as [y|]; [case_bool_decide as Hxy|]|]; [|done| |].
  all: intros Hi%IH; naive_solver set_solver.
Qed.

Lemma fire_Ok db lib rule kind source now st st' :
  fire db lib rule kind source now st = (Ok (), st') →
  ∃ trusted msgs, trusted_source db rule source = Ok trusted
    ∧ st' = add_outputs [{| e_rule_id := id rule; e_agent_id := trusted; e_kind := kind; e_fired_at := now |}]
              (trigger_tasks db rule kind trusted) msgs st
    ∧ ∀ ch m, (ch, m) ∈ msgs → channel_owned db lib rule ch ∧ m = message_for rule kind now.
Proof.
  unfold fire. destruct (trusted_source db rule source) as [trusted|]; [|done]. cbv zeta.
  destruct (from_query _); [|done]. intros [= <-]. do 2 eexists. split_and!; [done|done|].
  intros ch m (ch' & [= -> ->] & Hin)%list_elem_of_fmap. split; [|done].
  destruct (channels_for_rule db lib rule) as [l|] eqn:Hl; [by eapply channels_owned|by apply not_elem_of_nil in Hin].
Qed.

(** What one event of a rule may say and bring about. *)
Record event_scoped db lib rule (now : Z) st (e : AlertEvent) (sp : list Spawned) (msgs : list (Chan * NotificationMessage)) : Prop := {
  scoped_rule : e_rule_id e = id rule ∧ e_fired_at e = now;
  scoped_agent a : e_agent_id e = Some a →
    agent_owned db rule a ∧ ∃ c, c ∈ conditions rule ∧ condition_agent_id c = Some a;
  scoped_cause :
    match e_kind e with
    | Fired => ∃ c, c ∈ conditions rule ∧ condition_owned db rule c ∧ holds db lib c now st
        ∧ ∀ a, condition_agent_id c = Some a → e_agent_id e = Some a
    | Recovered => rule_active (id rule) st = true
        ∧ ∀ c, c ∈ conditions rule → condition_owned db rule c → ¬ holds db lib c now st
    end;
  scoped_tasks s : s ∈ sp →
    run_owner s = owner_user_id rule ∧ source_agent s = e_agent_id e
    ∧ ∀ t, t ∈ tasks s → task_owned db rule t
        ∧ ∃ r u, r ∈ listed_tasks rule (e_kind e) ∧ uuid_parse (trim r) = Some u ∧ t = uuid_to_string u;
  scoped_messages ch m : (ch, m) ∈ msgs → channel_owned db lib rule ch ∧ m = message_for rule (e_kind e) now;
}.

(** C39: an alert stays within its owner's resources. Evaluating a loaded rule either
    adds no event, starts no task and sends nothing, or it adds one event of that
    rule, whose Agent, if it names one, is the Agent of one of the rule's conditions,
    not revoked, with the rule's owner as the owner in its row. A [fired] event is
    caused by a condition of the rule whose service or Agent has that owner in its
    row and which held at that time by the database, the telemetry and the windows
    the evaluation started with, and the event names that condition's Agent; a
    [recovered] event comes when the rule was active and none of its conditions on
    the owner's resources held. The tasks started are ones the rule lists for this
    kind of event, enabled and with the owner in their row, run in the owner's name
    for the very Agent of the event; the messages go to channels of the rule's
    notification group that the owner has. An evaluation is taken at one moment: one
    reading of the wall clock, one telemetry, one state of the database. *)
Theorem alert_scope_sound db lib rules rule clock st :
  load_alert_rules db lib = Ok rules → rule ∈ rules →
  let st' := (evaluate_rule db lib rule clock st).2 in
  (events st' = events st ∧ spawned st' = spawned st ∧ sent st' = sent st)
  ∨ ∃ e sp msgs, events st' = events st ++ [e] ∧ spawned st' = spawned st ++ sp ∧ sent st' = sent st ++ msgs
      ∧ event_scoped db lib rule (now clock) st e sp msgs.
Proof.
  intros Hload Hin. pose proof (condition_ok_loaded _ _ _ _ Hload Hin) as Hok. cbv zeta.
  destruct (evaluate_rule_fired db lib rule clock st) as [?|(tr & src & conds & st1 & st2 & Hc & Hf & Ha & -> & -> & ->)]; [by left|right].
  pose proof (check_conditions_holds _ _ _ _ _ _ _ _ _ Hok Hc) as Hcause. cbn [fst snd] in Hcause.
  apply check_conditions_spec in Hc as [(_ & Ee & Esp & En & _) ((more & -> & Hmore) & Ht & _)]. cbn [app] in *.
  apply fire_Ok in Hf as (trusted & msgs & [Htr1 Htr2]%trusted_source_owned & -> & Hmsgs).
  cbn [add_outputs events spawned sent]. rewrite Ee, Esp, En. do 3 eexists. split_and!; [done..|]. split; cbn.
  - done.
  - intros a Ha'. destruct (Htr1 a Ha') as [Hs Hown]. split; [done|]. destruct src as [x|]; cbn [or_else] in Hs.
    + injection Hs as ->. destruct tr; [|by destruct Hcause]. destruct Hcause as (c & ? & _ & _ & ?). by exists c.
    + apply infer_from_in in Hs as [?|(c & Hcin & ?)]; [done|]. rewrite Forall_forall in Hmore. exists c. split; [by apply Hmore|done].
  - destruct tr; [|by split; [apply Ha|apply Hcause]]. destruct Hcause as (c & ? & Hown & ? & ->). exists c. split_and!; [done..|].
    intros a Hca. apply Htr2; [by rewrite Hca|]. by destruct c; try done; injection Hca as <-.
  - apply trigger_tasks_owned.
  - apply Hmsgs.
Qed.
End proofs.
(** ** A concrete engine *)

Definition owner0 : rstr := uuid_to_string 1.
Definition agent0 : rstr := uuid_to_string 2.
Definition service0 : rstr := uuid_to_string 5.

Definition row0 (mode : string) : LoadedAlertRuleRow := {|
  r_id := uuid_to_string 3; r_owner_user_id := owner0; r_name := lit " CPU "; r_enabled := true;
  r_trigger_mode := lit mode; r_rules_json := lit "[]"; r_notification_group_id := None;
  r_fail_task_ids_json := None; r_recover_task_ids_json := None |}.

Definition db0 (mode : string) : AlertDb unit unit := {|
  alert_rules := Ok [row0 mode]; service_owner _ := Ok None; active_agent_owner _ := Ok (Some owner0);
  agent_owner _ := Ok None; service_config _ := Ok (Some (lit "all", Some owner0, None, None));
  service_servers _ _ := Ok []; active_agents_of _ := Ok [agent0; agent0]; result_statuses _ _ _ := Ok [];
  result_latency _ _ := Ok None; result_cert _ _ := Ok None; agent_last_seen _ := Ok None; agent_expires_at _ := Ok None;
  agent_metadata _ := Ok None; enabled_task_owner _ := Ok None; group_channels _ _ := Ok []; insert_event _ := Ok () |}.

Definition cpu_high : AlertCondition := ServerResource agent0 Cpu Gt (f64_of_Z 90) 0.
Definition load_high : AlertCondition := ServerResource agent0 Load Gt (f64_of_Z 5) 600.

Definition lib0 : AlertLib unit unit := {|
  parse_rfc3339 _ := None; parse_ymd _ := None; json_parse _ := Some (JArray [JNull]); json_len _ := 4;
  condition_of_json _ := Some cpu_high; channel_of_row _ := Some () |}.

Definition rule0 (mode : TriggerMode) (cs : list AlertCondition) : AlertRule := {|
  id := uuid_to_string 3; owner_user_id := owner0; name := lit "CPU"; enabled := true; trigger_mode := mode;
  conditions := cs; notification_group_id := None; failure_task_ids := []; recovery_task_ids := [] |}.

Definition clock_at (s : Z) : Clock := {| now := seconds s; tick := seconds s; tick_after := seconds s |}.
Definition telemetry (cpu load : Z) : json :=
  JObject [(lit "cpu_percent", JNumber (PosInt cpu)); (lit "load_1", JNumber (PosInt load))].

(** Telemetry arrives and the rule is evaluated, at 0, 300 and 600 seconds. *)
Definition observed (rule : AlertRule) (s cpu load : Z) (st : AlertEngine unit) : AlertEngine unit :=
  (evaluate_rule (db0 "once") lib0 rule (clock_at s) (observe_agent_state agent0 (telemetry cpu load) st)).2.
Definition three_ticks (rule : AlertRule) : AlertEngine unit :=
  observed rule 600 10 9 (observed rule 300 99 1 (observed rule 0 10 9 new_engine)).

(** the order of a rule's conditions matters to their durations. The loop
    stops at the first condition that triggers, so the window of a later one is
    not reset while an earlier one holds. With the load above its limit at 0 and
    600 seconds but not at 300, when the CPU was, the rule [cpu, load for 600 s]
    stays fired at 600 seconds, as if the load had been high all along; the rule
    [load for 600 s, cpu], on the same telemetry, recovers. *)
Theorem window_not_reset_while_shadowed :
  kinds_of (uuid_to_string 3) (events (three_ticks (rule0 Once [cpu_high; load_high]))) = [Fired]
  ∧ kinds_of (uuid_to_string 3) (events (three_ticks (rule0 Once [load_high; cpu_high]))) = [Fired; Recovered]
  ∧ resource_value (telemetry 99 1) Load = Some (f64_of_Z 1) ∧ compare Gt (f64_of_Z 1) (f64_of_Z 5) = false.
Proof. split_and!; by vm_compute. Qed.

(** ** Witnesses *)

Definition evaluated (s cpu : Z) (st : AlertEngine unit) : AlertEngine unit :=
  (evaluate_all (db0 "once") lib0 (fun _ => clock_at s) (observe_agent_state agent0 (telemetry cpu 1) st)).2.
Definition engine2 : AlertEngine unit := evaluated 15 10 (evaluated 0 99 new_engine).

Lemma evaluated_steps s cpu (st : AlertEngine unit) : rtc (step (E := unit) (Row := unit)) st (evaluated s cpu st).
Proof. eapply rtc_l; [apply step_observe|]. eapply rtc_l; [apply step_evaluate|]. apply rtc_refl. Qed.

Lemma engine2_reachable : reachable (E := unit) (Row := unit) engine2.
Proof. unfold reachable, engine2. etrans; apply evaluated_steps. Qed.

Lemma scope0 mode m : in_scope (db0 mode) (rule0 m [cpu_high]).
Proof. exists cpu_high. split; [apply list_elem_of_here|by vm_compute]. Qed.

(** A rule with one condition and one task for when it fires, loaded from its row:
    the CPU of the owner's Agent is at 99 percent. *)
Definition task0 : rstr := uuid_to_string 7.
Definition row1 : LoadedAlertRuleRow := {|
  r_id := uuid_to_string 3; r_owner_user_id := owner0; r_name := lit "CPU"; r_enabled := true; r_trigger_mode := lit "once";
  r_rules_json := lit "[cpu]"; r_notification_group_id := None; r_fail_task_ids_json := Some (lit "[task]");
  r_recover_task_ids_json := None |}.
Definition db1 : AlertDb unit unit := {|
  alert_rules := Ok [row1]; service_owner _ := Ok None; active_agent_owner _ := Ok (Some owner0);
  agent_owner _ := Ok None; service_config _ := Ok None; service_servers _ _ := Ok []; active_agents_of _ := Ok [agent0];
  result_statuses _ _ _ := Ok []; result_latency _ _ := Ok None; result_cert _ _ := Ok None; agent_last_seen _ := Ok None;
  agent_expires_at _ := Ok None; agent_metadata _ := Ok None; enabled_task_owner _ := Ok (Some owner0);
  group_channels _ _ := Ok []; insert_event _ := Ok () |}.
Definition lib1 : AlertLib unit unit := {|
  parse_rfc3339 _ := None; parse_ymd _ := None;
  json_parse s := Some (JArray [if bool_decide (s = lit "[task]") then JString task0 else JNull]); json_len _ := 4;
  condition_of_json _ := Some cpu_high; channel_of_row _ := Some () |}.
Definition rule1 : AlertRule := {|
  id := uuid_to_string 3; owner_user_id := owner0; name := lit "CPU"; enabled := true; trigger_mode := Once;
  conditions := [cpu_high]; notification_group_id := None; failure_task_ids := [task0]; recovery_task_ids := [] |}.
Definition engine1 : AlertEngine unit := observe_agent_state agent0 (telemetry 99 1) new_engine.

Lemma alert_scope_sound_witness :
  ∃ e sp msgs, events (evaluate_rule db1 lib1 rule1 (clock_at 0) engine1).2 = [e] ∧ e_agent_id e = Some agent0
    ∧ sp ≠ [] ∧ event_scoped db1 lib1 rule1 0 engine1 e sp msgs.
Proof.
  assert (load_alert_rules db1 lib1 = Ok [rule1]) as Hload by (vm_compute; reflexivity).
  assert (events (evaluate_rule db1 lib1 rule1 (clock_at 0) engine1).2
    = [{| e_rule_id := id rule1; e_agent_id := Some agent0; e_kind := Fired; e_fired_at := 0 |}]) as Hev by (vm_compute; reflexivity).
  assert (is_empty (spawned (evaluate_rule db1 lib1 rule1 (clock_at 0) engine1).2) = false) as Hsp by (vm_compute; reflexivity).
  destruct (alert_scope_sound db1 lib1 [rule1] rule1 (clock_at 0) engine1 Hload (list_elem_of_here _ _))
    as [(Hq & _)|(e & sp & msgs & Hv & Hs & _ & Hscoped)].
  - rewrite Hev in Hq. discriminate Hq.
  - exists e, sp, msgs. rewrite Hev in Hv |- *. injection Hv as <-. split; [reflexivity|]. split; [reflexivity|].
    split; [|exact Hscoped]. intros ->. rewrite Hs in Hsp. discriminate Hsp.
Defined.

End AlertsProofs.
