(* ===== verification/Tasks.v ===== *)
(** * Tasks: definitions, scheduling and dispatch of remote tasks

    [crates/server/src/tasks/mod.rs], [tasks/scheduler.rs], the task data of
    [crates/shared/src/tasks.rs] and the part of
    [crates/server/src/db/repository/tasks.rs] that pages through the scheduled
    tasks and stores runs. A task is validated, becomes due when its cron
    expression says so (or is triggered by an alert), is resolved to the servers
    its selector names, and is sent to the Agent of each, whose reply settles the
    row of its run. The queries are those of the SQLite backend. *)

From S2P Require Import Prelude Text BTreeMap Json Externals Net Security IoStreams Alerts.

Module Tasks.
Import Net.

(** ** Limits *)

Definition TASK_MAX_NAME_BYTES : Z := 128.
Definition TASK_MAX_SCHEDULE_BYTES : Z := 128.
Definition TASK_MAX_COMMAND_BYTES : Z := 8192.
Definition TASK_MAX_TARGET_BYTES : Z := 2048.
Definition TASK_MAX_HOST_BYTES : Z := 253.
Definition TASK_MAX_PAYLOAD_BYTES : Z := 64 * 1024.
Definition TASK_MAX_TIMEOUT_SECS : Z := 3600.
Definition TASK_MAX_PING_COUNT : Z := 100.
Definition TASK_MAX_HTTP_HEADERS : Z := 32.
Definition TASK_MAX_HTTP_HEADER_NAME_BYTES : Z := 128.
Definition TASK_MAX_HTTP_HEADER_VALUE_BYTES : Z := 1024.
Definition TASK_MAX_SELECTOR_BYTES : Z := 16 * 1024.
Definition TASK_MAX_SELECTOR_IDS : Z := 64.
Definition TASK_MAX_SELECTOR_TAGS : Z := 32.
Definition TASK_MAX_SELECTOR_TOKEN_BYTES : Z := 128.
Definition TASK_MAX_DISPATCH_TARGETS : Z := 64.
Definition TASK_SCHEDULED_RUNTIME_SCAN_LIMIT : Z := 1024.
Definition TASK_RESULT_STDOUT_MAX_BYTES : Z := 64 * 1024.
Definition TASK_RESULT_STDERR_MAX_BYTES : Z := 64 * 1024.
Definition TASK_RESULT_ERROR_MAX_BYTES : Z := 16 * 1024.
Definition TASK_RUN_CANCELLATION_ERROR : rstr := lit "task dispatch was cancelled before completion".
Definition TASK_RUN_CANCELLATION_CLEANUP_ATTEMPTS : nat := 10.

(** ** Data *)

Inductive TaskType : Type := Shell | HttpGet | IcmpPing | TcpPing.
Inductive TaskStatus : Type := Success | Failure | Timeout | Offline.
Inductive CoverMode : Type := All | Any | Specific.

#[global] Instance task_type_eq : EqDecision TaskType.
Proof. solve_decision. Defined.
#[global] Instance task_status_eq : EqDecision TaskStatus.
Proof. solve_decision. Defined.
#[global] Instance cover_mode_eq : EqDecision CoverMode.
Proof. solve_decision. Defined.

(** [tags] is a [HashMap]: its entries, in the order it iterates over them. *)
Record ServerSelector := {
  server_ids : list rstr;
  exclude_server_ids : list rstr;
  group_ids : list rstr;
  tag_names : list rstr;
  tags : list (rstr * rstr);
  source_server : bool;
}.

Record Task := {
  id : rstr;
  owner_user_id : rstr;
  name : rstr;
  task_type : TaskType;
  schedule : option rstr;
  command : option rstr;
  payload_json : option rstr;
  cover_mode : CoverMode;
  server_selector_json : rstr;
  push_successful : bool;
  notification_group_id : option rstr;
  last_executed_at : option rstr;
  last_result : option rstr;
  enabled : bool;
  created_at : rstr;
  updated_at : rstr;
}.

Record TaskRun := {
  run_id : rstr;
  task_id : rstr;
  server_id : rstr;
  status : TaskStatus;
  delay_ms : option Z;
  output : option rstr;
  output_truncated : bool;
  error : option rstr;
  run_created_at : rstr;
}.

Inductive TaskError (E : Type) : Type :=
| DbError (e : E)
| SizeOutOfRange | NameEmpty | CronInvalid | CommandMissing | PayloadNotJson | PayloadNotObject
| PayloadFieldInvalid | TargetInvalidChars | UrlInvalid | SchemeNotAllowed | HasCredentials | NoHost | NoPort
| HeadersInvalid | TargetFormat | PortInvalid | NoTarget | HostInvalid | HostDisallowed
| SelectorInvalid | SelectorTooLarge | TooManyTargets | NotDispatchable | NoTargets
| InvalidTaskId | OwnerRequired | TaskNotFound | OwnerMismatch | TaskDisabled | TooManyChannels | DuplicateRun
| PageLimitInvalid.
Arguments DbError {E}. Arguments SizeOutOfRange {E}. Arguments NameEmpty {E}. Arguments CronInvalid {E}.
Arguments CommandMissing {E}. Arguments PayloadNotJson {E}. Arguments PayloadNotObject {E}.
Arguments PayloadFieldInvalid {E}. Arguments TargetInvalidChars {E}. Arguments UrlInvalid {E}.
Arguments SchemeNotAllowed {E}. Arguments HasCredentials {E}. Arguments NoHost {E}. Arguments NoPort {E}.
Arguments HeadersInvalid {E}. Arguments TargetFormat {E}. Arguments PortInvalid {E}. Arguments NoTarget {E}.
Arguments HostInvalid {E}. Arguments HostDisallowed {E}. Arguments SelectorInvalid {E}.
Arguments SelectorTooLarge {E}. Arguments TooManyTargets {E}. Arguments NotDispatchable {E}.
Arguments NoTargets {E}. Arguments InvalidTaskId {E}. Arguments OwnerRequired {E}. Arguments TaskNotFound {E}.
Arguments OwnerMismatch {E}. Arguments TaskDisabled {E}. Arguments TooManyChannels {E}.
Arguments DuplicateRun {E}. Arguments PageLimitInvalid {E}.

(** ** The libraries

    The [cron] crate: an expression is parsed into a schedule, the set of the
    instants at which it occurs; [schedule.after(t).next()] is the first of them
    strictly after [t], if there is one. *)
Class CronLib : Type := {
  Schedule : Type;
  cron_parse : rstr → option Schedule;
  occurs : Schedule → Z → Prop;
  next_after : Schedule → Z → option Z;
  next_after_Some s t n : next_after s t = Some n → occurs s n ∧ t < n ∧ ∀ o, occurs s o → t < o → n <= o;
  next_after_None s t : next_after s t = None → ∀ o, occurs s o → o <= t;
}.

(** [serde_json::from_str] into a value and into a [ServerSelector],
    [reqwest::Url::parse], and [str::to_lowercase] (the Unicode tables). *)
Record TaskLib := {
  json_parse : rstr → option json;
  selector_from_str : rstr → option ServerSelector;
  url_parse : rstr → option Security.Url;
  to_lowercase : rstr → rstr;
}.

(** A [HashSet] iterates over its elements in an order of its own. *)
Class HashOrder : Type := {
  hash_iter : gset rstr → list rstr;
  hash_iter_elements X : hash_iter X ≡ₚ elements X;
}.
#[global] Instance elements_order : HashOrder.
Proof. by refine {| hash_iter := elements |}. Defined.

(** ** Blocked addresses and names *)

Definition is_blocked_task_ipv4 (ip : Z) : bool :=
  is_private ip || is_loopback_v4 ip || is_link_local ip || is_multicast_v4 ip || is_unspecified ip
  || is_documentation ip
  || (octet 0 ip =? 0)
  || (224 <=? octet 0 ip)
  || ((octet 0 ip =? 100) && ((64 <=? octet 1 ip) && (octet 1 ip <=? 127)))
  || ((octet 0 ip =? 169) && (octet 1 ip =? 254))
  || ((octet 0 ip =? 192) && (octet 1 ip =? 0) && (octet 2 ip =? 0))
  || ((octet 0 ip =? 198) && ((18 <=? octet 1 ip) && (octet 1 ip <=? 19)))
  || ((octet 0 ip =? 255) && (octet 1 ip =? 255) && (octet 2 ip =? 255) && (octet 3 ip =? 255)).

Definition is_blocked_task_ipv6 (ip : Z) : bool :=
  let first := segment 0 ip in
  is_loopback_v6 ip || is_unspecified ip || is_multicast_v6 ip
  || (Z.land first 0xfe00 =? 0xfc00)
  || (Z.land first 0xffc0 =? 0xfe80)
  || ((segment 0 ip =? 0x2001) && (segment 1 ip =? 0x0db8))
  || match to_ipv4_mapped ip with Some v4 => is_blocked_task_ipv4 v4 | None => false end.

Definition is_blocked_task_ip (ip : IpAddr) : bool :=
  match ip with V4 ip => is_blocked_task_ipv4 ip | V6 ip => is_blocked_task_ipv6 ip end.

Definition is_disallowed_task_hostname (host : rstr) : bool :=
  let lower := to_ascii_lowercase host in
  bool_decide (lower = lit "localhost")
  || ends_with (lit ".localhost") lower
  || bool_decide (lower = lit "metadata.google.internal")
  || ends_with (lit ".internal") lower
  || ends_with (lit ".local") lower.

Definition valid_label (label : rstr) : bool :=
  negb (is_empty label || (63 <? byte_len label) || starts_with [45] label || ends_with [45] label
        || negb (forallb (fun ch => is_ascii_alphanumeric ch || (ch =? 45)) label)).

Definition is_valid_task_hostname (host : rstr) : bool :=
  if is_empty host || (TASK_MAX_HOST_BYTES <? byte_len host) then false else
  if starts_with [46] host || ends_with [46] host then false else
  forallb valid_label (split_by (Z.eqb 46) host).

(** [services/probe.rs]. *)
Definition unsafe_probe_char (ch : Z) : bool :=
  is_control ch || is_whitespace ch || contains ch [47; 92; 63; 35; 64; 59; 124; 38; 36; 96; 34; 39].

(** ** Validation of a definition *)

Section validation.
Context {E : Type} `{CronLib} (env : Security.Env) (lib : TaskLib).

Definition ensure_safe_probe_host (host : rstr) : result (TaskError E) unit :=
  let trimmed := trim host in
  if is_empty trimmed then Err HostInvalid else
  if starts_with [45] trimmed then Err HostInvalid else
  if existsb unsafe_probe_char trimmed then Err HostInvalid else Ok ().

Definition validate_sized_text (value : rstr) (min_bytes max_bytes : Z) : result (TaskError E) unit :=
  if (byte_len value <? min_bytes) || (max_bytes <? byte_len value) then Err SizeOutOfRange else Ok ().

Definition parse_task_schedule (schedule : rstr) : result (TaskError E) Schedule :=
  let trimmed := trim schedule in
  let field_count := zlen (split_whitespace trimmed) in
  normalized ← (if field_count =? 5 then Ok (lit "0 " ++ trimmed)
                else if (field_count =? 6) || (field_count =? 7) then Ok trimmed
                else Err CronInvalid);
  ok_or (cron_parse normalized) CronInvalid.

(** [inner.parse::<Ipv6Addr>()]. *)
Definition parse_ipv6 (s : rstr) : option Z :=
  match read_ipv6_addr s with Some (ip, []) => Some ip | _ => None end.

Definition validate_task_network_host (host : rstr) : result (TaskError E) unit :=
  if is_empty host || negb (bool_decide (trim host = host)) then Err HostInvalid else
  validate_sized_text host 1 TASK_MAX_HOST_BYTES ;;
  ensure_safe_probe_host host ;;
  let guarded := negb (Security.allow_private_outbound env) in
  if starts_with [91] host || ends_with [93] host then
    inner ← ok_or (strip_prefix_char 91 host ≫= strip_suffix_char 93) HostInvalid;
    ipv6 ← ok_or (parse_ipv6 inner) HostInvalid;
    if guarded && is_blocked_task_ip (V6 ipv6) then Err HostDisallowed else Ok ()
  else
  match parse_ip host with
  | Some ip => if guarded && is_blocked_task_ip ip then Err HostDisallowed else Ok ()
  | None =>
      if contains 58 host then Err HostInvalid else
      if negb (is_valid_task_hostname host) then Err HostInvalid else
      if guarded && is_disallowed_task_hostname host then Err HostDisallowed else Ok ()
  end.

Definition has_invalid_chars (s : rstr) : bool :=
  negb (bool_decide (trim s = s)) || existsb (fun ch => is_control ch || is_whitespace ch) s.

Definition parse_tcp_ping_host_port (target : rstr) : result (TaskError E) (rstr * Z) :=
  validate_sized_text target 1 TASK_MAX_TARGET_BYTES ;;
  if has_invalid_chars target then Err TargetInvalidChars else
  hp ← match strip_prefix_char 91 target with
       | Some rest =>
           p ← ok_or (split_once_str [93; 58] rest) TargetFormat;
           Ok ([91] ++ p.1 ++ [93], p.2)
       | None =>
           p ← ok_or (rsplit_once 58 target) TargetFormat;
           if contains 58 p.1 then Err TargetFormat else Ok p
       end;
  port ← ok_or (parse_unsigned u16_max hp.2) PortInvalid;
  if port =? 0 then Err PortInvalid else Ok (hp.1, port).

Definition validate_http_get_task_url (url : rstr) : result (TaskError E) unit :=
  validate_sized_text url 1 TASK_MAX_TARGET_BYTES ;;
  if has_invalid_chars url then Err TargetInvalidChars else
  parsed ← ok_or (url_parse lib url) UrlInvalid;
  if negb (contains (Security.scheme parsed) (lit <$> ["http"; "https"])) then Err SchemeNotAllowed else
  if negb (is_empty (Security.username parsed))
     || match Security.password parsed with Some _ => true | None => false end
  then Err HasCredentials else
  host ← ok_or (Security.host_str parsed) NoHost;
  port ← ok_or (Security.port_or_known_default parsed) NoPort;
  if port =? 0 then Err NoPort else
  validate_task_network_host host.

Definition validate_http_header (field : rstr * json) : result (TaskError E) unit :=
  let name := field.1 in
  validate_sized_text name 1 TASK_MAX_HTTP_HEADER_NAME_BYTES ;;
  value ← ok_or (as_str field.2) HeadersInvalid;
  validate_sized_text value 0 TASK_MAX_HTTP_HEADER_VALUE_BYTES ;;
  if existsb (fun ch => is_control ch || is_whitespace ch) name || existsb is_control value
  then Err HeadersInvalid else Ok ().

Definition validate_http_get_task_headers (headers : json) : result (TaskError E) unit :=
  map ← ok_or (as_object headers) HeadersInvalid;
  if TASK_MAX_HTTP_HEADERS <? zlen map then Err HeadersInvalid else
  try_for_each validate_http_header map.

Definition validate_payload_common_fields (obj : json) : result (TaskError E) unit :=
  try_for_each (fun key =>
    match json_get key obj with
    | None => Ok ()
    | Some val =>
        secs ← ok_or (as_u64 val) PayloadFieldInvalid;
        if (secs =? 0) || (TASK_MAX_TIMEOUT_SECS <? secs) then Err PayloadFieldInvalid else Ok ()
    end) [lit "timeout_secs"; lit "timeout_seconds"].

(** The payload object, when a payload is given and is not blank. *)
Definition payload_object (task : Task) : result (TaskError E) (option json) :=
  match payload_json task with
  | None => Ok None
  | Some raw =>
      let raw := trim raw in
      if is_empty raw then Ok None else
      value ← ok_or (json_parse lib raw) PayloadNotJson;
      ok_or (as_object value) PayloadNotObject ;;
      validate_payload_common_fields value ;;
      Ok (Some value)
  end.

(** A field of the payload, if there is a payload and it has the field. *)
Definition payload_field (key : string) (payload : option json) : option json :=
  payload ≫= json_get (lit key).

(** [if let Some(v) = o { check(v)?; has_target = true; }]. *)
Definition check_target {A} (check : A → result (TaskError E) unit) (o : option A) (has_target : bool)
    : result (TaskError E) bool :=
  match o with Some v => check v ;; Ok true | None => Ok has_target end.

Definition str_target (check : rstr → result (TaskError E) unit) (v : json) : result (TaskError E) unit :=
  s ← ok_or (as_str v) PayloadFieldInvalid; check s.

Definition check_ping_count (v : json) : result (TaskError E) unit :=
  count ← ok_or (as_u64 v) PayloadFieldInvalid;
  if (count =? 0) || (TASK_MAX_PING_COUNT <? count) then Err PayloadFieldInvalid else Ok ().

Definition check_tcp_target (target : rstr) : result (TaskError E) unit :=
  hp ← parse_tcp_ping_host_port target;
  validate_task_network_host hp.1 ;;
  if hp.2 =? 0 then Err PortInvalid else Ok ().

Definition check_tcp_payload (obj : json) : result (TaskError E) unit :=
  host ← ok_or (json_get (lit "host") obj ≫= as_str) PayloadFieldInvalid;
  port ← ok_or (json_get (lit "port") obj ≫= as_u64) PayloadFieldInvalid;
  if (port =? 0) || (u16_max <? port) then Err PortInvalid else
  validate_task_network_host host.

Definition validate_task_target_and_payload (task : Task) : result (TaskError E) unit :=
  payload ← payload_object task;
  let command_text := match command task with
                      | Some v => if is_empty (trim v) then None else Some v
                      | None => None
                      end in
  match task_type task with
  | Shell =>
      cmd ← ok_or command_text CommandMissing;
      if is_empty (trim cmd) then Err CommandMissing else Ok ()
  | HttpGet =>
      has_target ← check_target validate_http_get_task_url command_text false;
      has_target ← check_target (str_target validate_http_get_task_url) (payload_field "url" payload) has_target;
      match payload_field "headers" payload with
      | Some headers => validate_http_get_task_headers headers
      | None => Ok ()
      end ;;
      if (has_target : bool) then Ok () else Err NoTarget
  | IcmpPing =>
      has_target ← check_target validate_task_network_host command_text false;
      has_target ← check_target (str_target validate_task_network_host) (payload_field "host" payload) has_target;
      match payload_field "count" payload with
      | Some count => check_ping_count count
      | None => Ok ()
      end ;;
      if (has_target : bool) then Ok () else Err NoTarget
  | TcpPing =>
      has_target ← check_target check_tcp_target command_text false;
      let has_host := bool_decide (is_Some (payload_field "host" payload)) in
      let has_port := bool_decide (is_Some (payload_field "port" payload)) in
      has_target ← check_target check_tcp_payload (if has_host || has_port then payload else None) has_target;
      if (has_target : bool) then Ok () else Err NoTarget
  end.

Definition ensure_selector_vec_allowed (values : list rstr) : result (TaskError E) unit :=
  if TASK_MAX_SELECTOR_IDS <? zlen values then Err SelectorTooLarge else
  try_for_each (fun value => validate_sized_text value 1 TASK_MAX_SELECTOR_TOKEN_BYTES) values.

Definition validate_task_selector_shape (selector : ServerSelector) : result (TaskError E) unit :=
  ensure_selector_vec_allowed (server_ids selector) ;;
  ensure_selector_vec_allowed (exclude_server_ids selector) ;;
  ensure_selector_vec_allowed (group_ids selector) ;;
  if TASK_MAX_SELECTOR_TAGS <? zlen (tag_names selector) then Err SelectorTooLarge else
  try_for_each (fun tag => validate_sized_text tag 1 TASK_MAX_SELECTOR_TOKEN_BYTES) (tag_names selector) ;;
  if TASK_MAX_SELECTOR_TAGS <? zlen (tags selector) then Err SelectorTooLarge else
  try_for_each (fun kv => validate_sized_text kv.1 1 TASK_MAX_SELECTOR_TOKEN_BYTES ;;
                          validate_sized_text kv.2 0 TASK_MAX_SELECTOR_TOKEN_BYTES) (tags selector).

Definition validate_task_definition (task : Task) : result (TaskError E) unit :=
  validate_sized_text (name task) 1 TASK_MAX_NAME_BYTES ;;
  if is_empty (trim (name task)) then Err NameEmpty else
  match schedule task with
  | Some schedule =>
      validate_sized_text schedule 1 TASK_MAX_SCHEDULE_BYTES ;; parse_task_schedule schedule ;; Ok ()
  | None => Ok ()
  end ;;
  match command task with
  | Some command =>
      let min := if bool_decide (task_type task = Shell) then 1 else 0 in
      validate_sized_text command min TASK_MAX_COMMAND_BYTES
  | None => if bool_decide (task_type task = Shell) then Err CommandMissing else Ok ()
  end ;;
  match payload_json task with
  | Some payload => validate_sized_text payload 0 TASK_MAX_PAYLOAD_BYTES
  | None => Ok ()
  end ;;
  validate_task_target_and_payload task ;;
  validate_sized_text (server_selector_json task) 1 TASK_MAX_SELECTOR_BYTES ;;
  selector ← ok_or (selector_from_str lib (server_selector_json task)) SelectorInvalid;
  validate_task_selector_shape selector.
End validation.

(** ** Paging through the scheduled tasks

    [TaskRepository]. A row is its id and the task it decodes to, if it does. *)

Definition Row : Type := rstr * option Task.

Record ScheduledTaskPage := { page_tasks : list Task; next_cursor : option rstr }.

(** [... WHERE enabled = 1 AND schedule IS NOT NULL [AND id < ?] ORDER BY id DESC
    LIMIT ?] on a table whose enabled scheduled rows are [rows], in descending
    order of their ids. *)
Definition before_cursor (cursor : option rstr) (row : Row) : Prop :=
  match cursor with Some c => key_ltb row.1 c = true | None => True end.
#[global] Instance before_cursor_dec cursor row : Decision (before_cursor cursor row).
Proof. unfold before_cursor. destruct cursor; apply _. Defined.
Definition select_scheduled (rows : list Row) (cursor : option rstr) (limit : Z) : list Row :=
  take (Z.to_nat limit) (filter (before_cursor cursor) rows).

Record ScheduledTaskState := { expression : rstr; next_run : option Z }.

Section scheduler.
Context {E : Type} `{CronLib} (env : Security.Env) (lib : TaskLib).
(** The statement of a page, with its cursor and limit. *)
Abbreviation PageQuery := (option rstr → Z → result E (list Row)).
Implicit Types (query : PageQuery) (now : Z) (fuel : nat).

Definition from_query {A} (r : result E A) : result (TaskError E) A :=
  match r with Ok a => Ok a | Err e => Err (DbError e) end.

Definition validate_scheduled_task (task : option Task) : option Task :=
  match task with
  | Some task => if is_ok (validate_task_definition (E := E) env lib task) then Some task else None
  | None => None
  end.

Definition rows_to_scheduled_page (rows : list Row) (limit : Z) : ScheduledTaskPage :=
  {| page_tasks := omap (M := list) (fun row => validate_scheduled_task row.2) rows;
     next_cursor := if zlen rows =? limit then fst <$> last rows else None |}.

Definition list_scheduled_page query (cursor : option rstr) (limit : Z) : result (TaskError E) ScheduledTaskPage :=
  if limit <=? 0 then Err PageLimitInvalid else
  let limit := Z.max 1 (Z.min limit TASK_SCHEDULED_RUNTIME_SCAN_LIMIT) in
  rows ← from_query (query cursor limit);
  Ok (rows_to_scheduled_page rows limit).

(** The loop of [list_scheduled]; [None] when the fuel runs out. *)
Fixpoint list_scheduled_from fuel query (cursor : option rstr) (tasks : list Task)
    : option (result (TaskError E) (list Task)) :=
  match fuel with
  | O => None
  | S fuel =>
      match list_scheduled_page query cursor TASK_SCHEDULED_RUNTIME_SCAN_LIMIT with
      | Err e => Some (Err e)
      | Ok page =>
          let tasks := tasks ++ page_tasks page in
          match next_cursor page with
          | Some next => list_scheduled_from fuel query (Some next) tasks
          | None => Some (Ok tasks)
          end
      end
  end.
Definition list_scheduled fuel query : option (result (TaskError E) (list Task)) :=
  list_scheduled_from fuel query None [].

(** ** The scheduler *)

Definition update_schedule_state (scheduled : gmap rstr ScheduledTaskState) (task_id expr : rstr) (sched : Schedule)
    now : gmap rstr ScheduledTaskState * bool :=
  let existing := scheduled !! task_id in
  let expression_changed := match existing with
                            | Some state => negb (bool_decide (expression state = expr))
                            | None => false
                            end in
  let first_observation := match existing with None => true | Some _ => expression_changed end in
  let should_run := match existing with
                    | Some state => negb expression_changed
                                    && match next_run state with Some n => n <=? now | None => false end
                    | None => false
                    end in
  (if first_observation || should_run
   then <[task_id := {| expression := expr; next_run := next_after sched now |}]> scheduled
   else scheduled, should_run).

(** The working copy of one scan. *)
Record Scan := { scheduled : gmap rstr ScheduledTaskState; observed : gset rstr; due : list Task }.

(** The body of the loop over the tasks of a page. *)
Definition scan_task now (s : Scan) (task : Task) : Scan :=
  if negb (enabled task) then s else
  match schedule task with
  | None => s
  | Some schedule_str =>
      match parse_task_schedule (E := E) schedule_str with
      | Err _ => s
      | Ok sched =>
          let '(m, should_run) := update_schedule_state (scheduled s) (id task) schedule_str sched now in
          {| scheduled := m; observed := {[id task]} ∪ observed s;
             due := if should_run then due s ++ [task] else due s |}
      end
  end.

Fixpoint scan_pages fuel query now (cursor : option rstr) (s : Scan) : option (result (TaskError E) Scan) :=
  match fuel with
  | O => None
  | S fuel =>
      match list_scheduled_page query cursor TASK_SCHEDULED_RUNTIME_SCAN_LIMIT with
      | Err e => Some (Err e)
      | Ok page =>
          let s := foldl (scan_task now) s (page_tasks page) in
          match next_cursor page with
          | Some next => scan_pages fuel query now (Some next) s
          | None => Some (Ok s)
          end
      end
  end.

(** [scan_due_tasks]: the snapshot replaces [scheduled_tasks] only when every page
    was loaded, and keeps only what was seen. *)
Definition scan_due_tasks fuel query now (scheduled_tasks : gmap rstr ScheduledTaskState)
    : option (result (TaskError E) (list Task) * gmap rstr ScheduledTaskState) :=
  match scan_pages fuel query now None {| scheduled := scheduled_tasks; observed := ∅; due := [] |} with
  | None => None
  | Some (Err e) => Some (Err e, scheduled_tasks)
  | Some (Ok s) => Some (Ok (due s), filter (fun p => p.1 ∈ observed s) (scheduled s))
  end.

(** The scans of a sequence of ticks: what was found due at each. *)
Fixpoint run_ticks fuel (ticks : list (Z * PageQuery)) (m : gmap rstr ScheduledTaskState)
    : list (option (result (TaskError E) (list Task))) :=
  match ticks with
  | [] => []
  | (now, query) :: ticks =>
      match scan_due_tasks fuel query now m with
      | None => None :: run_ticks fuel ticks m
      | Some (r, m) => Some r :: run_ticks fuel ticks m
      end
  end.
End scheduler.

(** ** Which servers a task runs on *)

Record AgentSelectorRecord := {
  rec_id : rstr;
  rec_name : rstr;
  dashboard_metadata_json : option rstr;
  last_info_json : option rstr;
  last_state_json : option rstr;
}.

(** [HashSet::insert] as a filter: the first of equal elements, in order. *)
Fixpoint keep_first (seen l : list rstr) : list rstr :=
  match l with
  | [] => []
  | x :: l => if contains x seen then keep_first seen l else x :: keep_first (x :: seen) l
  end.

Section tags.
Context (lib : TaskLib).

Definition normalize_tag_filter (value : rstr) : option rstr :=
  let trimmed := to_lowercase lib (trim_start_by (Z.eqb 35) (trim value)) in
  if is_empty trimmed then None else Some trimmed.

(** The filters of one entry of [selector.tags]. *)
Definition entry_filters (entry : rstr * rstr) : list rstr :=
  let key := trim entry.1 in
  let value := trim entry.2 in
  if is_empty value || bool_decide (value = lit "*") || eq_ignore_ascii_case value (lit "true")
  then omap (M := list) normalize_tag_filter [key]
  else omap (M := list) normalize_tag_filter [value; key ++ lit ":" ++ value].

Definition normalized_selector_tags (selector : ServerSelector) : list rstr :=
  keep_first [] (omap (M := list) normalize_tag_filter (tag_names selector) ++ (tags selector ≫= entry_filters)).

Definition tags_from_json_value (value : json) : list rstr :=
  match value with
  | JArray items => omap (M := list) as_str items
  | JString value => filter (fun item => item ≠ []) (trim <$> split_by (Z.eqb 44) value)
  | JObject map =>
      map ≫= fun kv => match as_str kv.2 with
                       | Some label => [label; kv.1 ++ lit ":" ++ label]
                       | None => if bool_decide (as_bool kv.2 = Some true) then [kv.1] else []
                       end
  | _ => []
  end.

(** The tags under the keys [tags] and [labels] of a value. *)
Definition tags_under (value : json) : list rstr :=
  [lit "tags"; lit "labels"] ≫= fun key =>
    match json_get key value with Some v => tags_from_json_value v | None => [] end.

Definition tags_from_json_source (value : json) : list rstr :=
  tags_under value
  ++ ([lit "metadata"; lit "custom"] ≫= fun container =>
        match json_get container value with Some child => tags_under child | None => [] end).

(** [agent_tags], a set. *)
Definition agent_tags (record : AgentSelectorRecord) : list rstr :=
  let sources := omap (M := list) (fun o => o)
    [parse_bounded_agent_json (json_parse lib) (dashboard_metadata_json record) AGENT_DASHBOARD_METADATA_JSON_MAX_BYTES;
     parse_bounded_agent_json (json_parse lib) (last_info_json record) AGENT_TELEMETRY_JSON_MAX_BYTES;
     parse_bounded_agent_json (json_parse lib) (last_state_json record) AGENT_TELEMETRY_JSON_MAX_BYTES] in
  omap (M := list) normalize_tag_filter ((sources ≫= tags_from_json_source) ++ [rec_name record]).

Definition agent_matches_tag_filters (record : AgentSelectorRecord) (filters : list rstr) : bool :=
  forallb (fun f => contains f (agent_tags record)) filters.
End tags.

Section resolve.
Context {E : Type} `{HashOrder} (lib : TaskLib).
(** [SELECT .. FROM agents WHERE owner_user_id = ? AND revoked_at IS NULL ORDER BY
    created_at], and the members of a group of the owner that are such Agents. *)
Context (owned_agents : rstr → result E (list AgentSelectorRecord)) (group_agents : rstr → rstr → result E (list rstr)).

Definition list_group_agent_ids (owner : rstr) (groups : list rstr) : result (TaskError E) (list rstr) :=
  try_fold (fun out group => rows ← from_query (group_agents group owner); Ok (out ++ rows)) groups [].

Definition resolve_server_ids (selector : ServerSelector) (cover : CoverMode) (owner : rstr)
    (source_agent_id : option rstr) : result (TaskError E) (list rstr) :=
  records ← from_query (owned_agents owner);
  let owned_ids := rec_id <$> records in
  let has_include_selector :=
    source_server selector || negb (is_empty (server_ids selector)) || negb (is_empty (group_ids selector)) in
  let source := if source_server selector
                then match source_agent_id with
                     | Some a => if contains a owned_ids then [a] else []
                     | None => []
                     end
                else [] in
  let named := filter (fun a => contains a owned_ids = true) (server_ids selector) in
  members ← list_group_agent_ids owner (group_ids selector);
  let candidates := source ++ named ++ members in
  let tag_filters := normalized_selector_tags lib selector in
  let candidates :=
    if negb (is_empty tag_filters) then
      let tag_matched : gset rstr :=
        list_to_set (rec_id <$> filter (fun r => agent_matches_tag_filters lib r tag_filters = true) records) in
      if has_include_selector then filter (fun a => a ∈ tag_matched) candidates
      else candidates ++ hash_iter tag_matched
    else if negb has_include_selector && (bool_decide (cover = All) || bool_decide (cover = Any))
    then candidates ++ owned_ids
    else candidates in
  let resolved := keep_first [] (filter (fun a => a ∉ exclude_server_ids selector ∧ a ∈ owned_ids) candidates) in
  Ok (if bool_decide (cover = Any) then take 1 resolved else resolved).
End resolve.

(** ** The rows of the runs: [TaskRunRepository] *)

Record RunRow := {
  r_task_id : rstr; r_server_id : rstr; r_status : rstr; r_delay_ms : option Z; r_output : option rstr;
  r_output_truncated : bool; r_error : option rstr; r_created_at : rstr;
}.

(** The table [task_runs], by its primary key. *)
Abbreviation Runs := (gmap rstr RunRow).

Definition pending : rstr := lit "pending".
Definition failed : rstr := lit "failed".

Definition status_text (status : TaskStatus) : rstr :=
  match status with Offline => pending | Success => lit "success" | Failure => failed | Timeout => lit "timeout" end.

Definition parse_task_status (value : rstr) : TaskStatus :=
  if bool_decide (value = pending) || bool_decide (value = lit "running") then Offline
  else if bool_decide (value = lit "success") then Success
  else if bool_decide (value = failed) then Failure
  else if bool_decide (value = lit "timeout") then Timeout
  else Failure.

Definition row_of_run (run : TaskRun) : RunRow :=
  {| r_task_id := task_id run; r_server_id := server_id run; r_status := status_text (status run);
     r_delay_ms := delay_ms run; r_output := output run; r_output_truncated := output_truncated run;
     r_error := error run; r_created_at := run_created_at run |}.

(** [sqlite_row_to_task_run]. *)
Definition row_to_task_run (i : rstr) (row : RunRow) : TaskRun :=
  {| run_id := i; task_id := r_task_id row; server_id := r_server_id row; status := parse_task_status (r_status row);
     delay_ms := r_delay_ms row; output := r_output row; output_truncated := r_output_truncated row;
     error := r_error row; run_created_at := r_created_at row |}.

(** [UPDATE task_runs SET status = 'failed', error = ? .. AND status = 'pending']. *)
Definition settle_row (err : rstr) (row : RunRow) : RunRow :=
  if bool_decide (r_status row = pending) then
    {| r_task_id := r_task_id row; r_server_id := r_server_id row; r_status := failed; r_delay_ms := r_delay_ms row;
       r_output := r_output row; r_output_truncated := r_output_truncated row; r_error := Some err;
       r_created_at := r_created_at row |}
  else row.

Definition settle_pending_after_cancellation (i err : rstr) (runs : Runs) : Runs * bool :=
  (alter (settle_row err) i runs,
   match runs !! i with Some row => bool_decide (r_status row = pending) | None => false end).

Definition settle_pending_after_restart (err : rstr) (runs : Runs) : Runs * Z :=
  (settle_row err <$> runs, Z.of_nat (size (filter (fun p : rstr * RunRow => r_status p.2 = pending) runs))).

(** [settle_cancelled_task_run]: the loop over the attempts; [reachable] says of
    each whether its statement reaches the database. *)
Fixpoint settle_cancelled_task_run (attempts : nat) (reachable : list bool) (i : rstr) (runs : Runs) : Runs :=
  match attempts with
  | O => runs
  | S attempts =>
      match reachable with
      | true :: reachable =>
          let '(runs, settled) := settle_pending_after_cancellation i TASK_RUN_CANCELLATION_ERROR runs in
          if settled then runs else settle_cancelled_task_run attempts reachable i runs
      | false :: reachable => settle_cancelled_task_run attempts reachable i runs
      | [] => runs
      end
  end.

Section runs.
Context {E : Type}.

(** [TaskRunRepository::create] and [update_result]; the argument is what the
    database answers when the row can be written. *)
Definition insert_run (db : result E unit) (run : TaskRun) (runs : Runs) : result (TaskError E) unit * Runs :=
  match from_query db with
  | Err e => (Err e, runs)
  | Ok _ => match runs !! run_id run with
            | Some _ => (Err DuplicateRun, runs)
            | None => (Ok (), <[run_id run := row_of_run run]> runs)
            end
  end.

Definition update_result (db : result E unit) (i : rstr) (status : TaskStatus) (delay : Z) (out : option rstr)
    (truncated : bool) (err : option rstr) (runs : Runs) : result (TaskError E) unit * Runs :=
  match from_query db with
  | Err e => (Err e, runs)
  | Ok _ => (Ok (), alter (fun row =>
      {| r_task_id := r_task_id row; r_server_id := r_server_id row; r_status := status_text status;
         r_delay_ms := Some delay; r_output := out; r_output_truncated := truncated; r_error := err;
         r_created_at := r_created_at row |}) i runs)
  end.
End runs.

(** ** One Agent *)

(** What ends the wait for a reply of at most 30 seconds; [Cancelled] is the
    future of the dispatch being dropped. *)
Inductive Wait : Type :=
| Replied (r : IoStreams.TaskResult) (elapsed : Z)
| Disconnected
| TimedOut (elapsed : Z)
| Cancelled.

(** What one dispatch meets. [during_send] and [during_wait] are what other tasks
    do to the registry of waiters meanwhile. *)
Record AgentEnv (E : Type) := {
  new_run_id : rstr;
  clock : rstr;
  new_registration : Z;
  online : bool;
  send_task : result rstr unit;
  during_send : IoStreams.TaskResponseRegistry → IoStreams.TaskResponseRegistry;
  during_wait : IoStreams.TaskResponseRegistry → IoStreams.TaskResponseRegistry;
  waited : Wait;
  db_create : result E unit;
  db_update : result E unit;
  in_runtime : bool;
  db_reachable : list bool;
}.
Arguments new_run_id {E}. Arguments clock {E}. Arguments new_registration {E}. Arguments online {E}.
Arguments send_task {E}. Arguments during_send {E}. Arguments during_wait {E}. Arguments waited {E}.
Arguments db_create {E}. Arguments db_update {E}. Arguments in_runtime {E}. Arguments db_reachable {E}.

(** [sent]: the Agent, run id and command of every message handed to
    [SessionRegistry::send_task] that it accepted. *)
Record DispatchState := {
  runs : Runs;
  waiters : IoStreams.TaskResponseRegistry;
  sent : list (Z * rstr * rstr);
}.
Definition set_runs (rs : Runs) (st : DispatchState) : DispatchState :=
  {| runs := rs; waiters := waiters st; sent := sent st |}.
Definition set_waiters f (st : DispatchState) : DispatchState :=
  {| runs := runs st; waiters := f (waiters st); sent := sent st |}.
Definition log_sent m (st : DispatchState) : DispatchState :=
  {| runs := runs st; waiters := waiters st; sent := sent st ++ [m] |}.

(** [Outcome::try_from(result.status).unwrap_or(Unspecified)]. *)
Definition outcome_status (code : Z) : TaskStatus :=
  if code =? 1 then Success else if code =? 3 then Timeout else Failure.

Definition non_empty (s : rstr) : option rstr := if is_empty s then None else Some s.

Section dispatch.
Context {E : Type} `{UuidLib}.
Implicit Types (ae : AgentEnv E) (st : DispatchState).

(** A run of [task] on [agent]. *)
Definition make_run ae (task agent : rstr) (status : TaskStatus) (delay : Z) (out : option rstr) (truncated : bool)
    (err : option rstr) : TaskRun :=
  {| run_id := new_run_id ae; task_id := task; server_id := agent; status := status; delay_ms := Some delay;
     output := out; output_truncated := truncated; error := err; run_created_at := clock ae |}.

Definition create_run ae (run : TaskRun) st : result (TaskError E) TaskRun * DispatchState :=
  let '(r, rs) := insert_run (db_create ae) run (runs st) in
  ((fun _ => run) <$> r, set_runs rs st).

Definition update_and_build_run ae (run : TaskRun) (delay : Z) st : result (TaskError E) TaskRun * DispatchState :=
  let '(r, rs) := update_result (db_update ae) (run_id run) (status run) delay (output run) (output_truncated run)
                    (error run) (runs st) in
  ((fun _ => run) <$> r, set_runs rs st).

(** [PendingTaskRunGuard], dropped while armed. *)
Definition drop_armed_guard ae st : DispatchState :=
  if in_runtime ae
  then set_runs (settle_cancelled_task_run TASK_RUN_CANCELLATION_CLEANUP_ATTEMPTS (db_reachable ae) (new_run_id ae)
                   (runs st)) st
  else st.

(** The wait and what follows it; [None] when the dispatch is cancelled. *)
Definition await_reply ae (task agent : rstr) st : option (result (TaskError E) TaskRun) * DispatchState :=
  let id := new_run_id ae in
  let st := set_waiters (fun w => IoStreams.task_drop id (new_registration ae) (during_wait ae w)) st in
  match waited ae with
  | Cancelled => (None, drop_armed_guard ae st)
  | Replied r elapsed =>
      let '(r, (t1, t2, t3)) := IoStreams.truncate_task_result_text r TASK_RESULT_STDOUT_MAX_BYTES
                                  TASK_RESULT_STDERR_MAX_BYTES TASK_RESULT_ERROR_MAX_BYTES in
      let err := if is_empty (IoStreams.error r) then non_empty (IoStreams.stderr r) else Some (IoStreams.error r) in
      let run := make_run ae task agent (outcome_status (IoStreams.status r)) elapsed
                   (non_empty (IoStreams.stdout r)) (t1 || t2 || t3) err in
      let '(r, st) := update_and_build_run ae run elapsed st in
      (Some r, if is_ok r then st else drop_armed_guard ae st)
  | Disconnected =>
      let st := set_waiters (IoStreams.task_cancel id) st in
      let run := make_run ae task agent Failure 0 None false (Some (lit "agent disconnected before reply")) in
      let '(r, st) := update_and_build_run ae run 0 st in
      (Some r, if is_ok r then st else drop_armed_guard ae st)
  | TimedOut elapsed =>
      let st := set_waiters (IoStreams.task_cancel id) st in
      let run := make_run ae task agent Timeout elapsed None false (Some (lit "server-side timeout")) in
      let '(r, st) := update_and_build_run ae run elapsed st in
      (Some r, if is_ok r then st else drop_armed_guard ae st)
  end.

Definition dispatch_task_to_agent ae (task shell_command agent : rstr) st : option (result (TaskError E) TaskRun) * DispatchState :=
  match uuid_parse agent with
  | None =>
      let '(r, st) := create_run ae (make_run ae task agent Failure 0 None false (Some (lit "invalid agent id"))) st in
      (Some r, st)
  | Some agent_id =>
      let id := new_run_id ae in
      if negb (online ae) then
        let '(r, st) := create_run ae (make_run ae task agent Offline 0 None false (Some (lit "agent offline"))) st in
        (Some r, st)
      else
      let drop_waiter := IoStreams.task_drop id (new_registration ae) in
      let st := set_waiters (IoStreams.task_register id agent_id (new_registration ae)) st in
      let st := set_waiters (during_send ae) st in
      match send_task ae with
      | Err e =>
          let st := set_waiters (IoStreams.task_cancel id) st in
          let '(r, st) := create_run ae (make_run ae task agent Failure 0 None false (Some e)) st in
          (Some r, set_waiters drop_waiter st)
      | Ok _ =>
          let st := log_sent (agent_id, id, shell_command) st in
          let '(r, st) := create_run ae (make_run ae task agent Offline 0 None false None) st in
          match r with
          | Err e => (Some (Err e), set_waiters drop_waiter (drop_armed_guard ae (set_waiters (IoStreams.task_cancel id) st)))
          | Ok _ => await_reply ae task agent st
          end
      end
  end.
End dispatch.

(** ** A whole task *)

Record TaskDispatchSummary := { success : Z; failure : Z; offline : Z; timeout : Z; total : Z }.
Record TaskDispatchReport := { rep_task_id : rstr; summary : TaskDispatchSummary; rep_runs : list TaskRun }.

Inductive NotificationSeverity : Type := SevError | SevInfo.
Record NotificationMessage := {
  title : rstr; message : rstr; severity : NotificationSeverity; msg_time : rstr; metadata : gmap rstr rstr;
}.

(** [TASK_DISPATCH_PERMITS] and [buffer_unordered] bound how many dispatches run at
    once; the order in which they end is the environment's. *)
Record TaskEnv (E ChanRow Chan : Type) := {
  owned_agents : rstr → result E (list AgentSelectorRecord);
  group_agents : rstr → rstr → result E (list rstr);
  agent_env : rstr → AgentEnv E;
  completion : list (nat * rstr) → list (nat * rstr);
  finished_at : rstr;
  notified_at : rstr;
  db_last_execution : result E unit;
  group_channels : rstr → rstr → result E (list ChanRow);   (** group, owner; at most 33 *)
  channel_of_row : ChanRow → option Chan;
  get_by_id : rstr → result E (option Task);
}.
Arguments owned_agents {E ChanRow Chan}. Arguments group_agents {E ChanRow Chan}.
Arguments agent_env {E ChanRow Chan}. Arguments completion {E ChanRow Chan}. Arguments finished_at {E ChanRow Chan}. Arguments notified_at {E ChanRow Chan}.
Arguments db_last_execution {E ChanRow Chan}. Arguments group_channels {E ChanRow Chan}.
Arguments channel_of_row {E ChanRow Chan}. Arguments get_by_id {E ChanRow Chan}.

Record TaskWorld (Chan : Type) := {
  dispatch : DispatchState;
  executions : gmap rstr (rstr * rstr);        (** [last_executed_at] and [last_result], by task *)
  notified : list (Chan * NotificationMessage);
}.
Arguments dispatch {Chan}. Arguments executions {Chan}. Arguments notified {Chan}.

Definition count_status (s : TaskStatus) (runs : list TaskRun) : Z :=
  zlen (filter (fun run => status run = s) runs).

Definition summarize (runs : list TaskRun) (targets : Z) : TaskDispatchSummary :=
  {| success := count_status Success runs; failure := count_status Failure runs;
     offline := count_status Offline runs; timeout := count_status Timeout runs; total := targets |}.

Definition summary_text (s : TaskDispatchSummary) : rstr :=
  lit "success=" ++ print_dec (success s) ++ lit ", failure=" ++ print_dec (failure s)
  ++ lit ", offline=" ++ print_dec (offline s) ++ lit ", timeout=" ++ print_dec (timeout s)
  ++ lit ", total=" ++ print_dec (total s).

(** The index of a target orders the runs again. *)
Definition by_index (p q : nat * TaskRun) : Prop := (p.1 <= q.1)%nat.
#[global] Instance by_index_dec p q : Decision (by_index p q).
Proof. unfold by_index. apply _. Defined.

Section tasks.
Context {E ChanRow Chan : Type} `{UuidLib, CronLib, HashOrder} (env : Security.Env) (lib : TaskLib)
  (te : TaskEnv E ChanRow Chan).
Implicit Types (w : TaskWorld Chan) (task : Task) (source : option rstr).

Definition ensure_task_target_count_allowed (count : Z) : result (TaskError E) unit :=
  if TASK_MAX_DISPATCH_TARGETS <? count then Err TooManyTargets else Ok ().

(** The dispatches, in the order in which they end; [None] when they are cancelled. *)
Fixpoint dispatch_all (task_id shell_command : rstr) (targets : list (nat * rstr)) (st : DispatchState)
    : option (list (result (TaskError E) (nat * TaskRun))) * DispatchState :=
  match targets with
  | [] => (Some [], st)
  | (index, agent) :: targets =>
      match dispatch_task_to_agent (agent_env te agent) task_id shell_command agent st with
      | (None, st) => (None, (dispatch_all task_id shell_command targets st).2)
      | (Some r, st) =>
          let '(rs, st) := dispatch_all task_id shell_command targets st in
          (cons ((fun run => (index, run)) <$> r) <$> rs, st)
      end
  end.

Definition notification_channels_for_group (group owner : rstr) : result (TaskError E) (list Chan) :=
  rows ← from_query (group_channels te group owner);
  if Alerts.NOTIFICATION_MAX_GROUP_CHANNELS <? zlen rows then Err TooManyChannels else
  Ok (omap (M := list) (channel_of_row te) rows).

Definition has_failure (s : TaskDispatchSummary) : bool :=
  (0 <? failure s) || (0 <? offline s) || (0 <? timeout s).

Definition dispatch_message task (s : TaskDispatchSummary) : NotificationMessage :=
  {| title := [0x4EFB; 0x52A1; 0x6267; 0x884C] ++ (if has_failure s then [0x5F02; 0x5E38] else [0x6210; 0x529F])
              ++ [0xFF1A] ++ name task;
     message := [0x4EFB; 0x52A1; 32] ++ name task ++ [32; 0x6267; 0x884C; 0x5B8C; 0x6210; 0xFF1A] ++ summary_text s;
     severity := if has_failure s then SevError else SevInfo;
     msg_time := notified_at te;
     metadata := list_to_map
       [(lit "task_id", id task); (lit "task_name", name task);
        (lit "result", if has_failure s then lit "failure" else lit "success");
        (lit "success", print_dec (success s)); (lit "failure", print_dec (failure s));
        (lit "offline", print_dec (offline s)); (lit "timeout", print_dec (timeout s));
        (lit "total", print_dec (total s))] |}.

(** What [send_task_dispatch_notification] hands to the channels. *)
Definition send_task_dispatch_notification task (s : TaskDispatchSummary)
    : result (TaskError E) (list (Chan * NotificationMessage)) :=
  match notification_group_id task with
  | None => Ok []
  | Some group =>
      if negb (has_failure s) && negb (push_successful task) then Ok [] else
      channels ← notification_channels_for_group group (owner_user_id task);
      Ok (map (fun ch => (ch, dispatch_message task s)) channels)
  end.

(** Everything before the first dispatch: the command and the targets. *)
Definition prepare_dispatch task source : result (TaskError E) (rstr * list rstr) :=
  validate_task_definition env lib task ;;
  selector ← ok_or (selector_from_str lib (server_selector_json task)) SelectorInvalid;
  command ← (if bool_decide (task_type task = Shell) then Ok (default [] (command task)) else Err NotDispatchable);
  if is_empty (trim command) then Err CommandMissing else
  targets ← resolve_server_ids lib (owned_agents te) (group_agents te) selector (cover_mode task)
              (owner_user_id task) source;
  if is_empty targets then Err NoTargets else
  ensure_task_target_count_allowed (zlen targets) ;;
  Ok (command, targets).

Definition dispatch_task_to_agents_with_source task source w
    : option (result (TaskError E) TaskDispatchReport) * TaskWorld Chan :=
  match prepare_dispatch task source with
  | Err e => (Some (Err e), w)
  | Ok (shell_command, targets) =>
      let '(outcomes, st) := dispatch_all (id task) shell_command (completion te (imap pair targets)) (dispatch w) in
      let w := {| dispatch := st; executions := executions w; notified := notified w |} in
      match outcomes with
      | None => (None, w)
      | Some outcomes =>
          match try_fold (fun out d => x ← d; Ok (out ++ [x])) outcomes [] with
          | Err e => (Some (Err e), w)
          | Ok indexed =>
              let runs := snd <$> merge_sort by_index indexed in
              let s := summarize runs (zlen targets) in
              match from_query (db_last_execution te) with
              | Err e => (Some (Err e), w)
              | Ok _ =>
                  let messages := match send_task_dispatch_notification task s with Ok l => l | Err _ => [] end in
                  (Some (Ok {| rep_task_id := id task; summary := s; rep_runs := runs |}),
                   {| dispatch := st;
                      executions := <[id task := (finished_at te, summary_text s)]> (executions w);
                      notified := notified w ++ messages |})
              end
          end
      end
  end.

Definition dispatch_task_to_agents task w := dispatch_task_to_agents_with_source task None w.

(** ** Triggers *)

Definition require_task_uuid_text (value : rstr) : result (TaskError E) rstr :=
  if is_empty value then Err InvalidTaskId else
  if negb (byte_len value =? 36) then Err InvalidTaskId else
  parsed ← ok_or (uuid_parse value) InvalidTaskId;
  if negb (bool_decide (uuid_to_string parsed = value)) then Err InvalidTaskId else Ok value.

Definition discard {A} (r : option (result (TaskError E) A)) : option (result (TaskError E) unit) :=
  match r with Some (Ok _) => Some (Ok ()) | Some (Err e) => Some (Err e) | None => None end.

Definition load_triggered_task (task_id : rstr) (owner : option rstr) : result (TaskError E) Task :=
  task_id ← require_task_uuid_text task_id;
  owner ← ok_or (Alerts.nonempty_trimmed owner) OwnerRequired;
  row ← from_query (get_by_id te task_id);
  task ← ok_or row TaskNotFound;
  if negb (bool_decide (owner_user_id task = owner)) then Err OwnerMismatch else Ok task.

Definition run_triggered_task (task_id : rstr) source (owner : option rstr) w
    : option (result (TaskError E) unit) * TaskWorld Chan :=
  match load_triggered_task task_id owner with
  | Err e => (Some (Err e), w)
  | Ok task =>
      if negb (enabled task) then (Some (Ok ()), w) else
      let '(r, w) := dispatch_task_to_agents_with_source task source w in
      (discard r, w)
  end.

(** [spawn_triggered_tasks], each spawned task run to its end in turn. *)
Definition spawn_triggered_tasks (task_ids : list rstr) source (owner : option rstr) w : TaskWorld Chan :=
  foldl (fun w task_id => (run_triggered_task task_id source owner w).2) w
    (keep_first [] (filter (fun i => i ≠ []) (trim <$> task_ids))).

(** [TaskScheduler::trigger_task] and [execute_task]. *)
Definition trigger_task (task_id : rstr) w : option (result (TaskError E) unit) * TaskWorld Chan :=
  let load := task_id ← require_task_uuid_text task_id;
              row ← from_query (get_by_id te task_id);
              task ← ok_or row TaskNotFound;
              if negb (enabled task) then Err TaskDisabled else Ok task in
  match load with
  | Err e => (Some (Err e), w)
  | Ok task => let '(r, w) := dispatch_task_to_agents task w in (discard r, w)
  end.

(** [check_and_run_tasks]: a scan, then the tasks that are due. *)
Definition check_and_run_tasks (fuel : nat) (query : option rstr → Z → result E (list Row)) (now : Z)
    (m : gmap rstr ScheduledTaskState) w
    : option (result (TaskError E) unit * gmap rstr ScheduledTaskState * TaskWorld Chan) :=
  match scan_due_tasks env lib fuel query now m with
  | None => None
  | Some (Err e, m) => Some (Err e, m, w)
  | Some (Ok due, m) => Some (Ok (), m, foldl (fun w task => (dispatch_task_to_agents task w).2) w due)
  end.
End tasks.

End Tasks.
