(* ===== verification/TasksProofs.v ===== *)
(** * TasksProofs: which tasks run, when and where

    Paging through the scheduled tasks, scheduling (no occurrence missed, none run
    twice), the resolution of a selector, and the targets a definition may name. *)

From S2P Require Import Prelude Text BTreeMap Json Externals Net Security IoStreams Alerts Tasks.

Module TasksProofs.
Import Tasks.

(** ** Paging *)

Section paging.
Context {E : Type} `{CronLib} (env : Security.Env) (lib : TaskLib).

(** [ORDER BY id DESC] on a primary key. *)
Definition descending (rows : list Row) : Prop :=
  StronglySorted (fun r r' : Row => key_ltb r'.1 r.1 = true) rows.

Definition table_query (rows : list Row) (cursor : option rstr) (limit : Z) : result E (list Row) :=
  Ok (select_scheduled rows cursor limit).

Lemma filter_before_last pre r rest :
  descending (pre ++ r :: rest) → filter (before_cursor (Some r.1)) (pre ++ r :: rest) = rest.
Proof.
  unfold descending. induction pre as [|p pre IH]; cbn [app]; intros [Hs Hp]%StronglySorted_inv.
  - rewrite filter_cons_False by (unfold before_cursor; by rewrite key_irrefl). clear Hs.
    induction Hp as [|q rest Hq _ IH]; [done|]. by rewrite filter_cons_True, IH.
  - rewrite filter_cons_False; [by apply IH|]. unfold before_cursor. apply Forall_app in Hp as [_ Hp].
    apply Forall_cons in Hp as [Hr _]. by rewrite (key_asym _ _ Hr).
Qed.

(** The tasks of the rows that decode and validate. *)
Definition listing (rows : list Row) : list Task :=
  omap (M := list) (fun row => validate_scheduled_task (E := E) env lib row.2) rows.

Lemma table_page rows cursor :
  list_scheduled_page env lib (table_query rows) cursor TASK_SCHEDULED_RUNTIME_SCAN_LIMIT
  = Ok (rows_to_scheduled_page (E := E) env lib (take 1024 (filter (before_cursor cursor) rows)) 1024).
Proof. done. Qed.

Lemma list_scheduled_from_complete fuel rows cursor pre rest acc :
  descending rows → rows = pre ++ rest → filter (before_cursor cursor) rows = rest →
  (length rest < fuel)%nat →
  list_scheduled_from env lib fuel (table_query rows) cursor acc
  = Some (Ok (acc ++ listing rest)).
Proof.
  intros Hd. revert cursor pre rest acc. induction fuel as [|fuel IH]; intros cursor pre rest acc Hr Hf Hlen; [lia|].
  cbn [list_scheduled_from]. rewrite table_page, Hf. cbn [rows_to_scheduled_page page_tasks next_cursor].
  set (n := 1024%nat). assert (n = 1024%nat) as Hn by done. clearbody n.
  destruct (zlen (take n rest) =? _) eqn:Hfull; bool_prop.
  - assert (length (take n rest) = n) as Hl by (unfold zlen in Hfull; lia).
    destruct (take n rest) as [|r0 tl0] eqn:Ht; [cbn in Hl; lia|]. rewrite <- Ht in *.
    destruct (last (take n rest)) as [r|] eqn:Hlast; [|by apply last_None in Hlast; rewrite Hlast in Ht].
    apply last_Some in Hlast as [front Hfront]. cbn [fmap option_fmap option_map].
    assert (rest = front ++ r :: drop n rest) as Hrest.
    { rewrite <- (take_drop n rest) at 1. rewrite Hfront. by rewrite <- app_assoc. }
    rewrite (IH (Some r.1) (pre ++ front ++ [r]) (drop n rest)).
    + rewrite <- app_assoc. do 3 f_equal. rewrite <- (take_drop n rest) at 3. unfold listing. by rewrite omap_app.
    + rewrite Hr, Hrest at 1. by rewrite <- !app_assoc.
    + assert (rows = (pre ++ front) ++ r :: drop n rest) as Hrows by (rewrite Hr, Hrest at 1; by rewrite <- app_assoc).
      rewrite Hrows in Hd |- *. by apply filter_before_last.
    + rewrite length_drop. rewrite length_take in Hl. lia.
  - do 3 f_equal. rewrite take_ge; [done|]. unfold zlen in Hfull. rewrite length_take in Hfull. lia.
Qed.

Lemma list_scheduled_listing fuel rows :
  descending rows → (length rows < fuel)%nat →
  list_scheduled env lib fuel (table_query rows) = Some (Ok (listing rows)).
Proof.
  intros Hd Hlen. unfold list_scheduled.
  assert (filter (before_cursor None) rows = rows) as Hf.
  { clear. induction rows as [|r rows IH]; [done|]. by rewrite filter_cons_True, IH. }
  by rewrite (list_scheduled_from_complete fuel rows None [] rows []).
Qed.

(** The scheduler's own loop reads the same pages. *)
Definition map_listing {A B} (f : A → B) (r : option (result (TaskError E) A)) : option (result (TaskError E) B) :=
  match r with Some (Ok a) => Some (Ok (f a)) | Some (Err e) => Some (Err e) | None => None end.

Lemma list_scheduled_from_acc fuel query cursor acc :
  list_scheduled_from (E := E) env lib fuel query cursor acc
  = map_listing (app acc) (list_scheduled_from env lib fuel query cursor []).
Proof.
  revert cursor acc. induction fuel as [|fuel IH]; intros cursor acc; [done|]. cbn [list_scheduled_from app].
  destruct (list_scheduled_page _ _ query cursor _) as [page|e]; [|done].
  destruct (next_cursor page) as [c|]; [|done]. rewrite IH, (IH _ (page_tasks page)).
  destruct (list_scheduled_from env lib fuel query (Some c) []) as [[tasks|e]|]; try done. cbn. by rewrite app_assoc.
Qed.

Lemma scan_pages_fold fuel query now cursor s :
  scan_pages (E := E) env lib fuel query now cursor s
  = map_listing (foldl (scan_task (E := E) now) s) (list_scheduled_from env lib fuel query cursor []).
Proof.
  revert cursor s. induction fuel as [|fuel IH]; intros cursor s; [done|]. cbn [list_scheduled_from scan_pages app].
  destruct (list_scheduled_page _ _ query cursor _) as [page|e]; [|done].
  destruct (next_cursor page) as [c|]; [|done]. rewrite IH, (list_scheduled_from_acc _ _ _ (page_tasks page)).
  destruct (list_scheduled_from env lib fuel query (Some c) []) as [[tasks|e]|]; try done. cbn. by rewrite foldl_app.
Qed.
(** C37: paging through the scheduled tasks by cursor reads every row of the table
    exactly once and in order, whatever its size: [list_scheduled] ends, after at
    most as many pages as there are rows and one more, and returns the tasks of all
    the rows that decode and validate. *)
Theorem list_scheduled_complete fuel rows :
  descending rows → (length rows < fuel)%nat →
  list_scheduled env lib fuel (table_query rows)
  = Some (Ok (listing rows)).
Proof. apply list_scheduled_listing. Qed.
End paging.

(** ** Scheduling *)

Section schedule.
Context {E : Type} `{CronLib} (env : Security.Env) (lib : TaskLib) (i expr : rstr) (sched : Schedule).
Hypothesis Hparse : parse_task_schedule (E := E) expr = Ok sched.

(** The task [i], enabled and on the schedule [expr]. *)
Definition on_schedule (task : Task) : Prop :=
  id task = i ∧ enabled task = true ∧ schedule task = Some expr.

(** What the scheduler knows of [i] when its last completed scan was at [last]. *)
Definition tracked (last : option Z) : option ScheduledTaskState :=
  match last with
  | Some l => Some {| expression := expr; next_run := next_after sched l |}
  | None => None
  end.

Definition occurs_within (last : option Z) (now : Z) : Prop :=
  ∃ l o, last = Some l ∧ occurs sched o ∧ l < o <= now.

Lemma next_after_stable l now :
  l <= now → (∀ o, occurs sched o → ¬ l < o <= now) → next_after sched now = next_after sched l.
Proof.
  intros Hle Hno. destruct (next_after sched l) as [n|] eqn:Hl; destruct (next_after sched now) as [n'|] eqn:Hnow; auto.
  - apply next_after_Some in Hl as (Ho & ? & Hmin). apply next_after_Some in Hnow as (Ho' & ? & Hmin').
    f_equal. specialize (Hno n Ho). specialize (Hmin n' Ho'). specialize (Hmin' n Ho). lia.
  - apply next_after_Some in Hl as (Ho & ? & _). specialize (Hno n Ho). apply next_after_None with (o := n) in Hnow; [lia|done].
  - apply next_after_Some in Hnow as (Ho & ? & _). apply next_after_None with (o := n') in Hl; [lia|done].
Qed.

Lemma update_tracked m last now :
  m !! i = tracked last → (∀ l, last = Some l → l <= now) →
  (update_schedule_state m i expr sched now).1 !! i = tracked (Some now)
  ∧ ((update_schedule_state m i expr sched now).2 = true ↔ occurs_within last now).
Proof.
  intros Hm Hle. unfold update_schedule_state, occurs_within. rewrite Hm. destruct last as [l|]; cbn [tracked expression next_run].
  2:{ cbn. rewrite lookup_insert_eq. split; [done|]. split; [done|]. by intros (?&?&?&?). }
  specialize (Hle l eq_refl). rewrite bool_decide_eq_true_2 by done. cbn [negb orb andb].
  destruct (next_after sched l) as [n|] eqn:Hn; cbn [fst snd orb].
  - destruct (n <=? now) eqn:Hdue; bool_prop.
    + rewrite lookup_insert_eq. split; [done|]. split; [|done]. intros _. apply next_after_Some in Hn as (?&?&_). by exists l, n.
    + rewrite Hm. cbn [tracked]. split.
      * do 2 f_equal. symmetry. rewrite (next_after_stable l now), Hn; [done|done|].
        intros o Ho ?. apply next_after_Some in Hn as (_ & _ & Hmin). specialize (Hmin o Ho). lia.
      * split; [done|]. intros (? & o & [= <-] & Ho & ?). apply next_after_Some in Hn as (_ & _ & Hmin).
        specialize (Hmin o Ho). lia.
  - rewrite Hm. cbn [tracked]. split.
    + do 2 f_equal. symmetry. rewrite (next_after_stable l now), Hn; [done|done|].
      intros o Ho ?. apply next_after_None with (o := o) in Hn; [lia|done].
    + split; [done|]. intros (? & o & [= <-] & Ho & ?). apply next_after_None with (o := o) in Hn; [lia|done].
Qed.

Definition own (l : list Task) : list Task := filter (fun t => id t = i) l.

Lemma update_other m j e s now :
  j ≠ i → (update_schedule_state m j e s now).1 !! i = m !! i.
Proof. intros Hne. unfold update_schedule_state. cbn. case_match; [by rewrite lookup_insert_ne|done]. Qed.

Lemma scan_task_other now s task :
  id task ≠ i →
  let s' := scan_task (E := E) now s task in
  scheduled s' !! i = scheduled s !! i ∧ (i ∈ observed s' ↔ i ∈ observed s) ∧ own (due s') = own (due s).
Proof.
  intros Hne. cbv zeta. unfold scan_task. destruct (negb (enabled task)); [done|].
  destruct (schedule task) as [e|]; [|done]. destruct (parse_task_schedule e) as [sc|]; [|done].
  destruct (update_schedule_state _ _ _ _ _) as [m run] eqn:Hu. cbn [scheduled observed due]. repeat split.
  - by rewrite <- (update_other (scheduled s) (id task) e sc now Hne), Hu.
  - set_solver.
  - set_solver.
  - destruct run; [|done]. unfold own. rewrite filter_app, filter_cons_False by done. by rewrite app_nil_r.
Qed.

Lemma scan_fold_other now tasks s :
  i ∉ (id <$> tasks) →
  let s' := foldl (scan_task (E := E) now) s tasks in
  scheduled s' !! i = scheduled s !! i ∧ (i ∈ observed s' ↔ i ∈ observed s) ∧ own (due s') = own (due s).
Proof.
  cbv zeta. revert s. induction tasks as [|task tasks IH]; intros s Hni; [done|]. cbn [foldl].
  rewrite fmap_cons, not_elem_of_cons in Hni. destruct Hni as [Hne Hni].
  destruct (IH (scan_task (E := E) now s task) Hni) as (-> & -> & ->). by apply scan_task_other.
Qed.

(** The scan of a list in which the task appears once. *)
Lemma scan_fold_self now tasks s task :
  on_schedule task → NoDup (id <$> tasks) → task ∈ tasks → due s = [] →
  let s' := foldl (scan_task (E := E) now) s tasks in
  let u := update_schedule_state (scheduled s) i expr sched now in
  scheduled s' !! i = u.1 !! i ∧ i ∈ observed s' ∧ own (due s') = if u.2 then [task] else [].
Proof.
  intros (Hid & Hen & Hsch) Hnd Hin Hdue. cbv zeta. apply list_elem_of_split in Hin as (l1 & l2 & ->).
  rewrite fmap_app, fmap_cons, Hid in Hnd. apply NoDup_app in Hnd as (_ & Hn1 & Hn2).
  apply NoDup_cons in Hn2 as [Hn2 _]. rewrite foldl_app. cbn [foldl].
  assert (i ∉ (id <$> l1)) as Hn1' by (intros Hi; by apply (Hn1 i Hi), list_elem_of_here).
  destruct (scan_fold_other now l1 s Hn1') as (H1 & H2 & H3). set (s1 := foldl _ s l1) in *. clearbody s1.
  destruct (scan_fold_other now l2 (scan_task (E := E) now s1 task) Hn2) as (-> & -> & ->).
  unfold scan_task. rewrite Hen, Hsch, Hparse, Hid. cbn [negb].
  assert (∀ m m' : gmap rstr ScheduledTaskState, m !! i = m' !! i →
    (update_schedule_state m i expr sched now).1 !! i = (update_schedule_state m' i expr sched now).1 !! i
    ∧ (update_schedule_state m i expr sched now).2 = (update_schedule_state m' i expr sched now).2) as Hext.
  { intros m m' Hm. unfold update_schedule_state. rewrite Hm. cbn. split; [|done].
    case_match; [by rewrite !lookup_insert_eq|done]. }
  destruct (Hext (scheduled s1) (scheduled s) H1) as [He1 He2].
  destruct (update_schedule_state (scheduled s1) i expr sched now) as [m run].
  destruct (update_schedule_state (scheduled s) i expr sched now) as [m' run']. cbn [fst snd] in *. subst run'.
  cbn [scheduled observed due]. repeat split; [done|set_solver|]. unfold own in *.
  rewrite Hdue, filter_nil in H3. destruct run; [|done]. by rewrite filter_app, H3, filter_cons_True.
Qed.

(** A tick whose scan completes and sees the task, or one that fails on a page. *)
Definition table_has_task (rows : list Row) : Prop :=
  descending rows ∧ (∀ r t, r ∈ rows → r.2 = Some t → id t = r.1)
  ∧ ∃ task, on_schedule task ∧ (i, Some task) ∈ rows ∧ is_ok (validate_task_definition (E := E) env lib task) = true.

Definition good_tick (fuel : nat) (query : option rstr → Z → result E (list Row)) : Prop :=
  (∃ rows, table_has_task rows ∧ (length rows < fuel)%nat ∧ query = table_query rows)
  ∨ ∃ e, list_scheduled env lib fuel query = Some (Err e).

Lemma listing_nodup rows :
  descending rows → (∀ r t, r ∈ rows → r.2 = Some t → id t = r.1) →
  NoDup (id <$> listing (E := E) env lib rows).
Proof.
  intros Hd Hids. induction Hd as [|r rows Hd IH Hr]; [constructor|]. unfold listing. cbn [omap list_omap].
  assert (NoDup (id <$> listing (E := E) env lib rows)) as Hnd.
  { apply IH. intros r' t Hr'. apply Hids. by right. }
  unfold validate_scheduled_task at 1. destruct (r.2) as [t|] eqn:Ht; [|done].
  destruct (is_ok _); [|done].
  rewrite fmap_cons. constructor; [|done]. rewrite (Hids r t) by (done || by left).
  intros (t' & Hid & Ht')%list_elem_of_fmap. apply list_elem_of_omap in Ht' as (r' & Hr' & Hv).
  rewrite Forall_forall in Hr. specialize (Hr r' Hr'). unfold validate_scheduled_task in Hv.
  destruct (r'.2) as [t''|] eqn:Ht''; [|done]. destruct (is_ok _); [|done]. injection Hv as ->.
  rewrite (Hids r' t') in Hid by (done || by right). rewrite Hid, key_irrefl in Hr. done.
Qed.

Lemma scan_good fuel rows last now m :
  table_has_task rows → (length rows < fuel)%nat → m !! i = tracked last → (∀ l, last = Some l → l <= now) →
  ∃ due m', scan_due_tasks env lib fuel (table_query (E := E) rows) now m = Some (Ok due, m')
    ∧ m' !! i = tracked (Some now)
    ∧ (occurs_within last now → ∃ task, on_schedule task ∧ own due = [task]) ∧ (¬ occurs_within last now → own due = []).
Proof.
  intros (Hd & Hids & task & Hon & Hin & Hval) Hlen Hm Hle. unfold scan_due_tasks.
  rewrite scan_pages_fold. fold (list_scheduled env lib fuel (table_query (E := E) rows)).
  rewrite list_scheduled_listing by done. cbn [map_listing].
  set (tasks := listing (E := E) env lib rows). set (s0 := {| scheduled := m; observed := ∅; due := [] |}).
  assert (task ∈ tasks) as Ht.
  { apply list_elem_of_omap. exists (i, Some task). split; [done|]. cbn. by rewrite Hval. }
  destruct (scan_fold_self now tasks s0 task Hon (listing_nodup rows Hd Hids) Ht eq_refl) as (H1 & H2 & H3).
  destruct (update_tracked m last now Hm Hle) as [Hu1 Hu2]. cbn [scheduled s0] in *.
  eexists _, _. split; [done|]. split; [|split].
  - apply map_lookup_filter_Some. rewrite H1, Hu1. done.
  - intros Ho%Hu2. rewrite Ho in H3. eauto.
  - intros Ho. rewrite H3. destruct (update_schedule_state m i expr sched now).2; [|done]. by destruct Ho; apply Hu2.
Qed.

(** What the ticks must find due, given the time of the last scan that completed. *)
Fixpoint exactly_due (last : option Z) (ticks : list (Z * (option rstr → Z → result E (list Row))))
    (outcomes : list (option (result (TaskError E) (list Task)))) : Prop :=
  match ticks, outcomes with
  | [], [] => True
  | _ :: ticks, Some (Err _) :: outcomes => exactly_due last ticks outcomes
  | (now, _) :: ticks, Some (Ok due) :: outcomes =>
      (occurs_within last now → ∃ task, on_schedule task ∧ own due = [task])
      ∧ (¬ occurs_within last now → own due = [])
      ∧ exactly_due (Some now) ticks outcomes
  | _, _ => False
  end.

Lemma run_ticks_tracked fuel ticks last m :
  Forall (fun t => good_tick fuel t.2) ticks → StronglySorted Z.le (fst <$> ticks) →
  (∀ l t, last = Some l → t ∈ (fst <$> ticks) → l <= t) → m !! i = tracked last →
  exactly_due last ticks (run_ticks env lib fuel ticks m).
Proof.
  intros Hg. revert last m. induction Hg as [|[now query] ticks Hgood Hg IH]; intros last m Hs Hle Hm; [done|].
  rewrite fmap_cons in Hs, Hle. apply StronglySorted_inv in Hs as [Hs Hnow]. rewrite Forall_forall in Hnow.
  cbn [run_ticks fst snd] in *. destruct Hgood as [(rows & Htab & Hlen & ->)|[e He]].
  - destruct (scan_good fuel rows last now m Htab Hlen Hm) as (due & m' & -> & Hm' & H1 & H2).
    { intros l Hl. apply (Hle l now Hl). by left. }
    cbn [exactly_due]. split; [done|]. split; [done|]. apply IH; [done| |done]. intros l t [= <-]. apply Hnow.
  - unfold scan_due_tasks. rewrite scan_pages_fold. unfold list_scheduled in He. rewrite He. cbn [map_listing exactly_due].
    apply IH; [done| |done]. intros l t Hl Ht. apply (Hle l t Hl). by right.
Qed.
End schedule.

(** C36: the scheduler runs a task for its occurrences and for nothing else. Over
    any sequence of ticks with a clock that does not go back, in which the task
    stays enabled on the same expression while other tasks come and go and scans
    may fail on any page: a scan that completes finds the task due exactly when its
    schedule has an occurrence after the previous completed scan and up to now, and
    then once. So nothing runs on first sight, no occurrence is missed because a
    scan failed, and none is run twice. *)
Theorem schedule_exact {E : Type} `{CronLib} env lib i expr sched fuel
    (ticks : list (Z * (option rstr → Z → result E (list Row)))) :
  parse_task_schedule (E := E) expr = Ok sched →
  Forall (fun t => good_tick env lib i expr fuel t.2) ticks → StronglySorted Z.le (fst <$> ticks) →
  exactly_due i expr sched None ticks (run_ticks env lib fuel ticks ∅).
Proof. intros Hp Hg Hs. by apply run_ticks_tracked. Qed.

(** ** Selectors *)

Lemma elem_of_take_in {A} (x : A) n l : x ∈ take n l → x ∈ l.
Proof. intros Hin. rewrite <- (take_drop n l). apply elem_of_app. by left. Qed.

Lemma keep_first_elem seen l x : x ∈ keep_first seen l ↔ x ∈ l ∧ x ∉ seen.
Proof.
  revert seen. induction l as [|y l IH]; intros seen; cbn [keep_first]; [set_solver|].
  destruct (contains y seen) eqn:Hy; [apply contains_spec in Hy|apply contains_false in Hy].
  - rewrite IH, elem_of_cons. split; [tauto|]. intros [[->|?] ?]; tauto.
  - rewrite !elem_of_cons, IH, not_elem_of_cons. split; [intros [->|?]; tauto|].
    intros [[->|?] ?]; [by left|]. destruct (decide (x = y)) as [->|]; tauto.
Qed.

Lemma keep_first_nodup seen l : NoDup (keep_first seen l).
Proof.
  revert seen. induction l as [|y l IH]; intros seen; cbn [keep_first]; [constructor|].
  destruct (contains y seen); [done|]. constructor; [|done]. rewrite keep_first_elem. set_solver.
Qed.

Section selectors.
Context {E : Type} `{HashOrder} (lib : TaskLib).
Context (owned_agents : rstr → result E (list AgentSelectorRecord)) (group_agents : rstr → rstr → result E (list rstr)).

Lemma list_group_agent_ids_spec owner groups members a :
  list_group_agent_ids group_agents owner groups = Ok members →
  a ∈ members ↔ ∃ g rows, g ∈ groups ∧ group_agents g owner = Ok rows ∧ a ∈ rows.
Proof.
  unfold list_group_agent_ids. intros Hm.
  cut (a ∈ members ↔ a ∈ @nil rstr ∨ ∃ g rows, g ∈ groups ∧ group_agents g owner = Ok rows ∧ a ∈ rows); [set_solver|].
  revert Hm. generalize (@nil rstr) as acc. induction groups as [|g groups IH]; intros acc.
  - cbn. intros [= <-]. set_solver.
  - cbn. destruct (group_agents g owner) as [rows|] eqn:Hg; cbn; [|done]. intros ->%IH. rewrite elem_of_app. split.
    + intros [[?|?]|(g' & rows' & ? & ? & ?)]; [by left|right; exists g, rows; set_solver|].
      right. exists g', rows'. set_solver.
    + intros [?|(g' & rows' & Hin & Hrows & ?)]; [by left; left|]. apply elem_of_cons in Hin as [->|Hin].
      * left. right. congruence.
      * right. by exists g', rows'.
Qed.

(** The servers a selector means: those it names (as the source of the trigger,
    by id or through a group) that carry all the tags; with nothing named, those
    that carry all the tags; with no tags either, every server, unless the mode is
    [Specific]. *)
Definition named (sel : ServerSelector) (owner : rstr) (source : option rstr) (a : rstr) : Prop :=
  (source_server sel = true ∧ source = Some a) ∨ a ∈ server_ids sel
  ∨ ∃ g rows, g ∈ group_ids sel ∧ group_agents g owner = Ok rows ∧ a ∈ rows.

Definition names_any (sel : ServerSelector) : Prop :=
  source_server sel = true ∨ server_ids sel ≠ [] ∨ group_ids sel ≠ [].

Definition tagged (records : list AgentSelectorRecord) (sel : ServerSelector) (a : rstr) : Prop :=
  ∃ r, r ∈ records ∧ rec_id r = a ∧ agent_matches_tag_filters lib r (normalized_selector_tags lib sel) = true.

Definition selected (records : list AgentSelectorRecord) (sel : ServerSelector) (cover : CoverMode) (owner : rstr)
    (source : option rstr) (a : rstr) : Prop :=
  a ∈ (rec_id <$> records) ∧ a ∉ exclude_server_ids sel
  ∧ (names_any sel → named sel owner source a)
  ∧ (normalized_selector_tags lib sel ≠ [] → tagged records sel a)
  ∧ (normalized_selector_tags lib sel = [] → names_any sel ∨ cover ≠ Specific).

Lemma names_any_spec sel :
  source_server sel || negb (is_empty (server_ids sel)) || negb (is_empty (group_ids sel)) = true ↔ names_any sel.
Proof. unfold names_any. rewrite !orb_true_iff, !negb_true_iff, !is_empty_false. tauto. Qed.

Lemma named_names_any sel owner source a : named sel owner source a → names_any sel.
Proof. intros [[? _]|[Hin|(g & _ & Hin & _)]]; [by left|right; left|right; right]; intros He; rewrite He in Hin; by apply not_elem_of_nil in Hin. Qed.

Lemma candidate_source (b : bool) source owned (a : rstr) :
  a ∈ owned →
  a ∈ (if b then match source with Some s => if contains s owned then [s] else [] | None => [] end else [])
  ↔ b = true ∧ source = Some a.
Proof.
  intros Ho. destruct b; [|set_solver]. destruct source as [s|]; [|set_solver].
  destruct (contains s owned) eqn:Hs; [set_solver|]. apply contains_false in Hs. set_solver.
Qed.

Lemma tag_matched_spec records sel a :
  a ∈ (list_to_set (rec_id <$> filter (fun r => agent_matches_tag_filters lib r (normalized_selector_tags lib sel) = true)
         records) : gset rstr) ↔ tagged records sel a.
Proof.
  rewrite elem_of_list_to_set, list_elem_of_fmap. unfold tagged. split.
  - intros (r & -> & [? ?]%list_elem_of_filter). eauto.
  - intros (r & ? & <- & ?). exists r. by rewrite list_elem_of_filter.
Qed.

Lemma resolve_spec records sel cover owner source resolved :
  owned_agents owner = Ok records →
  resolve_server_ids lib owned_agents group_agents sel cover owner source = Ok resolved →
  ∃ all, NoDup all ∧ (∀ a, a ∈ all ↔ selected records sel cover owner source a)
    ∧ resolved = if bool_decide (cover = Any) then take 1 all else all.
Proof.
  intros Hrec. unfold resolve_server_ids. rewrite Hrec. cbn [from_query mbind result_bind].
  destruct (list_group_agent_ids _ _ _) as [members|] eqn:Hmem; cbn [mbind result_bind]; [|done].
  intros [= <-]. eexists. split; [apply keep_first_nodup|]. split; [|done]. intros a.
  rewrite keep_first_elem, list_elem_of_filter. set (base := _ ++ _ ++ members).
  assert (a ∈ (rec_id <$> records) → a ∈ base ↔ named sel owner source a) as Hbase.
  { intros Ho. subst base. by rewrite !elem_of_app, candidate_source, list_elem_of_filter, contains_spec,
      (list_group_agent_ids_spec _ _ _ a Hmem) by done; unfold named; tauto. }
  assert (named sel owner source a → names_any sel) as Hany by apply named_names_any.
  unfold selected. pose proof (names_any_spec sel) as Hinc. assert (a ∉ @nil rstr) by apply not_elem_of_nil.
  destruct (is_empty (normalized_selector_tags lib sel)) eqn:Ht; cbn [negb];
    [apply is_empty_spec in Ht|apply is_empty_false in Ht].
  - assert (cover ≠ Specific ↔ bool_decide (cover = All) || bool_decide (cover = Any) = true) as Hc by (by destruct cover).
    destruct (_ || negb (is_empty (group_ids sel))); cbn [negb andb].
    + assert (names_any sel) by by apply Hinc. tauto.
    + assert (¬ names_any sel) by (by intros ?%Hinc).
      destruct (bool_decide (cover = All) || bool_decide (cover = Any)); [rewrite elem_of_app|]; naive_solver.
  - destruct (_ || negb (is_empty (group_ids sel))).
    + assert (names_any sel) by by apply Hinc. rewrite list_elem_of_filter, tag_matched_spec. tauto.
    + assert (¬ names_any sel) by (by intros ?%Hinc).
      rewrite elem_of_app, hash_iter_elements, elem_of_elements, tag_matched_spec. tauto.
Qed.
(** a task runs on exactly the servers its selector means, each once, and never
    on a server its owner does not own (or whose Agent is revoked) or has excluded:
    [resolve_server_ids] returns the selected servers without duplicates, or, in
    the mode [Any], one of them when there is one. *)
Theorem resolve_exact records sel cover owner source resolved :
  owned_agents owner = Ok records →
  resolve_server_ids lib owned_agents group_agents sel cover owner source = Ok resolved →
  ∃ all, NoDup all ∧ (∀ a, a ∈ all ↔ selected records sel cover owner source a)
    ∧ resolved = if bool_decide (cover = Any) then take 1 all else all.
Proof. apply resolve_spec. Qed.
End selectors.

(** ** Targets *)

Section targets.
Context {E : Type} `{CronLib} (env : Security.Env) (lib : TaskLib).
Hypothesis Hguard : Security.allow_private_outbound env = false.

(** An address that is not blocked, bare or, for IPv6, in brackets; or a name made
    of letters, digits and hyphens that is not a local or internal one. *)
Definition safe_host (host : rstr) : Prop :=
  1 <= byte_len host <= 253 ∧ trim host = host ∧ existsb unsafe_probe_char host = false
  ∧ ((∃ ip, (Net.parse_ip host = Some ip ∨ ∃ inner v6, host = [91] ++ inner ++ [93] ∧ parse_ipv6 inner = Some v6 ∧ ip = Net.V6 v6)
          ∧ is_blocked_task_ip ip = false)
     ∨ (is_valid_task_hostname host = true ∧ is_disallowed_task_hostname host = false)).

Lemma strip_brackets host inner :
  strip_prefix_char 91 host ≫= strip_suffix_char 93 = Some inner → host = [91] ++ inner ++ [93].
Proof.
  unfold strip_prefix_char, strip_suffix_char. destruct host as [|c s]; cbn; [done|].
  destruct (c =? 91) eqn:Hc; cbn; [|done]. destruct (reverse s) as [|d r] eqn:Hr; [done|].
  destruct (d =? 93) eqn:Hd; [|done]. intros [= <-]. bool_prop. subst. f_equal.
  rewrite <- (reverse_involutive s), Hr. by rewrite reverse_cons.
Qed.

Lemma network_host_safe host : validate_task_network_host (E := E) env host = Ok () → safe_host host.
Proof.
  unfold validate_task_network_host. destruct (is_empty host); [done|]. cbn [orb].
  case_bool_decide as Htrim; [|done]. cbn [negb]. intros ([] & Hsize & ([] & Hprobe & Hh)%bind_Ok)%bind_Ok.
  unfold validate_sized_text, TASK_MAX_HOST_BYTES in Hsize. destruct (_ || _) eqn:Hb in Hsize; [done|]. bool_prop.
  unfold ensure_safe_probe_host in Hprobe. rewrite Htrim in Hprobe. destruct (is_empty host); [done|].
  destruct (starts_with [45] host); [done|]. destruct (existsb unsafe_probe_char host) eqn:Hch; [done|].
  split; [lia|]. split; [done|]. split; [done|]. rewrite Hguard in Hh. cbn [negb andb] in Hh.
  destruct (starts_with [91] host || ends_with [93] host).
  - apply bind_Ok in Hh as (inner & Hin & (v6 & Hv6 & Hb')%bind_Ok).
    destruct (strip_prefix_char 91 host ≫= strip_suffix_char 93) as [i|] eqn:Hs; [|done]. injection Hin as ->.
    destruct (parse_ipv6 inner) as [v|] eqn:Hp; [|done]. injection Hv6 as ->. apply strip_brackets in Hs.
    left. exists (Net.V6 v6). split; [right; by exists inner, v6|]. by destruct (is_blocked_task_ip (Net.V6 v6)).
  - destruct (Net.parse_ip host) as [ip|] eqn:Hp.
    + left. exists ip. split; [by left|]. by destruct (is_blocked_task_ip ip).
    + right. destruct (contains 58 host); [done|]. destruct (is_valid_task_hostname host); [|done].
      by destruct (is_disallowed_task_hostname host).
Qed.
(** What the task would contact: the targets given as its command, when it is not
    blank, and in its payload. *)
Definition commanded (task : Task) : option rstr :=
  match command task with Some v => if is_empty (trim v) then None else Some v | None => None end.

Definition target_hosts (task : Task) (payload : option json) : list rstr :=
  let given key := option_list (payload_field key payload ≫= as_str) in
  match task_type task with
  | Shell => []
  | HttpGet => (option_list (commanded task) ++ given "url"%string)
               ≫= fun url => option_list (url_parse lib url ≫= Security.host_str)
  | IcmpPing => option_list (commanded task) ++ given "host"%string
  | TcpPing => (option_list (commanded task)
                ≫= fun t => match parse_tcp_ping_host_port (E := E) t with Ok hp => [hp.1] | Err _ => [] end)
               ++ given "host"%string
  end.

Lemma check_target_ok {A} (check : A → result (TaskError E) unit) o b b' :
  check_target check o b = Ok b' → (o = None ∧ b' = b) ∨ ∃ v, o = Some v ∧ check v = Ok () ∧ b' = true.
Proof.
  destruct o as [v|]; cbn; [|intros [= <-]; by left]. intros ([] & Hv & [= <-])%bind_Ok. right. by exists v.
Qed.

Lemma str_target_ok check v : str_target (E := E) check v = Ok () → ∃ s, as_str v = Some s ∧ check s = Ok ().
Proof. unfold str_target. destruct (as_str v); cbn; [|done]. eauto. Qed.

Definition all_safe (l : list rstr) : Prop := l ≠ [] ∧ Forall safe_host l.

Lemma all_safe_one host : validate_task_network_host (E := E) env host = Ok () → all_safe [host].
Proof. intros Hh. split; [done|]. by apply Forall_singleton, network_host_safe. Qed.

Lemma http_url_safe url :
  validate_http_get_task_url (E := E) env lib url = Ok () → all_safe (option_list (url_parse lib url ≫= Security.host_str)).
Proof.
  unfold validate_http_get_task_url. intros ([] & _ & Hu)%bind_Ok. destruct (has_invalid_chars url); [done|].
  apply bind_Ok in Hu as (u & Hp & Hu). destruct (url_parse lib url) as [u'|]; [|done]. injection Hp as ->.
  destruct (negb (contains (Security.scheme u) _)); [done|].
  destruct (_ || _); [done|]. apply bind_Ok in Hu as (h & Hh & (p & _ & Hu)%bind_Ok).
  cbn [mbind option_bind]. destruct (Security.host_str u) as [h'|]; [|done]. injection Hh as ->. destruct (p =? 0); [done|].
  by apply all_safe_one.
Qed.

Lemma tcp_target_safe t :
  check_tcp_target (E := E) env t = Ok () →
  all_safe (match parse_tcp_ping_host_port (E := E) t with Ok hp => [hp.1] | Err _ => [] end).
Proof.
  unfold check_tcp_target. intros (hp & -> & ([] & Hh & _)%bind_Ok)%bind_Ok. by apply all_safe_one.
Qed.

Lemma tcp_payload_safe obj :
  check_tcp_payload (E := E) env obj = Ok () → all_safe (option_list (json_get (lit "host") obj ≫= as_str)).
Proof.
  unfold check_tcp_payload. intros (h & Hh & (p & _ & Hv)%bind_Ok)%bind_Ok.
  destruct (json_get (lit "host") obj ≫= as_str) as [h'|]; [|done]. injection Hh as ->.
  destruct (_ || _); [done|]. by apply all_safe_one.
Qed.

(** Two sources of targets of which at least one was given. *)
Lemma all_safe_app (l1 l2 : list rstr) (b1 b2 : bool) :
  (l1 = [] ∧ b1 = false ∨ all_safe l1 ∧ b1 = true) → (l2 = [] ∧ b2 = b1 ∨ all_safe l2 ∧ b2 = true) → b2 = true →
  all_safe (l1 ++ l2).
Proof.
  intros [[-> ->]|[[H1 H1'] ->]] [[-> ->]|[[H2 H2'] ->]] Hb; try done; cbn [app]; rewrite ?app_nil_r; try done.
  split; [by destruct l1|]. by apply Forall_app.
Qed.

Lemma targets_safe task :
  validate_task_target_and_payload (E := E) env lib task = Ok () → task_type task ≠ Shell →
  ∃ payload, payload_object (E := E) lib task = Ok payload ∧ all_safe (target_hosts task payload).
Proof.
  unfold validate_task_target_and_payload. intros (payload & Hpay & Hv)%bind_Ok Hty. exists payload. split; [done|].
  fold (commanded task) in Hv. unfold target_hosts. destruct (task_type task); [done| | |].
  - apply bind_Ok in Hv as (b1 & H1%check_target_ok & (b2 & H2%check_target_ok & ([] & _ & Hb)%bind_Ok)%bind_Ok).
    rewrite bind_app. apply (all_safe_app _ _ b1 b2); [| |by destruct b2].
    + destruct H1 as [[-> ->]|(url & -> & Hu & ->)]; [by left|right]. split; [|done]. cbn. rewrite app_nil_r. by apply http_url_safe.
    + destruct H2 as [[-> ->]|(v & -> & (url & Hs & Hu)%str_target_ok & ->)]; [by left|right]. split; [|done].
      cbn [mbind option_bind]. rewrite Hs. cbn. rewrite app_nil_r. by apply http_url_safe.
  - apply bind_Ok in Hv as (b1 & H1%check_target_ok & (b2 & H2%check_target_ok & ([] & _ & Hb)%bind_Ok)%bind_Ok).
    apply (all_safe_app _ _ b1 b2); [| |by destruct b2].
    + destruct H1 as [[-> ->]|(h & -> & Hh & ->)]; [by left|right]. split; [|done]. by apply all_safe_one.
    + destruct H2 as [[-> ->]|(v & -> & (h & Hs & Hh)%str_target_ok & ->)]; [by left|right]. split; [|done].
      cbn [mbind option_bind]. rewrite Hs. by apply all_safe_one.
  - apply bind_Ok in Hv as (b1 & H1%check_target_ok & (b2 & H2%check_target_ok & Hb)%bind_Ok).
    apply (all_safe_app _ _ b1 b2); [| |by destruct b2].
    + destruct H1 as [[-> ->]|(h & -> & Hh & ->)]; [by left|right]. split; [|done]. cbn. rewrite app_nil_r. by apply tcp_target_safe.
    + destruct H2 as [[Hn ->]|(obj & Hobj & Hh & ->)].
      * left. split; [|done]. destruct (payload_field "host" payload) as [v|] eqn:Hf; [|done].
        rewrite bool_decide_eq_true_2 in Hn by eauto. cbn [orb] in Hn. by rewrite Hn in Hf.
      * right. split; [|done]. assert (payload = Some obj) as -> by (by destruct (_ || _)).
        by apply tcp_payload_safe.
Qed.
End targets.

(** a task that passes validation can only reach out to public targets. While
    private targets are not allowed, an HTTP, ping or TCP task that
    [validate_task_definition] accepts names at least one target, and every host it
    names, in its command and in its payload, is an address outside the blocked
    ranges or a well-formed name that is not local or internal, with no character
    that a shell or a URL would give a meaning to. *)
Theorem validated_targets_safe {E : Type} `{CronLib} env lib task :
  Security.allow_private_outbound env = false →
  validate_task_definition (E := E) env lib task = Ok () → task_type task ≠ Shell →
  ∃ payload, payload_object (E := E) lib task = Ok payload
    ∧ target_hosts (E := E) lib task payload ≠ [] ∧ Forall safe_host (target_hosts (E := E) lib task payload).
Proof.
  intros Hguard. unfold validate_task_definition. intros ([] & _ & Hv)%bind_Ok. destruct (is_empty (trim (name task))); [done|].
  apply bind_Ok in Hv as ([] & _ & ([] & _ & ([] & _ & ([] & Ht & _)%bind_Ok)%bind_Ok)%bind_Ok).
  by apply (targets_safe env lib Hguard task).
Qed.

(** ** A concrete run *)

(** A schedule with an occurrence at every multiple of 60, for any expression. *)
#[global] Instance minutely : CronLib.
Proof.
  refine {| Schedule := unit; cron_parse _ := Some (); occurs _ t := t mod 60 = 0;
            next_after _ t := Some ((t / 60 + 1) * 60) |}.
  - intros _ t n [= <-]. split; [by rewrite Z_mod_mult|].
    pose proof (Z.div_mod t 60). pose proof (Z.mod_pos_bound t 60). split; [lia|].
    intros o Ho Hlt. pose proof (Z.div_mod o 60). assert (t / 60 < o / 60) by nia. lia.
  - done.
Defined.

Definition every_minute : @Schedule minutely := ().

Definition selector0 : ServerSelector :=
  {| server_ids := []; exclude_server_ids := [lit "b"]; group_ids := []; tag_names := []; tags := [];
     source_server := false |}.
Definition url0 : Security.Url :=
  {| Security.scheme := lit "https"; Security.username := []; Security.password := None;
     Security.host_str := Some (lit "example.com"); Security.port := None;
     Security.port_or_known_default := Some 443; Security.path := lit "/"; Security.query := None;
     Security.fragment := None |}.
Definition lib0 : TaskLib :=
  {| json_parse _ := Some (JObject []); selector_from_str _ := Some selector0; url_parse _ := Some url0;
     to_lowercase := to_ascii_lowercase |}.
Definition env0 : Security.Env := fun _ => None.
Definition task0 : Task :=
  {| id := lit "t1"; owner_user_id := lit "owner"; name := lit "backup"; task_type := Shell;
     schedule := Some (lit "* * * * *"); command := Some (lit "true"); payload_json := None; cover_mode := All;
     server_selector_json := lit "{}"; push_successful := false; notification_group_id := None;
     last_executed_at := None; last_result := None; enabled := true; created_at := []; updated_at := [] |}.
Definition http_task : Task :=
  {| id := lit "t2"; owner_user_id := lit "owner"; name := lit "probe"; task_type := HttpGet; schedule := None;
     command := Some (lit "https://example.com/"); payload_json := None; cover_mode := All;
     server_selector_json := lit "{}"; push_successful := false; notification_group_id := None;
     last_executed_at := None; last_result := None; enabled := true; created_at := []; updated_at := [] |}.
Definition rows0 : list Row := [(lit "t9", None); (lit "t1", Some task0)].
Definition ticks0 : list (Z * (option rstr → Z → result rstr (list Row))) :=
  [(0, table_query rows0); (60, fun _ _ => Err (lit "locked")); (90, table_query rows0); (100, table_query rows0)].

Lemma rows0_descending : descending rows0.
Proof. repeat constructor. Qed.

Lemma list_scheduled_complete_witness : list_scheduled (E := rstr) env0 lib0 3 (table_query rows0) = Some (Ok [task0]).
Proof. exact (list_scheduled_complete env0 lib0 3 rows0 rows0_descending ltac:(cbn; lia)). Defined.

Lemma rows0_has_task : table_has_task (E := rstr) env0 lib0 (lit "t1") (lit "* * * * *") rows0.
Proof.
  split; [apply rows0_descending|]. split.
  - intros r t Hr Ht. apply elem_of_cons in Hr as [->|Hr]; [done|]. apply elem_of_cons in Hr as [->|Hr]; [|by apply not_elem_of_nil in Hr].
    by injection Ht as <-.
  - exists task0. split; [done|]. split; [right; left|]. done.
Qed.

(** The minute that passes while a scan fails is caught up by the next one. *)
Lemma schedule_exact_witness :
  exactly_due (lit "t1") (lit "* * * * *") every_minute None ticks0 (run_ticks env0 lib0 3 ticks0 ∅)
  ∧ run_ticks env0 lib0 3 ticks0 ∅
    = [Some (Ok []); Some (Err (DbError (lit "locked"))); Some (Ok [task0]); Some (Ok [])].
Proof.
  split; [|by vm_compute]. apply (schedule_exact env0 lib0 (lit "t1") (lit "* * * * *") every_minute 3 ticks0).
  - done.
  - assert (good_tick (E := rstr) env0 lib0 (lit "t1") (lit "* * * * *") 3 (table_query rows0)) as Hgood.
    { left. exists rows0. split; [apply rows0_has_task|]. split; [cbn; lia|done]. }
    constructor; [done|]. constructor; [right; by eexists|]. constructor; [done|]. constructor; [done|]. constructor.
  - repeat constructor; cbn; lia.
Defined.

Definition record (i : rstr) : AgentSelectorRecord :=
  {| rec_id := i; rec_name := i; dashboard_metadata_json := None; last_info_json := None; last_state_json := None |}.
Definition owned0 (_ : rstr) : result rstr (list AgentSelectorRecord) := Ok [record (lit "a"); record (lit "b"); record (lit "c")].

End TasksProofs.
