(* ===== verification/DispatchProofs.v ===== *)
(** * DispatchProofs: what becomes of a dispatched task

    The row and the waiter of a run, the report of a dispatch, and who may have a
    command run where. *)

From S2P Require Import Prelude Text BTreeMap Json Externals Net Security IoStreams Alerts Tasks TasksProofs.

Module DispatchProofs.
Import Tasks TasksProofs.

(** ** Runs *)

Lemma status_roundtrip s : parse_task_status (status_text s) = s.
Proof. by destruct s. Qed.

Lemma row_roundtrip run : row_to_task_run (run_id run) (row_of_run run) = run.
Proof. destruct run. unfold row_to_task_run, row_of_run. cbn. by rewrite status_roundtrip. Qed.

(** Settling touches one row, and only while it is pending. *)
Lemma settle_other attempts reachable i j runs :
  i ≠ j → settle_cancelled_task_run attempts reachable i runs !! j = runs !! j.
Proof.
  intros Hne. revert reachable runs. induction attempts as [|n IH]; intros [|[] reachable] runs; try done; cbn [settle_cancelled_task_run].
  - cbn [settle_pending_after_cancellation]. case_match; rewrite ?IH; by rewrite lookup_alter_ne.
  - apply IH.
Qed.

Definition settled_row (row : RunRow) : Prop :=
  r_status row = failed ∧ r_error row = Some TASK_RUN_CANCELLATION_ERROR.

Lemma settle_row_pending err row : r_status row = pending → r_status (settle_row err row) = failed ∧ r_error (settle_row err row) = Some err.
Proof. intros Hp. unfold settle_row. by rewrite bool_decide_eq_true_2. Qed.

(** One attempt in time settles a pending row. *)
Lemma settle_pending attempts reachable i runs row :
  true ∈ take attempts reachable → runs !! i = Some row → r_status row = pending →
  ∃ row', settle_cancelled_task_run attempts reachable i runs !! i = Some row' ∧ settled_row row'.
Proof.
  intros Hr Hrow Hp. revert reachable Hr. induction attempts as [|n IH]; intros [|[] reachable] Hr;
    try (by apply not_elem_of_nil in Hr); cbn [settle_cancelled_task_run].
  - cbn [settle_pending_after_cancellation]. rewrite Hrow, bool_decide_eq_true_2 by done.
    exists (settle_row TASK_RUN_CANCELLATION_ERROR row). split; [by rewrite lookup_alter_eq, Hrow|]. by apply settle_row_pending.
  - apply IH. cbn [take] in Hr. apply elem_of_cons in Hr as [?|?]; done.
Qed.

Lemma settle_absent attempts reachable i runs :
  runs !! i = None → settle_cancelled_task_run attempts reachable i runs !! i = None.
Proof.
  revert reachable runs. induction attempts as [|n IH]; intros [|[] reachable] runs Hn; try done; cbn [settle_cancelled_task_run].
  - cbn [settle_pending_after_cancellation]. rewrite Hn. apply IH. by rewrite lookup_alter_eq, Hn.
  - by apply IH.
Qed.

Section dispatch.
Context {E : Type} `{UuidLib}.
Implicit Types (ae : AgentEnv E) (st : DispatchState) (task agent : rstr).

(** The cleanup runs, and reaches the database in one of its attempts. *)
Definition cleanup_works ae : Prop :=
  in_runtime ae = true ∧ true ∈ take TASK_RUN_CANCELLATION_CLEANUP_ATTEMPTS (db_reachable ae).

(** What a dispatch leaves in the table of runs. *)
Definition run_recorded ae task agent (o : option (result (TaskError E) TaskRun)) st st' : Prop :=
  (∀ j, j ≠ new_run_id ae → runs st' !! j = runs st !! j)
  ∧ match o with
    | Some (Ok run) =>
        run_id run = new_run_id ae ∧ task_id run = task ∧ server_id run = agent
        ∧ runs st' !! new_run_id ae = Some (row_of_run run) ∧ (status run = Offline → online ae = false)
    | _ => ∀ row, runs st' !! new_run_id ae = Some row → settled_row row
    end.

Lemma create_run_recorded ae task agent status delay out cut err st r st' :
  runs st !! new_run_id ae = None → (status = Offline → online ae = false) →
  create_run ae (make_run ae task agent status delay out cut err) st = (r, st') →
  run_recorded ae task agent (Some r) st st' ∧ waiters st' = waiters st.
Proof.
  intros Hnew Hoff. unfold create_run, insert_run. cbn [make_run run_id].
  destruct (db_create ae); cbn; rewrite ?Hnew; intros [= <- <-]; cbn; (split; [|done]); split; cbn.
  - intros j Hj. by rewrite lookup_insert_ne.
  - repeat split; try done. by rewrite lookup_insert_eq.
  - done.
  - by rewrite Hnew.
Qed.
Definition pending_run ae task agent : TaskRun := make_run ae task agent Offline 0 None false None.

Lemma guard_recorded ae task agent o st :
  cleanup_works ae → runs st !! new_run_id ae = Some (row_of_run (pending_run ae task agent)) →
  (∀ run, o ≠ Some (Ok run)) → run_recorded ae task agent o st (drop_armed_guard ae st).
Proof.
  intros [Hrt Hre] Hrow Ho. unfold drop_armed_guard. rewrite Hrt. split; cbn [runs set_runs].
  - intros j Hj. by apply settle_other.
  - destruct (settle_pending _ _ _ _ _ Hre Hrow eq_refl) as (row' & Hrow' & Hs).
    destruct o as [[run|]|]; [by destruct (Ho run)|..]; intros row Hr; rewrite Hr in Hrow'; by injection Hrow' as ->.
Qed.

Lemma guard_waiters ae st : waiters (drop_armed_guard ae st) = waiters st.
Proof. unfold drop_armed_guard. by case_match. Qed.

Lemma update_recorded ae task agent s delay out cut err st r st' :
  cleanup_works ae → runs st !! new_run_id ae = Some (row_of_run (pending_run ae task agent)) → s ≠ Offline →
  update_and_build_run ae (make_run ae task agent s delay out cut err) delay st = (r, st') →
  run_recorded ae task agent (Some r) st (if is_ok r then st' else drop_armed_guard ae st') ∧ waiters st' = waiters st.
Proof.
  intros Hc Hrow Hs. unfold update_and_build_run, update_result. cbn [make_run run_id].
  destruct (db_update ae); cbn; intros [= <- <-]; cbn; (split; [|done]).
  - split; cbn [runs set_runs].
    + intros j Hj. by rewrite lookup_alter_ne.
    + repeat split; try done. by rewrite lookup_alter_eq, Hrow.
  - destruct st. by apply guard_recorded.
Qed.

Lemma outcome_not_offline code : outcome_status code ≠ Offline.
Proof. unfold outcome_status. by repeat case_match. Qed.

Lemma recorded_runs ae task agent o st st1 st2 :
  (∀ j, j ≠ new_run_id ae → runs st1 !! j = runs st !! j) →
  run_recorded ae task agent o st1 st2 → run_recorded ae task agent o st st2.
Proof. intros H1 [H2 H3]. split; [|done]. intros j Hj. by rewrite H2, H1. Qed.

(** The waiter of the dispatch is gone. *)
Definition waiter_released ae st : Prop :=
  ∀ p, IoStreams.pending (waiters st) !! new_run_id ae = Some p → IoStreams.registration p ≠ new_registration ae.

Lemma drop_released ae w :
  let t := IoStreams.task_drop (new_run_id ae) (new_registration ae) w in
  ∀ p, IoStreams.pending t !! new_run_id ae = Some p → IoStreams.registration p ≠ new_registration ae.
Proof.
  cbv zeta. unfold IoStreams.task_drop. cbn [IoStreams.pending]. intros p.
  destruct (IoStreams.pending w !! new_run_id ae) as [q|] eqn:Hq.
  - destruct (IoStreams.registration q =? new_registration ae) eqn:Hg; cbn; [by rewrite lookup_delete_eq|].
    rewrite Hq. intros [= <-]. by bool_prop.
  - by rewrite Hq.
Qed.

Lemma cancel_absent i w : IoStreams.pending (IoStreams.task_cancel i w) !! i = None.
Proof. unfold IoStreams.task_cancel, IoStreams.set_pending. cbn [IoStreams.pending]. apply lookup_delete_eq. Qed.

Lemma await_reply_spec ae task agent st o st' :
  cleanup_works ae → runs st !! new_run_id ae = Some (row_of_run (pending_run ae task agent)) →
  await_reply ae task agent st = (o, st') → run_recorded ae task agent o st st' ∧ waiter_released ae st'.
Proof.
  intros Hc Hrow. unfold await_reply. set (st1 := set_waiters _ st).
  assert (runs st1 = runs st) as Hruns by done.
  pose proof (drop_released ae (during_wait ae (waiters st))) as Hdrop.
  assert (waiter_released ae st1) as Hrel by exact Hdrop.
  assert (waiter_released ae (set_waiters (IoStreams.task_cancel (new_run_id ae)) st1)) as Hcan.
  { unfold waiter_released. cbn [set_waiters waiters]. intros p. by rewrite cancel_absent. }
  assert (∀ r st2 st3, waiters st2 = waiters st3 → waiter_released ae st3 →
    waiter_released ae (if is_ok (E := TaskError E) (A := TaskRun) r then st2 else drop_armed_guard ae st2)) as Hw.
  { intros r st2 st3 He. unfold waiter_released. destruct (is_ok r); rewrite ?guard_waiters; by rewrite He. }
  destruct (waited ae) as [r elapsed| |elapsed|].
  - destruct (IoStreams.truncate_task_result_text _ _ _ _) as [r' [[t1 t2] t3]].
    destruct (update_and_build_run _ _ _ st1) as [res st2] eqn:Hu. intros [= <- <-].
    apply update_recorded in Hu as [Hu1 Hu2]; [|done|done|apply outcome_not_offline]. eauto.
  - destruct (update_and_build_run _ _ _ _) as [res st2] eqn:Hu. intros [= <- <-].
    apply update_recorded in Hu as [Hu1 Hu2]; [|done..]. eauto.
  - destruct (update_and_build_run _ _ _ _) as [res st2] eqn:Hu. intros [= <- <-].
    apply update_recorded in Hu as [Hu1 Hu2]; [|done..]. eauto.
  - intros [= <- <-]. split; [|unfold waiter_released; by rewrite guard_waiters].
    apply (guard_recorded ae task agent None st1); done.
Qed.

Lemma dispatch_agent_spec ae task cmd agent st o st' :
  cleanup_works ae → runs st !! new_run_id ae = None →
  dispatch_task_to_agent ae task cmd agent st = (o, st') →
  run_recorded ae task agent o st st' ∧ (waiters st' = waiters st ∨ waiter_released ae st').
Proof.
  intros Hc Hnew. unfold dispatch_task_to_agent. destruct (uuid_parse agent) as [a|].
  2:{ destruct (create_run _ _ st) as [r st1] eqn:Hcr. intros [= <- <-].
      apply create_run_recorded in Hcr as [? ?]; [auto|done|done]. }
  destruct (online ae) eqn:Hon; cbn [negb].
  2:{ destruct (create_run _ _ st) as [r st1] eqn:Hcr. intros [= <- <-].
      apply create_run_recorded in Hcr as [? ?]; [auto|done|done]. }
  set (st1 := set_waiters (during_send ae) _). assert (runs st1 = runs st) as Hr1 by done. cbv zeta.
  destruct (send_task ae) as [[]|e].
  - unfold create_run, insert_run. cbn [make_run run_id log_sent runs]. rewrite Hr1, Hnew.
    destruct (db_create ae) as [[]|e]; cbn [from_query fmap result_fmap].
    + intros Haw. apply await_reply_spec in Haw as [Hrec Hrel].
      * split; [|by right]. eapply recorded_runs; [|done]. intros j Hj. cbn [runs set_runs]. by rewrite lookup_insert_ne.
      * done.
      * cbn [runs set_runs]. by rewrite lookup_insert_eq.
    + intros [= <- <-]. split.
      * unfold drop_armed_guard. destruct Hc as [-> _]. split; cbn [runs set_runs set_waiters log_sent].
        -- intros j Hj. by rewrite settle_other.
        -- intros row. by rewrite settle_absent.
      * right. unfold waiter_released. cbn [set_waiters waiters]. apply drop_released.
  - destruct (create_run _ _ _) as [r st2] eqn:Hcr. intros [= <- <-].
    apply create_run_recorded in Hcr as [Hrec Hw]; [|done|done]. split.
    + destruct Hrec as [H1 H2]. by split.
    + right. unfold waiter_released. cbn [set_waiters waiters]. apply drop_released.
Qed.

(** a run never stays open. Whatever happens to one dispatch (an Agent that is
    offline, a send or a statement that fails, a reply, a disconnect, a timeout or
    the caller giving up), provided the cleanup reaches the database in one of its
    attempts: only the row of this run changes; when the dispatch returns a run, the
    row is exactly that run, and it reads as still pending only if the Agent was
    offline; otherwise the row is absent or marked failed as cancelled. And the
    dispatch leaves no waiter behind. *)
Theorem dispatch_settles_run ae task cmd agent st o st' :
  cleanup_works ae → runs st !! new_run_id ae = None →
  dispatch_task_to_agent ae task cmd agent st = (o, st') →
  run_recorded ae task agent o st st' ∧ (waiters st' = waiters st ∨ waiter_released ae st').
Proof. apply dispatch_agent_spec. Qed.
End dispatch.

(** C38: the restart of the server rewrites the outcome of runs that were over. A
    dispatch to an Agent that is offline reports an offline run and stores it as
    pending, the status of a run whose reply is awaited; when the server starts it
    takes the row for one a previous process left open and turns it into a failed
    run with another error, so the same run then reads as a failure. *)
Theorem offline_run_rewritten {E : Type} `{UuidLib} (ae : AgentEnv E) task cmd agent a st err :
  uuid_parse agent = Some a → online ae = false → db_create ae = Ok () → runs st !! new_run_id ae = None →
  ∃ run st', dispatch_task_to_agent ae task cmd agent st = (Some (Ok run), st')
    ∧ status run = Offline ∧ error run = Some (lit "agent offline")
    ∧ (row_to_task_run (run_id run) <$> runs st' !! run_id run) = Some run
    ∧ ∃ row, (settle_pending_after_restart err (runs st')).1 !! run_id run = Some row
        ∧ status (row_to_task_run (run_id run) row) = Failure ∧ error (row_to_task_run (run_id run) row) = Some err.
Proof.
  intros Ha Hoff Hdb Hnew. unfold dispatch_task_to_agent, create_run, insert_run. rewrite Ha, Hoff, Hdb.
  cbn [negb from_query make_run run_id]. rewrite Hnew. cbn [fmap result_fmap]. eexists _, _. split; [done|].
  split; [done|]. split; [done|]. cbn [run_id make_run runs set_runs]. rewrite lookup_insert_eq. split.
  { done. }
  eexists. unfold settle_pending_after_restart. cbn [fst]. rewrite lookup_fmap, lookup_insert_eq. split; [done|]. done.
Qed.

(** ** Whole tasks *)

Section agents.
Context {E : Type} `{UuidLib}.
Implicit Types (ae : AgentEnv E) (st : DispatchState).

Lemma create_run_ok ae run st r st' :
  create_run ae run st = (r, st') → sent st' = sent st ∧ ∀ run', r = Ok run' → run' = run.
Proof.
  unfold create_run. destruct (insert_run _ _ _) as [[]]; intros [= <- <-]; (split; [done|]); by intros ? [= <-].
Qed.

Lemma update_and_build_ok ae run delay st r st' :
  update_and_build_run ae run delay st = (r, st') → sent st' = sent st ∧ ∀ run', r = Ok run' → run' = run.
Proof.
  unfold update_and_build_run. destruct (update_result _ _ _ _ _ _ _ _) as [[]]; intros [= <- <-];
    (split; [done|]); by intros ? [= <-].
Qed.

Lemma guard_sent ae st : sent (drop_armed_guard ae st) = sent st.
Proof. unfold drop_armed_guard. by case_match. Qed.

Lemma guarded_sent ae st (r : result (TaskError E) TaskRun) : sent (if is_ok r then st else drop_armed_guard ae st) = sent st.
Proof. destruct (is_ok r); [done|apply guard_sent]. Qed.

Lemma await_reply_ok ae task agent st o st' :
  await_reply ae task agent st = (o, st') →
  sent st' = sent st ∧ ∀ run, o = Some (Ok run) → task_id run = task ∧ server_id run = agent.
Proof.
  unfold await_reply. destruct (waited ae) as [r elapsed| |elapsed|].
  - destruct (IoStreams.truncate_task_result_text _ _ _ _) as [r' [[t1 t2] t3]].
    destruct (update_and_build_run _ _ _ _) as [res st2] eqn:Hu. intros [= <- <-]. rewrite guarded_sent.
    apply update_and_build_ok in Hu as [-> Hu]. split; [done|]. by intros run [= ->%Hu].
  - destruct (update_and_build_run _ _ _ _) as [res st2] eqn:Hu. intros [= <- <-]. rewrite guarded_sent.
    apply update_and_build_ok in Hu as [-> Hu]. split; [done|]. by intros run [= ->%Hu].
  - destruct (update_and_build_run _ _ _ _) as [res st2] eqn:Hu. intros [= <- <-]. rewrite guarded_sent.
    apply update_and_build_ok in Hu as [-> Hu]. split; [done|]. by intros run [= ->%Hu].
  - intros [= <- <-]. by rewrite guard_sent.
Qed.

(** A dispatch sends at most its own command, to its own Agent, and reports itself. *)
Lemma dispatch_agent_ok ae task cmd agent st o st' :
  dispatch_task_to_agent ae task cmd agent st = (o, st') →
  (sent st' = sent st ∨ ∃ a, uuid_parse agent = Some a ∧ sent st' = sent st ++ [(a, new_run_id ae, cmd)])
  ∧ ∀ run, o = Some (Ok run) → task_id run = task ∧ server_id run = agent.
Proof.
  unfold dispatch_task_to_agent. destruct (uuid_parse agent) as [a|].
  2:{ destruct (create_run _ _ st) as [r st1] eqn:Hcr. intros [= <- <-]. apply create_run_ok in Hcr as [Hs Hr].
      split; [by left|]. by intros run [= ->%Hr]. }
  destruct (online ae); cbn [negb].
  2:{ destruct (create_run _ _ st) as [r st1] eqn:Hcr. intros [= <- <-]. apply create_run_ok in Hcr as [Hs Hr].
      split; [by left|]. by intros run [= ->%Hr]. }
  destruct (send_task ae) as [[]|e]; cbv zeta; destruct (create_run _ _ _) as [r st2] eqn:Hcr;
    apply create_run_ok in Hcr as [Hs Hr].
  - destruct r as [run0|e].
    + intros [Hst Hrun]%await_reply_ok. split; [|done]. right. exists a. by rewrite Hst, Hs.
    + intros [= <- <-]. split; [|done]. right. exists a. cbn [set_waiters sent]. rewrite guard_sent. cbn [set_waiters sent]. by rewrite Hs.
  - intros [= <- <-]. split; [by left|]. by intros run [= ->%Hr].
Qed.
End agents.

Section whole.
Context {E ChanRow Chan : Type} `{UuidLib, CronLib, HashOrder} (env : Security.Env) (lib : TaskLib)
  (te : TaskEnv E ChanRow Chan).

(** What [dispatch_all] sends: at most one command per target. *)
Lemma dispatch_all_sent task cmd targets st o st' :
  dispatch_all te task cmd targets st = (o, st') →
  ∃ new, sent st' = sent st ++ new ∧ (length new <= length targets)%nat
    ∧ ∀ a i c, (a, i, c) ∈ new → c = cmd ∧ ∃ agent, agent ∈ (snd <$> targets) ∧ uuid_parse agent = Some a.
Proof.
  revert st o st'. induction targets as [|[index agent] targets IH]; intros st o st'; cbn [dispatch_all].
  { intros [= <- <-]. exists []. rewrite app_nil_r. set_solver. }
  assert (∀ st1 o1 st2, dispatch_task_to_agent (agent_env te agent) task cmd agent st = (o1, st1) →
    (∃ o2, dispatch_all te task cmd targets st1 = (o2, st2)) →
    ∃ new, sent st2 = sent st ++ new ∧ (length new <= length ((index, agent) :: targets))%nat
      ∧ ∀ a i c, (a, i, c) ∈ new → c = cmd ∧ ∃ agent', agent' ∈ (snd <$> (index, agent) :: targets) ∧ uuid_parse agent' = Some a)
    as Hstep.
  { intros st1 o1 st2 [Hd _]%dispatch_agent_ok [o2 (new & Hs & Hl & Hn)%IH]. rewrite fmap_cons. cbn [length].
    destruct Hd as [Hd|(a & Ha & Hd)]; rewrite Hs, Hd.
    - exists new. split; [done|]. split; [lia|]. intros a i c (-> & ag & ? & ?)%Hn. split; [done|]. exists ag. set_solver.
    - exists ((a, new_run_id (agent_env te agent), cmd) :: new). rewrite <- app_assoc. split; [done|].
      split; [cbn; lia|]. intros a' i c [[= -> -> ->]|Hin]%elem_of_cons.
      + split; [done|]. exists agent. set_solver.
      + apply Hn in Hin as (-> & ag & ? & ?). split; [done|]. exists ag. set_solver. }
  destruct (dispatch_task_to_agent _ _ _ _ _) as [o1 st1] eqn:Hd. destruct o1 as [r|].
  - destruct (dispatch_all te task cmd targets st1) as [rs st2] eqn:Hall. intros [= <- <-]. by eapply Hstep; eauto.
  - intros [= <- <-]. eapply Hstep; [done|]. exists (dispatch_all te task cmd targets st1).1. by rewrite <- surjective_pairing.
Qed.

Lemma dispatch_all_ok task cmd targets st rs st' indexed :
  dispatch_all te task cmd targets st = (Some rs, st') → rs = Ok <$> indexed →
  (fun p : nat * TaskRun => (p.1, server_id p.2)) <$> indexed = targets
  ∧ Forall (fun p : nat * TaskRun => task_id p.2 = task) indexed.
Proof.
  revert st rs st' indexed. induction targets as [|[index agent] targets IH]; intros st rs st' indexed; cbn [dispatch_all].
  { intros [= <- <-]. by destruct indexed. }
  destruct (dispatch_task_to_agent _ _ _ _ _) as [o1 st1] eqn:Hd. destruct o1 as [r|]; [|done].
  destruct (dispatch_all te task cmd targets st1) as [[rs'|] st2] eqn:Hall; [|done]. intros [= <- <-].
  destruct indexed as [|p indexed]; [done|]. rewrite !fmap_cons. intros [= Hr Hrs].
  apply dispatch_agent_ok in Hd as [_ Hd]. destruct r as [run|]; [|done]. injection Hr as <-.
  destruct (Hd run eq_refl) as [Ht Hs]. destruct (IH _ _ _ _ Hall Hrs) as [-> Hf]. cbn [fst snd]. rewrite Hs.
  split; [done|]. by constructor.
Qed.

Lemma collect_ok (outcomes : list (result (TaskError E) (nat * TaskRun))) acc l :
  try_fold (fun out d => x ← d; Ok (out ++ [x])) outcomes acc = Ok l → ∃ l', l = acc ++ l' ∧ outcomes = Ok <$> l'.
Proof.
  revert acc. induction outcomes as [|[x|e] outcomes IH]; intros acc; cbn.
  - intros [= <-]. exists []. by rewrite app_nil_r.
  - intros (l' & -> & ->)%IH. exists (x :: l'). by rewrite <- app_assoc.
  - done.
Qed.

Lemma imap_pair_sorted (l : list rstr) n :
  StronglySorted (fun p q : nat * rstr => (p.1 <= q.1)%nat) (imap (fun i x => ((n + i)%nat, x)) l).
Proof.
  revert n. induction l as [|x l IH]; intros n; [constructor|]. cbn [imap]. constructor.
  - rewrite (imap_ext _ (fun i y => ((S n + i)%nat, y))); [apply IH|]. intros i y _. cbn. f_equal. lia.
  - apply Forall_forall. intros p (i & y & -> & _)%elem_of_lookup_imap. cbn. lia.
Qed.

Lemma sorted_back (indexed : list (nat * TaskRun)) (targets : list rstr) :
  (fun p : nat * TaskRun => (p.1, server_id p.2)) <$> indexed ≡ₚ imap pair targets →
  server_id <$> (snd <$> merge_sort by_index indexed) = targets.
Proof.
  intros Hp. set (f := fun p : nat * TaskRun => (p.1, server_id p.2)) in *.
  assert (f <$> merge_sort by_index indexed = imap pair targets) as Heq.
  { apply (StronglySorted_unique_strong (fun p q : nat * rstr => (p.1 <= q.1)%nat)).
    - intros p q Hin1 Hin2 H1' H2'. rewrite (merge_sort_Permutation by_index indexed), Hp in Hin1.
      apply elem_of_lookup_imap in Hin1 as (i & x & -> & Hi). apply elem_of_lookup_imap in Hin2 as (j & y & -> & Hj).
      cbn in *. assert (i = j) as -> by lia. congruence.
    - apply (StronglySorted_fmap f by_index); [done|].
      apply StronglySorted_merge_sort; [intros ? ? ?; unfold by_index; lia|intros ? ?; unfold by_index; lia].
    - apply (imap_pair_sorted targets 0).
    - by rewrite merge_sort_Permutation. }
  transitivity (snd <$> (f <$> merge_sort by_index indexed)); [by rewrite <- !list_fmap_compose|].
  rewrite Heq, fmap_imap. etransitivity; [apply (imap_const (fun x => x))|]. apply list_fmap_id.
Qed.

Lemma count_status_total runs :
  count_status Success runs + count_status Failure runs + count_status Offline runs + count_status Timeout runs = zlen runs.
Proof.
  unfold count_status, zlen. induction runs as [|r runs IH]; [done|]. cbn [length]. destruct (status r) eqn:Hs;
    repeat (rewrite filter_cons; rewrite Hs); repeat (case_decide; try done); cbn [length]; lia.
Qed.

Lemma prepare_dispatch_ok task source cmd targets :
  prepare_dispatch env lib te task source = Ok (cmd, targets) →
  command task = Some cmd ∧ task_type task = Shell ∧ 1 <= zlen targets <= 64
  ∧ ∃ sel, selector_from_str lib (server_selector_json task) = Some sel
      ∧ resolve_server_ids lib (owned_agents te) (group_agents te) sel (cover_mode task) (owner_user_id task) source
        = Ok targets.
Proof.
  unfold prepare_dispatch. intros (u & _ & (sel & Hsel & (cmd' & Hcmd & Hp)%bind_Ok)%bind_Ok)%bind_Ok.
  destruct (is_empty (trim cmd')) eqn:Hblank; [done|]. apply bind_Ok in Hp as (l & Hres & Hp).
  destruct (is_empty l) eqn:Hne; [done|]. unfold ensure_task_target_count_allowed in Hp.
  destruct (TASK_MAX_DISPATCH_TARGETS <? zlen l) eqn:Hmax; [done|]. injection Hp as -> ->.
  case_bool_decide as Hty; [|done]. injection Hcmd as <-. repeat split.
  - destruct (command task); [done|]. done.
  - done.
  - apply is_empty_false in Hne. destruct targets; [done|]. unfold zlen. cbn. lia.
  - unfold TASK_MAX_DISPATCH_TARGETS in Hmax. by bool_prop.
  - exists sel. destruct (selector_from_str lib (server_selector_json task)); [by injection Hsel as ->|done].
Qed.

Lemma targets_owned task source cmd targets :
  prepare_dispatch env lib te task source = Ok (cmd, targets) →
  ∃ records, owned_agents te (owner_user_id task) = Ok records ∧ ∀ a, a ∈ targets → a ∈ (rec_id <$> records).
Proof.
  intros (_ & _ & _ & sel & _ & Hr)%prepare_dispatch_ok.
  destruct (owned_agents te (owner_user_id task)) as [records|e] eqn:Ho.
  - exists records. split; [done|]. destruct (resolve_spec _ _ _ _ _ _ _ _ _ Ho Hr) as (all & _ & Hall & ->). intros a Ha.
    assert (a ∈ all) as Hin by (case_bool_decide; [by eapply elem_of_take_in|done]). apply Hall in Hin as [? _]. done.
  - unfold resolve_server_ids in Hr. by rewrite Ho in Hr.
Qed.
(** A whole dispatch sends at most the task's command, once to each target. *)
Lemma dispatch_sent task source w o w' :
  (∀ l, completion te l ≡ₚ l) →
  dispatch_task_to_agents_with_source env lib te task source w = (o, w') →
  sent (dispatch w') = sent (dispatch w)
  ∨ ∃ cmd targets new, prepare_dispatch env lib te task source = Ok (cmd, targets)
      ∧ sent (dispatch w') = sent (dispatch w) ++ new ∧ zlen new <= zlen targets
      ∧ ∀ a i c, (a, i, c) ∈ new → c = cmd ∧ ∃ agent, agent ∈ targets ∧ uuid_parse agent = Some a.
Proof.
  intros Hperm. unfold dispatch_task_to_agents_with_source.
  destruct (prepare_dispatch env lib te task source) as [[cmd targets]|] eqn:Hprep; [|intros [= <- <-]; by left].
  destruct (dispatch_all _ _ _ _ _) as [outcomes st] eqn:Hall. intros Hw.
  assert (dispatch w' = st) as ->.
  { destruct outcomes as [outcomes|]; [|by injection Hw as <- <-].
    destruct (try_fold _ outcomes []); [|by injection Hw as <- <-].
    destruct (from_query _); by injection Hw as <- <-. }
  right. apply dispatch_all_sent in Hall as (new & Hs & Hl & Hn). exists cmd, targets, new. split; [done|]. split; [done|].
  split.
  - unfold zlen. rewrite (Hperm _) in Hl. rewrite length_imap in Hl. lia.
  - intros a i c Hin. apply Hn in Hin as (-> & agent & Ha & Hu). split; [done|]. exists agent. split; [|done].
    rewrite (Hperm (imap pair targets)) in Ha. apply list_elem_of_fmap in Ha as ([k x] & -> & Hx).
    apply elem_of_lookup_imap in Hx as (j & y & [= -> ->] & Hj). by apply list_elem_of_lookup_2 in Hj.
Qed.

Lemma load_triggered_ok i owner task :
  load_triggered_task te i owner = Ok task →
  ∃ o, Alerts.nonempty_trimmed owner = Some o ∧ get_by_id te i = Ok (Some task) ∧ owner_user_id task = o.
Proof.
  unfold load_triggered_task. intros (i' & Hi & (o & Ho & (row & Hrow & (t & Ht & Hown)%bind_Ok)%bind_Ok)%bind_Ok)%bind_Ok.
  assert (i' = i) as ->.
  { unfold require_task_uuid_text in Hi. destruct (is_empty i); [done|]. destruct (negb (byte_len i =? 36)); [done|].
    apply bind_Ok in Hi as (u & _ & Hi). destruct (negb _); [done|]. by injection Hi as ->. }
  destruct (Alerts.nonempty_trimmed owner) as [o'|]; [|done]. injection Ho as ->.
  destruct (get_by_id te i) as [row'|]; [|done]. injection Hrow as ->. destruct row as [t'|]; [|done]. injection Ht as ->.
  case_bool_decide; [|done]. injection Hown as ->. eauto.
Qed.
End whole.

(** a dispatch report is the truth about the dispatch. Whatever order the
    dispatches end in: the report has one run per target server, in the order of
    the targets, each of this task; it counts every run once, so the four counts
    add up to the total, which is between 1 and 64; the same summary is what is
    stored as the task's last result; and the owner's channels are told about it
    only if something did not succeed or the task asks for successes too. *)
Theorem dispatch_report_exact {E ChanRow Chan : Type} `{UuidLib, CronLib, HashOrder} env lib (te : TaskEnv E ChanRow Chan)
    task source w rep w' :
  (∀ l, completion te l ≡ₚ l) →
  dispatch_task_to_agents_with_source env lib te task source w = (Some (Ok rep), w') →
  ∃ cmd targets, prepare_dispatch env lib te task source = Ok (cmd, targets)
    ∧ server_id <$> rep_runs rep = targets ∧ Forall (fun run => task_id run = id task) (rep_runs rep)
    ∧ rep_task_id rep = id task ∧ summary rep = summarize (rep_runs rep) (zlen targets)
    ∧ success (summary rep) + failure (summary rep) + offline (summary rep) + timeout (summary rep) = total (summary rep)
    ∧ 1 <= total (summary rep) <= 64
    ∧ executions w' !! id task = Some (finished_at te, summary_text (summary rep))
    ∧ (notified w' ≠ notified w → has_failure (summary rep) = true ∨ push_successful task = true).
Proof.
  intros Hperm. unfold dispatch_task_to_agents_with_source.
  destruct (prepare_dispatch env lib te task source) as [[cmd targets]|] eqn:Hprep; [|done].
  destruct (dispatch_all _ _ _ _ _) as [[outcomes|] st] eqn:Hall; [|done].
  destruct (try_fold _ outcomes []) as [indexed|] eqn:Hcol; [|done].
  destruct (from_query _) as [[]|]; [|done]. intros [= <- <-]. exists cmd, targets. split; [done|].
  apply collect_ok in Hcol as (l & -> & Hout). cbn [app].
  destruct (dispatch_all_ok _ _ _ _ _ _ _ _ Hall Hout) as [Hidx Htask].
  assert (server_id <$> (snd <$> merge_sort by_index l) = targets) as Hruns.
  { apply sorted_back. rewrite Hidx. apply Hperm. }
  cbn [rep_runs summary rep_task_id executions notified summarize success failure offline timeout total]. repeat split.
  - done.
  - apply Forall_fmap. by rewrite merge_sort_Permutation.
  - rewrite count_status_total, <- Hruns. unfold zlen. by rewrite !length_fmap.
  - apply prepare_dispatch_ok in Hprep as (_ & _ & ? & _). lia.
  - apply prepare_dispatch_ok in Hprep as (_ & _ & ? & _). lia.
  - by rewrite lookup_insert_eq.
  - unfold send_task_dispatch_notification. destruct (notification_group_id task); [|by rewrite app_nil_r].
    destruct (has_failure _); [by left|]. destruct (push_successful task); [by right|]. cbn. by rewrite app_nil_r.
Qed.

(** a trigger only runs commands its owner may run. When an alert (or a service
    event) of an owner starts a task, every command sent because of it is the
    command of that very task, which exists, is enabled, is a shell task and belongs
    to that owner; it goes to Agents that the owner owns and that are not revoked,
    and to at most 64 of them. *)
Theorem triggered_commands_owned {E ChanRow Chan : Type} `{UuidLib, CronLib, HashOrder} env lib (te : TaskEnv E ChanRow Chan)
    i source owner w r w' :
  (∀ l, completion te l ≡ₚ l) →
  run_triggered_task env lib te i source owner w = (r, w') →
  ∃ new, sent (dispatch w') = sent (dispatch w) ++ new ∧ zlen new <= 64
    ∧ ∀ a run cmd, (a, run, cmd) ∈ new →
        ∃ task o records, Alerts.nonempty_trimmed owner = Some o ∧ get_by_id te i = Ok (Some task)
          ∧ owner_user_id task = o ∧ enabled task = true ∧ task_type task = Shell ∧ command task = Some cmd
          ∧ owned_agents te o = Ok records
          ∧ ∃ agent, agent ∈ (rec_id <$> records) ∧ uuid_parse agent = Some a.
Proof.
  intros Hperm. unfold run_triggered_task. destruct (load_triggered_task te i owner) as [task|] eqn:Hload.
  2:{ intros [= <- <-]. exists []. rewrite app_nil_r. split; [done|]. split; [done|]. by intros ? ? ? ?%not_elem_of_nil. }
  apply load_triggered_ok in Hload as (o & Hown & Hget & Ho).
  destruct (enabled task) eqn:Hen; cbn [negb].
  2:{ intros [= <- <-]. exists []. rewrite app_nil_r. split; [done|]. split; [done|]. by intros ? ? ? ?%not_elem_of_nil. }
  destruct (dispatch_task_to_agents_with_source _ _ _ _ _ _) as [rd w1] eqn:Hd. intros [= <- <-].
  apply dispatch_sent in Hd as [Hs|(cmd & targets & new & Hprep & Hs & Hl & Hn)]; [|..|done].
  { exists []. rewrite app_nil_r. split; [done|]. split; [done|]. by intros ? ? ? ?%not_elem_of_nil. }
  pose proof (prepare_dispatch_ok _ _ _ _ _ _ _ Hprep) as (Hcmd & Hty & Hlen & _).
  destruct (targets_owned _ _ _ _ _ _ _ Hprep) as (records & Hrec & Hin).
  exists new. split; [done|]. split; [lia|]. intros a run c (-> & agent & Hag & Hu)%Hn.
  exists task, o, records. rewrite Ho in Hrec. repeat split; try done. exists agent. auto.
Qed.

(** ** A concrete dispatch *)

Definition agent0 : rstr := uuid_to_string 7.
Definition reply0 : IoStreams.TaskResult :=
  {| IoStreams.t_task_id := lit "run"; IoStreams.status := 1; IoStreams.exit_code := 0; IoStreams.stdout := lit "ok";
     IoStreams.stderr := []; IoStreams.error := []; IoStreams.started_at := 0; IoStreams.finished_at := 0;
     IoStreams.t_agent_id := [] |}.
Definition agent_env0 (on : bool) (outcome : Wait) : AgentEnv rstr :=
  {| new_run_id := lit "run"; clock := lit "now"; new_registration := 1; online := on; send_task := Ok ();
     during_send := fun w => w; during_wait := fun w => w; waited := outcome; db_create := Ok (); db_update := Ok ();
     in_runtime := true; db_reachable := [false; true] |}.
Definition state0 : DispatchState := {| runs := ∅; waiters := IoStreams.new_task_registry; sent := [] |}.

Lemma offline_run_rewritten_witness :
  ∃ run st', dispatch_task_to_agent (agent_env0 false Cancelled) (lit "t") (lit "true") agent0 state0 = (Some (Ok run), st')
    ∧ status run = Offline ∧ error run = Some (lit "agent offline")
    ∧ (row_to_task_run (run_id run) <$> runs st' !! run_id run) = Some run
    ∧ ∃ row, (settle_pending_after_restart (lit "restart") (runs st')).1 !! run_id run = Some row
        ∧ status (row_to_task_run (run_id run) row) = Failure
        ∧ error (row_to_task_run (run_id run) row) = Some (lit "restart").
Proof. apply (offline_run_rewritten (agent_env0 false Cancelled) (lit "t") (lit "true") agent0 7 state0); by vm_compute. Defined.

Definition shell_task : Task :=
  {| id := uuid_to_string 9; owner_user_id := lit "owner"; name := lit "backup"; task_type := Shell; schedule := None;
     command := Some (lit "true"); payload_json := None; cover_mode := All; server_selector_json := lit "{}";
     push_successful := false; notification_group_id := None; last_executed_at := None; last_result := None;
     enabled := true; created_at := []; updated_at := [] |}.
Definition task_env0 : TaskEnv rstr unit unit :=
  {| owned_agents := fun _ => Ok [record agent0]; group_agents := fun _ _ => Ok [];
     agent_env := fun _ => agent_env0 true (Replied reply0 12); completion := fun l => l; finished_at := lit "later";
     notified_at := lit "later"; db_last_execution := Ok (); group_channels := fun _ _ => Ok [];
     channel_of_row := Some; get_by_id := fun _ => Ok (Some shell_task) |}.
Definition world0 : TaskWorld unit := {| dispatch := state0; executions := ∅; notified := [] |}.

End DispatchProofs.
