(* ===== verification/AgentTokens.v ===== *)
(** * AgentTokens: how an Agent obtains and uses its token

    [crates/server/src/api/v1/agent_jwt.rs] and [crates/server/src/auth/jwt.rs].
    An Agent asks for a challenge with a signed request, signs the nonce it gets
    and exchanges it for a short-lived JWT. The challenges are a map shared by
    all handlers, so [get_agent_jwt] is modelled in the three parts between which
    other requests can run: the lookup under the read lock, the removal of a
    challenge found expired, and the verification that ends by consuming the
    challenge under the write lock. *)

From S2P Require Import Prelude Text Externals Auth.

Module AgentTokens.

(** ** Limits *)

Definition MAX_JWT_BYTES : Z := 4096.
Definition MIN_JWT_SECRET_BYTES : Z := 32.
Definition MIN_JWT_SECRET_DISTINCT_BYTES : Z := 4.
Definition AGENT_JWT_TTL_MINUTES : Z := 5.
Definition MAX_AGENT_JWT_LIFETIME_SECONDS : Z := 15 * 60.
Definition MAX_CLOCK_SKEW_SECONDS : Z := 60.
Definition MAX_JTI_BYTES : Z := 128.

Definition CHALLENGE_TTL_SECONDS : Z := 60.
Definition MAX_PENDING_CHALLENGES : Z := 4096.
Definition MAX_PENDING_CHALLENGES_PER_AGENT : Z := 16.
Definition AGENT_ID_TEXT_LEN : Z := 36.
Definition NONCE_HEX_LEN : Z := 64.
Definition SIGNATURE_HEX_LEN : Z := 128.
Definition CHALLENGE_REQUEST_CLOCK_SKEW_SECONDS : Z := 120.
Definition REQUEST_CHALLENGE_KEY_PREFIX : rstr := lit "request".
Definition CHALLENGE_RECORDS_PER_REQUEST : Z := 2.
Definition MAX_CHALLENGE_RECORDS_PER_AGENT : Z :=
  MAX_PENDING_CHALLENGES_PER_AGENT * CHALLENGE_RECORDS_PER_REQUEST.

(** ** Tokens: [auth/jwt.rs] *)

Record AgentClaims := { sub : rstr; exp : Z; iat : Z; jti : rstr }.

Inductive Algorithm : Type := HS256 | OtherAlgorithm.

Inductive JwtError : Type :=
| SecretTooShort | SecretPlaceholder | SecretWeak | NilAgent | SignFailed
| WireInvalid | Malformed | HeaderInvalid | UnsupportedAlgorithm | InvalidOrExpired
| SubInvalid | JtiInvalid | IatOutOfBounds | Expired | LifetimeInvalid.

Definition is_ascii (s : rstr) : bool := forallb (fun c => c <? 128) s.

Definition is_base64url_segment (segment : rstr) : bool :=
  negb (is_empty segment) && forallb (fun b => is_ascii_alphanumeric b || (b =? 45) || (b =? 95)) segment.

Definition validate_jwt_wire_format (token : rstr) : result JwtError unit :=
  if is_empty token || (MAX_JWT_BYTES <? byte_len token) || negb (is_ascii token) then Err WireInvalid else
  match split_by (Z.eqb 46) token with
  | [header; payload; signature] =>
      if negb (is_base64url_segment header) || negb (is_base64url_segment payload)
         || negb (is_base64url_segment signature)
      then Err Malformed else Ok ()
  | _ => Err Malformed
  end.

Definition weak_defaults : list rstr := lit <$>
  ["CHANGE_ME_IN_PRODUCTION"; "change-me-in-production"; "replace-with-a-long-random-secret";
   "replace-with-a-different-long-random-secret"; "replace-with-a-32-byte-random-hex-secret";
   "replace-with-a-different-32-byte-random-hex-secret"].

Definition validate_jwt_secret (secret : rstr) : result JwtError rstr :=
  let trimmed := trim secret in
  if byte_len trimmed <? MIN_JWT_SECRET_BYTES then Err SecretTooShort else
  if contains trimmed weak_defaults then Err SecretPlaceholder else
  let distinct : gset Z := list_to_set (str_bytes trimmed) in
  if Z.of_nat (size distinct) <? MIN_JWT_SECRET_DISTINCT_BYTES then Err SecretWeak else Ok trimmed.

(** The [jsonwebtoken] crate with HS256: the compact serialization of the claims,
    signed with the secret. A token it encodes is three base64url segments, short
    when the claims are; it decodes to its claims under the same secret unless it
    expired, with a leeway of 60 seconds. *)
Class JwtLib : Type := {
  jwt_encode : AgentClaims → rstr → option rstr;
  jwt_algorithm : rstr → option Algorithm;
  jwt_decode : rstr → rstr → Z → option AgentClaims;     (** token, secret, now in seconds *)
  jwt_encode_shape c s t : jwt_encode c s = Some t →
    ∃ h p g, t = h ++ [46] ++ p ++ [46] ++ g ∧ Forall (fun x => is_base64url_segment x = true) [h; p; g]
      ∧ (Forall (fun c => 32 < c < 127 ∧ c ≠ 34 ∧ c ≠ 92) (sub c ++ jti c) →
         byte_len t <= 512 + 2 * (byte_len (sub c) + byte_len (jti c)));
  jwt_encode_algorithm c s t : jwt_encode c s = Some t → jwt_algorithm t = Some HS256;
  jwt_encode_decode c s t now : jwt_encode c s = Some t →
    jwt_decode t s now = if now - MAX_CLOCK_SKEW_SECONDS <=? exp c then Some c else None;
}.

Section jwt.
Context `{UuidLib, JwtLib}.

(** [now] is the clock in nanoseconds and [token_id] the fresh UUID. *)
Definition sign_agent_jwt (agent_id : Z) (secret : rstr) (now token_id : Z) : result JwtError rstr :=
  secret ← validate_jwt_secret secret;
  if agent_id =? 0 then Err NilAgent else
  let exp := now + seconds (60 * AGENT_JWT_TTL_MINUTES) in
  let claims := {| sub := uuid_to_string agent_id; exp := timestamp exp; iat := timestamp now;
                   jti := uuid_to_string token_id |} in
  ok_or (jwt_encode claims secret) SignFailed.

Definition validate_agent_claims (claims : AgentClaims) (now : Z) : result JwtError unit :=
  if is_empty (trim (sub claims)) then Err SubInvalid else
  parsed_sub ← ok_or (uuid_parse (sub claims)) SubInvalid;
  if (parsed_sub =? 0) || negb (bool_decide (uuid_to_string parsed_sub = sub claims)) then Err SubInvalid else
  let jti := trim (jti claims) in
  if is_empty jti || (MAX_JTI_BYTES <? byte_len jti)
     || existsb (fun b => (b <? 32) || (b =? 127)) jti then Err JtiInvalid else
  if (iat claims <=? 0) || (now + MAX_CLOCK_SKEW_SECONDS <? iat claims) then Err IatOutOfBounds else
  if exp claims <=? now - MAX_CLOCK_SKEW_SECONDS then Err Expired else
  if (exp claims <=? iat claims) || (MAX_AGENT_JWT_LIFETIME_SECONDS <? exp claims - iat claims)
  then Err LifetimeInvalid else Ok ().

Definition verify_agent_jwt (token secret : rstr) (now : Z) : result JwtError AgentClaims :=
  secret ← validate_jwt_secret secret;
  validate_jwt_wire_format token ;;
  alg ← ok_or (jwt_algorithm token) HeaderInvalid;
  match alg with
  | OtherAlgorithm => Err UnsupportedAlgorithm
  | HS256 =>
      claims ← ok_or (jwt_decode token secret now) InvalidOrExpired;
      validate_agent_claims claims now ;;
      Ok claims
  end.
End jwt.

(** ** Challenges: [api/v1/agent_jwt.rs] *)

Record GetJwtChallengeRequest := {
  c_agent_id : rstr; request_nonce : rstr; request_timestamp : Z; c_signature : rstr;
}.
Record GetJwtRequest := { j_agent_id : rstr; nonce : rstr; signature : rstr }.

Inductive AppError : Type := BadRequest | Unauthorized | Forbidden | Internal.

(** What [AgentRepository::find_by_id] reads. *)
Record Agent := { public_key : rstr; revoked : bool }.

(** The [hex] crate, and [ed25519_dalek]: a verifying key from its 32 bytes, and
    the verification of a 64-byte signature of a message. *)
Class Ed25519 : Type := {
  VerifyingKey : Type;
  hex_decode : rstr → option (list Z);
  key_from_bytes : list Z → option VerifyingKey;
  ed25519_verify : VerifyingKey → list Z → list Z → bool;
}.

(** [AgentJwtChallengeStore]: the expiry of each key, in nanoseconds. *)
Abbreviation Store := (gmap rstr Z).

Definition valid_nonce_shape (n : rstr) : bool :=
  (byte_len n =? NONCE_HEX_LEN) && forallb Auth.is_ascii_hexdigit (str_bytes n).
Definition valid_signature_shape (s : rstr) : bool :=
  (byte_len s =? SIGNATURE_HEX_LEN) && forallb Auth.is_ascii_hexdigit (str_bytes s).

Section challenges.
Context {E : Type} `{UuidLib, JwtLib, Ed25519} (secret : rstr).
Implicit Types (store : Store) (agent_id now : Z) (n : rstr).

Definition parse_agent_id (s : rstr) : result AppError Z :=
  if negb (byte_len s =? AGENT_ID_TEXT_LEN) then Err BadRequest else
  parsed ← ok_or (uuid_parse s) BadRequest;
  if negb (bool_decide (uuid_to_string parsed = s)) then Err BadRequest else Ok parsed.

Definition challenge_prefix agent_id : rstr := uuid_to_string agent_id ++ lit ":".
Definition request_prefix agent_id : rstr := REQUEST_CHALLENGE_KEY_PREFIX ++ lit ":" ++ uuid_to_string agent_id ++ lit ":".
Definition challenge_key agent_id n : rstr := challenge_prefix agent_id ++ n.
Definition request_challenge_key agent_id n : rstr := request_prefix agent_id ++ n.

Definition prune_expired_challenges store now : Store := filter (fun p => now < p.2) store.

Definition pending_challenges_for_agent store agent_id : Z :=
  Z.of_nat (size (filter (fun p => starts_with (challenge_prefix agent_id) p.1 = true) store)).

Definition challenge_records_for_agent store agent_id : Z :=
  Z.of_nat (size (filter (fun p => starts_with (challenge_prefix agent_id) p.1
                                   || starts_with (request_prefix agent_id) p.1 = true) store)).

Definition purge_agent_jwt_challenges store agent_id : Store :=
  filter (fun p => negb (starts_with (challenge_prefix agent_id) p.1)
                   && negb (starts_with (request_prefix agent_id) p.1) = true) store.

Definition validate_challenge_request_shape (req : GetJwtChallengeRequest) : result AppError unit :=
  if negb (valid_nonce_shape (request_nonce req)) then Err Unauthorized else
  if negb (valid_signature_shape (c_signature req)) then Err Unauthorized else Ok ().

Definition validate_challenge_request_timestamp (request_timestamp now : Z) : result AppError unit :=
  let now := timestamp now in
  if (request_timestamp <? now - CHALLENGE_REQUEST_CLOCK_SKEW_SECONDS)
     || (now + CHALLENGE_REQUEST_CLOCK_SKEW_SECONDS <? request_timestamp)
  then Err Unauthorized else Ok ().

Definition challenge_request_signature_payload agent_id n (request_timestamp : Z) : rstr :=
  lit "xlstatus-agent-jwt-challenge:" ++ uuid_to_string agent_id ++ lit ":" ++ n ++ lit ":" ++ print_i64 request_timestamp.

Definition verify_agent_signature (public_key message signature : rstr) : result AppError unit :=
  key_bytes ← ok_or (hex_decode public_key) BadRequest;
  if negb (zlen key_bytes =? 32) then Err BadRequest else
  key ← ok_or (key_from_bytes key_bytes) BadRequest;
  signature_bytes ← ok_or (hex_decode signature) BadRequest;
  if negb (zlen signature_bytes =? 64) then Err BadRequest else
  if ed25519_verify key (str_bytes message) signature_bytes then Ok () else Err Unauthorized.

(** The Agent, if it exists and is not revoked. *)
Definition active_agent (row : result E (option Agent)) : result AppError Agent :=
  match row with
  | Err _ => Err Internal
  | Ok None => Err BadRequest
  | Ok (Some agent) => if revoked agent then Err Unauthorized else Ok agent
  end.

(** The critical section of [get_agent_jwt_challenge]: [now] is read just before
    the write lock, [fresh] is the random nonce. *)
Definition record_challenge agent_id n (fresh : rstr) now store : result AppError rstr * Store :=
  let store := prune_expired_challenges store now in
  let request_key := request_challenge_key agent_id n in
  if bool_decide (is_Some (store !! request_key)) then (Err Unauthorized, store) else
  if (MAX_PENDING_CHALLENGES <? saturating_add usize_max (Z.of_nat (size store)) CHALLENGE_RECORDS_PER_REQUEST)
     || (MAX_PENDING_CHALLENGES_PER_AGENT <=? pending_challenges_for_agent store agent_id)
     || (MAX_CHALLENGE_RECORDS_PER_AGENT
         <? saturating_add usize_max (challenge_records_for_agent store agent_id) CHALLENGE_RECORDS_PER_REQUEST)
  then (Err Forbidden, store) else
  let expires_at := now + seconds CHALLENGE_TTL_SECONDS in
  (Ok fresh, <[challenge_key agent_id fresh := expires_at]> (<[request_key := expires_at]> store)).

(** Its checks, before the lock: the Agent the request is for. *)
Definition check_challenge_request (find_by_id : Z → result E (option Agent))
    (req : GetJwtChallengeRequest) now : result AppError Z :=
  agent_id ← parse_agent_id (c_agent_id req);
  agent ← active_agent (find_by_id agent_id);
  validate_challenge_request_shape req ;;
  validate_challenge_request_timestamp (request_timestamp req) now ;;
  verify_agent_signature (public_key agent)
    (challenge_request_signature_payload agent_id (request_nonce req) (request_timestamp req)) (c_signature req) ;;
  Ok agent_id.

Definition get_agent_jwt_challenge (find_by_id : Z → result E (option Agent))
    (req : GetJwtChallengeRequest) (checked_at locked_at : Z) (fresh : rstr) store : result AppError rstr * Store :=
  match check_challenge_request find_by_id req checked_at with
  | Err e => (Err e, store)
  | Ok agent_id => record_challenge agent_id (request_nonce req) fresh locked_at store
  end.

(** [get_agent_jwt], part one: the challenge the request names, and its expiry. *)
Definition jwt_lookup (req : GetJwtRequest) store : result AppError (Z * Z) :=
  agent_id ← parse_agent_id (j_agent_id req);
  if negb (valid_nonce_shape (nonce req)) then Err Unauthorized else
  if negb (valid_signature_shape (signature req)) then Err Unauthorized else
  expires_at ← ok_or (store !! challenge_key agent_id (nonce req)) Unauthorized;
  Ok (agent_id, expires_at).

Definition consume_agent_jwt_challenge store (key : rstr) (expected_expires_at now : Z) : result AppError unit * Store :=
  match store !! key with
  | Some expires_at =>
      if expires_at =? expected_expires_at
      then if expires_at <? now then (Err Unauthorized, delete key store) else (Ok (), delete key store)
      else (Err Unauthorized, store)
  | None => (Err Unauthorized, store)
  end.

(** Part two: read the Agent the request names, check its signature of the nonce. *)
Definition jwt_verify (find_by_id : Z → result E (option Agent)) agent_id (req : GetJwtRequest) : result AppError unit :=
  agent ← active_agent (find_by_id agent_id);
  verify_agent_signature (public_key agent) (nonce req) (signature req).

(** Part three, after it: consume the challenge, sign. *)
Definition jwt_exchange (find_by_id : Z → result E (option Agent)) (req : GetJwtRequest) agent_id
    (expires_at now signed_at token_id : Z) store : result AppError rstr * Store :=
  match jwt_verify find_by_id agent_id req with
  | Err e => (Err e, store)
  | Ok _ =>
      match consume_agent_jwt_challenge store (challenge_key agent_id (nonce req)) expires_at now with
      | (Err e, store) => (Err e, store)
      | (Ok _, store) =>
          (match sign_agent_jwt agent_id secret signed_at token_id with Ok jwt => Ok jwt | Err _ => Err Internal end, store)
      end
  end.

(** The whole handler. [looked] is the store under the first lock and [store] the
    one under the last, between which other requests run; [checked_at], [now] and
    [signed_at] are its three readings of the clock. *)
Definition get_agent_jwt (find_by_id : Z → result E (option Agent)) (req : GetJwtRequest) (looked : Store)
    (checked_at now signed_at token_id : Z) store : result AppError rstr * Store :=
  match jwt_lookup req looked with
  | Err e => (Err e, store)
  | Ok (agent_id, expires_at) =>
      if expires_at <? checked_at then (Err Unauthorized, delete (challenge_key agent_id (nonce req)) store)
      else jwt_exchange find_by_id req agent_id expires_at now signed_at token_id store
  end.

(** ** The handlers, interleaved *)

(** A [get_agent_jwt] that found its challenge, with whether it was expired. *)
Record Flight := { f_req : GetJwtRequest; f_agent : Z; f_expires : Z; f_stale : bool }.

Record ChallengeState := {
  challenges : Store;
  flights : gmap Z Flight;
  offered : list (Z * rstr * Z);    (** Agent, nonce and expiry of every challenge issued *)
  consumed : list (Z * rstr * Z);   (** Agent, nonce and time of every exchange that consumed its challenge *)
}.

Definition new_challenge_state : ChallengeState :=
  {| challenges := ∅; flights := ∅; offered := []; consumed := [] |}.

Definition set_challenges (s : Store) (st : ChallengeState) : ChallengeState :=
  {| challenges := s; flights := flights st; offered := offered st; consumed := consumed st |}.
Definition set_flights f (st : ChallengeState) : ChallengeState :=
  {| challenges := challenges st; flights := f (flights st); offered := offered st; consumed := consumed st |}.

Inductive challenge_step (st : ChallengeState) : ChallengeState → Prop :=
| step_offer agent_id n fresh now s :
    uuid_ok agent_id → valid_nonce_shape fresh = true → fresh ∉ ((fun o => o.1.2) <$> offered st) →
    record_challenge agent_id n fresh now (challenges st) = (Ok fresh, s) →
    challenge_step st {| challenges := s; flights := flights st;
                         offered := offered st ++ [(agent_id, fresh, now + seconds CHALLENGE_TTL_SECONDS)];
                         consumed := consumed st |}
| step_refuse agent_id n fresh now e s :
    record_challenge agent_id n fresh now (challenges st) = (Err e, s) →
    challenge_step st (set_challenges s st)
| step_lookup i req agent_id expires_at now :
    flights st !! i = None → jwt_lookup req (challenges st) = Ok (agent_id, expires_at) →
    challenge_step st (set_flights <[i := {| f_req := req; f_agent := agent_id; f_expires := expires_at;
                                             f_stale := expires_at <? now |}]> st)
| step_stale i f :
    flights st !! i = Some f → f_stale f = true →
    challenge_step st (set_challenges (delete (challenge_key (f_agent f) (nonce (f_req f))) (challenges st))
                         (set_flights (delete i) st))
| step_reject i f find_by_id e :
    flights st !! i = Some f → f_stale f = false → jwt_verify find_by_id (f_agent f) (f_req f) = Err e →
    challenge_step st (set_flights (delete i) st)
| step_consume i f find_by_id now r s :
    flights st !! i = Some f → f_stale f = false → jwt_verify find_by_id (f_agent f) (f_req f) = Ok () →
    consume_agent_jwt_challenge (challenges st) (challenge_key (f_agent f) (nonce (f_req f))) (f_expires f) now = (r, s) →
    challenge_step st
      {| challenges := s; flights := delete i (flights st); offered := offered st;
         consumed := consumed st ++ (if is_ok r then [(f_agent f, nonce (f_req f), now)] else []) |}
| step_purge agent_id :
    challenge_step st (set_challenges (purge_agent_jwt_challenges (challenges st) agent_id) st).

Definition challenge_reachable (st : ChallengeState) : Prop := rtc challenge_step new_challenge_state st.
End challenges.

End AgentTokens.
