(* ===== verification/AgentTokensProofs.v ===== *)
(** * AgentTokensProofs: one challenge, one token

    The keys of the challenge store, the limits it keeps, the refinement of an
    abstract store of one-time tickets, what an exchange requires, and the life of
    a token. *)

From S2P Require Import Prelude Text Externals Auth AgentTokens.

Module AgentTokensProofs.
Import AgentTokens.

(** ** Keys *)

Section keys.
Context `{UuidLib}.
Implicit Types (a b : Z) (n m : rstr).

Lemma starts_with_app (p s : rstr) : starts_with p (p ++ s) = true.
Proof. apply bool_decide_eq_true_2. by exists s. Qed.

Lemma prefix_eq (p q s t : rstr) : length p = length q → p ++ s = q ++ t → p = q ∧ s = t.
Proof. intros Hl. by apply app_inj_1. Qed.

Lemma challenge_prefix_length a : length (challenge_prefix a) = 37%nat.
Proof. unfold challenge_prefix. by rewrite length_app, uuid_text_length. Qed.

Lemma challenge_prefix_inj a b : uuid_ok a → uuid_ok b → challenge_prefix a = challenge_prefix b → a = b.
Proof.
  intros Ha Hb He. apply prefix_eq in He as [He _]; [|by rewrite !uuid_text_length]. by apply uuid_to_string_inj.
Qed.

Lemma challenge_key_inj a b n m :
  uuid_ok a → uuid_ok b → challenge_key a n = challenge_key b m → a = b ∧ n = m.
Proof.
  intros Ha Hb He. apply prefix_eq in He as [He ->]; [|by rewrite !challenge_prefix_length].
  split; [|done]. by apply challenge_prefix_inj.
Qed.

Lemma starts_with_challenge a b n :
  uuid_ok a → uuid_ok b → starts_with (challenge_prefix a) (challenge_key b n) = true → a = b.
Proof.
  intros Ha Hb [s He]%bool_decide_eq_true. symmetry in He. unfold challenge_key in He.
  apply prefix_eq in He as [He _]; [|by rewrite !challenge_prefix_length]. by apply challenge_prefix_inj.
Qed.

(** The keys of requests and of challenges never meet: a UUID has no letter r. *)
Lemma challenge_not_request a b s t : challenge_prefix a ++ s ≠ request_prefix b ++ t.
Proof.
  intros He. unfold challenge_prefix, request_prefix in He.
  destruct (uuid_to_string a) as [|c u] eqn:Hu; [by apply uuid_to_string_nonempty in Hu|].
  assert (c ∈ uuid_to_string a) as Hc by (rewrite Hu; left). apply uuid_text_hex in Hc.
  cbn in He. injection He as -> _. vm_compute in Hc. naive_solver.
Qed.

Lemma request_no_challenge a b n : starts_with (challenge_prefix a) (request_challenge_key b n) = false.
Proof.
  apply bool_decide_eq_false. intros [s He]. symmetry in He. by apply challenge_not_request in He.
Qed.

Lemma challenge_no_request a b n : starts_with (request_prefix a) (challenge_key b n) = false.
Proof. apply bool_decide_eq_false. intros [s He]. by apply challenge_not_request in He. Qed.

Lemma starts_with_request a b n :
  uuid_ok a → uuid_ok b → starts_with (request_prefix a) (request_challenge_key b n) = true → a = b.
Proof.
  intros Ha Hb [s He]%bool_decide_eq_true. unfold request_challenge_key, request_prefix in He. rewrite <- !app_assoc in He.
  apply app_inv_head in He. apply app_inv_head in He. symmetry in He.
  apply prefix_eq in He as [He _]; [|by rewrite !uuid_text_length]. by apply uuid_to_string_inj.
Qed.
End keys.

(** ** Limits *)

Section limits.
Context {E : Type} `{UuidLib, JwtLib, Ed25519}.
Implicit Types (s : Store) (a b : Z).

(** What the store never exceeds. *)
Definition within_limits s : Prop :=
  Z.of_nat (size s) <= MAX_PENDING_CHALLENGES
  ∧ ∀ a, uuid_ok a →
      pending_challenges_for_agent s a <= MAX_PENDING_CHALLENGES_PER_AGENT
      ∧ challenge_records_for_agent s a <= MAX_CHALLENGE_RECORDS_PER_AGENT.

Lemma size_filter_sub (P : rstr * Z → Prop) `{!∀ p, Decision (P p)} s s' :
  s ⊆ s' → (size (filter P s) <= size (filter P s'))%nat.
Proof. intros Hs. apply map_subseteq_size. by apply map_filter_subseteq_mono. Qed.

Lemma within_limits_sub s s' : s ⊆ s' → within_limits s' → within_limits s.
Proof.
  intros Hs [H1' H2']. split.
  - pose proof (map_subseteq_size _ _ Hs). lia.
  - intros a Ha. destruct (H2' a Ha) as [Hp Hr]. unfold pending_challenges_for_agent, challenge_records_for_agent in *.
    split; (etransitivity; [|eassumption]); apply inj_le, size_filter_sub, Hs.
Qed.

Lemma within_limits_empty : within_limits ∅.
Proof.
  split; [done|]. intros a _. unfold pending_challenges_for_agent, challenge_records_for_agent.
  by rewrite !map_filter_empty, map_size_empty.
Qed.

Lemma size_filter_insert (P : rstr * Z → Prop) `{!∀ p, Decision (P p)} s k v :
  (size (filter P (<[k := v]> s)) <= size (filter P s) + (if decide (P (k, v)) then 1 else 0))%nat.
Proof.
  case_decide as Hp.
  - rewrite map_filter_insert_True by done. rewrite map_size_insert. case_match; unfold Datatypes.id; lia.
  - rewrite map_filter_insert_False by done. rewrite Nat.add_0_r. apply size_filter_sub, delete_subseteq.
Qed.

Lemma record_challenge_limits a n fresh now s r s' :
  uuid_ok a → within_limits s → record_challenge a n fresh now s = (r, s') → within_limits s'.
Proof.
  intros Ha Hlim. unfold record_challenge. set (s0 := prune_expired_challenges s now).
  assert (within_limits s0) as Hlim0 by (eapply within_limits_sub; [apply map_filter_subseteq|done]).
  clearbody s0. case_bool_decide as Hused; [by intros [= <- <-]|].
  destruct (_ || _) eqn:Hfull; [by intros [= <- <-]|]. intros [= <- <-].
  unfold MAX_PENDING_CHALLENGES, MAX_PENDING_CHALLENGES_PER_AGENT, MAX_CHALLENGE_RECORDS_PER_AGENT,
    CHALLENGE_RECORDS_PER_REQUEST, MAX_PENDING_CHALLENGES_PER_AGENT, saturating_add in Hfull.
  change usize_max with 18446744073709551615 in Hfull.
  bool_prop. destruct Hlim0 as [Hsize Hper]. split.
  - unfold MAX_PENDING_CHALLENGES. assert (∀ m : Store, ∀ k v, (size (<[k := v]> m) <= S (size m))%nat) as Hins.
    { intros m k v. rewrite map_size_insert. case_match; unfold Datatypes.id; lia. }
    pose proof (Hins s0 (request_challenge_key a n) (now + seconds CHALLENGE_TTL_SECONDS)).
    pose proof (Hins (<[request_challenge_key a n := now + seconds CHALLENGE_TTL_SECONDS]> s0) (challenge_key a fresh)
      (now + seconds CHALLENGE_TTL_SECONDS)). lia.
  - intros b Hb. destruct (Hper b Hb) as [Hp Hr].
    unfold pending_challenges_for_agent, challenge_records_for_agent in *.
    set (P := fun p : rstr * Z => starts_with (challenge_prefix b) p.1 = true) in *.
    set (Q := fun p : rstr * Z => starts_with (challenge_prefix b) p.1 || starts_with (request_prefix b) p.1 = true) in *.
    set (e := now + _).
    pose proof (size_filter_insert P (<[request_challenge_key a n := e]> s0) (challenge_key a fresh) e) as HP1.
    pose proof (size_filter_insert P s0 (request_challenge_key a n) e) as HP2.
    pose proof (size_filter_insert Q (<[request_challenge_key a n := e]> s0) (challenge_key a fresh) e) as HQ1.
    pose proof (size_filter_insert Q s0 (request_challenge_key a n) e) as HQ2.
    rewrite decide_False in HP2 by (subst P; cbn [fst]; by rewrite request_no_challenge).
    destruct (decide (a = b)) as [->|Hne].
    + assert (∀ c : bool, (if c then 1 else 0) <= 1)%nat by (intros []; lia).
      unfold MAX_PENDING_CHALLENGES_PER_AGENT, MAX_CHALLENGE_RECORDS_PER_AGENT, MAX_PENDING_CHALLENGES_PER_AGENT,
        CHALLENGE_RECORDS_PER_REQUEST.
      subst P Q. repeat case_decide; lia.
    + rewrite decide_False in HP1 by (subst P; cbn [fst]; intros Hc%starts_with_challenge; done).
      rewrite decide_False in HQ1.
      2:{ subst Q. cbn [fst]. rewrite challenge_no_request, orb_false_r. intros Hc%starts_with_challenge; done. }
      rewrite decide_False in HQ2.
      2:{ subst Q. cbn [fst]. rewrite request_no_challenge. cbn [orb]. intros Hc%starts_with_request; done. }
      lia.
Qed.
End limits.

(** ** One-time tickets: the specification

    What the challenges are meant to be: tickets of an Agent with a number that is
    given out once, each good for one use until it expires, and that may be lost. *)

Record Tickets := {
  issued : gmap rstr (Z * Z);       (** number: Agent and expiry *)
  open : gmap (Z * rstr) Z;
  used : list (Z * rstr * Z);       (** Agent, number and time of use *)
}.

Definition no_tickets : Tickets := {| issued := ∅; open := ∅; used := [] |}.

Inductive ticket_step (t : Tickets) : Tickets → Prop :=
| ticket_issue a n e :
    issued t !! n = None →
    ticket_step t {| issued := <[n := (a, e)]> (issued t); open := <[(a, n) := e]> (open t); used := used t |}
| ticket_use a n e now :
    open t !! (a, n) = Some e → now <= e →
    ticket_step t {| issued := issued t; open := delete (a, n) (open t); used := used t ++ [(a, n, now)] |}
| ticket_lose o : o ⊆ open t → ticket_step t {| issued := issued t; open := o; used := used t |}.

Definition tickets_ok (t : Tickets) : Prop :=
  (∀ a n e, open t !! (a, n) = Some e → issued t !! n = Some (a, e) ∧ (a, n) ∉ (fst <$> used t))
  ∧ (∀ a n now, (a, n, now) ∈ used t → ∃ e, issued t !! n = Some (a, e) ∧ now <= e)
  ∧ NoDup (fst <$> used t).

Lemma tickets_ok_step t t' : ticket_step t t' → tickets_ok t → tickets_ok t'.
Proof.
  intros Hstep (Ho & Hu & Hn). destruct Hstep as [a n e Hnew|a n e now Hopen Hle|o Hsub]; split; cbn [issued open used].
  - intros b m e'. destruct (decide ((b, m) = (a, n))) as [[= -> ->]|Hne].
    + rewrite !lookup_insert_eq. intros [= <-]. split; [done|]. intros ([[? ?] now] & [= <- <-] & Hin)%list_elem_of_fmap.
      apply Hu in Hin as (e'' & Hi & _). by rewrite Hnew in Hi.
    + rewrite lookup_insert_ne by done. intros Hb. destruct (Ho _ _ _ Hb) as [Hi ?]. split; [|done].
      rewrite lookup_insert_ne; [done|]. intros ->. by rewrite Hnew in Hi.
  - split; [|done]. intros b m now Hin. destruct (Hu _ _ _ Hin) as (e' & Hi & ?). exists e'. split; [|done].
    rewrite lookup_insert_ne; [done|]. intros ->. by rewrite Hnew in Hi.
  - intros b m e'. destruct (decide ((b, m) = (a, n))) as [[= -> ->]|Hne]; [by rewrite lookup_delete_eq|].
    rewrite lookup_delete_ne by done. intros Hb. destruct (Ho _ _ _ Hb) as [Hi Hnot]. split; [done|].
    rewrite fmap_app, elem_of_app. intros [?|Hin]; [done|]. by apply list_elem_of_singleton in Hin.
  - destruct (Ho _ _ _ Hopen) as [Hi Hnot]. split.
    + intros b m now' Hin. apply elem_of_app in Hin as [Hin|Hin]; [by apply Hu|].
      apply list_elem_of_singleton in Hin as [= -> -> ->]. by exists e.
    + rewrite fmap_app. apply NoDup_app. split; [done|]. split; [|by apply NoDup_singleton].
      intros x Hx Hin. apply list_elem_of_singleton in Hin as ->. done.
  - intros b m e' Hb. apply Ho. by eapply lookup_weaken.
  - done.
Qed.

Lemma tickets_reachable_ok t : rtc ticket_step no_tickets t → tickets_ok t.
Proof.
  intros Hr. assert (tickets_ok no_tickets) as H0.
  { split; [|split]; cbn; [by intros ? ? ?; rewrite lookup_empty|by intros ? ? ? ?%not_elem_of_nil|constructor]. }
  revert H0. induction Hr as [|x y z Hxy _ IH]; [done|]. intros Hx. apply IH. by eapply tickets_ok_step.
Qed.

(** ** The store refines it *)

Section refinement.
Context {E : Type} `{UuidLib, JwtLib, Ed25519}.
Implicit Types (st : ChallengeState) (t : Tickets).

Record represents st t : Prop := {
  rep_open : ∀ a n e, uuid_ok a → challenges st !! challenge_key a n = Some e ↔ open t !! (a, n) = Some e;
  rep_ok : ∀ a n e, open t !! (a, n) = Some e → uuid_ok a;
  rep_issued : ∀ a n e, issued t !! n = Some (a, e) ↔ (a, n, e) ∈ offered st;
  rep_used : used t = consumed st;
  rep_flights : ∀ i f, flights st !! i = Some f → uuid_ok (f_agent f);
}.

(** Dropping keys from the store loses tickets. *)
Lemma represents_lose st t s fl :
  represents st t → s ⊆ challenges st → fl ⊆ flights st →
  ∃ t', ticket_step t t' ∧ represents {| challenges := s; flights := fl; offered := offered st; consumed := consumed st |} t'.
Proof.
  intros [H1' H2' H3' H4' H5'] Hs Hfl.
  exists {| issued := issued t; open := filter (fun p => s !! challenge_key p.1.1 p.1.2 = Some p.2) (open t); used := used t |}.
  split; [constructor; apply map_filter_subseteq|]. split; cbn [challenges flights offered consumed issued open used]; try done.
  - intros a n e Ha. rewrite map_lookup_filter_Some. cbn [fst snd]. rewrite <- H1' by done. split; [|tauto].
    intros He. split; [|done]. by eapply lookup_weaken.
  - intros a n e [Ho _]%map_lookup_filter_Some. by eapply H2'.
  - intros i f Hf. eapply H5', lookup_weaken; done.
Qed.

Lemma represents_offer st t a n e s0 rk :
  represents st t → uuid_ok a → s0 ⊆ challenges st → (∀ b m, challenge_key b m ≠ rk) →
  n ∉ ((fun o => o.1.2) <$> offered st) →
  ∃ t', rtc ticket_step t t'
    ∧ represents {| challenges := <[challenge_key a n := e]> (<[rk := e]> s0); flights := flights st;
                    offered := offered st ++ [(a, n, e)]; consumed := consumed st |} t'.
Proof.
  intros Hrep Ha Hs Hrk Hfresh. destruct (represents_lose st t s0 (flights st) Hrep Hs) as (t1 & Hstep & [H1' H2' H3' H4' H5']); [done|].
  assert (issued t1 !! n = None) as Hnew.
  { destruct (issued t1 !! n) as [[b e']|] eqn:Hi; [|done]. apply H3' in Hi. destruct Hfresh.
    apply list_elem_of_fmap. by exists (b, n, e'). }
  eexists. split; [eapply rtc_l; [exact Hstep|]; apply rtc_once, (ticket_issue t1 a n e Hnew)|].
  split; cbn [challenges flights offered consumed issued open used] in *; try done.
  - intros b m e' Hb. destruct (decide ((b, m) = (a, n))) as [[= -> ->]|Hne]; [by rewrite !lookup_insert_eq|].
    rewrite !lookup_insert_ne; [by apply H1'|done|auto|].
    intros Hk. apply challenge_key_inj in Hk as [-> ->]; done.
  - intros b m e'. destruct (decide ((b, m) = (a, n))) as [[= -> ->]|Hne]; [done|]. rewrite lookup_insert_ne by done. apply H2'.
  - intros b m e'. rewrite elem_of_app, list_elem_of_singleton, <- H3'. destruct (decide (m = n)) as [->|Hne].
    + rewrite lookup_insert_eq, Hnew. naive_solver.
    + rewrite lookup_insert_ne by done. naive_solver.
Qed.

Lemma represents_use st t a n e now fl :
  represents st t → uuid_ok a → challenges st !! challenge_key a n = Some e → now <= e → fl ⊆ flights st →
  ∃ t', ticket_step t t'
    ∧ represents {| challenges := delete (challenge_key a n) (challenges st); flights := fl;
                    offered := offered st; consumed := consumed st ++ [(a, n, now)] |} t'.
Proof.
  intros [H1' H2' H3' H4' H5'] Ha Hk Hle Hfl. apply H1' in Hk as Hopen; [|done].
  eexists. split; [by apply (ticket_use t a n e now)|].
  split; cbn [challenges flights offered consumed issued open used]; try done.
  - intros b m e' Hb. destruct (decide ((b, m) = (a, n))) as [[= -> ->]|Hne]; [by rewrite !lookup_delete_eq|].
    rewrite !lookup_delete_ne; [by apply H1'|done|]. intros Hkk. apply challenge_key_inj in Hkk as [-> ->]; done.
  - intros b m e' [_ Hb]%lookup_delete_Some. by eapply H2'.
  - by rewrite H4'.
  - intros i f Hf. eapply H5', lookup_weaken; done.
Qed.

Lemma record_challenge_ok a n fresh now s s' :
  record_challenge a n fresh now s = (Ok fresh, s') →
  s' = <[challenge_key a fresh := now + seconds CHALLENGE_TTL_SECONDS]>
         (<[request_challenge_key a n := now + seconds CHALLENGE_TTL_SECONDS]> (prune_expired_challenges s now)).
Proof. unfold record_challenge. case_bool_decide; [done|]. destruct (_ || _); [done|]. by intros [= <-]. Qed.

Lemma record_challenge_err a n fresh now s e s' :
  record_challenge a n fresh now s = (Err e, s') → s' ⊆ s.
Proof.
  unfold record_challenge. case_bool_decide; [|destruct (_ || _); [|done]]; intros [= _ <-]; apply map_filter_subseteq.
Qed.

Lemma consume_sub s k e now r s' : consume_agent_jwt_challenge s k e now = (r, s') → s' ⊆ s.
Proof. unfold consume_agent_jwt_challenge. repeat case_match; intros [= _ <-]; done || apply delete_subseteq. Qed.

Lemma parse_agent_id_ok s a : parse_agent_id s = Ok a → uuid_ok a ∧ uuid_to_string a = s.
Proof.
  unfold parse_agent_id. destruct (negb _); [done|]. intros (u & Hu & Ha)%bind_Ok.
  destruct (uuid_parse s) as [u'|] eqn:Hp; [|done]. injection Hu as ->. case_bool_decide; [|done].
  injection Ha as ->. split; [by eapply uuid_parse_ok|done].
Qed.

(** Every step of the handlers is a step of the specification, or none, or two. *)
Lemma challenge_simulation st st' t :
  represents st t → challenge_step (E := E) st st' → ∃ t', rtc ticket_step t t' ∧ represents st' t'.
Proof.
  intros Hrep Hstep. destruct Hstep as [a n fresh now s Ha Hshape Hfresh Hrec|a n fresh now e s Hrec|i req a e now Hnone Hlook
    |i f Hf Hstale|i f row e Hf Hstale Hv|i f row now r s Hf Hstale Hv Hcon|a].
  - apply record_challenge_ok in Hrec as ->. apply (represents_offer st t); [done|done|apply map_filter_subseteq| |done].
    intros b m Hk. by apply challenge_not_request in Hk.
  - apply record_challenge_err in Hrec. destruct (represents_lose st t s (flights st) Hrep Hrec) as (t' & ? & ?); [done|].
    exists t'. split; [by apply rtc_once|done].
  - exists t. split; [done|]. destruct Hrep as [H1' H2' H3' H4' H5']. split; try done. cbn [set_flights flights].
    intros j f. rewrite lookup_insert_Some. intros [[<- <-]|[_ Hj]]; [|by eapply H5']. cbn [f_agent].
    unfold jwt_lookup in Hlook. apply bind_Ok in Hlook as (a' & Hp & Hl). destruct (negb _); [done|]. destruct (negb _); [done|].
    apply bind_Ok in Hl as (e' & _ & [= <- _]). by apply parse_agent_id_ok in Hp as [? _].
  - destruct (represents_lose st t (delete (challenge_key (f_agent f) (nonce (f_req f))) (challenges st)) (delete i (flights st)) Hrep)
      as (t' & ? & ?); [apply delete_subseteq..|]. exists t'. split; [by apply rtc_once|done].
  - destruct (represents_lose st t (challenges st) (delete i (flights st)) Hrep) as (t' & ? & ?); [done|apply delete_subseteq|].
    exists t'. split; [by apply rtc_once|done].
  - unfold consume_agent_jwt_challenge in Hcon. destruct (challenges st !! _) as [e|] eqn:Hk.
    + destruct (e =? f_expires f) eqn:He.
      * destruct (e <? now) eqn:Hexp; injection Hcon as <- <-; cbn [is_ok]; rewrite ?app_nil_r.
        -- destruct (represents_lose st t (delete (challenge_key (f_agent f) (nonce (f_req f))) (challenges st)) (delete i (flights st)) Hrep)
             as (t' & ? & ?); [apply delete_subseteq..|]. exists t'. split; [by apply rtc_once|done].
        -- bool_prop. destruct (represents_use st t _ _ e now (delete i (flights st)) Hrep (rep_flights _ _ Hrep i f Hf) Hk)
             as (t' & ? & ?); [done|apply delete_subseteq|]. exists t'. split; [by apply rtc_once|done].
      * injection Hcon as <- <-. cbn [is_ok]. rewrite app_nil_r.
        destruct (represents_lose st t (challenges st) (delete i (flights st)) Hrep) as (t' & ? & ?); [done|apply delete_subseteq|].
        exists t'. split; [by apply rtc_once|done].
    + injection Hcon as <- <-. cbn [is_ok]. rewrite app_nil_r.
      destruct (represents_lose st t (challenges st) (delete i (flights st)) Hrep) as (t' & ? & ?); [done|apply delete_subseteq|].
      exists t'. split; [by apply rtc_once|done].
  - destruct (represents_lose st t (purge_agent_jwt_challenges (challenges st) a) (flights st) Hrep) as (t' & ? & ?);
      [apply map_filter_subseteq|done|]. exists t'. split; [by apply rtc_once|done].
Qed.

Lemma represents_init : represents new_challenge_state no_tickets.
Proof.
  split; cbn; intros *; rewrite ?lookup_empty; try done. split; [done|]. by intros ?%not_elem_of_nil.
Qed.

Lemma challenge_refinement st :
  challenge_reachable (E := E) st → ∃ t, rtc ticket_step no_tickets t ∧ represents st t.
Proof.
  unfold challenge_reachable. revert st. refine (rtc_ind_r _ _ _ _).
  - exists no_tickets. split; [done|apply represents_init].
  - intros st st' _ Hstep (t & Ht & Hrep). destruct (challenge_simulation st st' t Hrep Hstep) as (t' & Ht' & Hrep').
    exists t'. split; [by etransitivity|done].
Qed.

(** C28: the challenge store implements one-time tickets: however the handlers of
    any number of requests interleave, every reachable state of the store and of
    the requests in flight represents a state that the abstract ticket system
    reaches, whose open tickets are exactly the challenges in the store and whose
    uses are exactly the exchanges that consumed a challenge. *)
Theorem challenges_refine_tickets st :
  challenge_reachable (E := E) st → ∃ t, rtc ticket_step no_tickets t ∧ represents st t.
Proof. apply challenge_refinement. Qed.

(** a challenge buys at most one token, and only in time: in every reachable
    state no challenge of an Agent was consumed twice, and each one consumed had
    been issued to that very Agent and had not expired when it was consumed. *)
Theorem challenge_consumed_once st :
  challenge_reachable (E := E) st →
  NoDup (fst <$> consumed st)
  ∧ ∀ a n now, (a, n, now) ∈ consumed st → ∃ e, (a, n, e) ∈ offered st ∧ now <= e.
Proof.
  intros (t & Ht & Hrep)%challenge_refinement. apply tickets_reachable_ok in Ht as (_ & Hu & Hn).
  rewrite <- (rep_used _ _ Hrep). split; [done|]. intros a n now (e & Hi & Hle)%Hu. exists e.
  split; [by apply (rep_issued _ _ Hrep)|done].
Qed.

(** the store of challenges is bounded whatever the Agents send: in every
    reachable state it holds at most 4096 keys in all, at most 16 open challenges
    and at most 32 keys of any one Agent. *)
Theorem challenge_limits_invariant st :
  challenge_reachable (E := E) st → within_limits (challenges st).
Proof.
  unfold challenge_reachable. revert st. refine (rtc_ind_r _ _ _ _); [apply within_limits_empty|].
  intros st st' _ Hstep Hlim. destruct Hstep as [a n fresh now s Ha Hshape Hfresh Hrec|a n fresh now e s Hrec|i req a e now Hnone Hlook
    |i f Hf Hstale|i f row e Hf Hstale Hv|i f row now r s Hf Hstale Hv Hcon|a]; cbn [challenges set_challenges set_flights]; try done.
  - by eapply record_challenge_limits.
  - eapply within_limits_sub; [by eapply record_challenge_err|done].
  - eapply within_limits_sub; [apply delete_subseteq|done].
  - eapply within_limits_sub; [by eapply consume_sub|done].
  - eapply within_limits_sub; [apply map_filter_subseteq|done].
Qed.
End refinement.

(** ** Tokens *)

Section tokens.
Context {E : Type} `{UuidLib, JwtLib, Ed25519} (secret : rstr).
Implicit Types (store : Store).

Lemma base64url_no_dot x : is_base64url_segment x = true → Forall (fun d => Z.eqb 46 d = false) x.
Proof.
  intros [_ Hx]%andb_prop. apply Forall_forall. intros c Hc.
  apply list_elem_of_In, (proj1 (forallb_forall _ _) Hx) in Hc. apply Z.eqb_neq. intros <-. by vm_compute in Hc.
Qed.

Lemma base64url_ascii x : is_base64url_segment x = true → is_ascii x = true.
Proof.
  intros [_ Hx]%andb_prop. apply forallb_forall. intros c Hc. pose proof (proj1 (forallb_forall _ _) Hx c Hc) as Hb.
  cbn in Hb. unfold is_ascii_alphanumeric, is_ascii_digit, is_ascii_upper, is_ascii_lower in Hb.
  apply Z.ltb_lt. bool_prop. lia.
Qed.

(** A token of [sign_agent_jwt] has the wire format that [verify_agent_jwt] wants. *)
Lemma encoded_wire c s token a b :
  jwt_encode c s = Some token → sub c = uuid_to_string a → jti c = uuid_to_string b →
  validate_jwt_wire_format token = Ok ().
Proof.
  intros Henc Ha Hb. destruct (jwt_encode_shape _ _ _ Henc) as (h & p & g & -> & Hseg & Hlen).
  apply Forall_cons in Hseg as [Hh [Hp [Hg _]%Forall_cons]%Forall_cons].
  rewrite Ha, Hb, !uuid_text_len in Hlen. unfold validate_jwt_wire_format.
  replace (is_empty _) with false by (destruct h; done).
  rewrite (proj2 (Z.ltb_ge _ _)).
  2:{ unfold MAX_JWT_BYTES. etransitivity; [apply Hlen|lia]. apply Forall_app.
      split; apply Forall_forall; intros c' Hc%uuid_text_hex; lia. }
  replace (is_ascii _) with true.
  2:{ symmetry. unfold is_ascii. rewrite !forallb_app. fold (is_ascii h) (is_ascii p) (is_ascii g).
      by rewrite (base64url_ascii h), (base64url_ascii p), (base64url_ascii g). }
  cbn [orb negb]. replace (h ++ [46] ++ p ++ [46] ++ g) with (join [46] [h; p; g]) by (cbn; by rewrite ?app_nil_r).
  rewrite split_by_join_pred; [|done|done|by repeat constructor; apply base64url_no_dot].
  by rewrite Hh, Hp, Hg.
Qed.

Lemma uuid_jti_valid b :
  is_empty (uuid_to_string b) || (MAX_JTI_BYTES <? byte_len (uuid_to_string b))
  || existsb (fun b => (b <? 32) || (b =? 127)) (uuid_to_string b) = false.
Proof.
  repeat (apply orb_false_iff; split).
  - pose proof (uuid_to_string_nonempty b). by destruct (uuid_to_string b).
  - rewrite uuid_text_len. done.
  - apply not_true_iff_false. intros (c & Hc & Hb)%existsb_exists. apply list_elem_of_In, uuid_text_chars in Hc. bool_prop. lia.
Qed.

(** What [verify_agent_jwt] makes of such a token, second by second. *)
Definition token_verdict (c : AgentClaims) (now : Z) : result JwtError AgentClaims :=
  if exp c + MAX_CLOCK_SKEW_SECONDS <? now then Err InvalidOrExpired else
  if now <? iat c - MAX_CLOCK_SKEW_SECONDS then Err IatOutOfBounds else
  if now =? exp c + MAX_CLOCK_SKEW_SECONDS then Err Expired else Ok c.

Lemma signed_verdict a now token_id token :
  uuid_ok a → 0 < timestamp now → sign_agent_jwt a secret now token_id = Ok token →
  ∃ c, sub c = uuid_to_string a ∧ jti c = uuid_to_string token_id ∧ iat c = timestamp now ∧ exp c = timestamp now + 300
    ∧ ∀ at', verify_agent_jwt token secret at' = token_verdict c at'.
Proof.
  intros Ha Hnow. unfold sign_agent_jwt. intros (key & Hkey & Hs)%bind_Ok. destruct (a =? 0) eqn:Hz; [done|].
  destruct (jwt_encode _ _) as [t|] eqn:Henc in Hs; [|done]. injection Hs as ->.
  set (c := {| sub := uuid_to_string a |}) in *. pose proof (encoded_wire _ _ _ _ _ Henc eq_refl eq_refl) as Hwire.
  assert (exp c = timestamp now + 300) as Hexp.
  { cbn [exp c]. unfold timestamp, seconds, AGENT_JWT_TTL_MINUTES. rewrite Z.div_add by done. lia. }
  exists c. do 3 (split; [done|]). split; [done|]. intros at'. unfold verify_agent_jwt, token_verdict. rewrite Hkey. cbn [mbind result_bind].
  rewrite Hwire. cbn [mbind result_bind]. rewrite (jwt_encode_algorithm _ _ _ Henc). cbn [ok_or mbind result_bind].
  rewrite (jwt_encode_decode _ _ _ _ Henc). unfold MAX_CLOCK_SKEW_SECONDS.
  destruct (_ <=? exp c) eqn:Hle; bool_prop; [|rewrite (proj2 (Z.ltb_lt _ _)) by lia; done].
  rewrite (proj2 (Z.ltb_ge (exp c + 60) _)) by lia. cbn [ok_or mbind result_bind].
  replace (validate_agent_claims c at') with
    (if at' <? iat c - 60 then Err IatOutOfBounds else if at' =? exp c + 60 then Err Expired else Ok () : result JwtError unit);
    [by repeat case_match|].
  unfold validate_agent_claims. cbn [sub jti c]. rewrite !uuid_to_string_trim, uuid_roundtrip by done. cbn [ok_or mbind result_bind].
  rewrite (proj2 (Z.eqb_neq a 0) Hz), bool_decide_eq_true_2 by done. cbn [orb negb]. rewrite uuid_jti_valid.
  replace (is_empty (uuid_to_string a)) with false by (pose proof (uuid_to_string_nonempty a); by destruct (uuid_to_string a)).
  fold c. cbn [iat c] in *. unfold MAX_CLOCK_SKEW_SECONDS, MAX_AGENT_JWT_LIFETIME_SECONDS. rewrite Hexp in *.
  rewrite (proj2 (Z.leb_gt (timestamp now) 0)) by lia. cbn [orb].
  rewrite (proj2 (Z.leb_gt (timestamp now + 300) (timestamp now))), (proj2 (Z.ltb_ge 900 _)) by lia. cbn [orb].
  repeat case_match; bool_prop; try done; lia.
Qed.

(** A signature [verify_agent_signature] accepts. *)
Definition signed_by (public_key message signature : rstr) : Prop :=
  ∃ kb key sb, hex_decode public_key = Some kb ∧ zlen kb = 32 ∧ key_from_bytes kb = Some key
    ∧ hex_decode signature = Some sb ∧ zlen sb = 64 ∧ ed25519_verify key (str_bytes message) sb = true.

Lemma verify_agent_signature_Ok k m s : verify_agent_signature k m s = Ok () ↔ signed_by k m s.
Proof.
  unfold verify_agent_signature, signed_by. split.
  - intros (kb & Hkb & Hr)%bind_Ok. destruct (zlen kb =? 32) eqn:Hl; [|done]. apply bind_Ok in Hr as (key & Hkey & Hr).
    apply bind_Ok in Hr as (sb & Hsb & Hr). destruct (zlen sb =? 64) eqn:Hs; [|done]. bool_prop.
    destruct (ed25519_verify _ _ _) eqn:Hv; [|done]. apply ok_or_Ok in Hkb, Hkey, Hsb. by exists kb, key, sb.
  - intros (kb & key & sb & -> & Hl & Hk & -> & Hs & Hv). cbn [ok_or mbind result_bind].
    rewrite Hl, Hk. cbn [ok_or mbind result_bind Z.eqb Pos.eqb negb]. by rewrite Hs, Hv.
Qed.

Lemma active_agent_Ok (row : result E (option Agent)) agent :
  active_agent row = Ok agent ↔ row = Ok (Some agent) ∧ revoked agent = false.
Proof.
  split; [|by intros [-> Hr]; cbn; rewrite Hr].
  destruct row as [[x|]|]; cbn; [destruct (revoked x) eqn:?; [done|]; by intros [= <-]|done..].
Qed.

(** When [token_verdict] accepts: from a minute before the token was signed to a
    minute after it expires. *)
Lemma token_verdict_Ok c now c' :
  token_verdict c now = Ok c' ↔ c' = c ∧ iat c - 60 <= now < exp c + 60.
Proof.
  unfold token_verdict, MAX_CLOCK_SKEW_SECONDS. split.
  - repeat case_match; bool_prop; try done. intros [= <-]. split; [done|lia].
  - intros [-> Hin]. repeat case_match; bool_prop; try done; lia.
Qed.

(** What [jwt_lookup] finds is filed under the Agent the request spells. *)
Lemma jwt_lookup_Ok req store a e :
  jwt_lookup req store = Ok (a, e) →
  uuid_ok a ∧ uuid_to_string a = j_agent_id req ∧ store !! challenge_key a (nonce req) = Some e.
Proof.
  intros (a' & [Ha Htext]%parse_agent_id_ok & Hl)%bind_Ok. destruct (negb _); [done|]. destruct (negb _); [done|].
  by apply bind_Ok in Hl as (e' & Hk%ok_or_Ok & [= -> ->]).
Qed.

(** What [jwt_verify] demands. *)
Lemma jwt_verify_Ok (find_by_id : Z → result E (option Agent)) a req :
  jwt_verify find_by_id a req = Ok () →
  ∃ agent, find_by_id a = Ok (Some agent) ∧ revoked agent = false ∧ signed_by (public_key agent) (nonce req) (signature req).
Proof.
  intros (agent & [Hrow Hrev]%active_agent_Ok & Hsig%verify_agent_signature_Ok)%bind_Ok. by exists agent.
Qed.

(** C29: [get_agent_jwt] grants a token only to the Agent the challenge was for: when
    it answers with one, the text of the request's Agent id is the Agent [a] whose
    row [find_by_id a] is there, not revoked, and whose registered key verifies the
    signature of the nonce; the challenge of [a] and that nonce was in the store at
    the first look and was still there with the same expiry, not reached, when it
    was consumed; it is gone afterwards while every other key stays. The claims of
    the token name that Agent, are issued at the time of signing and expire five
    minutes later, and [verify_agent_jwt] yields them in exactly the seconds from
    60 before the signing to 60 after the expiry, the clock skew it allows. *)
Theorem agent_jwt_granted (find_by_id : Z → result E (option Agent)) req looked checked_at now signed_at token_id store jwt store' :
  0 < timestamp signed_at →
  get_agent_jwt secret find_by_id req looked checked_at now signed_at token_id store = (Ok jwt, store') →
  ∃ a, uuid_ok a ∧ uuid_to_string a = j_agent_id req
    ∧ (∃ agent, find_by_id a = Ok (Some agent) ∧ revoked agent = false
                ∧ signed_by (public_key agent) (nonce req) (signature req))
    ∧ (∃ e, looked !! challenge_key a (nonce req) = Some e ∧ store !! challenge_key a (nonce req) = Some e
            ∧ checked_at <= e ∧ now <= e)
    ∧ store' = delete (challenge_key a (nonce req)) store
    ∧ ∃ c, sub c = j_agent_id req ∧ iat c = timestamp signed_at ∧ exp c = iat c + 5 * 60
        ∧ ∀ at' c', verify_agent_jwt jwt secret at' = Ok c' ↔ c' = c ∧ iat c - 60 <= at' < exp c + 60.
Proof.
  intros Hpos. unfold get_agent_jwt. destruct (jwt_lookup req looked) as [[a e]|] eqn:Hlook; [|done].
  apply jwt_lookup_Ok in Hlook as (Ha & Htext & Hfound). destruct (e <? checked_at) eqn:Hchk; [done|].
  unfold jwt_exchange. destruct (jwt_verify _ _ _) as [[]|] eqn:Hv; [|done]. apply jwt_verify_Ok in Hv.
  unfold consume_agent_jwt_challenge. destruct (store !! _) as [e0|] eqn:Hk; [|done].
  destruct (e0 =? e) eqn:He; [|done]. destruct (e0 <? now) eqn:Hnow; [done|]. bool_prop. subst e0.
  destruct (sign_agent_jwt a secret signed_at token_id) as [t|] eqn:Hsign; [|done]. intros [= -> <-].
  destruct (signed_verdict _ _ _ _ Ha Hpos Hsign) as (c & Hsub & _ & Hiat & Hexp & Hver).
  exists a. do 3 (split; [done|]). split; [by exists e|]. split; [done|].
  exists c. split; [congruence|]. split; [done|]. split; [lia|]. intros at' c'. rewrite Hver. apply token_verdict_Ok.
Qed.

(** The signed request for a challenge is remembered for 60 seconds but its
    timestamp stays acceptable for 120: the very same request is answered again. *)
Lemma record_challenge_again a n fresh now s s' now' fresh' :
  record_challenge a n fresh now s = (Ok fresh, s') → now + seconds CHALLENGE_TTL_SECONDS <= now' →
  ∃ s'', record_challenge a n fresh' now' s' = (Ok fresh', s'') ∨ record_challenge a n fresh' now' s' = (Err Forbidden, s'').
Proof.
  intros ->%record_challenge_ok Hlater. unfold record_challenge. rewrite bool_decide_eq_false_2; [case_match; eauto|].
  intros [e He]. apply map_lookup_filter_Some in He as [He Hlt]. cbn [snd] in Hlt.
  rewrite lookup_insert_ne in He; [rewrite lookup_insert_eq in He; injection He as <-; lia|].
  by intros Hk%challenge_not_request.
Qed.
End tokens.

(** ** Witnesses *)

(** A token library: the claims in the clear, and the secret as its signature. *)
Definition plain (x : rstr) : bool := is_base64url_segment x && forallb (fun c => negb (c =? 95)) x && (zlen x <=? 64).
Definition plain_claims (c : AgentClaims) : bool :=
  plain (sub c) && plain (jti c) && (0 <=? exp c) && (exp c <? 2 ^ 64) && (0 <=? iat c) && (iat c <? 2 ^ 64).
Definition plain_encode (c : AgentClaims) (s : rstr) : option rstr :=
  if plain_claims c && plain s
  then Some (join (lit ".") [lit "HS256"; join (lit "_") [sub c; jti c; hex_digits 16 (exp c); hex_digits 16 (iat c)]; s])
  else None.
Definition plain_decode (t s : rstr) (now : Z) : option AgentClaims :=
  match split_by (Z.eqb 46) t with
  | [_; p; g] =>
      if bool_decide (g = s) then
        match split_by (Z.eqb 95) p with
        | [a; b; e; i] =>
            e ← hex_value 0 e; i ← hex_value 0 i;
            if now - MAX_CLOCK_SKEW_SECONDS <=? e then Some {| sub := a; jti := b; exp := e; iat := i |} else None
        | _ => None
        end
      else None
  | _ => None
  end.

Lemma plain_no_sep x c : plain x = true → c = 46 ∨ c = 95 → Forall (fun d => Z.eqb c d = false) x.
Proof.
  unfold plain. intros Hx Hc. bool_prop. destruct Hc as [->| ->]; [by apply base64url_no_dot|].
  apply Forall_forall. intros d Hd%list_elem_of_In. assert (negb (d =? 95) = true) as Hn; [|bool_prop; apply Z.eqb_neq; lia].
  match goal with Hf : forallb _ x = true |- _ => exact (proj1 (forallb_forall _ _) Hf d Hd) end.
Qed.

Lemma hex_no_sep n u c : c = 46 ∨ c = 95 → Forall (fun d => Z.eqb c d = false) (hex_digits n u).
Proof. intros Hc. eapply Forall_impl; [apply hex_digits_range|]. intros d Hd. apply Z.eqb_neq. cbn in Hd. lia. Qed.

Definition payload_of (c : AgentClaims) : rstr := join (lit "_") [sub c; jti c; hex_digits 16 (exp c); hex_digits 16 (iat c)].

Lemma segment_app x y : is_base64url_segment x = true → is_base64url_segment y = true → is_base64url_segment (x ++ lit "_" ++ y) = true.
Proof.
  unfold is_base64url_segment. intros [Hx Hx']%andb_prop [_ Hy']%andb_prop. rewrite !forallb_app, Hx', Hy'.
  by destruct x.
Qed.

Lemma segment_hex n u : is_base64url_segment (hex_digits (S n) u) = true.
Proof.
  unfold is_base64url_segment. apply andb_true_intro. split.
  - pose proof (hex_digits_length (S n) u). by destruct (hex_digits (S n) u).
  - apply forallb_forall. intros c Hc%list_elem_of_In.
    pose proof (proj1 (Forall_forall _ _) (hex_digits_range (S n) u) c Hc) as Hr. cbn in Hr.
    unfold is_ascii_alphanumeric, is_ascii_digit, is_ascii_upper, is_ascii_lower.
    destruct Hr as [Hr|Hr]; rewrite ?orb_true_iff, ?andb_true_iff, ?Z.leb_le; lia.
Qed.

Lemma payload_segment c : plain_claims c = true → is_base64url_segment (payload_of c) = true.
Proof.
  unfold plain_claims, plain. intros. bool_prop. unfold payload_of. rewrite !join_cons by done. cbn [join].
  by repeat apply segment_app; try done; apply segment_hex.
Qed.

Lemma segment_len x : is_base64url_segment x = true → byte_len x = zlen x.
Proof.
  intros Hx%base64url_ascii. apply byte_len_ascii, Forall_forall. intros c Hc%list_elem_of_In.
  apply Z.ltb_lt. exact (proj1 (forallb_forall _ _) Hx c Hc).
Qed.

Lemma plain_len c s :
  plain_claims c = true → plain s = true → byte_len (lit "HS256" ++ [46] ++ payload_of c ++ [46] ++ s) <= 512.
Proof.
  intros Hc Hs. pose proof (payload_segment c Hc) as Hp. unfold plain_claims, plain in *. bool_prop.
  rewrite !byte_len_app, (segment_len (payload_of c)), (segment_len s) by done.
  unfold payload_of. rewrite !join_cons by done. cbn [join].
  unfold zlen in *. rewrite !length_app, !hex_digits_length.
  change (length (lit "_")) with 1%nat. change (byte_len (lit "HS256")) with 5. change (byte_len [46]) with 1. lia.
Qed.

#[local] Instance plain_jwt : JwtLib.
Proof.
  refine {| jwt_encode := plain_encode; jwt_decode := plain_decode;
            jwt_algorithm := fun t => if starts_with (lit "HS256.") t then Some HS256 else None |}.
  - intros c s t. unfold plain_encode. destruct (_ && _) eqn:Hok; [|done]. intros Ht%(inj Some). subst t. apply andb_prop in Hok as [Hc Hs].
    exists (lit "HS256"), (payload_of c), s. split; [done|].
    pose proof (payload_segment c Hc) as Hp. unfold plain_claims, plain in *. bool_prop.
    split; [by repeat constructor|]. intros _.
    etransitivity; [apply (plain_len c s); by unfold plain_claims, plain; rewrite ?andb_true_iff, ?Z.leb_le, ?Z.ltb_lt|].
    pose proof (byte_len_nonneg (sub c)). pose proof (byte_len_nonneg (jti c)). lia.
  - intros c s t. unfold plain_encode. destruct (_ && _); [|done]. intros Ht%(inj Some). subst t. unfold starts_with.
    rewrite bool_decide_eq_true_2; [done|]. rewrite join_cons by done. by eexists.
  - intros c s t now. unfold plain_encode. destruct (_ && _) eqn:Hok; [|done]. intros Ht%(inj Some). subst t. apply andb_prop in Hok as [Hc Hs].
    pose proof (payload_segment c Hc) as Hp. unfold plain_decode. fold (payload_of c).
    change (lit ".") with [46].
    rewrite split_by_join_pred; [|done|done|].
    2:{ repeat constructor; [by apply base64url_no_dot|apply plain_no_sep; [done|by left]]. }
    rewrite bool_decide_eq_true_2 by done. unfold payload_of. unfold plain_claims in Hc. bool_prop.
    change (lit "_") with [95]. rewrite split_by_join_pred; [|done|done|].
    2:{ rewrite !Forall_cons. repeat split; try (apply plain_no_sep; [done|by right]); try (apply hex_no_sep; by right). done. }
    rewrite !hex_value_digits by done. change (16 ^ Z.of_nat 16) with (2 ^ 64).
    rewrite !Z.mul_0_r, !Z.add_0_l, !Z.mod_small by done. cbn [mbind option_bind]. by destruct c.
Defined.

(** A signature scheme: the key, then the first 32 bytes of the message. *)
#[local] Instance echo_scheme : Ed25519 := {|
  VerifyingKey := list Z; hex_decode := hex_bytes; key_from_bytes := Some;
  ed25519_verify k m s := bool_decide (s = k ++ take 32 m);
|}.

Definition key0 : list Z := repeat 7 32.
Definition agent0 : Agent := {| public_key := hex_of key0; revoked := false |}.
Definition nonce0 : rstr := repeat 97 64.
Definition nonce1 : rstr := repeat 98 64.
Definition secret0 : rstr := lit "0123456789abcdef0123456789abcdef".
Definition t0 : Z := seconds 1700000000.
Definition find0 (a : Z) : result unit (option Agent) := Ok (if a =? 5 then Some agent0 else None).
Definition challenge_req0 : GetJwtChallengeRequest :=
  {| c_agent_id := uuid_to_string 5; request_nonce := nonce0; request_timestamp := 1700000100;
     c_signature := hex_of (key0 ++ take 32 (str_bytes (challenge_request_signature_payload 5 nonce0 1700000100))) |}.
Definition jwt_req0 : GetJwtRequest :=
  {| j_agent_id := uuid_to_string 5; nonce := nonce1; signature := hex_of (key0 ++ take 32 (str_bytes nonce1)) |}.
Definition store0 : Store := (record_challenge 5 nonce0 nonce1 t0 ∅).2.
Definition store1 : Store := (consume_agent_jwt_challenge store0 (challenge_key 5 nonce1) (t0 + seconds 60) (t0 + seconds 10)).2.

(** A pair whose first component is known. *)
Lemma pair_of {A B} (p : A * B) a : p.1 = a → p = (a, p.2).
Proof. destruct p. by intros <-. Qed.

(** One challenge issued, looked up and consumed. *)
Definition offered0 : ChallengeState := {| challenges := store0; flights := ∅; offered := [(5, nonce1, t0 + seconds 60)]; consumed := [] |}.
Definition flight0 : Flight := {| f_req := jwt_req0; f_agent := 5; f_expires := t0 + seconds 60; f_stale := false |}.
Definition consumed0 : ChallengeState :=
  {| challenges := store1; flights := delete 1 {[1 := flight0]};
     offered := [(5, nonce1, t0 + seconds 60)]; consumed := [(5, nonce1, t0 + seconds 10)] |}.

Lemma consumed0_reachable : challenge_reachable (E := unit) consumed0.
Proof.
  assert (record_challenge 5 nonce0 nonce1 t0 ∅ = (Ok nonce1, store0)) as Hoffer by (apply pair_of; vm_compute; reflexivity).
  assert (jwt_lookup jwt_req0 store0 = Ok (5, t0 + seconds 60)) as Hlook by (vm_compute; reflexivity).
  assert (consume_agent_jwt_challenge store0 (challenge_key 5 nonce1) (t0 + seconds 60) (t0 + seconds 10) = (Ok (), store1))
    as Hcon by (apply pair_of; vm_compute; reflexivity).
  assert (jwt_verify find0 5 jwt_req0 = Ok ()) as Hver by (vm_compute; reflexivity).
  assert (uuid_ok 5) as H5 by (unfold uuid_ok; lia).
  pose proof (step_offer (E := unit) new_challenge_state 5 nonce0 nonce1 t0 store0 H5 eq_refl (not_elem_of_nil _) Hoffer) as S1.
  pose proof (step_lookup (E := unit) offered0 1 jwt_req0 5 (t0 + seconds 60) t0 eq_refl Hlook) as S2.
  pose proof (step_consume (set_flights <[1 := flight0]> offered0) 1 flight0 find0 (t0 + seconds 10) (Ok ()) _
             eq_refl eq_refl Hver Hcon) as S3.
  exact (rtc_l _ _ _ _ S1 (rtc_l _ _ _ _ S2 (rtc_once _ _ S3))).
Qed.

Lemma challenges_refine_tickets_witness :
  ∃ t, rtc ticket_step no_tickets t ∧ represents consumed0 t ∧ used t = [(5, nonce1, t0 + seconds 10)].
Proof.
  destruct (challenges_refine_tickets (E := unit) consumed0 consumed0_reachable) as (t & Ht & Hrep).
  exists t. split; [exact Ht|]. split; [exact Hrep|]. rewrite (rep_used _ _ Hrep). reflexivity.
Defined.

Definition token0 : result JwtError rstr := sign_agent_jwt 5 secret0 t0 9.

Lemma agent_jwt_granted_witness :
  ∃ jwt, (get_agent_jwt secret0 find0 jwt_req0 store0 t0 (t0 + seconds 10) (t0 + seconds 10) 9 store0).1 = Ok jwt
    ∧ ∃ c, sub c = uuid_to_string 5 ∧ verify_agent_jwt jwt secret0 (timestamp t0 + 309) = Ok c
        ∧ verify_agent_jwt jwt secret0 (timestamp t0 + 370) ≠ Ok c.
Proof.
  set (r := get_agent_jwt _ _ _ _ _ _ _ _ _).
  assert (is_ok r.1 = true) as [jwt Hjwt]%is_ok_true by (vm_compute; reflexivity). exists jwt. split; [exact Hjwt|].
  apply pair_of in Hjwt.
  assert (0 < timestamp (t0 + seconds 10)) as Hpos by (vm_compute; reflexivity).
  assert (timestamp (t0 + seconds 10) = timestamp t0 + 10) as Ht by (vm_compute; reflexivity).
  destruct (agent_jwt_granted secret0 find0 jwt_req0 store0 t0 (t0 + seconds 10) (t0 + seconds 10) 9 store0 jwt _ Hpos Hjwt)
    as (a & _ & _ & _ & _ & _ & c & Hs & Hi & He & Hv). exists c. split; [rewrite Hs; vm_compute; reflexivity|]. split.
  - apply (Hv (timestamp t0 + 309) c). split; [reflexivity|lia].
  - intros Hbad. apply (Hv (timestamp t0 + 370) c) in Hbad. lia.
Defined.

(** The signed request of an Agent that was answered at [t0] is answered again a
    minute later, with another challenge. *)
Example challenge_request_replayed :
  let r := get_agent_jwt_challenge find0 challenge_req0 t0 t0 nonce1 ∅ in
  r.1 = Ok nonce1
  ∧ (get_agent_jwt_challenge find0 challenge_req0 (t0 + seconds 60) (t0 + seconds 60) nonce0 r.2).1 = Ok nonce0.
Proof. split; vm_compute; reflexivity. Qed.

End AgentTokensProofs.
