(* ===== verification/Secrets.v ===== *)
(** * Secrets: encryption of the secrets kept in the database

    [crates/server/src/secrets.rs]: AES-256-GCM under a key derived from the
    configured master key, the text format [xlsec:v1:<nonce>:<ciphertext>], and
    the migration that encrypts the secrets older versions stored in the clear.
    The [ring] and [hex] crates are a class. *)

From S2P Require Import Prelude Text Externals Auth.

Module Secrets.

Definition PREFIX : rstr := lit "xlsec:v1:".
Definition AAD : rstr := lit "xlstatus.secrets.v1".
Definition HKDF_SALT : rstr := lit "xlstatus.secrets.salt.v1".
Definition HKDF_INFO : rstr := lit "XLStatus secret encryption key v1".
Definition NONCE_LEN : Z := 12.
Definition TAG_LEN : Z := 16.
Definition NONCE_HEX_LEN : Z := NONCE_LEN * 2.
Definition MIN_CIPHERTEXT_HEX_LEN : Z := TAG_LEN * 2.
Definition MAX_SECRET_PLAINTEXT_BYTES : Z := 16 * 1024.
Definition MAX_CIPHERTEXT_HEX_LEN : Z := (MAX_SECRET_PLAINTEXT_BYTES + TAG_LEN) * 2.
Definition MAX_ENCRYPTED_SECRET_BYTES : Z := byte_len PREFIX + NONCE_HEX_LEN + 1 + MAX_CIPHERTEXT_HEX_LEN.
Definition SECRET_SETTING_VALUE_JSON_MAX_BYTES : Z := 64 * 1024.
Definition MIN_MASTER_KEY_BYTES : Z := 32.
Definition MIN_MASTER_KEY_DISTINCT_BYTES : Z := 4.

Inductive SecretError (E : Type) : Type :=
| KeyTooShort | KeyDefault | KeyWeak | NotInitialized | TooLarge | NoRandom | SealFailed
| NotEncrypted | MalformedPayload | NonceLength | CiphertextLength | NonceNotHex | CiphertextNotHex
| OpenFailed | NotUtf8 | JsonFailed | Database (e : E).
Arguments KeyTooShort {E}. Arguments KeyDefault {E}. Arguments KeyWeak {E}. Arguments NotInitialized {E}.
Arguments TooLarge {E}. Arguments NoRandom {E}. Arguments SealFailed {E}. Arguments NotEncrypted {E}.
Arguments MalformedPayload {E}. Arguments NonceLength {E}. Arguments CiphertextLength {E}. Arguments NonceNotHex {E}.
Arguments CiphertextNotHex {E}. Arguments OpenFailed {E}. Arguments NotUtf8 {E}. Arguments JsonFailed {E}.
Arguments Database {E} e.

Abbreviation bytes_ok := (Forall (fun b : Z => 0 <= b < 256)).

(** [ring]'s AES-256-GCM and HKDF-SHA256, the [hex] crate, and [serde_json] on a
    string. Sealing appends a tag of 16 bytes and opening inverts it under the
    same key, nonce and associated data; hexadecimal text is two lower-case
    digits per byte and is read back. *)
Class SecretLib : Type := {
  aead_seal : list Z → list Z → list Z → list Z → option (list Z);   (** key, nonce, associated data, text *)
  aead_open : list Z → list Z → list Z → list Z → option (list Z);
  hkdf_sha256 : list Z → list Z → list Z → list Z;                   (** salt, key material, info *)
  hex_encode : list Z → rstr;
  hex_decode : rstr → option (list Z);
  json_to_string : rstr → option rstr;
  json_from_str : rstr → option rstr;
  aead_open_seal k n a p c : aead_seal k n a p = Some c →
    aead_open k n a c = Some p ∧ zlen c = zlen p + TAG_LEN ∧ (bytes_ok p → bytes_ok c);
  hex_roundtrip l : bytes_ok l → hex_decode (hex_encode l) = Some l;
  hex_encode_len l : zlen (hex_encode l) = 2 * zlen l;
  hex_encode_chars l : Forall (fun c => 48 <= c <= 57 ∨ 97 <= c <= 102) (hex_encode l);
  json_roundtrip s t : json_to_string s = Some t → json_from_str t = Some s;
  json_from_str_text t s : json_from_str t = Some s → Forall (fun c => is_scalar c = true) s;
}.

(** [SecretCrypto]: its derived key. *)
Record SecretCrypto := { key : list Z }.

Definition is_encrypted_secret (value : rstr) : bool := starts_with PREFIX value.

Section secrets.
Context {E : Type} `{SecretLib}.
Abbreviation R := (result (SecretError E)).
(** The nonce the system's generator gives, if it gives one. *)
Abbreviation Random := (option (list Z)).

Definition weak_defaults : list rstr := lit <$>
  ["CHANGE_ME_IN_PRODUCTION"; "change-me-in-production"; "replace-with-a-long-random-secret";
   "replace-with-a-different-long-random-secret"; "replace-with-a-32-byte-random-hex-secret";
   "replace-with-a-different-32-byte-random-hex-secret"].

Definition new (master_key : rstr) : R SecretCrypto :=
  let master_key := trim master_key in
  if byte_len master_key <? MIN_MASTER_KEY_BYTES then Err KeyTooShort else
  if contains master_key weak_defaults then Err KeyDefault else
  let distinct : gset Z := list_to_set (str_bytes master_key) in
  if Z.of_nat (size distinct) <? MIN_MASTER_KEY_DISTINCT_BYTES then Err KeyWeak else
  Ok {| key := hkdf_sha256 (str_bytes HKDF_SALT) (str_bytes master_key) (str_bytes HKDF_INFO) |}.

Definition encrypt (c : SecretCrypto) (nonce : Random) (plaintext : rstr) : R rstr :=
  if MAX_SECRET_PLAINTEXT_BYTES <? byte_len plaintext then Err TooLarge else
  nonce_bytes ← ok_or nonce NoRandom;
  in_out ← ok_or (aead_seal (key c) nonce_bytes (str_bytes AAD) (str_bytes plaintext)) SealFailed;
  Ok (PREFIX ++ hex_encode nonce_bytes ++ lit ":" ++ hex_encode in_out).

Definition decrypt (c : SecretCrypto) (encrypted : rstr) : R rstr :=
  if MAX_ENCRYPTED_SECRET_BYTES <? byte_len encrypted then Err TooLarge else
  payload ← ok_or (Auth.strip_prefix PREFIX encrypted) NotEncrypted;
  '(nonce_hex, ciphertext_hex) ← ok_or (split_once 58 payload) MalformedPayload;
  if negb (byte_len nonce_hex =? NONCE_HEX_LEN) then Err NonceLength else
  if (byte_len ciphertext_hex <? MIN_CIPHERTEXT_HEX_LEN) || (MAX_CIPHERTEXT_HEX_LEN <? byte_len ciphertext_hex)
     || negb (byte_len ciphertext_hex mod 2 =? 0)
  then Err CiphertextLength else
  nonce_bytes ← ok_or (hex_decode nonce_hex) NonceNotHex;
  in_out ← ok_or (hex_decode ciphertext_hex) CiphertextNotHex;
  plaintext ← ok_or (aead_open (key c) nonce_bytes (str_bytes AAD) in_out) OpenFailed;
  ok_or (from_utf8 plaintext) NotUtf8.

(** ** The process-wide cipher

    [SECRET_CRYPTO] is a cell that is set once. *)
Abbreviation Cell := (option SecretCrypto).

Definition init_secret_crypto (master_key : rstr) (cell : Cell) : R unit * Cell :=
  match new master_key with
  | Err e => (Err e, cell)
  | Ok crypto => (Ok (), match cell with Some c => Some c | None => Some crypto end)
  end.

Definition active_crypto (cell : Cell) : R SecretCrypto := ok_or cell NotInitialized.

Definition encrypt_secret (cell : Cell) (nonce : Random) (value : rstr) : R rstr :=
  crypto ← active_crypto cell; encrypt crypto nonce value.

Definition decrypt_secret_if_needed (cell : Cell) (value : rstr) : R rstr :=
  if is_encrypted_secret value then crypto ← active_crypto cell; decrypt crypto value else
  if MAX_SECRET_PLAINTEXT_BYTES <? byte_len value then Err TooLarge else Ok value.

Definition encrypt_optional_secret (cell : Cell) (nonce : Random) (value : option rstr) : R (option rstr) :=
  match value with
  | None => Ok None
  | Some value =>
      if is_empty (trim value) || is_encrypted_secret value then Ok (Some value)
      else match encrypt_secret cell nonce value with Ok t => Ok (Some t) | Err e => Err e end
  end.

Definition decrypt_optional_secret (cell : Cell) (value : option rstr) : R (option rstr) :=
  match value with
  | None => Ok None
  | Some value => match decrypt_secret_if_needed cell value with Ok t => Ok (Some t) | Err e => Err e end
  end.

(** ** Migration of plaintext secrets *)

(** The loop over the rows a [SELECT] returned: [body] gives the new contents of
    a row that has to change. The outcome of the [SELECT] is [io 0], that of the
    [i]-th row's [UPDATE] is [io (S i)]. A failure leaves the rows already updated
    as they are. *)
Section migration.
Context {Row : Type} (body : nat → rstr → Row → R (option Row)) (io : nat → result E unit).

Definition update_row (id : rstr) (row : Row) (table : list (rstr * Row)) : list (rstr * Row) :=
  (fun p => if bool_decide (p.1 = id) then (id, row) else p) <$> table.

Fixpoint migrate_rows (i : nat) (rows table : list (rstr * Row)) (changed : Z) : R Z * list (rstr * Row) :=
  match rows with
  | [] => (Ok changed, table)
  | (id, current) :: rows =>
      match body i id current with
      | Err e => (Err e, table)
      | Ok None => migrate_rows (S i) rows table changed
      | Ok (Some next) =>
          match io (S i) with
          | Err e => (Err (Database e), table)
          | Ok _ => migrate_rows (S i) rows (update_row id next table) (changed + 1)
          end
      end
  end.

Definition migrate_table (rows table : list (rstr * Row)) : R Z * list (rstr * Row) :=
  match io 0%nat with
  | Err e => (Err (Database e), table)
  | Ok _ => migrate_rows 0 rows table 0
  end.
End migration.

Record DdnsSecretColumns := {
  api_token : option rstr; api_key : option rstr; api_secret : option rstr; webhook_url : option rstr;
}.
#[global] Instance ddns_columns_eq_dec : EqDecision DdnsSecretColumns.
Proof. solve_decision. Defined.

(** [nonces j] is the nonce of the [j]-th column. *)
Definition encrypted (cell : Cell) (nonces : nat → Random) (c : DdnsSecretColumns) : R DdnsSecretColumns :=
  t ← encrypt_optional_secret cell (nonces 0%nat) (api_token c);
  k ← encrypt_optional_secret cell (nonces 1%nat) (api_key c);
  s ← encrypt_optional_secret cell (nonces 2%nat) (api_secret c);
  w ← encrypt_optional_secret cell (nonces 3%nat) (webhook_url c);
  Ok {| api_token := t; api_key := k; api_secret := s; webhook_url := w |}.

Definition ddns_body (cell : Cell) (nonces : nat → nat → Random) (i : nat) (_ : rstr) (current : DdnsSecretColumns) :
    R (option DdnsSecretColumns) :=
  encrypted ← encrypted cell (nonces i) current;
  Ok (if bool_decide (encrypted = current) then None else Some encrypted).

Definition migrate_ddns_secrets cell nonces io table : R Z * list (rstr * DdnsSecretColumns) :=
  migrate_table (ddns_body cell nonces) io table table.

Definition SECRET_KEYS : list rstr := lit <$> ["geoip_ipinfo_token"; "cloudflared_token"].

Definition parse_migratable_secret_setting (value_json : rstr) : option rstr :=
  if SECRET_SETTING_VALUE_JSON_MAX_BYTES <? byte_len value_json then None else
  match json_from_str value_json with
  | Some value => if byte_len value <=? MAX_SECRET_PLAINTEXT_BYTES then Some value else None
  | None => None
  end.

(** The rows are the settings by key; only the secret ones are looked at. *)
Definition setting_body (cell : Cell) (nonces : nat → nat → Random) (i : nat) (key value_json : rstr) : R (option rstr) :=
  if negb (contains key SECRET_KEYS) then Ok None else
  match parse_migratable_secret_setting value_json with
  | None => Ok None
  | Some value =>
      if is_empty (trim value) || is_encrypted_secret value then Ok None else
      encrypted ← encrypt_secret cell (nonces i 0%nat) value;
      json ← ok_or (json_to_string encrypted) JsonFailed;
      Ok (Some json)
  end.

Definition migrate_setting_secrets cell nonces io (table : list (rstr * rstr)) : R Z * list (rstr * rstr) :=
  migrate_table (setting_body cell nonces) io table table.

(** [WHERE totp_secret IS NOT NULL AND TRIM(totp_secret) <> '']: SQLite's [TRIM]
    removes spaces. *)
Definition totp_selected (secret : option rstr) : bool :=
  match secret with Some s => existsb (fun c => negb (c =? 32)) s | None => false end.

Definition totp_body (cell : Cell) (nonces : nat → nat → Random) (i : nat) (_ : rstr) (secret : option rstr) :
    R (option (option rstr)) :=
  match secret with
  | None => Ok None
  | Some secret =>
      if is_encrypted_secret secret then Ok None else
      encrypted ← encrypt_secret cell (nonces i 0%nat) secret;
      Ok (Some (Some encrypted))
  end.

Definition migrate_totp_secrets cell nonces io (table : list (rstr * option rstr)) : R Z * list (rstr * option rstr) :=
  migrate_table (totp_body cell nonces) io (filter (fun p => totp_selected p.2 = true) table) table.

(** The three in turn; [nonces] and [io] of each are its own. *)
Record SecretTables := {
  ddns_configs : list (rstr * DdnsSecretColumns);
  system_settings : list (rstr * rstr);
  totp_secrets : list (rstr * option rstr);
}.

Definition migrate_plaintext_secrets cell (nonces : nat → nat → nat → Random) (io : nat → nat → result E unit) (t : SecretTables) :
    R Z * SecretTables :=
  match migrate_ddns_secrets cell (nonces 0%nat) (io 0%nat) (ddns_configs t) with
  | (Err e, d) => (Err e, {| ddns_configs := d; system_settings := system_settings t; totp_secrets := totp_secrets t |})
  | (Ok ddns, d) =>
      match migrate_setting_secrets cell (nonces 1%nat) (io 1%nat) (system_settings t) with
      | (Err e, s) => (Err e, {| ddns_configs := d; system_settings := s; totp_secrets := totp_secrets t |})
      | (Ok settings, s) =>
          match migrate_totp_secrets cell (nonces 2%nat) (io 2%nat) (totp_secrets t) with
          | (Err e, u) => (Err e, {| ddns_configs := d; system_settings := s; totp_secrets := u |})
          | (Ok totp, u) => (Ok (ddns + settings + totp), {| ddns_configs := d; system_settings := s; totp_secrets := u |})
          end
      end
  end.
End secrets.

End Secrets.
