(* ===== verification/SecretsProofs.v ===== *)
(** * SecretsProofs: what is encrypted can be read back

    The round trip of one secret, and the migration of the tables: it loses
    nothing even when it is interrupted, leaves no secret in the clear when it
    completes, and then has nothing left to do. *)

From S2P Require Import Prelude Text Externals Auth Secrets.

Module SecretsProofs.
Import Secrets.

Abbreviation text_ok := (Forall (fun c : Z => is_scalar c = true)).

(** What the generator gives: twelve bytes, or nothing. *)
Definition nonce_ok (r : option (list Z)) : Prop := ∀ n, r = Some n → zlen n = NONCE_LEN ∧ bytes_ok n.

Section secret.
Context {E : Type} `{SecretLib}.
Implicit Types (c : SecretCrypto) (cell : option SecretCrypto) (v : rstr).

Lemma hex_byte_len l : byte_len (hex_encode l) = 2 * zlen l.
Proof.
  rewrite byte_len_ascii; [apply hex_encode_len|]. eapply Forall_impl; [apply hex_encode_chars|]. cbn. lia.
Qed.

Lemma strip_prefix_app p s : Auth.strip_prefix p (p ++ s) = Some s.
Proof.
  unfold Auth.strip_prefix, starts_with. rewrite bool_decide_eq_true_2 by by eexists. by rewrite drop_app_length.
Qed.

Lemma encrypt_decrypt c nonce v t :
  text_ok v → nonce_ok nonce → encrypt (E := E) c nonce v = Ok t →
  is_encrypted_secret t = true ∧ byte_len t <= MAX_ENCRYPTED_SECRET_BYTES ∧ decrypt (E := E) c t = Ok v.
Proof.
  intros Hv Hn. unfold encrypt. destruct (_ <? _) eqn:Hlen; [done|]. bool_prop.
  intros (n & Hnonce & He)%bind_Ok. apply ok_or_Ok, Hn in Hnonce as [Hn1 Hn2].
  apply bind_Ok in He as (x & Hseal & He). apply Ok_inj in He as <-. apply ok_or_Ok in Hseal.
  destruct (aead_open_seal _ _ _ _ _ Hseal) as (Hopen & Hx & Hb). rewrite str_bytes_len in Hx.
  pose proof (byte_len_nonneg v) as H0. unfold NONCE_LEN, TAG_LEN, MAX_SECRET_PLAINTEXT_BYTES in *.
  assert (byte_len (PREFIX ++ hex_encode n ++ lit ":" ++ hex_encode x) <= MAX_ENCRYPTED_SECRET_BYTES) as Hmax.
  { rewrite !byte_len_app, !hex_byte_len. change (byte_len (lit ":")) with 1. change (byte_len PREFIX) with 9.
    change MAX_ENCRYPTED_SECRET_BYTES with 32834. lia. }
  split; [apply bool_decide_eq_true_2; by eexists|]. split; [done|]. unfold decrypt.
  rewrite (proj2 (Z.ltb_ge _ _)) by done. rewrite strip_prefix_app. cbn [ok_or mbind result_bind].
  change (lit ":" ++ hex_encode x) with (58 :: hex_encode x). rewrite split_once_app.
  2:{ intros Hin. pose proof (proj1 (Forall_forall _ _) (hex_encode_chars n) _ Hin) as Hc. cbn in Hc. lia. }
  cbn [ok_or mbind result_bind]. rewrite !hex_byte_len, Hn1, Hx.
  change NONCE_HEX_LEN with 24. change MIN_CIPHERTEXT_HEX_LEN with 32. change MAX_CIPHERTEXT_HEX_LEN with 32800.
  rewrite (proj2 (Z.ltb_ge _ 32)), (proj2 (Z.ltb_ge 32800 _)) by lia.
  rewrite (Z.mul_comm 2 (byte_len v + 16)), Z.mod_mul by done. cbn [orb negb Z.mul Pos.mul Z.eqb Pos.eqb].
  rewrite !hex_roundtrip by auto using str_bytes_bytes. cbn [ok_or mbind result_bind]. rewrite Hopen.
  cbn [ok_or mbind result_bind]. by rewrite from_utf8_str_bytes.
Qed.

(** Encrypting a value that was in the clear keeps what is read from it. *)
Lemma encrypt_secret_readable cell nonce v t :
  text_ok v → nonce_ok nonce → is_encrypted_secret v = false → encrypt_secret (E := E) cell nonce v = Ok t →
  is_encrypted_secret t = true ∧ decrypt_secret_if_needed (E := E) cell t = decrypt_secret_if_needed cell v.
Proof.
  intros Hv Hn Hplain. unfold encrypt_secret. intros (c & Hc & He)%bind_Ok.
  assert (byte_len v <= MAX_SECRET_PLAINTEXT_BYTES) as Hlen.
  { unfold encrypt in He. destruct (_ <? _) eqn:Hlen; [done|]. by bool_prop. }
  destruct (encrypt_decrypt _ _ _ _ Hv Hn He) as (Ht & _ & Hd). split; [done|].
  unfold decrypt_secret_if_needed. rewrite Ht, Hplain, Hc. cbn [mbind result_bind]. rewrite Hd.
  by rewrite (proj2 (Z.ltb_ge _ _)).
Qed.

(** C35: a secret survives encryption: what [encrypt] makes of any text under a
    key, with whatever nonce, is marked as encrypted, fits the size limit that
    [decrypt] enforces, and [decrypt] under the same key gives the text back. *)
Theorem secret_roundtrip c nonce v t :
  text_ok v → nonce_ok nonce → encrypt (E := E) c nonce v = Ok t →
  is_encrypted_secret t = true ∧ byte_len t <= MAX_ENCRYPTED_SECRET_BYTES ∧ decrypt (E := E) c t = Ok v.
Proof. apply encrypt_decrypt. Qed.
End secret.

(** ** The migration loop *)

Section loop.
Context {E Row : Type} (body : nat → rstr → Row → result (SecretError E) (option Row)) (io : nat → result E unit).
Context (T0 : list (rstr * Row)) (HT0 : NoDup T0.*1).

(** A row of the first table and what became of it. *)
Definition migrated (old cur : rstr * Row) : Prop :=
  ∃ j o, body j old.1 old.2 = Ok o ∧ cur.2 = default old.2 o.

Definition row_state (seen : list rstr) (old cur : rstr * Row) : Prop :=
  cur.1 = old.1 ∧ (old.1 ∈ seen → migrated old cur) ∧ (old.1 ∉ seen → cur = old).

Lemma row_unique p q : p ∈ T0 → q ∈ T0 → p.1 = q.1 → p = q.
Proof.
  intros (i & Hi)%list_elem_of_lookup (j & Hj)%list_elem_of_lookup Heq.
  assert (i = j) as ->; [|congruence].
  eapply NoDup_lookup; [exact HT0| |]; rewrite list_lookup_fmap; [by rewrite Hi|]. by rewrite Hj, Heq.
Qed.

Lemma row_state_keep seen id cur T j :
  (id, cur) ∈ T0 → id ∉ seen → body j id cur = Ok None →
  Forall2 (row_state seen) T0 T → Forall2 (row_state (seen ++ [id])) T0 T.
Proof.
  intros Hin Hseen Hb Hall. apply Forall2_same_length_lookup_2; [by eapply Forall2_length|].
  intros i old now Hi Hj. destruct (Forall2_lookup_lr _ _ _ _ _ _ Hall Hi Hj) as (He & H1 & H2).
  split; [done|]. rewrite !elem_of_app, !list_elem_of_singleton.
  destruct (decide (old.1 = id)) as [Hid|Hid]; [|split; [intros [?|?]|]; naive_solver].
  assert (old = (id, cur)) as -> by (apply row_unique; [by eapply list_elem_of_lookup_2|done|done]).
  split; [|naive_solver]. intros _. exists j, None. split; [done|]. by rewrite H2.
Qed.

Lemma row_state_update seen id cur next T j :
  (id, cur) ∈ T0 → id ∉ seen → body j id cur = Ok (Some next) →
  Forall2 (row_state seen) T0 T → Forall2 (row_state (seen ++ [id])) T0 (update_row id next T).
Proof.
  intros Hin Hseen Hb Hall. unfold update_row. apply Forall2_fmap_r, Forall2_same_length_lookup_2; [by eapply Forall2_length|].
  intros i old now Hi Hj. destruct (Forall2_lookup_lr _ _ _ _ _ _ Hall Hi Hj) as (He & H1 & H2).
  unfold row_state, compose. rewrite !elem_of_app, !list_elem_of_singleton.
  case_bool_decide as Hid; cbn [fst snd].
  - assert (old = (id, cur)) as -> by (apply row_unique; [by eapply list_elem_of_lookup_2|done|cbn; congruence]).
    split; [done|]. split; [|naive_solver]. intros _. by exists j, (Some next).
  - split; [done|]. split; [intros [?|?]|]; naive_solver.
Qed.

(** However far the loop got: the rows it passed are migrated, the others are as
    they were; when it returns a count it passed them all. *)
Lemma migrate_rows_spec rows i T n r T' seen :
  NoDup rows.*1 → (∀ p, p ∈ rows → p ∈ T0 ∧ p.1 ∉ seen) → Forall2 (row_state seen) T0 T →
  migrate_rows body io i rows T n = (r, T') →
  ∃ k, Forall2 (row_state (seen ++ take k rows.*1)) T0 T' ∧ (is_ok r = true → (length rows <= k)%nat).
Proof.
  revert i T n seen. induction rows as [|[id cur] rows IH]; intros i T n seen Hnd Hin Hall; cbn [migrate_rows].
  { intros [= <- <-]. exists 0%nat. cbn. by rewrite app_nil_r. }
  apply NoDup_cons in Hnd as [Hid Hnd]. destruct (Hin (id, cur)) as [Hin0 Hseen]; [left|]. cbn [fst] in Hid, Hseen.
  assert (∀ p, p ∈ rows → p ∈ T0 ∧ p.1 ∉ seen ++ [id]) as Hrest.
  { intros p Hp. destruct (Hin p) as [? Hs]; [by right|]. split; [done|].
    rewrite elem_of_app, list_elem_of_singleton. intros [?|Heq]; [done|]. apply Hid. rewrite <- Heq. by apply list_elem_of_fmap_2. }
  destruct (body i id cur) as [[next|]|e] eqn:Hb.
  - destruct (io (S i)) as [[]|e].
    + intros Hm. eapply row_state_update in Hall; [|done..]. destruct (IH _ _ _ _ Hnd Hrest Hall Hm) as (k & Hk & Hok).
      exists (S k). cbn [fmap list_fmap take length fst]. rewrite <- app_assoc in Hk. split; [done|]. intros Hr. specialize (Hok Hr). lia.
    + intros [= <- <-]. exists 0%nat. cbn. by rewrite app_nil_r.
  - intros Hm. eapply row_state_keep in Hall; [|done..]. destruct (IH _ _ _ _ Hnd Hrest Hall Hm) as (k & Hk & Hok).
    exists (S k). cbn [fmap list_fmap take length fst]. rewrite <- app_assoc in Hk. split; [done|]. intros Hr. specialize (Hok Hr). lia.
  - intros [= <- <-]. exists 0%nat. cbn. by rewrite app_nil_r.
Qed.

Lemma migrate_table_start rows r T' :
  sublist rows T0 → migrate_table body io rows T0 = (r, T') →
  ∃ k, Forall2 (row_state (take k rows.*1)) T0 T' ∧ (is_ok r = true → (length rows <= k)%nat).
Proof.
  intros Hsub. assert (Forall2 (row_state []) T0 T0) as Hinit.
  { apply Forall_Forall2_diag, Forall_forall. intros p _. split; [done|]. split; [by intros ?%not_elem_of_nil|done]. }
  unfold migrate_table. destruct (io 0%nat); [|intros [= <- <-]; by exists 0%nat].
  intros Hm. apply (migrate_rows_spec rows 0 T0 0 r T' []); [| |done|done].
  - eapply sublist_NoDup; [exact HT0|]. by apply fmap_sublist.
  - intros p Hp. split; [by eapply elem_of_sublist|apply not_elem_of_nil].
Qed.

Lemma row_in_rows rows id row : sublist rows T0 → (id, row) ∈ T0 → id ∈ rows.*1 → (id, row) ∈ rows.
Proof.
  intros Hsub Hin ([id' row'] & -> & Hr)%list_elem_of_fmap. cbn [fst].
  rewrite (row_unique (id', row) (id', row')); [done|done|by eapply elem_of_sublist|done].
Qed.

(** A relation between a row and its replacement that holds of every row the body
    replaces, and is reflexive, relates the two tables. *)
Lemma migrate_table_related (P : Row → Row → Prop) `{!Reflexive P} rows r T' :
  sublist rows T0 → (∀ j id row row', (id, row) ∈ rows → body j id row = Ok (Some row') → P row row') →
  migrate_table body io rows T0 = (r, T') →
  Forall2 (fun old cur => cur.1 = old.1 ∧ P old.2 cur.2) T0 T'.
Proof.
  intros Hsub HP Hm. destruct (migrate_table_start rows r T' Hsub Hm) as (k & Hk & _).
  apply Forall2_same_length_lookup_2; [by eapply Forall2_length|]. intros i [id row] cur Hi Hj.
  destruct (Forall2_lookup_lr _ _ _ _ _ _ Hk Hi Hj) as (He & H1 & H2). split; [done|].
  cbn [fst snd] in *. destruct (decide (id ∈ take k rows.*1)) as [Hin|Hin]; [|by rewrite H2].
  destruct (H1 Hin) as (m & [x|] & Hb & Hx); cbn in Hx; rewrite Hx; [|done]. eapply HP, Hb.
  apply (row_in_rows rows); [done|by eapply list_elem_of_lookup_2|]. by apply elem_of_take in Hin as (? & ?%list_elem_of_lookup_2 & _).
Qed.

(** A complete run: every selected row satisfies what its body establishes. *)
Lemma migrate_table_complete (Q : rstr → Row → Prop) rows r T' :
  sublist rows T0 → is_ok r = true →
  (∀ j id row o, (id, row) ∈ rows → body j id row = Ok o → Q id (default row o)) →
  (∀ p, p ∈ T0 → p ∉ rows → Q p.1 p.2) →
  migrate_table body io rows T0 = (r, T') → Forall (fun cur => Q cur.1 cur.2) T'.
Proof.
  intros Hsub Hok HQ Hother Hm. destruct (migrate_table_start rows r T' Hsub Hm) as (k & Hk & Hlen). specialize (Hlen Hok).
  rewrite take_ge in Hk by by rewrite length_fmap. apply Forall_lookup. intros i cur Hj.
  destruct (Forall2_lookup_r _ _ _ _ _ Hk Hj) as ([id row] & Hi & He & H1 & H2). apply list_elem_of_lookup_2 in Hi. cbn [fst snd] in *.
  destruct (decide (id ∈ rows.*1)) as [Hin|Hin].
  - destruct (H1 Hin) as (m & o & Hb & Hx). rewrite He, Hx. eapply HQ; [|exact Hb]. by apply (row_in_rows rows).
  - rewrite H2 by done. apply Hother; [done|]. intros Hr. apply Hin. by apply (list_elem_of_fmap_2 fst) in Hr.
Qed.

(** A table whose rows need nothing is left as it is. *)
Lemma migrate_rows_idle rows i T n :
  (∀ j id row, (id, row) ∈ rows → body j id row = Ok None) → migrate_rows body io i rows T n = (Ok n, T).
Proof.
  revert i. induction rows as [|[id row] rows IH]; intros i Hb; [done|]. cbn [migrate_rows].
  rewrite (Hb i id row) by left. apply IH. intros j id' row' Hin. apply Hb. by right.
Qed.
End loop.

(** ** The three tables *)

Section tables.
Context {E : Type} `{SecretLib} (cell : option SecretCrypto).
Implicit Types (v w : option rstr) (nonces : nat → nat → option (list Z)).

Definition column_ok v : Prop := match v with Some s => text_ok s | None => True end.
(** Nothing to hide: absent, blank, or encrypted. *)
Definition sealed v : Prop := match v with Some s => trim s = [] ∨ is_encrypted_secret s = true | None => True end.
(** What the readers of a column get. *)
Definition same_secret v w : Prop := decrypt_optional_secret (E := E) cell w = decrypt_optional_secret cell v.

Lemma encrypt_optional_readable nonce v w :
  column_ok v → nonce_ok nonce → encrypt_optional_secret (E := E) cell nonce v = Ok w → same_secret v w ∧ sealed w.
Proof.
  destruct v as [s|]; cbn; [|by intros _ _ [= <-]]. intros Hs Hn. destruct (is_empty (trim s) || is_encrypted_secret s) eqn:Hb.
  - intros [= <-]. split; [done|]. apply orb_prop in Hb as [Hb|Hb]; [|by right]. left. by destruct (trim s).
  - apply orb_false_elim in Hb as [_ Hb]. destruct (encrypt_secret cell nonce s) as [t|] eqn:He; [|done].
    intros [= <-]. destruct (encrypt_secret_readable _ _ _ _ Hs Hn Hb He) as [Ht Hd].
    split; [|by right]. unfold same_secret, decrypt_optional_secret. by rewrite Hd.
Qed.

Lemma encrypt_optional_sealed nonce v : sealed v → encrypt_optional_secret (E := E) cell nonce v = Ok v.
Proof. destruct v as [s|]; [|done]. intros [Hs|Hs]; cbn; rewrite Hs; [done|]. by rewrite orb_true_r. Qed.

Definition columns (c : DdnsSecretColumns) : list (option rstr) := [api_token c; api_key c; api_secret c; webhook_url c].

Lemma encrypted_readable (nonces : nat → option (list Z)) c d :
  Forall column_ok (columns c) → (∀ j, nonce_ok (nonces j)) → encrypted (E := E) cell nonces c = Ok d →
  Forall2 same_secret (columns c) (columns d) ∧ Forall sealed (columns d).
Proof.
  unfold columns. rewrite !Forall_cons. intros (H1 & H2 & H3 & H4 & _) Hn. unfold encrypted.
  intros (t & Ht & Hr)%bind_Ok. apply bind_Ok in Hr as (k & Hk & Hr). apply bind_Ok in Hr as (s & Hs & Hr).
  apply bind_Ok in Hr as (w & Hw & Hr). injection Hr as <-. cbn [api_token api_key api_secret webhook_url].
  apply encrypt_optional_readable in Ht as [? ?], Hk as [? ?], Hs as [? ?], Hw as [? ?]; [|done..].
  split; repeat constructor; done.
Qed.

Lemma encrypted_sealed (nonces : nat → option (list Z)) c : Forall sealed (columns c) → encrypted (E := E) cell nonces c = Ok c.
Proof.
  unfold columns. rewrite !Forall_cons. intros (H1 & H2 & H3 & H4 & _). unfold encrypted.
  rewrite !encrypt_optional_sealed by done. by destruct c.
Qed.

(** What the readers of a secret setting get. *)
Definition setting_secret (value_json : rstr) : option (result (SecretError E) rstr) :=
  decrypt_secret_if_needed cell <$> json_from_str value_json.
Definition setting_sealed (key value_json : rstr) : Prop :=
  key ∈ SECRET_KEYS → ∀ s, parse_migratable_secret_setting value_json = Some s → trim s = [] ∨ is_encrypted_secret s = true.

Lemma setting_body_readable nonces i key json json' :
  (∀ j, nonce_ok (nonces i j)) → setting_body (E := E) cell nonces i key json = Ok (Some json') →
  setting_secret json' = setting_secret json ∧ setting_sealed key json'.
Proof.
  intros Hn. unfold setting_body. destruct (contains key SECRET_KEYS); [|done]. cbn [negb].
  destruct (parse_migratable_secret_setting json) as [s|] eqn:Hp; [|done].
  destruct (_ || _) eqn:Hb; [done|]. apply orb_false_elim in Hb as [_ Hb].
  intros (t & Ht & Hr)%bind_Ok. apply bind_Ok in Hr as (x & Hx & Hr). injection Hr as <-. apply ok_or_Ok, json_roundtrip in Hx.
  assert (json_from_str json = Some s) as Hj.
  { unfold parse_migratable_secret_setting in Hp. destruct (_ <? _); [done|]. destruct (json_from_str json); [|done].
    destruct (_ <=? _); [|done]. by injection Hp as ->. }
  destruct (encrypt_secret_readable _ _ _ _ (json_from_str_text _ _ Hj) (Hn _) Hb Ht) as [He Hd].
  split; [unfold setting_secret; rewrite Hx, Hj; cbn; by rewrite Hd|].
  intros _ u Hu. right. unfold parse_migratable_secret_setting in Hu. rewrite Hx in Hu.
  destruct (_ <? _); [done|]. destruct (_ <=? _); [|done]. by injection Hu as <-.
Qed.

Lemma setting_body_idle nonces i key json : setting_body (E := E) cell nonces i key json = Ok None → setting_sealed key json.
Proof.
  unfold setting_body. intros Hb Hk s Hp. rewrite Hp, (proj2 (contains_spec _ _)) in Hb by done. cbn [negb] in Hb.
  destruct (is_empty (trim s)) eqn:Hs; [left; by destruct (trim s)|]. destruct (is_encrypted_secret s); [by right|]. cbn [orb] in Hb.
  apply bind_Ok in Hb as (t & _ & Hb). by apply bind_Ok in Hb as (x & _ & Hb).
Qed.

Lemma setting_sealed_body nonces i key json : setting_sealed key json → setting_body (E := E) cell nonces i key json = Ok None.
Proof.
  unfold setting_sealed, setting_body. intros Hs. destruct (contains key SECRET_KEYS) eqn:Hk; [|done]. apply contains_spec in Hk.
  destruct (parse_migratable_secret_setting json) as [s|]; [|done]. destruct (Hs Hk s eq_refl) as [-> | ->]; [done|].
  by rewrite orb_true_r.
Qed.

Definition totp_sealed v : Prop := totp_selected v = false ∨ ∃ s, v = Some s ∧ is_encrypted_secret s = true.

Lemma totp_body_readable nonces i id v w :
  column_ok v → (∀ j, nonce_ok (nonces i j)) → totp_body (E := E) cell nonces i id v = Ok (Some w) →
  same_secret v w ∧ totp_sealed w.
Proof.
  destruct v as [s|]; cbn; [|done]. intros Hs Hn. destruct (is_encrypted_secret s) eqn:Hb; [done|].
  intros (t & Ht & [= <-])%bind_Ok. destruct (encrypt_secret_readable _ _ _ _ Hs (Hn _) Hb Ht) as [He Hd].
  split; [unfold same_secret; cbn; by rewrite Hd|]. right. by exists t.
Qed.

Lemma totp_body_idle nonces i id v : totp_body (E := E) cell nonces i id v = Ok None → totp_sealed v.
Proof.
  destruct v as [s|]; cbn; [|by left]. destruct (is_encrypted_secret s) eqn:Hb; [right; by exists s|].
  by intros (t & _ & ?)%bind_Ok.
Qed.

(** ** The whole migration *)

(** Rows keep their key and what is read from them. *)
Record same_tables (t u : SecretTables) : Prop := {
  same_ddns : Forall2 (fun a b => b.1 = a.1 ∧ Forall2 same_secret (columns a.2) (columns b.2)) (ddns_configs t) (ddns_configs u);
  same_settings : Forall2 (fun a b => b.1 = a.1 ∧ setting_secret b.2 = setting_secret a.2) (system_settings t) (system_settings u);
  same_totp : Forall2 (fun a b => b.1 = a.1 ∧ same_secret a.2 b.2) (totp_secrets t) (totp_secrets u);
}.

Record tables_sealed (t : SecretTables) : Prop := {
  ddns_sealed : Forall (fun p => Forall sealed (columns p.2)) (ddns_configs t);
  settings_sealed : Forall (fun p => setting_sealed p.1 p.2) (system_settings t);
  totps_sealed : Forall (fun p => totp_sealed p.2) (totp_secrets t);
}.

(** Keys are primary and texts are texts. *)
Record tables_ok (t : SecretTables) : Prop := {
  ddns_ok : NoDup (ddns_configs t).*1 ∧ Forall (fun p => Forall column_ok (columns p.2)) (ddns_configs t);
  settings_ok : NoDup (system_settings t).*1;
  totp_ok : NoDup (totp_secrets t).*1 ∧ Forall (fun p => column_ok p.2) (totp_secrets t);
}.

#[local] Instance same_secret_refl : Reflexive same_secret.
Proof. by intros v. Qed.
#[local] Instance same_columns_refl : Reflexive (fun c d => Forall2 same_secret (columns c) (columns d)).
Proof. intros c. repeat constructor. Qed.
#[local] Instance same_setting_refl : Reflexive (fun a b => setting_secret b = setting_secret a).
Proof. by intros a. Qed.

Lemma Forall2_same_refl {Row} (P : Row → Row → Prop) `{!Reflexive P} (l : list (rstr * Row)) :
  Forall2 (fun a b => b.1 = a.1 ∧ P a.2 b.2) l l.
Proof. apply Forall_Forall2_diag, Forall_forall. by intros p _. Qed.

Context (nonces : nat → nat → nat → option (list Z)) (io : nat → nat → result E unit).
Hypothesis Hnonces : ∀ i j k, nonce_ok (nonces i j k).

Lemma migrate_ddns_spec l r l' :
  NoDup l.*1 → Forall (fun p => Forall column_ok (columns p.2)) l →
  migrate_ddns_secrets cell (nonces 0%nat) (io 0%nat) l = (r, l') →
  Forall2 (fun a b => b.1 = a.1 ∧ Forall2 same_secret (columns a.2) (columns b.2)) l l'
  ∧ (is_ok r = true → Forall (fun p => Forall sealed (columns p.2)) l').
Proof.
  intros Hnd Hok Hm. split.
  - apply (migrate_table_related (ddns_body cell (nonces 0%nat)) (io 0%nat) l Hnd (fun c d => Forall2 same_secret (columns c) (columns d)) l r l'); [done| |exact Hm].
    intros j id c d Hin (x & Hx & Hd)%bind_Ok. case_bool_decide; [done|]. injection Hd as <-.
    eapply encrypted_readable in Hx as [? _]; [done| |done]. exact (proj1 (Forall_forall _ _) Hok _ Hin).
  - intros Hr. apply (migrate_table_complete (ddns_body cell (nonces 0%nat)) (io 0%nat) l Hnd (fun _ c => Forall sealed (columns c)) l r l'); [done|done| |done|exact Hm].
    intros j id c o Hin (x & Hx & Hd)%bind_Ok. injection Hd as <-.
    eapply encrypted_readable in Hx as [_ Hs]; [|exact (proj1 (Forall_forall _ _) Hok _ Hin)|done]. by case_bool_decide; subst.
Qed.

Lemma migrate_setting_spec l r l' :
  NoDup l.*1 → migrate_setting_secrets cell (nonces 1%nat) (io 1%nat) l = (r, l') →
  Forall2 (fun a b => b.1 = a.1 ∧ setting_secret b.2 = setting_secret a.2) l l'
  ∧ (is_ok r = true → Forall (fun p => setting_sealed p.1 p.2) l').
Proof.
  intros Hnd Hm. split.
  - apply (migrate_table_related (setting_body cell (nonces 1%nat)) (io 1%nat) l Hnd (fun a b => setting_secret b = setting_secret a) l r l'); [done| |exact Hm].
    intros j id a b Hin Hb. by eapply setting_body_readable in Hb as [? _].
  - intros Hr. apply (migrate_table_complete (setting_body cell (nonces 1%nat)) (io 1%nat) l Hnd setting_sealed l r l'); [done|done| |done|exact Hm].
    intros j id a [b|] Hin Hb; cbn; [by eapply setting_body_readable in Hb as [_ ?]|by eapply setting_body_idle].
Qed.

Lemma migrate_totp_spec l r l' :
  NoDup l.*1 → Forall (fun p => column_ok p.2) l →
  migrate_totp_secrets cell (nonces 2%nat) (io 2%nat) l = (r, l') →
  Forall2 (fun a b => b.1 = a.1 ∧ same_secret a.2 b.2) l l'
  ∧ (is_ok r = true → Forall (fun p => totp_sealed p.2) l').
Proof.
  intros Hnd Hok Hm. unfold migrate_totp_secrets in Hm. set (rows := filter _ l) in Hm.
  assert (sublist rows l) as Hsub by apply sublist_filter.
  assert (∀ id v, (id, v) ∈ rows → column_ok v) as Hcol.
  { intros id v Hin. eapply elem_of_sublist in Hin; [|exact Hsub]. exact (proj1 (Forall_forall _ _) Hok _ Hin). }
  split.
  - apply (migrate_table_related (totp_body cell (nonces 2%nat)) (io 2%nat) l Hnd same_secret rows r l'); [done| |exact Hm].
    intros j id v w Hin Hb. eapply totp_body_readable in Hb as [? _]; [done|by eapply Hcol|done].
  - intros Hr. apply (migrate_table_complete (totp_body cell (nonces 2%nat)) (io 2%nat) l Hnd (fun _ v => totp_sealed v) rows r l'); [done|done| | |exact Hm].
    + intros j id v [w|] Hin Hb; cbn; [|by eapply totp_body_idle]. eapply totp_body_readable in Hb as [_ ?]; [done|by eapply Hcol|done].
    + intros p Hp Hnot. left. destruct (totp_selected p.2) eqn:Hs; [|done]. destruct Hnot. by apply list_elem_of_filter.
Qed.

(** On tables without a secret in the clear there is nothing to do. *)
Lemma migrate_sealed (nonces' : nat → nat → nat → option (list Z)) io' u :
  tables_sealed u → (∀ i, io' i 0%nat = Ok ()) → migrate_plaintext_secrets (E := E) cell nonces' io' u = (Ok 0, u).
Proof.
  intros [Hd Hs Ht] Hio. unfold migrate_plaintext_secrets, migrate_ddns_secrets, migrate_setting_secrets, migrate_totp_secrets.
  unfold migrate_table. rewrite !Hio.
  rewrite !migrate_rows_idle; [by destruct u|..].
  - intros j id v Hin. apply list_elem_of_filter in Hin as [Hsel Hin]. destruct (proj1 (Forall_forall _ _) Ht _ Hin) as [Hn|(s & Hv & He)].
    + cbn in Hn, Hsel. congruence.
    + cbn in Hv. subst v. cbn. by rewrite He.
  - intros j id v Hin. apply setting_sealed_body. exact (proj1 (Forall_forall _ _) Hs _ Hin).
  - intros j id c Hin. unfold ddns_body. rewrite encrypted_sealed by exact (proj1 (Forall_forall _ _) Hd _ Hin).
    cbn [mbind result_bind]. by rewrite bool_decide_eq_true_2.
Qed.

(** migrating the secrets older versions stored in the clear is safe: however
    far a run gets before a statement or an encryption fails, every row keeps its
    key and every reader of its secrets still gets the same value; a run that
    completes leaves no migratable secret in the clear, and a further run that can
    read the tables finds nothing to change. *)
Theorem secret_migration_safe t r u :
  tables_ok t → migrate_plaintext_secrets cell nonces io t = (r, u) →
  same_tables t u
  ∧ (is_ok r = true → tables_sealed u
     ∧ ∀ (nonces' : nat → nat → nat → option (list Z)) io', (∀ i, io' i 0%nat = Ok ()) → migrate_plaintext_secrets (E := E) cell nonces' io' u = (Ok 0, u)).
Proof.
  intros [[Hd1 Hd2] Hs [Ht1 Ht2]]. unfold migrate_plaintext_secrets at 1.
  destruct (migrate_ddns_secrets _ _ _ _) as [rd d] eqn:Hd. destruct (migrate_ddns_spec _ _ _ Hd1 Hd2 Hd) as [Hd3 Hd4].
  destruct rd as [nd|e]; [|intros [= <- <-]; split; [|done]; split; [done|apply (Forall2_same_refl (fun a b => setting_secret b = setting_secret a))
    |apply (Forall2_same_refl same_secret)]].
  destruct (migrate_setting_secrets _ _ _ _) as [rs s] eqn:Hse. destruct (migrate_setting_spec _ _ _ Hs Hse) as [Hs3 Hs4].
  destruct rs as [ns|e]; [|intros [= <- <-]; split; [|done]; split; [done|done|apply (Forall2_same_refl same_secret)]].
  destruct (migrate_totp_secrets _ _ _ _) as [rt x] eqn:Hto. destruct (migrate_totp_spec _ _ _ Ht1 Ht2 Hto) as [Ht3 Ht4].
  destruct rt as [nt|e]; intros [= <- <-]; (split; [by split|]); [|done]. intros _.
  assert (tables_sealed {| ddns_configs := d; system_settings := s; totp_secrets := x |}) as Hsealed
    by (split; cbn [ddns_configs system_settings totp_secrets]; auto).
  split; [done|]. intros nonces' io' Hio'. by apply migrate_sealed.
Qed.
End tables.

(** ** Witnesses *)

(** A cipher that only appends its tag. *)
Definition tag0 : list Z := repeat 0 16.
Definition open0 (c : list Z) : option (list Z) :=
  let n := (length c - 16)%nat in if bool_decide (drop n c = tag0) then Some (take n c) else None.
Definition json_quote (s : rstr) : option rstr := if forallb is_scalar s then Some (34 :: s ++ [34]) else None.
Definition json_unquote (t : rstr) : option rstr :=
  match t with
  | 34 :: s => match reverse s with 34 :: u => if forallb is_scalar u then Some (reverse u) else None | _ => None end
  | _ => None
  end.

Lemma scalars_spec s : forallb is_scalar s = true ↔ text_ok s.
Proof. rewrite forallb_forall, Forall_forall. by setoid_rewrite list_elem_of_In. Qed.

#[local] Instance plain_secrets : SecretLib.
Proof.
  refine {| aead_seal k n a p := Some (p ++ tag0); aead_open k n a c := open0 c; hkdf_sha256 s k i := take 32 (k ++ s);
            hex_encode := hex_of; hex_decode := hex_bytes; json_to_string := json_quote; json_from_str := json_unquote |}.
  - intros k n a p c Hc. apply (inj Some) in Hc. subst c. unfold open0. rewrite length_app, Nat.add_sub.
    rewrite drop_app_length, take_app_length, bool_decide_eq_true_2 by done. split; [done|].
    unfold zlen, TAG_LEN. rewrite length_app. change (length tag0) with 16%nat. split; [lia|]. intros Hp. apply Forall_app. split; [done|]. by repeat constructor.
  - apply hex_bytes_of.
  - intros l. unfold zlen. rewrite hex_of_length. lia.
  - apply hex_of_chars.
  - intros s t. unfold json_quote. destruct (forallb is_scalar s) eqn:Hs; [|done]. intros Ht. apply (inj Some) in Ht. subst t.
    cbn [json_unquote]. rewrite reverse_app. change (reverse [34]) with [34]. cbn [app]. apply scalars_spec in Hs.
    rewrite (proj2 (scalars_spec _)) by by apply Forall_reverse. by rewrite reverse_involutive.
  - intros t s. unfold json_unquote. repeat case_match; try done. intros [= <-]. apply Forall_reverse. by apply scalars_spec.
Defined.

Definition crypto0 : SecretCrypto := {| key := repeat 1 32 |}.
Definition nonce0 : option (list Z) := Some (repeat 5 12).

Lemma nonce0_ok : nonce_ok nonce0.
Proof. intros n [= <-]. split; [done|]. by repeat constructor. Qed.

Lemma secret_roundtrip_witness :
  ∃ t, encrypt (E := unit) crypto0 nonce0 (lit "token") = Ok t ∧ decrypt (E := unit) crypto0 t = Ok (lit "token").
Proof.
  destruct (encrypt crypto0 nonce0 (lit "token")) as [t|] eqn:He; [|by vm_compute in He]. exists t. split; [done|].
  apply (secret_roundtrip crypto0 nonce0 (lit "token") t); [by apply scalars_spec|apply nonce0_ok|done].
Defined.

(** The third table cannot be read: its secret stays in the clear, and readable. *)
Definition tables0 : SecretTables :=
  {| ddns_configs := [(lit "d", {| api_token := Some (lit "t"); api_key := None; api_secret := None; webhook_url := Some [] |})];
     system_settings := [(lit "cloudflared_token", 34 :: lit "c" ++ [34]); (lit "theme", lit "1")];
     totp_secrets := [(lit "u", Some (lit "ABC")); (lit "w", None)] |}.
Definition io0 (i j : nat) : result unit unit := if (i =? 2)%nat then Err () else Ok ().

End SecretsProofs.
