(* ===== verification/Rfc3339.v ===== *)
(** * Rfc3339: times as the database stores them

    SQLite keeps a time as the text [DateTime::to_rfc3339] prints and compares
    texts byte by byte. [chrono] is a class: inside the years RFC 3339 can write,
    the text is read back, and since every text ends in the same offset and has
    its fields in order of weight, texts compare like times. *)

From S2P Require Import Prelude Text BTreeMap Externals.

(** The years 0000 to 9999, in nanoseconds since the epoch. *)
Definition era (t : Z) : Prop := seconds (-62167219200) <= t < seconds 253402300800.

Class Rfc3339 : Type := {
  to_rfc3339 : Z → rstr;
  parse_from_rfc3339 : rstr → option Z;
  rfc3339_roundtrip t : era t → parse_from_rfc3339 (to_rfc3339 t) = Some t;
  rfc3339_order t u : era t → era u → str_ltb (to_rfc3339 t) (to_rfc3339 u) = (t <? u);
}.

(** [a <= b] of two columns; [a < b] is [str_ltb]. *)
Definition str_leb (a b : rstr) : bool := negb (str_ltb b a).

Lemma str_ltb_irrefl a : str_ltb a a = false.
Proof. exact (@key_irrefl rstr str_key a). Qed.
Lemma str_ltb_trans a b c : str_ltb a b = true → str_ltb b c = true → str_ltb a c = true.
Proof. exact (@key_trans rstr str_key a b c). Qed.

Section order.
Context `{Rfc3339}.

Lemma rfc3339_leb t u : era t → era u → str_leb (to_rfc3339 t) (to_rfc3339 u) = (t <=? u).
Proof. intros Ht Hu. unfold str_leb. rewrite rfc3339_order by done. symmetry. by rewrite Z.leb_antisym. Qed.

Lemma rfc3339_inj t u : era t → era u → to_rfc3339 t = to_rfc3339 u → t = u.
Proof.
  intros Ht Hu He. apply (f_equal parse_from_rfc3339) in He. rewrite !rfc3339_roundtrip in He by done. congruence.
Qed.
End order.

(** An instance: the time, shifted to be positive, in 24 hexadecimal digits. *)

Lemma str_ltb_snoc s t a b :
  length s = length t → str_ltb (s ++ [a]) (t ++ [b]) = str_ltb s t || (bool_decide (s = t) && (a <? b)).
Proof.
  revert t. induction s as [|x s IH]; intros [|y t] Hl; cbn in *; try done.
  - by rewrite andb_false_r, orb_false_r.
  - rewrite IH by lia. destruct (x <? y) eqn:Hlt; [done|]. cbn [orb]. destruct (x =? y) eqn:He; cbn [andb]; bool_prop.
    + subst y. f_equal. f_equal. by apply bool_decide_ext; naive_solver.
    + rewrite bool_decide_eq_false_2; [done|]. congruence.
Qed.

Lemma hex_digit_ltb d e : 0 <= d < 16 → 0 <= e < 16 → (hex_digit d <? hex_digit e) = (d <? e).
Proof. intros Hd He. unfold hex_digit. apply Bool.eq_iff_eq_true. rewrite !Z.ltb_lt. repeat case_match; bool_prop; lia. Qed.

Lemma hex_digit_inj d e : 0 <= d < 16 → 0 <= e < 16 → hex_digit d = hex_digit e → d = e.
Proof. unfold hex_digit. intros. repeat case_match; bool_prop; lia. Qed.

Lemma hex_digits_inj n u v : 0 <= u < 16 ^ Z.of_nat n → 0 <= v < 16 ^ Z.of_nat n → hex_digits n u = hex_digits n v → u = v.
Proof.
  intros Hu Hv He. apply (f_equal (hex_value 0)) in He. rewrite !hex_value_digits in He by lia.
  rewrite !Z.mod_small in He by done. injection He. lia.
Qed.

Lemma hex_digits_order n u v :
  0 <= u < 16 ^ Z.of_nat n → 0 <= v < 16 ^ Z.of_nat n → str_ltb (hex_digits n u) (hex_digits n v) = (u <? v).
Proof.
  revert u v. induction n as [|n IH]; intros u v Hu Hv.
  { cbn in *. symmetry. apply Z.ltb_ge. lia. }
  rewrite Nat2Z.inj_succ, Z.pow_succ_r in Hu, Hv by lia. cbn [hex_digits].
  assert (∀ x, 0 <= x < 16 * 16 ^ Z.of_nat n → 0 <= x / 16 < 16 ^ Z.of_nat n) as Hdiv.
  { intros x Hx. split; [apply Z.div_pos; lia|]. apply Z.div_lt_upper_bound; lia. }
  rewrite str_ltb_snoc by by rewrite !hex_digits_length. rewrite IH, hex_digit_ltb by auto using Z.mod_pos_bound with lia.
  apply Bool.eq_iff_eq_true. rewrite orb_true_iff, andb_true_iff, bool_decide_eq_true, !Z.ltb_lt.
  split.
  - intros [?|[He ?]]; [Z.to_euclidean_division_equations; lia|]. apply hex_digits_inj in He; [|auto..].
    Z.to_euclidean_division_equations; lia.
  - intros Hlt. destruct (decide (u / 16 < v / 16)) as [?|Hn]; [by left|]. right.
    assert (u / 16 = v / 16) as -> by (Z.to_euclidean_division_equations; lia). split; [done|]. Z.to_euclidean_division_equations; lia.
Qed.

Definition digits_print (t : Z) : rstr := hex_digits 24 (t + 2 ^ 80).
Definition digits_parse (s : rstr) : option Z := match hex_value 0 s with Some u => Some (u - 2 ^ 80) | None => None end.

#[export] Instance rfc3339_digits : Rfc3339.
Proof.
  refine {| to_rfc3339 := digits_print; parse_from_rfc3339 := digits_parse |}; unfold era, seconds, digits_print, digits_parse.
  - intros t Ht. rewrite hex_value_digits by lia. change (16 ^ Z.of_nat 24) with (2 ^ 96). rewrite Z.mod_small by lia. f_equal. lia.
  - intros t u Ht Hu. rewrite hex_digits_order by (change (16 ^ Z.of_nat 24) with (2 ^ 96); lia).
    apply Bool.eq_iff_eq_true. rewrite !Z.ltb_lt. lia.
Defined.
