(* ===== verification/Tables.v ===== *)
(** * Tables: the account tables and the programs that work on them

    The rows of [users], [sessions], [personal_access_tokens], [waf_events] and
    [waf_bans] as the SQLite schema ([crates/server/migrations/sqlite]) has them,
    in the order of their row ids, and a state and error monad for the code that
    reads and writes them. A program runs against an oracle that supplies what it
    asks of the outside: the clock, fresh UUIDs, random bytes, and whether a
    statement fails. Each request to the oracle is one tick. *)

From S2P Require Import Prelude Text Externals.

Module Tables.

Record UserRow := {
  ur_id : rstr; ur_username : rstr; ur_password_hash : rstr; ur_role : rstr; ur_token_version : Z;
  ur_totp_secret : option rstr; ur_totp_enabled : Z; ur_created_at : rstr; ur_updated_at : rstr;
}.
Record SessionRow := {
  sr_id : rstr; sr_user_id : rstr; sr_token_hash : rstr; sr_ip : option rstr; sr_user_agent : option rstr;
  sr_expires_at : rstr; sr_created_at : rstr;
}.
Record PatRow := {
  pr_id : rstr; pr_user_id : rstr; pr_name : rstr; pr_token_hash : rstr; pr_scopes : rstr; pr_server_ids : option rstr;
  pr_expires_at : option rstr; pr_last_used_at : option rstr; pr_last_used_ip : option rstr; pr_created_at : rstr;
  pr_revoked_at : option rstr;
}.
Record WafEvent := {
  we_id : rstr; we_ip : rstr; we_username : option rstr; we_outcome : rstr; we_reason : option rstr; we_created_at : rstr;
}.
Record WafBan := {
  wb_id : rstr; wb_ip : rstr; wb_reason : rstr; wb_failed_count : Z; wb_banned_until : rstr; wb_created_at : rstr;
  wb_updated_at : rstr;
}.

Record Tables := {
  users : list UserRow; sessions : list SessionRow; pats : list PatRow;
  waf_events : list WafEvent; waf_bans : list WafBan;
}.

Definition set_users x t := {| users := x; sessions := sessions t; pats := pats t; waf_events := waf_events t; waf_bans := waf_bans t |}.
Definition set_sessions x t := {| users := users t; sessions := x; pats := pats t; waf_events := waf_events t; waf_bans := waf_bans t |}.
Definition set_pats x t := {| users := users t; sessions := sessions t; pats := x; waf_events := waf_events t; waf_bans := waf_bans t |}.
Definition set_waf_events x t := {| users := users t; sessions := sessions t; pats := pats t; waf_events := x; waf_bans := waf_bans t |}.
Definition set_waf_bans x t := {| users := users t; sessions := sessions t; pats := pats t; waf_events := waf_events t; waf_bans := x |}.

(** ** Errors

    [anyhow::Error]: an error of [sqlx], or one raised by the code itself. *)
Inductive Why : Type :=
| SessionExpirationPast | InvalidTokenHash | InvalidSessionId | InvalidUsername | InvalidPassword
| BadPasswordHash | HashFailed | SecretFailed | ConstraintViolated | InvalidRow.
Inductive Anyhow (E : Type) : Type := Sqlx (e : E) | Bail (why : Why).
Arguments Sqlx {E} e. Arguments Bail {E} why.

(** ** Programs *)

Record World := { db : Tables; tick : nat }.

Record Oracle (E : Type) := {
  clock : nat → Z;              (** [Utc::now], in nanoseconds *)
  uuid_v7 : nat → Z;
  random : nat → list Z;
  fault : nat → option E;       (** the error of a statement that fails *)
}.
Arguments clock {E}. Arguments uuid_v7 {E}. Arguments random {E}. Arguments fault {E}.

Definition M (X A : Type) : Type := World → result X A * World.

#[global] Instance M_ret X : MRet (M X) := fun A a w => (Ok a, w).
#[global] Instance M_bind X : MBind (M X) := fun A B k m w =>
  match m w with (Ok a, w) => k a w | (Err e, w) => (Err e, w) end.

Definition fail {X A} (e : X) : M X A := fun w => (Err e, w).
(** [?] on a value already at hand, and [map_err] before [?]. *)
Definition lift {X A} (r : result X A) : M X A := fun w => (r, w).
Definition with_err {X Y A} (f : X → Y) (m : M X A) : M Y A := fun w =>
  match m w with (Ok a, w) => (Ok a, w) | (Err e, w) => (Err (f e), w) end.
(** Run for its effect, dropping the outcome ([let _ = ...]), or with the outcome as a value. *)
Definition attempt {X Y A} (m : M X A) : M Y (result X A) := fun w => let '(r, w) := m w in (Ok r, w).

Section oracle.
Context {E : Type} (o : Oracle E).

Definition bump (w : World) : World := {| db := db w; tick := S (tick w) |}.
Definition utc_now {X} : M X Z := fun w => (Ok (clock o (tick w)), bump w).
Definition now_v7 {X} : M X Z := fun w => (Ok (uuid_v7 o (tick w)), bump w).
Definition random_bytes {X} : M X (list Z) := fun w => (Ok (random o (tick w)), bump w).

(** A statement, or a transaction: it fails without effect, or applies [f]. *)
Definition sql {A} (f : Tables → result Why A * Tables) : M (Anyhow E) A := fun w =>
  match fault o (tick w) with
  | Some e => (Err (Sqlx e), bump w)
  | None =>
      match f (db w) with
      | (Ok a, t) => (Ok a, {| db := t; tick := S (tick w) |})
      | (Err e, _) => (Err (Bail e), bump w)
      end
  end.
Definition select {A} (f : Tables → A) : M (Anyhow E) A := sql (fun t => (Ok (f t), t)).
Definition execute (f : Tables → Tables) : M (Anyhow E) unit := sql (fun t => (Ok (), f t)).
End oracle.

(** ** Reasoning about runs *)

Section lemmas.
Context {E : Type} (o : Oracle E).

Lemma run_bind {X A B} (m : M X A) (k : A → M X B) w r w' :
  (m ≫= k) w = (r, w') ↔
  (∃ a w1, m w = (Ok a, w1) ∧ k a w1 = (r, w')) ∨ (∃ e, m w = (Err e, w') ∧ r = Err e).
Proof.
  unfold mbind, M_bind. destruct (m w) as [[a|e] w1]; split; naive_solver.
Qed.

Lemma run_bind_Ok {X A B} (m : M X A) (k : A → M X B) w b w' :
  (m ≫= k) w = (Ok b, w') ↔ ∃ a w1, m w = (Ok a, w1) ∧ k a w1 = (Ok b, w').
Proof. rewrite run_bind. naive_solver. Qed.

Lemma run_with_err_Ok {X Y A} (f : X → Y) (m : M X A) w a w' : with_err f m w = (Ok a, w') ↔ m w = (Ok a, w').
Proof. unfold with_err. destruct (m w) as [[?|?] ?]; naive_solver. Qed.

Lemma run_select_Ok {A} (f : Tables → A) w a w' :
  select o f w = (Ok a, w') → fault o (tick w) = None ∧ a = f (db w) ∧ w' = bump w.
Proof. unfold select, sql. destruct (fault o (tick w)); [done|]. intros [= <- <-]. by destruct w. Qed.

Lemma run_execute_Ok (f : Tables → Tables) w a w' :
  execute o f w = (Ok a, w') → fault o (tick w) = None ∧ w' = {| db := f (db w); tick := S (tick w) |}.
Proof. unfold execute, sql. destruct (fault o (tick w)); [done|]. by intros [= <- <-]. Qed.

(** A program never turns the clock back. *)
Definition ticks {X A} (m : M X A) : Prop := ∀ w r w', m w = (r, w') → (tick w <= tick w')%nat.

Lemma ticks_bind {X A B} (m : M X A) (k : A → M X B) : ticks m → (∀ a, ticks (k a)) → ticks (m ≫= k).
Proof.
  intros Hm Hk w r w' [(a & w1 & H1 & H2)|(e & H1 & _)]%run_bind; [|by eapply Hm].
  etransitivity; [by eapply Hm|by eapply Hk].
Qed.

Lemma ticks_ret {X A} (a : A) : ticks (mret a : M X A).
Proof. by intros w r w' [= <- <-]. Qed.

Lemma ticks_lift {X A} (r : result X A) : ticks (lift r).
Proof. by intros w r' w' [= <- <-]. Qed.

Lemma ticks_fail {X A} (e : X) : ticks (fail e : M X A).
Proof. by intros w r w' [= <- <-]. Qed.

Lemma ticks_with_err {X Y A} (f : X → Y) (m : M X A) : ticks m → ticks (with_err f m).
Proof. intros Hm w r w'. unfold with_err. destruct (m w) as [[a|e] w1] eqn:Hw; intros [= <- <-]; by eapply Hm. Qed.

Lemma ticks_utc_now {X} : ticks (utc_now o : M X Z).
Proof. intros w r w' [= <- <-]. cbn. lia. Qed.

Lemma ticks_now_v7 {X} : ticks (now_v7 o : M X Z).
Proof. intros w r w' [= <- <-]. cbn. lia. Qed.

Lemma ticks_sql {A} (f : Tables → result Why A * Tables) : ticks (sql o f).
Proof. intros w r w'. unfold sql. repeat case_match; intros [= <- <-]; cbn; lia. Qed.
End lemmas.

End Tables.
