(* ===== verification/Sessions.v ===== *)
(** * Sessions: the repository of browser sessions

    [crates/server/src/auth/session.rs] on SQLite. A session row is inserted in a
    transaction that first drops the expired rows and the oldest sessions of the
    user, so that a user holds a bounded number; every lookup ignores expired
    rows. *)

From S2P Require Import Prelude Text BTreeMap Externals Auth IoStreams Rfc3339 Tables.

Module Sessions.
Import Tables.

Definition MAX_ACTIVE_SESSIONS_PER_USER : Z := 32.
Definition MAX_RAW_SESSION_TOKEN_BYTES : Z := 128.
Definition MAX_SESSION_TOKEN_HASH_BYTES : Z := 128.
Definition MAX_SESSION_ID_BYTES : Z := 64.
Definition MAX_SESSION_IP_BYTES : Z := 128.
Definition MAX_SESSION_USER_AGENT_BYTES : Z := 512.

Record Session := {
  id : rstr; user_id : Z; token_hash : rstr; ip : option rstr; user_agent : option rstr; expires_at : Z; created_at : Z;
}.
Record CreateSessionInput := {
  in_user_id : Z; in_ip : option rstr; in_user_agent : option rstr; in_expires_at : Z;
}.

(** [u8::is_ascii_control] and [u8::is_ascii_whitespace]. *)
Definition is_ascii_control (b : Z) : bool := (b <? 32) || (b =? 127).
Definition is_ascii_whitespace (b : Z) : bool := (b =? 32) || (b =? 9) || (b =? 10) || (b =? 12) || (b =? 13).
Definition is_ascii (s : rstr) : bool := forallb (fun c => c <? 128) s.
Definition has_blank (s : rstr) : bool := existsb (fun b => is_ascii_control b || is_ascii_whitespace b) (str_bytes s).

Definition is_valid_raw_session_token (token : rstr) : bool :=
  negb (is_empty token) && (byte_len token <=? MAX_RAW_SESSION_TOKEN_BYTES) && is_ascii token && negb (has_blank token).

Definition validate_token_hash (token_hash : rstr) : result Why rstr :=
  if is_empty token_hash || (MAX_SESSION_TOKEN_HASH_BYTES <? byte_len token_hash) || negb (is_ascii token_hash)
     || has_blank token_hash
  then Err InvalidTokenHash else Ok token_hash.

Definition sanitize_optional_metadata (value : option rstr) (max_bytes : Z) : option rstr :=
  raw ← value;
  let filtered := filter (fun c => is_control c = false) raw in
  let trimmed := trim filtered in
  if is_empty trimmed then None else
  let end_ := IoStreams.back_to_boundary trimmed (Z.to_nat (Z.min (byte_len trimmed) max_bytes)) in
  if (end_ =? 0)%nat then None else IoStreams.prefix_bytes trimmed (Z.of_nat end_).

Section sessions.
Context {E : Type} `{UuidLib, Rfc3339, Auth.Crypto} (o : Oracle E).

Definition parse_session_rfc3339 (value : rstr) : option Z := parse_from_rfc3339 value.

Definition row_to_session_sqlite (r : SessionRow) : option Session :=
  _ ← uuid_parse (sr_id r);
  user ← uuid_parse (sr_user_id r);
  expires ← parse_session_rfc3339 (sr_expires_at r);
  created ← parse_session_rfc3339 (sr_created_at r);
  Some {| id := sr_id r; user_id := user; token_hash := sr_token_hash r; ip := sr_ip r; user_agent := sr_user_agent r;
          expires_at := expires; created_at := created |}.

(** [ORDER BY created_at DESC, rowid DESC]: rows are paired with their row id. *)
Definition newer (p q : nat * SessionRow) : Prop :=
  str_ltb (sr_created_at q.2) (sr_created_at p.2) = true
  ∨ (sr_created_at q.2 = sr_created_at p.2 ∧ (q.1 <= p.1)%nat).
#[global] Instance newer_dec p q : Decision (newer p q).
Proof. unfold newer. apply _. Defined.

(** [SELECT id FROM sessions WHERE user_id = ? AND expires_at > ? ORDER BY ... LIMIT ?]. *)
Definition newest_sessions (user now : rstr) (limit : Z) (t : list SessionRow) : list SessionRow :=
  snd <$> take (Z.to_nat limit)
    (merge_sort newer (filter (fun p => sr_user_id p.2 = user ∧ str_ltb now (sr_expires_at p.2) = true) (imap pair t))).

(** The transaction of [create]. The unique index on the token hash and the
    primary key can refuse the row, and so can the reference to the user. *)
Definition create_rows (row : SessionRow) (now : rstr) (limit : Z) (t : Tables) : result Why unit * Tables :=
  let live := filter (fun r => str_leb (sr_expires_at r) now = false) (sessions t) in
  let keep := newest_sessions (sr_user_id row) now limit live in
  let rows := filter (fun r => sr_user_id r = sr_user_id row → sr_id r ∈ (sr_id <$> keep)) live in
  if bool_decide (sr_id row ∈ (sr_id <$> rows) ∨ sr_token_hash row ∈ (sr_token_hash <$> rows)
                  ∨ sr_user_id row ∉ (ur_id <$> users t))
  then (Err ConstraintViolated, t)
  else (Ok (), set_sessions (rows ++ [row]) t).

Definition create (input : CreateSessionInput) (token_hash : rstr) : M (Anyhow E) Session :=
  token_hash ← with_err Bail (lift (validate_token_hash token_hash));
  now ← utc_now o;
  if in_expires_at input <=? now then fail (Bail SessionExpirationPast) else
  uuid ← now_v7 o;
  let id := uuid_to_string uuid in
  let ip := sanitize_optional_metadata (in_ip input) MAX_SESSION_IP_BYTES in
  let user_agent := sanitize_optional_metadata (in_user_agent input) MAX_SESSION_USER_AGENT_BYTES in
  let max_existing := saturating_sub MAX_ACTIVE_SESSIONS_PER_USER 1 in
  let row := {| sr_id := id; sr_user_id := uuid_to_string (in_user_id input); sr_token_hash := token_hash; sr_ip := ip;
                sr_user_agent := user_agent; sr_expires_at := to_rfc3339 (in_expires_at input);
                sr_created_at := to_rfc3339 now |} in
  sql o (create_rows row (to_rfc3339 now) max_existing);;
  mret {| id := id; user_id := in_user_id input; token_hash := token_hash; ip := ip; user_agent := user_agent;
          expires_at := in_expires_at input; created_at := now |}.

(** The tail the two lookups share: an invalid row is treated as not found. *)
Definition live_session (now : Z) (row : option SessionRow) : option Session :=
  r ← row; s ← row_to_session_sqlite r; if now <? expires_at s then Some s else None.

Definition find_by_token_hash (token_hash : rstr) : M (Anyhow E) (option Session) :=
  match validate_token_hash token_hash with
  | Err _ => mret None
  | Ok token_hash =>
      now ← utc_now o;
      row ← select o (fun t => head (filter (fun r => sr_token_hash r = token_hash
                                              ∧ str_ltb (to_rfc3339 now) (sr_expires_at r) = true) (sessions t)));
      mret (live_session now row)
  end.

Definition find_by_token (token : rstr) : M (Anyhow E) (option Session) :=
  if negb (is_valid_raw_session_token token) then mret None else find_by_token_hash (Auth.hash_token token).

Definition find_by_id (session_id : rstr) : M (Anyhow E) (option Session) :=
  if is_empty session_id || (MAX_SESSION_ID_BYTES <? byte_len session_id) then mret None else
  match uuid_parse session_id with
  | None => mret None
  | Some parsed =>
      if negb (bool_decide (uuid_to_string parsed = session_id)) then mret None else
      now ← utc_now o;
      row ← select o (fun t => head (filter (fun r => sr_id r = session_id
                                              ∧ str_ltb (to_rfc3339 now) (sr_expires_at r) = true) (sessions t)));
      mret (live_session now row)
  end.

Definition delete (session_id : rstr) : M (Anyhow E) unit :=
  if is_empty session_id || (MAX_SESSION_ID_BYTES <? byte_len session_id) then fail (Bail InvalidSessionId) else
  execute o (fun t => set_sessions (filter (fun r => sr_id r ≠ session_id) (sessions t)) t).

(** [rows_affected] of a [DELETE] that keeps the rows with [keep]. *)
Definition delete_where (keep : SessionRow → bool) : M (Anyhow E) Z :=
  sql o (fun t => let rows := filter (fun r => keep r = true) (sessions t) in
                  (Ok (zlen (sessions t) - zlen rows), set_sessions rows t)).

Definition delete_for_user (user_id : Z) : M (Anyhow E) Z :=
  delete_where (fun r => negb (bool_decide (sr_user_id r = uuid_to_string user_id))).

Definition delete_expired : M (Anyhow E) Z :=
  now ← utc_now o; delete_where (fun r => negb (str_leb (sr_expires_at r) (to_rfc3339 now))).
End sessions.

End Sessions.
