(* ===== verification/SessionsProofs.v ===== *)
(** * SessionsProofs: bounds and lookups of sessions

    The table of sessions keeps unique keys and a bounded number of sessions of
    each user; creating one evicts only the expired and the oldest; and a session
    is found by its token until it expires, is deleted or is evicted. *)

From S2P Require Import Prelude Text BTreeMap Externals Auth Rfc3339 Tables Sessions.

Module SessionsProofs.
Import Tables Sessions.

Section sessions.
Context {E : Type} `{UuidLib, Rfc3339, Auth.Crypto} (o : Oracle E).
Implicit Types (t rows : list SessionRow) (r : SessionRow) (w : World).

(** ** The order of eviction *)

#[local] Instance newer_trans : Transitive newer.
Proof.
  intros p q u [H1'|[H1' ?]] [H2'|[H2' ?]].
  - left. exact (str_ltb_trans _ _ _ H2' H1').
  - left. by rewrite H2'.
  - left. by rewrite <- H1'.
  - right. split; [by rewrite H2'|lia].
Qed.

#[local] Instance newer_total : Total newer.
Proof.
  intros [i a] [j b]. unfold newer. cbn. destruct (key_total (K := rstr) (sr_created_at a) (sr_created_at b)) as [?|[He|?]]; auto.
  rewrite He. destruct (decide (j <= i)%nat); [by left; right|]. right; right. split; [done|lia].
Qed.

Lemma newest_sessions_length user now n t : (length (newest_sessions user now n t) <= Z.to_nat n)%nat.
Proof. unfold newest_sessions. rewrite length_fmap, length_take. lia. Qed.

Lemma newest_in user now n t r : r ∈ newest_sessions user now n t → sr_user_id r = user ∧ r ∈ t.
Proof.
  intros ([i r'] & -> & Ht)%list_elem_of_fmap. cbn [snd]. eapply elem_of_sublist in Ht; [|apply sublist_take].
  rewrite merge_sort_Permutation in Ht. apply list_elem_of_filter in Ht as [[Hu _] Hi].
  apply elem_of_lookup_imap in Hi as (j & y & [= -> ->] & Hj). split; [done|]. by eapply list_elem_of_lookup_2.
Qed.

Lemma newest_ids user now n t : NoDup (sr_id <$> t) → NoDup (sr_id <$> newest_sessions user now n t).
Proof.
  intros Hnd. unfold newest_sessions. set (l := filter _ _).
  assert (NoDup (sr_id ∘ snd <$> l)) as Hl.
  { eapply sublist_NoDup; [|apply fmap_sublist, sublist_filter].
    replace (sr_id ∘ snd <$> imap pair t) with (sr_id <$> t); [done|]. rewrite fmap_imap.
    rewrite <- imap_const. by apply imap_ext. }
  rewrite <- list_fmap_compose. eapply sublist_NoDup; [|apply fmap_sublist, sublist_take].
  by rewrite merge_sort_Permutation.
Qed.

(** Who is not among the newest is not newer than any of them, and they are full. *)
Lemma newest_spec user now n t r :
  sr_user_id r = user → str_ltb now (sr_expires_at r) = true → r ∈ t → r ∉ newest_sessions user now n t →
  length (newest_sessions user now n t) = Z.to_nat n
  ∧ ∀ s, s ∈ newest_sessions user now n t → str_ltb (sr_created_at s) (sr_created_at r) = false.
Proof.
  intros Hu He Hin Hnot. unfold newest_sessions in *. set (l := filter _ _) in *. set (k := Z.to_nat n) in *.
  apply list_elem_of_lookup in Hin as [i Hi].
  assert ((i, r) ∈ merge_sort newer l) as Hs.
  { rewrite merge_sort_Permutation. apply list_elem_of_filter. split; [done|]. apply elem_of_lookup_imap. by exists i, r. }
  assert ((i, r) ∉ take k (merge_sort newer l)) as Hnt.
  { intros Ht. apply Hnot, list_elem_of_fmap. by exists (i, r). }
  rewrite <- (take_drop k (merge_sort newer l)) in Hs. apply elem_of_app in Hs as [?|Hd]; [done|].
  assert (k < length (merge_sort newer l))%nat as Hk.
  { destruct (decide (k < length (merge_sort newer l))%nat); [done|]. rewrite drop_ge in Hd by lia. by apply not_elem_of_nil in Hd. }
  rewrite length_fmap, length_take. split; [lia|]. intros s ([j s'] & -> & Ht)%list_elem_of_fmap. cbn [snd].
  pose proof (StronglySorted_merge_sort newer l) as Hsort. rewrite <- (take_drop k (merge_sort newer l)) in Hsort.
  eapply StronglySorted_app_1_elem_of in Hsort; [|exact Ht|exact Hd].
  destruct Hsort as [Hlt|[Heq _]]; cbn in *.
  - destruct (str_ltb (sr_created_at s') (sr_created_at r)) eqn:Hb; [|done].
    pose proof (str_ltb_trans _ _ _ Hb Hlt) as Hc. by rewrite str_ltb_irrefl in Hc.
  - rewrite Heq. apply str_ltb_irrefl.
Qed.
(** ** The invariant *)

Definition sessions_of (user : rstr) t : list SessionRow := filter (fun r => sr_user_id r = user) t.

Record sessions_ok t : Prop := {
  so_ids : NoDup (sr_id <$> t);
  so_hashes : NoDup (sr_token_hash <$> t);
  so_bound : ∀ user, zlen (sessions_of user t) <= MAX_ACTIVE_SESSIONS_PER_USER;
  so_times : Forall (fun r => ∃ e, era e ∧ sr_expires_at r = to_rfc3339 e) t;
}.

Lemma filter_sublist (P : SessionRow → Prop) `{!∀ r, Decision (P r)} t t' :
  sublist t t' → sublist (filter P t) (filter P t').
Proof.
  induction 1 as [|r t t' _ IH|r t t' _ IH]; [done|..]; rewrite !filter_cons; case_decide;
    [by apply sublist_skip|done|by apply sublist_cons|done].
Qed.

Lemma sessions_ok_sublist t t' : sublist t' t → sessions_ok t → sessions_ok t'.
Proof.
  intros Hs [H1' H2' H3' H4']. split.
  - eapply sublist_NoDup; [exact H1'|]. by apply fmap_sublist.
  - eapply sublist_NoDup; [exact H2'|]. by apply fmap_sublist.
  - intros user. pose proof (sublist_length _ _ (filter_sublist (fun r => sr_user_id r = user) _ _ Hs)) as Hl.
    specialize (H3' user). unfold zlen, sessions_of in *. lia.
  - apply Forall_forall. intros r Hr. eapply (proj1 (Forall_forall _ _) H4'), elem_of_sublist; done.
Qed.

(** The rows a new session of [user] leaves. *)
Definition kept_rows (user now : rstr) (limit : Z) t : list SessionRow :=
  let live := filter (fun r => str_leb (sr_expires_at r) now = false) t in
  filter (fun r => sr_user_id r = user → sr_id r ∈ (sr_id <$> newest_sessions user now limit live)) live.

Lemma kept_sublist user now limit t : sublist (kept_rows user now limit t) t.
Proof. unfold kept_rows. etransitivity; apply sublist_filter. Qed.

Lemma kept_bound user now limit t :
  NoDup (sr_id <$> t) → 0 <= limit → zlen (sessions_of user (kept_rows user now limit t)) <= limit.
Proof.
  intros Hnd Hl. set (rows := kept_rows user now limit t).
  set (keep := newest_sessions user now limit (filter (fun r => str_leb (sr_expires_at r) now = false) t)).
  assert (sr_id <$> sessions_of user rows ⊆+ (sr_id <$> keep)) as Hsub.
  { apply NoDup_submseteq.
    - eapply sublist_NoDup; [exact Hnd|]. apply fmap_sublist. unfold sessions_of.
      etransitivity; [apply sublist_filter|apply kept_sublist].
    - intros x (r & -> & Hr)%list_elem_of_fmap. apply list_elem_of_filter in Hr as [Hu Hr].
      apply list_elem_of_filter in Hr as [Hk _]. by apply Hk. }
  apply submseteq_length in Hsub. rewrite !length_fmap in Hsub. unfold keep in Hsub.
  pose proof (newest_sessions_length user now limit (filter (fun r => str_leb (sr_expires_at r) now = false) t)). unfold zlen. lia.
Qed.

Lemma create_rows_Ok row now limit (t t' : Tables) :
  create_rows row now limit t = (Ok (), t') →
  t' = set_sessions (kept_rows (sr_user_id row) now limit (sessions t) ++ [row]) t
  ∧ sr_id row ∉ (sr_id <$> kept_rows (sr_user_id row) now limit (sessions t))
  ∧ sr_token_hash row ∉ (sr_token_hash <$> kept_rows (sr_user_id row) now limit (sessions t)).
Proof.
  unfold create_rows. fold (kept_rows (sr_user_id row) now limit (sessions t)).
  case_bool_decide as Hc; [done|]. intros [= <-]. naive_solver.
Qed.

Lemma create_rows_invariant row now limit (t t' : Tables) e :
  sessions_ok (sessions t) → 0 <= limit < MAX_ACTIVE_SESSIONS_PER_USER → era e → sr_expires_at row = to_rfc3339 e →
  create_rows row now limit t = (Ok (), t') → sessions_ok (sessions t').
Proof.
  intros Hok Hl He Hrow (-> & Hid & Hhash)%create_rows_Ok. cbn [sessions set_sessions].
  pose proof (sessions_ok_sublist _ _ (kept_sublist (sr_user_id row) now limit (sessions t)) Hok) as [H1' H2' H3' H4'].
  split; rewrite ?fmap_app.
  - apply NoDup_app. split; [done|]. split; [|apply NoDup_singleton]. intros x Hx ->%list_elem_of_singleton. done.
  - apply NoDup_app. split; [done|]. split; [|apply NoDup_singleton]. intros x Hx ->%list_elem_of_singleton. done.
  - intros user. unfold sessions_of. rewrite filter_app. unfold zlen. rewrite length_app, Nat2Z.inj_add.
    destruct (decide (sr_user_id row = user)) as [<-|Hne].
    + rewrite filter_cons_True by done. pose proof (kept_bound (sr_user_id row) now limit (sessions t) (so_ids _ Hok) (proj1 Hl)) as Hb.
      unfold sessions_of, zlen in Hb. cbn [length filter list_filter]. lia.
    + rewrite filter_cons_False by done. cbn [length filter list_filter]. specialize (H3' user). unfold sessions_of, zlen in H3'. lia.
  - apply Forall_app. split; [done|]. apply Forall_singleton. by exists e.
Qed.

(** ** Creation *)

(** The clock stays where texts compare like times, and UUIDs are 128 bits wide. *)
Definition oracle_ok : Prop := (∀ i, era (clock o i)) ∧ ∀ i, uuid_ok (uuid_v7 o i).

(** A creation that succeeds: the row it inserted, among those it left. *)
Lemma create_Ok input hash w s w' :
  create o input hash w = (Ok s, w') →
  ∃ now row u,
    now = clock o (tick w) ∧ now < in_expires_at input ∧ u = uuid_v7 o (S (tick w))
    ∧ s = {| id := uuid_to_string u; user_id := in_user_id input; token_hash := hash; ip := sr_ip row;
             user_agent := sr_user_agent row; expires_at := in_expires_at input; created_at := now |}
    ∧ sr_id row = uuid_to_string u ∧ sr_user_id row = uuid_to_string (in_user_id input) ∧ sr_token_hash row = hash
    ∧ sr_expires_at row = to_rfc3339 (in_expires_at input) ∧ sr_created_at row = to_rfc3339 now
    ∧ validate_token_hash hash = Ok hash
    ∧ create_rows row (to_rfc3339 now) 31 (db w) = (Ok (), db w').
Proof.
  unfold create. intros (h & w1 & Hh & Hr)%run_bind_Ok. apply run_with_err_Ok in Hh. unfold lift in Hh.
  injection Hh as Hh <-. assert (h = hash) as ->.
  { unfold validate_token_hash in Hh. destruct (_ || _); [done|]. by injection Hh. }
  apply run_bind_Ok in Hr as (now & w1 & Hn & Hr). injection Hn as <- <-.
  destruct (in_expires_at input <=? clock o (tick w)) eqn:Hexp; [done|]. bool_prop.
  apply run_bind_Ok in Hr as (u & w1 & Hu & Hr). injection Hu as <- <-.
  apply run_bind_Ok in Hr as ([] & w1 & Hs & Hr). injection Hr as <- <-. unfold sql in Hs.
  destruct (fault o _); [done|]. destruct (create_rows _ _ _ _) as [[[]|] t] eqn:Hc; [|done]. injection Hs as <-.
  lazymatch type of Hc with create_rows ?row _ _ _ = _ => exists (clock o (tick w)), row, (uuid_v7 o (S (tick w))) end.
  split; [done|]. split; [done|]. by repeat (split; [reflexivity|]).
Qed.

Lemma create_Err input hash w e w' : create o input hash w = (Err e, w') → db w' = db w.
Proof.
  unfold create. intros [(h & w1 & Hh & Hr)|(e' & Hh & _)]%run_bind.
  2:{ unfold with_err, lift in Hh. destruct (validate_token_hash hash); [done|]. by injection Hh as _ <-. }
  apply run_with_err_Ok in Hh. injection Hh as _ <-.
  apply run_bind in Hr as [(now & w1 & Hn & Hr)|(e' & Hn & _)]; [|done]. injection Hn as <- <-.
  destruct (_ <=? _); [by injection Hr as _ <-|].
  apply run_bind in Hr as [(u & w1 & Hu & Hr)|(e' & Hu & _)]; [|done]. injection Hu as <- <-.
  apply run_bind in Hr as [(x & w1 & Hs & Hr)|(e' & Hs & _)]; [done|]. unfold sql in Hs.
  destruct (fault o _); [by injection Hs as _ <-|]. destruct (create_rows _ _ _ _) as [[[]|] t]; [done|]. by injection Hs as _ <-.
Qed.

Lemma create_invariant input hash w res w' :
  era (in_expires_at input) → sessions_ok (sessions (db w)) →
  create o input hash w = (res, w') → sessions_ok (sessions (db w')).
Proof.
  intros He Hok. destruct res as [s|e].
  - intros (now & row & u & -> & _ & _ & _ & _ & _ & _ & Hexp & _ & _ & Hc)%create_Ok.
    eapply create_rows_invariant; [exact Hok| |exact He|exact Hexp|exact Hc]. done.
  - intros Hc. replace (db w') with (db w); [done|]. symmetry. by eapply create_Err.
Qed.

(** ** Lookup *)

Lemma head_filter_unique {A} (P : A → Prop) `{!∀ a, Decision (P a)} (f : A → rstr) (k : rstr) l a :
  NoDup (f <$> l) → a ∈ l → f a = k → (∀ b, P b → f b = k) →
  head (filter P l) = if decide (P a) then Some a else None.
Proof.
  intros Hnd Ha Hk HP. assert (∀ b, b ∈ l → f b = k → b = a) as Huniq.
  { intros b Hb Hbk. apply list_elem_of_lookup in Ha as [i Hi], Hb as [j Hj].
    assert (i = j) as ->; [|congruence]. eapply NoDup_lookup; [exact Hnd| |]; rewrite list_lookup_fmap;
    [by rewrite Hi|rewrite Hj; cbn; by rewrite Hk, Hbk]. }
  destruct (filter P l) as [|b q] eqn:Hf.
  - rewrite decide_False; [done|]. intros Hp. assert (a ∈ filter P l) as Hin by by apply list_elem_of_filter.
    rewrite Hf in Hin. by apply not_elem_of_nil in Hin.
  - assert (b ∈ filter P l) as [Hp Hb]%list_elem_of_filter by (rewrite Hf; left). cbn.
    pose proof (Huniq b Hb (HP b Hp)) as ->. by rewrite decide_True.
Qed.

Definition row_of (u user : Z) (row : SessionRow) (e c : Z) : Prop :=
  sr_id row = uuid_to_string u ∧ sr_user_id row = uuid_to_string user
  ∧ sr_expires_at row = to_rfc3339 e ∧ sr_created_at row = to_rfc3339 c.

Lemma row_to_session_roundtrip u user row e c :
  uuid_ok u → uuid_ok user → era e → era c → row_of u user row e c →
  row_to_session_sqlite row =
    Some {| id := uuid_to_string u; user_id := user; token_hash := sr_token_hash row; ip := sr_ip row;
            user_agent := sr_user_agent row; expires_at := e; created_at := c |}.
Proof.
  intros Hu Huser He Hc (H1' & H2' & H3' & H4'). unfold row_to_session_sqlite, parse_session_rfc3339.
  rewrite H1', H2', H3', H4', !uuid_roundtrip, !rfc3339_roundtrip by done. done.
Qed.

(** Looking up the hash of a row that is in the table. *)
Lemma find_row_exact u user row e c w :
  oracle_ok → uuid_ok u → uuid_ok user → era e → era c → row_of u user row e c →
  validate_token_hash (sr_token_hash row) = Ok (sr_token_hash row) →
  NoDup (sr_token_hash <$> sessions (db w)) → row ∈ sessions (db w) → fault o (S (tick w)) = None →
  (find_by_token_hash o (sr_token_hash row) w).1 =
    Ok (if clock o (tick w) <? e
        then Some {| id := uuid_to_string u; user_id := user; token_hash := sr_token_hash row; ip := sr_ip row;
                     user_agent := sr_user_agent row; expires_at := e; created_at := c |}
        else None).
Proof.
  intros [Hclock _] Hu Huser He Hc Hrow Hv Hnd Hin Hf. unfold find_by_token_hash. rewrite Hv.
  unfold mbind, M_bind, utc_now, select, sql, mret, M_ret. cbn [tick bump]. rewrite Hf. cbn [db bump fst].
  rewrite (head_filter_unique _ sr_token_hash (sr_token_hash row) _ row Hnd Hin eq_refl) by naive_solver.
  destruct Hrow as (H1' & H2' & H3' & H4'). f_equal. rewrite H3', rfc3339_order by done.
  destruct (clock o (tick w) <? e) eqn:Hlt.
  - rewrite decide_True by done. unfold live_session. cbn [mbind option_bind].
    rewrite (row_to_session_roundtrip u user row e c) by done. cbn [mbind option_bind expires_at]. by rewrite Hlt.
  - rewrite decide_False by naive_solver. done.
Qed.

(** a session lives exactly until it expires: after a creation succeeded, as
    long as its row has not been removed from a table with unique hashes, looking
    up the token hash gives the session that was returned at every time before
    the requested expiry, and nothing from then on. *)
Theorem session_lookup_exact input hash w s w' w2 :
  oracle_ok → uuid_ok (in_user_id input) → era (in_expires_at input) →
  create o input hash w = (Ok s, w') →
  (∀ r, sr_token_hash r = hash → r ∈ sessions (db w') → r ∈ sessions (db w2)) →
  NoDup (sr_token_hash <$> sessions (db w2)) → fault o (S (tick w2)) = None →
  (find_by_token_hash o hash w2).1 = Ok (if clock o (tick w2) <? in_expires_at input then Some s else None).
Proof.
  intros Ho Huser He (now & row & u & -> & Hlt & -> & -> & H1' & H2' & H3' & H4' & H5' & Hv & Hc)%create_Ok Hkeep Hnd Hf.
  apply create_rows_Ok in Hc as (Ht & _ & _). subst hash.
  apply (find_row_exact _ _ row _ (clock o (tick w)) w2); try done; [apply Ho|apply Ho|]. apply Hkeep; [done|].
  rewrite Ht. cbn [sessions set_sessions]. apply elem_of_app. right. by apply list_elem_of_singleton.
Qed.

(** creating a session evicts fairly: a row that disappears had expired, or
    belonged to the same user, who then keeps 31 other sessions, each created no
    earlier than the evicted one; every other row stays, and the new one is added. *)
Theorem session_eviction_fair input hash w s w' r :
  create o input hash w = (Ok s, w') → NoDup (sr_id <$> sessions (db w)) → r ∈ sessions (db w) →
  let now := to_rfc3339 (clock o (tick w)) in
  let user := uuid_to_string (in_user_id input) in
  r ∈ sessions (db w')
  ∨ str_leb (sr_expires_at r) now = true
  ∨ sr_user_id r = user
    ∧ ∃ kept, NoDup (sr_id <$> kept) ∧ zlen kept = 31
        ∧ ∀ k, k ∈ kept → k ∈ sessions (db w') ∧ k ≠ r ∧ sr_user_id k = user
                          ∧ str_ltb (sr_created_at k) (sr_created_at r) = false.
Proof.
  intros (at_ & row & u & -> & _ & _ & _ & _ & H2' & _ & _ & _ & _ & Hc)%create_Ok Hnd Hin now user.
  apply create_rows_Ok in Hc as (-> & _ & _). cbn [sessions set_sessions]. rewrite H2'. fold now user.
  destruct (str_leb (sr_expires_at r) now) eqn:He; [by right; left|].
  set (live := filter (fun r => str_leb (sr_expires_at r) now = false) (sessions (db w))).
  assert (r ∈ live) as Hlive by by apply list_elem_of_filter.
  destruct (decide (sr_user_id r = user → sr_id r ∈ (sr_id <$> newest_sessions user now 31 live))) as [Hk|Hk].
  { left. apply elem_of_app. left. by apply list_elem_of_filter. }
  right; right. destruct (decide (sr_user_id r = user)) as [Hu|Hu]; [|by destruct Hk]. split; [done|].
  assert (r ∉ newest_sessions user now 31 live) as Hnot.
  { intros Hn. apply Hk. intros _. by apply list_elem_of_fmap_2. }
  destruct (newest_spec user now 31 live r) as [Hlen Hnew]; [done| |done|done|].
  { unfold str_leb in He. by apply negb_false_iff in He. }
  exists (newest_sessions user now 31 live). split; [|split; [unfold zlen; by rewrite Hlen|]].
  - apply newest_ids. eapply sublist_NoDup; [exact Hnd|]. apply fmap_sublist, sublist_filter.
  - intros k Hkin. pose proof (newest_in _ _ _ _ _ Hkin) as [Hku Hkl]. split; [|split; [by intros ->|auto]].
    apply elem_of_app. left. apply list_elem_of_filter. split; [|done]. intros _. by apply list_elem_of_fmap_2.
Qed.

(** ** Any sequence of operations *)

Inductive session_op (w : World) : World → Prop :=
| op_create input hash res w' : era (in_expires_at input) → create o input hash w = (res, w') → session_op w w'
| op_delete i res w' : delete o i w = (res, w') → session_op w w'
| op_delete_for_user u res w' : delete_for_user o u w = (res, w') → session_op w w'
| op_delete_expired res w' : delete_expired o w = (res, w') → session_op w w'
| op_find hash res w' : find_by_token_hash o hash w = (res, w') → session_op w w'
| op_other w' : sessions (db w') = sessions (db w) → session_op w w'.

Lemma delete_where_sub keep w res w' : delete_where o keep w = (res, w') → sublist (sessions (db w')) (sessions (db w)).
Proof.
  unfold delete_where, sql. destruct (fault o (tick w)); intros [= _ <-]; [done|]. apply sublist_filter.
Qed.

Lemma session_op_sub w w' :
  session_op w w' → sublist (sessions (db w')) (sessions (db w)) ∨ ∃ input hash res, era (in_expires_at input) ∧ create o input hash w = (res, w').
Proof.
  intros [input hash res w1 He Hc|i res w1 Hd|u res w1 Hd|res w1 Hd|hash res w1 Hf|w1 Hs]; [right; by exists input, hash, res|left..].
  - unfold delete in Hd. destruct (_ || _); [by injection Hd as _ <-|]. unfold execute, sql in Hd.
    destruct (fault o (tick w)); injection Hd as _ <-; [done|]. apply sublist_filter.
  - by eapply delete_where_sub.
  - unfold delete_expired in Hd. apply run_bind in Hd as [(now & w2 & Hn & Hd)|(e & Hn & _)]; [|done].
    injection Hn as _ <-. apply delete_where_sub in Hd. done.
  - unfold find_by_token_hash in Hf. destruct (validate_token_hash hash); [|by injection Hf as _ <-].
    unfold mbind, M_bind, utc_now, select, sql in Hf. cbn [bump tick db] in Hf. destruct (fault o _); by injection Hf as _ <-.
  - by rewrite Hs.
Qed.

(** the table of sessions stays in order whatever is done to it: starting from
    an empty table, after any sequence of creations, deletions, expiries and
    lookups, failed statements included, ids and token hashes are unique, every
    expiry is a time, and no user holds more than 32 sessions. *)
Theorem session_table_invariant w w' :
  sessions (db w) = [] → rtc session_op w w' → sessions_ok (sessions (db w')).
Proof.
  intros H0'. assert (sessions_ok (sessions (db w))) as Hok.
  { rewrite H0'. split; cbn; [constructor|constructor|by intros|constructor]. }
  clear H0'. induction 1 as [|x y z Hop _ IH]; [done|]. apply IH.
  destruct (session_op_sub _ _ Hop) as [Hsub|(input & hash & res & He & Hc)]; [by eapply sessions_ok_sublist|].
  by eapply create_invariant.
Qed.
End sessions.
End SessionsProofs.
