(* ===== verification/Users.v ===== *)
(** * Users: the repositories of users and of personal access tokens

    [crates/server/src/db/repository/user.rs] and [pat.rs] on SQLite. Argon2 and
    the decoding of a JSON array of strings are parameters. *)

From S2P Require Import Prelude Text BTreeMap Externals Auth Secrets Rfc3339 Tables.

Module Users.
Import Tables.

Definition USER_PASSWORD_MAX_BYTES : Z := 1024.
Definition USER_USERNAME_MAX_BYTES : Z := 255.

Record User := {
  id : Z; username : rstr; password_hash : rstr; role : Auth.UserRole; token_version : Z; created_at : Z; updated_at : Z;
}.
Record CreateUserInput := { cu_username : rstr; cu_password : rstr; cu_role : Auth.UserRole }.

(** The [argon2] crate: whether a text is a password hash, whether a password is
    the one that was hashed, and hashing with a salt. *)
Class Argon2 : Type := {
  password_hash_new : rstr → bool;
  argon2_verify : rstr → list Z → bool;
  argon2_hash : list Z → list Z → option rstr;     (** password, salt *)
  argon2_sound p s h : argon2_hash p s = Some h → password_hash_new h = true ∧ argon2_verify h p = true;
}.

Definition validate_username (username : rstr) : result Why unit :=
  if is_empty (trim username) || (USER_USERNAME_MAX_BYTES <? byte_len username) || contains 0 username
  then Err InvalidUsername else Ok ().

Definition validate_user_password (password : rstr) : result Why unit :=
  if is_empty password || (USER_PASSWORD_MAX_BYTES <? byte_len password) || contains 0 password
  then Err InvalidPassword else Ok ().

Section users.
Context {E : Type} `{UuidLib, Rfc3339, Argon2, Secrets.SecretLib} (cell : option Secrets.SecretCrypto) (o : Oracle E).
Abbreviation MM := (M (Anyhow E)).

Definition sqlite_user_from_row (r : UserRow) : option User :=
  i ← uuid_parse (ur_id r);
  role ← match Auth.role_from_str (ur_role r) with Ok x => Some x | Err _ => None end;
  created ← parse_from_rfc3339 (ur_created_at r);
  updated ← parse_from_rfc3339 (ur_updated_at r);
  Some {| id := i; username := ur_username r; password_hash := ur_password_hash r; role := role;
          token_version := ur_token_version r; created_at := created; updated_at := updated |}.

Definition hash_password (password : rstr) : MM rstr :=
  with_err Bail (lift (validate_user_password password));;
  salt ← random_bytes o;
  with_err Bail (lift (ok_or (argon2_hash (str_bytes password) salt) HashFailed)).

Definition verify_password (user : User) (password : rstr) : result Why bool :=
  if negb (is_ok (validate_user_password password)) then Ok false else
  if negb (password_hash_new (password_hash user)) then Err BadPasswordHash
  else Ok (argon2_verify (password_hash user) (str_bytes password)).

(** The primary key, the unique user name and the [CHECK] of the role. *)
Definition insert_user (row : UserRow) (t : Tables) : result Why unit * Tables :=
  if bool_decide (ur_id row ∈ (ur_id <$> users t) ∨ ur_username row ∈ (ur_username <$> users t))
     || negb (is_ok (Auth.role_from_str (ur_role row)))
  then (Err ConstraintViolated, t) else (Ok (), set_users (users t ++ [row]) t).

(** [UserId::new] is a version 7 UUID. *)
Definition create (input : CreateUserInput) : MM User :=
  with_err Bail (lift (validate_username (cu_username input)));;
  uuid ← now_v7 o;
  password_hash ← hash_password (cu_password input);
  now ← utc_now o;
  sql o (insert_user {| ur_id := uuid_to_string uuid; ur_username := cu_username input; ur_password_hash := password_hash;
                        ur_role := Auth.role_display (cu_role input); ur_token_version := 0; ur_totp_secret := None;
                        ur_totp_enabled := 0; ur_created_at := to_rfc3339 now; ur_updated_at := to_rfc3339 now |});;
  mret {| id := uuid; username := cu_username input; password_hash := password_hash; role := cu_role input;
          token_version := 0; created_at := now; updated_at := now |}.

Definition count_admins : MM Z :=
  select o (fun t => zlen (filter (fun r => ur_role r = lit "admin") (users t))).

Definition find_by_id (user_id : Z) : MM (option User) :=
  row ← select o (fun t => head (filter (fun r => ur_id r = uuid_to_string user_id) (users t)));
  mret (row ≫= sqlite_user_from_row).

Definition find_by_username (name : rstr) : MM (option User) :=
  row ← select o (fun t => head (filter (fun r => ur_username r = name) (users t)));
  mret (row ≫= sqlite_user_from_row).

(** [UPDATE users SET ... WHERE id = ?]. *)
Definition update_users (user_id : Z) (f : UserRow → UserRow) : MM unit :=
  execute o (fun t => set_users ((fun r => if bool_decide (ur_id r = uuid_to_string user_id) then f r else r) <$> users t) t).

Definition set_role role updated r : UserRow :=
  {| ur_id := ur_id r; ur_username := ur_username r; ur_password_hash := ur_password_hash r; ur_role := role;
     ur_token_version := ur_token_version r; ur_totp_secret := ur_totp_secret r; ur_totp_enabled := ur_totp_enabled r;
     ur_created_at := ur_created_at r; ur_updated_at := updated |}.
Definition set_password hash updated r : UserRow :=
  {| ur_id := ur_id r; ur_username := ur_username r; ur_password_hash := hash; ur_role := ur_role r;
     ur_token_version := ur_token_version r + 1; ur_totp_secret := ur_totp_secret r; ur_totp_enabled := ur_totp_enabled r;
     ur_created_at := ur_created_at r; ur_updated_at := updated |}.
Definition set_totp secret enabled updated r : UserRow :=
  {| ur_id := ur_id r; ur_username := ur_username r; ur_password_hash := ur_password_hash r; ur_role := ur_role r;
     ur_token_version := ur_token_version r; ur_totp_secret := secret; ur_totp_enabled := enabled;
     ur_created_at := ur_created_at r; ur_updated_at := updated |}.

Definition update_role (user_id : Z) (role : Auth.UserRole) : MM (option User) :=
  now ← utc_now o;
  update_users user_id (set_role (Auth.role_display role) (to_rfc3339 now));;
  find_by_id user_id.

Definition reset_password (user_id : Z) (password : rstr) : MM (option User) :=
  hash ← hash_password password;
  now ← utc_now o;
  update_users user_id (set_password hash (to_rfc3339 now));;
  find_by_id user_id.

Definition totp_config (user_id : Z) : MM (option rstr * bool) :=
  row ← select o (fun t => head (filter (fun r => ur_id r = uuid_to_string user_id) (users t)));
  let '(secret, enabled) :=
    match row with Some r => (ur_totp_secret r, negb (ur_totp_enabled r =? 0)) | None => (None, false) end in
  secret ← with_err (fun _ => Bail SecretFailed) (lift (Secrets.decrypt_optional_secret (E := E) cell secret));
  mret (secret, enabled).

Definition set_totp_secret (user_id : Z) (secret : rstr) (enabled : bool) : MM unit :=
  now ← utc_now o;
  nonce ← random_bytes o;
  secret ← with_err (fun _ => Bail SecretFailed) (lift (Secrets.encrypt_secret (E := E) cell (Some nonce) secret));
  update_users user_id (set_totp (Some secret) (if enabled then 1 else 0) (to_rfc3339 now)).

Definition set_totp_enabled (user_id : Z) (enabled : bool) : MM unit :=
  now ← utc_now o;
  update_users user_id (fun r => set_totp (ur_totp_secret r) (if enabled then 1 else 0) (to_rfc3339 now) r).

Definition disable_totp (user_id : Z) : MM unit :=
  now ← utc_now o;
  update_users user_id (set_totp None 0 (to_rfc3339 now)).

(** [DELETE FROM users WHERE id = ?]; sessions and tokens are declared
    [ON DELETE CASCADE]. *)
Definition delete_rows (key : rstr) (t : Tables) : Tables :=
  {| users := filter (fun r => ur_id r ≠ key) (users t);
     sessions := if bool_decide (key ∈ (ur_id <$> users t)) then filter (fun r => sr_user_id r ≠ key) (sessions t) else sessions t;
     pats := if bool_decide (key ∈ (ur_id <$> users t)) then filter (fun r => pr_user_id r ≠ key) (pats t) else pats t;
     waf_events := waf_events t; waf_bans := waf_bans t |}.

Definition delete (user_id : Z) : MM bool :=
  affected ← sql o (fun t => let key := uuid_to_string user_id in
                             (Ok (zlen (filter (fun r => ur_id r = key) (users t))), delete_rows key t));
  mret (0 <? affected).
End users.

(** ** Personal access tokens: [pat.rs] *)

Record PersonalAccessToken := {
  p_id : rstr; p_user_id : Z; p_name : rstr; p_token_hash : rstr; p_scopes : list rstr; p_server_ids : option (list rstr);
  p_expires_at : option Z; p_last_used_at : option Z; p_last_used_ip : option rstr; p_created_at : Z; p_revoked_at : option Z;
}.

Definition PAT_RUNTIME_SCOPES_JSON_MAX_BYTES : Z := 16 * 1024.
Definition PAT_RUNTIME_SERVER_IDS_JSON_MAX_BYTES : Z := 8 * 1024.

Section pats.
(** [json_strings] is [serde_json::from_str::<Vec<String>>]. *)
Context {E : Type} `{UuidLib, Rfc3339} (json_strings : rstr → option (list rstr)) (o : Oracle E).
Abbreviation MM := (M (Anyhow E)).

Definition parse_string_array_json (value : rstr) (max_bytes : Z) : option (list rstr) :=
  if max_bytes <? byte_len value then None else json_strings value.

(** [Option<..>::map(..).transpose()] of a fallible reader. *)
Definition optional {A} (f : rstr → option A) (v : option rstr) : option (option A) :=
  match v with None => Some None | Some s => x ← f s; Some (Some x) end.

Definition row_to_pat_sqlite (r : PatRow) : option PersonalAccessToken :=
  user ← uuid_parse (pr_user_id r);
  scopes ← parse_string_array_json (pr_scopes r) PAT_RUNTIME_SCOPES_JSON_MAX_BYTES;
  server_ids ← optional (fun s => parse_string_array_json s PAT_RUNTIME_SERVER_IDS_JSON_MAX_BYTES) (pr_server_ids r);
  if negb (is_ok (Auth.validate_pat_policy_resource_limits scopes server_ids)) then None else
  expires ← optional parse_from_rfc3339 (pr_expires_at r);
  last_used ← optional parse_from_rfc3339 (pr_last_used_at r);
  created ← parse_from_rfc3339 (pr_created_at r);
  revoked ← optional parse_from_rfc3339 (pr_revoked_at r);
  Some {| p_id := pr_id r; p_user_id := user; p_name := pr_name r; p_token_hash := pr_token_hash r; p_scopes := scopes;
          p_server_ids := server_ids; p_expires_at := expires; p_last_used_at := last_used;
          p_last_used_ip := pr_last_used_ip r; p_created_at := created; p_revoked_at := revoked |}.

Definition find_pat_by_token_hash (token_hash : rstr) : MM (option PersonalAccessToken) :=
  row ← select o (fun t => head (filter (fun r => pr_token_hash r = token_hash ∧ pr_revoked_at r = None) (pats t)));
  mret (row ≫= row_to_pat_sqlite).

Definition set_revoked at_ r : PatRow :=
  {| pr_id := pr_id r; pr_user_id := pr_user_id r; pr_name := pr_name r; pr_token_hash := pr_token_hash r;
     pr_scopes := pr_scopes r; pr_server_ids := pr_server_ids r; pr_expires_at := pr_expires_at r;
     pr_last_used_at := pr_last_used_at r; pr_last_used_ip := pr_last_used_ip r; pr_created_at := pr_created_at r;
     pr_revoked_at := Some at_ |}.
Definition set_used at_ ip r : PatRow :=
  {| pr_id := pr_id r; pr_user_id := pr_user_id r; pr_name := pr_name r; pr_token_hash := pr_token_hash r;
     pr_scopes := pr_scopes r; pr_server_ids := pr_server_ids r; pr_expires_at := pr_expires_at r;
     pr_last_used_at := Some at_; pr_last_used_ip := ip; pr_created_at := pr_created_at r; pr_revoked_at := pr_revoked_at r |}.

(** [UPDATE personal_access_tokens SET ... WHERE ... AND revoked_at IS NULL], with its [rows_affected]. *)
Definition update_pats (which : PatRow → bool) (f : PatRow → PatRow) : MM Z :=
  sql o (fun t => let hit r := which r && bool_decide (pr_revoked_at r = None) in
                  (Ok (zlen (filter (fun r => hit r = true) (pats t))),
                   set_pats ((fun r => if hit r then f r else r) <$> pats t) t)).

Definition mark_used (pat_id : rstr) (ip : option rstr) : MM unit :=
  now ← utc_now o;
  update_pats (fun r => bool_decide (pr_id r = pat_id)) (set_used (to_rfc3339 now) ip);;
  mret ().

Definition revoke (pat_id : rstr) (user_id : Z) : MM bool :=
  now ← utc_now o;
  affected ← update_pats (fun r => bool_decide (pr_id r = pat_id) && bool_decide (pr_user_id r = uuid_to_string user_id))
               (set_revoked (to_rfc3339 now));
  mret (0 <? affected).

Definition revoke_all_for_user (user_id : Z) : MM Z :=
  now ← utc_now o;
  update_pats (fun r => bool_decide (pr_user_id r = uuid_to_string user_id)) (set_revoked (to_rfc3339 now)).
End pats.

End Users.
