(* ===== verification/Accounts.v ===== *)
(** * Accounts: login, second factors, bans and user administration

    [crates/server/src/api/v1/auth.rs] on the tables of [Tables]. Each handler is
    a program of the monad [M]; the client address is what
    [Security.client_ip_from_headers_and_peer] gives. The one-time codes are
    checked under a process-wide lock, so a check runs without another one in
    between. *)

From S2P Require Import Prelude Text BTreeMap Externals Auth Totp Net Secrets Rfc3339 Tables Sessions Users.

Module Accounts.
Import Tables.

Definition LOGIN_FAILURE_THRESHOLD : Z := 5.
Definition LOGIN_FAILURE_WINDOW_MINUTES : Z := 15.
Definition LOGIN_BAN_MINUTES : Z := 30.
Definition SENSITIVE_TOTP_HEADER : rstr := lit "x-totp-code".
Definition AUTH_MAX_USERNAME_BYTES : Z := 128.
Definition AUTH_MIN_PASSWORD_BYTES : Z := 8.
Definition AUTH_MAX_PASSWORD_BYTES : Z := 1024.
Definition AUTH_MAX_ROLE_BYTES : Z := 32.
Definition AUTH_TOTP_CODE_BYTES : Z := 6.
Definition AUTH_MAX_WAF_BAN_IPS : Z := 128.
Definition AUTH_MAX_WAF_IP_FIELD_BYTES : Z := 4096.
Definition AUTH_MAX_WAF_REASON_BYTES : Z := 255.
Definition AUTH_MAX_WAF_BAN_MINUTES : Z := 43200.
Definition AUTH_UUID_TEXT_LEN : Z := 36.
Definition TOTP_REPLAY_HORIZON_MINUTES : Z := 3.

Definition minutes (n : Z) : Z := seconds (n * 60).

Inductive AppError (E : Type) : Type :=
| Database (e : Anyhow E)
| Unauthorized (msg : rstr)
| Forbidden (msg : rstr)
| BadRequest (msg : rstr)
| TooManyRequests (msg : rstr)
| NotFound (msg : rstr).
Arguments Database {E} e. Arguments Unauthorized {E} msg. Arguments Forbidden {E} msg.
Arguments BadRequest {E} msg. Arguments TooManyRequests {E} msg. Arguments NotFound {E} msg.

Inductive TotpVerificationError (E : Type) : Type := RateLimited | InvalidCode | TotpDatabase (e : Anyhow E).
Arguments RateLimited {E}. Arguments InvalidCode {E}. Arguments TotpDatabase {E} e.

(** [From<AppError>] and [map_totp_endpoint_error]. *)
Definition totp_error_of {E} (e : AppError E) : TotpVerificationError E :=
  match e with Database e => TotpDatabase e | _ => InvalidCode end.
Definition map_totp_endpoint_error {E} (e : TotpVerificationError E) : AppError E :=
  match e with
  | RateLimited => TooManyRequests (lit "Too many failed TOTP attempts")
  | InvalidCode => BadRequest (lit "Invalid TOTP code")
  | TotpDatabase e => Database e
  end.

Record LoginRequest := { lr_username : rstr; lr_password : rstr; lr_totp_code : option rstr }.
Record CreateUserRequest := { cr_username : rstr; cr_password : rstr; cr_role : rstr }.
Record UpdateUserRequest := { up_role : option rstr; up_password : option rstr }.
Record CreateWafBansRequest := { ban_ips : list rstr; ban_reason : option rstr; ban_minutes : option Z }.

(** What the extractor hands to a handler. *)
Record AuthUser := { au_user : Users.User; au_session_id : rstr; au_kind : Auth.AuthKind }.

Record LoginDone := { session_token : rstr; csrf_token : rstr; logged_in : Users.User; session_cookie : rstr; csrf_cookie : rstr }.
Inductive LoginResponse : Type := MfaRequired | LoggedIn (d : LoginDone).

#[global] Instance user_role_eq_dec : EqDecision Auth.UserRole.
Proof. solve_decision. Defined.

(** ** Normalization of the inputs *)

Section inputs.
Context {E : Type} `{UuidLib}.
Abbreviation R := (result (AppError E)).

Definition normalize_required_auth_text (value : rstr) (max_bytes : Z) (field : rstr) : R rstr :=
  let value := trim value in
  if is_empty value then Err (BadRequest (field ++ lit " is required")) else
  if max_bytes <? byte_len value
  then Err (BadRequest (field ++ lit " must be at most " ++ print_i64 max_bytes ++ lit " bytes")) else Ok value.

Definition normalize_username (value : rstr) : R rstr :=
  normalize_required_auth_text value AUTH_MAX_USERNAME_BYTES (lit "username").

Definition normalize_password (value : rstr) : R rstr :=
  if AUTH_MAX_PASSWORD_BYTES <? byte_len value
  then Err (BadRequest (lit "password must be at most " ++ print_i64 AUTH_MAX_PASSWORD_BYTES ++ lit " bytes")) else
  if is_empty (trim value) then Err (BadRequest (lit "password is required")) else Ok value.

Definition normalize_new_password (value : rstr) : R rstr :=
  value ← normalize_password value;
  if byte_len value <? AUTH_MIN_PASSWORD_BYTES
  then Err (BadRequest (lit "password must be at least " ++ print_i64 AUTH_MIN_PASSWORD_BYTES ++ lit " bytes")) else Ok value.

Definition normalize_role (value : rstr) : R Auth.UserRole :=
  value ← normalize_required_auth_text value AUTH_MAX_ROLE_BYTES (lit "role");
  match Auth.role_from_str value with Ok r => Ok r | Err msg => Err (BadRequest msg) end.

Definition normalize_totp_code (value : rstr) : R rstr :=
  let value := trim value in
  if negb (byte_len value =? AUTH_TOTP_CODE_BYTES) || negb (forallb is_ascii_digit (str_bytes value))
  then Err (BadRequest (lit "TOTP code must be 6 digits")) else Ok value.

(** [Option::map(..).transpose()]. *)
Definition transpose {A B} (f : A → R B) (v : option A) : R (option B) :=
  match v with None => Ok None | Some a => match f a with Ok b => Ok (Some b) | Err e => Err e end end.

Definition normalize_optional_totp_code (value : option rstr) : R (option rstr) := transpose normalize_totp_code value.

Definition normalize_auth_resource_uuid (id field : rstr) : R rstr :=
  let bad := BadRequest (field ++ lit " must be a canonical UUID") in
  if negb (byte_len id =? AUTH_UUID_TEXT_LEN) then Err bad else
  parsed ← ok_or (uuid_parse id) bad;
  if negb (bool_decide (uuid_to_string parsed = id)) then Err bad else Ok (uuid_to_string parsed).

(** [expect]: [normalize_auth_resource_uuid] has parsed it. *)
Definition parse_user_id (id : rstr) : R Z :=
  id ← normalize_auth_resource_uuid id (lit "user id");
  ok_or (uuid_parse id) (BadRequest (lit "panic")).

(** One field: its pieces are read in turn; [ips] holds what was seen so far. *)
Fixpoint add_ban_ips (pieces ips : list rstr) : R (list rstr) :=
  match pieces with
  | [] => Ok ips
  | value :: pieces =>
      let value := trim value in
      if is_empty value then add_ban_ips pieces ips else
      match Net.parse_ip value with
      | None => Err (BadRequest (lit "invalid IP address: " ++ value))
      | Some a =>
          let ip := Net.print_ip a in
          if contains ip ips then add_ban_ips pieces ips else
          if AUTH_MAX_WAF_BAN_IPS <=? zlen ips
          then Err (BadRequest (lit "ips must contain at most " ++ print_i64 AUTH_MAX_WAF_BAN_IPS ++ lit " unique addresses"))
          else add_ban_ips pieces (ips ++ [ip])
      end
  end.

Definition ban_separator (c : Z) : bool := (c =? 44) || (c =? 59) || is_whitespace c.

Fixpoint add_ban_fields (values ips : list rstr) : R (list rstr) :=
  match values with
  | [] => Ok ips
  | raw :: values =>
      if AUTH_MAX_WAF_IP_FIELD_BYTES <? byte_len raw
      then Err (BadRequest (lit "ip field must be at most " ++ print_i64 AUTH_MAX_WAF_IP_FIELD_BYTES ++ lit " bytes")) else
      ips ← add_ban_ips (split_by ban_separator raw) ips; add_ban_fields values ips
  end.

Definition parse_manual_ban_ips (values : list rstr) : R (list rstr) :=
  if AUTH_MAX_WAF_BAN_IPS <? zlen values
  then Err (BadRequest (lit "ips must contain at most " ++ print_i64 AUTH_MAX_WAF_BAN_IPS ++ lit " items"))
  else add_ban_fields values [].

(** The loop over [char_indices]: the characters that fit. *)
Fixpoint take_bytes (max : Z) (s : rstr) : rstr :=
  match s with
  | [] => []
  | c :: s => if max <? len_utf8 c then [] else c :: take_bytes (max - len_utf8 c) s
  end.
Definition truncate_utf8_to_bytes (value : rstr) (max_bytes : Z) : rstr :=
  if byte_len value <=? max_bytes then value else take_bytes max_bytes value.

Definition normalize_waf_reason (value : option rstr) : rstr :=
  match value with
  | Some v => if is_empty (trim v) then lit "manual WAF ban" else truncate_utf8_to_bytes (trim v) AUTH_MAX_WAF_REASON_BYTES
  | None => lit "manual WAF ban"
  end.

Definition normalize_waf_minutes (value : option Z) : Z :=
  Z.max 1 (Z.min (default LOGIN_BAN_MINUTES value) AUTH_MAX_WAF_BAN_MINUTES).
End inputs.

(** [headers.get(name)], as bytes. *)
Abbreviation HeaderMap := (rstr → option (list Z)).

Section accounts.
Context {E : Type} `{UuidLib, Rfc3339, Users.Argon2, Secrets.SecretLib, Auth.Crypto}.
Context (hmac_sha1 : list Z → list Z → list Z) (cell : option Secrets.SecretCrypto) (o : Oracle E).
Abbreviation MM := (M (AppError E)).

(** The [?] on a repository call. *)
Definition repo {A} (m : M (Anyhow E) A) : MM A := with_err Database m.

Definition header_value (headers : HeaderMap) (name : rstr) : option rstr :=
  value ← headers name; text ← Auth.header_to_str value;
  if is_empty (trim text) then None else Some (trim text).

Definition sensitive_totp_code_from_headers (headers : HeaderMap) : option rstr :=
  match header_value headers SENSITIVE_TOTP_HEADER with
  | Some v => Some v
  | None => header_value headers (lit "x-sensitive-totp-code")
  end.

(** ** Events and bans *)

Definition event_username (username : option rstr) : option rstr :=
  value ← username; let value := take 255 (trim value) in if is_empty value then None else Some value.

Definition record_waf_event (ip : rstr) (username : option rstr) (outcome : rstr) (reason : option rstr) : MM unit :=
  id ← now_v7 o;
  now ← utc_now o;
  repo (execute o (fun t => set_waf_events (waf_events t ++
    [{| we_id := uuid_to_string id; we_ip := ip; we_username := event_username username; we_outcome := outcome;
        we_reason := reason; we_created_at := to_rfc3339 now |}]) t)).

Definition FAILURE_OUTCOMES : list rstr := lit <$> ["login_failed"; "oauth_failed"; "pat_failed"; "agent_auth_failed"].

Definition count_recent_auth_failures (ip : rstr) (since : Z) : MM Z :=
  repo (select o (fun t => zlen (filter (fun e => we_ip e = ip ∧ we_outcome e ∈ FAILURE_OUTCOMES
                                                 ∧ str_leb (to_rfc3339 since) (we_created_at e) = true) (waf_events t)))).

Definition active_waf_ban (ip : rstr) : MM (option WafBan) :=
  now ← utc_now o;
  repo (select o (fun t => head (filter (fun b => wb_ip b = ip ∧ str_ltb (to_rfc3339 now) (wb_banned_until b) = true) (waf_bans t)))).

(** [INSERT ... ON CONFLICT(ip) DO UPDATE]. *)
Definition upsert_ban (row : WafBan) (bans : list WafBan) : list WafBan :=
  if bool_decide (wb_ip row ∈ (wb_ip <$> bans))
  then (fun b => if bool_decide (wb_ip b = wb_ip row)
                 then {| wb_id := wb_id b; wb_ip := wb_ip b; wb_reason := wb_reason row; wb_failed_count := wb_failed_count row;
                         wb_banned_until := wb_banned_until row; wb_created_at := wb_created_at b;
                         wb_updated_at := wb_updated_at row |}
                 else b) <$> bans
  else bans ++ [row].

Definition upsert_waf_ban (ip reason : rstr) (failed_count banned_until : Z) : MM unit :=
  id ← now_v7 o;
  now ← utc_now o;
  repo (execute o (fun t => set_waf_bans (upsert_ban
    {| wb_id := uuid_to_string id; wb_ip := ip; wb_reason := reason; wb_failed_count := failed_count;
       wb_banned_until := to_rfc3339 banned_until; wb_created_at := to_rfc3339 now; wb_updated_at := to_rfc3339 now |}
    (waf_bans t)) t)).

(** The body the four [register_*_failure] functions share. *)
Definition register_failure (ip : rstr) (who : option rstr) (outcome reason ban_reason : rstr) : MM unit :=
  record_waf_event ip who outcome (Some reason);;
  now ← utc_now o;
  failures ← count_recent_auth_failures ip (now - minutes LOGIN_FAILURE_WINDOW_MINUTES);
  if LOGIN_FAILURE_THRESHOLD <=? failures
  then now ← utc_now o; upsert_waf_ban ip ban_reason failures (now + minutes LOGIN_BAN_MINUTES)
  else mret ().

Definition register_login_failure (ip username reason : rstr) : MM unit :=
  register_failure ip (Some username) (lit "login_failed") reason (lit "too many failed login attempts").
Definition register_oauth_failure (ip : rstr) (provider : option rstr) (reason : rstr) : MM unit :=
  register_failure ip provider (lit "oauth_failed") reason (lit "too many failed authentication attempts").
Definition register_pat_failure (ip : rstr) (token_ref : option rstr) (reason : rstr) : MM unit :=
  register_failure ip token_ref (lit "pat_failed") reason (lit "too many failed authentication attempts").
Definition register_agent_auth_failure (ip : rstr) (agent_ref : option rstr) (reason : rstr) : MM unit :=
  register_failure ip agent_ref (lit "agent_auth_failed") reason (lit "too many failed authentication attempts").

(** ** One-time codes *)

Definition count_recent_user_totp_failures (user_key : rstr) (since : Z) : M (Anyhow E) Z :=
  select o (fun t => zlen (filter (fun e => we_username e = Some user_key ∧ we_outcome e = lit "totp_failed"
                                           ∧ str_leb (to_rfc3339 since) (we_created_at e) = true) (waf_events t))).

Definition used_step (step_prefix : rstr) (reason : option rstr) : option Z :=
  r ← reason; rest ← Auth.strip_prefix step_prefix r; parse_i64 rest.

Definition is_totp_step_replayed (user_key step_prefix : rstr) (matched_step since : Z) : M (Anyhow E) bool :=
  reasons ← select o (fun t => we_reason <$> filter (fun e => we_username e = Some user_key ∧ we_outcome e = lit "totp_used"
                                           ∧ str_leb (to_rfc3339 since) (we_created_at e) = true) (waf_events t));
  mret (existsb (fun reason => match used_step step_prefix reason with Some s => matched_step <=? s | None => false end) reasons).

Definition step_prefix (secret : rstr) : rstr := lit "step:" ++ take 16 (Auth.hash_token secret) ++ lit ":".

Definition verify_and_consume_user_totp (user_id : Z) (secret code : rstr) (now : Z) : M (TotpVerificationError E) unit :=
  let user_key := uuid_to_string user_id in
  let event outcome reason := with_err totp_error_of (record_waf_event (lit "totp") (Some user_key) outcome (Some reason)) in
  failures ← with_err TotpDatabase (count_recent_user_totp_failures user_key (now - minutes LOGIN_FAILURE_WINDOW_MINUTES));
  if LOGIN_FAILURE_THRESHOLD <=? failures
  then event (lit "totp_blocked") (lit "too many failed totp attempts");; fail RateLimited else
  match Totp.verify_totp_code_step hmac_sha1 secret code now with
  | None => event (lit "totp_failed") (lit "invalid totp");; fail InvalidCode
  | Some matched_step =>
      replayed ← with_err TotpDatabase (is_totp_step_replayed user_key (step_prefix secret) matched_step
                                          (now - minutes TOTP_REPLAY_HORIZON_MINUTES));
      if (replayed : bool)
      then event (lit "totp_failed") (lit "replayed totp");; fail InvalidCode
      else event (lit "totp_used") (step_prefix secret ++ print_i64 matched_step)
  end.

Definition require_sensitive_totp (user_id : Z) (headers : HeaderMap) : MM unit :=
  '(secret, enabled) ← repo (Users.totp_config cell o user_id);
  if negb enabled then mret () else
  secret ← lift (ok_or secret (Forbidden (lit "TOTP secret is missing")));
  code ← lift (ok_or (sensitive_totp_code_from_headers headers) (Forbidden (lit "TOTP code is required")));
  now ← utc_now o;
  with_err (fun e => match e with
                     | RateLimited => TooManyRequests (lit "Too many failed TOTP attempts")
                     | InvalidCode => Forbidden (lit "Invalid TOTP code")
                     | TotpDatabase e => Database e
                     end) (verify_and_consume_user_totp user_id secret code now).

(** ** Login and logout *)

Definition SESSION_COOKIE_NAME : rstr := lit "xlstatus_session".
Definition CSRF_COOKIE_NAME : rstr := lit "xlstatus_csrf".

Definition generate_session_token {X} : M X rstr := bytes ← random_bytes o; mret (Auth.hex_encode bytes).
Definition cookie_secure_attr (enabled : bool) : rstr := if enabled then lit "; Secure" else [].

(** [Config]: the lifetime of a session and whether cookies are marked secure;
    [header_ok] is whether [HeaderValue::from_str] accepts a text. *)
Context (session_ttl_hours : Z) (cookie_secure : bool) (header_ok : rstr → bool).

Definition make_cookie (text : rstr) : MM rstr :=
  if header_ok text then mret text else fail (BadRequest (lit "Invalid session cookie")).

Definition check_password (user : Users.User) (password : rstr) : MM bool :=
  with_err (fun w => Database (Bail w)) (lift (Users.verify_password user password)).

(** The second factor of a login: [None] when the code is missing. *)
Definition login_totp (user : Users.User) (ip username : rstr) (totp_code : option rstr) : MM (option unit) :=
  '(totp_secret, totp_enabled) ← repo (Users.totp_config cell o (Users.id user));
  if negb totp_enabled then mret (Some ()) else
  match totp_code with
  | None => mret None
  | Some code =>
      secret ← lift (ok_or totp_secret (Unauthorized (lit "Invalid credentials")));
      now ← utc_now o;
      verdict ← attempt (verify_and_consume_user_totp (Users.id user) secret code now);
      match verdict with
      | Ok _ => mret (Some ())
      | Err err =>
          register_login_failure ip username (lit "invalid totp");;
          fail (match err with
                | RateLimited => TooManyRequests (lit "Too many failed TOTP attempts")
                | InvalidCode => Unauthorized (lit "Invalid TOTP code")
                | TotpDatabase e => Database e
                end)
      end
  end.

Definition start_session (user : Users.User) (ip username : rstr) (user_agent : option rstr) : MM LoginDone :=
  token ← generate_session_token;
  let token_hash := Auth.hash_token token in
  now ← utc_now o;
  repo (Sessions.create o {| Sessions.in_user_id := Users.id user; Sessions.in_ip := Some ip;
                             Sessions.in_user_agent := user_agent;
                             Sessions.in_expires_at := now + seconds (session_ttl_hours * 3600) |} token_hash);;
  record_waf_event ip (Some username) (lit "login_success") None;;
  let csrf_token := Auth.derive_csrf_token token_hash in
  let secure_attr := cookie_secure_attr cookie_secure in
  let age := print_i64 (session_ttl_hours * 3600) in
  session_cookie ← make_cookie (SESSION_COOKIE_NAME ++ lit "=" ++ token ++ lit "; HttpOnly; SameSite=Lax; Path=/; Max-Age="
                                  ++ age ++ secure_attr);
  csrf_cookie ← make_cookie (CSRF_COOKIE_NAME ++ lit "=" ++ csrf_token ++ lit "; SameSite=Lax; Path=/; Max-Age="
                               ++ age ++ secure_attr);
  mret {| session_token := token; csrf_token := csrf_token; logged_in := user; session_cookie := session_cookie;
          csrf_cookie := csrf_cookie |}.

Definition login (req : LoginRequest) (client_ip : rstr) (user_agent : option rstr) : MM LoginResponse :=
  username ← lift (normalize_username (lr_username req));
  password ← lift (normalize_password (lr_password req));
  totp_code ← lift (normalize_optional_totp_code (lr_totp_code req));
  ban ← active_waf_ban client_ip;
  match ban with
  | Some _ =>
      record_waf_event client_ip (Some username) (lit "login_blocked") (Some (lit "active WAF ban"));;
      fail (Forbidden (lit "IP temporarily blocked by WAF"))
  | None =>
      found ← repo (Users.find_by_username o username);
      match found with
      | None =>
          register_login_failure client_ip username (lit "unknown user");;
          fail (Unauthorized (lit "Invalid credentials"))
      | Some user =>
          verified ← check_password user password;
          if negb verified
          then register_login_failure client_ip username (lit "invalid password");;
               fail (Unauthorized (lit "Invalid credentials"))
          else
            factor ← login_totp user client_ip username totp_code;
            match factor with
            | None => mret MfaRequired
            | Some _ => done ← start_session user client_ip username user_agent; mret (LoggedIn done)
            end
      end
  end.

Definition logout (auth_user : AuthUser) : MM unit :=
  repo (Sessions.delete o (au_session_id auth_user));;
  make_cookie (SESSION_COOKIE_NAME ++ lit "=; HttpOnly; SameSite=Lax; Path=/; Max-Age=0" ++ cookie_secure_attr cookie_secure);;
  make_cookie (CSRF_COOKIE_NAME ++ lit "=; SameSite=Lax; Path=/; Max-Age=0" ++ cookie_secure_attr cookie_secure);;
  mret ().

(** ** Administration *)

Definition require_admin (u : AuthUser) : MM unit :=
  if negb (Auth.is_admin (Users.role (au_user u))) then fail (Forbidden (lit "Admin role required")) else mret ().
Definition require_cookie_session (u : AuthUser) : MM unit :=
  if Auth.is_pat (au_kind u) then fail (Forbidden (lit "Cookie session required")) else mret ().
Definition require_admin_cookie_session (u : AuthUser) : MM unit := require_admin u;; require_cookie_session u.

Definition revoke_user_credentials (user_id : Z) : MM unit :=
  repo (Sessions.delete_for_user o user_id);;
  repo (Users.revoke_all_for_user o user_id);;
  mret ().

Definition create_user (u : AuthUser) (headers : HeaderMap) (req : CreateUserRequest) : MM Users.User :=
  require_admin_cookie_session u;;
  require_sensitive_totp (Users.id (au_user u)) headers;;
  username ← lift (normalize_username (cr_username req));
  password ← lift (normalize_new_password (cr_password req));
  role ← lift (normalize_role (cr_role req));
  repo (Users.create o {| Users.cu_username := username; Users.cu_password := password; Users.cu_role := role |}).

Definition found {A} (x : option A) : MM A := lift (ok_or x (NotFound (lit "user not found"))).

(** The guard of a demotion, on the user as it was read. *)
Definition check_demotion (u : AuthUser) (existing : Users.User) (next_role : Auth.UserRole) : MM unit :=
  if Auth.is_admin (Users.role existing) && negb (Auth.is_admin next_role)
  then if Users.id existing =? Users.id (au_user u)
       then fail (BadRequest (lit "cannot demote your own admin account"))
       else admins ← repo (Users.count_admins o);
            if admins <=? 1 then fail (BadRequest (lit "cannot demote the last admin user")) else mret ()
  else mret ().

Definition apply_role (target_id : Z) (existing : Users.User) (next_role : Auth.UserRole) : MM unit :=
  updated ← repo (Users.update_role o target_id next_role);
  found updated;;
  if bool_decide (Users.role existing = next_role) then mret ()
  else revoke_user_credentials target_id.

Definition apply_password (target_id : Z) (password : rstr) : MM unit :=
  password ← lift (normalize_new_password password);
  updated ← repo (Users.reset_password o target_id password);
  found updated;;
  revoke_user_credentials target_id.

Definition update_user (u : AuthUser) (headers : HeaderMap) (id : rstr) (req : UpdateUserRequest) : MM Users.User :=
  require_admin_cookie_session u;;
  require_sensitive_totp (Users.id (au_user u)) headers;;
  target_id ← lift (parse_user_id id);
  existing ← repo (Users.find_by_id o target_id);
  existing ← found existing;
  match up_role req with
  | Some role =>
      next_role ← lift (normalize_role role);
      check_demotion u existing next_role;;
      apply_role target_id existing next_role
  | None => mret ()
  end;;
  match up_password req with
  | Some password => apply_password target_id password
  | None => mret ()
  end;;
  updated ← repo (Users.find_by_id o target_id);
  found updated.

Definition delete_user (u : AuthUser) (headers : HeaderMap) (id : rstr) : MM unit :=
  require_admin_cookie_session u;;
  require_sensitive_totp (Users.id (au_user u)) headers;;
  target_id ← lift (parse_user_id id);
  if target_id =? Users.id (au_user u) then fail (BadRequest (lit "cannot delete your own account")) else
  existing ← repo (Users.find_by_id o target_id);
  existing ← found existing;
  admins ← (if Auth.is_admin (Users.role existing) then repo (Users.count_admins o) else mret 2);
  if Auth.is_admin (Users.role existing) && (admins <=? 1)
  then fail (BadRequest (lit "cannot delete the last admin user")) else
  revoke_user_credentials target_id;;
  deleted ← repo (Users.delete o target_id);
  if negb deleted then fail (NotFound (lit "user not found")) else mret ().

Definition delete_session (u : AuthUser) (headers : HeaderMap) (id : rstr) : MM rstr :=
  require_cookie_session u;;
  session_id ← lift (normalize_auth_resource_uuid id (lit "session id"));
  if negb (Auth.is_admin (Users.role (au_user u))) && negb (bool_decide (session_id = au_session_id u))
  then fail (Forbidden (lit "cannot delete another user's session")) else
  require_sensitive_totp (Users.id (au_user u)) headers;;
  repo (Sessions.delete o session_id);;
  mret session_id.

(** ** Second factor management *)

Definition get_totp_status (u : AuthUser) : MM (bool * bool) :=
  require_cookie_session u;;
  '(secret, enabled) ← repo (Users.totp_config cell o (Users.id (au_user u)));
  mret (enabled, match secret with Some _ => negb enabled | None => false end).

(** The current code, checked against the stored secret. *)
Definition check_current_code (u : AuthUser) (secret : option rstr) (code : option rstr) (missing_secret missing_code : rstr) : MM unit :=
  secret ← lift (ok_or secret (BadRequest missing_secret));
  code ← lift (transpose normalize_totp_code code);
  code ← lift (ok_or code (BadRequest missing_code));
  now ← utc_now o;
  with_err map_totp_endpoint_error (verify_and_consume_user_totp (Users.id (au_user u)) secret code now).

Definition generate_totp_secret {X} : M X rstr := bytes ← random_bytes o; mret (Totp.base32_encode bytes).

Definition setup_totp (u : AuthUser) (code : option rstr) : MM rstr :=
  require_cookie_session u;;
  '(existing, enabled) ← repo (Users.totp_config cell o (Users.id (au_user u)));
  (if (enabled : bool)
   then check_current_code u existing code (lit "TOTP secret is missing") (lit "Current TOTP code is required")
   else mret ());;
  secret ← generate_totp_secret;
  repo (Users.set_totp_secret cell o (Users.id (au_user u)) secret false);;
  mret secret.

Definition enable_totp (u : AuthUser) (code : option rstr) : MM unit :=
  require_cookie_session u;;
  '(secret, _) ← repo (Users.totp_config cell o (Users.id (au_user u)));
  check_current_code u secret code (lit "TOTP setup has not been started") (lit "TOTP code is required");;
  repo (Users.set_totp_enabled o (Users.id (au_user u)) true).

Definition disable_totp (u : AuthUser) (code : option rstr) : MM unit :=
  require_cookie_session u;;
  '(secret, enabled) ← repo (Users.totp_config cell o (Users.id (au_user u)));
  (if (enabled : bool)
   then check_current_code u secret code (lit "TOTP secret is missing") (lit "TOTP code is required")
   else mret ());;
  repo (Users.disable_totp o (Users.id (au_user u))).

(** ** Manual bans *)

Fixpoint ban_each (u : AuthUser) (reason : rstr) (banned_until : Z) (ips : list rstr) : MM (list WafBan) :=
  match ips with
  | [] => mret []
  | ip :: ips =>
      upsert_waf_ban ip reason 0 banned_until;;
      record_waf_event ip (Some (Users.username (au_user u))) (lit "manual_ban") (Some reason);;
      ban ← active_waf_ban ip;
      bans ← ban_each u reason banned_until ips;
      mret (match ban with Some b => b :: bans | None => bans end)
  end.

Definition create_waf_bans (u : AuthUser) (headers : HeaderMap) (req : CreateWafBansRequest) : MM (list WafBan) :=
  require_admin_cookie_session u;;
  require_sensitive_totp (Users.id (au_user u)) headers;;
  ips ← lift (parse_manual_ban_ips (ban_ips req));
  if is_empty ips then fail (BadRequest (lit "at least one IP is required")) else
  let reason := normalize_waf_reason (ban_reason req) in
  now ← utc_now o;
  ban_each u reason (now + minutes (normalize_waf_minutes (ban_minutes req))) ips.

Definition delete_waf_ban (u : AuthUser) (headers : HeaderMap) (id : rstr) : MM rstr :=
  require_admin_cookie_session u;;
  require_sensitive_totp (Users.id (au_user u)) headers;;
  ban_id ← lift (normalize_auth_resource_uuid id (lit "WAF ban id"));
  affected ← repo (sql o (fun t => (Ok (zlen (filter (fun b => wb_id b = ban_id) (waf_bans t))),
                                    set_waf_bans (filter (fun b => wb_id b ≠ ban_id) (waf_bans t)) t)));
  if affected =? 0 then fail (NotFound (lit "WAF ban not found")) else mret ban_id.
End accounts.

End Accounts.
