(* ===== verification/AccountsProofs.v ===== *)
(** * AccountsProofs: one-time codes, lockout, login and administration

    What each program of [Accounts] does to the tables, then: a one-time code is
    accepted once and guesses are bounded over any history, a login needs every
    factor, repeated failures lock an address out, an administrator always
    remains, and revoked credentials authenticate nobody. *)

From S2P Require Import Prelude Text BTreeMap Externals Auth Totp Net Secrets SecretsProofs Rfc3339 Tables Sessions SessionsProofs Users Accounts.

Module AccountsProofs.
Import Tables Accounts.

(** ** Times *)

(** The years 1970 to 9892: there is room for every window of the code. *)
Definition modern (t : Z) : Prop := 0 <= t < seconds 250000000000.

Lemma era_sub t n : modern t → 0 <= n <= 43200 → era (t - minutes n).
Proof. unfold modern, era, minutes, seconds. lia. Qed.
Lemma era_add t n : modern t → 0 <= n <= 43200 → era (t + minutes n).
Proof. unfold modern, era, minutes, seconds. lia. Qed.

Lemma modern_now t : modern t → era t.
Proof. unfold modern, era, seconds. lia. Qed.

Ltac era_solve :=
  solve [done | apply modern_now; done | apply era_sub; [done|lia] | apply era_add; [done|lia]].

(** The oracle from a tick on: the clock does not go back behind [now]. *)
Definition clock_from {E} (o : Oracle E) (k : nat) (now : Z) : Prop :=
  ∀ i, (k <= i)%nat → modern (clock o i) ∧ now <= clock o i.

(** ** What a program does to the tables *)

Definition respects {X A} (R : Tables → Tables → Prop) (m : M X A) : Prop :=
  ∀ w r w', m w = (r, w') → R (db w) (db w').

Section respects.
Context {E : Type} (o : Oracle E) (R : Tables → Tables → Prop) `{!PreOrder R}.

Lemma respects_ret {X A} (a : A) : respects R (mret a : M X A).
Proof. by intros w r w' [= <- <-]. Qed.
Lemma respects_fail {X A} (e : X) : respects R (fail e : M X A).
Proof. by intros w r w' [= <- <-]. Qed.
Lemma respects_lift {X A} (x : result X A) : respects R (lift x).
Proof. by intros w r w' [= <- <-]. Qed.
Lemma respects_bind {X A B} (m : M X A) (k : A → M X B) : respects R m → (∀ a, respects R (k a)) → respects R (m ≫= k).
Proof.
  intros Hm Hk w r w' [(a & w1 & H1 & H2)|(e & H1 & _)]%run_bind; [|by eapply Hm].
  etransitivity; [by eapply Hm|by eapply Hk].
Qed.
Lemma respects_with_err {X Y A} (f : X → Y) (m : M X A) : respects R m → respects R (with_err f m).
Proof. intros Hm w r w'. unfold with_err. destruct (m w) as [[a|e] w1] eqn:Hw; intros [= <- <-]; by eapply Hm. Qed.
Lemma respects_attempt {X Y A} (m : M X A) : respects R m → respects R (attempt m : M Y (result X A)).
Proof. intros Hm w r w'. unfold attempt. destruct (m w) as [x w1] eqn:Hw. intros [= <- <-]. by eapply Hm. Qed.
Lemma respects_utc_now {X} : respects R (utc_now o : M X Z).
Proof. by intros w r w' [= <- <-]. Qed.
Lemma respects_now_v7 {X} : respects R (now_v7 o : M X Z).
Proof. by intros w r w' [= <- <-]. Qed.
Lemma respects_random {X} : respects R (random_bytes o : M X (list Z)).
Proof. by intros w r w' [= <- <-]. Qed.
Lemma respects_select {A} (f : Tables → A) : respects R (select o f).
Proof. intros w r w'. unfold select, sql. destruct (fault o (tick w)); by intros [= <- <-]. Qed.
Lemma respects_sql {A} (f : Tables → result Why A * Tables) :
  (∀ t a t', f t = (Ok a, t') → R t t') → respects R (sql o f).
Proof.
  intros Hf w r w'. unfold sql. destruct (fault o (tick w)); [by intros [= <- <-]|].
  destruct (f (db w)) as [[a|e] t] eqn:Ht; intros [= <- <-]; [by eapply Hf|done].
Qed.
Lemma respects_execute (f : Tables → Tables) : (∀ t, R t (f t)) → respects R (execute o f).
Proof. intros Hf. apply respects_sql. intros t a t' [= <- <-]. apply Hf. Qed.
End respects.

Create HintDb respects discriminated.
#[export] Hint Resolve respects_ret respects_fail respects_lift respects_with_err respects_attempt respects_utc_now
  respects_now_v7 respects_random respects_select : respects.
#[export] Hint Extern 1 (respects _ (_ ≫= _)) => apply respects_bind; [typeclasses eauto| |intros] : respects.
#[export] Hint Extern 1 (respects _ (let '(_, _) := ?x in _)) => destruct x : respects.
#[export] Hint Extern 2 (respects _ (match ?x with _ => _ end)) => destruct x : respects.
#[export] Hint Extern 3 (PreOrder _) => typeclasses eauto : respects.

(** Tables that agree on some of their parts. *)
Definition same_users (t u : Tables) : Prop := users u = users t.
Definition only_events (t u : Tables) : Prop :=
  users u = users t ∧ sessions u = sessions t ∧ pats u = pats t ∧ waf_bans u = waf_bans t.
#[global] Instance same_users_preorder : PreOrder same_users.
Proof. split; [by intros t|]. intros t u v H1 H2. unfold same_users in *. congruence. Qed.
#[global] Instance only_events_preorder : PreOrder only_events.
Proof. split; [by intros t|]. intros t u v (?&?&?&?) (?&?&?&?). repeat split; congruence. Qed.

Section accounts.
Context {E : Type} `{UuidLib, Rfc3339, Users.Argon2, Secrets.SecretLib, Auth.Crypto}.
Context (hmac_sha1 : list Z → list Z → list Z) (cell : option Secrets.SecretCrypto).
Implicit Types (o : Oracle E) (w : World) (e : WafEvent).

(** ** Events *)

Lemma event_username_uuid u : event_username (Some (uuid_to_string u)) = Some (uuid_to_string u).
Proof.
  unfold event_username. cbn [mbind option_bind]. rewrite uuid_to_string_trim, take_ge by (rewrite uuid_text_length; lia).
  pose proof (uuid_to_string_nonempty u). by destruct (uuid_to_string u).
Qed.

(** The event a program appended, if it appended one. *)
Definition appended o (w w' : World) (ip : rstr) (who : option rstr) (outcome : rstr) (reason : option rstr) : Prop :=
  ∃ i k, (tick w <= k)%nat
    ∧ db w' = set_waf_events (waf_events (db w) ++
        [{| we_id := i; we_ip := ip; we_username := event_username who; we_outcome := outcome; we_reason := reason;
            we_created_at := to_rfc3339 (clock o k) |}]) (db w).

Lemma record_waf_event_run o ip who outcome reason w r w' :
  record_waf_event o ip who outcome reason w = (r, w') →
  (r = Ok () ∧ appended o w w' ip who outcome reason) ∨ (∃ x, r = Err (Database x) ∧ db w' = db w).
Proof.
  unfold record_waf_event, mbind, M_bind, now_v7, utc_now, repo, with_err, execute, sql. cbn [bump tick db].
  destruct (fault o _) as [x|]; intros [= <- <-]; [right; by eexists|left]. split; [done|].
  do 2 eexists. split; [|reflexivity]. lia.
Qed.

Lemma record_waf_event_events o ip who outcome reason : respects only_events (record_waf_event o ip who outcome reason).
Proof.
  intros w r w' [(_ & i & k & _ & Hd)|(x & _ & Hd)]%record_waf_event_run; by rewrite Hd.
Qed.

(** ** One check of a one-time code *)

Definition of_user (u : Z) (outcome : rstr) e : Prop := we_username e = Some (uuid_to_string u) ∧ we_outcome e = outcome.
#[global] Instance of_user_dec u outcome e : Decision (of_user u outcome e).
Proof. unfold of_user. apply _. Defined.

Definition since (t : Z) e : Prop := str_leb (to_rfc3339 t) (we_created_at e) = true.
#[global] Instance since_dec t e : Decision (since t e).
Proof. unfold since. apply _. Defined.

Definition recent_failures (u t : Z) (evs : list WafEvent) : Z :=
  zlen (filter (fun e => we_username e = Some (uuid_to_string u) ∧ we_outcome e = lit "totp_failed"
                         ∧ str_leb (to_rfc3339 t) (we_created_at e) = true) evs).

(** No recorded use of [secret] since [t] is of [step] or a later one. *)
Definition unused (u : Z) (secret : rstr) (step t : Z) (evs : list WafEvent) : Prop :=
  ∀ e s, e ∈ evs → of_user u (lit "totp_used") e → since t e → used_step (step_prefix secret) (we_reason e) = Some s → s < step.

Inductive totp_effect o (u : Z) (secret code : rstr) (now : Z) (w w' : World) : result (TotpVerificationError E) unit → Prop :=
| totp_fault x : db w' = db w → totp_effect o u secret code now w w' (Err (TotpDatabase x))
| totp_blocked reason :
    5 <= recent_failures u (now - minutes 15) (waf_events (db w)) →
    appended o w w' (lit "totp") (Some (uuid_to_string u)) (lit "totp_blocked") reason →
    totp_effect o u secret code now w w' (Err RateLimited)
| totp_failed reason :
    recent_failures u (now - minutes 15) (waf_events (db w)) < 5 →
    appended o w w' (lit "totp") (Some (uuid_to_string u)) (lit "totp_failed") reason →
    totp_effect o u secret code now w w' (Err InvalidCode)
| totp_accepted step :
    recent_failures u (now - minutes 15) (waf_events (db w)) < 5 →
    Totp.verify_totp_code_step hmac_sha1 secret code now = Some step →
    unused u secret step (now - minutes 3) (waf_events (db w)) →
    appended o w w' (lit "totp") (Some (uuid_to_string u)) (lit "totp_used") (Some (step_prefix secret ++ print_i64 step)) →
    totp_effect o u secret code now w w' (Ok ()).

Lemma appended_bump o w w' ip who outcome reason : appended o (bump w) w' ip who outcome reason → appended o w w' ip who outcome reason.
Proof. intros (i & k & Hk & Hd). exists i, k. cbn [bump tick] in Hk. split; [lia|exact Hd]. Qed.

Lemma event_then_fail o who outcome reason (x : TotpVerificationError E) w r w' :
  (with_err totp_error_of (record_waf_event o (lit "totp") who outcome (Some reason));; fail x : M _ unit) w = (r, w') →
  (r = Err x ∧ appended o w w' (lit "totp") who outcome (Some reason)) ∨ (∃ y, r = Err (TotpDatabase y) ∧ db w' = db w).
Proof.
  unfold mbind, M_bind, with_err, fail. destruct (record_waf_event _ _ _ _ _ w) as [q w1] eqn:Hr.
  apply record_waf_event_run in Hr as [[-> Ha]|(y & -> & Hd)]; intros [= <- <-]; [by left|right; by exists y].
Qed.

Lemma verify_run o u secret code now w r w' :
  verify_and_consume_user_totp hmac_sha1 o u secret code now w = (r, w') → totp_effect o u secret code now w w' r.
Proof.
  unfold verify_and_consume_user_totp. intros [(n & w1 & Hn & Hr)|(x & Hn & ->)]%run_bind.
  2:{ unfold with_err, count_recent_user_totp_failures, select, sql in Hn. destruct (fault o (tick w)); [|done].
      injection Hn as <- <-. by constructor. }
  apply run_with_err_Ok, run_select_Ok in Hn as (_ & -> & ->).
  change (zlen (filter _ _)) with (recent_failures u (now - minutes 15) (waf_events (db w))) in Hr.
  destruct (LOGIN_FAILURE_THRESHOLD <=? _) eqn:Hf; bool_prop; unfold LOGIN_FAILURE_THRESHOLD in Hf.
  { apply event_then_fail in Hr as [[-> Ha]|(y & -> & Hd)]; [|by constructor].
    eapply totp_blocked; [done|]. by apply appended_bump. }
  destruct (Totp.verify_totp_code_step hmac_sha1 secret code now) as [step|] eqn:Hstep.
  2:{ apply event_then_fail in Hr as [[-> Ha]|(y & -> & Hd)]; [|by constructor].
      eapply totp_failed; [done|]. by apply appended_bump. }
  apply run_bind in Hr as [(b & w1 & Hb & Hr)|(x & Hb & ->)].
  2:{ unfold with_err, is_totp_step_replayed, mbind, M_bind, select, sql in Hb. cbn [bump tick db] in Hb.
      destruct (fault o _); [|done]. injection Hb as <- <-. by constructor. }
  apply run_with_err_Ok in Hb. unfold is_totp_step_replayed in Hb.
  apply run_bind_Ok in Hb as (reasons & w2 & Hs & Hb). apply run_select_Ok in Hs as (_ & -> & ->). injection Hb as <- <-.
  match type of Hr with (if ?c then _ else _) _ = _ => destruct c eqn:Hrep end.
  { apply event_then_fail in Hr as [[-> Ha]|(y & -> & Hd)]; [|by constructor].
    eapply totp_failed; [done|]. by do 2 apply appended_bump. }
  unfold with_err in Hr. destruct (record_waf_event _ _ _ _ _ _) as [q w1] eqn:He.
  apply record_waf_event_run in He as [[-> Ha]|(y & -> & Hd)]; injection Hr as <- <-; [|by constructor].
  eapply totp_accepted; [done|done| |by do 2 apply appended_bump].
  intros e s Hin Hu Ht Hstep'. apply not_true_iff_false in Hrep.
  destruct (decide (s < step)) as [?|Hn]; [done|]. destruct Hrep. apply existsb_exists.
  exists (we_reason e). split; [|rewrite Hstep'; apply Z.leb_le; lia].
  apply list_elem_of_In, list_elem_of_fmap_2, list_elem_of_filter. split; [|done]. by destruct Hu.
Qed.

(** ** Histories *)

(** A code that was accepted: whose, under which secret, of which step. *)
Record Use := { by_user : Z; under : rstr; at_step : Z }.

(** The events of any number of checks, by any users, with other events between
    them. [now] is read before the lock is taken, so it may be older than what
    was recorded meanwhile, but not newer than the clock of the run itself. *)
Inductive totp_history : list WafEvent → list Use → Prop :=
| history_start : totp_history [] []
| history_other evs uses e :
    totp_history evs uses → we_outcome e ≠ lit "totp_used" → we_outcome e ≠ lit "totp_failed" →
    totp_history (evs ++ [e]) uses
| history_check o u secret code now uses w r w' :
    totp_history (waf_events (db w)) uses → modern now → clock_from o (tick w) now →
    verify_and_consume_user_totp hmac_sha1 o u secret code now w = (r, w') →
    totp_history (waf_events (db w'))
      (uses ++ match r, Totp.verify_totp_code_step hmac_sha1 secret code now with
               | Ok _, Some step => [{| by_user := u; under := secret; at_step := step |}]
               | _, _ => []
               end).

(** A use left an event, recorded no earlier than its step allows. *)
Definition recorded (x : Use) e (t : Z) : Prop :=
  of_user (by_user x) (lit "totp_used") e ∧ we_reason e = Some (step_prefix (under x) ++ print_i64 (at_step x))
  ∧ we_created_at e = to_rfc3339 t ∧ modern t ∧ 0 <= at_step x <= timestamp t / 30 + 1.

Definition timed e : Prop := we_outcome e = lit "totp_failed" → ∃ t, modern t ∧ we_created_at e = to_rfc3339 t.

Lemma verify_step_bounds secret code now step :
  modern now → Totp.verify_totp_code_step hmac_sha1 secret code now = Some step →
  0 <= step ∧ timestamp now / 30 - 1 <= step <= timestamp now / 30 + 1.
Proof.
  intros _ (key & _ & Hs & [Hpos _] & _)%Totp.verify_totp_code_step_exact. done.
Qed.

Lemma timestamp_mono t u : t <= u → timestamp t <= timestamp u.
Proof. intros. unfold timestamp. apply Z.div_le_mono; lia. Qed.

Lemma timestamp_minutes t n : timestamp (t - minutes n) = timestamp t - n * 60.
Proof.
  unfold timestamp, minutes, seconds. replace (t - n * 60 * 1000000000) with (t + - (n * 60) * 1000000000) by lia.
  rewrite Z.div_add by lia. lia.
Qed.

Lemma modern_step t step : modern t → 0 <= step <= timestamp t / 30 + 1 → - 2 ^ 63 <= step < 2 ^ 63.
Proof.
  unfold modern, timestamp, seconds. intros Ht Hs. assert (t / 1000000000 / 30 < 2 ^ 62); [|lia].
  apply Z.div_lt_upper_bound; [lia|]. apply Z.div_lt_upper_bound; lia.
Qed.

(** A recorded use is seen, or is too old to matter. *)
Lemma recorded_before x e t secret code now step :
  recorded x e t → under x = secret → modern now →
  Totp.verify_totp_code_step hmac_sha1 secret code now = Some step →
  unused (by_user x) secret step (now - minutes 3) [e] → at_step x < step.
Proof.
  intros (Hu & Hreason & Htime & Ht & Hs) <- Hnow Hv Hun. destruct (verify_step_bounds _ _ _ _ Hnow Hv) as [_ Hb].
  assert (era (now - minutes 3)) as Hera by (apply era_sub; [done|lia]).
  destruct (decide (now - minutes 3 <= t)) as [Hle|Hgt].
  - apply (Hun e); [by apply list_elem_of_singleton|done| |].
    + unfold since. rewrite Htime, rfc3339_leb by (done || by apply modern_now). by apply Z.leb_le.
    + unfold used_step. rewrite Hreason. cbn [mbind option_bind]. rewrite SecretsProofs.strip_prefix_app. cbn [mbind option_bind].
      apply parse_print_i64. by apply (modern_step t).
  - assert (timestamp t <= timestamp now - 180) as Hts.
    { etransitivity; [apply (timestamp_mono t (now - minutes 3)); lia|]. rewrite timestamp_minutes. lia. }
    Z.to_euclidean_division_equations. lia.
Qed.

Lemma history_recorded evs uses :
  totp_history evs uses → (∀ x, x ∈ uses → ∃ e t, e ∈ evs ∧ recorded x e t).
Proof.
  induction 1 as [|evs uses e _ IH Hne1 Hne2|o u secret code now uses w r w' _ IH Hnow Hclock Hrun]; intros x Hx.
  - by apply not_elem_of_nil in Hx.
  - destruct (IH x Hx) as (e' & t & He & Hr). exists e', t. split; [|done]. apply elem_of_app. by left.
  - apply verify_run in Hrun. assert (∀ e, e ∈ waf_events (db w) → e ∈ waf_events (db w')) as Hsub.
    { intros e He. destruct Hrun as [? ->|reason _ (i & k & _ & ->)|reason _ (i & k & _ & ->)|step _ _ _ (i & k & _ & ->)];
        [done|cbn [waf_events set_waf_events]; apply elem_of_app; by left..]. }
    apply elem_of_app in Hx as [Hx|Hx].
    { destruct (IH x Hx) as (e & t & He & Hr). exists e, t. auto. }
    destruct Hrun as [? ?|reason _ _|reason _ _|step Hf Hv Hun Ha]; try (by apply not_elem_of_nil in Hx).
    rewrite Hv in Hx. apply list_elem_of_singleton in Hx as ->. destruct Ha as (i & k & Hk & Hd).
    destruct (Hclock k Hk) as [Hm Hle]. destruct (verify_step_bounds _ _ _ _ Hnow Hv) as [Hpos Hb].
    eexists _, (clock o k). split; [rewrite Hd; cbn [waf_events set_waf_events]; apply elem_of_app; right; by apply list_elem_of_singleton|].
    cbn [we_username we_outcome we_reason we_created_at by_user under at_step]. split; [|split; [done|split; [done|split; [done|]]]].
    + split; [apply event_username_uuid|done].
    + cbn [at_step]. pose proof (timestamp_mono now (clock o k) Hle). Z.to_euclidean_division_equations. lia.
Qed.

(** C33: a one-time code works once: over any history of checks of any users, with
    waiting for the lock, failed statements and other events in between, the steps
    accepted for one user under one secret strictly increase, so no code and no
    older code is ever accepted again. *)
Theorem totp_code_once evs uses i j x y :
  totp_history evs uses → (i < j)%nat → uses !! i = Some x → uses !! j = Some y →
  by_user x = by_user y → under x = under y → at_step x < at_step y.
Proof.
  intros Hh Hij. revert i j Hij x y.
  induction Hh as [|evs uses e _ IH Hne1 Hne2|o u secret code now uses w r w' Hh IH Hnow Hclock Hrun]; intros i j Hij x y Hx Hy Hu Hs.
  { done. }
  { by eapply IH. }
  destruct (decide (j < length uses)%nat) as [Hj|Hj].
  { rewrite lookup_app_l in Hx, Hy by lia. by eapply (IH i j). }
  rewrite lookup_app_r in Hy by lia. apply verify_run in Hrun.
  destruct Hrun as [? _|reason _ _|reason _ _|step Hf Hv Hun Ha]; try done. rewrite Hv in Hx, Hy.
  apply list_lookup_singleton_Some in Hy as [Hj0 <-]. rewrite lookup_app_l in Hx by lia. cbn [by_user under at_step] in *.
  apply list_elem_of_lookup_2 in Hx. destruct (history_recorded _ _ Hh x Hx) as (e & t & He & Hr).
  eapply recorded_before; [exact Hr|exact Hs|exact Hnow|exact Hv|]. rewrite Hu.
  intros e' s' He'. apply list_elem_of_singleton in He' as ->. by apply Hun.
Qed.

(** ** Guesses *)

(** The failed checks of a user recorded between [x] and fifteen minutes later. *)
Definition failures_within (u x : Z) (evs : list WafEvent) : list WafEvent :=
  filter (fun e => of_user u (lit "totp_failed") e ∧ since x e ∧ str_leb (we_created_at e) (to_rfc3339 (x + minutes 15)) = true) evs.

Lemma history_timed evs uses : totp_history evs uses → Forall timed evs.
Proof.
  induction 1 as [|evs uses e _ IH Hne1 Hne2|o u secret code now uses w r w' _ IH Hnow Hclock Hrun].
  - constructor.
  - apply Forall_app. split; [done|]. apply Forall_singleton. by intros ?.
  - apply verify_run in Hrun. destruct Hrun as [? ->|reason _ (i & k & Hk & ->)|reason _ (i & k & Hk & ->)|step _ _ _ (i & k & Hk & ->)];
      [done|cbn [waf_events set_waf_events]; apply Forall_app; (split; [done|]); apply Forall_singleton; intros _..];
      exists (clock o k); split; try done; by apply Hclock.
Qed.

Lemma failures_within_recent u x now evs :
  Forall timed evs → modern x → modern now → now - minutes 15 <= x →
  zlen (failures_within u x evs) <= recent_failures u (now - minutes 15) evs.
Proof.
  intros Htimed Hx Hnow Hle. unfold failures_within, recent_failures, zlen. apply inj_le, submseteq_length.
  assert (∀ e, timed e → of_user u (lit "totp_failed") e → since x e → since (now - minutes 15) e) as Himp.
  { intros e Ht Hu He. destruct (Ht (proj2 Hu)) as (t & Hm & Hc). unfold since in *. rewrite Hc in *.
    rewrite rfc3339_leb in He by by apply modern_now. rewrite rfc3339_leb by era_solve.
    apply Z.leb_le in He. apply Z.leb_le. lia. }
  induction Htimed as [|e evs Ht _ IH]; [done|]. rewrite !filter_cons.
  destruct (decide (of_user u _ e ∧ _)) as [(Hu & Hs & _)|Hn].
  - rewrite decide_True; [by apply submseteq_skip|]. destruct Hu. split; [done|]. split; [done|]. by apply Himp.
  - destruct (decide _); [by apply submseteq_cons|done].
Qed.

Lemma failures_bound evs uses u x :
  totp_history evs uses → modern x → zlen (failures_within u x evs) <= 5.
Proof.
  intros Hh Hx. induction Hh as [|evs uses e _ IH Hne1 Hne2|o u' secret code now uses w r w' Hh IH Hnow Hclock Hrun].
  - by vm_compute.
  - unfold failures_within in *. rewrite filter_app, filter_cons_False; [|intros [[_ ?] _]; done]. cbn [filter list_filter]. by rewrite app_nil_r.
  - apply verify_run in Hrun. destruct Hrun as [? ->|reason _ (i & k & _ & ->)|reason Hf (i & k & Hk & ->)|step _ _ _ (i & k & _ & ->)]; [done|..].
    1,3: unfold failures_within in *; cbn [waf_events set_waf_events]; rewrite filter_app, filter_cons_False by (intros [[_ ?] _]; done);
         cbn [filter list_filter]; by rewrite app_nil_r.
    cbn [waf_events set_waf_events]. unfold failures_within in *. rewrite filter_app. unfold zlen in *. rewrite length_app, Nat2Z.inj_add.
    rewrite filter_cons. destruct (decide _) as [(Hu & Hs & Hle)|Hn]; [|cbn [filter list_filter length]; lia].
    assert (u' = u ∨ u' ≠ u) as Huu by lia.
    cbn [filter list_filter length]. destruct Hu as [Hu _]. cbn [we_username] in Hu. rewrite event_username_uuid in Hu. injection Hu as Hu.
    cbn [we_created_at] in Hle, Hs. destruct (Hclock k Hk) as [Hm Hc].
    rewrite rfc3339_leb in Hle by era_solve.
    apply Z.leb_le in Hle. pose proof (history_timed _ _ Hh) as Ht.
    pose proof (failures_within_recent u x now (waf_events (db w)) Ht Hx Hnow ltac:(lia)) as Hb.
    unfold failures_within, zlen in Hb. unfold recent_failures, zlen in Hb, Hf. rewrite Hu in Hf. lia.
Qed.

(** C34: a one-time code cannot be guessed by trying: over any history of checks, in
    no stretch of fifteen minutes are more than five failed attempts of a user
    recorded, and a check made while five are recent is refused whatever the code. *)
Theorem totp_guesses_bounded evs uses u x :
  totp_history evs uses → modern x →
  zlen (failures_within u x evs) <= 5
  ∧ ∀ o secret code now w r w', waf_events (db w) = evs → 5 <= recent_failures u (now - minutes 15) evs →
      verify_and_consume_user_totp hmac_sha1 o u secret code now w = (r, w') → is_ok r = false.
Proof.
  intros Hh Hx. split; [by eapply failures_bound|]. intros o secret code now w r w' <- Hf Hrun%verify_run.
  destruct Hrun as [| | |step Hlt _ _ _]; [done..|lia].
Qed.

(** ** Reads *)

Lemma only_events_users t u : only_events t u → same_users t u.
Proof. by intros (? & _). Qed.

Lemma verify_events o u secret code now : respects only_events (verify_and_consume_user_totp hmac_sha1 o u secret code now).
Proof.
  intros w r w' Hrun%verify_run.
  by destruct Hrun as [? ->|reason _ (i & k & _ & ->)|reason _ (i & k & _ & ->)|step _ _ _ (i & k & _ & ->)].
Qed.

(** The columns [totp_config] reads. *)
Definition stored_totp (u : Z) (t : Tables) : option rstr * bool :=
  match head (filter (fun r => ur_id r = uuid_to_string u) (users t)) with
  | Some r => (ur_totp_secret r, negb (ur_totp_enabled r =? 0))
  | None => (None, false)
  end.

Lemma totp_config_Ok o u w secret enabled w' :
  Users.totp_config cell o u w = (Ok (secret, enabled), w') →
  db w' = db w ∧ enabled = (stored_totp u (db w)).2
  ∧ Secrets.decrypt_optional_secret (E := E) cell (stored_totp u (db w)).1 = Ok secret.
Proof.
  unfold Users.totp_config, stored_totp. intros (row & w1 & Hs & Hr)%run_bind_Ok. apply run_select_Ok in Hs as (_ & -> & ->).
  destruct (match head _ with Some r => _ | None => _ end) as [raw en].
  apply run_bind_Ok in Hr as (x & w1 & Hd & Hr). apply run_with_err_Ok in Hd. injection Hd as Hd <-. by injection Hr as -> -> <-.
Qed.

Lemma totp_config_same o u : respects eq (Users.totp_config (E := E) cell o u).
Proof.
  intros w r w'. unfold Users.totp_config. intros [(row & w1 & Hs & Hr)|(e & Hs & _)]%run_bind.
  - apply run_select_Ok in Hs as (_ & -> & ->). destruct (match head _ with Some r => _ | None => _ end) as [raw en].
    unfold mbind, M_bind, with_err, lift, mret, M_ret in Hr. destruct (Secrets.decrypt_optional_secret _ _); by injection Hr as _ <-.
  - unfold select, sql in Hs. destruct (fault o (tick w)); [by injection Hs as _ <-|done].
Qed.

Lemma head_filter_Some {A} (P : A → Prop) `{!∀ a, Decision (P a)} l a : head (filter P l) = Some a → P a ∧ a ∈ l.
Proof.
  intros Hh. assert (a ∈ filter P l) as Hin; [|by apply list_elem_of_filter in Hin].
  destruct (filter P l) as [|b q]; [done|]. injection Hh as ->. left.
Qed.

Lemma head_filter_None {A} (P : A → Prop) `{!∀ a, Decision (P a)} l : head (filter P l) = None → ∀ a, a ∈ l → ¬ P a.
Proof.
  intros Hh a Ha Hp. assert (a ∈ filter P l) as Hin by by apply list_elem_of_filter.
  destruct (filter P l); [|done]. by apply not_elem_of_nil in Hin.
Qed.

Lemma find_by_username_Ok o name w user w' :
  Users.find_by_username o name w = (Ok (Some user), w') →
  db w' = db w ∧ ∃ row, row ∈ users (db w) ∧ ur_username row = name ∧ Users.sqlite_user_from_row row = Some user.
Proof.
  unfold Users.find_by_username. intros (row & w1 & Hs & Hr)%run_bind_Ok. apply run_select_Ok in Hs as (_ & -> & ->).
  apply (f_equal fst) in Hr as Hu. apply (f_equal snd) in Hr. cbn in Hu, Hr. subst w'. split; [done|].
  destruct (head _) as [row|] eqn:Hh; [|done]. apply head_filter_Some in Hh as [Hn Hin]. exists row.
  split; [done|]. split; [done|]. by injection Hu.
Qed.

(** No ban of the address is in force. *)
Definition not_banned (ip : rstr) (now : Z) (t : Tables) : Prop :=
  ∀ b, b ∈ waf_bans t → wb_ip b = ip → str_ltb (to_rfc3339 now) (wb_banned_until b) = false.

Lemma active_waf_ban_None o ip w w' :
  active_waf_ban o ip w = (Ok None, w') → db w' = db w ∧ not_banned ip (clock o (tick w)) (db w).
Proof.
  unfold active_waf_ban. intros (now & w1 & Hn & Hr)%run_bind_Ok. injection Hn as <- <-.
  apply run_with_err_Ok, run_select_Ok in Hr as (_ & Hh & ->). split; [done|]. intros b Hb Hip. symmetry in Hh.
  apply not_true_iff_false. intros Hlt. by apply (head_filter_None _ _ Hh b Hb).
Qed.

(** ** Login *)

Section login.
Context (o : Oracle E) (session_ttl_hours : Z) (cookie_secure : bool) (header_ok : rstr → bool).

Lemma make_cookie_same text w r w' : make_cookie (E := E) header_ok text w = (r, w') → db w' = db w.
Proof. unfold make_cookie. destruct (header_ok text); by intros [= _ <-]. Qed.

Lemma start_session_Ok user ip username ua w d w' :
  start_session o session_ttl_hours cookie_secure header_ok user ip username ua w = (Ok d, w') →
  logged_in d = user
  ∧ ∃ r, r ∈ sessions (db w') ∧ sr_token_hash r = Auth.hash_token (session_token d)
      ∧ sr_user_id r = uuid_to_string (Users.id user).
Proof.
  unfold start_session, generate_session_token. intros (token & w1 & Ht & Hr)%run_bind_Ok.
  apply run_bind_Ok in Hr as (now & w2 & _ & Hr). apply run_bind_Ok in Hr as (s & w3 & Hc & Hr). apply run_with_err_Ok in Hc.
  apply run_bind_Ok in Hr as ([] & w4 & He & Hr). apply record_waf_event_events in He as (_ & Hs & _).
  apply run_bind_Ok in Hr as (c1 & w5 & H5 & Hr). apply make_cookie_same in H5.
  apply run_bind_Ok in Hr as (c2 & w6 & H6 & Hr). apply make_cookie_same in H6.
  apply (f_equal fst) in Hr as Hd. apply (f_equal snd) in Hr. cbn in Hd, Hr. subst w6. injection Hd as <-.
  cbn [logged_in session_token]. split; [done|].
  apply SessionsProofs.create_Ok in Hc as (n & row & u & _ & _ & _ & _ & _ & Hu & Hh & _ & _ & _ & Hrows).
  apply SessionsProofs.create_rows_Ok in Hrows as (Ht3 & _ & _). exists row. rewrite H6, H5, Hs, Ht3.
  split; [cbn [sessions set_sessions]; apply elem_of_app; right; by apply list_elem_of_singleton|done].
Qed.

(** The second factor of a user, as the tables have it. *)
Definition second_factor (u : Z) (code : option rstr) (t : Tables) : Prop :=
  (stored_totp u t).2 = true →
  ∃ secret c step k, Secrets.decrypt_optional_secret (E := E) cell (stored_totp u t).1 = Ok (Some secret) ∧ code = Some c
    ∧ Totp.verify_totp_code_step hmac_sha1 secret c (clock o k) = Some step
    ∧ recent_failures u (clock o k - minutes 15) (waf_events t) < 5
    ∧ unused u secret step (clock o k - minutes 3) (waf_events t).

Lemma login_totp_Some user ip username code w w' :
  login_totp hmac_sha1 cell o user ip username code w = (Ok (Some ()), w') →
  second_factor (Users.id user) code (db w).
Proof.
  unfold login_totp. intros ([secret enabled] & w1 & Hc & Hr)%run_bind_Ok. apply run_with_err_Ok, totp_config_Ok in Hc as (Hdb & -> & Hdec).
  intros Hen. rewrite Hen in Hr. cbn [negb] in Hr. destruct code as [c|]; [|done].
  apply run_bind_Ok in Hr as (sec & w2 & Hs & Hr). injection Hs as Hs <-. apply ok_or_Ok in Hs as ->.
  apply run_bind_Ok in Hr as (now & w3 & Hn & Hr). injection Hn as <- <-.
  apply run_bind_Ok in Hr as (v & w4 & Hv & Hr). unfold attempt in Hv.
  destruct (verify_and_consume_user_totp _ _ _ _ _ _ _) as [x w5] eqn:Hrun. injection Hv as -> ->.
  apply verify_run in Hrun. destruct v as [[]|err].
  2:{ apply run_bind_Ok in Hr as (y & w6 & _ & Hr). done. }
  inversion Hrun as [| | |step Hf Hstep Hun Ha]; subst. cbn [bump db] in *. rewrite Hdb in Hf, Hun.
  exists sec, c, step, (tick w1). done.
Qed.

(** C30: a login takes every factor: when [login] answers with a session, no ban of
    the address was in force, the normalized user name is that of a stored user
    whose password hash verifies the password, a user with a second factor enabled
    sent a code that matches the stored secret, was not blocked by failed attempts
    and had not been used, and the session stored is that user's, under the hash
    of the token that was sent. *)
Theorem login_sound req ip ua w d w' :
  login hmac_sha1 cell o session_ttl_hours cookie_secure header_ok req ip ua w = (Ok (LoggedIn d), w') →
  ∃ username password code row user,
    normalize_username (E := E) (lr_username req) = Ok username
    ∧ normalize_password (E := E) (lr_password req) = Ok password
    ∧ normalize_optional_totp_code (E := E) (lr_totp_code req) = Ok code
    ∧ not_banned ip (clock o (tick w)) (db w)
    ∧ row ∈ users (db w) ∧ ur_username row = username ∧ Users.sqlite_user_from_row row = Some user
    ∧ Users.verify_password user password = Ok true
    ∧ second_factor (Users.id user) code (db w)
    ∧ logged_in d = user
    ∧ ∃ r, r ∈ sessions (db w') ∧ sr_token_hash r = Auth.hash_token (session_token d)
        ∧ sr_user_id r = uuid_to_string (Users.id user).
Proof.
  unfold login. intros (username & w1 & Hu & Hr)%run_bind_Ok. injection Hu as Hu <-.
  apply run_bind_Ok in Hr as (password & w1 & Hp & Hr). injection Hp as Hp <-.
  apply run_bind_Ok in Hr as (code & w1 & Hc & Hr). injection Hc as Hc <-.
  apply run_bind_Ok in Hr as (ban & w1 & Hb & Hr). destruct ban as [b|].
  { apply run_bind_Ok in Hr as (x & w2 & _ & Hr). done. }
  apply active_waf_ban_None in Hb as [Hdb Hb]. apply run_bind_Ok in Hr as (found & w2 & Hf & Hr). apply run_with_err_Ok in Hf.
  destruct found as [user|]; [|apply run_bind_Ok in Hr as (x & w3 & _ & Hr); done].
  apply find_by_username_Ok in Hf as (Hdb2 & row & Hrow & Hname & Huser). rewrite Hdb in Hdb2, Hrow.
  apply run_bind_Ok in Hr as (ok & w3 & Hv & Hr). unfold check_password in Hv. apply run_with_err_Ok in Hv. injection Hv as Hv <-.
  destruct ok; cbn [negb] in Hr; [|apply run_bind_Ok in Hr as (x & w3 & _ & Hr); done].
  apply run_bind_Ok in Hr as (factor & w3 & Ht & Hr). destruct factor as [[]|]; [|done].
  apply login_totp_Some in Ht. rewrite Hdb2 in Ht.
  apply run_bind_Ok in Hr as (x & w4 & Hs & Hr). injection Hr as -> ->. apply start_session_Ok in Hs as [Hl Hs].
  exists username, password, code, row, user. by repeat (split; [done|]).
Qed.

(** ** Lockout *)

Definition recent_auth_failures (ip : rstr) (t : Z) (evs : list WafEvent) : Z :=
  zlen (filter (fun e => we_ip e = ip ∧ we_outcome e ∈ FAILURE_OUTCOMES
                         ∧ str_leb (to_rfc3339 t) (we_created_at e) = true) evs).

Lemma upsert_ban_in row bans :
  ∃ b, b ∈ upsert_ban row bans ∧ wb_ip b = wb_ip row ∧ wb_banned_until b = wb_banned_until row.
Proof.
  unfold upsert_ban. case_bool_decide as Hin.
  - apply list_elem_of_fmap in Hin as (b & Hip & Hb). eexists. split; [apply list_elem_of_fmap; exists b; split; [reflexivity|done]|].
    by rewrite bool_decide_eq_true_2.
  - exists row. split; [|done]. apply elem_of_app. right. by apply list_elem_of_singleton.
Qed.

Lemma upsert_waf_ban_Ok ip reason n until w w' :
  upsert_waf_ban o ip reason n until w = (Ok (), w') →
  waf_events (db w') = waf_events (db w)
  ∧ ∃ b, b ∈ waf_bans (db w') ∧ wb_ip b = ip ∧ wb_banned_until b = to_rfc3339 until.
Proof.
  unfold upsert_waf_ban. intros (u & w1 & Hu & Hr)%run_bind_Ok. injection Hu as <- <-.
  apply run_bind_Ok in Hr as (t & w1 & Ht & Hr). injection Ht as <- <-.
  apply run_with_err_Ok, run_execute_Ok in Hr as (_ & ->). cbn [db bump waf_events waf_bans set_waf_bans].
  split; [done|]. lazymatch goal with |- context [upsert_ban ?row ?bans] => destruct (upsert_ban_in row bans) as (b & Hb & Hi & Hun) end.
  by exists b.
Qed.

Lemma register_failure_Ok ip who outcome reason ban_reason w w' :
  register_failure o ip who outcome reason ban_reason w = (Ok (), w') →
  5 <= recent_auth_failures ip (clock o (3 + tick w) - minutes 15) (waf_events (db w')) →
  ∃ b, b ∈ waf_bans (db w') ∧ wb_ip b = ip ∧ wb_banned_until b = to_rfc3339 (clock o (5 + tick w) + minutes 30).
Proof.
  unfold register_failure. intros ([] & w1 & He & Hr)%run_bind_Ok.
  assert (tick w1 = 3 + tick w)%nat as Ht1.
  { unfold record_waf_event, mbind, M_bind, now_v7, utc_now, repo, with_err, execute, sql in He. cbn [bump tick db] in He.
    destruct (fault o _); [done|]. by injection He as <-. }
  apply run_bind_Ok in Hr as (t & w2 & Ht & Hr). injection Ht as <- <-.
  apply run_bind_Ok in Hr as (n & w2 & Hn & Hr). apply run_with_err_Ok, run_select_Ok in Hn as (_ & -> & ->).
  rewrite Ht1 in Hr.
  change (zlen (filter _ _)) with (recent_auth_failures ip (clock o (3 + tick w) - minutes 15) (waf_events (db w1))) in Hr.
  destruct (LOGIN_FAILURE_THRESHOLD <=? _) eqn:Hth; bool_prop; unfold LOGIN_FAILURE_THRESHOLD in Hth.
  - intros _. apply run_bind_Ok in Hr as (t & w2 & Ht & Hr). injection Ht as <- <-. apply upsert_waf_ban_Ok in Hr as [_ (b & Hb & Hip & Hun)].
    exists b. split; [done|]. split; [done|]. rewrite Hun. cbn [bump tick]. by rewrite Ht1.
  - injection Hr as <-. cbn [bump db]. lia.
Qed.

Lemma banned_login req ip ua b w r w' :
  b ∈ waf_bans (db w) → wb_ip b = ip → str_ltb (to_rfc3339 (clock o (tick w))) (wb_banned_until b) = true →
  login hmac_sha1 cell o session_ttl_hours cookie_secure header_ok req ip ua w = (r, w') →
  is_ok r = false ∧ only_events (db w) (db w').
Proof.
  intros Hb Hip Hlt. unfold login.
  intros [(username & w1 & Hu & Hr)|(x & Hu & ->)]%run_bind; [|by injection Hu as _ <-]. injection Hu as _ <-.
  apply run_bind in Hr as [(password & w1 & Hp & Hr)|(x & Hp & ->)]; [|by injection Hp as _ <-]. injection Hp as _ <-.
  apply run_bind in Hr as [(code & w1 & Hc & Hr)|(x & Hc & ->)]; [|by injection Hc as _ <-]. injection Hc as _ <-.
  apply run_bind in Hr as [(ban & w1 & Ha & Hr)|(x & Ha & ->)].
  - destruct ban as [b'|]; [|apply active_waf_ban_None in Ha as [_ Hn]; by rewrite Hn in Hlt].
    assert (db w1 = db w) as Hdb.
    { unfold active_waf_ban in Ha. apply run_bind_Ok in Ha as (t & w2 & Ht & Ha). injection Ht as <- <-.
      by apply run_with_err_Ok, run_select_Ok in Ha as (_ & _ & ->). }
    unfold mbind, M_bind, fail in Hr. destruct (record_waf_event _ _ _ _ _ w1) as [[[]|x] w2] eqn:He;
      injection Hr as <- <-; apply record_waf_event_events in He; by rewrite Hdb in He.
  - split; [done|]. unfold active_waf_ban, mbind, M_bind, utc_now, repo, with_err, select, sql in Ha. cbn [bump tick db] in Ha.
    destruct (fault o _); by injection Ha as _ <-.
Qed.

(** repeated failures lock an address out: when a failed authentication of any
    kind is registered and, with it, the address has five failures within fifteen
    minutes, then for thirty minutes, as long as no administrator changes the
    bans, every login from the address is refused whatever the credentials, and
    creates no session. *)
Theorem failures_lock_out ip who outcome reason ban_reason w w' req ua w2 r w3 :
  (∀ i, modern (clock o i)) →
  register_failure o ip who outcome reason ban_reason w = (Ok (), w') →
  5 <= recent_auth_failures ip (clock o (3 + tick w) - minutes 15) (waf_events (db w')) →
  waf_bans (db w2) = waf_bans (db w') → clock o (tick w2) < clock o (5 + tick w) + minutes 30 →
  login hmac_sha1 cell o session_ttl_hours cookie_secure header_ok req ip ua w2 = (r, w3) →
  is_ok r = false ∧ sessions (db w3) = sessions (db w2) ∧ users (db w3) = users (db w2).
Proof.
  intros Hm Hreg H5 Hbans Hlt Hlogin. destruct (register_failure_Ok _ _ _ _ _ _ _ Hreg H5) as (b & Hb & Hip & Hun).
  rewrite <- Hbans in Hb. eapply banned_login in Hlogin as [Hr (Hu & Hs & _)]; [done|exact Hb|exact Hip|].
  rewrite Hun, rfc3339_order by era_solve. by apply Z.ltb_lt.
Qed.
End login.
End accounts.
End AccountsProofs.
