(* ===== verification/AdminProofs.v ===== *)
(** * AdminProofs: an administrator remains, and revocation is effective

    The administration of users in [Accounts]: no request leaves the instance
    without an administrator, and after a password reset or a change of role no
    credential issued before passes the session middleware as that user. *)

From S2P Require Import Prelude Text BTreeMap Externals Auth AuthProofs Totp Net Secrets Rfc3339 Tables Sessions SessionsProofs Users Accounts AccountsProofs.

Module AdminProofs.
Import Tables Accounts AccountsProofs.

Lemma respects_weaken {X A} (R S : Tables → Tables → Prop) (m : M X A) :
  (∀ t u, R t u → S t u) → respects R m → respects S m.
Proof. intros HRS Hm w r w' Hw. apply HRS. by eapply Hm. Qed.

(** ** Counting administrators *)

Definition is_admin_row (r : UserRow) : Prop := ur_role r = lit "admin".
Definition admins (t : Tables) : Z := zlen (filter (fun r => ur_role r = lit "admin") (users t)).

(** What the tables promise about each other: ids are canonical, ids and user
    names are unique, and sessions and tokens belong to users that exist. *)
Record consistent `{UuidLib} (t : Tables) : Prop := {
  ids_canonical : ∀ k, k ∈ (ur_id <$> users t) → ∃ i, uuid_ok i ∧ k = uuid_to_string i;
  ids_unique : NoDup (ur_id <$> users t);
  names_unique : NoDup (ur_username <$> users t);
  session_owners : ∀ s, s ∈ sessions t → sr_user_id s ∈ (ur_id <$> users t);
  pat_owners : ∀ p, p ∈ pats t → pr_user_id p ∈ (ur_id <$> users t);
}.

(** Rows that differ in their role only where [P] allows the new one. *)
Definition rerole (P : rstr → rstr → Prop) (r r' : UserRow) : Prop :=
  ur_id r' = ur_id r ∧ ur_username r' = ur_username r ∧ (ur_role r' = ur_role r ∨ P (ur_id r) (ur_role r')).

Definition tame `{UuidLib} (P : rstr → rstr → Prop) (t u : Tables) : Prop :=
  Forall2 (rerole P) (users t) (users u) ∧ (consistent t → consistent u).

(** Roles are left alone. *)
Definition steady `{UuidLib} : Tables → Tables → Prop := tame (fun _ _ => False).

#[global] Instance rerole_preorder P : PreOrder (rerole P).
Proof.
  split; [intros r; red; auto|]. intros r1 r2 r3 (H1 & H2 & H3) (K1 & K2 & K3). split; [congruence|]. split; [congruence|].
  destruct K3 as [->|K3]; [|rewrite H1 in K3]; auto.
Qed.
#[global] Instance tame_preorder `{UuidLib} P : PreOrder (tame P).
Proof. split; [intros t; split; [reflexivity|done]|]. intros t u v [H1 H2] [K1 K2]. split; [by etrans|auto]. Qed.

Lemma steady_tame `{UuidLib} P t u : steady t u → tame P t u.
Proof.
  intros [H1 H2]. split; [|done]. eapply Forall2_impl; [exact H1|]. intros r r' (? & ? & [?|[]]). red. auto.
Qed.

Lemma rerole_ids P l l' : Forall2 (rerole P) l l' → ur_id <$> l' = ur_id <$> l ∧ ur_username <$> l' = ur_username <$> l.
Proof. induction 1 as [|r r' l l' (Hi & Hn & _) _ [IH1 IH2]]; [done|]. rewrite !fmap_cons, Hi, Hn, IH1, IH2. done. Qed.

(** The tables after a change of users that keeps ids and names, or of sessions
    and tokens that keeps to known owners. *)
Lemma tame_intro `{UuidLib} P t u :
  Forall2 (rerole P) (users t) (users u) →
  (∀ s, s ∈ sessions u → sr_user_id s ∈ (ur_id <$> users t) ∨ ∃ s', s' ∈ sessions t ∧ sr_user_id s = sr_user_id s') →
  (∀ p, p ∈ pats u → ∃ p', p' ∈ pats t ∧ pr_user_id p = pr_user_id p') → tame P t u.
Proof.
  intros Hu Hs Hp. split; [done|]. destruct (rerole_ids _ _ _ Hu) as [Hi Hn]. intros [H0 H1 H2 H3 H4]. split; rewrite ?Hi, ?Hn; [done..| |].
  - intros s [?|(s' & Hs' & ->)]%Hs; [done|]. by apply H3.
  - intros p (p' & Hp' & ->)%Hp. by apply H4.
Qed.

Section counting.
Implicit Types (l : list UserRow).
Abbreviation count l := (length (filter (fun r => ur_role r = lit "admin") l)).

Lemma count_keep P l l' :
  (∀ r role, r ∈ l → is_admin_row r → P (ur_id r) role → role = lit "admin") → Forall2 (rerole P) l l' → (count l <= count l')%nat.
Proof.
  unfold is_admin_row. intros HP Hl. induction Hl as [|r r' l l' (Hi & _ & Hr) _ IH]; [done|].
  assert (count l <= count l')%nat by (apply IH; intros r1 role H1; apply HP; by right).
  pose proof (HP r (ur_role r') ltac:(left)) as Hk. rewrite !filter_cons. repeat case_decide; cbn [length]; try lia.
  destruct Hr as [Hr|Hr]; [congruence|]. naive_solver.
Qed.

Lemma count_one P key l l' :
  NoDup (ur_id <$> l) → (∀ k role, P k role → k = key) → Forall2 (rerole P) l l' → (count l <= count l' + 1)%nat.
Proof.
  intros Hnd HP Hl. induction Hl as [|r r' l l' (Hi & _ & Hr) Hl IH]; [cbn; lia|].
  rewrite fmap_cons in Hnd. apply NoDup_cons in Hnd as [Hnr Hnd]. specialize (IH Hnd).
  destruct (decide (ur_id r = key)) as [Hk|Hk].
  - assert (count l <= count l')%nat.
    { eapply count_keep, Hl. intros r1 role H1 _ Hp%HP. destruct Hnr. rewrite Hk, <- Hp. by apply list_elem_of_fmap_2. }
    rewrite !filter_cons. repeat case_decide; cbn [length]; lia.
  - assert (ur_role r' = ur_role r) as Hrr by (destruct Hr as [?|?%HP]; [done|congruence]).
    rewrite !filter_cons, Hrr. repeat case_decide; cbn [length]; lia.
Qed.

Lemma count_delete key l : NoDup (ur_id <$> l) → (count l <= count (filter (fun r => ur_id r ≠ key) l) + 1)%nat.
Proof.
  induction l as [|r l IH]; intros Hnd; [cbn; lia|]. rewrite fmap_cons in Hnd. apply NoDup_cons in Hnd as [Hr Hnd].
  rewrite (filter_cons (fun r => ur_id r ≠ key)). destruct (decide (ur_id r ≠ key)) as [Hk|Hk].
  - specialize (IH Hnd). rewrite !filter_cons. case_decide; cbn [length]; lia.
  - assert (filter (fun r => ur_id r ≠ key) l = l) as ->.
    { assert (key ∉ (ur_id <$> l)) as Hl by (destruct (decide (ur_id r = key)) as [<-|]; tauto). clear -Hl.
      induction l as [|x l IH]; [done|]. cbn in Hl. apply not_elem_of_cons in Hl as [Hx Hl]. rewrite filter_cons_True by congruence. f_equal. by apply IH. }
    rewrite !filter_cons. case_decide; cbn [length]; lia.
Qed.

Lemma count_delete_keep key l :
  (∀ r, r ∈ l → ur_id r = key → ¬ is_admin_row r) → (count l <= count (filter (fun r => ur_id r ≠ key) l))%nat.
Proof.
  unfold is_admin_row. induction l as [|r l IH]; intros Hf; [cbn; lia|].
  assert (count l <= count (filter (fun r => ur_id r ≠ key) l))%nat by (apply IH; intros; apply Hf; [by right|done..]).
  pose proof (Hf r ltac:(left)). rewrite (filter_cons (fun r => ur_id r ≠ key)). destruct (decide (ur_id r ≠ key)) as [Hk|Hk].
  - rewrite !filter_cons. case_decide; cbn [length]; lia.
  - rewrite filter_cons_False; [lia|]. destruct (decide (ur_id r = key)); tauto.
Qed.
End counting.

(** ** What the handlers do to users, sessions and tokens *)

Section admin.
Context {E : Type} `{UuidLib, Rfc3339, Users.Argon2, Secrets.SecretLib, Auth.Crypto}.
Context (hmac_sha1 : list Z → list Z → list Z) (cell : option Secrets.SecretCrypto) (o : Oracle E).
Implicit Types (P : rstr → rstr → Prop) (w : World).

Lemma only_events_tame P t u : only_events t u → tame P t u.
Proof.
  intros (Hu & Hs & Hp & _). apply tame_intro; rewrite ?Hu, ?Hs, ?Hp; [reflexivity|eauto..].
Qed.

Lemma eq_tame P t u : t = u → tame P t u.
Proof. by intros ->. Qed.

(** A change of one user's row. *)
Lemma update_users_tame P u f :
  (∀ r, ur_id r = uuid_to_string u → rerole P r (f r)) → respects (tame P) (Users.update_users o u f).
Proof.
  intros Hf. apply respects_execute; [apply _|]. intros t. apply tame_intro; cbn [set_users users sessions pats]; [|eauto..].
  induction (users t) as [|r l IH]; constructor; [|done]. case_bool_decide; [by apply Hf|done].
Qed.

Lemma delete_for_user_tame P u : respects (tame P) (Sessions.delete_for_user o u).
Proof.
  apply respects_sql; [apply _|]. intros t n t' [= _ <-]. apply tame_intro; cbn [set_sessions users sessions pats]; [reflexivity| |eauto].
  intros s [_ Hs]%list_elem_of_filter. eauto.
Qed.

Lemma update_pats_tame P which f :
  (∀ p, pr_user_id (f p) = pr_user_id p) → respects (tame P) (Users.update_pats o which f).
Proof.
  intros Hf. apply respects_sql; [apply _|]. intros t n t' [= _ <-]. apply tame_intro; cbn [set_pats users sessions pats]; [reflexivity|eauto|].
  intros p (q & -> & Hq)%list_elem_of_fmap. exists q. split; [done|]. case_match; [apply Hf|done].
Qed.

Lemma hash_password_tame P password : respects (tame P) (Users.hash_password o password).
Proof. unfold Users.hash_password. auto 10 with respects. Qed.

Lemma verify_tame P u secret code now : respects (tame P) (verify_and_consume_user_totp hmac_sha1 o u secret code now).
Proof. eapply respects_weaken, verify_events. intros. by apply only_events_tame. Qed.

Lemma totp_config_tame P u : respects (tame P) (Users.totp_config (E := E) cell o u).
Proof. eapply respects_weaken, totp_config_same. intros. by apply eq_tame. Qed.

Lemma record_tame P ip who outcome reason : respects (tame P) (record_waf_event o ip who outcome reason).
Proof. eapply respects_weaken, record_waf_event_events. intros. by apply only_events_tame. Qed.

#[local] Hint Resolve delete_for_user_tame hash_password_tame verify_tame totp_config_tame record_tame : respects.

Lemma insert_user_consistent row t t' :
  (∃ i, uuid_ok i ∧ ur_id row = uuid_to_string i) → Users.insert_user row t = (Ok (), t') →
  users t' = users t ++ [row] ∧ (consistent t → consistent t').
Proof.
  intros Hid. unfold Users.insert_user. case_bool_decide as Hd; [done|]. destruct (is_ok _); [|done]. intros [= <-].
  apply Decidable.not_or in Hd as [Hi Hn]. split; [done|]. intros [H0' H1' H2' H3' H4'].
  split; cbn [set_users users sessions pats]; rewrite ?fmap_app.
  - intros k [?| ->%list_elem_of_singleton]%elem_of_app; [by apply H0'|exact Hid].
  - apply NoDup_app. split; [done|]. split; [|apply NoDup_singleton]. intros x Hx ->%list_elem_of_singleton. done.
  - apply NoDup_app. split; [done|]. split; [|apply NoDup_singleton]. intros x Hx ->%list_elem_of_singleton. done.
  - intros s Hs. apply elem_of_app. left. by apply H3'.
  - intros s Hs. apply elem_of_app. left. by apply H4'.
Qed.

Lemma create_rows_owner row now limit t t' :
  Sessions.create_rows row now limit t = (Ok (), t') → sr_user_id row ∈ (ur_id <$> users t).
Proof.
  unfold Sessions.create_rows. case_bool_decide as Hd; [done|]. intros _. destruct (decide (sr_user_id row ∈ (ur_id <$> users t))); tauto.
Qed.

Lemma kept_rows_in user now limit l s : s ∈ SessionsProofs.kept_rows user now limit l → s ∈ l.
Proof. unfold SessionsProofs.kept_rows. intros [_ [_ Hs]%list_elem_of_filter]%list_elem_of_filter. done. Qed.

Lemma create_session_tame P input hash : respects (tame P) (Sessions.create o input hash).
Proof.
  unfold Sessions.create. assert (∀ row now limit, respects (tame P) (sql o (Sessions.create_rows row now limit))).
  { intros row now limit. apply respects_sql; [apply _|]. intros t [] t' Hc. pose proof (create_rows_owner _ _ _ _ _ Hc) as Hu. apply SessionsProofs.create_rows_Ok in Hc as (-> & _).
    apply tame_intro; cbn [set_sessions users sessions pats]; [reflexivity| |eauto].
    intros s [Hs%kept_rows_in | ->%list_elem_of_singleton]%elem_of_app; [|by left]. right. eauto. }
  auto 20 with respects.
Qed.

Lemma delete_session_rows_tame P id : respects (tame P) (Sessions.delete o id).
Proof.
  unfold Sessions.delete. destruct (_ || _); [auto with respects|]. apply respects_execute; [apply _|]. intros t.
  apply tame_intro; cbn [set_sessions users sessions pats]; [reflexivity| |eauto].
  intros s [_ Hs]%list_elem_of_filter. eauto.
Qed.

Lemma bans_tame P t f : tame P t (set_waf_bans f t).
Proof. apply tame_intro; cbn [set_waf_bans users sessions pats]; [reflexivity|eauto..]. Qed.

Lemma upsert_waf_ban_tame P ip reason n until : respects (tame P) (upsert_waf_ban o ip reason n until).
Proof.
  unfold upsert_waf_ban, repo. do 2 (apply respects_bind; [apply _|auto with respects|intros ?]).
  apply respects_with_err, respects_execute; [apply _|]. intros t. apply bans_tame.
Qed.

Lemma active_waf_ban_tame P ip : respects (tame P) (active_waf_ban o ip).
Proof. unfold active_waf_ban, repo. auto with respects. Qed.

#[local] Hint Resolve create_session_tame delete_session_rows_tame upsert_waf_ban_tame active_waf_ban_tame : respects.

Lemma register_failure_tame P ip who outcome reason ban_reason : respects (tame P) (register_failure o ip who outcome reason ban_reason).
Proof. unfold register_failure, count_recent_auth_failures, repo. auto 20 with respects. Qed.

Lemma require_sensitive_totp_tame P u headers : respects (tame P) (require_sensitive_totp hmac_sha1 cell o u headers).
Proof. unfold require_sensitive_totp, repo. auto 20 with respects. Qed.

Lemma find_by_id_tame P u : respects (tame P) (Users.find_by_id o u).
Proof. unfold Users.find_by_id. auto with respects. Qed.

Lemma check_current_code_tame P u secret code m1 m2 : respects (tame P) (check_current_code hmac_sha1 o u secret code m1 m2).
Proof. unfold check_current_code. auto 20 with respects. Qed.

#[local] Hint Resolve register_failure_tame require_sensitive_totp_tame find_by_id_tame check_current_code_tame : respects.

Lemma revoke_user_credentials_tame P u : respects (tame P) (revoke_user_credentials o u).
Proof.
  assert (respects (tame P) (Users.revoke_all_for_user o u)).
  { unfold Users.revoke_all_for_user. apply respects_bind; [apply _|auto with respects|]. intros now. by apply update_pats_tame. }
  unfold revoke_user_credentials, repo. auto 20 with respects.
Qed.

Lemma require_cookie_tame P u : respects (tame P) (require_cookie_session (E := E) u).
Proof. unfold require_cookie_session. auto with respects. Qed.

Lemma require_admin_cookie_tame P u : respects (tame P) (require_admin_cookie_session (E := E) u).
Proof. unfold require_admin_cookie_session, require_cookie_session, require_admin. auto 20 with respects. Qed.

#[local] Hint Resolve revoke_user_credentials_tame require_cookie_tame require_admin_cookie_tame : respects.

(** Storing a secret or a flag of the second factor. *)
Lemma totp_column_tame P u secret enabled stamp :
  respects (tame P) (Users.update_users o u (fun r => Users.set_totp (secret r) enabled stamp r)).
Proof. apply update_users_tame. intros r _. red. auto. Qed.
#[local] Hint Resolve totp_column_tame : respects.

Lemma setup_totp_tame P u code : respects (tame P) (setup_totp hmac_sha1 cell o u code).
Proof.
  assert (∀ u secret enabled, respects (tame P) (Users.set_totp_secret (E := E) cell o u secret enabled)).
  { intros. unfold Users.set_totp_secret. auto 20 with respects. }
  unfold setup_totp, generate_totp_secret, repo. auto 20 with respects.
Qed.

Lemma enable_totp_tame P u code : respects (tame P) (enable_totp hmac_sha1 cell o u code).
Proof. unfold enable_totp, Users.set_totp_enabled, repo. auto 20 with respects. Qed.

Lemma disable_totp_tame P u code : respects (tame P) (disable_totp hmac_sha1 cell o u code).
Proof. unfold disable_totp, Users.disable_totp, repo. auto 20 with respects. Qed.

Lemma delete_session_tame P u headers id : respects (tame P) (delete_session hmac_sha1 cell o u headers id).
Proof. unfold delete_session, repo. auto 20 with respects. Qed.

Lemma ban_each_tame P u reason until ips : respects (tame P) (ban_each o u reason until ips).
Proof. induction ips as [|ip ips IH]; cbn [ban_each]; auto 20 with respects. Qed.

Lemma create_waf_bans_tame P u headers req : respects (tame P) (create_waf_bans hmac_sha1 cell o u headers req).
Proof. pose proof ban_each_tame. unfold create_waf_bans. auto 20 with respects. Qed.

Lemma delete_waf_ban_tame P u headers id : respects (tame P) (delete_waf_ban hmac_sha1 cell o u headers id).
Proof.
  assert (∀ id, respects (tame P) (sql o (fun t => (Ok (zlen (filter (fun b => wb_id b = id) (waf_bans t))),
                                    set_waf_bans (filter (fun b => wb_id b ≠ id) (waf_bans t)) t)))).
  { intros i. apply respects_sql; [apply _|]. intros t n t' [= _ <-]. apply bans_tame. }
  unfold delete_waf_ban, repo. auto 20 with respects.
Qed.

Section sessions.
Context (ttl : Z) (cookie_secure : bool) (header_ok : rstr → bool).

Lemma make_cookie_tame P text : respects (tame P) (make_cookie (E := E) header_ok text).
Proof. unfold make_cookie. auto with respects. Qed.
#[local] Hint Resolve make_cookie_tame : respects.

Lemma start_session_tame P user ip name ua : respects (tame P) (start_session o ttl cookie_secure header_ok user ip name ua).
Proof. unfold start_session, generate_session_token, repo. auto 20 with respects. Qed.

Lemma login_totp_tame P user ip name code : respects (tame P) (login_totp hmac_sha1 cell o user ip name code).
Proof. unfold login_totp, register_login_failure, repo. auto 20 with respects. Qed.
#[local] Hint Resolve start_session_tame login_totp_tame : respects.

Lemma login_tame P req ip ua : respects (tame P) (login hmac_sha1 cell o ttl cookie_secure header_ok req ip ua).
Proof.
  unfold login, register_login_failure, check_password, Users.find_by_username, repo. auto 30 with respects.
Qed.

Lemma logout_tame P u : respects (tame P) (logout o cookie_secure header_ok u).
Proof. unfold logout, repo. auto 20 with respects. Qed.
End sessions.

(** ** Creating, changing and deleting users *)

(** The invariant of the account tables, and its preservation. *)
Definition governed (t : Tables) : Prop := consistent t ∧ 1 <= admins t.
Definition safe (t u : Tables) : Prop := governed t → governed u.
#[global] Instance safe_preorder : PreOrder safe.
Proof. unfold safe. split; red; auto. Qed.

Lemma steady_safe t u : steady t u → safe t u.
Proof.
  intros [Hu Hc] [Ht Ha]. split; [auto|]. unfold admins in *. apply count_keep in Hu; [|done]. unfold zlen in *. lia.
Qed.

Lemma respects_safe {X A} (m : M X A) : respects steady m → respects safe m.
Proof. apply respects_weaken, steady_safe. Qed.

Lemma insert_user_safe row : (∃ i, uuid_ok i ∧ ur_id row = uuid_to_string i) → respects safe (sql o (Users.insert_user row)).
Proof.
  intros Hid. apply respects_sql; [apply _|]. intros t [] t' [Hu Hc]%insert_user_consistent [Ht Ha]; [|done]. split; [auto|].
  unfold admins in *. rewrite Hu, filter_app. unfold zlen in *. rewrite length_app. lia.
Qed.

(** [Uuid::now_v7] gives 128-bit values. *)
Context (fresh_uuid : ∀ n, uuid_ok (uuid_v7 o n)).

Lemma respects_fresh R {X A} (k : Z → M X A) :
  (∀ i, uuid_ok i → respects R (k i)) → respects R (now_v7 o ≫= k).
Proof. intros Hk w r w' Hw. by eapply (Hk _ (fresh_uuid (tick w))) in Hw. Qed.
#[local] Hint Extern 0 (respects _ (now_v7 _ ≫= _)) => apply respects_fresh; intros : respects.

Lemma create_user_safe u headers req : respects safe (create_user hmac_sha1 cell o u headers req).
Proof.
  unfold create_user, Users.create, repo.
  assert (∀ i n h ro v s e c u, uuid_ok i →
    respects safe (sql o (Users.insert_user (Build_UserRow (uuid_to_string i) n h ro v s e c u))))
    by (intros; apply insert_user_safe; by eexists).
  pose proof (fun u => respects_safe _ (require_admin_cookie_tame _ u)).
  pose proof (fun u h => respects_safe _ (require_sensitive_totp_tame _ u h)).
  pose proof (fun p => respects_safe _ (hash_password_tame _ p)).
  auto 30 with respects.
Qed.

Lemma find_by_id_Ok u w user w' :
  Users.find_by_id o u w = (Ok (Some user), w') →
  db w' = db w ∧ ∃ row, row ∈ users (db w) ∧ ur_id row = uuid_to_string u ∧ Users.sqlite_user_from_row row = Some user.
Proof.
  unfold Users.find_by_id. intros (row & w1 & Hs & Hr)%run_bind_Ok. apply run_select_Ok in Hs as (_ & -> & ->).
  apply (f_equal fst) in Hr as Hu. apply (f_equal snd) in Hr. cbn in Hu, Hr. subst w'. split; [done|].
  destruct (head _) as [row|] eqn:Hh; [|done]. apply head_filter_Some in Hh as [Hn Hin]. exists row.
  split; [done|]. split; [done|]. by injection Hu.
Qed.

Lemma row_admin row user :
  Users.sqlite_user_from_row row = Some user → is_admin_row row → Auth.is_admin (Users.role user) = true.
Proof.
  unfold Users.sqlite_user_from_row, is_admin_row. intros Hu Hr. rewrite Hr in Hu.
  change (Auth.role_from_str (lit "admin")) with (Ok Auth.Admin : result rstr Auth.UserRole) in Hu.
  destruct (uuid_parse _), (parse_from_rfc3339 (ur_created_at row)), (parse_from_rfc3339 (ur_updated_at row)); try done.
  by apply (inj Some) in Hu as <-.
Qed.

(** The target of a request: the row that was read. *)
Definition target (t : Tables) (key : rstr) (user : Users.User) : Prop :=
  ∃ row, row ∈ users t ∧ ur_id row = key ∧ Users.sqlite_user_from_row row = Some user.

Lemma NoDup_fmap_eq {A B} (f : A → B) l x y : NoDup (f <$> l) → x ∈ l → y ∈ l → f x = f y → x = y.
Proof.
  intros Hnd [i Hi]%list_elem_of_lookup [j Hj]%list_elem_of_lookup Hf. enough (i = j) by congruence.
  eapply NoDup_lookup; [exact Hnd| |]; rewrite list_lookup_fmap; [by rewrite Hi|by rewrite Hj, Hf].
Qed.

Lemma target_admin t key user r :
  consistent t → target t key user → r ∈ users t → ur_id r = key → is_admin_row r → Auth.is_admin (Users.role user) = true.
Proof.
  intros Hc (row & Hrow & Hkey & Hu) Hr Hk Ha. apply (row_admin row); [done|].
  enough (r = row) by congruence. eapply (NoDup_fmap_eq ur_id); [apply Hc|done|done|congruence].
Qed.

Lemma check_demotion_Ok u existing next w w' :
  check_demotion o u existing next w = (Ok (), w') →
  db w' = db w ∧ (Auth.is_admin (Users.role existing) = true → Auth.is_admin next = false → 2 <= admins (db w)).
Proof.
  unfold check_demotion. destruct (Auth.is_admin (Users.role existing)), (Auth.is_admin next); cbn [andb negb];
    try by intros [= <-].
  destruct (_ =? _); [done|]. intros (n & w1 & Hn & Hr)%run_bind_Ok.
  apply run_with_err_Ok, run_select_Ok in Hn as (_ & -> & ->). fold (admins (db w)) in Hr.
  destruct (_ <=? 1) eqn:Hle; [done|]. injection Hr as <-. split; [done|]. bool_prop. lia.
Qed.

(** The new role goes to the target alone. *)
Definition only_to (key role : rstr) (k r : rstr) : Prop := k = key ∧ r = role.

Lemma demotion_safe t u key user next :
  target t key user → (Auth.is_admin (Users.role user) = true → Auth.is_admin next = false → 2 <= admins t) →
  tame (only_to key (Auth.role_display next)) t u → safe t u.
Proof.
  intros Ht H2' [Hu Hc] [Hct Ha]. split; [auto|]. unfold admins, zlen in *.
  destruct (Auth.is_admin (Users.role user)) eqn:Hadm; [destruct (Auth.is_admin next) eqn:Hn|].
  - apply count_keep in Hu; [lia|]. intros r role _ _ [_ ->]. by destruct next.
  - specialize (H2' eq_refl eq_refl). apply (count_one _ key) in Hu; [lia|apply Hct|by intros ?? [? _]].
  - apply count_keep in Hu; [lia|]. intros r role Hr Hra [Hk _]. by rewrite (target_admin _ _ _ r Hct Ht Hr Hk Hra) in Hadm.
Qed.

Lemma apply_role_tame u existing next :
  respects (tame (only_to (uuid_to_string u) (Auth.role_display next))) (apply_role o u existing next).
Proof.
  assert (∀ stamp, respects (tame (only_to (uuid_to_string u) (Auth.role_display next)))
                     (Users.update_users o u (Users.set_role (Auth.role_display next) stamp))).
  { intros stamp. apply update_users_tame. intros r Hr. split; [done|]. split; [done|]. by right. }
  unfold apply_role, Users.update_role, found, repo. auto 20 with respects.
Qed.

Lemma apply_password_tame P u password : respects (tame P) (apply_password o u password).
Proof.
  assert (∀ hash stamp, respects (tame P) (Users.update_users o u (Users.set_password hash stamp))).
  { intros. apply update_users_tame. intros r _. red. auto. }
  unfold apply_password, Users.reset_password, found, repo. auto 20 with respects.
Qed.

(** A run that starts in [w]. *)
Definition safe_at {X A} w (m : M X A) : Prop := ∀ r w', m w = (r, w') → safe (db w) (db w').

Lemma safe_at_bind {X A B} w (m : M X A) (k : A → M X B) :
  respects safe m → (∀ a w1, m w = (Ok a, w1) → safe_at w1 (k a)) → safe_at w (m ≫= k).
Proof.
  intros Hm Hk r w' [(a & w1 & H1' & H2')|(e & H1' & _)]%run_bind; [|by eapply Hm].
  etransitivity; [by eapply Hm|by eapply Hk].
Qed.

Lemma respects_at {X A} w (m : M X A) : respects safe m → safe_at w m.
Proof. intros Hm r w'. apply Hm. Qed.

(** The steps the two handlers start with. *)
Definition with_target (u : AuthUser) (headers : HeaderMap) (id : rstr) {A} (k : Z → M (AppError E) A) : M (AppError E) A :=
  require_admin_cookie_session u;;
  require_sensitive_totp hmac_sha1 cell o (Users.id (au_user u)) headers;;
  target_id ← lift (parse_user_id id); k target_id.

Lemma with_target_safe u headers id {A} (k : Z → M (AppError E) A) w :
  (∀ i w1, safe_at w1 (k i)) → safe_at w (with_target u headers id k).
Proof.
  intros Hk. apply safe_at_bind; [apply respects_safe, require_admin_cookie_tame|]. intros [] w1 _.
  apply safe_at_bind; [apply respects_safe, require_sensitive_totp_tame|]. intros [] w2 _.
  apply safe_at_bind; [auto with respects|]. intros i w3 _. apply Hk.
Qed.

(** Reading the target. *)
Lemma read_target_safe i {A} (k : Users.User → M (AppError E) A) w :
  (∀ user w1, target (db w1) (uuid_to_string i) user → safe_at w1 (k user)) →
  safe_at w (existing ← repo (Users.find_by_id o i); existing ← found existing; k existing).
Proof.
  intros Hk. apply safe_at_bind; [apply respects_with_err, respects_safe, find_by_id_tame|]. intros x w1 Hx.
  apply safe_at_bind; [unfold found; auto with respects|]. intros user w2 Hu. unfold found, lift in Hu.
  injection Hu as Hu <-. apply ok_or_Ok in Hu as ->. apply run_with_err_Ok, find_by_id_Ok in Hx as (Hdb & row & Hrow).
  apply Hk. exists row. by rewrite Hdb.
Qed.

Lemma check_demotion_same R u existing next : PreOrder R → respects R (check_demotion o u existing next).
Proof. intros HR. unfold check_demotion, Users.count_admins, repo. auto 20 with respects. Qed.

Lemma safe_at_seq {X A B} w (m : M X A) (k : A → M X B) :
  safe_at w m → (∀ a, respects safe (k a)) → safe_at w (m ≫= k).
Proof.
  intros Hm Hk r w' [(a & w1 & H1' & H2')|(e & H1' & _)]%run_bind; [|by eapply Hm].
  etransitivity; [by eapply Hm|by eapply Hk].
Qed.

Lemma change_role_safe u user i next w :
  target (db w) (uuid_to_string i) user → safe_at w (check_demotion o u user next;; apply_role o i user next).
Proof.
  intros Ht. intros r w' [([] & w1 & Hc & Hr)|(e & Hc & _)]%run_bind; [|by apply (check_demotion_same safe _ _ _ _) in Hc].
  apply check_demotion_Ok in Hc as [Hdb H2']. apply apply_role_tame in Hr. rewrite Hdb in Hr. by eapply demotion_safe.
Qed.

Lemma update_user_safe u headers id req : respects safe (update_user hmac_sha1 cell o u headers id req).
Proof.
  intros w r w' Hrun. enough (safe_at w (update_user hmac_sha1 cell o u headers id req)) as Hs by by eapply Hs.
  apply (with_target_safe u headers id (fun i => _)). intros i w1. apply read_target_safe. intros user w2 Ht.
  apply safe_at_seq.
  - destruct (up_role req) as [role|]; [|apply respects_at; auto with respects].
    apply safe_at_bind; [auto with respects|]. intros next w3 Hn. injection Hn as _ <-. by apply change_role_safe.
  - intros _. apply respects_safe. pose proof (apply_password_tame (fun _ _ => False)). unfold found, repo, steady. auto 20 with respects.
Qed.

Lemma delete_rows_consistent key t : consistent t → consistent (Users.delete_rows key t).
Proof.
  intros [H0' H1' H2' H3' H4'].
  assert (∀ k, k ∈ (ur_id <$> users t) → k ≠ key → k ∈ (ur_id <$> filter (fun r => ur_id r ≠ key) (users t))) as Hk.
  { intros k (r & -> & Hr)%list_elem_of_fmap Hne. apply list_elem_of_fmap_2, list_elem_of_filter. done. }
  split; cbn [Users.delete_rows users sessions pats].
  - intros k (r & -> & [_ Hr]%list_elem_of_filter)%list_elem_of_fmap. by apply H0', list_elem_of_fmap_2.
  - eapply sublist_NoDup; [|apply fmap_sublist, sublist_filter]. done.
  - eapply sublist_NoDup; [|apply fmap_sublist, sublist_filter]. done.
  - intros s. case_bool_decide as Hin; [intros [Hne Hs]%list_elem_of_filter; auto|]. intros Hs%H3'. apply Hk; congruence.
  - intros s. case_bool_decide as Hin; [intros [Hne Hs]%list_elem_of_filter; auto|]. intros Hs%H4'. apply Hk; congruence.
Qed.

Lemma rerole_back P l l' r' : Forall2 (rerole P) l l' → r' ∈ l' → ∃ r, r ∈ l ∧ rerole P r r'.
Proof. intros Hl Hr. apply list_elem_of_lookup in Hr as [n Hn]. destruct (Forall2_lookup_r _ _ _ _ _ Hl Hn) as (r & Hr & ?). exists r. split; [by eapply list_elem_of_lookup_2|done]. Qed.

Lemma delete_safe t u key user :
  target t key user → (Auth.is_admin (Users.role user) = true → 2 <= admins t) →
  steady t u → safe t (Users.delete_rows key u).
Proof.
  intros Ht H2' [Hu Hc] [Hct Ha]. assert (consistent u) as Hcu by auto. split; [by apply delete_rows_consistent|].
  unfold admins, zlen in *. cbn [Users.delete_rows users]. pose proof Hu as Hk. apply count_keep in Hk; [|done].
  destruct (Auth.is_admin (Users.role user)) eqn:Hadm.
  - specialize (H2' eq_refl). pose proof (count_delete key (users u) (ids_unique _ Hcu)). lia.
  - pose proof (count_delete_keep key (users u)) as Hd. enough (∀ r, r ∈ users u → ur_id r = key → ¬ is_admin_row r) as Hno by (specialize (Hd Hno); lia).
    intros r' Hr' Hid Hra. destruct (rerole_back _ _ _ _ Hu Hr') as (r & Hr & Hi & _ & [Hro|[]]).
    unfold is_admin_row in Hra. rewrite (target_admin t key user r) in Hadm; unfold is_admin_row; congruence || done.
Qed.

Lemma delete_run i w r w' :
  (deleted ← repo (Users.delete o i);
   if negb deleted then fail (NotFound (lit "user not found")) else mret () : M (AppError E) unit) w = (r, w') →
  db w' = db w ∨ db w' = Users.delete_rows (uuid_to_string i) (db w).
Proof.
  unfold repo, Users.delete, sql, mbind, M_bind, with_err. destruct (fault o (tick w)); cbn [mret M_ret].
  - intros [= _ <-]. by left.
  - case_match; intros [= _ <-]; by right.
Qed.

Lemma delete_user_safe u headers id : respects safe (delete_user hmac_sha1 cell o u headers id).
Proof.
  intros w r w' Hrun. enough (safe_at w (delete_user hmac_sha1 cell o u headers id)) as Hs by by eapply Hs.
  apply (with_target_safe u headers id (fun i => _)). intros i w1. destruct (_ =? _); [apply respects_at; auto with respects|].
  apply read_target_safe. intros user w2 Ht. clear w r w' Hrun w1. intros r w'.
  intros [(n & w3 & Hn & Hr)|(e & Hn & _)]%run_bind.
  2:{ destruct (Auth.is_admin _); [|done]. eapply respects_safe; [|exact Hn]. unfold repo, Users.count_admins, steady. auto with respects. }
  assert (db w3 = db w2 ∧ (Auth.is_admin (Users.role user) = true → n = admins (db w2))) as [Hdb Hadm].
  { destruct (Auth.is_admin _); [|by injection Hn as _ <-]. apply run_with_err_Ok, run_select_Ok in Hn as (_ & -> & ->). done. }
  destruct (_ && _) eqn:Hlast; [injection Hr as _ <-; by rewrite Hdb|].
  rewrite <- Hdb in Ht, Hadm |- *. clear Hdb Hn.
  apply run_bind in Hr as [([] & w4 & Hrev & Hr)|(e & Hrev & _)]; apply revoke_user_credentials_tame with (P := fun _ _ => False) in Hrev.
  2:{ by apply steady_safe. }
  apply delete_run in Hr as [Hr|Hr]; rewrite Hr; [by apply steady_safe|].
  eapply delete_safe; [exact Ht| |exact Hrev]. intros Hadm'. rewrite Hadm', Hadm in Hlast by done. cbn [andb] in Hlast. bool_prop. lia.
Qed.

(** ** Any sequence of requests *)

Section requests.
Context (ttl : Z) (cookie_secure : bool) (header_ok : rstr → bool).

(** One request, whatever its outcome. *)
Inductive account_step : World → World → Prop :=
| step_login req ip ua w r w' : login hmac_sha1 cell o ttl cookie_secure header_ok req ip ua w = (r, w') → account_step w w'
| step_logout u w r w' : logout o cookie_secure header_ok u w = (r, w') → account_step w w'
| step_auth_failure ip who outcome reason ban_reason w r w' :
    register_failure o ip who outcome reason ban_reason w = (r, w') → account_step w w'
| step_create_user u headers req w r w' : create_user hmac_sha1 cell o u headers req w = (r, w') → account_step w w'
| step_update_user u headers id req w r w' : update_user hmac_sha1 cell o u headers id req w = (r, w') → account_step w w'
| step_delete_user u headers id w r w' : delete_user hmac_sha1 cell o u headers id w = (r, w') → account_step w w'
| step_delete_session u headers id w r w' : delete_session hmac_sha1 cell o u headers id w = (r, w') → account_step w w'
| step_setup_totp u code w r w' : setup_totp hmac_sha1 cell o u code w = (r, w') → account_step w w'
| step_enable_totp u code w r w' : enable_totp hmac_sha1 cell o u code w = (r, w') → account_step w w'
| step_disable_totp u code w r w' : disable_totp hmac_sha1 cell o u code w = (r, w') → account_step w w'
| step_create_bans u headers req w r w' : create_waf_bans hmac_sha1 cell o u headers req w = (r, w') → account_step w w'
| step_delete_ban u headers id w r w' : delete_waf_ban hmac_sha1 cell o u headers id w = (r, w') → account_step w w'.

Lemma account_step_safe w w' : account_step w w' → safe (db w) (db w').
Proof.
  intros [req ip ua v r v' Hv|u v r v' Hv|ip who outcome reason ban v r v' Hv|u hd req v r v' Hv|u hd id req v r v' Hv|u hd id v r v' Hv
         |u hd id v r v' Hv|u code v r v' Hv|u code v r v' Hv|u code v r v' Hv|u hd req v r v' Hv|u hd id v r v' Hv].
  - eapply respects_safe, Hv. apply login_tame.
  - eapply respects_safe, Hv. apply logout_tame.
  - eapply respects_safe, Hv. apply register_failure_tame.
  - by eapply create_user_safe.
  - by eapply update_user_safe.
  - by eapply delete_user_safe.
  - eapply respects_safe, Hv. apply delete_session_tame.
  - eapply respects_safe, Hv. apply setup_totp_tame.
  - eapply respects_safe, Hv. apply enable_totp_tame.
  - eapply respects_safe, Hv. apply disable_totp_tame.
  - eapply respects_safe, Hv. apply create_waf_bans_tame.
  - eapply respects_safe, Hv. apply delete_waf_ban_tame.
Qed.

(** C31: an administrator remains: from tables with unique ids and user names,
    sessions and tokens of existing users and at least one administrator, any
    sequence of account requests (logins, logouts, creation, change and deletion
    of users by any callers, second-factor changes, bans; each succeeding, refused
    or failing in the database at any statement) reaches only such tables. *)
Theorem admin_remains w w' : rtc account_step w w' → governed (db w) → governed (db w').
Proof.
  induction 1 as [w|w1 w2 w3 H1' _ IH]; [done|]. intros Hg. apply IH. by eapply account_step_safe.
Qed.
End requests.

(** ** Revocation *)

(** No session of the user is left, and every token of the user is revoked. *)
Definition revoked (key : rstr) (t : Tables) : Prop :=
  (∀ s, s ∈ sessions t → sr_user_id s ≠ key) ∧ (∀ p, p ∈ pats t → pr_user_id p = key → pr_revoked_at p ≠ None).
Definition stays_revoked (key : rstr) (t u : Tables) : Prop := revoked key t → revoked key u.
#[global] Instance stays_revoked_preorder key : PreOrder (stays_revoked key).
Proof. unfold stays_revoked. split; red; auto. Qed.

Lemma revoke_user_credentials_Ok i w w' :
  revoke_user_credentials o i w = (Ok (), w') → revoked (uuid_to_string i) (db w').
Proof.
  unfold revoke_user_credentials. intros (n & w1 & Hs & Hr)%run_bind_Ok. apply run_bind_Ok in Hr as (n2 & w2 & Hp & Hr).
  apply (f_equal snd) in Hr. cbn in Hr. subst w2. apply run_with_err_Ok in Hs, Hp.
  unfold Sessions.delete_for_user, Sessions.delete_where, sql in Hs. destruct (fault o _); [done|]. injection Hs as _ <-.
  unfold Users.revoke_all_for_user in Hp. apply run_bind_Ok in Hp as (now & w3 & Hn & Hp). injection Hn as <- <-.
  unfold Users.update_pats, sql in Hp. destruct (fault o _); [done|]. injection Hp as _ <-.
  split; cbn [db bump sessions pats set_sessions set_pats tick].
  - intros s [Hs _]%list_elem_of_filter Hk. by rewrite bool_decide_eq_true_2 in Hs.
  - intros p (q & -> & _)%list_elem_of_fmap. destruct (bool_decide (pr_user_id q = _)) eqn:Hq; cbn [andb].
    + clear Hq. intros _. by case_bool_decide.
    + intros Hk. by rewrite Hk, bool_decide_eq_true_2 in Hq.
Qed.

Lemma update_users_revoked key i f : respects (stays_revoked key) (Users.update_users o i f).
Proof. apply respects_execute; [apply _|]. intros t Hr. exact Hr. Qed.

Lemma revoke_stays key i : respects (stays_revoked key) (revoke_user_credentials o i).
Proof.
  assert (respects (stays_revoked key) (Sessions.delete_for_user o i)).
  { apply respects_sql; [apply _|]. intros t n t' [= _ <-] [Hs Hp]. split; [|done]. intros s [_ ?]%list_elem_of_filter. auto. }
  assert (∀ which stamp, respects (stays_revoked key) (Users.update_pats o which (Users.set_revoked stamp))).
  { intros which stamp. apply respects_sql; [apply _|]. intros t n t' [= _ <-] [Hs Hp]. split; [done|].
    intros p (q & -> & Hq)%list_elem_of_fmap. destruct (which q && _); [done|]. by apply Hp. }
  unfold revoke_user_credentials, Users.revoke_all_for_user, repo. auto 20 with respects.
Qed.

#[local] Hint Resolve update_users_revoked revoke_stays : respects.

Lemma apply_password_Ok i password w w' :
  apply_password o i password w = (Ok (), w') → revoked (uuid_to_string i) (db w').
Proof.
  unfold apply_password. intros (p & w1 & _ & Hr)%run_bind_Ok. apply run_bind_Ok in Hr as (x & w2 & _ & Hr).
  apply run_bind_Ok in Hr as (y & w3 & _ & Hr). by eapply revoke_user_credentials_Ok.
Qed.

Lemma apply_password_stays key i password : respects (stays_revoked key) (apply_password o i password).
Proof. unfold apply_password, Users.reset_password, Users.hash_password, Users.find_by_id, found, repo. auto 20 with respects. Qed.

Lemma apply_role_Ok i user next w w' :
  apply_role o i user next w = (Ok (), w') → Users.role user ≠ next → revoked (uuid_to_string i) (db w').
Proof.
  unfold apply_role. intros (x & w1 & _ & Hr)%run_bind_Ok Hne. apply run_bind_Ok in Hr as (y & w2 & _ & Hr).
  rewrite bool_decide_eq_false_2 in Hr by done. by eapply revoke_user_credentials_Ok.
Qed.

Lemma require_sensitive_totp_events u headers : respects only_events (require_sensitive_totp hmac_sha1 cell o u headers).
Proof.
  assert (∀ u, respects only_events (Users.totp_config (E := E) cell o u)).
  { intros v. eapply respects_weaken, totp_config_same. by intros t ? <-. }
  pose proof (verify_events hmac_sha1 o). unfold require_sensitive_totp, repo. auto 20 with respects.
Qed.

Lemma parse_user_id_Ok id i : parse_user_id (E := E) id = Ok i → id = uuid_to_string i ∧ uuid_ok i.
Proof.
  unfold parse_user_id, normalize_auth_resource_uuid. destruct (negb (byte_len id =? AUTH_UUID_TEXT_LEN)); [done|].
  destruct (uuid_parse id) as [j|] eqn:Hj; [|done]. cbn [ok_or mbind result_bind]. case_bool_decide as Hc; [|done].
  cbn [negb mbind result_bind]. rewrite Hc, Hj. intros [= <-]. by apply uuid_parse_ok in Hj.
Qed.

(** A request that asks for credentials to be revoked: a new password, or a role
    that differs from the stored one. *)
Definition revokes (t : Tables) (id : rstr) (req : UpdateUserRequest) : Prop :=
  is_Some (up_password req)
  ∨ ∃ role next row, up_role req = Some role ∧ normalize_role (E := E) role = Ok next ∧ row ∈ users t ∧ ur_id row = id
      ∧ ur_role row ≠ Auth.role_display next.

Lemma target_role t key user row :
  consistent t → target t key user → row ∈ users t → ur_id row = key → ur_role row = Auth.role_display (Users.role user).
Proof.
  intros Hc (r & Hr & Hk & Hu) Hrow Hk'. assert (row = r) as -> by (eapply (NoDup_fmap_eq ur_id); [apply Hc|done|done|congruence]).
  unfold Users.sqlite_user_from_row in Hu. destruct (uuid_parse _); [|done].
  destruct (Auth.role_from_str (ur_role r)) as [role|] eqn:Hrole; [|done].
  destruct (parse_from_rfc3339 (ur_created_at r)), (parse_from_rfc3339 (ur_updated_at r)); try done.
  apply (inj Some) in Hu as <-. cbn [Users.role]. unfold Auth.role_from_str in Hrole.
  repeat case_bool_decide; by simplify_eq.
Qed.

Lemma require_admin_cookie_same u : respects eq (require_admin_cookie_session (E := E) u).
Proof. unfold require_admin_cookie_session, require_cookie_session, require_admin. auto 20 with respects. Qed.

Lemma parsed_id row i user :
  Users.sqlite_user_from_row row = Some user → ur_id row = uuid_to_string i → uuid_ok i → Users.id user = i.
Proof.
  intros Hu Hi Hok. unfold Users.sqlite_user_from_row in Hu. rewrite Hi, uuid_roundtrip in Hu by done.
  cbn [mbind option_bind] in Hu. destruct (Auth.role_from_str _); [|done].
  destruct (parse_from_rfc3339 (ur_created_at row)), (parse_from_rfc3339 (ur_updated_at row)); try done.
  by apply (inj Some) in Hu as <-.
Qed.

(** The two changes, after the target was read. *)
Lemma changes_revoke u existing i req w1 w2 w3 :
  consistent (db w1) → target (db w1) (uuid_to_string i) existing → revokes (db w1) (uuid_to_string i) req →
  match up_role req with
  | Some role => next ← lift (normalize_role role); check_demotion o u existing next;; apply_role o i existing next
  | None => mret ()
  end w1 = (Ok (), w2) →
  match up_password req with Some password => apply_password o i password | None => mret () end w2 = (Ok (), w3) →
  revoked (uuid_to_string i) (db w3).
Proof.
  intros Hc Ht [[password Hp]|(role & next & row & Hrole & Hn & Hrow & Hid & Hne)] Hr Hw.
  - rewrite Hp in Hw. by eapply apply_password_Ok.
  - rewrite Hrole in Hr. apply run_bind_Ok in Hr as (n & w4 & Hl & Hr). unfold lift in Hl. rewrite Hn in Hl. injection Hl as <- <-.
    apply run_bind_Ok in Hr as ([] & w5 & _ & Hr). apply apply_role_Ok in Hr.
    + destruct (up_password req); [|by injection Hw as <-]. eapply apply_password_stays; [exact Hw|done].
    + intros <-. by rewrite (target_role _ _ _ _ Hc Ht Hrow Hid) in Hne.
Qed.

Lemma update_user_Ok u headers id req w user w' :
  consistent (db w) → update_user hmac_sha1 cell o u headers id req w = (Ok user, w') → revokes (db w) id req →
  id = uuid_to_string (Users.id user) ∧ revoked id (db w').
Proof.
  intros Hc Hrun Hrev. unfold update_user in Hrun.
  apply run_bind_Ok in Hrun as ([] & w1 & Ha & Hrun). apply require_admin_cookie_same in Ha.
  apply run_bind_Ok in Hrun as ([] & w2 & Ht & Hrun). apply require_sensitive_totp_events in Ht.
  apply run_bind_Ok in Hrun as (i & w3 & Hi & Hrun). injection Hi as Hi <-.
  apply parse_user_id_Ok in Hi as [-> Hok].
  apply run_bind_Ok in Hrun as (x & w3 & Hx & Hrun). apply run_bind_Ok in Hrun as (existing & w4 & He & Hrun).
  unfold found, lift in He. injection He as He <-. apply ok_or_Ok in He as ->.
  apply run_with_err_Ok, find_by_id_Ok in Hx as (Hdb3 & row & Hrow & Hid & Hdec).
  apply run_bind_Ok in Hrun as ([] & w5 & Hrole & Hrun). apply run_bind_Ok in Hrun as ([] & w6 & Hpass & Hrun).
  apply run_bind_Ok in Hrun as (y & w7 & Hy & Hrun). unfold found, lift in Hrun. injection Hrun as Hrun <-. apply ok_or_Ok in Hrun as ->.
  apply run_with_err_Ok, find_by_id_Ok in Hy as (Hdb7 & row7 & _ & Hid7 & Hdec7).
  rewrite (parsed_id _ _ _ Hdec7 Hid7 Hok). split; [done|]. rewrite Hdb7.
  eapply changes_revoke; [| | |exact Hrole|exact Hpass]; rewrite Hdb3.
  - eapply (only_events_tame (fun _ _ => False)); [|exact Hc]. by rewrite Ha.
  - by exists row.
  - destruct Hrev as [?|Hrev]; [by left|right]. destruct Ht as (Hu & _). rewrite Hu, <- Ha. exact Hrev.
Qed.

(** The database of [session_middleware], read from the tables. *)
Section view.
Context (json_strings : rstr → option (list rstr)) (allow : Z → bool → option (list rstr) → result (AppError E) unit).

Definition answer {X A B} (f : A → B) (m : M X (option A)) w : result X (option B) :=
  match (m w).1 with Ok x => Ok (f <$> x) | Err e => Err e end.

Definition auth_view w : Auth.AuthDb (AppError E) := {|
  Auth.active_waf_ban ip := answer (fun _ => ()) (active_waf_ban o ip) w;
  Auth.find_pat_by_token_hash h :=
    answer (fun p => {| Auth.p_id := Users.p_id p; Auth.p_user_id := Users.p_user_id p; Auth.p_scopes := Users.p_scopes p;
                        Auth.p_server_ids := Users.p_server_ids p; Auth.p_expires_at := Users.p_expires_at p |})
      (repo (Users.find_pat_by_token_hash json_strings o h)) w;
  Auth.find_user_by_id i :=
    answer (fun u => {| Auth.u_id := Users.id u; Auth.u_username := Users.username u; Auth.u_role := Users.role u |})
      (repo (Users.find_by_id o i)) w;
  Auth.validate_server_allowlist_ownership := allow;
  Auth.find_session_by_token_hash h :=
    answer (fun s => {| Auth.s_id := Sessions.id s; Auth.s_user_id := Sessions.user_id s |})
      (repo (Sessions.find_by_token_hash o h)) w;
|}.

Lemma answer_Some {X A B} (f : A → B) (m : M X (option A)) w b :
  answer f m w = Ok (Some b) → ∃ a w', m w = (Ok (Some a), w') ∧ b = f a.
Proof.
  unfold answer. destruct (m w) as [[[a|]|e] w'] eqn:Hm; cbn; try done. intros [= <-]. eauto.
Qed.

(** Where a live session or token comes from. *)
Lemma session_row h s w w' :
  Sessions.find_by_token_hash o h w = (Ok (Some s), w') →
  ∃ r, r ∈ sessions (db w) ∧ uuid_parse (sr_user_id r) = Some (Sessions.user_id s).
Proof.
  unfold Sessions.find_by_token_hash. destruct (Sessions.validate_token_hash h); [|done].
  intros (now & w1 & Hn & Hr)%run_bind_Ok. injection Hn as <- <-. apply run_bind_Ok in Hr as (x & w2 & Hx & Hr).
  apply run_select_Ok in Hx as (_ & -> & ->). apply (f_equal fst) in Hr. cbn in Hr. injection Hr as Hr.
  destruct (head _) as [r|] eqn:Hh; [|done]. apply head_filter_Some in Hh as [_ Hin]. exists r. split; [done|].
  unfold Sessions.live_session, Sessions.row_to_session_sqlite in Hr. cbn [mbind option_bind] in Hr.
  destruct (uuid_parse (sr_id r)), (uuid_parse (sr_user_id r)); try done. cbn [mbind option_bind] in Hr.
  destruct (Sessions.parse_session_rfc3339 (sr_expires_at r)), (Sessions.parse_session_rfc3339 (sr_created_at r)); try done.
  cbn [mbind option_bind] in Hr. case_match; [|done]. by apply (inj Some) in Hr as <-.
Qed.

Lemma pat_row h p w w' :
  Users.find_pat_by_token_hash json_strings o h w = (Ok (Some p), w') →
  ∃ r, r ∈ pats (db w) ∧ pr_revoked_at r = None ∧ uuid_parse (pr_user_id r) = Some (Users.p_user_id p).
Proof.
  unfold Users.find_pat_by_token_hash. intros (x & w2 & Hx & Hr)%run_bind_Ok.
  apply run_select_Ok in Hx as (_ & -> & ->). apply (f_equal fst) in Hr. cbn in Hr. injection Hr as Hr.
  destruct (head _) as [r|] eqn:Hh; [|done]. apply head_filter_Some in Hh as [[_ Hrev] Hin]. exists r. split; [done|]. split; [done|].
  cbn [mbind option_bind] in Hr. unfold Users.row_to_pat_sqlite in Hr. destruct (uuid_parse (pr_user_id r)); [|done].
  revert Hr. generalize (Users.parse_string_array_json json_strings (pr_scopes r) Users.PAT_RUNTIME_SCOPES_JSON_MAX_BYTES).
  intros [scopes|] Hr; [|done]. cbn [mbind option_bind] in Hr. destruct (Users.optional _ (pr_server_ids r)); [|done].
  cbn [mbind option_bind] in Hr. destruct (negb _); [done|].
  destruct (Users.optional _ (pr_expires_at r)), (Users.optional _ (pr_last_used_at r)), (parse_from_rfc3339 (pr_created_at r)),
    (Users.optional _ (pr_revoked_at r)); try done. by apply (inj Some) in Hr as <-.
Qed.

Lemma user_row i user w w' :
  Users.find_by_id o i w = (Ok (Some user), w') → uuid_ok i → Users.id user = i.
Proof. intros (_ & row & _ & Hi & Hd)%find_by_id_Ok Hok. by eapply parsed_id. Qed.

Lemma canonical_owner t k i : consistent t → k ∈ (ur_id <$> users t) → uuid_parse k = Some i → k = uuid_to_string i.
Proof. intros Hc (j & Hj & ->)%(ids_canonical _ Hc) Hi. rewrite uuid_roundtrip in Hi by done. by injection Hi as <-. Qed.

(** C32: revocation is effective: when an administrator's change of a user succeeds
    with a new password or with a role other than the stored one, then from the
    tables it leaves, whatever cookie or token a request carries, the session
    middleware never lets it through as that user: every credential issued before
    is refused. *)
Theorem revoked_credentials_refused u headers id req w user w' n now request events s :
  governed (db w) → update_user hmac_sha1 cell o u headers id req w = (Ok user, w') → revokes (db w) id req →
  Auth.session_middleware (auth_view {| db := db w'; tick := n |}) now request = (events, Auth.Next (Some s)) →
  Auth.user_id s ≠ Users.id user.
Proof.
  intros Hg Hrun Hrev Hm Heq. pose proof (update_user_safe _ _ _ _ _ _ _ Hrun Hg) as [Hc' _].
  destruct (update_user_Ok _ _ _ _ _ _ _ (proj1 Hg) Hrun Hrev) as [-> [Hs Hp]].
  apply AuthProofs.middleware_session in Hm
    as [(_ & token & row & v & _ & _ & Hrow & Hv & ->)|(token & row & v & x & _ & _ & Hrow & _ & _ & Hv & _ & _ & ->)];
    cbn [Auth.user_id] in Heq; apply answer_Some in Hrow as (r & w1 & Hr%run_with_err_Ok & ->), Hv as (y & w2 & Hy%run_with_err_Ok & ->);
    cbn [Auth.s_user_id Auth.p_user_id Auth.u_id] in *.
  - apply session_row in Hr as (q & Hq & Hi). apply user_row in Hy; [|by eapply uuid_parse_ok]. rewrite <- Hy in Hi.
    apply (Hs q Hq). rewrite <- Heq. by eapply canonical_owner; [exact Hc'|apply session_owners; [exact Hc'|]|].
  - apply pat_row in Hr as (q & Hq & Hnone & Hi). apply user_row in Hy; [|by eapply uuid_parse_ok]. rewrite <- Hy in Hi.
    apply (Hp q Hq); [|done]. rewrite <- Heq. by eapply canonical_owner; [exact Hc'|apply pat_owners; [exact Hc'|]|].
Qed.

End view.

End admin.
End AdminProofs.
