(* ===== verification/AccountExamples.v ===== *)
(** * AccountExamples: concrete runs of the account programs

    One set of concrete primitives, an oracle whose clock moves ten seconds per
    request, and small tables on which the theorems of [SessionsProofs],
    [AccountsProofs] and [AdminProofs] are applied. *)

From S2P Require Import Prelude Text BTreeMap Externals Auth AuthProofs Totp Net Secrets SecretsProofs Rfc3339 Tables Sessions SessionsProofs Users Accounts AccountsProofs AdminProofs.

Module AccountExamples.
Import Tables Accounts AccountsProofs.

(** ** Primitives and oracle *)

#[local] Existing Instances SecretsProofs.plain_secrets AuthProofs.crypto0.

#[local] Instance argon2_plain : Users.Argon2.
Proof.
  refine {| Users.password_hash_new h := true; Users.argon2_verify h p := bool_decide (h = p); Users.argon2_hash p s := Some p |}.
  intros p s h Hh. apply (inj Some) in Hh as <-. split; [done|]. by apply bool_decide_eq_true_2.
Defined.

Definition hmac0 (key msg : list Z) : list Z := repeat 0 20.

Definition now0 : Z := seconds 1700000000.
Definition oracle0 : Oracle unit :=
  {| clock k := now0 + seconds (10 * Z.of_nat (Nat.min k 400)); uuid_v7 k := 1000 + Z.of_nat (Nat.min k 200);
     random k := repeat (Z.of_nat (Nat.min k 200)) 32; fault _ := None |}.

Lemma clock0 i : now0 <= clock oracle0 i <= now0 + seconds 12000.
Proof. cbn [clock oracle0]. unfold seconds. lia. Qed.
Lemma modern0 i : modern (clock oracle0 i).
Proof. pose proof (clock0 i). revert H. unfold modern, now0, seconds. lia. Qed.
Lemma fresh0 i : uuid_ok (uuid_v7 oracle0 i).
Proof. cbn [uuid_v7 oracle0]. unfold uuid_ok. lia. Qed.
Lemma oracle0_ok : SessionsProofs.oracle_ok oracle0.
Proof. split; [intros i; apply modern_now, modern0|apply fresh0]. Qed.
Lemma clock_from0 k : clock_from oracle0 k now0.
Proof. intros i _. split; [apply modern0|apply clock0]. Qed.

(** ** Tables *)

Definition secret0 : rstr := lit "AAAAAAAAAAAAAAAA".
Definition user_row (i : Z) (name password role : rstr) (totp : option rstr) : UserRow :=
  {| ur_id := uuid_to_string i; ur_username := name; ur_password_hash := password; ur_role := role; ur_token_version := 0;
     ur_totp_secret := totp; ur_totp_enabled := if totp then 1 else 0; ur_created_at := to_rfc3339 now0; ur_updated_at := to_rfc3339 now0 |}.
Definition session_row (i user : Z) (hash : rstr) : SessionRow :=
  {| sr_id := uuid_to_string i; sr_user_id := uuid_to_string user; sr_token_hash := hash; sr_ip := None; sr_user_agent := None;
     sr_expires_at := to_rfc3339 (now0 + seconds 86400); sr_created_at := to_rfc3339 now0 |}.

Definition tables0 : Tables := {|
  users := [user_row 1 (lit "ada") (lit "correct horse") (lit "admin") (Some secret0);
            user_row 2 (lit "bob") (lit "battery staple") (lit "admin") None;
            user_row 3 (lit "eve") (lit "swordfish") (lit "member") None];
  sessions := [session_row 21 2 (lit "aa"); session_row 31 3 (Auth.hash_token (replicate 64 97))];
  pats := []; waf_events := []; waf_bans := [] |}.
Definition world0 : World := {| db := tables0; tick := 0 |}.

Lemma governed0 : AdminProofs.governed tables0.
Proof.
  split; [|by vm_compute]. split.
  - intros k Hk. cbn [tables0 users fmap list_fmap user_row ur_id] in Hk.
    repeat (apply elem_of_cons in Hk as [->|Hk]; [eexists; split; [|reflexivity]; unfold uuid_ok; lia|]). by apply not_elem_of_nil in Hk.
  - apply (bool_decide_unpack _); by vm_compute.
  - apply (bool_decide_unpack _); by vm_compute.
  - apply (Forall_forall (fun s => sr_user_id s ∈ (ur_id <$> users tables0))). apply (bool_decide_unpack _); by vm_compute.
  - intros s Hs. by apply not_elem_of_nil in Hs.
Qed.

(** ** Sessions *)

Definition input0 : Sessions.CreateSessionInput :=
  {| Sessions.in_user_id := 3; Sessions.in_ip := Some (lit "192.0.2.1"); Sessions.in_user_agent := None;
     Sessions.in_expires_at := now0 + seconds 3600 |}.

Lemma create0 : is_ok (Sessions.create oracle0 input0 (lit "bb") world0).1 = true.
Proof. by vm_compute. Qed.

Lemma run_ok {X A} (m : M X A) w : is_ok (m w).1 = true → ∃ a w', m w = (Ok a, w').
Proof. destruct (m w) as [[a|e] w']; [eauto|done]. Qed.

(** 32 sessions of one user: the next creation evicts the oldest. *)
Definition crowd : list SessionRow := (fun n => session_row (100 + Z.of_nat n) 3 (uuid_to_string (Z.of_nat n))) <$> seq 0 32.
Definition crowded : World := {| db := set_sessions crowd tables0; tick := 0 |}.
Definition oldest : SessionRow := session_row 100 3 (uuid_to_string 0).

Lemma create_crowded : is_ok (Sessions.create oracle0 input0 (lit "bb") crowded).1 = true.
Proof. by vm_compute. Qed.

Lemma eviction_example :
  ∃ s w', Sessions.create oracle0 input0 (lit "bb") crowded = (Ok s, w') ∧ oldest ∉ sessions (db w')
    ∧ ∃ kept, NoDup (sr_id <$> kept) ∧ zlen kept = 31 ∧ ∀ k, k ∈ kept → k ∈ sessions (db w').
Proof.
  destruct (run_ok _ _ create_crowded) as (s & w' & Hc).
  exists s, w'. split; [done|].
  assert (oldest ∉ sessions (db w')) as Hgone.
  { apply (f_equal snd) in Hc. cbn [snd] in Hc. rewrite <- Hc. intros Ho%(list_elem_of_fmap_2 sr_id). revert Ho.
    apply (bool_decide_unpack _). by vm_compute. }
  split; [done|].
  destruct (SessionsProofs.session_eviction_fair oracle0 input0 (lit "bb") crowded s w' oldest Hc) as [Hin|[He|(_ & kept & Hnd & Hl & Hk)]].
  - apply (bool_decide_unpack _). by vm_compute.
  - apply (list_elem_of_lookup_2 _ 0). by vm_compute.
  - destruct (Hgone Hin).
  - by vm_compute in He.
  - exists kept. split; [exact Hnd|]. split; [exact Hl|]. intros k Hin. exact (proj1 (Hk k Hin)).
Qed.

Definition empty0 : World := {| db := set_sessions [] tables0; tick := 0 |}.

Lemma create_empty : is_ok (Sessions.create oracle0 input0 (lit "bb") empty0).1 = true.
Proof. by vm_compute. Qed.

(** ** One-time codes *)

Definition code0 : rstr := lit "000000".
Definition check0 (now : Z) : M (TotpVerificationError unit) unit := verify_and_consume_user_totp hmac0 oracle0 1 secret0 code0 now.
Definition world1 : World := (check0 now0 world0).2.
Definition later0 : Z := now0 + seconds 120.
Definition world2 : World := (check0 later0 {| db := db world1; tick := 12 |}).2.

Lemma history0 :
  ∃ uses, totp_history (E := unit) hmac0 (waf_events (db world2)) uses
    ∧ uses !! 0%nat = Some {| by_user := 1; under := secret0; at_step := 56666667 |}
    ∧ uses !! 1%nat = Some {| by_user := 1; under := secret0; at_step := 56666671 |}.
Proof.
  eexists. split.
  - eapply (history_check _ _ 1 secret0 code0 later0 _ {| db := db world1; tick := 12 |} _ world2);
      [eapply (history_check _ _ 1 secret0 code0 now0 [] world0 _ world1)| | |].
    + constructor.
    + apply (modern0 0).
    + apply clock_from0.
    + apply surjective_pairing.
    + unfold modern, later0, now0, seconds. lia.
    + intros i Hi. split; [apply modern0|]. cbn [tick] in Hi. cbn [clock oracle0]. unfold later0, seconds. lia.
    + apply surjective_pairing.
  - by vm_compute.
Qed.

Lemma totp_code_once_witness :
  ∃ evs uses x y, totp_history (E := unit) hmac0 evs uses ∧ uses !! 0%nat = Some x ∧ uses !! 1%nat = Some y ∧ at_step x < at_step y.
Proof.
  destruct history0 as (uses & Hh & Hx & Hy). do 4 eexists. split; [exact Hh|]. split; [exact Hx|]. split; [exact Hy|].
  exact (totp_code_once hmac0 _ uses 0 1 _ _ Hh (Nat.lt_0_1) Hx Hy eq_refl eq_refl).
Defined.

Lemma totp_guesses_bounded_witness :
  modern now0 ∧ zlen (failures_within 1 now0 (waf_events (db world2))) <= 5.
Proof.
  split; [apply (modern0 0)|]. destruct history0 as (uses & Hh & _).
  apply (totp_guesses_bounded (E := unit) hmac0 _ uses 1 now0 Hh (modern0 0)).
Defined.

(** ** Login *)

Definition ok_header (s : rstr) : bool := true.
Definition login0 (req : LoginRequest) : M (AppError unit) LoginResponse :=
  login hmac0 None oracle0 24 true ok_header req (lit "192.0.2.7") None.
Definition ada0 : LoginRequest := {| lr_username := lit "ada"; lr_password := lit "correct horse"; lr_totp_code := Some code0 |}.
Definition wrong0 : LoginRequest := {| lr_username := lit "ada"; lr_password := lit "wrong"; lr_totp_code := Some code0 |}.

Lemma login_ada : match (login0 ada0 world0).1 with Ok (LoggedIn _) => true | _ => false end = true.
Proof. by vm_compute. Qed.

Lemma login_sound_witness :
  ∃ d w', login0 ada0 world0 = (Ok (LoggedIn d), w')
    ∧ second_factor hmac0 None oracle0 (Users.id (logged_in d)) (Some code0) tables0
    ∧ Users.verify_password (logged_in d) (lit "correct horse") = Ok true.
Proof.
  pose proof login_ada as Hok. destruct (login0 ada0 world0) as [[[|d]|e] w'] eqn:Hrun; [done| |done]. exists d, w'. split; [reflexivity|].
  destruct (login_sound hmac0 None oracle0 24 true ok_header ada0 (lit "192.0.2.7") None world0 d w' Hrun)
    as (name & password & code & row & user & _ & Hp & Hc & _ & _ & _ & _ & Hv & Hs & -> & _).
  assert (password = lit "correct horse") as -> by (vm_compute in Hp; by injection Hp).
  assert (code = Some code0) as -> by (vm_compute in Hc; by injection Hc). split; [exact Hs|exact Hv].
Defined.

(** Four failures recorded, and a fifth one. *)
Definition fail0 : M (AppError unit) unit := register_login_failure oracle0 (lit "192.0.2.7") (lit "ada") (lit "invalid password").
Definition four0 : World := (((fail0;; fail0);; (fail0;; fail0)) world0).2.

Lemma fifth_ok : is_ok (fail0 four0).1 = true.
Proof. by vm_compute. Qed.

Lemma fifth_recent :
  5 <= recent_auth_failures (lit "192.0.2.7") (clock oracle0 (3 + tick four0) - minutes 15) (waf_events (db (fail0 four0).2)).
Proof. by vm_compute. Qed.

(** ** Administration *)

Definition admin_user (i : Z) (name : rstr) : AuthUser :=
  {| au_user := {| Users.id := i; Users.username := name; Users.password_hash := []; Users.role := Auth.Admin; Users.token_version := 0;
                   Users.created_at := now0; Users.updated_at := now0 |};
     au_session_id := uuid_to_string 21; au_kind := Auth.Session |}.
Definition bob0 : AuthUser := admin_user 2 (lit "bob").
Definition no_headers (name : rstr) : option (list Z) := None.
Definition reset0 : UpdateUserRequest := {| up_role := None; up_password := Some (lit "new password") |}.
Definition update0 (id : rstr) (req : UpdateUserRequest) : M (AppError unit) Users.User :=
  update_user hmac0 None oracle0 bob0 no_headers id req.

Lemma reset_ok : is_ok (update0 (uuid_to_string 3) reset0 world0).1 = true.
Proof. by vm_compute. Qed.

Lemma admin_remains_witness :
  ∃ user w', update0 (uuid_to_string 3) reset0 world0 = (Ok user, w') ∧ AdminProofs.governed (db w').
Proof.
  destruct (run_ok _ _ reset_ok) as (user & w' & Hrun). exists user, w'. split; [exact Hrun|]. unfold update0 in Hrun.
  apply (AdminProofs.admin_remains hmac0 None oracle0 fresh0 24 true ok_header world0 w'); [|exact governed0].
  eapply rtc_once, AdminProofs.step_update_user, Hrun.
Defined.

(** The cookie of a user whose password is then reset. *)
Definition json0 (s : rstr) : option (list rstr) := None.
Definition allow0 (u : Z) (admin : bool) (ids : option (list rstr)) : result (AppError unit) unit := Ok ().
Definition view0 (w : World) : Auth.AuthDb (AppError unit) := AdminProofs.auth_view oracle0 json0 allow0 w.
Definition request0 : Auth.Request := {|
  Auth.method := lit "GET"; Auth.authorization := []; Auth.csrf_header_values := [];
  Auth.session_cookie := Some (replicate 64 97); Auth.client_ip := lit "192.0.2.1" |}.
Definition passes_as (out : list Auth.AuthEvent * Auth.Outcome) : option Z :=
  match out.2 with Auth.Next (Some s) => Some (Auth.user_id s) | _ => None end.

Example cookie_works_before : passes_as (Auth.session_middleware (view0 world0) now0 request0) = Some 3.
Proof. by vm_compute. Qed.

Lemma revoked_credentials_refused_witness :
  ∃ user w', update0 (uuid_to_string 3) reset0 world0 = (Ok user, w')
    ∧ ∀ events s, Auth.session_middleware (view0 {| db := db w'; tick := 5 |}) now0 request0 = (events, Auth.Next (Some s)) →
                  Auth.user_id s ≠ Users.id user.
Proof.
  destruct (run_ok _ _ reset_ok) as (user & w' & Hrun). exists user, w'. split; [exact Hrun|]. unfold update0 in Hrun. intros events s Hm.
  refine (AdminProofs.revoked_credentials_refused hmac0 None oracle0 json0 allow0 bob0 no_headers (uuid_to_string 3) reset0 world0 user w' 5
            now0 request0 events s governed0 Hrun _ Hm). left. by eexists.
Defined.

(** Two administrators who demote each other at the same time: both guards read
    two administrators, then both changes are made. *)
Definition demote (u : AuthUser) (target : Z) : M (AppError unit) unit :=
  existing ← repo (Users.find_by_id oracle0 target);
  existing ← found existing;
  check_demotion oracle0 u existing Auth.Member.
Definition demote_write (target : Z) (existing : Users.User) : M (AppError unit) unit :=
  apply_role oracle0 target existing Auth.Member.

Example concurrent_demotions :
  let ada := admin_user 1 (lit "ada") in
  let guards := demote ada 2;; demote bob0 1 in
  let writes := demote_write 2 (au_user bob0);; demote_write 1 (au_user ada) in
  is_ok ((guards;; writes) world0).1 = true ∧ AdminProofs.admins (db ((guards;; writes) world0).2) = 0.
Proof. split; by vm_compute. Qed.

End AccountExamples.
