(* ===== verification/Transfers.v ===== *)
(** * Transfers: one-time URLs for file transfers

    [crates/server/src/db/repository/temporary_transfer.rs] (on SQLite),
    [crates/server/src/api/v1/transfers.rs], and the issue of a URL in
    [server_ops.rs]. A temporary URL lets whoever holds it read or write one file
    of one Agent once. The handlers run concurrently, so they are programs of
    [Interleave]: every SQL statement, lock section and exchange with the Agent
    is one atomic step. *)

From S2P Require Import Prelude Text BTreeMap Externals Auth Totp Net IoStreams Base64 Interleave Rfc3339 Tables Sessions Users Accounts.

Module Transfers.
Import Interleave.

Definition TEMP_TRANSFER_MAX_BYTES : Z := 100 * 1024 * 1024.
Definition TEMP_TRANSFER_MAX_QUERY_BYTES : Z := 512.
Definition TEMP_TRANSFER_UUID_TEXT_LEN : Z := 36.
Definition TEMP_TRANSFER_MAX_PATH_BYTES : Z := 4096.
Definition TEMP_TRANSFER_MAX_FILENAME_BYTES : Z := 255.
Definition TEMP_TRANSFER_RATE_LIMIT : Z := 10.
Definition TEMP_TRANSFER_RATE_WINDOW_SECS : Z := 60.
Definition TEMP_TRANSFER_RATE_CLEANUP_INTERVAL : Z := 64.
Definition MAX_TEMP_TRANSFER_RATE_ENTRIES : Z := 4096.
Definition TEMP_TRANSFER_SMALL_RESULT_MAX_BYTES : Z := 4096.
Definition TEMP_URL_MAX_EXPIRES_SECS : Z := 600.
Definition MAX_ERROR_CHARS : nat := 2000.

(** ** Data *)

(** A row of [temporary_transfer_tokens]. *)
Record TokenRow := {
  tr_id : rstr; tr_token_hash : rstr; tr_server_id : rstr; tr_path : rstr; tr_op : rstr; tr_issued_by_user_id : rstr;
  tr_auth_kind : rstr; tr_session_id : option rstr; tr_api_token_id : option rstr; tr_scope : rstr; tr_expires_at : rstr;
  tr_used_at : option rstr; tr_used_ip : option rstr; tr_used_status : option rstr; tr_used_error : option rstr;
  tr_agent_task_id : option rstr; tr_revoked_at : option rstr; tr_created_at : rstr; tr_created_ip : option rstr;
}.
Record TemporaryTransferToken := {
  id : rstr; token_hash : rstr; server_id : Z; path : rstr; op : rstr; issued_by_user_id : Z; auth_kind : rstr;
  session_id : option rstr; api_token_id : option rstr; scope : rstr; expires_at : Z; used_at : option Z; used_ip : option rstr;
  used_status : option rstr; used_error : option rstr; agent_task_id : option rstr; revoked_at : option Z; created_at : Z;
  created_ip : option rstr;
}.
Record CreateTemporaryTransferTokenInput := {
  c_token_hash : rstr; c_server_id : Z; c_path : rstr; c_op : rstr; c_issued_by_user_id : Z; c_auth_kind : rstr;
  c_session_id : option rstr; c_api_token_id : option rstr; c_scope : rstr; c_expires_at : Z; c_created_ip : option rstr;
}.
Record Agent := { a_id : Z; a_owner_user_id : Z; a_revoked_at : option Z }.

Inductive StatusCode : Type :=
| OK | BAD_REQUEST | FORBIDDEN | TOO_MANY_REQUESTS | PAYLOAD_TOO_LARGE | INTERNAL_SERVER_ERROR | BAD_GATEWAY | GATEWAY_TIMEOUT.
Definition Failure : Type := StatusCode * rstr.

(** The file tasks sent to an Agent. *)
Inductive FileTask : Type :=
| FileList (path : rstr)
| FileRead (path : rstr) (offset length : Z)
| FileWrite (path : rstr) (data : list Z) (mode : Z) (create_dirs : bool)
| FileDelete (path : rstr) (recursive : bool).
(** A message to an Agent's session stream. *)
Inductive Message : Type :=
| FileMessage (task : FileTask)
| ConfigUpdate (config : list Z)
| ForceUpdate (version download_url checksum : rstr).
Inductive Reply : Type := Replied (r : IoStreams.TaskResult) | Disconnected | TimedOut.

Record TemporaryTransferRateState := { entries : gmap rstr (Z * Z); checks_since_cleanup : Z }.

(** The shared state: the table, the rate limiter and, as a history, the messages
    sent to Agents, with the token a transfer was made for, the rows ever created
    and the identifiers drawn for them. *)
Record Sent := { token : option rstr; recipient : Z; message : Message }.
Record Shared := {
  rows : list TokenRow; rates : TemporaryTransferRateState; sent : list Sent; created : list TokenRow; drawn : list Z;
}.
Definition set_rows x s := {| rows := x; rates := rates s; sent := sent s; created := created s; drawn := drawn s |}.
Definition set_rates x s := {| rows := rows s; rates := x; sent := sent s; created := created s; drawn := drawn s |}.
Definition add_sent x s := {| rows := rows s; rates := rates s; sent := sent s ++ [x]; created := created s; drawn := drawn s |}.
Definition add_row x s := {| rows := rows s ++ [x]; rates := rates s; sent := sent s; created := created s ++ [x]; drawn := drawn s |}.
Definition add_drawn x s := {| rows := rows s; rates := rates s; sent := sent s; created := created s; drawn := x :: drawn s |}.

(** The environment of a step: the clocks, a failing statement, fresh
    identifiers and random bytes, the reads other handlers' tables answer, and
    what the Agent's session does. *)
Record Env (E : Type) := {
  utc : Z; instant : Z; fault : option E; uuid : Z; random : list Z;
  find_user : Z → result E (option Users.User);
  find_session : rstr → result E (option Sessions.Session);
  find_pat : rstr → result E (option Users.PersonalAccessToken);
  find_agent : Z → result E (option Agent);
  online : bool; send_error : option rstr; reply : Reply;
  sensitive_totp : result (Accounts.AppError E) unit;    (** what [Accounts.require_sensitive_totp] answers *)
}.
Arguments utc {E}. Arguments instant {E}. Arguments fault {E}. Arguments uuid {E}. Arguments random {E}.
Arguments find_user {E}. Arguments find_session {E}. Arguments find_pat {E}. Arguments find_agent {E}.
Arguments online {E}. Arguments send_error {E}. Arguments reply {E}. Arguments sensitive_totp {E}.

(** [serde] and [http]: the token of a query, the body of a request up to a
    limit, whether a text can be a header value. [julianday] is SQLite's
    function, [iter] the order in which a [HashMap] is visited. *)
Class TransferLib : Type := {
  query_token : rstr → option rstr;
  Body : Type;
  to_bytes : Body → Z → result rstr (list Z);
  header_value_ok : rstr → bool;
  header_error : rstr;
  julianday : rstr → Z;
  iter : gmap rstr (Z * Z) → list (rstr * (Z * Z));
  iter_perm m : iter m ≡ₚ map_to_list m;
}.

(** ** The repository *)

Section repository.
Context {E : Type} `{UuidLib, Rfc3339, TransferLib}.
Abbreviation PP := (P (Env E) Shared (Tables.Anyhow E)).

(** A statement: it fails, or it is one atomic change of the table. *)
Definition sql {A} (f : Env E → Shared → result Tables.Why A * Shared) : PP A :=
  atomic (fun e s =>
    match fault e with
    | Some x => (Err (Tables.Sqlx x), s)
    | None => match f e s with (Ok a, s') => (Ok a, s') | (Err w, _) => (Err (Tables.Bail w), s) end
    end).

Definition sqlite_row_to_token (r : TokenRow) : option TemporaryTransferToken :=
  server ← uuid_parse (tr_server_id r);
  issuer ← uuid_parse (tr_issued_by_user_id r);
  expires ← parse_from_rfc3339 (tr_expires_at r);
  used ← Users.optional parse_from_rfc3339 (tr_used_at r);
  revoked ← Users.optional parse_from_rfc3339 (tr_revoked_at r);
  created ← parse_from_rfc3339 (tr_created_at r);
  Some {| id := tr_id r; token_hash := tr_token_hash r; server_id := server; path := tr_path r; op := tr_op r;
          issued_by_user_id := issuer; auth_kind := tr_auth_kind r; session_id := tr_session_id r;
          api_token_id := tr_api_token_id r; scope := tr_scope r; expires_at := expires; used_at := used;
          used_ip := tr_used_ip r; used_status := tr_used_status r; used_error := tr_used_error r;
          agent_task_id := tr_agent_task_id r; revoked_at := revoked; created_at := created; created_ip := tr_created_ip r |}.

(** [INSERT], with the primary key, the unique hash and the two [CHECK]s. *)
Definition insert_row (row : TokenRow) (s : Shared) : result Tables.Why unit * Shared :=
  if bool_decide (tr_id row ∈ (tr_id <$> rows s) ∨ tr_token_hash row ∈ (tr_token_hash <$> rows s))
     || negb (contains (tr_op row) (lit <$> ["download"; "upload"])) || negb (contains (tr_auth_kind row) (lit <$> ["session"; "pat"]))
  then (Err Tables.ConstraintViolated, s)
  else (Ok (), add_row row s).

(** [Uuid::now_v7()] for a row. *)
Definition draw : PP Z := Step (fun e => add_drawn (uuid e)) (fun e _ => Ret (Ok (uuid e))).

Definition create (input : CreateTemporaryTransferTokenInput) : PP TemporaryTransferToken :=
  uuid ← draw;
  now ← observe utc;
  let row := {| tr_id := uuid_to_string uuid; tr_token_hash := c_token_hash input; tr_server_id := uuid_to_string (c_server_id input);
                tr_path := c_path input; tr_op := c_op input; tr_issued_by_user_id := uuid_to_string (c_issued_by_user_id input);
                tr_auth_kind := c_auth_kind input; tr_session_id := c_session_id input; tr_api_token_id := c_api_token_id input;
                tr_scope := c_scope input; tr_expires_at := to_rfc3339 (c_expires_at input); tr_used_at := None; tr_used_ip := None;
                tr_used_status := None; tr_used_error := None; tr_agent_task_id := None; tr_revoked_at := None;
                tr_created_at := to_rfc3339 now; tr_created_ip := c_created_ip input |} in
  sql (fun _ => insert_row row);;
  mret {| id := uuid_to_string uuid; token_hash := c_token_hash input; server_id := c_server_id input; path := c_path input;
          op := c_op input; issued_by_user_id := c_issued_by_user_id input; auth_kind := c_auth_kind input;
          session_id := c_session_id input; api_token_id := c_api_token_id input; scope := c_scope input;
          expires_at := c_expires_at input; used_at := None; used_ip := None; used_status := None; used_error := None;
          agent_task_id := None; revoked_at := None; created_at := now; created_ip := c_created_ip input |}.

(** [row.map(sqlite_row_to_token).transpose()]. *)
Definition decode_row (row : option TokenRow) : result (Tables.Anyhow E) (option TemporaryTransferToken) :=
  match row with
  | None => Ok None
  | Some r => match sqlite_row_to_token r with Some t => Ok (Some t) | None => Err (Tables.Bail Tables.InvalidRow) end
  end.

Definition find_by_token_hash (hash : rstr) : PP (option TemporaryTransferToken) :=
  if is_empty (trim hash) then mret None else
  row ← sql (fun _ s => (Ok (head (filter (fun r => tr_token_hash r = hash) (rows s))), s));
  of_result (decode_row row).

Definition find_by_id (key : rstr) : PP (option TemporaryTransferToken) :=
  row ← sql (fun _ s => (Ok (head (filter (fun r => tr_id r = key) (rows s))), s));
  of_result (decode_row row).

(** [UPDATE ... WHERE], and [rows_affected() == 1]. *)
Definition update (hit : Env E → TokenRow → bool) (f : Env E → TokenRow → TokenRow) : PP bool :=
  sql (fun e s => (Ok (zlen (filter (fun r => hit e r = true) (rows s)) =? 1),
                   set_rows ((fun r => if hit e r then f e r else r) <$> rows s) s)).

Definition with_use used ip status task r : TokenRow :=
  {| tr_id := tr_id r; tr_token_hash := tr_token_hash r; tr_server_id := tr_server_id r; tr_path := tr_path r; tr_op := tr_op r;
     tr_issued_by_user_id := tr_issued_by_user_id r; tr_auth_kind := tr_auth_kind r; tr_session_id := tr_session_id r;
     tr_api_token_id := tr_api_token_id r; tr_scope := tr_scope r; tr_expires_at := tr_expires_at r; tr_used_at := used;
     tr_used_ip := ip; tr_used_status := status; tr_used_error := tr_used_error r; tr_agent_task_id := task;
     tr_revoked_at := tr_revoked_at r; tr_created_at := tr_created_at r; tr_created_ip := tr_created_ip r |}.
Definition with_revoked at_ r : TokenRow :=
  {| tr_id := tr_id r; tr_token_hash := tr_token_hash r; tr_server_id := tr_server_id r; tr_path := tr_path r; tr_op := tr_op r;
     tr_issued_by_user_id := tr_issued_by_user_id r; tr_auth_kind := tr_auth_kind r; tr_session_id := tr_session_id r;
     tr_api_token_id := tr_api_token_id r; tr_scope := tr_scope r; tr_expires_at := tr_expires_at r; tr_used_at := tr_used_at r;
     tr_used_ip := tr_used_ip r; tr_used_status := tr_used_status r; tr_used_error := tr_used_error r;
     tr_agent_task_id := tr_agent_task_id r; tr_revoked_at := Some at_; tr_created_at := tr_created_at r;
     tr_created_ip := tr_created_ip r |}.
Definition with_result status task err r : TokenRow :=
  {| tr_id := tr_id r; tr_token_hash := tr_token_hash r; tr_server_id := tr_server_id r; tr_path := tr_path r; tr_op := tr_op r;
     tr_issued_by_user_id := tr_issued_by_user_id r; tr_auth_kind := tr_auth_kind r; tr_session_id := tr_session_id r;
     tr_api_token_id := tr_api_token_id r; tr_scope := tr_scope r; tr_expires_at := tr_expires_at r; tr_used_at := tr_used_at r;
     tr_used_ip := tr_used_ip r; tr_used_status := Some status; tr_used_error := err;
     tr_agent_task_id := match task with Some t => Some t | None => tr_agent_task_id r end;
     tr_revoked_at := tr_revoked_at r; tr_created_at := tr_created_at r; tr_created_ip := tr_created_ip r |}.

Definition revoke (key : rstr) : PP bool :=
  now ← observe utc;
  update (fun _ r => bool_decide (tr_id r = key ∧ tr_revoked_at r = None)) (fun _ => with_revoked (to_rfc3339 now)).

(** [used_at IS NULL AND revoked_at IS NULL AND julianday(expires_at) > julianday(now)]. *)
Definition usable (now : rstr) (r : TokenRow) : bool :=
  bool_decide (tr_used_at r = None) && bool_decide (tr_revoked_at r = None) && (julianday now <? julianday (tr_expires_at r)).

Definition mark_used_once (key : rstr) (ip : option rstr) : PP bool :=
  now ← observe utc;
  update (fun _ r => bool_decide (tr_id r = key) && usable (to_rfc3339 now) r)
         (fun _ r => with_use (Some (to_rfc3339 now)) ip (Some (lit "started")) (tr_agent_task_id r) r).

Definition reserve_upload_once (key : rstr) (ip : option rstr) (reservation_id : rstr) : PP bool :=
  now ← observe utc;
  update (fun _ r => bool_decide (tr_id r = key) && bool_decide (tr_op r = lit "upload") && usable (to_rfc3339 now) r)
         (fun _ => with_use (Some (to_rfc3339 now)) ip (Some (lit "receiving")) (Some reservation_id)).

(** [used_status = 'receiving' AND agent_task_id = ?]. *)
Definition reserved_by (reservation_id : rstr) (r : TokenRow) : bool :=
  bool_decide (tr_used_status r = Some (lit "receiving")) && bool_decide (tr_agent_task_id r = Some reservation_id).

Definition commit_upload_reservation (key reservation_id : rstr) : PP bool :=
  now ← observe utc;
  update (fun _ r => bool_decide (tr_id r = key) && reserved_by reservation_id r && bool_decide (tr_revoked_at r = None)
                     && (julianday (to_rfc3339 now) <? julianday (tr_expires_at r)))
         (fun _ r => with_use (tr_used_at r) (tr_used_ip r) (Some (lit "started")) None r).

Definition release_upload_reservation (key reservation_id : rstr) : PP bool :=
  update (fun _ r => bool_decide (tr_id r = key) && reserved_by reservation_id r) (fun _ => with_use None None None None).

Definition truncate_transfer_error (error : rstr) : rstr := take MAX_ERROR_CHARS error.

Definition record_use_result (key status : rstr) (task error : option rstr) : PP unit :=
  update (fun _ r => bool_decide (tr_id r = key)) (fun _ => with_result status task (truncate_transfer_error <$> error));;
  mret ().

(** The foreign keys of the table: deleting an Agent or a user deletes its rows,
    deleting a session or an API token clears the reference to it. *)
Inductive Parent : Type := AgentRow (k : rstr) | UserRow (k : rstr) | SessionRow (k : rstr) | TokenParentRow (k : rstr).
Definition with_issuer session pat r : TokenRow :=
  {| tr_id := tr_id r; tr_token_hash := tr_token_hash r; tr_server_id := tr_server_id r; tr_path := tr_path r; tr_op := tr_op r;
     tr_issued_by_user_id := tr_issued_by_user_id r; tr_auth_kind := tr_auth_kind r; tr_session_id := session;
     tr_api_token_id := pat; tr_scope := tr_scope r; tr_expires_at := tr_expires_at r; tr_used_at := tr_used_at r;
     tr_used_ip := tr_used_ip r; tr_used_status := tr_used_status r; tr_used_error := tr_used_error r;
     tr_agent_task_id := tr_agent_task_id r; tr_revoked_at := tr_revoked_at r; tr_created_at := tr_created_at r;
     tr_created_ip := tr_created_ip r |}.
Definition on_parent_deleted (p : Parent) (r : TokenRow) : option TokenRow :=
  match p with
  | AgentRow k => if bool_decide (tr_server_id r = k) then None else Some r
  | UserRow k => if bool_decide (tr_issued_by_user_id r = k) then None else Some r
  | SessionRow k => Some (with_issuer (if bool_decide (tr_session_id r = Some k) then None else tr_session_id r) (tr_api_token_id r) r)
  | TokenParentRow k => Some (with_issuer (tr_session_id r) (if bool_decide (tr_api_token_id r = Some k) then None else tr_api_token_id r) r)
  end.
Definition cascade (p : Parent) : PP unit := sql (fun _ s => (Ok (), set_rows (omap (on_parent_deleted p) (rows s)) s)).
End repository.

(** ** The rate limiter *)

Section rates.
Context `{TransferLib}.

(** [checked_duration_since]. *)
Definition elapsed_since (now started : Z) : option Z := if now <? started then None else Some (now - started).

Definition too_fast : Failure := (TOO_MANY_REQUESTS, lit "temporary URL rate limit exceeded").

(** [min_by_key]: the first of the entries with the least start. *)
Fixpoint min_by_start (best : rstr * (Z * Z)) (l : list (rstr * (Z * Z))) : rstr * (Z * Z) :=
  match l with
  | [] => best
  | x :: l => min_by_start (if x.2.1 <? best.2.1 then x else best) l
  end.
Definition oldest_key (m : gmap rstr (Z * Z)) : option rstr :=
  match iter m with [] => None | x :: l => Some (min_by_start x l).1 end.

Definition full_for (token : rstr) (m : gmap rstr (Z * Z)) : bool :=
  bool_decide (m !! token = None) && (MAX_TEMP_TRANSFER_RATE_ENTRIES <=? Z.of_nat (size m)).

Definition check_rate_limit_in (state : TemporaryTransferRateState) (token : rstr) (now : Z)
    : result Failure unit * TemporaryTransferRateState :=
  let window := seconds TEMP_TRANSFER_RATE_WINDOW_SECS in
  let checks := saturating_add u32_max (checks_since_cleanup state) 1 in
  let '(m, checks) :=
    if (TEMP_TRANSFER_RATE_CLEANUP_INTERVAL <=? checks) || full_for token (entries state)
    then (filter (fun kv => match elapsed_since now kv.2.1 with Some d => d <? window | None => false end = true) (entries state), 0)
    else (entries state, checks) in
  let m := if full_for token m then match oldest_key m with Some k => delete k m | None => m end else m in
  let '(started, count) := default (now, 0) (m !! token) in
  let '(started, count) :=
    if match elapsed_since now started with Some d => window <=? d | None => true end then (now, 0) else (started, count) in
  let count := saturating_add u32_max count 1 in
  (if TEMP_TRANSFER_RATE_LIMIT <? count then Err too_fast else Ok (),
   {| entries := <[token := (started, count)]> m; checks_since_cleanup := checks |}).
End rates.

(** ** Reading the request *)

Definition invalid_url : Failure := (FORBIDDEN, lit "invalid or expired temporary URL").
Definition invalid_issuer : Failure := (FORBIDDEN, lit "temporary URL issuer is invalid").

Definition valid_transfer_record_path (path : rstr) : bool :=
  let trimmed := trim path in
  bool_decide (trimmed = path) && starts_with (lit "/") trimmed && negb (is_empty trimmed)
  && (byte_len trimmed <=? TEMP_TRANSFER_MAX_PATH_BYTES) && negb (contains 0 trimmed) && negb (existsb is_control trimmed)
  && negb (existsb (fun segment => bool_decide (segment = lit "..")) (split_by (Z.eqb 47) trimmed))
  && existsb (fun segment => negb (is_empty segment) && negb (bool_decide (segment = lit "."))) (split_by (Z.eqb 47) trimmed).

Definition valid_temporary_token_shape (token : rstr) : bool :=
  match Auth.strip_prefix (lit "xlt_") token with
  | Some body => (byte_len body =? 64) && forallb Auth.is_ascii_hexdigit (str_bytes body)
  | None => false
  end.

Definition validate_transfer_record_state (record : TemporaryTransferToken) (o : rstr) (now : Z) : result Failure unit :=
  let expected_scope := if bool_decide (o = lit "download") then Some (lit "transfer:read")
                        else if bool_decide (o = lit "upload") then Some (lit "transfer:write") else None in
  match expected_scope with
  | None => Err invalid_url
  | Some expected_scope =>
      if negb (bool_decide (op record = o)) || negb (bool_decide (scope record = expected_scope))
         || (bool_decide (o = lit "upload") && negb (bool_decide (auth_kind record = lit "session")))
         || (expires_at record <=? now) || match used_at record with Some _ => true | None => false end
         || match revoked_at record with Some _ => true | None => false end || negb (valid_transfer_record_path (path record))
      then Err invalid_url else Ok ()
  end.

(** [server_visible] and [agent_visible] of [servers.rs]. *)
Definition server_visible `{UuidLib} (auth : Auth.AuthSession) (agent_id : Z) : bool :=
  match Auth.server_ids auth with
  | None => true
  | Some allow => let id_str := uuid_to_string agent_id in existsb (fun a => bool_decide (a = id_str)) allow
  end.
Definition agent_visible `{UuidLib} (auth : Auth.AuthSession) (agent : Agent) : bool :=
  server_visible auth (a_id agent) && (Auth.is_admin (Auth.role auth) || (a_owner_user_id agent =? Auth.user_id auth)).

Record ValidatedTemporaryTransfer := { v_token_id : rstr; v_server_id : rstr; v_path : rstr }.

(** [sanitize_filename]; the slice cannot split a character, every one is ASCII. *)
Definition sanitize_char (c : Z) : Z :=
  if contains c [34; 39; 92; 47; 0; 59] then 95 else if is_control c || negb (c <? 128) then 95 else c.
Definition sanitize_filename (filename : rstr) : rstr :=
  let sanitized := sanitize_char <$> filename in
  let bounded := take (Z.to_nat (Z.min (byte_len sanitized) TEMP_TRANSFER_MAX_FILENAME_BYTES)) sanitized in
  let trimmed := trim bounded in
  if is_empty trimmed || bool_decide (trimmed = lit ".") || bool_decide (trimmed = lit "..") then lit "download.bin" else trimmed.

(** ** Responses *)

Abbreviation Headers := (list (rstr * rstr)).
(** [HeaderMap::insert]. *)
Definition insert_header (k v : rstr) (h : Headers) : Headers := filter (fun kv => kv.1 ≠ k) h ++ [(k, v)].
Definition insert_no_store_headers (h : Headers) : Headers :=
  insert_header (lit "expires") (lit "0") (insert_header (lit "pragma") (lit "no-cache") (insert_header (lit "cache-control") (lit "no-store") h)).

Inductive Payload : Type :=
| JsonError (message : rstr)
| FileData (data : list Z)
| JsonUploaded (server path : rstr) (written : Z).
Record Response := { status : StatusCode; headers : Headers; payload : Payload }.

Definition json_headers : Headers := [(lit "content-type", lit "application/json")].
Definition json_error (f : Failure) : Response :=
  {| status := f.1; headers := insert_no_store_headers json_headers; payload := JsonError f.2 |}.

Definition temporary_download_headers `{TransferLib} (data_len : Z) (filename : rstr) : result rstr Headers :=
  let h := insert_header (lit "x-content-type-options") (lit "nosniff")
             (insert_header (lit "content-type") (lit "application/octet-stream") []) in
  let value text := if header_value_ok text then Ok text else Err header_error in
  len ← value (print_i64 data_len);
  disposition ← value (lit "attachment; filename=" ++ [34] ++ sanitize_filename filename ++ [34]);
  Ok (insert_no_store_headers (insert_header (lit "content-disposition") disposition (insert_header (lit "content-length") len h))).

(** [path.rsplit('/').find(|part| !part.is_empty()).unwrap_or("download.bin")]. *)
Definition file_name_of (path : rstr) : rstr :=
  default (lit "download.bin") (head (filter (fun part => part ≠ []) (reverse (split_by (Z.eqb 47) path)))).

Definition parse_temp_transfer_query `{TransferLib} (raw_query : rstr) : result Failure rstr :=
  if TEMP_TRANSFER_MAX_QUERY_BYTES <? byte_len raw_query
  then Err (BAD_REQUEST, lit "temporary transfer query must be at most 512 bytes")
  else ok_or (query_token raw_query) (BAD_REQUEST, lit "temporary transfer query is invalid").

(** [TaskOutcome::Success] is 1. *)
Definition ensure_task_success (r : IoStreams.TaskResult) : result Failure unit :=
  if (IoStreams.status r =? 1) && (IoStreams.exit_code r =? 0) then Ok () else
  let detail :=
    if negb (is_empty (trim (IoStreams.stderr r))) then trim (IoStreams.stderr r)
    else if negb (is_empty (trim (IoStreams.error r))) then trim (IoStreams.error r)
    else lit "agent command failed with exit code " ++ print_i64 (IoStreams.exit_code r) in
  Err (BAD_GATEWAY, detail).

Definition ensure_temporary_transfer_result_text (r : IoStreams.TaskResult) (stdout_max : Z) (context : rstr) : result Failure unit :=
  match IoStreams.ensure_task_result_text_within r stdout_max TEMP_TRANSFER_SMALL_RESULT_MAX_BYTES TEMP_TRANSFER_SMALL_RESULT_MAX_BYTES with
  | Ok _ => Ok ()
  | Err which =>
      let '(field, max) := match which with
                           | IoStreams.StdoutTooLong => (lit " stdout exceeds ", stdout_max)
                           | IoStreams.StderrTooLong => (lit " stderr exceeds ", TEMP_TRANSFER_SMALL_RESULT_MAX_BYTES)
                           | IoStreams.ErrorTooLong => (lit " error exceeds ", TEMP_TRANSFER_SMALL_RESULT_MAX_BYTES)
                           end in
      Err (BAD_GATEWAY, context ++ field ++ print_i64 max ++ lit " bytes")
  end.

(** ** The handlers *)

Section handlers.
Context {E : Type} `{UuidLib, Rfc3339, Auth.Crypto, TransferLib}.
Abbreviation PF := (P (Env E) Shared Failure).

Definition internal_error {X} (_ : X) : Failure := (INTERNAL_SERVER_ERROR, lit "temporary transfer validation failed").
Definition db {A} (m : P (Env E) Shared (Tables.Anyhow E) A) : PF A := map_err internal_error m.

(** A read of another table, and [ok_or_else]. *)
Definition read {A} (f : Env E → result E A) : PF A :=
  r ← observe f; of_result (match r with Ok a => Ok a | Err x => Err (internal_error x) end).
Definition required {A} (x : option A) (f : Failure) : PF A := of_result (ok_or x f).

(** A poisoned lock is not modelled: a section that panicked would poison it, and
    [check_rate_limit_in] does not. *)
Definition check_rate_limit (token : rstr) : PF unit :=
  atomic (fun e s => let '(r, x) := check_rate_limit_in (rates s) token (instant e) in (r, set_rates x s)).

(** The session a record was issued under, as the tables have it now. *)
Definition issuer_session (record : TemporaryTransferToken) (user : Users.User) : PF Auth.AuthSession :=
  if bool_decide (auth_kind record = lit "session") then
    sid ← required (session_id record) invalid_issuer;
    session ← read (fun e => find_session e sid);
    session ← required session invalid_issuer;
    now ← observe utc;
    if negb (Sessions.user_id session =? issued_by_user_id record) || (Sessions.expires_at session <=? now)
    then throw invalid_issuer
    else mret {| Auth.session_id := Sessions.id session; Auth.user_id := Users.id user; Auth.username := Users.username user;
                 Auth.role := Users.role user; Auth.csrf_token := []; Auth.auth_kind := Auth.Session; Auth.scopes := [];
                 Auth.server_ids := None; Auth.pat_id := None |}
  else if bool_decide (auth_kind record = lit "pat") then
    pid ← required (api_token_id record) invalid_issuer;
    pat ← read (fun e => find_pat e pid);
    pat ← required pat invalid_issuer;
    now ← observe utc;
    if negb (Users.p_user_id pat =? issued_by_user_id record) || match Users.p_revoked_at pat with Some _ => true | None => false end
       || match Users.p_expires_at pat with Some ts => ts <=? now | None => true end
       || negb (is_ok (Auth.validate_pat_runtime (Users.p_scopes pat) (Auth.is_admin (Users.role user)) (Users.p_server_ids pat)))
    then throw invalid_issuer
    else mret {| Auth.session_id := Users.p_id pat; Auth.user_id := Users.id user; Auth.username := Users.username user;
                 Auth.role := Users.role user; Auth.csrf_token := []; Auth.auth_kind := Auth.PersonalAccessToken;
                 Auth.scopes := Users.p_scopes pat; Auth.server_ids := Users.p_server_ids pat; Auth.pat_id := Some (Users.p_id pat) |}
  else throw invalid_issuer.

Definition validate_transfer_issuer (record : TemporaryTransferToken) : PF unit :=
  user ← read (fun e => find_user e (issued_by_user_id record));
  user ← required user invalid_issuer;
  auth ← issuer_session record user;
  if negb (Auth.has_scope auth (scope record)) then throw (FORBIDDEN, lit "temporary URL issuer no longer has permission") else
  agent ← read (fun e => find_agent e (server_id record));
  agent ← required agent (FORBIDDEN, lit "temporary URL server is invalid");
  if match a_revoked_at agent with Some _ => true | None => false end
  then throw (FORBIDDEN, lit "temporary URL server is revoked") else
  if negb (agent_visible auth agent) then throw (FORBIDDEN, lit "temporary URL issuer no longer has server access") else mret ().

Definition validate_temporary_transfer (token o : rstr) : PF ValidatedTemporaryTransfer :=
  if negb (valid_temporary_token_shape token) then throw invalid_url else
  record ← db (find_by_token_hash (Auth.hash_token token));
  record ← required record invalid_url;
  now ← observe utc;
  of_result (validate_transfer_record_state record o now);;
  validate_transfer_issuer record;;
  mret {| v_token_id := id record; v_server_id := uuid_to_string (server_id record); v_path := path record |}.

Definition already_used : Failure := (FORBIDDEN, lit "invalid or already used temporary URL").

Definition consume_temporary_transfer (token_id : rstr) (ip : option rstr) : PF unit :=
  ok ← db (mark_used_once token_id ip); if (ok : bool) then mret () else throw already_used.
Definition reserve_temporary_upload (token_id : rstr) (ip : option rstr) (reservation_id : rstr) : PF unit :=
  ok ← db (reserve_upload_once token_id ip reservation_id); if (ok : bool) then mret () else throw already_used.
Definition release_temporary_upload (token_id reservation_id : rstr) : PF unit :=
  ignore (release_upload_reservation (E := E) token_id reservation_id).
Definition commit_temporary_upload (token_id reservation_id : rstr) : PF unit :=
  ok ← db (commit_upload_reservation token_id reservation_id);
  if (ok : bool) then mret () else
  release_temporary_upload token_id reservation_id;;
  throw (FORBIDDEN, lit "temporary URL expired or was revoked during upload").
Definition record_temporary_transfer_result (token_id status : rstr) (task error : option rstr) : PF unit :=
  ignore (record_use_result (E := E) token_id status task error).

(** The outcome of [dispatch_server_task]: an error carries the run id once there
    is one. [token_id] only labels the task in the history. *)
Record DispatchServerTaskError := { d_status : StatusCode; d_message : rstr; d_agent_task_id : option rstr }.

Definition dispatch_server_task (token_id server : rstr) (task : FileTask)
    : P (Env E) Shared DispatchServerTaskError (rstr * IoStreams.TaskResult) :=
  match uuid_parse server with
  | None => throw {| d_status := BAD_REQUEST; d_message := lit "invalid server_id"; d_agent_task_id := None |}
  | Some agent_id =>
      up ← observe online;
      if negb up then throw {| d_status := BAD_GATEWAY; d_message := lit "agent is offline"; d_agent_task_id := None |} else
      run ← observe uuid;
      let run_id := uuid_to_string run in
      atomic (fun e s => match send_error e with
                         | Some x => (Err {| d_status := BAD_GATEWAY; d_message := x; d_agent_task_id := Some run_id |}, s)
                         | None => (Ok (), add_sent {| token := Some token_id; recipient := agent_id; message := FileMessage task |} s)
                         end);;
      answer ← observe reply;
      match answer with
      | Replied r => mret (run_id, r)
      | Disconnected => throw {| d_status := BAD_GATEWAY; d_message := lit "agent disconnected before reply"; d_agent_task_id := Some run_id |}
      | TimedOut => throw {| d_status := GATEWAY_TIMEOUT; d_message := lit "temporary transfer timed out"; d_agent_task_id := Some run_id |}
      end
  end.

(** The handlers record a failure of what follows the dispatch, then return it. *)
Definition or_record {A} (token_id : rstr) (run_id : option rstr) (r : result Failure A) : PF A :=
  match r with
  | Ok a => mret a
  | Err f => record_temporary_transfer_result token_id (lit "failed") run_id (Some f.2);; throw f
  end.

Definition dispatch_or_record (token_id server : rstr) (task : FileTask) : PF (rstr * IoStreams.TaskResult) :=
  proc_bind (dispatch_server_task token_id server task)
    (fun r => match r with
              | Ok d => Ret (Ok d)
              | Err x => or_record token_id (d_agent_task_id x) (Err (d_status x, d_message x))
              end).

Definition base64_message (x : Base64.Base64Error) : rstr :=
  match x with
  | Base64.LengthNotMultiple => lit "length is not a multiple of 4"
  | Base64.InvalidByte b => lit "invalid base64 byte: " ++ print_i64 b
  end.

(** What a download makes of the Agent's answer. *)
Definition download_response (path : rstr) (r : IoStreams.TaskResult) : result Failure Response :=
  ensure_temporary_transfer_result_text r (IoStreams.base64_encoded_len TEMP_TRANSFER_MAX_BYTES) (lit "temporary download agent result");;
  ensure_task_success r;;
  data ← match Base64.base64_decode (trim (IoStreams.stdout r)) with
         | Ok data => Ok data
         | Err x => Err (BAD_GATEWAY, lit "agent returned invalid base64 file data: " ++ base64_message x)
         end;
  if TEMP_TRANSFER_MAX_BYTES <? zlen data
  then Err (PAYLOAD_TOO_LARGE, lit "file is larger than " ++ print_i64 TEMP_TRANSFER_MAX_BYTES ++ lit " bytes") else
  match temporary_download_headers (zlen data) (file_name_of path) with
  | Ok h => Ok {| status := OK; headers := h; payload := FileData data |}
  | Err x => Err (INTERNAL_SERVER_ERROR, x)
  end.

Definition run_temp_download (token client_ip : rstr) : PF Response :=
  check_rate_limit client_ip;;
  transfer ← validate_temporary_transfer token (lit "download");
  check_rate_limit token;;
  consume_temporary_transfer (v_token_id transfer) (Some client_ip);;
  '(run_id, r) ← dispatch_or_record (v_token_id transfer) (v_server_id transfer) (FileRead (v_path transfer) 0 TEMP_TRANSFER_MAX_BYTES);
  response ← or_record (v_token_id transfer) (Some run_id) (download_response (v_path transfer) r);
  record_temporary_transfer_result (v_token_id transfer) (lit "success") (Some run_id) None;;
  mret response.

Definition read_limited_body (body : Body) (max_bytes : Z) : result Failure (list Z) :=
  let limit := saturating_add usize_max max_bytes 1 in
  match to_bytes body limit with
  | Err x => Err (PAYLOAD_TOO_LARGE, lit "upload is larger than " ++ print_i64 max_bytes ++ lit " bytes or could not be read: " ++ x)
  | Ok data => if max_bytes <? zlen data
               then Err (PAYLOAD_TOO_LARGE, lit "upload is larger than " ++ print_i64 max_bytes ++ lit " bytes") else Ok data
  end.

(** What an upload makes of the Agent's answer: the bytes written. *)
Definition upload_written (size : Z) (r : IoStreams.TaskResult) : result Failure Z :=
  ensure_temporary_transfer_result_text r TEMP_TRANSFER_SMALL_RESULT_MAX_BYTES (lit "temporary upload agent result");;
  ensure_task_success r;;
  written ← ok_or (parse_unsigned usize_max (trim (IoStreams.stdout r))) (BAD_GATEWAY, lit "agent returned invalid byte count");
  if negb (written =? size)
  then Err (BAD_GATEWAY, lit "agent wrote " ++ print_i64 written ++ lit " bytes, expected " ++ print_i64 size) else Ok written.

Definition run_temp_upload (token client_ip : rstr) (body : Body) : PF Response :=
  check_rate_limit client_ip;;
  transfer ← validate_temporary_transfer token (lit "upload");
  check_rate_limit token;;
  reservation ← observe uuid;
  let reservation_id := uuid_to_string reservation in
  reserve_temporary_upload (v_token_id transfer) (Some client_ip) reservation_id;;
  data ← match read_limited_body body TEMP_TRANSFER_MAX_BYTES with
         | Ok data => mret data
         | Err f => release_temporary_upload (v_token_id transfer) reservation_id;; throw f
         end;
  commit_temporary_upload (v_token_id transfer) reservation_id;;
  '(run_id, r) ← dispatch_or_record (v_token_id transfer) (v_server_id transfer) (FileWrite (v_path transfer) data 0 true);
  written ← or_record (v_token_id transfer) (Some run_id) (upload_written (zlen data) r);
  record_temporary_transfer_result (v_token_id transfer) (lit "success") (Some run_id) None;;
  mret {| status := OK; headers := insert_no_store_headers json_headers; payload := JsonUploaded (v_server_id transfer) (v_path transfer) written |}.

(** [temp_download] and [temp_upload]: every failure is a JSON error response. *)
Definition respond (m : PF Response) : Proc (Env E) Shared Response :=
  proc_bind m (fun r => Ret (match r with Ok x => x | Err f => json_error f end)).
Definition temp_download (raw_query client_ip : rstr) : Proc (Env E) Shared Response :=
  respond (token ← of_result (parse_temp_transfer_query raw_query); run_temp_download token client_ip).
Definition temp_upload (raw_query client_ip : rstr) (body : Body) : Proc (Env E) Shared Response :=
  respond (token ← of_result (parse_temp_transfer_query raw_query); run_temp_upload token client_ip body).
End handlers.

End Transfers.
