(* ===== verification/ServerOps.v ===== *)
(** * ServerOps: file operations, remote configuration and updates of an Agent

    [crates/server/src/api/v1/server_ops.rs]: the handlers through which a user
    works on the files of an Agent, changes its configuration or makes it update,
    with the validation of everything that is sent. The text of a parser's own
    error, which some messages append, is left out. They are programs of
    [Interleave] over the state of [Transfers]; the account tables and the
    Agent's session answer through the environment. *)

From S2P Require Import Prelude Text BTreeMap Json Externals Auth Totp Net Security IoStreams Base64 Interleave Rfc3339 Tables Sessions Users Accounts Transfers.

Module ServerOps.
Import Interleave Transfers.

Definition FILE_READ_MAX_BYTES : Z := 2 * 1024 * 1024.
Definition FILE_WRITE_MAX_BYTES : Z := 2 * 1024 * 1024.
Definition SERVER_OPS_UUID_TEXT_LEN : Z := 36.
Definition SERVER_OPS_MAX_PATH_BYTES : Z := 4096.
Definition CONFIG_PATCH_MAX_BYTES : Z := 128 * 1024.
Definition FORCE_UPDATE_MAX_URL_BYTES : Z := 2048.
Definition FILE_LIST_RESULT_MAX_BYTES : Z := 2 * 1024 * 1024.
Definition FILE_SMALL_RESULT_MAX_BYTES : Z := 4096.
Definition FORCE_UPDATE_REPO_HOST : rstr := lit "github.com".
Definition FORCE_UPDATE_REPO_PATH_PREFIX : rstr := lit "/lbyxiaolizi/XLStatus/releases/download/".
Definition REMOTE_CONFIG_LOW_RISK_FIELDS : list rstr := lit <$> ["name"; "report_interval_seconds"; "ip_report_interval_seconds"].
Definition REMOTE_CONFIG_SENSITIVE_FIELDS : list rstr := lit <$>
  ["server"; "grpc_server"; "grpc_tls_ca_path"; "grpc_tls_domain_name"; "grpc_tls_client_cert_path"; "grpc_tls_client_key_path";
   "disable_auto_update"; "disable_force_update"; "disable_command_execute"; "disable_nat"; "disable_send_query"; "file_allowed_roots"].
Definition REMOTE_CONFIG_FORBIDDEN_FIELDS : list rstr := lit <$> ["agent_id"; "public_key"; "private_key"].

Definition slash : Z := 47.
Definition segments (path : rstr) : list rstr := split_by (Z.eqb slash) path.
Definition dotdot : rstr := lit "..".

(** ** Validation *)

Section validation.
Context {E : Type}.
Abbreviation R := (result (Accounts.AppError E)).
Definition bad {A} (text : rstr) : R A := Err (Accounts.BadRequest text).

Definition validate_abs_path (path : rstr) : R rstr :=
  let trimmed := trim path in
  if negb (starts_with [slash] trimmed) then bad (lit "path must be absolute") else
  if SERVER_OPS_MAX_PATH_BYTES <? byte_len trimmed then bad (lit "path exceeds 4096 bytes") else
  if contains 0 trimmed then bad (lit "path contains NUL byte") else
  if existsb is_control trimmed then bad (lit "path must not contain control characters") else
  if existsb (fun segment => bool_decide (segment = dotdot)) (segments trimmed)
  then bad (lit "path must not contain '..' traversal segments") else Ok trimmed.

Definition is_filesystem_root_path (path : rstr) : bool :=
  negb (existsb (fun segment => negb (is_empty segment) && negb (bool_decide (segment = lit "."))) (segments path)).

Definition validate_file_target_path (path : rstr) : R rstr :=
  validated ← validate_abs_path path;
  if is_filesystem_root_path validated then bad (lit "file path must not refer to filesystem root") else Ok validated.

Definition validate_file_write_mode (mode : option Z) : R Z :=
  let mode := default 0 mode in
  if 511 <? mode then bad (lit "file mode must be within 0o000..=0o777 (setuid/setgid/sticky bits are not allowed)") else Ok mode.

Definition ensure_file_write_size (data : list Z) : R unit :=
  if FILE_WRITE_MAX_BYTES <? zlen data then bad (lit "file write content exceeds 2097152 bytes") else Ok ().

Definition normalize_encoding (value : rstr) : R rstr :=
  if contains value (lit <$> [""; "utf8"; "text"]) then Ok (lit "utf8")
  else if bool_decide (value = lit "base64") then Ok (lit "base64")
  else bad (lit "unsupported encoding: " ++ value).

Definition ensure_file_task_result_text (r : IoStreams.TaskResult) (stdout_max : Z) (context : rstr) : R unit :=
  match IoStreams.ensure_task_result_text_within r stdout_max FILE_SMALL_RESULT_MAX_BYTES FILE_SMALL_RESULT_MAX_BYTES with
  | Ok _ => Ok ()
  | Err which =>
      let '(field, max) := match which with
                           | IoStreams.StdoutTooLong => (lit " stdout exceeds ", stdout_max)
                           | IoStreams.StderrTooLong => (lit " stderr exceeds ", FILE_SMALL_RESULT_MAX_BYTES)
                           | IoStreams.ErrorTooLong => (lit " error exceeds ", FILE_SMALL_RESULT_MAX_BYTES)
                           end in
      bad (context ++ field ++ print_i64 max ++ lit " bytes")
  end.

Definition ensure_task_success (r : IoStreams.TaskResult) : R unit :=
  if (IoStreams.status r =? 1) && (IoStreams.exit_code r =? 0) then Ok () else
  if negb (is_empty (trim (IoStreams.error r))) then bad (trim (IoStreams.error r)) else
  if negb (is_empty (trim (IoStreams.stderr r))) then bad (trim (IoStreams.stderr r)) else
  bad (lit "agent operation failed with exit code " ++ print_i64 (IoStreams.exit_code r)).

(** ** Remote configuration *)

Section config.
(** [reqwest::Url::parse]. *)
Context (url_parse : rstr → option Security.Url).

Definition field_error (key what : rstr) : rstr := lit "config field '" ++ key ++ lit "' " ++ what.

Definition validate_config_url (key : rstr) (value : json) : R unit :=
  match as_str value with
  | None => bad (field_error key (lit "must be a URL string"))
  | Some raw =>
      let trimmed := trim raw in
      if is_empty trimmed || (FORCE_UPDATE_MAX_URL_BYTES <? byte_len trimmed) then bad (field_error key (lit "must be 1..=2048 bytes")) else
      match url_parse trimmed with
      | None => bad (field_error key (lit "is not a valid URL"))
      | Some parsed =>
          if negb (contains (Security.scheme parsed) (lit <$> ["http"; "https"])) || match Security.host_str parsed with None => true | _ => false end
          then bad (field_error key (lit "must use http or https with a valid host")) else
          if negb (is_empty (Security.username parsed)) || match Security.password parsed with Some _ => true | _ => false end
             || match Security.query parsed with Some _ => true | _ => false end
             || match Security.fragment parsed with Some _ => true | _ => false end
          then bad (field_error key (lit "must not contain credentials, query, or fragment")) else Ok ()
      end
  end.

(** A text field that may be null, at most [max] bytes, without control characters. *)
Definition validate_config_text (key : rstr) (max : Z) (value : json) : R unit :=
  match value with
  | JNull => Ok ()
  | _ => match as_str value with
         | None => bad (field_error key (lit "must be a string or null"))
         | Some text => if (max <? byte_len text) || existsb is_control text then bad (field_error key (lit "is invalid")) else Ok ()
         end
  end.

Fixpoint validate_config_roots (items : list json) : R unit :=
  match items with
  | [] => Ok ()
  | item :: items =>
      match as_str item with
      | None => bad (lit "config field 'file_allowed_roots' entries must be strings")
      | Some root_path => validate_abs_path root_path;; validate_config_roots items
      end
  end.

Definition is_key (key : rstr) (names : list string) : bool := contains key (lit <$> names).

Definition validate_remote_config_field_value (key : rstr) (value : json) : R unit :=
  if is_key key ["name"] then
    match as_str value with
    | None => bad (lit "config field 'name' must be a string")
    | Some name =>
        let trimmed := trim name in
        if is_empty trimmed || (255 <? byte_len trimmed) || existsb is_control trimmed
        then bad (lit "config field 'name' must be 1..=255 printable characters") else Ok ()
    end
  else if is_key key ["report_interval_seconds"; "ip_report_interval_seconds"] then
    match as_u64 value with
    | None => bad (field_error key (lit "must be a positive integer"))
    | Some secs => if (1 <=? secs) && (secs <=? 86400) then Ok () else bad (field_error key (lit "must be between 1 and 86400 seconds"))
    end
  else if is_key key ["disable_auto_update"; "disable_force_update"; "disable_command_execute"; "disable_nat"; "disable_send_query"] then
    match as_bool value with Some _ => Ok () | None => bad (field_error key (lit "must be a boolean")) end
  else if is_key key ["server"; "grpc_server"] then validate_config_url key value
  else if is_key key ["grpc_tls_ca_path"; "grpc_tls_client_cert_path"; "grpc_tls_client_key_path"]
       then validate_config_text key SERVER_OPS_MAX_PATH_BYTES value
  else if is_key key ["grpc_tls_domain_name"] then validate_config_text key 253 value
  else if is_key key ["file_allowed_roots"] then
    match as_array value with
    | None => bad (lit "config field 'file_allowed_roots' must be an array of paths")
    | Some roots => if 64 <? zlen roots then bad (lit "config field 'file_allowed_roots' exceeds 64 entries") else validate_config_roots roots
    end
  else Ok ().

(** The loop over the fields of the patch; [sensitive] is what was seen so far. *)
Fixpoint patch_fields (fields : list (rstr * json)) (sensitive : bool) : R bool :=
  match fields with
  | [] => Ok sensitive
  | (key, value) :: fields =>
      if contains key REMOTE_CONFIG_FORBIDDEN_FIELDS
      then bad (lit "remote config field " ++ key ++ lit " cannot be changed from the dashboard") else
      if contains key REMOTE_CONFIG_SENSITIVE_FIELDS
      then validate_remote_config_field_value key value;; patch_fields fields true else
      if negb (contains key REMOTE_CONFIG_LOW_RISK_FIELDS) then bad (lit "unknown remote config field: " ++ key) else
      validate_remote_config_field_value key value;; patch_fields fields sensitive
  end.

Definition remote_config_patch_contains_sensitive_fields (config : json) : R bool :=
  match as_object config with
  | None => bad (lit "config patch must be an object")
  | Some fields => patch_fields fields false
  end.

(** ** Forced updates *)

Definition version_byte (b : Z) : bool := is_ascii_alphanumeric b || contains b (lit "._-").

(** [contains("..")]. *)
Definition has_dotdot (s : rstr) : bool := match split_once_str dotdot s with Some _ => true | None => false end.

Definition validate_force_update_version (version : rstr) : R rstr :=
  let trimmed := trim version in
  if is_empty trimmed then bad (lit "version is required") else
  if bool_decide (trimmed = lit "latest") then bad (lit "force update requires an explicit release version") else
  if (80 <? byte_len trimmed) || negb (match str_bytes trimmed with b :: _ => is_ascii_alphanumeric b | [] => false end)
     || has_dotdot trimmed || negb (forallb version_byte (str_bytes trimmed))
  then bad (lit "version contains unsupported characters") else Ok trimmed.

Definition validate_force_update_checksum (checksum : option rstr) : R rstr :=
  match match checksum with Some c => if is_empty (trim c) then None else Some (trim c) | None => None end with
  | None => bad (lit "sha256 checksum is required for force update")
  | Some checksum =>
      let normalized := to_ascii_lowercase (default checksum (Auth.strip_prefix (lit "sha256:") checksum)) in
      if negb (byte_len normalized =? 64) || negb (forallb Auth.is_ascii_hexdigit (str_bytes normalized))
      then bad (lit "checksum must be a sha256 hex digest") else Ok normalized
  end.

Definition validate_default_force_update_download_url (url : Security.Url) (version : rstr) : R unit :=
  if negb (bool_decide (Security.host_str url = Some FORCE_UPDATE_REPO_HOST))
  then bad (lit "download_url must use the XLStatus GitHub release host") else
  if match Security.port url with Some _ => true | None => false end then bad (lit "download_url must use the default https port") else
  match Auth.strip_prefix (FORCE_UPDATE_REPO_PATH_PREFIX ++ version ++ lit "/") (Security.path url) with
  | None => bad (lit "download_url must point to the requested XLStatus release version")
  | Some filename =>
      if is_empty filename then bad (lit "download_url missing release asset name") else
      if contains slash filename || contains 92 filename || contains 37 filename || has_dotdot filename
         || negb (starts_with (lit "xlstatus-agent-") filename) || negb (forallb version_byte (str_bytes filename))
      then bad (lit "download_url must point to an XLStatus Agent release asset") else Ok ()
  end.

(** [url.to_string()] is the serialization of a parsed URL. *)
Context (url_to_string : Security.Url → rstr).

Definition validate_force_update_download_url (download_url version : rstr) (allow_custom_source : bool) : R rstr :=
  let trimmed := trim download_url in
  if is_empty trimmed then bad (lit "download_url is required") else
  if FORCE_UPDATE_MAX_URL_BYTES <? byte_len trimmed then bad (lit "download_url exceeds 2048 bytes") else
  match url_parse trimmed with
  | None => bad (lit "download_url is invalid")
  | Some url =>
      if negb (bool_decide (Security.scheme url = lit "https")) then bad (lit "download_url must use https") else
      if negb (is_empty (Security.username url)) || match Security.password url with Some _ => true | None => false end
      then bad (lit "download_url must not contain credentials") else
      if match Security.query url with Some _ => true | None => false end || match Security.fragment url with Some _ => true | None => false end
      then bad (lit "download_url must not contain query or fragment") else
      (if allow_custom_source then Ok () else validate_default_force_update_download_url url version);;
      Ok (url_to_string url)
  end.

Record ForceUpdateRequest := { fu_version : rstr; fu_download_url : rstr; fu_checksum : option rstr }.

Definition validate_force_update_request_with_custom_source (req : ForceUpdateRequest) (allow_custom_source : bool) : R Message :=
  version ← validate_force_update_version (fu_version req);
  checksum ← validate_force_update_checksum (fu_checksum req);
  download_url ← validate_force_update_download_url (fu_download_url req) version allow_custom_source;
  Ok (ForceUpdate version download_url checksum).

Definition force_update_custom_source_allowed (env : rstr → option rstr) : bool :=
  match env (lit "XLSTATUS_ALLOW_CUSTOM_FORCE_UPDATE_URL") with
  | Some v => contains v (lit <$> ["1"; "true"; "TRUE"; "yes"; "YES"])
  | None => false
  end.
End config.
End validation.

(** ** Handlers *)

Record FileEntryView := {
  name : rstr; file_type : rstr; size : Z; mode : Z; modified_at : Z; symlink_target : option rstr;
}.
Record FileReadRequest := { fr_path : rstr; fr_offset : Z; fr_length : Z; fr_encoding : rstr }.
Record FileWriteRequest := { fw_path : rstr; fw_content : rstr; fw_encoding : rstr; fw_mode : option Z; fw_create_dirs : bool }.
Record FileReadResponse := { r_server_id : rstr; r_path : rstr; r_encoding : rstr; r_content : rstr; r_bytes : Z }.
Record TempUrlResponse := { u_server_id : rstr; u_path : rstr; u_url : rstr; u_method : rstr; u_expires_at : Z }.

Section handlers.
Context {E : Type} `{UuidLib, Rfc3339, Auth.Crypto, TransferLib, Chrono}.
Abbreviation AppError := (Accounts.AppError E).
Abbreviation PA := (P (Env E) Shared AppError).

Definition database (x : E) : AppError := Accounts.Database (Tables.Sqlx x).
Definition forbidden {A} (text : rstr) : PA A := throw (Accounts.Forbidden text).
Definition refuse {A} (text : rstr) : PA A := throw (Accounts.BadRequest text).

(** A read of another table. *)
Definition query {A} (f : Env E → result E A) : PA A :=
  r ← observe f; of_result (match r with Ok a => Ok a | Err x => Err (database x) end).

Definition require_transfer_scope (auth : Auth.AuthSession) (scope : rstr) : PA unit :=
  if Auth.has_scope auth scope then mret () else forbidden (lit "missing scope: " ++ scope).

Definition sensitive (auth : Auth.AuthSession) : PA unit := r ← observe sensitive_totp; of_result r.

Definition require_transfer_write_sensitive_auth (auth : Auth.AuthSession) : PA unit :=
  require_transfer_scope auth (lit "transfer:write");;
  if Auth.is_pat (Auth.auth_kind auth) then forbidden (lit "file write operations require a cookie session") else
  sensitive auth.

Definition parse_server_ops_agent_id (server_id : rstr) : result AppError Z :=
  let e := Accounts.BadRequest (lit "server_id must be a canonical UUID") in
  if negb (byte_len server_id =? SERVER_OPS_UUID_TEXT_LEN) then Err e else
  parsed ← ok_or (uuid_parse server_id) e;
  if negb (bool_decide (uuid_to_string parsed = server_id)) then Err e else Ok parsed.

Definition find_agent_or (agent_id : Z) : PA Agent :=
  agent ← query (fun e => find_agent e agent_id);
  of_result (ok_or agent (Accounts.NotFound (lit "agent not found"))).

Definition ensure_server_visible (auth : Auth.AuthSession) (server_id : rstr) : PA Z :=
  agent_id ← of_result (parse_server_ops_agent_id server_id);
  if negb (server_visible auth agent_id) then forbidden (lit "agent not in scope") else
  agent ← find_agent_or agent_id;
  if agent_visible auth agent then mret agent_id else forbidden (lit "agent not in scope").

Definition ensure_server_active (auth : Auth.AuthSession) (server_id : rstr) : PA Z :=
  agent_id ← ensure_server_visible auth server_id;
  agent ← find_agent_or agent_id;
  if match a_revoked_at agent with Some _ => true | None => false end
  then forbidden (lit "agent has been revoked") else mret agent_id.

Definition ensure_server_online (auth : Auth.AuthSession) (server_id : rstr) : PA Z :=
  agent_id ← ensure_server_active auth server_id;
  up ← observe online;
  if negb up then refuse (lit "agent is offline") else mret agent_id.

(** [session_registry.send]. *)
Definition send (agent_id : Z) (m : Message) : PA unit :=
  atomic (fun e s => match send_error e with
                     | Some x => (Err (Accounts.BadRequest x), s)
                     | None => (Ok (), add_sent {| token := None; recipient := agent_id; message := m |} s)
                     end).

Definition dispatch_file_task (agent_id : Z) (task : FileTask) : PA IoStreams.TaskResult :=
  observe uuid;;
  send agent_id (FileMessage task);;
  answer ← observe reply;
  match answer with
  | Replied r => mret r
  | Disconnected => refuse (lit "agent disconnected before replying")
  | TimedOut => refuse (lit "agent operation timed out")
  end.

(** [serde_json::from_str::<Vec<FileEntryViewJson>>] and [serde_json::to_vec]. *)
Context (parse_entries : rstr → option (list FileEntryView)) (json_to_vec : json → option (list Z)).
Context (url_parse : rstr → option Security.Url) (url_to_string : Security.Url → rstr).

Definition list_files (auth : Auth.AuthSession) (server_id path : rstr) : PA (rstr * list FileEntryView) :=
  require_transfer_scope auth (lit "transfer:read");;
  agent_id ← ensure_server_online auth server_id;
  path ← of_result (validate_abs_path path);
  r ← dispatch_file_task agent_id (FileList path);
  of_result (ensure_file_task_result_text r FILE_LIST_RESULT_MAX_BYTES (lit "agent file list result"));;
  of_result (ensure_task_success r);;
  entries ← of_result (ok_or (parse_entries (IoStreams.stdout r)) (Accounts.BadRequest (lit "agent returned invalid file list")));
  mret (path, entries).

Definition read_file (auth : Auth.AuthSession) (server_id : rstr) (req : FileReadRequest) : PA FileReadResponse :=
  require_transfer_scope auth (lit "transfer:read");;
  path ← of_result (validate_file_target_path (fr_path req));
  encoding ← of_result (normalize_encoding (fr_encoding req));
  agent_id ← ensure_server_online auth server_id;
  let length := Z.max 1 (Z.min (fr_length req) FILE_READ_MAX_BYTES) in
  r ← dispatch_file_task agent_id (FileRead path (fr_offset req) length);
  of_result (ensure_file_task_result_text r (IoStreams.base64_encoded_len length) (lit "agent file read result"));;
  of_result (ensure_task_success r);;
  bytes ← of_result (match Base64.base64_decode (trim (IoStreams.stdout r)) with
                     | Ok bytes => Ok bytes | Err _ => bad (lit "agent returned invalid base64") end);
  if length <? zlen bytes then refuse (lit "agent returned more than " ++ print_i64 length ++ lit " file bytes") else
  content ← of_result (if bool_decide (encoding = lit "base64") then Ok (trim (IoStreams.stdout r))
                       else ok_or (from_utf8 bytes) (Accounts.BadRequest (lit "file is not valid UTF-8")));
  mret {| r_server_id := server_id; r_path := path; r_encoding := encoding; r_content := content; r_bytes := zlen bytes |}.

(** The bytes of a write request, and the count the Agent reports. *)
Definition write_file (auth : Auth.AuthSession) (server_id : rstr) (req : FileWriteRequest) : PA (rstr * Z) :=
  require_transfer_write_sensitive_auth auth;;
  path ← of_result (validate_file_target_path (fw_path req));
  mode ← of_result (validate_file_write_mode (fw_mode req));
  encoding ← of_result (normalize_encoding (fw_encoding req));
  data ← of_result (if bool_decide (encoding = lit "base64")
                    then match Base64.base64_decode (trim (fw_content req)) with
                         | Ok data => Ok data | Err _ => bad (lit "invalid base64 content") end
                    else Ok (str_bytes (fw_content req)));
  of_result (ensure_file_write_size data);;
  agent_id ← ensure_server_online auth server_id;
  r ← dispatch_file_task agent_id (FileWrite path data mode (fw_create_dirs req));
  of_result (ensure_file_task_result_text r FILE_SMALL_RESULT_MAX_BYTES (lit "agent file write result"));;
  of_result (ensure_task_success r);;
  mret (path, default (zlen data) (parse_unsigned u64_max (trim (IoStreams.stdout r)))).

Definition delete_file (auth : Auth.AuthSession) (server_id path : rstr) (recursive : bool) : PA rstr :=
  require_transfer_write_sensitive_auth auth;;
  path ← of_result (validate_abs_path path);
  if is_filesystem_root_path path then refuse (lit "refusing to delete filesystem root") else
  agent_id ← ensure_server_online auth server_id;
  r ← dispatch_file_task agent_id (FileDelete path recursive);
  of_result (ensure_file_task_result_text r FILE_SMALL_RESULT_MAX_BYTES (lit "agent file delete result"));;
  of_result (ensure_task_success r);;
  mret path.

(** [temporary_url_expires_in] and [temporary_url_expires_at] of [mcp/executor.rs]. *)
Definition temporary_url_expires_in (expires_in : Z) : Z := Z.max 1 (Z.min expires_in TEMP_URL_MAX_EXPIRES_SECS).
Definition temporary_url_expires_at (now expires_in : Z) : Z :=
  saturating_add i64_max (timestamp now) (temporary_url_expires_in expires_in).

Definition percent_encode (s : rstr) : rstr := Totp.uri_component s.

(** [generate_temporary_transfer_token] of [auth/mod.rs]. *)
Definition generate_temporary_transfer_token : PA (rstr * rstr) :=
  bytes ← observe random;
  let token := lit "xlt_" ++ Auth.hex_encode bytes in mret (token, Auth.hash_token token).

(** [DateTime::from_timestamp(secs, 0)]. *)
Definition build_temp_url (auth : Auth.AuthSession) (server_id path : rstr) (expires : Z) (op method : rstr) : PA TempUrlResponse :=
  let scope := if bool_decide (op = lit "download") then lit "transfer:read" else lit "transfer:write" in
  require_transfer_scope auth scope;;
  path ← of_result (validate_file_target_path path);
  agent_id ← ensure_server_active auth server_id;
  now ← observe utc;
  let expires_at := temporary_url_expires_at now (temporary_url_expires_in expires) in
  '(token, token_hash) ← generate_temporary_transfer_token;
  expires_at_dt ← of_result (ok_or (if in_range (seconds expires_at) then Some (seconds expires_at) else None)
                                    (Accounts.BadRequest (lit "invalid temporary URL expiration")));
  map_err Accounts.Database
    (create {| c_token_hash := token_hash; c_server_id := agent_id; c_path := path; c_op := op;
               c_issued_by_user_id := Auth.user_id auth;
               c_auth_kind := if Auth.is_pat (Auth.auth_kind auth) then lit "pat" else lit "session";
               c_session_id := if Auth.is_pat (Auth.auth_kind auth) then None else Some (Auth.session_id auth);
               c_api_token_id := Auth.pat_id auth; c_scope := scope; c_expires_at := expires_at_dt; c_created_ip := None |});;
  let route := if bool_decide (op = lit "download") then lit "/api/v1/transfers/temp/download" else lit "/api/v1/transfers/temp/upload" in
  mret {| u_server_id := server_id; u_path := path; u_url := route ++ lit "?token=" ++ percent_encode token; u_method := method;
          u_expires_at := expires_at |}.

Definition download_url (auth : Auth.AuthSession) (server_id path : rstr) (expires : Z) : PA TempUrlResponse :=
  build_temp_url auth server_id path expires (lit "download") (lit "GET").
Definition upload_url (auth : Auth.AuthSession) (server_id path : rstr) (expires : Z) : PA TempUrlResponse :=
  require_transfer_write_sensitive_auth auth;;
  build_temp_url auth server_id path expires (lit "upload") (lit "PUT").

(** [revoke_temporary_transfer] of [transfers.rs]. *)
Definition temporary_transfer_visible_to_auth (auth : Auth.AuthSession) (t : TemporaryTransferToken) : PA bool :=
  if Auth.is_admin (Auth.role auth) && match Auth.server_ids auth with None => true | Some _ => false end then mret true else
  if negb (issued_by_user_id t =? Auth.user_id auth) then mret false else
  agent ← find_agent_or (server_id t);
  mret (agent_visible auth agent).

Definition require_temporary_transfer_uuid_text (value field : rstr) : result AppError rstr :=
  let e := Accounts.BadRequest (field ++ lit " must be a canonical UUID") in
  if is_empty value then Err (Accounts.BadRequest (field ++ lit " is required")) else
  if negb (byte_len value =? TEMP_TRANSFER_UUID_TEXT_LEN) then Err e else
  parsed ← ok_or (uuid_parse value) e;
  if negb (bool_decide (uuid_to_string parsed = value)) then Err e else Ok value.

Definition revoke_temporary_transfer (auth : Auth.AuthSession) (key : rstr) : PA bool :=
  require_transfer_scope auth (lit "transfer:write");;
  key ← of_result (require_temporary_transfer_uuid_text key (lit "temporary_transfer_token_id"));
  record ← map_err Accounts.Database (find_by_id key);
  record ← of_result (ok_or record (Accounts.NotFound (lit "temporary transfer token not found")));
  seen ← temporary_transfer_visible_to_auth auth record;
  if negb seen then forbidden (lit "temporary transfer token not in scope") else
  map_err Accounts.Database (revoke key).

Definition require_admin_cookie_session (auth : Auth.AuthSession) : PA unit :=
  if negb (Auth.is_admin (Auth.role auth)) then forbidden (lit "admin role required") else
  if Auth.is_pat (Auth.auth_kind auth) then forbidden (lit "Cookie session required") else mret ().

Definition require_remote_config_patch_auth (auth : Auth.AuthSession) (config : json) : PA unit :=
  risky ← of_result (remote_config_patch_contains_sensitive_fields url_parse config);
  if (risky : bool) then require_admin_cookie_session auth;; sensitive auth else mret ().

Definition serialize_config_patch (config : json) : result AppError (list Z) :=
  payload ← ok_or (json_to_vec config) (Accounts.BadRequest (lit "invalid config patch"));
  if CONFIG_PATCH_MAX_BYTES <? zlen payload then bad (lit "config patch exceeds 131072 bytes") else Ok payload.

Definition apply_config (auth : Auth.AuthSession) (server_id : rstr) (config : json) : PA unit :=
  if negb (Auth.has_scope auth (lit "server:write")) then forbidden (lit "missing scope: server:write") else
  if match as_object config with Some fields => is_empty fields | None => true end then refuse (lit "config patch must not be empty") else
  require_remote_config_patch_auth auth config;;
  agent_id ← ensure_server_online auth server_id;
  payload ← of_result (serialize_config_patch config);
  send agent_id (ConfigUpdate payload).

Definition require_force_update_auth (auth : Auth.AuthSession) : PA unit :=
  if negb (Auth.has_scope auth (lit "server:exec")) then forbidden (lit "missing scope: server:exec") else
  if Auth.is_pat (Auth.auth_kind auth) then forbidden (lit "force update requests require a cookie session") else
  sensitive auth.

Definition force_update (env : rstr → option rstr) (auth : Auth.AuthSession) (server_id : rstr) (req : ForceUpdateRequest) : PA unit :=
  require_force_update_auth auth;;
  agent_id ← ensure_server_online auth server_id;
  update ← of_result (validate_force_update_request_with_custom_source url_parse url_to_string req (force_update_custom_source_allowed env));
  send agent_id update.
End handlers.

End ServerOps.
