(* ===== verification/TransfersProofs.v ===== *)
(** * TransfersProofs: what a temporary URL can and cannot do

    Downloads, uploads, revocations, new URLs, direct file operations and the
    deletion of users, Agents, sessions and API tokens run in any interleaving.
    The proof follows a URL by permissions: a handler that has found a record
    knows where it came from; the statement that marks the row used turns that
    knowledge into the one permit to send a task for it. *)

From S2P Require Import Prelude Text BTreeMap Json Externals Auth Totp Net Security IoStreams Base64 Interleave Rfc3339 Tables Sessions Users Accounts Transfers ServerOps.

Module TransfersProofs.
Import Interleave Transfers.

(** ** Permissions *)

Inductive Perm : Type :=
| Idle
| Fresh (u : Z)                               (** drew an identifier, has not inserted the row *)
| Knows (c : TokenRow)                        (** read a record of the row created as [c] *)
| Reserved (c : TokenRow) (reservation : rstr)
| Permit (c : TokenRow)                       (** marked the row used, has not sent the task *)
| Spent (c : TokenRow).

(** What a row keeps from its creation. *)
Definition same_origin (r c : TokenRow) : Prop :=
  tr_id r = tr_id c ∧ tr_token_hash r = tr_token_hash c ∧ tr_server_id r = tr_server_id c ∧ tr_path r = tr_path c
  ∧ tr_op r = tr_op c ∧ tr_issued_by_user_id r = tr_issued_by_user_id c ∧ tr_auth_kind r = tr_auth_kind c
  ∧ tr_scope r = tr_scope c ∧ tr_expires_at r = tr_expires_at c.

(** The columns a use is recorded in. *)
Definition use_of (r : TokenRow) : option rstr * option rstr * option rstr := (tr_used_at r, tr_used_status r, tr_agent_task_id r).
Definition receiving : option rstr := Some (lit "receiving").
Definition settled (r : TokenRow) : Prop := tr_used_at r ≠ None ∧ tr_used_status r ≠ receiving.

Section permissions.
Context `{UuidLib}.

(** The task that a row created as [c] entitles to. *)
Definition entitled (c : TokenRow) (x : Sent) : Prop :=
  uuid_parse (tr_server_id c) = Some (recipient x)
  ∧ ((tr_op c = lit "download" ∧ message x = FileMessage (FileRead (tr_path c) 0 TEMP_TRANSFER_MAX_BYTES))
     ∨ (tr_op c = lit "upload" ∧ ∃ data, zlen data <= TEMP_TRANSFER_MAX_BYTES
        ∧ message x = FileMessage (FileWrite (tr_path c) data 0 true))).

Definition sent_ids (s : Shared) : list rstr := omap token (sent s).

Record wf (s : Shared) : Prop := {
  wf_ids : NoDup (tr_id <$> rows s);
  wf_created : NoDup (tr_id <$> created s);
  wf_origin r : r ∈ rows s → ∃ c, c ∈ created s ∧ same_origin r c;
  wf_drawn c : c ∈ created s → ∃ u, u ∈ drawn s ∧ uuid_ok u ∧ tr_id c = uuid_to_string u;
  wf_sent_once : NoDup (sent_ids s);
  wf_sent x i : x ∈ sent s → token x = Some i →
    ∃ c, c ∈ created s ∧ tr_id c = i ∧ entitled c x ∧ (∀ r, r ∈ rows s → tr_id r = i → settled r);
}.

Definition holds (s : Shared) (π : Perm) : Prop :=
  match π with
  | Idle => True
  | Fresh u => u ∈ drawn s ∧ uuid_ok u ∧ uuid_to_string u ∉ tr_id <$> created s
  | Knows c => c ∈ created s
  | Reserved c reservation =>
      c ∈ created s ∧ tr_id c ∉ sent_ids s
      ∧ ∀ r, r ∈ rows s → tr_id r = tr_id c → tr_used_at r ≠ None ∧ reserved_by reservation r = true
  | Permit c => c ∈ created s ∧ tr_id c ∉ sent_ids s ∧ ∀ r, r ∈ rows s → tr_id r = tr_id c → settled r
  | Spent c => c ∈ created s ∧ tr_id c ∈ sent_ids s
  end.

(** At most one program at a time is the owner of an identifier. *)
Definition owned (π : Perm) : option rstr :=
  match π with
  | Fresh u => Some (uuid_to_string u)
  | Reserved c _ | Permit c => Some (tr_id c)
  | _ => None
  end.

Definition exclusive (πs : list Perm) : Prop :=
  ∀ i j π ρ k, πs !! i = Some π → πs !! j = Some ρ → owned π = Some k → owned ρ = Some k → i = j.

Definition Inv (s : Shared) (πs : list Perm) : Prop :=
  wf s ∧ (∀ i π, πs !! i = Some π → holds s π) ∧ exclusive πs.

Definition knows (π : Perm) (s : Shared) : Prop := wf s ∧ holds s π.

(** ** Actions *)

(** A change of the rows: each is dropped or keeps its origin. *)
Definition rows_via (f : TokenRow → option TokenRow) (s s' : Shared) : Prop :=
  s' = set_rows (omap f (rows s)) s ∧ ∀ r r', f r = Some r' → same_origin r' r.

(** On the row of [c] the change establishes [Q]; elsewhere no use is touched. *)
Definition on_row (s : Shared) (c : TokenRow) (f : TokenRow → option TokenRow) (Q : TokenRow → TokenRow → Prop) : Prop :=
  ∀ r r', r ∈ rows s → f r = Some r' → if bool_decide (tr_id r = tr_id c) then Q r r' else use_of r' = use_of r.

Inductive act {E} : Perm → Env E → Shared → Shared → Perm → Prop :=
| act_rates π e s x : act π e s (set_rates x s) π
| act_draw e s : act Idle e s (add_drawn (uuid e) s) (Fresh (uuid e))
| act_insert u e s row :
    tr_id row = uuid_to_string u → tr_id row ∉ tr_id <$> rows s →
    act (Fresh u) e s (add_row row s) Idle
| act_found e s c : c ∈ created s → act Idle e s s (Knows c)
| act_quiet π e s s' f :
    rows_via f s s' → (∀ r r', f r = Some r' → use_of r' = use_of r) → act π e s s' π
| act_use c e s s' f :
    rows_via f s s' → (∃ r, r ∈ rows s ∧ tr_id r = tr_id c ∧ tr_used_at r = None) →
    on_row s c f (fun r r' => tr_used_at r = None → settled r') → act (Knows c) e s s' (Permit c)
| act_reserve c reservation e s s' f :
    rows_via f s s' → (∃ r, r ∈ rows s ∧ tr_id r = tr_id c ∧ tr_used_at r = None) →
    on_row s c f (fun r r' => tr_used_at r = None → tr_used_at r' ≠ None ∧ reserved_by reservation r' = true) →
    act (Knows c) e s s' (Reserved c reservation)
| act_commit c reservation e s s' f :
    rows_via f s s' → on_row s c f (fun r r' => tr_used_at r ≠ None → reserved_by reservation r = true → settled r') →
    act (Reserved c reservation) e s s' (Permit c)
| act_release c reservation e s s' f :
    rows_via f s s' → on_row s c f (fun _ _ => True) → act (Reserved c reservation) e s s' Idle
| act_record π c e s s' f :
    π = Permit c ∨ π = Spent c →
    rows_via f s s' → on_row s c f (fun r r' => tr_used_at r' = tr_used_at r ∧ tr_used_status r' ≠ receiving) → act π e s s' π
| act_send c x e s : token x = Some (tr_id c) → entitled c x → act (Permit c) e s (add_sent x s) (Spent c)
| act_direct π x e s : token x = None → act π e s (add_sent x s) π
| act_forget π e s : act π e s s Idle.

Definition admits {E} (e : Env E) (s : Shared) : Prop := uuid_ok (uuid e) ∧ uuid e ∉ drawn s.

(** ** The actions preserve the invariant *)

(** A step of program [i]: the others keep what they hold, and a newly owned
    identifier had no owner. *)
Lemma inv_update s s' πs i π π' :
  Inv s πs → πs !! i = Some π → wf s' → holds s' π' →
  (∀ ρ, holds s ρ → (∀ k, owned ρ = Some k → owned π ≠ Some k ∧ owned π' ≠ Some k) → holds s' ρ) →
  (∀ k, owned π' = Some k → owned π = Some k ∨ ∀ ρ, ρ ∈ πs → owned ρ ≠ Some k) →
  Inv s' (<[i := π']> πs).
Proof.
  intros (_ & Hh & Hx) Hi Hw Hπ' Hframe Hown. split; [done|].
  assert (∀ j ρ k, j ≠ i → πs !! j = Some ρ → owned ρ = Some k → owned π ≠ Some k ∧ owned π' ≠ Some k) as Hapart.
  { intros j ρ k Hne Hj Hk. assert (owned π ≠ Some k) as Hπ by (intros ?; apply Hne; by eapply Hx).
    split; [done|]. intros Hk'. destruct (Hown k Hk') as [?|Hno]; [done|]. by apply (Hno ρ); [apply list_elem_of_lookup; eauto|]. }
  split.
  - intros j ρ. rewrite list_lookup_insert_Some. intros [(-> & <- & _)|[Hne Hj]]; [done|].
    apply Hframe; [by eapply Hh|]. intros k Hk. by eapply Hapart.
  - intros j1 j2 ρ1 ρ2 k. rewrite !list_lookup_insert_Some.
    intros [(-> & <- & _)|[Hne1 Hj1]] [(-> & <- & _)|[Hne2 Hj2]] Hk1 Hk2; [done| | |by eapply Hx].
    + by destruct (Hapart j2 ρ2 k) as [_ ?].
    + by destruct (Hapart j1 ρ1 k) as [_ ?].
Qed.

Lemma settled_use r r' : use_of r' = use_of r → settled r → settled r'.
Proof. unfold settled, use_of. intros [= -> -> _]. done. Qed.

Lemma reserved_use x r r' : use_of r' = use_of r → reserved_by x r = true → reserved_by x r' = true.
Proof. unfold reserved_by, use_of. intros [= _ -> ->]. done. Qed.

Lemma via_elem f s s' r' :
  rows_via f s s' → r' ∈ rows s' → ∃ r, r ∈ rows s ∧ f r = Some r' ∧ same_origin r' r.
Proof. intros [-> Hf] Hr. cbn in Hr. apply list_elem_of_omap in Hr as (r & Hr & He). eauto. Qed.

Lemma via_ids f s s' : rows_via f s s' → NoDup (tr_id <$> rows s) → NoDup (tr_id <$> rows s').
Proof.
  intros [-> Hf]. cbn. induction (rows s) as [|r l IH]; cbn; [done|]. intros [Hno Hl]%NoDup_cons.
  destruct (f r) as [r'|] eqn:E; cbn; [|by apply IH]. apply NoDup_cons. split; [|by apply IH].
  destruct (Hf _ _ E) as [-> _]. intros Hin. apply Hno. apply list_elem_of_fmap in Hin as (x & Hx & Hin).
  apply list_elem_of_omap in Hin as (y & Hy & Hfy). apply list_elem_of_fmap. exists y. split; [|done].
  rewrite Hx. by destruct (Hf _ _ Hfy).
Qed.

Lemma origin_trans r1 r2 r3 : same_origin r1 r2 → same_origin r2 r3 → same_origin r1 r3.
Proof. unfold same_origin. intuition congruence. Qed.

(** A change of the rows is harmless for what has been sent when it does not
    reopen a settled row. *)
Lemma wf_via f s s' :
  wf s → rows_via f s s' →
  (∀ r r', r ∈ rows s → f r = Some r' → tr_id r ∈ sent_ids s → settled r → settled r') → wf s'.
Proof.
  intros Hw Hvia Hkeep. pose proof Hvia as [-> Hf]. split; cbn.
  - exact (via_ids _ _ _ Hvia (wf_ids _ Hw)).
  - apply Hw.
  - intros r' Hr'. destruct (via_elem _ _ _ r' Hvia Hr') as (r & Hr & _ & Ho).
    destruct (wf_origin _ Hw r Hr) as (c & Hc & Hco). exists c. split; [done|]. by eapply origin_trans.
  - apply Hw.
  - apply Hw.
  - intros x i Hx Hi. destruct (wf_sent _ Hw x i Hx Hi) as (c & Hc & Hid & He & Hset). exists c. repeat split_and?; [done..|].
    intros r' Hr' Hid'. destruct (via_elem _ _ _ r' Hvia Hr') as (r & Hr & Hfr & Ho).
    destruct Ho as [Ho _]. eapply Hkeep; [done|done| |apply Hset; [done|congruence]].
    unfold sent_ids. apply list_elem_of_omap. exists x. rewrite Hi. split; [done|congruence].
Qed.

(** Holdings whose row keeps its use survive a change of the rows. *)
Lemma holds_via f s s' ρ :
  rows_via f s s' → holds s ρ →
  (∀ k r r', owned ρ = Some k → r ∈ rows s → f r = Some r' → tr_id r = k → use_of r' = use_of r) → holds s' ρ.
Proof.
  intros Hvia Hρ Hkeep. pose proof Hvia as [-> Hf]. destruct ρ as [|u|c|c x|c|c]; cbn in *; try done.
  - destruct Hρ as (Hc & Hns & Hr). split_and!; [done..|]. intros r' Hr' Hid.
    destruct (via_elem _ _ _ r' Hvia Hr') as (r & Hin & Hfr & Ho). destruct Ho as [Ho _]. rewrite Ho in Hid.
    pose proof (Hkeep _ r r' eq_refl Hin Hfr Hid) as Hu. destruct (Hr r Hin Hid) as [H1 H2].
    split; [|by eapply reserved_use]. unfold use_of in Hu. congruence.
  - destruct Hρ as (Hc & Hns & Hr). split_and!; [done..|]. intros r' Hr' Hid.
    destruct (via_elem _ _ _ r' Hvia Hr') as (r & Hin & Hfr & Ho). destruct Ho as [Ho _]. rewrite Ho in Hid.
    eapply settled_use; [by eapply (Hkeep _ r r')|by apply Hr].
Qed.

(** Nobody owns a row that is unused, or whose task has been sent. *)
Definition unused (s : Shared) (c : TokenRow) : Prop := ∃ r, r ∈ rows s ∧ tr_id r = tr_id c ∧ tr_used_at r = None.

Lemma unowned s c ρ :
  c ∈ created s → unused s c ∨ tr_id c ∈ sent_ids s → holds s ρ → owned ρ ≠ Some (tr_id c).
Proof.
  intros Hc Hor. destruct ρ as [|u|c'|c' x|c'|c']; cbn; try done.
  - intros (_ & _ & Hno) [= Heq]. apply Hno. rewrite Heq. apply list_elem_of_fmap. by exists c.
  - intros (_ & Hns & Hr) [= Heq]. rewrite Heq in *. destruct Hor as [(r & Hr1 & Hr2 & Hr3)|?]; [|done].
    by destruct (Hr r Hr1 Hr2).
  - intros (_ & Hns & Hr) [= Heq]. rewrite Heq in *. destruct Hor as [(r & Hr1 & Hr2 & Hr3)|?]; [|done].
    by destruct (Hr r Hr1 Hr2).
Qed.

Lemma unused_unsent s c : wf s → unused s c → tr_id c ∉ sent_ids s.
Proof.
  intros Hw (r & Hr & Hid & Hu) (x & Hx & Ht)%list_elem_of_omap.
  destruct (wf_sent _ Hw x _ Hx Ht) as (c' & _ & _ & _ & Hset). by destruct (Hset r Hr Hid).
Qed.

(** The rows of one identifier are one row. *)
Lemma transfer_row_unique s r1 r2 : wf s → r1 ∈ rows s → r2 ∈ rows s → tr_id r1 = tr_id r2 → r1 = r2.
Proof. intros Hw. apply fmap_nodup_elem, Hw. Qed.

(** A change confined to the row of [c], by a program that owns it or when
    nobody does. *)
Lemma inv_rows s s' πs i π π' c f Q :
  Inv s πs → πs !! i = Some π → rows_via f s s' → on_row s c f Q →
  (tr_id c ∈ sent_ids s → ∀ r r', Q r r' → settled r → settled r') →
  (∀ ρ, holds s ρ → owned ρ = Some (tr_id c) → owned π = Some (tr_id c) ∨ owned π' = Some (tr_id c)) →
  holds s' π' → (owned π' = owned π ∨ owned π' = None ∨ (∀ ρ, ρ ∈ πs → owned ρ ≠ owned π')) →
  Inv s' (<[i := π']> πs).
Proof.
  intros HI Hi Hvia Hon Hsent Hown Hπ' Hnew. eapply inv_update; [done..| |done| |].
  - eapply wf_via; [apply HI|done|]. intros r r' Hr Hf Hin Hset. specialize (Hon r r' Hr Hf). case_bool_decide as Hid.
    + eapply Hsent; [by rewrite <-Hid|done..].
    + by eapply settled_use.
  - intros ρ Hρ Hap. eapply holds_via; [done..|]. intros k r r' Hk Hr Hf Hid. specialize (Hon r r' Hr Hf).
    case_bool_decide as Hc; [|done]. exfalso. rewrite Hid in Hc. subst k.
    destruct (Hap _ Hk) as [H1 H2]. rewrite Hc in Hk, H1, H2. by destruct (Hown ρ Hρ Hk).
  - intros k Hk. destruct Hnew as [Heq|[Heq|Hno]]; [left; congruence|congruence|right]. rewrite <-Hk. done.
Qed.

(** What the row of [c] is after a change that establishes [Q] on it. *)
Lemma row_after s s' c f Q (Post : TokenRow → Prop) :
  rows_via f s s' → on_row s c f Q →
  (∀ r r', r ∈ rows s → tr_id r = tr_id c → Q r r' → Post r') →
  ∀ r', r' ∈ rows s' → tr_id r' = tr_id c → Post r'.
Proof.
  intros Hvia Hon HP r' Hr' Hid. destruct (via_elem _ _ _ _ Hvia Hr') as (r & Hr & Hf & Ho). destruct Ho as [Ho _].
  rewrite Ho in Hid. specialize (Hon r r' Hr Hf). rewrite bool_decide_true in Hon by done. by eapply HP.
Qed.

Lemma unused_row s c r : wf s → unused s c → r ∈ rows s → tr_id r = tr_id c → tr_used_at r = None.
Proof. intros Hw (r0 & Hr0 & Hid0 & Hu) Hr Hid. by rewrite (transfer_row_unique s r r0) by congruence. Qed.

Lemma via_created f s s' : rows_via f s s' → created s' = created s ∧ sent_ids s' = sent_ids s ∧ drawn s' = drawn s.
Proof. by intros [-> _]. Qed.

(** Taking an unused row. *)
Lemma inv_take s s' πs i c f Q π' :
  Inv s πs → πs !! i = Some (Knows c) → rows_via f s s' → unused s c → on_row s c f Q →
  (c ∈ created s' → tr_id c ∉ sent_ids s' → (∀ r', r' ∈ rows s' → tr_id r' = tr_id c → ∃ r, tr_used_at r = None ∧ Q r r') → holds s' π') →
  owned π' = Some (tr_id c) → Inv s' (<[i := π']> πs).
Proof.
  intros HI Hi Hvia Hun Hon Hholds Hown. pose proof HI as (Hw & Hh & _). pose proof (Hh _ _ Hi) as Hc. cbn in Hc.
  pose proof (unused_unsent _ _ Hw Hun) as Hns. destruct (via_created _ _ _ Hvia) as (Ec & Es & _).
  eapply inv_rows; [done..| | | |].
  - by intros ?.
  - intros ρ Hρ Hk. by right.
  - apply Hholds; [congruence|congruence|]. eapply row_after; [done..|]. intros r r' Hr Hid HQ. exists r.
    split; [by eapply unused_row|done].
  - right. right. intros ρ (j & Hj)%list_elem_of_lookup. rewrite Hown. eapply unowned; eauto.
Qed.

(** A drawn identifier names no row and is nobody's. *)
Lemma fresh_uncreated s u c : wf s → uuid_ok u → u ∉ drawn s → c ∈ created s → tr_id c ≠ uuid_to_string u.
Proof.
  intros Hw Hok Hno Hc Heq. destruct (wf_drawn _ Hw c Hc) as (v & Hv & Hvok & Hvc).
  apply Hno. by rewrite (uuid_to_string_inj u v) by congruence.
Qed.

Lemma inv_draw {E} (e : Env E) s πs i :
  Inv s πs → admits e s → πs !! i = Some Idle → Inv (add_drawn (uuid e) s) (<[i := Fresh (uuid e)]> πs).
Proof.
  intros HI [Hok Hno] Hi. pose proof HI as (Hw & Hh & _). pose proof (fun c => fresh_uncreated s _ c Hw Hok Hno) as Hun.
  eapply inv_update; [done..| | | |].
  - destruct Hw as [? ? ? Hd ? ?]. split; cbn; try done. intros c Hc. destruct (Hd c Hc) as (u & Hu & ?). exists u.
    split; [by apply elem_of_cons; right|done].
  - cbn. split_and!; [by apply elem_of_cons; left|done|]. intros (c & Hc & Hin)%list_elem_of_fmap. by apply (Hun c).
  - intros ρ Hρ _. destruct ρ; cbn in *; try done. destruct Hρ as (? & ? & ?). split_and!; [by apply elem_of_cons; right|done..].
  - cbn. intros k [= <-]. right. intros ρ (j & Hj)%list_elem_of_lookup. pose proof (Hh _ _ Hj) as Hρ.
    destruct ρ as [|v|c|c x|c|c]; cbn in *; try done; intros [= Hk].
    + destruct Hρ as (Hv & Hvok & _). apply Hno. by rewrite (uuid_to_string_inj (uuid e) v).
    + destruct Hρ as (Hc & _). by apply (Hun c).
    + destruct Hρ as (Hc & _). by apply (Hun c).
Qed.

Lemma nodup_snoc {A} (l : list A) x : NoDup l → x ∉ l → NoDup (l ++ [x]).
Proof.
  intros Hl Hx. apply NoDup_app. split_and!; [done| |apply NoDup_singleton]. by intros y Hy ->%list_elem_of_singleton.
Qed.

Lemma wf_insert s row u :
  wf s → holds s (Fresh u) → tr_id row = uuid_to_string u → tr_id row ∉ tr_id <$> rows s → wf (add_row row s).
Proof.
  intros [W1 W2 W3 W4 W5 W6] (Hu & Huok & Huno) Hid Hnew. split; cbn; try done.
  - rewrite fmap_app. by apply nodup_snoc.
  - rewrite fmap_app. apply nodup_snoc; [done|]. cbn. by rewrite Hid.
  - intros r [Hr| ->%list_elem_of_singleton]%elem_of_app.
    + destruct (W3 r Hr) as (c & ? & ?). exists c. split; [apply elem_of_app; by left|done].
    + exists row. split; [apply elem_of_app; right; by apply list_elem_of_singleton|]. by repeat split.
  - intros c [Hc| ->%list_elem_of_singleton]%elem_of_app; [by apply W4|]. by exists u.
  - intros x k Hx' Hk. destruct (W6 x k Hx' Hk) as (c & Hc & Hck & Hce & Hcs). exists c.
    split_and!; [apply elem_of_app; by left|done..|]. intros r [Hr| ->%list_elem_of_singleton]%elem_of_app Hrk; [by apply Hcs|].
    exfalso. apply Huno. rewrite <-Hid, Hrk, <-Hck. apply list_elem_of_fmap. by exists c.
Qed.

Lemma inv_insert s πs i row u :
  Inv s πs → πs !! i = Some (Fresh u) → tr_id row = uuid_to_string u → tr_id row ∉ tr_id <$> rows s →
  Inv (add_row row s) (<[i := Idle]> πs).
Proof.
  intros HI Hi Hid Hnew. pose proof HI as (Hw & Hh & _). pose proof (Hh _ _ Hi) as Hπ.
  eapply inv_update; [done..|by eapply wf_insert|done| |done]. destruct Hπ as (_ & _ & Huno). intros ρ Hρ Hap.
  assert (∀ c, c ∈ created s → tr_id c ≠ tr_id row) as Hdist.
  { intros c Hc Heq. apply Huno. rewrite <-Hid, <-Heq. apply list_elem_of_fmap. by exists c. }
  assert (∀ c (T : TokenRow → Prop), c ∈ created s → (∀ r, r ∈ rows s → tr_id r = tr_id c → T r) →
    ∀ r, r ∈ rows s ++ [row] → tr_id r = tr_id c → T r) as Hrows.
  { intros c T Hc HT r [Hr| ->%list_elem_of_singleton]%elem_of_app Heq; [by apply HT|]. by destruct (Hdist c Hc). }
  destruct ρ as [|v|c|c y|c|c]; cbn in *; rewrite ?fmap_app, ?elem_of_app; [done| |by left| | |split; [left|]; apply Hρ].
  - destruct Hρ as (? & ? & Hv). split_and!; [done..|]. intros [?| ?%list_elem_of_singleton]; [done|].
    destruct (Hap _ eq_refl) as [Hne _]. congruence.
  - destruct Hρ as (Hc & ? & Hr). split_and!; [by left|done|]. by apply Hrows.
  - destruct Hρ as (Hc & ? & Hr). split_and!; [by left|done|]. by apply Hrows.
Qed.

Lemma inv_send s πs i c x :
  Inv s πs → πs !! i = Some (Permit c) → token x = Some (tr_id c) → entitled c x → Inv (add_sent x s) (<[i := Spent c]> πs).
Proof.
  intros HI Hi Ht He. pose proof HI as (Hw & Hh & _). destruct (Hh _ _ Hi) as (Hc & Hns & Hr).
  assert (sent_ids (add_sent x s) = sent_ids s ++ [tr_id c]) as Eq.
  { unfold sent_ids. cbn. rewrite omap_app. cbn. by rewrite Ht. }
  eapply inv_update; [done..| | | |by intros].
  - destruct Hw as [W1 W2 W3 W4 W5 W6]. split; [done..|rewrite Eq; by apply nodup_snoc|cbn].
    intros y k [Hy| ->%list_elem_of_singleton]%elem_of_app Hk; [by apply W6|]. exists c. split_and!; [done|congruence|done|].
    intros r Hin Hid. apply Hr; [done|congruence].
  - cbn [holds]. rewrite Eq. split; [done|]. apply elem_of_app. right. by apply list_elem_of_singleton.
  - intros ρ Hρ Hap. destruct ρ as [|v|c'|c' y|c'|c']; cbn [holds owned] in *; rewrite ?Eq, ?elem_of_app, ?list_elem_of_singleton; [done..| | |split; [apply Hρ|left; apply Hρ]].
    all: destruct Hρ as (? & ? & ?); split_and!; [done| |done]; intros [?|?]; [done|]; destruct (Hap _ eq_refl); congruence.
Qed.

Lemma inv_direct s πs i π x : Inv s πs → πs !! i = Some π → token x = None → Inv (add_sent x s) (<[i := π]> πs).
Proof.
  intros HI Hi Ht. pose proof HI as (Hw & Hh & _). pose proof (Hh _ _ Hi) as Hπ.
  assert (sent_ids (add_sent x s) = sent_ids s) as Eq.
  { unfold sent_ids. cbn. rewrite omap_app. cbn. rewrite Ht. apply app_nil_r. }
  assert (∀ ρ, holds s ρ → holds (add_sent x s) ρ) as Hf by (intros [] Hρ; cbn [holds] in *; by rewrite ?Eq).
  eapply inv_update; [done..| |by apply Hf|by eauto|by left].
  destruct Hw as [W1 W2 W3 W4 W5 W6]. split; [done..|by rewrite Eq|cbn].
  intros y k [Hy| ->%list_elem_of_singleton]%elem_of_app Hk; [by apply W6|congruence].
Qed.

Lemma inv_record s s' πs i π c f :
  Inv s πs → πs !! i = Some π → π = Permit c ∨ π = Spent c → rows_via f s s' →
  on_row s c f (fun r r' => tr_used_at r' = tr_used_at r ∧ tr_used_status r' ≠ receiving) → Inv s' (<[i := π]> πs).
Proof.
  intros HI Hi Hor Hvia Hon. pose proof HI as (Hw & Hh & _). pose proof (Hh _ _ Hi) as Hπ.
  destruct (via_created _ _ _ Hvia) as (Ec & Es & _). eapply inv_rows; [done..| | | |by left].
  - intros _ r r' [HQ1 HQ2] [Hs _]. split; congruence.
  - intros ρ Hρ Hk. destruct Hor as [-> | ->]; [by left|]. destruct Hπ as [Hc Hin]. exfalso. eapply unowned; eauto.
  - destruct Hor as [-> | ->]; cbn in *; rewrite ?Ec, ?Es; [|done]. destruct Hπ as (? & ? & Hr). split_and!; [done..|].
    eapply row_after; [done..|]. intros r r' Hin Hid [HQ1 HQ2]. destruct (Hr r Hin Hid). split; congruence.
Qed.

Lemma inv_act {E} (e : Env E) s s' πs i π π' :
  Inv s πs → admits e s → πs !! i = Some π → act π e s s' π' → Inv s' (<[i := π']> πs).
Proof.
  intros HI He Hi Hact. pose proof HI as (Hw & Hh & _). pose proof (Hh _ _ Hi) as Hπ.
  destruct Hact as [π e s x|e s|u e s row Hid Hnew|e s c Hc|π e s s' f Hvia Hq|c e s s' f Hvia Hun Hon
    |c x e s s' f Hvia Hun Hon|c x e s s' f Hvia Hon|c x e s s' f Hvia Hon|π c e s s' f Hor Hvia Hon|c x e s Ht Hx|π x e s Ht|π e s].
  - eapply inv_update; [done..| |done|done|by left]. by destruct Hw.
  - by apply inv_draw.
  - by eapply inv_insert.
  - by eapply inv_update.
  - eapply inv_update; [done..| | | |by left].
    + eapply wf_via; [done..|]. intros r r' _ Hf _. by apply settled_use, Hq.
    + eapply holds_via; eauto.
    + intros ρ Hρ _. eapply holds_via; eauto.
  - eapply inv_take; [done..| |done]. intros Hc Hns Hr. cbn. split_and!; [done..|]. intros r' Hr' Hid.
    destruct (Hr r' Hr' Hid) as (r & ? & HQ). by apply HQ.
  - eapply inv_take; [done..| |done]. intros Hc Hns Hr. cbn. split_and!; [done..|]. intros r' Hr' Hid.
    destruct (Hr r' Hr' Hid) as (r & ? & HQ). by apply HQ.
  - destruct Hπ as (Hc & Hns & Hr). destruct (via_created _ _ _ Hvia) as (Ec & Es & _).
    eapply inv_rows; [done..|by intros ?|by left| |by left]. cbn. rewrite Ec, Es. split_and!; [done..|].
    eapply row_after; [done..|]. intros r r' Hin Hid HQ. destruct (Hr r Hin Hid). by apply HQ.
  - destruct Hπ as (Hc & Hns & Hr). eapply inv_rows; [done..|by left|done|]. right. by left.
  - by eapply inv_record.
  - by apply inv_send.
  - by apply inv_direct.
  - by eapply inv_update.
Qed.

Lemma act_same {E} π (e : Env E) s : act π e s s π.
Proof. replace s with (set_rates (rates s) s) at 2 by by destruct s. constructor. Qed.
End permissions.

(** ** The programs act within their permissions *)

Section programs.
Context {E : Type} `{UuidLib, Rfc3339, Auth.Crypto, TransferLib}.

Definition safe {A} (π : Perm) (m : Proc (Env E) Shared A) (Q : A → Perm → Prop) : Prop :=
  wp admits knows act π m Q.

Lemma safe_mono {A} π (m : Proc (Env E) Shared A) (Q Q' : A → Perm → Prop) :
  safe π m Q → (∀ a π', Q a π' → Q' a π') → safe π m Q'.
Proof. intros Hm HQ. by eapply wp_mono. Qed.
Lemma safe_bind {A B} π (m : Proc (Env E) Shared A) (k : A → Proc (Env E) Shared B) Q :
  safe π m (fun a π' => safe π' (k a) Q) → safe π (proc_bind m k) Q.
Proof. apply wp_bind. Qed.
Lemma safe_try {X A B} π (m : P (Env E) Shared X A) (k : A → P (Env E) Shared X B) Q :
  safe π m (fun r π' => match r with Ok a => safe π' (k a) Q | Err e => Q (Err e) π' end) → safe π (m ≫= k) Q.
Proof. apply wp_try. Qed.
Lemma safe_map_err {X Y A} (f : X → Y) π (m : P (Env E) Shared X A) Q :
  safe π m (fun r π' => Q (match r with Ok a => Ok a | Err e => Err (f e) end) π') → safe π (map_err f m) Q.
Proof. intros Hm. apply safe_bind. by eapply safe_mono. Qed.
Lemma safe_ignore {X Y A} π (m : P (Env E) Shared X A) (Q : result Y unit → Perm → Prop) :
  safe π m (fun _ π' => Q (Ok ()) π') → safe π (ignore m) Q.
Proof. intros Hm. apply safe_bind. by eapply safe_mono. Qed.
Lemma safe_of_result {X A} π (r : result X A) Q : Q r π → safe π (of_result r : P (Env E) Shared X A) Q.
Proof. done. Qed.
Lemma safe_atomic {X A} π (f : Env E → Shared → result X A * Shared) Q :
  (∀ e s, admits e s → knows π s → ∃ π', act π e s (f e s).2 π' ∧ Q (f e s).1 π') → safe π (atomic f) Q.
Proof. intros Hf e s He Hk. destruct (Hf e s He Hk) as (π' & ? & ?). by exists π'. Qed.
Lemma safe_sql {A} π (f : Env E → Shared → result Tables.Why A * Shared) Q :
  (∀ x, Q (Err x) π) →
  (∀ e s, admits e s → knows π s →
     match f e s with (Ok a, s') => ∃ π', act π e s s' π' ∧ Q (Ok a) π' | (Err w, _) => True end) →
  safe π (sql f) Q.
Proof.
  intros Herr Hf. apply safe_atomic. intros e s He Hk. specialize (Hf e s He Hk).
  destruct (fault e); [exists π; split; [apply act_same|apply Herr]|].
  destruct (f e s) as [[a|w] s']; [done|]. exists π. split; [apply act_same|apply Herr].
Qed.

(** Programs that only look. *)
Definition neutral {A} (m : Proc (Env E) Shared A) : Prop := ∀ π, safe π m (fun _ π' => π' = π).

Lemma neutral_safe {A} π (m : Proc (Env E) Shared A) (Q : A → Perm → Prop) : neutral m → (∀ a, Q a π) → safe π m Q.
Proof. intros Hm HQ. eapply safe_mono; [apply Hm|]. by intros a ? ->. Qed.
Lemma neutral_ret {A} (a : A) : neutral (Ret a).
Proof. by intros π. Qed.
Lemma neutral_mret {X A} (a : A) : neutral (mret a : P (Env E) Shared X A).
Proof. by intros π. Qed.
Lemma neutral_observe {X A} (f : Env E → A) : neutral (observe f : P (Env E) Shared X A).
Proof. intros π e s _ _. exists π. split; [apply act_same|done]. Qed.
Lemma neutral_bind {A B} (m : Proc (Env E) Shared A) (k : A → Proc (Env E) Shared B) :
  neutral m → (∀ a, neutral (k a)) → neutral (proc_bind m k).
Proof. intros Hm Hk π. apply safe_bind. apply neutral_safe; [done|]. intros a. apply Hk. Qed.
Lemma neutral_try {X A B} (m : P (Env E) Shared X A) (k : A → P (Env E) Shared X B) :
  neutral m → (∀ a, neutral (k a)) → neutral (m ≫= k).
Proof. intros Hm Hk. apply neutral_bind; [done|]. intros [a|x]; [done|apply neutral_ret]. Qed.
Lemma neutral_read_rows {A} (f : Shared → result Tables.Why A) : neutral (sql (fun _ s => (f s, s)) : P (Env E) Shared _ A).
Proof. intros π. apply safe_sql; [done|]. intros e s _ _. destruct (f s); [|done]. exists π. split; [apply act_same|done]. Qed.
Lemma neutral_rate token : neutral (check_rate_limit token : P (Env E) Shared _ unit).
Proof.
  intros π. apply safe_atomic. intros e s _ _. destruct (check_rate_limit_in _ _ _) as [r x]. exists π. split; [constructor|done].
Qed.
End programs.

Create HintDb neutral discriminated.
#[export] Hint Resolve neutral_ret neutral_mret neutral_observe neutral_read_rows neutral_rate : neutral.
#[export] Hint Extern 1 (neutral (of_result _)) => apply neutral_ret : neutral.
#[export] Hint Extern 1 (neutral (throw _)) => apply neutral_ret : neutral.

(** Straight-line programs: split binds and branches, close the rest by hints. *)
Ltac neutral :=
  repeat first
    [ done
    | solve [auto 2 with neutral]
    | progress intros
    | apply neutral_try
    | apply neutral_bind
    | match goal with |- neutral (if ?b then _ else _) => destruct b end
    | match goal with |- neutral (match ?x with _ => _ end) => destruct x end ].

Section transfers.
Context {E : Type} `{UuidLib, Rfc3339, Auth.Crypto, TransferLib}.
Abbreviation PE X := (P (Env E) Shared X).

(** A record decoded from the row created as [c]. *)
Definition record_of (t : TemporaryTransferToken) (c : TokenRow) : Prop :=
  id t = tr_id c ∧ uuid_parse (tr_server_id c) = Some (server_id t) ∧ path t = tr_path c ∧ op t = tr_op c.

Lemma decode_record r c t : sqlite_row_to_token r = Some t → same_origin r c → record_of t c.
Proof.
  unfold sqlite_row_to_token, same_origin, record_of. intros Hd (Hid & _ & Hs & Hp & Ho & _).
  destruct (uuid_parse (tr_server_id r)) as [server|] eqn:Es; [cbn in Hd|done].
  repeat (match type of Hd with (?x ≫= _) = _ => destruct x; [cbn in Hd|done] end).
  injection Hd as <-. cbn. rewrite <-Hs. done.
Qed.

Lemma neutral_issuer (t : TemporaryTransferToken) : neutral (validate_transfer_issuer t : PE _ unit).
Proof. unfold validate_transfer_issuer, issuer_session, read, required. neutral. Qed.

Lemma safe_find_by_token_hash hash :
  safe Idle (find_by_token_hash hash : PE _ (option TemporaryTransferToken))
    (fun r π => match r with Ok (Some t) => ∃ c, π = Knows c ∧ record_of t c | _ => π = Idle end).
Proof.
  unfold find_by_token_hash. destruct (is_empty _); [done|]. apply safe_try. apply safe_sql; [done|].
  intros e s _ [Hw _]. cbn. destruct (head _) as [row|] eqn:Eh; [|exists Idle; split; [apply act_same|done]].
  apply head_Some_elem_of in Eh. apply list_elem_of_filter in Eh as [_ Hin]. destruct (wf_origin _ Hw row Hin) as (c & Hc & Ho).
  cbn. destruct (sqlite_row_to_token row) as [t|] eqn:Ed; [|exists Idle; split; [apply act_same|done]].
  exists (Knows c). split; [by apply act_found|]. exists c. split; [done|]. by eapply decode_record.
Qed.

(** A validated transfer is one of the row created as [c], for operation [o]. *)
Definition transfer_of (v : ValidatedTemporaryTransfer) (o : rstr) (c : TokenRow) : Prop :=
  v_token_id v = tr_id c ∧ uuid_parse (v_server_id v) = uuid_parse (tr_server_id c) ∧ v_path v = tr_path c ∧ tr_op c = o.

Lemma record_state_op t o now : validate_transfer_record_state t o now = Ok () → op t = o.
Proof.
  unfold validate_transfer_record_state. destruct (if bool_decide (o = lit "download") then _ else _); [|done].
  case_bool_decide; [done|]. done.
Qed.

Lemma safe_validate token o :
  safe Idle (validate_temporary_transfer token o : PE _ _)
    (fun r π => match r with Ok v => ∃ c, π = Knows c ∧ transfer_of v o c | Err _ => True end).
Proof.
  unfold validate_temporary_transfer. destruct (negb _); [done|]. apply safe_try, safe_map_err.
  eapply safe_mono; [apply safe_find_by_token_hash|]. intros [[t|]|x] π; [|by intros ->|by intros ->].
  intros (c & -> & Hid & Hs & Hp & Ho). apply safe_try, safe_of_result. cbn [ok_or].
  apply safe_try. apply neutral_safe; [neutral|]. intros [now|]; [|done].
  apply safe_try, safe_of_result. destruct (validate_transfer_record_state t o now) as [[]|] eqn:Ev; [|done].
  apply safe_try. apply neutral_safe; [apply neutral_issuer|]. intros [[]|]; [|done]. exists c. split; [done|].
  apply record_state_op in Ev. repeat split; cbn; [done| |done|congruence].
  rewrite Hs, uuid_roundtrip; [done|]. by eapply uuid_parse_ok.
Qed.

(** An [UPDATE] as an action. *)
Lemma update_via (hit : TokenRow → bool) (f : TokenRow → TokenRow) s :
  (∀ r, same_origin (f r) r) →
  rows_via (fun r => Some (if hit r then f r else r)) s (set_rows ((fun r => if hit r then f r else r) <$> rows s) s).
Proof.
  intros Hf. split; [done|]. intros r r' [= <-]. destruct (hit r); [done|by repeat split].
Qed.

Lemma hits_one (hit : TokenRow → bool) s :
  zlen (filter (fun r => hit r = true) (rows s)) = 1 → ∃ r, r ∈ rows s ∧ hit r = true.
Proof.
  destruct (filter _ (rows s)) as [|r l] eqn:Ef; [done|]. intros _. exists r.
  assert (r ∈ filter (fun r => hit r = true) (rows s)) as [? ?]%list_elem_of_filter by (rewrite Ef; by left). done.
Qed.

Lemma hits_none (hit : TokenRow → bool) k s :
  wf s → (∀ r, hit r = true → tr_id r = k) → zlen (filter (fun r => hit r = true) (rows s)) ≠ 1 →
  ∀ r, r ∈ rows s → hit r = false.
Proof.
  intros Hw Hk Hne r Hr. destruct (hit r) eqn:Eh; [|done]. exfalso. apply Hne.
  assert (∀ x, x ∈ filter (fun r => hit r = true) (rows s) → x = r) as Hall.
  { intros x [Hx Hxr]%list_elem_of_filter. apply (transfer_row_unique s); [done..|]. by rewrite !Hk. }
  assert (NoDup (filter (fun r => hit r = true) (rows s))) as Hnd.
  { apply NoDup_filter. by eapply NoDup_fmap_1, wf_ids. }
  assert (r ∈ filter (fun r => hit r = true) (rows s)) as Hin by by apply list_elem_of_filter.
  destruct (filter _ _) as [|x [|y l]]; [by apply not_elem_of_nil in Hin|done|]. exfalso.
  apply NoDup_cons in Hnd as [Hno _]. apply Hno. rewrite (Hall x), (Hall y) by (rewrite !elem_of_cons; tauto). by left.
Qed.

(** A statement on the row of [c]: [1] when it hit it, [0] and no change otherwise. *)
Lemma safe_update π c hit f (Q : result (Tables.Anyhow E) bool → Perm → Prop) :
  (∀ e r, same_origin (f e r) r) → (∀ e r, hit e r = true → tr_id r = tr_id c) →
  (∀ x, Q (Err x) π) → Q (Ok false) π →
  (∀ e s s', admits e s → knows π s → rows_via (fun r => Some (if hit e r then f e r else r)) s s' →
     (∃ r, r ∈ rows s ∧ hit e r = true) → ∃ π', act π e s s' π' ∧ Q (Ok true) π') →
  safe π (update hit f) Q.
Proof.
  intros Hf Hk Herr Hfalse Htrue. apply safe_sql; [done|]. intros e s He Hkn.
  destruct (_ =? 1) eqn:Eq; [apply Z.eqb_eq in Eq|apply Z.eqb_neq in Eq].
  - apply Htrue; [done..|by apply update_via|]. by apply (hits_one (hit e)).
  - exists π. split; [|done]. pose proof (hits_none (hit e) _ s (proj1 Hkn) (Hk e) Eq) as Hnone.
    replace ((fun r => if hit e r then f e r else r) <$> rows s) with (rows s).
    + replace (set_rows (rows s) s) with s by by destruct s. apply act_same.
    + clear -Hnone. induction (rows s) as [|r l IH]; cbn; [done|]. rewrite (Hnone r) by by left.
      f_equal. apply IH. intros x Hx. apply Hnone. by right.
Qed.

Lemma on_row_update s c (hit : TokenRow → bool) f (Q : TokenRow → TokenRow → Prop) :
  (∀ r, hit r = true → tr_id r = tr_id c) → (∀ r, r ∈ rows s → tr_id r = tr_id c → Q r (if hit r then f r else r)) →
  on_row s c (fun r => Some (if hit r then f r else r)) Q.
Proof.
  intros Hk HQ r r' Hr [= <-]. case_bool_decide as Hid; [by apply HQ|]. destruct (hit r) eqn:Eh; [|done]. by apply Hk in Eh.
Qed.

Lemma origin_use used ip status task r : same_origin (with_use used ip status task r) r.
Proof. by repeat split. Qed.
Lemma origin_result status task err r : same_origin (with_result status task err r) r.
Proof. by repeat split. Qed.

Lemma usable_unused now r : usable now r = true → tr_used_at r = None.
Proof. unfold usable. rewrite !andb_true_iff, bool_decide_eq_true. tauto. Qed.

(** The row of [c] is unused, so every row of that identifier satisfies the guard. *)
Lemma hit_all s c (hit : TokenRow → bool) r0 r :
  wf s → (∀ r, hit r = true → tr_id r = tr_id c) → r0 ∈ rows s → hit r0 = true → r ∈ rows s → tr_id r = tr_id c → hit r = true.
Proof. intros Hw Hk Hr0 Hh Hr Hid. by rewrite (transfer_row_unique s r r0) by (rewrite ?(Hk r0); done). Qed.

(** Taking the row of [c] by a statement whose guard requires it to be unused. *)
Lemma take_row s c (hit : TokenRow → bool) f (Q : TokenRow → Prop) :
  wf s → (∀ r, hit r = true → tr_id r = tr_id c ∧ tr_used_at r = None) → (∃ r, r ∈ rows s ∧ hit r = true) → (∀ r, Q (f r)) →
  unused s c ∧ on_row s c (fun r => Some (if hit r then f r else r)) (fun r r' => tr_used_at r = None → Q r').
Proof.
  intros Hw Hk (r0 & Hr0 & Hh0) HQ. destruct (Hk r0 Hh0) as [Hid0 Hu0]. split; [by exists r0|].
  apply on_row_update; [intros r Hr; by destruct (Hk r Hr)|]. intros r Hr Hid _.
  by rewrite (hit_all s c hit r0 r) by (first [done|intros x Hx; by destruct (Hk x Hx)]).
Qed.

Lemma safe_consume c ip :
  safe (Knows c) (consume_temporary_transfer (tr_id c) ip : PE _ unit)
    (fun r π => match r with Ok _ => π = Permit c | Err _ => True end).
Proof.
  apply safe_try, safe_map_err. unfold mark_used_once. apply safe_try.
  apply neutral_safe; [neutral|]. intros [now|]; [|done].
  assert (∀ r, bool_decide (tr_id r = tr_id c) && usable (to_rfc3339 now) r = true → tr_id r = tr_id c ∧ tr_used_at r = None) as Hk.
  { intros r [Hid%bool_decide_eq_true Hu%usable_unused]%andb_true_iff. done. }
  apply (safe_update _ c); [by intros; apply origin_use|intros e r Hr; by destruct (Hk r Hr)|done|done|].
  intros e s s' He [Hw _] Hvia Hhit. exists (Permit c). split; [|done].
  destruct (take_row s c _ (fun r => with_use (Some (to_rfc3339 now)) ip (Some (lit "started")) (tr_agent_task_id r) r) settled Hw Hk Hhit)
    as [Hun Hon]; [done|]. by eapply act_use.
Qed.

Lemma safe_reserve c ip reservation :
  safe (Knows c) (reserve_temporary_upload (tr_id c) ip reservation : PE _ unit)
    (fun r π => match r with Ok _ => π = Reserved c reservation | Err _ => True end).
Proof.
  apply safe_try, safe_map_err. unfold reserve_upload_once. apply safe_try.
  apply neutral_safe; [neutral|]. intros [now|]; [|done].
  assert (∀ r, bool_decide (tr_id r = tr_id c) && bool_decide (tr_op r = lit "upload") && usable (to_rfc3339 now) r = true →
    tr_id r = tr_id c ∧ tr_used_at r = None) as Hk.
  { intros r [[Hid%bool_decide_eq_true _]%andb_true_iff Hu%usable_unused]%andb_true_iff. done. }
  apply (safe_update _ c); [by intros; apply origin_use|intros e r Hr; by destruct (Hk r Hr)|done|done|].
  intros e s s' He [Hw _] Hvia Hhit. exists (Reserved c reservation). split; [|done].
  destruct (take_row s c _ (with_use (Some (to_rfc3339 now)) ip (Some (lit "receiving")) (Some reservation))
    (fun r' => tr_used_at r' ≠ None ∧ reserved_by reservation r' = true) Hw Hk Hhit) as [Hun Hon].
  { intros r. split; [done|]. unfold reserved_by. cbn. by rewrite !bool_decide_true. }
  by eapply act_reserve.
Qed.

Lemma hit_id {k : rstr} {b : bool} r : bool_decide (tr_id r = k) && b = true → tr_id r = k.
Proof. by intros [?%bool_decide_eq_true _]%andb_true_iff. Qed.

Lemma safe_release c reservation (Q : result Failure unit → Perm → Prop) :
  (∀ r π, Q r π) → safe (Reserved c reservation) (release_temporary_upload (tr_id c) reservation : PE _ unit) Q.
Proof.
  intros HQ. apply safe_ignore. unfold release_upload_reservation.
  apply (safe_update _ c); [by intros; apply origin_use|by intros e r ?%hit_id|done|done|].
  intros e s s' He [Hw _] Hvia Hhit. exists Idle. split; [|done]. eapply act_release; [done|].
  apply (on_row_update s c (fun r => bool_decide (tr_id r = tr_id c) && reserved_by reservation r) (with_use None None None None)); [by intros r ?%hit_id|done].
Qed.

Lemma safe_commit c reservation :
  safe (Reserved c reservation) (commit_temporary_upload (tr_id c) reservation : PE _ unit)
    (fun r π => match r with Ok _ => π = Permit c | Err _ => True end).
Proof.
  apply safe_try, safe_map_err. unfold commit_upload_reservation. apply safe_try.
  apply neutral_safe; [neutral|]. intros [now|]; [|done].
  assert (∀ r, bool_decide (tr_id r = tr_id c) && reserved_by reservation r && bool_decide (tr_revoked_at r = None)
    && (julianday (to_rfc3339 now) <? julianday (tr_expires_at r)) = true → tr_id r = tr_id c) as Hk.
  { intros r. rewrite !andb_true_iff, bool_decide_eq_true. tauto. }
  apply (safe_update _ c); [by intros; apply origin_use|by intros e r Hr%Hk|done| |].
  { apply safe_try, safe_release. by intros [[]|] π. }
  intros e s s' He [Hw Hh] Hvia (r0 & Hr0 & Hh0). exists (Permit c). split; [|done]. eapply act_commit; [done|].
  apply (on_row_update s c _ (fun r => with_use (tr_used_at r) (tr_used_ip r) (Some (lit "started")) None r)); [done|].
  intros r Hr Hid Hu Hres. by rewrite (hit_all s c _ r0 r Hw Hk Hr0 Hh0 Hr Hid).
Qed.

Lemma safe_record π c status task err (Q : result Failure unit → Perm → Prop) :
  π = Permit c ∨ π = Spent c → status ≠ lit "receiving" → (∀ r, Q r π) →
  safe π (record_temporary_transfer_result (tr_id c) status task err : PE _ unit) Q.
Proof.
  intros Hor Hst HQ. apply safe_ignore. unfold record_use_result. apply safe_try.
  apply (safe_update _ c); [by intros; apply origin_result|by intros e r ?%bool_decide_eq_true|done|by apply HQ|].
  intros e s s' He _ Hvia _. exists π. split; [|by apply HQ]. eapply act_record; [done..|].
  apply (on_row_update s c (fun r => bool_decide (tr_id r = tr_id c))); [by intros r ?%bool_decide_eq_true|].
  intros r Hr Hid. rewrite bool_decide_true by done. split; [done|]. cbn. unfold receiving. congruence.
Qed.

Definition entitled_task (c : TokenRow) (agent : Z) (task : FileTask) : Prop :=
  entitled c {| token := Some (tr_id c); recipient := agent; message := FileMessage task |}.

Lemma safe_dispatch c server task :
  (∀ agent, uuid_parse server = Some agent → entitled_task c agent task) →
  safe (Permit c) (dispatch_server_task (tr_id c) server task : PE _ _)
    (fun r π => match r with Ok _ => π = Spent c | Err _ => π = Permit c ∨ π = Spent c end).
Proof.
  intros Hent. unfold dispatch_server_task. destruct (uuid_parse server) as [agent|]; [|by left].
  apply safe_try. apply neutral_safe; [neutral|]. intros [[]|]; [|by left..]. cbn [negb].
  apply safe_try. apply neutral_safe; [neutral|]. intros [run|]; [|by left].
  apply safe_try. apply safe_atomic. intros e s _ _. destruct (send_error e).
  { exists (Permit c). split; [apply act_same|by left]. }
  exists (Spent c). split; [apply act_send; [done|by apply Hent]|]. apply safe_try. apply neutral_safe; [neutral|].
  intros [[r| |]|]; [done|by right..].
Qed.

Lemma safe_or_record {A} π c run (r : result Failure A) (Q : result Failure A → Perm → Prop) :
  π = Permit c ∨ π = Spent c → (∀ a, r = Ok a → Q (Ok a) π) → (∀ f, Q (Err f) π) → safe π (or_record (tr_id c) run r : PE _ A) Q.
Proof.
  intros Hor HQ HE. unfold or_record. destruct r as [a|f]; [by apply HQ|]. apply safe_try.
  apply (safe_record _ c); [done|done|]. intros [[]|]; apply HE.
Qed.

Lemma safe_dispatch_or_record c server task :
  (∀ agent, uuid_parse server = Some agent → entitled_task c agent task) →
  safe (Permit c) (dispatch_or_record (tr_id c) server task : PE _ _)
    (fun r π => match r with Ok _ => π = Spent c | Err _ => True end).
Proof.
  intros Hent. apply safe_bind. eapply safe_mono; [by apply safe_dispatch|]. intros [d|x] π; [by intros ->|].
  intros Hor. by apply safe_or_record.
Qed.

(** What both handlers do with the Agent's answer. *)
Lemma safe_finish {A B} c run (r : result Failure A) (k : A → B) :
  safe (Spent c) ((x ← or_record (tr_id c) (Some run) r;
                   record_temporary_transfer_result (tr_id c) (lit "success") (Some run) None;; mret (k x)) : PE _ B)
    (fun _ _ => True).
Proof.
  apply safe_try. apply safe_or_record; [by right| |done]. intros a _. apply safe_try.
  apply safe_record; [by right|done|]. by intros [[]|].
Qed.

Lemma safe_download token ip : safe Idle (run_temp_download token ip : PE _ Response) (fun _ _ => True).
Proof.
  unfold run_temp_download. apply safe_try. apply neutral_safe; [neutral|]. intros [[]|]; [|done].
  apply safe_try. eapply safe_mono; [apply safe_validate|]. intros [v|] π; [|done].
  intros (c & -> & Hid & Hs & Hp & Ho). rewrite Hid. apply safe_try. apply neutral_safe; [neutral|]. intros [[]|]; [|done].
  apply safe_try. eapply safe_mono; [apply safe_consume|]. intros [[]|] π; [intros ->|done].
  apply safe_try. eapply safe_mono; [apply safe_dispatch_or_record|].
  { intros agent Ha. rewrite Hp. split; cbn; [congruence|]. by left. }
  intros [[run r]|] π; [intros ->|done]. exact (safe_finish c run _ (fun x => x)).
Qed.

Lemma body_bound body data : read_limited_body body TEMP_TRANSFER_MAX_BYTES = Ok data → zlen data <= TEMP_TRANSFER_MAX_BYTES.
Proof.
  unfold read_limited_body. destruct (to_bytes _ _) as [d|]; [|done]. destruct (_ <? zlen d) eqn:El; [done|].
  intros [= <-]. by apply Z.ltb_ge in El.
Qed.

Lemma safe_upload token ip body : safe Idle (run_temp_upload token ip body : PE _ Response) (fun _ _ => True).
Proof.
  unfold run_temp_upload. apply safe_try. apply neutral_safe; [neutral|]. intros [[]|]; [|done].
  apply safe_try. eapply safe_mono; [apply safe_validate|]. intros [v|] π; [|done].
  intros (c & -> & Hid & Hs & Hp & Ho). rewrite Hid. apply safe_try. apply neutral_safe; [neutral|]. intros [[]|]; [|done].
  apply safe_try. apply neutral_safe; [neutral|]. intros [reservation|]; [|done].
  apply safe_try. eapply safe_mono; [apply safe_reserve|]. intros [[]|] π; [intros ->|done].
  apply safe_try. destruct (read_limited_body _ _) as [data|f] eqn:Eb; [|apply safe_try, safe_release; by intros [[]|]].
  apply safe_try. eapply safe_mono; [apply safe_commit|]. intros [[]|] π; [intros ->|done].
  apply safe_try. eapply safe_mono; [apply safe_dispatch_or_record|].
  { intros agent Ha. rewrite Hp. split; cbn; [congruence|]. right. split; [done|]. exists data. split; [by eapply body_bound|done]. }
  intros [[run r]|] π; [intros ->|done].
  exact (safe_finish c run _ (fun written => {| status := OK; headers := _; payload := JsonUploaded _ _ written |})).
Qed.

Lemma safe_draw : safe Idle (draw : PE _ Z) (fun r π => match r with Ok u => π = Fresh u | Err _ => False end).
Proof. intros e s _ _. exists (Fresh (uuid e)). split; [apply act_draw|done]. Qed.

Lemma safe_create input : safe Idle (create input : PE _ _) (fun _ _ => True).
Proof.
  unfold create. apply safe_try. eapply safe_mono; [apply safe_draw|]. intros [u|] π; [intros ->|done].
  apply safe_try. apply neutral_safe; [neutral|]. intros [now|]; [|done]. apply safe_try. apply safe_sql; [done|].
  intros e' s' _ _. unfold insert_row. case_bool_decide as Hin; [done|]. destruct (_ || _); [done|].
  exists Idle. split; [|done]. apply act_insert; [done|]. cbn. tauto.
Qed.

Lemma safe_revoke key : safe Idle (revoke key : PE _ bool) (fun _ π => π = Idle).
Proof.
  unfold revoke. apply safe_try. apply neutral_safe; [neutral|]. intros [now|]; [|done]. apply safe_sql; [done|].
  intros e s _ _. exists Idle. split; [|done].
  eapply act_quiet; [apply (update_via (fun r => bool_decide (tr_id r = key ∧ tr_revoked_at r = None)) (with_revoked (to_rfc3339 now))); by repeat split|].
  cbn. intros r r' [= <-]. by destruct (bool_decide _).
Qed.

Lemma safe_cascade p : safe Idle (cascade p : PE _ unit) (fun _ _ => True).
Proof.
  apply safe_sql; [done|]. intros e s _ _. exists Idle. split; [|done]. eapply (act_quiet _ _ _ _ (on_parent_deleted p)).
  - split; [done|]. intros r r'. destruct p; cbn; try case_bool_decide; intros [= <-]; by repeat split.
  - intros r r'. destruct p; cbn; try case_bool_decide; by intros [= <-].
Qed.
End transfers.

(** ** The rate limiter *)

Section rates.
Context `{TransferLib}.

Lemma min_by_start_elem best l : min_by_start best l ∈ best :: l.
Proof.
  revert best. induction l as [|x l IH]; intros best; cbn; [by left|].
  destruct (_ <? _); (eapply elem_of_subseteq; [|apply IH]); set_solver.
Qed.

Lemma oldest_elem m k : oldest_key m = Some k → is_Some (m !! k).
Proof.
  unfold oldest_key. pose proof (iter_perm m) as Hp. destruct (iter m) as [|x l]; [done|]. intros [= <-].
  pose proof (min_by_start_elem x l) as Hin. rewrite Hp in Hin. destruct (min_by_start x l) as [k v].
  apply elem_of_map_to_list in Hin. by exists v.
Qed.

Lemma oldest_none m : oldest_key m = None → m = ∅.
Proof.
  unfold oldest_key. pose proof (iter_perm m) as Hp. destruct (iter m) as [|x l]; [|done]. intros _.
  apply map_to_list_empty_iff. by apply Permutation_nil_l in Hp.
Qed.

Lemma insert_bound (m : gmap rstr (Z * Z)) k v :
  Z.of_nat (size m) <= MAX_TEMP_TRANSFER_RATE_ENTRIES →
  Z.of_nat (size (<[k := v]> (if full_for k m then match oldest_key m with Some o => delete o m | None => m end else m)))
    <= MAX_TEMP_TRANSFER_RATE_ENTRIES.
Proof.
  unfold full_for, MAX_TEMP_TRANSFER_RATE_ENTRIES. intros Hm. case_bool_decide as Hk; cbn [andb].
  - destruct (4096 <=? _) eqn:El; [|rewrite map_size_insert_None by done; lia].
    destruct (oldest_key m) as [o|] eqn:Eo.
    + apply oldest_elem in Eo as [w Hw]. rewrite map_size_insert_None by (rewrite lookup_delete_ne by congruence; done).
      rewrite map_size_delete_Some by by exists w. lia.
    + apply oldest_none in Eo as ->. rewrite map_size_empty in El. done.
  - rewrite map_size_insert_Some; [lia|]. by destruct (m !! k) eqn:E0; [eexists|].
Qed.

Lemma check_bound st k now :
  Z.of_nat (size (entries st)) <= MAX_TEMP_TRANSFER_RATE_ENTRIES →
  Z.of_nat (size (entries (check_rate_limit_in st k now).2)) <= MAX_TEMP_TRANSFER_RATE_ENTRIES.
Proof.
  intros Hb. unfold check_rate_limit_in.
  match goal with |- context [if ?c then (filter ?P ?m, 0) else ?y] =>
    assert (∃ m' checks', (if c then (filter P m, 0) else y) = (m', checks') ∧ Z.of_nat (size m') <= MAX_TEMP_TRANSFER_RATE_ENTRIES)
      as (m' & checks' & -> & Hm') end.
  { destruct (_ || _); [|by eauto]. eexists _, _. split; [done|]. etrans; [|exact Hb]. apply inj_le, map_size_filter. }
  destruct (default _ _) as [started count]. match goal with |- context [let '(a, b) := (if ?c then (now, 0) else ?y) in _] => destruct (if c then (now, 0) else y) end.
  cbn. by apply insert_bound.
Qed.

(** The rate limiter of the temporary URLs keeps at most 4096 entries, whatever
    keys (client addresses and tokens chosen by clients) it is asked about, at
    whatever times, clock steps backwards included. *)
Theorem rate_entries_bounded (calls : list (rstr * Z)) :
  Z.of_nat (size (entries (foldl (fun st call => (check_rate_limit_in st call.1 call.2).2)
    {| entries := ∅; checks_since_cleanup := 0 |} calls))) <= MAX_TEMP_TRANSFER_RATE_ENTRIES.
Proof.
  cut (∀ st, Z.of_nat (size (entries st)) <= MAX_TEMP_TRANSFER_RATE_ENTRIES →
    Z.of_nat (size (entries (foldl (fun st call => (check_rate_limit_in st call.1 call.2).2) st calls))) <= MAX_TEMP_TRANSFER_RATE_ENTRIES).
  { intros Hst. by apply Hst. }
  induction calls as [|call calls IH]; intros st Hst; cbn; [done|]. by apply IH, check_bound.
Qed.
End rates.

(** ** From the Agent's file to the client *)

Section delivery.
Context `{TransferLib}.

(** What an Agent answers to a successful [FileRead] ([main.rs]). *)
Definition file_reply (data : list Z) : IoStreams.TaskResult :=
  {| IoStreams.t_task_id := []; IoStreams.status := 1; IoStreams.exit_code := 0; IoStreams.stdout := Base64.base64_encode data;
     IoStreams.stderr := []; IoStreams.error := []; IoStreams.started_at := 0; IoStreams.finished_at := 0; IoStreams.t_agent_id := [] |}.

Lemma symbol_plain n k : is_whitespace (Base64.symbol n k) = false.
Proof.
  unfold Base64.symbol. set (i := Z.to_nat (Z.land (Z.shiftr n k) 63)). destruct (decide (i < 64)%nat) as [Hi|Hi].
  - assert (forallb (fun c => negb (is_whitespace c)) Base64.ALPH = true) as Ha by by vm_compute.
    rewrite forallb_In in Ha. apply negb_true_iff, Ha, list_elem_of_In, nth_In. done.
  - rewrite nth_overflow; [by vm_compute|]. change (length Base64.ALPH) with 64%nat. lia.
Qed.

Lemma encode_plain data : Forall (fun c => is_whitespace c = false) (Base64.base64_encode data).
Proof.
  induction data as [|a|a b|a b c l IH] using Base64.triples_ind; cbn [Base64.base64_encode];
    repeat constructor; try apply symbol_plain; try (by vm_compute); done.
Qed.

Lemma header_here k v h : (k, v) ∈ insert_header k v h.
Proof. unfold insert_header. rewrite elem_of_app, list_elem_of_singleton. by right. Qed.
Lemma header_kept k v k' v' h : k ≠ k' → (k, v) ∈ h → (k, v) ∈ insert_header k' v' h.
Proof. intros Hne Hin. unfold insert_header. rewrite elem_of_app, list_elem_of_filter. by left. Qed.

(** *** Header values

    What [HeaderValue::from_str] documents to accept: visible ASCII characters. *)
Definition visible_ascii (v : rstr) : Prop := Forall (fun c => 32 <= c < 127) v.

Lemma sanitize_char_visible c : 32 <= sanitize_char c < 127.
Proof.
  unfold sanitize_char. destruct (contains c _); [lia|]. destruct (is_control c || negb (c <? 128)) eqn:Eb; [lia|].
  unfold is_control in Eb. lia.
Qed.
Lemma sanitize_filename_visible name : visible_ascii (sanitize_filename name).
Proof.
  unfold sanitize_filename. destruct (_ || _); [apply (bool_decide_unpack _); by vm_compute|]. apply Forall_forall. intros c Hc%trim_by_elem.
  apply subseteq_take in Hc. apply list_elem_of_fmap in Hc as (d & -> & _). apply sanitize_char_visible.
Qed.
Lemma dec_digits_visible n z : 0 <= z → visible_ascii (dec_digits n z).
Proof.
  revert z. induction n as [|n IH]; intros z Hz; cbn [dec_digits]; [constructor|]. apply Forall_app. split.
  - destruct (z <? 10); [constructor|]. apply IH. Z.to_euclidean_division_equations; lia.
  - repeat constructor; Z.to_euclidean_division_equations; lia.
Qed.
Lemma print_visible n : 0 <= n → visible_ascii (print_i64 n).
Proof. intros Hn. unfold print_i64. destruct (Z.ltb_spec n 0); [lia|]. by apply dec_digits_visible. Qed.
Lemma disposition_visible name : visible_ascii (lit "attachment; filename=" ++ [34] ++ sanitize_filename name ++ [34]).
Proof.
  unfold visible_ascii. rewrite !Forall_app. split_and!; [apply (bool_decide_unpack _); by vm_compute..|apply sanitize_filename_visible|].
  apply (bool_decide_unpack _). by vm_compute.
Qed.

(** C27: A file of an Agent reaches the holder of a download URL unchanged: for every
    content of at most 100 MiB, the text the Agent prints is accepted by the limits
    on task results and decodes to exactly the bytes of the file, served as an
    attachment that is not to be cached. The header library need only accept what
    it documents, values of visible ASCII characters: whatever the path is, the
    name of the attachment is cleaned so that its header is one. *)
Theorem download_delivers_file path data :
  Forall (fun b => 0 <= b < 256) data → zlen data <= TEMP_TRANSFER_MAX_BYTES → (∀ v, visible_ascii v → header_value_ok v = true) →
  ∃ h, download_response path (file_reply data) = Ok {| status := OK; headers := h; payload := FileData data |}
    ∧ (lit "cache-control", lit "no-store") ∈ h
    ∧ (lit "content-disposition", lit "attachment; filename=" ++ [34] ++ sanitize_filename (file_name_of path) ++ [34]) ∈ h.
Proof.
  intros Hd Hl Hh. destruct (Base64.base64_roundtrip data Hd) as [Hrt Hlen]; [unfold TEMP_TRANSFER_MAX_BYTES in Hl; lia|].
  unfold download_response, ensure_temporary_transfer_result_text, IoStreams.ensure_task_result_text_within. cbn [IoStreams.stdout IoStreams.stderr IoStreams.error file_reply].
  rewrite Hlen. replace (_ <? IoStreams.base64_encoded_len (zlen data)) with false.
  2: { symmetry. apply Z.ltb_ge. unfold IoStreams.base64_encoded_len, saturating_add. pose proof (zlen_nonneg data).
       unfold TEMP_TRANSFER_MAX_BYTES in *. change usize_max with (2 ^ 64 - 1). destruct (zlen data mod 3 =? 0) eqn:Hr, (100 * 1024 * 1024 mod 3 =? 0) eqn:Hr'; bool_prop;
         Z.to_euclidean_division_equations; lia. }
  change (byte_len []) with 0. cbn [Z.ltb mbind result_bind]. unfold ensure_task_success. cbn.
  unfold trim. rewrite trim_by_none by apply encode_plain. rewrite Hrt. cbn.
  replace (_ <? zlen data) with false by lia. unfold temporary_download_headers.
  rewrite (Hh _ (print_visible _ (zlen_nonneg data))). cbn [mbind result_bind].
  match goal with |- context [header_value_ok ?v] => rewrite (Hh v (disposition_visible (file_name_of path))) end. cbn [mbind result_bind].
  eexists. split; [done|]. split.
  - by do 2 (apply header_kept; [done|]); apply header_here.
  - by do 3 (apply header_kept; [done|]); apply header_here.
Qed.
End delivery.

End TransfersProofs.
