(* ===== verification/ServerOpsProofs.v ===== *)
(** * ServerOpsProofs: who may work on the files of an Agent

    The handlers of [ServerOps] and [Transfers] together: what any number of them
    can make an Agent do through temporary URLs, and what must have been true
    when a handler sends a message or serves a transfer. *)

From S2P Require Import Prelude Text BTreeMap Json Externals Auth Totp Net Security IoStreams Base64 Interleave Rfc3339 Tables Sessions Users Accounts Transfers ServerOps TransfersProofs.

Module ServerOpsProofs.
Import Interleave Transfers ServerOps TransfersProofs.

(** ** Every handler of the server *)

Section handlers.
Context {E : Type} `{UuidLib, Rfc3339, Auth.Crypto, TransferLib, Chrono}.
Context (parse_entries : rstr → option (list FileEntryView)) (json_to_vec : json → option (list Z)).
Context (url_parse : rstr → option Security.Url) (url_to_string : Security.Url → rstr).
Abbreviation PA := (P (Env E) Shared (Accounts.AppError E)).

Lemma neutral_map_err {X Y A} (f : X → Y) (m : P (Env E) Shared X A) : neutral m → neutral (map_err f m).
Proof. intros Hm. apply neutral_bind; [done|]. intros r. apply neutral_ret. Qed.

(** A message that is not for a temporary URL needs no permit. *)
Lemma neutral_send agent m : neutral (send agent m : PA unit).
Proof.
  intros π. apply safe_atomic. intros e s _ _. exists π. destruct (send_error e); (split; [|done]); [apply act_same|by apply act_direct].
Qed.

Lemma neutral_revoke key : neutral (revoke key : P (Env E) Shared _ bool).
Proof.
  intros π. unfold revoke. apply safe_try. apply neutral_safe; [neutral|]. intros [now|]; [|done]. apply safe_sql; [done|].
  intros e s _ _. exists π. split; [|done].
  eapply act_quiet; [apply (update_via (fun r => bool_decide (tr_id r = key ∧ tr_revoked_at r = None)) (with_revoked (to_rfc3339 now))); by repeat split|].
  cbn. intros r r' [= <-]. by destruct (bool_decide _).
Qed.

Lemma neutral_find_by_id key : neutral (find_by_id key : P (Env E) Shared _ _).
Proof. unfold find_by_id. neutral. Qed.
End handlers.

#[local] Hint Resolve neutral_send neutral_revoke neutral_find_by_id neutral_map_err : neutral.

Section neutrality.
Context {E : Type} `{UuidLib, Rfc3339, Auth.Crypto, TransferLib, Chrono}.
Context (parse_entries : rstr → option (list FileEntryView)) (json_to_vec : json → option (list Z)).
Context (url_parse : rstr → option Security.Url) (url_to_string : Security.Url → rstr).
Abbreviation PA := (P (Env E) Shared (Accounts.AppError E)).

Ltac handler := repeat (progress (unfold require_transfer_write_sensitive_auth, require_transfer_scope, ensure_server_online,
  ensure_server_active, ensure_server_visible, find_agent_or, query, sensitive, dispatch_file_task, forbidden, refuse,
  require_remote_config_patch_auth, require_admin_cookie_session, require_force_update_auth, temporary_transfer_visible_to_auth,
  generate_temporary_transfer_token)); neutral.

Lemma neutral_list_files auth id path : neutral (list_files parse_entries auth id path : PA _).
Proof. unfold list_files. handler. Qed.
Lemma neutral_read_file auth id req : neutral (read_file auth id req : PA _).
Proof. unfold read_file. handler. Qed.
Lemma neutral_write_file auth id req : neutral (write_file auth id req : PA _).
Proof. unfold write_file. handler. Qed.
Lemma neutral_delete_file auth id path b : neutral (delete_file auth id path b : PA _).
Proof. unfold delete_file. handler. Qed.
Lemma neutral_apply_config auth id config : neutral (apply_config json_to_vec url_parse auth id config : PA _).
Proof. unfold apply_config. handler. Qed.
Lemma neutral_force_update env auth id req : neutral (force_update url_parse url_to_string env auth id req : PA _).
Proof. unfold force_update. handler. Qed.
Lemma neutral_revoke_temporary_transfer auth key : neutral (revoke_temporary_transfer auth key : PA _).
Proof. unfold revoke_temporary_transfer. handler. Qed.

Lemma safe_build_temp_url auth id path expires op method : safe Idle (build_temp_url auth id path expires op method : PA _) (fun _ _ => True).
Proof.
  unfold build_temp_url. repeat (apply safe_try; apply neutral_safe; [handler|]; intros [?|]; [|done]).
  destruct a3 as [token hash]. repeat (apply safe_try; apply neutral_safe; [handler|]; intros [?|]; [|done]).
  apply safe_try, safe_map_err. eapply safe_mono; [apply safe_create|]. by intros [?|].
Qed.

(** ** Pools of handlers *)

(** A request whose response is dropped. *)
Definition served {A} (m : Proc (Env E) Shared A) : Proc (Env E) Shared unit := proc_bind m (fun _ => Ret ()).

Inductive handler : Proc (Env E) Shared unit → Prop :=
| h_download query ip : handler (served (temp_download query ip))
| h_upload query ip body : handler (served (temp_upload query ip body))
| h_download_url auth id path expires : handler (served (download_url auth id path expires))
| h_upload_url auth id path expires : handler (served (upload_url auth id path expires))
| h_issue input : handler (served (create input))
| h_revoke auth key : handler (served (revoke_temporary_transfer auth key))
| h_list auth id path : handler (served (list_files parse_entries auth id path))
| h_read auth id req : handler (served (read_file auth id req))
| h_write auth id req : handler (served (write_file auth id req))
| h_delete auth id path recursive : handler (served (delete_file auth id path recursive))
| h_config auth id config : handler (served (apply_config json_to_vec url_parse auth id config))
| h_update env auth id req : handler (served (force_update url_parse url_to_string env auth id req))
| h_cascade parent : handler (served (cascade parent)).

Lemma safe_served {A} (m : Proc (Env E) Shared A) : safe Idle m (fun _ _ => True) → safe Idle (served m) (fun _ _ => True).
Proof. intros Hm. apply safe_bind. by eapply safe_mono. Qed.

Lemma neutral_idle {A} (m : Proc (Env E) Shared A) : neutral m → safe Idle m (fun _ _ => True).
Proof. intros Hm. by apply neutral_safe. Qed.

Lemma handler_safe m : handler m → safe Idle m (fun _ _ => True).
Proof.
  intros Hm. destruct Hm; apply safe_served; try (apply neutral_idle; eauto using neutral_revoke_temporary_transfer,
    neutral_list_files, neutral_read_file, neutral_write_file, neutral_delete_file, neutral_apply_config, neutral_force_update; fail).
  - apply safe_bind, safe_try, safe_of_result. destruct (parse_temp_transfer_query _); [|done].
    eapply safe_mono; [apply safe_download|done].
  - apply safe_bind, safe_try, safe_of_result. destruct (parse_temp_transfer_query _); [|done].
    eapply safe_mono; [apply safe_upload|done].
  - apply safe_build_temp_url.
  - apply safe_try. apply neutral_safe; [handler|]. intros [[]|]; [|done]. apply safe_build_temp_url.
  - apply safe_create.
  - apply safe_cascade.
Qed.

Definition empty_state : Shared :=
  {| rows := []; rates := {| entries := ∅; checks_since_cleanup := 0 |}; sent := []; created := []; drawn := [] |}.

(** The pools that can come about. *)
Definition reached (p : Pool (Env E) Shared unit) : Prop :=
  rtc (pool_step handler admits) {| state := empty_state; threads := [] |} p.

Lemma inv_spawn s πs : Inv s πs → Inv s (πs ++ [Idle]).
Proof.
  intros (Hw & Hh & Hx). split; [done|]. split.
  - intros i π [Hi|[_ Hi]]%lookup_app_Some; [by eapply Hh|]. by apply list_lookup_singleton_Some in Hi as [_ <-].
  - intros i j π ρ k [Hi|[_ Hi]]%lookup_app_Some [Hj|[_ Hj]]%lookup_app_Some Hk Hk'; [by eapply Hx|..].
    all: repeat match goal with Hs : [Idle] !! _ = Some _ |- _ => apply list_lookup_singleton_Some in Hs as [_ <-] end; done.
Qed.

Lemma reached_wf p : reached p → wf (state p).
Proof.
  intros Hp. destruct (reachable_accounted handler admits Idle knows act Inv (fun _ _ => True)) with (s := empty_state) (p := p) as (πs & HI & _).
  - intros s πs i π (Hw & Hh & _) Hi. split; [done|]. by eapply Hh.
  - intros e s s' πs i π π'. apply inv_act.
  - apply inv_spawn.
  - apply handler_safe.
  - split; [|split; [done|by intros i]]. split; cbn; first [by constructor|by intros ? ?%not_elem_of_nil|by intros ? ? ?%not_elem_of_nil].
  - done.
  - apply HI.
Qed.

(** C25: A temporary URL works once. However the requests of all users interleave,
    whichever of them fail, time out or are abandoned half-way, no two file tasks
    that Agents receive through temporary URLs belong to the same URL. *)
Theorem url_used_once p i j x y t :
  reached p → sent (state p) !! i = Some x → sent (state p) !! j = Some y →
  token x = Some t → token y = Some t → i = j.
Proof.
  intros Hp Hi Hj Hx Hy. pose proof (wf_sent_once _ (reached_wf _ Hp)) as Hnd. unfold sent_ids in Hnd.
  by eapply (omap_nodup_lookup token).
Qed.

(** A temporary URL does only what it was issued for: the task goes to the
    Agent the URL names, for the path it names, and reads (at most 100 MiB) if the
    URL is for a download, writes (at most 100 MiB, never with a file mode) if it is
    for an upload; the row it was issued with is the only one with that id. *)
Theorem url_task_as_issued p x t :
  reached p → x ∈ sent (state p) → token x = Some t →
  ∃ c, c ∈ created (state p) ∧ tr_id c = t ∧ entitled c x ∧ ∀ c', c' ∈ created (state p) → tr_id c' = t → c' = c.
Proof.
  intros Hp Hx Ht. pose proof (reached_wf _ Hp) as Hw. destruct (wf_sent _ Hw x t Hx Ht) as (c & Hc & Hid & He & _).
  exists c. split_and!; [done..|]. intros c' Hc' Hid'. eapply (fmap_nodup_elem tr_id); [apply (wf_created _ Hw)|done..|congruence].
Qed.
End neutrality.

End ServerOpsProofs.
