(* ===== verification/TransferAuthority.v ===== *)
(** * TransferAuthority: what must hold when a task is sent

    Each handler is taken alone, with anything happening between its steps. A
    step that sends a message to an Agent is possible only after the handler has
    seen, in its own run, what authorizes it. *)

From S2P Require Import Prelude Text BTreeMap Json Externals Auth Totp Net Security IoStreams Base64 Interleave Rfc3339 Tables Sessions Users Accounts Transfers ServerOps TransfersProofs ServerOpsProofs.

Module TransferAuthority.
Import Interleave Transfers ServerOps ServerOpsProofs.

Section silent.
Context {E : Type} `{UuidLib, Rfc3339, Auth.Crypto, TransferLib}.
Abbreviation History := (list (Env E * Shared)).

(** Every message a handler sends satisfies [Auth], given what it saw before. *)
Definition sends (Auth : History → Sent → Prop) : History → Env E → Shared → Shared → Prop :=
  fun h _ s s' => sent s' = sent s ∨ ∃ x, sent s' = sent s ++ [x] ∧ Auth h x.

Definition silent {A} (m : Proc (Env E) Shared A) : Prop :=
  ∀ Auth h, traced (sends Auth) h m (fun _ _ => True).

Lemma silent_traced {A} Auth h (m : Proc (Env E) Shared A) Q :
  silent m → (∀ h' a, Q (h ++ h') a) → traced (sends Auth) h m Q.
Proof. intros Hm HQ. eapply traced_mono, Hm. intros h' a _. apply HQ. Qed.

Lemma silent_ret {A} (a : A) : silent (Ret a).
Proof. by intros Auth h. Qed.
Lemma silent_mret {X A} (a : A) : silent (mret a : P (Env E) Shared X A).
Proof. by intros Auth h. Qed.
Lemma silent_observe {X A} (f : Env E → A) : silent (observe f : P (Env E) Shared X A).
Proof. intros Auth h e s. split; [by left|done]. Qed.
Lemma silent_bind {A B} (m : Proc (Env E) Shared A) (k : A → Proc (Env E) Shared B) :
  silent m → (∀ a, silent (k a)) → silent (proc_bind m k).
Proof. intros Hm Hk Auth h. apply traced_bind, silent_traced; [done|]. intros h' a. apply Hk. Qed.
Lemma silent_try {X A B} (m : P (Env E) Shared X A) (k : A → P (Env E) Shared X B) :
  silent m → (∀ a, silent (k a)) → silent (m ≫= k).
Proof. intros Hm Hk. apply silent_bind; [done|]. intros [a|x]; [done|apply silent_ret]. Qed.
Lemma silent_atomic {X A} (f : Env E → Shared → result X A * Shared) :
  (∀ e s, sent (f e s).2 = sent s) → silent (atomic f).
Proof. intros Hf Auth h e s. split; [left; apply Hf|done]. Qed.
Lemma silent_sql {A} (f : Env E → Shared → result Tables.Why A * Shared) :
  (∀ e s a s', f e s = (Ok a, s') → sent s' = sent s) → silent (sql f).
Proof.
  intros Hf. apply silent_atomic. intros e s. destruct (fault e); [done|].
  specialize (Hf e s). destruct (f e s) as [[a|w] s']; [|done]. by apply (Hf a).
Qed.
Lemma silent_update hit f : silent (update hit f : P (Env E) Shared _ bool).
Proof. apply silent_sql. by intros e s a s' [= _ <-]. Qed.
Lemma silent_rate token : silent (check_rate_limit token : P (Env E) Shared _ unit).
Proof. apply silent_atomic. intros e s. by destruct (check_rate_limit_in _ _ _). Qed.

(** A look at the environment, remembered. *)
Lemma traced_look {X A} Auth h (f : Env E → A) (Q : History → result X A → Prop) :
  (∀ e s, Q (h ++ [(e, s)]) (Ok (f e))) → traced (sends Auth) h (observe f : P (Env E) Shared X A) Q.
Proof. intros HQ. apply traced_observe. intros e s. split; [by left|apply HQ]. Qed.
End silent.

Create HintDb silent discriminated.
#[export] Hint Resolve silent_ret silent_mret silent_observe silent_update silent_rate : silent.
#[export] Hint Extern 1 (silent (of_result _)) => apply silent_ret : silent.
#[export] Hint Extern 1 (silent (throw _)) => apply silent_ret : silent.
#[export] Hint Extern 1 (silent (required _ _)) => apply silent_ret : silent.

Ltac silent :=
  repeat first
    [ done
    | solve [auto 2 with silent]
    | progress intros
    | apply silent_try
    | apply silent_bind
    | match goal with |- silent (if ?b then _ else _) => destruct b end
    | match goal with |- silent (match ?x with _ => _ end) => destruct x end ].

Section authority.
Context {E : Type} `{UuidLib, Rfc3339, Auth.Crypto, TransferLib}.
Abbreviation History := (list (Env E * Shared)).

(** The session or API token a URL was issued under, seen alive. *)
Definition issuer_alive (h : History) (t : TemporaryTransferToken) (auth : Auth.AuthSession) : Prop :=
  (auth_kind t = lit "session" ∧ ∃ sid session, session_id t = Some sid
     ∧ once h (fun e _ => find_session e sid = Ok (Some session)) ∧ Sessions.user_id session = issued_by_user_id t
     ∧ once h (fun e _ => utc e < Sessions.expires_at session) ∧ Auth.server_ids auth = None ∧ Auth.auth_kind auth = Auth.Session)
  ∨ (auth_kind t = lit "pat" ∧ ∃ pid pat deadline, api_token_id t = Some pid
     ∧ once h (fun e _ => find_pat e pid = Ok (Some pat)) ∧ Users.p_user_id pat = issued_by_user_id t
     ∧ Users.p_revoked_at pat = None ∧ Users.p_expires_at pat = Some deadline ∧ once h (fun e _ => utc e < deadline)
     ∧ Auth.scopes auth = Users.p_scopes pat ∧ Auth.server_ids auth = Users.p_server_ids pat
     ∧ Auth.auth_kind auth = Auth.PersonalAccessToken).

(** The permission an operation takes. *)
Inductive permission : rstr → rstr → Prop :=
| download_permission : permission (lit "download") (lit "transfer:read")
| upload_permission : permission (lit "upload") (lit "transfer:write").
(** The Agent is the user's own, or he is an administrator; and it is in the list of
    servers of an API token that has one. *)
Definition may_see (auth : Auth.AuthSession) (agent : Agent) : Prop :=
  (Auth.is_admin (Auth.role auth) = true ∨ a_owner_user_id agent = Auth.user_id auth) ∧
  ∀ allow, Auth.server_ids auth = Some allow → uuid_to_string (a_id agent) ∈ allow.
Lemma agent_visible_sees auth agent : agent_visible auth agent = true → may_see auth agent.
Proof.
  unfold agent_visible, server_visible, may_see. intros [Hs Ho]%andb_true_iff. split.
  - apply orb_true_iff in Ho as [?|?%Z.eqb_eq]; auto.
  - intros allow Hl. rewrite Hl in Hs. apply existsb_exists in Hs as (x & Hx%list_elem_of_In & ->%bool_decide_eq_true). done.
Qed.

(** Everything a request with [token] for operation [o] has seen before it may
    make the Agent act. *)
Record Authorized (token o : rstr) (h : History) (t : TemporaryTransferToken) (user : Users.User) (auth : Auth.AuthSession) (agent : Agent) : Prop := {
  az_row : once h (fun _ s => ∃ r, r ∈ rows s ∧ tr_token_hash r = Auth.hash_token token ∧ sqlite_row_to_token r = Some t);
  az_op : op t = o;
  az_open : used_at t = None ∧ revoked_at t = None ∧ once h (fun e _ => utc e < expires_at t);
  az_path : valid_transfer_record_path (path t) = true;
  az_session_upload : o = lit "upload" → auth_kind t = lit "session";
  az_user : once h (fun e _ => find_user e (issued_by_user_id t) = Ok (Some user));
  az_role : Auth.role auth = Users.role user ∧ Auth.user_id auth = Users.id user;
  az_issuer : issuer_alive h t auth;
  az_scope : ∃ p, permission o p ∧ scope t = p ∧ Auth.has_scope auth p = true;
  az_agent : once h (fun e _ => find_agent e (server_id t) = Ok (Some agent));
  az_active : a_revoked_at agent = None;
  az_visible : may_see auth agent;
}.

Lemma issuer_alive_app h h' t auth : issuer_alive h t auth → issuer_alive (h ++ h') t auth.
Proof.
  intros [(Hk & sid & session & ? & Ho & ? & Hn & ?)|(Hk & pid & pat & deadline & ? & Ho & ? & ? & ? & Hn & ?)]; [left|right]; (split; [done|]).
  - exists sid, session. auto 10 using once_app.
  - exists pid, pat, deadline. auto 10 using once_app.
Qed.

Lemma Authorized_app token o h h' t user auth agent :
  Authorized token o h t user auth agent → Authorized token o (h ++ h') t user auth agent.
Proof. intros [? ? (? & ? & ?) ? ? ? ? ? ? ? ? ?]. split; auto using once_app, issuer_alive_app. Qed.

(** [read] and [required]: a look that may fail. *)
Lemma traced_read {A} Auth h (f : Env E → result E A) (Q : History → result Failure A → Prop) :
  (∀ e s a, f e = Ok a → Q (h ++ [(e, s)]) (Ok a)) → (∀ h' x, Q (h ++ h') (Err x)) →
  traced (sends Auth) h (read f : P (Env E) Shared _ A) Q.
Proof.
  intros HQ HE. apply traced_try, traced_look. intros e s. destruct (f e) as [a|x] eqn:Ef; [by apply HQ|apply HE].
Qed.

Lemma traced_required {A} Auth h (x : option A) f (Q : History → result Failure A → Prop) :
  (∀ a, x = Some a → Q h (Ok a)) → Q h (Err f) → traced (sends Auth) h (required x f : P (Env E) Shared _ A) Q.
Proof. intros HQ HE. destruct x as [a|]; [by apply HQ|done]. Qed.

Lemma issuer_session_traced Auth h t user Q :
  (∀ h' auth, issuer_alive (h ++ h') t auth → Auth.role auth = Users.role user ∧ Auth.user_id auth = Users.id user → Q (h ++ h') (Ok auth)) →
  (∀ h' x, Q (h ++ h') (Err x)) → traced (sends Auth) h (issuer_session t user : P (Env E) Shared _ _) Q.
Proof.
  intros HQ HE. assert (∀ x, Q h (Err x)) as HE0 by (intros x; specialize (HE [] x); by rewrite app_nil_r in HE).
  unfold issuer_session. case_bool_decide as Hk; [|case_bool_decide as Hk'; [|apply HE0]].
  - apply traced_try, traced_required; [|done]. intros sid Hsid. apply traced_try, traced_read; [|done]. intros e1 s1 o1 Ho1.
    apply traced_try, traced_required; [|apply HE]. intros session ->. apply traced_try, traced_look. intros e2 s2.
    rewrite <-app_assoc. destruct (_ || _) eqn:Eg; [apply HE|]. apply orb_false_iff in Eg as [Eu Et].
    apply HQ; [|done]. left. split; [done|]. exists sid, session. rewrite app_assoc.
    split_and!; [done|by apply once_app, once_here|by apply negb_false_iff, Z.eqb_eq in Eu|apply once_here; lia|done..].
  - apply traced_try, traced_required; [|done]. intros pid Hpid. apply traced_try, traced_read; [|done]. intros e1 s1 o1 Ho1.
    apply traced_try, traced_required; [|apply HE]. intros pat ->. apply traced_try, traced_look. intros e2 s2.
    rewrite <-app_assoc. destruct (_ || negb (is_ok _)) eqn:Eg; [apply HE|].
    apply orb_false_iff in Eg as [[[Eu Er]%orb_false_iff Et]%orb_false_iff _].
    destruct (Users.p_expires_at pat) as [deadline|] eqn:Ed; [|done]. destruct (Users.p_revoked_at pat) eqn:Erev; [done|].
    apply HQ; [|done]. right. split; [done|]. exists pid, pat, deadline. rewrite app_assoc.
    split_and!; [done|by apply once_app, once_here|by apply negb_false_iff, Z.eqb_eq in Eu|done|done|apply once_here; lia|done..].
Qed.

Lemma find_by_hash_traced Auth h hash Q :
  (∀ e s r t, r ∈ rows s → tr_token_hash r = hash → sqlite_row_to_token r = Some t → Q (h ++ [(e, s)]) (Ok (Some t))) →
  (∀ h', Q (h ++ h') (Ok None)) → (∀ h' x, Q (h ++ h') (Err x)) →
  traced (sends Auth) h (find_by_token_hash hash : P (Env E) Shared _ _) Q.
Proof.
  intros HQ HN HE. unfold find_by_token_hash. destruct (is_empty _); [rewrite <-(app_nil_r h); apply HN|].
  apply traced_try. intros e s. destruct (fault e); cbn [fst snd]; (split; [by left|]); [apply HE|].
  cbn [of_result]. destruct (head _) as [r|] eqn:Eh; [|apply HN].
  apply head_Some_elem_of in Eh. apply list_elem_of_filter in Eh as [Hh Hin]. cbn.
  destruct (sqlite_row_to_token r) as [t|] eqn:Ed; [by eapply HQ|apply HE].
Qed.

Lemma record_state_ok t o now : validate_transfer_record_state t o now = Ok () →
  op t = o ∧ used_at t = None ∧ revoked_at t = None ∧ now < expires_at t ∧ valid_transfer_record_path (path t) = true
  ∧ (o = lit "upload" → auth_kind t = lit "session") ∧ permission o (scope t).
Proof.
  unfold validate_transfer_record_state. destruct (if bool_decide (o = lit "download") then _ else _) as [p|] eqn:Ep; [|done].
  destruct (_ || negb (valid_transfer_record_path _)) eqn:Eg; [done|]. intros _.
  repeat match goal with Hg : _ || _ = false |- _ => apply orb_false_iff in Hg as [? ?] end.
  destruct (used_at t), (revoked_at t); try done. split_and!; [|done|done|lia|by apply negb_false_iff| |].
  - match goal with Hg : negb (bool_decide (op t = o)) = false |- _ => by apply negb_false_iff, bool_decide_eq_true in Hg end.
  - intros ->. match goal with Hg : _ && _ = false |- _ => rewrite bool_decide_true in Hg by done; cbn [andb] in Hg;
      by apply negb_false_iff, bool_decide_eq_true in Hg end.
  - match goal with Hg : negb (bool_decide (scope t = p)) = false |- _ => apply negb_false_iff, bool_decide_eq_true in Hg as -> end.
    destruct (decide (o = lit "download")) as [->|Hd]; [injection Ep as <-; constructor|]. rewrite bool_decide_false in Ep by done.
    destruct (decide (o = lit "upload")) as [->|Hu]; [injection Ep as <-; constructor|]. by rewrite bool_decide_false in Ep.
Qed.

(** The history of a run that [validate_temporary_transfer] accepted. *)
Definition authorized (token o : rstr) (h : History) (v : ValidatedTemporaryTransfer) : Prop :=
  ∃ t user auth agent, Authorized token o h t user auth agent
    ∧ v_token_id v = id t ∧ v_server_id v = uuid_to_string (server_id t) ∧ v_path v = path t.

Lemma authorized_app token o h h' v : authorized token o h v → authorized token o (h ++ h') v.
Proof. intros (t & user & auth & agent & Ha & Hv). exists t, user, auth, agent. split; [by apply Authorized_app|done]. Qed.

Lemma validate_traced Auth h token o Q :
  (∀ h' v, authorized token o (h ++ h') v → Q (h ++ h') (Ok v)) → (∀ h' x, Q (h ++ h') (Err x)) →
  traced (sends Auth) h (validate_temporary_transfer token o : P (Env E) Shared _ _) Q.
Proof.
  intros HQ HE. assert (∀ x, Q h (Err x)) as HE0 by (intros x; specialize (HE [] x); by rewrite app_nil_r in HE).
  unfold validate_temporary_transfer. destruct (negb _); [apply HE0|]. apply traced_try, traced_bind, find_by_hash_traced.
  2: { intros h'. apply HE. } 2: { intros h' x. apply HE. }
  intros e1 s1 r t Hr Hh Hd. apply traced_try, traced_required; [|apply HE]. intros t' [= <-].
  apply traced_try, traced_look. intros e2 s2. rewrite <-app_assoc. set (h2 := [(e1, s1)] ++ [(e2, s2)]).
  apply traced_try. destruct (validate_transfer_record_state t o (utc e2)) as [[]|] eqn:Ev; [|apply HE].
  apply record_state_ok in Ev as (Ho & Hu & Hrv & Hexp & Hp & Hup & Hperm). cbn [of_result traced].
  assert (once (h ++ h2) (fun _ s => ∃ r, r ∈ rows s ∧ tr_token_hash r = Auth.hash_token token ∧ sqlite_row_to_token r = Some t)) as Hrow.
  { unfold h2. rewrite app_assoc. apply once_app, once_here. by exists r. }
  assert (once (h ++ h2) (fun e _ => utc e < expires_at t)) as Htime by (unfold h2; rewrite app_assoc; by apply once_here).
  clearbody h2. clear e1 s1 r Hr Hh Hd e2 s2 Hexp. unfold validate_transfer_issuer.
  apply traced_try, traced_try, traced_read; [|intros; rewrite <-app_assoc; apply HE]. intros e3 s3 ou Hou.
  apply traced_try, traced_required; [|rewrite <-app_assoc; apply HE]. intros user ->.
  apply traced_try, issuer_session_traced; [|intros; rewrite <-!app_assoc; apply HE]. intros h4 auth Hal Hrole.
  destruct (negb (Auth.has_scope _ _)) eqn:Esc; [rewrite <-!app_assoc; apply HE|]. apply negb_false_iff in Esc.
  apply traced_try, traced_read; [|intros; rewrite <-!app_assoc; apply HE]. intros e5 s5 oa Hoa.
  apply traced_try, traced_required; [|rewrite <-!app_assoc; apply HE]. intros agent ->.
  destruct (a_revoked_at agent) eqn:Erev; [rewrite <-!app_assoc; apply HE|].
  destruct (negb (agent_visible _ _)) eqn:Evis; [rewrite <-!app_assoc; apply HE|]. apply negb_false_iff, agent_visible_sees in Evis.
  set (hh := (((h ++ h2) ++ [(e3, s3)]) ++ h4) ++ [(e5, s5)]).
  assert (hh = h ++ (h2 ++ [(e3, s3)] ++ h4 ++ [(e5, s5)])) as Eh by (unfold hh; by rewrite <-!app_assoc).
  assert (authorized token o hh {| v_token_id := id t; v_server_id := uuid_to_string (server_id t); v_path := path t |}) as Haz.
  { exists t, user, auth, agent. split; [|done]. unfold hh. split; try done.
    - by do 3 apply once_app.
    - split_and!; [done..|]. by do 3 apply once_app.
    - by do 2 apply once_app; apply once_here.
    - by apply issuer_alive_app.
    - by exists (scope t).
    - by apply once_here. }
  rewrite Eh in *. by apply HQ.
Qed.

(** The steps around the dispatch send nothing. *)
Lemma silent_map_err {X Y A} (f : X → Y) (m : P (Env E) Shared X A) : silent m → silent (map_err f m).
Proof. intros Hm. apply silent_bind; [done|]. intros r. apply silent_ret. Qed.
Lemma silent_ignore {X Y A} (m : P (Env E) Shared X A) : silent m → silent (ignore m : P (Env E) Shared Y unit).
Proof. intros Hm. apply silent_bind; [done|]. intros r. apply silent_ret. Qed.
Lemma silent_consume k ip : silent (consume_temporary_transfer k ip : P (Env E) Shared _ unit).
Proof. apply silent_try; [apply silent_map_err; unfold mark_used_once|]; silent. Qed.
Lemma silent_reserve k ip r : silent (reserve_temporary_upload k ip r : P (Env E) Shared _ unit).
Proof. apply silent_try; [apply silent_map_err; unfold reserve_upload_once|]; silent. Qed.
Lemma silent_release k r : silent (release_temporary_upload k r : P (Env E) Shared _ unit).
Proof. apply silent_ignore. unfold release_upload_reservation. silent. Qed.
Lemma silent_commit k r : silent (commit_temporary_upload k r : P (Env E) Shared _ unit).
Proof.
  apply silent_try; [apply silent_map_err; unfold commit_upload_reservation; silent|]. intros []; [silent|].
  apply silent_try; [apply silent_release|]. silent.
Qed.
Lemma silent_record k st task err : silent (record_temporary_transfer_result k st task err : P (Env E) Shared _ unit).
Proof. apply silent_ignore. unfold record_use_result. silent. Qed.
Lemma silent_or_record {A} k run (r : result Failure A) : silent (or_record k run r : P (Env E) Shared _ A).
Proof. unfold or_record. destruct r; [silent|]. apply silent_try; [apply silent_record|]. silent. Qed.

(** The message a validated transfer may send. *)
Definition transfer_task (o : rstr) (v : ValidatedTemporaryTransfer) (x : Sent) : Prop :=
  token x = Some (v_token_id v) ∧ uuid_parse (v_server_id v) = Some (recipient x)
  ∧ if bool_decide (o = lit "download") then message x = FileMessage (FileRead (v_path v) 0 TEMP_TRANSFER_MAX_BYTES)
    else ∃ data, message x = FileMessage (FileWrite (v_path v) data 0 true).

Definition transfer_auth (key o : rstr) (h : History) (x : Sent) : Prop := ∃ v, authorized key o h v ∧ transfer_task o v x.

Lemma dispatch_traced key o h v task :
  authorized key o h v →
  (∀ agent, uuid_parse (v_server_id v) = Some agent → transfer_task o v {| token := Some (v_token_id v); recipient := agent; message := FileMessage task |}) →
  traced (sends (transfer_auth key o)) h (dispatch_or_record (v_token_id v) (v_server_id v) task : P (Env E) Shared _ _) (fun _ _ => True).
Proof.
  intros Haz Htask. unfold dispatch_or_record. apply traced_bind. unfold dispatch_server_task.
  assert (∀ h' (r : result DispatchServerTaskError (rstr * IoStreams.TaskResult)), traced (sends (transfer_auth key o)) h'
    (match r with Ok d => Ret (Ok d) | Err x => or_record (v_token_id v) (d_agent_task_id x) (Err (d_status x, d_message x)) end
      : P (Env E) Shared _ _) (fun _ _ => True)) as Hend by (intros h' [d|x]; [done|apply silent_or_record]).
  destruct (uuid_parse (v_server_id v)) as [agent|]; [|apply Hend].
  apply traced_try, traced_look. intros e1 s1. destruct (online e1); [|apply (Hend _ (Err _))]. cbn [negb].
  apply traced_try, traced_look. intros e2 s2. apply traced_try. intros e3 s3.
  destruct (send_error e3); cbn [fst snd]; (split; [|]); [by left|apply (Hend _ (Err _))| |].
  - right. eexists. split; [done|]. exists v. split; [by do 2 apply authorized_app|by apply Htask].
  - apply traced_try, traced_look. intros e4 s4. destruct (reply e4); apply Hend.
Qed.

Lemma download_traced key ip :
  traced (sends (transfer_auth key (lit "download"))) [] (run_temp_download key ip : P (Env E) Shared _ _) (fun _ _ => True).
Proof.
  unfold run_temp_download. apply traced_try, silent_traced; [apply silent_rate|]. intros h1 [[]|]; [|done].
  apply traced_try, validate_traced; [|done]. intros h2 v Haz. apply traced_try, silent_traced; [apply silent_rate|]. intros h3 [[]|]; [|done].
  apply traced_try, silent_traced; [apply silent_consume|]. intros h4 [[]|]; [|done]. apply traced_try.
  eapply traced_mono; [|apply dispatch_traced; [by do 2 apply authorized_app|done]].
  intros h5 [[run r]|] _; [|done]. apply silent_traced; [|done]. apply silent_try; [apply silent_or_record|].
  intros a. apply silent_try; [apply silent_record|silent].
Qed.

Lemma upload_traced key ip body :
  traced (sends (transfer_auth key (lit "upload"))) [] (run_temp_upload key ip body : P (Env E) Shared _ _) (fun _ _ => True).
Proof.
  unfold run_temp_upload. apply traced_try, silent_traced; [apply silent_rate|]. intros h1 [[]|]; [|done].
  apply traced_try, validate_traced; [|done]. intros h2 v Haz. apply traced_try, silent_traced; [apply silent_rate|]. intros h3 [[]|]; [|done].
  apply traced_try, traced_look. intros e4 s4. apply traced_try, silent_traced; [apply silent_reserve|]. intros h5 [[]|]; [|done].
  apply traced_try. destruct (read_limited_body _ _) as [data|f]; [|apply traced_try, silent_traced; [apply silent_release|by intros h' [[]|]]].
  apply traced_try, silent_traced; [apply silent_commit|]. intros h6 [[]|]; [|done]. apply traced_try.
  eapply traced_mono; [|apply dispatch_traced; [by do 4 apply authorized_app|]].
  - intros h7 [[run r]|] _; [|done]. apply silent_traced; [|done]. apply silent_try; [apply silent_or_record|].
    intros a. apply silent_try; [apply silent_record|silent].
  - intros agent Hagent. split_and!; [done..|]. by exists data.
Qed.

(** C26: Before a request with a temporary URL makes an Agent read or write a file,
    it has seen, in the tables as they were during that very request: an unused,
    unrevoked, unexpired record for the URL's token and operation; its issuer still
    a user, the session it was issued under still open and that user's (for an API
    token: unrevoked and unexpired), the permission for this operation
    (transfer:read for a download, transfer:write for an upload), which is also
    the one the record names, still granted, and the Agent not revoked and still
    the issuer's own or he an administrator, and in the list of servers of his
    API token if it has one. *)
Theorem transfer_authorized o (m : Proc (Env E) Shared Response) query ip h e s s' :
  (o = lit "download" ∧ m = temp_download query ip) ∨ (o = lit "upload" ∧ ∃ body, m = temp_upload query ip body) →
  makes m h e s s' → sent s' ≠ sent s →
  ∃ key v x, query_token query = Some key ∧ authorized key o h v ∧ sent s' = sent s ++ [x] ∧ transfer_task o v x.
Proof.
  intros Hm Hmk Hne.
  assert (∃ key, query_token query = Some key ∧ traced (sends (transfer_auth key o)) [] m (fun _ _ => True)) as (key & Hk & Ht).
  { destruct Hm as [[-> ->]|[-> (body & ->)]]; unfold temp_download, temp_upload, respond, parse_temp_transfer_query in *;
      (destruct (_ <? _); [by inversion Hmk|]); (destruct (query_token query) as [key|]; [|by inversion Hmk]);
      exists key; (split; [done|]); apply traced_bind; cbn [ok_or].
    - eapply traced_mono, download_traced. done.
    - eapply traced_mono, upload_traced. done. }
  pose proof (traced_makes _ _ _ _ _ _ _ _ Ht Hmk) as [?|(x & Hx & v & Haz & Htask)]; [done|]. by exists key, v, x.
Qed.
End authority.

(** ** Direct operations on an Agent *)

Section operations.
Context {E : Type} `{UuidLib, Rfc3339, Auth.Crypto, TransferLib, Chrono}.
Context (json_to_vec : json → option (list Z)) (url_parse : rstr → option Security.Url) (url_to_string : Security.Url → rstr).
Abbreviation History := (list (Env E * Shared)).
Abbreviation PA := (P (Env E) Shared (Accounts.AppError E)).

(** The Agent a request names: seen visible to the user, not revoked and online. *)
Record Reachable (auth : Auth.AuthSession) (id : rstr) (h : History) (agent : Z) : Prop := {
  rc_id : id = uuid_to_string agent;
  rc_visible : once h (fun e _ => ∃ a, find_agent e agent = Ok (Some a) ∧ agent_visible auth a = true);
  rc_active : once h (fun e _ => ∃ a, find_agent e agent = Ok (Some a) ∧ a_revoked_at a = None);
  rc_online : once h (fun e _ => online e = true);
}.

Lemma Reachable_app auth id h h' agent : Reachable auth id h agent → Reachable auth id (h ++ h') agent.
Proof. intros []. split; auto using once_app. Qed.

Lemma agent_traced Auth h agent (Q : History → result (Accounts.AppError E) Agent → Prop) :
  (∀ e s a, find_agent e agent = Ok (Some a) → Q (h ++ [(e, s)]) (Ok a)) → (∀ h' x, Q (h ++ h') (Err x)) →
  traced (sends Auth) h (find_agent_or agent : PA Agent) Q.
Proof.
  intros HQ HE. unfold find_agent_or, query. apply traced_try, traced_try, traced_look. intros e s.
  destruct (find_agent e agent) as [[a|]|x] eqn:Ef; [by apply HQ|apply HE..].
Qed.

Lemma agent_id_canonical id agent : parse_server_ops_agent_id (E := E) id = Ok agent → id = uuid_to_string agent.
Proof.
  unfold parse_server_ops_agent_id. destruct (negb _); [done|]. destruct (uuid_parse id) as [u|]; [cbn|done].
  case_bool_decide as Heq; [|done]. by intros [= <-].
Qed.

Lemma online_traced Auth h auth id (Q : History → result (Accounts.AppError E) Z → Prop) :
  (∀ h' agent, Reachable auth id (h ++ h') agent → Q (h ++ h') (Ok agent)) → (∀ h' x, Q (h ++ h') (Err x)) →
  traced (sends Auth) h (ensure_server_online auth id : PA Z) Q.
Proof.
  intros HQ HE. assert (∀ x, Q h (Err x)) as HE0 by (intros x; specialize (HE [] x); by rewrite app_nil_r in HE).
  unfold ensure_server_online, ensure_server_active, ensure_server_visible. do 3 apply traced_try.
  destruct (parse_server_ops_agent_id id) as [agent|] eqn:Eid; [|apply HE0]. apply agent_id_canonical in Eid. cbn [of_result traced].
  destruct (negb _); [apply HE0|]. apply traced_try, agent_traced; [|done]. intros e1 s1 a1 Ha1.
  destruct (agent_visible auth a1) eqn:Ev; [|apply HE]. apply traced_try, agent_traced; [|intros; rewrite <-app_assoc; apply HE].
  intros e2 s2 a2 Ha2. destruct (a_revoked_at a2) eqn:Er; [rewrite <-app_assoc; apply HE|]. cbn.
  intros e3 s3. split; [by left|]. rewrite <-!app_assoc. destruct (online e3) eqn:Eo; [|apply HE]. apply HQ.
  rewrite !app_assoc. split; [done| | |by apply once_here].
  - do 2 apply once_app. apply once_here. eauto.
  - apply once_app, once_here. eauto.
Qed.

Lemma send_traced Auth h agent m :
  Auth h {| token := None; recipient := agent; message := m |} →
  traced (sends Auth) h (send agent m : PA unit) (fun _ _ => True).
Proof.
  intros HA e s. destruct (send_error e); cbn [fst snd]; (split; [|done]); [by left|]. right. by eexists.
Qed.

Lemma dispatch_file_traced Auth h agent task :
  (∀ h', Auth (h ++ h') {| token := None; recipient := agent; message := FileMessage task |}) →
  traced (sends Auth) h (dispatch_file_task agent task : PA _) (fun _ _ => True).
Proof.
  intros HA. unfold dispatch_file_task. apply traced_try, traced_look. intros e1 s1.
  apply traced_try. eapply traced_mono; [|by apply send_traced]. intros h' [[]|] _; [|done].
  apply traced_try, traced_look. intros e2 s2. by destruct (reply e2).
Qed.

(** [sensitive]: the second factor was just accepted. *)
Definition confirmed (h : History) : Prop := once h (fun e _ => sensitive_totp e = Ok ()).

Lemma sensitive_traced Auth h auth (Q : History → result (Accounts.AppError E) unit → Prop) :
  (∀ h', confirmed (h ++ h') → Q (h ++ h') (Ok ())) → (∀ h' x, Q (h ++ h') (Err x)) →
  traced (sends Auth) h (sensitive auth : PA unit) Q.
Proof.
  intros HQ HE. apply traced_try, traced_look. intros e s. destruct (sensitive_totp e) as [[]|x] eqn:Et; [|apply HE].
  apply HQ. by apply once_here.
Qed.

(** What is sent is well-formed. *)
Definition safe_path (p : rstr) : Prop :=
  starts_with [slash] p = true ∧ byte_len p <= SERVER_OPS_MAX_PATH_BYTES ∧ dotdot ∉ segments p ∧ (∀ c, c ∈ p → is_control c = false).
Definition not_root (p : rstr) : Prop := ∃ segment, segment ∈ segments p ∧ segment ≠ [] ∧ segment ≠ lit ".".

Lemma validate_abs_path_safe raw p : validate_abs_path (E := E) raw = Ok p → safe_path p.
Proof.
  unfold validate_abs_path. destruct (negb (starts_with _ _)) eqn:Es; [done|]. destruct (_ <? _) eqn:El; [done|].
  destruct (contains 0 _); [done|]. destruct (existsb is_control _) eqn:Ec; [done|]. destruct (existsb _ (segments _)) eqn:Ed; [done|].
  intros Hp. apply Ok_inj in Hp as <-. split_and!; [by apply negb_false_iff|lia| |].
  - intros Hin. assert (existsb (fun segment => bool_decide (segment = dotdot)) (segments (trim raw)) = true) as Ht; [|congruence].
    apply existsb_In. exists dotdot. split; [done|by apply bool_decide_eq_true].
  - intros c Hc. destruct (is_control c) eqn:E0; [|done].
    assert (existsb is_control (trim raw) = true) as Ht; [|congruence]. apply existsb_In. eauto.
Qed.

Lemma root_path_false p : is_filesystem_root_path p = false → not_root p.
Proof.
  unfold is_filesystem_root_path. rewrite negb_false_iff, existsb_In. intros (x & Hx & Hb). exists x. split; [done|].
  apply andb_true_iff in Hb as [Hb1 Hb2]. apply negb_true_iff, bool_decide_eq_false in Hb2. by destruct x.
Qed.

Lemma validate_target_safe raw p : validate_file_target_path (E := E) raw = Ok p → safe_path p ∧ not_root p.
Proof.
  unfold validate_file_target_path. destruct (validate_abs_path raw) as [q|] eqn:Ev; [cbn|done].
  destruct (is_filesystem_root_path q) eqn:Er; [done|]. intros Hp. apply Ok_inj in Hp as <-.
  split; [by eapply validate_abs_path_safe|by apply root_path_false].
Qed.

(** A forced update names an Agent asset of one release of the project. *)
Definition release_url (version : rstr) (url : Security.Url) : Prop :=
  Security.host_str url = Some FORCE_UPDATE_REPO_HOST ∧ Security.port url = None
  ∧ ∃ asset, Security.path url = FORCE_UPDATE_REPO_PATH_PREFIX ++ version ++ lit "/" ++ asset ∧ slash ∉ asset
      ∧ has_dotdot asset = false ∧ starts_with (lit "xlstatus-agent-") asset = true.

Definition update_ok (custom : bool) (m : Message) : Prop :=
  ∃ version url checksum, m = ForceUpdate version (url_to_string url) checksum
    ∧ Security.scheme url = lit "https" ∧ Security.username url = [] ∧ Security.password url = None
    ∧ Security.query url = None ∧ Security.fragment url = None ∧ (custom = false → release_url version url)
    ∧ has_dotdot version = false ∧ slash ∉ version
    ∧ byte_len checksum = 64 ∧ forallb Auth.is_ascii_hexdigit (str_bytes checksum) = true.

Lemma strip_prefix_rest p x rest : Auth.strip_prefix p x = Some rest → x = p ++ rest.
Proof.
  unfold Auth.strip_prefix, starts_with. case_bool_decide as Hp; [|done]. destruct Hp as [k ->].
  rewrite drop_app_length. by intros [= ->].
Qed.

Lemma version_no_slash v : forallb version_byte (str_bytes v) = true → slash ∉ v.
Proof.
  rewrite forallb_In. intros Hv Hin. specialize (Hv slash). assert (version_byte slash = false) as E0 by by vm_compute.
  rewrite E0 in Hv. cut (false = true); [done|]. apply Hv. unfold str_bytes. apply list_elem_of_bind. exists slash.
  split; [|done]. apply list_elem_of_singleton. by vm_compute.
Qed.

Lemma version_ok raw v : validate_force_update_version (E := E) raw = Ok v → has_dotdot v = false ∧ slash ∉ v.
Proof.
  unfold validate_force_update_version. destruct (is_empty _); [done|]. case_bool_decide; [done|].
  destruct (_ || negb (forallb _ _)) eqn:Eg; [done|]. intros Hv. apply Ok_inj in Hv as <-.
  apply orb_false_iff in Eg as [[_ Ed]%orb_false_iff Ev]. split; [done|]. by apply version_no_slash, negb_false_iff.
Qed.

Lemma checksum_ok raw c : validate_force_update_checksum (E := E) raw = Ok c →
  byte_len c = 64 ∧ forallb Auth.is_ascii_hexdigit (str_bytes c) = true.
Proof.
  unfold validate_force_update_checksum. destruct (match raw with Some _ => _ | None => _ end) as [x|]; [|done].
  destruct (_ || _) eqn:Eg; [done|]. intros Hc. apply Ok_inj in Hc as <-. apply orb_false_iff in Eg as [El Eh].
  split; [lia|by apply negb_false_iff].
Qed.

Lemma release_ok url version : validate_default_force_update_download_url (E := E) url version = Ok () → release_url version url.
Proof.
  unfold validate_default_force_update_download_url, release_url. case_bool_decide as Hh; [cbn [negb]|done].
  destruct (Security.port url); [done|]. destruct (Auth.strip_prefix _ _) as [asset|] eqn:Ep; [|done].
  destruct (is_empty asset); [done|]. destruct (_ || negb (forallb _ _)) eqn:Eg; [done|]. intros _. split_and!; [done..|].
  apply strip_prefix_rest in Ep. exists asset. rewrite Ep, <-!app_assoc.
  repeat match goal with Hg : _ || _ = false |- _ => apply orb_false_iff in Hg as [? ?] end.
  split_and!; [done|by apply contains_false|done|by apply negb_false_iff].
Qed.

Lemma update_validated req custom m :
  validate_force_update_request_with_custom_source (E := E) url_parse url_to_string req custom = Ok m → update_ok custom m.
Proof.
  unfold validate_force_update_request_with_custom_source, validate_force_update_download_url.
  destruct (validate_force_update_version _) as [v|] eqn:Ev; [cbn|done].
  destruct (validate_force_update_checksum _) as [c|] eqn:Ec; [cbn|done].
  destruct (is_empty _); [done|]. destruct (_ <? _); [done|]. destruct (url_parse _) as [url|]; [|done].
  case_bool_decide as Hs; [cbn [negb]|done]. destruct (Security.username url) eqn:Eu; [|done].
  destruct (Security.password url) eqn:Epw; [done|]. destruct (Security.query url) eqn:Eq; [done|].
  destruct (Security.fragment url) eqn:Ef; [done|]. cbn [negb is_empty orb].
  destruct (if custom then _ else _) as [[]|] eqn:Ed; [|done]. intros Hm. apply Ok_inj in Hm as <-.
  apply version_ok in Ev as [? ?]. apply checksum_ok in Ec as [? ?]. exists v, url, c.
  split_and!; try done. intros ->. by apply release_ok.
Qed.

(** What the dangerous operations may send. *)
Definition message_ok (env : rstr → option rstr) (scope : rstr) (m : Message) : Prop :=
  match m with
  | FileMessage (FileWrite path data mode _) =>
      scope = lit "transfer:write" ∧ safe_path path ∧ not_root path ∧ mode <= 511 ∧ zlen data <= FILE_WRITE_MAX_BYTES
  | FileMessage (FileDelete path _) => scope = lit "transfer:write" ∧ safe_path path ∧ not_root path
  | ForceUpdate _ _ _ => scope = lit "server:exec" ∧ update_ok (force_update_custom_source_allowed env) m
  | _ => False
  end.

Definition privileged (env : rstr → option rstr) (auth : Auth.AuthSession) (id scope : rstr) (h : History) (x : Sent) : Prop :=
  Auth.has_scope auth scope = true ∧ Auth.is_pat (Auth.auth_kind auth) = false ∧ confirmed h
  ∧ Reachable auth id h (recipient x) ∧ message_ok env scope (message x) ∧ token x = None.

Lemma confirmed_app h h' : confirmed h → confirmed (h ++ h').
Proof. apply once_app. Qed.

Lemma write_auth_traced Auth h auth (Q : History → result (Accounts.AppError E) unit → Prop) :
  (∀ h', Auth.has_scope auth (lit "transfer:write") = true → Auth.is_pat (Auth.auth_kind auth) = false → confirmed (h ++ h') → Q (h ++ h') (Ok ())) →
  (∀ h' x, Q (h ++ h') (Err x)) → traced (sends Auth) h (require_transfer_write_sensitive_auth auth : PA unit) Q.
Proof.
  intros HQ HE. assert (∀ x, Q h (Err x)) as HE0 by (intros x; specialize (HE [] x); by rewrite app_nil_r in HE).
  unfold require_transfer_write_sensitive_auth, require_transfer_scope. apply traced_try.
  destruct (Auth.has_scope _ _) eqn:Es; [|apply HE0]. cbn [mret P_ret traced]. destruct (Auth.is_pat _) eqn:Ep; [apply HE0|].
  apply sensitive_traced; [|done]. intros h' Hc. by apply HQ.
Qed.

Lemma write_traced env auth id req :
  traced (sends (privileged env auth id (lit "transfer:write"))) [] (write_file auth id req : PA _) (fun _ _ => True).
Proof.
  unfold write_file. apply traced_try, write_auth_traced; [|done]. intros h1 Hs Hp Hc.
  apply traced_try. destruct (validate_file_target_path (fw_path req)) as [path|] eqn:Ev; [|done]. apply validate_target_safe in Ev as [? ?].
  apply traced_try. destruct (validate_file_write_mode (fw_mode req)) as [mode|] eqn:Em; [|done].
  assert (mode <= 511) as Hm. { unfold validate_file_write_mode in Em. destruct (511 <? _) eqn:E5; [done|]. apply Ok_inj in Em as <-. lia. }
  apply traced_try. destruct (normalize_encoding _) as [enc|]; [|done]. apply traced_try. destruct (if bool_decide _ then _ else _) as [data|]; [|done].
  apply traced_try. destruct (ensure_file_write_size data) as [[]|] eqn:El; [|done].
  assert (zlen data <= FILE_WRITE_MAX_BYTES) as Hl. { unfold ensure_file_write_size in El. destruct (_ <? zlen data) eqn:E6; [done|]. lia. }
  apply traced_try, online_traced; [|done]. intros h2 agent Hr. apply traced_try. eapply traced_mono; [|apply dispatch_file_traced].
  - intros h3 [r|] _; [|done]. apply silent_traced; [|done]. silent.
  - intros h3. split_and!; first [done|by do 2 apply confirmed_app|by apply Reachable_app].
Qed.

Lemma delete_traced env auth id path recursive :
  traced (sends (privileged env auth id (lit "transfer:write"))) [] (delete_file auth id path recursive : PA _) (fun _ _ => True).
Proof.
  unfold delete_file. apply traced_try, write_auth_traced; [|done]. intros h1 Hs Hp Hc.
  apply traced_try. destruct (validate_abs_path path) as [p|] eqn:Ev; [|done]. apply validate_abs_path_safe in Ev.
  cbn [of_result traced]. destruct (is_filesystem_root_path p) eqn:Er; [done|]. apply root_path_false in Er.
  apply traced_try, online_traced; [|done]. intros h2 agent Hr. apply traced_try. eapply traced_mono; [|apply dispatch_file_traced].
  - intros h3 [r|] _; [|done]. apply silent_traced; [|done]. silent.
  - intros h3. split_and!; first [done|by do 2 apply confirmed_app|by apply Reachable_app].
Qed.

Lemma force_update_traced env auth id req :
  traced (sends (privileged env auth id (lit "server:exec"))) [] (force_update url_parse url_to_string env auth id req : PA _) (fun _ _ => True).
Proof.
  unfold force_update, require_force_update_auth. apply traced_try. destruct (Auth.has_scope _ _) eqn:Es; [cbn [negb]|done].
  destruct (Auth.is_pat _) eqn:Ep; [done|]. apply sensitive_traced; [|done]. intros h1 Hc.
  apply traced_try, online_traced; [|done]. intros h2 agent Hr. apply traced_try.
  destruct (validate_force_update_request_with_custom_source _ _ _ _) as [m|] eqn:Ev; [|done]. apply update_validated in Ev.
  cbn [of_result traced]. apply send_traced. split_and!; [done..|by apply confirmed_app|done| |done].
  pose proof Ev as (version & url & checksum & -> & _). done.
Qed.

(** A handler that writes or deletes a file of an Agent or makes it update
    sends its message only after: the caller's scope for it was checked, the caller
    is not an API token, the second factor was accepted in this very request, and
    the Agent was seen visible to the caller, not revoked and online. What is sent is
    well-formed: an absolute path without [..] and not the root, at most 2 MiB and no
    special mode bits, or an update from the project's own releases (unless the
    operator allowed other sources) with a SHA-256 checksum. *)
Theorem privileged_op_guarded env auth id scope (m : Proc (Env E) Shared unit) h e s s' :
  (scope = lit "transfer:write" ∧ ((∃ req, m = served (write_file auth id req)) ∨ ∃ path recursive, m = served (delete_file auth id path recursive)))
  ∨ (scope = lit "server:exec" ∧ ∃ req, m = served (force_update url_parse url_to_string env auth id req)) →
  makes m h e s s' → sent s' ≠ sent s →
  ∃ x, sent s' = sent s ++ [x] ∧ privileged env auth id scope h x.
Proof.
  intros Hm Hmk Hne.
  assert (traced (sends (privileged env auth id scope)) [] m (fun _ _ => True)) as Ht.
  { destruct Hm as [[-> [(req & ->)|(path & recursive & ->)]]|[-> (req & ->)]]; apply traced_bind.
    - eapply traced_mono, write_traced. done.
    - eapply traced_mono, delete_traced. done.
    - eapply traced_mono, force_update_traced. done. }
  by pose proof (traced_makes _ _ _ _ _ _ _ _ Ht Hmk) as [?|?].
Qed.

(** ** Remote configuration *)

Definition patch_allowed (fields : list (rstr * json)) : Prop :=
  ∀ key value, (key, value) ∈ fields →
    key ∉ REMOTE_CONFIG_FORBIDDEN_FIELDS ∧ (key ∈ REMOTE_CONFIG_SENSITIVE_FIELDS ∨ key ∈ REMOTE_CONFIG_LOW_RISK_FIELDS)
    ∧ validate_remote_config_field_value (E := E) url_parse key value = Ok ().

Lemma patch_fields_ok fields seen risky :
  patch_fields (E := E) url_parse fields seen = Ok risky →
  patch_allowed fields ∧ (risky = false → seen = false ∧ ∀ key value, (key, value) ∈ fields → key ∉ REMOTE_CONFIG_SENSITIVE_FIELDS).
Proof.
  revert seen. induction fields as [|[k v] fields IH]; intros seen; cbn [patch_fields].
  { intros [= ->]. split; [by intros ? ? ?%not_elem_of_nil|]. intros ->. split; [done|by intros ? ? ?%not_elem_of_nil]. }
  destruct (contains k REMOTE_CONFIG_FORBIDDEN_FIELDS) eqn:Ef; [done|]. apply contains_false in Ef.
  destruct (contains k REMOTE_CONFIG_SENSITIVE_FIELDS) eqn:Es.
  - apply contains_spec in Es. destruct (validate_remote_config_field_value url_parse k v) as [[]|] eqn:Ev; [|done].
    intros [Hall Hrisk]%IH. split.
    + intros key value [[= -> ->]|Hin]%elem_of_cons; [by auto|by apply Hall].
    + intros Hf. by destruct (Hrisk Hf).
  - apply contains_false in Es. destruct (contains k REMOTE_CONFIG_LOW_RISK_FIELDS) eqn:El; [cbn [negb]|done].
    apply contains_spec in El. destruct (validate_remote_config_field_value url_parse k v) as [[]|] eqn:Ev; [|done].
    intros [Hall Hrisk]%IH. split.
    + intros key value [[= -> ->]|Hin]%elem_of_cons; [by auto|by apply Hall].
    + intros Hf. destruct (Hrisk Hf) as [Hs Hno]. split; [done|]. intros key value [[= -> ->]|Hin]%elem_of_cons; [done|by eapply Hno].
Qed.

(** A patch that touches a sensitive field was sent by an administrator with a
    cookie session and a fresh second factor. *)
Definition config_cleared (auth : Auth.AuthSession) (id : rstr) (config : json) (h : History) (x : Sent) : Prop :=
  Auth.has_scope auth (lit "server:write") = true
  ∧ (∃ fields, as_object config = Some fields ∧ fields ≠ [] ∧ patch_allowed fields
     ∧ ((∃ key value, (key, value) ∈ fields ∧ key ∈ REMOTE_CONFIG_SENSITIVE_FIELDS) →
        Auth.is_admin (Auth.role auth) = true ∧ Auth.is_pat (Auth.auth_kind auth) = false ∧ confirmed h))
  ∧ Reachable auth id h (recipient x) ∧ token x = None
  ∧ ∃ payload, json_to_vec config = Some payload ∧ zlen payload <= CONFIG_PATCH_MAX_BYTES ∧ message x = ConfigUpdate payload.

Lemma apply_config_traced auth id config :
  traced (sends (config_cleared auth id config)) [] (apply_config json_to_vec url_parse auth id config : PA _) (fun _ _ => True).
Proof.
  unfold apply_config, require_remote_config_patch_auth, remote_config_patch_contains_sensitive_fields.
  destruct (Auth.has_scope _ _) eqn:Es; [cbn [negb]|done]. destruct (as_object config) as [fields|] eqn:Eo; [|done].
  destruct fields as [|f0 fields]; [done|]. cbn [is_empty]. set (fs := f0 :: fields) in *.
  apply traced_try, traced_try. destruct (patch_fields url_parse fs false) as [risky|] eqn:Ep; [|done]. apply patch_fields_ok in Ep as [Hall Hrisk].
  assert (∀ h, (∀ key value, (key, value) ∈ fs → key ∈ REMOTE_CONFIG_SENSITIVE_FIELDS →
        Auth.is_admin (Auth.role auth) = true ∧ Auth.is_pat (Auth.auth_kind auth) = false ∧ confirmed h) →
     traced (sends (config_cleared auth id config)) h
       (agent_id ← ensure_server_online auth id; payload ← of_result (serialize_config_patch json_to_vec config);
        send agent_id (ConfigUpdate payload) : PA unit) (fun _ _ => True)) as Hrest.
  { intros h Hsens. apply traced_try, online_traced; [|done]. intros h2 agent Hr. apply traced_try. unfold serialize_config_patch.
    destruct (json_to_vec config) as [payload|] eqn:Ej; [cbn|done]. destruct (_ <? zlen payload) eqn:El; [done|].
    apply send_traced. split; [done|]. split.
    - exists fs. split_and!; [done|done|done|]. intros (key & value & Hin & Hk). destruct (Hsens key value Hin Hk) as (? & ? & ?).
      split_and!; [done..|]. by apply confirmed_app.
    - split_and!; [done|done|]. exists payload. split_and!; [done|lia|done]. }
  cbn [of_result traced]. destruct risky.
  - unfold require_admin_cookie_session. apply traced_try. destruct (Auth.is_admin _) eqn:Ea; [cbn [negb]|done].
    destruct (Auth.is_pat _) eqn:Epat; [done|]. cbn. intros e s. split; [by left|].
    destruct (sensitive_totp e) as [[]|] eqn:Et; [|done]. apply Hrest. intros key value _ _. split_and!; [done..|]. by apply (once_here []).
  - apply Hrest. intros key value Hin Hk. destruct (Hrisk eq_refl) as [_ Hno]. by destruct (Hno key value Hin).
Qed.

(** A configuration patch reaches an Agent only if every field of it is one
    that may be changed remotely and has a valid value (never the Agent's identity
    or keys), and if it touches a field that redirects the Agent, loosens what may
    be executed or moves the file roots, only for an administrator's cookie session
    that confirmed the second factor in this very request. *)
Theorem config_patch_guarded auth id config h e s s' :
  makes (served (apply_config json_to_vec url_parse auth id config)) h e s s' → sent s' ≠ sent s →
  ∃ x, sent s' = sent s ++ [x] ∧ config_cleared auth id config h x.
Proof.
  intros Hmk Hne. assert (traced (sends (config_cleared auth id config)) []
    (served (apply_config json_to_vec url_parse auth id config)) (fun _ _ => True)) as Ht.
  { apply traced_bind. eapply traced_mono, apply_config_traced. done. }
  by pose proof (traced_makes _ _ _ _ _ _ _ _ Ht Hmk) as [?|?].
Qed.
End operations.

End TransferAuthority.
