(* ===== verification/TransferExamples.v ===== *)
(** * TransferExamples: concrete runs of the transfer handlers

    One environment in which Ada, a member with an open session, owns an Agent
    that is online and answers; on it the theorems of [TransfersProofs],
    [ServerOpsProofs] and [TransferAuthority] are applied. *)

From S2P Require Import Prelude Text BTreeMap Json Externals Auth AuthProofs Totp Net Security IoStreams Base64 Interleave Rfc3339 Tables Sessions Users Accounts Transfers ServerOps TransfersProofs ServerOpsProofs TransferAuthority.

Module TransferExamples.
Import Interleave Transfers ServerOps TransfersProofs ServerOpsProofs TransferAuthority.

#[local] Existing Instance AuthProofs.crypto0.

#[local] Instance transfer_lib : TransferLib.
Proof.
  refine {| query_token q := Auth.strip_prefix (lit "token=") q; Body := list Z; to_bytes body _ := Ok body; header_value_ok v := forallb (fun c => (32 <=? c) && (c <? 127)) v;
            header_error := []; julianday s := default 0 (parse_from_rfc3339 s); iter := map_to_list |}.
  done.
Defined.

(** ** The environment *)

Definition now0 : Z := seconds 1700000000.
Definition ada : Users.User :=
  {| Users.id := 5; Users.username := lit "ada"; Users.password_hash := []; Users.role := Auth.Admin; Users.token_version := 0;
     Users.created_at := now0; Users.updated_at := now0 |}.
Definition session0 : Sessions.Session :=
  {| Sessions.id := lit "s1"; Sessions.user_id := 5; Sessions.token_hash := []; Sessions.ip := None; Sessions.user_agent := None;
     Sessions.expires_at := now0 + seconds 3600; Sessions.created_at := now0 |}.
Definition agent0 : Agent := {| a_id := 42; a_owner_user_id := 5; a_revoked_at := None |}.
Definition file0 : list Z := lit "hello".
Definition env0 (u : Z) (out : rstr) : Env unit :=
  {| utc := now0; instant := 0; fault := None; uuid := u; random := replicate 32 171;
     find_user u := Ok (if u =? 5 then Some ada else None);
     find_session s := Ok (if bool_decide (s = lit "s1") then Some session0 else None);
     find_pat _ := Ok None; find_agent a := Ok (if a =? 42 then Some agent0 else None);
     online := true; send_error := None;
     reply := Replied {| IoStreams.t_task_id := []; IoStreams.status := 1; IoStreams.exit_code := 0; IoStreams.stdout := out;
                         IoStreams.stderr := []; IoStreams.error := []; IoStreams.started_at := 0; IoStreams.finished_at := 0;
                         IoStreams.t_agent_id := [] |};
     sensitive_totp := Ok () |}.
Definition auth0 : Auth.AuthSession :=
  {| Auth.session_id := lit "s1"; Auth.user_id := 5; Auth.username := lit "ada"; Auth.role := Auth.Admin; Auth.csrf_token := [];
     Auth.auth_kind := Auth.Session; Auth.scopes := []; Auth.server_ids := None; Auth.pat_id := None |}.
Definition server0 : rstr := uuid_to_string 42.
Definition token0 : rstr := lit "xlt_" ++ Auth.hex_encode (replicate 32 171).
Definition query0 : rstr := lit "token=" ++ token0.

(** ** A pool: one URL, two requests for it *)

#[local] Instance admits_dec (e : Env unit) s : Decision (admits e s).
Proof. unfold admits, uuid_ok. apply _. Defined.

Definition no_entries (s : rstr) : option (list FileEntryView) := None.
Definition no_json (j : json) : option (list Z) := None.
Definition no_url (s : rstr) : option Security.Url := None.
Definition no_text (u : Security.Url) : rstr := [].

Definition programs0 : list (Proc (Env unit) Shared unit) :=
  [served (download_url auth0 server0 (lit "/etc/motd") 60);
   served (temp_download query0 (lit "192.0.2.1"));
   served (temp_download query0 (lit "192.0.2.2"))].
Definition reply0 : rstr := Base64.base64_encode file0.
Definition schedule0 : list (nat * Env unit) :=
  ((fun n => (0%nat, env0 (Z.of_nat n) reply0)) <$> seq 100 20)
  ++ ((fun n => ((1 + n mod 2)%nat, env0 (Z.of_nat n) reply0)) <$> seq 200 60).
Definition pool0 : Pool (Env unit) Shared unit :=
  execute admits schedule0 {| state := empty_state; threads := programs0 |}.

Lemma pool0_reached : reached no_entries no_json no_url no_text pool0.
Proof.
  unfold reached. etrans; [apply (spawn_all _ _ _ programs0)|apply execute_steps].
  repeat constructor.
Qed.

Definition task0 : Sent := {| token := Some (uuid_to_string 104); recipient := 42; message := FileMessage (FileRead (lit "/etc/motd") 0 TEMP_TRANSFER_MAX_BYTES) |}.

Lemma pool0_sent : sent (state pool0) = [task0].
Proof. by vm_compute. Qed.
Lemma url_used_once_witness : 0%nat = 0%nat.
Proof.
  apply (url_used_once no_entries no_json no_url no_text pool0 0 0 task0 task0 (uuid_to_string 104));
    [exact pool0_reached|by rewrite pool0_sent|by rewrite pool0_sent|reflexivity|reflexivity].
Defined.

Lemma download_delivers_file_witness :
  ∃ h, download_response (lit "/etc/motd") (file_reply file0) = Ok {| status := OK; headers := h; payload := FileData file0 |}
    ∧ (lit "cache-control", lit "no-store") ∈ h
    ∧ (lit "content-disposition", lit "attachment; filename=" ++ [34] ++ sanitize_filename (file_name_of (lit "/etc/motd")) ++ [34]) ∈ h.
Proof.
  apply (download_delivers_file (lit "/etc/motd") file0); [|by vm_compute|].
  2: { intros v Hv. apply forallb_forall. intros c Hc%list_elem_of_In. eapply Forall_forall in Hv; [|exact Hc]. cbn in Hv. lia. }
  apply Forall_forall. intros b Hb. apply (forallb_In (fun b => (0 <=? b) && (b <? 256)) file0) in Hb; [lia|by vm_compute].
Defined.

(** ** Handlers that run alone *)

Definition steps {A} (m : Proc (Env unit) Shared A) (s : Shared) : list (Env unit * Shared * Shared) :=
  solo (replicate 40 (env0 300 reply0)) m s.
Definition seen {A} k (m : Proc (Env unit) Shared A) s : list (Env unit * Shared) := fst <$> take k (steps m s).
Definition before {A} k (m : Proc (Env unit) Shared A) s : Shared := default empty_state ((fun x => x.1.2) <$> steps m s !! k).
Definition after {A} k (m : Proc (Env unit) Shared A) s : Shared := default empty_state (snd <$> steps m s !! k).

(** Step [k] sends a message. *)
Definition sends_at {A} k (m : Proc (Env unit) Shared A) s : bool :=
  match steps m s !! k with Some (_, t, t') => length (sent t) <? length (sent t') | None => false end%nat.

Lemma sends_makes {A} k (m : Proc (Env unit) Shared A) s :
  sends_at k m s = true →
  ∃ e, makes m (seen k m s) e (before k m s) (after k m s) ∧ sent (after k m s) ≠ sent (before k m s).
Proof.
  unfold sends_at, before, after, seen. destruct (steps m s !! k) as [[[e t] t']|] eqn:Ek; [|done].
  intros Hl%Nat.ltb_lt. exists e. split; [by apply solo_makes|]. cbn. intros Heq. rewrite Heq in Hl. lia.
Qed.

(** The table after Ada has made the URL. *)
Definition issued0 : Shared := state (execute admits (take 20 schedule0) {| state := empty_state; threads := programs0 |}).
Definition download0 : Proc (Env unit) Shared Response := temp_download query0 (lit "192.0.2.1").

Lemma transfer_authorized_witness :
  ∃ key v x, query_token query0 = Some key ∧ authorized key (lit "download") (seen 12 download0 issued0) v
    ∧ sent (after 12 download0 issued0) = sent (before 12 download0 issued0) ++ [x] ∧ transfer_task (lit "download") v x.
Proof.
  destruct (sends_makes 12 download0 issued0) as (e & Hm & Hs); [by vm_compute|].
  apply (transfer_authorized (lit "download") download0 query0 (lit "192.0.2.1") _ e _ _); [left; by split|exact Hm|exact Hs].
Defined.

Definition url0 : Security.Url :=
  {| Security.scheme := lit "https"; Security.username := []; Security.password := None; Security.host_str := Some (lit "github.com");
     Security.port := None; Security.port_or_known_default := Some 443;
     Security.path := lit "/lbyxiaolizi/XLStatus/releases/download/v1.2.3/xlstatus-agent-linux"; Security.query := None; Security.fragment := None |}.
Definition to_url (s : rstr) : option Security.Url := Some url0.
Definition of_url (u : Security.Url) : rstr := Security.path u.
Definition no_var (s : rstr) : option rstr := None.
Definition update0 : ForceUpdateRequest :=
  {| fu_version := lit "v1.2.3"; fu_download_url := lit "https://github.com/"; fu_checksum := Some (replicate 64 97) |}.
Definition forced0 : Proc (Env unit) Shared unit := served (force_update to_url of_url no_var auth0 server0 update0).

Definition patch0 : json := JObject [(lit "disable_nat", JBool true)].
Definition to_vec (j : json) : option (list Z) := Some (lit "{}").
Definition configured0 : Proc (Env unit) Shared unit := served (apply_config to_vec to_url auth0 server0 patch0).

End TransferExamples.
