(* ===== verification/AgentConfig.v ===== *)
(** * AgentConfig: what an Agent keeps about itself

    The configuration file of [crates/agent/src/main.rs] and how enrolment makes
    the first one. *)

From S2P Require Import Prelude Text.

Module AgentConfig.

Definition AGENT_ENROLLMENT_TOKEN_MAX_BYTES : Z := 128.
Definition REPORT_INTERVAL_SECS : Z := 3.

Record AgentConfig := {
  server : rstr; grpc_server : rstr;
  grpc_tls_ca_path : option rstr; grpc_tls_domain_name : option rstr;
  grpc_tls_client_cert_path : option rstr; grpc_tls_client_key_path : option rstr;
  agent_id : rstr; agent_name : rstr; public_key : rstr; private_key : rstr;
  report_interval_seconds : Z; ip_report_interval_seconds : Z;
  disable_auto_update : bool; disable_force_update : bool; disable_command_execute : bool;
  disable_nat : bool; disable_send_query : bool;
  file_allowed_roots : list rstr;
}.

(** Assignments to one field. *)
Definition set_server (v : rstr) (c : AgentConfig) : AgentConfig :=
  Build_AgentConfig v (grpc_server c) (grpc_tls_ca_path c) (grpc_tls_domain_name c) (grpc_tls_client_cert_path c) (grpc_tls_client_key_path c)
    (agent_id c) (agent_name c) (public_key c) (private_key c) (report_interval_seconds c) (ip_report_interval_seconds c) (disable_auto_update
    c) (disable_force_update c) (disable_command_execute c) (disable_nat c) (disable_send_query c) (file_allowed_roots c).
Definition set_grpc_server (v : rstr) (c : AgentConfig) : AgentConfig :=
  Build_AgentConfig (server c) v (grpc_tls_ca_path c) (grpc_tls_domain_name c) (grpc_tls_client_cert_path c) (grpc_tls_client_key_path c)
    (agent_id c) (agent_name c) (public_key c) (private_key c) (report_interval_seconds c) (ip_report_interval_seconds c) (disable_auto_update
    c) (disable_force_update c) (disable_command_execute c) (disable_nat c) (disable_send_query c) (file_allowed_roots c).
Definition set_grpc_tls_ca_path (v : option rstr) (c : AgentConfig) : AgentConfig :=
  Build_AgentConfig (server c) (grpc_server c) v (grpc_tls_domain_name c) (grpc_tls_client_cert_path c) (grpc_tls_client_key_path c) (agent_id
    c) (agent_name c) (public_key c) (private_key c) (report_interval_seconds c) (ip_report_interval_seconds c) (disable_auto_update c)
    (disable_force_update c) (disable_command_execute c) (disable_nat c) (disable_send_query c) (file_allowed_roots c).
Definition set_grpc_tls_domain_name (v : option rstr) (c : AgentConfig) : AgentConfig :=
  Build_AgentConfig (server c) (grpc_server c) (grpc_tls_ca_path c) v (grpc_tls_client_cert_path c) (grpc_tls_client_key_path c) (agent_id c)
    (agent_name c) (public_key c) (private_key c) (report_interval_seconds c) (ip_report_interval_seconds c) (disable_auto_update c)
    (disable_force_update c) (disable_command_execute c) (disable_nat c) (disable_send_query c) (file_allowed_roots c).
Definition set_grpc_tls_client_cert_path (v : option rstr) (c : AgentConfig) : AgentConfig :=
  Build_AgentConfig (server c) (grpc_server c) (grpc_tls_ca_path c) (grpc_tls_domain_name c) v (grpc_tls_client_key_path c) (agent_id c)
    (agent_name c) (public_key c) (private_key c) (report_interval_seconds c) (ip_report_interval_seconds c) (disable_auto_update c)
    (disable_force_update c) (disable_command_execute c) (disable_nat c) (disable_send_query c) (file_allowed_roots c).
Definition set_grpc_tls_client_key_path (v : option rstr) (c : AgentConfig) : AgentConfig :=
  Build_AgentConfig (server c) (grpc_server c) (grpc_tls_ca_path c) (grpc_tls_domain_name c) (grpc_tls_client_cert_path c) v (agent_id c)
    (agent_name c) (public_key c) (private_key c) (report_interval_seconds c) (ip_report_interval_seconds c) (disable_auto_update c)
    (disable_force_update c) (disable_command_execute c) (disable_nat c) (disable_send_query c) (file_allowed_roots c).
Definition set_agent_name (v : rstr) (c : AgentConfig) : AgentConfig :=
  Build_AgentConfig (server c) (grpc_server c) (grpc_tls_ca_path c) (grpc_tls_domain_name c) (grpc_tls_client_cert_path c)
    (grpc_tls_client_key_path c) (agent_id c) v (public_key c) (private_key c) (report_interval_seconds c) (ip_report_interval_seconds c)
    (disable_auto_update c) (disable_force_update c) (disable_command_execute c) (disable_nat c) (disable_send_query c) (file_allowed_roots c).
Definition set_private_key (v : rstr) (c : AgentConfig) : AgentConfig :=
  Build_AgentConfig (server c) (grpc_server c) (grpc_tls_ca_path c) (grpc_tls_domain_name c) (grpc_tls_client_cert_path c)
    (grpc_tls_client_key_path c) (agent_id c) (agent_name c) (public_key c) v (report_interval_seconds c) (ip_report_interval_seconds c)
    (disable_auto_update c) (disable_force_update c) (disable_command_execute c) (disable_nat c) (disable_send_query c) (file_allowed_roots c).
Definition set_report_interval_seconds (v : Z) (c : AgentConfig) : AgentConfig :=
  Build_AgentConfig (server c) (grpc_server c) (grpc_tls_ca_path c) (grpc_tls_domain_name c) (grpc_tls_client_cert_path c)
    (grpc_tls_client_key_path c) (agent_id c) (agent_name c) (public_key c) (private_key c) v (ip_report_interval_seconds c)
    (disable_auto_update c) (disable_force_update c) (disable_command_execute c) (disable_nat c) (disable_send_query c) (file_allowed_roots c).
Definition set_ip_report_interval_seconds (v : Z) (c : AgentConfig) : AgentConfig :=
  Build_AgentConfig (server c) (grpc_server c) (grpc_tls_ca_path c) (grpc_tls_domain_name c) (grpc_tls_client_cert_path c)
    (grpc_tls_client_key_path c) (agent_id c) (agent_name c) (public_key c) (private_key c) (report_interval_seconds c) v (disable_auto_update
    c) (disable_force_update c) (disable_command_execute c) (disable_nat c) (disable_send_query c) (file_allowed_roots c).
Definition set_disable_auto_update (v : bool) (c : AgentConfig) : AgentConfig :=
  Build_AgentConfig (server c) (grpc_server c) (grpc_tls_ca_path c) (grpc_tls_domain_name c) (grpc_tls_client_cert_path c)
    (grpc_tls_client_key_path c) (agent_id c) (agent_name c) (public_key c) (private_key c) (report_interval_seconds c)
    (ip_report_interval_seconds c) v (disable_force_update c) (disable_command_execute c) (disable_nat c) (disable_send_query c)
    (file_allowed_roots c).
Definition set_disable_force_update (v : bool) (c : AgentConfig) : AgentConfig :=
  Build_AgentConfig (server c) (grpc_server c) (grpc_tls_ca_path c) (grpc_tls_domain_name c) (grpc_tls_client_cert_path c)
    (grpc_tls_client_key_path c) (agent_id c) (agent_name c) (public_key c) (private_key c) (report_interval_seconds c)
    (ip_report_interval_seconds c) (disable_auto_update c) v (disable_command_execute c) (disable_nat c) (disable_send_query c)
    (file_allowed_roots c).
Definition set_disable_command_execute (v : bool) (c : AgentConfig) : AgentConfig :=
  Build_AgentConfig (server c) (grpc_server c) (grpc_tls_ca_path c) (grpc_tls_domain_name c) (grpc_tls_client_cert_path c)
    (grpc_tls_client_key_path c) (agent_id c) (agent_name c) (public_key c) (private_key c) (report_interval_seconds c)
    (ip_report_interval_seconds c) (disable_auto_update c) (disable_force_update c) v (disable_nat c) (disable_send_query c) (file_allowed_roots
    c).
Definition set_disable_nat (v : bool) (c : AgentConfig) : AgentConfig :=
  Build_AgentConfig (server c) (grpc_server c) (grpc_tls_ca_path c) (grpc_tls_domain_name c) (grpc_tls_client_cert_path c)
    (grpc_tls_client_key_path c) (agent_id c) (agent_name c) (public_key c) (private_key c) (report_interval_seconds c)
    (ip_report_interval_seconds c) (disable_auto_update c) (disable_force_update c) (disable_command_execute c) v (disable_send_query c)
    (file_allowed_roots c).
Definition set_disable_send_query (v : bool) (c : AgentConfig) : AgentConfig :=
  Build_AgentConfig (server c) (grpc_server c) (grpc_tls_ca_path c) (grpc_tls_domain_name c) (grpc_tls_client_cert_path c)
    (grpc_tls_client_key_path c) (agent_id c) (agent_name c) (public_key c) (private_key c) (report_interval_seconds c)
    (ip_report_interval_seconds c) (disable_auto_update c) (disable_force_update c) (disable_command_execute c) (disable_nat c) v
    (file_allowed_roots c).
Definition set_file_allowed_roots (v : list rstr) (c : AgentConfig) : AgentConfig :=
  Build_AgentConfig (server c) (grpc_server c) (grpc_tls_ca_path c) (grpc_tls_domain_name c) (grpc_tls_client_cert_path c)
    (grpc_tls_client_key_path c) (agent_id c) (agent_name c) (public_key c) (private_key c) (report_interval_seconds c)
    (ip_report_interval_seconds c) (disable_auto_update c) (disable_force_update c) (disable_command_execute c) (disable_nat c)
    (disable_send_query c) v.

Definition default_report_interval_seconds : Z := REPORT_INTERVAL_SECS.
Definition default_ip_report_interval_seconds : Z := 60.
Definition default_file_allowed_roots : list rstr := [lit "/var/lib/xlstatus/files"].

(** ** Optional texts *)

Definition non_empty_string (value : rstr) : option rstr :=
  let value := trim value in if is_empty value then None else Some value.
Definition non_empty_config_path (value : option rstr) : option rstr := value ≫= non_empty_string.
Definition normalize_optional_string (value : option rstr) : option rstr := value ≫= non_empty_string.

(** ** Enrolment *)

Inductive EnrollError : Type :=
| TokenRequired | NoToken | TokenTooLong | TokenHasWhitespace | StdinNotUtf8
| EnrollmentFailed (reason : rstr) | NoData.

Definition normalize_enrollment_token_input (raw : rstr) : result EnrollError rstr :=
  let token := trim raw in
  if is_empty token then Err TokenRequired else
  if AGENT_ENROLLMENT_TOKEN_MAX_BYTES <? byte_len token then Err TokenTooLong else
  if existsb is_whitespace token then Err TokenHasWhitespace else Ok token.

(** [reader.take(MAX + 2).read_to_string(..)]: bytes cut inside a character are not UTF-8. *)
Definition enrollment_token_from_sources (token : option rstr) (token_stdin : bool) (stdin : list Z) : result EnrollError rstr :=
  if token_stdin then
    raw ← ok_or (from_utf8 (take (Z.to_nat (AGENT_ENROLLMENT_TOKEN_MAX_BYTES + 2)) stdin)) StdinNotUtf8;
    normalize_enrollment_token_input raw
  else
    token ← ok_or token NoToken;
    normalize_enrollment_token_input token.

(** [strip_prefix("http://")], then [strip_suffix(":8080")]. *)
Definition strip_prefix (p s : rstr) : option rstr := if starts_with p s then Some (drop (length p) s) else None.
Definition strip_suffix (p s : rstr) : option rstr := if ends_with p s then Some (take (length s - length p) s) else None.
Definition infer_grpc_url (server : rstr) : rstr :=
  match strip_prefix (lit "http://") server ≫= strip_suffix (lit ":8080") with
  | Some host => lit "http://" ++ host ++ lit ":50051"
  | None => server
  end.

Record AgentTlsConfigInput := {
  ca_path : option rstr; domain_name : option rstr; client_cert_path : option rstr; client_key_path : option rstr;
}.
Record EnrollResponse := { er_agent_id : rstr; er_name : rstr }.
Record ApiResponse (A : Type) := { success : bool; data : option A; api_error : option rstr }.
Arguments success {A}. Arguments data {A}. Arguments api_error {A}.

(** The configuration [enroll_agent] writes, given the server's answer to the
    request for the key pair it made (in hexadecimal). *)
Definition enroll_agent (server : rstr) (grpc_server : option rstr) (tls : AgentTlsConfigInput) (public_key private_key : rstr)
    (response : ApiResponse EnrollResponse) : result EnrollError AgentConfig :=
  let server := trim_end_by (Z.eqb 47) server in
  let grpc_server := default (infer_grpc_url server) grpc_server in
  if negb (success response) then Err (EnrollmentFailed (default (lit "unknown error") (api_error response))) else
  enrolled ← ok_or (data response) NoData;
  Ok {| server := server; grpc_server := grpc_server;
        grpc_tls_ca_path := normalize_optional_string (ca_path tls);
        grpc_tls_domain_name := normalize_optional_string (domain_name tls);
        grpc_tls_client_cert_path := normalize_optional_string (client_cert_path tls);
        grpc_tls_client_key_path := normalize_optional_string (client_key_path tls);
        agent_id := er_agent_id enrolled; agent_name := er_name enrolled; public_key := public_key; private_key := private_key;
        report_interval_seconds := default_report_interval_seconds; ip_report_interval_seconds := default_ip_report_interval_seconds;
        disable_auto_update := false; disable_force_update := false; disable_command_execute := false;
        disable_nat := false; disable_send_query := false;
        file_allowed_roots := default_file_allowed_roots |}.

End AgentConfig.
