(* ===== verification/AgentFiles.v ===== *)
(** * AgentFiles: file access on the Agent

    [crates/agent/src/executor/files.rs] on Unix, and the file tasks of
    [main.rs]. A file system is a table of numbered nodes; a file descriptor is
    the number of its node. Every system call is one atomic step of a program of
    [Interleave]: other processes may change anything between two of them, and
    any call may fail. Path arguments are the bytes of a Unix path. Of an error
    text the fixed part is kept. *)

From S2P Require Import Prelude Text BTreeMap Externals IoStreams Base64 Interleave Rfc3339 AgentConfig.

Module AgentFiles.
Import Interleave AgentConfig.

Definition DEFAULT_FILE_READ_MAX_BYTES : Z := 2 * 1024 * 1024.
Definition HARD_MAX_FILE_READ_BYTES : Z := 100 * 1024 * 1024.
Definition HARD_MAX_FILE_WRITE_BYTES : Z := 100 * 1024 * 1024.
Definition MAX_DIRECTORY_ENTRIES : Z := 10000.
Definition FILE_PERMISSION_BITS_MASK : Z := 511.

(** ** The file system *)

Abbreviation name := (list Z).
Inductive Kind : Type :=
| Regular (data : list Z)
| Directory (children : list (name * Z))           (** in the order [readdir] gives *)
| Symlink (target : list Z)
| Special.                                         (** a device, a socket or a pipe *)
Record Node := { kind : Kind; mode : Z; mtime : Z; extent : Z }.
Abbreviation Fs := (gmap Z Node).
Definition ROOT : Z := 1.

Inductive Errno : Type := ENOENT | ENOTDIR | ELOOP | EEXIST | ENOTEMPTY | EISDIR | EMFILE | EINVAL | EIO.
#[global] Instance errno_eq_dec : EqDecision Errno.
Proof. solve_decision. Defined.

(** Around a step: a call that fails, how much a failing write wrote, the number
    of a new node, its permissions and the time. *)
Record Env := { fault : option Errno; partial : nat; new_ino : Z; umasked : Z → Z; clock : Z }.

Inductive FileError : Type :=
| Bail (message : rstr)
| Os (context : rstr) (e : Errno)
| Within (context : rstr) (inner : FileError).
Abbreviation PF := (P Env Fs FileError).
Definition bail {A} (message : rstr) : PF A := throw (Bail message).
Definition context {A} (text : rstr) (m : P Env Fs Errno A) : PF A := map_err (Os text) m.
(** [.context(text)] on an error that has a text already. *)
Definition within {A} (text : rstr) (m : PF A) : PF A := map_err (Within text) m.

(** A system call. *)
Definition syscall {A} (f : Env → Fs → result Errno A * Fs) : P Env Fs Errno A :=
  atomic (fun e s => match fault e with Some x => (Err x, s) | None => match f e s with (Ok a, s') => (Ok a, s') | (Err x, _) => (Err x, s) end end).

Definition children_of (s : Fs) (d : Z) : option (list (name * Z)) :=
  match s !! d with Some n => match kind n with Directory l => Some l | _ => None end | None => None end.
Definition child (s : Fs) (d : Z) (x : name) : option Z :=
  l ← children_of s d; snd <$> head (filter (fun kv => kv.1 = x) l).

(** ** Paths *)

(** A path as the kernel reads it; [Here] is [.] or an empty piece. *)
Inductive Piece : Type := Name (x : name) | Up | Here.
#[global] Instance piece_eq_dec : EqDecision Piece.
Proof. solve_decision. Defined.
Definition slash : Z := 47.
Definition piece (x : list Z) : Piece :=
  if bool_decide (x = [] ∨ x = lit ".") then Here else if bool_decide (x = lit "..") then Up else Name x.
Definition pieces (path : list Z) : list Piece := piece <$> tail (split_by (Z.eqb slash) path).
Definition relative_pieces (path : list Z) : list Piece := piece <$> split_by (Z.eqb slash) path.

(** [Path::components] of an absolute path, after the root. *)
Definition components (p : list Piece) : list Piece := filter (fun x => x ≠ Here) p.
Definition parent (p : list Piece) : option (list Piece) :=
  match reverse (components p) with [] => None | _ :: r => Some (reverse r) end.
Definition file_name (p : list Piece) : option name :=
  match last (components p) with Some (Name x) => Some x | _ => None end.
(** [Path::starts_with] and [Path::strip_prefix]. *)
Definition path_starts_with (p base : list Piece) : bool := bool_decide (components base `prefix_of` components p).
Definition path_strip_prefix (p base : list Piece) : option (list Piece) :=
  if path_starts_with p base then Some (drop (length (components base)) (components p)) else None.

(** Path resolution following symbolic links, at most [SYMLOOP] of them: the names
    from the root to the node, last first, each with its number. *)
Definition SYMLOOP : nat := 40.
Definition top (stack : list (name * Z)) : Z := match stack with [] => ROOT | (_, i) :: _ => i end.

Fixpoint walk (links : nat) (s : Fs) : list (name * Z) → list Piece → result Errno (list (name * Z)) :=
  fix go stack ps :=
    match ps with
    | [] => Ok stack
    | p :: ps =>
        match children_of s (top stack) with
        | None => Err ENOTDIR
        | Some _ =>
            match p with
            | Here => go stack ps
            | Up => go (tail stack) ps
            | Name x =>
                match child s (top stack) x with
                | None => Err ENOENT
                | Some i =>
                    match kind <$> s !! i with
                    | Some (Symlink target) =>
                        match links with
                        | O => Err ELOOP
                        | S links =>
                            if is_empty target then Err ENOENT
                            else if starts_with [slash] target then walk links s [] (pieces target ++ ps)
                            else walk links s stack (relative_pieces target ++ ps)
                        end
                    | Some _ => go ((x, i) :: stack) ps
                    | None => Err ENOENT
                    end
                end
            end
        end
    end.
Definition canonical (s : Fs) (p : list Piece) : result Errno (list name) :=
  match walk SYMLOOP s [] p with Ok stack => Ok (reverse stack.*1) | Err x => Err x end.

(** [fs::canonicalize], and [fs::try_exists(..).unwrap_or(false)]. *)
Definition canonicalize (p : list Piece) : P Env Fs Errno (list name) := syscall (fun _ s => (canonical s p, s)).
Definition exists_ (p : list Piece) : PF bool :=
  atomic (fun e s => (Ok (match fault e with Some _ => false | None => is_ok (canonical s p) end), s)).

(** ** System calls on a directory *)

(** [openat(O_DIRECTORY | O_NOFOLLOW)], [fstatat(AT_SYMLINK_NOFOLLOW)], [mkdirat]. *)
Definition try_open_dir_at (d : Z) (x : name) : P Env Fs Errno Z :=
  syscall (fun _ s =>
    (match child s d x with
     | None => Err ENOENT
     | Some i => match kind <$> s !! i with Some (Directory _) => Ok i | Some (Symlink _) => Err ELOOP | _ => Err ENOTDIR end
     end, s)).

(** [libc::stat]: the type is in the upper bits of the mode. *)
Record Stat := { st_mode : Z; st_size : Z; st_mtime : Z }.
Definition S_IFMT : Z := 61440.
Definition S_IFREG : Z := 32768.
Definition S_IFDIR : Z := 16384.
Definition S_IFLNK : Z := 40960.
Definition S_IFIFO : Z := 4096.
Definition type_bits (k : Kind) : Z :=
  match k with Regular _ => S_IFREG | Directory _ => S_IFDIR | Symlink _ => S_IFLNK | Special => S_IFIFO end.
Definition stat_of (n : Node) : Stat :=
  {| st_mode := Z.lor (type_bits (kind n)) (Z.land (mode n) 4095);
     st_size := match kind n with Regular data => zlen data | Symlink t => zlen t | _ => extent n end; st_mtime := mtime n |}.
Definition is_dir_mode (m : Z) : bool := Z.land m S_IFMT =? S_IFDIR.
Definition is_file_mode (m : Z) : bool := Z.land m S_IFMT =? S_IFREG.
Definition is_symlink_mode (m : Z) : bool := Z.land m S_IFMT =? S_IFLNK.

Definition child_metadata_no_follow (d : Z) (x : name) : PF Stat :=
  context (lit "Failed to stat path")
    (syscall (fun _ s => (match child s d x ≫= (fun i => s !! i) with Some n => Ok (stat_of n) | None => Err ENOENT end, s))).
(** [fstat]. *)
Definition file_metadata (i : Z) : PF Stat :=
  context (lit "Failed to stat file") (syscall (fun _ s => (match s !! i with Some n => Ok (stat_of n) | None => Err EIO end, s))).

Definition set_kind (k : Kind) (n : Node) : Node := {| kind := k; mode := mode n; mtime := mtime n; extent := extent n |}.
Definition set_mode (m : Z) (n : Node) : Node := {| kind := kind n; mode := m; mtime := mtime n; extent := extent n |}.

(** A new node in directory [d]; there must be a free number. *)
Definition add_child (e : Env) (d : Z) (x : name) (k : Kind) (m : Z) (s : Fs) : result Errno Z * Fs :=
  match s !! d with
  | Some n => match kind n with
              | Directory l => if bool_decide (is_Some (s !! new_ino e)) then (Err EIO, s) else
                  (Ok (new_ino e), <[new_ino e := {| kind := k; mode := umasked e m; mtime := clock e; extent := 0 |}]>
                                     (<[d := set_kind (Directory (l ++ [(x, new_ino e)])) n]> s))
              | _ => (Err ENOTDIR, s)
              end
  | None => (Err ENOENT, s)
  end.
(** [mkdirat]. *)
Definition mkdir_child_dir (d : Z) (x : name) : PF unit :=
  context (lit "Failed to create directory")
    (syscall (fun e s => match child s d x with
                         | Some _ => (Err EEXIST, s)
                         | None => let '(r, s') := add_child e d x (Directory []) 511 s in (match r with Ok _ => Ok () | Err y => Err y end, s')
                         end)).

(** [openat] on the last name: for reading, and for writing with [O_CREAT]. *)
Definition open_read_at (d : Z) (x : name) : P Env Fs Errno Z :=
  syscall (fun _ s =>
    (match child s d x with
     | None => Err ENOENT
     | Some i => match kind <$> s !! i with Some (Symlink _) => Err ELOOP | Some _ => Ok i | None => Err ENOENT end
     end, s)).
Definition open_write_at (d : Z) (x : name) : P Env Fs Errno Z :=
  syscall (fun e s =>
    match child s d x with
    | None => add_child e d x (Regular []) 438 s
    | Some i => (match kind <$> s !! i with
                 | Some (Symlink _) => Err ELOOP | Some (Directory _) => Err EISDIR | Some _ => Ok i | None => Err ENOENT
                 end, s)
    end).

(** [ftruncate(fd, 0)], [write_all] from the start of the file, [fchmod]. *)
Definition with_data (f : list Z → list Z) (i : Z) (s : Fs) : result Errno unit * Fs :=
  match s !! i with
  | Some n => match kind n with Regular data => (Ok (), <[i := set_kind (Regular (f data)) n]> s) | _ => (Err EINVAL, s) end
  | None => (Err EIO, s)
  end.
Definition ftruncate (i : Z) : P Env Fs Errno unit := syscall (fun _ s => with_data (fun _ => []) i s).
Definition overwrite (new old : list Z) : list Z := new ++ drop (length new) old.
(** A failing write may have written some of the bytes. *)
Definition write_all (i : Z) (data : list Z) : P Env Fs Errno unit :=
  atomic (fun e s => match fault e with
                     | Some x => (Err x, (with_data (overwrite (take (partial e) data)) i s).2)
                     | None => with_data (overwrite data) i s
                     end).
Definition fchmod (i : Z) (m : Z) : P Env Fs Errno unit :=
  syscall (fun _ s => match s !! i with Some n => (Ok (), <[i := set_mode m n]> s) | None => (Err EIO, s) end).
(** [flush]: only its failure matters. *)
Definition flush (i : Z) : P Env Fs Errno unit := syscall (fun _ s => (Ok (), s)).
(** [fcntl], before and after; only its failure matters. *)
Definition clear_nonblock_flag (i : Z) : PF unit :=
  context (lit "Failed to read file status flags") (syscall (fun _ s => (Ok (), s)));;
  context (lit "Failed to clear nonblocking flag") (syscall (fun _ s => (Ok (), s))).

(** [unlinkat]. *)
Definition remove_child (d : Z) (x : name) (s : Fs) : Fs :=
  match s !! d with
  | Some n => match kind n with
              | Directory l => <[d := set_kind (Directory (filter (fun kv => kv.1 ≠ x) l)) n]> s
              | _ => s
              end
  | None => s
  end.
Definition unlink_child (d : Z) (x : name) : PF unit :=
  context (lit "Failed to unlink path")
    (syscall (fun _ s => match child s d x with
                         | None => (Err ENOENT, s)
                         | Some i => match kind <$> s !! i with
                                     | Some (Directory _) => (Err EISDIR, s)
                                     | _ => (Ok (), remove_child d x s)
                                     end
                         end)).
Definition unlink_child_dir (d : Z) (x : name) : PF unit :=
  context (lit "Failed to unlink path")
    (syscall (fun _ s => match child s d x with
                         | None => (Err ENOENT, s)
                         | Some i => match kind <$> s !! i with
                                     | Some (Directory []) => (Ok (), remove_child d x s)
                                     | Some (Directory _) => (Err ENOTEMPTY, s)
                                     | _ => (Err ENOTDIR, s)
                                     end
                         end)).

(** [readdir] until the end or one name too many, and [readlinkat]. *)
Definition read_dir_names (d : Z) : PF (list name) :=
  context (lit "Failed to duplicate directory fd") (syscall (fun _ s => (Ok (), s)));;
  names ← context (lit "Failed to open directory stream")
            (syscall (fun _ s => (match children_of s d with Some l => Ok l.*1 | None => Err ENOTDIR end, s)));
  context (lit "Failed to close directory stream") (syscall (fun _ s => (Ok (), s)));;
  if MAX_DIRECTORY_ENTRIES <? zlen (filter (fun x => x ≠ lit "." ∧ x ≠ lit "..") names)
  then bail (lit "Directory contains more than 10000 entries")
  else mret (filter (fun x => x ≠ lit "." ∧ x ≠ lit "..") names).
Definition read_link_child (d : Z) (x : name) (expected_size : Z) : PF rstr :=
  let buffer_len := Z.max 256 (Z.min (saturating_add usize_max (Z.max 0 expected_size) 1) 65536) in
  target ← context (lit "Failed to read symlink")
             (syscall (fun _ s => (match child s d x ≫= (fun i => s !! i) with
                                   | Some n => match kind n with Symlink t => Ok (take (Z.to_nat buffer_len) t) | _ => Err EINVAL end
                                   | None => Err ENOENT
                                   end, s)));
  of_result (ok_or (from_utf8 target) (Bail (lit "Symlink target is not valid UTF-8"))).

(** ** Walking without following links *)

Definition open_dir_at (d : Z) (x : name) : PF Z := context (lit "Failed to open parent directory") (try_open_dir_at d x).
Definition open_child_dir_no_follow : Z → name → PF Z := open_dir_at.
(** [openat("/")]. *)
Definition open_root_dir_no_follow : PF Z :=
  context (lit "Failed to open parent directory") (syscall (fun _ s => (match children_of s ROOT with Some _ => Ok ROOT | None => Err ENOTDIR end, s))).

Fixpoint normal_names (p : list Piece) : option (list name) :=
  match p with
  | [] => Some []
  | Name x :: p => l ← normal_names p; Some (x :: l)
  | _ :: _ => None
  end.
Definition absolute_normal_components (p : list Piece) : PF (list name) :=
  of_result (ok_or (normal_names (components p)) (Bail (lit "Path must not contain relative components"))).

Fixpoint open_dirs (d : Z) (parts : list name) : PF Z :=
  match parts with
  | [] => mret d
  | x :: parts => next ← open_child_dir_no_follow d x; open_dirs next parts
  end.
Definition open_dir_parts_no_follow (parts : list name) : PF Z := root ← open_root_dir_no_follow; open_dirs root parts.
Definition open_dir_path_no_follow (p : list Piece) : PF Z := parts ← absolute_normal_components p; open_dir_parts_no_follow parts.

(** [split_last]. *)
Definition split_last (parts : list name) : PF (name * list name) :=
  of_result (ok_or (match reverse parts with [] => None | x :: r => Some (x, reverse r) end) (Bail (lit "Path has no file name"))).

Fixpoint create_dirs_from (d : Z) (parts : list name) : PF unit :=
  match parts with
  | [] => mret ()
  | x :: parts =>
      proc_bind (try_open_dir_at d x) (fun r =>
        match r with
        | Ok next => create_dirs_from next parts
        | Err ENOENT => mkdir_child_dir d x;; next ← open_child_dir_no_follow d x; create_dirs_from next parts
        | Err e => throw (Os (lit "Failed to open parent directory") e)
        end)
  end.
Definition create_dir_all_no_symlink (p : list Piece) : PF unit :=
  parts ← absolute_normal_components p; root ← open_root_dir_no_follow; create_dirs_from root parts.

Definition not_regular {A} : PF A := bail (lit "Path is not a regular file").

(** [if let Ok(existing) = child_metadata_no_follow(..)]: a failure is passed over. *)
Definition check_existing (d : Z) (x : name) : PF unit :=
  proc_bind (child_metadata_no_follow d x) (fun r =>
    match r with Ok st => if is_file_mode (st_mode st) then Ret (Ok ()) else not_regular | Err _ => Ret (Ok ()) end).
Definition check_opened (i : Z) : PF unit := st ← within (lit "Failed to read metadata") (file_metadata i); if is_file_mode (st_mode st) then mret () else not_regular.

Definition open_child_file_no_follow (d : Z) (x : name) : PF Z :=
  check_existing d x;;
  i ← context (lit "Failed to open file") (open_write_at d x);
  check_opened i;;
  clear_nonblock_flag i;;
  context (lit "Failed to truncate file") (ftruncate i);;
  mret i.

Definition open_child_file_read_no_follow (d : Z) (x : name) : PF Z :=
  st ← within (lit "Failed to stat file") (child_metadata_no_follow d x);
  if negb (is_file_mode (st_mode st)) then not_regular else
  i ← context (lit "Failed to open file") (open_read_at d x);
  check_opened i;;
  clear_nonblock_flag i;;
  mret i.

Definition create_file_no_symlink (p : list Piece) : PF Z :=
  parts ← absolute_normal_components p;
  '(file, parent_parts) ← split_last parts;
  root ← open_root_dir_no_follow;
  d ← open_dirs root parent_parts;
  open_child_file_no_follow d file.

(** ** Allowed roots *)

(** [path.trim()], then the bytes. *)
Definition validate_absolute_path (path : rstr) : result FileError (list Piece) :=
  if contains 0 path then Err (Bail (lit "Path contains NUL byte")) else
  let bytes := str_bytes (trim path) in
  if negb (starts_with [slash] bytes) then Err (Bail (lit "Path must be absolute")) else Ok (pieces bytes).

Definition of_names (l : list name) : list Piece := Name <$> l.
Definition is_root (p : list Piece) : bool := match parent p with None => true | Some _ => false end.
Definition no_root {A} : PF A := bail (lit "Filesystem root cannot be used as an allowed file root").

(** [while !try_exists(ancestor)]: [up] is the path, last component first. *)
Fixpoint existing_ancestor (what : rstr) (up : list Piece) : PF (list Piece) :=
  there ← exists_ (reverse up);
  if (there : bool) then mret (reverse up) else
  match up with [] => bail (what ++ lit " has no existing parent") | _ :: up => existing_ancestor what up end.
Definition nearest_ancestor (what : rstr) (p : list Piece) : PF (list Piece) :=
  up ← of_result (ok_or (parent p) (Bail (what ++ lit " has no parent"))); existing_ancestor what (reverse up).

Definition create_missing_root (root : list Piece) : PF unit :=
  there ← exists_ root;
  if (there : bool) then mret () else
  ancestor ← nearest_ancestor (lit "Allowed root") root;
  canonical_ancestor ← context (lit "Ancestor does not exist") (canonicalize ancestor);
  relative ← of_result (ok_or (path_strip_prefix root ancestor) (Bail (lit "Allowed root is not below ancestor")));
  within (lit "Failed to create allowed root") (create_dir_all_no_symlink (of_names canonical_ancestor ++ relative)).

Definition canonical_root (root : rstr) (create_missing : bool) : PF (list name) :=
  root ← of_result (validate_absolute_path root);
  if is_root root then no_root else
  (if create_missing then create_missing_root root else mret ());;
  canonical ← context (lit "Allowed root does not exist") (canonicalize root);
  match canonical with [] => no_root | _ => mret canonical end.

Fixpoint canonical_roots (roots : list rstr) (create_missing : bool) : PF (list (list name)) :=
  match roots with
  | [] => mret []
  | r :: roots => c ← canonical_root r create_missing; cs ← canonical_roots roots create_missing; mret (c :: cs)
  end.
Definition canonical_allowed_roots (allowed_roots : list rstr) (create_missing : bool) : PF (list (list name)) :=
  if is_empty allowed_roots then bail (lit "no allowed file roots configured") else canonical_roots allowed_roots create_missing.

Definition under_roots (p : list Piece) (roots : list (list name)) : bool := existsb (fun root => path_starts_with p (of_names root)) roots.
Definition ensure_under_allowed_roots (p : list Piece) (roots : list (list name)) : PF unit :=
  if under_roots p roots then mret () else bail (lit "Path is outside configured allowed file roots").

Definition resolve_existing_path (path : rstr) (roots : list (list name)) : PF (list Piece) :=
  p ← of_result (validate_absolute_path path);
  c ← context (lit "Path does not exist") (canonicalize p);
  ensure_under_allowed_roots (of_names c) roots;;
  mret (of_names c).

Definition resolve_write_target (p : list Piece) (roots : list (list name)) : PF (list Piece) :=
  there ← exists_ p;
  if (there : bool) then
    c ← context (lit "Path does not exist") (canonicalize p);
    ensure_under_allowed_roots (of_names c) roots;;
    mret (of_names c)
  else
    ancestor ← nearest_ancestor (lit "Path") p;
    c ← context (lit "Parent does not exist") (canonicalize ancestor);
    ensure_under_allowed_roots (of_names c) roots;;
    relative ← of_result (ok_or (path_strip_prefix p ancestor) (Bail (lit "Path is not below ancestor")));
    let target := of_names c ++ relative in
    if under_roots target roots then mret target else bail (lit "Path is outside configured allowed file roots").

(** ** Operations *)

Definition bounded_read_length (length : Z) : result FileError Z :=
  if length =? 0 then Ok DEFAULT_FILE_READ_MAX_BYTES
  else if HARD_MAX_FILE_READ_BYTES <? length then Err (Bail (lit "File read length exceeds maximum allowed size of 104857600 bytes"))
  else Ok length.

(** [mode & !FILE_PERMISSION_BITS_MASK != 0]. *)
Definition odd_mode (m : Z) : bool := negb (Z.ldiff m FILE_PERMISSION_BITS_MASK =? 0).
Definition bad_mode : FileError := Bail (lit "File mode must only contain permission bits (0o777)").
Definition ensure_write_bounds_and_mode (data : list Z) (mode : option Z) : result FileError unit :=
  if HARD_MAX_FILE_WRITE_BYTES <? zlen data then Err (Bail (lit "File write data exceeds maximum allowed size of 104857600 bytes")) else
  match mode with Some m => if odd_mode m then Err bad_mode else Ok () | None => Ok () end.

Definition set_file_mode (i : Z) (m : Z) : PF unit :=
  if odd_mode m then throw bad_mode else
  context (lit "Failed to set permissions") (fchmod i (Z.land m FILE_PERMISSION_BITS_MASK)).

Definition write_file (path : rstr) (data : list Z) (mode : option Z) (create_dirs : bool) (allowed_roots : list rstr) : PF Z :=
  of_result (ensure_write_bounds_and_mode data mode);;
  roots ← canonical_allowed_roots allowed_roots true;
  p ← of_result (validate_absolute_path path);
  target ← resolve_write_target p roots;
  (if create_dirs then match parent target with Some up => within (lit "Failed to create parent directories") (create_dir_all_no_symlink up) | None => mret () end else mret ());;
  target ← resolve_write_target p roots;
  i ← within (lit "Failed to create file") (create_file_no_symlink target);
  context (lit "Failed to write file") (write_all i data);;
  context (lit "Failed to flush file") (flush i);;
  match mode with Some m => set_file_mode i m | None => mret () end;;
  mret (zlen data).

(** [seek], then [read_to_end] of [take(max_read)]. *)
Definition read_at (i offset max_read : Z) : PF (list Z) :=
  if (0 <? offset) && (i64_max <? offset) then throw (Os (lit "Failed to seek") EINVAL) else
  context (lit "Failed to read file")
    (syscall (fun _ s => (match s !! i with
                          | Some n => match kind n with
                                      | Regular data => Ok (take (Z.to_nat max_read) (drop (Z.to_nat offset) data))
                                      | _ => Err EISDIR
                                      end
                          | None => Err EIO
                          end, s))).

Definition read_file (path : rstr) (offset length : Z) (allowed_roots : list rstr) : PF (list Z) :=
  max_read ← of_result (bounded_read_length length);
  roots ← canonical_allowed_roots allowed_roots false;
  p ← resolve_existing_path path roots;
  parts ← absolute_normal_components p;
  '(file, parent_parts) ← split_last parts;
  d ← open_dir_parts_no_follow parent_parts;
  i ← open_child_file_read_no_follow d file;
  read_at i offset max_read.

Inductive FileType : Type := File | Dir | Symlink_.
Record FileEntry := { fe_name : rstr; fe_type : FileType; fe_size : Z; fe_mode : Z; fe_modified_at : Z; fe_symlink_target : option rstr }.

Section listing.
(** [OsString::to_string_lossy]. *)
Context (to_string_lossy : list Z → rstr).

Definition list_entry (d : Z) (x : name) : PF FileEntry :=
  st ← within (lit "Failed to read metadata") (child_metadata_no_follow d x);
  let ty := if is_symlink_mode (st_mode st) then Symlink_ else if is_dir_mode (st_mode st) then Dir else File in
  target ← (if is_symlink_mode (st_mode st)
            then proc_bind (read_link_child d x (st_size st)) (fun r => Ret (Ok (match r with Ok t => Some t | Err _ => None end)))
            else mret None);
  mret {| fe_name := to_string_lossy x; fe_type := ty; fe_size := Z.max 0 (st_size st); fe_mode := st_mode st;
          fe_modified_at := st_mtime st; fe_symlink_target := target |}.
Fixpoint list_entries (d : Z) (names : list name) : PF (list FileEntry) :=
  match names with
  | [] => mret []
  | x :: names => entry ← list_entry d x; entries ← list_entries d names; mret (entry :: entries)
  end.

Definition entry_before (a b : FileEntry) : Prop := str_leb (fe_name a) (fe_name b) = true.
#[global] Instance entry_before_dec a b : Decision (entry_before a b).
Proof. unfold entry_before. apply _. Defined.

Definition list_files (path : rstr) (allowed_roots : list rstr) : PF (list FileEntry) :=
  roots ← canonical_allowed_roots allowed_roots false;
  p ← resolve_existing_path path roots;
  d ← open_dir_path_no_follow p;
  names ← within (lit "Failed to read directory") (read_dir_names d);
  entries ← list_entries d names;
  mret (merge_sort entry_before entries).
End listing.

(** [for entry in entries { .. }]. *)
Definition for_entries (body : name → PF unit) : list name → PF unit :=
  fix each l := match l with [] => mret () | y :: l => body y;; each l end.

(** [remove_dir_all_at] keeps one descriptor open per level; [fds] is how many more
    the process may open. *)
Fixpoint remove_dir_all_at (fds : nat) (d : Z) (x : name) : PF unit :=
  match fds with
  | O => throw (Os (lit "Failed to open parent directory") EMFILE)
  | S fds =>
      dir ← open_child_dir_no_follow d x;
      entries ← within (lit "Failed to read directory") (read_dir_names dir);
      for_entries (fun y => st ← within (lit "Failed to read metadata") (child_metadata_no_follow dir y);
                            if is_dir_mode (st_mode st) then remove_dir_all_at fds dir y else unlink_child dir y) entries;;
      unlink_child_dir d x
  end.

Definition delete_path_no_symlink (fds : nat) (p : list Piece) (recursive : bool) : PF unit :=
  parts ← absolute_normal_components p;
  '(target, parent_parts) ← split_last parts;
  d ← open_dir_parts_no_follow parent_parts;
  st ← within (lit "Failed to read metadata") (child_metadata_no_follow d target);
  if is_dir_mode (st_mode st) then
    if recursive then within (lit "Failed to delete directory") (remove_dir_all_at fds d target)
    else within (lit "Failed to delete directory (not empty?)") (unlink_child_dir d target)
  else within (lit "Failed to delete file") (unlink_child d target).

Definition delete_path (fds : nat) (path : rstr) (recursive : bool) (allowed_roots : list rstr) : PF unit :=
  roots ← canonical_allowed_roots allowed_roots false;
  raw ← of_result (validate_absolute_path path);
  if is_root raw then bail (lit "Cannot delete root directory") else
  up ← of_result (ok_or (parent raw) (Bail (lit "Path has no parent")));
  file ← of_result (ok_or (file_name raw) (Bail (lit "Path has no file name")));
  c ← context (lit "Parent does not exist") (canonicalize up);
  ensure_under_allowed_roots (of_names c) roots;;
  delete_path_no_symlink fds (of_names c ++ [Name file]) recursive.

(** ** The tasks of the server *)

Inductive FileSpec : Type :=
| FileList (path : rstr)
| FileRead (path : rstr) (offset length : Z)
| FileWrite (path : rstr) (data : list Z) (mode : Z) (create_dirs : bool)
| FileDelete (path : rstr) (recursive : bool).
(** Status 1 is [TaskOutcome::Success], 2 is [TaskOutcome::Failure]. *)
Record TaskOutput := { status : Z; exit_code : Z; stdout : rstr; error : rstr }.

Section tasks.
Context (to_string_lossy : list Z → rstr) (entries_json : list FileEntry → rstr) (error_text : FileError → rstr) (fds : nat).

Definition finish {A} (show : A → rstr) (m : PF A) : Proc Env Fs TaskOutput :=
  proc_bind m (fun r => Ret (match r with
    | Ok a => {| status := 1; exit_code := 0; stdout := show a; error := [] |}
    | Err x => {| status := 2; exit_code := 1; stdout := []; error := error_text x |}
    end)).

Definition run_file_task (cfg : AgentConfig) (spec : FileSpec) : Proc Env Fs TaskOutput :=
  if disable_command_execute cfg
  then Ret {| status := 2; exit_code := 126; stdout := []; error := lit "file access disabled by agent policy" |} else
  match spec with
  | FileList path => finish entries_json (list_files to_string_lossy path (file_allowed_roots cfg))
  | FileRead path offset length => finish Base64.base64_encode (read_file path offset length (file_allowed_roots cfg))
  | FileWrite path data mode create_dirs =>
      finish print_i64 (write_file path data (if mode =? 0 then None else Some mode) create_dirs (file_allowed_roots cfg))
  | FileDelete path recursive => finish (fun _ => lit "deleted") (delete_path fds path recursive (file_allowed_roots cfg))
  end.
End tasks.

End AgentFiles.
