(* ===== verification/AgentFilesProofs.v ===== *)
(** * AgentFilesProofs: file tasks stay inside the allowed roots

    Other processes may rename, replace and link anything between two system
    calls. What a task changes or returns is then described by how it got there:
    from the root directory through entries that were directories, never through
    a symbolic link, along the names of a path that lies under an allowed root. *)

From S2P Require Import Prelude Text BTreeMap Externals IoStreams Base64 Interleave Rfc3339 AgentConfig AgentFiles.

Module AgentFilesProofs.
Import Interleave AgentConfig AgentFiles.

Abbreviation History := (list (Env * Fs)).

(** ** Places *)

Definition is_directory (s : Fs) (i : Z) : Prop := ∃ l, children_of s i = Some l.

(** Node [i] was reached from the root along [parts], each name seen as the entry
    of a directory in the one before. *)
Inductive walked (h : History) : list name → Z → Prop :=
| walked_root : walked h [] ROOT
| walked_dir parts d x i :
    walked h parts d → once h (fun _ s => child s d x = Some i ∧ is_directory s i) → walked h (parts ++ [x]) i.

(** Node [i] was found, or newly made, under the last name. *)
Definition opened (h : History) (parts : list name) (x : name) (i : Z) : Prop :=
  ∃ d, walked h parts d ∧ once h (fun e s => child s d x = Some i ∨ (child s d x = None ∧ new_ino e = i)).

(** A change of the entry [x] of directory [d], and of nothing else that was there. *)
Definition entry_only (d : Z) (x : name) (s s' : Fs) : Prop :=
  (∀ j, j ≠ d → is_Some (s !! j) → s' !! j = s !! j) ∧ (∀ y, y ≠ x → child s' d y = child s d y).

(** What a step does, and where. *)
Inductive effect (h : History) (s s' : Fs) : list name → bool → Prop :=
| effect_mkdir parts d x :
    walked h parts d → child s d x = None → entry_only d x s s' → effect h s s' (parts ++ [x]) true
| effect_entry parts d x :
    walked h parts d → entry_only d x s s' → effect h s s' (parts ++ [x]) false
| effect_data parts x i :
    opened h parts x i → (∀ j, j ≠ i → s' !! j = s !! j) → effect h s s' (parts ++ [x]) false.

Lemma walked_app h h' parts i : walked h parts i → walked (h ++ h') parts i.
Proof. induction 1; econstructor; eauto using once_app. Qed.
Lemma opened_app h h' parts x i : opened h parts x i → opened (h ++ h') parts x i.
Proof. intros (d & Hw & Ho). exists d. eauto using walked_app, once_app. Qed.
Lemma effect_app h h' s s' loc mk : effect h s s' loc mk → effect (h ++ h') s s' loc mk.
Proof.
  intros []; [eapply effect_mkdir|eapply effect_entry|eapply effect_data]; eauto using walked_app, opened_app.
Qed.

(** ** System calls *)

Class Stable (permit : History → list name → bool → Prop) : Prop :=
  permit_app h h' loc mk : permit h loc mk → permit (h ++ h') loc mk.

Section logic.
(** The places a program may change; the flag is for a new directory. *)
Context (permit : History → list name → bool → Prop).
Context `{!Stable permit}.
Definition confined : History → Env → Fs → Fs → Prop :=
  fun h _ s s' => s' = s ∨ ∃ loc mk, effect h s s' loc mk ∧ permit h loc mk.
Abbreviation tr := (traced confined).

Lemma tr_syscall {A} h (f : Env → Fs → result Errno A * Fs) (Q : History → result Errno A → Prop) :
  (∀ e s a s', f e s = (Ok a, s') → confined h e s s' ∧ Q (h ++ [(e, s)]) (Ok a)) →
  (∀ e s x, Q (h ++ [(e, s)]) (Err x)) → tr h (syscall f) Q.
Proof.
  intros HQ HE e s. destruct (fault e); cbn [fst snd]; [split; [by left|apply HE]|].
  specialize (HQ e s). destruct (f e s) as [[a|x] s'] eqn:Ef; cbn; [by apply HQ|split; [by left|apply HE]].
Qed.
Lemma tr_context {A} h text (m : P Env Fs Errno A) (Q : History → result FileError A → Prop) :
  tr h m (fun h' r => Q h' (match r with Ok a => Ok a | Err e => Err (Os text e) end)) → tr h (context text m) Q.
Proof. intros Hm. apply traced_bind. eapply traced_mono, Hm. done. Qed.
Lemma tr_within {A} h text (m : PF A) (Q : History → result FileError A → Prop) :
  tr h m (fun h' r => Q h' (match r with Ok a => Ok a | Err e => Err (Within text e) end)) → tr h (within text m) Q.
Proof. intros Hm. apply traced_bind. eapply traced_mono, Hm. done. Qed.

(** A call that only looks. *)
Lemma tr_look {A} h text (f : Env → Fs → result Errno A) (Q : History → result FileError A → Prop) :
  (∀ e s a, f e s = Ok a → Q (h ++ [(e, s)]) (Ok a)) → (∀ h' x, Q (h ++ h') (Err x)) →
  tr h (context text (syscall (fun e s => (f e s, s)))) Q.
Proof.
  intros HQ HE. apply tr_context, tr_syscall; [|intros; apply HE]. intros e s a s' [= Hf <-]. split; [by left|by apply HQ].
Qed.

(** Programs that change nothing. *)
Definition looks {A} (m : Proc Env Fs A) : Prop := ∀ h, tr h m (fun _ _ => True).
Lemma looks_tr {A} h (m : Proc Env Fs A) Q : looks m → (∀ h' a, Q (h ++ h') a) → tr h m Q.
Proof. intros Hm HQ. eapply traced_mono, Hm. intros h' a _. apply HQ. Qed.
Lemma looks_ret {A} (a : A) : looks (Ret a).
Proof. by intros h. Qed.
Lemma looks_mret {X A} (a : A) : looks (mret a : P Env Fs X A).
Proof. by intros h. Qed.
Lemma looks_bind {A B} (m : Proc Env Fs A) (k : A → Proc Env Fs B) : looks m → (∀ a, looks (k a)) → looks (proc_bind m k).
Proof. intros Hm Hk h. apply traced_bind, looks_tr; [done|]. intros h' a. apply Hk. Qed.
Lemma looks_try {X A B} (m : P Env Fs X A) (k : A → P Env Fs X B) : looks m → (∀ a, looks (k a)) → looks (m ≫= k).
Proof. intros Hm Hk. apply looks_bind; [done|]. intros [a|x]; [done|apply looks_ret]. Qed.
Lemma looks_syscall {A} (f : Env → Fs → result Errno A) : looks (syscall (fun e s => (f e s, s))).
Proof. intros h. apply tr_syscall; [|done]. intros e s a s' [= _ <-]. split; [by left|done]. Qed.
Lemma looks_exists p : looks (exists_ p).
Proof. intros h e s. split; [by left|done]. Qed.

Lemma stat_is_file n : is_file_mode (st_mode (stat_of n)) = true → ∃ data, kind n = Regular data.
Proof.
  unfold is_file_mode, stat_of. cbn [st_mode]. intros He%Z.eqb_eq. destruct (kind n); [by eexists|exfalso..].
  all: rewrite Z.land_lor_distr_l, <-Z.land_assoc in He; change (Z.land 4095 S_IFMT) with 0 in He; rewrite Z.land_0_r in He; done.
Qed.

(** *** Changes of one entry *)

Lemma child_of s d x n l : s !! d = Some n → kind n = Directory l → child s d x = snd <$> head (filter (fun kv => kv.1 = x) l).
Proof. intros Hd Hk. unfold child, children_of. by rewrite Hd, Hk. Qed.

Lemma add_child_entry e d x k m s i s' :
  add_child e d x k m s = (Ok i, s') → entry_only d x s s' ∧ i = new_ino e.
Proof.
  unfold add_child. destruct (s !! d) as [n|] eqn:Ed; [|done]. destruct (kind n) as [|l| |] eqn:Ek; try done.
  case_bool_decide as Hf; [done|]. intros [= <- <-]. split; [|done]. apply eq_None_not_Some in Hf.
  assert (new_ino e ≠ d) as Hne by (intros Heq; rewrite Heq in Hf; congruence). split.
  - intros j Hj [m' Hm']. rewrite lookup_insert_ne by (intros Heq; rewrite Heq in Hf; congruence). by rewrite lookup_insert_ne by congruence.
  - intros y Hy. rewrite (child_of s d y n l) by done. erewrite child_of; [|rewrite lookup_insert_ne by done; by rewrite lookup_insert_eq|done].
    rewrite filter_app, filter_cons, decide_False by (cbn; congruence). rewrite filter_nil, app_nil_r. done.
Qed.

Lemma remove_child_entry d x s : entry_only d x s (remove_child d x s).
Proof.
  unfold remove_child. destruct (s !! d) as [n|] eqn:Ed; [|done]. destruct (kind n) as [|l| |] eqn:Ek; try done. split.
  - intros j Hj _. by rewrite lookup_insert_ne by congruence.
  - intros y Hy. rewrite (child_of s d y n l) by done. erewrite child_of; [|by rewrite lookup_insert_eq|done].
    do 2 f_equal. apply list_filter_filter_l. cbn. congruence.
Qed.

Lemma with_data_only f i s r s' : with_data f i s = (r, s') → ∀ j, j ≠ i → s' !! j = s !! j.
Proof.
  unfold with_data. destruct (s !! i) as [n|]; [|by intros [= _ <-]]. destruct (kind n); intros [= _ <-]; try done.
  intros j Hj. by rewrite lookup_insert_ne by congruence.
Qed.

(** *** Walking *)

Lemma tr_root h (Q : History → result FileError Z → Prop) :
  (∀ h', Q (h ++ h') (Ok ROOT)) → (∀ h' x, Q (h ++ h') (Err x)) → tr h open_root_dir_no_follow Q.
Proof. intros HQ HE. apply tr_look; [|done]. intros e s a. destruct (children_of s ROOT); intros [= <-]. apply HQ. Qed.

Lemma open_dir_seen s d x i :
  match child s d x with
  | None => Err ENOENT
  | Some i => match kind <$> s !! i with Some (Directory _) => Ok i | Some (Symlink _) => Err ELOOP | _ => Err ENOTDIR end
  end = Ok i → child s d x = Some i ∧ is_directory s i.
Proof.
  destruct (child s d x) as [j|] eqn:Ec; [|done]. destruct (s !! j) as [n|] eqn:Ej; [|done]. cbn.
  destruct (kind n) as [|l| |] eqn:Ek; try done. intros [= <-]. split; [done|]. exists l. unfold is_directory, children_of. by rewrite Ej, Ek.
Qed.

Lemma tr_open_dir h parts d x (Q : History → result FileError Z → Prop) :
  walked h parts d → (∀ h' i, walked (h ++ h') (parts ++ [x]) i → Q (h ++ h') (Ok i)) → (∀ h' y, Q (h ++ h') (Err y)) →
  tr h (open_child_dir_no_follow d x) Q.
Proof.
  intros Hw HQ HE. apply tr_look; [|done]. intros e s i Hi%open_dir_seen. apply HQ.
  eapply walked_dir; [by apply walked_app|]. by apply once_here.
Qed.

Lemma tr_open_dirs h parts d rest (Q : History → result FileError Z → Prop) :
  walked h parts d → (∀ h' i, walked (h ++ h') (parts ++ rest) i → Q (h ++ h') (Ok i)) → (∀ h' y, Q (h ++ h') (Err y)) →
  tr h (open_dirs d rest) Q.
Proof.
  revert h parts d. induction rest as [|x rest IH]; intros h parts d Hw HQ HE; cbn [open_dirs].
  - specialize (HQ [] d). rewrite !app_nil_r in HQ. by apply HQ.
  - apply traced_try. eapply tr_open_dir; [done| |done]. intros h1 i Hi. apply IH with (parts := parts ++ [x]); [done| |].
    + intros h2 j. rewrite <-!app_assoc. apply HQ.
    + intros h2 y. rewrite <-app_assoc. apply HE.
Qed.

Lemma tr_components h p (Q : History → result FileError (list name) → Prop) :
  (∀ parts, components p = of_names parts → Q h (Ok parts)) → (∀ y, Q h (Err y)) → tr h (absolute_normal_components p) Q.
Proof.
  intros HQ HE. assert (∀ l parts, normal_names l = Some parts → l = of_names parts) as Hn.
  { induction l as [|[x| |] l IH]; intros parts; cbn; [by intros [= <-]| |done|done].
    destruct (normal_names l) as [q|]; [cbn|done]. intros [= <-]. cbn. f_equal. by apply IH. }
  unfold absolute_normal_components. destruct (normal_names (components p)) as [parts|] eqn:Ep; [|apply HE]. by apply HQ, Hn.
Qed.

Lemma tr_split_last h parts (Q : History → result FileError (name * list name) → Prop) :
  (∀ x up, parts = up ++ [x] → Q h (Ok (x, up))) → (∀ y, Q h (Err y)) → tr h (split_last parts) Q.
Proof.
  intros HQ HE. unfold split_last. destruct (reverse parts) as [|x r] eqn:Er; [apply HE|]. apply HQ.
  by rewrite <-(reverse_involutive parts), Er, reverse_cons.
Qed.

(** *** Creating directories *)

Lemma tr_mkdir h parts d x (Q : History → result FileError unit → Prop) :
  walked h parts d → permit h (parts ++ [x]) true → (∀ h', Q (h ++ h') (Ok ())) → (∀ h' y, Q (h ++ h') (Err y)) →
  tr h (mkdir_child_dir d x) Q.
Proof.
  intros Hw Hp HQ HE. apply tr_context, tr_syscall; [|intros; apply HE]. intros e s [] s'.
  destruct (child s d x) as [|] eqn:Ec; [done|]. destruct (add_child e d x (Directory []) 511 s) as [[i|y] s2] eqn:Ea; [|done].
  intros [= <-]. split; [|apply HQ]. right. exists (parts ++ [x]), true. split; [|done].
  apply add_child_entry in Ea as [Ha _]. by eapply effect_mkdir.
Qed.

Lemma tr_create_dirs h parts d rest (Q : History → result FileError unit → Prop) :
  walked h parts d → (∀ pre, pre `prefix_of` rest → permit h (parts ++ pre) true) →
  (∀ h', Q (h ++ h') (Ok ())) → (∀ h' y, Q (h ++ h') (Err y)) → tr h (create_dirs_from d rest) Q.
Proof.
  revert h parts d. induction rest as [|x rest IH]; intros h parts d Hw Hp HQ HE; cbn [create_dirs_from].
  { specialize (HQ []). rewrite app_nil_r in HQ. done. }
  assert (∀ h', permit (h ++ h') (parts ++ [x]) true) as Hx.
  { intros h'. apply permit_app, Hp. by exists rest. }
  assert (∀ h' i, walked (h ++ h') (parts ++ [x]) i → tr (h ++ h') (create_dirs_from i rest) Q) as Hrest.
  { intros h' i Hi. apply IH with (parts := parts ++ [x]); [done| | |].
    - intros pre [k ->]. rewrite <-app_assoc. apply permit_app, Hp. exists k. done.
    - intros h2. rewrite <-app_assoc. apply HQ.
    - intros h2 y. rewrite <-app_assoc. apply HE. }
  apply traced_bind, tr_syscall.
  - intros e s i s' [= Hi <-]. split; [by left|]. apply Hrest. apply open_dir_seen in Hi.
    eapply walked_dir; [by apply walked_app|by apply once_here].
  - intros e s y. assert (tr (h ++ [(e, s)]) (mkdir_child_dir d x;; next ← open_child_dir_no_follow d x; create_dirs_from next rest) Q) as Hmk.
    { apply traced_try. eapply tr_mkdir; [by apply walked_app|apply Hx| |intros; rewrite <-app_assoc; apply HE].
      intros h2. apply traced_try. eapply tr_open_dir; [by do 2 apply walked_app| |intros; rewrite <-!app_assoc; apply HE].
      intros h3 i. rewrite <-!app_assoc. apply Hrest. }
    destruct y; try apply HE. exact Hmk.
Qed.

Lemma walked_start h : walked h [] ROOT.
Proof. constructor. Qed.

Lemma tr_create_dir_all h p (Q : History → result FileError unit → Prop) :
  (∀ parts pre, components p = of_names parts → pre `prefix_of` parts → permit h pre true) →
  (∀ h', Q (h ++ h') (Ok ())) → (∀ h' y, Q (h ++ h') (Err y)) → tr h (create_dir_all_no_symlink p) Q.
Proof.
  intros Hp HQ HE. assert (∀ y, Q h (Err y)) as HE0 by (intros y; specialize (HE [] y); by rewrite app_nil_r in HE).
  apply traced_try, tr_components; [|done]. intros parts Hparts. apply traced_try, tr_root; [|done]. intros h1.
  apply tr_create_dirs with (parts := []); [apply walked_start| | |].
  - intros pre Hpre. apply permit_app. by eapply Hp.
  - intros h2. rewrite <-app_assoc. apply HQ.
  - intros h2 y. rewrite <-app_assoc. apply HE.
Qed.

(** *** Creating and writing a file *)

Lemma tr_open_write h parts d x (Q : History → result FileError Z → Prop) :
  walked h parts d → permit h (parts ++ [x]) false →
  (∀ h' i, opened (h ++ h') parts x i → Q (h ++ h') (Ok i)) → (∀ h' y, Q (h ++ h') (Err y)) →
  tr h (context (lit "Failed to open file") (open_write_at d x)) Q.
Proof.
  intros Hw Hp HQ HE. apply tr_context, tr_syscall; [|intros; apply HE]. intros e s i s'.
  destruct (child s d x) as [j|] eqn:Ec.
  - intros [= Hj <-]. split; [by left|]. apply HQ. exists d. split; [by apply walked_app|]. apply once_here. left.
    destruct (s !! j) as [n|]; [cbn in Hj|done]. destruct (kind n); congruence.
  - intros Ha. apply add_child_entry in Ha as [Ha ->]. split.
    + right. exists (parts ++ [x]), false. split; [|done]. by eapply effect_entry.
    + apply HQ. exists d. split; [by apply walked_app|]. apply once_here. by right.
Qed.

Lemma tr_data {A} h parts x i text (f : Env → Fs → result Errno A * Fs) (Q : History → result FileError A → Prop) :
  opened h parts x i → permit h (parts ++ [x]) false → (∀ e s j, j ≠ i → (f e s).2 !! j = s !! j) →
  (∀ h' r, Q (h ++ h') r) → tr h (context text (atomic f)) Q.
Proof.
  intros Ho Hp Hf HQ. apply tr_context. intros e s. split; [|apply HQ]. right. exists (parts ++ [x]), false. split; [|done].
  eapply effect_data; [done|]. apply Hf.
Qed.

Lemma syscall_only {A} (f : Env → Fs → result Errno A * Fs) i :
  (∀ e s a s' j, f e s = (Ok a, s') → j ≠ i → s' !! j = s !! j) →
  ∀ e s j, j ≠ i → (match fault e with Some x => (Err x, s) | None => match f e s with (Ok a, s') => (Ok a, s') | (Err x, _) => (Err x, s) end end).2 !! j = s !! j.
Proof. intros Hf e s j Hj. destruct (fault e); [done|]. destruct (f e s) as [[a|x] s'] eqn:Ef; [|done]. by eapply Hf. Qed.

Lemma tr_truncate h parts x i (Q : History → result FileError unit → Prop) :
  opened h parts x i → permit h (parts ++ [x]) false → (∀ h' r, Q (h ++ h') r) →
  tr h (context (lit "Failed to truncate file") (ftruncate i)) Q.
Proof.
  intros Ho Hp HQ. eapply tr_data; [done..| |done]. apply syscall_only. intros e s a s' j Hf Hj. by eapply with_data_only.
Qed.
Lemma tr_write h parts x i data (Q : History → result FileError unit → Prop) :
  opened h parts x i → permit h (parts ++ [x]) false → (∀ h' r, Q (h ++ h') r) →
  tr h (context (lit "Failed to write file") (write_all i data)) Q.
Proof.
  intros Ho Hp HQ. eapply tr_data; [done..| |done]. intros e s j Hj. destruct (fault e); cbn.
  - destruct (with_data _ i s) as [r s'] eqn:Ew. by eapply with_data_only.
  - destruct (with_data _ i s) as [r s'] eqn:Ew. by eapply with_data_only.
Qed.
Lemma tr_chmod h parts x i m (Q : History → result FileError unit → Prop) :
  opened h parts x i → permit h (parts ++ [x]) false → (∀ h' r, Q (h ++ h') r) → tr h (set_file_mode i m) Q.
Proof.
  intros Ho Hp HQ. unfold set_file_mode. destruct (odd_mode m).
  { specialize (HQ [] (Err bad_mode)). by rewrite app_nil_r in HQ. }
  eapply tr_data; [done..| |done]. apply syscall_only. intros e s a s' j. destruct (s !! i); intros [= _ <-] Hj; by rewrite ?lookup_insert_ne by congruence.
Qed.

(** *** Looking around an open file *)

Lemma looks_context {A} text (m : P Env Fs Errno A) : looks m → looks (context text m).
Proof. intros Hm. apply looks_bind; [done|]. intros r. apply looks_ret. Qed.
Lemma looks_within {A} text (m : PF A) : looks m → looks (within text m).
Proof. intros Hm. apply looks_bind; [done|]. intros r. apply looks_ret. Qed.
Lemma looks_metadata d x : looks (child_metadata_no_follow d x).
Proof. apply looks_context, looks_syscall. Qed.
Lemma looks_check_existing d x : looks (check_existing d x).
Proof. apply looks_bind; [apply looks_metadata|]. intros [st|]; [destruct (is_file_mode _)|]; apply looks_ret. Qed.
Lemma looks_check_opened i : looks (check_opened i).
Proof. apply looks_try; [apply looks_within, looks_context, looks_syscall|]. intros st. destruct (is_file_mode _); apply looks_ret. Qed.
Lemma looks_nonblock i : looks (clear_nonblock_flag i).
Proof. apply looks_try; [|intros _]; apply looks_context, looks_syscall. Qed.

Lemma tr_open_child_file h parts d x (Q : History → result FileError Z → Prop) :
  walked h parts d → permit h (parts ++ [x]) false →
  (∀ h' i, opened (h ++ h') parts x i → Q (h ++ h') (Ok i)) → (∀ h' y, Q (h ++ h') (Err y)) → tr h (open_child_file_no_follow d x) Q.
Proof.
  intros Hw Hp HQ HE. unfold open_child_file_no_follow. apply traced_try, looks_tr; [apply looks_check_existing|]. intros h1 [[]|]; [|apply HE].
  apply traced_try. eapply tr_open_write; [by apply walked_app|by apply permit_app| |intros; rewrite <-app_assoc; apply HE]. intros h2 i Hi.
  apply traced_try, looks_tr; [apply looks_check_opened|]. intros h3 [[]|]; [|rewrite <-!app_assoc; apply HE].
  apply traced_try, looks_tr; [apply looks_nonblock|]. intros h4 [[]|]; [|rewrite <-!app_assoc; apply HE].
  apply traced_try. eapply tr_truncate; [by do 2 apply opened_app|by do 4 apply permit_app|].
  intros h5 [[]|]; rewrite <-!app_assoc; [|apply HE]. apply HQ. rewrite !app_assoc. by do 3 apply opened_app.
Qed.

Lemma tr_create_file h p (Q : History → result FileError Z → Prop) :
  (∀ parts, components p = of_names parts → permit h parts false) →
  (∀ h' parts x i, components p = of_names (parts ++ [x]) → opened (h ++ h') parts x i → Q (h ++ h') (Ok i)) → (∀ h' y, Q (h ++ h') (Err y)) →
  tr h (create_file_no_symlink p) Q.
Proof.
  intros Hp HQ HE. assert (∀ y, Q h (Err y)) as HE0 by (intros y; specialize (HE [] y); by rewrite app_nil_r in HE).
  apply traced_try, tr_components; [|done]. intros parts Hparts. apply traced_try, tr_split_last; [|done]. intros x up ->.
  apply traced_try, tr_root; [|done]. intros h1. apply traced_try.
  eapply tr_open_dirs with (parts := []); [apply walked_start| |intros; rewrite <-app_assoc; apply HE]. intros h2 d Hd.
  eapply tr_open_child_file; [done|do 2 apply permit_app; by apply Hp| |intros; rewrite <-!app_assoc; apply HE].
  intros h3 i Hi. rewrite <-!app_assoc in *. by eapply HQ.
Qed.

(** ** Allowed roots *)

(** [root] was seen to be what the configured root [r] stands for. *)
Definition stands_for (h : History) (r : rstr) (root : list name) : Prop :=
  ∃ p, validate_absolute_path r = Ok p ∧ once h (fun _ s => canonical s p = Ok root).
(** A place on the way to a configured root that did not exist yet. *)
Definition on_the_way (h : History) (r : rstr) (loc : list name) : Prop :=
  ∃ p up rest base, validate_absolute_path r = Ok p ∧ components p = up ++ of_names rest
    ∧ once h (fun _ s => canonical s up = Ok base) ∧ loc `prefix_of` base ++ rest.

Lemma stands_for_app h h' r root : stands_for h r root → stands_for (h ++ h') r root.
Proof. intros (p & Hp & Ho). exists p. eauto using once_app. Qed.
Lemma on_the_way_app h h' r loc : on_the_way h r loc → on_the_way (h ++ h') r loc.
Proof. intros (p & up & rest & base & Hp & Hc & Ho & Hl). exists p, up, rest, base. eauto 10 using once_app. Qed.

Lemma tr_canonicalize h text p (Q : History → result FileError (list name) → Prop) :
  (∀ h' c, once (h ++ h') (fun _ s => canonical s p = Ok c) → Q (h ++ h') (Ok c)) → (∀ h' y, Q (h ++ h') (Err y)) →
  tr h (context text (canonicalize p)) Q.
Proof. intros HQ HE. apply tr_look; [|done]. intros e s c Hc. apply HQ. by apply once_here. Qed.

Lemma components_app p q : components (p ++ q) = components p ++ components q.
Proof. apply filter_app. Qed.
Lemma components_names l : components (of_names l) = of_names l.
Proof.
  unfold components. induction l as [|x l IH]; [done|]. change (of_names (x :: l)) with (Name x :: of_names l).
  rewrite filter_cons_True by done. by rewrite IH.
Qed.
Lemma components_idemp p : components (components p) = components p.
Proof. unfold components. by rewrite list_filter_filter_l. Qed.

Lemma tr_existing h what up (Q : History → result FileError (list Piece) → Prop) :
  (∀ h' l, l `prefix_of` reverse up → Q (h ++ h') (Ok l)) → (∀ h' y, Q (h ++ h') (Err y)) → tr h (existing_ancestor what up) Q.
Proof.
  revert h. induction up as [|x up IH]; intros h HQ HE; cbn [existing_ancestor];
    (apply traced_try, looks_tr; [apply looks_exists|]); (intros h' [[]|]; [apply HQ; reflexivity| |apply HE]).
  - apply HE.
  - apply IH; [|intros; rewrite <-app_assoc; apply HE]. intros h2 l Hl. rewrite <-app_assoc. apply HQ.
    etrans; [done|]. rewrite reverse_cons. by exists [x].
Qed.

Lemma tr_nearest h what p (Q : History → result FileError (list Piece) → Prop) :
  (∀ h' l, l `prefix_of` components p → Q (h ++ h') (Ok l)) → (∀ h' y, Q (h ++ h') (Err y)) → tr h (nearest_ancestor what p) Q.
Proof.
  intros HQ HE. assert (∀ y, Q h (Err y)) as HE0 by (intros y; specialize (HE [] y); by rewrite app_nil_r in HE).
  unfold nearest_ancestor, parent. destruct (reverse (components p)) as [|x r] eqn:Er; [apply HE0|].
  apply traced_try. cbn. apply tr_existing; [|done]. intros h' l Hl. apply HQ. rewrite reverse_involutive in Hl.
  etrans; [done|]. rewrite <-(reverse_involutive (components p)), Er, reverse_cons. by exists [x].
Qed.

Lemma names_app_inv c (rel : list Piece) parts :
  of_names c ++ rel = of_names parts → ∃ rest, rel = of_names rest ∧ parts = c ++ rest.
Proof.
  intros Heq. symmetry in Heq. apply fmap_app_inv in Heq as (c' & rest & Hc & Hr & ->). exists rest. split; [done|].
  f_equal. symmetry. apply (list_fmap_eq_inj Name); [by intros ? ? [= ->]|done].
Qed.

(** The path below an existing ancestor. *)
Lemma strip_ancestor p l rel : l `prefix_of` components p → path_strip_prefix p l = Some rel → components p = l ++ rel ∧ components l = l ∧ components rel = rel.
Proof.
  intros [k Hk]. assert (components l ++ components k = l ++ k) as Hi.
  { rewrite <-components_app, <-Hk. apply components_idemp. }
  assert (∀ q, (length (components q) <= length q)%nat) as Hlen by (intros q; apply length_filter).
  assert (components l = l ∧ components k = k) as [Hl Hkk].
  { apply app_inj_1; [|done]. pose proof (Hlen l). pose proof (Hlen k). apply (f_equal length) in Hi. rewrite !length_app in Hi. lia. }
  unfold path_strip_prefix. destruct (path_starts_with p l); [|done]. intros [= <-]. rewrite Hl, Hk, drop_app_length. done.
Qed.

Lemma tr_create_missing h r root (Q : History → result FileError unit → Prop) :
  validate_absolute_path r = Ok root → (∀ h' loc, on_the_way (h ++ h') r loc → permit (h ++ h') loc true) →
  (∀ h', Q (h ++ h') (Ok ())) → (∀ h' y, Q (h ++ h') (Err y)) → tr h (create_missing_root root) Q.
Proof.
  intros Hr Hp HQ HE. unfold create_missing_root. apply traced_try, looks_tr; [apply looks_exists|]. intros h1 [[]|]; [apply HQ| |apply HE].
  apply traced_try, tr_nearest; [|intros; rewrite <-app_assoc; apply HE]. intros h2 l Hl.
  apply traced_try, tr_canonicalize; [|intros; rewrite <-!app_assoc; apply HE]. intros h3 c Hc. apply traced_try.
  destruct (path_strip_prefix root l) as [rel|] eqn:Es; [|rewrite <-!app_assoc; apply HE]. cbn.
  destruct (strip_ancestor _ _ _ Hl Es) as (Hroot & Hll & Hrel).
  apply tr_within, tr_create_dir_all; [|intros; rewrite <-!app_assoc; apply HQ|intros; rewrite <-!app_assoc; apply HE].
  intros parts pre Hparts Hpre. rewrite components_app, components_names, Hrel in Hparts.
  apply names_app_inv in Hparts as (rest & -> & ->). rewrite <-!app_assoc. apply Hp. rewrite !app_assoc.
  exists root, l, rest, c. done.
Qed.

Lemma tr_canonical_root h r create (Q : History → result FileError (list name) → Prop) :
  (∀ h' loc, create = true → on_the_way (h ++ h') r loc → permit (h ++ h') loc true) →
  (∀ h' root, stands_for (h ++ h') r root → root ≠ [] → Q (h ++ h') (Ok root)) → (∀ h' y, Q (h ++ h') (Err y)) →
  tr h (canonical_root r create) Q.
Proof.
  intros Hp HQ HE. assert (∀ y, Q h (Err y)) as HE0 by (intros y; specialize (HE [] y); by rewrite app_nil_r in HE).
  unfold canonical_root. apply traced_try. destruct (validate_absolute_path r) as [p|] eqn:Ev; [cbn|apply HE0].
  destruct (is_root p); [apply HE0|].
  assert (∀ h1, tr (h ++ h1) (canonical ← context (lit "Allowed root does not exist") (canonicalize p);
    match canonical with [] => no_root | _ => mret canonical end) Q) as Hrest.
  { intros h1. apply traced_try, tr_canonicalize; [|intros; rewrite <-app_assoc; apply HE]. intros h2 c Hc.
    destruct c as [|x c]; rewrite <-app_assoc; [apply HE|]. apply HQ; [|done]. exists p. split; [done|]. by rewrite app_assoc. }
  apply traced_try. destruct create.
  - eapply tr_create_missing; [done|by eauto| |]; intros h1; [apply Hrest|intros; apply HE].
  - specialize (Hrest []). rewrite app_nil_r in Hrest. exact Hrest.
Qed.

(** Every canonical root stands for a configured one, and is not the root of the
    file system. *)
Definition roots_seen (h : History) (allowed : list rstr) (roots : list (list name)) : Prop :=
  ∀ root, root ∈ roots → root ≠ [] ∧ ∃ r, r ∈ allowed ∧ stands_for h r root.
Lemma roots_seen_app h h' allowed roots : roots_seen h allowed roots → roots_seen (h ++ h') allowed roots.
Proof. intros Hs root Hr. destruct (Hs root Hr) as (? & r & ? & ?). eauto using stands_for_app. Qed.

Lemma tr_allowed_roots h allowed create (Q : History → result FileError (list (list name)) → Prop) :
  (∀ h' r loc, create = true → r ∈ allowed → on_the_way (h ++ h') r loc → permit (h ++ h') loc true) →
  (∀ h' roots, roots_seen (h ++ h') allowed roots → Q (h ++ h') (Ok roots)) → (∀ h' y, Q (h ++ h') (Err y)) →
  tr h (canonical_allowed_roots allowed create) Q.
Proof.
  intros Hp HQ HE. unfold canonical_allowed_roots. destruct (is_empty allowed); [specialize (HE [] (Bail (lit "no allowed file roots configured"))); by rewrite app_nil_r in HE|].
  cut (∀ h1 rest (Q' : History → result FileError (list (list name)) → Prop), (∀ r, r ∈ rest → r ∈ allowed) →
    (∀ h' roots, roots_seen (h ++ h1 ++ h') allowed roots → Q' (h ++ h1 ++ h') (Ok roots)) → (∀ h' y, Q' (h ++ h1 ++ h') (Err y)) →
    tr (h ++ h1) (canonical_roots rest create) Q').
  { intros Hcut. specialize (Hcut [] allowed Q). rewrite app_nil_r in Hcut. apply Hcut; done. }
  intros h1 rest. revert h1. induction rest as [|r rest IH]; intros h1 Q' Hin HQ' HE'; cbn [canonical_roots].
  - specialize (HQ' [] []). rewrite app_nil_r in HQ'. apply HQ'. by intros root ?%not_elem_of_nil.
  - apply traced_try, tr_canonical_root; [|intros h2 root Hs Hne|intros; rewrite <-app_assoc; apply HE'].
    { intros h2 loc Hcr Hl. rewrite <-app_assoc in *. by apply (Hp _ r); [|apply Hin; left|]. }
    apply traced_try. rewrite <-app_assoc. apply IH; [by intros r' Hr'; apply Hin; right| |].
    + intros h3 roots Hroots. rewrite <-app_assoc in *. apply HQ'. intros c [->|Hc]%elem_of_cons; [|by apply Hroots].
      split; [done|]. exists r. split; [apply Hin; by left|]. rewrite (app_assoc h1 h2 h3), (app_assoc h (h1 ++ h2) h3). by apply stands_for_app.
    + intros h3 y. rewrite <-app_assoc. apply HE'.
Qed.

Lemma tr_exists h p (Q : History → result FileError bool → Prop) : (∀ h' r, Q (h ++ h') r) → tr h (exists_ p) Q.
Proof. intros HQ. apply looks_tr; [apply looks_exists|done]. Qed.

Lemma tr_ensure h p roots (Q : History → result FileError unit → Prop) :
  (under_roots p roots = true → Q h (Ok ())) → (∀ y, Q h (Err y)) → tr h (ensure_under_allowed_roots p roots) Q.
Proof. intros HQ HE. unfold ensure_under_allowed_roots. destruct (under_roots p roots); [by apply HQ|apply HE]. Qed.
Lemma tr_result {A} h (r : result FileError A) (Q : History → result FileError A → Prop) :
  (∀ a, r = Ok a → Q h (Ok a)) → (∀ y, Q h (Err y)) → tr h (of_result r : PF A) Q.
Proof. intros HQ HE. destruct r; [by apply HQ|apply HE]. Qed.

Lemma under_prefix p roots parts : under_roots p roots = true → components p = of_names parts → ∃ root, root ∈ roots ∧ root `prefix_of` parts.
Proof.
  unfold under_roots. rewrite existsb_In. intros (root & Hin & Hp) Hparts. exists root. split; [done|].
  unfold path_starts_with in Hp. apply bool_decide_eq_true in Hp. rewrite components_names, Hparts in Hp. destruct Hp as [k Hk].
  symmetry in Hk. apply names_app_inv in Hk as (rest & _ & ->). by exists rest.
Qed.

Lemma tr_resolve_write h p roots (Q : History → result FileError (list Piece) → Prop) :
  (∀ h' target, under_roots target roots = true → Q (h ++ h') (Ok target)) → (∀ h' y, Q (h ++ h') (Err y)) →
  tr h (resolve_write_target p roots) Q.
Proof.
  intros HQ HE. unfold resolve_write_target. apply traced_try, tr_exists. intros h1 [[]|]; [| |apply HE].
  - apply traced_try, tr_canonicalize; [|intros; rewrite <-app_assoc; apply HE]. intros h2 c _.
    apply traced_try, tr_ensure; rewrite <-app_assoc; [|intros; apply HE]. intros Hu. by apply HQ.
  - apply traced_try, tr_nearest; [|intros; rewrite <-app_assoc; apply HE]. intros h2 l _.
    apply traced_try, tr_canonicalize; [|intros; rewrite <-!app_assoc; apply HE]. intros h3 c _.
    apply traced_try, tr_ensure; rewrite <-!app_assoc; [intros _|intros; apply HE].
    apply traced_try, tr_result; [|intros; apply HE]. intros rel _.
    destruct (under_roots (of_names c ++ rel) roots) eqn:Eu; [by apply HQ|apply HE].
Qed.

Lemma tr_resolve_existing h path roots (Q : History → result FileError (list Piece) → Prop) :
  (∀ h' c, under_roots (of_names c) roots = true → Q (h ++ h') (Ok (of_names c))) → (∀ h' y, Q (h ++ h') (Err y)) →
  tr h (resolve_existing_path path roots) Q.
Proof.
  intros HQ HE. assert (∀ y, Q h (Err y)) as HE0 by (intros y; specialize (HE [] y); by rewrite app_nil_r in HE).
  unfold resolve_existing_path. apply traced_try, tr_result; [|done]. intros p _.
  apply traced_try, tr_canonicalize; [|intros; apply HE]. intros h2 c _.
  apply traced_try, tr_ensure; [|intros; apply HE]. intros Hu. by apply HQ.
Qed.
End logic.

(** ** What is allowed *)

(** Under an allowed root; or a missing directory on the way to one. *)
Definition allowed (roots : list rstr) (h : History) (loc : list name) (mk : bool) : Prop :=
  ∃ r, r ∈ roots ∧ ((∃ root, stands_for h r root ∧ root ≠ [] ∧ (root `prefix_of` loc ∨ (mk = true ∧ loc `prefix_of` root)))
                    ∨ (mk = true ∧ on_the_way h r loc)).
#[global] Instance allowed_stable roots : Stable (allowed roots).
Proof.
  intros h h' loc mk (r & Hr & [(root & Hs & Hn)|[-> Hw]]); exists r; (split; [done|]);
    [left; exists root; eauto using stands_for_app|right; eauto using on_the_way_app].
Qed.

Lemma parent_prefix p up : parent p = Some up → up `prefix_of` components p ∧ components up = up.
Proof.
  unfold parent. destruct (reverse (components p)) as [|x r] eqn:Er; [done|]. intros [= <-].
  assert (components p = reverse r ++ [x]) as Hc by by rewrite <-(reverse_involutive (components p)), Er, reverse_cons.
  split; [rewrite Hc; by exists [x]|]. pose proof (components_idemp p) as Hi. rewrite Hc, components_app in Hi.
  assert ((length (components (reverse r)) <= length (reverse r))%nat) as Hl by apply length_filter.
  apply app_inj_1 in Hi as [Hi _]; [done|]. pose proof (f_equal length Hi) as Hlen. rewrite !length_app in Hlen.
  assert ((length (components [x]) <= length [x])%nat) as Hl2 by apply length_filter. cbn in *. lia.
Qed.

Section operations.
Context (allowed_roots : list rstr).
Abbreviation tr := (traced (confined (allowed allowed_roots))).

Lemma allowed_under h roots root loc mk :
  roots_seen h allowed_roots roots → root ∈ roots → root `prefix_of` loc → allowed allowed_roots h loc mk.
Proof. intros Hs Hin Hp. destruct (Hs root Hin) as (Hn & r & Hr & Hst). exists r. split; [done|]. left. exists root. auto. Qed.
Lemma allowed_towards h roots root loc :
  roots_seen h allowed_roots roots → root ∈ roots → (root `prefix_of` loc ∨ loc `prefix_of` root) → allowed allowed_roots h loc true.
Proof. intros Hs Hin Hp. destruct (Hs root Hin) as (Hn & r & Hr & Hst). exists r. split; [done|]. left. exists root. naive_solver. Qed.

Lemma prefix_comparable {A} (a b c : list A) : a `prefix_of` c → b `prefix_of` c → a `prefix_of` b ∨ b `prefix_of` a.
Proof. intros Ha Hb. apply prefix_weak_total with c; done. Qed.

Lemma write_confined path data m create : tr [] (write_file path data m create allowed_roots) (fun _ _ => True).
Proof.
  unfold write_file. apply traced_try, tr_result; [intros [] _|done].
  apply traced_try, tr_allowed_roots; [apply _| |intros h1 roots Hs|done].
  { intros h' r loc _ Hr Hw. exists r. split; [done|]. by right. }
  apply traced_try, tr_result; [|done]. intros p _.
  apply traced_try, tr_resolve_write; [|done]. intros h2 t1 Ht1. apply traced_try.
  assert (∀ h3, tr (h1 ++ h2 ++ h3) (target ← resolve_write_target p roots; i ← within (lit "Failed to create file") (create_file_no_symlink target);
      context (lit "Failed to write file") (write_all i data);; context (lit "Failed to flush file") (flush i);;
      match m with Some m => set_file_mode i m | None => mret () end;; mret (zlen data)) (fun _ _ => True)) as Hrest.
  { intros h3. rewrite app_assoc in *. apply traced_try, tr_resolve_write; [|done]. intros h4 t2 Ht2.
    apply traced_try, tr_within, tr_create_file; [apply _| | |done].
    - intros parts Hp. destruct (under_prefix _ _ _ Ht2 Hp) as (root & Hin & Hpre). eapply allowed_under; [|done..].
      rewrite <-!app_assoc. by apply roots_seen_app.
    - intros h5 parts x i Hp Ho. destruct (under_prefix _ _ _ Ht2 Hp) as (root & Hin & Hpre).
      assert (∀ h6, allowed allowed_roots ((((h1 ++ h2) ++ h3) ++ h4) ++ h5 ++ h6) (parts ++ [x]) false) as Hal.
      { intros h6. eapply allowed_under; [|done..]. rewrite <-!app_assoc. by apply roots_seen_app. }
      apply traced_try. eapply tr_write; [done|specialize (Hal []); by rewrite app_nil_r in Hal|].
      intros h6 [[]|]; [|done]. apply traced_try, looks_tr; [apply looks_context, looks_syscall|]. intros h7 [[]|]; [|done].
      apply traced_try. destruct m as [m|]; [|done].
      eapply tr_chmod; [by do 2 apply opened_app|specialize (Hal (h6 ++ h7)); rewrite !app_assoc in Hal; exact Hal|]. by intros h8 [[]|]. }
  destruct create; [|specialize (Hrest []); rewrite app_nil_r in Hrest; exact Hrest].
  destruct (parent t1) as [up|] eqn:Eup; [|specialize (Hrest []); rewrite app_nil_r in Hrest; exact Hrest].
  apply tr_within, tr_create_dir_all; [apply _| |intros h3; rewrite <-app_assoc; apply Hrest|done].
  intros parts pre Hp Hpre. unfold under_roots in Ht1. rewrite existsb_In in Ht1. destruct Ht1 as (root & Hin & Hr).
  unfold path_starts_with in Hr. apply bool_decide_eq_true in Hr. rewrite components_names in Hr.
  apply parent_prefix in Eup as [Hup Hcu]. rewrite Hcu in Hp. subst up.
  eapply allowed_towards; [by apply roots_seen_app|done|].
  destruct (prefix_comparable _ _ _ Hr Hup) as [H1|H1].
  - destruct H1 as [k Hk]. symmetry in Hk. apply names_app_inv in Hk as (rest & _ & ->). apply (prefix_comparable _ _ (root ++ rest)); [by exists rest|done].
  - destruct H1 as [k Hk]. symmetry in Hk. apply names_app_inv in Hk as (rest & _ & ->). right. etrans; [done|]. by exists rest.
Qed.
End operations.

(** ** Deleting *)

Section deleting.
Context (permit : History → list name → bool → Prop) `{!Stable permit}.
Abbreviation tr := (traced (confined permit)).

Lemma tr_remove h parts d x text (f : Fs → result Errno unit * Fs) (Q : History → result FileError unit → Prop) :
  walked h parts d → permit h (parts ++ [x]) false → (∀ s a s', f s = (Ok a, s') → s' = remove_child d x s) → (∀ h' r, Q (h ++ h') r) →
  tr h (context text (syscall (fun _ => f))) Q.
Proof.
  intros Hw Hp Hf HQ. apply tr_context, tr_syscall; [|intros; apply HQ]. intros e s a s' Ha. split; [|apply HQ].
  apply Hf in Ha as ->. right. exists (parts ++ [x]), false. split; [|done]. eapply effect_entry; [done|]. apply remove_child_entry.
Qed.
Lemma tr_unlink h parts d x (Q : History → result FileError unit → Prop) :
  walked h parts d → permit h (parts ++ [x]) false → (∀ h' r, Q (h ++ h') r) → tr h (unlink_child d x) Q.
Proof.
  intros Hw Hp HQ. eapply tr_remove; [done..| |done]. intros s a s'. destruct (child s d x) as [i|]; [|done].
  destruct (kind <$> s !! i) as [[]|]; intros [= _ <-]; done.
Qed.
Lemma tr_rmdir h parts d x (Q : History → result FileError unit → Prop) :
  walked h parts d → permit h (parts ++ [x]) false → (∀ h' r, Q (h ++ h') r) → tr h (unlink_child_dir d x) Q.
Proof.
  intros Hw Hp HQ. eapply tr_remove; [done..| |done]. intros s a s'. destruct (child s d x) as [i|]; [|done].
  destruct (kind <$> s !! i) as [[| [] | |]|]; intros [= _ <-]; done.
Qed.

Lemma looks_names d : looks permit (read_dir_names d).
Proof.
  apply looks_try; [apply looks_context, looks_syscall|]. intros _. apply looks_try; [apply looks_context, looks_syscall|]. intros l.
  apply looks_try; [apply looks_context, looks_syscall|]. intros _. destruct (_ <? _); [apply looks_ret|apply looks_mret].
Qed.

(** The loop over the entries of a directory. *)
Lemma tr_for_entries (Inv : History → Prop) body entries h (Q : History → result FileError unit → Prop) :
  Inv h → (∀ h1 h2, Inv h1 → Inv (h1 ++ h2)) →
  (∀ y h' (Q' : History → result FileError unit → Prop), Inv (h ++ h') → (∀ h2 r, Q' ((h ++ h') ++ h2) r) → tr (h ++ h') (body y) Q') →
  (∀ h' r, Q (h ++ h') r) → tr h (for_entries body entries) Q.
Proof.
  intros Hi Happ Hbody HQ. cut (∀ h', Inv (h ++ h') → tr (h ++ h') (for_entries body entries) Q).
  { intros Hc. specialize (Hc []). rewrite app_nil_r in Hc. by apply Hc. }
  induction entries as [|y l IH]; intros h' Hi'; [apply HQ|]. change (for_entries body (y :: l)) with (body y;; for_entries body l).
  apply traced_try, Hbody; [done|]. intros h2 [[]|]; rewrite <-app_assoc; [|apply HQ]. apply IH. rewrite app_assoc. by apply Happ.
Qed.

Lemma tr_remove_all fds h parts d x (Q : History → result FileError unit → Prop) :
  walked h parts d → (∀ more, permit h (parts ++ x :: more) false) → (∀ h' r, Q (h ++ h') r) → tr h (remove_dir_all_at fds d x) Q.
Proof.
  revert h parts d x Q. induction fds as [|fds IH]; intros h parts d x Q Hw Hp HQ; cbn [remove_dir_all_at].
  { specialize (HQ [] (Err (Os (lit "Failed to open parent directory") EMFILE))). by rewrite app_nil_r in HQ. }
  apply traced_try. eapply tr_open_dir; [done| |intros; apply HQ]. intros h1 dir Hdir.
  apply traced_try, looks_tr; [apply looks_within, looks_names|]. intros h2 [entries|]; [|rewrite <-app_assoc; apply HQ].
  apply (walked_app _ h2) in Hdir. rewrite <-app_assoc in *. revert Hdir. generalize (h1 ++ h2). clear h1 h2. intros h1 Hdir.
  apply traced_try. eapply tr_for_entries with (Inv := fun h' => walked h' (parts ++ [x]) dir); [done|by eauto using walked_app| |].
  - intros y h2 Q' Hd HQ'. apply traced_try, looks_tr; [apply looks_within, looks_metadata|].
    intros h3 [st|]; [|apply HQ']. destruct (is_dir_mode _).
    + eapply IH; [by apply walked_app| |intros h4 r; rewrite <-app_assoc; apply HQ'].
      intros more. rewrite <-!app_assoc. cbn. apply permit_app, (Hp (y :: more)).
    + eapply tr_unlink; [by apply walked_app| |intros h4 r; rewrite <-app_assoc; apply HQ']. rewrite <-!app_assoc. cbn. apply permit_app, (Hp [y]).
  - intros h2 [[]|]; [|rewrite <-app_assoc; apply HQ]. eapply tr_rmdir; [by do 2 apply walked_app|do 2 apply permit_app; apply (Hp [])|].
    intros h3 r. rewrite <-!app_assoc. apply HQ.
Qed.
End deleting.

(** Strictly below an allowed root. *)
Definition below (roots : list rstr) (h : History) (loc : list name) (mk : bool) : Prop :=
  mk = false ∧ ∃ r root, r ∈ roots ∧ stands_for h r root ∧ root ≠ [] ∧ root `prefix_of` loc ∧ root ≠ loc.
#[global] Instance below_stable roots : Stable (below roots).
Proof. intros h h' loc mk (Hm & r & root & Hr & Hs & Hn). split; [done|]. exists r, root. eauto using stands_for_app. Qed.


Lemma delete_confined fds path recursive roots :
  traced (confined (below roots)) [] (delete_path fds path recursive roots) (fun _ _ => True).
Proof.
  unfold delete_path. apply traced_try, tr_allowed_roots; [apply _|done| |done]. intros h1 cs Hs. apply traced_try, tr_result; [|done]. intros raw _.
  destruct (is_root raw); [done|]. apply traced_try, tr_result; [|done]. intros up _. apply traced_try, tr_result; [|done]. intros file _.
  apply traced_try, tr_canonicalize; [|done]. intros h2 c _. apply traced_try, tr_ensure; [|done]. intros Hu.
  destruct (under_prefix _ _ c Hu (components_names c)) as (root & Hin & Hpre).
  assert (∀ h' more, below roots ((h1 ++ h2) ++ h') (c ++ file :: more) false) as Hb.
  { intros h' more. destruct (Hs root Hin) as (Hn & r & Hr & Hst). split; [done|]. exists r, root.
    split_and!; [done|by do 2 apply stands_for_app|done| |].
    - etrans; [done|]. by exists (file :: more).
    - intros ->. destruct Hpre as [k Hk]. apply (f_equal length) in Hk. rewrite !length_app in Hk. cbn in Hk. lia. }
  unfold delete_path_no_symlink. apply traced_try, tr_components; [|done]. intros parts Hparts.
  rewrite components_app, components_names in Hparts. change (components [Name file]) with [Name file] in Hparts.
  apply names_app_inv in Hparts as (rest & Hrest & ->). destruct rest as [|f0 [|]]; try done. injection Hrest as <-.
  apply traced_try, tr_split_last; [|done]. intros x up' Heq. apply app_inj_2 in Heq as [-> Hx]; [|done]. injection Hx as <-.
  apply traced_try. unfold open_dir_parts_no_follow. apply traced_try, tr_root; [|done]. intros h3.
  eapply tr_open_dirs with (parts := []); [apply walked_start| |done]. intros h4 d Hd. cbn [app] in Hd.
  apply traced_try, looks_tr; [apply looks_within, looks_metadata|]. intros h5 [st|]; [|done].
  assert (∀ more, below roots (((h1 ++ h2) ++ h3) ++ h4 ++ h5) (up' ++ file :: more) false) as Hb'.
  { intros more. rewrite <-(app_assoc (h1 ++ h2)). apply Hb. }
  rewrite app_assoc in Hb'. apply (walked_app _ h5) in Hd. destruct (is_dir_mode _); [destruct recursive|].
  - apply tr_within. eapply tr_remove_all; [apply _|done|apply Hb'|done].
  - apply tr_within. eapply tr_rmdir; [done|apply Hb'|done].
  - apply tr_within. eapply tr_unlink; [done|apply Hb'|done].
Qed.

(** ** Reading and listing *)

Definition nowhere (h : History) (loc : list name) (mk : bool) : Prop := False.
#[global] Instance nowhere_stable : Stable nowhere.
Proof. by intros h h' loc mk. Qed.

(** The data is a stretch of a regular file that was found under an allowed root
    without following a link. *)
Definition from_file (roots : list rstr) (offset max : Z) (h : History) (data : list Z) : Prop :=
  ∃ r root parts d x i, r ∈ roots ∧ stands_for h r root ∧ root ≠ [] ∧ root `prefix_of` parts ++ [x] ∧ walked h parts d
    ∧ once h (fun _ s => child s d x = Some i)
    ∧ once h (fun _ s => ∃ n content, s !! i = Some n ∧ kind n = Regular content
                         ∧ data = take (Z.to_nat max) (drop (Z.to_nat offset) content)).

Lemma tr_open_read permit h d x (Q : History → result FileError Z → Prop) :
  (∀ h' i, once (h ++ h') (fun _ s => child s d x = Some i) → Q (h ++ h') (Ok i)) → (∀ h' y, Q (h ++ h') (Err y)) →
  traced (confined permit) h (open_child_file_read_no_follow d x) Q.
Proof.
  intros HQ HE. unfold open_child_file_read_no_follow. apply traced_try, looks_tr; [apply looks_within, looks_metadata|]. intros h1 [st|]; [|apply HE].
  destruct (negb _); [apply HE|]. apply traced_try, tr_look; [|intros; rewrite <-app_assoc; apply HE]. intros e s i Hi.
  apply traced_try, looks_tr; [apply looks_check_opened|]. intros h3 [[]|]; [|rewrite <-!app_assoc; apply HE].
  apply traced_try, looks_tr; [apply looks_nonblock|]. intros h4 [[]|]; rewrite <-!app_assoc; [|apply HE]. apply HQ.
  rewrite !app_assoc. do 2 apply once_app. apply once_here. destruct (child s d x) as [j|]; [|done].
  destruct (s !! j) as [n|]; [cbn in Hi|done]. destruct (kind n); congruence.
Qed.

Lemma read_traced path offset length roots :
  traced (confined nowhere) [] (read_file path offset length roots)
    (fun h r => match r with Ok data => ∃ max, bounded_read_length length = Ok max ∧ from_file roots offset max h data | Err _ => True end).
Proof.
  unfold read_file. apply traced_try, tr_result; [|done]. intros max Hmax. apply traced_try, tr_allowed_roots; [apply _|done| |done].
  intros h1 cs Hs. apply traced_try, tr_resolve_existing; [|done]. intros h2 c Hu.
  destruct (under_prefix _ _ c Hu (components_names c)) as (root & Hin & Hpre).
  apply traced_try, tr_components; [|done]. intros parts Hparts. rewrite components_names in Hparts.
  apply (list_fmap_eq_inj Name) in Hparts as <-; [|by intros ? ? [= ->]]. apply traced_try, tr_split_last; [|done]. intros x up ->.
  apply traced_try. unfold open_dir_parts_no_follow. apply traced_try, tr_root; [|done]. intros h3.
  eapply tr_open_dirs with (parts := []); [apply walked_start| |done]. intros h4 d Hd. cbn [app] in Hd.
  apply traced_try, tr_open_read; [|done]. intros h5 i Hi. unfold read_at. destruct (_ && _); [done|].
  apply tr_look; [|done]. intros e s data Hdata. exists max. split; [done|].
  destruct (Hs root Hin) as (Hn & r & Hr & Hst). exists r, root, up, d, x, i. cbn [app].
  split_and!; [done|by do 5 apply stands_for_app|done|done|by do 2 apply walked_app|by apply once_app|].
  apply once_here. destruct (s !! i) as [n|] eqn:Ei; [|done]. destruct (kind n) as [content| | |] eqn:Ek; try done.
  exists n, content. split_and!; [done..|]. by apply Ok_inj in Hdata.
Qed.

Lemma looks_list permit to_lossy d names : looks permit (list_entries to_lossy d names).
Proof.
  induction names as [|x l IH]; cbn [list_entries]; [apply looks_mret|]. apply looks_try.
  - apply looks_try; [apply looks_within, looks_metadata|]. intros st. apply looks_try; [|intros; apply looks_mret]. destruct (is_symlink_mode _); [|apply looks_mret].
    apply looks_bind; [|intros; apply looks_ret]. apply looks_try; [apply looks_context, looks_syscall|]. intros t. apply looks_ret.
  - intros entry. apply looks_try; [apply IH|]. intros. apply looks_mret.
Qed.

Lemma list_traced to_lossy path roots : traced (confined nowhere) [] (list_files to_lossy path roots) (fun _ _ => True).
Proof.
  unfold list_files. apply traced_try, tr_allowed_roots; [apply _|done| |done]. intros h1 cs Hs.
  apply traced_try, tr_resolve_existing; [|done]. intros h2 c Hu. apply traced_try. unfold open_dir_path_no_follow.
  apply traced_try, tr_components; [|done]. intros parts _. unfold open_dir_parts_no_follow. apply traced_try, tr_root; [|done]. intros h3.
  eapply tr_open_dirs with (parts := []); [apply walked_start| |done]. intros h4 d Hd.
  apply looks_tr; [|done]. apply looks_try; [apply looks_within, looks_names|]. intros names. apply looks_try; [apply looks_list|]. intros. apply looks_mret.
Qed.

(** ** The tasks *)

Section tasks.
Context (to_string_lossy : list Z → rstr) (entries_json : list FileEntry → rstr) (error_text : FileError → rstr) (fds : nat).

Lemma finish_traced {A} permit (show : A → rstr) (m : PF A) (Q : History → result FileError A → Prop) :
  traced (confined permit) [] m Q → traced (confined permit) [] (finish error_text show m) (fun _ _ => True).
Proof. intros Hm. apply traced_bind. eapply traced_mono, Hm. done. Qed.

Lemma file_task_steps cfg spec h e s s' :
  makes (run_file_task to_string_lossy entries_json error_text fds cfg spec) h e s s' → s' ≠ s →
  disable_command_execute cfg = false
  ∧ ∃ loc mk, effect h s s' loc mk
    ∧ match spec with
      | FileWrite _ _ _ _ => allowed (file_allowed_roots cfg) h loc mk
      | FileDelete _ _ => below (file_allowed_roots cfg) h loc mk
      | _ => False
      end.
Proof.
  unfold run_file_task. intros Hm Hne. destruct (disable_command_execute cfg); [by inversion Hm|]. split; [done|].
  assert (∃ permit, traced (confined permit) [] (match spec with
     | FileList path => finish error_text entries_json (list_files to_string_lossy path (file_allowed_roots cfg))
     | FileRead path offset length => finish error_text Base64.base64_encode (read_file path offset length (file_allowed_roots cfg))
     | FileWrite path data mode create_dirs =>
         finish error_text print_i64 (write_file path data (if mode =? 0 then None else Some mode) create_dirs (file_allowed_roots cfg))
     | FileDelete path recursive => finish error_text (fun _ => lit "deleted") (delete_path fds path recursive (file_allowed_roots cfg))
     end) (fun _ _ => True)
     ∧ permit = match spec with FileWrite _ _ _ _ => allowed (file_allowed_roots cfg) | FileDelete _ _ => below (file_allowed_roots cfg) | _ => nowhere end)
    as (permit & Ht & ->).
  { destruct spec; eexists; (split; [|done]); eapply finish_traced.
    - apply list_traced.
    - apply read_traced.
    - apply write_confined.
    - apply delete_confined. }
  pose proof (traced_makes _ _ _ _ _ _ _ _ Ht Hm) as [?|(loc & mk & He & Hp)]; [done|]. exists loc, mk. split; [done|].
  by destruct spec.
Qed.
(** C4: A file task changes the file system of an Agent only inside the configured
    roots, even while other processes rename files and plant symbolic links between
    any two of its system calls. Each step that changes something changes one
    directory entry or one file, which it reached from the root directory through
    real directories, never through a link, and whose path lies under what a
    configured root was seen to stand for (for a deletion: strictly under it); a
    write may besides make missing directories on the way to a configured root. Reads
    and listings change nothing, and nothing happens where command execution is
    disabled. *)
Theorem file_task_confined cfg spec h e s s' :
  makes (run_file_task to_string_lossy entries_json error_text fds cfg spec) h e s s' → s' ≠ s →
  disable_command_execute cfg = false
  ∧ ∃ loc mk, effect h s s' loc mk
    ∧ match spec with
      | FileWrite _ _ _ _ => allowed (file_allowed_roots cfg) h loc mk
      | FileDelete _ _ => below (file_allowed_roots cfg) h loc mk
      | _ => False
      end.
Proof. apply file_task_steps. Qed.

(** What a read returns is a stretch of a regular file that was found, without
    following a link, under what a configured root was seen to stand for, and it is
    at most 100 MiB. *)
Theorem file_read_confined path offset length roots h data :
  returns (read_file path offset length roots) h (Ok data) →
  ∃ max, bounded_read_length length = Ok max ∧ from_file roots offset max h data ∧ zlen data <= HARD_MAX_FILE_READ_BYTES.
Proof.
  intros Hr. pose proof (traced_returns _ _ _ _ _ _ (read_traced path offset length roots) Hr) as (max & Hmax & Hf). exists max. split_and!; [done..|].
  destruct Hf as (r & root & parts & d & x & i & _ & _ & _ & _ & _ & _ & (e & s & _ & n & content & _ & _ & ->)).
  unfold zlen. rewrite length_take. unfold bounded_read_length, HARD_MAX_FILE_READ_BYTES, DEFAULT_FILE_READ_MAX_BYTES in *.
  destruct (length =? 0) eqn:E0; [apply Ok_inj in Hmax; lia|]. destruct (_ <? length) eqn:E1; [done|]. apply Ok_inj in Hmax. lia.
Qed.
End tasks.

End AgentFilesProofs.

(** ** File tasks on a small file system

    [/srv/data] is the allowed root; [/srv/data/out] is a link to [/etc]. *)

Module AgentFilesExamples.
Import Interleave AgentConfig AgentFiles AgentFilesProofs.

Definition node (k : Kind) : Node := {| kind := k; mode := 493; mtime := 0; extent := 4096 |}.
Definition fs0 : Fs := list_to_map [
  (1, node (Directory [(lit "srv", 2); (lit "etc", 3)]));
  (2, node (Directory [(lit "data", 4)]));
  (3, node (Directory [(lit "passwd", 5)]));
  (4, node (Directory [(lit "motd", 6); (lit "out", 7)]));
  (5, node (Regular (lit "root:x:0:0")));
  (6, node (Regular (lit "hello")));
  (7, node (Symlink (lit "/etc")))].
Definition env0 (i : nat) : Env := {| fault := None; partial := 0; new_ino := 100 + Z.of_nat i; umasked m := m; clock := 0 |}.
Definition envs0 : list Env := env0 <$> seq 0 80.
Definition roots0 : list rstr := [lit "/srv/data"].
Definition cfg0 : AgentConfig :=
  {| server := lit "https://dash.example"; grpc_server := lit "https://grpc.example"; grpc_tls_ca_path := None; grpc_tls_domain_name := None;
     grpc_tls_client_cert_path := None; grpc_tls_client_key_path := None; agent_id := lit "a1"; agent_name := lit "host"; public_key := lit "pk";
     private_key := lit "sk"; report_interval_seconds := 10; ip_report_interval_seconds := 60; disable_auto_update := false;
     disable_force_update := false; disable_command_execute := false; disable_nat := false; disable_send_query := false;
     file_allowed_roots := roots0 |}.

Definition lossy0 (l : list Z) : rstr := l.
Definition json0 (l : list FileEntry) : rstr := [].
Definition text0 (x : FileError) : rstr := match x with Bail m => m | Os c _ | Within c _ => c end.
Definition task0 (spec : FileSpec) : Proc Env Fs TaskOutput := run_file_task lossy0 json0 text0 16 cfg0 spec.

(** The state after a task that runs alone. *)
Definition after0 (m : Proc Env Fs TaskOutput) : Fs := default fs0 (last (snd <$> solo envs0 m fs0)).
Definition error0 (m : Proc Env Fs TaskOutput) : option rstr := error <$> outcome envs0 m fs0.
Definition stdout0 (s : Fs) (m : Proc Env Fs TaskOutput) : option rstr := stdout <$> outcome envs0 m s.

Definition write0 : Proc Env Fs TaskOutput := task0 (FileWrite (lit "/srv/data/new/x") (lit "abc") 0 true).

(** Written, then read back. *)
Example write_then_read :
  stdout0 (after0 write0) (task0 (FileRead (lit "/srv/data/new/x") 0 0)) = Some (Base64.base64_encode (lit "abc")).
Proof. by vm_compute. Qed.

(** A link out of the root is not followed, and [..] does not lead out of it. *)
Example link_refused :
  error0 (task0 (FileWrite (lit "/srv/data/out/passwd") (lit "x") 0 true)) = Some (lit "Path is outside configured allowed file roots").
Proof. by vm_compute. Qed.
Example dotdot_refused :
  error0 (task0 (FileWrite (lit "/srv/data/none/../../../etc/cron") (lit "x") 0 true)) = Some (lit "Failed to create parent directories").
Proof. by vm_compute. Qed.
Example link_deleted_not_target :
  child (after0 (task0 (FileDelete (lit "/srv/data/out") true))) 4 (lit "out") = None
  ∧ after0 (task0 (FileDelete (lit "/srv/data/out") true)) !! 5 = fs0 !! 5.
Proof. by vm_compute. Qed.
Example root_not_deleted :
  error0 (task0 (FileDelete (lit "/srv/data") true)) = Some (lit "Path is outside configured allowed file roots").
Proof. by vm_compute. Qed.

(** The step of [write0] that makes the directory [new]. *)
Definition steps0 : list (Env * Fs * Fs) := solo envs0 write0 fs0.
Definition seen0 (k : nat) : list (Env * Fs) := fst <$> take k steps0.
Definition before0 (k : nat) : Fs := default fs0 ((fun x => x.1.2) <$> steps0 !! k).
Definition next0 (k : nat) : Fs := default fs0 (snd <$> steps0 !! k).

Lemma mkdir0 : ∃ e, makes write0 (seen0 10) e (before0 10) (next0 10) ∧ next0 10 ≠ before0 10.
Proof.
  assert (match steps0 !! 10%nat with Some (_, t, t') => bool_decide (size t = size t') | None => true end = false) as Hb by by vm_compute.
  unfold before0, next0, seen0. destruct (steps0 !! 10%nat) as [[[e t] t']|] eqn:Ek; [|done].
  exists e. split; [by apply solo_makes|]. cbn [fmap option_fmap option_map default snd fst].
  apply bool_decide_eq_false in Hb. clear Ek. intros Heq. apply Hb. exact (f_equal size (eq_sym Heq)).
Qed.

Lemma file_task_confined_witness :
  disable_command_execute cfg0 = false ∧ ∃ loc mk, effect (seen0 10) (before0 10) (next0 10) loc mk ∧ allowed roots0 (seen0 10) loc mk.
Proof.
  destruct mkdir0 as (e & Hm & Hne).
  exact (file_task_confined lossy0 json0 text0 16 cfg0 (FileWrite (lit "/srv/data/new/x") (lit "abc") 0 true) _ e _ _ Hm Hne).
Defined.

Definition read0 : P Env Fs FileError (list Z) := read_file (lit "/srv/data/motd") 1 3 roots0.
Definition history0 : list (Env * Fs) := fst <$> solo envs0 read0 fs0.

End AgentFilesExamples.
