(* ===== verification/AgentGuards.v ===== *)
(** * AgentGuards: what an Agent checks before it acts

    The address rules of probes and NAT targets, the limits of a task and the
    environment of a command: [crates/agent/src/main.rs] and
    [crates/agent/src/executor/shell.rs]. DNS, the URL parser and
    [String::from_utf8_lossy] are parameters; an error is its message. *)

From S2P Require Import Prelude Text Net Security AgentConfig.

Module AgentGuards.
Import Net.
Abbreviation Url := Security.Url.
Abbreviation SocketAddr := Security.SocketAddr.
Abbreviation socket_addr ip port := {| Security.sa_ip := ip; Security.sa_port := port |}.

(** ** Limits of a task *)

Definition AGENT_SHELL_MIN_TIMEOUT_SECONDS : Z := 1.
Definition AGENT_SHELL_DEFAULT_TIMEOUT_SECONDS : Z := 30.
Definition AGENT_SHELL_MAX_TIMEOUT_SECONDS : Z := 60.
Definition AGENT_SHELL_DEFAULT_OUTPUT_MAX_BYTES : Z := 64 * 1024.
Definition AGENT_SHELL_OUTPUT_MAX_BYTES : Z := 64 * 1024.
Definition AGENT_PROBE_MIN_TIMEOUT_SECONDS : Z := 1.
Definition AGENT_PROBE_DEFAULT_TIMEOUT_SECONDS : Z := 10.
Definition AGENT_PROBE_MAX_TIMEOUT_SECONDS : Z := 30.
Definition AGENT_PING_OUTPUT_MAX_BYTES : Z := 4096.

(** [Ord::clamp]. *)
Definition clamp (v lo hi : Z) : Z := Z.max lo (Z.min v hi).
Definition task_timeout_seconds (value : Z) : Z :=
  if value =? 0 then AGENT_PROBE_DEFAULT_TIMEOUT_SECONDS
  else clamp value AGENT_PROBE_MIN_TIMEOUT_SECONDS AGENT_PROBE_MAX_TIMEOUT_SECONDS.
Definition shell_task_timeout_seconds (value : Z) : Z :=
  if value =? 0 then AGENT_SHELL_DEFAULT_TIMEOUT_SECONDS
  else clamp value AGENT_SHELL_MIN_TIMEOUT_SECONDS AGENT_SHELL_MAX_TIMEOUT_SECONDS.
Definition shell_task_output_max_bytes (value : Z) : Z :=
  if value =? 0 then AGENT_SHELL_DEFAULT_OUTPUT_MAX_BYTES else Z.min value AGENT_SHELL_OUTPUT_MAX_BYTES.

(** ** Addresses *)

Definition is_agent_blocked_ipv4 (ip : Z) : bool :=
  is_private ip || is_loopback_v4 ip || is_link_local ip || is_multicast_v4 ip || is_unspecified ip || is_documentation ip
  || (octet 0 ip =? 0)
  || (224 <=? octet 0 ip)
  || ((octet 0 ip =? 100) && ((64 <=? octet 1 ip) && (octet 1 ip <=? 127)))
  || ((octet 0 ip =? 169) && (octet 1 ip =? 254))
  || ((octet 0 ip =? 192) && (octet 1 ip =? 0) && (octet 2 ip =? 0))
  || ((octet 0 ip =? 198) && ((18 <=? octet 1 ip) && (octet 1 ip <=? 19)))
  || bool_decide ((fun i => octet i ip) <$> [0; 1; 2; 3] = [255; 255; 255; 255]).

Definition is_agent_blocked_ipv6 (ip : Z) : bool :=
  let first := segment 0 ip in
  is_loopback_v6 ip || is_unspecified ip || is_multicast_v6 ip
  || (Z.land first 0xfe00 =? 0xfc00)
  || (Z.land first 0xffc0 =? 0xfe80)
  || ((segment 0 ip =? 0x2001) && (segment 1 ip =? 0x0db8))
  || match to_ipv4_mapped ip with Some v4 => is_agent_blocked_ipv4 v4 | None => false end.

Definition is_agent_blocked_ip (ip : IpAddr) : bool :=
  match ip with V4 ip => is_agent_blocked_ipv4 ip | V6 ip => is_agent_blocked_ipv6 ip end.

(** [std::env::var] of any of the names is set to a true value. *)
Definition agent_private_nat_targets_allowed (env : Security.Env) : bool :=
  existsb (fun name => Security.env_truthy env (lit name))
    ["XLSTATUS_AGENT_ALLOW_PRIVATE_NAT_TARGETS"; "XLSTATUS_ALLOW_PRIVATE_NAT_TARGETS"; "XLSTATUS_ALLOW_PRIVATE_OUTBOUND"]%string.
Definition agent_private_probes_allowed (env : Security.Env) : bool :=
  existsb (fun name => Security.env_truthy env (lit name)) ["XLSTATUS_AGENT_ALLOW_PRIVATE_PROBES"; "XLSTATUS_ALLOW_PRIVATE_OUTBOUND"]%string.

Definition ensure_agent_nat_ip_allowed (ip : IpAddr) (allow_private : bool) : result rstr unit :=
  if allow_private || is_loopback ip then Ok () else Err (lit "Agent NAT target resolves to disallowed non-loopback address " ++ print_ip ip).
Definition ensure_agent_probe_ip_allowed (ip : IpAddr) (purpose : rstr) (allow_private : bool) : result rstr unit :=
  if negb allow_private && is_agent_blocked_ip ip then Err (purpose ++ lit " resolves to disallowed private address " ++ print_ip ip) else Ok ().

Definition agent_probe_port (value : Z) (purpose : rstr) : result rstr Z :=
  if u16_max <? value then Err (purpose ++ lit " port is out of range: " ++ print_i64 value) else
  if value =? 0 then Err (purpose ++ lit " port must be greater than 0") else Ok value.

Definition agent_ping_target (addrs : list SocketAddr) (purpose : rstr) : result rstr rstr :=
  addr ← ok_or (head addrs) (purpose ++ lit " did not resolve to any address");
  Ok (print_ip (Security.sa_ip addr)).

Definition format_nat_target_label (host : rstr) (port : Z) : rstr :=
  if contains 58 host && negb (starts_with (lit "[") host) then lit "[" ++ host ++ lit "]:" ++ print_i64 port
  else host ++ lit ":" ++ print_i64 port.

Section targets.
Context (lookup_host : rstr → Z → option (list SocketAddr)) (url_parse : rstr → option Url).

(** A host is an address, or a name every address of which must be allowed. *)
Definition resolve_with (allowed : IpAddr → result rstr unit) (what host : rstr) (port : Z) : result rstr (list SocketAddr) :=
  let host := trim host in
  if is_empty host then Err (what ++ lit " host must not be empty") else
  match parse_ip host with
  | Some ip => allowed ip;; Ok [socket_addr ip port]
  | None =>
      addrs ← ok_or (lookup_host host port) (lit "failed to resolve " ++ what ++ lit " host '" ++ host ++ lit "'");
      resolved ← try_fold (fun resolved addr => allowed (Security.sa_ip addr);; Ok (resolved ++ [addr])) addrs [];
      if is_empty resolved then Err (what ++ lit " host '" ++ host ++ lit "' did not resolve to any address") else Ok resolved
  end.

Definition resolve_agent_nat_target_with_policy (host : rstr) (port : Z) (allow_private : bool) : result rstr (list SocketAddr) :=
  resolve_with (fun ip => ensure_agent_nat_ip_allowed ip allow_private) (lit "Agent NAT target") host port.
Definition resolve_agent_nat_target (env : Security.Env) (host : rstr) (port : Z) : result rstr (list SocketAddr) :=
  resolve_agent_nat_target_with_policy host port (agent_private_nat_targets_allowed env).

Definition resolve_agent_probe_host_with_policy (host : rstr) (port : Z) (purpose : rstr) (allow_private : bool) : result rstr (list SocketAddr) :=
  resolve_with (fun ip => ensure_agent_probe_ip_allowed ip purpose allow_private) purpose host port.
Definition resolve_agent_probe_host (env : Security.Env) (host : rstr) (port : Z) (purpose : rstr) : result rstr (list SocketAddr) :=
  resolve_agent_probe_host_with_policy host port purpose (agent_private_probes_allowed env).

Record ValidatedAgentProbeUrl := { pu_url : Url; pu_host : rstr; pu_addrs : list SocketAddr }.
Definition validate_agent_probe_url_resolved_with_policy (url purpose : rstr) (allow_private : bool) : result rstr ValidatedAgentProbeUrl :=
  parsed ← ok_or (url_parse url) (purpose ++ lit " URL is invalid");
  if negb (contains (Security.scheme parsed) (lit <$> ["http"; "https"]%string))
  then Err (purpose ++ lit " URL scheme '" ++ Security.scheme parsed ++ lit "' is not allowed") else
  if negb (is_empty (Security.username parsed)) || match Security.password parsed with Some _ => true | None => false end
  then Err (purpose ++ lit " URL must not include credentials") else
  host ← ok_or (Security.host_str parsed) (purpose ++ lit " URL must include a host");
  port ← ok_or (Security.port_or_known_default parsed) (purpose ++ lit " URL must include a port or known scheme");
  addrs ← resolve_agent_probe_host_with_policy host port purpose allow_private;
  Ok {| pu_url := parsed; pu_host := host; pu_addrs := addrs |}.
Definition validate_agent_probe_url_resolved (env : Security.Env) (url purpose : rstr) : result rstr ValidatedAgentProbeUrl :=
  validate_agent_probe_url_resolved_with_policy url purpose (agent_private_probes_allowed env).
End targets.

(** ** What [ping] printed *)

Section ping.
Context (from_utf8_lossy : list Z → rstr).

(** [while end > 0 && from_utf8(&bytes[..end]).is_err() { end -= 1 }]. *)
Fixpoint utf8_end (bytes : list Z) (e : nat) : nat :=
  match e with
  | O => O
  | S k => match from_utf8 (take e bytes) with Some _ => e | None => utf8_end bytes k end
  end.
Definition bounded_ping_output_text (bytes : list Z) : rstr :=
  if zlen bytes <=? AGENT_PING_OUTPUT_MAX_BYTES then from_utf8_lossy bytes else
  let e := utf8_end bytes (Z.to_nat AGENT_PING_OUTPUT_MAX_BYTES) in
  from_utf8_lossy (take e bytes) ++ lit "... [truncated]".
Definition ping_failure_message (stderr stdout : list Z) : rstr :=
  let stderr := trim (bounded_ping_output_text stderr) in
  let stdout := trim (bounded_ping_output_text stdout) in
  let detail := if is_empty stderr then stdout else stderr in
  if is_empty detail then lit "Ping failed" else lit "Ping failed: " ++ detail.
End ping.

(** ** Commands: [executor/shell.rs] *)

Definition SHELL_MIN_TIMEOUT_SECONDS : Z := 1.
Definition SHELL_DEFAULT_TIMEOUT_SECONDS : Z := 30.
Definition SHELL_MAX_TIMEOUT_SECONDS : Z := 60.
Definition SHELL_DEFAULT_OUTPUT_MAX_BYTES : Z := 64 * 1024.
Definition SHELL_MAX_OUTPUT_BYTES : Z := 64 * 1024.
Definition SHELL_MAX_COMMAND_BYTES : Z := 64 * 1024.
Definition SHELL_MAX_WORKING_DIR_BYTES : Z := 4096.
Definition SHELL_MAX_ENV_VARS : Z := 64.
Definition SHELL_MAX_ENV_KEY_BYTES : Z := 256.
Definition SHELL_MAX_ENV_VALUE_BYTES : Z := 4096.

Definition SENSITIVE_AGENT_ENV_VARS : list rstr :=
  lit <$> ["XLSTATUS_ENROLL_TOKEN"; "XLSTATUS_AGENT_JWT"; "XLSTATUS_PRIVATE_KEY"; "XLSTATUS_TOKEN"; "ENROLLMENT_TOKEN"]%string.
Definition BLOCKED_SHELL_ENV_VARS : list rstr :=
  lit <$> ["LD_PRELOAD"; "LD_LIBRARY_PATH"; "LD_AUDIT"; "LD_DEBUG"; "LD_DEBUG_OUTPUT"; "LD_DYNAMIC_WEAK"; "LD_ORIGIN_PATH"; "LD_PROFILE";
           "LD_USE_LOAD_BIAS"; "DYLD_INSERT_LIBRARIES"; "DYLD_LIBRARY_PATH"; "DYLD_FRAMEWORK_PATH"; "DYLD_FALLBACK_LIBRARY_PATH";
           "DYLD_FALLBACK_FRAMEWORK_PATH"; "DYLD_FORCE_FLAT_NAMESPACE"; "DYLD_IMAGE_SUFFIX"; "DYLD_PRINT_TO_FILE"; "BASH_ENV"; "ENV";
           "PROMPT_COMMAND"; "SHELLOPTS"; "BASHOPTS"; "PS4"; "IFS"; "CDPATH"; "GLOBIGNORE"; "FPATH"; "ZDOTDIR"; "GCONV_PATH"; "HOSTALIASES";
           "LOCALDOMAIN"; "RES_OPTIONS"; "PERL5OPT"; "PERL5LIB"; "PYTHONSTARTUP"; "PYTHONPATH"; "RUBYOPT"; "NODE_OPTIONS"]%string.

Definition ascii_upper (c : Z) : Z := if is_ascii_lower c then c - 32 else c.
Definition to_ascii_uppercase (s : rstr) : rstr := ascii_upper <$> s.
(** [str::contains(&str)]. *)
Definition contains_str (needle s : rstr) : bool := match split_once_str needle s with Some _ => true | None => false end.

Definition is_sensitive_inherited_env_key (key : rstr) : bool :=
  let upper := to_ascii_uppercase key in
  contains upper SENSITIVE_AGENT_ENV_VARS
  || (starts_with (lit "XLSTATUS_") upper
      && existsb (fun word => contains_str (lit word) upper) ["TOKEN"; "SECRET"; "KEY"; "JWT"; "PASS"]%string)
  || (starts_with (lit "LD_") upper || starts_with (lit "DYLD_") upper || starts_with (lit "BASH_FUNC_") upper)
  || contains upper (lit <$> ["BASH_ENV"; "ENV"; "PROMPT_COMMAND"; "SHELLOPTS"; "BASHOPTS"; "PS4"]%string).
Definition is_blocked_shell_env_key (key : rstr) : bool :=
  let upper := to_ascii_uppercase key in is_sensitive_inherited_env_key upper || contains upper BLOCKED_SHELL_ENV_VARS.

Definition is_ascii_alphabetic (c : Z) : bool := is_ascii_upper c || is_ascii_lower c.
Definition is_valid_env_key_identifier (key : rstr) : bool :=
  match str_bytes key with
  | [] => false
  | first :: rest => (is_ascii_alphabetic first || (first =? 95)) && forallb (fun b => is_ascii_alphanumeric b || (b =? 95)) rest
  end.

Fixpoint validate_shell_env_vars (env : list (rstr * rstr)) : result rstr unit :=
  match env with
  | [] => Ok ()
  | (key, value) :: env =>
      if is_empty key || (SHELL_MAX_ENV_KEY_BYTES <? byte_len key)
      then Err (lit "Invalid environment variable key length " ++ print_i64 (byte_len key) ++ lit " (must be 1..=256 bytes)") else
      if negb (is_valid_env_key_identifier key)
      then Err (lit "Invalid environment variable key '" ++ key ++ lit "': must match [A-Za-z_][A-Za-z0-9_]*") else
      if is_blocked_shell_env_key key then Err (lit "Environment variable '" ++ key ++ lit "' is blocked by agent security policy") else
      if SHELL_MAX_ENV_VALUE_BYTES <? byte_len value
      then Err (lit "Environment variable '" ++ key ++ lit "' value exceeds maximum of 4096 bytes") else
      if contains 0 value || existsb is_control value
      then Err (lit "Environment variable '" ++ key ++ lit "' value contains disallowed control characters") else
      validate_shell_env_vars env
  end.
Definition validate_shell_env (env : list (rstr * rstr)) : result rstr unit :=
  if SHELL_MAX_ENV_VARS <? zlen env
  then Err (lit "Command environment variable count " ++ print_i64 (zlen env) ++ lit " exceeds maximum of 64") else
  validate_shell_env_vars env.

Definition validate_shell_command_inputs (command : rstr) (working_dir : option rstr) (env : list (rstr * rstr)) : result rstr unit :=
  if is_empty (trim command) then Err (lit "Command must not be empty") else
  if SHELL_MAX_COMMAND_BYTES <? byte_len command
  then Err (lit "Command length " ++ print_i64 (byte_len command) ++ lit " exceeds maximum of 65536 bytes") else
  if contains 0 command then Err (lit "Command must not contain NUL bytes") else
  match working_dir with
  | None => Ok ()
  | Some dir =>
      if is_empty dir || (SHELL_MAX_WORKING_DIR_BYTES <? byte_len dir) then Err (lit "Working directory length must be between 1 and 4096 bytes") else
      if contains 0 dir || existsb is_control dir then Err (lit "Working directory contains disallowed control characters") else Ok ()
  end;;
  validate_shell_env env.

Definition bounded_timeout_seconds (value : Z) : Z :=
  if value =? 0 then SHELL_DEFAULT_TIMEOUT_SECONDS else clamp value SHELL_MIN_TIMEOUT_SECONDS SHELL_MAX_TIMEOUT_SECONDS.
Definition bounded_output_max_bytes (value : Z) : Z :=
  if value =? 0 then SHELL_DEFAULT_OUTPUT_MAX_BYTES else Z.min value SHELL_MAX_OUTPUT_BYTES.

(** The reads of a pipe, each at most 8192 bytes; an empty read ends it. *)
Fixpoint collect_output (max_bytes : Z) (reads : list (list Z)) (output : list Z) (truncated : bool) : list Z * bool :=
  match reads with
  | [] | [] :: _ => (output, truncated)
  | chunk :: reads =>
      let retained := Z.min (Z.max 0 (max_bytes - zlen output)) (zlen chunk) in
      collect_output max_bytes reads (output ++ take (Z.to_nat retained) chunk) (truncated || (retained <? zlen chunk))
  end.

Section spawn.
Context (from_utf8_lossy : list Z → rstr).

(** The variables of a child: those inherited that are not removed, overridden
    by those given. Keys are the bytes of an [OsString]. *)
Definition removed_env_key (key : list Z) : bool :=
  contains key (str_bytes <$> SENSITIVE_AGENT_ENV_VARS) || is_sensitive_inherited_env_key (from_utf8_lossy key).
Definition sanitize_tokio_command_env (inherited : gmap (list Z) (list Z)) : gmap (list Z) (list Z) :=
  filter (fun kv => removed_env_key kv.1 = false) inherited.
Definition set_env (vars : gmap (list Z) (list Z)) (env : list (rstr * rstr)) : gmap (list Z) (list Z) :=
  foldl (fun vars kv => <[str_bytes kv.1 := str_bytes kv.2]> vars) vars env.

(** The [Command] that [execute_shell_command] spawns, with its limits. *)
Record Command := {
  cmd_args : list rstr; cmd_dir : option rstr; cmd_env : gmap (list Z) (list Z); cmd_timeout : Z; cmd_max_output : Z;
}.
Definition shell_command (inherited : gmap (list Z) (list Z)) (command : rstr) (working_dir : option rstr) (env : list (rstr * rstr))
    (timeout_seconds max_output_bytes : Z) : result rstr Command :=
  validate_shell_command_inputs command working_dir env;;
  Ok {| cmd_args := [lit "sh"; lit "-c"; command]; cmd_dir := working_dir;
        cmd_env := set_env (sanitize_tokio_command_env inherited) env;
        cmd_timeout := bounded_timeout_seconds timeout_seconds; cmd_max_output := bounded_output_max_bytes max_output_bytes |}.

(** What became of the child: it could not be spawned, it ended with its two
    outputs, it could not be waited for, or the time ran out (and killing its
    group worked or not). *)
Inductive Child : Type :=
| SpawnFailed (e : rstr)
| Exited (code : option Z) (stdout stderr : list (list Z))
| WaitFailed (e : rstr)
| TimedOut (killed : bool).
Record ShellResult := { sh_exit_code : Z; sh_stdout : list Z; sh_stderr : list Z; output_truncated : bool }.
Definition shell_result (cmd : Command) (child : Child) : result rstr ShellResult :=
  match child with
  | SpawnFailed _ => Err (lit "Failed to spawn command")
  | Exited code out err =>
      let '(stdout, stdout_truncated) := collect_output (cmd_max_output cmd) out [] false in
      let '(stderr, stderr_truncated) := collect_output (cmd_max_output cmd) err [] false in
      Ok {| sh_exit_code := default (-1) code; sh_stdout := stdout; sh_stderr := stderr; output_truncated := stdout_truncated || stderr_truncated |}
  | WaitFailed e => Err e
  | TimedOut killed =>
      if killed then Err (lit "Command timed out after " ++ print_i64 (cmd_timeout cmd) ++ lit " seconds")
      else Err (lit "Command timed out and its process group could not be terminated")
  end.
End spawn.

End AgentGuards.
