(* ===== verification/AgentPolicy.v ===== *)
(** * AgentPolicy: remote configuration and forced updates on the Agent

    [crates/agent/src/main.rs]: the fields a server may change and how far, the
    way the configuration file is read and replaced, and what of a forced update
    is recorded. The file system is that of [AgentFiles], so every system call is
    a step and may fail; [serde_json] and the URL parser are parameters, an error
    is its message. *)

From S2P Require Import Prelude Text BTreeMap Json Externals Net Security Interleave Auth AgentConfig AgentFiles AgentGuards.

Module AgentPolicy.
Import Interleave AgentConfig.
Abbreviation Fs := (gmap Z AgentFiles.Node).
Abbreviation Piece := AgentFiles.Piece.
Abbreviation PD := (P AgentFiles.Env Fs rstr).

Definition REMOTE_CONFIG_MAX_BYTES : Z := 128 * 1024.
Definition REMOTE_CONFIG_MAX_NAME_BYTES : Z := 255.
Definition REMOTE_CONFIG_MAX_URL_BYTES : Z := 2048.
Definition REMOTE_CONFIG_MAX_PATH_BYTES : Z := 4096.
Definition REMOTE_CONFIG_MAX_ROOTS : Z := 32.
Definition REMOTE_CONFIG_MIN_INTERVAL_SECONDS : Z := 1.
Definition REMOTE_CONFIG_MAX_INTERVAL_SECONDS : Z := 86400.
Definition FORCE_UPDATE_MAX_VERSION_BYTES : Z := 80.
Definition FORCE_UPDATE_MAX_URL_BYTES : Z := 2048.

(** ** Texts, numbers and flags *)

Definition validate_sized_remote_text (value : rstr) (min_bytes max_bytes : Z) (field : rstr) : result rstr unit :=
  if (byte_len value <? min_bytes) || (max_bytes <? byte_len value)
  then Err (field ++ lit " must be between " ++ print_i64 min_bytes ++ lit " and " ++ print_i64 max_bytes ++ lit " bytes") else Ok ().

Definition text_of (value : json) (field : rstr) : result rstr rstr :=
  text ← ok_or (as_str value) (field ++ lit " must be a string"); Ok (trim text).

Definition validate_optional_remote_config_text (value : json) (field : rstr) (max_bytes : Z) : result rstr (option rstr) :=
  text ← text_of value field;
  if is_empty text then Ok None else
  validate_sized_remote_text text 1 max_bytes field;;
  if existsb is_control text then Err (field ++ lit " contains control characters") else Ok (Some text).

Definition validate_remote_config_name (value : json) : result rstr rstr :=
  text ← text_of value (lit "name");
  validate_sized_remote_text text 1 REMOTE_CONFIG_MAX_NAME_BYTES (lit "name");;
  if existsb is_control text then Err (lit "name contains control characters") else Ok text.

Definition validate_remote_config_interval (value : json) (field : rstr) : result rstr Z :=
  v ← ok_or (as_u64 value) (field ++ lit " must be an unsigned integer");
  if (REMOTE_CONFIG_MIN_INTERVAL_SECONDS <=? v) && (v <=? REMOTE_CONFIG_MAX_INTERVAL_SECONDS) then Ok v
  else Err (field ++ lit " must be between 1 and 86400 seconds").

Definition validate_remote_config_bool (value : json) (field : rstr) : result rstr bool :=
  ok_or (as_bool value) (field ++ lit " must be a boolean").
Definition validate_remote_config_disable_flag (value : json) (field : rstr) (currently_disabled : bool) : result rstr bool :=
  requested ← validate_remote_config_bool value field;
  if currently_disabled && negb requested
  then Err (lit "remote config field " ++ field ++ lit " cannot be re-enabled once disabled by local policy") else Ok requested.

(** ** Paths *)

Definition validate_normalized_absolute_path (text field : rstr) : result rstr (list (list Z)) :=
  if contains 0 text then Err (field ++ lit " contains NUL byte") else
  if existsb is_control text then Err (field ++ lit " contains control characters") else
  if negb (starts_with [AgentFiles.slash] text) then Err (field ++ lit " must be an absolute path") else
  names ← ok_or (AgentFiles.normal_names (AgentFiles.components (AgentFiles.pieces (str_bytes text))))
            (field ++ lit " must not contain relative path traversal components");
  if is_empty names then Err (field ++ lit " must not be the filesystem root") else Ok names.

Definition validate_optional_remote_config_path (value : json) (field : rstr) : result rstr (option rstr) :=
  text ← validate_optional_remote_config_text value field REMOTE_CONFIG_MAX_PATH_BYTES;
  match text with
  | None => Ok None
  | Some text => validate_normalized_absolute_path text field;; Ok (Some text)
  end.

Definition roots_field : rstr := lit "file_allowed_roots".
Fixpoint validate_root_items (items : list json) : result rstr (list rstr) :=
  match items with
  | [] => Ok []
  | item :: items =>
      text ← ok_or (as_str item) (lit "file_allowed_roots entries must be strings");
      let text := trim text in
      validate_sized_remote_text text 1 REMOTE_CONFIG_MAX_PATH_BYTES roots_field;;
      validate_normalized_absolute_path text roots_field;;
      rest ← validate_root_items items;
      Ok (text :: rest)
  end.
Definition validate_remote_config_roots (value : json) : result rstr (list rstr) :=
  items ← ok_or (as_array value) (lit "file_allowed_roots must be an array");
  if is_empty items || (REMOTE_CONFIG_MAX_ROOTS <? zlen items) then Err (lit "file_allowed_roots must contain 1 to 32 entries")
  else validate_root_items items.

Definition FORBIDDEN_SYSTEM_PREFIXES : list (list (list Z)) :=
  (fun p : list string => lit <$> p) <$>
  [["etc"]; ["private"; "etc"]; ["root"]; ["proc"]; ["sys"]; ["dev"]; ["boot"]; ["run"]; ["var"; "run"]; ["private"; "var"; "run"];
   ["usr"]; ["bin"]; ["sbin"]; ["lib"]; ["lib64"]]%string.

(** [Path::starts_with] of two paths without relative components. *)
Definition under (p base : list (list Z)) : bool := bool_decide (base `prefix_of` p).

(** A path that may be relative, as [config_path] is. *)
Record Path_ := { rooted : bool; parts : list Piece }.

Fixpoint normalized_roots (roots : list rstr) : result rstr (list (list (list Z))) :=
  match roots with
  | [] => Ok []
  | r :: roots => p ← validate_normalized_absolute_path (trim r) roots_field; ps ← normalized_roots roots; Ok (p :: ps)
  end.

(** [config_file.starts_with(&candidate_path)] or the candidate is its directory;
    [config_file] is the canonical path of the file, or [config_path] itself. *)
Definition overlaps_config (config_file : Path_) (candidate : list (list Z)) : bool :=
  rooted config_file
  && (AgentFiles.path_starts_with (parts config_file) (AgentFiles.of_names candidate)
      || bool_decide (AgentFiles.parent (parts config_file) = Some (AgentFiles.of_names candidate))).

Definition check_candidate (allowed : list (list (list Z))) (config_file : Path_) (candidate : rstr) : result rstr unit :=
  p ← validate_normalized_absolute_path candidate roots_field;
  if existsb (under p) FORBIDDEN_SYSTEM_PREFIXES
  then Err (lit "remote file_allowed_roots entry '" ++ candidate ++ lit "' targets a protected system directory") else
  if overlaps_config config_file p
  then Err (lit "remote file_allowed_roots entry '" ++ candidate ++ lit "' overlaps agent configuration storage") else
  if negb (existsb (under p) allowed)
  then Err (lit "remote file_allowed_roots entry '" ++ candidate ++ lit "' is outside local policy roots") else Ok ().
Fixpoint check_candidates (allowed : list (list (list Z))) (config_file : Path_) (candidates : list rstr) : result rstr unit :=
  match candidates with
  | [] => Ok ()
  | c :: candidates => check_candidate allowed config_file c;; check_candidates allowed config_file candidates
  end.
Definition validate_remote_config_roots_within_policy (requested_roots current_roots : list rstr) (config_file : Path_)
    (command_execute_disabled : bool) : result rstr unit :=
  if command_execute_disabled then Err (lit "file_allowed_roots cannot be modified remotely when disable_command_execute is enabled") else
  allowed ← normalized_roots current_roots;
  if is_empty allowed then Err (lit "file_allowed_roots cannot be expanded when no local roots are configured") else
  check_candidates allowed config_file requested_roots.

(** ** The fields of a patch *)

Definition REMOTE_CONFIG_FIELDS : list rstr :=
  lit <$> ["server"; "grpc_server"; "grpc_tls_ca_path"; "grpc_tls_domain_name"; "grpc_tls_client_cert_path"; "grpc_tls_client_key_path"; "name";
           "report_interval_seconds"; "ip_report_interval_seconds"; "disable_auto_update"; "disable_force_update"; "disable_command_execute";
           "disable_nat"; "disable_send_query"; "file_allowed_roots"]%string.
Fixpoint validate_remote_config_fields (keys : list rstr) : result rstr unit :=
  match keys with
  | [] => Ok ()
  | key :: keys =>
      if contains key REMOTE_CONFIG_FIELDS then validate_remote_config_fields keys else
      if contains key (lit <$> ["agent_id"; "public_key"; "private_key"]%string)
      then Err (lit "remote config field " ++ key ++ lit " cannot be changed") else Err (lit "unknown remote config field: " ++ key)
  end.

Definition validate_remote_tls_config_consistency (c : AgentConfig) : result rstr unit :=
  let given o := match non_empty_config_path o with Some _ => true | None => false end in
  if xorb (given (grpc_tls_client_cert_path c)) (given (grpc_tls_client_key_path c))
  then Err (lit "grpc_tls_client_cert_path and grpc_tls_client_key_path must be configured together") else
  if (given (grpc_tls_ca_path c) || given (grpc_tls_domain_name c) || given (grpc_tls_client_cert_path c) || given (grpc_tls_client_key_path c))
     && negb (starts_with (lit "https://") (grpc_server c))
  then Err (lit "custom gRPC TLS settings require grpc_server to use https://") else Ok ().

(** [if let Some(value) = object.get(key) { current.field = check(value)? }]. *)
Definition patched {A} (object : list (rstr * json)) (key : string) (check : json → rstr → result rstr A) (set : A → AgentConfig → AgentConfig)
    (c : AgentConfig) : result rstr AgentConfig :=
  match bt_get (lit key) object with
  | None => Ok c
  | Some value => v ← check value (lit key); Ok (set v c)
  end.
Definition patched_flag (object : list (rstr * json)) (key : string) (get : AgentConfig → bool) (set : bool → AgentConfig → AgentConfig)
    (c : AgentConfig) : result rstr AgentConfig :=
  patched object key (fun value field => validate_remote_config_disable_flag value field (get c)) set c.

Section remote.
Context (url_parse : rstr → option Security.Url) (url_to_string : Security.Url → rstr).

Definition validate_remote_config_url (value : json) (field : rstr) : result rstr rstr :=
  text ← text_of value field;
  validate_sized_remote_text text 1 REMOTE_CONFIG_MAX_URL_BYTES field;;
  parsed ← ok_or (url_parse text) (field ++ lit " is invalid");
  if negb (contains (Security.scheme parsed) (lit <$> ["http"; "https"]%string))
  then Err (field ++ lit " scheme '" ++ Security.scheme parsed ++ lit "' is not allowed") else
  if match Security.host_str parsed with None => true | Some _ => false end then Err (field ++ lit " must include a host") else
  if negb (is_empty (Security.username parsed)) || match Security.password parsed with Some _ => true | None => false end
  then Err (field ++ lit " must not include credentials") else
  Ok (trim_end_by (Z.eqb 47) (url_to_string parsed)).

(** The fields before the roots, in order. *)
Definition patch_fields (object : list (rstr * json)) (c : AgentConfig) : result rstr AgentConfig :=
  c ← patched object "server" validate_remote_config_url set_server c;
  c ← patched object "grpc_server" validate_remote_config_url set_grpc_server c;
  c ← patched object "grpc_tls_ca_path" validate_optional_remote_config_path set_grpc_tls_ca_path c;
  c ← patched object "grpc_tls_domain_name" (fun v f => validate_optional_remote_config_text v f 253) set_grpc_tls_domain_name c;
  c ← patched object "grpc_tls_client_cert_path" validate_optional_remote_config_path set_grpc_tls_client_cert_path c;
  c ← patched object "grpc_tls_client_key_path" validate_optional_remote_config_path set_grpc_tls_client_key_path c;
  c ← patched object "name" (fun v _ => validate_remote_config_name v) set_agent_name c;
  c ← patched object "report_interval_seconds" validate_remote_config_interval set_report_interval_seconds c;
  c ← patched object "ip_report_interval_seconds" validate_remote_config_interval set_ip_report_interval_seconds c;
  c ← patched_flag object "disable_auto_update" disable_auto_update set_disable_auto_update c;
  c ← patched_flag object "disable_force_update" disable_force_update set_disable_force_update c;
  c ← patched_flag object "disable_command_execute" disable_command_execute set_disable_command_execute c;
  c ← patched_flag object "disable_nat" disable_nat set_disable_nat c;
  patched_flag object "disable_send_query" disable_send_query set_disable_send_query c.

(** [current.disable_x |= disk_config.disable_x]. *)
Definition merge_disk_flags (disk current : AgentConfig) : AgentConfig :=
  set_disable_auto_update (disable_auto_update current || disable_auto_update disk)
  (set_disable_force_update (disable_force_update current || disable_force_update disk)
  (set_disable_command_execute (disable_command_execute current || disable_command_execute disk)
  (set_disable_nat (disable_nat current || disable_nat disk)
  (set_disable_send_query (disable_send_query current || disable_send_query disk) current)))).

(** ** The configuration file

    The directory of the file is [home], as [AgentFiles.walk] found it; a system
    call on a path looks up its last name there. *)

Context (home : list (list Z * Z)) (config_name : list Z).
Definition dir : Z := AgentFiles.top home.

(** [std::fs::read_to_string]. *)
Definition read_to_string (x : list Z) : PD rstr :=
  data ← map_err (fun _ => lit "failed to read") (AgentFiles.syscall (fun _ s =>
    (match AgentFiles.walk AgentFiles.SYMLOOP s home [AgentFiles.Name x] with
     | Err e => Err e
     | Ok stack => match AgentFiles.kind <$> s !! AgentFiles.top stack with
                   | Some (AgentFiles.Regular data) => Ok data
                   | Some (AgentFiles.Directory _) => Err AgentFiles.EISDIR
                   | _ => Err AgentFiles.EIO
                   end
     end, s)));
  of_result (ok_or (from_utf8 data) (lit "stream did not contain valid UTF-8")).

(** [symlink_metadata(path).is_ok_and(is_symlink)]: a failure is passed over. *)
Definition is_symlink (x : list Z) : PD bool :=
  proc_bind (AgentFiles.child_metadata_no_follow dir x) (fun r =>
    Ret (Ok (match r with Ok st => AgentFiles.is_symlink_mode (AgentFiles.st_mode st) | Err _ => false end))).

(** [open] with [create_new] and [O_NOFOLLOW]. *)
Definition create_new (x : list Z) (mode : Z) : P AgentFiles.Env Fs AgentFiles.Errno Z :=
  AgentFiles.syscall (fun e s => match AgentFiles.child s dir x with
                                 | Some _ => (Err AgentFiles.EEXIST, s)
                                 | None => AgentFiles.add_child e dir x (AgentFiles.Regular []) mode s
                                 end).

(** [set_permissions] of a path: a link is followed. *)
Definition chmod (x : list Z) (mode : Z) : P AgentFiles.Env Fs AgentFiles.Errno unit :=
  AgentFiles.syscall (fun _ s =>
    match AgentFiles.walk AgentFiles.SYMLOOP s home [AgentFiles.Name x] with
    | Err e => (Err e, s)
    | Ok stack => match s !! AgentFiles.top stack with
                  | Some n => (Ok (), <[AgentFiles.top stack := AgentFiles.set_mode mode n]> s)
                  | None => (Err AgentFiles.EIO, s)
                  end
    end).

(** [rename] within the directory; an entry that is not a directory is replaced. *)
Definition put_child (x : list Z) (i : Z) (s : Fs) : Fs :=
  match s !! dir with
  | Some n => match AgentFiles.kind n with
              | AgentFiles.Directory l => <[dir := AgentFiles.set_kind (AgentFiles.Directory (filter (fun kv => kv.1 ≠ x) l ++ [(x, i)])) n]> s
              | _ => s
              end
  | None => s
  end.
Definition rename (x y : list Z) : P AgentFiles.Env Fs AgentFiles.Errno unit :=
  AgentFiles.syscall (fun _ s =>
    match AgentFiles.child s dir x with
    | None => (Err AgentFiles.ENOENT, s)
    | Some i => match AgentFiles.kind <$> (AgentFiles.child s dir y ≫= (fun j => s !! j)) with
                | Some (AgentFiles.Directory _) => (Err AgentFiles.EISDIR, s)
                | _ => (Ok (), put_child y i (AgentFiles.remove_child dir x s))
                end
    end).
Definition remove_file (x : list Z) : PD unit := map_err (fun _ => []) (AgentFiles.unlink_child dir x).

(** The random part of the name of the temporary file, from outside. *)
Context (tag : AgentFiles.Env → rstr) (pid : Z).
Definition temp_name (x : list Z) (random : rstr) : list Z :=
  str_bytes (lit ".") ++ x ++ str_bytes (lit ".tmp." ++ print_i64 pid ++ lit "." ++ random).
Definition io {A} (m : P AgentFiles.Env Fs AgentFiles.Errno A) : PD A := map_err (fun _ => lit "i/o error") m.

Definition write_temp (x temp : list Z) (contents : list Z) : PD unit :=
  i ← io (create_new temp 384);
  io (chmod temp 384);;
  io (AgentFiles.write_all i contents);;
  io (AgentFiles.flush i);;
  io (rename temp x);;
  io (chmod x 384).
Definition write_secure_config (x : list Z) (contents : list Z) : PD unit :=
  link ← is_symlink x;
  if (link : bool) then throw (lit "refusing to write config through symlink") else
  random ← observe tag;
  proc_bind (write_temp x (temp_name x random) contents) (fun r =>
    match r with
    | Ok _ => Ret r
    | Err _ => proc_bind (remove_file (temp_name x random)) (fun _ => Ret r)
    end).

(** [serde_json] on a configuration. *)
Context (to_string_pretty : AgentConfig → option rstr) (from_str : rstr → option AgentConfig).
Definition persist_agent_config (c : AgentConfig) : PD unit :=
  serialized ← of_result (ok_or (to_string_pretty c) (lit "failed to serialize config"));
  write_secure_config config_name (str_bytes serialized).
Definition read_disk_config : PD AgentConfig :=
  config_text ← read_to_string config_name;
  of_result (ok_or (from_str config_text) (lit "invalid config")).

(** [std::fs::canonicalize(config_path).unwrap_or(config_path)]. *)
Context (config_path : Path_).
Definition canonical_config : PD Path_ :=
  atomic (fun e s => (Ok (match AgentFiles.fault e, AgentFiles.walk AgentFiles.SYMLOOP s home [AgentFiles.Name config_name] with
                          | None, Ok stack => {| rooted := true; parts := AgentFiles.of_names (reverse stack.*1) |}
                          | _, _ => config_path
                          end), s)).

Definition patch_roots (object : list (rstr * json)) (c : AgentConfig) : PD AgentConfig :=
  match bt_get roots_field object with
  | None => mret c
  | Some value =>
      requested ← of_result (validate_remote_config_roots value);
      config_file ← canonical_config;
      of_result (validate_remote_config_roots_within_policy requested (file_allowed_roots c) config_file (disable_command_execute c));;
      mret (set_file_allowed_roots requested c)
  end.

(** [apply_remote_config] while it holds the lock: [current] is the configuration
    in memory, the result the one that replaces it. *)
Definition update_config (object : list (rstr * json)) (current : AgentConfig) : PD AgentConfig :=
  disk ← read_disk_config;
  c ← of_result (patch_fields object (merge_disk_flags disk current));
  c ← patch_roots object c;
  of_result (validate_remote_tls_config_consistency c);;
  let c := set_private_key (private_key disk) c in
  persist_agent_config c;;
  mret c.

(** Before it takes the lock. *)
Context (json_from_slice : list Z → option json).
Definition read_patch (config_yaml : list Z) : result rstr (list (rstr * json)) :=
  if REMOTE_CONFIG_MAX_BYTES <? zlen config_yaml then Err (lit "remote config payload exceeds 131072 bytes") else
  patch ← ok_or (json_from_slice config_yaml) (lit "invalid remote config payload");
  object ← ok_or (as_object patch) (lit "remote config patch must be an object");
  validate_remote_config_fields object.*1;;
  Ok object.

(** ** Forced updates *)

Definition version_byte (b : Z) : bool := is_ascii_alphanumeric b || contains b (lit "._-").
Definition validate_force_update_version (version : rstr) : result rstr rstr :=
  let version := trim version in
  if is_empty version then Err (lit "force update version is required") else
  if bool_decide (version = lit "latest") then Err (lit "force update requires an explicit version") else
  if (FORCE_UPDATE_MAX_VERSION_BYTES <? byte_len version) || negb (forallb version_byte (str_bytes version))
  then Err (lit "force update version contains unsupported characters") else Ok version.

Definition validate_force_update_checksum (checksum : rstr) : result rstr rstr :=
  let checksum := trim checksum in
  let checksum := default checksum (Auth.strip_prefix (lit "sha256:") checksum) in
  if negb (byte_len checksum =? 64) || negb (forallb Auth.is_ascii_hexdigit (str_bytes checksum))
  then Err (lit "checksum must be a sha256 hex digest") else Ok (to_ascii_lowercase checksum).

Definition validate_force_update_download_url (download_url : rstr) : result rstr rstr :=
  let download_url := trim download_url in
  validate_sized_remote_text download_url 1 FORCE_UPDATE_MAX_URL_BYTES (lit "download_url");;
  parsed ← ok_or (url_parse download_url) (lit "download_url is invalid");
  if negb (bool_decide (Security.scheme parsed = lit "https")) then Err (lit "download_url must use https") else
  host ← ok_or (Security.host_str parsed) (lit "download_url must include a host");
  let normalized_host := to_ascii_lowercase (trim_by (fun c => contains c (lit "[]")) host) in
  if bool_decide (normalized_host = lit "localhost") || ends_with (lit ".localhost") normalized_host
  then Err (lit "download_url must not target localhost") else
  match Net.parse_ip normalized_host with
  | Some ip => if AgentGuards.is_agent_blocked_ip ip
               then Err (lit "download_url must not target private or loopback IP " ++ Net.print_ip ip) else Ok ()
  | None => Ok ()
  end;;
  if negb (is_empty (Security.username parsed)) || match Security.password parsed with Some _ => true | None => false end
  then Err (lit "download_url must not include credentials") else
  if match Security.query parsed with Some _ => true | None => false end || match Security.fragment parsed with Some _ => true | None => false end
  then Err (lit "download_url must not include query or fragment") else
  let path := Security.path parsed in
  if is_empty path || ends_with (lit "/") path || contains 92 path then Err (lit "download_url must include a release asset filename") else
  if existsb (fun segment => contains segment [lit "."; lit ".."]) (split_by (Z.eqb 47) path)
  then Err (lit "download_url must not contain path traversal segments") else Ok (url_to_string parsed).

Record ForceUpdate := { version : rstr; download_url : rstr; checksum : rstr }.
Definition validate_force_update (update : ForceUpdate) : result rstr ForceUpdate :=
  v ← validate_force_update_version (version update);
  u ← validate_force_update_download_url (download_url update);
  c ← validate_force_update_checksum (checksum update);
  Ok {| version := v; download_url := u; checksum := c |}.

(** [serde_json::to_vec_pretty] of the record with the time of its writing. *)
Context (request_json : ForceUpdate → Z → option (list Z)).
Definition update_record : list Z := lit "last-force-update.json".

(** [if let Ok(disk_cfg) = read_disk_config(..)]: a file that cannot be read is passed over. *)
Definition check_disk_flag : PD unit :=
  proc_bind read_disk_config (fun r =>
    Ret (match r with
         | Ok disk => if disable_force_update disk then Err (lit "force update is disabled by local agent config") else Ok ()
         | Err _ => Ok ()
         end)).
(** After the flag in memory was seen to be clear. *)
Definition record_force_update (update : ForceUpdate) : PD unit :=
  check_disk_flag;;
  update ← of_result (validate_force_update update);
  now ← observe AgentFiles.clock;
  serialized ← of_result (ok_or (request_json update now) (lit "failed to serialize"));
  write_secure_config update_record serialized.
End remote.
End AgentPolicy.
