(* ===== verification/AgentPolicyProofs.v ===== *)
(** * AgentPolicyProofs: what a server can and cannot make of a configuration

    A remote update only tightens the policy of an Agent: switches that disable
    something stay set, the paths of the allowed roots only move inside the ones there
    were, and the identity stays. The file is replaced as a whole. *)

From S2P Require Import Prelude Text BTreeMap Json Externals Net Security Interleave Auth AgentConfig AgentFiles AgentFilesProofs AgentGuards AgentPolicy.

Module AgentPolicyProofs.
Import Interleave AgentConfig AgentPolicy.

(** ** Tighter configurations *)

Definition root_names (r : rstr) : result rstr (list (list Z)) := validate_normalized_absolute_path (trim r) roots_field.

(** Every new root is, as a path, at or below an old one, and at or below none of the
    system's own. Links are not followed: a root that is one may lead elsewhere. *)
Definition narrower (old new : list rstr) : Prop :=
  ∀ r, r ∈ new → ∃ p q b, root_names r = Ok p ∧ q ∈ old ∧ root_names q = Ok b ∧ b `prefix_of` p
                        ∧ ∀ f, f ∈ FORBIDDEN_SYSTEM_PREFIXES → ¬ f `prefix_of` p.

Record tightens (c c' : AgentConfig) : Prop := {
  keeps_auto_update : disable_auto_update c = true → disable_auto_update c' = true;
  keeps_force_update : disable_force_update c = true → disable_force_update c' = true;
  keeps_command_execute : disable_command_execute c = true → disable_command_execute c' = true;
  keeps_nat : disable_nat c = true → disable_nat c' = true;
  keeps_send_query : disable_send_query c = true → disable_send_query c' = true;
  keeps_roots : file_allowed_roots c' = file_allowed_roots c ∨ narrower (file_allowed_roots c) (file_allowed_roots c');
  keeps_agent_id : agent_id c' = agent_id c;
  keeps_public_key : public_key c' = public_key c;
}.

#[export] Instance tightens_refl : Reflexive tightens.
Proof. intros c. by constructor; try left. Qed.

Lemma narrower_trans a b c : narrower a b → narrower b c → narrower a c.
Proof.
  intros Hab Hbc r Hr. destruct (Hbc r Hr) as (p & q & w & Hp & Hq & Hw & Hpre & Hf).
  destruct (Hab q Hq) as (w' & q' & v & Hw' & Hq' & Hv & Hpre' & _). rewrite Hw in Hw'. injection Hw' as <-.
  exists p, q', v. split_and!; [done..|by etrans|done].
Qed.

#[export] Instance tightens_trans : Transitive tightens.
Proof.
  intros a b c [] []. constructor; [by auto..| |congruence|congruence].
  destruct keeps_roots0 as [Ha|Ha], keeps_roots1 as [Hb|Hb]; rewrite ?Hb; eauto using narrower_trans.
  right. by rewrite Ha in Hb.
Qed.

(** ** Fields *)

Lemma patched_Ok {A} object key (check : json → rstr → result rstr A) set c c' :
  patched object key check set c = Ok c' → c' = c ∨ ∃ value v, check value (lit key) = Ok v ∧ c' = set v c.
Proof.
  unfold patched. destruct (bt_get (lit key) object) as [value|]; [|intros [= <-]; by left].
  destruct (check value (lit key)) as [v|] eqn:Ev; cbn; [|done]. intros [= <-]. right. by exists value, v.
Qed.

(** An assignment that leaves the policy alone, and one to a switch. *)
Lemma patched_tightens {A} object key (check : json → rstr → result rstr A) set c c' :
  (∀ v, tightens c (set v c)) → patched object key check set c = Ok c' → tightens c c'.
Proof. intros Hset [->|(value & v & _ & ->)]%patched_Ok; [done|apply Hset]. Qed.

Lemma disable_flag_Ok value field cur v : validate_remote_config_disable_flag value field cur = Ok v → cur = true → v = true.
Proof.
  unfold validate_remote_config_disable_flag. destruct (validate_remote_config_bool value field) as [[]|]; cbn; destruct cur; cbn; congruence.
Qed.
Lemma patched_flag_tightens object key get set c c' :
  (∀ v, (get c = true → v = true) → tightens c (set v c)) → patched_flag object key get set c = Ok c' → tightens c c'.
Proof.
  intros Hset [->|(value & v & Hv & ->)]%patched_Ok; [done|]. apply Hset. intros Hg. by eapply disable_flag_Ok.
Qed.

Ltac tighten := constructor; cbn; auto.

Lemma patch_fields_tightens url_parse url_to_string object c c' : patch_fields url_parse url_to_string object c = Ok c' → tightens c c'.
Proof.
  unfold patch_fields. intros H.
  repeat (lazymatch type of H with
          | mbind (M := result rstr) _ ?m = Ok _ =>
              let c1 := fresh "c" in let H1 := fresh "H1" in
              destruct m as [c1|] eqn:H1; cbn [mbind result_bind] in H; [|done];
              first [apply patched_tightens in H1; [|by tighten] | apply patched_flag_tightens in H1; [|by tighten]];
              trans c1; [exact H1|clear H1]
          end).
  apply patched_flag_tightens in H; [done|by tighten].
Qed.

Lemma merge_tightens disk c : tightens c (merge_disk_flags disk c).
Proof. constructor; cbn; auto; by intros ->. Qed.
Lemma merge_keeps_disk disk c : let m := merge_disk_flags disk c in
  (disable_auto_update disk = true → disable_auto_update m = true) ∧ (disable_force_update disk = true → disable_force_update m = true)
  ∧ (disable_command_execute disk = true → disable_command_execute m = true) ∧ (disable_nat disk = true → disable_nat m = true)
  ∧ (disable_send_query disk = true → disable_send_query m = true).
Proof. cbn. split_and!; intros ->; apply orb_true_r. Qed.

(** ** Well-formed configurations *)

Record config_ok (c : AgentConfig) : Prop := {
  ok_report : 1 <= report_interval_seconds c <= REMOTE_CONFIG_MAX_INTERVAL_SECONDS;
  ok_ip_report : 1 <= ip_report_interval_seconds c <= REMOTE_CONFIG_MAX_INTERVAL_SECONDS;
  ok_roots : ∀ r, r ∈ file_allowed_roots c → is_ok (root_names r) = true;
  ok_tls : validate_remote_tls_config_consistency c = Ok ();
}.
(** The part of it that one field at a time keeps. *)
Definition fields_ok (c : AgentConfig) : Prop :=
  1 <= report_interval_seconds c <= REMOTE_CONFIG_MAX_INTERVAL_SECONDS
  ∧ 1 <= ip_report_interval_seconds c <= REMOTE_CONFIG_MAX_INTERVAL_SECONDS
  ∧ ∀ r, r ∈ file_allowed_roots c → is_ok (root_names r) = true.

Lemma interval_Ok value field v : validate_remote_config_interval value field = Ok v → 1 <= v <= REMOTE_CONFIG_MAX_INTERVAL_SECONDS.
Proof.
  intros (w & _ & Hw)%bind_Ok. destruct (_ && _) eqn:Eb; [|done]. injection Hw as <-. unfold REMOTE_CONFIG_MIN_INTERVAL_SECONDS in Eb. lia.
Qed.
Lemma patched_fields_ok {A} object key (check : json → rstr → result rstr A) set c c' :
  (∀ value v, check value (lit key) = Ok v → fields_ok c → fields_ok (set v c)) → patched object key check set c = Ok c' → fields_ok c → fields_ok c'.
Proof. intros Hset [->|(value & v & Hv & ->)]%patched_Ok; [done|by eapply Hset]. Qed.

Lemma agent_patch_fields_ok url_parse url_to_string object c c' : patch_fields url_parse url_to_string object c = Ok c' → fields_ok c → fields_ok c'.
Proof.
  unfold patch_fields. intros H Hok.
  repeat (lazymatch type of H with
          | mbind (M := result rstr) _ ?m = Ok _ =>
              let c1 := fresh "c" in let H1 := fresh "H1" in
              destruct m as [c1|] eqn:H1; cbn [mbind result_bind] in H; [|done];
              apply patched_fields_ok in H1; [clear Hok; rename H1 into Hok| |exact Hok];
                [|intros ? ? Hv (? & ? & ?); try apply interval_Ok in Hv; done]
          end).
  by eapply patched_fields_ok; [|exact H|].
Qed.
Lemma narrower_ok old new : narrower old new → ∀ r, r ∈ new → is_ok (root_names r) = true.
Proof. intros Hn r Hr. destruct (Hn r Hr) as (p & _ & _ & -> & _). done. Qed.

(** ** Roots *)

Lemma normalized_roots_elem roots ps b : normalized_roots roots = Ok ps → b ∈ ps → ∃ q, q ∈ roots ∧ root_names q = Ok b.
Proof.
  revert ps. induction roots as [|r roots IH]; intros ps; cbn [normalized_roots]; [intros [= <-] Hb; by apply elem_of_nil in Hb|].
  intros (p & Hp & (ps' & Hps & [= <-])%bind_Ok)%bind_Ok [->|Hb]%elem_of_cons.
  - exists r. split; [by left|done].
  - destruct (IH ps' Hps Hb) as (q & Hq & Hn). exists q. split; [by right|done].
Qed.

Lemma check_candidates_Ok allowed config_file l :
  check_candidates allowed config_file l = Ok () → ∀ r, r ∈ l → check_candidate allowed config_file r = Ok ().
Proof.
  induction l as [|c l IH]; cbn [check_candidates]; [intros _ r Hr; by apply elem_of_nil in Hr|].
  intros ([] & Hc & Hl)%bind_Ok r [->|Hr]%elem_of_cons; auto.
Qed.

Lemma check_candidate_Ok allowed config_file r : check_candidate allowed config_file r = Ok () →
  ∃ p b, validate_normalized_absolute_path r roots_field = Ok p ∧ b ∈ allowed ∧ b `prefix_of` p
         ∧ (∀ f, f ∈ FORBIDDEN_SYSTEM_PREFIXES → ¬ f `prefix_of` p) ∧ overlaps_config config_file p = false.
Proof.
  intros (p & Hp & H)%bind_Ok. revert H.
  destruct (existsb (under p) FORBIDDEN_SYSTEM_PREFIXES) eqn:Ef; [done|]. destruct (overlaps_config config_file p) eqn:Eo; [done|].
  destruct (existsb (under p) allowed) eqn:Ea; [|done]. intros _. apply existsb_exists in Ea as (b & Hb & Hpre).
  unfold under in Hpre. apply bool_decide_eq_true in Hpre. exists p, b. split_and!; [done|by apply list_elem_of_In|done| |done].
  intros f Hf Hpf. apply not_true_iff_false in Ef. apply Ef, existsb_exists. exists f. split; [by apply list_elem_of_In|].
  unfold under. by apply bool_decide_eq_true.
Qed.

Lemma root_items_trimmed items l : validate_root_items items = Ok l → ∀ r, r ∈ l → trim r = r.
Proof.
  revert l. induction items as [|item items IH]; intros l; cbn [validate_root_items]; [intros [= <-] r Hr; by apply elem_of_nil in Hr|].
  intros (t & _ & ([] & _ & (? & _ & (rest & Hrest & [= <-])%bind_Ok)%bind_Ok)%bind_Ok)%bind_Ok r [->|Hr]%elem_of_cons; [apply trim_by_idemp|by eapply IH].
Qed.

(** The roots a server may choose are narrower, and not where the configuration is. *)
Lemma requested_narrower value requested current config_file off :
  validate_remote_config_roots value = Ok requested →
  validate_remote_config_roots_within_policy requested current config_file off = Ok () →
  off = false ∧ narrower current requested
  ∧ ∀ r p, r ∈ requested → root_names r = Ok p → overlaps_config config_file p = false.
Proof.
  intros Hv Hw. assert (∀ r, r ∈ requested → trim r = r) as Ht.
  { unfold validate_remote_config_roots in Hv. apply bind_Ok in Hv as (items & _ & Hv).
    destruct (_ || _); [done|]. by eapply root_items_trimmed. }
  unfold validate_remote_config_roots_within_policy in Hw. destruct off; [done|]. split; [done|].
  apply bind_Ok in Hw as (allowed & En & Hw). destruct (is_empty allowed); [done|].
  pose proof (check_candidates_Ok _ _ _ Hw) as Hc. split.
  - intros r Hr. destruct (check_candidate_Ok _ _ _ (Hc r Hr)) as (p & b & Hp & Hb & Hpre & Hf & _).
    destruct (normalized_roots_elem _ _ _ En Hb) as (q & Hq & Hqb). exists p, q, b.
    unfold root_names at 1. rewrite (Ht r Hr). done.
  - intros r p Hr Hp. destruct (check_candidate_Ok _ _ _ (Hc r Hr)) as (p' & b & Hp' & _ & _ & _ & Ho).
    unfold root_names in Hp. rewrite (Ht r Hr) in Hp. congruence.
Qed.

(** ** A whole update *)

Section update.
Context (url_parse : rstr → option Security.Url) (url_to_string : Security.Url → rstr) (home : list (list Z * Z)) (config_name : list Z).
Context (tag : AgentFiles.Env → rstr) (pid : Z) (to_string_pretty : AgentConfig → option rstr) (from_str : rstr → option AgentConfig).
Context (config_path : Path_).
Abbreviation update := (update_config url_parse url_to_string home config_name tag pid to_string_pretty from_str config_path).
Abbreviation disk_config := (read_disk_config home config_name from_str).

Lemma returns_result {X A} (r : result X A) h a : returns (of_result r : P AgentFiles.Env Fs X A) h (Ok a) → r = Ok a.
Proof. by inversion 1. Qed.

Lemma patch_roots_tightens object c h c' : returns (patch_roots home config_name config_path object c) h (Ok c') → tightens c c'.
Proof.
  unfold patch_roots. destruct (bt_get roots_field object) as [value|]; [|by inversion 1].
  intros (req & h1 & h2 & -> & Hreq%returns_result & (file & h3 & h4 & -> & _ & ([] & h5 & h6 & -> & Hw%returns_result & Hc)%returns_try)%returns_try)%returns_try.
  inversion Hc. destruct (requested_narrower _ _ _ _ _ Hreq Hw) as (_ & Hn & _). constructor; cbn; auto.
Qed.

Lemma patch_roots_ok object c h c' : returns (patch_roots home config_name config_path object c) h (Ok c') → fields_ok c → fields_ok c'.
Proof.
  unfold patch_roots. destruct (bt_get roots_field object) as [value|]; [|by inversion 1].
  intros (req & h1 & h2 & -> & Hreq%returns_result & (file & h3 & h4 & -> & _ & ([] & h5 & h6 & -> & Hw%returns_result & Hc)%returns_try)%returns_try)%returns_try.
  inversion Hc. destruct (requested_narrower _ _ _ _ _ Hreq Hw) as (_ & Hn & _). intros (Hr & Hi & _). split; [done|]. split; [done|]. exact (narrower_ok _ _ Hn).
Qed.

(** The new configuration is tighter than the one in memory, at least as tight as
    the switches on disk, and well formed if that one was; the private key is the
    one in the file. *)
Lemma update_config_tightens object current h c' : returns (update object current) h (Ok c') →
  tightens current c' ∧ (config_ok current → config_ok c')
  ∧ ∃ disk h', returns disk_config h' (Ok disk) ∧ private_key c' = private_key disk ∧ tightens (merge_disk_flags disk current) c'.
Proof.
  unfold update_config.
  intros (disk & h1 & ? & -> & Hdisk & (c1 & ? & ? & -> & Hf%returns_result & (c2 & h2 & ? & -> & Hr & ([] & ? & ? & -> & Ht%returns_result &
    ([] & ? & ? & -> & _ & Hc)%returns_try)%returns_try)%returns_try)%returns_try)%returns_try.
  inversion Hc; subst c'. pose proof (agent_patch_fields_ok _ _ _ _ _ Hf) as Hok1. pose proof (patch_roots_ok _ _ _ _ Hr) as Hok2.
  apply patch_fields_tightens in Hf. apply patch_roots_tightens in Hr.
  assert (tightens c2 (set_private_key (private_key disk) c2)) as Hp by (constructor; cbn; auto).
  assert (tightens (merge_disk_flags disk current) (set_private_key (private_key disk) c2)) as Hm by (trans c1; [done|]; by trans c2).
  split_and!; [trans (merge_disk_flags disk current); [apply merge_tightens|done]| |by exists disk, h1].
  intros [Hr1 Hr2 Hr3 _]. destruct Hok2 as (? & ? & ?); [by apply Hok1|]. by constructor.
Qed.
End update.

(** ** Replacing a file *)

Section replace.
Import AgentFiles.
Context (home : list (list Z * Z)) (tag : Env → rstr) (pid : Z) (x : list Z) (contents : list Z).
Abbreviation d := (dir home).

Definition content (s : Fs) (y : list Z) : option (list Z) :=
  i ← child s d y; n ← s !! i; match kind n with Regular data => Some data | _ => None end.
Definition entry_mode (s : Fs) (y : list Z) : option Z := i ← child s d y; mode <$> s !! i.

(** The file is the old one or the new one. *)
Definition old_or_new (s t : Fs) : Prop := content t x = content s x ∨ content t x = Some contents.
Abbreviation al s := (alone (old_or_new s)).


Lemma al_syscall {A} s t (f : Env → Fs → result Errno A * Fs) (Q : result rstr A → Fs → Prop) :
  old_or_new s t → (∀ e a t', f e t = (Ok a, t') → old_or_new s t' ∧ Q (Ok a) t') → (∀ y, Q (Err y) t) → al s (io (syscall f)) t Q.
Proof.
  intros Ht HQ HE. apply alone_map_err. intros e. destruct (fault e); cbn; [split; [done|apply HE]|].
  specialize (HQ e). destruct (f e t) as [[a|y] t']; cbn; [by apply HQ|split; [done|apply HE]].
Qed.

(** *** Entries of the directory *)

Definition directory (s : Fs) : Prop := ∃ n l, s !! d = Some n ∧ kind n = Directory l.
Lemma walk_one k t y i n : directory t → child t d y = Some i → t !! i = Some n → (∀ target, kind n ≠ Symlink target) →
  walk (S k) t home [Name y] = Ok ((y, i) :: home).
Proof.
  intros (m & l & Hd & Hk) Hc Hi Hn. cbn [walk]. fold d. unfold children_of. rewrite Hd, Hk, Hc, Hi. cbn.
  destruct (kind n) eqn:En; try done. by specialize (Hn target).
Qed.

Lemma filter_out {B} (y : list Z) (l : list (list Z * B)) : filter (fun kv => kv.1 = y) (filter (fun kv => kv.1 ≠ y) l) = [].
Proof. induction l as [|[z b] l IH]; [done|]. rewrite filter_cons. case_decide; [rewrite filter_cons, decide_False by done|]; done. Qed.
Lemma put_child_spec y i s : directory s →
  directory (put_child home y i s) ∧ child (put_child home y i s) d y = Some i
  ∧ (∀ z, z ≠ y → child (put_child home y i s) d z = child s d z) ∧ (∀ j, j ≠ d → put_child home y i s !! j = s !! j).
Proof.
  intros (n & l & Hd & Hk). unfold put_child. rewrite Hd, Hk. split_and!.
  - eexists _, _. rewrite lookup_insert_eq. done.
  - erewrite AgentFilesProofs.child_of; [|apply lookup_insert_eq|done]. rewrite filter_app, filter_cons, decide_True by done.
    by rewrite filter_out.
  - intros z Hz. erewrite AgentFilesProofs.child_of; [|apply lookup_insert_eq|done]. rewrite (AgentFilesProofs.child_of s d z n l) by done.
    rewrite filter_app, filter_cons, decide_False by (cbn; congruence). rewrite filter_nil, app_nil_r.
    do 2 f_equal. apply list_filter_filter_l. cbn. congruence.
  - intros j Hj. by rewrite lookup_insert_ne by congruence.
Qed.
Lemma remove_child_spec y s : directory s →
  directory (remove_child d y s) ∧ child (remove_child d y s) d y = None
  ∧ (∀ z, z ≠ y → child (remove_child d y s) d z = child s d z) ∧ (∀ j, j ≠ d → remove_child d y s !! j = s !! j).
Proof.
  intros (n & l & Hd & Hk). pose proof (AgentFilesProofs.remove_child_entry d y s) as [_ Hz]. unfold remove_child in *. rewrite Hd, Hk in *.
  split_and!; [eexists _, _; by rewrite lookup_insert_eq| |done|intros j Hj; by rewrite lookup_insert_ne by congruence].
  erewrite AgentFilesProofs.child_of; [|apply lookup_insert_eq|done].
  by rewrite filter_out.
Qed.

(** *** The stages of a write *)

Context (s : Fs) (temp : list Z).
Hypothesis dir_ok : directory s.
Hypothesis entry_ok : ∀ j, child s d x = Some j → is_Some (s !! j).
Hypothesis temp_ne : temp ≠ x.

(** The temporary file is there, with this data and these permissions; nothing
    that was there has changed. *)
Record staged (t : Fs) (i : Z) (data : list Z) (m : option Z) : Prop := {
  st_dir : directory t;
  st_temp : child s d temp = None ∧ child t d temp = Some i;
  st_rest : ∀ y, y ≠ temp → child t d y = child s d y;
  st_nodes : ∀ j, j ≠ d → is_Some (s !! j) → t !! j = s !! j;
  st_fresh : s !! i = None;
  st_node : ∃ n, t !! i = Some n ∧ kind n = Regular data ∧ (∀ k, m = Some k → mode n = k);
}.

Lemma content_same t : directory t → child t d x = child s d x → (∀ j, j ≠ d → is_Some (s !! j) → t !! j = s !! j) → content t x = content s x.
Proof.
  intros (n & l & Hd & Hk) Hc Hn. unfold content. rewrite Hc. destruct (child s d x) as [j|] eqn:Ej; [|done]. cbn.
  destruct (decide (j = d)) as [->|Hj]; [|by rewrite Hn by eauto].
  destruct dir_ok as (n' & l' & Hd' & Hk'). rewrite Hd, Hd'. cbn. by rewrite Hk, Hk'.
Qed.
Lemma staged_old t i data m : staged t i data m → old_or_new s t.
Proof. intros []. left. apply content_same; auto. Qed.
Lemma staged_ne t i data m : staged t i data m → i ≠ d.
Proof. intros [] ->. destruct dir_ok as (n & l & Hd & _). congruence. Qed.

Lemma staged_update t i data m n data' m' : staged t i data m → kind n = Regular data' → (∀ k, m' = Some k → mode n = k) →
  staged (<[i := n]> t) i data' m'.
Proof.
  intros Hst Hk Hm. pose proof (staged_ne _ _ _ _ Hst) as Hne. destruct Hst as [(nd & l & Hd & Hkd) [Ht0 Ht] Hr Hn Hf _].
  assert ((<[i := n]> t) !! d = Some nd) as Hd' by (by rewrite lookup_insert_ne).
  assert (∀ y, child (<[i := n]> t) d y = child t d y) as Hc.
  { intros y. rewrite (AgentFilesProofs.child_of t d y nd l), (AgentFilesProofs.child_of _ d y nd l) by done. done. }
  constructor.
  - by exists nd, l.
  - by rewrite Hc.
  - intros y Hy. rewrite Hc. auto.
  - intros j Hj Hs. rewrite lookup_insert_ne by (intros ->; rewrite Hf in Hs; by destruct Hs). auto.
  - done.
  - exists n. by rewrite lookup_insert_eq.
Qed.

Lemma create_staged e i t' :
  match child s d temp with Some _ => (Err EEXIST, s) | None => add_child e d temp (Regular []) 384 s end = (Ok i, t') → staged t' i [] None.
Proof.
  destruct (child s d temp) eqn:Et; [done|]. intros Ha. destruct (AgentFilesProofs.add_child_entry _ _ _ _ _ _ _ _ Ha) as [[Hn Hc] ->].
  unfold add_child in Ha. destruct dir_ok as (n & l & Hd & Hk). rewrite Hd, Hk in Ha. case_bool_decide as Hf; [done|]. injection Ha as <-.
  apply eq_None_not_Some in Hf. assert (new_ino e ≠ d) as Hne by (intros Heq; congruence).
  constructor; auto; [| |by exists {| kind := Regular []; mode := umasked e 384; mtime := clock e; extent := 0 |}; rewrite lookup_insert_eq].
  - eexists _, _. by rewrite lookup_insert_ne, lookup_insert_eq.
  - split; [done|]. erewrite AgentFilesProofs.child_of; [|rewrite lookup_insert_ne by done; apply lookup_insert_eq|done].
    rewrite filter_app, filter_cons, decide_True by done. destruct (filter _ l) as [|[z b] l'] eqn:El; [done|].
    rewrite (AgentFilesProofs.child_of s d temp n l), El in Et by done. done.
Qed.

(** The new file has taken the name. *)
Record replaced (t : Fs) (i : Z) : Prop := {
  rp_dir : directory t;
  rp_here : child t d x = Some i;
  rp_rest : ∀ y, y ≠ x → child t d y = child s d y;
  rp_node : ∃ n, t !! i = Some n ∧ kind n = Regular contents ∧ mode n = 384;
}.
Lemma replaced_new t i : replaced t i → content t x = Some contents ∧ entry_mode t x = Some 384.
Proof. intros [_ Hx _ (n & Hn & Hk & Hm)]. unfold content, entry_mode. rewrite Hx. cbn. rewrite Hn. cbn. by rewrite Hk, Hm. Qed.
Lemma rename_replaced t i : staged t i contents (Some 384) → replaced (put_child home x i (remove_child d temp t)) i.
Proof.
  intros Hst. pose proof (staged_ne _ _ _ _ Hst) as Hne. destruct Hst as [Hd [Ht0 Ht] Hr Hn Hf (n & Hi & Hk & Hm)].
  destruct (remove_child_spec temp t Hd) as (Hd1 & Hx1 & Hr1 & Hn1). destruct (put_child_spec x i _ Hd1) as (Hd2 & Hx2 & Hr2 & Hn2).
  constructor; [done|done| |].
  - intros y Hy. rewrite Hr2 by done. destruct (decide (y = temp)) as [->|]; [congruence|]. rewrite Hr1, Hr; auto.
  - exists n. rewrite Hn2, Hn1 by done. auto.
Qed.
Lemma replaced_update t i n : replaced t i → (∃ n0, t !! i = Some n0 ∧ n = set_mode 384 n0) → replaced (<[i := n]> t) i.
Proof.
  intros [(nd & l & Hd & Hkd) Hx Hr (n1 & Hn1 & Hk & Hm)] (n0 & Hn0 & ->). rewrite Hn1 in Hn0. injection Hn0 as <-.
  assert (i ≠ d) as Hne by (intros ->; congruence).
  assert (∀ y, child (<[i := set_mode 384 n1]> t) d y = child t d y) as Hc.
  { intros y. rewrite (AgentFilesProofs.child_of t d y nd l), (AgentFilesProofs.child_of _ d y nd l) by (by rewrite ?lookup_insert_ne). done. }
  constructor; [by exists nd, l; rewrite lookup_insert_ne|by rewrite Hc|by intros y Hy; rewrite Hc; auto|].
  exists (set_mode 384 n1). by rewrite lookup_insert_eq.
Qed.

(** Where a write may stop. *)
Definition stopped (t : Fs) : Prop := directory t ∧ old_or_new s t.
Lemma staged_stopped t i data m : staged t i data m → stopped t.
Proof. intros Hst. split; [apply Hst|by eapply staged_old]. Qed.
Lemma replaced_stopped t i : replaced t i → stopped t.
Proof. intros Hr. split; [apply Hr|]. right. by apply (replaced_new t i). Qed.
Lemma same_stopped : stopped s.
Proof. split; [done|by left]. Qed.

Lemma al_write t i (Q : result rstr unit → Fs → Prop) : staged t i [] (Some 384) →
  (∀ t', staged t' i contents (Some 384) → Q (Ok ()) t') → (∀ t' y, stopped t' → Q (Err y) t') → al s (io (write_all i contents)) t Q.
Proof.
  intros Hst HQ HE. apply alone_map_err. intros e. pose proof Hst as [_ _ _ _ _ (n & Hi & Hk & Hm)].
  assert (∀ data, staged (<[i := set_kind (Regular (overwrite data [])) n]> t) i data (Some 384)) as Hw.
  { intros data. eapply staged_update; [done| |done]. cbn. unfold overwrite. by rewrite drop_nil, app_nil_r. }
  unfold with_data. rewrite Hi, Hk. destruct (fault e); cbn; (split; [by eapply staged_old, Hw|]).
  - eapply HE, staged_stopped, Hw.
  - apply HQ, Hw.
Qed.
Lemma al_chmod_temp t i data m (Q : result rstr unit → Fs → Prop) : staged t i data m →
  (∀ t', staged t' i data (Some 384) → Q (Ok ()) t') → (∀ t' y, stopped t' → Q (Err y) t') → al s (io (chmod home temp 384)) t Q.
Proof.
  intros Hst HQ HE. apply al_syscall; [by eapply staged_old| |by intros y; eapply HE, staged_stopped].
  intros e [] t'. pose proof Hst as [Hd [_ Ht] _ _ _ (n & Hi & Hk & Hm)]. unfold SYMLOOP. rewrite (walk_one _ _ _ i n) by (done || by rewrite Hk).
  cbn [top]. rewrite Hi. intros [= <-]. assert (staged (<[i := set_mode 384 n]> t) i data (Some 384)) as Hs'.
  { eapply staged_update; [done|done|]. by intros k [= <-]. }
  split; [by eapply staged_old|by apply HQ].
Qed.
Lemma al_rename t i (Q : result rstr unit → Fs → Prop) : staged t i contents (Some 384) →
  (∀ t', replaced t' i → Q (Ok ()) t') → (∀ t' y, stopped t' → Q (Err y) t') → al s (io (rename home temp x)) t Q.
Proof.
  intros Hst HQ HE. apply al_syscall; [by eapply staged_old| |by intros y; eapply HE, staged_stopped].
  intros e [] t'. pose proof Hst as [_ [_ Ht] _ _ _ _]. rewrite Ht. intros Hr.
  assert (t' = put_child home x i (remove_child d temp t)) as ->.
  { destruct (kind <$> (child t d x ≫= (fun j => t !! j))) as [[]|]; congruence. }
  pose proof (rename_replaced _ _ Hst) as Hrp. split; [apply (replaced_stopped _ _ Hrp)|by apply HQ].
Qed.
Lemma al_chmod t i (Q : result rstr unit → Fs → Prop) : replaced t i →
  (∀ t', replaced t' i → Q (Ok ()) t') → (∀ t' y, stopped t' → Q (Err y) t') → al s (io (chmod home x 384)) t Q.
Proof.
  intros Hr HQ HE. apply al_syscall; [apply (replaced_stopped _ _ Hr)| |by intros y; eapply HE, replaced_stopped].
  intros e [] t'. pose proof Hr as [Hd Hx _ (n & Hi & Hk & Hm)]. unfold SYMLOOP. rewrite (walk_one _ _ _ i n) by (done || by rewrite Hk).
  cbn [top]. rewrite Hi. intros [= <-]. assert (replaced (<[i := set_mode 384 n]> t) i) as Hr' by (apply replaced_update; eauto).
  split; [apply (replaced_stopped _ _ Hr')|by apply HQ].
Qed.

Lemma write_temp_alone :
  al s (write_temp home x temp contents) s (fun r t => match r with Ok _ => ∃ i, replaced t i | Err _ => stopped t end).
Proof.
  unfold write_temp. apply alone_try. apply al_syscall; [by left| |intros y; apply same_stopped].
  intros e i t Hc%create_staged. split; [by eapply staged_old|].
  apply alone_try. eapply al_chmod_temp; [done| |done]. intros t1 H1.
  apply alone_try. eapply al_write; [done| |done]. intros t2 H2.
  apply alone_try. apply al_syscall; [by eapply staged_old| |by intros y; eapply staged_stopped].
  intros e' [] t' [= <-]. split; [by eapply staged_old|].
  apply alone_try. eapply al_rename; [done| |done]. intros t3 H3.
  eapply al_chmod; [done| |done]. intros t4 H4. by exists i.
Qed.

Lemma content_removed t : directory t → content (remove_child d temp t) x = content t x.
Proof.
  intros Hd. destruct (remove_child_spec temp t Hd) as (Hd' & _ & Hr & Hn). unfold content. rewrite Hr by done.
  destruct (child t d x) as [j|]; [cbn|done]. destruct (decide (j = d)) as [->|Hj]; [|by rewrite Hn].
  destruct Hd as (n & l & Hd & Hk), Hd' as (n' & l' & Hd' & Hk'). rewrite Hd, Hd'. cbn. by rewrite Hk, Hk'.
Qed.
Lemma al_remove t (Q : result rstr unit → Fs → Prop) : stopped t → (∀ r t', stopped t' → Q r t') → al s (remove_file home temp) t Q.
Proof.
  intros [Hd Ht] HQ. apply alone_map_err. unfold unlink_child, context. apply alone_map_err. intros e.
  assert (stopped (remove_child d temp t)) as Hrm.
  { split; [by apply remove_child_spec|]. unfold old_or_new. by rewrite content_removed. }
  destruct (fault e); cbn; [split; [done|by apply HQ]|]. destruct (child t d temp) as [i|]; cbn; [|split; [done|by apply HQ]].
  destruct (kind <$> t !! i) as [[]|]; cbn; (split; [first [done|apply Hrm]|by apply HQ]).
Qed.
End replace.

Lemma temp_name_ne pid x random : temp_name pid x random ≠ x.
Proof. unfold temp_name. intros Heq%(f_equal length). rewrite !length_app in Heq. change (length (str_bytes (lit "."))) with 1%nat in Heq. lia. Qed.

(** Steps that change nothing. *)
Lemma alone_observe {X A} I (f : AgentFiles.Env → A) s (Q : result X A → Fs → Prop) : I s → (∀ e, Q (Ok (f e)) s) → alone I (observe f) s Q.
Proof. intros Hs HQ e. split; [done|apply HQ]. Qed.
Lemma alone_is_symlink I home x s (Q : result rstr bool → Fs → Prop) : I s → (∀ b, Q (Ok b) s) → alone I (is_symlink home x) s Q.
Proof.
  intros Hs HQ. apply alone_bind, alone_map_err. intros e. destruct (AgentFiles.fault e); cbn; [split; [done|apply HQ]|].
  destruct (AgentFiles.child s _ x ≫= _); cbn; (split; [done|apply HQ]).
Qed.

Lemma write_alone home tag pid x contents s : directory home s → (∀ j, AgentFiles.child s (dir home) x = Some j → is_Some (s !! j)) →
  alone (old_or_new home x contents s) (write_secure_config home tag pid x contents) s
    (fun r t => match r with Ok _ => ∃ i, replaced home x contents s t i | Err _ => stopped home x contents s t end).
Proof.
  intros Hd He. assert (stopped home x contents s s) as Hs by by apply same_stopped.
  apply alone_try, alone_is_symlink; [by left|]. intros []; [done|]. apply alone_try, alone_observe; [by left|]. intros e.
  apply alone_bind. eapply alone_mono, write_temp_alone; [|done..|apply temp_name_ne]. intros [[]|y] t Ht; [done|].
  apply alone_bind, al_remove; [apply temp_name_ne|done|]. by intros r t'.
Qed.

(** Replacing the configuration file is atomic: after every system call, so also
    after a crash or a failure at any of them, the file holds either all of the old
    text or all of the new one. A write that succeeds leaves the new text, readable
    by the owner only, and every other entry of the directory as it was; the
    temporary file is gone. *)
Theorem config_write_atomic home tag pid x contents s :
  directory home s → (∀ j, AgentFiles.child s (dir home) x = Some j → is_Some (s !! j)) →
  (∀ es e t t', (e, t, t') ∈ solo es (write_secure_config home tag pid x contents) s →
     content home t' x = content home s x ∨ content home t' x = Some contents)
  ∧ ∀ env, let '(r, t) := run_to_end env (fun _ => id) (write_secure_config home tag pid x contents) s in
     match r with
     | Ok _ => content home t x = Some contents ∧ entry_mode home t x = Some 384
               ∧ ∀ y, y ≠ x → AgentFiles.child t (dir home) y = AgentFiles.child s (dir home) y
     | Err _ => content home t x = content home s x ∨ content home t x = Some contents
     end.
Proof.
  intros Hd He. pose proof (write_alone home tag pid x contents s Hd He) as Hw. split.
  - intros es e t t' Hin. by eapply alone_solo in Hw.
  - intros env. apply (alone_run _ _ _ _ env) in Hw. destruct (run_to_end _ _ _ _) as [[[]|y] t]; [|apply Hw].
    destruct Hw as [i Hr]. destruct (replaced_new _ _ _ _ _ _ Hr) as [Hc Hm]. split_and!; [done|done|apply Hr].
Qed.

(** ** What an update leaves on disk *)

(** Programs that only look. *)
Definition still {A} (m : Proc AgentFiles.Env Fs A) : Prop := ∀ s Q, (∀ a, Q a s) → alone (fun _ => True) m s Q.
Lemma still_ret {A} (a : A) : still (Ret a).
Proof. intros s Q HQ. apply HQ. Qed.
Lemma still_bind {A B} (m : Proc AgentFiles.Env Fs A) (k : A → Proc AgentFiles.Env Fs B) : still m → (∀ a, still (k a)) → still (proc_bind m k).
Proof. intros Hm Hk s Q HQ. apply alone_bind, Hm. intros a. by apply Hk. Qed.
Lemma still_try {X A B} (m : P AgentFiles.Env Fs X A) (k : A → P AgentFiles.Env Fs X B) : still m → (∀ a, still (k a)) → still (m ≫= k).
Proof. intros Hm Hk. apply still_bind; [done|]. intros [a|x]; [done|apply still_ret]. Qed.
Lemma still_atomic {X A} (f : AgentFiles.Env → Fs → result X A) : still (atomic (fun e s => (f e s, s))).
Proof. intros s Q HQ e. split; [done|apply HQ]. Qed.
Lemma still_syscall {A} (f : AgentFiles.Env → Fs → result AgentFiles.Errno A) : still (AgentFiles.syscall (fun e s => (f e s, s))).
Proof. intros s Q HQ e. destruct (AgentFiles.fault e); cbn; [split; [done|apply HQ]|]. destruct (f e s); cbn; (split; [done|apply HQ]). Qed.

Lemma alone_result {X A} I (r : result X A) s (Q : result X A → Fs → Prop) : Q r s → alone I (of_result r : P AgentFiles.Env Fs X A) s Q.
Proof. done. Qed.

Section persisted.
Context (url_parse : rstr → option Security.Url) (url_to_string : Security.Url → rstr) (home : list (list Z * Z)) (config_name : list Z).
Context (tag : AgentFiles.Env → rstr) (pid : Z) (to_string_pretty : AgentConfig → option rstr) (from_str : rstr → option AgentConfig).
Context (config_path : Path_).
(** [serde_json] writes texts and reads back what it wrote. *)
Hypothesis serde_texts : ∀ c text, to_string_pretty c = Some text → Forall (fun ch => is_scalar ch = true) text.
Hypothesis serde_roundtrip : ∀ c text, to_string_pretty c = Some text → from_str text = Some c.

Lemma still_disk : still (read_disk_config home config_name from_str).
Proof.
  apply still_try; [|intros; apply still_ret]. apply still_try; [|intros; apply still_ret].
  apply still_bind; [apply still_syscall|intros; apply still_ret].
Qed.
Lemma still_roots object c : still (patch_roots home config_name config_path object c).
Proof.
  unfold patch_roots. destruct (bt_get roots_field object); [|apply still_ret]. apply still_try; [apply still_ret|]. intros req.
  apply still_try; [apply still_atomic|]. intros file. apply still_try; [apply still_ret|]. intros []. apply still_ret.
Qed.

(** The file holds the text of the configuration. *)
Definition holds (c : AgentConfig) (t : Fs) : Prop :=
  directory home t ∧ ∃ text, to_string_pretty c = Some text ∧ content home t config_name = Some (str_bytes text).

Lemma update_holds object current s : directory home s → (∀ j, AgentFiles.child s (dir home) config_name = Some j → is_Some (s !! j)) →
  alone (fun _ => True) (update_config url_parse url_to_string home config_name tag pid to_string_pretty from_str config_path object current) s
    (fun r t => match r with Ok c => holds c t | Err _ => True end).
Proof.
  intros Hd He. apply alone_try, still_disk. intros [disk|]; [|done]. apply alone_try, alone_result. destruct (patch_fields url_parse url_to_string object (merge_disk_flags disk current)) as [c1|]; [|done].
  apply alone_try, still_roots. intros [c2|]; [|done]. apply alone_try, alone_result. destruct (validate_remote_tls_config_consistency c2) as [[]|]; [|done].
  apply alone_try. unfold persist_agent_config. apply alone_try, alone_result.
  destruct (to_string_pretty (set_private_key (private_key disk) c2)) as [text|] eqn:Et; cbn [ok_or]; [|done].
  pose proof (write_alone home tag pid config_name (str_bytes text) s Hd He) as Hw.
  assert (∀ A I (m : Proc AgentFiles.Env Fs A) t Q, alone I m t Q → alone (fun _ => True) m t Q) as Hweak.
  { intros A I m. induction m as [a|f n IH]; intros t Q; cbn; [done|]. intros Hm e. destruct (Hm e). eauto. }
  apply Hweak in Hw. eapply alone_mono, Hw. intros [[]|] t Hr; [|done]. destruct Hr as [i Hr]. split; [apply Hr|]. exists text.
  split; [done|]. by apply (replaced_new _ _ _ _ _ _ Hr).
Qed.

Lemma content_file t y data : content home t y = Some data →
  ∃ i n, AgentFiles.child t (dir home) y = Some i ∧ t !! i = Some n ∧ AgentFiles.kind n = AgentFiles.Regular data.
Proof.
  unfold content. destruct (AgentFiles.child t (dir home) y) as [i|] eqn:Ec; [|done]. cbn. destruct (t !! i) as [n|] eqn:Ei; [|done]. cbn.
  destruct (AgentFiles.kind n) eqn:Ek; try done. intros [= <-]. by exists i, n.
Qed.

(** After a remote update that succeeds, the configuration file holds exactly the
    configuration that is now in memory: an Agent that is restarted comes up with
    it. *)
Theorem config_update_persisted object current s env c t :
  directory home s → (∀ j, AgentFiles.child s (dir home) config_name = Some j → is_Some (s !! j)) →
  run_to_end env (fun _ => id)
    (update_config url_parse url_to_string home config_name tag pid to_string_pretty from_str config_path object current) s = (Ok c, t) →
  ∀ env', AgentFiles.fault (env' 0%nat) = None →
  run_to_end env' (fun _ => id) (read_disk_config home config_name from_str) t = (Ok c, t).
Proof.
  intros Hd He Hrun env' Hf. pose proof (alone_run _ _ _ _ env (update_holds object current s Hd He)) as Hh. rewrite Hrun in Hh.
  destruct Hh as (Hdt & text & Htext & Hc). apply content_file in Hc as (i & n & Hi & Hn & Hk).
  cbn -[from_utf8 AgentFiles.walk]. rewrite Hf. unfold AgentFiles.SYMLOOP. rewrite (walk_one home _ t config_name i n) by (done || by rewrite Hk).
  cbn -[from_utf8]. rewrite Hn. cbn -[from_utf8]. rewrite Hk. cbn -[from_utf8]. rewrite from_utf8_str_bytes by by eapply serde_texts.
  cbn. by rewrite (serde_roundtrip _ _ Htext).
Qed.
End persisted.

End AgentPolicyProofs.
