(* ===== verification/AgentSession.v ===== *)
(** * AgentSession: what an Agent does with the messages of its server

    The handlers of a session of [crates/agent/src/main.rs] and the terminal
    sessions of [executor/terminal.rs]: remote configuration, forced updates,
    tasks and I/O frames, as programs of [Interleave] over the state of the
    Agent. Tasks run beside the loop that receives messages, so any number of
    these programs are interleaved. The configuration is behind a lock, which
    [apply_remote_config] holds while it reads and replaces the file: that part is
    one step, during which other processes may still change the file system.
    Processes, connections and the clock are in the environment of a step; what
    the Agent did to the outside, but to its files, is in a log. The channel to the server is open:
    once it is closed the session ends, and with it these programs. *)

From S2P Require Import Prelude Text BTreeMap Json Externals Net Security IoStreams Base64 Interleave Auth AgentConfig AgentFiles AgentGuards AgentPolicy.

Module AgentSession.
Import Interleave AgentConfig AgentGuards.
Abbreviation Fs := (gmap Z AgentFiles.Node).
Abbreviation IoFrame := IoStreams.IoFrame.

(** ** State *)

Inductive Effect : Type :=
| Ran (cmd : Command)
| Probed (timeout : Z) (addrs : list SocketAddr)
| Pinged (count timeout : Z) (target : rstr)
| TerminalOpened (stream : rstr) (cols rows : Z)
| TerminalInput (stream : rstr) (data : list Z)
| TerminalResized (stream : rstr) (cols rows : Z)
| NatConnected (addr : SocketAddr)
| NatQueued (stream : rstr) (data : list Z)
| UpdateRecorded (update : AgentPolicy.ForceUpdate)
| Sent (frame : IoFrame).

Record Local := {
  memory : AgentConfig;                      (** [RuntimeContext::config] *)
  files : Fs;
  terminal_sessions : gmap rstr Z;           (** stream to terminal *)
  slots : gset Z;                            (** terminals that hold a slot, those not closed *)
  nat_sessions : gmap rstr Z;                (** stream to connection *)
  log : list Effect;
}.
Definition with_memory (c : AgentConfig) (s : Local) : Local :=
  {| memory := c; files := files s; terminal_sessions := terminal_sessions s; slots := slots s; nat_sessions := nat_sessions s; log := log s |}.
Definition with_files (f : Fs) (s : Local) : Local :=
  {| memory := memory s; files := f; terminal_sessions := terminal_sessions s; slots := slots s; nat_sessions := nat_sessions s; log := log s |}.
Definition with_terminals (t : gmap rstr Z) (k : gset Z) (s : Local) : Local :=
  {| memory := memory s; files := files s; terminal_sessions := t; slots := k; nat_sessions := nat_sessions s; log := log s |}.
Definition with_nats (n : gmap rstr Z) (s : Local) : Local :=
  {| memory := memory s; files := files s; terminal_sessions := terminal_sessions s; slots := slots s; nat_sessions := n; log := log s |}.
Definition emitted (x : Effect) (s : Local) : Local :=
  {| memory := memory s; files := files s; terminal_sessions := terminal_sessions s; slots := slots s; nat_sessions := nat_sessions s;
     log := log s ++ [x] |}.

(** What an HTTP request, a run of [ping], and a socket read gave. *)
Inductive HttpOutcome : Type := HttpStatus (code : Z) | HttpError (e : rstr).
Inductive PingOutcome : Type := PingExit (ok : bool) (stdout stderr : list Z) | PingFailed (e : rstr) | PingTimeout.
Inductive TcpOutcome : Type := TcpConnected | TcpFailed (e : rstr) | TcpTimeout.
Inductive Read : Type := ReadEof | ReadBytes (data : list Z) | ReadError (e : rstr).

Record Env := {
  disk : nat → AgentFiles.Env;                 (** the system calls made in the step *)
  others : nat → Fs → Fs;                      (** what other processes do to the files meanwhile *)
  clock : Z; elapsed_ms : Z;
  lookup_host : rstr → Z → option (list SocketAddr);
  child : Child; http : HttpOutcome; tcp : TcpOutcome; ping : PingOutcome;
  connect : SocketAddr → option rstr;          (** [None]: connected *)
  handle : Z;                                  (** identity of a new terminal or connection *)
  open_pty : option rstr;                      (** [None]: the shell was started *)
  terminal_error : option rstr;                (** the terminal refused an input or a size *)
  writer_closed : bool;
  socket : Read;
}.
Abbreviation Prog := (Proc Env Local).


Declare Scope agent_scope.
Notation "'let!' x := m 'in' k" := (proc_bind m (fun x => k)) (at level 200, x pattern, m at level 200, k at level 200) : agent_scope.
Open Scope agent_scope.

(** A look at the state, and a change of it. *)
Definition look {A} (f : Env → Local → A) : Prog A := Step (fun _ s => s) (fun e s => Ret (f e s)).
Definition change {A} (f : Env → Local → A * Local) : Prog A := Step (fun e s => (f e s).2) (fun e s => Ret (f e s).1).
Definition emit (x : Effect) : Prog unit := change (fun _ s => ((), emitted x s)).
Definition read_config : Prog AgentConfig := look (fun _ s => memory s).

(** A program on the files, one system call a step. *)
Fixpoint on_files {A} (m : Proc AgentFiles.Env Fs A) : Prog A :=
  match m with
  | Ret a => Ret a
  | Step f n => Step (fun e s => with_files (f (disk e 0%nat) (files s)) s) (fun e s => on_files (n (disk e 0%nat) (files s)))
  end.

(** ** Frames *)

Definition io_raw_data_frame (stream agent : rstr) (sequence : Z) (data : list Z) : IoFrame :=
  {| IoStreams.stream_id := stream; IoStreams.sequence := sequence; IoStreams.f_agent_id := agent; IoStreams.payload := Some (IoStreams.Data data) |}.
Definition io_close_frame (stream agent : rstr) (sequence : Z) (reason : rstr) : IoFrame :=
  {| IoStreams.stream_id := stream; IoStreams.sequence := sequence; IoStreams.f_agent_id := agent; IoStreams.payload := Some (IoStreams.Close reason) |}.
Definition io_error_frame (stream agent : rstr) (sequence : Z) (code message : rstr) : IoFrame :=
  {| IoStreams.stream_id := stream; IoStreams.sequence := sequence; IoStreams.f_agent_id := agent;
     IoStreams.payload := Some (IoStreams.Error code message) |}.
Definition send (frame : IoFrame) : Prog unit := emit (Sent frame).

Inductive TerminalBridgeMessage : Type :=
| Open (cols rows : Z) | Input (data : rstr) | Resize (cols rows : Z) | CloseTerminal (reason : option rstr) | Output (data : rstr) | ErrorMessage (message : rstr).
Inductive NatTunnelControlMessage : Type := OpenTunnel (local_host : rstr) (local_port : Z) | Ready.

(** ** Terminals: [executor/terminal.rs] *)

Definition MAX_TERMINAL_SESSIONS : Z := 16.
Definition TERMINAL_MIN_DIMENSION : Z := 1.
Definition TERMINAL_MAX_DIMENSION : Z := 500.
Definition TERMINAL_MAX_INPUT_BYTES : Z := 16 * 1024.
Definition TERMINAL_MAX_SESSION_ID_BYTES : Z := 256.

Definition clamp_terminal_dimensions (cols rows : Z) : Z * Z :=
  (clamp cols TERMINAL_MIN_DIMENSION TERMINAL_MAX_DIMENSION, clamp rows TERMINAL_MIN_DIMENSION TERMINAL_MAX_DIMENSION).
Definition validate_session_id (session_id : rstr) : result rstr unit :=
  if is_empty (trim session_id) then Err (lit "Terminal session_id must not be empty") else
  if TERMINAL_MAX_SESSION_ID_BYTES <? byte_len session_id then Err (lit "Terminal session_id exceeds maximum length of 256 bytes") else
  if contains 0 session_id || existsb is_control session_id then Err (lit "Terminal session_id contains disallowed control characters") else Ok ().

(** [TerminalSlotGuard::acquire], and its [Drop]. *)
Definition acquire (max_sessions : Z) : Prog (result rstr Z) :=
  change (fun e s => if max_sessions <=? Z.of_nat (size (slots s)) then (Err (lit "Maximum concurrent terminal sessions (16) reached"), s)
                     else (Ok (handle e), with_terminals (terminal_sessions s) ({[handle e]} ∪ slots s) s)).
Definition close_terminal (h : Z) : Prog unit := change (fun _ s => ((), with_terminals (terminal_sessions s) (slots s ∖ {[h]}) s)).

(** [TerminalSession::new]. *)
Definition terminal_new (stream : rstr) (cols rows : Z) : Prog (result rstr Z) :=
  match validate_session_id stream with
  | Err e => Ret (Err e)
  | Ok _ =>
      let '(cols, rows) := clamp_terminal_dimensions cols rows in
      let! slot := acquire MAX_TERMINAL_SESSIONS in
      match slot with
      | Err e => Ret (Err e)
      | Ok h => change (fun e s => match open_pty e with
                                   | Some err => (Err err, with_terminals (terminal_sessions s) (slots s ∖ {[h]}) s)
                                   | None => (Ok h, emitted (TerminalOpened stream cols rows) s)
                                   end)
      end
  end.
Definition send_input (h : Z) (stream : rstr) (data : list Z) : Prog (result rstr unit) :=
  change (fun e s =>
    if negb (bool_decide (h ∈ slots s)) then (Err (lit "Terminal session is closed"), s) else
    if TERMINAL_MAX_INPUT_BYTES <? zlen data then (Err (lit "Terminal input chunk length " ++ print_i64 (zlen data) ++ lit " exceeds maximum of 16384 bytes"), s) else
    if is_empty data then (Ok (), s) else
    match terminal_error e with Some err => (Err err, s) | None => (Ok (), emitted (TerminalInput stream data) s) end).
Definition resize (h : Z) (stream : rstr) (cols rows : Z) : Prog (result rstr unit) :=
  change (fun e s =>
    if negb (bool_decide (h ∈ slots s)) then (Err (lit "Terminal session is closed"), s) else
    let '(cols, rows) := clamp_terminal_dimensions cols rows in
    match terminal_error e with Some err => (Err err, s) | None => (Ok (), emitted (TerminalResized stream cols rows) s) end).

Section handlers.
(** [serde_json] on the messages of a stream, and [String::from_utf8_lossy]. *)
Context (terminal_from_slice : list Z → option TerminalBridgeMessage) (terminal_to_vec : TerminalBridgeMessage → list Z).
Context (nat_from_slice : list Z → option NatTunnelControlMessage) (nat_to_vec : NatTunnelControlMessage → list Z).
Context (from_utf8_lossy : list Z → rstr).
(** The environment variables of the process. *)
Context (vars : Security.Env).

(** [u64::saturating_add]. *)
Definition next (sequence k : Z) : Z := saturating_add u64_max sequence k.

Definition close_terminal_session (agent stream reason : rstr) (sequence : Z) : Prog unit :=
  let! session := change (fun _ s => (terminal_sessions s !! stream, with_terminals (delete stream (terminal_sessions s)) (slots s) s)) in
  let! _ := match session with Some h => close_terminal h | None => Ret () end in
  send (io_raw_data_frame stream agent sequence (terminal_to_vec (CloseTerminal (Some reason)))).

Definition disabled_frame (agent stream : rstr) (sequence : Z) : IoFrame :=
  io_error_frame stream agent sequence (lit "command_execution_disabled") (lit "terminal access is disabled by agent policy").

Definition handle_new_terminal_session (agent stream : rstr) (sequence : Z) (message : TerminalBridgeMessage) : Prog unit :=
  match message with
  | Open cols rows =>
      let! cfg := read_config in
      if disable_command_execute cfg then send (disabled_frame agent stream sequence) else
      let! session := terminal_new stream cols rows in
      match session with
      | Ok h => change (fun _ s => ((), with_terminals (<[stream := h]> (terminal_sessions s)) (slots s) s))
      | Err e => send (io_error_frame stream agent sequence (lit "terminal_open_failed") e)
      end
  | Input _ | Resize _ _ | CloseTerminal _ =>
      send (io_error_frame stream agent sequence (lit "terminal_not_open") (lit "terminal session is not open"))
  | Output _ | ErrorMessage _ => Ret ()
  end.

Definition handle_terminal_message (agent stream : rstr) (sequence h : Z) (payload : list Z) : Prog unit :=
  let! cfg := read_config in
  if disable_command_execute cfg then
    let! removed := change (fun _ s => (terminal_sessions s !! stream, with_terminals (delete stream (terminal_sessions s)) (slots s) s)) in
    let! _ := close_terminal (default h removed) in
    send (disabled_frame agent stream sequence)
  else
  match terminal_from_slice payload with
  | None => send (io_error_frame stream agent sequence (lit "invalid_terminal_message") (lit "could not decode terminal control message"))
  | Some (Input data) =>
      let! r := send_input h stream (str_bytes data) in
      match r with Ok _ => Ret () | Err e => send (io_error_frame stream agent sequence (lit "terminal_input_failed") e) end
  | Some (Resize cols rows) =>
      let! r := resize h stream cols rows in
      match r with Ok _ => Ret () | Err e => send (io_error_frame stream agent sequence (lit "terminal_resize_failed") e) end
  | Some (CloseTerminal reason) => close_terminal_session agent stream (default (lit "terminal closed") reason) sequence
  | Some _ => Ret ()
  end.

(** [spawn_terminal_output_loop], for [n] chunks: output is sent until the terminal ends. *)
Fixpoint terminal_output_loop (n : nat) (agent stream : rstr) (sequence : Z) : Prog unit :=
  match n with
  | O => Ret ()
  | S n =>
      let! chunk := look (fun e _ => socket e) in
      match chunk with
      | ReadBytes chunk =>
          let! _ := send (io_raw_data_frame stream agent sequence (terminal_to_vec (Output (from_utf8_lossy chunk)))) in
          terminal_output_loop n agent stream (next sequence 1)
      | _ => send (io_raw_data_frame stream agent sequence (terminal_to_vec (CloseTerminal (Some (lit "terminal exited")))))
      end
  end.

(** ** NAT *)

Definition close_nat_session (agent stream reason : rstr) (sequence : Z) (echo_close : bool) : Prog unit :=
  let! _ := change (fun _ s => ((), with_nats (delete stream (nat_sessions s)) s)) in
  if echo_close then send (io_close_frame stream agent sequence reason) else Ret ().

Definition nat_disabled (agent stream : rstr) (sequence : Z) : Prog unit :=
  send (io_error_frame stream agent sequence (lit "nat_disabled") (lit "NAT is disabled by agent policy")).

Fixpoint connect_agent_nat_addrs (addrs : list SocketAddr) (last_error : option rstr) : Prog (result rstr Z) :=
  match addrs with
  | [] => Ret (Err (default (lit "no Agent NAT target address resolved") last_error))
  | addr :: addrs =>
      let! r := change (fun e s => match connect e addr with
                                   | None => (Ok (handle e), emitted (NatConnected addr) s)
                                   | Some err => (Err err, s)
                                   end) in
      match r with Ok h => Ret (Ok h) | Err err => connect_agent_nat_addrs addrs (Some err) end
  end.

Definition handle_nat_control_message (agent stream : rstr) (sequence : Z) (message : NatTunnelControlMessage) : Prog unit :=
  let! cfg := read_config in
  if disable_nat cfg then nat_disabled agent stream sequence else
  match message with
  | OpenTunnel local_host local_port =>
      let! resolved := look (fun e _ => resolve_agent_nat_target (lookup_host e) vars local_host local_port) in
      let! connected := match resolved with Ok addrs => connect_agent_nat_addrs addrs None | Err e => Ret (Err e) end in
      match connected with
      | Ok h =>
          let! _ := change (fun _ s => ((), with_nats (<[stream := h]> (nat_sessions s)) s)) in
          send (io_raw_data_frame stream agent (next sequence 1) (nat_to_vec Ready))
      | Err e => send (io_error_frame stream agent sequence (lit "nat_open_failed")
                         (lit "failed to connect to " ++ format_nat_target_label local_host local_port ++ lit ": " ++ e))
      end
  | Ready => Ret ()
  end.

(** The task that reads a connection, for [n] reads. *)
Fixpoint nat_reader (n : nat) (agent stream : rstr) (sequence : Z) : Prog unit :=
  match n with
  | O => Ret ()
  | S n =>
      let gone := change (fun _ s => ((), with_nats (delete stream (nat_sessions s)) s)) in
      let! r := look (fun e _ => socket e) in
      match r with
      | ReadEof => let! _ := send (io_close_frame stream agent sequence (lit "local NAT stream closed")) in gone
      | ReadBytes data => let! _ := send (io_raw_data_frame stream agent sequence data) in nat_reader n agent stream (next sequence 1)
      | ReadError e => let! _ := send (io_error_frame stream agent sequence (lit "nat_read_failed") e) in gone
      end
  end.

(** ** Frames from the server *)

Definition handle_data (agent stream : rstr) (sequence : Z) (payload : list Z) : Prog unit :=
  let! existing_terminal := look (fun _ s => terminal_sessions s !! stream) in
  match existing_terminal with
  | Some h => handle_terminal_message agent stream sequence h payload
  | None =>
      let! existing_nat := look (fun _ s => nat_sessions s !! stream) in
      match existing_nat with
      | Some _ =>
          let! cfg := read_config in
          if disable_nat cfg then
            let! _ := close_nat_session agent stream (lit "NAT is disabled by agent policy") sequence false in
            nat_disabled agent stream sequence
          else
            let! closed := change (fun e s => if writer_closed e then (true, s) else (false, emitted (NatQueued stream payload) s)) in
            if (closed : bool) then close_nat_session agent stream (lit "NAT writer channel closed") sequence true else Ret ()
      | None =>
          match terminal_from_slice payload with
          | Some message => handle_new_terminal_session agent stream sequence message
          | None =>
              match nat_from_slice payload with
              | Some message => handle_nat_control_message agent stream sequence message
              | None => send (io_error_frame stream agent sequence (lit "invalid_io_message")
                                (lit "could not decode terminal or NAT control message"))
              end
          end
      end
  end.

Definition handle_io_frame (agent : rstr) (frame : IoFrame) : Prog unit :=
  let stream := IoStreams.stream_id frame in
  let sequence := IoStreams.sequence frame in
  match IoStreams.payload frame with
  | Some (IoStreams.Data data) => handle_data agent stream sequence data
  | Some (IoStreams.Close reason) =>
      let! has_terminal := look (fun _ s => bool_decide (is_Some (terminal_sessions s !! stream))) in
      if (has_terminal : bool) then close_terminal_session agent stream reason sequence else
      let! has_nat := look (fun _ s => bool_decide (is_Some (nat_sessions s !! stream))) in
      if (has_nat : bool) then close_nat_session agent stream reason sequence true else Ret ()
  | Some (IoStreams.Error _ _) | None => Ret ()
  end.

(** [cleanup_agent_io_sessions], when the session ends. *)
Definition close_all (hs : list Z) : Prog unit := foldr (fun h k => let! _ := close_terminal h in k) (Ret ()) hs.
Definition cleanup_agent_io_sessions : Prog unit :=
  let! taken := change (fun _ s => ((map_to_list (terminal_sessions s)).*2, with_terminals ∅ (slots s) s)) in
  let! _ := close_all taken in
  change (fun _ s => ((), with_nats ∅ s)).
End handlers.

(** ** Probes *)

(** [f64 as i32]: towards zero, saturating; not a number is 0. *)
Definition i32_of_f64 (x : f64) : Z :=
  let cut z := clamp z (- 2 ^ 31) (2 ^ 31 - 1) in
  match x with
  | SpecFloat.S754_finite neg m e => cut ((if neg then -1 else 1) * (if 0 <=? e then Z.pos m * 2 ^ e else Z.pos m / 2 ^ (- e)))
  | SpecFloat.S754_infinity neg => if neg then - 2 ^ 31 else 2 ^ 31 - 1
  | _ => 0
  end.
(** [str::lines]. *)
Definition lines (s : rstr) : list rstr := (fun l => default l (strip_suffix_char 13 l)) <$> split_by (Z.eqb 10) s.
Definition line_latency (line : rstr) : option Z :=
  if contains_str (lit "min/avg/max") line || contains_str (lit "rtt min/avg/max") line then
    stats ← split_by (Z.eqb 61) line !! 1%nat;
    avg ← split_by (Z.eqb 47) (trim stats) !! 1%nat;
    i32_of_f64 <$> parse_f64 (trim avg)
  else None.
Definition parse_ping_latency (output : rstr) : option Z := head (omap line_latency (lines output)).

Section tasks.
Context (url_parse : rstr → option Security.Url) (json_to_string : json → rstr) (from_utf8_lossy : list Z → rstr).
(** [HeaderName::from_bytes] and [HeaderValue::from_str] on each header. *)
Context (headers_ok : list (rstr * rstr) → result rstr unit).
(** The environment variables of the process, as texts and as the bytes a child inherits. *)
Context (vars : Security.Env) (inherited : gmap (list Z) (list Z)).

Definition opt {A} (f : A → json) (o : option A) : json := match o with Some a => f a | None => JNull end.
Definition int (z : Z) : json := JNumber (if z <? 0 then NegInt z else PosInt z).
Definition probe_output_json (success : bool) (latency_ms status_code : option Z) (error : option rstr) : rstr :=
  json_to_string (JObject [(lit "cert_fingerprint", JNull); (lit "cert_not_after", JNull); (lit "error", opt JString error);
    (lit "latency_ms", opt int latency_ms); (lit "status_code", opt int status_code); (lit "success", JBool success)]).

Record HttpGetTask := { hg_url : rstr; hg_headers : list (rstr * rstr); hg_verify_tls : bool; hg_timeout : Z }.
Definition run_http_probe_task (spec : HttpGetTask) : Prog (result rstr rstr) :=
  let! validated := look (fun e _ => validate_agent_probe_url_resolved (lookup_host e) url_parse vars (hg_url spec) (lit "Agent HTTP probe target")) in
  match validated with
  | Err e => Ret (Err e)
  | Ok validated =>
      match headers_ok (hg_headers spec) with
      | Err e => Ret (Err e)
      | Ok _ =>
          change (fun e s =>
            (Ok (match http e with
                 | HttpStatus code =>
                     let ok := (200 <=? code) && (code <=? 299) in
                     probe_output_json ok (Some (elapsed_ms e)) (Some code) (if ok then None else Some (lit "HTTP " ++ print_i64 code))
                 | HttpError err => probe_output_json false (Some (elapsed_ms e)) None (Some err)
                 end), emitted (Probed (task_timeout_seconds (hg_timeout spec)) (pu_addrs validated)) s))
      end
  end.

Record TcpPingTask := { tp_host : rstr; tp_port : Z; tp_timeout : Z }.
Definition run_tcp_probe_task (spec : TcpPingTask) : Prog (result rstr rstr) :=
  match agent_probe_port (tp_port spec) (lit "Agent TCP probe target") with
  | Err e => Ret (Err e)
  | Ok port =>
      let! addrs := look (fun e _ => resolve_agent_probe_host (lookup_host e) vars (tp_host spec) port (lit "Agent TCP probe target")) in
      match addrs with
      | Err e => Ret (Err e)
      | Ok addrs =>
          change (fun e s =>
            (Ok (match tcp e with
                 | TcpConnected => probe_output_json true (Some (elapsed_ms e)) None None
                 | TcpFailed err => probe_output_json false (Some (elapsed_ms e)) None (Some err)
                 | TcpTimeout => probe_output_json false (Some (elapsed_ms e)) None (Some (lit "connection timeout"))
                 end), emitted (Probed (task_timeout_seconds (tp_timeout spec)) addrs) s))
      end
  end.

Record IcmpPingTask := { ip_host : rstr; ip_count : Z; ip_timeout : Z }.
Definition run_icmp_probe_task (spec : IcmpPingTask) : Prog (result rstr rstr) :=
  let! target := look (fun e _ =>
    addrs ← resolve_agent_probe_host (lookup_host e) vars (ip_host spec) 0 (lit "Agent ICMP probe target");
    agent_ping_target addrs (lit "Agent ICMP probe target")) in
  match target with
  | Err e => Ret (Err e)
  | Ok target =>
      change (fun e s =>
        (Ok (match ping e with
             | PingExit true out _ =>
                 probe_output_json true (Some (default (elapsed_ms e) (parse_ping_latency (bounded_ping_output_text from_utf8_lossy out)))) None None
             | PingExit false out err => probe_output_json false (Some (elapsed_ms e)) None (Some (ping_failure_message from_utf8_lossy err out))
             | PingFailed err => probe_output_json false (Some (elapsed_ms e)) None (Some err)
             | PingTimeout => probe_output_json false (Some (elapsed_ms e)) None (Some (lit "ping timeout"))
             end), emitted (Pinged (clamp (ip_count spec) 1 10) (task_timeout_seconds (ip_timeout spec)) target) s))
  end.

(** ** Tasks *)

Record ShellTask := { sh_command : rstr; sh_dir : rstr; sh_env : list (rstr * rstr); sh_timeout : Z; sh_max_output : Z }.
Inductive Spec : Type :=
| ShellCommand (shell : ShellTask)
| HttpGet (spec : HttpGetTask)
| TcpPing (spec : TcpPingTask)
| IcmpPing (spec : IcmpPingTask)
| Files (spec : AgentFiles.FileSpec)
| Other.
Record ServerTask := { task_id : rstr; spec : option Spec }.

(** Status 0 is unspecified, 1 success, 2 failure. *)
Record Outcome := { o_status : Z; o_exit_code : Z; o_stdout : rstr; o_stderr : rstr; o_error : rstr }.
Definition refused (reason : rstr) : Outcome := {| o_status := 2; o_exit_code := 126; o_stdout := []; o_stderr := []; o_error := reason |}.
Definition of_probe (r : result rstr rstr) : Outcome :=
  match r with
  | Ok out => {| o_status := 1; o_exit_code := 0; o_stdout := out; o_stderr := []; o_error := [] |}
  | Err e => {| o_status := 2; o_exit_code := 1; o_stdout := []; o_stderr := []; o_error := e |}
  end.

(** [execute_shell_command]: a command that passes the checks is started. *)
Definition execute_shell_command (command : rstr) (dir : option rstr) (env : list (rstr * rstr)) (timeout max_output : Z) : Prog (result rstr ShellResult) :=
  change (fun e s =>
    match shell_command from_utf8_lossy inherited command dir env timeout max_output with
    | Err err => (Err err, s)
    | Ok cmd => (shell_result cmd (child e), match child e with SpawnFailed _ => s | _ => emitted (Ran cmd) s end)
    end).
Definition run_shell (cfg : AgentConfig) (shell : ShellTask) : Prog Outcome :=
  if disable_command_execute cfg then Ret (refused (lit "command execution disabled by agent policy")) else
  let max_output := shell_task_output_max_bytes (sh_max_output shell) in
  let! r := execute_shell_command (sh_command shell) (non_empty_string (sh_dir shell)) (sh_env shell)
              (shell_task_timeout_seconds (sh_timeout shell)) max_output in
  Ret (match r with
       | Ok out => {| o_status := if sh_exit_code out =? 0 then 1 else 2; o_exit_code := sh_exit_code out;
                      o_stdout := from_utf8_lossy (sh_stdout out); o_stderr := from_utf8_lossy (sh_stderr out);
                      o_error := if output_truncated out then lit "output truncated at " ++ print_i64 max_output ++ lit " bytes" else [] |}
       | Err e => {| o_status := 2; o_exit_code := 0; o_stdout := []; o_stderr := []; o_error := e |}
       end).

(** [reject_probe_task_when_disabled], then the probe. *)
Definition run_probe (cfg : AgentConfig) (probe : Prog (result rstr rstr)) : Prog Outcome :=
  if disable_send_query cfg then Ret (refused (lit "probe task disabled by agent policy")) else
  let! r := probe in Ret (of_probe r).

Context (entries_json : list AgentFiles.FileEntry → rstr) (error_text : AgentFiles.FileError → rstr) (fds : nat).
Definition run_files (cfg : AgentConfig) (spec : AgentFiles.FileSpec) : Prog Outcome :=
  let! out := on_files (AgentFiles.run_file_task from_utf8_lossy entries_json error_text fds cfg spec) in
  Ret {| o_status := AgentFiles.status out; o_exit_code := AgentFiles.exit_code out; o_stdout := AgentFiles.stdout out; o_stderr := [];
         o_error := AgentFiles.error out |}.

Definition run_spec (cfg : AgentConfig) (spec : option Spec) : Prog Outcome :=
  match spec with
  | Some (ShellCommand shell) => run_shell cfg shell
  | Some (HttpGet spec) => run_probe cfg (run_http_probe_task spec)
  | Some (TcpPing spec) => run_probe cfg (run_tcp_probe_task spec)
  | Some (IcmpPing spec) => run_probe cfg (run_icmp_probe_task spec)
  | Some (Files spec) => run_files cfg spec
  | Some Other => Ret {| o_status := 2; o_exit_code := 0; o_stdout := []; o_stderr := []; o_error := lit "task type not yet implemented in agent" |}
  | None => Ret {| o_status := 2; o_exit_code := 0; o_stdout := []; o_stderr := []; o_error := lit "task with no spec" |}
  end.

Definition run_server_task (task : ServerTask) : Prog IoStreams.TaskResult :=
  let! started := look (fun e _ => clock e) in
  let! agent := look (fun _ s => agent_id (memory s)) in
  let! cfg := read_config in
  let! out := run_spec cfg (spec task) in
  let! finished := look (fun e _ => clock e) in
  Ret {| IoStreams.t_task_id := task_id task; IoStreams.status := o_status out; IoStreams.exit_code := o_exit_code out;
         IoStreams.stdout := o_stdout out; IoStreams.stderr := o_stderr out; IoStreams.error := o_error out;
         IoStreams.started_at := started; IoStreams.finished_at := finished; IoStreams.t_agent_id := agent |}.

(** ** Configuration and updates *)

Context (url_to_string : Security.Url → rstr) (home : list (list Z * Z)) (config_name : list Z) (tag : AgentFiles.Env → rstr) (pid : Z).
Context (to_string_pretty : AgentConfig → option rstr) (from_str : rstr → option AgentConfig) (config_path : AgentPolicy.Path_).
Context (json_from_slice : list Z → option json) (request_json : AgentPolicy.ForceUpdate → Z → option (list Z)).

Definition apply_remote_config (config_yaml : list Z) : Prog (result rstr unit) :=
  match AgentPolicy.read_patch json_from_slice config_yaml with
  | Err e => Ret (Err e)
  | Ok object =>
      change (fun e s =>
        match run_to_end (disk e) (others e)
                (AgentPolicy.update_config url_parse url_to_string home config_name tag pid to_string_pretty from_str config_path object (memory s)) (files s) with
        | (Ok c, f) => (Ok (), with_memory c (with_files f s))
        | (Err err, f) => (Err err, with_files f s)
        end)
  end.

Definition record_force_update_request (update : AgentPolicy.ForceUpdate) : Prog (result rstr unit) :=
  let! cfg := read_config in
  if disable_force_update cfg then Ret (Err (lit "force update is disabled by agent policy")) else
  let! r := on_files (AgentPolicy.record_force_update url_parse url_to_string home config_name tag pid from_str request_json update) in
  match r with
  | Ok _ => let! _ := emit (UpdateRecorded update) in Ret r
  | Err _ => Ret r
  end.

(** One message of the server, or a task a message started. *)
Inductive ServerMessage : Type :=
| ForceDisconnect
| ConfigUpdate (config_yaml : list Z)
| ForceUpdate (update : AgentPolicy.ForceUpdate)
| Task (task : ServerTask)
| UnknownMessage.
Inductive SessionExit : Type := StreamClosed | Revoked.

(** The result says whether the session ends. *)
Definition handle_message (message : ServerMessage) : Prog (option SessionExit) :=
  match message with
  | ForceDisconnect => Ret (Some Revoked)
  | ConfigUpdate update => let! _ := apply_remote_config update in Ret None
  | ForceUpdate update =>
      let! cfg := read_config in
      if disable_force_update cfg then Ret None else
      let! _ := record_force_update_request update in Ret None
  | Task task => let! _ := run_server_task task in Ret None
  | UnknownMessage => Ret None
  end.
End tasks.

End AgentSession.
