(* ===== verification/AgentSessionProofs.v ===== *)
(** * AgentSessionProofs: an Agent keeps to its own policy

    Whatever messages a server sends and however their handlers are interleaved,
    the policy in force only gets tighter, and everything the Agent does to the
    outside was allowed by the configuration at a moment while the message that
    caused it was handled. *)

From S2P Require Import Prelude Text BTreeMap Json Externals Net Security IoStreams Base64 Interleave Auth AgentConfig AgentFiles AgentFilesProofs AgentGuards.
From S2P Require Import AgentPolicy AgentPolicyProofs AgentSession.

Module AgentSessionProofs.
Import Net Interleave AgentConfig AgentGuards AgentPolicyProofs AgentSession.

(** ** Guards *)

Lemma clamp_bounds v lo hi : lo <= hi → lo <= clamp v lo hi <= hi.
Proof. unfold clamp. lia. Qed.
Lemma task_timeout_bounds v : 1 <= task_timeout_seconds v <= 30.
Proof.
  unfold task_timeout_seconds, AGENT_PROBE_DEFAULT_TIMEOUT_SECONDS. destruct (v =? 0); [lia|]. apply clamp_bounds. done.
Qed.

Lemma keep_allowed (allowed : IpAddr → result rstr unit) l acc res :
  try_fold (fun resolved addr => allowed (Security.sa_ip addr);; Ok (resolved ++ [addr])) l acc = Ok res →
  Forall (fun a => allowed (Security.sa_ip a) = Ok ()) acc → Forall (fun a => allowed (Security.sa_ip a) = Ok ()) res.
Proof.
  revert acc. induction l as [|a l IH]; intros acc; cbn [try_fold]; [by intros [= <-]|].
  intros (acc' & ([] & Ha & [= <-])%bind_Ok & Hl)%bind_Ok Hacc. apply (IH _ Hl), Forall_app. split; [done|]. by constructor.
Qed.
(** Every address a host resolves to was allowed. *)
Lemma resolve_with_Ok lookup allowed what host port addrs :
  resolve_with lookup allowed what host port = Ok addrs → addrs ≠ [] ∧ Forall (fun a => allowed (Security.sa_ip a) = Ok ()) addrs.
Proof.
  unfold resolve_with. destruct (is_empty _); [done|]. destruct (parse_ip _) as [ip|].
  - intros ([] & Ha & [= <-])%bind_Ok. split; [done|]. by constructor.
  - intros (l & _ & (res & Hf & Hr)%bind_Ok)%bind_Ok. destruct (is_empty res) eqn:Ee; [done|]. injection Hr as <-.
    split; [by destruct res|]. by eapply keep_allowed.
Qed.

Lemma nat_ip_Ok ip private : ensure_agent_nat_ip_allowed ip private = Ok () → private = true ∨ is_loopback ip = true.
Proof. unfold ensure_agent_nat_ip_allowed. destruct private, (is_loopback ip); cbn; auto. done. Qed.
Lemma probe_ip_Ok ip purpose private : ensure_agent_probe_ip_allowed ip purpose private = Ok () → private = true ∨ is_agent_blocked_ip ip = false.
Proof. unfold ensure_agent_probe_ip_allowed. destruct private, (is_agent_blocked_ip ip); cbn; auto. done. Qed.

(** ** The environment of a command *)

Lemma validate_env_Ok env key value : validate_shell_env_vars env = Ok () → (key, value) ∈ env →
  is_valid_env_key_identifier key = true ∧ is_blocked_shell_env_key key = false.
Proof.
  induction env as [|[k v] env IH]; [intros _ Hin; by apply elem_of_nil in Hin|]. cbn [validate_shell_env_vars].
  destruct (is_empty k || _); [done|]. destruct (is_valid_env_key_identifier k) eqn:Ek; cbn [negb]; [|done].
  destruct (is_blocked_shell_env_key k) eqn:Eb; [done|]. destruct (_ <? byte_len v); [done|]. destruct (_ || _); [done|].
  intros Henv [[= -> ->]|Hin]%elem_of_cons; [done|by apply IH].
Qed.

(** A variable the child sees is one the Agent inherited that is not secret and
    cannot make the shell load code, or one the task named. *)
Definition clean_command (from_utf8_lossy : list Z → rstr) (inherited : gmap (list Z) (list Z)) (cmd : Command) : Prop :=
  (∀ key value, cmd_env cmd !! key = Some value →
     (inherited !! key = Some value ∧ key ∉ str_bytes <$> SENSITIVE_AGENT_ENV_VARS ∧ is_sensitive_inherited_env_key (from_utf8_lossy key) = false)
     ∨ ∃ k, key = str_bytes k ∧ is_valid_env_key_identifier k = true ∧ is_blocked_shell_env_key k = false)
  ∧ 1 <= cmd_timeout cmd <= 60 ∧ 0 <= cmd_max_output cmd <= 65536.

Lemma set_env_lookup vars env key value : set_env vars env !! key = Some value →
  vars !! key = Some value ∨ ∃ k v, (k, v) ∈ env ∧ key = str_bytes k.
Proof.
  revert vars. induction env as [|[k v] env IH]; intros vars; cbn; [by left|]. intros [Hv|(k' & v' & Hin & ->)]%IH.
  - destruct (decide (key = str_bytes k)) as [->|Hne]; [right; exists k, v; split; [by left|done]|].
    left. by rewrite lookup_insert_ne in Hv by done.
  - right. exists k', v'. split; [by right|done].
Qed.

Lemma shell_command_clean from_utf8_lossy inherited command dir env timeout max_output cmd : 0 <= max_output →
  shell_command from_utf8_lossy inherited command dir env timeout max_output = Ok cmd → clean_command from_utf8_lossy inherited cmd.
Proof.
  intros Hmax ([] & Hv & [= <-])%bind_Ok. split; [|split]; cbn [cmd_env cmd_timeout cmd_max_output].
  - intros key value [Hl|(k & v & Hin & ->)]%set_env_lookup.
    + left. unfold sanitize_tokio_command_env in Hl. apply map_lookup_filter_Some in Hl as [Hl Hr]. cbn in Hr. unfold removed_env_key in Hr.
      apply orb_false_iff in Hr as [Hr1 Hr2]. split_and!; [done| |done]. by apply contains_false in Hr1.
    + right. exists k. split; [done|]. unfold validate_shell_command_inputs in Hv.
      repeat (destruct (_ : bool); [done|]). apply bind_Ok in Hv as ([] & _ & Hv). unfold validate_shell_env in Hv.
      destruct (_ <? zlen env); [done|]. by eapply validate_env_Ok.
  - unfold bounded_timeout_seconds, SHELL_DEFAULT_TIMEOUT_SECONDS. destruct (timeout =? 0); [lia|]. by apply clamp_bounds.
  - unfold bounded_output_max_bytes, SHELL_DEFAULT_OUTPUT_MAX_BYTES, SHELL_MAX_OUTPUT_BYTES. destruct (max_output =? 0); lia.
Qed.

(** ** What a configuration permits *)

Section policy.
Context (from_utf8_lossy : list Z → rstr) (vars : Security.Env) (inherited : gmap (list Z) (list Z)).
Context (url_parse : rstr → option Security.Url) (url_to_string : Security.Url → rstr).

Definition probe_addr (ip : IpAddr) : Prop := agent_private_probes_allowed vars = true ∨ is_agent_blocked_ip ip = false.
Definition permitted (c : AgentConfig) (x : Effect) : Prop :=
  match x with
  | Ran cmd => disable_command_execute c = false ∧ clean_command from_utf8_lossy inherited cmd
  | Probed timeout addrs => disable_send_query c = false ∧ 1 <= timeout <= 30 ∧ Forall (fun a => probe_addr (Security.sa_ip a)) addrs
  | Pinged count timeout target =>
      disable_send_query c = false ∧ 1 <= count <= 10 ∧ 1 <= timeout <= 30 ∧ ∃ ip, target = print_ip ip ∧ probe_addr ip
  | TerminalOpened _ cols rows | TerminalResized _ cols rows => disable_command_execute c = false ∧ 1 <= cols <= 500 ∧ 1 <= rows <= 500
  | TerminalInput _ data => disable_command_execute c = false ∧ zlen data <= TERMINAL_MAX_INPUT_BYTES
  | NatConnected a => disable_nat c = false ∧ (agent_private_nat_targets_allowed vars = true ∨ is_loopback (Security.sa_ip a) = true)
  | NatQueued _ _ => disable_nat c = false
  | UpdateRecorded u => disable_force_update c = false ∧ is_ok (AgentPolicy.validate_force_update url_parse url_to_string u) = true
  | Sent _ => True
  end.

(** ** A logic for the handlers

    [good] holds of the configurations that may be relied on, those in force while
    the handler ran; [writes] says whether it may touch the files. *)

Context (good : AgentConfig → Prop) (writes : Prop).
Definition may (x : Effect) : Prop := ∃ c, good c ∧ permitted c x.
(** What one step may do. *)
Definition lawful (s s' : Local) : Prop :=
  (tightens (memory s) (memory s') ∧ (config_ok (memory s) → config_ok (memory s')))
  ∧ (∃ new, log s' = log s ++ new ∧ Forall may new)
  ∧ (Z.of_nat (size (slots s)) <= MAX_TERMINAL_SESSIONS → Z.of_nat (size (slots s')) <= MAX_TERMINAL_SESSIONS)
  ∧ (writes ∨ files s' = files s).
Definition handled {A} (m : Prog A) (Q : A → Prop) : Prop :=
  wp (fun _ _ => True) (fun _ s => good (memory s)) (fun _ _ s s' _ => lawful s s') () m (fun a _ => Q a).

Lemma handled_mono {A} (m : Prog A) (Q Q' : A → Prop) : (∀ a, Q a → Q' a) → handled m Q → handled m Q'.
Proof. intros HQ. apply wp_mono. intros a _. apply HQ. Qed.
Lemma handled_bind {A B} (m : Prog A) (k : A → Prog B) Q : handled m (fun a => handled (k a) Q) → handled (proc_bind m k) Q.
Proof. intros Hm. apply wp_bind. eapply wp_mono, Hm. by intros a []. Qed.
Lemma handled_step {A} f (n : Env → Local → Prog A) Q :
  (∀ e s, good (memory s) → lawful s (f e s) ∧ handled (n e s) Q) → handled (Step f n) Q.
Proof. intros Hs e s _ Hk. exists (). by apply Hs. Qed.

Lemma lawful_refl s : lawful s s.
Proof. split_and!; [done|done| |done|by right]. exists []. by rewrite app_nil_r. Qed.
(** A change of anything but the policy, the log, the slots and the files. *)
Lemma lawful_quiet s s' : memory s' = memory s → log s' = log s → slots s' ⊆ slots s → writes ∨ files s' = files s → lawful s s'.
Proof.
  intros Hm Hl Hk Hf. split_and!; [by rewrite Hm..|exists []; by rewrite app_nil_r, Hl| |done]. intros Hb.
  apply subseteq_size in Hk. lia.
Qed.
Lemma lawful_emitted s x : may x → lawful s (emitted x s).
Proof. intros Hx. split_and!; [done|done| |done|by right]. exists [x]. split; [done|]. by constructor. Qed.

Lemma handled_ret {A} (a : A) (Q : A → Prop) : Q a → handled (Ret a) Q.
Proof. done. Qed.
Lemma handled_look {A} (f : Env → Local → A) (Q : A → Prop) : (∀ e s, good (memory s) → Q (f e s)) → handled (look f) Q.
Proof. intros HQ. apply handled_step. intros e s Hs. split; [apply lawful_refl|by apply HQ]. Qed.
Lemma handled_change {A} (f : Env → Local → A * Local) (Q : A → Prop) :
  (∀ e s, good (memory s) → lawful s (f e s).2 ∧ Q (f e s).1) → handled (change f) Q.
Proof. intros HQ. apply handled_step. intros e s Hs. by apply HQ. Qed.
Lemma handled_quiet {A} (f : Env → Local → A * Local) (Q : A → Prop) :
  (∀ e s, memory (f e s).2 = memory s ∧ log (f e s).2 = log s ∧ slots (f e s).2 ⊆ slots s ∧ files (f e s).2 = files s) → (∀ a, Q a) →
  handled (change f) Q.
Proof. intros Hf HQ. apply handled_change. intros e s _. split; [destruct (Hf e s) as (? & ? & ? & ?); apply lawful_quiet; auto|apply HQ]. Qed.
Lemma handled_emit x (Q : unit → Prop) : may x → Q () → handled (emit x) Q.
Proof. intros Hx HQ. apply handled_change. intros e s _. split; [by apply lawful_emitted|done]. Qed.
Lemma handled_send frame (Q : unit → Prop) : Q () → handled (send frame) Q.
Proof. intros HQ. apply handled_change. intros e s Hs. split; [|done]. apply lawful_emitted. by exists (memory s). Qed.
Lemma handled_config (Q : AgentConfig → Prop) : (∀ c, good c → Q c) → handled read_config Q.
Proof. intros HQ. apply handled_look. intros e s Hs. by apply HQ. Qed.
Lemma handled_files {A} (m : Proc AgentFiles.Env Fs A) (Q : A → Prop) : writes → (∀ h a, returns m h a → Q a) → handled (on_files m) Q.
Proof.
  intros Hw. induction m as [a|f n IH]; cbn [on_files]; intros HQ; [apply (HQ []); constructor|]. apply handled_step. intros e s Hs.
  split; [apply lawful_quiet; auto|]. apply IH. intros h a Hr. eapply HQ. by constructor.
Qed.

(** ** The handlers *)

Context (terminal_from_slice : list Z → option TerminalBridgeMessage) (terminal_to_vec : TerminalBridgeMessage → list Z).
Context (nat_from_slice : list Z → option NatTunnelControlMessage) (nat_to_vec : NatTunnelControlMessage → list Z).

Abbreviation ok m := (handled m (fun _ => True)).
#[local] Opaque handled.
Ltac quiet := intros ? ?; cbn; split_and!; [done|done|set_solver|done].
(** Runs through the steps that do nothing the policy is about. *)
Ltac routine :=
  repeat first
    [ done
    | apply handled_send
    | apply handled_ret
    | apply handled_bind
    | apply handled_quiet; [quiet|intros ?]
    | match goal with |- handled (match ?x with _ => _ end) _ => destruct x end ].

Lemma handled_acquire (Q : result rstr Z → Prop) : (∀ r, Q r) → handled (acquire MAX_TERMINAL_SESSIONS) Q.
Proof.
  intros HQ. apply handled_change. intros e s Hs. destruct (MAX_TERMINAL_SESSIONS <=? _) eqn:Em; cbn; [split; [apply lawful_refl|done]|].
  split; [|done]. split_and!; [done|done|exists []; by rewrite app_nil_r| |by right]. intros _. apply Z.leb_gt in Em. cbn.
  rewrite size_union_alt, size_singleton. assert (size (slots s ∖ {[handle e]}) <= size (slots s))%nat by (apply subseteq_size; set_solver). lia.
Qed.
Lemma ok_close_terminal h (Q : unit → Prop) : Q () → handled (close_terminal h) Q.
Proof. intros HQ. apply handled_quiet; [quiet|by intros []]. Qed.
Lemma ok_close_terminal_session agent stream reason sequence : ok (close_terminal_session terminal_to_vec agent stream reason sequence).
Proof. apply handled_bind, handled_quiet; [quiet|]. intros [h|]; [apply handled_bind, ok_close_terminal|]; routine. Qed.
Lemma ok_close_nat_session agent stream reason sequence echo (Q : unit → Prop) : Q () → handled (close_nat_session agent stream reason sequence echo) Q.
Proof. intros HQ. apply handled_bind, handled_quiet; [quiet|]. intros []. destruct echo; routine. Qed.

Lemma dims_bounds cols rows cols' rows' : clamp_terminal_dimensions cols rows = (cols', rows') → 1 <= cols' <= 500 ∧ 1 <= rows' <= 500.
Proof. intros [= <- <-]. split; by apply clamp_bounds. Qed.

Lemma ok_new_terminal agent stream sequence message : ok (handle_new_terminal_session agent stream sequence message).
Proof.
  destruct message as [cols rows| | | | |]; try by (cbn; routine). apply handled_bind, handled_config. intros c Hc.
  destruct (disable_command_execute c) eqn:Ed; [routine|]. apply handled_bind. unfold terminal_new.
  assert (∀ r, ok (match r with
    | Ok h => change (fun _ s => ((), with_terminals (<[stream := h]> (terminal_sessions s)) (slots s) s))
    | Err e => send (io_error_frame stream agent sequence (lit "terminal_open_failed") e) end)) as Hrest  by (intros []; routine).
  destruct (validate_session_id stream) as [|e]; [|apply handled_ret, (Hrest (Err e))].
  destruct (clamp_terminal_dimensions cols rows) as [cols' rows'] eqn:Ec. apply dims_bounds in Ec.
  apply handled_bind, handled_acquire. intros [h|e]; [|apply handled_ret, (Hrest (Err e))]. apply handled_change. intros e s _.
  destruct (open_pty e) as [err|]; (split; [|first [apply (Hrest (Err err))|apply (Hrest (Ok h))]]); [apply lawful_quiet; cbn; [done|done|set_solver|by right]|].
  apply lawful_emitted. by exists c.
Qed.

Lemma ok_terminal_message agent stream sequence h payload :
  ok (handle_terminal_message terminal_from_slice terminal_to_vec agent stream sequence h payload).
Proof.
  apply handled_bind, handled_config. intros c Hc. destruct (disable_command_execute c) eqn:Ed.
  { apply handled_bind, handled_quiet; [quiet|]. intros x. apply handled_bind, ok_close_terminal. routine. }
  destruct (terminal_from_slice payload) as [[]|]; [routine| | |apply ok_close_terminal_session|routine..].
  - apply handled_bind, handled_change. intros e s _. split; [|destruct (_ : result rstr unit); routine].
    destruct (negb _); [apply lawful_refl|]. destruct (_ <? _) eqn:El; [apply lawful_refl|]. destruct (is_empty _); [apply lawful_refl|].
    destruct (terminal_error e); [apply lawful_refl|]. apply lawful_emitted. exists c. split; [done|]. split; [done|lia].
  - apply handled_bind, handled_change. intros e s _. split; [|destruct (_ : result rstr unit); routine].
    destruct (negb _); [apply lawful_refl|]. destruct (clamp_terminal_dimensions cols rows) as [cols' rows'] eqn:Ec. apply dims_bounds in Ec.
    destruct (terminal_error e); [apply lawful_refl|]. apply lawful_emitted. by exists c.
Qed.

Lemma ok_output_loop n agent stream sequence : ok (terminal_output_loop terminal_to_vec from_utf8_lossy n agent stream sequence).
Proof.
  revert sequence. induction n as [|n IH]; intros sequence; cbn [terminal_output_loop]; [routine|].
  apply handled_bind, handled_look. intros e s _. destruct (socket e); [routine| |routine]. apply handled_bind, handled_send. apply IH.
Qed.
Lemma ok_nat_reader n agent stream sequence : ok (nat_reader n agent stream sequence).
Proof.
  revert sequence. induction n as [|n IH]; intros sequence; cbn [nat_reader]; [routine|].
  apply handled_bind, handled_look. intros e s _. destruct (socket e); [routine| |routine]. apply handled_bind, handled_send. apply IH.
Qed.

Lemma ok_connect c addrs last (Q : result rstr Z → Prop) : good c → disable_nat c = false →
  Forall (fun a => agent_private_nat_targets_allowed vars = true ∨ is_loopback (Security.sa_ip a) = true) addrs → (∀ r, Q r) →
  handled (connect_agent_nat_addrs addrs last) Q.
Proof.
  intros Hc Hd Ha HQ. revert last. induction Ha as [|a addrs Ha _ IH]; intros last; cbn [connect_agent_nat_addrs]; [apply handled_ret, HQ|].
  apply handled_bind, handled_change. intros e s _. destruct (connect e a); cbn [fst snd]; (split; [|routine; apply IH || apply HQ]).
  - apply lawful_refl.
  - apply lawful_emitted. by exists c.
Qed.
Lemma ok_nat_control agent stream sequence message : ok (handle_nat_control_message nat_to_vec vars agent stream sequence message).
Proof.
  apply handled_bind, handled_config. intros c Hc. destruct (disable_nat c) eqn:Ed; [unfold nat_disabled; routine|].
  destruct message as [host port|]; [|routine]. apply handled_bind, handled_look. intros e s _. apply handled_bind.
  destruct (resolve_agent_nat_target _ _ _ _) as [addrs|] eqn:Er; [|routine].
  eapply ok_connect; [done..| |intros []; routine].
  apply resolve_with_Ok in Er as [_ Hall]. eapply Forall_impl; [done|]. intros a. apply nat_ip_Ok.
Qed.

Lemma ok_io_frame agent frame : ok (handle_io_frame terminal_from_slice terminal_to_vec nat_from_slice nat_to_vec vars agent frame).
Proof.
  unfold handle_io_frame. destruct (IoStreams.payload frame) as [[data|reason|]|]; [| |routine..].
  - apply handled_bind, handled_look. intros e s _. destruct (terminal_sessions s !! _); [apply ok_terminal_message|].
    apply handled_bind, handled_look. intros e' s' _. destruct (nat_sessions s' !! _).
    + apply handled_bind, handled_config. intros c Hc. destruct (disable_nat c) eqn:Ed.
      { apply handled_bind, ok_close_nat_session. unfold nat_disabled. routine. }
      apply handled_bind, handled_change. intros e2 s2 _. destruct (writer_closed e2); cbn [fst snd].
      * split; [apply lawful_refl|by apply ok_close_nat_session].
      * split; [apply lawful_emitted; by exists c|routine].
    + destruct (terminal_from_slice data); [apply ok_new_terminal|]. destruct (nat_from_slice data); [apply ok_nat_control|routine].
  - apply handled_bind, handled_look. intros e s _. destruct (bool_decide _); [apply ok_close_terminal_session|].
    apply handled_bind, handled_look. intros e' s' _. destruct (bool_decide _); [by apply ok_close_nat_session|routine].
Qed.
Lemma ok_cleanup : ok cleanup_agent_io_sessions.
Proof.
  apply handled_bind, handled_quiet; [quiet|]. intros hs. apply handled_bind. induction hs as [|h hs IH]; cbn [close_all foldr]; [routine|].
  apply handled_bind, ok_close_terminal. apply IH.
Qed.

(** ** Tasks *)

Context (json_to_string : json → rstr) (headers_ok : list (rstr * rstr) → result rstr unit).
Context (entries_json : list AgentFiles.FileEntry → rstr) (error_text : AgentFiles.FileError → rstr) (fds : nat).

Lemma probe_addrs host port purpose lookup addrs : resolve_agent_probe_host lookup vars host port purpose = Ok addrs →
  addrs ≠ [] ∧ Forall (fun a => probe_addr (Security.sa_ip a)) addrs.
Proof. intros [Hne Hall]%resolve_with_Ok. split; [done|]. eapply Forall_impl; [done|]. intros a. apply probe_ip_Ok. Qed.

Section probes.
Context (c : AgentConfig) (Hc : good c) (Hd : disable_send_query c = false).
(** A probe that sends what the configuration permits, if it sends at all. *)
Lemma ok_probe {A} (f : Env → A) x : permitted c x → ok (change (fun e s => (f e, emitted x s))).
Proof. intros Hx. apply handled_change. intros e s _. split; [|done]. apply lawful_emitted. by exists c. Qed.

Lemma ok_http spec : ok (run_http_probe_task url_parse json_to_string headers_ok vars spec).
Proof.
  apply handled_bind, handled_look. intros e s _. destruct (validate_agent_probe_url_resolved _ _ _ _ _) as [v|] eqn:Ev; [|routine].
  destruct (headers_ok _); [|routine]. apply ok_probe. split; [done|]. split; [apply task_timeout_bounds|].
  apply bind_Ok in Ev as (u & _ & Ev). destruct (negb _); [done|]. destruct (_ || _); [done|].
  apply bind_Ok in Ev as (host & _ & (port & _ & (addrs & Ha & [= <-])%bind_Ok)%bind_Ok). by apply (probe_addrs host port _ _ addrs) in Ha as [_ Ha].
Qed.
Lemma ok_tcp spec : ok (run_tcp_probe_task json_to_string vars spec).
Proof.
  unfold run_tcp_probe_task. destruct (agent_probe_port _ _) as [port|]; [|routine]. apply handled_bind, handled_look. intros e s _.
  destruct (resolve_agent_probe_host _ _ _ _ _) as [addrs|] eqn:Er; [|routine]. apply ok_probe. split; [done|]. split; [apply task_timeout_bounds|].
  by apply probe_addrs in Er as [_ Ha].
Qed.
Lemma ok_icmp spec : ok (run_icmp_probe_task json_to_string from_utf8_lossy vars spec).
Proof.
  apply handled_bind, handled_look. intros e s _. destruct (mbind _ _) as [target|] eqn:Er; [|routine]. apply ok_probe.
  apply bind_Ok in Er as (addrs & [Hne Ha]%probe_addrs & Ht). destruct addrs as [|a addrs]; [done|]. injection Ht as <-.
  split; [done|]. split; [by apply clamp_bounds|]. split; [apply task_timeout_bounds|]. eexists. split; [done|]. by apply Forall_cons in Ha as [Ha _].
Qed.
Lemma ok_run_probe probe : ok probe → ok (run_probe c probe).
Proof. intros Hp. unfold run_probe. rewrite Hd. apply handled_bind. eapply handled_mono, Hp. intros r _. routine. Qed.
End probes.

Lemma shell_output_nonneg v : 0 <= v → 0 <= shell_task_output_max_bytes v.
Proof. unfold shell_task_output_max_bytes, AGENT_SHELL_DEFAULT_OUTPUT_MAX_BYTES, AGENT_SHELL_OUTPUT_MAX_BYTES. destruct (v =? 0); lia. Qed.
Lemma ok_shell c shell : good c → 0 <= sh_max_output shell → ok (run_shell from_utf8_lossy inherited c shell).
Proof.
  intros Hc Hm. unfold run_shell. destruct (disable_command_execute c) eqn:Ed; [routine|]. apply handled_bind, handled_change. intros e s _.
  split; [|routine]. destruct (shell_command _ _ _ _ _ _ _) as [cmd|] eqn:Ec; [|apply lawful_refl].
  apply shell_command_clean in Ec; [|by apply shell_output_nonneg].
  destruct (child e); try apply lawful_refl; apply lawful_emitted; by exists c.
Qed.
Lemma ok_files c spec : writes → ok (run_files from_utf8_lossy entries_json error_text fds c spec).
Proof. intros Hw. apply handled_bind, handled_files; [done|]. routine. Qed.

(** The numbers of a task are unsigned. *)
Definition task_ok (t : ServerTask) : Prop := match spec t with Some (ShellCommand shell) => 0 <= sh_max_output shell | _ => True end.
Definition file_task (t : ServerTask) : option AgentFiles.FileSpec := match spec t with Some (Files f) => Some f | _ => None end.
Lemma ok_server_task task : task_ok task → (is_Some (file_task task) → writes) →
  ok (run_server_task url_parse json_to_string from_utf8_lossy headers_ok vars inherited entries_json error_text fds task).
Proof.
  intros Ht Hw. unfold task_ok, file_task in Ht, Hw. apply handled_bind, handled_look. intros e s _. apply handled_bind, handled_look. intros e' s' _.
  apply handled_bind, handled_config. intros c Hc. apply handled_bind.
  cut (ok (run_spec url_parse json_to_string from_utf8_lossy headers_ok vars inherited entries_json error_text fds c (spec task))).
  { intros Hs. eapply handled_mono, Hs. intros out _. apply handled_bind, handled_look. routine. }
  assert (∀ probe, (disable_send_query c = false → ok probe) → ok (run_probe c probe)) as Hp.
  { intros probe Hp. destruct (disable_send_query c) eqn:Ed; [unfold run_probe; rewrite Ed; routine|]. apply ok_run_probe; auto. }
  destruct (spec task) as [[]|]; cbn [run_spec]; [by apply ok_shell|..|apply ok_files, Hw; by eexists|routine|routine]; apply Hp; intros Hd;
    [by apply (ok_http c)|by apply (ok_tcp c)|by apply (ok_icmp c)].
Qed.

(** ** Configuration and updates *)

Context (home : list (list Z * Z)) (config_name : list Z) (tag : AgentFiles.Env → rstr) (pid : Z).
Context (to_string_pretty : AgentConfig → option rstr) (from_str : rstr → option AgentConfig) (config_path : AgentPolicy.Path_).
Context (json_from_slice : list Z → option json) (request_json : AgentPolicy.ForceUpdate → Z → option (list Z)).

Lemma ok_apply config_yaml : writes →
  ok (apply_remote_config url_parse url_to_string home config_name tag pid to_string_pretty from_str config_path json_from_slice config_yaml).
Proof.
  intros Hw. unfold apply_remote_config. destruct (AgentPolicy.read_patch _ _) as [object|]; [|routine]. apply handled_change. intros e s Hs.
  split; [|done]. pose proof (run_to_end_returns (disk e) (others e) (AgentPolicy.update_config url_parse url_to_string home config_name tag pid
    to_string_pretty from_str config_path object (memory s)) (files s)) as [h Hr].
  destruct (run_to_end _ _ _ _) as [[c|err] f]; [|apply lawful_quiet; auto]. cbn [fst snd] in *.
  apply update_config_tightens in Hr as (Ht & Hok & _). split_and!; [done|done| |done|by left]. exists []. by rewrite app_nil_r.
Qed.

Lemma ok_record update : writes →
  ok (record_force_update_request url_parse url_to_string home config_name tag pid from_str request_json update).
Proof.
  intros Hw. apply handled_bind, handled_config. intros c Hc. destruct (disable_force_update c) eqn:Ed; [routine|].
  apply handled_bind, handled_files; [done|]. intros h [[]|err] Hr; [|routine]. apply handled_bind, handled_emit; [|routine].
  exists c. split; [done|]. split; [done|]. apply returns_try in Hr as ([] & ? & ? & -> & _ & Hr).
  apply returns_try in Hr as (u & ? & ? & -> & Hv%returns_result & _). by rewrite Hv.
Qed.

Definition touches_files (message : ServerMessage) : Prop :=
  match message with ConfigUpdate _ | ForceUpdate _ => True | Task task => is_Some (file_task task) | _ => False end.
Lemma ok_message message : (∀ task, message = Task task → task_ok task) → (touches_files message → writes) →
  ok (handle_message url_parse json_to_string from_utf8_lossy headers_ok vars inherited entries_json error_text fds url_to_string home config_name
        tag pid to_string_pretty from_str config_path json_from_slice request_json message).
Proof.
  intros Ht Hw. destruct message as [|yaml|update|task|]; cbn [handle_message touches_files] in *; [routine| | | |routine].
  - apply handled_bind. eapply handled_mono, ok_apply; [routine|auto].
  - apply handled_bind, handled_config. intros c Hc. destruct (disable_force_update c); [routine|].
    apply handled_bind. eapply handled_mono, ok_record; [routine|auto].
  - apply handled_bind. eapply handled_mono, ok_server_task; [routine|by apply Ht|done].
Qed.
End policy.

(** ** Whole sessions *)

(** What is fixed while an Agent runs: its libraries, its environment variables
    and where its configuration is. *)
Record Host := {
  h_from_utf8_lossy : list Z → rstr; h_vars : Security.Env; h_inherited : gmap (list Z) (list Z);
  h_url_parse : rstr → option Security.Url; h_url_to_string : Security.Url → rstr;
  h_terminal_from_slice : list Z → option TerminalBridgeMessage; h_terminal_to_vec : TerminalBridgeMessage → list Z;
  h_nat_from_slice : list Z → option NatTunnelControlMessage; h_nat_to_vec : NatTunnelControlMessage → list Z;
  h_json_to_string : json → rstr; h_headers_ok : list (rstr * rstr) → result rstr unit;
  h_entries_json : list AgentFiles.FileEntry → rstr; h_error_text : AgentFiles.FileError → rstr; h_fds : nat;
  h_home : list (list Z * Z); h_config_name : list Z; h_tag : AgentFiles.Env → rstr; h_pid : Z;
  h_to_string_pretty : AgentConfig → option rstr; h_from_str : rstr → option AgentConfig; h_config_path : AgentPolicy.Path_;
  h_json_from_slice : list Z → option json; h_request_json : AgentPolicy.ForceUpdate → Z → option (list Z);
}.

Section sessions.
Context (host : Host).

(** What runs in a session: the handler of a message or a frame, a loop that
    forwards output, and the end of a session. *)
Inductive Event : Type :=
| OnMessage (message : ServerMessage)
| OnFrame (agent : rstr) (frame : IoFrame)
| OutputLoop (n : nat) (agent stream : rstr) (sequence : Z)
| NatLoop (n : nat) (agent stream : rstr) (sequence : Z)
| EndOfSession.
Definition event_ok (x : Event) : Prop := match x with OnMessage (Task task) => task_ok task | _ => True end.
Definition handler (x : Event) : Prog unit :=
  match x with
  | OnMessage message => let! _ := handle_message (h_url_parse host) (h_json_to_string host) (h_from_utf8_lossy host) (h_headers_ok host)
      (h_vars host) (h_inherited host) (h_entries_json host) (h_error_text host) (h_fds host) (h_url_to_string host) (h_home host) (h_config_name host)
      (h_tag host) (h_pid host) (h_to_string_pretty host) (h_from_str host) (h_config_path host) (h_json_from_slice host) (h_request_json host) message
      in Ret ()
  | OnFrame agent frame => handle_io_frame (h_terminal_from_slice host) (h_terminal_to_vec host) (h_nat_from_slice host) (h_nat_to_vec host)
      (h_vars host) agent frame
  | OutputLoop n agent stream sequence => terminal_output_loop (h_terminal_to_vec host) (h_from_utf8_lossy host) n agent stream sequence
  | NatLoop n agent stream sequence => nat_reader n agent stream sequence
  | EndOfSession => cleanup_agent_io_sessions
  end.
Definition program (m : Prog unit) : Prop := ∃ x, event_ok x ∧ m = handler x.
Abbreviation session_step := (pool_step program (fun _ _ => True)).
Abbreviation host_permitted := (permitted (h_from_utf8_lossy host) (h_vars host) (h_inherited host) (h_url_parse host) (h_url_to_string host)).

(** The events whose handlers write files. *)
Definition touches (x : Event) : Prop := match x with OnMessage message => touches_files message | _ => False end.
Abbreviation host_lawful := (lawful (h_from_utf8_lossy host) (h_vars host) (h_inherited host) (h_url_parse host) (h_url_to_string host)).
Lemma handler_ok good writes x : event_ok x → (touches x → writes) →
  handled (h_from_utf8_lossy host) (h_vars host) (h_inherited host) (h_url_parse host) (h_url_to_string host) good writes (handler x) (fun _ => True).
Proof.
  destruct x as [message|agent frame|n agent stream sequence|n agent stream sequence|]; intros Hx Hw; cbn [handler].
  - apply handled_bind. eapply handled_mono, ok_message; [done| |done]. by intros task ->.
  - apply ok_io_frame.
  - apply ok_output_loop.
  - apply ok_nat_reader.
  - apply ok_cleanup.
Qed.

(** From any state, over any interleaving of handlers. *)
Definition session_inv (s s' : Local) : Prop := tightens (memory s) (memory s') ∧ (config_ok (memory s) → config_ok (memory s')).
Lemma session_inv_step s t t' : session_inv s t → host_lawful (fun _ => True) True t t' → session_inv s t'.
Proof. intros [Ht Ho] ([Ht' Ho'] & _). split; [by trans (memory t)|auto]. Qed.

Abbreviation in_order s := (accounted (Env := Env) (S := Local) (R := unit) (Perm := unit) (fun _ _ => True) (fun _ _ => True)
  (fun _ _ t t' _ => host_lawful (fun _ => True) True t t') (fun t _ => session_inv s t) (fun _ _ => True)).

Lemma in_order_step s p p' : in_order s p → session_step p p' → in_order s p' ∧ tightens (memory (state p)) (memory (state p')).
Proof.
  intros Hp Hs. split.
  - eapply accounted_step; [| | | |done|done].
    + done.
    + intros e t t' πs i π π' HI _ _ Ha. by eapply session_inv_step.
    + done.
    + intros m (x & Hx & ->). by apply (handler_ok (fun _ => True) True x Hx).
  - destruct (accounted_acts _ _ _ _ _ _ (fun t πs i π (HI : session_inv s t) _ => I) _ _ Hp Hs) as [->|(π & e & π' & Ha)]; [done|apply Ha].
Qed.
Lemma in_order_steps s p p' : in_order s p → rtc session_step p p' → in_order s p' ∧ tightens (memory (state p)) (memory (state p')).
Proof.
  intros Hp Hs. induction Hs as [p|p q p' Hpq _ IH]; [done|]. destruct (in_order_step _ _ _ Hp Hpq) as [Hq Ht].
  destruct (IH Hq) as [Hp' Ht']. split; [done|]. by trans (memory (state q)).
Qed.
Lemma in_order_start s : in_order s {| state := s; threads := [] |}.
Proof. exists []. split; [|constructor]. split; done. Qed.
Lemma session_reachable s p : rtc session_step {| state := s; threads := [] |} p → session_inv s (state p).
Proof. intros Hp. by apply (in_order_steps s) in Hp as [(πs & HI & _) _]; [|apply in_order_start]. Qed.


(** Remote updates keep the configuration of an Agent well formed: report
    intervals between one second and a day, every allowed root an absolute path
    without relative parts that is not the root of the file system, client
    certificate and key only together, TLS settings only with an https server. *)
Theorem agent_config_wf s p :
  rtc session_step {| state := s; threads := [] |} p → config_ok (memory s) → config_ok (memory (state p)).
Proof. intros [_ Hok]%session_reachable. done. Qed.

(** *** Steps of one handler *)

Definition in_force (h : list (Env * Local)) (c : AgentConfig) : Prop := once h (fun _ t => memory t = c).

Lemma handler_makes x h e s s' : event_ok x → makes (handler x) h e s s' → host_lawful (in_force (h ++ [(e, s)])) (touches x) s s'.
Proof.
  intros Hx Hm. destruct (wp_makes _ _ _ _ _ _ _ _ _ _ (handler_ok (in_force (h ++ [(e, s)])) (touches x) x Hx (fun Ht => Ht)) Hm)
    as (_ & _ & Hl); [|exact Hl].
  intros e0 s0 Hin. split; [done|]. intros _. by exists e0, s0.
Qed.
(** What the file system saw of a run. *)
Definition on_disk (x : Env * Local) : AgentFiles.Env * Fs := (disk x.1 0%nat, files x.2).
Lemma makes_on_files {A} (m : Proc AgentFiles.Env Fs A) h e s s' :
  makes (on_files m) h e s s' → makes m (on_disk <$> h) (disk e 0%nat) (files s) (files s').
Proof.
  revert h. induction m as [a|f n IH]; intros h; cbn [on_files]; inversion 1 as [|? ? e0 s0 h' ? ? ? Hm]; subst; cbn; [constructor|].
  apply (makes_later f n (disk e0 0%nat) (files s0)). by apply IH.
Qed.
Lemma makes_look {A} (f : Env → Local → A) h e s s' : makes (look f) h e s s' → s' = s.
Proof. inversion 1 as [|? ? ? ? ? ? ? ? Hm]; [done|]. inversion Hm. Qed.
Lemma makes_ret {A} (a : A) h e s s' : ¬ makes (Ret a : Prog A) h e s s'.
Proof. inversion 1. Qed.
Lemma returns_config h c : returns read_config h c → in_force h c.
Proof.
  inversion 1 as [|? ? e s h' a Hr]; subst. inversion Hr; subst. exists e, s. split; [by apply list_elem_of_singleton|done].
Qed.
(** A program that looks, then goes on. *)
Lemma makes_after_look {A B} (f : Env → Local → A) (k : A → Prog B) h e s s' : files s' ≠ files s →
  makes (let! x := look f in k x) h e s s' → ∃ a h1 h2, h = h1 ++ h2 ∧ returns (look f) h1 a ∧ makes (k a) h2 e s s'.
Proof. intros Hf [Hm|Hm]%makes_bind; [|exact Hm]. apply makes_look in Hm. congruence. Qed.
(** A program whose result is only passed on. *)
Lemma makes_before_ret {A B} (m : Prog A) (g : A → B) h e s s' : makes (let! x := m in Ret (g x)) h e s s' → makes m h e s s'.
Proof. intros [Hm|(a & h1 & h2 & _ & _ & Hm)]%makes_bind; [done|]. by apply makes_ret in Hm. Qed.

Abbreviation host_file_task := (AgentFiles.run_file_task (h_from_utf8_lossy host) (h_entries_json host) (h_error_text host) (h_fds host)).
Lemma file_task_makes task f h e s s' : file_task task = Some f → files s' ≠ files s → makes (handler (OnMessage (Task task))) h e s s' →
  ∃ c h1 h2, h = h1 ++ h2 ∧ in_force h1 c ∧ makes (host_file_task c f) (on_disk <$> h2) (disk e 0%nat) (files s) (files s').
Proof.
  unfold file_task. destruct (spec task) as [[]|] eqn:Es; try done. intros [= ->] Hf Hm.
  apply makes_before_ret, makes_before_ret in Hm. unfold run_server_task in Hm.
  apply makes_after_look in Hm as (? & h1 & r1 & -> & _ & Hm); [|done]. apply makes_after_look in Hm as (? & h2 & r2 & -> & _ & Hm); [|done].
  apply makes_after_look in Hm as (c & h3 & r3 & -> & Hc & Hm); [|done]. apply returns_config in Hc.
  apply makes_bind in Hm as [Hm|(out & h4 & r4 & -> & _ & Hm)].
  - rewrite Es in Hm. apply makes_before_ret, makes_on_files in Hm. exists c, (h1 ++ h2 ++ h3), r3. split; [by rewrite <-!app_assoc|]. split; [|done].
    destruct Hc as (e0 & s0 & Hin & Hc). exists e0, s0. split; [set_solver|done].
  - apply makes_before_ret, makes_look in Hm. congruence.
Qed.
Lemma force_update_makes update h e s s' : files s' ≠ files s → makes (handler (OnMessage (ForceUpdate update))) h e s s' →
  ∃ c, in_force h c ∧ disable_force_update c = false.
Proof.
  intros Hf Hm. apply makes_before_ret in Hm. cbn [handle_message] in Hm. apply makes_after_look in Hm as (c & h1 & h2 & -> & Hc%returns_config & Hm); [|done].
  exists c. split; [by apply once_app|]. destruct (disable_force_update c); [by apply makes_ret in Hm|done].
Qed.

Definition confined_to (c : AgentConfig) (f : AgentFiles.FileSpec) (h : list (AgentFiles.Env * Fs)) (t t' : Fs) : Prop := ∃ loc mk,
  AgentFilesProofs.effect h t t' loc mk ∧
  match f with
  | AgentFiles.FileWrite _ _ _ _ => AgentFilesProofs.allowed (file_allowed_roots c) h loc mk
  | AgentFiles.FileDelete _ _ => AgentFilesProofs.below (file_allowed_roots c) h loc mk
  | _ => False
  end.
(** Who may change files: a file task, inside the roots of a configuration it read, a
    forced update, and a change of the configuration itself. *)
Definition file_change (x : Event) (h : list (Env * Local)) (t t' : Fs) : Prop :=
  match x with
  | OnMessage (Task task) => ∃ f c h1 h2,
      file_task task = Some f ∧ h = h1 ++ h2 ∧ in_force h1 c ∧ disable_command_execute c = false ∧ confined_to c f (on_disk <$> h2) t t'
  | OnMessage (ForceUpdate _) => ∃ c, in_force h c ∧ disable_force_update c = false
  | OnMessage (ConfigUpdate _) => True
  | _ => False
  end.
Lemma handler_files x h e s s' : event_ok x → makes (handler x) h e s s' → files s' ≠ files s → file_change x h (files s) (files s').
Proof.
  intros Hx Hm Hf. destruct (handler_makes _ _ _ _ _ Hx Hm) as (_ & _ & _ & [Ht|?]); [|done].
  destruct x as [[]| | | |]; try done; cbn [touches touches_files file_change] in *.
  - by eapply force_update_makes.
  - destruct Ht as [f Ef]. destruct (file_task_makes _ _ _ _ _ _ Ef Hf Hm) as (c & h1 & h2 & -> & Hc & Hm').
    apply AgentFilesProofs.file_task_steps in Hm' as [Hd Hconf]; [|done]. by exists f, c, h1, h2.
Qed.

(** C3: An Agent does to the outside only what its policy permits. Take any step of
    the handler of any message or frame, whatever other handlers did to the state of
    the Agent between its steps. Each thing the step does was permitted by a
    configuration that was in force at some moment while this very handler ran:
    commands and terminals only where command execution is enabled, a command without
    the Agent's secrets and without variables that load code into the shell; probes
    only where queries are enabled, and to addresses that are not private unless the
    host allows it; tunnels only where NAT is enabled, and to loopback unless the host
    allows more; updates only where they are enabled and for a checked version, URL and
    checksum. Files change only in a change of the configuration, in an update, where
    enabled, and in a file task, where command execution is enabled and inside what the
    roots of the configuration it read stand for. There are never more than 16
    terminals. *)
Theorem agent_policy_enforced x h e s s' :
  event_ok x → makes (handler x) h e s s' →
  (∃ new, log s' = log s ++ new ∧ Forall (fun y => ∃ c, in_force (h ++ [(e, s)]) c ∧ host_permitted c y) new)
  ∧ (files s' ≠ files s → file_change x h (files s) (files s'))
  ∧ (Z.of_nat (size (slots s)) <= MAX_TERMINAL_SESSIONS → Z.of_nat (size (slots s')) <= MAX_TERMINAL_SESSIONS).
Proof.
  intros Hx Hm. destruct (handler_makes _ _ _ _ _ Hx Hm) as (_ & Hl & Hs & _). split_and!; [exact Hl|by eapply handler_files|done].
Qed.
End sessions.
End AgentSessionProofs.
