(* ===== verification/AgentUpdateProofs.v ===== *)
(** * AgentUpdateProofs: a forced update from the server to the Agent

    Both sides check a forced update. What the server sends when it insists on the
    project's own releases passes the checks of the Agent unchanged. *)

From S2P Require Import Prelude Text BTreeMap Json Externals Net Security Interleave Base64 Rfc3339 Tables Sessions Users Accounts Auth AuthProofs.
From S2P Require Import Transfers ServerOps AgentConfig AgentFiles AgentGuards AgentPolicy.

Module AgentUpdateProofs.
Import AgentPolicy.

Lemma version_byte_ascii b : ServerOps.version_byte b = true → b < 128 ∧ b ≠ 47 ∧ b ≠ 92 ∧ is_whitespace b = false.
Proof.
  unfold ServerOps.version_byte, is_ascii_alphanumeric, is_ascii_digit, is_ascii_upper, is_ascii_lower. intros [Hb|Hb]%orb_true_iff.
  - unfold is_whitespace. repeat (apply orb_true_iff in Hb as [Hb|Hb]); split_and!; try lia.
  - apply contains_spec in Hb. repeat (apply elem_of_cons in Hb as [->|Hb]; [done|]). by apply elem_of_nil in Hb.
Qed.

(** The characters of a text all of whose bytes pass a test of ASCII bytes. *)
Lemma ascii_chars (f : Z → bool) s : (∀ b, f b = true → b < 128) → forallb f (str_bytes s) = true →
  str_bytes s = s ∧ Forall (fun c => f c = true) s.
Proof.
  intros Hf Hs. assert (Forall (fun b => f b = true) (str_bytes s)) as Hb.
  { apply Forall_forall. intros b. by apply forallb_In. }
  assert (str_bytes s = s) as Heq by (apply AuthProofs.str_bytes_ascii; eapply Forall_impl; [exact Hb|apply Hf]).
  split; [done|]. by rewrite Heq in Hb.
Qed.
Lemma version_chars s : forallb ServerOps.version_byte (str_bytes s) = true → str_bytes s = s ∧ Forall (fun c => ServerOps.version_byte c = true) s.
Proof. apply ascii_chars. intros b Hb. apply (version_byte_ascii b Hb). Qed.

(** ** Version and checksum *)

Section update.
Context {E : Type}.

Lemma version_accepted raw v : ServerOps.validate_force_update_version (E := E) raw = Ok v →
  validate_force_update_version v = Ok v ∧ Forall (fun c => ServerOps.version_byte c = true) v
  ∧ ∃ c rest, v = c :: rest ∧ is_ascii_alphanumeric c = true.
Proof.
  unfold ServerOps.validate_force_update_version. destruct (is_empty (trim raw)) eqn:Ee; [done|]. case_bool_decide as El; [done|].
  destruct (_ || negb (forallb _ _)) eqn:Eg; [done|]. intros [= <-]. apply orb_false_iff in Eg as [Eg Ev%negb_false_iff].
  apply orb_false_iff in Eg as [[Elen Ef]%orb_false_iff _]. destruct (version_chars _ Ev) as [Hb Hv]. split_and!; [|done|].
  - unfold validate_force_update_version. assert (trim (trim raw) = trim raw) as -> by apply trim_by_idemp.
    rewrite Ee, bool_decide_eq_false_2 by done. unfold FORCE_UPDATE_MAX_VERSION_BYTES. rewrite Elen. cbn [orb].
    change version_byte with ServerOps.version_byte. by rewrite Ev.
  - rewrite Hb in Ef. destruct (trim raw) as [|c rest]; [done|]. exists c, rest. split; [done|]. by apply negb_false_iff in Ef.
Qed.

Lemma hex_char c : Auth.is_ascii_hexdigit c = true → c < 128 ∧ c ≠ 115 ∧ is_whitespace c = false.
Proof.
  unfold Auth.is_ascii_hexdigit, is_ascii_digit, is_whitespace. intros Hc.
  repeat (apply orb_true_iff in Hc as [Hc|Hc]); split_and!; lia.
Qed.
Lemma lowercase_idemp s : to_ascii_lowercase (to_ascii_lowercase s) = to_ascii_lowercase s.
Proof.
  unfold to_ascii_lowercase. rewrite <-list_fmap_compose. apply list_fmap_ext. intros i c _. cbn. unfold ascii_lower, is_ascii_upper.
  destruct ((65 <=? c) && (c <=? 90)) eqn:Ec; [|by rewrite Ec]. destruct ((65 <=? c + 32) && _) eqn:Ed; [lia|done].
Qed.

Lemma checksum_accepted raw c : ServerOps.validate_force_update_checksum (E := E) raw = Ok c → validate_force_update_checksum c = Ok c.
Proof.
  unfold ServerOps.validate_force_update_checksum. destruct (match raw with Some c => _ | None => None end) as [r|]; [|done].
  set (n := to_ascii_lowercase _). destruct (_ || _) eqn:Eg; [done|]. intros [= <-].
  apply orb_false_iff in Eg as [El Eh%negb_false_iff]. destruct (ascii_chars _ n (fun b Hb => proj1 (hex_char b Hb)) Eh) as [_ Hh].
  assert (trim n = n) as Ht by (apply trim_by_none; eapply Forall_impl; [exact Hh|]; intros b Hb; by apply hex_char).
  unfold validate_force_update_checksum. rewrite Ht. assert (Auth.strip_prefix (lit "sha256:") n = None) as ->.
  { unfold Auth.strip_prefix, starts_with. case_bool_decide as Hp; [|done]. destruct Hp as [k Hk]. rewrite Hk in Hh.
    apply Forall_cons in Hh as [Hs _]. apply hex_char in Hs as (_ & Hne & _). by destruct Hne. }
  cbn [default]. rewrite El, Eh. cbn. unfold n. by rewrite lowercase_idemp.
Qed.

(** ** The download URL *)

Lemma segment_ok c rest : c ≠ 46 → contains (c :: rest) [lit "."; lit ".."] = false.
Proof.
  intros Hc. apply contains_false. intros Hin. repeat (apply elem_of_cons in Hin as [[= Heq _]|Hin]; [by destruct Hc|]). by apply elem_of_nil in Hin.
Qed.
Lemma alnum_not_dot c : is_ascii_alphanumeric c = true → c ≠ 46.
Proof. by intros Hc ->. Qed.
Lemma version_no_sep v : Forall (fun c => ServerOps.version_byte c = true) v → Forall (fun c => (47 =? c) = false) v.
Proof. intros Hv. eapply Forall_impl; [exact Hv|]. intros c Hc. apply version_byte_ascii in Hc. lia. Qed.

(** The parts of the path of a release: none is relative, the last is a file. *)
Definition release_path (v filename : rstr) : rstr := ServerOps.FORCE_UPDATE_REPO_PATH_PREFIX ++ v ++ lit "/" ++ filename.
Lemma release_segments v filename :
  Forall (fun c => ServerOps.version_byte c = true) v → Forall (fun c => ServerOps.version_byte c = true) filename →
  split_by (Z.eqb 47) (release_path v filename) = (lit <$> [""; "lbyxiaolizi"; "XLStatus"; "releases"; "download"]%string) ++ [v; filename].
Proof.
  intros Hv%version_no_sep Hf%version_no_sep. rewrite <-(split_by_join_pred (Z.eqb 47) 47 (_ ++ [v; filename])); [reflexivity|done|done|].
  apply Forall_app. split; [|by repeat constructor]. apply Forall_forall. intros x Hx. apply Forall_forall. intros c Hc.
  apply list_elem_of_fmap in Hx as (w & -> & Hw). repeat (apply elem_of_cons in Hw as [->|Hw]; [revert c Hc; apply Forall_forall; by repeat constructor|]).
  by apply elem_of_nil in Hw.
Qed.

Context (url_parse : rstr → option Security.Url) (url_to_string : Security.Url → rstr).
(** A parsed URL is printed without blanks around it, and parses back to itself. *)
Hypothesis url_roundtrip : ∀ text url, url_parse text = Some url → url_parse (url_to_string url) = Some url.
Hypothesis url_no_blanks : ∀ text url, url_parse text = Some url → trim (url_to_string url) = url_to_string url.

Lemma release_path_accepted v filename : Forall (fun c => ServerOps.version_byte c = true) v → (∃ c rest, v = c :: rest ∧ is_ascii_alphanumeric c = true) →
  Forall (fun c => ServerOps.version_byte c = true) filename → starts_with (lit "xlstatus-agent-") filename = true →
  is_empty (release_path v filename) || ends_with (lit "/") (release_path v filename) || contains 92 (release_path v filename) = false
  ∧ existsb (fun segment => contains segment [lit "."; lit ".."]) (split_by (Z.eqb 47) (release_path v filename)) = false.
Proof.
  intros Hv (c & rest & -> & Hc) Hf Hs. unfold starts_with in Hs. apply bool_decide_eq_true in Hs as [k ->].
  assert (c ≠ 46) as Hdot by by apply alnum_not_dot. split.
  - apply orb_false_iff. split; [apply orb_false_iff; split; [done|]|].
    + unfold ends_with. apply bool_decide_eq_false_2. intros [p Hp]. destruct (exists_last (l := lit "xlstatus-agent-" ++ k)) as (q & d & Hq); [done|].
      unfold release_path in Hp. rewrite Hq in Hp, Hf. rewrite !app_assoc in Hp. apply app_inj_2 in Hp as [_ [= ->]]; [|done].
      apply Forall_app in Hf as [_ Hd%Forall_cons]. by destruct Hd as [(_ & ? & _)%version_byte_ascii _].
    + apply contains_false. unfold release_path. intros [Hin|[Hin|[Hin|Hin]%elem_of_app]%elem_of_app]%elem_of_app.
      * by vm_compute in Hin; repeat (apply elem_of_cons in Hin as [?|Hin]; [done|]); apply elem_of_nil in Hin.
      * apply (proj1 (Forall_forall _ _) Hv) in Hin. by apply version_byte_ascii in Hin as (_ & _ & ? & _).
      * by apply list_elem_of_singleton in Hin.
      * apply (proj1 (Forall_forall _ _) Hf) in Hin. by apply version_byte_ascii in Hin as (_ & _ & ? & _).
  - rewrite release_segments by done. rewrite existsb_app. apply orb_false_iff. split; [by vm_compute|].
    cbn [existsb]. rewrite segment_ok by done. cbn [orb]. change (lit "xlstatus-agent-" ++ k) with (120 :: lit "lstatus-agent-" ++ k). by rewrite segment_ok.
Qed.

(** A URL the server lets through: of a release file, and nothing more. *)
Lemma server_url raw v u : ServerOps.validate_force_update_download_url (E := E) url_parse url_to_string raw v false = Ok u →
  ∃ text url filename, url_parse text = Some url ∧ u = url_to_string url ∧ Security.scheme url = lit "https" ∧ Security.host_str url = Some (lit "github.com")
    ∧ is_empty (Security.username url) = true ∧ Security.password url = None ∧ Security.query url = None ∧ Security.fragment url = None
    ∧ Security.path url = release_path v filename ∧ Forall (fun c => ServerOps.version_byte c = true) filename
    ∧ starts_with (lit "xlstatus-agent-") filename = true.
Proof.
  unfold ServerOps.validate_force_update_download_url. destruct (is_empty (trim raw)); [done|]. destruct (_ <? _); [done|].
  destruct (url_parse (trim raw)) as [url|] eqn:Eu; [|done]. case_bool_decide as Es; cbn [negb]; [|done].
  destruct (negb (is_empty (Security.username url))) eqn:Ename, (Security.password url) eqn:Ep; cbn [orb]; try done.
  destruct (Security.query url) eqn:Eq, (Security.fragment url) eqn:Ef; cbn [orb]; try done.
  intros ([] & Hd & [= <-])%bind_Ok. unfold ServerOps.validate_default_force_update_download_url in Hd.
  case_bool_decide as Eh; cbn [negb] in Hd; [|done]. destruct (Security.port url); [done|].
  destruct (Auth.strip_prefix _ (Security.path url)) as [filename|] eqn:Esp; [|done]. destruct (is_empty filename); [done|].
  destruct (_ || negb (starts_with _ _) || negb (forallb _ _)) eqn:Eg; [done|].
  apply orb_false_iff in Eg as [[_ Hs%negb_false_iff]%orb_false_iff Hf%negb_false_iff]. apply version_chars in Hf as [_ Hf].
  exists (trim raw), url, filename. split_and!; try done; [by apply negb_false_iff in Ename|].
  unfold Auth.strip_prefix, starts_with in Esp. case_bool_decide as Hp; [|done]. destruct Hp as [k Hk]. rewrite Hk, drop_app_length in Esp.
  injection Esp as <-. rewrite Hk. unfold release_path. by rewrite <-!app_assoc.
Qed.

(** A forced update that the server sends, restricted to the project's own
    releases, is always accepted by the Agent that gets it: the Agent's own checks of
    version, download URL and checksum pass, and it records exactly what was sent. *)
Theorem force_update_accepted req v u c :
  ServerOps.validate_force_update_request_with_custom_source (E := E) url_parse url_to_string req false = Ok (Transfers.ForceUpdate v u c) →
  1 <= byte_len u <= FORCE_UPDATE_MAX_URL_BYTES →
  validate_force_update url_parse url_to_string {| version := v; download_url := u; checksum := c |}
  = Ok {| version := v; download_url := u; checksum := c |}.
Proof.
  intros (v' & Hv & (c' & Hc & (u' & Hu & [= <- <- <-])%bind_Ok)%bind_Ok)%bind_Ok Hlen.
  destruct (version_accepted _ _ Hv) as (Hva & Hvb & Hvc). apply checksum_accepted in Hc.
  unfold validate_force_update. cbn [version download_url checksum]. rewrite Hva. cbn [mbind result_bind]. rewrite Hc.
  cut (validate_force_update_download_url url_parse url_to_string u' = Ok u'); [by intros ->|].
  apply server_url in Hu as (text & url & filename & Hu & -> & Hs & Hh & Hn & Hp & Hq & Hf & Hpath & Hfile & Hstart).
  unfold validate_force_update_download_url. rewrite (url_no_blanks _ _ Hu). unfold validate_sized_remote_text.
  rewrite (proj2 (orb_false_iff _ _)) by lia. cbn [mbind result_bind]. rewrite (url_roundtrip _ _ Hu). cbn [ok_or mbind result_bind].
  rewrite Hs, bool_decide_eq_true_2 by done. cbn [negb]. rewrite Hh. cbn [ok_or mbind result_bind]. rewrite Hn, Hp, Hq, Hf, Hpath.
  destruct (release_path_accepted v' filename Hvb Hvc Hfile Hstart) as [H1 H2]. rewrite H1, H2. by vm_compute.
Qed.
End update.
End AgentUpdateProofs.
