(* ===== verification/AgentExamples.v ===== *)
(** * AgentExamples: a small Agent

    Its configuration is [/opt/xl/agent.yaml]; a server sends it a configuration
    update, a command, a probe, a tunnel and a forced update. *)

From S2P Require Import Prelude Text BTreeMap Json Externals Net Security IoStreams Base64 Interleave Auth Rfc3339 Tables Sessions Users Accounts.
From S2P Require Import Transfers ServerOps AgentConfig AgentFiles AgentFilesProofs AgentGuards AgentPolicy AgentPolicyProofs AgentSession AgentSessionProofs.
From S2P Require Import AgentUpdateProofs.

Module AgentExamples.
Import Interleave AgentConfig AgentGuards AgentPolicyProofs AgentSession AgentSessionProofs.

Definition text0 : rstr := lit "old text".
Definition text1 : rstr := lit "new text".
Definition node (k : AgentFiles.Kind) : AgentFiles.Node := {| AgentFiles.kind := k; AgentFiles.mode := 420; AgentFiles.mtime := 0; AgentFiles.extent := 0 |}.
Definition disk0 : gmap Z AgentFiles.Node := list_to_map [
  (1, node (AgentFiles.Directory [(lit "opt", 2); (lit "srv", 5)]));
  (2, node (AgentFiles.Directory [(lit "xl", 3)]));
  (3, node (AgentFiles.Directory [(lit "agent.yaml", 4)]));
  (4, node (AgentFiles.Regular (str_bytes text0)));
  (5, node (AgentFiles.Directory [(lit "data", 6)]));
  (6, node (AgentFiles.Directory [(lit "logs", 7)]));
  (7, node (AgentFiles.Symlink (lit "/opt/xl")))].
Definition home0 : list (list Z * Z) := [(lit "xl", 3); (lit "opt", 2)].
Definition name0 : list Z := lit "agent.yaml".
Definition path0 : AgentPolicy.Path_ := {| AgentPolicy.rooted := true; AgentPolicy.parts := AgentFiles.of_names [lit "opt"; lit "xl"; lit "agent.yaml"] |}.

Definition cfg0 : AgentConfig := AgentFilesExamples.cfg0.
Definition cfg1 : AgentConfig := set_disable_nat true (set_report_interval_seconds 30 cfg0).
Definition patch0 : list (rstr * json) := [(lit "disable_nat", JBool true); (lit "report_interval_seconds", JNumber (PosInt 30))].

#[local] Instance config_eq_dec : EqDecision AgentConfig.
Proof. solve_decision. Defined.
(** Texts for the two configurations that occur. *)
Definition print0 (c : AgentConfig) : option rstr := if decide (c = cfg1) then Some text1 else None.
Definition parse0 (t : rstr) : option AgentConfig := if bool_decide (t = text0) then Some cfg0 else if bool_decide (t = text1) then Some cfg1 else None.

Definition io0 (i : nat) : AgentFiles.Env :=
  {| AgentFiles.fault := None; AgentFiles.partial := 0; AgentFiles.new_ino := 100 + Z.of_nat i; AgentFiles.umasked m := m; AgentFiles.clock := 0 |}.
Definition tag0 (e : AgentFiles.Env) : rstr := lit "ab12".
Definition url0 : Security.Url :=
  {| Security.scheme := lit "https"; Security.username := []; Security.password := None; Security.host_str := Some (lit "github.com");
     Security.port := None; Security.port_or_known_default := Some 443;
     Security.path := AgentUpdateProofs.release_path (lit "v1.2.3") (lit "xlstatus-agent-linux-amd64"); Security.query := None; Security.fragment := None |}.
Definition link0 : rstr := lit "https://github.com/lbyxiaolizi/XLStatus/releases/download/v1.2.3/xlstatus-agent-linux-amd64".
Definition url_parse0 (t : rstr) : option Security.Url := if bool_decide (t = link0) then Some url0 else None.
Definition url_print0 (u : Security.Url) : rstr := link0.

Lemma dir0 : directory home0 disk0.
Proof. eexists _, _. split; by vm_compute. Qed.
Lemma entry0 j : AgentFiles.child disk0 (AgentPolicy.dir home0) name0 = Some j → is_Some (disk0 !! j).
Proof. intros Hj. assert (j = 4) as -> by (vm_compute in Hj; congruence). exists (node (AgentFiles.Regular (str_bytes text0))). by vm_compute. Qed.

(** ** Writing the file *)

Definition update0 : P AgentFiles.Env (gmap Z AgentFiles.Node) rstr AgentConfig :=
  AgentPolicy.update_config url_parse0 url_print0 home0 name0 tag0 7 print0 parse0 path0 patch0 cfg0.
Lemma print0_Some c t : print0 c = Some t → c = cfg1 ∧ t = text1.
Proof. unfold print0. case_decide; [by intros [= <-]|done]. Qed.

(** ** A forced update *)

Definition req0 : ServerOps.ForceUpdateRequest :=
  {| ServerOps.fu_version := lit "v1.2.3"; ServerOps.fu_download_url := link0;
     ServerOps.fu_checksum := Some (lit "sha256:00112233445566778899AABBCCDDEEFF00112233445566778899aabbccddeeff") |}.
Definition sum0 : rstr := lit "00112233445566778899aabbccddeeff00112233445566778899aabbccddeeff".

(** ** A session *)

Definition env0 : Env :=
  {| disk := io0; others _ f := f; clock := 1000; elapsed_ms := 5; lookup_host _ _ := None; child := Exited (Some 0) [lit "hi"] [];
     http := HttpStatus 200; tcp := TcpConnected; ping := PingTimeout; connect _ := None; handle := 9; open_pty := None; terminal_error := None;
     writer_closed := false; socket := ReadEof |}.
Definition host0 : Host :=
  {| h_from_utf8_lossy l := l; h_vars _ := None; h_inherited := ∅; h_url_parse := url_parse0; h_url_to_string := url_print0;
     h_terminal_from_slice _ := None; h_terminal_to_vec _ := []; h_nat_from_slice _ := Some (OpenTunnel (lit "127.0.0.1") 22); h_nat_to_vec _ := [];
     h_json_to_string _ := []; h_headers_ok _ := Ok (); h_entries_json _ := []; h_error_text _ := []; h_fds := 16;
     h_home := home0; h_config_name := name0; h_tag := tag0; h_pid := 7; h_to_string_pretty := print0; h_from_str := parse0; h_config_path := path0;
     h_json_from_slice _ := Some (JObject patch0); h_request_json _ _ := Some [] |}.
Definition local0 : Local :=
  {| memory := cfg0; files := disk0; terminal_sessions := ∅; slots := ∅; nat_sessions := ∅; log := [] |}.
Definition shell0 : Event := OnMessage (Task {| task_id := lit "t"; spec := Some (ShellCommand
  {| sh_command := lit "echo hi"; sh_dir := []; sh_env := [(lit "LANG", lit "C")]; sh_timeout := 0; sh_max_output := 0 |}) |}).
Definition ping0 : Event := OnMessage (Task {| task_id := lit "p"; spec := Some (TcpPing {| tp_host := lit "1.1.1.1"; tp_port := 443; tp_timeout := 99 |}) |}).
Definition tunnel0 : Event := OnFrame (lit "a1")
  {| IoStreams.stream_id := lit "s"; IoStreams.sequence := 1; IoStreams.f_agent_id := lit "a1"; IoStreams.payload := Some (IoStreams.Data []) |}.
Definition update_event : Event := OnMessage (ConfigUpdate []).

Definition events0 : list Event := [shell0; ping0; tunnel0; update_event].
Definition start0 : Pool Env Local unit := {| state := local0; threads := handler host0 <$> events0 |}.
Definition schedule0 : list (nat * Env) := (fun i => (i, env0)) <$> [0; 1; 2; 0; 1; 2; 0; 1; 2; 0; 1; 2; 0; 1; 2; 0; 1; 2; 2; 2; 3; 1; 1]%nat.
Definition end0 : Pool Env Local unit := execute (fun _ _ => True) schedule0 start0.

Lemma reach0 : rtc (pool_step (program host0) (fun _ _ => True)) {| state := local0; threads := [] |} start0
  ∧ rtc (pool_step (program host0) (fun _ _ => True)) start0 end0.
Proof.
  split; [|apply execute_steps]. apply spawn_all. apply Forall_fmap, Forall_forall. intros x Hx. exists x. split; [|done].
  repeat (apply elem_of_cons in Hx as [->|Hx]; [done|]). by apply elem_of_nil in Hx.
Qed.

(** The command ran, the probe and the tunnel connected, then NAT was disabled. *)
Example session0 :
  ((fun x => match x with Ran _ => 1 | Probed _ _ => 2 | NatConnected _ => 3 | Sent _ => 4 | _ => 0 end) <$> log (state end0)) = [1; 2; 3; 4]
  ∧ memory (state end0) = cfg1.
Proof. by vm_compute. Qed.


Lemma config_ok0 : config_ok cfg0.
Proof.
  constructor; [done|done| |by vm_compute]. intros r [->|Hr]%elem_of_cons; [by vm_compute|by apply elem_of_nil in Hr].
Qed.
(** The step that starts the command, and the one that makes a file. *)
Definition write0 : Event := OnMessage (Task {| task_id := lit "w"; spec := Some (Files (AgentFiles.FileWrite (lit "/srv/data/x") (lit "abc") 0 false)) |}).
Definition steps0 (x : Event) : list (Env * Local * Local) := solo (repeat env0 40) (handler host0 x) local0.
Definition at0 (x : Event) (k : nat) : Env * Local * Local := default (env0, local0, local0) (steps0 x !! k).
Lemma at0_makes x k : Nat.ltb k (length (steps0 x)) = true → makes (handler host0 x) (fst <$> take k (steps0 x)) (at0 x k).1.1 (at0 x k).1.2 (at0 x k).2.
Proof. intros [[[e t] t'] Ek]%Nat.ltb_lt%lookup_lt_is_Some. unfold at0. rewrite Ek. by apply solo_makes. Qed.
Lemma agent_policy_enforced_witness :
  (∃ new, log (at0 shell0 3).2 = new ∧ new ≠ [] ∧
     Forall (fun y => ∃ c, in_force ((fst <$> take 3 (steps0 shell0)) ++ [(at0 shell0 3).1]) c
       ∧ permitted (h_from_utf8_lossy host0) (h_vars host0) (h_inherited host0) url_parse0 url_print0 c y) new)
  ∧ file_change write0 (fst <$> take 15 (steps0 write0)) (files (at0 write0 15).1.2) (files (at0 write0 15).2).
Proof.
  split.
  - destruct (agent_policy_enforced host0 shell0 _ _ _ _ ltac:(done) (at0_makes shell0 3 ltac:(by vm_compute))) as ((new & Hl & Hnew) & _).
    assert (log (at0 shell0 3).1.2 = []) as Hb by by vm_compute. rewrite Hb in Hl. exists new. split; [done|]. split; [|exact Hnew].
    intros ->. apply (f_equal length) in Hl. by vm_compute in Hl.
  - apply (agent_policy_enforced host0 write0 _ _ _ _ I (at0_makes write0 15 ltac:(by vm_compute))). intros Heq.
    apply (f_equal size) in Heq. by vm_compute in Heq.
Defined.

(** ** A link inside a root

    The check of new roots compares names, file access follows links: a server may
    choose as a root a link inside the old root that leads elsewhere. *)

Definition links0 : list (rstr * json) := [(lit "file_allowed_roots", JArray [JString (lit "/srv/data/logs")])].
Definition linked0 : gmap Z AgentFiles.Node := <[7 := node (AgentFiles.Symlink (lit "/home"))]> (<[8 := node (AgentFiles.Directory [(lit "key", 9)])]>
  (<[9 := node (AgentFiles.Regular (lit "k"))]> (<[1 := node (AgentFiles.Directory [(lit "opt", 2); (lit "srv", 5); (lit "home", 8)])]> disk0))).
Definition read_key (roots : list rstr) : option (result AgentFiles.FileError (list Z)) :=
  outcome (io0 <$> seq 0 40) (AgentFiles.read_file (lit "/home/key") 0 0 roots) linked0.
Example link_widens :
  read_key (file_allowed_roots cfg0) = Some (Err (AgentFiles.Bail (lit "Path is outside configured allowed file roots")))
  ∧ ∃ c, (run_to_end io0 (fun _ => id) (AgentPolicy.patch_roots home0 name0 path0 links0 cfg0) linked0).1 = Ok c
         ∧ read_key (file_allowed_roots c) = Some (Ok (lit "k")).
Proof. split; [by vm_compute|]. exists (set_file_allowed_roots [lit "/srv/data/logs"] cfg0). split; by vm_compute. Qed.

End AgentExamples.
