(* ===== verification/Realtime.v ===== *)
(** * Realtime: live events for the dashboards

    Models [crates/server/src/realtime/mod.rs]: the cleaning of an event before
    it leaves the process, and [BroadcastHub], the latest event of every Agent
    with the channel that carries events to the open dashboards. The WebSocket
    handler that reads the channel is in [FleetStreams]. *)

From S2P Require Import Prelude Text BTreeMap Json Externals.

Module Realtime.

Definition BROADCAST_CAPACITY : Z := 256.
Definition LATEST_CACHE_PER_AGENT : Z := 1.
Definition LATEST_CACHE_MAX_AGENTS : Z := LATEST_CACHE_PER_AGENT * 1024.
Definition MAX_REALTIME_KIND_CHARS : nat := 64.
Definition MAX_REALTIME_JSON_DEPTH : Z := 8.
Definition MAX_REALTIME_OBJECT_KEYS : Z := 128.
Definition MAX_REALTIME_ARRAY_LEN : nat := 256.
Definition MAX_REALTIME_STRING_CHARS : nat := 512.
(** The length of a key, a literal in the code. *)
Definition MAX_REALTIME_KEY_CHARS : nat := 128.

Record RealtimeEvent := { kind : rstr; agent_id : Z; received_at : Z; payload : json }.

(** ** Cleaning *)

Definition sanitize_realtime_kind (k : rstr) : rstr :=
  let cleaned := take MAX_REALTIME_KIND_CHARS (filter (fun ch => negb (is_control ch) && negb (is_whitespace ch) = true) k) in
  if is_empty cleaned then lit "unknown" else cleaned.

Definition SENSITIVE_KEYS : list rstr :=
  [lit "private_key"; lit "public_key"; lit "owner_user_id"; lit "password"; lit "password_hash"; lit "secret"; lit "csrf_token";
   lit "enrollment_token"; lit "access_token"; lit "refresh_token"; lit "api_key"; lit "bearer"; lit "authorization"; lit "cookie";
   lit "session_id"; lit "totp_secret"].
Definition is_sensitive_realtime_key (key : rstr) : bool :=
  let lower := to_ascii_lowercase (trim key) in
  bool_decide (lower ∈ SENSITIVE_KEYS) || ends_with (lit "_secret") lower || ends_with (lit "_token") lower
  || ends_with (lit "_private_key") lower.

Definition printable (n : nat) (s : rstr) : rstr := take n (filter (fun ch => is_control ch = false) s).

(** The two loops of [sanitize_realtime_payload], with the recursive call. *)
Section loops.
Context (clean : json → json).
Fixpoint sanitize_fields (fields out : list (rstr * json)) {struct fields} : list (rstr * json) :=
  match fields with
  | [] => out
  | (raw_key, val) :: rest =>
      if MAX_REALTIME_OBJECT_KEYS <=? zlen out then out else
      let key := printable MAX_REALTIME_KEY_CHARS raw_key in
      if is_empty key || is_sensitive_realtime_key key then sanitize_fields rest out
      else sanitize_fields rest (bt_insert key (clean val) out)
  end.
Fixpoint sanitize_items (n : nat) (items : list json) {struct items} : list json :=
  match n, items with
  | S n, item :: items => clean item :: sanitize_items n items
  | _, _ => []
  end.
End loops.

Fixpoint sanitize_realtime_payload (value : json) (depth : Z) {struct value} : json :=
  if MAX_REALTIME_JSON_DEPTH <? depth then JNull else
  match value with
  | JObject fields => JObject (sanitize_fields (fun val => sanitize_realtime_payload val (depth + 1)) fields [])
  | JArray items => JArray (sanitize_items (fun item => sanitize_realtime_payload item (depth + 1)) MAX_REALTIME_ARRAY_LEN items)
  | JString s => JString (printable MAX_REALTIME_STRING_CHARS s)
  | other => other
  end.

(** [RealtimeEvent::new], at the time [now]. *)
Definition new_event (k : rstr) (agent : Z) (value : json) (now : Z) : RealtimeEvent :=
  {| kind := sanitize_realtime_kind k; agent_id := agent; received_at := now; payload := sanitize_realtime_payload value 0 |}.

(** ** The hub

    [published] is everything ever sent on the channel, oldest first; the channel
    keeps its last [BROADCAST_CAPACITY] entries. A receiver is its position. *)
Record BroadcastHub := { latest : gmap Z RealtimeEvent; published : list RealtimeEvent }.
Definition new_hub : BroadcastHub := {| latest := ∅; published := [] |}.

(** [min_by_key]: the first of the smallest, in the order of [iter]. *)
Fixpoint oldest (best : Z * RealtimeEvent) (l : list (Z * RealtimeEvent)) : Z * RealtimeEvent :=
  match l with
  | [] => best
  | x :: l => oldest (if received_at x.2 <? received_at best.2 then x else best) l
  end.

Section hub.
(** The order in which a [HashMap] is visited. *)
Context (iter : gmap Z RealtimeEvent → list (Z * RealtimeEvent)).

Definition remember (event : RealtimeEvent) (m : gmap Z RealtimeEvent) : gmap Z RealtimeEvent :=
  let m := if (LATEST_CACHE_MAX_AGENTS <=? Z.of_nat (size m)) && negb (bool_decide (is_Some (m !! agent_id event)))
           then match iter m with x :: l => delete (oldest x l).1 m | [] => m end else m in
  <[agent_id event := event]> m.

(** [publish] changes the cache under its lock and then sends: two steps. *)
Definition cleaned (event : RealtimeEvent) : RealtimeEvent :=
  {| kind := sanitize_realtime_kind (kind event); agent_id := agent_id event; received_at := received_at event;
     payload := sanitize_realtime_payload (payload event) 0 |}.
Definition publish_cache (event : RealtimeEvent) (h : BroadcastHub) : BroadcastHub :=
  {| latest := remember (cleaned event) (latest h); published := published h |}.
Definition publish_send (event : RealtimeEvent) (h : BroadcastHub) : BroadcastHub :=
  {| latest := latest h; published := published h ++ [cleaned event] |}.
Definition publish (event : RealtimeEvent) (h : BroadcastHub) : BroadcastHub := publish_send event (publish_cache event h).

Definition remove_agent (agent : Z) (h : BroadcastHub) : BroadcastHub :=
  {| latest := delete agent (latest h); published := published h |}.

(** [subscribe]: a receiver sees what is sent from now on. *)
Definition subscribe (h : BroadcastHub) : Z := zlen (published h).

Definition latest_snapshot (h : BroadcastHub) : list RealtimeEvent := snd <$> iter (latest h).

(** [Receiver::recv]: the next event with the position after it; or that the
    receiver has lagged, with the position of the oldest event that is kept. *)
Inductive Received : Type := Next (event : RealtimeEvent) | Lagged | Pending.
Definition recv (position : Z) (h : BroadcastHub) : Received * Z :=
  let length := zlen (published h) in
  if position + BROADCAST_CAPACITY <? length then (Lagged, length - BROADCAST_CAPACITY) else
  match published h !! Z.to_nat position with
  | Some event => (Next event, position + 1)
  | None => (Pending, position)
  end.
End hub.

Definition filter_realtime_events (events : list RealtimeEvent) (visible_agents : gset Z) : list RealtimeEvent :=
  filter (fun event => agent_id event ∈ visible_agents) events.

(** What is written to a dashboard. *)
Inductive WsOutbound : Type :=
| Snapshot (events : list RealtimeEvent)
| Event (event : RealtimeEvent)
| Ping (ts : Z).

End Realtime.
