(* ===== verification/RealtimeProofs.v ===== *)
(** * RealtimeProofs: what leaves through the hub

    Every event is cleaned: no sensitive key at any depth, bounded sizes, no
    control characters; cleaning twice is cleaning once. The cache holds the
    latest event of each Agent and stays bounded. *)

From S2P Require Import Prelude Text BTreeMap Json Externals Realtime.

Module RealtimeProofs.
Import Realtime.
#[local] Arguments printable : simpl never. #[local] Arguments remember : simpl never. #[local] Arguments cleaned : simpl never.

(** ** Clean values *)

Definition clean_text (n : nat) (s : rstr) : Prop := (length s <= n)%nat ∧ Forall (fun ch => is_control ch = false) s.
Definition clean_key (key : rstr) : Prop :=
  key ≠ [] ∧ clean_text MAX_REALTIME_KEY_CHARS key ∧ is_sensitive_realtime_key key = false.

(** A value at a given depth of an event. *)
#[local] Set Warnings "-register-all".
Inductive clean : Z → json → Prop :=
| clean_null d : clean d JNull
| clean_bool d b : d <= MAX_REALTIME_JSON_DEPTH → clean d (JBool b)
| clean_number d n : d <= MAX_REALTIME_JSON_DEPTH → clean d (JNumber n)
| clean_string d s : d <= MAX_REALTIME_JSON_DEPTH → clean_text MAX_REALTIME_STRING_CHARS s → clean d (JString s)
| clean_array d items :
    d <= MAX_REALTIME_JSON_DEPTH → (length items <= MAX_REALTIME_ARRAY_LEN)%nat → Forall (clean (d + 1)) items → clean d (JArray items)
| clean_object d fields :
    d <= MAX_REALTIME_JSON_DEPTH → zlen fields <= MAX_REALTIME_OBJECT_KEYS → bt_wf fields →
    Forall (fun kv => clean_key kv.1 ∧ clean (d + 1) kv.2) fields → clean d (JObject fields).

Lemma printable_clean n s : clean_text n (printable n s).
Proof.
  unfold printable, clean_text. split; [rewrite length_take; lia|]. apply Forall_take, Forall_forall.
  intros ch [Hc _]%list_elem_of_filter. done.
Qed.
Lemma printable_fixed n s : clean_text n s → printable n s = s.
Proof.
  intros [Hl Hc]. unfold printable. assert (filter (fun ch => is_control ch = false) s = s) as ->.
  { clear Hl. induction Hc as [|ch s Hch _ IH]; [done|]. by rewrite filter_cons_True, IH. }
  by apply take_ge.
Qed.

Lemma insert_length (k : rstr) (v : json) out : (length (bt_insert k v out) <= S (length out))%nat.
Proof. induction out as [|[k' v'] out IH]; cbn; [done|]. repeat case_match; cbn; lia. Qed.

Lemma fields_clean f d fields out :
  Forall (fun kv => clean (d + 1) (f kv.2)) fields →
  zlen out <= MAX_REALTIME_OBJECT_KEYS → bt_wf out → Forall (fun kv => clean_key kv.1 ∧ clean (d + 1) kv.2) out →
  let r := sanitize_fields f fields out in
  zlen r <= MAX_REALTIME_OBJECT_KEYS ∧ bt_wf r ∧ Forall (fun kv => clean_key kv.1 ∧ clean (d + 1) kv.2) r.
Proof.
  intros Hf. revert out. induction Hf as [|[k v] fields Hv _ IH]; intros out Hl Hw Ho; cbn; [done|].
  destruct (MAX_REALTIME_OBJECT_KEYS <=? zlen out) eqn:El; [done|]. destruct (is_empty _ || _) eqn:Ek; [by apply IH|].
  apply orb_false_iff in Ek as [Ee Es]. apply IH.
  - apply Z.leb_gt in El. match goal with |- zlen (bt_insert ?k ?v out) <= _ => pose proof (insert_length k v out) end. unfold zlen in *. lia.
  - by apply bt_insert_wf.
  - apply Forall_forall. intros kv [->|Hin]%bt_insert_keys; [|by eapply Forall_forall in Ho].
    split; [|exact Hv]. split; [|split; [apply (printable_clean MAX_REALTIME_KEY_CHARS k)|exact Es]]. cbn. intros H. by rewrite H in Ee.
Qed.

Lemma fields_fixed f fields out :
  bt_wf (out ++ fields) → zlen (out ++ fields) <= MAX_REALTIME_OBJECT_KEYS →
  Forall (fun kv => clean_key kv.1 ∧ f kv.2 = kv.2) fields → sanitize_fields f fields out = out ++ fields.
Proof.
  intros Hw Hl Hf. revert out Hw Hl. induction Hf as [|[k v] fields [(Hne & Hk & Hs) Hv] _ IH]; intros out Hw Hl; cbn in *; [by rewrite app_nil_r|].
  assert (MAX_REALTIME_OBJECT_KEYS <=? zlen out = false) as ->.
  { apply Z.leb_gt. unfold zlen in *. rewrite length_app in Hl. cbn in Hl. lia. }
  rewrite printable_fixed by done. rewrite Hs. destruct k as [|c k]; [done|]. cbn [is_empty orb].
  apply bt_wf_app in Hw as (Hwo & Hwf & Hlt).
  assert (bt_insert (c :: k) (f v) out = out ++ [(c :: k, v)]) as ->.
  { rewrite <-(app_nil_r out) at 1. rewrite bt_insert_app_r; [by rewrite Hv|]. intros p Hp. apply (Hlt p (c :: k, v)); [done|]. by left. }
  rewrite IH; [by rewrite <-app_assoc| |by rewrite <-app_assoc]. rewrite <-app_assoc. apply bt_wf_app. split_and!; [done..|]. exact Hlt.
Qed.

Lemma items_clean f d n items :
  Forall (fun v => clean (d + 1) (f v)) items → (length (sanitize_items f n items) <= n)%nat ∧ Forall (clean (d + 1)) (sanitize_items f n items).
Proof.
  intros Hf. revert n. induction Hf as [|v items Hv _ IH]; intros [|n]; cbn; try (split; [lia|constructor]).
  destruct (IH n) as [Hl Hi]. split; [lia|by constructor].
Qed.
Lemma items_fixed f n items : (length items <= n)%nat → Forall (fun v => f v = v) items → sanitize_items f n items = items.
Proof.
  intros Hl Hf. revert n Hl. induction Hf as [|v items Hv _ IH]; intros [|n] Hl; cbn in *; try done; [lia|]. rewrite Hv, IH by lia. done.
Qed.

Lemma sanitize_clean v d : clean d (sanitize_realtime_payload v d).
Proof.
  revert d. induction v as [|b|n|s|items IH|fields IH] using json_ind; intros d; cbn [sanitize_realtime_payload];
    (destruct (MAX_REALTIME_JSON_DEPTH <? d) eqn:Ed; [constructor|]); bool_prop.
  - constructor.
  - by constructor.
  - by constructor.
  - constructor; [done|]. apply printable_clean.
  - destruct (items_clean (fun item => sanitize_realtime_payload item (d + 1)) d MAX_REALTIME_ARRAY_LEN items) as [Hl Hi].
    { eapply Forall_impl; [exact IH|]. cbn. intros v Hv. apply Hv. }
    by constructor.
  - destruct (fields_clean (fun item => sanitize_realtime_payload item (d + 1)) d fields []) as (Hl & Hw & Hf); [|done|constructor|constructor|].
    { eapply Forall_impl; [exact IH|]. cbn. intros v Hv. apply Hv. }
    by constructor.
Qed.

Lemma sanitize_fixed v d : clean d v → sanitize_realtime_payload v d = v.
Proof.
  revert d. induction v as [|b|n|s|items IH|fields IH] using json_ind; intros d Hc; cbn [sanitize_realtime_payload];
    destruct (MAX_REALTIME_JSON_DEPTH <? d) eqn:Ed; bool_prop; inversion Hc; subst; try done; try lia.
  - by rewrite printable_fixed.
  - f_equal. apply items_fixed; [done|]. apply Forall_forall. intros v Hv.
    eapply Forall_forall in IH; [|done]. match goal with H : Forall (clean _) _ |- _ => eapply Forall_forall in H; [|done]; by apply IH end.
  - f_equal. apply (fields_fixed _ fields []); [done|done|]. apply Forall_forall. intros kv Hv.
    eapply Forall_forall in IH; [|done]. match goal with H : Forall (fun kv => clean_key _ ∧ _) _ |- _ => eapply Forall_forall in H as [Hk Hv']; [|done] end. split; [done|]. by apply IH.
Qed.
(** ** Events *)

Definition clean_kind (k : rstr) : Prop :=
  k ≠ [] ∧ (length k <= MAX_REALTIME_KIND_CHARS)%nat ∧ Forall (fun ch => is_control ch = false ∧ is_whitespace ch = false) k.
Definition clean_event (e : RealtimeEvent) : Prop := clean_kind (kind e) ∧ clean 0 (payload e).

Lemma kind_clean k : clean_kind (sanitize_realtime_kind k).
Proof.
  unfold sanitize_realtime_kind. case_match eqn:He.
  - split_and!; [done|vm_compute; lia|]. by repeat constructor.
  - split_and!; [by intros Hk; rewrite Hk in He|rewrite length_take; lia|]. apply Forall_take, Forall_forall.
    intros ch [[H1%negb_true_iff H2%negb_true_iff]%andb_true_iff _]%list_elem_of_filter. done.
Qed.
Lemma kind_fixed k : clean_kind k → sanitize_realtime_kind k = k.
Proof.
  intros (Hne & Hl & Hc). unfold sanitize_realtime_kind.
  assert (filter (fun ch => negb (is_control ch) && negb (is_whitespace ch) = true) k = k) as ->.
  { clear Hne Hl. induction Hc as [|ch k [H1 H2] _ IH]; [done|]. rewrite filter_cons_True by (by rewrite H1, H2). by rewrite IH. }
  rewrite take_ge by done. by destruct k.
Qed.

Lemma cleaned_clean e : clean_event (cleaned e).
Proof. split; [apply kind_clean|apply sanitize_clean]. Qed.
Lemma cleaned_fixed e : clean_event e → cleaned e = e.
Proof. intros [Hk Hp]. destruct e as [k a t v]. unfold cleaned; cbn in *. by rewrite kind_fixed, sanitize_fixed. Qed.
Lemma new_event_clean k a v now : clean_event (new_event k a v now).
Proof. split; [apply kind_clean|apply sanitize_clean]. Qed.

(** ** The hub *)

Lemma oldest_spec b l : oldest b l ∈ b :: l ∧ Forall (fun x => received_at (oldest b l).2 <= received_at x.2) (b :: l).
Proof.
  revert b. induction l as [|x l IH]; intros b; cbn [oldest].
  - split; [by left|]. by repeat constructor.
  - destruct (IH (if received_at x.2 <? received_at b.2 then x else b)) as [Hin [Hb Hl]%Forall_cons].
    destruct (received_at x.2 <? received_at b.2) eqn:E; bool_prop.
    + split; [by right|]. repeat constructor; [lia|done|done].
    + split; [set_solver|]. repeat constructor; [done|lia|done].
Qed.

Section hub.
Context (iter : gmap Z RealtimeEvent → list (Z * RealtimeEvent)).
(** A [HashMap] is visited in some order, every entry once. *)
Hypothesis iter_entries : ∀ m, iter m ≡ₚ map_to_list m.

(** What happens to the hub, under its locks. *)
Inductive hub_step (h : BroadcastHub) : BroadcastHub → Prop :=
| hub_cache event : hub_step h (publish_cache iter event h)
| hub_send event : hub_step h (publish_send event h)
| hub_remove agent : hub_step h (remove_agent agent h).

Record hub_ok (h : BroadcastHub) : Prop := {
  ok_published : Forall clean_event (published h);
  ok_latest : map_Forall (fun a e => agent_id e = a ∧ clean_event e) (latest h);
  ok_size : Z.of_nat (size (latest h)) <= LATEST_CACHE_MAX_AGENTS;
}.

(** The entry that makes room: the oldest one. *)
Definition evicts (m : gmap Z RealtimeEvent) (event : RealtimeEvent) (a : Z) : Prop :=
  LATEST_CACHE_MAX_AGENTS <= Z.of_nat (size m) ∧ m !! agent_id event = None ∧
  ∃ e, m !! a = Some e ∧ ∀ a' e', m !! a' = Some e' → received_at e <= received_at e'.

Lemma remember_spec event m :
  ∃ gone : option Z,
    remember iter event m = <[agent_id event := event]> (match gone with Some a => delete a m | None => m end) ∧
    match gone with
    | Some a => evicts m event a
    | None => Z.of_nat (size m) < LATEST_CACHE_MAX_AGENTS ∨ is_Some (m !! agent_id event)
    end.
Proof.
  unfold remember. destruct ((_ <=? _) && _) eqn:Ec; cycle 1.
  - exists None. split; [done|]. apply andb_false_iff in Ec as [?%Z.leb_gt|Hc%negb_false_iff]; [by left|]. apply bool_decide_eq_true in Hc. by right.
  - apply andb_true_iff in Ec as [Hs%Z.leb_le Hn%negb_true_iff%bool_decide_eq_false]. rewrite <-eq_None_not_Some in Hn.
    pose proof (iter_entries m) as Hp. destruct (iter m) as [|x l].
    + apply Permutation_nil_l in Hp. apply (f_equal length) in Hp. rewrite length_map_to_list in Hp. cbn in Hp. rewrite <-Hp in Hs. done.
    + destruct (oldest_spec x l) as [Hin Hmin]. exists (Some (oldest x l).1). split; [done|]. split_and!; [done..|].
      exists (oldest x l).2. split.
      * rewrite Hp in Hin. apply elem_of_map_to_list. by destruct (oldest x l).
      * intros a e Hae%elem_of_map_to_list. rewrite <-Hp in Hae. eapply Forall_forall in Hmin; [|done]. done.
Qed.

Lemma remember_size event m : Z.of_nat (size m) <= LATEST_CACHE_MAX_AGENTS → Z.of_nat (size (remember iter event m)) <= LATEST_CACHE_MAX_AGENTS.
Proof.
  intros Hm. destruct (remember_spec event m) as ([a|] & -> & Hg).
  - destruct Hg as (Hs & Hn & e & He & _). rewrite map_size_insert_None by (rewrite lookup_delete_None; by right).
    rewrite map_size_delete_Some by done. assert (size m ≠ 0%nat) by (intros Hz%map_size_empty_inv; by subst). revert Hm. generalize LATEST_CACHE_MAX_AGENTS. lia.
  - destruct Hg as [Hs|Hs]; [|by rewrite map_size_insert_Some]. rewrite map_size_insert. case_match; unfold id; lia.
Qed.

Lemma remember_ok event m :
  map_Forall (fun a e => agent_id e = a ∧ clean_event e) m → clean_event event →
  map_Forall (fun a e => agent_id e = a ∧ clean_event e) (remember iter event m).
Proof.
  intros Hm He. destruct (remember_spec event m) as ([a|] & -> & _); apply map_Forall_insert_2; try done. by apply map_Forall_delete.
Qed.

Lemma hub_step_ok h h' : hub_ok h → hub_step h h' → hub_ok h'.
Proof.
  intros [Hp Hl Hs] [event|event|a]; constructor; cbn; try done.
  - apply remember_ok; [done|apply cleaned_clean].
  - by apply remember_size.
  - apply Forall_app. split; [done|]. constructor; [apply cleaned_clean|constructor].
  - by apply map_Forall_delete.
  - rewrite map_size_delete. case_match; unfold id; lia.
Qed.

(** whatever is published, by whichever handlers, in whatever order: every
    event on the channel and in the cache has a short visible kind, no key that
    names a secret at any depth, at most 8 levels, 128 keys and 256 items per
    level and strings of at most 512 characters without control characters, and
    cleaning it again changes nothing. The cache holds at most 1024 Agents, each
    with an event of its own; a publication is remembered, and displaces another
    Agent's event only if the cache is full and that event is an oldest one. *)
Theorem realtime_events_clean h event :
  rtc hub_step new_hub h →
  Forall (fun e => clean_event e ∧ cleaned e = e) (published h ++ latest_snapshot iter h) ∧
  Z.of_nat (size (latest h)) <= LATEST_CACHE_MAX_AGENTS ∧
  map_Forall (fun a e => agent_id e = a) (latest h) ∧
  (let m := latest (publish iter event h) in
   m !! agent_id event = Some (cleaned event) ∧
   ∀ a, a ≠ agent_id event → m !! a = latest h !! a ∨ m !! a = None ∧ evicts (latest h) event a).
Proof.
  intros Hh. assert (hub_ok h) as [Hp Hl Hs].
  { assert (hub_ok new_hub) as H0 by (split; [by apply Forall_nil|apply map_Forall_empty|by vm_compute]).
    clear event. induction Hh as [|h1 h2 h3 Hstep _ IH]; [done|]. apply IH. by eapply hub_step_ok. }
  split_and!; [|done| |].
  - apply Forall_app. split; [eapply Forall_impl; [exact Hp|]; intros e He; split; [done|by apply cleaned_fixed]|].
    unfold latest_snapshot. rewrite iter_entries. apply Forall_fmap, Forall_forall. intros [a e] He%elem_of_map_to_list. cbn.
    destruct (Hl a e He) as [_ Hc]. split; [done|by apply cleaned_fixed].
  - intros a e He. apply (Hl a e He).
  - cbn. destruct (remember_spec (cleaned event) (latest h)) as (gone & -> & Hg). split; [apply lookup_insert_eq|].
    intros a Ha. rewrite lookup_insert_ne by done. destruct gone as [b|]; [|by left].
    destruct (decide (b = a)) as [->|Hb]; [|left; by rewrite lookup_delete_ne]. right. split; [apply lookup_delete_eq|exact Hg].
Qed.
End hub.

(** Two publications with secrets inside. *)
Definition example_event (a : Z) : RealtimeEvent :=
  new_event (lit "host state") a (JObject [(lit "cpu", JNumber (PosInt 7)); (lit "api_token", JString (lit "x"))]) (10 - a).
End RealtimeProofs.
