(* ===== verification/Telemetry.v ===== *)
(** * Telemetry: what an Agent reports, as it is stored

    The conversion of an Agent's reports to JSON in
    [crates/server/src/grpc/mod.rs]: lists and strings are cut, numbers are
    brought into range, and a flag in the result says whether anything was. *)

From S2P Require Import Prelude Text BTreeMap Json Externals Net.
From Stdlib Require Import SpecFloat.

Module Telemetry.
Import Net.

Definition AGENT_TELEMETRY_MAX_ITEMS : nat := 64.
Definition AGENT_TELEMETRY_MAX_STRING_BYTES : Z := 128.
Definition AGENT_TELEMETRY_MAX_JSON_BYTES : Z := 256 * 1024.
Definition AGENT_GEO_IP_MAX_TEXT_BYTES : Z := 64.

Record DiskState := { d_mount_point : rstr; d_used : Z; d_total : Z }.
Record NetStat := { n_interface : rstr; n_bytes_sent : Z; n_bytes_recv : Z }.
Record TempSensor := { t_label : rstr; t_temperature : f64 }.
Record DiskInfo := { i_device : rstr; i_mount_point : rstr; i_fs_type : rstr; i_total : Z }.
Record HostState := {
  cpu_percent : f64; memory_used : Z; memory_total : Z; swap_used : Z; swap_total : Z; disks : list DiskState; net_io : list NetStat;
  load_1 : f64; load_5 : f64; load_15 : f64; tcp_connections : Z; udp_connections : Z; process_count : Z;
  temperatures : list TempSensor; gpus : Z;              (** how many are listed *)
  uptime_seconds : Z;
}.
Record HostInfo := {
  hostname : rstr; os : rstr; platform : rstr; platform_version : rstr; kernel_version : rstr; arch : rstr; cpu_cores : Z;
  total_memory : Z; total_swap : Z; h_disks : list DiskInfo;
}.

(** ** Cleaning

    Each step gives the value and whether it differs from what was reported: the
    [&mut bool] of the code is the disjunction of them. *)

Definition f64_clamp (lo hi x : f64) : f64 := if f64_lt x lo then lo else if f64_gt x hi then hi else x.
Definition sanitize_f64 (lo hi x : f64) : f64 * bool :=
  if negb (is_finite x) then (f64_zero, true) else
  if negb (f64_le lo x && f64_le x hi) then (f64_clamp lo hi x, true) else (x, false).

Definition f64_100 : f64 := f64_of_Z 100.
Definition f64_million : f64 := f64_of_Z 1000000.
Definition f64_1000 : f64 := f64_of_Z 1000.
Definition absolute_zero : f64 := f64_of_decimal true 27315 (-2).
Definition sanitize_percentage_f64 (x : f64) : f64 * bool := sanitize_f64 f64_zero f64_100 x.
Definition sanitize_non_negative_f64 (x max : f64) : f64 * bool := sanitize_f64 f64_zero max x.
Definition sanitize_temperature_f64 (x : f64) : f64 * bool := sanitize_f64 absolute_zero f64_1000 x.

(** [used] is the length in bytes of what was kept. *)
Fixpoint bounded_from (used : Z) (value : rstr) : rstr * bool :=
  match value with
  | [] => ([], false)
  | ch :: value =>
      if is_control ch then ((bounded_from used value).1, true) else
      if AGENT_TELEMETRY_MAX_STRING_BYTES <? used + len_utf8 ch then ([], true) else
      let '(rest, cut) := bounded_from (used + len_utf8 ch) value in (ch :: rest, cut)
  end.
Definition bounded_telemetry_string (value : rstr) : rstr * bool := bounded_from 0 value.
Definition forced_bounded_telemetry_string (value : rstr) : rstr := (bounded_telemetry_string value).1.

(** ** JSON *)

(** [json!({ ... })], and numbers. *)
Definition obj (fields : list (rstr * json)) : json := JObject (foldl (fun m kv => bt_insert kv.1 kv.2 m) [] fields).
Definition unsigned (n : Z) : json := JNumber (PosInt n).
Definition float (x : f64) : json := JNumber (Float x).

(** The first [AGENT_TELEMETRY_MAX_ITEMS] items, and whether there are more. *)
Definition bounded_items {A} (f : A → json * bool) (items : list A) : list json * bool :=
  let kept := f <$> take AGENT_TELEMETRY_MAX_ITEMS items in
  (kept.*1, (AGENT_TELEMETRY_MAX_ITEMS <? length items)%nat || existsb snd kept).

Definition disk_json (mount : rstr) (d : DiskState) : json :=
  obj [(lit "mount_point", JString mount); (lit "used", unsigned (d_used d)); (lit "total", unsigned (d_total d))].
Definition net_json (interface : rstr) (n : NetStat) : json :=
  obj [(lit "interface", JString interface); (lit "bytes_sent", unsigned (n_bytes_sent n)); (lit "bytes_recv", unsigned (n_bytes_recv n))].
Definition temp_json (label : rstr) (temp : f64) : json := obj [(lit "label", JString label); (lit "temperature", float temp)].

Definition clean_disk (d : DiskState) : json * bool :=
  let '(mount, cut) := bounded_telemetry_string (d_mount_point d) in (disk_json mount d, cut).
Definition clean_net (n : NetStat) : json * bool :=
  let '(interface, cut) := bounded_telemetry_string (n_interface n) in (net_json interface n, cut).
Definition clean_temp (t : TempSensor) : json * bool :=
  let '(temp, moved) := sanitize_temperature_f64 (t_temperature t) in
  let '(label, cut) := bounded_telemetry_string (t_label t) in (temp_json label temp, moved || cut).

Definition network_total (f : NetStat → Z) (stats : list NetStat) : Z :=
  foldl (fun sum n => saturating_add u64_max sum (f n)) 0 (take AGENT_TELEMETRY_MAX_ITEMS stats).

(** The object of [state_to_json], from the parts that are cleaned. *)
Definition state_object (s : HostState) (cpu l1 l5 l15 : f64) (ds ns ts : list json) (truncated : bool) : json :=
  obj [(lit "cpu_percent", float cpu); (lit "memory_used", unsigned (memory_used s)); (lit "memory_total", unsigned (memory_total s));
       (lit "swap_used", unsigned (swap_used s)); (lit "swap_total", unsigned (swap_total s)); (lit "load_1", float l1);
       (lit "load_5", float l5); (lit "load_15", float l15); (lit "tcp_connections", unsigned (tcp_connections s));
       (lit "udp_connections", unsigned (udp_connections s)); (lit "process_count", unsigned (process_count s));
       (lit "disks", JArray ds); (lit "net_io", JArray ns);
       (lit "network_in_total", unsigned (network_total n_bytes_recv (net_io s)));
       (lit "network_out_total", unsigned (network_total n_bytes_sent (net_io s)));
       (lit "uptime_seconds", unsigned (uptime_seconds s)); (lit "temperatures", JArray ts);
       (lit "telemetry_truncated", JBool truncated)].

Section serialize.
Context (to_string : json → option rstr).    (** [serde_json::to_string] *)

Definition serialize_telemetry_json (value fallback : json) : rstr :=
  let serialized := default [] (to_string value) in
  if byte_len serialized <=? AGENT_TELEMETRY_MAX_JSON_BYTES then serialized else
  let fallback := default [] (to_string fallback) in
  if byte_len fallback <=? AGENT_TELEMETRY_MAX_JSON_BYTES then fallback
  else lit "{" ++ [34] ++ lit "telemetry_truncated" ++ [34] ++ lit ":true}".

Definition state_value (s : HostState) : json * json :=
  let '(ds, f1) := bounded_items clean_disk (disks s) in
  let '(ns, f2) := bounded_items clean_net (net_io s) in
  let '(ts, f3) := bounded_items clean_temp (temperatures s) in
  let '(cpu, f4) := sanitize_percentage_f64 (cpu_percent s) in
  let '(l1, f5) := sanitize_non_negative_f64 (load_1 s) f64_million in
  let '(l5, f6) := sanitize_non_negative_f64 (load_5 s) f64_million in
  let '(l15, f7) := sanitize_non_negative_f64 (load_15 s) f64_million in
  let truncated := negb (gpus s =? 0) || f1 || f2 || f3 || f4 || f5 || f6 || f7 in
  (state_object s cpu l1 l5 l15 ds ns ts truncated, state_object s cpu l1 l5 l15 [] [] [] true).
Definition state_to_json (s : HostState) : rstr := let '(value, fallback) := state_value s in serialize_telemetry_json value fallback.

Definition info_disk_json (device mount fs : rstr) (d : DiskInfo) : json :=
  obj [(lit "device", JString device); (lit "mount_point", JString mount); (lit "fs_type", JString fs); (lit "total", unsigned (i_total d))].
Definition clean_info_disk (d : DiskInfo) : json * bool :=
  let '(device, f1) := bounded_telemetry_string (i_device d) in
  let '(mount, f2) := bounded_telemetry_string (i_mount_point d) in
  let '(fs, f3) := bounded_telemetry_string (i_fs_type d) in (info_disk_json device mount fs d, f1 || f2 || f3).
Definition info_object (h : HostInfo) (texts : list rstr) (ds : list json) (truncated : bool) : json :=
  obj (zip [lit "hostname"; lit "os"; lit "platform"; lit "platform_version"; lit "kernel_version"; lit "arch"] (JString <$> texts)
       ++ [(lit "cpu_cores", unsigned (cpu_cores h)); (lit "total_memory", unsigned (total_memory h));
           (lit "total_swap", unsigned (total_swap h)); (lit "disks", JArray ds); (lit "telemetry_truncated", JBool truncated)]).
Definition info_texts (h : HostInfo) : list rstr := [hostname h; os h; platform h; platform_version h; kernel_version h; arch h].
Definition info_value (h : HostInfo) : json * json :=
  let '(ds, f1) := bounded_items clean_info_disk (h_disks h) in
  let texts := bounded_telemetry_string <$> info_texts h in
  (info_object h texts.*1 ds (f1 || existsb snd texts), info_object h (forced_bounded_telemetry_string <$> info_texts h) [] true).
Definition info_to_json (info : option HostInfo) : rstr :=
  match info with
  | None => []
  | Some h => let '(value, fallback) := info_value h in serialize_telemetry_json value fallback
  end.
End serialize.

(** ** Addresses *)

Definition normalized_geo_ip_report_value (value : rstr) : option rstr :=
  let value := trim value in
  if is_empty value || (AGENT_GEO_IP_MAX_TEXT_BYTES <? byte_len value) then None else print_ip <$> parse_ip value.
Definition normalized_geo_ip_report (ipv4 ipv6 : rstr) : option rstr * option rstr :=
  (normalized_geo_ip_report_value ipv4, normalized_geo_ip_report_value ipv6).

End Telemetry.
