(* ===== verification/TelemetryProofs.v ===== *)
(** * TelemetryProofs: reports are stored as they are, or flagged

    A report inside the limits is stored exactly; anything else is brought inside
    them and flagged. *)

From S2P Require Import Prelude Text BTreeMap Json Externals Net Telemetry.
From Stdlib Require Import SpecFloat.

Module TelemetryProofs.
Import Telemetry.

(** ** Numbers *)

Lemma f64_le_lt x y : is_finite x = true → is_finite y = true → f64_le y x = negb (f64_lt x y).
Proof.
  assert (∀ p q : positive, CompOpp (Pos.compare p q) = Pos.compare q p) as Hpos by (intros p q; symmetry; apply Pos.compare_antisym).
  assert (∀ a b, CompOpp (Z.compare a b) = Z.compare b a) as HZ by (intros a b; symmetry; apply Z.compare_antisym).
  unfold f64_le, f64_lt, SFleb, SFltb.
  destruct x as [sx|sx| |sx mx ex], y as [sy|sy| |sy my ey]; intros Hx Hy; try done; cbn; try (by destruct sx); try (by destruct sy); try (by destruct sx, sy).
  destruct sx, sy; cbn; try done; rewrite <-(HZ ex ey); destruct (ex ?= ey)%Z; cbn; try done;
    change (Pos.compare_cont Eq mx my) with (Pos.compare mx my); change (Pos.compare_cont Eq my mx) with (Pos.compare my mx);
    rewrite <-(Hpos mx my); by destruct (Pos.compare mx my).
Qed.

Definition in_range (lo hi x : f64) : Prop := is_finite x = true ∧ f64_le lo x = true ∧ f64_le x hi = true.
Instance in_range_dec lo hi x : Decision (in_range lo hi x).
Proof. unfold in_range. apply _. Defined.

(** [x] is what is kept of a number: the number, the nearer bound, or zero for what
    is no number. *)
Inductive brought (lo hi reported x : f64) : Prop :=
| kept : in_range lo hi reported → x = reported → brought lo hi reported x
| raised : is_finite reported = true → f64_lt reported lo = true → x = lo → brought lo hi reported x
| lowered : is_finite reported = true → f64_gt reported hi = true → x = hi → brought lo hi reported x
| no_number : is_finite reported = false → x = f64_zero → brought lo hi reported x.

Lemma sanitize_f64_spec lo hi x :
  is_finite lo = true → is_finite hi = true →
  brought lo hi x (sanitize_f64 lo hi x).1 ∧ (sanitize_f64 lo hi x).2 = negb (bool_decide (in_range lo hi x)).
Proof.
  intros Hlo Hhi. unfold sanitize_f64. destruct (is_finite x) eqn:Ef; cbn [negb].
  2:{ split; [by apply no_number|]. rewrite bool_decide_eq_false_2; [done|]. intros [Hf _]. congruence. }
  destruct (f64_le lo x && f64_le x hi) eqn:Er; cbn [negb fst snd].
  - apply andb_true_iff in Er as [E1 E2]. assert (in_range lo hi x) as Hx by done. split; [by apply kept|]. by rewrite bool_decide_eq_true_2.
  - assert (¬ in_range lo hi x) as Hx by (intros (_ & E1 & E2); by rewrite E1, E2 in Er). split; [|by rewrite bool_decide_eq_false_2].
    unfold f64_clamp. destruct (f64_lt x lo) eqn:E1; [by apply raised|]. destruct (f64_gt x hi) eqn:E2; [by apply lowered|]. destruct Hx.
    split_and!; [done| |].
    + rewrite f64_le_lt by done. by rewrite E1.
    + rewrite f64_le_lt by done. unfold f64_gt in E2. unfold f64_lt. by rewrite E2.
Qed.

(** ** Strings *)

Definition short_text (s : rstr) : Prop := byte_len s <= AGENT_TELEMETRY_MAX_STRING_BYTES ∧ Forall (fun ch => is_control ch = false) s.
Instance short_text_dec s : Decision (short_text s).
Proof. unfold short_text. apply _. Defined.

(** [kept] is the longest text that fits, of what is left of [reported] without its
    control characters. *)
Definition no_controls (s : rstr) : rstr := filter (fun ch => is_control ch = false) s.
Definition cut_text (used : Z) (reported kept : rstr) : Prop :=
  used + byte_len kept <= AGENT_TELEMETRY_MAX_STRING_BYTES ∧
  ∃ rest, no_controls reported = kept ++ rest ∧
    match rest with [] => True | ch :: _ => AGENT_TELEMETRY_MAX_STRING_BYTES < used + byte_len kept + len_utf8 ch end.

Lemma bounded_from_spec used s :
  0 <= used <= AGENT_TELEMETRY_MAX_STRING_BYTES →
  let '(r, cut) := bounded_from used s in
  cut_text used s r ∧ (cut = false ↔ used + byte_len s <= AGENT_TELEMETRY_MAX_STRING_BYTES ∧ Forall (fun ch => is_control ch = false) s).
Proof.
  unfold cut_text, no_controls. revert used. induction s as [|ch s IH]; intros used Hu; cbn [bounded_from].
  { cbn. split; [split; [lia|by exists []]|]. split; [intros _; split; [lia|constructor]|done]. }
  assert (1 <= len_utf8 ch) as Hlen by (unfold len_utf8; repeat case_match; lia).
  assert (∀ t, byte_len (ch :: t) = len_utf8 ch + byte_len t) as Hb by done.
  pose proof (byte_len_nonneg s) as Hs. rewrite filter_cons. destruct (is_control ch) eqn:Ec.
  { specialize (IH used Hu). destruct (bounded_from used s) as [r cut]. destruct IH as [IH _]. cbn [fst]. split; [done|].
    split; [done|]. intros [_ Hf]. apply Forall_cons in Hf as [Hf _]. congruence. }
  rewrite decide_True by done. destruct (AGENT_TELEMETRY_MAX_STRING_BYTES <? used + len_utf8 ch) eqn:El; bool_prop.
  { change (byte_len []) with 0. split; [split; [lia|]|].
    - exists (ch :: filter (fun ch => is_control ch = false) s). split; [done|lia].
    - split; [done|]. intros [Hl _]. rewrite Hb in Hl. lia. }
  specialize (IH (used + len_utf8 ch)). destruct (bounded_from (used + len_utf8 ch) s) as [r cut]. destruct IH as ((H1 & rest & H2 & H3) & H4); [lia|].
  rewrite !Hb. split; [split; [lia|]|].
  - exists rest. cbn. rewrite H2. split; [done|]. destruct rest; [done|lia].
  - rewrite H4. split.
    + intros [Hl Hf]. split; [lia|by constructor].
    + intros [Hl Hf]. apply Forall_cons in Hf as [_ Hf]. split; [lia|done].
Qed.

Lemma bounded_spec s :
  cut_text 0 s (bounded_telemetry_string s).1 ∧ (bounded_telemetry_string s).2 = negb (bool_decide (short_text s)).
Proof.
  unfold bounded_telemetry_string, short_text. pose proof (bounded_from_spec 0 s ltac:(done)) as Hs. destruct (bounded_from 0 s) as [r cut].
  destruct Hs as [H1 H2]. cbn [fst snd]. split; [done|]. case_bool_decide as Hd; [by apply H2|]. destruct cut; [done|]. destruct Hd. by apply H2.
Qed.

(** A text inside the limits is kept as it is. *)
Lemma cut_text_short s kept : short_text s → cut_text 0 s kept → kept = s.
Proof.
  intros [Hl Hf] (_ & rest & Hc & Hr). assert (no_controls s = s) as Hs.
  { unfold no_controls. clear Hl Hc. induction Hf as [|ch l Hch _ IH]; [done|]. by rewrite filter_cons_True, IH. }
  rewrite Hs in Hc. subst s.
  destruct rest as [|ch rest]; [by rewrite app_nil_r|]. exfalso. rewrite byte_len_app in Hl. change (byte_len (ch :: rest)) with (len_utf8 ch + byte_len rest) in Hl.
  pose proof (byte_len_nonneg rest). lia.
Qed.

(** ** Lists *)

(** A cleaning of items: what it gives is related to the item by [R], and it is
    flagged unless the item satisfies [G]. *)
Definition cleans {A} (f : A → json * bool) (G : A → Prop) (R : A → json → Prop) `{∀ a, Decision (G a)} : Prop :=
  ∀ a, R a (f a).1 ∧ (f a).2 = negb (bool_decide (G a)).
Definition items_ok {A} (G : A → Prop) (items : list A) : Prop := (length items <= AGENT_TELEMETRY_MAX_ITEMS)%nat ∧ Forall G items.
Instance items_ok_dec {A} (G : A → Prop) `{∀ a, Decision (G a)} items : Decision (items_ok G items).
Proof. unfold items_ok. apply _. Defined.

Lemma bounded_items_spec {A} (f : A → json * bool) G R `{∀ a, Decision (G a)} items :
  cleans f G R →
  let '(r, cut) := bounded_items f items in
  Forall2 R (take AGENT_TELEMETRY_MAX_ITEMS items) r ∧ cut = negb (bool_decide (items_ok G items)).
Proof.
  intros Hf. unfold bounded_items.
  assert (Hcut : existsb snd (f <$> take AGENT_TELEMETRY_MAX_ITEMS items) = negb (bool_decide (Forall G (take AGENT_TELEMETRY_MAX_ITEMS items)))).
  { generalize (take AGENT_TELEMETRY_MAX_ITEMS items) as l. intros l. induction l as [|a l IH]; [by rewrite bool_decide_eq_true_2|].
    cbn [fmap list_fmap existsb]. rewrite IH. destruct (Hf a) as [_ ->]. rewrite <-negb_andb. f_equal. rewrite <-bool_decide_and.
    apply bool_decide_ext. by rewrite Forall_cons. }
  split.
  - rewrite <-list_fmap_compose. apply Forall2_fmap_r, Forall_Forall2_diag, Forall_forall. intros a _. apply Hf.
  - rewrite Hcut. destruct (Nat.ltb_spec AGENT_TELEMETRY_MAX_ITEMS (length items)) as [Hl|Hl]; cbn [orb].
    + rewrite bool_decide_eq_false_2; [done|]. intros [Hl' _]. lia.
    + f_equal. apply bool_decide_ext. unfold items_ok. rewrite take_ge by lia. naive_solver lia.
Qed.

(** ** Objects *)

(** The members of an object, whatever their order. *)
Definition has_members (v : json) (fields : list (rstr * json)) : Prop :=
  (∀ k x, (k, x) ∈ fields → json_get k v = Some x) ∧ ∀ k, is_Some (json_get k v) → k ∈ fields.*1.

Lemma fold_get fields (m : list (rstr * json)) k :
  (∀ x, (k, x) ∈ fields → NoDup fields.*1 → bt_get k (foldl (fun m kv => bt_insert kv.1 kv.2 m) m fields) = Some x) ∧
  (k ∉ fields.*1 → bt_get k (foldl (fun m kv => bt_insert kv.1 kv.2 m) m fields) = bt_get k m).
Proof.
  revert m. induction fields as [|[k0 x0] fields IH]; intros m; cbn.
  { split; [intros x Hx; by apply not_elem_of_nil in Hx|done]. }
  split.
  - intros x Hx [Hn Hd]%NoDup_cons. apply elem_of_cons in Hx as [[= <- <-]|Hx]; [|by apply IH].
    rewrite (proj2 (IH _)) by done. apply bt_get_insert.
  - intros [Hk Hn]%not_elem_of_cons. rewrite (proj2 (IH _)) by done. by apply bt_get_insert_ne.
Qed.
Lemma obj_members fields fields' : NoDup fields.*1 → fields ≡ₚ fields' → has_members (obj fields) fields'.
Proof.
  intros Hd Hp. split.
  - intros k x Hx. rewrite <-Hp in Hx. by apply (proj1 (fold_get fields [] k)).
  - intros k Hk. rewrite <-Hp. destruct (decide (k ∈ fields.*1)) as [|Hn]; [done|]. cbn in Hk. rewrite (proj2 (fold_get fields [] k)) in Hk by done. by destruct Hk.
Qed.

(** ** Reports *)

Definition good_temp (t : TempSensor) : Prop := in_range absolute_zero f64_1000 (t_temperature t) ∧ short_text (t_label t).
Instance good_temp_dec t : Decision (good_temp t).
Proof. unfold good_temp. apply _. Defined.

(** What is found in the object of a disk, an interface, a sensor. *)
Definition disk_stored (d : DiskState) (v : json) : Prop :=
  ∃ mount, cut_text 0 (d_mount_point d) mount ∧
    has_members v [(lit "used", JNumber (PosInt (d_used d))); (lit "total", JNumber (PosInt (d_total d))); (lit "mount_point", JString mount)].
Definition net_stored (n : NetStat) (v : json) : Prop :=
  ∃ interface, cut_text 0 (n_interface n) interface ∧
    has_members v [(lit "bytes_recv", JNumber (PosInt (n_bytes_recv n))); (lit "bytes_sent", JNumber (PosInt (n_bytes_sent n)));
                   (lit "interface", JString interface)].
Definition temp_stored (t : TempSensor) (v : json) : Prop :=
  ∃ label temp, cut_text 0 (t_label t) label ∧ brought absolute_zero f64_1000 (t_temperature t) temp ∧
    has_members v [(lit "temperature", JNumber (Float temp)); (lit "label", JString label)].

Lemma clean_disk_ok : cleans clean_disk (fun d => short_text (d_mount_point d)) disk_stored.
Proof.
  intros d. unfold clean_disk. destruct (bounded_spec (d_mount_point d)) as [H1 H2].
  destruct (bounded_telemetry_string _) as [m cut]. cbn [fst snd] in *. split; [|done]. exists m. split; [done|].
  apply obj_members; [apply (bool_decide_unpack _); by vm_compute|solve_Permutation].
Qed.
Lemma clean_net_ok : cleans clean_net (fun n => short_text (n_interface n)) net_stored.
Proof.
  intros n. unfold clean_net. destruct (bounded_spec (n_interface n)) as [H1 H2].
  destruct (bounded_telemetry_string _) as [m cut]. cbn [fst snd] in *. split; [|done]. exists m. split; [done|].
  apply obj_members; [apply (bool_decide_unpack _); by vm_compute|solve_Permutation].
Qed.
Lemma clean_temp_ok : cleans clean_temp good_temp temp_stored.
Proof.
  intros t. unfold clean_temp, sanitize_temperature_f64.
  destruct (sanitize_f64_spec absolute_zero f64_1000 (t_temperature t)) as [R1 R2]; [by vm_compute..|].
  destruct (sanitize_f64 _ _ _) as [x moved]. destruct (bounded_spec (t_label t)) as [H1 H2].
  destruct (bounded_telemetry_string _) as [m cut]. cbn [fst snd] in *. split.
  - exists m, x. split_and!; [done..|]. apply obj_members; [apply (bool_decide_unpack _); by vm_compute|solve_Permutation].
  - rewrite R2, H2, <-negb_andb, <-bool_decide_and. done.
Qed.

(** A report that is stored as it is. *)
Definition within_limits (s : HostState) : Prop :=
  gpus s = 0 ∧ items_ok (fun d => short_text (d_mount_point d)) (disks s) ∧ items_ok (fun n => short_text (n_interface n)) (net_io s)
  ∧ items_ok good_temp (temperatures s) ∧ in_range f64_zero f64_100 (cpu_percent s) ∧ in_range f64_zero f64_million (load_1 s)
  ∧ in_range f64_zero f64_million (load_5 s) ∧ in_range f64_zero f64_million (load_15 s).
Instance within_limits_dec s : Decision (within_limits s).
Proof. unfold within_limits. apply _. Defined.

(** The sum over the interfaces that are kept, up to the largest 64-bit number. *)
Definition total (f : NetStat → Z) (stats : list NetStat) : Z := Z.min u64_max (foldr Z.add 0 (f <$> take AGENT_TELEMETRY_MAX_ITEMS stats)).
(** The counters of a report are unsigned. *)
Definition reported (s : HostState) : Prop := Forall (fun n => 0 <= n_bytes_recv n ∧ 0 <= n_bytes_sent n) (net_io s).

(** What is found in the object of a report: its counters, its numbers brought into
    range, the given lists and flag, and nothing else. *)
Definition report_stored (s : HostState) (ds ns ts : list json) (truncated : bool) (v : json) : Prop :=
  ∃ cpu l1 l5 l15,
    brought f64_zero f64_100 (cpu_percent s) cpu ∧ brought f64_zero f64_million (load_1 s) l1 ∧
    brought f64_zero f64_million (load_5 s) l5 ∧ brought f64_zero f64_million (load_15 s) l15 ∧
    has_members v
      [(lit "telemetry_truncated", JBool truncated);
       (lit "cpu_percent", JNumber (Float cpu)); (lit "load_1", JNumber (Float l1)); (lit "load_5", JNumber (Float l5)); (lit "load_15", JNumber (Float l15));
       (lit "memory_total", JNumber (PosInt (memory_total s))); (lit "memory_used", JNumber (PosInt (memory_used s)));
       (lit "swap_total", JNumber (PosInt (swap_total s))); (lit "swap_used", JNumber (PosInt (swap_used s)));
       (lit "network_out_total", JNumber (PosInt (total n_bytes_sent (net_io s))));
       (lit "network_in_total", JNumber (PosInt (total n_bytes_recv (net_io s))));
       (lit "process_count", JNumber (PosInt (process_count s))); (lit "uptime_seconds", JNumber (PosInt (uptime_seconds s)));
       (lit "udp_connections", JNumber (PosInt (udp_connections s))); (lit "tcp_connections", JNumber (PosInt (tcp_connections s)));
       (lit "disks", JArray ds); (lit "net_io", JArray ns); (lit "temperatures", JArray ts)].

Lemma network_total_sum f stats : Forall (fun n => 0 <= f n) stats → network_total f stats = total f stats.
Proof.
  intros Hf. unfold network_total, total. assert (Forall (fun n => 0 <= f n) (take AGENT_TELEMETRY_MAX_ITEMS stats)) as Ht by by apply Forall_take.
  revert Ht. generalize (take AGENT_TELEMETRY_MAX_ITEMS stats) as l. clear Hf. intros l Hl.
  assert (∀ a, 0 <= a <= u64_max → foldl (fun sum n => saturating_add u64_max sum (f n)) a l = Z.min u64_max (a + foldr Z.add 0 (f <$> l))
    ∧ 0 <= foldr Z.add 0 (f <$> l)) as H; [|apply (H 0); done].
  induction Hl as [|n l Hn _ IH]; intros a Ha; cbn; [lia|].
  destruct (IH (saturating_add u64_max a (f n))) as [-> Hp]; unfold saturating_add; lia.
Qed.

Lemma object_members s cpu l1 l5 l15 ds ns ts flag :
  reported s → brought f64_zero f64_100 (cpu_percent s) cpu → brought f64_zero f64_million (load_1 s) l1 →
  brought f64_zero f64_million (load_5 s) l5 → brought f64_zero f64_million (load_15 s) l15 →
  report_stored s ds ns ts flag (state_object s cpu l1 l5 l15 ds ns ts flag).
Proof.
  intros Hr Hc H1 H5 H15. exists cpu, l1, l5, l15. split_and!; [done..|]. unfold state_object. rewrite !network_total_sum by (eapply Forall_impl; [exact Hr|]; naive_solver).
  apply obj_members; [apply (bool_decide_unpack _); by vm_compute|solve_Permutation].
Qed.

Lemma state_value_spec s :
  reported s →
  ∃ ds ns ts,
    report_stored s ds ns ts (negb (bool_decide (within_limits s))) (state_value s).1 ∧ report_stored s [] [] [] true (state_value s).2
    ∧ Forall2 disk_stored (take AGENT_TELEMETRY_MAX_ITEMS (disks s)) ds ∧ Forall2 net_stored (take AGENT_TELEMETRY_MAX_ITEMS (net_io s)) ns
    ∧ Forall2 temp_stored (take AGENT_TELEMETRY_MAX_ITEMS (temperatures s)) ts.
Proof.
  intros Hr. unfold state_value, sanitize_percentage_f64, sanitize_non_negative_f64.
  pose proof (bounded_items_spec _ _ _ (disks s) clean_disk_ok) as Hd. destruct (bounded_items clean_disk _) as [ds f1]. destruct Hd as [D1 ->].
  pose proof (bounded_items_spec _ _ _ (net_io s) clean_net_ok) as Hn. destruct (bounded_items clean_net _) as [ns f2]. destruct Hn as [N1 ->].
  pose proof (bounded_items_spec _ _ _ (temperatures s) clean_temp_ok) as Ht. destruct (bounded_items clean_temp _) as [ts f3]. destruct Ht as [T1 ->].
  assert (∀ x, brought f64_zero f64_million x (sanitize_f64 f64_zero f64_million x).1 ∧
    (sanitize_f64 f64_zero f64_million x).2 = negb (bool_decide (in_range f64_zero f64_million x))) as Hload by (intros x; by apply sanitize_f64_spec; vm_compute).
  destruct (sanitize_f64_spec f64_zero f64_100 (cpu_percent s)) as [C1 C2]; [by vm_compute..|].
  pose proof (Hload (load_1 s)) as [L1 L1']. pose proof (Hload (load_5 s)) as [L5 L5']. pose proof (Hload (load_15 s)) as [L15 L15'].
  clear Hload. destruct (sanitize_f64 f64_zero f64_100 _) as [cpu f4], (sanitize_f64 f64_zero f64_million (load_1 s)) as [l1 f5],
    (sanitize_f64 f64_zero f64_million (load_5 s)) as [l5 f6], (sanitize_f64 f64_zero f64_million (load_15 s)) as [l15 f7]. cbn [fst snd] in *. subst f4 f5 f6 f7.
  exists ds, ns, ts. split_and!; [|by apply object_members|done..].
  assert (negb (gpus s =? 0) = negb (bool_decide (gpus s = 0))) as Hg
    by (f_equal; destruct (Z.eqb_spec (gpus s) 0); [by rewrite bool_decide_eq_true_2|by rewrite bool_decide_eq_false_2]).
  replace (negb (bool_decide (within_limits s))) with (negb (gpus s =? 0) || negb (bool_decide (items_ok (fun d => short_text (d_mount_point d)) (disks s)))
    || negb (bool_decide (items_ok (fun n => short_text (n_interface n)) (net_io s))) || negb (bool_decide (items_ok good_temp (temperatures s)))
    || negb (bool_decide (in_range f64_zero f64_100 (cpu_percent s))) || negb (bool_decide (in_range f64_zero f64_million (load_1 s)))
    || negb (bool_decide (in_range f64_zero f64_million (load_5 s))) || negb (bool_decide (in_range f64_zero f64_million (load_15 s)))).
  - by apply object_members.
  - rewrite Hg, <-!negb_andb. f_equal. rewrite <-!bool_decide_and. apply bool_decide_ext. unfold within_limits. tauto.
Qed.

(** C10: the text that is stored for a report is the JSON text of an object that
    has the report's counters under their names, its numbers (each the reported
    one if it is in range, otherwise the nearer bound, or zero for infinities and
    NaN), the network totals over the listed interfaces, and the first 64 disks,
    interfaces and sensors in order, their texts cut to the longest 128 bytes
    without control characters; and nothing else. It is marked truncated exactly
    when the report was not inside the limits. Only if that text is over 256 KiB
    is the text of the object without the lists stored, marked truncated (and if
    [to_string] made even that too long, a constant text that says so). *)
Theorem telemetry_exact to_string s :
  reported s →
  ∃ full short ds ns ts,
    report_stored s ds ns ts (negb (bool_decide (within_limits s))) full ∧
    Forall2 disk_stored (take AGENT_TELEMETRY_MAX_ITEMS (disks s)) ds ∧ Forall2 net_stored (take AGENT_TELEMETRY_MAX_ITEMS (net_io s)) ns ∧
    Forall2 temp_stored (take AGENT_TELEMETRY_MAX_ITEMS (temperatures s)) ts ∧
    report_stored s [] [] [] true short ∧
    ∀ full_text short_text, to_string full = Some full_text → to_string short = Some short_text →
      (byte_len full_text <= 262144 → state_to_json to_string s = full_text) ∧
      (262144 < byte_len full_text → byte_len short_text <= 262144 → state_to_json to_string s = short_text) ∧
      byte_len (state_to_json to_string s) <= 262144.
Proof.
  intros Hr. destruct (state_value_spec s Hr) as (ds & ns & ts & Hf & Hs & Hd & Hn & Ht). exists (state_value s).1, (state_value s).2, ds, ns, ts.
  split_and!; [done..|]. unfold state_to_json. destruct (state_value s) as [full short]. cbn [fst snd]. intros ft st Hft Hst.
  unfold serialize_telemetry_json. rewrite Hft, Hst. change AGENT_TELEMETRY_MAX_JSON_BYTES with 262144. cbn [default from_option]. unfold id.
  destruct (Z.leb_spec (byte_len ft) 262144); [split_and!; [done|lia..]|].
  destruct (Z.leb_spec (byte_len st) 262144); split_and!; try done; intros; lia.
Qed.

(** A report with a mount point that has a control character, and a CPU of 250%. *)
Definition report0 : HostState :=
  {| cpu_percent := f64_of_Z 250; memory_used := 10; memory_total := 20; swap_used := 1; swap_total := 2;
     disks := [{| d_mount_point := lit "/" ++ [10] ++ lit "data"; d_used := 3; d_total := 4 |}];
     net_io := [{| n_interface := lit "eth0"; n_bytes_sent := 100; n_bytes_recv := u64_max |}; {| n_interface := lit "eth1"; n_bytes_sent := 7; n_bytes_recv := 1 |}];
     load_1 := f64_of_Z 1; load_5 := f64_of_Z 2; load_15 := f64_of_Z 3; tcp_connections := 5; udp_connections := 6; process_count := 7;
     temperatures := []; gpus := 0; uptime_seconds := 9 |}.
(** A printer that writes the members a reader would look at. *)
Definition print0 (v : json) : option rstr :=
  Some (match json_get (lit "telemetry_truncated") v with Some (JBool b) => if b then lit "cut" else lit "all" | _ => [] end).
Lemma telemetry_exact_witness :
  state_to_json print0 report0 = lit "cut" ∧ json_get (lit "cpu_percent") (state_value report0).1 = Some (JNumber (Float (f64_of_Z 100))) ∧
  json_get (lit "network_in_total") (state_value report0).1 = Some (JNumber (PosInt u64_max)) ∧
  ∃ full short ds ns ts,
    report_stored report0 ds ns ts (negb (bool_decide (within_limits report0))) full ∧
    Forall2 disk_stored (take AGENT_TELEMETRY_MAX_ITEMS (disks report0)) ds ∧ Forall2 net_stored (take AGENT_TELEMETRY_MAX_ITEMS (net_io report0)) ns ∧
    Forall2 temp_stored (take AGENT_TELEMETRY_MAX_ITEMS (temperatures report0)) ts ∧
    report_stored report0 [] [] [] true short ∧
    ∀ full_text short_text, print0 full = Some full_text → print0 short = Some short_text →
      (byte_len full_text <= 262144 → state_to_json print0 report0 = full_text) ∧
      (262144 < byte_len full_text → byte_len short_text <= 262144 → state_to_json print0 report0 = short_text) ∧
      byte_len (state_to_json print0 report0) <= 262144.
Proof.
  split; [vm_compute; reflexivity|]. split; [vm_compute; reflexivity|]. split; [vm_compute; reflexivity|].
  apply (telemetry_exact print0 report0). unfold reported. apply (bool_decide_unpack _). vm_compute. exact I.
Defined.
End TelemetryProofs.
