(* ===== verification/ServerMeta.v ===== *)
(** * ServerMeta: what the dashboard knows about a server

    The pure part of [crates/server/src/api/v1/servers.rs]: the checks and
    normal forms of what a request carries, the metadata stored with an Agent
    ([DashboardMetadata]), the values read from telemetry where nothing is stored,
    and the views that are returned. [serde_json] on [DashboardMetadata] and the
    printing of a float are arguments. *)

From S2P Require Import Prelude Text BTreeMap Json Externals Auth Accounts.
From Stdlib Require Import SpecFloat.

Module ServerMeta.

Definition ONLINE_THRESHOLD_SECS : Z := 30.
Definition SERVER_NAME_MAX_BYTES : Z := 128.
Definition SERVER_LABEL_MAX_BYTES : Z := 512.
Definition SERVER_DASHBOARD_METADATA_MAX_BYTES : Z := AGENT_DASHBOARD_METADATA_JSON_MAX_BYTES.
Definition SERVER_TAG_INPUT_MAX_ITEMS : Z := 64.
Definition SERVER_TAG_INPUT_MAX_BYTES : Z := 128.
Definition SERVER_BATCH_MAX_SERVER_IDS : Z := 200.
Definition SERVER_UUID_TEXT_LEN : Z := 36.
(** Literals of [normalize_tags] and [normalize_group_name]. *)
Definition TAG_CHARS : nat := 24.
Definition TAGS_KEPT : Z := 8.
Definition GROUP_NAME_MAX_BYTES : Z := 80.

Record DashboardMetadata := {
  dm_public_note : option rstr; dm_provider : option rstr; dm_region : option rstr; dm_country : option rstr; dm_city : option rstr;
  dm_latitude : option f64; dm_longitude : option f64; dm_plan : option rstr; dm_price : option rstr; dm_currency : option rstr;
  dm_billing_cycle : option rstr; dm_auto_renew : option bool; dm_traffic_quota_bytes : option Z; dm_traffic_quota_type : option rstr;
  dm_tags : list rstr; dm_accent_color : option rstr; dm_dashboard_visible : option bool; dm_hide_for_guest : option bool;
  dm_display_order : option Z;
}.
(** [DashboardMetadata::default()]. *)
Definition default_metadata : DashboardMetadata :=
  {| dm_public_note := None; dm_provider := None; dm_region := None; dm_country := None; dm_city := None; dm_latitude := None;
     dm_longitude := None; dm_plan := None; dm_price := None; dm_currency := None; dm_billing_cycle := None; dm_auto_renew := None;
     dm_traffic_quota_bytes := None; dm_traffic_quota_type := None; dm_tags := []; dm_accent_color := None; dm_dashboard_visible := None;
     dm_hide_for_guest := None; dm_display_order := None |}.
Definition with_tags (tags : list rstr) (m : DashboardMetadata) : DashboardMetadata :=
  {| dm_public_note := dm_public_note m; dm_provider := dm_provider m; dm_region := dm_region m; dm_country := dm_country m;
     dm_city := dm_city m; dm_latitude := dm_latitude m; dm_longitude := dm_longitude m; dm_plan := dm_plan m; dm_price := dm_price m;
     dm_currency := dm_currency m; dm_billing_cycle := dm_billing_cycle m; dm_auto_renew := dm_auto_renew m;
     dm_traffic_quota_bytes := dm_traffic_quota_bytes m; dm_traffic_quota_type := dm_traffic_quota_type m; dm_tags := tags;
     dm_accent_color := dm_accent_color m; dm_dashboard_visible := dm_dashboard_visible m; dm_hide_for_guest := dm_hide_for_guest m;
     dm_display_order := dm_display_order m |}.
Definition with_visible (visible : option bool) (m : DashboardMetadata) : DashboardMetadata :=
  {| dm_public_note := dm_public_note m; dm_provider := dm_provider m; dm_region := dm_region m; dm_country := dm_country m;
     dm_city := dm_city m; dm_latitude := dm_latitude m; dm_longitude := dm_longitude m; dm_plan := dm_plan m; dm_price := dm_price m;
     dm_currency := dm_currency m; dm_billing_cycle := dm_billing_cycle m; dm_auto_renew := dm_auto_renew m;
     dm_traffic_quota_bytes := dm_traffic_quota_bytes m; dm_traffic_quota_type := dm_traffic_quota_type m; dm_tags := dm_tags m;
     dm_accent_color := dm_accent_color m; dm_dashboard_visible := visible; dm_hide_for_guest := dm_hide_for_guest m;
     dm_display_order := dm_display_order m |}.

(** [serde_json] on the metadata, and how [Number] prints a float. *)
Class MetaLib : Type := {
  meta_to_string : DashboardMetadata → option rstr; meta_from_str : rstr → option DashboardMetadata; f64_to_string : f64 → rstr;
}.

(** ** Floats *)

(** [f64::round]: to the nearest integer, halves away from zero. *)
Definition f64_round (x : f64) : f64 :=
  match x with
  | S754_finite s m e =>
      if 0 <=? e then x else
      let d := 2 ^ (- e) in
      let q := Zpos m / d in
      let q := if d <=? 2 * (Zpos m mod d) then q + 1 else q in
      binary_normalize 53 1024 (if s then - q else q) 0 s
  | _ => x
  end.
(** [as i64]: toward zero, and saturating; a NaN is 0. *)
Definition f64_as_i64 (x : f64) : Z :=
  match x with
  | S754_finite s m e =>
      let a := if 0 <=? e then Zpos m * 2 ^ e else Zpos m / 2 ^ (- e) in
      if s then Z.max i64_min (- a) else Z.min i64_max a
  | S754_infinity s => if s then i64_min else i64_max
  | _ => 0
  end.
Definition f64_million : f64 := f64_of_Z 1000000.

(** ** Values from telemetry *)

Definition json_i64 (value : json) : option Z :=
  match as_i64 value with
  | Some n => Some n
  | None =>
      match as_u64 value with
      | Some n => if n <=? i64_max then Some n else None
      | None =>
          match as_f64 value with
          | Some x => if is_finite x && f64_ge x f64_zero && f64_le x (f64_of_Z i64_max) then Some (f64_as_i64 (f64_round x)) else None
          | None => None
          end
      end
  end.

Definition json_f64 (value : json) : option f64 :=
  x ← match as_f64 value with Some x => Some x | None => as_str value ≫= parse_f64 end;
  if is_finite x then Some x else None.

Definition number_to_string `{MetaLib} (n : number) : rstr :=
  match n with PosInt n | NegInt n => print_i64 n | Float x => f64_to_string x end.
Definition json_label `{MetaLib} (value : json) : option rstr :=
  match value with
  | JString value =>
      let trimmed := trim value in
      if negb (is_empty trimmed) && (byte_len trimmed <=? SERVER_LABEL_MAX_BYTES) && negb (existsb is_control trimmed) then Some trimmed else None
  | JNumber n => Some (number_to_string n)
  | JBool b => Some (if b then lit "true" else lit "false")
  | _ => None
  end.

(** The first of [keys] under which [f] finds a value. *)
Fixpoint by_keys {A} (f : json → option A) (value : json) (keys : list rstr) : option A :=
  match keys with
  | [] => None
  | key :: keys => match json_get key value ≫= f with Some x => Some x | None => by_keys f value keys end
  end.
(** The keys of the value itself, then those of its [containers]. *)
Fixpoint in_containers {A} (f : json → option A) (value : json) (containers keys : list rstr) : option A :=
  match containers with
  | [] => None
  | c :: containers =>
      match json_get c value ≫= (fun child => by_keys f child keys) with Some x => Some x | None => in_containers f value containers keys end
  end.
Definition from_value {A} (f : json → option A) (containers : list rstr) (value : json) (keys : list rstr) : option A :=
  match by_keys f value keys with Some x => Some x | None => in_containers f value containers keys end.
Fixpoint from_sources {A} (f : json → option A) (sources : list (option json)) : option A :=
  match sources with
  | [] => None
  | Some value :: sources => match f value with Some x => Some x | None => from_sources f sources end
  | None :: sources => from_sources f sources
  end.

Definition json_i64_by_keys (value : json) (keys : list rstr) : option Z := by_keys json_i64 value keys.

Definition LABEL_CONTAINERS : list rstr := [lit "billing"; lit "plan"; lit "metadata"; lit "custom"; lit "traffic"; lit "limits"].
Definition GEO_CONTAINERS : list rstr := [lit "geo"; lit "location"; lit "metadata"; lit "custom"; lit "network"].
Definition metadata_string_from_value `{MetaLib} (value : json) (keys : list rstr) : option rstr := from_value json_label LABEL_CONTAINERS value keys.
Definition metadata_string `{MetaLib} (sources : list (option json)) (keys : list rstr) : option rstr :=
  from_sources (fun v => metadata_string_from_value v keys) sources.
Definition metadata_i64_from_value (value : json) (keys : list rstr) : option Z := from_value json_i64 LABEL_CONTAINERS value keys.
Definition metadata_i64 (sources : list (option json)) (keys : list rstr) : option Z := from_sources (fun v => metadata_i64_from_value v keys) sources.
Definition metadata_f64_from_value (value : json) (keys : list rstr) : option f64 := from_value json_f64 GEO_CONTAINERS value keys.
Definition metadata_f64 (sources : list (option json)) (keys : list rstr) : option f64 := from_sources (fun v => metadata_f64_from_value v keys) sources.

Definition saturating_i64 (a b : Z) : Z := Z.max i64_min (Z.min i64_max (a + b)).
Definition network_total (value : json) (field : rstr) : option Z :=
  let direct_keys :=
    if bool_decide (field = lit "bytes_recv") then [lit "network_in_total"; lit "net_rx_bytes"; lit "bytes_recv_total"]
    else if bool_decide (field = lit "bytes_sent") then [lit "network_out_total"; lit "net_tx_bytes"; lit "bytes_sent_total"] else [] in
  match json_i64_by_keys value direct_keys with
  | Some n => Some n
  | None =>
      net_io ← match json_get (lit "net_io") value with Some v => Some v | None => json_get (lit "network_interfaces") value end ≫= as_array;
      let found := omap (fun item => json_get field item ≫= json_i64) net_io in
      if is_empty found then None else Some (foldl saturating_i64 0 found)
  end.

(** The samples of a series, from the newest to the oldest. *)
Fixpoint rate_from (latest : option (Z * Z)) (samples : list (Z * json)) (field : rstr) : option Z :=
  match samples with
  | [] => None
  | (at_, fields_json) :: samples =>
      match network_total fields_json field with
      | None => rate_from latest samples field
      | Some total =>
          match latest with
          | None => rate_from (Some (at_, total)) samples field
          | Some (latest_at, latest_total) =>
              let elapsed_ms := Z.quot (latest_at - at_) 1000000 in
              let delta := latest_total - total in
              if negb ((i64_min <=? delta) && (delta <=? i64_max)) then None else
              if (0 <? elapsed_ms) && (0 <=? delta)
              then Some (f64_as_i64 (f64_round (f64_div (f64_of_Z delta) (f64_div (f64_of_Z elapsed_ms) (f64_of_Z 1000)))))
              else rate_from (Some (at_, total)) samples field
          end
      end
  end.
Definition network_rate_from_series (samples : list (Z * json)) (field : rstr) : option Z := rate_from None (reverse samples) field.
Definition network_rates_from_store (series : option (list (Z * json))) : option Z * option Z :=
  match series with
  | None => (None, None)
  | Some samples => (network_rate_from_series samples (lit "bytes_recv"), network_rate_from_series samples (lit "bytes_sent"))
  end.

(** ** Requests *)

Section requests.
Context {E : Type} `{UuidLib}.
Abbreviation AppError := (Accounts.AppError E).
Definition bad {A} (text : rstr) : result AppError A := Err (Accounts.BadRequest text).

Definition normalize_server_name (value field : rstr) : result AppError rstr :=
  let value := trim value in
  if is_empty value then bad (field ++ lit " is required") else
  if SERVER_NAME_MAX_BYTES <? byte_len value then bad (field ++ lit " is too long") else
  if existsb is_control value then bad (field ++ lit " must not contain control characters") else Ok value.

Definition normalize_group_name (value : rstr) : result AppError rstr :=
  let value := trim value in
  if is_empty value then bad (lit "group name is required") else
  if GROUP_NAME_MAX_BYTES <? byte_len value then bad (lit "group name is too long") else
  if existsb is_control value then bad (lit "group name must not contain control characters") else Ok value.

Definition normalize_optional_label (value : option rstr) (field : rstr) : result AppError (option rstr) :=
  match value with
  | None => Ok None
  | Some value =>
      let value := trim value in
      if is_empty value then Ok None else
      if SERVER_LABEL_MAX_BYTES <? byte_len value then bad (field ++ lit " is too long") else
      if existsb is_control value then bad (field ++ lit " must not contain control characters") else Ok (Some value)
  end.

Definition require_server_uuid_text (value field : rstr) : result AppError rstr :=
  if is_empty value then bad (field ++ lit " is required") else
  if negb (byte_len value =? SERVER_UUID_TEXT_LEN) then bad (field ++ lit " must be a canonical UUID") else
  match uuid_parse value with
  | None => bad (field ++ lit " must be a canonical UUID")
  | Some parsed => if negb (bool_decide (uuid_to_string parsed = value)) then bad (field ++ lit " must be a canonical UUID") else Ok value
  end.
Definition normalize_uuid_text (value field : rstr) : result AppError rstr :=
  if is_empty value then bad (field ++ lit " is required") else require_server_uuid_text value field.
(** [Uuid::parse_str(&id).expect(..)]: the text was checked, so it parses. *)
Definition parse_checked (value field : rstr) : result AppError Z :=
  id ← require_server_uuid_text value field; Ok (default 0 (uuid_parse id)).
Definition parse_agent_id (id : rstr) : result AppError Z := parse_checked id (lit "server_id").
Definition parse_user_id (id : rstr) : result AppError Z := parse_checked id (lit "user_id").

Fixpoint dedupe_loop (ids out : list rstr) (field : rstr) : result AppError (list rstr) :=
  match ids with
  | [] => Ok out
  | id :: ids =>
      id ← normalize_uuid_text id field;
      if bool_decide (id ∈ out) then dedupe_loop ids out field else dedupe_loop ids (out ++ [id]) field
  end.
Definition dedupe_ids (ids : list rstr) (max_items : Z) (field : rstr) : result AppError (list rstr) :=
  if max_items <? zlen ids then bad (field ++ lit " must contain at most " ++ print_i64 max_items ++ lit " items") else dedupe_loop ids [] field.

Definition normalize_display_order (value : option Z) (field : rstr) : result AppError (option Z) :=
  match value with
  | None => Ok None
  | Some v => if (v <? - 2 ^ 31) || (2 ^ 31 - 1 <? v) then bad (field ++ lit " is out of range") else Ok (Some v)
  end.

Definition normalize_optional_coordinate (value : option f64) (field : rstr) (min max : f64) : result AppError (option f64) :=
  match value with
  | None => Ok None
  | Some v =>
      if negb (is_finite v) || f64_lt v min || f64_gt v max then bad (field ++ lit " is invalid")
      else Ok (Some (f64_div (f64_round (f64_mul v f64_million)) f64_million))
  end.

Definition normalize_accent_color (value : option rstr) : result AppError (option rstr) :=
  value ← normalize_optional_label value (lit "accent_color");
  match value with
  | None => Ok None
  | Some value =>
      if (byte_len value =? 7) && starts_with (lit "#") value && forallb Auth.is_ascii_hexdigit (drop 1 value) then Ok (Some value)
      else bad (lit "accent_color must be a hex color like #db2777")
  end.

Fixpoint normalize_tags_loop (tags out : list rstr) : list rstr :=
  match tags with
  | [] => out
  | tag :: tags =>
      let cleaned := trim tag in
      if is_empty cleaned || existsb is_control cleaned || bool_decide (cleaned ∈ out) then normalize_tags_loop tags out else
      let out := out ++ [take TAG_CHARS cleaned] in
      if TAGS_KEPT <=? zlen out then out else normalize_tags_loop tags out
  end.
Definition normalize_tags (tags : list rstr) : list rstr := normalize_tags_loop tags [].

Definition check_tag (tag : rstr) : result AppError unit :=
  let cleaned := trim tag in
  if SERVER_TAG_INPUT_MAX_BYTES <? byte_len cleaned then bad (lit "tag is too long") else
  if existsb is_control cleaned then bad (lit "tag must not contain control characters") else Ok ().
Definition normalize_tag_input (tags : list rstr) : result AppError (list rstr) :=
  if SERVER_TAG_INPUT_MAX_ITEMS <? zlen tags then bad (lit "tags must contain at most " ++ print_i64 SERVER_TAG_INPUT_MAX_ITEMS ++ lit " items") else
  try_for_each check_tag tags;;
  Ok (normalize_tags tags).

Definition dashboard_metadata_json `{MetaLib} (metadata : DashboardMetadata) (failure : rstr) : result AppError rstr :=
  value ← ok_or (meta_to_string metadata) (Accounts.BadRequest failure);
  if SERVER_DASHBOARD_METADATA_MAX_BYTES <? byte_len value then bad (lit "dashboard metadata is too large") else Ok value.

Definition error_message (error : AppError) : rstr :=
  match error with
  | Accounts.Database _ => lit "database error"
  | Accounts.Unauthorized m | Accounts.Forbidden m | Accounts.BadRequest m | Accounts.TooManyRequests m | Accounts.NotFound m => m
  end.
End requests.

(** ** Stored metadata with what telemetry adds *)

Definition tags_from_json `{MetaLib} (value : json) : list rstr :=
  match value with
  | JArray items => normalize_tags (omap json_label items)
  | JString value => normalize_tags (split_by (fun c => bool_decide (c ∈ [44; 59; 0xFF0C; 0x3001])) value)
  | _ => []
  end.
Definition tags_under `{MetaLib} (value : json) (key : rstr) : option (list rstr) :=
  v ← json_get key value; let tags := tags_from_json v in if is_empty tags then None else Some tags.
Definition first_tags `{MetaLib} (value : json) : option (list rstr) :=
  match tags_under value (lit "tags") with Some t => Some t | None => tags_under value (lit "labels") end.
Definition metadata_tags `{MetaLib} (sources : list (option json)) : list rstr :=
  default [] (from_sources (fun source =>
    match first_tags source with
    | Some t => Some t
    | None =>
        match json_get (lit "metadata") source ≫= first_tags with
        | Some t => Some t
        | None => json_get (lit "custom") source ≫= first_tags
        end
    end) sources).

Definition or_else {A} (x : option A) (y : option A) : option A := match x with Some a => Some a | None => y end.
Definition within (min max : Z) (x : f64) : option f64 := if f64_ge x (f64_of_Z min) && f64_le x (f64_of_Z max) then Some x else None.
Definition accent_of {E} (value : rstr) : option rstr :=
  match normalize_accent_color (E := E) (Some value) with Ok c => c | Err _ => None end.

Definition dashboard_metadata `{MetaLib} (stored : option rstr) (sources : list (option json)) : DashboardMetadata :=
  let out := default default_metadata (parse_bounded_agent_json meta_from_str stored AGENT_DASHBOARD_METADATA_JSON_MAX_BYTES) in
  let text x keys := or_else x (metadata_string sources keys) in
  {| dm_public_note := dm_public_note out;
     dm_provider := text (dm_provider out) [lit "provider"; lit "vendor"; lit "datacenter"; lit "isp"];
     dm_region := text (dm_region out) [lit "region"; lit "geo_region"; lit "state"; lit "province"; lit "location"];
     dm_country := text (dm_country out) [lit "country"; lit "geo_country"; lit "country_name"];
     dm_city := text (dm_city out) [lit "city"; lit "geo_city"];
     dm_latitude := or_else (dm_latitude out) (metadata_f64 sources [lit "latitude"; lit "lat"; lit "geo_latitude"] ≫= within (-90) 90);
     dm_longitude := or_else (dm_longitude out)
       (metadata_f64 sources [lit "longitude"; lit "lon"; lit "lng"; lit "geo_longitude"] ≫= within (-180) 180);
     dm_plan := text (dm_plan out) [lit "plan"; lit "package"; lit "sku"; lit "product"; lit "instance_type"];
     dm_price := text (dm_price out) [lit "price"; lit "billing_price"; lit "monthly_price"; lit "amount"];
     dm_currency := text (dm_currency out) [lit "currency"; lit "currency_code"];
     dm_billing_cycle := text (dm_billing_cycle out) [lit "billing_cycle"; lit "cycle"; lit "billing_period"; lit "period"];
     dm_auto_renew := dm_auto_renew out;
     dm_traffic_quota_bytes := or_else (dm_traffic_quota_bytes out)
       (metadata_i64 sources [lit "traffic_quota_bytes"; lit "traffic_quota"; lit "quota_bytes"; lit "bandwidth_quota_bytes";
                              lit "monthly_traffic_bytes"] ≫= (fun n => if 0 <=? n then Some n else None));
     dm_traffic_quota_type := text (dm_traffic_quota_type out) [lit "traffic_quota_type"; lit "quota_type"; lit "traffic_type"; lit "bandwidth_type"];
     dm_tags := normalize_tags (if is_empty (dm_tags out) then metadata_tags sources else dm_tags out);
     dm_accent_color := or_else (dm_accent_color out) (metadata_string sources [lit "accent_color"; lit "color"] ≫= accent_of (E := unit));
     dm_dashboard_visible := dm_dashboard_visible out; dm_hide_for_guest := dm_hide_for_guest out; dm_display_order := dm_display_order out |}.

Definition public_server_visibility_metadata_changed (current next : DashboardMetadata) : bool :=
  negb (bool_decide (dm_public_note current = dm_public_note next))
  || negb (bool_decide (dm_dashboard_visible current = dm_dashboard_visible next))
  || negb (bool_decide (dm_hide_for_guest current = dm_hide_for_guest next)).

(** ** Locations and status *)

(** [AgentGeoLocation] of [geoip.rs]. *)
Record AgentGeoLocation := {
  ge_source : rstr; ge_provider : rstr; ge_ip : rstr; ge_country : option rstr; ge_region : option rstr; ge_city : option rstr;
  ge_latitude : option f64; ge_longitude : option f64; ge_timezone : option rstr;
}.
Record ServerLocationView := {
  lo_source : rstr; lo_provider : option rstr; lo_country : option rstr; lo_region : option rstr; lo_city : option rstr;
  lo_latitude : option f64; lo_longitude : option f64; lo_timezone : option rstr;
}.
Definition dashboard_has_manual_location (d : DashboardMetadata) : bool :=
  bool_decide (is_Some (dm_country d)) || bool_decide (is_Some (dm_region d)) || bool_decide (is_Some (dm_city d))
  || bool_decide (is_Some (dm_latitude d)) || bool_decide (is_Some (dm_longitude d)).
Definition server_location_view (d : DashboardMetadata) (geoip : option AgentGeoLocation) : option ServerLocationView :=
  if dashboard_has_manual_location d
  then Some {| lo_source := lit "manual"; lo_provider := None; lo_country := dm_country d; lo_region := dm_region d; lo_city := dm_city d;
               lo_latitude := dm_latitude d; lo_longitude := dm_longitude d; lo_timezone := None |}
  else g ← geoip;
       Some {| lo_source := ge_source g; lo_provider := Some (ge_provider g); lo_country := ge_country g; lo_region := ge_region g;
               lo_city := ge_city g; lo_latitude := ge_latitude g; lo_longitude := ge_longitude g; lo_timezone := ge_timezone g |}.

Definition server_status (revoked_at last_seen_at : option Z) (now : Z) : rstr :=
  let age := match last_seen_at with Some ts => num_seconds (now - ts) | None => i64_max end in
  if bool_decide (is_Some revoked_at) then lit "revoked" else if age <=? ONLINE_THRESHOLD_SECS then lit "online" else lit "offline".

(** ** Visibility *)

Definition server_visible `{UuidLib} (auth : Auth.AuthSession) (agent_id : Z) : bool :=
  match Auth.server_ids auth with
  | None => true
  | Some allow => existsb (fun a => bool_decide (a = uuid_to_string agent_id)) allow
  end.
Definition filter_visible_server_ids `{UuidLib} (auth : Auth.AuthSession) (server_ids : list rstr) : list rstr :=
  filter (fun id => match uuid_parse id with Some u => server_visible auth u | None => false end = true) server_ids.
Definition server_group_visible `{UuidLib} (auth : Auth.AuthSession) (server_ids : list rstr) : bool :=
  bool_decide (Auth.server_ids auth = None)
  || forallb (fun id => match uuid_parse id with Some u => server_visible auth u | None => false end) server_ids.
End ServerMeta.
