(* ===== verification/Fleet.v ===== *)
(** * Fleet: the Agents of an instance, from enrolment to revocation

    Models [crates/server/src/db/repository/agent.rs] (on SQLite),
    [crates/server/src/api/v1/agent.rs] and the deletion of an Agent in
    [api/v1/servers.rs]. The state is what the handlers share: the tables of
    Agents, enrolment tokens, server groups and ownership transfers, the
    registries of live streams ([Registry], [IoStreams]), the challenges of
    [AgentTokens] and the hub of [Realtime]. Handlers are programs of
    [Interleave]: each SQL statement and each lock section is one step, and other
    handlers run in between. *)

From S2P Require Import Prelude Text BTreeMap Json Externals Auth Rfc3339 Tables Sessions Users Accounts Registry IoStreams AgentTokens Interleave Realtime ServerMeta.

Module Fleet.
Import Interleave Realtime.

Definition AGENT_LIST_MAX_LIMIT : Z := 500.
Definition DEFAULT_ENROLLMENT_TOKEN_TTL_HOURS : Z := 1.
Definition MAX_ENROLLMENT_TOKEN_TTL_HOURS : Z := 24.
Definition AGENT_RESOURCE_UUID_TEXT_LEN : Z := 36.
Definition AGENT_ENROLL_NAME_MAX_BYTES : Z := 255.
Definition ENROLLMENT_TOKEN_PREFIX : rstr := lit "xle_".
Definition ENROLLMENT_TOKEN_SECRET_HEX_BYTES : Z := 64.
Definition ENROLLMENT_TOKEN_BYTES : Z := byte_len ENROLLMENT_TOKEN_PREFIX + ENROLLMENT_TOKEN_SECRET_HEX_BYTES.

(** ** Rows *)

Record AgentRow := {
  ag_id : rstr; ag_name : rstr; ag_public_key : rstr; ag_owner_user_id : rstr; ag_last_seen_at : option rstr; ag_revoked_at : option rstr;
  ag_created_at : rstr; ag_updated_at : rstr; ag_remark : option rstr; ag_expires_at : option rstr; ag_renewal_price : option rstr;
  ag_dashboard_metadata_json : option rstr; ag_last_state_json : option rstr; ag_last_state_at : option rstr;
  ag_last_info_json : option rstr; ag_last_info_at : option rstr;
}.
Record EnrollmentTokenRow := {
  en_id : rstr; en_token_hash : rstr; en_created_by_user_id : rstr; en_expires_at : rstr; en_used_at : option rstr;
  en_used_by_agent_id : option rstr; en_created_at : rstr;
}.
Record ServerRow := { sv_id : rstr; sv_owner_user_id : rstr; sv_name : rstr; sv_created_at : rstr; sv_updated_at : rstr; sv_agent_id : rstr }.
Record GroupRow := {
  gr_id : rstr; gr_owner_user_id : rstr; gr_name : rstr; gr_color : option rstr; gr_display_order : option Z; gr_created_at : rstr;
  gr_updated_at : rstr;
}.
Record MemberRow := { me_group_id : rstr; me_agent_id : rstr; me_created_at : rstr }.
Record TransferRow := {
  tf_id : rstr; tf_agent_id : rstr; tf_from_user_id : option rstr; tf_to_user_id : rstr; tf_requested_by_user_id : option rstr;
  tf_api_token_id : option rstr; tf_status : rstr; tf_attempts : Z; tf_error : option rstr; tf_completed_at : option rstr;
  tf_cancelled_at : option rstr; tf_last_attempt_at : rstr; tf_created_at : rstr; tf_updated_at : rstr;
}.
Record AuditRow := {
  au_id : rstr; au_user_id : option rstr; au_api_token_id : option rstr; au_action : rstr; au_resource_id : rstr; au_server_id : rstr;
  au_ip : rstr; au_outcome : rstr; au_metadata_json : json; au_created_at : rstr;
}.

Record Agent := {
  id : Z; name : rstr; public_key : rstr; owner_user_id : Z; last_seen_at : option Z; revoked_at : option Z; created_at : Z; updated_at : Z;
}.
Record AgentWithState := {
  agent : Agent; remark : option rstr; expires_at : option rstr; renewal_price : option rstr; dashboard_metadata_json : option rstr;
  last_state_json : option rstr; last_info_json : option rstr;
}.
Record EnrollmentToken := {
  t_id : rstr; t_token_hash : rstr; t_created_by_user_id : Z; t_expires_at : Z; t_used_at : option Z; t_used_by_agent_id : option Z;
  t_created_at : Z;
}.
Record CreateAgentInput := { in_name : rstr; in_public_key : rstr; in_owner_user_id : Z }.

(** ** Shared state

    [written] is what the dashboards were sent, with the session of the socket; [calls] what was
    handed to the metric store, the alert engine, the waiting task handlers and
    the DDNS manager. [drawn], [created], [issued] and [enrolled] are history:
    the identifiers drawn, the Agents inserted, the tokens issued and the tokens
    used, each with the Agent and the time. *)

Inductive ServerMessage : Type := ForceDisconnect (reason : rstr) | OtherMessage.
Abbreviation Msg := ServerMessage.
Inductive Call : Type :=
| WriteMetrics (agent : Z) (at_ : Z) (value : json)
| ObserveState (agent : Z) (value : json)
| DeliverResult (agent : Z) (task_id : rstr) (result : IoStreams.TaskResult)
| ReportIp (agent : Z) (ipv4 ipv6 : option rstr)
| AuthFailure (ip : rstr) (who : option rstr) (reason : rstr)
| Blocked (ip : rstr).
Record Issue := { is_token : rstr; is_by : rstr; is_expires : Z }.
Record Enrolment := { er_token : rstr; er_agent : Z; er_at : Z }.

Record Fleet := {
  agents : list AgentRow; tokens : list EnrollmentTokenRow; servers : list ServerRow; groups : list GroupRow; members : list MemberRow;
  transfers : list TransferRow; audit : list AuditRow; challenges : gmap rstr Z; sessions : Registry.Registry Msg;
  io : IoStreams.IoRegistry; hub : BroadcastHub; written : list (Auth.AuthSession * WsOutbound); calls : list Call;
  drawn : list Z; created : list Z; issued : list Issue; enrolled : list Enrolment;
}.
Definition set_agents x s : Fleet :=
  {| agents := x; tokens := tokens s; servers := servers s; groups := groups s; members := members s; transfers := transfers s; audit := audit s; challenges := challenges s; sessions := sessions s; io := io s; hub := hub s; written := written s; calls := calls s; drawn := drawn s; created := created s; issued := issued s; enrolled := enrolled s |}.
Definition set_tokens x s : Fleet :=
  {| agents := agents s; tokens := x; servers := servers s; groups := groups s; members := members s; transfers := transfers s; audit := audit s; challenges := challenges s; sessions := sessions s; io := io s; hub := hub s; written := written s; calls := calls s; drawn := drawn s; created := created s; issued := issued s; enrolled := enrolled s |}.
Definition set_servers x s : Fleet :=
  {| agents := agents s; tokens := tokens s; servers := x; groups := groups s; members := members s; transfers := transfers s; audit := audit s; challenges := challenges s; sessions := sessions s; io := io s; hub := hub s; written := written s; calls := calls s; drawn := drawn s; created := created s; issued := issued s; enrolled := enrolled s |}.
Definition set_groups x s : Fleet :=
  {| agents := agents s; tokens := tokens s; servers := servers s; groups := x; members := members s; transfers := transfers s; audit := audit s; challenges := challenges s; sessions := sessions s; io := io s; hub := hub s; written := written s; calls := calls s; drawn := drawn s; created := created s; issued := issued s; enrolled := enrolled s |}.
Definition set_members x s : Fleet :=
  {| agents := agents s; tokens := tokens s; servers := servers s; groups := groups s; members := x; transfers := transfers s; audit := audit s; challenges := challenges s; sessions := sessions s; io := io s; hub := hub s; written := written s; calls := calls s; drawn := drawn s; created := created s; issued := issued s; enrolled := enrolled s |}.
Definition set_transfers x s : Fleet :=
  {| agents := agents s; tokens := tokens s; servers := servers s; groups := groups s; members := members s; transfers := x; audit := audit s; challenges := challenges s; sessions := sessions s; io := io s; hub := hub s; written := written s; calls := calls s; drawn := drawn s; created := created s; issued := issued s; enrolled := enrolled s |}.
Definition set_audit x s : Fleet :=
  {| agents := agents s; tokens := tokens s; servers := servers s; groups := groups s; members := members s; transfers := transfers s; audit := x; challenges := challenges s; sessions := sessions s; io := io s; hub := hub s; written := written s; calls := calls s; drawn := drawn s; created := created s; issued := issued s; enrolled := enrolled s |}.
Definition set_challenges x s : Fleet :=
  {| agents := agents s; tokens := tokens s; servers := servers s; groups := groups s; members := members s; transfers := transfers s; audit := audit s; challenges := x; sessions := sessions s; io := io s; hub := hub s; written := written s; calls := calls s; drawn := drawn s; created := created s; issued := issued s; enrolled := enrolled s |}.
Definition set_sessions x s : Fleet :=
  {| agents := agents s; tokens := tokens s; servers := servers s; groups := groups s; members := members s; transfers := transfers s; audit := audit s; challenges := challenges s; sessions := x; io := io s; hub := hub s; written := written s; calls := calls s; drawn := drawn s; created := created s; issued := issued s; enrolled := enrolled s |}.
Definition set_io x s : Fleet :=
  {| agents := agents s; tokens := tokens s; servers := servers s; groups := groups s; members := members s; transfers := transfers s; audit := audit s; challenges := challenges s; sessions := sessions s; io := x; hub := hub s; written := written s; calls := calls s; drawn := drawn s; created := created s; issued := issued s; enrolled := enrolled s |}.
Definition set_hub x s : Fleet :=
  {| agents := agents s; tokens := tokens s; servers := servers s; groups := groups s; members := members s; transfers := transfers s; audit := audit s; challenges := challenges s; sessions := sessions s; io := io s; hub := x; written := written s; calls := calls s; drawn := drawn s; created := created s; issued := issued s; enrolled := enrolled s |}.
Definition set_written x s : Fleet :=
  {| agents := agents s; tokens := tokens s; servers := servers s; groups := groups s; members := members s; transfers := transfers s; audit := audit s; challenges := challenges s; sessions := sessions s; io := io s; hub := hub s; written := x; calls := calls s; drawn := drawn s; created := created s; issued := issued s; enrolled := enrolled s |}.
Definition set_calls x s : Fleet :=
  {| agents := agents s; tokens := tokens s; servers := servers s; groups := groups s; members := members s; transfers := transfers s; audit := audit s; challenges := challenges s; sessions := sessions s; io := io s; hub := hub s; written := written s; calls := x; drawn := drawn s; created := created s; issued := issued s; enrolled := enrolled s |}.
Definition set_drawn x s : Fleet :=
  {| agents := agents s; tokens := tokens s; servers := servers s; groups := groups s; members := members s; transfers := transfers s; audit := audit s; challenges := challenges s; sessions := sessions s; io := io s; hub := hub s; written := written s; calls := calls s; drawn := x; created := created s; issued := issued s; enrolled := enrolled s |}.
Definition set_created x s : Fleet :=
  {| agents := agents s; tokens := tokens s; servers := servers s; groups := groups s; members := members s; transfers := transfers s; audit := audit s; challenges := challenges s; sessions := sessions s; io := io s; hub := hub s; written := written s; calls := calls s; drawn := drawn s; created := x; issued := issued s; enrolled := enrolled s |}.
Definition set_issued x s : Fleet :=
  {| agents := agents s; tokens := tokens s; servers := servers s; groups := groups s; members := members s; transfers := transfers s; audit := audit s; challenges := challenges s; sessions := sessions s; io := io s; hub := hub s; written := written s; calls := calls s; drawn := drawn s; created := created s; issued := x; enrolled := enrolled s |}.
Definition set_enrolled x s : Fleet :=
  {| agents := agents s; tokens := tokens s; servers := servers s; groups := groups s; members := members s; transfers := transfers s; audit := audit s; challenges := challenges s; sessions := sessions s; io := io s; hub := hub s; written := written s; calls := calls s; drawn := drawn s; created := created s; issued := issued s; enrolled := x |}.

(** ** Environment

    The clock, a failing statement, fresh identifiers and random bytes, which
    users and tokens exist, the answer of [Accounts.require_sensitive_totp] to a user, what sending does
    to the channels of the registry, whether a wait timed out, the channel and watch of a
    stream that is opened, the bans of [Accounts], and what the GeoIP lookup and
    the metric store know of an Agent. *)
Record Env (E : Type) := {
  utc : Z; fault : option E; uuid : Z; random : list Z; user_exists : rstr → bool; token_exists : rstr → bool;
  sensitive_totp : Z → result (Accounts.AppError E) unit;
  traffic : Registry.Registry Msg → Registry.Registry Msg;
  timed_out : bool;                              (** whether the wait for room in a channel took too long *)
  channel : Z; watch : Z; upgrades : bool;       (** whether a weak sender still upgrades *)
  banned : rstr → result E bool;                 (** whether [Accounts.active_waf_ban] finds a ban *)
  geo : Z → option ServerMeta.AgentGeoLocation;  (** [lookup_agent_geo_location] *)
  series : Z → option (list (Z * json));         (** the samples of the last day in the metric store *)
}.
Arguments utc {E}. Arguments fault {E}. Arguments uuid {E}. Arguments random {E}. Arguments user_exists {E}.
Arguments sensitive_totp {E}. Arguments traffic {E}. Arguments timed_out {E}. Arguments channel {E}. Arguments watch {E}.
Arguments upgrades {E}. Arguments banned {E}. Arguments token_exists {E}. Arguments geo {E}. Arguments series {E}.

(** SQLite's [julianday]: it reads a time and gives days as a real number; only
    the order matters. *)
Class JulianDay : Type := { julianday : rstr → Z }.

Section repository.
Context {E : Type} `{UuidLib, Rfc3339, JulianDay}.
Abbreviation PP := (P (Env E) Fleet (Tables.Anyhow E)).

Definition sql {A} (f : Env E → Fleet → result Tables.Why A * Fleet) : PP A :=
  atomic (fun e s =>
    match fault e with
    | Some x => (Err (Tables.Sqlx x), s)
    | None => match f e s with (Ok a, s') => (Ok a, s') | (Err w, _) => (Err (Tables.Bail w), s) end
    end).
Definition select {A} (f : Fleet → A) : PP A := sql (fun _ s => (Ok (f s), s)).

(** [Uuid::now_v7()], and so [AgentId::new()]. *)
Definition draw {X} : P (Env E) Fleet X Z := Step (fun e s => set_drawn (uuid e :: drawn s) s) (fun e _ => Ret (Ok (uuid e))).

(** *** Enrolment tokens *)

(** The primary key, the unique hash and the reference to the user. *)
Definition insert_token (e : Env E) (row : EnrollmentTokenRow) (s : Fleet) : result Tables.Why unit * Fleet :=
  if bool_decide (en_id row ∈ (en_id <$> tokens s) ∨ en_token_hash row ∈ (en_token_hash <$> tokens s))
     || negb (user_exists e (en_created_by_user_id row))
  then (Err Tables.ConstraintViolated, s) else (Ok (), set_tokens (tokens s ++ [row]) s).

Definition issue (i : Issue) (s : Fleet) : Fleet := set_issued (issued s ++ [i]) s.

Definition create_token (by_ expires : Z) (token_hash : rstr) : PP EnrollmentToken :=
  uuid ← draw;
  now ← observe utc;
  let row := {| en_id := uuid_to_string uuid; en_token_hash := token_hash; en_created_by_user_id := uuid_to_string by_;
                en_expires_at := to_rfc3339 expires; en_used_at := None; en_used_by_agent_id := None; en_created_at := to_rfc3339 now |} in
  sql (fun e s => match insert_token e row s with
                  | (Ok _, s) => (Ok (), issue {| is_token := en_id row; is_by := en_created_by_user_id row; is_expires := expires |} s)
                  | r => r
                  end);;
  mret {| t_id := en_id row; t_token_hash := token_hash; t_created_by_user_id := by_; t_expires_at := expires; t_used_at := None;
          t_used_by_agent_id := None; t_created_at := now |}.

Definition decode_token (r : EnrollmentTokenRow) : option EnrollmentToken :=
  by_ ← uuid_parse (en_created_by_user_id r);
  expires ← parse_from_rfc3339 (en_expires_at r);
  used ← Users.optional parse_from_rfc3339 (en_used_at r);
  who ← Users.optional uuid_parse (en_used_by_agent_id r);
  created ← parse_from_rfc3339 (en_created_at r);
  Some {| t_id := en_id r; t_token_hash := en_token_hash r; t_created_by_user_id := by_; t_expires_at := expires; t_used_at := used;
          t_used_by_agent_id := who; t_created_at := created |}.

(** [UPDATE enrollment_tokens SET used_at, used_by_agent_id WHERE token_hash = ?
    AND used_at IS NULL AND julianday(expires_at) > julianday(?)]. *)
Definition usable (hash now : rstr) (r : EnrollmentTokenRow) : bool :=
  bool_decide (en_token_hash r = hash) && bool_decide (en_used_at r = None) && (julianday now <? julianday (en_expires_at r)).
Definition with_used (now : rstr) (agent_id : rstr) (r : EnrollmentTokenRow) : EnrollmentTokenRow :=
  {| en_id := en_id r; en_token_hash := en_token_hash r; en_created_by_user_id := en_created_by_user_id r; en_expires_at := en_expires_at r;
     en_used_at := Some now; en_used_by_agent_id := Some agent_id; en_created_at := en_created_at r |}.

Definition find_and_use (token_hash : rstr) (agent_id : Z) : PP (option EnrollmentToken) :=
  if is_empty (trim token_hash) then mret None else
  now ← observe utc;
  affected ← sql (fun _ s =>
    let hit := usable token_hash (to_rfc3339 now) in
    let rows := filter (fun r => hit r = true) (tokens s) in
    (Ok (zlen rows),
     set_enrolled (enrolled s ++ ((fun r => {| er_token := en_id r; er_agent := agent_id; er_at := now |}) <$> rows))
       (set_tokens ((fun r => if hit r then with_used (to_rfc3339 now) (uuid_to_string agent_id) r else r) <$> tokens s) s)));
  if negb (affected =? 1) then mret None else
  row ← select (fun s => head (filter (fun r => en_token_hash r = token_hash ∧ en_used_by_agent_id r = Some (uuid_to_string agent_id)) (tokens s)));
  match row with
  | None => mret None
  | Some r => match decode_token r with Some t => mret (Some t) | None => throw (Tables.Bail Tables.InvalidRow) end
  end.

(** *** Agents *)

Definition insert_agent (e : Env E) (row : AgentRow) (s : Fleet) : result Tables.Why unit * Fleet :=
  if bool_decide (ag_id row ∈ (ag_id <$> agents s)) || negb (user_exists e (ag_owner_user_id row))
  then (Err Tables.ConstraintViolated, s) else (Ok (), set_agents (agents s ++ [row]) s).

Definition create_with_id (agent_id : Z) (input : CreateAgentInput) : PP Agent :=
  now ← observe utc;
  let row := {| ag_id := uuid_to_string agent_id; ag_name := in_name input; ag_public_key := in_public_key input;
                ag_owner_user_id := uuid_to_string (in_owner_user_id input); ag_last_seen_at := None; ag_revoked_at := None;
                ag_created_at := to_rfc3339 now; ag_updated_at := to_rfc3339 now; ag_remark := None; ag_expires_at := None;
                ag_renewal_price := None; ag_dashboard_metadata_json := None; ag_last_state_json := None; ag_last_state_at := None;
                ag_last_info_json := None; ag_last_info_at := None |} in
  sql (fun e s => match insert_agent e row s with
                  | (Ok _, s) => (Ok (), set_created (agent_id :: created s) s)
                  | r => r
                  end);;
  mret {| id := agent_id; name := in_name input; public_key := in_public_key input; owner_user_id := in_owner_user_id input;
          last_seen_at := None; revoked_at := None; created_at := now; updated_at := now |}.

Definition sqlite_agent_row_to_agent (r : AgentRow) : option Agent :=
  i ← uuid_parse (ag_id r);
  owner ← uuid_parse (ag_owner_user_id r);
  seen ← Users.optional parse_from_rfc3339 (ag_last_seen_at r);
  revoked ← Users.optional parse_from_rfc3339 (ag_revoked_at r);
  created ← parse_from_rfc3339 (ag_created_at r);
  updated ← parse_from_rfc3339 (ag_updated_at r);
  Some {| id := i; name := ag_name r; public_key := ag_public_key r; owner_user_id := owner; last_seen_at := seen; revoked_at := revoked;
          created_at := created; updated_at := updated |}.
Definition agent_with_state_row_to_agent (r : AgentRow) : option AgentWithState :=
  a ← sqlite_agent_row_to_agent r;
  Some {| agent := a; remark := ag_remark r; expires_at := ag_expires_at r; renewal_price := ag_renewal_price r;
          dashboard_metadata_json := ag_dashboard_metadata_json r; last_state_json := ag_last_state_json r; last_info_json := ag_last_info_json r |}.
(** Rows that do not decode are skipped. *)
Definition sqlite_agent_rows_to_agents (rows : list AgentRow) : list Agent := omap sqlite_agent_row_to_agent rows.
Definition agent_with_state_rows (rows : list AgentRow) : list AgentWithState := omap agent_with_state_row_to_agent rows.

Definition row_of (agent_id : Z) (s : Fleet) : option AgentRow := head (filter (fun r => ag_id r = uuid_to_string agent_id) (agents s)).
Definition find_by_id (agent_id : Z) : PP (option Agent) := row ← select (row_of agent_id); mret (row ≫= sqlite_agent_row_to_agent).
Definition find_by_id_with_state (agent_id : Z) : PP (option AgentWithState) :=
  row ← select (row_of agent_id); mret (row ≫= agent_with_state_row_to_agent).

(** [ORDER BY created_at DESC LIMIT ? OFFSET ?]. *)
Definition newest_first (p q : AgentRow) : Prop := str_leb (ag_created_at q) (ag_created_at p) = true.
#[global] Instance newest_first_dec p q : Decision (newest_first p q).
Proof. unfold newest_first. apply _. Defined.
Definition page (limit offset : Z) (rows : list AgentRow) : list AgentRow :=
  take (Z.to_nat (Z.max 1 (Z.min limit AGENT_LIST_MAX_LIMIT))) (drop (Z.to_nat (Z.max offset 0)) (merge_sort newest_first rows)).

Definition list_by_owner (owner limit offset : Z) : PP (list Agent) :=
  rows ← select (fun s => page limit offset (filter (fun r => ag_owner_user_id r = uuid_to_string owner) (agents s)));
  mret (sqlite_agent_rows_to_agents rows).

Definition count_total : PP Z := select (fun s => zlen (agents s)).
Definition count_by_owner (owner : Z) : PP Z := select (fun s => zlen (filter (fun r => ag_owner_user_id r = uuid_to_string owner) (agents s))).

Definition list_with_state (limit offset : Z) : PP (list AgentWithState * Z) :=
  total ← count_total;
  rows ← select (fun s => page limit offset (agents s));
  mret (agent_with_state_rows rows, total).

Definition list_with_state_by_owner (owner limit offset : Z) : PP (list AgentWithState * Z) :=
  rows ← select (fun s => page limit offset (filter (fun r => ag_owner_user_id r = uuid_to_string owner) (agents s)));
  total ← count_by_owner owner;
  mret (agent_with_state_rows rows, total).

Definition owned_by (owner : option Z) (r : AgentRow) : bool :=
  match owner with Some u => bool_decide (ag_owner_user_id r = uuid_to_string u) | None => true end.
Definition list_with_state_by_server_ids (owner : option Z) (server_ids : list rstr) (limit offset : Z) : PP (list AgentWithState * Z) :=
  if is_empty server_ids then mret ([], 0) else
  let hit r := bool_decide (ag_id r ∈ server_ids) && owned_by owner r in
  total ← select (fun s => zlen (filter (fun r => hit r = true) (agents s)));
  rows ← select (fun s => page limit offset (filter (fun r => hit r = true) (agents s)));
  mret (agent_with_state_rows rows, total).

(** The [UPDATE] statements: the number of rows that were changed. *)
Definition update_agents (hit : AgentRow → bool) (f : Z → AgentRow → AgentRow) : PP Z :=
  now ← observe utc;
  sql (fun _ s => (Ok (zlen (filter (fun r => hit r = true) (agents s))), set_agents ((fun r => if hit r then f now r else r) <$> agents s) s)).
Definition with_id (agent_id : Z) (r : AgentRow) : bool := bool_decide (ag_id r = uuid_to_string agent_id).

Definition with_seen (now : Z) (r : AgentRow) : AgentRow :=
  {| ag_id := ag_id r; ag_name := ag_name r; ag_public_key := ag_public_key r; ag_owner_user_id := ag_owner_user_id r;
     ag_last_seen_at := Some (to_rfc3339 now); ag_revoked_at := ag_revoked_at r; ag_created_at := ag_created_at r;
     ag_updated_at := to_rfc3339 now; ag_remark := ag_remark r; ag_expires_at := ag_expires_at r; ag_renewal_price := ag_renewal_price r;
     ag_dashboard_metadata_json := ag_dashboard_metadata_json r; ag_last_state_json := ag_last_state_json r;
     ag_last_state_at := ag_last_state_at r; ag_last_info_json := ag_last_info_json r; ag_last_info_at := ag_last_info_at r |}.
Definition update_last_seen (agent_id : Z) : PP unit := update_agents (with_id agent_id) with_seen;; mret ().

Definition with_state (state_json : rstr) (now : Z) (r : AgentRow) : AgentRow :=
  {| ag_id := ag_id r; ag_name := ag_name r; ag_public_key := ag_public_key r; ag_owner_user_id := ag_owner_user_id r;
     ag_last_seen_at := ag_last_seen_at r; ag_revoked_at := ag_revoked_at r; ag_created_at := ag_created_at r;
     ag_updated_at := to_rfc3339 now; ag_remark := ag_remark r; ag_expires_at := ag_expires_at r; ag_renewal_price := ag_renewal_price r;
     ag_dashboard_metadata_json := ag_dashboard_metadata_json r; ag_last_state_json := Some state_json;
     ag_last_state_at := Some (to_rfc3339 now); ag_last_info_json := ag_last_info_json r; ag_last_info_at := ag_last_info_at r |}.
Definition update_last_state (agent_id : Z) (state_json : rstr) : PP unit := update_agents (with_id agent_id) (with_state state_json);; mret ().

Definition with_info (info_json : rstr) (now : Z) (r : AgentRow) : AgentRow :=
  {| ag_id := ag_id r; ag_name := ag_name r; ag_public_key := ag_public_key r; ag_owner_user_id := ag_owner_user_id r;
     ag_last_seen_at := ag_last_seen_at r; ag_revoked_at := ag_revoked_at r; ag_created_at := ag_created_at r;
     ag_updated_at := to_rfc3339 now; ag_remark := ag_remark r; ag_expires_at := ag_expires_at r; ag_renewal_price := ag_renewal_price r;
     ag_dashboard_metadata_json := ag_dashboard_metadata_json r; ag_last_state_json := ag_last_state_json r;
     ag_last_state_at := ag_last_state_at r; ag_last_info_json := Some info_json; ag_last_info_at := Some (to_rfc3339 now) |}.
Definition update_last_info (agent_id : Z) (info_json : rstr) : PP unit := update_agents (with_id agent_id) (with_info info_json);; mret ().

Definition with_metadata (nm rm ex pr md : option rstr) (now : Z) (r : AgentRow) : AgentRow :=
  {| ag_id := ag_id r; ag_name := default (ag_name r) nm; ag_public_key := ag_public_key r; ag_owner_user_id := ag_owner_user_id r;
     ag_last_seen_at := ag_last_seen_at r; ag_revoked_at := ag_revoked_at r; ag_created_at := ag_created_at r;
     ag_updated_at := to_rfc3339 now; ag_remark := rm; ag_expires_at := ex; ag_renewal_price := pr;
     ag_dashboard_metadata_json := md; ag_last_state_json := ag_last_state_json r;
     ag_last_state_at := ag_last_state_at r; ag_last_info_json := ag_last_info_json r; ag_last_info_at := ag_last_info_at r |}.
Definition update_dashboard_metadata (agent_id : Z) (nm rm ex pr md : option rstr) : PP bool :=
  affected ← update_agents (with_id agent_id) (with_metadata nm rm ex pr md); mret (0 <? affected).

Definition with_revoked (now : Z) (r : AgentRow) : AgentRow :=
  {| ag_id := ag_id r; ag_name := ag_name r; ag_public_key := ag_public_key r; ag_owner_user_id := ag_owner_user_id r;
     ag_last_seen_at := ag_last_seen_at r; ag_revoked_at := Some (to_rfc3339 now); ag_created_at := ag_created_at r;
     ag_updated_at := to_rfc3339 now; ag_remark := ag_remark r; ag_expires_at := ag_expires_at r; ag_renewal_price := ag_renewal_price r;
     ag_dashboard_metadata_json := ag_dashboard_metadata_json r; ag_last_state_json := ag_last_state_json r;
     ag_last_state_at := ag_last_state_at r; ag_last_info_json := ag_last_info_json r; ag_last_info_at := ag_last_info_at r |}.
Definition revoke (agent_id : Z) : PP bool :=
  affected ← update_agents (fun r => with_id agent_id r && bool_decide (ag_revoked_at r = None)) with_revoked;
  mret (0 <? affected).

(** [ON DELETE CASCADE] of the rows that refer to an Agent, and of those that
    refer to a user. *)
Definition drop_agents (gone : AgentRow → bool) (s : Fleet) : Fleet :=
  let keep id := forallb (fun r => negb (gone r && bool_decide (ag_id r = id))) (agents s) in
  set_agents (filter (fun r => gone r = false) (agents s))
    (set_members (filter (fun m => keep (me_agent_id m) = true) (members s))
      (set_transfers (filter (fun t => keep (tf_agent_id t) = true) (transfers s)) s)).
Definition drop_groups (gone : GroupRow → bool) (s : Fleet) : Fleet :=
  set_groups (filter (fun g => gone g = false) (groups s))
    (set_members (filter (fun m => forallb (fun g => negb (gone g && bool_decide (gr_id g = me_group_id m))) (groups s) = true) (members s)) s).
Definition forget_user (user : rstr) (t : TransferRow) : TransferRow :=
  let kept u := if bool_decide (u = Some user) then None else u in
  {| tf_id := tf_id t; tf_agent_id := tf_agent_id t; tf_from_user_id := kept (tf_from_user_id t); tf_to_user_id := tf_to_user_id t;
     tf_requested_by_user_id := kept (tf_requested_by_user_id t); tf_api_token_id := tf_api_token_id t; tf_status := tf_status t;
     tf_attempts := tf_attempts t; tf_error := tf_error t; tf_completed_at := tf_completed_at t; tf_cancelled_at := tf_cancelled_at t;
     tf_last_attempt_at := tf_last_attempt_at t; tf_created_at := tf_created_at t; tf_updated_at := tf_updated_at t |}.
Definition forget_actor (user : rstr) (a : AuditRow) : AuditRow :=
  {| au_id := au_id a; au_user_id := if bool_decide (au_user_id a = Some user) then None else au_user_id a; au_api_token_id := au_api_token_id a;
     au_action := au_action a; au_resource_id := au_resource_id a; au_server_id := au_server_id a; au_ip := au_ip a;
     au_outcome := au_outcome a; au_metadata_json := au_metadata_json a; au_created_at := au_created_at a |}.
(** What [Users.delete] does to these tables; access tokens, which go too, are
    not among them. *)
Definition user_rows_deleted (user : rstr) (s : Fleet) : Fleet :=
  let s := drop_agents (fun r => bool_decide (ag_owner_user_id r = user)) s in
  let s := drop_groups (fun g => bool_decide (gr_owner_user_id g = user)) s in
  set_servers (filter (fun r => sv_owner_user_id r ≠ user) (servers s))
    (set_transfers (forget_user user <$> filter (fun t => tf_to_user_id t ≠ user) (transfers s))
      (set_tokens (filter (fun t => en_created_by_user_id t ≠ user) (tokens s))
        (set_audit (forget_actor user <$> audit s) s))).
Definition delete_user_rows (user : rstr) : PP unit := sql (fun _ s => (Ok (), user_rows_deleted user s)).
End repository.

#[global] Instance registered_sender_eq_dec : EqDecision Registry.RegisteredSender.
Proof. solve_decision. Defined.

(** ** Handlers *)

Inductive ServerBatchAction : Type := SetTags | AddTags | RemoveTags | SetDashboardVisible | TransferOwner | Delete | MoveGroup.
Record BatchUpdateServerResult := { br_id : rstr; br_success : bool; br_error : option rstr }.

Inductive Response : Type :=
| TokenIssued (token : rstr) (expires : Z)
| EnrolledAs (agent : Z) (name : rstr)
| AgentRevoked (agent : Z)
| AgentDeleted (agent : Z)
| BatchUpdated (action : ServerBatchAction) (results : list BatchUpdateServerResult) (updated failed : Z)
| Done.

Record EnrollRequest := { rq_name : rstr; rq_enrollment_token : rstr; rq_public_key : rstr }.

Definition valid_agent_public_key (public_key : rstr) : bool :=
  (byte_len public_key =? 64) && forallb Auth.is_ascii_hexdigit (str_bytes public_key).
Definition valid_enrollment_token (token : rstr) : bool :=
  (byte_len token =? ENROLLMENT_TOKEN_BYTES)
  && match Auth.strip_prefix ENROLLMENT_TOKEN_PREFIX token with
     | Some secret => (byte_len secret =? ENROLLMENT_TOKEN_SECRET_HEX_BYTES) && forallb Auth.is_ascii_hexdigit (str_bytes secret)
     | None => false
     end.

Section handlers.
Context {E : Type} `{UuidLib, Rfc3339, JulianDay, Auth.Crypto}.
Abbreviation AppError := (Accounts.AppError E).
Abbreviation PA := (P (Env E) Fleet AppError).

Definition repo {A} (m : P (Env E) Fleet (Tables.Anyhow E) A) : PA A := map_err Accounts.Database m.
Definition refuse {A} (text : rstr) : PA A := throw (Accounts.BadRequest text).
Definition forbid {A} (text : rstr) : PA A := throw (Accounts.Forbidden text).
(** A section under one lock. *)
Definition locked {X} (f : Env E → Fleet → Fleet) : P (Env E) Fleet X unit := Step f (fun _ _ => Ret (Ok ())).
Definition sensitive (user_id : Z) : PA unit := r ← observe (fun e => sensitive_totp e user_id); of_result r.

Definition normalize_enroll_name (value : rstr) : result AppError rstr :=
  let name := trim value in
  if is_empty name || (AGENT_ENROLL_NAME_MAX_BYTES <? byte_len name)
  then Err (Accounts.BadRequest (lit "agent name must be between 1 and 255 bytes")) else
  if existsb is_control name then Err (Accounts.BadRequest (lit "agent name must not contain control characters")) else Ok name.

Definition normalize_enroll_request (req : EnrollRequest) : result AppError EnrollRequest :=
  name ← normalize_enroll_name (rq_name req);
  if negb (valid_agent_public_key (rq_public_key req))
  then Err (Accounts.BadRequest (lit "agent public_key must be a 32-byte Ed25519 hex public key")) else
  if negb (valid_enrollment_token (rq_enrollment_token req)) then Err (Accounts.BadRequest (lit "invalid enrollment token")) else
  Ok {| rq_name := name; rq_enrollment_token := rq_enrollment_token req; rq_public_key := rq_public_key req |}.

Definition normalize_enrollment_token_ttl (expires_in_hours : option Z) : result AppError Z :=
  let ttl := default DEFAULT_ENROLLMENT_TOKEN_TTL_HOURS expires_in_hours in
  if (1 <=? ttl) && (ttl <=? MAX_ENROLLMENT_TOKEN_TTL_HOURS) then Ok ttl
  else Err (Accounts.BadRequest (lit "expires_in_hours must be between 1 and 24")).

Definition parse_agent_resource_id (agent_id : rstr) : result AppError Z :=
  let e := Accounts.BadRequest (lit "agent_id must be a canonical UUID") in
  if negb (byte_len agent_id =? AGENT_RESOURCE_UUID_TEXT_LEN) then Err e else
  parsed ← ok_or (uuid_parse agent_id) e;
  if negb (bool_decide (uuid_to_string parsed = agent_id)) then Err e else Ok parsed.

Definition require_admin_cookie_session (u : Accounts.AuthUser) : result AppError unit :=
  if negb (Auth.is_admin (Users.role (Accounts.au_user u))) then Err (Accounts.Forbidden (lit "Admin role required")) else
  if Auth.is_pat (Accounts.au_kind u) then Err (Accounts.Forbidden (lit "Cookie session required")) else Ok ().

(** [Duration::hours]. *)
Definition hours (n : Z) : Z := seconds (n * 3600).

Definition create_enrollment_token (u : Accounts.AuthUser) (expires_in_hours : option Z) : PA Response :=
  of_result (require_admin_cookie_session u);;
  sensitive (Users.id (Accounts.au_user u));;
  bytes ← observe random;
  let token := ENROLLMENT_TOKEN_PREFIX ++ Auth.hex_encode bytes in
  expires_in ← of_result (normalize_enrollment_token_ttl expires_in_hours);
  now ← observe utc;
  t ← repo (create_token (Users.id (Accounts.au_user u)) (now + hours expires_in) (Auth.hash_token token));
  mret (TokenIssued token (t_expires_at t)).

(** [INSERT OR IGNORE INTO servers]; the reference to the user is still checked. *)
Definition insert_server (e : Env E) (row : ServerRow) (s : Fleet) : result Tables.Why unit * Fleet :=
  if bool_decide (sv_id row ∈ (sv_id <$> servers s)) then (Ok (), s) else
  if negb (user_exists e (sv_owner_user_id row)) then (Err Tables.ConstraintViolated, s) else (Ok (), set_servers (servers s ++ [row]) s).

Definition enroll (req : EnrollRequest) : PA Response :=
  normalized ← of_result (normalize_enroll_request req);
  agent_id ← draw;
  found ← repo (find_and_use (Auth.hash_token (rq_enrollment_token normalized)) agent_id);
  token ← of_result (ok_or found (Accounts.BadRequest (lit "Invalid or expired enrollment token")));
  agent ← repo (create_with_id agent_id {| in_name := rq_name normalized; in_public_key := rq_public_key normalized;
                                           in_owner_user_id := t_created_by_user_id token |});
  now ← observe utc;
  repo (sql (fun e => insert_server e {| sv_id := uuid_to_string (id agent); sv_owner_user_id := uuid_to_string (t_created_by_user_id token);
                                         sv_name := rq_name normalized; sv_created_at := to_rfc3339 now; sv_updated_at := to_rfc3339 now;
                                         sv_agent_id := uuid_to_string (id agent) |}));;
  mret (EnrolledAs (id agent) (name agent)).

(** [session_registry.send]: the message goes through the channel of the Agent's
    stream, or not; which streams are registered does not change
    ([FleetPool.send_step_quiet]). *)
Definition quiet (f : Registry.Registry Msg → Registry.Registry Msg) (w : Registry.Registry Msg) : Registry.Registry Msg :=
  let w' := f w in
  if bool_decide (Registry.senders w' = Registry.senders w ∧ Registry.revoked w' = Registry.revoked w) then w' else w.
Definition send {X} (agent_id : Z) (m : Msg) : P (Env E) Fleet X unit := locked (fun e s => set_sessions (quiet (traffic e) (sessions s)) s).

Definition disconnect {X} (agent_id : Z) : P (Env E) Fleet X unit :=
  locked (fun _ s => set_sessions (Registry.disconnect_revoke agent_id (sessions s)) s);;
  removed ← atomic (fun _ s => (Ok (Registry.senders (sessions s) !! agent_id), set_sessions (Registry.disconnect_remove agent_id (sessions s)) s));
  match (removed : option Registry.RegisteredSender) with
  | Some current => locked (fun _ s => set_sessions (Registry.disconnect_notify current (sessions s)) s)
  | None => mret ()
  end.
Definition disconnect_agent {X} (agent_id : Z) : P (Env E) Fleet X unit :=
  locked (fun _ s => set_io (IoStreams.disconnect_agent_revoke agent_id (io s)) s);;
  closed ← atomic (fun _ s => let res := IoStreams.disconnect_agent_remove agent_id (io s) in (Ok res.2, set_io res.1 s));
  locked (fun _ s => set_io (IoStreams.notify_closed_subscribers closed agent_id IoStreams.REVOKED (io s)) s).
Definition purge_agent_jwt_challenges {X} (agent_id : Z) : P (Env E) Fleet X unit :=
  locked (fun _ s => set_challenges (AgentTokens.purge_agent_jwt_challenges (challenges s) agent_id) s).

(** [wired]: whether [set_revoke_registry] was called; it holds the registries of
    the state. The reload of the NAT manager that follows is not part of this
    state. *)
Definition revoke_agent (wired : bool) (u : Accounts.AuthUser) (agent_id : rstr) : PA Response :=
  of_result (require_admin_cookie_session u);;
  sensitive (Users.id (Accounts.au_user u));;
  agent_id ← of_result (parse_agent_resource_id agent_id);
  revoked ← repo (revoke agent_id);
  if negb (revoked : bool) then throw (Accounts.NotFound (lit "agent not found or already revoked")) else
  purge_agent_jwt_challenges agent_id;;
  let msg := ForceDisconnect (lit "agent revoked by administrator") in
  send agent_id msg;;
  disconnect agent_id;;
  disconnect_agent agent_id;;
  (if wired then send agent_id msg;; disconnect agent_id;; disconnect_agent agent_id else mret ());;
  mret (AgentRevoked agent_id).

(** [delete_agent] of [servers.rs]. *)
Definition delete_agent (agent_id : Z) : PA Response :=
  repo (sql (fun _ s => (Ok (), set_members (filter (fun m => me_agent_id m ≠ uuid_to_string agent_id) (members s)) s)));;
  affected ← repo (sql (fun _ s => (Ok (zlen (filter (fun r => with_id agent_id r = true) (agents s))), drop_agents (with_id agent_id) s)));
  if affected =? 0 then throw (Accounts.NotFound (lit "agent not found")) else
  purge_agent_jwt_challenges agent_id;;
  send agent_id (ForceDisconnect (lit "agent deleted"));;
  disconnect agent_id;;
  disconnect_agent agent_id;;
  mret (AgentDeleted agent_id).
End handlers.
End Fleet.
