(* ===== verification/FleetStreams.v ===== *)
(** * FleetStreams: the streams of Agents and dashboards

    Models the gRPC service of [crates/server/src/grpc/mod.rs], which
    authenticates an Agent, registers its stream and handles what it sends, and
    [crates/server/src/realtime/ws.rs], the WebSocket that shows live events to a
    user. Programs over the state of [Fleet]. What a client sends is the argument
    of its program: the messages of a stream, and for a dashboard the turns of its
    loop. A client that goes away is a program that is not scheduled again. *)

From S2P Require Import Prelude Text BTreeMap Json Externals Net Auth Security Rfc3339 Tables Sessions Users Accounts Registry IoStreams AgentTokens.
From S2P Require Import Interleave Realtime Telemetry Fleet.

Module FleetStreams.
Import Interleave Realtime Fleet.

Definition AGENT_GRPC_BEARER_TOKEN_MAX_BYTES : Z := 4096.
Definition AGENT_GRPC_AUTHORIZATION_METADATA_MAX_BYTES : Z := byte_len (lit "Bearer ") + AGENT_GRPC_BEARER_TOKEN_MAX_BYTES.
Definition AGENT_GRPC_FORWARDED_METADATA_MAX_BYTES : Z := 1024.

Inductive GrpcBearerTokenError : Type := TooLong | Malformed.
Inductive Status : Type := PermissionDenied (msg : rstr) | Unauthenticated (msg : rstr) | Internal (msg : rstr).

Definition auth_failure_reason (x : GrpcBearerTokenError) : rstr :=
  match x with TooLong => lit "bearer token too long" | Malformed => lit "malformed bearer token" end.
Definition status_message (x : GrpcBearerTokenError) : rstr :=
  match x with TooLong => lit "bearer token too long" | Malformed => lit "invalid bearer token" end.

Definition valid_jwt_segment (segment : rstr) : bool :=
  negb (is_empty segment) && forallb (fun b => is_ascii_alphanumeric b || contains b (lit "-_")) (str_bytes segment).
Definition validate_agent_bearer_token (token : rstr) : result GrpcBearerTokenError unit :=
  if AGENT_GRPC_BEARER_TOKEN_MAX_BYTES <? byte_len token then Err TooLong else
  if negb (forallb (fun c => c <? 128) token) then Err Malformed else
  match split_by (Z.eqb 46) token with
  | [header; payload; signature] =>
      if negb (valid_jwt_segment header) || negb (valid_jwt_segment payload) || negb (valid_jwt_segment signature) then Err Malformed else Ok ()
  | _ => Err Malformed
  end.

(** [bearer_token_from_grpc_request], from the bytes of the metadata value. *)
Definition bearer_token_from_grpc_request `{Auth.Crypto} (authorization : option (list Z)) : result GrpcBearerTokenError (option rstr) :=
  match authorization with
  | None => Ok None
  | Some bytes =>
      if AGENT_GRPC_AUTHORIZATION_METADATA_MAX_BYTES <? zlen bytes then Err TooLong else
      value ← ok_or (Auth.header_to_str bytes) Malformed;
      let value := trim value in
      let token := match Auth.strip_prefix (lit "bearer ") value with Some t => Some t | None => Auth.strip_prefix (lit "Bearer ") value end in
      match token with
      | None => Err Malformed
      | Some token =>
          let token := trim token in
          if is_empty token then Ok None else validate_agent_bearer_token token;; Ok (Some token)
      end
  end.

Definition grpc_metadata_value `{Auth.Crypto} (metadata : rstr → option (list Z)) (name : rstr) : option rstr :=
  bytes ← metadata name;
  if AGENT_GRPC_FORWARDED_METADATA_MAX_BYTES <? zlen bytes then None else
  value ← trim <$> Auth.header_to_str bytes;
  if is_empty value then None else Some value.
Definition client_ip_from_grpc_request `{Auth.Crypto} (env : Security.Env) (metadata : rstr → option (list Z)) (remote : option Net.IpAddr) : rstr :=
  Security.forwarded_client_ip_with_peer env (grpc_metadata_value metadata) (Net.print_ip <$> remote) remote.

Inductive AgentMessage : Type :=
| Heartbeat
| HostStateMessage (state : Telemetry.HostState)
| TaskResultMessage (result : IoStreams.TaskResult)
| HostInfoUpdate (info : option Telemetry.HostInfo)
| GeoIpReport (ipv4 ipv6 : rstr)
| NoPayload.

Section streams.
Context {E : Type} `{UuidLib, Rfc3339, JulianDay, Auth.Crypto, AgentTokens.JwtLib}.
Context (jwt_secret : rstr) (to_string : json → option rstr) (from_str : rstr → option json).
Context (iter : gmap Z RealtimeEvent → list (Z * RealtimeEvent)).
(** Whether the alert engine and the DDNS manager run. *)
Context (engine manager : bool).
Abbreviation PS := (P (Env E) Fleet Status).
Abbreviation PA := (P (Env E) Fleet (Accounts.AppError E)).

(** ** Authentication of an Agent *)

Definition note {X} (c : Call) : P (Env E) Fleet X unit := locked (fun _ s => set_calls (calls s ++ [c]) s).
(** [let _ = register_agent_auth_failure(..).await; return Err(..)]. *)
Definition fail_auth {A} (ip : rstr) (who : option rstr) (reason : rstr) (st : Status) : PS A := note (AuthFailure ip who reason);; throw st.

Definition authenticate_agent_request (client_ip : rstr) (bearer : result GrpcBearerTokenError (option rstr)) (stream_name : rstr) : PS Z :=
  ban ← observe (fun e => banned e client_ip);
  if match ban with Ok true => true | _ => false end
  then note (Blocked client_ip);; throw (PermissionDenied (lit "IP temporarily blocked by WAF")) else
  match bearer with
  | Ok None => fail_auth client_ip (Some stream_name) (lit "missing bearer token") (Unauthenticated (lit "missing bearer token"))
  | Err x => fail_auth client_ip (Some stream_name) (auth_failure_reason x) (Unauthenticated (status_message x))
  | Ok (Some token) =>
      now ← observe utc;
      match AgentTokens.verify_agent_jwt token jwt_secret (timestamp now) with
      | Err _ => fail_auth client_ip (Some stream_name) (lit "invalid bearer token") (Unauthenticated (lit "invalid bearer token"))
      | Ok claims =>
          match uuid_parse (AgentTokens.sub claims) with
          | None => fail_auth client_ip (Some (AgentTokens.sub claims)) (lit "invalid agent id") (Unauthenticated (lit "invalid agent id"))
          | Some agent_id =>
              found ← map_err (fun _ => Internal (lit "failed to load agent")) (find_by_id agent_id);
              match found with
              | None => fail_auth client_ip (Some (uuid_to_string agent_id)) (lit "agent not found") (Unauthenticated (lit "agent not found"))
              | Some agent =>
                  match revoked_at agent with
                  | Some _ => fail_auth client_ip (Some (uuid_to_string agent_id)) (lit "agent revoked") (PermissionDenied (lit "agent revoked"))
                  | None => mret agent_id
                  end
              end
          end
      end
  end.

(** ** The session stream *)

Definition publish {X} (event : RealtimeEvent) : P (Env E) Fleet X unit :=
  locked (fun _ s => set_hub (publish_cache iter event (hub s)) s);;
  locked (fun _ s => set_hub (publish_send event (hub s)) s).
(** [RealtimeEvent::new] and [publish]. *)
Definition announce {X} (k : rstr) (agent : Z) (value : json) : P (Env E) Fleet X unit :=
  now ← observe utc; publish (new_event k agent value now).

Definition handle_message (agent : Z) (msg : AgentMessage) : PS unit :=
  match msg with
  | Heartbeat => ignore (update_last_seen agent)
  | HostStateMessage state =>
      let state_json := Telemetry.state_to_json to_string state in
      ignore (update_last_state agent state_json);;
      match from_str state_json with
      | None => mret ()
      | Some value =>
          now ← observe utc;
          note (WriteMetrics agent now value);;
          (if engine then note (ObserveState agent value) else mret ());;
          announce (lit "host_state") agent value
      end
  | TaskResultMessage r => note (DeliverResult agent (IoStreams.t_task_id r) r)
  | HostInfoUpdate info =>
      let info_json := Telemetry.info_to_json to_string info in
      ignore (update_last_info agent info_json);;
      match from_str info_json with
      | None => mret ()
      | Some value => announce (lit "host_info") agent value
      end
  | GeoIpReport v4 v6 =>
      let '(ipv4, ipv6) := Telemetry.normalized_geo_ip_report v4 v6 in
      (if manager then note (ReportIp agent ipv4 ipv6) else mret ());;
      note (ReportIp agent ipv4 ipv6);;
      if bool_decide (is_Some ipv4 ∨ is_Some ipv6)
      then announce (lit "geo_ip") agent
             (Telemetry.obj [(lit "ipv4", JString (default [] ipv4)); (lit "ipv6", JString (default [] ipv6))])
      else mret ()
  | NoPayload => mret ()
  end.
Fixpoint handle_messages (agent : Z) (messages : list AgentMessage) : PS unit :=
  match messages with
  | [] => mret ()
  | m :: messages => handle_message agent m;; handle_messages agent messages
  end.

Definition session (client_ip : rstr) (bearer : result GrpcBearerTokenError (option rstr)) (messages : list AgentMessage) : PS unit :=
  agent ← authenticate_agent_request client_ip bearer (lit "session");
  c ← observe channel;
  registered ← atomic (fun e s => let '(w, ok) := Registry.register agent c (watch e) (sessions s) in (Ok ok, set_sessions w s));
  if negb (registered : bool) then throw (PermissionDenied (lit "agent revoked")) else
  handle_messages agent messages;;
  locked (fun e s => set_sessions (Registry.unregister agent (if upgrades e then Some c else None) (sessions s)).1 s).

(** ** The I/O stream *)

Definition look {X A} (f : Fleet → A) : P (Env E) Fleet X A := Step (fun _ s => s) (fun _ s => Ret (Ok (f s))).
Definition prune {X} : P (Env E) Fleet X unit := locked (fun _ s => set_io (IoStreams.prune_closed_io_subscribers (io s)) s).

(** [deliver_from_agent]: the subscriber is looked up under a read lock, and the
    frame is sent after it is released, unless the subscription is closed first
    or the wait takes too long. *)
Definition deliver_from_agent {X} (agent : Z) (frame : IoStreams.IoFrame) : P (Env E) Fleet X bool :=
  if negb (IoStreams.valid_io_frame_from_agent agent frame) then mret false else
  delivery ← look (fun s => IoStreams.deliver_lookup agent frame (io s));
  match (delivery : option IoStreams.Delivery) with
  | None => prune;; mret false
  | Some del =>
      delivered ← atomic (fun e s => if negb (timed_out e) && IoStreams.can_deliver del (io s)
                                     then (Ok true, set_io (IoStreams.hand_over del (io s)) s) else (Ok false, s));
      if (delivered : bool) then mret true else
      closed ← look (fun s => IoStreams.sender_closed (io s) (IoStreams.d_sender del));
      (if (closed : bool) then prune else mret ());;
      mret false
  end.
Fixpoint deliver_frames (agent : Z) (frames : list IoStreams.IoFrame) : PS unit :=
  match frames with
  | [] => mret ()
  | frame :: frames => deliver_from_agent agent frame;; deliver_frames agent frames
  end.
Definition tell_closed {X} (agent : Z) (reason : rstr) (closed : list (rstr * IoStreams.IoSubscriber)) : P (Env E) Fleet X unit :=
  locked (fun _ s => set_io (IoStreams.notify_closed_subscribers closed agent reason (io s)) s).
Definition io_stream (client_ip : rstr) (bearer : result GrpcBearerTokenError (option rstr)) (frames : list IoStreams.IoFrame) : PS unit :=
  agent ← authenticate_agent_request client_ip bearer (lit "io_stream");
  c ← observe channel;
  registered ← atomic (fun e s => let '(r, closed) := IoStreams.register_agent agent c (io s) in (Ok closed, set_io r s));
  match (registered : option (list (rstr * IoStreams.IoSubscriber))) with
  | None => throw (PermissionDenied (lit "agent revoked"))
  | Some closed =>
      tell_closed agent IoStreams.REPLACED closed;;
      deliver_frames agent frames;;
      removed ← atomic (fun e s => let '(r, closed) := IoStreams.unregister_agent agent (if upgrades e then Some c else None) (io s) in (Ok closed, set_io r s));
      match (removed : option (list (rstr * IoStreams.IoSubscriber))) with
      | Some closed => tell_closed agent IoStreams.DISCONNECTED closed
      | None => mret ()
      end
  end.

(** A handler that opens a terminal, a file transfer or a tunnel subscribes to its
    stream, and later unsubscribes. *)
Definition subscribe_stream {X} (stream_id : rstr) (agent : Z) : P (Env E) Fleet X unit :=
  locked (fun e s => set_io (IoStreams.subscribe_stream stream_id agent (channel e) (watch e) (io s)) s).
Definition unsubscribe_stream {X} (stream_id : rstr) : P (Env E) Fleet X unit :=
  locked (fun _ s => set_io (IoStreams.unsubscribe_stream stream_id (io s)) s).

(** ** Dashboards *)

Definition allowed_server (auth : Auth.AuthSession) (agent_id : Z) : bool :=
  match Auth.server_ids auth with
  | None => true
  | Some allowed => existsb (fun candidate => bool_decide (candidate = uuid_to_string agent_id)) allowed
  end.
Definition agent_visible (auth : Auth.AuthSession) (a : Agent) : bool :=
  if bool_decide (is_Some (revoked_at a)) then false else
  if negb (Auth.is_admin (Auth.role auth)) && negb (owner_user_id a =? Auth.user_id auth) then false else
  allowed_server auth (id a).

Definition realtime_visible_agent_ids (auth : Auth.AuthSession) : PA (gset Z) :=
  agents ← repo (match Auth.server_ids auth with
    | Some server_ids =>
        let owner_filter := if negb (Auth.is_admin (Auth.role auth)) then Some (Auth.user_id auth) else None in
        rows ← list_with_state_by_server_ids owner_filter server_ids i64_max 0; mret (agent <$> rows.1)
    | None =>
        if Auth.is_admin (Auth.role auth) then rows ← list_with_state i64_max 0; mret (agent <$> rows.1)
        else list_by_owner (Auth.user_id auth) i64_max 0
    end);
  mret (list_to_set (id <$> filter (fun a => revoked_at a = None ∧ agent_visible auth a = true) agents)).

Definition realtime_event_visible {X} (auth : Auth.AuthSession) (visible_agents : gset Z) (agent_id : Z) : P (Env E) Fleet X (bool * gset Z) :=
  if negb (allowed_server auth agent_id) then mret (false, visible_agents ∖ {[agent_id]}) else
  found ← proc_bind (find_by_id agent_id) (fun r => Ret (Ok (match r with Ok (Some a) => Some a | _ => None end)));
  match (found : option Agent) with
  | None => mret (false, visible_agents ∖ {[agent_id]})
  | Some a =>
      if bool_decide (is_Some (revoked_at a))
      then locked (fun _ s => set_hub (remove_agent agent_id (hub s)) s);; mret (false, visible_agents ∖ {[agent_id]})
      else if agent_visible auth a then mret (true, {[agent_id]} ∪ visible_agents) else mret (false, visible_agents ∖ {[agent_id]})
  end.

(** A turn of the sending loop: the ping is due or an event is awaited, and
    whether what is written reaches the client in time. *)
Inductive Turn : Type := PingDue (sent : bool) | Await (sent : bool).

Definition send_ws_outbound {X} (auth : Auth.AuthSession) (frame : WsOutbound) (sent : bool) : P (Env E) Fleet X bool :=
  if sent then locked (fun _ s => set_written (written s ++ [(auth, frame)]) s);; mret true else mret false.

Fixpoint send_loop {X} (auth : Auth.AuthSession) (visible_agents : gset Z) (position : Z) (turns : list Turn) : P (Env E) Fleet X unit :=
  match turns with
  | [] => mret ()
  | PingDue sent :: turns =>
      now ← observe utc;
      ok ← send_ws_outbound auth (Ping now) sent;
      if (ok : bool) then send_loop auth visible_agents position turns else mret ()
  | Await sent :: turns =>
      received ← look (fun s => recv position (hub s));
      match received.1 with
      | Pending => send_loop auth visible_agents position turns
      | Next event =>
          seen ← realtime_event_visible auth visible_agents (agent_id event);
          if negb seen.1 then send_loop auth seen.2 received.2 turns else
          ok ← send_ws_outbound auth (Event event) sent;
          if (ok : bool) then send_loop auth seen.2 received.2 turns else mret ()
      | Lagged =>
          proc_bind (realtime_visible_agent_ids auth) (fun r =>
            match r with
            | Err _ => Ret (Ok ())
            | Ok refreshed =>
                events ← look (fun s => latest_snapshot iter (hub s));
                ok ← send_ws_outbound auth (Snapshot (filter_realtime_events events refreshed)) sent;
                if (ok : bool) then send_loop auth refreshed received.2 turns else mret ()
            end)
      end
  end.

Definition handle_socket {X} (auth : Auth.AuthSession) (visible_agents : gset Z) (first : bool) (turns : list Turn) : P (Env E) Fleet X unit :=
  position ← look (fun s => subscribe (hub s));
  events ← look (fun s => latest_snapshot iter (hub s));
  ok ← send_ws_outbound auth (Snapshot (filter_realtime_events events visible_agents)) first;
  if (ok : bool) then send_loop auth visible_agents position turns else mret ().

Definition ws_servers (url_parse : rstr → option Security.Url) (headers : rstr → list (list Z)) (origins : list rstr) (auth : Auth.AuthSession) (first : bool) (turns : list Turn) : PA Response :=
  if negb (Security.validate_websocket_origin Auth.header_to_str url_parse headers origins) then forbid (lit "WebSocket Origin is not allowed") else
  if negb (Auth.has_scope auth (lit "server:read")) then forbid (lit "missing scope: server:read") else
  visible_agents ← realtime_visible_agent_ids auth;
  handle_socket auth visible_agents first turns;;
  mret Done.
End streams.
End FleetStreams.
