(* ===== verification/ServerAdmin.v ===== *)
(** * ServerAdmin: managing servers

    Models the handlers of [crates/server/src/api/v1/servers.rs] on SQLite:
    listing and showing servers, changing their metadata, batches of changes,
    ownership transfers with their retries, and groups of servers. Programs over
    the state of [Fleet], with the pure functions of [ServerMeta]. Each SQL
    statement is one step; [persist_owner_transfer], which runs in a transaction,
    is one step that happens as a whole or not at all. *)

From S2P Require Import Prelude Text BTreeMap Json Externals Auth Rfc3339 Tables Sessions Users Accounts Registry IoStreams AgentTokens.
From S2P Require Import Interleave Realtime ServerMeta Fleet.

Module ServerAdmin.
Import Interleave ServerMeta Fleet.

(** ** Views *)

(** The fields [ServerView] and [ServerDetailResponse] share. *)
Record ServerCommon := {
  sc_id : rstr; sc_name : rstr; sc_remark : option rstr; sc_expires_at : option rstr; sc_renewal_price : option rstr;
  sc_dashboard : DashboardMetadata; (** the fields of [DashboardMetadata], one by one in the code *)
  sc_country : option rstr; sc_city : option rstr; sc_latitude : option f64; sc_longitude : option f64; sc_location : option ServerLocationView;
  sc_status : rstr; sc_last_seen_at : option rstr;
}.
Record ServerView := {
  vw_common : ServerCommon; vw_cpu_percent : option f64; vw_memory_used : option Z; vw_memory_total : option Z; vw_load_1 : option f64;
  vw_net_rx_bps : option Z; vw_net_tx_bps : option Z; vw_network_in_total : option Z; vw_network_out_total : option Z; vw_uptime_seconds : option Z;
}.
Record ServerDetailResponse := { dt_common : ServerCommon; dt_last_state : option json; dt_last_info : option json }.
Record ServerGroupView := {
  gv_id : rstr; gv_owner_user_id : rstr; gv_name : rstr; gv_color : option rstr; gv_display_order : option Z; gv_server_ids : list rstr;
  gv_created_at : rstr; gv_updated_at : rstr;
}.

Record UpdateServerRequest := {
  ur_name : option rstr; ur_remark : option rstr; ur_expires_at : option rstr; ur_renewal_price : option rstr; ur_public_note : option rstr;
  ur_price : option rstr; ur_currency : option rstr; ur_billing_cycle : option rstr; ur_auto_renew : option bool;
  ur_traffic_quota_bytes : option Z; ur_traffic_quota_type : option rstr; ur_provider : option rstr; ur_region : option rstr;
  ur_country : option rstr; ur_city : option rstr; ur_latitude : option f64; ur_longitude : option f64; ur_plan : option rstr;
  ur_tags : option (list rstr); ur_accent_color : option rstr; ur_dashboard_visible : option bool; ur_hide_for_guest : option bool;
  ur_display_order : option Z;
}.
Record BatchUpdateServersRequest := {
  bq_server_ids : list rstr; bq_action : ServerBatchAction; bq_tags : list rstr; bq_dashboard_visible : option bool;
  bq_owner_user_id : option rstr; bq_group_id : option rstr;
}.
Record ServerGroupRequest := { gq_name : option rstr; gq_color : option rstr; gq_display_order : option Z }.

Definition is_tag_action (a : ServerBatchAction) : bool := match a with SetTags | AddTags | RemoveTags => true | _ => false end.
Definition is_transfer (a : ServerBatchAction) : bool := match a with TransferOwner => true | _ => false end.
Definition is_delete (a : ServerBatchAction) : bool := match a with Delete => true | _ => false end.
Definition is_move (a : ServerBatchAction) : bool := match a with MoveGroup => true | _ => false end.
Definition is_visible_action (a : ServerBatchAction) : bool := match a with SetDashboardVisible => true | _ => false end.

Section admin.
Context {E : Type} `{UuidLib, Rfc3339, JulianDay, Auth.Crypto, MetaLib}.
Context (from_str : rstr → option json).
(** The text of a database error, and of a failed serialization. *)
Context (anyhow_text : Tables.Anyhow E → rstr) (serialize_failure : rstr).
Abbreviation AppError := (Accounts.AppError E).
Abbreviation PA := (P (Env E) Fleet AppError).
Abbreviation PT := (P (Env E) Fleet rstr).

Definition not_found {A} (text : rstr) : PA A := throw (Accounts.NotFound text).
Definition require_scope (auth : Auth.AuthSession) (scope : rstr) : PA unit :=
  if Auth.has_scope auth scope then mret () else forbid (lit "missing scope: " ++ scope).
Definition parse_telemetry (value : option rstr) : option json := parse_bounded_agent_json from_str value AGENT_TELEMETRY_JSON_MAX_BYTES.

(** ** Who may *)

Definition agent_visible (auth : Auth.AuthSession) (a : Agent) : bool :=
  server_visible auth (id a) && (Auth.is_admin (Auth.role auth) || (owner_user_id a =? Auth.user_id auth)).
Definition ensure_agent_visible (auth : Auth.AuthSession) (a : Agent) : PA unit :=
  if agent_visible auth a then mret () else forbid (lit "agent not in scope").

Definition require_transfer_admin (auth : Auth.AuthSession) : PA unit :=
  if negb (Auth.is_admin (Auth.role auth)) then forbid (lit "admin role required for ownership transfer") else
  if Auth.is_pat (Auth.auth_kind auth) then forbid (lit "Cookie session required for ownership transfer") else mret ().
Definition require_admin_cookie_session (auth : Auth.AuthSession) : PA unit :=
  if negb (Auth.is_admin (Auth.role auth)) then forbid (lit "admin role required") else
  if Auth.is_pat (Auth.auth_kind auth) then forbid (lit "Cookie session required") else mret ().
Definition require_public_server_visibility_write_auth (auth : Auth.AuthSession) : PA unit := require_admin_cookie_session auth;; sensitive (Auth.user_id auth).
Definition require_server_group_write_auth (auth : Auth.AuthSession) : PA unit :=
  if Auth.is_pat (Auth.auth_kind auth) then forbid (lit "server group changes require a cookie session") else sensitive (Auth.user_id auth).
Definition require_server_tag_write_auth (auth : Auth.AuthSession) : PA unit :=
  if Auth.is_pat (Auth.auth_kind auth) then forbid (lit "server tag changes require a cookie session") else sensitive (Auth.user_id auth).
Definition require_public_server_metadata_write_auth (auth : Auth.AuthSession) (stored : option rstr) (next : DashboardMetadata) : PA unit :=
  if public_server_visibility_metadata_changed (dashboard_metadata stored []) next
  then require_public_server_visibility_write_auth auth else mret ().
Definition require_server_tag_write_auth_if_changed (auth : Auth.AuthSession) (stored : option rstr) (next : DashboardMetadata) : PA unit :=
  if negb (bool_decide (dm_tags (dashboard_metadata stored []) = dm_tags next)) then require_server_tag_write_auth auth else mret ().
Definition ensure_transfer_server_scope (auth : Auth.AuthSession) (server_id : rstr) : PA unit :=
  agent_id ← of_result (parse_agent_id server_id);
  if negb (server_visible auth agent_id) then forbid (lit "agent not in scope") else mret ().
Definition ensure_server_group_visible (auth : Auth.AuthSession) (server_ids : list rstr) : PA unit :=
  if server_group_visible auth server_ids then mret () else forbid (lit "server group not in scope").

(** ** Listing and showing *)

Definition common_view (row : AgentWithState) (d : DashboardMetadata) (info state : option json) (location : option ServerLocationView) (now : Z) : ServerCommon :=
  let a := agent row in
  let from keys := metadata_string [info; state] keys in
  {| sc_id := uuid_to_string (id a); sc_name := name a;
     sc_remark := or_else (remark row) (from [lit "remark"; lit "note"; lit "description"]);
     sc_expires_at := or_else (expires_at row) (from [lit "expires_at"; lit "expired_at"; lit "expire_at"; lit "due_at"; lit "end_at"]);
     sc_renewal_price := or_else (renewal_price row)
       (from [lit "renewal_price"; lit "renew_price"; lit "renewal"; lit "price"; lit "billing_price"]);
     sc_dashboard := d;
     sc_country := location ≫= lo_country; sc_city := location ≫= lo_city; sc_latitude := location ≫= lo_latitude;
     sc_longitude := location ≫= lo_longitude; sc_location := location;
     sc_status := server_status (revoked_at a) (last_seen_at a) now; sc_last_seen_at := to_rfc3339 <$> last_seen_at a |}.

Definition server_view (row : AgentWithState) (now : Z) (location : option AgentGeoLocation) (rates : option Z * option Z) : ServerView :=
  let parsed := parse_telemetry (last_state_json row) in
  let parsed_info := parse_telemetry (last_info_json row) in
  let dashboard := dashboard_metadata (dashboard_metadata_json row) [parsed_info; parsed] in
  let number key := parsed ≫= json_get key in
  {| vw_common := common_view row dashboard parsed_info parsed (server_location_view dashboard location) now;
     vw_cpu_percent := number (lit "cpu_percent") ≫= as_f64; vw_memory_used := number (lit "memory_used") ≫= as_i64;
     vw_memory_total := number (lit "memory_total") ≫= as_i64; vw_load_1 := number (lit "load_1") ≫= as_f64;
     vw_net_rx_bps := or_else (parsed ≫= (fun v => json_i64_by_keys v [lit "net_rx_bps"; lit "network_in_speed"])) rates.1;
     vw_net_tx_bps := or_else (parsed ≫= (fun v => json_i64_by_keys v [lit "net_tx_bps"; lit "network_out_speed"])) rates.2;
     vw_network_in_total := parsed ≫= (fun v => network_total v (lit "bytes_recv"));
     vw_network_out_total := parsed ≫= (fun v => network_total v (lit "bytes_sent"));
     vw_uptime_seconds := parsed ≫= (fun v => json_i64_by_keys v [lit "uptime_seconds"; lit "uptime"]) |}.

(** The rows of the page, by what the caller may see. *)
Definition page_for (auth : Auth.AuthSession) (limit offset : Z) : P (Env E) Fleet (Tables.Anyhow E) (list AgentWithState * Z) :=
  match Auth.server_ids auth with
  | Some server_ids =>
      list_with_state_by_server_ids (if negb (Auth.is_admin (Auth.role auth)) then Some (Auth.user_id auth) else None) server_ids limit offset
  | None => if Auth.is_admin (Auth.role auth) then list_with_state limit offset else list_with_state_by_owner (Auth.user_id auth) limit offset
  end.
Fixpoint server_views (rows : list AgentWithState) (now : Z) (geo_locations : Z → option AgentGeoLocation) : PA (list ServerView) :=
  match rows with
  | [] => mret []
  | row :: rows =>
      samples ← observe (fun e => series e (id (agent row)));
      rest ← server_views rows now geo_locations;
      mret (server_view row now (geo_locations (id (agent row))) (network_rates_from_store samples) :: rest)
  end.
(** The GeoIP lookup asks only about rows without a manual location; for the
    others [server_location_view] does not look at its answer. *)
Definition list_servers (auth : Auth.AuthSession) (limit offset : Z) : PA (list ServerView * Z) :=
  require_scope auth (lit "server:read");;
  page ← repo (page_for auth (Z.max 1 (Z.min limit 500)) (Z.max offset 0));
  let rows := filter (fun row => agent_visible auth (agent row) = true) page.1 in
  geo_locations ← observe geo;
  now ← observe utc;
  views ← server_views rows now geo_locations;
  mret (views, page.2).

Definition get_server (auth : Auth.AuthSession) (server_id : rstr) : PA ServerDetailResponse :=
  require_scope auth (lit "server:read");;
  agent_id ← of_result (parse_agent_id server_id);
  found ← repo (find_by_id_with_state agent_id);
  row ← of_result (ok_or found (Accounts.NotFound (lit "agent not found")));
  ensure_agent_visible auth (agent row);;
  now ← observe utc;
  let last_state := parse_telemetry (last_state_json row) in
  let last_info := parse_telemetry (last_info_json row) in
  let dashboard := dashboard_metadata (dashboard_metadata_json row) [last_info; last_state] in
  geo_locations ← observe geo;
  mret {| dt_common := common_view row dashboard last_info last_state (server_location_view dashboard (geo_locations (id (agent row)))) now;
          dt_last_state := last_state; dt_last_info := last_info |}.

(** ** Metadata *)

(** The checks of [update_server], in the order of the code. *)
Definition requested_metadata (req : UpdateServerRequest) : result AppError (option rstr * option rstr * option rstr * option rstr * DashboardMetadata) :=
  name ← match ur_name req with Some v => n ← normalize_server_name v (lit "name"); Ok (Some n) | None => Ok None end;
  remark ← normalize_optional_label (ur_remark req) (lit "remark");
  expires ← normalize_optional_label (ur_expires_at req) (lit "expires_at");
  renewal ← normalize_optional_label (ur_renewal_price req) (lit "renewal_price");
  if match ur_traffic_quota_bytes req with Some v => v <? 0 | None => false end
  then bad (lit "traffic_quota_bytes must be greater than or equal to 0") else
  tags ← normalize_tag_input (default [] (ur_tags req));
  public_note ← normalize_optional_label (ur_public_note req) (lit "public_note");
  provider ← normalize_optional_label (ur_provider req) (lit "provider");
  region ← normalize_optional_label (ur_region req) (lit "region");
  country ← normalize_optional_label (ur_country req) (lit "country");
  city ← normalize_optional_label (ur_city req) (lit "city");
  latitude ← normalize_optional_coordinate (ur_latitude req) (lit "latitude") (f64_of_Z (-90)) (f64_of_Z 90);
  longitude ← normalize_optional_coordinate (ur_longitude req) (lit "longitude") (f64_of_Z (-180)) (f64_of_Z 180);
  plan ← normalize_optional_label (ur_plan req) (lit "plan");
  price ← normalize_optional_label (ur_price req) (lit "price");
  currency ← normalize_optional_label (ur_currency req) (lit "currency");
  billing_cycle ← normalize_optional_label (ur_billing_cycle req) (lit "billing_cycle");
  quota_type ← normalize_optional_label (ur_traffic_quota_type req) (lit "traffic_quota_type");
  accent_color ← normalize_accent_color (ur_accent_color req);
  display_order ← normalize_display_order (ur_display_order req) (lit "display_order");
  Ok (name, remark, expires, renewal,
      {| dm_public_note := public_note; dm_provider := provider; dm_region := region; dm_country := country; dm_city := city;
         dm_latitude := latitude; dm_longitude := longitude; dm_plan := plan; dm_price := price; dm_currency := currency;
         dm_billing_cycle := billing_cycle; dm_auto_renew := ur_auto_renew req; dm_traffic_quota_bytes := ur_traffic_quota_bytes req;
         dm_traffic_quota_type := quota_type; dm_tags := tags; dm_accent_color := accent_color;
         dm_dashboard_visible := ur_dashboard_visible req; dm_hide_for_guest := ur_hide_for_guest req; dm_display_order := display_order |}).

Definition update_server (auth : Auth.AuthSession) (server_id : rstr) (req : UpdateServerRequest) : PA ServerDetailResponse :=
  require_scope auth (lit "server:write");;
  agent_id ← of_result (parse_agent_id server_id);
  found ← repo (find_by_id_with_state agent_id);
  row ← of_result (ok_or found (Accounts.NotFound (lit "agent not found")));
  ensure_agent_visible auth (agent row);;
  next ← of_result (requested_metadata req);
  let '(nm, rm, ex, pr, metadata) := next in
  require_public_server_metadata_write_auth auth (dashboard_metadata_json row) metadata;;
  require_server_tag_write_auth_if_changed auth (dashboard_metadata_json row) metadata;;
  text ← of_result (ServerMeta.dashboard_metadata_json metadata serialize_failure);
  updated ← repo (update_dashboard_metadata agent_id nm rm ex pr (Some text));
  if negb (updated : bool) then not_found (lit "agent not found") else get_server auth server_id.

Definition with_metadata_json (text : rstr) (now : Z) (r : AgentRow) : AgentRow :=
  {| ag_id := ag_id r; ag_name := ag_name r; ag_public_key := ag_public_key r; ag_owner_user_id := ag_owner_user_id r;
     ag_last_seen_at := ag_last_seen_at r; ag_revoked_at := ag_revoked_at r; ag_created_at := ag_created_at r;
     ag_updated_at := to_rfc3339 now; ag_remark := ag_remark r; ag_expires_at := ag_expires_at r; ag_renewal_price := ag_renewal_price r;
     ag_dashboard_metadata_json := Some text; ag_last_state_json := ag_last_state_json r;
     ag_last_state_at := ag_last_state_at r; ag_last_info_json := ag_last_info_json r; ag_last_info_at := ag_last_info_at r |}.
Definition update_agent_dashboard_metadata (agent_id : Z) (text : rstr) : PA unit :=
  affected ← repo (update_agents (with_id agent_id) (with_metadata_json text));
  if affected =? 0 then not_found (lit "agent not found") else mret ().

(** ** Ownership transfers *)

Definition references (e : Env E) (t : TransferRow) (s : Fleet) : bool :=
  let user u := match u with Some u => user_exists e u | None => true end in
  existsb (fun r => bool_decide (ag_id r = tf_agent_id t)) (agents s) && user (tf_from_user_id t) && user_exists e (tf_to_user_id t)
  && user (tf_requested_by_user_id t) && match tf_api_token_id t with Some k => token_exists e k | None => true end.

Definition with_owner (owner : rstr) (now : Z) (r : AgentRow) : AgentRow :=
  {| ag_id := ag_id r; ag_name := ag_name r; ag_public_key := ag_public_key r; ag_owner_user_id := owner;
     ag_last_seen_at := ag_last_seen_at r; ag_revoked_at := ag_revoked_at r; ag_created_at := ag_created_at r;
     ag_updated_at := to_rfc3339 now; ag_remark := ag_remark r; ag_expires_at := ag_expires_at r; ag_renewal_price := ag_renewal_price r;
     ag_dashboard_metadata_json := ag_dashboard_metadata_json r; ag_last_state_json := ag_last_state_json r;
     ag_last_state_at := ag_last_state_at r; ag_last_info_json := ag_last_info_json r; ag_last_info_at := ag_last_info_at r |}.

Definition completed_transfer (from to : rstr) (auth : Auth.AuthSession) (now : rstr) (t : TransferRow) : TransferRow :=
  {| tf_id := tf_id t; tf_agent_id := tf_agent_id t; tf_from_user_id := Some from; tf_to_user_id := to;
     tf_requested_by_user_id := Some (uuid_to_string (Auth.user_id auth)); tf_api_token_id := Auth.pat_id auth; tf_status := lit "completed";
     tf_attempts := tf_attempts t + 1; tf_error := None; tf_completed_at := Some now; tf_cancelled_at := None; tf_last_attempt_at := now;
     tf_created_at := tf_created_at t; tf_updated_at := now |}.
Definition new_transfer (id agent_id from to : rstr) (auth : Auth.AuthSession) (status : rstr) (error done_ : option rstr) (now : rstr) : TransferRow :=
  {| tf_id := id; tf_agent_id := agent_id; tf_from_user_id := Some from; tf_to_user_id := to;
     tf_requested_by_user_id := Some (uuid_to_string (Auth.user_id auth)); tf_api_token_id := Auth.pat_id auth; tf_status := status;
     tf_attempts := 1; tf_error := error; tf_completed_at := done_; tf_cancelled_at := None; tf_last_attempt_at := now; tf_created_at := now;
     tf_updated_at := now |}.

(** Every row [hit] becomes [f] of it; a reference that does not exist undoes it. *)
Definition rewrite_transfers (e : Env E) (hit : TransferRow → bool) (f : TransferRow → TransferRow) (s : Fleet) : result Tables.Why Z * Fleet :=
  let rows := (fun t => if hit t then f t else t) <$> transfers s in
  if forallb (fun t => negb (hit t) || references e (f t) s) (transfers s)
  then (Ok (zlen (filter (fun t => hit t = true) (transfers s))), set_transfers rows s) else (Err Tables.ConstraintViolated, s).
Definition insert_transfer (e : Env E) (t : TransferRow) (s : Fleet) : result Tables.Why unit * Fleet :=
  if bool_decide (tf_id t ∈ (tf_id <$> transfers s)) || negb (references e t s) then (Err Tables.ConstraintViolated, s)
  else (Ok (), set_transfers (transfers s ++ [t]) s).

(** The statements of the transaction. *)
Definition owner_transaction (e : Env E) (transfer_id : rstr) (agent_id from to : rstr) (auth : Auth.AuthSession) (now : Z) (s : Fleet)
    : result AppError unit * Fleet :=
  let hit r := bool_decide (ag_id r = agent_id) && bool_decide (ag_owner_user_id r = from) in
  if zlen (filter (fun r => hit r = true) (agents s)) =? 0
  then (Err (Accounts.BadRequest (lit "agent owner changed before transfer could complete")), s) else
  if negb (user_exists e to) then (Err (Accounts.Database (Tables.Bail Tables.ConstraintViolated)), s) else
  let s1 := set_agents ((fun r => if hit r then with_owner to now r else r) <$> agents s) s in
  let foreign m := existsb (fun g => bool_decide (gr_id g = me_group_id m) && negb (bool_decide (gr_owner_user_id g = to))) (groups s1) in
  let s2 := set_members (filter (fun m => bool_decide (me_agent_id m = agent_id) && foreign m = false) (members s1)) s1 in
  if is_empty transfer_id then (Err (Accounts.BadRequest (lit "transfer id is required")), s) else
  let r := if existsb (fun t => bool_decide (tf_id t = transfer_id)) (transfers s2)
           then match rewrite_transfers e (fun t => bool_decide (tf_id t = transfer_id)) (completed_transfer from to auth (to_rfc3339 now)) s2 with
                | (Ok _, s3) => Ok s3 | (Err w, _) => Err w end
           else match insert_transfer e (new_transfer transfer_id agent_id from to auth (lit "completed") None (Some (to_rfc3339 now)) (to_rfc3339 now)) s2 with
                | (Ok _, s3) => Ok s3 | (Err w, _) => Err w end in
  match r with
  | Ok s3 => (Ok (), s3)
  | Err w => (Err (Accounts.Database (Tables.Bail w)), s)
  end.
Definition persist_owner_transfer (transfer_id : rstr) (agent_id from_owner to_owner : Z) (auth : Auth.AuthSession) : PA unit :=
  now ← observe utc;
  atomic (fun e s =>
    match fault e with
    | Some x => (Err (Accounts.Database (Tables.Sqlx x)), s)
    | None => owner_transaction e transfer_id (uuid_to_string agent_id) (uuid_to_string from_owner) (uuid_to_string to_owner) auth now s
    end).

Definition failed_again (error now : rstr) (t : TransferRow) : TransferRow :=
  {| tf_id := tf_id t; tf_agent_id := tf_agent_id t; tf_from_user_id := tf_from_user_id t; tf_to_user_id := tf_to_user_id t;
     tf_requested_by_user_id := tf_requested_by_user_id t; tf_api_token_id := tf_api_token_id t; tf_status := lit "failed";
     tf_attempts := tf_attempts t + 1; tf_error := Some error; tf_completed_at := tf_completed_at t; tf_cancelled_at := tf_cancelled_at t;
     tf_last_attempt_at := now; tf_created_at := tf_created_at t; tf_updated_at := now |}.
(** [INSERT .. ON CONFLICT(id) DO UPDATE]. *)
Definition record_failed_server_owner_transfer (transfer_id : rstr) (agent_id from_owner to_owner : Z) (auth : Auth.AuthSession) (error : rstr) : PA unit :=
  now ← observe utc;
  repo (sql (fun e s =>
    if existsb (fun t => bool_decide (tf_id t = transfer_id)) (transfers s)
    then (Ok (), set_transfers ((fun t => if bool_decide (tf_id t = transfer_id) then failed_again error (to_rfc3339 now) t else t) <$> transfers s) s)
    else insert_transfer e (new_transfer transfer_id (uuid_to_string agent_id) (uuid_to_string from_owner) (uuid_to_string to_owner) auth
                             (lit "failed") (Some error) None (to_rfc3339 now)) s)).

Definition completed_in_place (from : rstr) (auth : Auth.AuthSession) (now : rstr) (t : TransferRow) : TransferRow :=
  completed_transfer from (tf_to_user_id t) auth now t.
(** [increment_attempts] is true in its only call. *)
Definition mark_server_owner_transfer_completed (transfer_id : rstr) (from_owner : Z) (auth : Auth.AuthSession) : PA unit :=
  now ← observe utc;
  affected ← repo (sql (fun e s => rewrite_transfers e (fun t => bool_decide (tf_id t = transfer_id))
                                     (completed_in_place (uuid_to_string from_owner) auth (to_rfc3339 now)) s));
  if affected =? 0 then not_found (lit "server transfer not found") else mret ().
Definition mark_server_owner_transfer_failed (transfer_id error : rstr) : PA unit :=
  now ← observe utc;
  affected ← repo (sql (fun e s => rewrite_transfers e (fun t => bool_decide (tf_id t = transfer_id)) (failed_again error (to_rfc3339 now)) s));
  if affected =? 0 then not_found (lit "server transfer not found") else mret ().
Definition cancelled_transfer (now : rstr) (t : TransferRow) : TransferRow :=
  {| tf_id := tf_id t; tf_agent_id := tf_agent_id t; tf_from_user_id := tf_from_user_id t; tf_to_user_id := tf_to_user_id t;
     tf_requested_by_user_id := tf_requested_by_user_id t; tf_api_token_id := tf_api_token_id t; tf_status := lit "cancelled";
     tf_attempts := tf_attempts t; tf_error := Some (lit "cancelled by user"); tf_completed_at := tf_completed_at t; tf_cancelled_at := Some now;
     tf_last_attempt_at := tf_last_attempt_at t; tf_created_at := tf_created_at t; tf_updated_at := now |}.
Definition mark_server_owner_transfer_cancelled (transfer_id : rstr) : PA unit :=
  now ← observe utc;
  affected ← repo (sql (fun e s => rewrite_transfers e
                (fun t => bool_decide (tf_id t = transfer_id) && negb (bool_decide (tf_status t = lit "completed")))
                (cancelled_transfer (to_rfc3339 now)) s));
  if affected =? 0 then not_found (lit "server transfer not found") else mret ().

Definition load_server_owner_transfer (transfer_id : rstr) : PA (option TransferRow) :=
  transfer_id ← of_result (require_server_uuid_text transfer_id (lit "transfer_id"));
  repo (select (fun s => head (filter (fun t => tf_id t = transfer_id) (transfers s)))).

Definition newest_transfer (p q : TransferRow) : Prop := str_leb (tf_created_at q) (tf_created_at p) = true.
#[local] Instance newest_transfer_dec p q : Decision (newest_transfer p q).
Proof. unfold newest_transfer. apply _. Defined.
Definition load_server_owner_transfers (auth : Auth.AuthSession) (server_id : option rstr) (limit offset : Z) : PA (list TransferRow * Z) :=
  let allowed t := match Auth.server_ids auth with Some ids => bool_decide (tf_agent_id t ∈ ids) | None => true end in
  let hit t := match server_id with Some i => bool_decide (tf_agent_id t = i) | None => true end && allowed t in
  if bool_decide (Auth.server_ids auth = Some []) then mret ([], 0) else
  total ← repo (select (fun s => zlen (filter (fun t => hit t = true) (transfers s))));
  rows ← repo (select (fun s => take (Z.to_nat limit) (drop (Z.to_nat offset) (merge_sort newest_transfer (filter (fun t => hit t = true) (transfers s))))));
  mret (rows, total).
Definition list_server_owner_transfers (auth : Auth.AuthSession) (server_id : option rstr) (limit offset : Z) : PA (list TransferRow * Z) :=
  require_scope auth (lit "server:read");;
  require_transfer_admin auth;;
  server_id ← of_result (match server_id with
                         | Some i => a ← parse_agent_id i; Ok (Some (uuid_to_string a)) | None => Ok None end);
  (match server_id with Some i => ensure_transfer_server_scope auth i | None => mret () end);;
  load_server_owner_transfers auth server_id (Z.max 1 (Z.min limit 200)) (Z.max offset 0).

Definition insert_audit (e : Env E) (a : AuditRow) (s : Fleet) : result Tables.Why unit * Fleet :=
  if bool_decide (au_id a ∈ (au_id <$> audit s)) || match au_user_id a with Some u => negb (user_exists e u) | None => false end
     || match au_api_token_id a with Some k => negb (token_exists e k) | None => false end
  then (Err Tables.ConstraintViolated, s) else (Ok (), set_audit (audit s ++ [a]) s).
Definition record_server_transfer_audit (auth : Auth.AuthSession) (ip action outcome transfer_id server_id : rstr) (error : option rstr) : PA unit :=
  uuid ← draw;
  now ← observe utc;
  repo (sql (fun e => insert_audit e
    {| au_id := uuid_to_string uuid; au_user_id := Some (uuid_to_string (Auth.user_id auth)); au_api_token_id := Auth.pat_id auth;
       au_action := action; au_resource_id := transfer_id; au_server_id := server_id; au_ip := ip; au_outcome := outcome;
       au_metadata_json := JObject [(lit "error", match error with Some m => JString m | None => JNull end); (lit "server_id", JString server_id);
                                    (lit "transfer_id", JString transfer_id)];
       au_created_at := to_rfc3339 now |})).

Definition find_user (user : Z) : PA bool :=
  repo (sql (fun e s => (Ok (user_exists e (uuid_to_string user)), s))).
Definition reload (transfer_id : rstr) : PA TransferRow :=
  found ← load_server_owner_transfer transfer_id; of_result (ok_or found (Accounts.NotFound (lit "server transfer not found"))).

Definition retry_server_owner_transfer (auth : Auth.AuthSession) (actor_ip transfer_id : rstr) : PA TransferRow :=
  require_scope auth (lit "server:write");;
  require_transfer_admin auth;;
  sensitive (Auth.user_id auth);;
  transfer ← reload transfer_id;
  if bool_decide (tf_status transfer = lit "completed") then refuse (lit "completed transfer cannot be retried") else
  ensure_transfer_server_scope auth (tf_agent_id transfer);;
  agent_id ← of_result (parse_agent_id (tf_agent_id transfer));
  target_owner ← of_result (parse_user_id (tf_to_user_id transfer));
  exists_ ← find_user target_owner;
  if negb (exists_ : bool) then mark_server_owner_transfer_failed transfer_id (lit "target user not found");; reload transfer_id else
  found ← repo (find_by_id_with_state agent_id);
  match found with
  | None => mark_server_owner_transfer_failed transfer_id (lit "agent not found");; reload transfer_id
  | Some row =>
      let attempt :=
        if owner_user_id (agent row) =? target_owner
        then mark_server_owner_transfer_completed transfer_id (owner_user_id (agent row)) auth
        else persist_owner_transfer transfer_id agent_id (owner_user_id (agent row)) target_owner auth in
      proc_bind attempt (fun r =>
        match r with
        | Ok _ => ignore (record_server_transfer_audit auth actor_ip (lit "server.transfer_owner.retry") (lit "success") transfer_id (tf_agent_id transfer) None)
        | Err err =>
            let message := error_message err in
            mark_server_owner_transfer_failed transfer_id message;;
            ignore (record_server_transfer_audit auth actor_ip (lit "server.transfer_owner.retry") (lit "failure") transfer_id (tf_agent_id transfer) (Some message))
        end);;
      reload transfer_id
  end.

Definition cancel_server_owner_transfer (auth : Auth.AuthSession) (actor_ip transfer_id : rstr) : PA TransferRow :=
  require_scope auth (lit "server:write");;
  require_transfer_admin auth;;
  sensitive (Auth.user_id auth);;
  transfer ← reload transfer_id;
  if bool_decide (tf_status transfer = lit "completed") then refuse (lit "completed transfer cannot be cancelled") else
  ensure_transfer_server_scope auth (tf_agent_id transfer);;
  mark_server_owner_transfer_cancelled transfer_id;;
  ignore (record_server_transfer_audit auth actor_ip (lit "server.transfer_owner.cancel") (lit "success") transfer_id (tf_agent_id transfer) None);;
  reload transfer_id.

(** ** Groups *)

Definition oldest_member (p q : MemberRow) : Prop := str_leb (me_created_at p) (me_created_at q) = true.
#[local] Instance oldest_member_dec p q : Decision (oldest_member p q).
Proof. unfold oldest_member. apply _. Defined.
Definition member_owned (owner : rstr) (s : Fleet) (m : MemberRow) : bool :=
  existsb (fun r => bool_decide (ag_id r = me_agent_id m) && bool_decide (ag_owner_user_id r = owner)) (agents s).
Definition load_server_group_members (group_id : rstr) (owner : Z) : PA (list rstr) :=
  repo (select (fun s =>
    me_agent_id <$> merge_sort oldest_member (filter (fun m => me_group_id m = group_id ∧ member_owned (uuid_to_string owner) s m = true) (members s)))).

Definition group_view (g : GroupRow) (server_ids : list rstr) : ServerGroupView :=
  {| gv_id := gr_id g; gv_owner_user_id := gr_owner_user_id g; gv_name := gr_name g; gv_color := gr_color g;
     gv_display_order := gr_display_order g; gv_server_ids := server_ids; gv_created_at := gr_created_at g; gv_updated_at := gr_updated_at g |}.
Definition load_server_group (auth : Auth.AuthSession) (group_id : rstr) : PA ServerGroupView :=
  group_id ← of_result (require_server_uuid_text group_id (lit "group_id"));
  row ← repo (select (fun s => head (filter (fun g => gr_id g = group_id ∧ gr_owner_user_id g = uuid_to_string (Auth.user_id auth)) (groups s))));
  g ← of_result (ok_or row (Accounts.NotFound (lit "server group not found")));
  server_ids ← load_server_group_members (gr_id g) (Auth.user_id auth);
  ensure_server_group_visible auth server_ids;;
  mret (group_view g (filter_visible_server_ids auth server_ids)).

Definition group_before (p q : GroupRow) : Prop :=
  let k g := default 999999 (gr_display_order g) in k p < k q ∨ k p = k q ∧ str_leb (gr_created_at p) (gr_created_at q) = true.
#[local] Instance group_before_dec p q : Decision (group_before p q).
Proof. unfold group_before. apply _. Defined.
(** The groups of the user; with an allowlist, those without a member outside it. *)
Definition listed_groups (auth : Auth.AuthSession) (s : Fleet) : list GroupRow :=
  let owner := uuid_to_string (Auth.user_id auth) in
  let outside ids g := existsb (fun m => bool_decide (me_group_id m = gr_id g) && member_owned owner s m && negb (bool_decide (me_agent_id m ∈ ids))) (members s) in
  filter (fun g => gr_owner_user_id g = owner ∧ match Auth.server_ids auth with Some ids => outside ids g | None => false end = false) (groups s).
Fixpoint group_views (auth : Auth.AuthSession) (rows : list GroupRow) : PA (list ServerGroupView) :=
  match rows with
  | [] => mret []
  | g :: rows =>
      server_ids ← load_server_group_members (gr_id g) (Auth.user_id auth);
      rest ← group_views auth rows;
      mret (group_view g server_ids :: rest)
  end.
Definition load_server_groups (auth : Auth.AuthSession) (limit offset : Z) : PA (list ServerGroupView * Z) :=
  total ← repo (select (fun s => zlen (listed_groups auth s)));
  rows ← repo (select (fun s => take (Z.to_nat limit) (drop (Z.to_nat offset) (merge_sort group_before (listed_groups auth s)))));
  views ← group_views auth rows;
  mret (views, total).
Definition list_server_groups (auth : Auth.AuthSession) (limit offset : Z) : PA (list ServerGroupView * Z) :=
  require_scope auth (lit "server:read");;
  r ← load_server_groups auth (Z.max 1 (Z.min limit 500)) (Z.max offset 0);
  mret ((fun g => {| gv_id := gv_id g; gv_owner_user_id := gv_owner_user_id g; gv_name := gv_name g; gv_color := gv_color g;
                     gv_display_order := gv_display_order g; gv_server_ids := filter_visible_server_ids auth (gv_server_ids g);
                     gv_created_at := gv_created_at g; gv_updated_at := gv_updated_at g |}) <$> r.1, r.2).

(** The primary key, the unique name of an owner and the reference to the user. *)
Definition insert_group (e : Env E) (g : GroupRow) (s : Fleet) : result Tables.Why unit * Fleet :=
  if bool_decide (gr_id g ∈ (gr_id <$> groups s))
     || existsb (fun x => bool_decide (gr_owner_user_id x = gr_owner_user_id g) && bool_decide (gr_name x = gr_name g)) (groups s)
     || negb (user_exists e (gr_owner_user_id g))
  then (Err Tables.ConstraintViolated, s) else (Ok (), set_groups (groups s ++ [g]) s).
Definition create_server_group (auth : Auth.AuthSession) (req : ServerGroupRequest) : PA ServerGroupView :=
  require_scope auth (lit "server:write");;
  require_server_group_write_auth auth;;
  name ← of_result (normalize_group_name (default [] (gq_name req)));
  color ← of_result (normalize_optional_label (gq_color req) (lit "color"));
  display_order ← of_result (normalize_display_order (gq_display_order req) (lit "display_order"));
  uuid ← draw;
  now ← observe utc;
  repo (sql (fun e => insert_group e
    {| gr_id := uuid_to_string uuid; gr_owner_user_id := uuid_to_string (Auth.user_id auth); gr_name := name; gr_color := color;
       gr_display_order := display_order; gr_created_at := to_rfc3339 now; gr_updated_at := to_rfc3339 now |}));;
  load_server_group auth (uuid_to_string uuid).

Definition renamed_group (name : rstr) (color : option rstr) (display_order : option Z) (now : rstr) (g : GroupRow) : GroupRow :=
  {| gr_id := gr_id g; gr_owner_user_id := gr_owner_user_id g; gr_name := name; gr_color := color; gr_display_order := display_order;
     gr_created_at := gr_created_at g; gr_updated_at := now |}.
Definition update_server_group (auth : Auth.AuthSession) (group_id : rstr) (req : ServerGroupRequest) : PA ServerGroupView :=
  require_scope auth (lit "server:write");;
  require_server_group_write_auth auth;;
  existing ← load_server_group auth group_id;
  name ← of_result (match gq_name req with Some v => normalize_group_name v | None => Ok (gv_name existing) end);
  color ← of_result (normalize_optional_label (gq_color req) (lit "color"));
  let color := or_else color (gv_color existing) in
  display_order ← of_result (match gq_display_order req with
                             | Some v => normalize_display_order (Some v) (lit "display_order") | None => Ok (gv_display_order existing) end);
  now ← observe utc;
  let owner := uuid_to_string (Auth.user_id auth) in
  affected ← repo (sql (fun _ s =>
    let hit g := bool_decide (gr_id g = group_id) && bool_decide (gr_owner_user_id g = owner) in
    if existsb hit (groups s) && existsb (fun g => negb (bool_decide (gr_id g = group_id)) && bool_decide (gr_owner_user_id g = owner) && bool_decide (gr_name g = name)) (groups s)
    then (Err Tables.ConstraintViolated, s)
    else (Ok (zlen (filter (fun g => hit g = true) (groups s))),
          set_groups ((fun g => if hit g then renamed_group name color display_order (to_rfc3339 now) g else g) <$> groups s) s)));
  if affected =? 0 then not_found (lit "server group not found") else load_server_group auth group_id.

Definition delete_server_group (auth : Auth.AuthSession) (group_id : rstr) : PA unit :=
  require_scope auth (lit "server:write");;
  require_server_group_write_auth auth;;
  load_server_group auth group_id;;
  affected ← repo (sql (fun _ s =>
    let hit g := bool_decide (gr_id g = group_id) && bool_decide (gr_owner_user_id g = uuid_to_string (Auth.user_id auth)) in
    (Ok (zlen (filter (fun g => hit g = true) (groups s))), drop_groups hit s)));
  if affected =? 0 then not_found (lit "server group not found") else mret ().

Definition find_group_server (auth : Auth.AuthSession) (server_id : rstr) : PA Agent :=
  agent_id ← of_result (parse_agent_id server_id);
  found ← repo (find_by_id agent_id);
  a ← of_result (ok_or found (Accounts.NotFound (lit "agent not found")));
  ensure_agent_visible auth a;;
  mret a.
Definition ensure_group_server_access (auth : Auth.AuthSession) (server_id : rstr) : PA unit := find_group_server auth server_id;; mret ().
Definition ensure_group_server_active (auth : Auth.AuthSession) (server_id : rstr) : PA unit :=
  a ← find_group_server auth server_id;
  if negb (owner_user_id a =? Auth.user_id auth) then forbid (lit "agent is owned by another user") else
  if bool_decide (is_Some (revoked_at a)) then refuse (lit "agent has been revoked") else mret ().

(** [INSERT .. ON CONFLICT DO NOTHING]; a missing group or Agent is an error. *)
Definition insert_member (m : MemberRow) (s : Fleet) : result Tables.Why unit * Fleet :=
  if existsb (fun x => bool_decide (me_group_id x = me_group_id m) && bool_decide (me_agent_id x = me_agent_id m)) (members s) then (Ok (), s) else
  if negb (bool_decide (me_group_id m ∈ (gr_id <$> groups s))) || negb (bool_decide (me_agent_id m ∈ (ag_id <$> agents s)))
  then (Err Tables.ConstraintViolated, s) else (Ok (), set_members (members s ++ [m]) s).

Fixpoint each {A X} (f : A → P (Env E) Fleet X unit) (l : list A) : P (Env E) Fleet X unit :=
  match l with [] => mret () | x :: l => f x;; each f l end.
Definition add_server_group_members (auth : Auth.AuthSession) (group_id : rstr) (ids : list rstr) : PA ServerGroupView :=
  require_scope auth (lit "server:write");;
  require_server_group_write_auth auth;;
  server_ids ← of_result (dedupe_ids ids SERVER_BATCH_MAX_SERVER_IDS (lit "server_ids"));
  if is_empty server_ids then refuse (lit "server_ids is required") else
  load_server_group auth group_id;;
  each (ensure_group_server_active auth) server_ids;;
  now ← observe utc;
  each (fun server_id => repo (sql (fun _ => insert_member {| me_group_id := group_id; me_agent_id := server_id; me_created_at := to_rfc3339 now |}))) server_ids;;
  load_server_group auth group_id.

Definition delete_server_group_member (auth : Auth.AuthSession) (group_id server_id : rstr) : PA ServerGroupView :=
  require_scope auth (lit "server:write");;
  require_server_group_write_auth auth;;
  load_server_group auth group_id;;
  ensure_group_server_access auth server_id;;
  repo (sql (fun _ s => (Ok (), set_members (filter (fun m => ¬ (me_group_id m = group_id ∧ me_agent_id m = server_id)) (members s)) s)));;
  load_server_group auth group_id.

Definition move_agent_to_server_group (auth : Auth.AuthSession) (agent_id : Z) (group_id : rstr) : PA unit :=
  now ← observe utc;
  repo (sql (fun _ s =>
    let mine m := existsb (fun g => bool_decide (gr_id g = me_group_id m) && bool_decide (gr_owner_user_id g = uuid_to_string (Auth.user_id auth))) (groups s) in
    (Ok (), set_members (filter (fun m => bool_decide (me_agent_id m = uuid_to_string agent_id) && mine m = false) (members s)) s)));;
  repo (sql (fun _ => insert_member {| me_group_id := group_id; me_agent_id := uuid_to_string agent_id; me_created_at := to_rfc3339 now |})).

(** ** Batches *)

Definition as_text {A} (m : PA A) : PT A := map_err error_message m.
Definition fail_text {A} (t : rstr) : PT A := throw t.

Definition transfer_owner (auth : Auth.AuthSession) (actor_ip server_id : rstr) (agent_id from_owner target_owner : Z) : PT unit :=
  uuid ← draw;
  let transfer_id := uuid_to_string uuid in
  proc_bind (persist_owner_transfer transfer_id agent_id from_owner target_owner auth) (fun r =>
    match r with
    | Ok _ => ignore (record_server_transfer_audit auth actor_ip (lit "server.transfer_owner") (lit "success") transfer_id server_id None)
    | Err err =>
        let message := error_message err in
        ignore (record_failed_server_owner_transfer transfer_id agent_id from_owner target_owner auth message);;
        ignore (record_server_transfer_audit auth actor_ip (lit "server.transfer_owner") (lit "failure") transfer_id server_id (Some message));;
        fail_text message
    end).

(** The metadata a batch writes. *)
Definition batch_metadata (action : ServerBatchAction) (tags : list rstr) (visible : option bool) (m : DashboardMetadata) : DashboardMetadata :=
  match action with
  | SetTags => with_tags (normalize_tags tags) m
  | AddTags => with_tags (normalize_tags (dm_tags m ++ tags)) m
  | RemoveTags => with_tags (filter (fun tag => tag ∉ tags) (dm_tags m)) m
  | SetDashboardVisible => with_visible visible m
  | TransferOwner | Delete | MoveGroup => m
  end.

Definition apply_batch_action (auth : Auth.AuthSession) (actor_ip server_id : rstr) (action : ServerBatchAction) (tags : list rstr)
    (visible : option bool) (target_owner : option Z) (target_group : option rstr) : PT unit :=
  agent_id ← as_text (of_result (parse_agent_id server_id));
  found ← map_err anyhow_text (find_by_id_with_state agent_id);
  row ← of_result (ok_or found (lit "agent not found"));
  as_text (ensure_agent_visible auth (agent row));;
  match action with
  | Delete =>
      if negb (Auth.is_admin (Auth.role auth)) && negb (owner_user_id (agent row) =? Auth.user_id auth)
      then fail_text (lit "agent is owned by another user") else
      as_text (delete_agent agent_id);; mret ()
  | MoveGroup =>
      if negb (owner_user_id (agent row) =? Auth.user_id auth) then fail_text (lit "agent is owned by another user") else
      if bool_decide (is_Some (revoked_at (agent row))) then fail_text (lit "agent has been revoked") else
      group_id ← of_result (ok_or target_group (lit "group_id is required"));
      as_text (move_agent_to_server_group auth agent_id group_id)
  | TransferOwner =>
      target ← of_result (ok_or target_owner (lit "owner_user_id is required"));
      transfer_owner auth actor_ip server_id agent_id (owner_user_id (agent row)) target
  | SetTags | AddTags | RemoveTags | SetDashboardVisible =>
      let stored := dashboard_metadata (dashboard_metadata_json row) [parse_telemetry (last_info_json row); parse_telemetry (last_state_json row)] in
      text ← as_text (of_result (ServerMeta.dashboard_metadata_json (batch_metadata action tags visible stored) serialize_failure));
      as_text (update_agent_dashboard_metadata agent_id text)
  end.

Fixpoint apply_batch (auth : Auth.AuthSession) (actor_ip : rstr) (ids : list rstr) (action : ServerBatchAction) (tags : list rstr)
    (visible : option bool) (target_owner : option Z) (target_group : option rstr) : PA (list BatchUpdateServerResult) :=
  match ids with
  | [] => mret []
  | server_id :: ids =>
      proc_bind (apply_batch_action auth actor_ip server_id action tags visible target_owner target_group) (fun r =>
        rest ← apply_batch auth actor_ip ids action tags visible target_owner target_group;
        mret (match r with
              | Ok _ => {| br_id := server_id; br_success := true; br_error := None |}
              | Err err => {| br_id := server_id; br_success := false; br_error := Some err |}
              end :: rest))
  end.

Definition batch_guards (auth : Auth.AuthSession) (action : ServerBatchAction) : PA unit :=
  (if is_delete action && Auth.is_pat (Auth.auth_kind auth) then forbid (lit "server deletion requires a cookie session") else mret ());;
  (if is_delete action || is_transfer action then sensitive (Auth.user_id auth) else mret ());;
  (if is_move action then require_server_group_write_auth auth else mret ());;
  (if is_visible_action action then require_public_server_visibility_write_auth auth else mret ());;
  (if is_tag_action action then require_server_tag_write_auth auth else mret ()).

Definition batch_owner (auth : Auth.AuthSession) (req : BatchUpdateServersRequest) : PA (option Z) :=
  if negb (is_transfer (bq_action req)) then mret None else
  if negb (Auth.is_admin (Auth.role auth)) then forbid (lit "admin role required for ownership transfer") else
  require_admin_cookie_session auth;;
  owner ← of_result (text ← ok_or (bq_owner_user_id req) (Accounts.BadRequest (lit "owner_user_id is required"));
                     text ← normalize_uuid_text text (lit "owner_user_id"); parse_user_id text);
  exists_ ← find_user owner;
  if negb (exists_ : bool) then not_found (lit "target user not found") else mret (Some owner).

Definition batch_update_servers (auth : Auth.AuthSession) (actor_ip : rstr) (req : BatchUpdateServersRequest) : PA Response :=
  let action := bq_action req in
  require_scope auth (lit "server:write");;
  batch_guards auth action;;
  server_ids ← of_result (dedupe_ids (bq_server_ids req) SERVER_BATCH_MAX_SERVER_IDS (lit "server_ids"));
  if is_empty server_ids then refuse (lit "server_ids is required") else
  target_owner ← batch_owner auth req;
  if is_visible_action action && bool_decide (bq_dashboard_visible req = None) then refuse (lit "dashboard_visible is required") else
  if is_move action && bool_decide (bq_group_id req = None) then refuse (lit "group_id is required") else
  group_id ← of_result (match bq_group_id req with
                        | Some g => t ← normalize_uuid_text g (lit "group_id"); Ok (Some t) | None => Ok None end);
  (match is_move action, group_id with
   | true, Some g => load_server_group auth g;; mret ()
   | _, _ => mret ()
   end);;
  tags ← of_result (normalize_tag_input (bq_tags req));
  if is_tag_action action && is_empty tags then refuse (lit "tags is required") else
  results ← apply_batch auth actor_ip server_ids action tags (bq_dashboard_visible req) target_owner group_id;
  let updated := zlen (filter (fun r => br_success r = true) results) in
  mret (BatchUpdated action results updated (saturating_sub (zlen results) updated)).
End admin.
End ServerAdmin.
