(* ===== verification/FleetPool.v ===== *)
(** * FleetPool: every handler of the fleet, and what its steps change

    The handlers of [Fleet], [FleetStreams] and [ServerAdmin] run in one pool.
    Apart from issuing an enrolment token, using one, inserting an Agent and
    transferring an Agent to another owner, every step of every handler is one
    of a few harmless changes. *)

From S2P Require Import Prelude Text BTreeMap Json Externals Net Auth Security Rfc3339 Tables Sessions Users Accounts Registry IoStreams AgentTokens.
From S2P Require Import Interleave Realtime ServerMeta Telemetry Fleet FleetStreams ServerAdmin.

Module FleetPool.
Import Interleave Fleet FleetStreams ServerAdmin.

(** ** Registries *)

(** Who is revoked stays revoked, and gets no stream again. *)
Definition sessions_forward (w w' : Registry.Registry Msg) : Prop :=
  Registry.revoked w ⊆ Registry.revoked w' ∧
  ∀ a, a ∈ Registry.revoked w → Registry.senders w !! a = None → Registry.senders w' !! a = None.
Definition io_forward (r r' : IoStreams.IoRegistry) : Prop :=
  IoStreams.revoked_agents r ⊆ IoStreams.revoked_agents r' ∧
  ∀ a, a ∈ IoStreams.revoked_agents r → IoStreams.agent_streams r !! a = None → IoStreams.agent_streams r' !! a = None.

(** A step of a send keeps the registered streams and the revoked Agents. *)
Lemma send_step_quiet i (w w' : Registry.Registry Msg) :
  Registry.send_step i w w' → Registry.senders w' = Registry.senders w ∧ Registry.revoked w' = Registry.revoked w.
Proof.
  destruct 1; cbn; unfold Registry.send_lookup, Registry.send_closed, Registry.send_commit, Registry.send_timeout; repeat case_match; done.
Qed.

Lemma quiet_forward f w : sessions_forward w (quiet f w).
Proof. unfold quiet. case_bool_decide as Hq; [|done]. destruct Hq as [Hs Hr]. split; [by rewrite Hr|]. by rewrite Hs. Qed.

Lemma register_forward a c x (w : Registry.Registry Msg) : sessions_forward w (Registry.register a c x w).1.
Proof.
  unfold Registry.register. case_bool_decide as Ha; [done|]. split; [by case_match|]. intros b Hb Hn. cbn.
  assert (a ≠ b) by (by intros ->). case_match; cbn; by rewrite lookup_insert_ne.
Qed.
Lemma unregister_forward a c (w : Registry.Registry Msg) : sessions_forward w (Registry.unregister a c w).1.
Proof.
  unfold Registry.unregister. repeat case_match; cbn; try done. split; [done|]. intros b _ Hn. cbn. by apply lookup_delete_None; right.
Qed.
Lemma disconnect_revoke_forward a (w : Registry.Registry Msg) : sessions_forward w (Registry.disconnect_revoke a w).
Proof. split; [cbn; set_solver|done]. Qed.
Lemma disconnect_notify_forward rs (w : Registry.Registry Msg) : sessions_forward w (Registry.disconnect_notify rs w).
Proof. done. Qed.
Lemma disconnect_remove_forward a (w : Registry.Registry Msg) : sessions_forward w (Registry.disconnect_remove a w).
Proof. unfold Registry.disconnect_remove. case_match; [|done]. split; [done|]. intros b _ Hn. cbn. by apply lookup_delete_None; right. Qed.

Lemma register_agent_forward `{UuidLib} a c r : io_forward r (IoStreams.register_agent a c r).1.
Proof.
  unfold IoStreams.register_agent. case_bool_decide as Ha; [done|]. split; [by destruct (IoStreams.agent_streams r !! a)|]. intros b Hb Hn.
  assert (a ≠ b) by (by intros ->). case_match; cbn; by rewrite lookup_insert_ne.
Qed.
Lemma unregister_agent_forward `{UuidLib} a c r : io_forward r (IoStreams.unregister_agent a c r).1.
Proof.
  unfold IoStreams.unregister_agent. destruct (IoStreams.agent_streams r !! a) as [c0|]; [|done]. destruct c as [c1|]; [|done].
  destruct (c0 =? c1); [|done]. split; [done|]. intros b _ Hn. cbn. by apply lookup_delete_None; right.
Qed.
Lemma disconnect_agent_revoke_forward a r : io_forward r (IoStreams.disconnect_agent_revoke a r).
Proof. split; [cbn; set_solver|done]. Qed.
Lemma disconnect_agent_remove_forward `{UuidLib} a r : io_forward r (IoStreams.disconnect_agent_remove a r).1.
Proof. split; [done|]. intros b _ Hn. cbn. by apply lookup_delete_None; right. Qed.
Lemma notify_closed_forward `{UuidLib} l a reason r : io_forward r (IoStreams.notify_closed_subscribers l a reason r).
Proof. done. Qed.
Lemma prune_forward r : io_forward r (IoStreams.prune_closed_io_subscribers r).
Proof. done. Qed.
Lemma hand_over_forward del r : io_forward r (IoStreams.hand_over del r).
Proof. done. Qed.
Lemma subscribe_forward sid a c x r : io_forward r (IoStreams.subscribe_stream sid a c x r).
Proof. unfold IoStreams.subscribe_stream. by repeat case_match. Qed.
Lemma unsubscribe_forward sid r : io_forward r (IoStreams.unsubscribe_stream sid r).
Proof. unfold IoStreams.unsubscribe_stream. cbv zeta. by case_match. Qed.

(** ** Changes *)

(** A row that is updated is still the same Agent's, its owner's, and revoked if
    it was. *)
Definition row_kept (r r' : AgentRow) : Prop :=
  ag_id r' = ag_id r ∧ ag_public_key r' = ag_public_key r ∧ ag_owner_user_id r' = ag_owner_user_id r ∧
  (is_Some (ag_revoked_at r) → is_Some (ag_revoked_at r')).

Inductive change {E} (e : Env E) (s : Fleet) : Fleet → Prop :=
| change_none : change e s s
| change_rows f : (∀ r, row_kept r (f r)) → change e s (set_agents (f <$> agents s) s)
| change_dropped gone : change e s (drop_agents gone s)
| change_user user : change e s (user_rows_deleted user s)
| change_servers l : change e s (set_servers l s)
| change_groups l : change e s (set_groups l s)
| change_group_rows gone : change e s (drop_groups gone s)
| change_members l : change e s (set_members l s)
| change_transfers l : change e s (set_transfers l s)
| change_audit l : change e s (set_audit l s)
| change_challenges m : change e s (set_challenges m s)
| change_sessions w : sessions_forward (sessions s) w → change e s (set_sessions w s)
| change_io r : io_forward (io s) r → change e s (set_io r s)
| change_hub h : change e s (set_hub h s)
| change_written l : change e s (set_written l s)
| change_calls l : change e s (set_calls l s)
| change_drawn : change e s (set_drawn (uuid e :: drawn s) s).

(** ** Handlers

    The steps of a program by its parts. *)

Create HintDb calm discriminated.
Ltac calm_step :=
  first [ exact I
        | solve [trivial with calm nocore]
        | apply always_try | apply always_map_err | apply always_ignore | apply always_bind
        | case_match | match goal with |- ∀ _, _ => intros ? end ].
Ltac calm := repeat calm_step.

Section calm.
Context {E : Type} `{UuidLib, Rfc3339, JulianDay, Auth.Crypto, AgentTokens.JwtLib, ServerMeta.MetaLib}.
Abbreviation Calm m := (always (@change E) m).

Lemma calm_observe {X A} (f : Env E → A) : Calm (observe f : P (Env E) Fleet X A).
Proof. intros e s. split; [apply change_none|exact I]. Qed.
Lemma calm_look {X A} (f : Fleet → A) : Calm (look f : P (Env E) Fleet X A).
Proof. intros e s. split; [apply change_none|exact I]. Qed.
Lemma calm_draw {X} : Calm (draw : P (Env E) Fleet X Z).
Proof. intros e s. split; [apply change_drawn|exact I]. Qed.
Lemma calm_locked {X} (f : Env E → Fleet → Fleet) : (∀ e s, change e s (f e s)) → Calm (locked f : P (Env E) Fleet X unit).
Proof. intros Hf e s. split; [apply Hf|exact I]. Qed.
Lemma calm_sql {A} (f : Env E → Fleet → result Tables.Why A * Fleet) : (∀ e s a s', f e s = (Ok a, s') → change e s s') → Calm (sql f).
Proof.
  intros Hf e s. split; [|exact I]. cbn. destruct (fault e); [apply change_none|].
  destruct (f e s) as [[a|w] s'] eqn:Hs; [by eapply Hf|apply change_none].
Qed.
Lemma calm_select {A} (f : Fleet → A) : Calm (select (E := E) f).
Proof. apply calm_sql. intros e s a s' [= _ <-]. apply change_none. Qed.
Lemma calm_update hit (f : Z → AgentRow → AgentRow) : (∀ now r, row_kept r (f now r)) → Calm (update_agents (E := E) hit f).
Proof.
  intros Hf. unfold update_agents. apply always_try; [apply calm_observe|]. intros now. apply calm_sql.
  intros e s a s' [= _ <-]. apply change_rows. intros r. case_match; [apply Hf|done].
Qed.
Lemma calm_repo {A} (m : P (Env E) Fleet (Tables.Anyhow E) A) : Calm m → Calm (repo m).
Proof. apply always_map_err. Qed.

(** *** Repository *)

Hint Resolve calm_observe calm_look calm_draw calm_select calm_repo : calm.
Lemma calm_find_by_id a : Calm (find_by_id (E := E) a). Proof. unfold find_by_id. calm. Qed.
Lemma calm_find_by_id_with_state a : Calm (find_by_id_with_state (E := E) a). Proof. unfold find_by_id_with_state. calm. Qed.
Lemma calm_list_by_owner o l f : Calm (list_by_owner (E := E) o l f). Proof. unfold list_by_owner. calm. Qed.
Lemma calm_list_with_state l f : Calm (list_with_state (E := E) l f). Proof. unfold list_with_state, count_total. calm. Qed.
Lemma calm_list_with_state_by_owner o l f : Calm (list_with_state_by_owner (E := E) o l f).
Proof. unfold list_with_state_by_owner, count_by_owner. calm. Qed.
Lemma calm_list_by_server_ids o i l f : Calm (list_with_state_by_server_ids (E := E) o i l f).
Proof. unfold list_with_state_by_server_ids. calm. Qed.
Lemma calm_update_last_seen a : Calm (update_last_seen (E := E) a).
Proof. unfold update_last_seen. apply always_try; [by apply calm_update|done]. Qed.
Lemma calm_update_last_state a t : Calm (update_last_state (E := E) a t).
Proof. unfold update_last_state. apply always_try; [by apply calm_update|done]. Qed.
Lemma calm_update_last_info a t : Calm (update_last_info (E := E) a t).
Proof. unfold update_last_info. apply always_try; [by apply calm_update|done]. Qed.
Lemma calm_update_dashboard_metadata a n r x p m : Calm (update_dashboard_metadata (E := E) a n r x p m).
Proof. unfold update_dashboard_metadata. apply always_try; [by apply calm_update|done]. Qed.
Lemma calm_revoke a : Calm (revoke (E := E) a).
Proof. unfold revoke. apply always_try; [by apply calm_update|done]. Qed.
Lemma calm_delete_user_rows u : Calm (delete_user_rows (E := E) u).
Proof. apply calm_sql. intros e s a s' [= _ <-]. apply change_user. Qed.

(** *** Streams *)

Lemma calm_note {X} c : Calm (note c : P (Env E) Fleet X unit).
Proof. apply calm_locked. intros e s. apply change_calls. Qed.
Lemma calm_publish {X} iter ev : Calm (publish iter ev : P (Env E) Fleet X unit).
Proof. unfold publish. apply always_try; [|intros _]; apply calm_locked; intros e s; apply change_hub. Qed.
Lemma calm_send {X} a m : Calm (send a m : P (Env E) Fleet X unit).
Proof. apply calm_locked. intros e s. apply change_sessions, quiet_forward. Qed.
Lemma calm_disconnect {X} a : Calm (disconnect a : P (Env E) Fleet X unit).
Proof.
  unfold disconnect. apply always_try; [apply calm_locked; intros e s; apply change_sessions, disconnect_revoke_forward|intros _].
  apply always_try; [intros e s; split; [apply change_sessions, disconnect_remove_forward|exact I]|intros [rs|]; [|exact I]].
  apply calm_locked. intros e s. apply change_sessions, disconnect_notify_forward.
Qed.
Lemma calm_disconnect_agent {X} a : Calm (disconnect_agent a : P (Env E) Fleet X unit).
Proof.
  unfold disconnect_agent. apply always_try; [apply calm_locked; intros e s; apply change_io, disconnect_agent_revoke_forward|intros _].
  apply always_try; [intros e s; split; [apply change_io, disconnect_agent_remove_forward|exact I]|intros closed].
  apply calm_locked. intros e s. apply change_io, notify_closed_forward.
Qed.
Lemma calm_purge {X} a : Calm (purge_agent_jwt_challenges a : P (Env E) Fleet X unit).
Proof. apply calm_locked. intros e s. apply change_challenges. Qed.
End calm.
#[export] Hint Resolve calm_observe calm_look calm_draw calm_select calm_repo calm_find_by_id calm_find_by_id_with_state calm_list_by_owner
  calm_list_with_state calm_list_with_state_by_owner calm_list_by_server_ids calm_update_last_seen calm_update_last_state
  calm_update_last_info calm_update_dashboard_metadata calm_revoke calm_delete_user_rows calm_note calm_publish calm_send calm_disconnect
  calm_disconnect_agent calm_purge : calm.

Section handlers.
Context {E : Type} `{UuidLib, Rfc3339, JulianDay, Auth.Crypto, AgentTokens.JwtLib, ServerMeta.MetaLib}.
Context (jwt_secret : rstr) (to_string : json → option rstr) (from_str : rstr → option json).
Context (iter : gmap Z Realtime.RealtimeEvent → list (Z * Realtime.RealtimeEvent)) (engine manager : bool).
Context (url_parse : rstr → option Security.Url).
Context (anyhow_text : Tables.Anyhow E → rstr) (serialize_failure : rstr).
Abbreviation Calm m := (always (@change E) m).

Lemma calm_authenticate ip b n : Calm (authenticate_agent_request (E := E) jwt_secret ip b n).
Proof. unfold authenticate_agent_request, fail_auth. calm. Qed.
Lemma calm_handle_messages a l : Calm (handle_messages (E := E) to_string from_str iter engine manager a l).
Proof. induction l as [|m l IH]; cbn; unfold handle_message, announce; calm. Qed.
Lemma calm_session ip b l : Calm (session (E := E) jwt_secret to_string from_str iter engine manager ip b l).
Proof.
  unfold session. apply always_try; [apply calm_authenticate|intros a]. apply always_try; [apply calm_observe|intros c]. apply always_try.
  - intros e s. split; [|exact I]. cbn. pose proof (register_forward a c (watch e) (sessions s)) as Hf.
    destruct (Registry.register a c (watch e) (sessions s)). by apply change_sessions.
  - intros []; cbn [negb]; [|exact I]. apply always_try; [apply calm_handle_messages|intros _].
    apply calm_locked. intros e s. apply change_sessions, unregister_forward.
Qed.
Lemma calm_prune {X} : Calm (prune : P (Env E) Fleet X unit).
Proof. apply calm_locked. intros e s. apply change_io, prune_forward. Qed.
Lemma calm_tell {X} a reason l : Calm (tell_closed a reason l : P (Env E) Fleet X unit).
Proof. apply calm_locked. intros e s. apply change_io, notify_closed_forward. Qed.
Lemma calm_deliver_from {X} a f : Calm (deliver_from_agent a f : P (Env E) Fleet X bool).
Proof.
  unfold deliver_from_agent. pose proof (calm_prune (X := X)). case_match; [exact I|]. apply always_try; [apply calm_look|intros [del|]].
  - apply always_try; [|intros []; calm]. intros e s. split; [|exact I]. cbn.
    case_match; [apply change_io, hand_over_forward|apply change_none].
  - calm.
Qed.
Lemma calm_deliver a l : Calm (deliver_frames (E := E) a l).
Proof. induction l as [|f l IH]; cbn [deliver_frames]; [exact I|]. apply always_try; [apply calm_deliver_from|intros _; apply IH]. Qed.
Lemma calm_subscribe {X} sid a : Calm (subscribe_stream sid a : P (Env E) Fleet X unit).
Proof. apply calm_locked. intros e s. apply change_io, subscribe_forward. Qed.
Lemma calm_unsubscribe {X} sid : Calm (unsubscribe_stream sid : P (Env E) Fleet X unit).
Proof. apply calm_locked. intros e s. apply change_io, unsubscribe_forward. Qed.
Lemma calm_io_stream ip b n : Calm (io_stream (E := E) jwt_secret ip b n).
Proof.
  unfold io_stream. apply always_try; [apply calm_authenticate|intros a]. apply always_try; [apply calm_observe|intros c]. apply always_try.
  - intros e s. split; [|exact I]. cbn. pose proof (register_agent_forward a c (io s)) as Hf.
    destruct (IoStreams.register_agent a c (io s)). by apply change_io.
  - intros [closed|]; [|exact I]. apply always_try; [apply calm_tell|intros _]. apply always_try; [apply calm_deliver|intros _]. apply always_try.
    + intros e s. split; [|exact I]. cbn. pose proof (unregister_agent_forward a (if upgrades e then Some c else None) (io s)) as Hf.
      destruct (IoStreams.unregister_agent a (if upgrades e then Some c else None) (io s)). by apply change_io.
    + intros [l|]; [apply calm_tell|exact I].
Qed.

(** *** Dashboards *)

Lemma calm_visible_ids auth : Calm (realtime_visible_agent_ids (E := E) auth).
Proof. unfold realtime_visible_agent_ids. calm. Qed.
Lemma calm_event_visible {X} auth v a : Calm (realtime_event_visible auth v a : P (Env E) Fleet X _).
Proof.
  unfold realtime_event_visible. calm. apply calm_locked. intros ? ?. apply change_hub.
Qed.
Lemma calm_send_ws {X} auth f b : Calm (send_ws_outbound auth f b : P (Env E) Fleet X bool).
Proof. unfold send_ws_outbound. calm. apply calm_locked. intros ? ?. apply change_written. Qed.
Hint Resolve calm_visible_ids calm_event_visible calm_send_ws : calm.
Lemma calm_send_loop {X} auth v p l : Calm (send_loop iter auth v p l : P (Env E) Fleet X unit).
Proof. revert v p. induction l as [|[b|b] l IH]; intros v p; cbn [send_loop]; calm; apply IH. Qed.
Lemma calm_ws_servers h o auth b l : Calm (ws_servers (E := E) iter url_parse h o auth b l).
Proof. unfold ws_servers, handle_socket. calm. apply calm_send_loop. Qed.

(** *** Administration *)

Lemma calm_sensitive u : Calm (sensitive u : P (Env E) Fleet _ unit).
Proof. unfold sensitive. calm. Qed.
Lemma calm_ensure_visible auth a : Calm (ensure_agent_visible (E := E) auth a).
Proof. unfold ensure_agent_visible. calm. Qed.
Hint Resolve calm_sensitive calm_ensure_visible : calm.
Lemma calm_require_scope auth t : Calm (require_scope (E := E) auth t).
Proof. unfold require_scope. calm. Qed.
Lemma calm_transfer_admin auth : Calm (require_transfer_admin (E := E) auth).
Proof. unfold require_transfer_admin. calm. Qed.
Lemma calm_group_auth auth : Calm (require_server_group_write_auth (E := E) auth).
Proof. unfold require_server_group_write_auth. calm. Qed.
Lemma calm_tag_auth auth : Calm (require_server_tag_write_auth (E := E) auth).
Proof. unfold require_server_tag_write_auth. calm. Qed.
Lemma calm_public_auth auth : Calm (require_public_server_visibility_write_auth (E := E) auth).
Proof. unfold require_public_server_visibility_write_auth, require_admin_cookie_session. calm. Qed.
Lemma calm_transfer_scope auth t : Calm (ensure_transfer_server_scope (E := E) auth t).
Proof. unfold ensure_transfer_server_scope. calm. Qed.
Hint Resolve calm_require_scope calm_transfer_admin calm_group_auth calm_tag_auth calm_public_auth calm_transfer_scope : calm.

Lemma calm_get_server auth i : Calm (get_server (E := E) from_str auth i).
Proof. unfold get_server. calm. Qed.
Lemma calm_server_views rows now g : Calm (server_views (E := E) from_str rows now g).
Proof. induction rows as [|r rows IH]; cbn [server_views]; calm. Qed.
Hint Resolve calm_server_views : calm.
Lemma calm_list_servers auth l o : Calm (list_servers (E := E) from_str auth l o).
Proof. unfold list_servers, page_for. calm. Qed.
Hint Resolve calm_get_server : calm.
Lemma calm_update_server auth i req : Calm (update_server (E := E) from_str serialize_failure auth i req).
Proof. unfold update_server, require_public_server_metadata_write_auth, require_server_tag_write_auth_if_changed. calm. Qed.

Lemma calm_rewrite_transfers hit f : Calm (sql (E := E) (fun e s => rewrite_transfers e (hit e) (f e) s)).
Proof. apply calm_sql. intros e s a s'. unfold rewrite_transfers. case_match; [|done]. intros [= _ <-]. apply change_transfers. Qed.
Lemma calm_mark_failed i t : Calm (mark_server_owner_transfer_failed (E := E) i t).
Proof. unfold mark_server_owner_transfer_failed. calm. apply (calm_rewrite_transfers (fun _ => _) (fun _ => _)). Qed.
Lemma calm_mark_completed i o auth : Calm (mark_server_owner_transfer_completed (E := E) i o auth).
Proof. unfold mark_server_owner_transfer_completed. calm. apply (calm_rewrite_transfers (fun _ => _) (fun _ => _)). Qed.
Lemma calm_mark_cancelled i : Calm (mark_server_owner_transfer_cancelled (E := E) i).
Proof. unfold mark_server_owner_transfer_cancelled. calm. apply (calm_rewrite_transfers (fun _ => _) (fun _ => _)). Qed.
Lemma calm_record_failed i a f t auth m : Calm (record_failed_server_owner_transfer (E := E) i a f t auth m).
Proof.
  unfold record_failed_server_owner_transfer. calm. apply calm_sql. intros e s u s'. unfold insert_transfer.
  repeat case_match; intros [= _ <-]; apply change_transfers.
Qed.
Lemma calm_audit auth ip ac o i sid m : Calm (record_server_transfer_audit (E := E) auth ip ac o i sid m).
Proof.
  unfold record_server_transfer_audit. calm; apply calm_sql; intros e s u s'; unfold insert_audit; destruct (_ || _); try done;
    intros [= _ <-]; apply change_audit.
Qed.
Lemma calm_reload i : Calm (reload (E := E) i).
Proof. unfold reload, load_server_owner_transfer. calm. Qed.
Lemma calm_find_user u : Calm (find_user (E := E) u).
Proof. unfold find_user. calm. apply calm_sql. intros e s a s' [= _ <-]. apply change_none. Qed.
Hint Resolve calm_mark_failed calm_mark_completed calm_mark_cancelled calm_record_failed calm_audit calm_reload calm_find_user : calm.
Lemma calm_list_transfers auth i l o : Calm (list_server_owner_transfers (E := E) auth i l o).
Proof. unfold list_server_owner_transfers, load_server_owner_transfers. calm. Qed.
Lemma calm_cancel_transfer auth ip i : Calm (cancel_server_owner_transfer (E := E) auth ip i).
Proof. unfold cancel_server_owner_transfer. calm. Qed.

Lemma calm_group_members i o : Calm (load_server_group_members (E := E) i o).
Proof. unfold load_server_group_members. calm. Qed.
Hint Resolve calm_group_members : calm.
Lemma calm_load_group auth i : Calm (load_server_group (E := E) auth i).
Proof. unfold load_server_group, ensure_server_group_visible. calm. Qed.
Hint Resolve calm_load_group : calm.
Lemma calm_group_views auth rows : Calm (group_views (E := E) auth rows).
Proof. induction rows as [|r rows IH]; cbn [group_views]; calm. Qed.
Hint Resolve calm_group_views : calm.
Lemma calm_list_groups auth l o : Calm (list_server_groups (E := E) auth l o).
Proof. unfold list_server_groups, load_server_groups. calm. Qed.
Lemma calm_create_group auth req : Calm (create_server_group (E := E) auth req).
Proof.
  unfold create_server_group. calm. apply calm_sql. intros e s u s'. unfold insert_group. case_match; [done|]. intros [= _ <-]. apply change_groups.
Qed.
Lemma calm_update_group auth i req : Calm (update_server_group (E := E) auth i req).
Proof.
  unfold update_server_group. calm; apply calm_sql; intros e s u s'; case_match; try done; intros [= _ <-]; apply change_groups.
Qed.
Lemma calm_delete_group auth i : Calm (delete_server_group (E := E) auth i).
Proof. unfold delete_server_group. calm. apply calm_sql. intros e s u s' [= _ <-]. apply change_group_rows. Qed.
Lemma calm_find_group_server auth i : Calm (find_group_server (E := E) auth i).
Proof. unfold find_group_server. calm. Qed.
Lemma calm_insert_member m : Calm (sql (E := E) (fun _ => insert_member m)).
Proof.
  apply calm_sql. intros e s u s'. unfold insert_member. repeat case_match; intros [= _ <-]; first [apply change_none|apply change_members].
Qed.
Hint Resolve calm_find_group_server calm_insert_member : calm.
Lemma calm_each {A X} (f : A → P (Env E) Fleet X unit) l : (∀ x, Calm (f x)) → Calm (each f l).
Proof. intros Hf. induction l as [|x l IH]; cbn [each]; [exact I|]. apply always_try; [apply Hf|intros _; apply IH]. Qed.
Lemma calm_drop_members f : Calm (sql (E := E) (fun e s => (Ok (), set_members (f s) s))).
Proof. apply calm_sql. intros e s u s' [= _ <-]. apply change_members. Qed.
Lemma calm_add_members auth i ids : Calm (add_server_group_members (E := E) auth i ids).
Proof. unfold add_server_group_members. calm; apply calm_each; intros x; unfold ensure_group_server_active; calm. Qed.
Lemma calm_delete_member auth i sid : Calm (delete_server_group_member (E := E) auth i sid).
Proof. unfold delete_server_group_member, ensure_group_server_access. calm. apply (calm_drop_members (fun _ => _)). Qed.
Lemma calm_move auth a g : Calm (move_agent_to_server_group (E := E) auth a g).
Proof. unfold move_agent_to_server_group. calm. apply (calm_drop_members (fun _ => _)). Qed.
Lemma calm_batch_guards auth a : Calm (batch_guards (E := E) auth a).
Proof. unfold batch_guards. calm. Qed.
Lemma calm_batch_owner auth req : Calm (batch_owner (E := E) auth req).
Proof. unfold batch_owner, require_admin_cookie_session. calm. Qed.
Lemma calm_delete_agent a : Calm (delete_agent (E := E) a).
Proof.
  unfold delete_agent. calm; apply calm_sql; intros e s u s' [= _ <-]; [apply change_members|apply change_dropped].
Qed.

(** *** Transfers *)

(** The transaction of [persist_owner_transfer], asked for by [auth]. *)
Definition owner_change (auth : Auth.AuthSession) (e : Env E) (s s' : Fleet) : Prop :=
  ∃ transfer_id agent_id from to now, owner_transaction e transfer_id agent_id from to auth now s = (Ok (), s').
Definition moves (auth : Auth.AuthSession) (e : Env E) (s s' : Fleet) : Prop := change e s s' ∨ owner_change auth e s s'.
Abbreviation Moving auth m := (always (moves auth) m).

Lemma calm_moving {A} auth (m : Proc (Env E) Fleet A) : Calm m → Moving auth m.
Proof. apply always_mono. intros e s s'. by left. Qed.

Lemma owner_transaction_err e i a f t auth now s x s' : owner_transaction (E := E) e i a f t auth now s = (Err x, s') → s' = s.
Proof. unfold owner_transaction. repeat case_match; intros [=]; done. Qed.
Lemma moving_persist i a f t auth : Moving auth (persist_owner_transfer (E := E) i a f t auth).
Proof.
  unfold persist_owner_transfer. apply always_try; [apply calm_moving, calm_observe|intros now]. intros e s. split; [|exact I]. cbn.
  destruct (fault e); [left; apply change_none|]. destruct (owner_transaction _ _ _ _ _ _ _ _) as [[[]|x] s'] eqn:Ho.
  - right. by repeat eexists.
  - apply owner_transaction_err in Ho as ->. left. apply change_none.
Qed.

Ltac moving :=
  repeat first [ exact I | solve [apply calm_moving; calm] | apply moving_persist | apply always_try | apply always_map_err | apply always_ignore
               | apply always_bind | case_match | match goal with |- ∀ _, _ => intros ? end ].

Lemma moving_retry auth ip i : Moving auth (retry_server_owner_transfer (E := E) auth ip i).
Proof. unfold retry_server_owner_transfer. moving. Qed.

Lemma calm_update_metadata a t : Calm (update_agent_dashboard_metadata (E := E) a t).
Proof. unfold update_agent_dashboard_metadata. apply always_try; [apply calm_repo; by apply calm_update|]. intros n. by case_match. Qed.
Hint Resolve calm_update_metadata calm_delete_agent calm_move : calm.
Lemma moving_batch_action auth ip sid a tags v o g : Moving auth (apply_batch_action (E := E) from_str anyhow_text serialize_failure auth ip sid a tags v o g).
Proof. unfold apply_batch_action, transfer_owner. moving. Qed.
Lemma calm_batch_action auth ip sid a tags v o g : is_transfer a = false →
  Calm (apply_batch_action (E := E) from_str anyhow_text serialize_failure auth ip sid a tags v o g).
Proof. intros Ha. unfold apply_batch_action. destruct a; try done; calm. Qed.
Lemma moving_batch auth ip ids a tags v o g : Moving auth (apply_batch (E := E) from_str anyhow_text serialize_failure auth ip ids a tags v o g).
Proof.
  induction ids as [|i ids IH]; cbn [apply_batch]; [exact I|]. apply always_bind; [apply moving_batch_action|intros r].
  apply always_try; [apply IH|done].
Qed.
Lemma calm_batch auth ip ids a tags v o g : is_transfer a = false →
  Calm (apply_batch (E := E) from_str anyhow_text serialize_failure auth ip ids a tags v o g).
Proof.
  intros Ha. induction ids as [|i ids IH]; cbn [apply_batch]; [exact I|]. apply always_bind; [by apply calm_batch_action|intros r].
  apply always_try; [apply IH|done].
Qed.

(** *** The pool *)

Abbreviation AppError := (Accounts.AppError E).
(** A program whose result does not matter to the others. *)
Definition finish {X A} (m : P (Env E) Fleet X A) : P (Env E) Fleet AppError Response := proc_bind m (fun _ => Ret (Ok Done)).

Inductive handler : P (Env E) Fleet AppError Response → Prop :=
| on_create_token u hours : handler (create_enrollment_token u hours)
| on_enroll req : handler (enroll req)
| on_revoke wired u i : handler (revoke_agent wired u i)
| on_batch auth ip req : handler (batch_update_servers from_str anyhow_text serialize_failure auth ip req)
| on_user_deleted user : handler (finish (delete_user_rows user))
| on_session ip bearer messages : handler (finish (session jwt_secret to_string from_str iter engine manager ip bearer messages))
| on_io_stream ip bearer frames : handler (finish (io_stream jwt_secret ip bearer frames))
| on_subscribe sid agent : handler (finish (subscribe_stream sid agent : P (Env E) Fleet AppError unit))
| on_unsubscribe sid : handler (finish (unsubscribe_stream sid : P (Env E) Fleet AppError unit))
| on_traffic agent message : handler (finish (send agent message : P (Env E) Fleet AppError unit))
| on_dashboard headers origins auth first turns : handler (finish (ws_servers iter url_parse headers origins auth first turns))
| on_list auth limit offset : handler (finish (list_servers from_str auth limit offset))
| on_get auth i : handler (finish (get_server from_str auth i))
| on_update auth i req : handler (finish (update_server from_str serialize_failure auth i req))
| on_list_transfers auth i limit offset : handler (finish (list_server_owner_transfers auth i limit offset))
| on_retry auth ip i : handler (finish (retry_server_owner_transfer auth ip i))
| on_cancel auth ip i : handler (finish (cancel_server_owner_transfer auth ip i))
| on_list_groups auth limit offset : handler (finish (list_server_groups auth limit offset))
| on_create_group auth req : handler (finish (create_server_group auth req))
| on_update_group auth i req : handler (finish (update_server_group auth i req))
| on_delete_group auth i : handler (finish (delete_server_group auth i))
| on_add_members auth i ids : handler (finish (add_server_group_members auth i ids))
| on_delete_member auth i sid : handler (finish (delete_server_group_member auth i sid)).

(** The session each handler was called with, for those that take one: the
    callers of the others are a user of the API, an Agent or the server itself. *)
Inductive asked : option Auth.AuthSession → P (Env E) Fleet AppError Response → Prop :=
| asked_create_token u hours : asked None (create_enrollment_token u hours)
| asked_enroll req : asked None (enroll req)
| asked_revoke wired u i : asked None (revoke_agent wired u i)
| asked_batch auth ip req : asked (Some auth) (batch_update_servers from_str anyhow_text serialize_failure auth ip req)
| asked_user_deleted user : asked None (finish (delete_user_rows user))
| asked_session ip bearer messages : asked None (finish (session jwt_secret to_string from_str iter engine manager ip bearer messages))
| asked_io_stream ip bearer frames : asked None (finish (io_stream jwt_secret ip bearer frames))
| asked_subscribe sid agent : asked None (finish (subscribe_stream sid agent : P (Env E) Fleet AppError unit))
| asked_unsubscribe sid : asked None (finish (unsubscribe_stream sid : P (Env E) Fleet AppError unit))
| asked_traffic agent message : asked None (finish (send agent message : P (Env E) Fleet AppError unit))
| asked_dashboard headers origins auth first turns : asked (Some auth) (finish (ws_servers iter url_parse headers origins auth first turns))
| asked_list auth limit offset : asked (Some auth) (finish (list_servers from_str auth limit offset))
| asked_get auth i : asked (Some auth) (finish (get_server from_str auth i))
| asked_update auth i req : asked (Some auth) (finish (update_server from_str serialize_failure auth i req))
| asked_list_transfers auth i limit offset : asked (Some auth) (finish (list_server_owner_transfers auth i limit offset))
| asked_retry auth ip i : asked (Some auth) (finish (retry_server_owner_transfer auth ip i))
| asked_cancel auth ip i : asked (Some auth) (finish (cancel_server_owner_transfer auth ip i))
| asked_list_groups auth limit offset : asked (Some auth) (finish (list_server_groups auth limit offset))
| asked_create_group auth req : asked (Some auth) (finish (create_server_group auth req))
| asked_update_group auth i req : asked (Some auth) (finish (update_server_group auth i req))
| asked_delete_group auth i : asked (Some auth) (finish (delete_server_group auth i))
| asked_add_members auth i ids : asked (Some auth) (finish (add_server_group_members auth i ids))
| asked_delete_member auth i sid : asked (Some auth) (finish (delete_server_group_member auth i sid)).
Lemma handler_asked m : handler m → ∃ who, asked who m.
Proof.
  intros [].
  - eexists. apply asked_create_token.
  - eexists. apply asked_enroll.
  - eexists. apply asked_revoke.
  - eexists. apply asked_batch.
  - eexists. apply asked_user_deleted.
  - eexists. apply asked_session.
  - eexists. apply asked_io_stream.
  - eexists. apply asked_subscribe.
  - eexists. apply asked_unsubscribe.
  - eexists. apply asked_traffic.
  - eexists. apply asked_dashboard.
  - eexists. apply asked_list.
  - eexists. apply asked_get.
  - eexists. apply asked_update.
  - eexists. apply asked_list_transfers.
  - eexists. apply asked_retry.
  - eexists. apply asked_cancel.
  - eexists. apply asked_list_groups.
  - eexists. apply asked_create_group.
  - eexists. apply asked_update_group.
  - eexists. apply asked_delete_group.
  - eexists. apply asked_add_members.
  - eexists. apply asked_delete_member.
Qed.

(** The handlers all of whose steps are harmless. *)
Inductive calm_handler : P (Env E) Fleet AppError Response → Prop :=
| calm_is {X A} (m : P (Env E) Fleet X A) : Calm m → calm_handler (finish m).

Lemma calm_finish {X A} (m : P (Env E) Fleet X A) : Calm m → Calm (finish m).
Proof. intros Hm. by apply always_bind. Qed.

(** The handlers that are not harmless, with the session they take. *)
Inductive special_handler : option Auth.AuthSession → P (Env E) Fleet AppError Response → Prop :=
| special_token u hours : special_handler None (create_enrollment_token u hours)
| special_enroll req : special_handler None (enroll req)
| special_revoke wired u i : special_handler None (revoke_agent wired u i)
| special_batch auth ip req : special_handler (Some auth) (batch_update_servers from_str anyhow_text serialize_failure auth ip req)
| special_retry auth ip i : special_handler (Some auth) (finish (retry_server_owner_transfer auth ip i)).

Lemma asked_cases who m : asked who m → calm_handler m ∨ special_handler who m.
Proof.
  intros Hm. destruct Hm.
  - right. constructor.
  - right. constructor.
  - right. constructor.
  - right. constructor.
  - left. constructor. apply calm_delete_user_rows.
  - left. constructor. apply calm_session.
  - left. constructor. apply calm_io_stream.
  - left. constructor. apply calm_subscribe.
  - left. constructor. apply calm_unsubscribe.
  - left. constructor. apply calm_send.
  - left. constructor. apply calm_ws_servers.
  - left. constructor. apply calm_list_servers.
  - left. constructor. apply calm_get_server.
  - left. constructor. apply calm_update_server.
  - left. constructor. apply calm_list_transfers.
  - right. constructor.
  - left. constructor. apply calm_cancel_transfer.
  - left. constructor. apply calm_list_groups.
  - left. constructor. apply calm_create_group.
  - left. constructor. apply calm_update_group.
  - left. constructor. apply calm_delete_group.
  - left. constructor. apply calm_add_members.
  - left. constructor. apply calm_delete_member.
Qed.
Lemma handler_cases m : handler m → calm_handler m ∨ ∃ who, special_handler who m.
Proof. intros [who [Hc|Hs]%asked_cases]%handler_asked; [by left|right; by exists who]. Qed.
End handlers.
#[export] Hint Resolve calm_visible_ids calm_event_visible calm_send_ws calm_sensitive calm_ensure_visible calm_require_scope calm_transfer_admin
  calm_group_auth calm_tag_auth calm_public_auth calm_transfer_scope calm_get_server calm_mark_failed calm_mark_completed calm_mark_cancelled
  calm_record_failed calm_audit calm_reload calm_find_user calm_load_group calm_batch_owner calm_batch_guards calm_delete_agent calm_move
  calm_update_metadata : calm.
End FleetPool.
