(* ===== verification/FleetProofs.v ===== *)
(** * FleetProofs: ownership of Agents

    An Agent changes hands only in the transaction of a transfer that an
    administrator asked for in a cookie session, with a second factor; the
    record of the transfer is written in the same step. *)

From S2P Require Import Prelude Text BTreeMap Json Externals Net Auth Security Rfc3339 Tables Sessions Users Accounts Registry IoStreams AgentTokens.
From S2P Require Import Interleave Realtime ServerMeta Telemetry Fleet FleetStreams ServerAdmin FleetPool.

Module FleetProofs.
Import Interleave Fleet FleetStreams ServerAdmin FleetPool.

(** ** Rows *)

Lemma row_kept_refl r : row_kept r r.
Proof. done. Qed.

(** A harmless change adds no Agent and moves none to another owner. *)
Lemma change_agents {E} (e : Env E) s s' r' : change e s s' → r' ∈ agents s' → ∃ r, r ∈ agents s ∧ row_kept r r'.
Proof.
  intros Hc Hr. destruct Hc; cbn in Hr; try (by exists r').
  - apply list_elem_of_fmap in Hr as (r & -> & Hr). exists r. auto.
  - apply list_elem_of_filter in Hr as [_ Hr]. by exists r'.
  - apply list_elem_of_filter in Hr as [_ Hr]. by exists r'.
Qed.

(** ** Runs *)

Section ownership.
Context {E : Type} `{UuidLib, Rfc3339, JulianDay, Auth.Crypto, AgentTokens.JwtLib, ServerMeta.MetaLib}.
Context (jwt_secret : rstr) (to_string : json → option rstr) (from_str : rstr → option json).
Context (iter : gmap Z Realtime.RealtimeEvent → list (Z * Realtime.RealtimeEvent)) (engine manager : bool).
Context (url_parse : rstr → option Security.Url).
Context (anyhow_text : Tables.Anyhow E → rstr) (serialize_failure : rstr).
Abbreviation History := (list (Env E * Fleet)).
Abbreviation asked := (asked jwt_secret to_string from_str iter engine manager url_parse anyhow_text serialize_failure).

(** At an earlier step of the run: an identifier was drawn, a record of a
    transfer of the Agent was read. *)
Definition drew (h : History) (i : rstr) : Prop := once h (fun e _ => uuid_to_string (uuid e) = i).
Definition read_transfer (h : History) (i a : rstr) : Prop :=
  once h (fun _ s => ∃ t, t ∈ transfers s ∧ tf_id t = i ∧ tf_agent_id t = a).
(** The check of the user's second factor passed. [Accounts.require_sensitive_totp]
    lets a user through who has not enabled one. *)
Definition totp_ok (user : Z) (h : History) : Prop := once h (fun e _ => sensitive_totp e user = Ok ()).

Definition transferred (auth : Auth.AuthSession) (h : History) (e : Env E) (s s' : Fleet) : Prop :=
  ∃ i a from to now, owner_transaction e i a from to auth now s = (Ok (), s') ∧ (drew h i ∨ read_transfer h i a).
Definition by_admin (auth : Auth.AuthSession) : Prop := Auth.is_admin (Auth.role auth) = true ∧ Auth.is_pat (Auth.auth_kind auth) = false.
(** A row of a new Agent. *)
Definition agent_added (s s' : Fleet) : Prop :=
  agents s' = agents s ∨ ∃ row, ag_id row ∉ (ag_id <$> agents s) ∧ agents s' = agents s ++ [row].
(** [who]: the session the handler was called with. *)
Definition guarded (who : option Auth.AuthSession) (h : History) (e : Env E) (s s' : Fleet) : Prop :=
  change e s s' ∨ agent_added s s' ∨
  ∃ auth, who = Some auth ∧ by_admin auth ∧ totp_ok (Auth.user_id auth) h ∧ transferred auth h e s s'.
Abbreviation Guarded who h m Q := (traced (guarded who) h m Q).

Lemma guarded_calm {A} who h (m : Proc (Env E) Fleet A) Q : always (@change E) m → (∀ h' a, Q (h ++ h') a) → Guarded who h m Q.
Proof. intros Hm HQ. eapply always_traced; [exact Hm| |done]. intros h' e s s' Hc. by left. Qed.
Lemma guarded_added {A} who h (m : Proc (Env E) Fleet A) Q :
  always (fun e s s' => change e s s' ∨ agent_added s s') m → (∀ h' a, Q (h ++ h') a) → Guarded who h m Q.
Proof. intros Hm HQ. eapply always_traced; [exact Hm| |done]. intros h' e s s' [Hc|Ha]; [by left|by right; left]. Qed.

Lemma guarded_sensitive who u h Q :
  (∀ h', totp_ok u (h ++ h') → Q (h ++ h') (Ok ())) → (∀ h' x, Q (h ++ h') (Err x)) → Guarded who h (sensitive (E := E) u) Q.
Proof.
  intros Hok Herr. unfold sensitive. apply traced_try, traced_observe. intros e s. split; [left; constructor|]. cbn.
  destruct (sensitive_totp e u) as [[]|x] eqn:Ht; [|apply Herr]. apply Hok. by apply once_here.
Qed.

(** The transaction, once the run may make it. *)
Lemma guarded_persist auth h i a f t Q :
  by_admin auth → totp_ok (Auth.user_id auth) h → drew h i ∨ read_transfer h i (uuid_to_string a) → (∀ h' r, Q (h ++ h') r) →
  Guarded (Some auth) h (persist_owner_transfer (E := E) i a f t auth) Q.
Proof.
  intros Ha Ht Hi HQ. unfold persist_owner_transfer. apply traced_try, traced_observe. intros e s. split; [left; constructor|].
  intros e' s'. split; [|cbn; rewrite <-app_assoc; apply HQ]. cbn. destruct (fault e'); [left; constructor|].
  destruct (owner_transaction _ _ _ _ _ _ _ _) as [[[]|x] s2] eqn:Ho; cbn.
  - right; right. exists auth. split_and!; [done..|by apply once_app|]. do 5 eexists. split; [exact Ho|].
    destruct Hi as [Hi|Hi]; [left|right]; by apply once_app.
  - apply owner_transaction_err in Ho as ->. left. constructor.
Qed.

Lemma traced_ret {X A} I h (r : result X A) (Q : History → result X A → Prop) : Q h r → traced I h (of_result r : P (Env E) Fleet X A) Q.
Proof. done. Qed.

Lemma guarded_draw {X} who h (Q : History → result X Z → Prop) : (∀ i h', drew (h ++ h') (uuid_to_string i) → Q (h ++ h') (Ok i)) → Guarded who h (draw (E := E)) Q.
Proof. intros HQ e s. split; [left; constructor|]. apply (HQ (uuid e)). by apply once_here. Qed.

(** ** Batches *)

Lemma guarded_transfer_owner auth h ip sid a f t Q :
  by_admin auth → totp_ok (Auth.user_id auth) h → (∀ h' r, Q (h ++ h') r) → Guarded (Some auth) h (transfer_owner (E := E) auth ip sid a f t) Q.
Proof.
  intros Ha Ht HQ. unfold transfer_owner. apply traced_try, guarded_draw. intros i h1 Hi.
  apply traced_bind, guarded_persist; [done|by apply once_app|by left|]. intros h' [u|x]; apply guarded_calm.
  - apply always_ignore, calm_audit.
  - intros h2 r. rewrite <-!app_assoc. apply HQ.
  - apply always_try; [apply always_ignore, calm_record_failed|intros _]. apply always_try; [apply always_ignore, calm_audit|done].
  - intros h2 r. rewrite <-!app_assoc. apply HQ.
Qed.

Lemma guarded_batch auth h ip ids tags v o g Q :
  by_admin auth → totp_ok (Auth.user_id auth) h → (∀ h' r, Q (h ++ h') r) →
  Guarded (Some auth) h (apply_batch (E := E) from_str anyhow_text serialize_failure auth ip ids TransferOwner tags v o g) Q.
Proof.
  intros Ha. revert h Q. induction ids as [|i ids IH]; intros h Q Ht HQ; cbn [apply_batch].
  { cbn. specialize (HQ [] (Ok [])). by rewrite app_nil_r in HQ. }
  apply traced_bind. unfold apply_batch_action.
  assert (∀ h' (r : result rstr unit), Guarded (Some auth) (h ++ h') (rest ← apply_batch from_str anyhow_text serialize_failure auth ip ids TransferOwner tags v o g;
      mret (match r with Ok _ => {| br_id := i; br_success := true; br_error := None |}
            | Err err => {| br_id := i; br_success := false; br_error := Some err |} end :: rest)) Q) as Hrest.
  { intros h' r. apply traced_try, IH; [by apply once_app|]. intros h2 [l|x]; cbn; rewrite <-app_assoc; apply HQ. }
  apply traced_try, guarded_calm; [apply always_map_err; exact I|]. intros h1 [a|x]; [|exact (Hrest _ (Err x))].
  apply traced_try, guarded_calm; [apply always_map_err; auto with calm|]. intros h2 [found|x]; rewrite <-app_assoc; [|exact (Hrest _ (Err x))].
  apply traced_try, traced_ret. destruct (ok_or found _) as [row|x]; [|exact (Hrest _ (Err x))].
  apply traced_try, guarded_calm; [apply always_map_err, calm_ensure_visible|]. intros h3 [u|x]; rewrite <-app_assoc; [|exact (Hrest _ (Err x))].
  apply traced_try, traced_ret. destruct (ok_or o _) as [target|x]; [|exact (Hrest _ (Err x))].
  apply guarded_transfer_owner; [done|by apply once_app|]. intros h4 r. rewrite <-app_assoc. exact (Hrest _ r).
Qed.

Lemma guarded_batch_guards auth a h Q :
  (∀ h', is_transfer a = true → totp_ok (Auth.user_id auth) (h ++ h') → Q (h ++ h') (Ok ())) → (∀ h', is_transfer a = false → Q (h ++ h') (Ok ())) →
  (∀ h' x, Q (h ++ h') (Err x)) → Guarded (Some auth) h (batch_guards (E := E) auth a) Q.
Proof.
  intros Hok Hno Herr. destruct (is_transfer a) eqn:Ea.
  - destruct a; try done. unfold batch_guards. cbn [is_delete is_transfer is_move is_visible_action is_tag_action andb orb].
    apply traced_try, traced_ret. apply traced_try, guarded_sensitive; [|intros h' x; apply Herr].
    intros h' Ht. do 2 apply traced_try, traced_ret. apply traced_ret. by apply Hok.
  - apply guarded_calm; [apply calm_batch_guards|]. intros h' [[]|x]; [by apply Hno|apply Herr].
Qed.

Lemma guarded_batch_owner auth req h Q :
  (∀ h' o, is_transfer (bq_action req) = true → by_admin auth → Q (h ++ h') (Ok o)) →
  (∀ h', is_transfer (bq_action req) = false → Q (h ++ h') (Ok None)) →
  (∀ h' x, Q (h ++ h') (Err x)) → Guarded (Some auth) h (batch_owner (E := E) auth req) Q.
Proof.
  intros Hok Hno Herr. assert (∀ r, Q h r → Q (h ++ []) r) as _ by (intros r; by rewrite app_nil_r).
  unfold batch_owner. destruct (is_transfer (bq_action req)) eqn:Ea; cbn [negb].
  2: { specialize (Hno [] eq_refl). by rewrite app_nil_r in Hno. }
  unfold require_admin_cookie_session. destruct (Auth.is_admin (Auth.role auth)) eqn:Er; cbn [negb].
  2: { specialize (Herr []). rewrite app_nil_r in Herr. apply Herr. }
  destruct (Auth.is_pat (Auth.auth_kind auth)) eqn:Ek.
  { specialize (Herr []). rewrite app_nil_r in Herr. apply Herr. }
  apply guarded_calm; [|intros h' [o|x]; [by apply Hok|apply Herr]].
  apply always_try; [exact I|intros _]. apply always_try; [exact I|intros o]. apply always_try; [apply calm_find_user|]. intros b. by case_match.
Qed.

Lemma guarded_batch_update auth ip req h :
  Guarded (Some auth) h (batch_update_servers (E := E) from_str anyhow_text serialize_failure auth ip req) (fun _ _ => True).
Proof.
  unfold batch_update_servers. apply traced_try, guarded_calm; [apply calm_require_scope|intros h1 [[]|x]; [|done]].
  apply traced_try, guarded_batch_guards; [| |done]; intros h2 Ea.
  2: { apply guarded_calm; [|done]. pose proof (fun ids tags v o g => calm_batch from_str anyhow_text serialize_failure auth ip ids (bq_action req) tags v o g Ea). calm. }
  intros Ht. apply traced_try, traced_ret. destruct (ServerMeta.dedupe_ids _ _ _) as [ids|x]; [|done]. case_match; [done|].
  apply traced_try, guarded_batch_owner; [|by rewrite Ea|done]. intros h3 o _ Ha. destruct (bq_action req); try done.
  cbn [is_visible_action is_move is_tag_action andb]. apply traced_try, traced_ret. destruct (match bq_group_id req with Some _ => _ | None => _ end) as [g|x]; [|done].
  apply traced_try, traced_ret. apply traced_try, traced_ret. destruct (ServerMeta.normalize_tag_input _) as [tags|x]; [|done].
  apply traced_try, guarded_batch; [done|by apply once_app|]. by intros h5 [l|x].
Qed.

(** ** Retries *)

Lemma parse_checked_text value field u : ServerMeta.parse_checked (E := E) value field = Ok u → uuid_to_string u = value.
Proof.
  unfold ServerMeta.parse_checked, ServerMeta.require_server_uuid_text. destruct (is_empty value); [done|].
  destruct (negb (byte_len value =? _)); [done|]. destruct (uuid_parse value) as [v|] eqn:Ev; [|done]. case_bool_decide as Hv; [|done].
  cbn. rewrite Ev. by intros [= <-].
Qed.

Lemma guarded_transfer_admin auth h Q :
  (by_admin auth → Q h (Ok ())) → (∀ x, Q h (Err x)) → Guarded (Some auth) h (require_transfer_admin (E := E) auth) Q.
Proof.
  intros Hok Herr. unfold require_transfer_admin, by_admin in *. destruct (Auth.is_admin (Auth.role auth)); [|apply Herr]. cbn [negb].
  destruct (Auth.is_pat (Auth.auth_kind auth)); [apply Herr|by apply Hok].
Qed.

Lemma guarded_reload who i h Q :
  (∀ h' t, read_transfer (h ++ h') i (tf_agent_id t) → Q (h ++ h') (Ok t)) → (∀ h' x, Q (h ++ h') (Err x)) → Guarded who h (reload (E := E) i) Q.
Proof.
  intros Hok Herr. unfold reload, load_server_owner_transfer. apply traced_try, traced_try, traced_ret.
  destruct (ServerMeta.require_server_uuid_text i _) as [j|x] eqn:Ej; [|specialize (Herr []); rewrite app_nil_r in Herr; apply Herr].
  assert (j = i) as ->.
  { unfold ServerMeta.require_server_uuid_text in Ej. repeat case_match; by simplify_eq. }
  unfold repo, select, sql. apply traced_bind. intros e s. split; cbn; [destruct (fault e); left; constructor|].
  destruct (fault e); [apply Herr|]. cbn. destruct (head _) as [t|] eqn:Et; cbn; [|apply Herr]. apply Hok. apply once_here.
  apply head_Some_elem_of in Et. apply list_elem_of_filter in Et as [Hi Ht]. by exists t.
Qed.

Lemma guarded_retry auth ip i h : Guarded (Some auth) h (retry_server_owner_transfer (E := E) auth ip i) (fun _ _ => True).
Proof.
  unfold retry_server_owner_transfer. apply traced_try, guarded_calm; [apply calm_require_scope|intros h1 [[]|x]; [|done]].
  apply traced_try, guarded_transfer_admin; [intros Ha|done]. apply traced_try, guarded_sensitive; [intros h2 Ht|done].
  apply traced_try, guarded_reload; [intros h3 t Hr|done]. case_match; [done|].
  apply traced_try, guarded_calm; [apply calm_transfer_scope|intros h4 [[]|x]; [|done]].
  apply traced_try, traced_ret. destruct (ServerMeta.parse_agent_id _) as [a|x] eqn:Ep; [|done]. apply parse_checked_text in Ep.
  apply traced_try, traced_ret. destruct (ServerMeta.parse_user_id _) as [u|x]; [|done].
  apply traced_try, guarded_calm; [apply calm_find_user|intros h5 [b|x]; [|done]].
  destruct b; cbn [negb]; [|apply guarded_calm; [calm|done]].
  apply traced_try, guarded_calm; [auto with calm|intros h6 [found|x]; [|done]]. destruct found as [row|]; [|apply guarded_calm; [calm|done]].
  apply traced_try, traced_bind. destruct (_ =? _).
  - apply guarded_calm; [apply calm_mark_completed|]. intros h7 r. apply guarded_calm; [calm|intros h8 [[]|x]; [|done]]. apply guarded_calm; [calm|done].
  - apply guarded_persist; [done| |right|].
    + by do 4 apply once_app.
    + rewrite Ep. by do 3 apply once_app.
    + intros h7 r. apply guarded_calm; [calm|intros h8 [[]|x]; [|done]]. apply guarded_calm; [calm|done].
Qed.

(** ** Enrolment *)

Lemma added_sql {A} (f : Env E → Fleet → result Tables.Why A * Fleet) :
  (∀ e s a s', f e s = (Ok a, s') → agent_added s s') → always (fun e s s' => change e s s' ∨ agent_added s s') (sql f).
Proof.
  intros Hf e s. split; [|exact I]. cbn. destruct (fault e); [left; constructor|].
  destruct (f e s) as [[a|w] s'] eqn:Hs; [right; by eapply Hf|left; constructor].
Qed.
Lemma calm_added {A} (m : Proc (Env E) Fleet A) : always (@change E) m → always (fun e s s' => change e s s' ∨ agent_added s s') m.
Proof. apply always_mono. intros e s s'. by left. Qed.

Ltac adding :=
  repeat first [ exact I | solve [apply calm_added; calm] | apply always_try | apply always_map_err
               | case_match | match goal with |- ∀ _, _ => intros ? end ].

Lemma added_create_token u hours : always (fun e s s' => change e s s' ∨ agent_added s s') (create_enrollment_token (E := E) u hours).
Proof.
  unfold create_enrollment_token, create_token. adding. apply added_sql. intros e s v s'. unfold insert_token. destruct (_ || _); [done|].
  intros [= _ <-]. by left.
Qed.
Lemma added_enroll req : always (fun e s s' => change e s s' ∨ agent_added s s') (enroll (E := E) req).
Proof.
  unfold enroll, find_and_use, create_with_id. adding; apply added_sql; intros e s u s'.
  - intros [= _ <-]. by left.
  - unfold insert_agent. destruct (_ || _) eqn:Eo; [done|]. intros [= _ <-]. right. eexists. split; [|done]. cbn.
    apply orb_false_iff in Eo as [Eo _]. by apply bool_decide_eq_false in Eo.
  - unfold insert_server. repeat case_match; intros [= _ <-]; by left.
Qed.
Lemma calm_revoke_agent wired u i : always (@change E) (revoke_agent (E := E) wired u i).
Proof. unfold revoke_agent. calm. Qed.

Lemma asked_guarded who m : asked who m → Guarded who [] m (fun _ _ => True).
Proof.
  intros Ha. destruct (asked_cases _ _ _ _ _ _ _ _ _ _ _ Ha) as [Hc|Hs]; [destruct Hc as [X A n Hc]; apply guarded_calm; [by apply calm_finish|done]|].
  destruct Hs.
  - apply guarded_added; [apply added_create_token|done].
  - apply guarded_added; [apply added_enroll|done].
  - apply guarded_calm; [apply calm_revoke_agent|done].
  - apply guarded_batch_update.
  - apply traced_bind. eapply traced_mono, guarded_retry. done.
Qed.

(** ** The claim *)

(** What the transaction leaves, when it commits. *)
Lemma owner_transaction_shape e i a from to auth now s s' :
  owner_transaction (E := E) e i a from to auth now s = (Ok (), s') →
  agents s' = (fun r => if bool_decide (ag_id r = a) && bool_decide (ag_owner_user_id r = from) then with_owner to now r else r) <$> agents s ∧
  groups s' = groups s ∧
  members s' = filter (fun m => bool_decide (me_agent_id m = a)
                 && existsb (fun g => bool_decide (gr_id g = me_group_id m) && negb (bool_decide (gr_owner_user_id g = to))) (groups s) = false) (members s) ∧
  ∃ t, t ∈ transfers s' ∧ tf_id t = i ∧ tf_status t = lit "completed" ∧ tf_from_user_id t = Some from ∧ tf_to_user_id t = to ∧
       tf_requested_by_user_id t = Some (uuid_to_string (Auth.user_id auth)) ∧ (tf_agent_id t = a ∨ i ∈ (tf_id <$> transfers s)).
Proof.
  unfold owner_transaction, rewrite_transfers, insert_transfer. do 3 (case_match; [done|]). destruct (existsb _ (transfers _)) eqn:Ex.
  - apply existsb_exists in Ex as (t & Ht%list_elem_of_In & Hi%bool_decide_eq_true). cbn [transfers set_members set_agents] in Ht.
    destruct (forallb _ _); [|done]. intros [= <-]. split_and!; try done. exists (completed_transfer from to auth (to_rfc3339 now) t). split_and!; try done.
    + cbn. apply list_elem_of_fmap. exists t. by rewrite bool_decide_true.
    + right. apply list_elem_of_fmap. by exists t.
  - destruct (_ || _); [done|]. intros [= <-]. split_and!; try done. eexists. split; [cbn; apply elem_of_app; right; by apply list_elem_of_singleton|].
    by split_and!; [..|left].
Qed.

Lemma no_foreign_member a to (s s' : Fleet) m g :
  groups s' = groups s →
  members s' = filter (fun m => bool_decide (me_agent_id m = a)
                 && existsb (fun g => bool_decide (gr_id g = me_group_id m) && negb (bool_decide (gr_owner_user_id g = to))) (groups s) = false) (members s) →
  m ∈ members s' → me_agent_id m = a → g ∈ groups s' → gr_id g = me_group_id m → gr_owner_user_id g = to.
Proof.
  intros Eg Em Hm Ha Hg Hi. rewrite Em in Hm. rewrite Eg in Hg. apply list_elem_of_filter in Hm as [Hm _].
  rewrite bool_decide_true in Hm by done. cbn [andb] in Hm.
  destruct (decide (gr_owner_user_id g = to)) as [|Hne]; [done|]. exfalso. apply not_true_iff_false in Hm. apply Hm, existsb_exists. exists g.
  rewrite bool_decide_true, bool_decide_false by done. split; [by apply list_elem_of_In|done].
Qed.

Lemma same_row s (r r' : AgentRow) : NoDup (ag_id <$> agents s) → r ∈ agents s → r' ∈ agents s → ag_id r' = ag_id r → r' = r.
Proof.
  intros Hn [i Hi]%list_elem_of_lookup [j Hj]%list_elem_of_lookup He.
  assert (i = j) as ->; [|congruence]. eapply NoDup_lookup; [exact Hn|..]; rewrite list_lookup_fmap; [by rewrite Hi|by rewrite Hj; cbn; rewrite He].
Qed.

(** C7: whatever handlers run and in whatever order, an Agent that is known
    gets another owner only in one kind of step: the transaction of a transfer.
    The handler that makes it was itself called with the cookie session of an
    administrator ([asked] names the session a handler takes), and in its run
    the check of that administrator's second factor passed (it also passes
    where the administrator has not enabled one). The same step writes the completed record of the transfer, from the
    old owner to the new one, by this administrator, for this Agent (or completes the record that the
    retry read), takes the Agent out of every group of another owner, and
    leaves every other Agent as it was. *)
Theorem ownership_audited who m h e s s' r r' :
  asked who m → makes m h e s s' → NoDup (ag_id <$> agents s) → (∀ i, drew h i → i ∉ (tf_id <$> transfers s)) →
  r ∈ agents s → r' ∈ agents s' → ag_id r' = ag_id r → ag_owner_user_id r' ≠ ag_owner_user_id r →
  ∃ auth t, who = Some auth ∧ by_admin auth ∧ totp_ok (Auth.user_id auth) h ∧ t ∈ transfers s' ∧ tf_status t = lit "completed" ∧
    tf_from_user_id t = Some (ag_owner_user_id r) ∧ tf_to_user_id t = ag_owner_user_id r' ∧
    tf_requested_by_user_id t = Some (uuid_to_string (Auth.user_id auth)) ∧
    (tf_agent_id t = ag_id r ∨ read_transfer h (tf_id t) (ag_id r)) ∧
    (∀ mb g, mb ∈ members s' → me_agent_id mb = ag_id r → g ∈ groups s' → gr_id g = me_group_id mb → gr_owner_user_id g = ag_owner_user_id r') ∧
    (∀ r2, r2 ∈ agents s → ag_id r2 ≠ ag_id r → r2 ∈ agents s').
Proof.
  intros Hm Hs Hnd Hfresh Hr Hr' Hid Hown. pose proof (traced_makes _ _ _ _ _ _ _ _ (asked_guarded who m Hm) Hs) as [Hc|[Ha|Ht]].
  - destruct (change_agents _ _ _ _ Hc Hr') as (r0 & Hr0 & Hid0 & _ & Ho0 & _).
    assert (r0 = r) as -> by (apply (same_row s); [done..|congruence]). done.
  - assert (r' ∈ agents s) as Hold; [|by rewrite (same_row s r r') in Hown].
    destruct Ha as [Ha|(row & Hrow & Ha)]; rewrite Ha in Hr'; [done|]. apply elem_of_app in Hr' as [Hr'|Hr']; [done|].
    apply list_elem_of_singleton in Hr' as ->. exfalso. apply Hrow. rewrite Hid. by apply list_elem_of_fmap_2.
  - destruct Ht as (auth & -> & Hadm & Htotp & i & a & from & to & now & Ho & Hi). destruct (owner_transaction_shape _ _ _ _ _ _ _ _ _ Ho) as (Hag & Hgr & Hmem & t & Ht & <- & Hst & Hf & Hto & Hby & Hagent).
    assert (ag_id r = a ∧ ag_owner_user_id r = from ∧ r' = with_owner to now r) as (<- & <- & ->).
    { rewrite Hag in Hr'. apply list_elem_of_fmap in Hr' as (r0 & -> & Hr0).
      assert (r0 = r) as -> by (apply (same_row s); [done..|]; by destruct (bool_decide (ag_id r0 = a) && _)).
      destruct (bool_decide (ag_id r = a)) eqn:Ea; [|done]. destruct (bool_decide (ag_owner_user_id r = from)) eqn:Eo; [|done].
      by apply bool_decide_eq_true in Ea, Eo. }
    exists auth, t. split_and!; try done.
    + destruct Hagent as [->|Hin]; [by left|]. destruct Hi as [Hi|Hi]; [by apply Hfresh in Hi|by right].
    + intros mb g Hmb Hmid Hg Hgid. by eapply (no_foreign_member (ag_id r) to s s').
    + intros r2 Hr2 Hne. rewrite Hag. apply list_elem_of_fmap. exists r2. split; [|done]. by rewrite bool_decide_false.
Qed.
End ownership.
End FleetProofs.
