(* ===== verification/FleetStreamsProofs.v ===== *)
(** * FleetStreamsProofs: what streams may do and dashboards may see

    An Agent's stream acts only after its token, its row and its address were
    checked, and only for the Agent the token names. A dashboard is sent only
    events of Agents that the same connection saw to be visible to its user. *)

From S2P Require Import Prelude Text BTreeMap Json Externals Net Auth Security Rfc3339 Tables Sessions Users Accounts Registry IoStreams IoStreamsProofs AgentTokens.
From S2P Require Import Interleave Realtime RealtimeProofs ServerMeta Telemetry Fleet FleetStreams ServerAdmin FleetPool.

Module FleetStreamsProofs.
Import Interleave Realtime Fleet FleetStreams FleetPool.
#[local] Arguments with_id : simpl never.

(** ** Runs of database reads *)

Section reads.
Context {E : Type} (I : list (Env E * Fleet) → Env E → Fleet → Fleet → Prop).
Hypothesis I_refl : ∀ h e s, I h e s s.

Lemma traced_select {A} (f : Fleet → A) h Q :
  (∀ e s, Q (h ++ [(e, s)]) (Ok (f s))) → (∀ h' x, Q (h ++ h') (Err x)) → traced I h (select (E := E) f) Q.
Proof.
  intros Hok Herr e s. cbn. destruct (fault e); cbn; (split; [apply I_refl|]); auto.
Qed.
Lemma traced_sql {A} (f : Env E → Fleet → result Tables.Why A * Fleet) h Q :
  (∀ e s, match f e s with
          | (Ok a, s') => I h e s s' ∧ Q (h ++ [(e, s)]) (Ok a)
          | (Err w, _) => Q (h ++ [(e, s)]) (Err (Tables.Bail w))
          end) → (∀ h' x, Q (h ++ h') (Err (Tables.Sqlx x))) → traced I h (sql f) Q.
Proof.
  intros Hf Hx e s. specialize (Hf e s). cbn. destruct (fault e); [split; [apply I_refl|apply Hx]|].
  destruct (f e s) as [[a|w] s']; [done|]. by split.
Qed.
Lemma traced_map_err {X Y A} (g : X → Y) (m : P (Env E) Fleet X A) h Q :
  traced I h m (fun h' r => Q h' (match r with Ok a => Ok a | Err e => Err (g e) end)) → traced I h (map_err g m) Q.
Proof. intros Hm. by apply traced_bind. Qed.
Lemma traced_find `{UuidLib, Rfc3339} a h Q :
  (∀ e s, Q (h ++ [(e, s)]) (Ok (row_of a s ≫= sqlite_agent_row_to_agent))) → (∀ h' x, Q (h ++ h') (Err x)) → traced I h (find_by_id (E := E) a) Q.
Proof. intros Hok Herr. unfold find_by_id. apply traced_try, traced_select; [|done]. intros e s. apply Hok. Qed.
End reads.

Lemma row_of_elem `{UuidLib} a s r : row_of a s = Some r → r ∈ agents s ∧ ag_id r = uuid_to_string a.
Proof. unfold row_of. intros [Hi Hr]%head_Some_elem_of%list_elem_of_filter. done. Qed.
Lemma page_elem limit offset rows r : r ∈ page limit offset rows → r ∈ rows.
Proof.
  unfold page. intros Hr. apply (proj1 (elem_of_Permutation_proper r _ _ (merge_sort_Permutation newest_first rows))).
  by eapply subseteq_drop, subseteq_take.
Qed.

(** ** Streams of Agents *)

Section streams.
Context {E : Type} `{UuidLib, Rfc3339, JulianDay, Auth.Crypto, AgentTokens.JwtLib}.
Context (jwt_secret : rstr) (to_string : json → option rstr) (from_str : rstr → option json).
Context (iter : gmap Z RealtimeEvent → list (Z * RealtimeEvent)) (engine manager : bool).
Hypothesis iter_entries : ∀ m, iter m ≡ₚ map_to_list m.
Abbreviation History := (list (Env E * Fleet)).

(** What an earlier part of the run established: a token for the Agent that was
    valid then, an address that was not banned, a row that was not revoked. *)
Definition authenticated (ip : rstr) (bearer : result GrpcBearerTokenError (option rstr)) (h : History) (a : Z) : Prop :=
  ∃ token, bearer = Ok (Some token) ∧
    once h (fun e _ => banned e ip ≠ Ok true) ∧
    once h (fun e _ => ∃ claims, AgentTokens.verify_agent_jwt token jwt_secret (timestamp (utc e)) = Ok claims ∧ uuid_parse (AgentTokens.sub claims) = Some a) ∧
    once h (fun _ s => ∃ r ag, row_of a s = Some r ∧ sqlite_agent_row_to_agent r = Some ag ∧ revoked_at ag = None).

(** A message about an Agent, and a refused connection. *)
Definition call_of (a : Z) (c : Call) : Prop :=
  match c with
  | WriteMetrics b _ _ | ObserveState b _ | DeliverResult b _ _ | ReportIp b _ _ => b = a
  | AuthFailure _ _ _ | Blocked _ => False
  end.
Definition refusal (c : Call) : Prop := match c with AuthFailure _ _ _ | Blocked _ => True | _ => False end.

(** At an earlier step of the run, the stream was one of the Agent's, subscribed to
    through this channel and watch. *)
Definition was_subscribed (h : History) (a : Z) (sid : rstr) (sub : IoStreams.IoSubscriber) : Prop :=
  IoStreams.agent_id sub = a ∧ once h (fun _ s => IoStreams.stream_subscribers (io s) !! sid = Some sub).
(** The inbox of a subscriber gets nothing but frames that bear the Agent's
    identifier, on a stream of the Agent that this inbox had subscribed to. *)
Definition inbox_grown (h : History) (a c : Z) (o o' : option IoStreams.Inbox) : Prop :=
  ∃ new, o' = (fun i => {| IoStreams.frames := IoStreams.frames i ++ new; IoStreams.is_closed := IoStreams.is_closed i |}) <$> o ∧
    Forall (fun f => IoStreams.f_agent_id f = uuid_to_string a ∧
                     ∃ sub, was_subscribed h a (IoStreams.stream_id f) sub ∧ IoStreams.sender sub = c) new.

(** What a step does to the I/O registry when it acts for one Agent: the streams of
    the others stay, and so do their subscriptions, unless the subscriber had
    closed its end. *)
Record io_confined (h : History) (a : Z) (r r' : IoStreams.IoRegistry) : Prop := {
  ic_revoked : IoStreams.revoked_agents r' = IoStreams.revoked_agents r;
  ic_streams : ∀ b, b ≠ a → IoStreams.agent_streams r' !! b = IoStreams.agent_streams r !! b;
  ic_subscribers : ∀ sid sub, IoStreams.stream_subscribers r !! sid = Some sub →
    IoStreams.stream_subscribers r' !! sid = Some sub ∨
    IoStreams.stream_subscribers r' !! sid = None ∧ (IoStreams.agent_id sub = a ∨ IoStreams.sender_closed r (IoStreams.sender sub) = true);
  ic_no_more : IoStreams.stream_subscribers r' ⊆ IoStreams.stream_subscribers r;
  ic_signalled : ∀ x, x ∈ IoStreams.notified r' → x ∈ IoStreams.notified r ∨
    ∃ sid sub, IoStreams.changes sub = x ∧ (was_subscribed h a sid sub ∨
      IoStreams.stream_subscribers r !! sid = Some sub ∧ IoStreams.sender_closed r (IoStreams.sender sub) = true);
  ic_inboxes : ∀ c, inbox_grown h a c (IoStreams.inboxes r !! c) (IoStreams.inboxes r' !! c);
  ic_delivered : ∃ new, IoStreams.delivered r' = IoStreams.delivered r ++ new ∧ Forall (fun d => d.1.1 = a) new;
}.

(** What a step does when it acts for one Agent. *)
Record confined (h : History) (a : Z) (s s' : Fleet) : Prop := {
  cf_rows : Forall2 (fun r r' => r' = r ∨ ag_id r = uuid_to_string a ∧ row_kept r r' ∧ ag_name r' = ag_name r ∧ ag_revoked_at r' = ag_revoked_at r ∧
                                 ag_dashboard_metadata_json r' = ag_dashboard_metadata_json r) (agents s) (agents s');
  cf_tables : tokens s' = tokens s ∧ servers s' = servers s ∧ groups s' = groups s ∧ members s' = members s ∧ transfers s' = transfers s ∧
              audit s' = audit s ∧ challenges s' = challenges s ∧ written s' = written s;
  cf_sessions : Registry.revoked (sessions s') = Registry.revoked (sessions s) ∧
                ∀ b, b ≠ a → Registry.senders (sessions s') !! b = Registry.senders (sessions s) !! b;
  cf_io : io_confined h a (io s) (io s');
  cf_published : ∃ new, published (hub s') = published (hub s) ++ new ∧ Forall (fun ev => agent_id ev = a) new;
  cf_latest : ∀ b, b ≠ a → latest (hub s') !! b = latest (hub s) !! b ∨ latest (hub s') !! b = None;
  cf_calls : ∃ new, calls s' = calls s ++ new ∧ Forall (call_of a) new;
}.

Lemma rows_refl a (l : list AgentRow) :
  Forall2 (fun r r' => r' = r ∨ ag_id r = uuid_to_string a ∧ row_kept r r' ∧ ag_name r' = ag_name r ∧ ag_revoked_at r' = ag_revoked_at r ∧
                                 ag_dashboard_metadata_json r' = ag_dashboard_metadata_json r) l l.
Proof. apply Forall_Forall2_diag, Forall_forall. intros r _. by left. Qed.
Lemma inbox_same h a c o : inbox_grown h a c o o.
Proof. exists []. split; [|done]. destruct o as [[]|]; cbn; by rewrite ?app_nil_r. Qed.
Lemma inbox_trans h a c o1 o2 o3 : inbox_grown h a c o1 o2 → inbox_grown h a c o2 o3 → inbox_grown h a c o1 o3.
Proof.
  intros (l1 & -> & K1) (l2 & -> & K2). exists (l1 ++ l2). split; [|by apply Forall_app]. destruct o1 as [i|]; cbn; [|done]. by rewrite app_assoc.
Qed.
(** Changes that leave the subscriptions and the inboxes alone. *)
Lemma io_quiet h a r r' :
  IoStreams.revoked_agents r' = IoStreams.revoked_agents r → (∀ b, b ≠ a → IoStreams.agent_streams r' !! b = IoStreams.agent_streams r !! b) →
  IoStreams.stream_subscribers r' = IoStreams.stream_subscribers r → IoStreams.notified r' = IoStreams.notified r →
  IoStreams.inboxes r' = IoStreams.inboxes r → IoStreams.delivered r' = IoStreams.delivered r → io_confined h a r r'.
Proof.
  intros K1 K2 K3 K4 K5 K6. split; try done.
  - intros sid sub. rewrite K3. by left.
  - by rewrite K3.
  - intros x. rewrite K4. by left.
  - intros c. rewrite K5. apply inbox_same.
  - exists []. by rewrite app_nil_r, K6.
Qed.
Lemma io_refl h a r : io_confined h a r r.
Proof. by apply io_quiet. Qed.
Ltac confine :=
  constructor; cbn; try done; try apply rows_refl; try apply io_refl; try (by left); try (exists []; split; [by rewrite app_nil_r|done]).
Lemma confined_refl h a s : confined h a s s.
Proof. confine. Qed.
Lemma confined_set_io h a r s : io_confined h a (io s) r → confined h a s (set_io r s).
Proof. intros Hr. confine. Qed.
Abbreviation Confined a m := (always (fun (_ : Env E) s s' => ∀ h, confined h a s s') m).

Lemma confined_observe {X A} a (f : Env E → A) : Confined a (observe f : P (Env E) Fleet X A).
Proof. intros e s. split; [intros h; apply confined_refl|exact I]. Qed.
Lemma confined_note {X} a c : call_of a c → Confined a (note c : P (Env E) Fleet X unit).
Proof.
  intros Hc e s. split; [|exact I]. intros h. confine. exists [c]. by split; [|repeat constructor].
Qed.
Lemma confined_update a (f : Z → AgentRow → AgentRow) :
  (∀ now r, row_kept r (f now r) ∧ ag_name (f now r) = ag_name r ∧ ag_revoked_at (f now r) = ag_revoked_at r ∧
            ag_dashboard_metadata_json (f now r) = ag_dashboard_metadata_json r) →
  Confined a (ignore (update_agents (with_id a) f;; mret ()) : P (Env E) Fleet Status unit).
Proof.
  intros Hf. apply always_ignore, always_try; [|done]. unfold update_agents. apply always_try; [apply confined_observe|intros now]. intros e s. split; [|exact I]. cbn.
  intros h. destruct (fault e); [apply confined_refl|]. confine. apply Forall2_fmap_r, Forall_Forall2_diag, Forall_forall.
  intros r _. cbn. destruct (with_id a r) eqn:Hi; [|by left]. apply bool_decide_eq_true in Hi. right. by split; [|apply Hf].
Qed.

Lemma remember_other ev m b : b ≠ agent_id ev → remember iter ev m !! b = m !! b ∨ remember iter ev m !! b = None.
Proof.
  intros Hb. destruct (RealtimeProofs.remember_spec iter iter_entries ev m) as ([c|] & -> & _); rewrite lookup_insert_ne by done; [|by left].
  destruct (decide (c = b)) as [->|Hc]; [right; apply lookup_delete_eq|left; by apply lookup_delete_ne].
Qed.
Lemma confined_announce {X} a k v : Confined a (announce iter k a v : P (Env E) Fleet X unit).
Proof.
  unfold announce, publish. apply always_try; [apply confined_observe|intros now]. apply always_try; [|intros _]; intros e s; (split; [intros h|exact I]).
  - confine. intros b Hb. by apply (remember_other (cleaned (new_event k a v now))).
  - confine. eexists. split; [done|]. by repeat constructor.
Qed.

Lemma confined_message a msg : Confined a (handle_message to_string from_str iter engine manager a msg : P (Env E) Fleet Status unit).
Proof.
  destruct msg as [|state|r|info|v4 v6|]; cbn [handle_message]; [by apply confined_update| | | | |exact I].
  - apply always_try; [by apply confined_update|intros _]. case_match; [|exact I]. apply always_try; [apply confined_observe|intros now].
    apply always_try; [by apply confined_note|intros _]. apply always_try; [destruct engine; [by apply confined_note|exact I]|intros _].
    apply confined_announce.
  - by apply confined_note.
  - apply always_try; [by apply confined_update|intros _]. case_match; [|exact I]. apply confined_announce.
  - case_match. apply always_try; [destruct manager; [by apply confined_note|exact I]|intros _].
    apply always_try; [by apply confined_note|intros _]. case_match; [apply confined_announce|exact I].
Qed.

Lemma confined_messages a l : Confined a (handle_messages to_string from_str iter engine manager a l : P (Env E) Fleet Status unit).
Proof. induction l as [|m l IH]; cbn [handle_messages]; [exact I|]. apply always_try; [apply confined_message|intros _; apply IH]. Qed.

(** *** Frames

    A run that has looked the subscriber up. *)
Abbreviation Bound a h m Q := (traced (fun g (_ : Env E) => confined g a) h m Q).
Lemma bound_always {A} a h (m : Proc (Env E) Fleet A) Q : Confined a m → (∀ h' x, Q (h ++ h') x) → Bound a h m Q.
Proof. intros Hm HQ. eapply always_traced; [exact Hm| |done]. intros h' e s s' Hc. apply Hc. Qed.

Lemma bound_look {X A} a h (f : Fleet → A) (Q : History → result X A → Prop) :
  (∀ e s, Q (h ++ [(e, s)]) (Ok (f s))) → Bound a h (look f : P (Env E) Fleet X A) Q.
Proof. intros HQ e s. split; [apply confined_refl|apply HQ]. Qed.
Lemma bound_atomic {X A} a h (f : Env E → Fleet → result X A * Fleet) (Q : History → result X A → Prop) :
  (∀ e s, confined h a s (f e s).2 ∧ Q (h ++ [(e, s)]) (f e s).1) → Bound a h (atomic f) Q.
Proof. done. Qed.

Lemma bound_prune {X} a : Confined a (prune : P (Env E) Fleet X unit).
Proof.
  intros e s. split; [|exact I]. intros h. apply confined_set_io. pose proof (IoStreamsProofs.drops_prune (io s)) as [Ds Dn _ Dd _]. split; try done.
  - intros sid sub Hs. destruct (IoStreams.sender_closed (io s) (IoStreams.sender sub)) eqn:Ec; [right|left; by apply Ds].
    split; [|by right]. apply eq_None_not_Some. intros [sub' [Hs' Hc']%Ds]. congruence.
  - apply map_subseteq_spec. intros sid sub [Hs _]%Ds. done.
  - intros x [Hx|(sid & sub & Hs & Hc & <-)]%Dn; [by left|right]. exists sid, sub. auto.
  - intros c. apply inbox_same.
  - exists []. by rewrite app_nil_r.
Qed.

(** The frame goes to the subscriber that was found, and bears the Agent's
    identifier. *)
Lemma hand_over_confined h a del r :
  IoStreams.d_agent del = a → IoStreams.f_agent_id (IoStreams.d_frame del) = uuid_to_string a →
  was_subscribed h a (IoStreams.stream_id (IoStreams.d_frame del)) (IoStreamsProofs.target_of del) → io_confined h a r (IoStreams.hand_over del r).
Proof.
  intros Ha Hf Hsub. split; try done.
  - intros sid sub. by left.
  - intros x. by left.
  - intros c. cbn. destruct (decide (IoStreams.d_sender del = c)) as [<-|Hc]; [|rewrite lookup_alter_ne by done; apply inbox_same].
    rewrite lookup_alter_eq. exists [IoStreams.d_frame del]. split; [done|]. repeat constructor; [done|]. by exists (IoStreamsProofs.target_of del).
  - eexists. split; [done|]. by repeat constructor.
Qed.

Lemma bound_deliver a frame h Q : (∀ h' (r : result Status bool), Q (h ++ h') r) → Bound a h (deliver_from_agent a frame : P (Env E) Fleet Status bool) Q.
Proof.
  intros HQ. unfold deliver_from_agent. destruct (negb _); [cbn; specialize (HQ [] (Ok false)); by rewrite app_nil_r in HQ|].
  apply traced_try, bound_look. intros e s. destruct (IoStreams.deliver_lookup a frame (io s)) as [del|] eqn:Hd.
  - apply IoStreamsProofs.deliver_lookup_spec in Hd as (Hsub & Ha & Hf & _).
    assert (was_subscribed (h ++ [(e, s)]) a (IoStreams.stream_id (IoStreams.d_frame del)) (IoStreamsProofs.target_of del)) as Hw
      by (split; [done|by apply once_here]).
    apply traced_try, bound_atomic. intros e' s'. destruct (negb (timed_out e') && _); (split; [cbn [snd]|cbv beta iota delta [fst]]).
    + apply confined_set_io. by apply hand_over_confined.
    + rewrite <-app_assoc. apply HQ.
    + apply confined_refl.
    + rewrite <-app_assoc. apply bound_always; [|intros h' r; rewrite <-app_assoc; apply HQ].
      apply always_try; [intros e2 s2; split; [intros h2; apply confined_refl|exact I]|intros []].
      * apply always_try; [apply bound_prune|done].
      * apply always_try; [exact I|done].
  - apply bound_always; [|intros h' r; rewrite <-app_assoc; apply HQ]. apply always_try; [apply bound_prune|done].
Qed.

Lemma bound_frames a l h Q : (∀ h' (r : result Status unit), Q (h ++ h') r) → Bound a h (deliver_frames (E := E) a l) Q.
Proof.
  revert h. induction l as [|f l IH]; intros h HQ; cbn [deliver_frames]; [cbn; specialize (HQ [] (Ok ())); by rewrite app_nil_r in HQ|].
  apply traced_try, bound_deliver. intros h' [b|x]; [|apply HQ]. apply IH. intros h2 r. rewrite <-app_assoc. apply HQ.
Qed.

(** Subscriptions of the Agent that were taken out, and are told so. *)
Definition taken_from (h : History) (a : Z) (closed : list (rstr * IoStreams.IoSubscriber)) : Prop :=
  Forall (fun p => was_subscribed h a p.1 p.2) closed.
Lemma taken_here h a f r e s :
  io s = r → taken_from (h ++ [(e, s)]) a (IoStreams.take_agent_subscribers a (IoStreams.set_streams f r)).1.
Proof.
  intros <-. apply Forall_forall. intros [sid sub] [Hs Ha]%IoStreamsProofs.subs_where_spec. split; [by apply Z.eqb_eq|by apply once_here].
Qed.
Lemma try_send_grown h a c f m c' :
  IoStreams.f_agent_id f = uuid_to_string a → (∃ sub, was_subscribed h a (IoStreams.stream_id f) sub ∧ IoStreams.sender sub = c) →
  inbox_grown h a c' (m !! c') (IoStreams.try_send c f m !! c').
Proof.
  intros Hf Hs. unfold IoStreams.try_send. destruct (decide (c = c')) as [<-|Hc]; [|rewrite lookup_alter_ne by done; apply inbox_same].
  rewrite lookup_alter_eq. destruct (m !! c) as [i|]; [|apply inbox_same]. cbn. case_match; [apply inbox_same|]. exists [f]. split; [done|]. by repeat constructor.
Qed.
Lemma tell_grown h a reason closed m c :
  taken_from h a closed →
  inbox_grown h a c (m !! c) (foldl (fun m '(sid, s) => IoStreams.try_send (IoStreams.sender s)
    {| IoStreams.stream_id := sid; IoStreams.sequence := 0; IoStreams.f_agent_id := uuid_to_string a;
       IoStreams.payload := Some (IoStreams.Error IoStreams.IO_STREAM_CLOSED_CODE reason) |} m) m closed !! c).
Proof.
  intros Ht. revert m. induction Ht as [|[sid sub] l Hs Hl IH]; intros m; cbn; [apply inbox_same|]. eapply inbox_trans, IH.
  apply try_send_grown; [done|]. by exists sub.
Qed.
Lemma bound_tell {X} a reason closed h Q :
  taken_from h a closed → (∀ h' (r : result X unit), Q (h ++ h') r) → Bound a h (tell_closed a reason closed : P (Env E) Fleet X unit) Q.
Proof.
  intros Ht HQ e s. split; [|apply HQ]. apply confined_set_io. split; try done; cbn.
  - intros sid sub. by left.
  - intros x [(sub & -> & ([sid sub'] & -> & Hin)%list_elem_of_fmap)%elem_of_list_to_set%list_elem_of_fmap|Hx]%elem_of_union; [right|by left].
    exists sid, sub'. split; [done|left]. eapply Forall_forall in Ht; [|exact Hin]. exact Ht.
  - intros c. by apply tell_grown.
  - exists []. by rewrite app_nil_r.
Qed.

(** Taking the Agent's subscriptions out, whatever was done to its stream. *)
Lemma take_confined h a f r :
  (∀ b, b ≠ a → f (IoStreams.agent_streams r) !! b = IoStreams.agent_streams r !! b) →
  io_confined h a r (IoStreams.take_agent_subscribers a (IoStreams.set_streams f r)).2.
Proof.
  intros Hf. split; cbn; try done.
  - intros sid sub Hs. destruct (IoStreams.agent_id sub =? a) eqn:Ha; [right|left; by apply IoStreamsProofs.subs_without_spec].
    split; [|left; by apply Z.eqb_eq]. apply eq_None_not_Some. intros [sub' [Hs' Ha']%IoStreamsProofs.subs_without_spec]. congruence.
  - apply map_filter_subseteq.
  - intros x. rewrite union_empty_l_L. by left.
  - intros c. apply inbox_same.
  - exists []. by rewrite app_nil_r.
Qed.

(** The part of a stream that follows the authentication. *)
Lemma confined_session a c messages :
  Confined a (registered ← atomic (fun e s => let '(w, ok) := Registry.register a c (watch e) (sessions s) in (Ok ok, set_sessions w s));
    if negb (registered : bool) then throw (PermissionDenied (lit "agent revoked")) else
    handle_messages to_string from_str iter engine manager a messages;;
    locked (fun e s => set_sessions (Registry.unregister a (if upgrades e then Some c else None) (sessions s)).1 s) : P (Env E) Fleet Status unit).
Proof.
  apply always_try.
  - intros e s. split; [|exact I]. intros h. cbn. unfold Registry.register. case_bool_decide; cbn; [confine|].
    constructor; cbn; try done; try apply rows_refl; try apply io_refl; try (by left); try (by exists []; rewrite app_nil_r).
    case_match; (split; [done|]); intros b Hb; cbn; by rewrite lookup_insert_ne.
  - intros []; cbn [negb]; [|exact I]. apply always_try; [apply confined_messages|intros _]. intros e s. split; [|exact I]. intros h.
    unfold Registry.unregister. constructor; cbn; try done; try apply rows_refl; try apply io_refl; try (by left); try (by exists []; rewrite app_nil_r).
    repeat case_match; cbn; (split; [done|]); intros b Hb; try done; by rewrite lookup_delete_ne.
Qed.
Lemma bound_io_stream a c frames h :
  Bound a h (registered ← atomic (fun e s => let '(r, closed) := IoStreams.register_agent a c (io s) in (Ok closed, set_io r s));
    match (registered : option (list (rstr * IoStreams.IoSubscriber))) with
    | None => throw (PermissionDenied (lit "agent revoked"))
    | Some closed =>
        tell_closed a IoStreams.REPLACED closed;;
        deliver_frames a frames;;
        removed ← atomic (fun e s => let '(r, closed) := IoStreams.unregister_agent a (if upgrades e then Some c else None) (io s) in (Ok closed, set_io r s));
        match (removed : option (list (rstr * IoStreams.IoSubscriber))) with
        | Some closed => tell_closed a IoStreams.DISCONNECTED closed
        | None => mret ()
        end
    end : P (Env E) Fleet Status unit) (fun _ _ => True).
Proof.
  apply traced_try, bound_atomic. intros e s. unfold IoStreams.register_agent. case_bool_decide; [split; [apply confined_set_io, io_refl|done]|].
  assert (∀ closed, taken_from (h ++ [(e, s)]) a closed → Bound a (h ++ [(e, s)]) (tell_closed a IoStreams.REPLACED closed;;
        deliver_frames a frames;;
        removed ← atomic (fun e s => let '(r, closed) := IoStreams.unregister_agent a (if upgrades e then Some c else None) (io s) in (Ok closed, set_io r s));
        match (removed : option (list (rstr * IoStreams.IoSubscriber))) with
        | Some closed => tell_closed a IoStreams.DISCONNECTED closed
        | None => mret ()
        end : P (Env E) Fleet Status unit) (fun _ _ => True)) as Hrest.
  { intros closed Ht. apply traced_try, bound_tell; [done|]. intros h1 [[]|x]; [|done]. apply traced_try, bound_frames. intros h2 [[]|x]; [|done].
    apply traced_try, bound_atomic. intros e2 s2. unfold IoStreams.unregister_agent.
    destruct (IoStreams.agent_streams (io s2) !! a) as [c0|]; [|split; [apply confined_set_io, io_refl|done]].
    destruct (if upgrades e2 then Some c else None) as [c1|]; [|split; [apply confined_set_io, io_refl|done]].
    destruct (c0 =? c1); [|split; [apply confined_set_io, io_refl|done]]. split.
    - apply confined_set_io, (take_confined _ a (delete a) (io s2)). intros b Hb. by rewrite lookup_delete_ne.
    - apply bound_tell; [|done]. by apply (taken_here _ a (delete a) (io s2)). }
  destruct (IoStreams.agent_streams (io s) !! a) as [c0|]; split.
  - apply confined_set_io, (take_confined _ a <[a := c]> (io s)). intros b Hb. by rewrite lookup_insert_ne.
  - apply Hrest. by apply (taken_here _ a <[a := c]> (io s)).
  - apply confined_set_io, io_quiet; try done. intros b Hb. cbn. by rewrite lookup_insert_ne.
  - apply Hrest. constructor.
Qed.

(** *** The steps of a stream *)

Definition stream_step ip bearer (h : History) (e : Env E) (s s' : Fleet) : Prop :=
  s' = s ∨ (∃ c, refusal c ∧ s' = set_calls (calls s ++ [c]) s) ∨ ∃ a, authenticated ip bearer h a ∧ confined h a s s'.
Lemma stream_refl ip bearer h e s : stream_step ip bearer h e s s.
Proof. by left. Qed.

Lemma traced_fail ip bearer h a who reason st Q :
  (∀ h' x, Q (h ++ h') (Err x)) → traced (stream_step ip bearer) h (fail_auth (E := E) (A := Z) a who reason st) Q.
Proof.
  intros HQ. unfold fail_auth. apply traced_try. intros e s. split; [right; left; eexists; by split; [|reflexivity]|]. apply HQ.
Qed.

Lemma authenticate_ok ip bearer name Q :
  (∀ h a, authenticated ip bearer h a → Q h (Ok a)) → (∀ h x, Q h (Err x)) →
  traced (stream_step ip bearer) [] (authenticate_agent_request (E := E) jwt_secret ip bearer name) Q.
Proof.
  intros Hok Herr. unfold authenticate_agent_request. apply traced_try, traced_observe. intros e1 s1. split; [apply stream_refl|].
  destruct (banned e1 ip) as [[]|x] eqn:Eb.
  1: { apply traced_try. intros e s. split; [right; left; eexists; by split; [|reflexivity]|]. apply Herr. }
  all: assert (once ([] ++ [(e1, s1)]) (fun e _ => banned e ip ≠ Ok true)) as Hban by (apply once_here; cbn; rewrite Eb; congruence).
  all: destruct bearer as [[token|]|y]; [|apply traced_fail; auto..].
  all: apply traced_try, traced_observe; intros e2 s2; (split; [apply stream_refl|]).
  all: destruct (AgentTokens.verify_agent_jwt token jwt_secret (timestamp (utc e2))) as [claims|y] eqn:Ev; [|apply traced_fail; auto].
  all: destruct (uuid_parse (AgentTokens.sub claims)) as [a|] eqn:Ea; [|apply traced_fail; auto].
  all: apply traced_try, traced_map_err, traced_find; [apply stream_refl| |auto]; intros e3 s3.
  all: destruct (row_of a s3) as [r|] eqn:Er; cbn [mbind option_bind]; [|apply traced_fail; auto].
  all: destruct (sqlite_agent_row_to_agent r) as [ag|] eqn:Eag; [|apply traced_fail; auto].
  all: destruct (revoked_at ag) as [t|] eqn:Et; [apply traced_fail; auto|].
  all: apply Hok; exists token; split_and!; [done|by do 2 apply once_app| |apply once_here; by exists r, ag].
  all: apply once_app, once_here; by exists claims.
Qed.

(** The two streams an Agent opens. *)
Inductive stream ip bearer : Proc (Env E) Fleet (result Status unit) → Prop :=
| session_stream messages : stream ip bearer (session jwt_secret to_string from_str iter engine manager ip bearer messages)
| io_stream_of frames : stream ip bearer (io_stream jwt_secret ip bearer frames).

Lemma stream_traced ip bearer m : stream ip bearer m → traced (stream_step ip bearer) [] m (fun _ _ => True).
Proof.
  intros [messages|frames].
  all: unfold session, io_stream; apply traced_try, authenticate_ok; [|done]; intros h a Ha.
  all: apply traced_try, traced_observe; intros e s; (split; [apply stream_refl|]).
  - eapply always_traced; [apply confined_session| |done]. intros h' e' t t' Hc. right; right. exists a. split; [|done].
    destruct Ha as (token & Hb & Ha1 & Ha2 & Ha3). exists token. split_and!; [done|by repeat apply once_app..].
  - eapply traced_impl; [|apply bound_io_stream]. intros h' e' t t' Hc. right; right. exists a. split; [|done].
    destruct Ha as (token & Hb & Ha1 & Ha2 & Ha3). exists token. split_and!; [done|by repeat apply once_app..].
Qed.

(** C8: a stream of an Agent (of control messages or of I/O) does nothing but
    note refused attempts until, in this same run, its address was not banned,
    its token was verified at that time and the row of the Agent the token names
    was found unrevoked. From then on every step concerns that Agent alone: its
    row, without its key, owner, revocation or metadata; its entry in the two
    registries, and no revocation; events, metrics and results under its
    identifier. Frames reach only the inboxes that had subscribed to a stream of
    that Agent, on that stream and with its identifier, whatever the Agent wrote
    in them; subscriptions to other Agents stay, unless their receiver is gone. *)
Theorem stream_confined ip bearer m h e s s' :
  stream ip bearer m → makes m h e s s' →
  s' = s ∨ (∃ c, refusal c ∧ s' = set_calls (calls s ++ [c]) s) ∨ ∃ a, authenticated ip bearer h a ∧ confined h a s s'.
Proof. intros Hm Hs. exact (traced_makes _ _ _ _ _ _ _ _ (stream_traced ip bearer m Hm) Hs). Qed.
End streams.

(** ** Dashboards *)

Section dashboards.
Context {E : Type} `{UuidLib, Rfc3339, JulianDay, Auth.Crypto}.
Context (iter : gmap Z RealtimeEvent → list (Z * RealtimeEvent)) (auth : Auth.AuthSession).
Abbreviation History := (list (Env E * Fleet)).

(** The database has a row of the Agent that the user may see. *)
Definition visible (a : Z) (_ : Env E) (s : Fleet) : Prop :=
  ∃ r ag, r ∈ agents s ∧ (uuid_parse (ag_id r) = Some a ∨ ag_id r = uuid_to_string a) ∧ sqlite_agent_row_to_agent r = Some ag ∧
    revoked_at ag = None ∧ (Auth.is_admin (Auth.role auth) = true ∨ owner_user_id ag = Auth.user_id auth) ∧ allowed_server auth (id ag) = true.
(** A live event was looked up after it had been received; the Agents of a
    snapshot at some time before. *)
Definition shown (h : History) (frame : WsOutbound) : Prop :=
  match frame with
  | Ping _ => True
  | Event ev => ∃ h1 e s h2, h = h1 ++ (e, s) :: h2 ∧ ev ∈ published (hub s) ∧ once h2 (visible (agent_id ev))
  | Snapshot evs => Forall (fun ev => once h (visible (agent_id ev))) evs
  end.
Definition dashboard_step (h : History) (e : Env E) (s s' : Fleet) : Prop :=
  written s' = written s ∨ ∃ frame, written s' = written s ++ [(auth, frame)] ∧ shown h frame.
Abbreviation Watching h m Q := (traced dashboard_step h m Q).
Lemma watching_refl h e s : dashboard_step h e s s.
Proof. by left. Qed.

Lemma agent_visible_spec a : FleetStreams.agent_visible auth a = true →
  revoked_at a = None ∧ (Auth.is_admin (Auth.role auth) = true ∨ owner_user_id a = Auth.user_id auth) ∧ allowed_server auth (id a) = true.
Proof.
  unfold FleetStreams.agent_visible. case_bool_decide as Hr; [done|]. rewrite <-eq_None_not_Some in Hr.
  destruct (Auth.is_admin (Auth.role auth)); cbn [negb andb]; [auto|]. destruct (Z.eqb_spec (owner_user_id a) (Auth.user_id auth)); cbn [negb]; [auto|done].
Qed.
Lemma row_id r a : sqlite_agent_row_to_agent r = Some a → uuid_parse (ag_id r) = Some (id a).
Proof.
  unfold sqlite_agent_row_to_agent. destruct (uuid_parse (ag_id r)); [|done]. cbn. intros Hr. repeat (apply bind_Some in Hr as (? & _ & Hr)). by injection Hr as <-.
Qed.

(** What a page of rows gives. *)
Definition seen_agents (h : History) (l : list Agent) : Prop :=
  Forall (fun a => once h (fun _ s => ∃ r, r ∈ agents s ∧ sqlite_agent_row_to_agent r = Some a)) l.
Lemma rows_seen h e s rows : (∀ r, r ∈ rows → r ∈ agents s) → seen_agents (h ++ [(e, s)]) (sqlite_agent_rows_to_agents rows).
Proof.
  intros Hr. apply Forall_forall. intros a (r & Hin & Ha)%list_elem_of_omap. apply once_here. exists r. auto.
Qed.
Lemma rows_with_state_seen h e s rows : (∀ r, r ∈ rows → r ∈ agents s) → seen_agents (h ++ [(e, s)]) (agent <$> agent_with_state_rows rows).
Proof.
  intros Hr. apply Forall_forall. intros a (w & -> & (r & Hin & Ha)%list_elem_of_omap)%list_elem_of_fmap. apply once_here. exists r. split; [auto|].
  unfold agent_with_state_row_to_agent in Ha. destruct (sqlite_agent_row_to_agent r) as [x|]; [|done]. cbn in Ha. by injection Ha as <-.
Qed.
Lemma listing_seen h Q :
  (∀ h' l, seen_agents (h ++ h') l → Q (h ++ h') (Ok l)) → (∀ h' x, Q (h ++ h') (Err x)) →
  Watching h (match Auth.server_ids auth with
    | Some server_ids =>
        let owner_filter := if negb (Auth.is_admin (Auth.role auth)) then Some (Auth.user_id auth) else None in
        rows ← list_with_state_by_server_ids (E := E) owner_filter server_ids i64_max 0; mret (agent <$> rows.1)
    | None =>
        if Auth.is_admin (Auth.role auth) then rows ← list_with_state i64_max 0; mret (agent <$> rows.1)
        else list_by_owner (Auth.user_id auth) i64_max 0
    end) Q.
Proof.
  intros Hok Herr.
  destruct (Auth.server_ids auth) as [ids|]; [|destruct (Auth.is_admin (Auth.role auth))].
  - apply traced_try. unfold list_with_state_by_server_ids. destruct (is_empty ids).
    { cbn. specialize (Hok [] []). rewrite app_nil_r in Hok. apply Hok. constructor. }
    apply traced_try, traced_select; [apply watching_refl| |done]. intros e s.
    apply traced_try, traced_select; [apply watching_refl| |intros h' x; rewrite <-app_assoc; apply Herr]. intros e' s'. cbn. rewrite <-app_assoc. apply Hok.
    rewrite app_assoc. apply rows_with_state_seen. by intros r [_ Hr]%page_elem%list_elem_of_filter.
  - apply traced_try. unfold list_with_state, count_total. apply traced_try, traced_select; [apply watching_refl| |done]. intros e s.
    apply traced_try, traced_select; [apply watching_refl| |intros h' x; rewrite <-app_assoc; apply Herr]. intros e' s'. cbn. rewrite <-app_assoc. apply Hok.
    rewrite app_assoc. apply rows_with_state_seen. by intros r Hr%page_elem.
  - unfold list_by_owner. apply traced_try, traced_select; [apply watching_refl| |done]. intros e s. cbn. apply Hok.
    apply rows_seen. by intros r [_ Hr]%page_elem%list_elem_of_filter.
Qed.

Lemma visible_ids_ok h Q :
  (∀ h' v, (∀ a, a ∈ v → once (h ++ h') (visible a)) → Q (h ++ h') (Ok v)) → (∀ h' x, Q (h ++ h') (Err x)) →
  Watching h (realtime_visible_agent_ids (E := E) auth) Q.
Proof.
  intros Hok Herr. unfold realtime_visible_agent_ids. apply traced_try. unfold repo. apply traced_map_err, listing_seen; [|done].
  intros h' l Hl. cbn. apply Hok. intros a (ag & -> & [[_ Hv] Hin]%list_elem_of_filter)%elem_of_list_to_set%list_elem_of_fmap.
  eapply Forall_forall in Hl as (e & s & He & r & Hr & Hrow); [|exact Hin]. exists e, s. split; [done|]. exists r, ag.
  apply agent_visible_spec in Hv as (Hn & Ho & Hs). split_and!; try done. left. by apply row_id.
Qed.

(** The check of a live event. *)
Lemma event_visible_ok {X} h v a (Q : History → result X (bool * gset Z) → Prop) :
  (∀ h' v', once h' (visible a) → Q (h ++ h') (Ok (true, v'))) → (∀ h' v', Q (h ++ h') (Ok (false, v'))) →
  Watching h (realtime_event_visible (E := E) auth v a) Q.
Proof.
  intros Hok Hno. unfold realtime_event_visible. destruct (allowed_server auth a); cbn [negb].
  2: { specialize (Hno [] (v ∖ {[a]})). rewrite app_nil_r in Hno. exact Hno. }
  apply traced_try, traced_bind, traced_find; [apply watching_refl| |intros h' x; apply Hno]. intros e s. cbn.
  destruct (row_of a s) as [r|] eqn:Er; cbn [mbind option_bind]; [|apply Hno]. apply row_of_elem in Er as [Hr Hid].
  destruct (sqlite_agent_row_to_agent r) as [ag|] eqn:Eag; [|apply Hno].
  case_bool_decide as Hrev.
  { intros e' s'. split; [by left|]. cbn. rewrite <-app_assoc. apply Hno. }
  destruct (FleetStreams.agent_visible auth ag) eqn:Ev; [|apply Hno]. apply Hok. apply (once_here []). exists r, ag.
  apply agent_visible_spec in Ev as (Hn & Ho & Hs). split_and!; try done. by right.
Qed.

Lemma send_ws_ok {X} h frame sent (Q : History → result X bool → Prop) :
  shown h frame → (∀ h' b, Q (h ++ h') (Ok b)) → Watching h (send_ws_outbound (E := E) auth frame sent) Q.
Proof.
  intros Hf HQ. unfold send_ws_outbound. destruct sent; [|specialize (HQ [] false); by rewrite app_nil_r in HQ].
  intros e s. split; [right; by exists frame|]. apply HQ.
Qed.

Lemma recv_next position h ev p : recv position h = (Next ev, p) → ev ∈ published h.
Proof. unfold recv. repeat case_match; intros [= <- <-]. by eapply list_elem_of_lookup_2. Qed.

Lemma send_loop_ok {X} h v p turns : Watching h (send_loop iter auth v p turns : P (Env E) Fleet X unit) (fun _ _ => True).
Proof.
  revert h v p. induction turns as [|[sent|sent] turns IH]; intros h v p; cbn [send_loop]; [done|..].
  - apply traced_try, traced_observe. intros e s. split; [apply watching_refl|]. apply traced_try, send_ws_ok; [done|]. intros h' [].
    + apply IH.
    + done.
  - apply traced_try. intros e s. split; [apply watching_refl|]. destruct (recv p (hub s)) as [[ev| |] p'] eqn:Er; cbn [fst snd]; [| |apply IH].
    + apply traced_try, event_visible_ok; cbn [fst snd negb]; [|intros h' v'; apply IH]. intros h' v' Hv. apply traced_try, send_ws_ok.
      * exists h, e, s, h'. split_and!; [by rewrite <-app_assoc|by eapply recv_next|done].
      * intros h2 []; [apply IH|done].
    + apply traced_bind, visible_ids_ok; [|done]. intros h' v' Hv. apply traced_try. intros e' s'. split; [apply watching_refl|].
      apply traced_try, send_ws_ok; [|intros h2 []; [apply IH|done]]. cbn. apply Forall_forall. intros ev [Hev _]%list_elem_of_filter.
      apply once_app, Hv, Hev.
Qed.

(** C9: what a dashboard's socket is sent. Nothing is written before the origin
    and the scope [server:read] were accepted. Every frame goes to the session of
    this socket, and names only Agents for which, earlier in this same
    connection, the database had a row that is not revoked, is in the allowlist
    of the session and belongs to its user, or the user is an administrator. For
    a live event that lookup was made after the event had been received. *)
Theorem dashboard_confined url_parse headers origins first turns h e s s' :
  makes (ws_servers (E := E) iter url_parse headers origins auth first turns) h e s s' →
  written s' = written s ∨
  ∃ frame, written s' = written s ++ [(auth, frame)] ∧ shown h frame ∧ Auth.has_scope auth (lit "server:read") = true ∧
    Security.validate_websocket_origin Auth.header_to_str url_parse headers origins = true.
Proof.
  unfold ws_servers. destruct (Security.validate_websocket_origin _ _ _ _) eqn:Eo; cbn [negb]; [|by inversion 1].
  destruct (Auth.has_scope auth (lit "server:read")) eqn:Es; cbn [negb]; [|by inversion 1]. intros Hs.
  assert (dashboard_step h e s s') as [Hw|(f & Hw & Hf)]; [|by left|right; by exists f].
  refine (traced_makes dashboard_step [] _ (fun _ _ => True) h e s s' _ Hs).
  apply traced_try, visible_ids_ok; [|done]. intros h1 v Hv. apply traced_try. unfold handle_socket.
  apply traced_try. intros e1 s1. split; [apply watching_refl|]. apply traced_try. intros e2 s2. split; [apply watching_refl|].
  apply traced_try, send_ws_ok.
  - cbn. apply Forall_forall. intros ev [Hev _]%list_elem_of_filter. do 2 apply once_app. by apply Hv.
  - intros h2 []; [|done]. eapply traced_mono, send_loop_ok. by intros h3 [[]|x].
Qed.
End dashboards.
End FleetStreamsProofs.
