(* ===== verification/FleetLife.v ===== *)
(** * FleetLife: from enrolment to revocation

    In every pool of handlers: a token enrols one Agent, while it is valid, for
    the user it names; every Agent came in with a token; and an Agent whose
    revocation or deletion was reported is locked out for good. *)

From S2P Require Import Prelude Text BTreeMap Json Externals Net Auth Security Rfc3339 Tables Sessions Users Accounts Registry IoStreams AgentTokens.
From S2P Require Import Interleave Realtime ServerMeta Telemetry Fleet FleetStreams ServerAdmin FleetPool FleetProofs.

Module FleetLife.
Import Interleave Fleet FleetStreams ServerAdmin FleetPool.

(** The years 1970 to 9999, with room for the life of a token. *)
Definition modern (t : Z) : Prop := 0 <= t < seconds 253402200000.
Lemma modern_era t : modern t → era t.
Proof. unfold modern, era, seconds. lia. Qed.
Lemma modern_later t n : modern t → 0 <= n <= 24 → era (t + hours n).
Proof. unfold modern, era, hours, seconds. lia. Qed.

Section life.
Context {E : Type} `{UuidLib, Rfc3339, JulianDay, Auth.Crypto, AgentTokens.JwtLib, ServerMeta.MetaLib}.
(** [julianday] keeps the order of times. *)
Hypothesis julianday_monotone : ∀ t u, era t → era u → t <= u → julianday (to_rfc3339 t) <= julianday (to_rfc3339 u).

Lemma uuid_inj a b : uuid_ok a → uuid_ok b → uuid_to_string a = uuid_to_string b → a = b.
Proof. intros Ha%uuid_roundtrip Hb%uuid_roundtrip Hab. rewrite Hab in Ha. congruence. Qed.

(** ** The invariant *)

Record wf (s : Fleet) : Prop := {
  wf_rows : ∀ r, r ∈ agents s → ∃ a, a ∈ created s ∧ ag_id r = uuid_to_string a;
  wf_drawn : Forall uuid_ok (drawn s);
  wf_created : ∀ a, a ∈ created s → a ∈ (er_agent <$> enrolled s);
  wf_enrolled_drawn : ∀ a, a ∈ (er_agent <$> enrolled s) → a ∈ drawn s;
  wf_issued_drawn : ∀ i, i ∈ issued s → ∃ a, a ∈ drawn s ∧ is_token i = uuid_to_string a;
  wf_agents_once : NoDup (er_agent <$> enrolled s);
  wf_tokens_once : NoDup (er_token <$> enrolled s);
  wf_hashes : NoDup (en_token_hash <$> tokens s);
  wf_ids : NoDup (en_id <$> tokens s);
  wf_tokens : ∀ t, t ∈ tokens s → (en_used_at t = None → en_id t ∉ (er_token <$> enrolled s)) ∧
    ∃ i, i ∈ issued s ∧ is_token i = en_id t ∧ is_by i = en_created_by_user_id t ∧ en_expires_at t = to_rfc3339 (is_expires i) ∧ era (is_expires i);
  wf_enrolled : ∀ x, x ∈ enrolled s → ∃ i, i ∈ issued s ∧ is_token i = er_token x ∧ er_at x < is_expires i;
  wf_issued_once : NoDup (is_token <$> issued s);
  wf_used : ∀ t w, t ∈ tokens s → en_used_by_agent_id t = Some w → ∃ x, x ∈ enrolled s ∧ er_token x = en_id t ∧ w = uuid_to_string (er_agent x);
}.

(** The enrolment for which an Agent was drawn used a token that was issued, before
    it expired, and the token names the user. *)
Definition enrolled_for (a user : Z) (s : Fleet) : Prop := ∃ x i,
  x ∈ enrolled s ∧ er_agent x = a ∧ i ∈ issued s ∧ is_token i = er_token x ∧ er_at x < is_expires i ∧ uuid_parse (is_by i) = Some user.
(** How the row of an Agent comes in. *)
Definition came_in (r : AgentRow) (s : Fleet) : Prop := ∃ a user,
  ag_id r = uuid_to_string a ∧ enrolled_for a user s ∧ ag_owner_user_id r = uuid_to_string user.
Lemma issued_unique s i j : wf s → i ∈ issued s → j ∈ issued s → is_token i = is_token j → i = j.
Proof.
  intros Hw [m Hm]%list_elem_of_lookup [n Hn]%list_elem_of_lookup Hij. assert (m = n) as ->; [|congruence].
  eapply NoDup_lookup; [apply (wf_issued_once s Hw)|..]; rewrite list_lookup_fmap; [by rewrite Hm|by rewrite Hn; cbn; rewrite Hij].
Qed.

(** How far an Agent is locked out: its row, then each registry. *)
Definition locked_out (a : Z) (k : nat) (s : Fleet) : Prop :=
  (a ∈ created s ∧ ∀ r, r ∈ agents s → ag_id r = uuid_to_string a → is_Some (ag_revoked_at r)) ∧
  ((1 <= k)%nat → a ∈ Registry.revoked (sessions s)) ∧ ((2 <= k)%nat → Registry.senders (sessions s) !! a = None) ∧
  ((3 <= k)%nat → a ∈ IoStreams.revoked_agents (io s)) ∧ ((4 <= k)%nat → IoStreams.agent_streams (io s) !! a = None).

(** A program may own an identifier it drew, before or after the enrolment it was
    drawn for, and then know the user the token names; and it may know of Agents
    locked out. *)
Inductive Stage : Type := Fresh | Used | For (user : Z).
Record Perm := { own : option (Z * Stage); facts : list (Z * nat) }.
Definition idle : Perm := {| own := None; facts := [] |}.
Definition own_id (π : Perm) : option Z := fst <$> own π.
Definition owns (o : option (Z * Stage)) (s : Fleet) : Prop :=
  match o with
  | None => True
  | Some (a, Fresh) => a ∈ drawn s ∧ a ∉ created s ∧ a ∉ (er_agent <$> enrolled s) ∧ uuid_to_string a ∉ (is_token <$> issued s)
  | Some (a, Used) => a ∈ (er_agent <$> enrolled s) ∧ a ∉ created s
  | Some (a, For user) => (a ∈ (er_agent <$> enrolled s) ∧ a ∉ created s) ∧ enrolled_for a user s
  end.
Definition holds (π : Perm) (s : Fleet) : Prop := owns (own π) s ∧ Forall (fun f => locked_out f.1 f.2 s) (facts π).
Definition knows (π : Perm) (s : Fleet) : Prop := wf s ∧ holds π s.

(** A fresh identifier, and a clock in the years above. *)
Definition admits (e : Env E) (s : Fleet) : Prop := modern (utc e) ∧ uuid_ok (uuid e) ∧ uuid e ∉ drawn s.

Definition act (π : Perm) (e : Env E) (s s' : Fleet) (π' : Perm) : Prop :=
  wf s' ∧ holds π' s' ∧ (∀ ρ, holds ρ s → own_id ρ = None ∨ own_id ρ ≠ own_id π → holds ρ s') ∧
  match own_id π' with None => True | Some a => own_id π = Some a ∨ a ∉ drawn s end ∧
  (∀ r, r ∈ agents s' → ag_id r ∉ ag_id <$> agents s → came_in r s').

Definition Inv (s : Fleet) (πs : list Perm) : Prop :=
  wf s ∧ (∀ i π, πs !! i = Some π → holds π s) ∧
  ∀ i j π ρ a, πs !! i = Some π → πs !! j = Some ρ → own_id π = Some a → own_id ρ = Some a → i = j.

Lemma own_drawn π s a : wf s → holds π s → own_id π = Some a → a ∈ drawn s.
Proof.
  intros Hw [Ho _] Ha. unfold own_id in Ha. destruct (own π) as [[b []]|]; cbn in *; simplify_eq; [by destruct Ho|..].
  - destruct Ho as [Ho _]. by apply (wf_enrolled_drawn s Hw).
  - destruct Ho as [[Ho _] _]. by apply (wf_enrolled_drawn s Hw).
Qed.

Lemma life_act e s s' πs i π π' : Inv s πs → admits e s → πs !! i = Some π → act π e s s' π' → Inv s' (<[i := π']> πs).
Proof.
  intros (Hw & Hh & Hx) _ Hi (Hw' & Hh' & Hst & Hown & _). pose proof (lookup_lt_Some _ _ _ Hi) as Hlt. split; [done|]. split.
  - intros j ρ Hj. destruct (decide (i = j)) as [<-|Hne]; [rewrite list_lookup_insert_eq in Hj by done; by simplify_eq|].
    rewrite list_lookup_insert_ne in Hj by done. apply Hst; [by eapply Hh|].
    destruct (own_id ρ) as [a|] eqn:Ea; [right|by left]. intros Eb. by apply Hne, (Hx i j π ρ a).
  - assert (∀ j ρ a, πs !! j = Some ρ → i ≠ j → own_id ρ = Some a → own_id π' = Some a → False) as Hother.
    { intros j ρ a Hj Hne Ha Ha'. rewrite Ha' in Hown. destruct Hown as [Hown|Hown]; [by apply Hne, (Hx i j π ρ a)|].
      apply Hown. by apply (own_drawn ρ); [..|eapply Hh|]. }
    intros j k ρ1 ρ2 a Hj Hk H1' H2'.
    destruct (decide (i = j)) as [<-|Hj']; [rewrite list_lookup_insert_eq in Hj by done|rewrite list_lookup_insert_ne in Hj by done];
    (destruct (decide (i = k)) as [<-|Hk']; [rewrite list_lookup_insert_eq in Hk by done|rewrite list_lookup_insert_ne in Hk by done]); simplify_eq; try done.
    + exfalso. by eapply Hother.
    + exfalso. by eapply Hother.
    + by eapply Hx.
Qed.
Lemma life_spawn s πs : Inv s πs → Inv s (πs ++ [idle]).
Proof.
  intros (Hw & Hh & Hx). split; [done|]. split.
  - intros i π [Hi|[_ Hi]]%lookup_app_Some; [by eapply Hh|]. apply list_lookup_singleton_Some in Hi as [_ <-]. by split; [|constructor].
  - intros i j π ρ a [Hi|[_ Hi]]%lookup_app_Some [Hj|[_ Hj]]%lookup_app_Some Ha Hb; [by eapply Hx|..].
    all: repeat match goal with Hs : [idle] !! _ = Some _ |- _ => apply list_lookup_singleton_Some in Hs as [_ <-] end; done.
Qed.

(** ** Tame steps *)

Record tame (e : Env E) (s s' : Fleet) : Prop := {
  tm_agents : ∀ r', r' ∈ agents s' → ∃ r, r ∈ agents s ∧ ag_id r' = ag_id r ∧ (is_Some (ag_revoked_at r) → is_Some (ag_revoked_at r'));
  tm_tokens : tokens s' `sublist_of` tokens s;
  tm_history : created s' = created s ∧ issued s' = issued s ∧ enrolled s' = enrolled s;
  tm_drawn : drawn s' = drawn s ∨ drawn s' = uuid e :: drawn s;
  tm_sessions : sessions_forward (sessions s) (sessions s');
  tm_io : io_forward (io s) (io s');
}.

Lemma change_tame e s s' : change e s s' → tame e s s'.
Proof.
  intros Hc. constructor.
  - intros r' Hr'. destruct (FleetProofs.change_agents _ _ _ _ Hc Hr') as (r & Hr & Hi & _ & _ & Hrev). by exists r.
  - destruct Hc; cbn; try done. apply sublist_filter.
  - by destruct Hc.
  - destruct Hc; cbn; auto.
  - by destruct Hc.
  - by destruct Hc.
Qed.
Lemma transaction_rest e i a f t auth now s s' : owner_transaction (E := E) e i a f t auth now s = (Ok (), s') →
  tokens s' = tokens s ∧ created s' = created s ∧ issued s' = issued s ∧ enrolled s' = enrolled s ∧ drawn s' = drawn s ∧
  sessions s' = sessions s ∧ io s' = io s.
Proof.
  unfold owner_transaction, rewrite_transfers, insert_transfer. do 3 (case_match; [done|]). repeat case_match; intros [= <-]; simplify_eq; done.
Qed.
Lemma moves_tame auth e s s' : moves auth e s s' → tame e s s'.
Proof.
  intros [Hc|(i & a & f & t & now & Ho)]; [by apply change_tame|]. pose proof (FleetProofs.owner_transaction_shape _ _ _ _ _ _ _ _ _ Ho) as (Ha & _).
  pose proof (transaction_rest _ _ _ _ _ _ _ _ _ Ho) as (E1 & E2 & E3 & E4 & E5 & E6 & E7).
  constructor; rewrite ?E1, ?E5, ?E6, ?E7; [|done|done|by left|done|done]. rewrite Ha. intros r' (r & -> & Hr)%list_elem_of_fmap. exists r. split; [done|]. by case_match.
Qed.

Lemma locked_out_mono a k k' s : (k' <= k)%nat → locked_out a k s → locked_out a k' s.
Proof. intros Hk (H0' & H1' & H2' & H3' & H4'). split_and!; [apply H0'..|intros; apply H1'; lia|intros; apply H2'; lia|intros; apply H3'; lia|intros; apply H4'; lia]. Qed.

Lemma tame_locked_out e s s' a k : tame e s s' → locked_out a k s → locked_out a k s'.
Proof.
  intros [Ha _ (Hc & _) _ [Hs1 Hs2] [Hi1 Hi2]] ([L0 L1] & L2 & L3 & L4 & L5). split_and!.
  - by rewrite Hc.
  - intros r' Hr' Hid. destruct (Ha r' Hr') as (r & Hr & Hi & Hrev). apply Hrev, L1; congruence.
  - intros Hk. by apply Hs1, L2.
  - intros Hk. apply Hs2; [apply L2; lia|by apply L3].
  - intros Hk. by apply Hi1, L4.
  - intros Hk. apply Hi2; [apply L4; lia|by apply L5].
Qed.
Lemma tame_owns e s s' o : tame e s s' → owns o s → owns o s'.
Proof.
  intros [_ _ (Hc & Hi & He) Hd _ _]. destruct o as [[a []]|]; cbn; unfold enrolled_for; rewrite ?Hc, ?Hi, ?He; [|done..].
  intros (Ha & Hrest). split; [|done]. destruct Hd as [->| ->]; [done|by right].
Qed.
Lemma tame_holds e s s' π : tame e s s' → holds π s → holds π s'.
Proof.
  intros Ht [Ho Hf]. split; [by eapply tame_owns|]. eapply Forall_impl; [exact Hf|]. intros f. by apply (tame_locked_out e s).
Qed.
Lemma tame_wf e s s' : admits e s → tame e s s' → wf s → wf s'.
Proof.
  intros (_ & Hok & _) [Ha Ht (Hc & Hi & He) Hd _ _] [W1 W2 W3 W4 W5 W6 W7 W8 W9 W10 W11 W12 W13].
  assert (∀ a, a ∈ drawn s → a ∈ drawn s') as Hsub by (destruct Hd as [->| ->]; [done|by right]).
  constructor; rewrite ?Hc, ?Hi, ?He; try done.
  - intros r' Hr'. destruct (Ha r' Hr') as (r & Hr & Hid & _). destruct (W1 r Hr) as (a & Hin & Hra). exists a. split; [done|congruence].
  - destruct Hd as [->| ->]; [done|by constructor].
  - intros a Hin. by apply Hsub, W4.
  - intros i Hin. destruct (W5 i Hin) as (a & Hd' & Hi'). exists a. auto.
  - eapply sublist_NoDup; [exact W8|]. by apply fmap_sublist.
  - eapply sublist_NoDup; [exact W9|]. by apply fmap_sublist.
  - intros t Hin. apply W10. by eapply sublist_subseteq.
  - intros t w Hin. apply W13. by eapply sublist_subseteq.
Qed.
Lemma same_newcomers s s' : agents s' = agents s → ∀ r, r ∈ agents s' → ag_id r ∉ ag_id <$> agents s → came_in r s'.
Proof. intros -> r Hr Hn. exfalso. by apply Hn, list_elem_of_fmap_2. Qed.
Lemma tame_newcomers e s s' : tame e s s' → ∀ r, r ∈ agents s' → ag_id r ∉ ag_id <$> agents s → came_in r s'.
Proof. intros Ht r' Hr' Hn. destruct (tm_agents _ _ _ Ht r' Hr') as (r & Hr & Hid & _). exfalso. apply Hn. rewrite Hid. by apply list_elem_of_fmap_2. Qed.
Lemma tame_act e s s' π : admits e s → knows π s → tame e s s' → act π e s s' π.
Proof.
  intros He [Hw Hh] Ht. split_and!; [by eapply tame_wf|by eapply tame_holds|intros ρ Hρ _; by eapply tame_holds| |by eapply tame_newcomers].
  destruct (own_id π); auto.
Qed.
(** ... after which the program knows more, or gives up what it owns. *)
Lemma tame_act_more e s s' π a k : admits e s → knows π s → tame e s s' → locked_out a k s' →
  act π e s s' {| own := own π; facts := (a, k) :: facts π |}.
Proof.
  intros He Hk Ht Hl. destruct (tame_act e s s' π He Hk Ht) as (Hw & [Ho Hf] & Hst & Hown & Hnew). split_and!; try done.
  split; [done|]. by constructor.
Qed.
Lemma tame_act_drop e s s' π : admits e s → knows π s → tame e s s' → act π e s s' {| own := None; facts := facts π |}.
Proof.
  intros He Hk Ht. destruct (tame_act e s s' π He Hk Ht) as (Hw & [Ho Hf] & Hst & _ & Hnew). split_and!; try done.
Qed.

Abbreviation WP π m Q := (wp admits knows act π m Q).

Lemma tame_refl e s : tame e s s.
Proof. constructor; try done; [|by left]. intros r Hr. by exists r. Qed.
Lemma wp_observe {X A} π (f : Env E → A) (Q : result X A → Perm → Prop) :
  (∀ e, modern (utc e) → Q (Ok (f e)) π) → WP π (observe f : P (Env E) Fleet X A) Q.
Proof. intros HQ e s He Hk. exists π. split; [by apply tame_act, tame_refl|]. apply HQ, He. Qed.
Lemma wp_calm {A} π (m : Proc (Env E) Fleet A) : always (@change E) m → WP π m (fun _ π' => π' = π).
Proof. apply wp_always. intros e s s' He Hk Hc. by apply tame_act, change_tame. Qed.
Lemma wp_moving {A} π auth (m : Proc (Env E) Fleet A) : always (moves (E := E) auth) m → WP π m (fun _ π' => π' = π).
Proof. apply wp_always. intros e s s' He Hk Hc. by eapply tame_act, moves_tame. Qed.
Lemma wp_then {X A B} π (m : P (Env E) Fleet X A) (k : A → P (Env E) Fleet X B) Q :
  always (@change E) m → (∀ a, WP π (k a) Q) → (∀ x, Q (Err x) π) → WP π (m ≫= k) Q.
Proof. intros Hm Hk Hx. apply wp_try. eapply wp_mono, wp_calm, Hm. by intros [a|x] ? ->. Qed.

Lemma wp_ret {A} π (r : A) (Q : A → Perm → Prop) : Q r π → WP π (Ret r) Q.
Proof. done. Qed.
(** A statement that fails changes nothing. *)
Lemma wp_sql {A} π (f : Env E → Fleet → result Tables.Why A * Fleet) Q :
  (∀ e s, admits e s → knows π s →
     match f e s with
     | (Ok a, s') => ∃ π', act π e s s' π' ∧ Q (Ok a) π'
     | (Err w, _) => Q (Err (Tables.Bail w)) π
     end) → (∀ x, Q (Err (Tables.Sqlx x)) π) → WP π (sql f) Q.
Proof.
  intros Hf Hx e s He Hk. specialize (Hf e s He Hk). cbn. destruct (fault e).
  - exists π. split; [by apply tame_act, tame_refl|apply Hx].
  - destruct (f e s) as [[a|w] s']; [done|]. exists π. split; [by apply tame_act, tame_refl|done].
Qed.
Lemma wp_repo {A} π (m : P (Env E) Fleet (Tables.Anyhow E) A) (Q : result (Accounts.AppError E) A → Perm → Prop) :
  WP π m (fun r π' => Q (match r with Ok a => Ok a | Err x => Err (Accounts.Database x) end) π') → WP π (repo m) Q.
Proof. intros Hm. by apply wp_bind. Qed.

(** ** Identifiers *)

Lemma wp_draw {X} π (Q : result X Z → Perm → Prop) :
  own π = None → (∀ a, uuid_ok a → Q (Ok a) {| own := Some (a, Fresh); facts := facts π |}) → WP π (draw (E := E)) Q.
Proof.
  intros Hown HQ e s He [Hw Hh]. pose proof He as (_ & Hok & Hnew). eexists. split; [|by apply HQ].
  assert (tame e s (set_drawn (uuid e :: drawn s) s)) as Ht by (apply change_tame, change_drawn).
  split_and!; [by eapply tame_wf| |intros ρ Hρ _; by eapply tame_holds|by right|by eapply tame_newcomers].
  split; [|eapply Forall_impl; [apply Hh|]; intros f; by apply (tame_locked_out e s)]. cbn. split_and!.
  - by left.
  - intros Hc. by apply Hnew, (wf_enrolled_drawn s Hw), (wf_created s Hw).
  - intros Hc. by apply Hnew, (wf_enrolled_drawn s Hw).
  - intros (i & Hi & Hin)%list_elem_of_fmap. destruct (wf_issued_drawn s Hw i Hin) as (a & Ha & Hia).
    assert (uuid e = a) as <-; [|done]. apply uuid_inj; [done| |congruence]. pose proof (wf_drawn s Hw) as Hd. by eapply Forall_forall in Hd.
Qed.

(** What the invariant says of the rest of a state, when only history changes. *)
Lemma locked_out_same a k s s' :
  (∀ b, b ∈ created s → b ∈ created s') → agents s' = agents s → sessions s' = sessions s → io s' = io s → locked_out a k s → locked_out a k s'.
Proof. intros Hc Ha Hs Hi ([L0 L1] & L2). unfold locked_out. rewrite Ha, Hs, Hi. split; [|done]. split; [by apply Hc|done]. Qed.

(** ** Issuing a token *)

Lemma enrolled_for_grows a user s s' :
  (∀ x, x ∈ enrolled s → x ∈ enrolled s') → (∀ i, i ∈ issued s → i ∈ issued s') → enrolled_for a user s → enrolled_for a user s'.
Proof. intros Hx Hi (x & i & ? & ? & ? & ?). exists x, i. split_and!; try tauto; auto. Qed.

Lemma issue_act π e s a row i :
  own π = Some (a, Fresh) → knows π s → en_id row = uuid_to_string a → en_used_at row = None → en_used_by_agent_id row = None →
  en_token_hash row ∉ (en_token_hash <$> tokens s) → en_id row ∉ (en_id <$> tokens s) →
  is_token i = en_id row → is_by i = en_created_by_user_id row → en_expires_at row = to_rfc3339 (is_expires i) → era (is_expires i) →
  act π e s (issue i (set_tokens (tokens s ++ [row]) s)) {| own := None; facts := facts π |}.
Proof.
  intros Hown [Hw [Ho Hf]] Hid Hu Hub Hh Hi Hit Hib Hie Hera. rewrite Hown in Ho. destruct Ho as (Hd & Hc & Hen & Hiss). destruct Hw as [W1 W2 W3 W4 W5 W6 W7 W8 W9 W10 W11 W12 W13].
  assert (∀ b k, locked_out b k s → locked_out b k (issue i (set_tokens (tokens s ++ [row]) s))) as Hl by (intros b k; by apply locked_out_same).
  split_and!; [constructor; cbn; try done| | |done|by apply same_newcomers].
  - intros j [Hj|Hj%list_elem_of_singleton]%elem_of_app; [by apply W5|]. subst j. exists a. by rewrite Hit.
  - rewrite fmap_app. apply NoDup_app. split_and!; [done| |apply NoDup_singleton]. intros x Hx Hin%list_elem_of_singleton. by subst.
  - rewrite fmap_app. apply NoDup_app. split_and!; [done| |apply NoDup_singleton]. intros x Hx Hin%list_elem_of_singleton. by subst.
  - intros t [Ht|Ht%list_elem_of_singleton]%elem_of_app.
    + destruct (W10 t Ht) as (Hn & j & Hj & Hrest). split; [done|]. exists j. split; [apply elem_of_app; by left|done].
    + subst t. split; [|exists i; split_and!; try done; apply elem_of_app; right; by left].
      intros _ (x & Hx & Hin)%list_elem_of_fmap. destruct (W11 x Hin) as (j & Hj & Hjt & _). apply Hiss, list_elem_of_fmap. exists j. split; [congruence|done].
  - intros x Hx. destruct (W11 x Hx) as (j & Hj & Hrest). exists j. split; [apply elem_of_app; by left|done].
  - rewrite fmap_app. apply NoDup_app. split_and!; [done| |apply NoDup_singleton]. intros x Hx Hin%list_elem_of_singleton. subst x.
    apply Hiss. congruence.
  - intros t w [Ht|Ht%list_elem_of_singleton]%elem_of_app; [by apply W13|]. subst t. congruence.
  - split; [done|]. eapply Forall_impl; [exact Hf|]. auto.
  - intros ρ [Ho' Hf'] Hne. split; [|eapply Forall_impl; [exact Hf'|]; auto]. unfold own_id in Hne. destruct (own ρ) as [[b []]|]; cbn in *; try done.
    2: { destruct Ho' as [Hb Hfor]. split; [done|]. eapply enrolled_for_grows, Hfor; [done|]. intros j Hj. apply elem_of_app. by left. }
    destruct Ho' as (Hd' & Hc' & Hen' & Hiss'). split_and!; try done. rewrite fmap_app. intros [Hin|Hin%list_elem_of_singleton]%elem_of_app; [done|].
    rewrite Hit, Hid in Hin. rewrite Hown in Hne. destruct Hne as [|Hne]; [done|]. apply Hne. cbn. f_equal.
    apply uuid_inj; [..|done]; eapply Forall_forall in W2; eauto.
Qed.

Lemma wp_create_token π by_ expires hash (Q : result (Tables.Anyhow E) EnrollmentToken → Perm → Prop) :
  own π = None → era expires → (∀ r π', Q r π') → WP π (create_token by_ expires hash) Q.
Proof.
  intros Hown Hera HQ. unfold create_token. apply wp_try, wp_draw; [done|]. intros a _. apply wp_try, wp_observe. intros e1 _.
  apply wp_try, wp_sql; [|intros x; apply HQ]. intros e s He Hk. unfold insert_token.
  destruct (bool_decide _ || _) eqn:Eb; [apply HQ|]. apply orb_false_iff in Eb as [Eb _]. apply bool_decide_eq_false in Eb.
  eexists. split; [|apply HQ]. eapply (issue_act _ e s a); cbn; try done; tauto.
Qed.

(** ** Using a token *)

Lemma one_hit s hash now : wf s → filter (fun t => usable hash now t = true) (tokens s) = [] ∨
  ∃ t, filter (fun t => usable hash now t = true) (tokens s) = [t] ∧ t ∈ tokens s ∧ usable hash now t = true.
Proof.
  intros Hw. destruct (filter _ (tokens s)) as [|t l] eqn:Ef; [by left|]. right.
  assert (∀ x, x ∈ t :: l → x ∈ tokens s ∧ usable hash now x = true) as Hin.
  { intros x Hx. rewrite <-Ef in Hx. apply list_elem_of_filter in Hx. tauto. }
  destruct l as [|u l]; [exists t; split; [done|]; apply Hin; by left|]. exfalso.
  assert (NoDup (en_token_hash <$> t :: u :: l)) as Hnd.
  { rewrite <-Ef. eapply sublist_NoDup; [apply (wf_hashes s Hw)|]. apply fmap_sublist, sublist_filter. }
  assert (∀ x, x ∈ t :: u :: l → en_token_hash x = hash) as Hh.
  { intros x [_ Hx]%Hin. unfold usable in Hx. apply andb_true_iff in Hx as [[Hx _]%andb_true_iff _]. by apply bool_decide_eq_true in Hx. }
  cbn in Hnd. apply NoDup_cons in Hnd as [Hnd _]. rewrite (Hh t), (Hh u) in Hnd by set_solver. apply Hnd. by left.
Qed.

Lemma usable_unique s hash now t u :
  NoDup (en_token_hash <$> tokens s) → t ∈ tokens s → u ∈ tokens s → usable hash now t = true → usable hash now u = true → t = u.
Proof.
  intros Hn [i Hi]%list_elem_of_lookup [j Hj]%list_elem_of_lookup Ht Hu. assert (i = j) as ->; [|congruence].
  assert (∀ x, usable hash now x = true → en_token_hash x = hash) as Hh.
  { intros x Hx. unfold usable in Hx. bool_prop. done. }
  eapply NoDup_lookup; [exact Hn|..]; rewrite list_lookup_fmap; [by rewrite Hi|by rewrite Hj; cbn; rewrite (Hh t), (Hh u)].
Qed.

(** The rows after the statement. *)
Definition after_use (hash now who : rstr) (s : Fleet) : list EnrollmentTokenRow :=
  (fun t => if usable hash now t then with_used now who t else t) <$> tokens s.
Lemma after_use_same {A} (f : EnrollmentTokenRow → A) hash now who s :
  (∀ t, f (with_used now who t) = f t) → f <$> after_use hash now who s = f <$> tokens s.
Proof.
  intros Hf. unfold after_use. rewrite <-list_fmap_compose. apply list_fmap_ext. intros i t _. cbn. case_match; [apply Hf|done].
Qed.
Lemma after_use_none hash now who s : filter (fun t => usable hash now t = true) (tokens s) = [] → after_use hash now who s = tokens s.
Proof.
  intros Hn. unfold after_use. rewrite <-(list_fmap_id (tokens s)) at 2. apply list_fmap_ext. intros i t Hi. cbn.
  destruct (usable hash now t) eqn:Eu; [|done]. exfalso. assert (t ∈ ([] : list EnrollmentTokenRow)) as Hin; [|by apply elem_of_nil in Hin].
  rewrite <-Hn. apply list_elem_of_filter. split; [done|]. by eapply list_elem_of_lookup_2.
Qed.

Lemma use_act π e s a hash now t :
  own π = Some (a, Fresh) → modern now → knows π s → t ∈ tokens s → usable hash (to_rfc3339 now) t = true →
  act π e s
    (set_enrolled (enrolled s ++ [{| er_token := en_id t; er_agent := a; er_at := now |}])
      (set_tokens (after_use hash (to_rfc3339 now) (uuid_to_string a) s) s))
    {| own := Some (a, Used); facts := facts π |}.
Proof.
  intros Hown Hnow [Hw [Ho Hf]] Ht Hu. rewrite Hown in Ho. destruct Ho as (Hd & Hc & Hen & Hiss).
  pose proof Hu as Hu'. unfold usable in Hu'. apply andb_true_iff in Hu' as [[_ Hnone%bool_decide_eq_true]%andb_true_iff Hlt%Z.ltb_lt].
  destruct (wf_tokens s Hw t Ht) as (Hnew & i & Hi & Hit & Hib & Hie & Hera). specialize (Hnew Hnone).
  pose proof (after_use_same en_token_hash hash (to_rfc3339 now) (uuid_to_string a) s (fun _ => eq_refl)) as Hhash.
  pose proof (after_use_same en_id hash (to_rfc3339 now) (uuid_to_string a) s (fun _ => eq_refl)) as Hid.
  destruct Hw as [W1 W2 W3 W4 W5 W6 W7 W8 W9 W10 W11 W12 W13].
  assert (∀ f s', agents s' = agents s → created s' = created s → sessions s' = sessions s → io s' = io s → locked_out f.1 f.2 s → locked_out f.1 f.2 s') as Hl.
  { intros [b k] s' E1 E2 E3 E4. apply locked_out_same; [by rewrite E2|done..]. }
  split_and!; [constructor; cbn; rewrite ?fmap_app, ?Hhash, ?Hid; try done| | |left; unfold own_id; by rewrite Hown|by apply same_newcomers].
  - intros b Hb. apply elem_of_app. left. by apply W3.
  - intros b [Hb|Hb%list_elem_of_singleton]%elem_of_app; [by apply W4|]. cbn in Hb. by subst b.
  - apply NoDup_app. split_and!; [done| |apply NoDup_singleton]. intros x Hx Hin%list_elem_of_singleton. cbn in Hin. by subst x.
  - apply NoDup_app. split_and!; [done| |apply NoDup_singleton]. intros x Hx Hin%list_elem_of_singleton. cbn in Hin. by subst x.
  - intros t' (t0 & -> & Ht0)%list_elem_of_fmap. destruct (W10 t0 Ht0) as (Hn0 & Hi0). destruct (usable hash (to_rfc3339 now) t0) eqn:Eu0; [by split|].
    split; [|done]. intros Hn [Hin|Hin%list_elem_of_singleton]%elem_of_app; [by apply Hn0|]. cbn in Hin.
    assert (t0 = t) as ->; [|congruence]. apply list_elem_of_lookup in Ht as [j Hj]. apply list_elem_of_lookup in Ht0 as [j0 Hj0].
    assert (j0 = j) as ->; [|congruence]. eapply NoDup_lookup; [exact W9|..]; rewrite list_lookup_fmap; [by rewrite Hj0|by rewrite Hj; cbn; rewrite Hin].
  - intros x [Hx|Hx%list_elem_of_singleton]%elem_of_app; [by apply W11|]. subst x. cbn. exists i. split_and!; try done.
    destruct (Z.lt_ge_cases now (is_expires i)) as [|Hge]; [done|]. exfalso.
    pose proof (julianday_monotone _ _ Hera (modern_era _ Hnow) Hge) as Hm. rewrite Hie in Hlt. lia.
  - intros t' w (t0 & -> & Ht0)%list_elem_of_fmap Hw. destruct (usable hash (to_rfc3339 now) t0) eqn:Eu0.
    + cbn in Hw. injection Hw as <-. eexists. split; [apply elem_of_app; right; by left|]. cbn. split; [|done].
      assert (t0 = t) as ->; [|done]. by eapply usable_unique.
    + destruct (W13 t0 w Ht0 Hw) as (x & Hx & Hrest). exists x. split; [apply elem_of_app; by left|done].
  - split; [cbn; split; [rewrite fmap_app; apply elem_of_app; right; by left|done]|]. eapply Forall_impl; [exact Hf|]. intros f. by apply Hl.
  - intros ρ [Ho' Hf'] Hne. split; [|eapply Forall_impl; [exact Hf'|]; intros f; by apply Hl]. unfold own_id in Hne.
    destruct (own ρ) as [[b []]|]; cbn in *; try done; rewrite fmap_app.
    + destruct Ho' as (Hd' & Hc' & Hen' & Hiss'). split_and!; try done. intros [Hin|Hin%list_elem_of_singleton]%elem_of_app; [done|]. cbn in Hin. subst b.
      rewrite Hown in Hne. destruct Hne as [|Hne]; done.
    + destruct Ho' as [Hb Hcb]. split; [apply elem_of_app; by left|done].
    + destruct Ho' as [[Hb Hcb] Hfor]. split; [split; [apply elem_of_app; by left|done]|].
      eapply enrolled_for_grows, Hfor; [|done]. intros x Hx. apply elem_of_app. by left.
Qed.

(** The row of the token that was used tells whom it names. *)
Lemma read_act π e s a row user :
  own π = Some (a, Used) → knows π s → uuid_ok a → row ∈ tokens s → en_used_by_agent_id row = Some (uuid_to_string a) →
  uuid_parse (en_created_by_user_id row) = Some user → act π e s s {| own := Some (a, For user); facts := facts π |}.
Proof.
  intros Hown [Hw [Ho Hf]] Ha Hrow Hby Huser. rewrite Hown in Ho. split_and!; [done| |intros ρ Hρ _; done| |by apply same_newcomers].
  - split; [|done]. split; [done|]. destruct (wf_used s Hw row _ Hrow Hby) as (x & Hx & Hxt & Hxa).
    destruct (wf_tokens s Hw row Hrow) as (_ & i & Hi & Hit & Hib & _). destruct (wf_enrolled s Hw x Hx) as (j & Hj & Hjt & Hlt).
    assert (i = j) as <- by (eapply issued_unique; [done..|congruence]).
    assert (er_agent x = a) as Hxa'.
    { pose proof (wf_drawn s Hw) as Wd. apply uuid_inj; [|done|congruence]. eapply Forall_forall in Wd; [exact Wd|].
      apply (wf_enrolled_drawn s Hw). by apply list_elem_of_fmap_2. }
    exists x, i. split_and!; congruence.
  - left. unfold own_id. by rewrite Hown.
Qed.

Lemma wp_find_and_use π a hash (Q : result (Tables.Anyhow E) (option EnrollmentToken) → Perm → Prop) :
  own π = Some (a, Fresh) → uuid_ok a → (∀ t, Q (Ok (Some t)) {| own := Some (a, For (t_created_by_user_id t)); facts := facts π |}) →
  (∀ x π', Q (Err x) π') → (∀ π', Q (Ok None) π') → WP π (find_and_use hash a) Q.
Proof.
  intros Hown Hok Hfound Herr Hno. unfold find_and_use. destruct (is_empty (trim hash)); [apply Hno|]. apply wp_try, wp_observe. intros e0 Hnow.
  apply wp_try, wp_sql; [|intros x; apply Herr]. intros e s He Hk. fold (after_use hash (to_rfc3339 (utc e0)) (uuid_to_string a) s).
  destruct (one_hit s hash (to_rfc3339 (utc e0)) (proj1 Hk)) as [Hn|(t & Hn & Ht & Hu)]; rewrite Hn.
  - rewrite after_use_none by done. exists π. split; [|apply Hno]. apply tame_act; [done|done|]. constructor; cbn; try done; [|by rewrite app_nil_r|by left].
    intros r Hr. by exists r.
  - eexists. split; [apply (use_act π e s a hash (utc e0) t); done|]. cbn [zlen length fmap list_fmap]. cbn [Z.eqb negb Z.of_nat].
    apply wp_try. unfold select. apply wp_sql; [|intros x; apply Herr]. intros e1 s1 He1 Hk1. cbn [fst snd].
    set (row := head _). destruct row as [r|] eqn:Er; [|eexists; split; [by apply tame_act, tame_refl|apply Hno]].
    assert (r ∈ tokens s1 ∧ en_used_by_agent_id r = Some (uuid_to_string a)) as [Hr Hby].
    { subst row. apply head_Some_elem_of, list_elem_of_filter in Er as [[_ ?] ?]. done. }
    destruct (decode_token r) as [tok|] eqn:Ed; [|eexists; split; [by apply tame_act, tame_refl|apply Herr]].
    assert (uuid_parse (en_created_by_user_id r) = Some (t_created_by_user_id tok)) as Hby'.
    { unfold decode_token in Ed. destruct (uuid_parse (en_created_by_user_id r)) as [k|]; [|done]. cbn in Ed.
      repeat (apply bind_Some in Ed as (? & _ & Ed)). injection Ed as <-. done. }
    eexists. split; [by eapply (read_act _ e1 s1 a r)|]. apply Hfound.
Qed.

(** ** Inserting the Agent *)

Lemma insert_act π e s a user row :
  own π = Some (a, For user) → knows π s → ag_id row = uuid_to_string a → ag_owner_user_id row = uuid_to_string user →
  act π e s (set_created (a :: created s) (set_agents (agents s ++ [row]) s)) {| own := None; facts := facts π |}.
Proof.
  intros Hown [Hw [Ho Hf]] Hid Hrow. rewrite Hown in Ho. destruct Ho as [[Hen Hc] Hfor]. pose proof (wf_enrolled_drawn s Hw a Hen) as Hd.
  assert (∀ f, locked_out f.1 f.2 s → locked_out f.1 f.2 (set_created (a :: created s) (set_agents (agents s ++ [row]) s))) as Hl.
  { intros [b k] ([L0 L1] & L2). cbn in *. split; [|done]. split; [by right|]. intros r [Hr|Hr%list_elem_of_singleton]%elem_of_app Hrid; [by apply L1|].
    subst r. exfalso. apply Hc. assert (a = b) as ->; [|done]. pose proof (wf_drawn s Hw) as Wd. pose proof (wf_enrolled_drawn s Hw b (wf_created s Hw b L0)) as Hb.
    apply uuid_inj; [..|congruence]; eapply Forall_forall in Wd; eauto. }
  destruct Hw as [W1 W2 W3 W4 W5 W6 W7 W8 W9 W10 W11 W12 W13]. split_and!; [constructor; cbn; try done| | |done|].
  - intros r [Hr|Hr%list_elem_of_singleton]%elem_of_app; [|subst r; exists a; split; [by left|done]]. destruct (W1 r Hr) as (b & Hb & Hrb). exists b. split; [by right|done].
  - intros b [->|Hb]%elem_of_cons; [done|by apply W3].
  - split; [done|]. eapply Forall_impl; [exact Hf|]. auto.
  - intros ρ [Ho' Hf'] Hne. split; [|eapply Forall_impl; [exact Hf'|]; auto]. unfold own_id in Hne. rewrite Hown in Hne.
    destruct (own ρ) as [[b []]|]; cbn in *; try done.
    + destruct Ho' as (Hd' & Hc' & Hen' & Hiss'). split_and!; try done. intros [->|Hin]%elem_of_cons; [|done]. by destruct Hne.
    + destruct Ho' as [Hb Hcb]. split; [done|]. intros [->|Hin]%elem_of_cons; [|done]. by destruct Hne.
    + destruct Ho' as [[Hb Hcb] Hb']. split; [|done]. split; [done|]. intros [->|Hin]%elem_of_cons; [|done]. by destruct Hne.
  - intros r [Hr|Hr%list_elem_of_singleton]%elem_of_app Hn; [exfalso; by apply Hn, list_elem_of_fmap_2|]. subst r. exists a, user. done.
Qed.

Lemma wp_create_with_id π a input (Q : result (Tables.Anyhow E) Agent → Perm → Prop) :
  own π = Some (a, For (in_owner_user_id input)) → (∀ r π', Q r π') → WP π (create_with_id a input) Q.
Proof.
  intros Hown HQ. unfold create_with_id. apply wp_try, wp_observe. intros e0 _. apply wp_try, wp_sql; [|intros x; apply HQ].
  intros e s He Hk. unfold insert_agent. destruct (_ || _); [apply HQ|]. eexists. split; [by apply (insert_act π e s a (in_owner_user_id input))|]. apply HQ.
Qed.

(** ** Locking an Agent out *)

Definition adds (f : Z * nat) (π : Perm) : Perm := {| own := own π; facts := f :: facts π |}.

Lemma wp_escalate {X A} π a k k' (g : Env E → Fleet → A) (f : Env E → Fleet → Fleet) (Q : result X A → Perm → Prop) :
  (a, k) ∈ facts π → (∀ e s, change e s (f e s)) → (∀ e s, locked_out a k (f e s) → locked_out a k' (f e s)) →
  (∀ x, Q (Ok x) (adds (a, k') π)) → WP π (atomic (fun e s => (Ok (g e s), f e s)) : P (Env E) Fleet X A) Q.
Proof.
  intros Hin Hf Hl HQ e s He Hk. exists (adds (a, k') π). split; [|apply HQ]. cbn. pose proof (change_tame _ _ _ (Hf e s)) as Ht.
  apply tame_act_more; [done..|]. apply Hl, (tame_locked_out e s); [done|]. destruct Hk as [_ [_ Hfs]]. eapply Forall_forall in Hfs; [|exact Hin]. exact Hfs.
Qed.

(** A harmless step under a lock. *)
Lemma wp_locked {X} π (f : Env E → Fleet → Fleet) (Q : result X unit → Perm → Prop) :
  (∀ e s, change e s (f e s)) → Q (Ok ()) π → WP π (locked f : P (Env E) Fleet X unit) Q.
Proof. intros Hf HQ e s He Hk. exists π. split; [|exact HQ]. by apply tame_act, change_tame. Qed.

Lemma wp_disconnect {X} π a (Q : result X unit → Perm → Prop) :
  (a, O) ∈ facts π → Q (Ok ()) (adds (a, 2%nat) (adds (a, 1%nat) π)) → WP π (disconnect (E := E) a) Q.
Proof.
  intros Hin HQ. unfold disconnect. apply wp_try. apply (wp_escalate π a 0 1 (fun _ _ => ())); [done| | |intros []].
  { intros e s. apply change_sessions, disconnect_revoke_forward. }
  { intros e s (L0 & _). split_and!; [apply L0..| | | |]; intros; try lia. cbn. set_solver. }
  apply wp_try, (wp_escalate _ a 1 2); [by left| | |].
  { intros e s. apply change_sessions, disconnect_remove_forward. }
  { intros e s (L0 & L1 & _). split_and!; [apply L0..|intros; apply L1; lia| | |]; intros; try lia. cbn. unfold Registry.disconnect_remove.
    destruct (Registry.senders (sessions s) !! a) eqn:Es; [cbn; apply lookup_delete_eq|done]. }
  intros [rs|]; [|exact HQ]. apply wp_locked; [|exact HQ]. intros e s. apply change_sessions, disconnect_notify_forward.
Qed.

Lemma wp_disconnect_agent {X} π a (Q : result X unit → Perm → Prop) :
  (a, 2%nat) ∈ facts π → Q (Ok ()) (adds (a, 4%nat) (adds (a, 3%nat) π)) → WP π (disconnect_agent (E := E) a) Q.
Proof.
  intros Hin HQ. unfold disconnect_agent. apply wp_try. apply (wp_escalate _ a 2 3 (fun _ _ => ())); [done| | |intros []].
  { intros e s. apply change_io, disconnect_agent_revoke_forward. }
  { intros e s (L0 & L1 & L2 & _). split_and!; [apply L0..|intros; apply L1; lia|intros; apply L2; lia| |]; intros; try lia. cbn. set_solver. }
  apply wp_try, (wp_escalate _ a 3 4); [by left| | |].
  { intros e s. apply change_io, disconnect_agent_remove_forward. }
  { intros e s (L0 & L1 & L2 & L3 & _). split_and!; [apply L0..|intros; apply L1; lia|intros; apply L2; lia|intros; apply L3; lia|]. intros _. cbn. apply lookup_delete_eq. }
  intros closed. apply wp_locked; [|exact HQ]. intros e s. apply change_io, notify_closed_forward.
Qed.

Lemma wp_disconnect_all {X} π a (Q : result X unit → Perm → Prop) :
  (a, O) ∈ facts π → (∀ π', own π' = own π → (∀ x, x ∈ facts π → x ∈ facts π') → (a, 4%nat) ∈ facts π' → Q (Ok ()) π') →
  WP π (disconnect (E := E) a;; disconnect_agent a) Q.
Proof.
  intros Hin HQ. apply wp_try, wp_disconnect; [done|]. apply wp_disconnect_agent; [by left|]. apply HQ; [done| |by left]. intros x Hx. by do 4 right.
Qed.

Lemma row_created s a : wf s → uuid_ok a → (∃ r, r ∈ agents s ∧ ag_id r = uuid_to_string a) → a ∈ created s.
Proof.
  intros Hw Ha (r & Hr & Hid). destruct (wf_rows s Hw r Hr) as (b & Hb & Hrb). assert (b = a) as <-; [|done].
  pose proof (wf_drawn s Hw) as Wd. apply uuid_inj; [|done|congruence]. eapply Forall_forall in Wd; [exact Wd|]. by apply (wf_enrolled_drawn s Hw), (wf_created s Hw).
Qed.
Lemma some_hit {A} (f : A → bool) l : zlen (filter (fun x => f x = true) l) ≠ 0 → ∃ x, x ∈ l ∧ f x = true.
Proof.
  destruct (filter _ l) as [|x l'] eqn:Ef; [done|]. intros _. exists x. assert (x ∈ filter (fun x => f x = true) l) as Hx by (rewrite Ef; by left).
  apply list_elem_of_filter in Hx. tauto.
Qed.

Lemma wp_revoke π a (Q : result (Tables.Anyhow E) bool → Perm → Prop) :
  uuid_ok a → Q (Ok true) (adds (a, O) π) → Q (Ok false) π → (∀ x, Q (Err x) π) → WP π (revoke (E := E) a) Q.
Proof.
  intros Ha Hok Hno Herr. unfold revoke. apply wp_try. unfold update_agents. apply wp_try, wp_observe. intros e0 _. apply wp_sql; [|done].
  intros e s He Hk. set (hit r := with_id a r && bool_decide (ag_revoked_at r = None)).
  set (s' := set_agents _ s). assert (tame e s s') as Ht by (apply change_tame, change_rows; intros r; by case_match).
  destruct (Z.ltb_spec 0 (zlen (filter (fun r => hit r = true) (agents s)))) as [Hz|Hz].
  - exists (adds (a, O) π). split; [|by rewrite (proj2 (Z.ltb_lt _ _))]. apply tame_act_more; [done..|]. destruct (some_hit hit (agents s)) as (r & Hr & Hh); [lia|].
    split; [|split_and!; intros; lia]. split.
    + apply (row_created s); [apply Hk|done|]. exists r. split; [done|]. unfold hit in Hh. apply andb_true_iff in Hh as [Hh _]. by apply bool_decide_eq_true in Hh.
    + intros r' (r0 & -> & Hr0)%list_elem_of_fmap Hid. assert (ag_id r0 = uuid_to_string a) as Hid0 by (revert Hid; cbn; by case_match).
      cbn. change (is_Some (ag_revoked_at (if hit r0 then with_revoked (utc e0) r0 else r0))). destruct (hit r0) eqn:Eh; [by eexists|].
      unfold hit, with_id in Eh. rewrite bool_decide_true in Eh by done. cbn in Eh. apply bool_decide_eq_false in Eh. by destruct (ag_revoked_at r0).
  - exists π. split; [by apply tame_act|]. by rewrite (proj2 (Z.ltb_ge _ _)).
Qed.

Lemma wp_revoke_agent wired u i (Q : result (Accounts.AppError E) Response → Perm → Prop) :
  (∀ a π', (a, 4%nat) ∈ facts π' → Q (Ok (AgentRevoked a)) π') → (∀ x π', Q (Err x) π') → WP idle (revoke_agent wired u i) Q.
Proof.
  intros Hok Herr. unfold revoke_agent. apply wp_then; [exact I|intros _|done]. apply wp_then; [apply calm_sensitive|intros _|done].
  apply wp_try, wp_ret. destruct (parse_agent_resource_id i) as [a|x] eqn:Ep; [|apply Herr].
  assert (uuid_ok a) as Ha.
  { unfold parse_agent_resource_id in Ep. case_match; [done|]. destruct (uuid_parse i) as [b|] eqn:Eu; [|done]. cbn in Ep. case_match; [done|]. simplify_eq. by eapply uuid_parse_ok. }
  apply wp_try, wp_repo, wp_revoke; [done| |apply Herr|intros x; apply Herr]. cbn [negb].
  apply wp_then; [apply calm_purge|intros _|intros x; apply Herr]. apply wp_then; [apply calm_send|intros _|intros x; apply Herr].
  apply wp_try_seq, wp_disconnect_all; [by left|]. intros π' _ _ Hin. apply wp_try. eapply wp_mono; [|eapply wp_calm].
  - intros [v|x] ? ->; [by apply Hok|apply Herr].
  - destruct wired; [|exact I]. apply always_try; [apply calm_send|intros _]. apply always_try; [apply calm_disconnect|intros _]. apply calm_disconnect_agent.
Qed.

Lemma wp_delete_agent π a (Q : result (Accounts.AppError E) Response → Perm → Prop) :
  uuid_ok a →
  (∀ π', own π' = own π → (∀ x, x ∈ facts π → x ∈ facts π') → (a, 4%nat) ∈ facts π' → Q (Ok (AgentDeleted a)) π') →
  (∀ x π', own π' = own π → (∀ y, y ∈ facts π → y ∈ facts π') → Q (Err x) π') → WP π (delete_agent (E := E) a) Q.
Proof.
  intros Ha Hok Herr. unfold delete_agent. apply wp_then; [apply calm_repo, (calm_drop_members (fun _ => _))|intros _|intros x; by apply Herr].
  apply wp_try, wp_repo, wp_sql; [|intros x; by apply Herr]. intros e s He Hk.
  assert (tame e s (drop_agents (with_id a) s)) as Ht by apply change_tame, change_dropped.
  destruct (Z.eqb_spec (zlen (filter (fun r => with_id a r = true) (agents s))) 0) as [Hz|Hz].
  - exists π. split; [by apply tame_act|]. by apply Herr.
  - exists (adds (a, O) π). split.
    + apply tame_act_more; [done..|]. destruct (some_hit (with_id a) (agents s) Hz) as (r & Hr & Hh%bool_decide_eq_true). split; [|split_and!; intros; lia].
      split; [by apply (row_created s); [apply Hk|done|exists r]|]. intros r' [Hg _]%list_elem_of_filter Hid. unfold with_id in Hg. by rewrite bool_decide_true in Hg.
    + lazy beta iota.
      assert (∀ x, Q (Err x) (adds (a, O) π)) as Herr' by (intros x; apply Herr; [done|intros y Hy; by right]).
      apply wp_then; [apply calm_purge|intros _|done]. apply wp_then; [apply calm_send|intros _|done].
      apply wp_try_seq, wp_disconnect_all; [by left|]. intros π' Hown Hsub Hin. apply Hok; [done| |done]. intros x Hx. apply Hsub. by right.
Qed.

(** ** Handlers *)

Context (jwt_secret : rstr) (to_string : json → option rstr) (from_str : rstr → option json).
Context (iter : gmap Z Realtime.RealtimeEvent → list (Z * Realtime.RealtimeEvent)) (engine manager : bool).
Context (url_parse : rstr → option Security.Url).
Context (anyhow_text : Tables.Anyhow E → rstr) (serialize_failure : rstr).
Abbreviation handler := (handler (E := E) jwt_secret to_string from_str iter engine manager url_parse anyhow_text serialize_failure).

(** A response that tells that the Agent is gone. *)
Definition reported_gone (r : Response) (a : Z) : Prop :=
  match r with
  | AgentRevoked b | AgentDeleted b => b = a
  | BatchUpdated Delete results _ _ => ∃ x, x ∈ results ∧ br_success x = true ∧ br_id x = uuid_to_string a
  | _ => False
  end.
Definition Post (r : result (Accounts.AppError E) Response) (π : Perm) : Prop :=
  ∀ resp a, r = Ok resp → uuid_ok a → reported_gone resp a → (a, 4%nat) ∈ facts π.
Lemma post_err x π : Post (Err x) π.
Proof. done. Qed.

Lemma post_done π : Post (Ok Done) π.
Proof. by intros resp a [= <-]. Qed.

Definition deleted_ok (results : list BatchUpdateServerResult) (π : Perm) : Prop :=
  ∀ x a, x ∈ results → br_success x = true → uuid_ok a → br_id x = uuid_to_string a → (a, 4%nat) ∈ facts π.

Lemma parse_checked_ok i field a : ServerMeta.parse_checked (E := E) i field = Ok a → uuid_ok a ∧ uuid_to_string a = i.
Proof.
  intros Hp. split; [|by eapply FleetProofs.parse_checked_text]. unfold ServerMeta.parse_checked, ServerMeta.require_server_uuid_text in Hp.
  destruct (is_empty i); [done|]. case_match; [done|]. destruct (uuid_parse i) as [b|] eqn:Eb; [|done]. case_match; [done|]. cbn in Hp. rewrite Eb in Hp.
  simplify_eq. by eapply uuid_parse_ok.
Qed.

Lemma wp_delete_one π auth ip i tags v o g (Q : result rstr unit → Perm → Prop) :
  (∀ π' a, own π' = own π → (∀ x, x ∈ facts π → x ∈ facts π') → uuid_ok a → uuid_to_string a = i → (a, 4%nat) ∈ facts π' → Q (Ok ()) π') →
  (∀ x π', own π' = own π → (∀ y, y ∈ facts π → y ∈ facts π') → Q (Err x) π') →
  WP π (apply_batch_action from_str anyhow_text serialize_failure auth ip i Delete tags v o g) Q.
Proof.
  intros Hok Herr. unfold apply_batch_action. apply wp_try, wp_bind, wp_ret, wp_ret. destruct (ServerMeta.parse_agent_id i) as [a|x] eqn:Ep; [|by apply Herr].
  apply parse_checked_ok in Ep as [Ha Hi].
  apply wp_then; [apply always_map_err, calm_find_by_id_with_state|intros found|by intros x; apply Herr].
  apply wp_then; [exact I|intros row|by intros x; apply Herr].
  apply wp_then; [apply always_map_err, calm_ensure_visible|intros _|by intros x; apply Herr]. case_match; [by apply Herr|].
  apply wp_try, wp_bind, wp_delete_agent; [done| |].
  - intros π' Hown Hsub Hin. apply wp_ret, wp_ret. by eapply Hok.
  - intros x π' Hown Hsub. apply wp_ret. by apply Herr.
Qed.

Lemma wp_delete_batch π auth ip ids tags v o g (Q : result (Accounts.AppError E) (list BatchUpdateServerResult) → Perm → Prop) :
  (∀ l π', own π' = own π → (∀ x, x ∈ facts π → x ∈ facts π') → deleted_ok l π' → Q (Ok l) π') → 
  (∀ x π', Q (Err x) π') →
  WP π (apply_batch from_str anyhow_text serialize_failure auth ip ids Delete tags v o g) Q.
Proof.
  intros Hok Herr. revert π Q Hok Herr. induction ids as [|i ids IH]; intros π Q Hok Herr; cbn [apply_batch].
  { apply (Hok [] π); [done..|]. intros x a Hx. by apply elem_of_nil in Hx. }
  apply wp_bind, wp_delete_one.
  - intros π1 a Hown1 Hsub1 Ha Hi Hin. apply wp_try, IH; [|intros x π'; apply Herr]. intros l π2 Hown2 Hsub2 Hl. apply Hok; [congruence|auto|].
    intros x b [->|Hx]%elem_of_cons Hs Hb Hid; [|by eapply Hl]. cbn in Hid. assert (b = a) as ->; [|auto]. apply uuid_inj; [done..|congruence].
  - intros x π1 Hown1 Hsub1. apply wp_try, IH; [|intros y π'; apply Herr]. intros l π2 Hown2 Hsub2 Hl. apply Hok; [congruence|auto|].
    intros y b [->|Hx]%elem_of_cons Hs Hb Hid; [done|by eapply Hl].
Qed.

Lemma wp_batch auth ip req : WP idle (batch_update_servers from_str anyhow_text serialize_failure auth ip req) Post.
Proof.
  unfold batch_update_servers. apply wp_then; [apply calm_require_scope|intros _|done]. apply wp_then; [apply calm_batch_guards|intros _|done].
  apply wp_then; [exact I|intros ids|done]. case_match; [done|]. apply wp_then; [apply calm_batch_owner|intros owner|done].
  do 2 (case_match; [done|]). apply wp_then; [exact I|intros gid|done].
  apply wp_then; [repeat case_match; try exact I; apply always_try; [apply calm_load_group|done]|intros _|done].
  apply wp_then; [exact I|intros tags|done]. case_match; [done|]. apply wp_try. destruct (is_delete (bq_action req)) eqn:Ed.
  - destruct (bq_action req); try done. apply wp_delete_batch; [|done]. intros l π' _ _ Hl resp a [= <-] Ha (x & Hx & Hs & Hid). by eapply Hl.
  - eapply wp_mono; [|apply (wp_moving idle auth), moving_batch]. intros [l|x] ? ->; [|done]. intros resp a [= <-] _ Hg. by destruct (bq_action req).
Qed.

Lemma wp_enroll req : WP idle (enroll (E := E) req) Post.
Proof.
  unfold enroll. apply wp_then; [exact I|intros n|done]. apply wp_try, wp_draw; [done|]. intros a Ha.
  apply wp_try, wp_repo, wp_find_and_use; [done|done| |done|done]. intros t. cbn [ok_or]. apply wp_try, wp_ret. apply wp_try, wp_repo, wp_create_with_id; [done|]. intros [ag|x] π'; [|done].
  apply wp_try, wp_observe. intros e0 _. apply wp_then; [|intros _; by intros resp b [= <-]|done]. apply calm_repo, calm_sql. intros e s u s'.
  unfold insert_server. repeat case_match; intros [= _ <-]; first [apply change_none|apply change_servers].
Qed.

Lemma wp_create_enrollment_token u n : WP idle (create_enrollment_token (E := E) u n) Post.
Proof.
  unfold create_enrollment_token. apply wp_then; [exact I|intros _|done]. apply wp_then; [apply calm_sensitive|intros _|done].
  apply wp_try, wp_observe. intros e0 _. apply wp_try, wp_ret. destruct (normalize_enrollment_token_ttl n) as [ttl|x] eqn:Et; [|done]. apply wp_try, wp_observe. intros e1 Hnow. apply wp_try, wp_repo, wp_create_token; [done| |].
  - apply modern_later; [done|]. unfold normalize_enrollment_token_ttl in Et. destruct (_ && _) eqn:Eb; [|done]. simplify_eq. unfold MAX_ENROLLMENT_TOKEN_TTL_HOURS in *. bool_prop. lia.
  - intros [t|x] π'; [|done]. by intros resp a [= <-].
Qed.

Lemma handler_wp m : handler m → WP idle m Post.
Proof.
  intros [Hc|Hs]%handler_cases.
  - destruct Hc as [X A m Hm]. unfold finish. apply wp_bind. eapply wp_mono, wp_calm, Hm. intros r π _. apply post_done.
  - destruct Hs as [who []].
    + apply wp_create_enrollment_token.
    + apply wp_enroll.
    + apply wp_revoke_agent; [|done]. intros a π' Hin resp b [= <-] _ Hb. cbn in Hb. by subst.
    + apply wp_batch.
    + unfold finish. apply wp_bind. eapply wp_mono; [|apply (wp_moving idle auth), moving_retry]. intros r π _. apply post_done.
Qed.

(** ** Claims *)

(** A new installation, and the pools reached from it. *)
Definition new_fleet : Fleet :=
  {| agents := []; tokens := []; servers := []; groups := []; members := []; transfers := []; audit := []; challenges := ∅;
     sessions := Registry.new_registry; io := IoStreams.new_io_registry; hub := Realtime.new_hub; written := []; calls := []; drawn := [];
     created := []; issued := []; enrolled := [] |}.
Definition reached (p : Pool (Env E) Fleet (result (Accounts.AppError E) Response)) : Prop := rtc (pool_step handler admits) {| state := new_fleet; threads := [] |} p.

Lemma new_inv : Inv new_fleet [].
Proof.
  split; [|split; [done|by intros i]]. constructor; cbn; try done; try apply NoDup_nil_2; try (by intros ? ?%elem_of_nil). by intros t w ?%elem_of_nil.
Qed.
Lemma life_reached p : reached p → accounted admits knows act Inv Post p.
Proof.
  intros Hp. apply (reachable_accounted handler admits idle knows act Inv Post) with (s := new_fleet).
  - intros s πs i π (Hw & Hh & _) Hi. split; [done|by eapply Hh].
  - intros e s s' πs i π π'. apply life_act.
  - apply life_spawn.
  - apply handler_wp.
  - apply new_inv.
  - done.
Qed.
Lemma life_newcomers p p' : reached p → pool_step handler admits p p' →
  ∀ r, r ∈ agents (state p') → ag_id r ∉ ag_id <$> agents (state p) → came_in r (state p').
Proof.
  intros Hp%life_reached Hs. destruct (accounted_acts handler admits knows act Inv Post) with (p := p) (p' := p') as [->|(π & e & π' & Ha)]; [|done|done| |].
  - intros s πs i π (Hw & Hh & _) Hi. split; [done|by eapply Hh].
  - by apply same_newcomers.
  - apply Ha.
Qed.
(** The row of a token names the user whose request made it. *)
Definition names_user (u : Accounts.AuthUser) (e : Env E) (s s' : Fleet) : Prop :=
  tokens s' = tokens s ∨ ∃ row, tokens s' = tokens s ++ [row] ∧ en_created_by_user_id row = uuid_to_string (Users.id (Accounts.au_user u)).
Lemma create_token_named u n : always (names_user u) (create_enrollment_token (E := E) u n).
Proof.
  unfold create_enrollment_token. apply always_try; [done|intros _]. apply always_try; [intros e s; split; [by left|done]|intros _].
  apply always_try; [intros e s; split; [by left|done]|intros random]. apply always_try; [done|intros ttl]. apply always_try; [intros e s; split; [by left|done]|intros now].
  apply always_try; [|done]. apply always_map_err. unfold create_token. apply always_try; [intros e s; split; [by left|done]|intros i].
  apply always_try; [intros e s; split; [by left|done]|intros at_]. apply always_try; [|done]. intros e s. split; [|done]. cbn. destruct (fault e); [by left|].
  unfold insert_token. destruct (_ || _); [by left|]. right. by eexists.
Qed.

(** C6: In every pool of handlers, from a new installation on: each enrolment token has
    enrolled at most one Agent, no two enrolments give the same Agent, and every
    enrolment used a token that was issued, before the time it was issued to expire.
    Every Agent in the table came in with such an enrolment, and at the moment its row
    comes in, the owner in that row is the user the token names. A token names the user
    who had it issued. *)
Theorem enrollment_token_once p :
  reached p →
  NoDup (er_token <$> enrolled (state p)) ∧ NoDup (er_agent <$> enrolled (state p)) ∧
  (∀ x, x ∈ enrolled (state p) → ∃ i, i ∈ issued (state p) ∧ is_token i = er_token x ∧ er_at x < is_expires i) ∧
  (∀ r, r ∈ agents (state p) → ∃ x, x ∈ enrolled (state p) ∧ ag_id r = uuid_to_string (er_agent x)) ∧
  (∀ p' r, pool_step handler admits p p' → r ∈ agents (state p') → ag_id r ∉ ag_id <$> agents (state p) → came_in r (state p')) ∧
  (∀ u n h e s s', makes (create_enrollment_token (E := E) u n) h e s s' → names_user u e s s').
Proof.
  intros Hp. pose proof (life_reached p Hp) as (πs & (Hw & _) & _). split_and!; [apply Hw..| | |].
  - intros r Hr. destruct (wf_rows _ Hw r Hr) as (a & Ha & Hid). apply (wf_created _ Hw), list_elem_of_fmap in Ha as (x & -> & Hx). by exists x.
  - intros p' r Hs. by apply (life_newcomers p p').
  - intros u n h e s s'. apply always_makes, create_token_named.
Qed.

(** C5: once a handler has reported an Agent revoked, or deleted in a batch, the
    Agent is out, in that pool and in every later one, whatever streams are being
    opened at the same time: no row of it is live, both registries refuse it, and
    neither holds a stream of it. *)
Theorem revocation_complete p i resp a :
  reached p → threads p !! i = Some (Ret (Ok resp)) → uuid_ok a → reported_gone resp a →
  (∀ r, r ∈ agents (state p) → ag_id r = uuid_to_string a → is_Some (ag_revoked_at r)) ∧
  a ∈ Registry.revoked (sessions (state p)) ∧ Registry.senders (sessions (state p)) !! a = None ∧
  a ∈ IoStreams.revoked_agents (io (state p)) ∧ IoStreams.agent_streams (io (state p)) !! a = None.
Proof.
  intros Hp Hi Ha Hg.
  destruct (reachable_finished handler admits idle knows act Inv Post) with (s := new_fleet) (p := p) (i := i) (a := Ok (E := Accounts.AppError E) resp)
    as (πs & π & HI & Hπ & HP); try done.
  - intros s πs j π (Hw & Hh & _) Hj. split; [done|by eapply Hh].
  - intros e s s' πs j π π'. apply life_act.
  - apply life_spawn.
  - apply handler_wp.
  - apply new_inv.
  - destruct HI as (_ & Hh & _). destruct (Hh _ _ Hπ) as [_ Hf]. eapply Forall_forall in Hf; [|by apply (HP resp a)].
    destruct Hf as ([_ L0] & L1 & L2 & L3 & L4). cbn [fst snd] in *. split_and!; [done|apply L1; lia|apply L2; lia|apply L3; lia|apply L4; lia].
Qed.
End life.
End FleetLife.
