(* ===== verification/ServerAdminProofs.v ===== *)
(** * ServerAdminProofs: who may change what the public sees

    [update_server] replaces the whole metadata of a server. What it writes
    differs in the public fields, or in the tags, from what it read only if the
    caller passed the checks for that. Tags and batches are bounded. *)

From S2P Require Import Prelude Text BTreeMap Json Externals Net Auth Security Rfc3339 Tables Sessions Users Accounts Registry IoStreams AgentTokens.
From S2P Require Import Interleave Realtime ServerMeta Telemetry Fleet FleetStreams ServerAdmin FleetPool FleetProofs FleetStreamsProofs.

Module ServerAdminProofs.
Import Interleave ServerMeta Fleet ServerAdmin.

Section updates.
Context {E : Type} `{UuidLib, Rfc3339, JulianDay, Auth.Crypto, MetaLib}.
Context (from_str : rstr → option json) (serialize_failure : rstr) (auth : Auth.AuthSession).
Abbreviation History := (list (Env E * Fleet)).
Abbreviation totp_ok h := (FleetProofs.totp_ok (Auth.user_id auth) h).

(** The row that was read, and the metadata that may replace what it holds. *)
Definition permitted (h : History) (w : AgentWithState) (next : DashboardMetadata) : Prop :=
  let current := dashboard_metadata (dashboard_metadata_json w) [] in
  agent_visible auth (agent w) = true ∧
  (dm_public_note next = dm_public_note current ∧ dm_dashboard_visible next = dm_dashboard_visible current ∧
   dm_hide_for_guest next = dm_hide_for_guest current ∨ FleetProofs.by_admin auth ∧ totp_ok h) ∧
  (dm_tags next = dm_tags current ∨ Auth.is_pat (Auth.auth_kind auth) = false ∧ totp_ok h).

Definition metadata_step (h : History) (e : Env E) (s s' : Fleet) : Prop :=
  s' = s ∨
  ∃ a w next text nm rm ex pr now,
    once h (fun _ s0 => ∃ r, row_of a s0 = Some r ∧ agent_with_state_row_to_agent r = Some w) ∧ permitted h w next ∧
    ServerMeta.dashboard_metadata_json (E := E) next serialize_failure = Ok text ∧
    s' = set_agents ((fun r => if with_id a r then with_metadata nm rm ex pr (Some text) now r else r) <$> agents s) s.
Abbreviation Updating h m Q := (traced metadata_step h m Q).
Lemma updating_refl h e s : metadata_step h e s s.
Proof. by left. Qed.

(** Programs that only read. *)
Abbreviation Reads m := (always (fun (_ : Env E) (s s' : Fleet) => s' = s) m).
Lemma updating_reads {A} h (m : Proc (Env E) Fleet A) Q : Reads m → (∀ h' a, Q (h ++ h') a) → Updating h m Q.
Proof. intros Hm HQ. eapply always_traced; [exact Hm| |done]. intros h' e s s' ->. by left. Qed.
Lemma reads_select {A} (f : Fleet → A) : Reads (select (E := E) f).
Proof. intros e s. cbn. by destruct (fault e). Qed.
Lemma reads_get_server i : Reads (get_server (E := E) from_str auth i).
Proof.
  unfold get_server, require_scope, find_by_id_with_state, ensure_agent_visible, repo, forbid.
  repeat first [ exact I | apply reads_select | done | apply always_try | apply always_map_err | case_match
               | match goal with |- ∀ _, _ => intros ? end ].
Qed.

Lemma updating_sensitive h Q :
  (∀ h', totp_ok (h ++ h') → Q (h ++ h') (Ok ())) → (∀ h' x, Q (h ++ h') (Err x)) → Updating h (sensitive (E := E) (Auth.user_id auth)) Q.
Proof.
  intros Hok Herr. unfold sensitive. apply traced_try, traced_observe. intros e s. split; [by left|]. cbn.
  destruct (sensitive_totp e _) as [[]|x] eqn:Ht; [|apply Herr]. apply Hok. by apply once_here.
Qed.

Lemma updating_public h stored next Q :
  (∀ h', dm_public_note next = dm_public_note (dashboard_metadata stored []) ∧
         dm_dashboard_visible next = dm_dashboard_visible (dashboard_metadata stored []) ∧
         dm_hide_for_guest next = dm_hide_for_guest (dashboard_metadata stored []) ∨ FleetProofs.by_admin auth ∧ totp_ok (h ++ h') → Q (h ++ h') (Ok ())) →
  (∀ h' x, Q (h ++ h') (Err x)) → Updating h (require_public_server_metadata_write_auth (E := E) auth stored next) Q.
Proof.
  intros Hok Herr. unfold require_public_server_metadata_write_auth. destruct (public_server_visibility_metadata_changed _ _) eqn:Ec.
  - unfold require_public_server_visibility_write_auth, ServerAdmin.require_admin_cookie_session.
    destruct (Auth.is_admin (Auth.role auth)) eqn:Er; cbn [negb]; [|specialize (Herr []); rewrite app_nil_r in Herr; apply Herr].
    destruct (Auth.is_pat (Auth.auth_kind auth)) eqn:Ek; [specialize (Herr []); rewrite app_nil_r in Herr; apply Herr|].
    apply traced_try, FleetProofs.traced_ret, updating_sensitive; [|done]. intros h' Ht. apply Hok. by right.
  - specialize (Hok []). rewrite app_nil_r in Hok. apply Hok. left. unfold public_server_visibility_metadata_changed in Ec.
    apply orb_false_iff in Ec as [[E1 E2]%orb_false_iff E3]. apply negb_false_iff, bool_decide_eq_true in E1, E2, E3. done.
Qed.
Lemma updating_tags h stored next Q :
  (∀ h', dm_tags next = dm_tags (dashboard_metadata stored []) ∨ Auth.is_pat (Auth.auth_kind auth) = false ∧ totp_ok (h ++ h') → Q (h ++ h') (Ok ())) →
  (∀ h' x, Q (h ++ h') (Err x)) → Updating h (require_server_tag_write_auth_if_changed (E := E) auth stored next) Q.
Proof.
  intros Hok Herr. unfold require_server_tag_write_auth_if_changed, require_server_tag_write_auth. case_bool_decide as Et; cbn [negb].
  - specialize (Hok []). rewrite app_nil_r in Hok. apply Hok. by left.
  - destruct (Auth.is_pat (Auth.auth_kind auth)); [specialize (Herr []); rewrite app_nil_r in Herr; apply Herr|].
    apply updating_sensitive; [|done]. intros h' Ht. apply Hok. by right.
Qed.

Lemma update_traced i req : Updating [] (update_server (E := E) from_str serialize_failure auth i req) (fun _ _ => True).
Proof.
  unfold update_server, require_scope. destruct (Auth.has_scope auth _); [|done]. apply traced_try, FleetProofs.traced_ret.
  apply traced_try, FleetProofs.traced_ret. destruct (parse_agent_id i) as [a|x]; [|done].
  apply traced_try. unfold repo. apply FleetStreamsProofs.traced_map_err, traced_try, FleetStreamsProofs.traced_select; [apply updating_refl| |done].
  intros e0 s0. apply traced_try, FleetProofs.traced_ret. destruct (row_of a s0) as [r|] eqn:Er; [|done].
  cbn [mbind option_bind]. destruct (agent_with_state_row_to_agent r) as [w|] eqn:Ew; [|done]. cbn [ok_or].
  assert (once ([] ++ [(e0, s0)]) (fun _ s0 => ∃ r, row_of a s0 = Some r ∧ agent_with_state_row_to_agent r = Some w)) as Hread by (apply once_here; by exists r).
  unfold ensure_agent_visible. destruct (agent_visible auth (agent w)) eqn:Ev; [|done]. apply traced_try, FleetProofs.traced_ret.
  apply traced_try, FleetProofs.traced_ret. destruct (requested_metadata req) as [[[[[nm rm] ex] pr] next]|x]; [|done].
  apply traced_try, updating_public; [|done]. intros h1 Hpub. apply traced_try, updating_tags; [|done]. intros h2 Htags.
  apply traced_try, FleetProofs.traced_ret. destruct (ServerMeta.dashboard_metadata_json next serialize_failure) as [text|x] eqn:Et; [|done].
  apply traced_try, FleetStreamsProofs.traced_map_err. unfold update_dashboard_metadata. apply traced_try. unfold update_agents.
  apply traced_try, traced_observe. intros e1 s1. split; [by left|]. apply FleetStreamsProofs.traced_sql; [apply updating_refl| |done].
  intros e s. split.
  - right. exists a, w, next, text, nm, rm, ex, pr, (utc e1). split_and!; [by do 3 apply once_app| |done|done]. split_and!; [done| |].
    + destruct Hpub as [Hpub|[Ha Ht]]; [by left|]. right. split; [done|]. by do 2 apply once_app.
    + destruct Htags as [Ht|[Ha Ht]]; [by left|]. right. split; [done|]. by apply once_app.
  - apply FleetProofs.traced_ret. case_match; [done|]. apply updating_reads; [apply reads_get_server|done].
Qed.

(** [update_server] changes one thing: the rows of one Agent, whose row it
    read before and found visible to the caller. The metadata it writes has the
    public note and the two visibility flags it read, unless the caller is an
    administrator in a cookie session who passed the second factor; and the tags
    it read, unless the caller is in a cookie session and passed it. Nothing but
    the fields of that one statement is changed. *)
Theorem visibility_guarded i req h e s s' :
  makes (update_server (E := E) from_str serialize_failure auth i req) h e s s' → metadata_step h e s s'.
Proof. intros Hs. exact (traced_makes _ _ _ _ _ _ _ _ (update_traced i req) Hs). Qed.
End updates.

(** ** Tags *)

Lemma tags_loop_bounded tags out :
  zlen out < TAGS_KEPT → Forall (fun t => (length t <= TAG_CHARS)%nat) out →
  zlen (normalize_tags_loop tags out) <= TAGS_KEPT ∧ Forall (fun t => (length t <= TAG_CHARS)%nat) (normalize_tags_loop tags out).
Proof.
  revert out. induction tags as [|t tags IH]; intros out Hl Hf; cbn [normalize_tags_loop]; [split; [lia|done]|].
  case_match; [by apply IH|].
  assert (zlen (out ++ [take TAG_CHARS (trim t)]) = zlen out + 1) as Hz by (unfold zlen; rewrite length_app; cbn; lia).
  assert (Forall (fun t => (length t <= TAG_CHARS)%nat) (out ++ [take TAG_CHARS (trim t)])) as Hf'.
  { apply Forall_app. split; [done|]. constructor; [rewrite length_take; lia|constructor]. }
  destruct (TAGS_KEPT <=? _) eqn:Ek; bool_prop; [split; [lia|done]|]. apply IH; [lia|done].
Qed.
Lemma tags_bounded tags : zlen (normalize_tags tags) <= TAGS_KEPT ∧ Forall (fun t => (length t <= TAG_CHARS)%nat) (normalize_tags tags).
Proof. apply tags_loop_bounded; [done|constructor]. Qed.

(** Duplicates are looked for before a tag is cut to 24 characters. *)
Lemma tags_cut_after_dedup :
  normalize_tags [lit "production-frankfurt-rack-01"; lit "production-frankfurt-rack-02"] = [lit "production-frankfurt-rac"; lit "production-frankfurt-rac"].
Proof. by vm_compute. Qed.
End ServerAdminProofs.
