(* ===== verification/FleetExamples.v ===== *)
(** * FleetExamples: an Agent from its token to its revocation

    Ada, an administrator, issues an enrolment token, an
    Agent enrols with it and opens its stream, dashboards watch, the Agent is
    transferred to another user and revoked. On these runs the theorems about the fleet
    are applied, and two races that the code allows are shown. *)

From S2P Require Import Prelude Text BTreeMap Json Externals Net Auth AuthProofs Security Rfc3339 Tables Sessions Users Accounts Registry IoStreams AgentTokens AgentTokensProofs.
From S2P Require Import Interleave Realtime ServerMeta Telemetry Fleet FleetStreams ServerAdmin FleetPool FleetProofs FleetStreamsProofs FleetLife ServerAdminProofs.

Module FleetExamples.
Import Interleave Realtime Fleet FleetStreams ServerAdmin FleetPool FleetLife.
#[local] Existing Instances AuthProofs.crypto0 AgentTokensProofs.plain_jwt.

(** The metadata as text: its public note, and whether it is visible. *)
#[local] Instance meta_plain : ServerMeta.MetaLib := {|
  ServerMeta.meta_to_string m := Some (match ServerMeta.dm_dashboard_visible m with Some true => 116 | Some false => 102 | None => 110 end
                                       :: match ServerMeta.dm_public_note m with Some n => 43 :: n | None => [45] end);
  ServerMeta.meta_from_str t :=
    match t with
    | v :: n =>
        let d := ServerMeta.with_visible (if v =? 116 then Some true else if v =? 102 then Some false else None) ServerMeta.default_metadata in
        Some {| ServerMeta.dm_public_note := match n with 43 :: n => Some n | _ => None end; ServerMeta.dm_provider := None; ServerMeta.dm_region := None;
                ServerMeta.dm_country := None; ServerMeta.dm_city := None; ServerMeta.dm_latitude := None; ServerMeta.dm_longitude := None;
                ServerMeta.dm_plan := None; ServerMeta.dm_price := None; ServerMeta.dm_currency := None; ServerMeta.dm_billing_cycle := None;
                ServerMeta.dm_auto_renew := None; ServerMeta.dm_traffic_quota_bytes := None; ServerMeta.dm_traffic_quota_type := None;
                ServerMeta.dm_tags := []; ServerMeta.dm_accent_color := None; ServerMeta.dm_dashboard_visible := ServerMeta.dm_dashboard_visible d;
                ServerMeta.dm_hide_for_guest := None; ServerMeta.dm_display_order := None |}
    | [] => None
    end;
  ServerMeta.f64_to_string _ := [];
|}.
(** Days as milliseconds. *)
#[local] Instance julian_ms : JulianDay := {| julianday t := default 0 (parse_from_rfc3339 t) / 1000000 |}.
Lemma julian_ms_monotone t u : era t → era u → t <= u → julianday (to_rfc3339 t) <= julianday (to_rfc3339 u).
Proof. intros Ht Hu Htu. cbn -[to_rfc3339 parse_from_rfc3339]. rewrite !rfc3339_roundtrip by done. cbn. apply Z.div_le_mono; lia. Qed.

(** ** The instance *)

Definition now0 : Z := seconds 1700000000.
Definition env (n : Z) : Env unit :=
  {| utc := now0; fault := None; uuid := 100 + n; random := replicate 32 171; user_exists _ := true; token_exists _ := true; sensitive_totp _ := Ok ();
     traffic w := w; timed_out := false; channel := 7; watch := 8; upgrades := true; banned _ := Ok false; geo _ := None; series _ := None |}.
Definition ada : Users.User :=
  {| Users.id := 5; Users.username := lit "ada"; Users.password_hash := []; Users.role := Auth.Admin; Users.token_version := 0;
     Users.created_at := now0; Users.updated_at := now0 |}.
Definition ada_user : Accounts.AuthUser := {| Accounts.au_user := ada; Accounts.au_session_id := lit "s1"; Accounts.au_kind := Auth.Session |}.
Definition ada_session : Auth.AuthSession :=
  {| Auth.session_id := lit "s1"; Auth.user_id := 5; Auth.username := lit "ada"; Auth.role := Auth.Admin; Auth.csrf_token := [];
     Auth.auth_kind := Auth.Session; Auth.scopes := [lit "server:read"; lit "server:write"]; Auth.server_ids := None; Auth.pat_id := None |}.
(** A script with an access token of Ada's. *)
Definition script_session : Auth.AuthSession :=
  {| Auth.session_id := []; Auth.user_id := 5; Auth.username := lit "ada"; Auth.role := Auth.Admin; Auth.csrf_token := [];
     Auth.auth_kind := Auth.PersonalAccessToken; Auth.scopes := [lit "server:read"; lit "server:write"]; Auth.server_ids := None; Auth.pat_id := Some (lit "p") |}.
Definition secret0 : rstr := lit "0123456789abcdef0123456789abcdef".
Definition no_json (j : json) : option rstr := None.
Definition no_value (t : rstr) : option json := None.
Definition no_url (t : rstr) : option Security.Url := None.
Definition no_text (x : Tables.Anyhow unit) : rstr := [].

(** ** Enrolment and revocation *)

Definition token0 : rstr := ENROLLMENT_TOKEN_PREFIX ++ Auth.hex_encode (replicate 32 171).
Definition enroll0 : EnrollRequest := {| rq_name := lit "web-1"; rq_enrollment_token := token0; rq_public_key := replicate 64 97 |}.
(** The Agent gets the identifier drawn in the seventh step. *)
Definition web1 : Z := 106.
Definition jwt0 : rstr := match AgentTokens.sign_agent_jwt web1 secret0 now0 9 with Ok t => t | Err _ => [] end.
Definition bearer0 : result GrpcBearerTokenError (option rstr) := Ok (Some jwt0).

Abbreviation handler0 := (handler (E := unit) secret0 no_json no_value map_to_list false false no_url no_text []).
Definition programs0 : list (P (Env unit) Fleet (Accounts.AppError unit) Response) :=
  [create_enrollment_token ada_user (Some 1); enroll enroll0;
   finish (session secret0 no_json no_value map_to_list false false (lit "198.51.100.7") bearer0 [Heartbeat]);
   revoke_agent false ada_user (uuid_to_string web1)].
Definition schedule0 : list (nat * Env unit) :=
  imap (fun i k => (k, env (Z.of_nat i))) (replicate 6 0%nat ++ replicate 8 1%nat ++ replicate 7 2%nat ++ replicate 11 3%nat).

#[local] Instance admits_dec (e : Env unit) s : Decision (admits e s).
Proof. unfold admits, modern, uuid_ok. apply _. Defined.
Definition pool0 : Pool (Env unit) Fleet (result (Accounts.AppError unit) Response) :=
  execute admits schedule0 {| state := new_fleet; threads := programs0 |}.

Lemma fleet0_reached : reached secret0 no_json no_value map_to_list false false no_url no_text [] pool0.
Proof.
  unfold reached. etrans; [apply (spawn_all handler0 admits new_fleet programs0)|apply execute_steps].
  repeat apply Forall_cons_2; [apply on_create_token|apply on_enroll|apply on_session|apply on_revoke|apply Forall_nil_2].
Qed.

Lemma enrollment_token_once_witness :
  enrolled (state pool0) = [{| er_token := uuid_to_string 103; er_agent := web1; er_at := now0 |}] ∧
  NoDup (er_token <$> enrolled (state pool0)).
Proof.
  split; [vm_compute; reflexivity|].
  exact (proj1 (enrollment_token_once julian_ms_monotone secret0 no_json no_value map_to_list false false no_url no_text [] pool0 fleet0_reached)).
Defined.

Lemma revocation_complete_witness :
  is_Some (Registry.senders (sessions (state (execute admits (take 20 schedule0) {| state := new_fleet; threads := programs0 |}))) !! web1) ∧
  threads pool0 !! 3%nat = Some (Ret (Ok (AgentRevoked web1))) ∧ web1 ∈ Registry.revoked (sessions (state pool0)).
Proof.
  split; [vm_compute; by eexists|]. assert (threads pool0 !! 3%nat = Some (Ret (Ok (AgentRevoked web1)))) as Ht by (vm_compute; reflexivity). split; [exact Ht|].
  refine (proj1 (proj2 (revocation_complete julian_ms_monotone secret0 no_json no_value map_to_list false false no_url no_text [] pool0 3 _ web1 fleet0_reached Ht _ _))).
  - unfold uuid_ok, web1. lia.
  - reflexivity.
Defined.

(** ** Streams and dashboards *)

(** After the enrolment. *)
Definition fleet1 : Fleet := state (execute admits (take 14 schedule0) {| state := new_fleet; threads := programs0 |}).
Definition envs (n : Z) (k : nat) : list (Env unit) := (fun i => env (n + Z.of_nat i)) <$> seq 0 k.
(** The step [k] of a program that runs alone. *)
Definition nth_step {A} (k : nat) (m : Proc (Env unit) Fleet A) (s : Fleet) : Env unit * Fleet * Fleet := default (env 0, s, s) (solo (envs 200 30) m s !! k).
Definition steps_before {A} (k : nat) (m : Proc (Env unit) Fleet A) (s : Fleet) : list (Env unit * Fleet) := fst <$> take k (solo (envs 200 30) m s).

Definition stream1 := session (E := unit) secret0 no_json no_value map_to_list false false (lit "198.51.100.7") bearer0 [Heartbeat].
Lemma stream1_step : solo (envs 200 30) stream1 fleet1 !! 4%nat = Some (nth_step 4 stream1 fleet1).
Proof. vm_compute. reflexivity. Qed.
Lemma stream_confined_witness :
  Registry.senders (sessions (nth_step 4 stream1 fleet1).2) !! web1 = Some {| Registry.sender := 7; Registry.changes := 8 |} ∧
  (let '(_, s, s') := nth_step 4 stream1 fleet1 in
   s' = s ∨ (∃ c, FleetStreamsProofs.refusal c ∧ s' = set_calls (calls s ++ [c]) s) ∨
   ∃ a, FleetStreamsProofs.authenticated secret0 (lit "198.51.100.7") bearer0 (steps_before 4 stream1 fleet1) a ∧
     FleetStreamsProofs.confined (steps_before 4 stream1 fleet1) a s s').
Proof.
  split; [vm_compute; reflexivity|]. pose proof stream1_step as Hs. destruct (nth_step 4 stream1 fleet1) as [[e s] s'].
  refine (FleetStreamsProofs.stream_confined secret0 no_json no_value map_to_list false false (fun m => Permutation_refl _) (lit "198.51.100.7") bearer0
    stream1 (steps_before 4 stream1 fleet1) e s s' _ _).
  - apply FleetStreamsProofs.session_stream.
  - exact (solo_makes _ _ _ _ _ _ _ Hs).
Defined.

(** Ada watches; the Agent reports its load. *)
Definition fleet2 : Fleet := set_hub (Realtime.publish map_to_list (new_event (lit "host_state") web1 JNull now0) (hub fleet1)) fleet1.
Definition no_headers (name : rstr) : list (list Z) := [].
Definition dashboard1 := ws_servers (E := unit) map_to_list no_url no_headers [] ada_session true [PingDue true].
Lemma dashboard1_step : solo (envs 200 30) dashboard1 fleet2 !! 4%nat = Some (nth_step 4 dashboard1 fleet2).
Proof. vm_compute. reflexivity. Qed.
Lemma dashboard_confined_witness :
  written (nth_step 4 dashboard1 fleet2).2 = [(ada_session, Snapshot [new_event (lit "host_state") web1 JNull now0])] ∧
  (let '(_, s, s') := nth_step 4 dashboard1 fleet2 in
   written s' = written s ∨
   ∃ frame, written s' = written s ++ [(ada_session, frame)] ∧ FleetStreamsProofs.shown ada_session (steps_before 4 dashboard1 fleet2) frame ∧
     Auth.has_scope ada_session (lit "server:read") = true ∧ Security.validate_websocket_origin Auth.header_to_str no_url no_headers [] = true).
Proof.
  split; [vm_compute; reflexivity|]. pose proof dashboard1_step as Hs. destruct (nth_step 4 dashboard1 fleet2) as [[e s] s'].
  exact (FleetStreamsProofs.dashboard_confined map_to_list ada_session no_url no_headers [] true [PingDue true] (steps_before 4 dashboard1 fleet2) e s s'
    (solo_makes _ _ _ _ _ _ _ Hs)).
Defined.

(** ** Ownership *)

Definition transfer_request : BatchUpdateServersRequest :=
  {| bq_server_ids := [uuid_to_string web1]; bq_action := TransferOwner; bq_tags := []; bq_dashboard_visible := None;
     bq_owner_user_id := Some (uuid_to_string 6); bq_group_id := None |}.
Definition transfer1 := batch_update_servers (E := unit) no_value no_text [] ada_session (lit "203.0.113.9") transfer_request.
Lemma transfer1_step : solo (envs 200 30) transfer1 fleet1 !! 5%nat = Some (nth_step 5 transfer1 fleet1).
Proof. vm_compute. reflexivity. Qed.
(** The row of the Agent, before and after. *)
Definition row_before : AgentRow := default {| ag_id := []; ag_name := []; ag_public_key := []; ag_owner_user_id := []; ag_last_seen_at := None; ag_revoked_at := None;
  ag_created_at := []; ag_updated_at := []; ag_remark := None; ag_expires_at := None; ag_renewal_price := None; ag_dashboard_metadata_json := None;
  ag_last_state_json := None; ag_last_state_at := None; ag_last_info_json := None; ag_last_info_at := None |} (head (agents fleet1)).
Definition row_after : AgentRow := default row_before (head (agents (nth_step 5 transfer1 fleet1).2)).

Lemma ownership_audited_witness :
  ag_owner_user_id row_before = uuid_to_string 5 ∧ ag_owner_user_id row_after = uuid_to_string 6 ∧
  ∃ t, FleetProofs.by_admin ada_session ∧ t ∈ transfers (nth_step 5 transfer1 fleet1).2 ∧ tf_status t = lit "completed" ∧
    tf_from_user_id t = Some (uuid_to_string 5).
Proof.
  split; [vm_compute; reflexivity|]. split; [vm_compute; reflexivity|].
  assert (NoDup (ag_id <$> agents (nth_step 5 transfer1 fleet1).1.2)) as Hnd by (vm_compute; apply NoDup_singleton).
  assert (transfers (nth_step 5 transfer1 fleet1).1.2 = []) as Htr by (vm_compute; reflexivity).
  assert (row_before ∈ agents (nth_step 5 transfer1 fleet1).1.2) as Hin by (vm_compute; by left).
  assert (row_after ∈ agents (nth_step 5 transfer1 fleet1).2) as Hin' by (vm_compute; by left).
  assert (ag_id row_after = ag_id row_before) as Hid by (vm_compute; reflexivity).
  assert (ag_owner_user_id row_before = uuid_to_string 5) as Ho by (vm_compute; reflexivity).
  assert (ag_owner_user_id row_after ≠ ag_owner_user_id row_before) as Hne by (vm_compute; discriminate).
  pose proof transfer1_step as Hs. revert Hs Hnd Htr Hin Hin'. destruct (nth_step 5 transfer1 fleet1) as [[e s] s']. cbn [fst snd].
  intros Hs Hnd Htr Hin Hin'.
  destruct (FleetProofs.ownership_audited secret0 no_json no_value map_to_list false false no_url no_text []
    (Some ada_session) transfer1 (steps_before 5 transfer1 fleet1) e s s' row_before row_after) as (auth & t & [= <-] & Ha & _ & Ht & Hst & Hf & _); try assumption.
  - apply asked_batch.
  - exact (solo_makes _ _ _ _ _ _ _ Hs).
  - intros i _. rewrite Htr. apply not_elem_of_nil.
  - exists t. split; [exact Ha|]. split; [exact Ht|]. split; [exact Hst|]. rewrite Hf. by rewrite Ho.
Defined.

(** ** Metadata *)

Definition no_change : UpdateServerRequest :=
  {| ur_name := None; ur_remark := None; ur_expires_at := None; ur_renewal_price := None; ur_public_note := None; ur_price := None; ur_currency := None;
     ur_billing_cycle := None; ur_auto_renew := None; ur_traffic_quota_bytes := None; ur_traffic_quota_type := None; ur_provider := None; ur_region := None;
     ur_country := None; ur_city := None; ur_latitude := None; ur_longitude := None; ur_plan := None; ur_tags := None; ur_accent_color := None;
     ur_dashboard_visible := None; ur_hide_for_guest := None; ur_display_order := None |}.
Definition hide : UpdateServerRequest :=
  {| ur_name := Some (lit "web-2"); ur_remark := None; ur_expires_at := None; ur_renewal_price := None; ur_public_note := None; ur_price := None; ur_currency := None;
     ur_billing_cycle := None; ur_auto_renew := None; ur_traffic_quota_bytes := None; ur_traffic_quota_type := None; ur_provider := None; ur_region := None;
     ur_country := None; ur_city := None; ur_latitude := None; ur_longitude := None; ur_plan := None; ur_tags := None; ur_accent_color := None;
     ur_dashboard_visible := Some false; ur_hide_for_guest := None; ur_display_order := None |}.
Definition update1 := update_server (E := unit) no_value [] ada_session (uuid_to_string web1) hide.
Lemma update1_step : solo (envs 200 30) update1 fleet1 !! 3%nat = Some (nth_step 3 update1 fleet1).
Proof. vm_compute. reflexivity. Qed.
(** ** Races

    The steps of a schedule that starts in a given state. *)
Definition race (programs : list (P (Env unit) Fleet (Accounts.AppError unit) Response)) (order : list nat) (s : Fleet) : Fleet :=
  state (execute admits (imap (fun i k => (k, env (300 + Z.of_nat i))) order) {| state := s; threads := programs |}).

(** A script with an access token, which may not change the visibility, saves the
    server as it read it; Ada hides it in between; the script's write makes it
    visible again. *)
Lemma stale_metadata_reverts_hiding :
  ag_dashboard_metadata_json <$> agents (race
    [finish (update_server (E := unit) no_value [] script_session (uuid_to_string web1) no_change);
     finish (update_server (E := unit) no_value [] ada_session (uuid_to_string web1) hide)]
    [0; 1; 1; 1; 1; 0; 0; 0]%nat fleet1) = [Some (lit "n-")] ∧
  ag_dashboard_metadata_json <$> agents (race
    [finish (update_server (E := unit) no_value [] script_session (uuid_to_string web1) no_change);
     finish (update_server (E := unit) no_value [] ada_session (uuid_to_string web1) hide)]
    [0; 1; 1; 1; 1]%nat fleet1) = [Some (lit "f-")].
Proof. split; vm_compute; reflexivity. Qed.

(** A terminal subscribes to a stream of the Agent once its I/O stream is open. The
    Agent sends a frame on that stream and one on a stream nobody subscribed to;
    the first is in the terminal's inbox, under the Agent's identifier. *)
Definition frame1 (sid : rstr) : IoStreams.IoFrame :=
  {| IoStreams.stream_id := sid; IoStreams.sequence := 1; IoStreams.f_agent_id := []; IoStreams.payload := Some (IoStreams.Data [104; 105]) |}.
Lemma frames_reach_the_subscriber :
  let s := race [finish (io_stream (E := unit) secret0 (lit "198.51.100.7") bearer0 [frame1 (lit "term-2"); frame1 (lit "term-1")]);
                 finish (subscribe_stream (lit "term-1") web1 : P (Env unit) Fleet (Accounts.AppError unit) unit)]
                [0; 0; 0; 0; 0; 0; 1; 0; 0; 0; 0]%nat fleet1 in
  IoStreams.inboxes (io s) !! 7 =
    Some {| IoStreams.frames := [{| IoStreams.stream_id := lit "term-1"; IoStreams.sequence := 1; IoStreams.f_agent_id := uuid_to_string web1;
                                    IoStreams.payload := Some (IoStreams.Data [104; 105]) |}]; IoStreams.is_closed := false |}.
Proof. vm_compute. reflexivity. Qed.

(** Two retries of one failed transfer: the second finds the owner changed and
    marks the transfer failed that the first has completed. *)
Definition failed_transfer : TransferRow :=
  new_transfer (uuid_to_string 50) (uuid_to_string web1) (uuid_to_string 5) (uuid_to_string 6) ada_session (lit "failed") (Some (lit "x")) None (to_rfc3339 now0).
Definition fleet4 : Fleet := set_transfers [failed_transfer] fleet1.
Definition retry1 : P (Env unit) Fleet (Accounts.AppError unit) Response := finish (retry_server_owner_transfer (E := unit) ada_session (lit "203.0.113.9") (uuid_to_string 50)).
Lemma retry_race_marks_completed_failed :
  let s := race [retry1; retry1] [0; 0; 0; 0; 1; 1; 1; 1; 0; 0; 1; 1; 1; 1]%nat fleet4 in
  (tf_status <$> transfers s) = [lit "failed"] ∧ (ag_owner_user_id <$> agents s) = [uuid_to_string 6].
Proof. split; vm_compute; reflexivity. Qed.
End FleetExamples.
