(* ===== verification/OAuth.v ===== *)
(** * OAuth: login and account binding through an identity provider

    [crates/server/src/api/v1/oauth.rs]. The signed state of a flow and its
    cookie, the requests to the provider, the table [oauth_accounts], and the
    handlers as programs whose steps interleave with those of other handlers. A
    call into [Accounts], [Sessions] or [Users] is one step; a request to the
    provider is one step. The client address is what
    [Security.client_ip_from_headers_and_peer] gives. *)

From S2P Require Import Prelude Text Json Externals Auth Net Security Rfc3339 Tables Sessions Users Secrets Accounts Interleave.

Module OAuth.
Import Tables Interleave.

Definition OAUTH_STATE_COOKIE_NAME : rstr := lit "xlstatus_oauth_state".
Definition OAUTH_STATE_COOKIE_PATH : rstr := lit "/api/v1/oauth2".
Definition OAUTH_STATE_TTL_SECONDS : Z := 10 * 60.
Definition OAUTH_MAX_PROVIDER_ID_BYTES : Z := 64.
Definition OAUTH_MAX_QUERY_BYTES : Z := 16 * 1024.
Definition OAUTH_MAX_STATE_BYTES : Z := 4096.
Definition OAUTH_MAX_RETURN_TO_BYTES : Z := 1024.
Definition OAUTH_MAX_CODE_BYTES : Z := 4096.
Definition OAUTH_MAX_ERROR_BYTES : Z := 1024.
Definition OAUTH_MAX_TOKEN_RESPONSE_BYTES : Z := 16 * 1024.
Definition OAUTH_MAX_USERINFO_RESPONSE_BYTES : Z := 64 * 1024.
Definition OAUTH_MAX_ACCESS_TOKEN_BYTES : Z := 8192.
Definition OAUTH_MAX_CLAIM_BYTES : Z := 1024.
Definition OAUTH_ALLOW_USERINFO_QUERY_TOKEN_ENV : rstr := lit "XLSTATUS_ALLOW_OIDC_USERINFO_QUERY_TOKEN".

(** ** Data *)

(** [extra_auth_params] in the order the map is visited. *)
Record OidcProviderConfig := {
  id : rstr; display_name : option rstr; auth_url : rstr; token_url : rstr; userinfo_url : rstr; client_id : rstr;
  client_secret : rstr; redirect_url : rstr; scopes : list rstr; token_auth_method : rstr; userinfo_auth_method : rstr;
  extra_auth_params : list (rstr * rstr); subject_field : rstr; email_field : rstr; name_field : rstr; username_field : rstr;
}.

Inductive OAuthFlow : Type := Login | Bind.
Record OAuthState := {
  provider : rstr; flow : OAuthFlow; user_id : option rstr; return_to : rstr; nonce : rstr; exp : Z;
}.
Record OAuthCallbackQuery := { code : option rstr; state : rstr; error : option rstr; error_description : option rstr }.
Record OidcUserInfo := { sub : rstr; email : option rstr; name : option rstr; preferred_username : option rstr }.
Inductive TokenAuthMethod : Type := ClientSecretPost | ClientSecretBasic | TokenNone.
Inductive UserinfoAuthMethod : Type := Bearer | Query | UserinfoNone.

(** A row of [oauth_accounts]. *)
Record OAuthRow := {
  oa_id : rstr; oa_user_id : rstr; oa_provider : rstr; oa_subject : rstr; oa_email : option rstr; oa_display_name : option rstr;
  oa_created_at : rstr; oa_updated_at : rstr;
}.
Record OAuthAccountView := { av_provider_display_name : rstr; av_row : OAuthRow }.

#[global] Instance flow_eq_dec : EqDecision OAuthFlow.
Proof. solve_decision. Defined.

(** ** Requests to the provider *)

Record HttpRequest := {
  rq_post : bool; rq_to : Security.ValidatedOutboundUrl; rq_query : list (rstr * rstr); rq_form : list (rstr * rstr);
  rq_basic : option (rstr * rstr); rq_bearer : option rstr;
}.
(** The body is read chunk by chunk; reading a chunk can fail. *)
Record HttpReply := { rp_success : bool; rp_status : rstr; rp_content_length : option Z; rp_chunks : list (result rstr (list Z)) }.

(** What the crates [serde_json], [hex], [reqwest] and [axum] provide, with the
    text of their errors. *)
Class OAuthLib `{Auth.Crypto} : Type := {
  state_to_vec : OAuthState → result rstr (list Z);
  state_from_slice : list Z → result rstr OAuthState;
  hex_decode : rstr → result rstr (list Z);
  token_from_slice : list Z → result rstr rstr;             (** [TokenResponse], its [access_token] *)
  value_from_slice : list Z → result rstr json;
  pointer : json → rstr → option json;
  number_to_string : number → rstr;
  Url : Type;
  parse_with_params : rstr → list (rstr * rstr) → result rstr Url;
  append_pair : Url → rstr → rstr → Url;
  url_to_string : Url → rstr;
  parse_start_query : rstr → option (option rstr);           (** [OAuthStartQuery], its [return_to] *)
  parse_callback_query : rstr → option OAuthCallbackQuery;
  header_error : rstr → option rstr;                         (** why [HeaderValue::from_str] refuses a text *)
  uuid_error : rstr → rstr;
  outbound_error : rstr → Security.OutboundError → rstr;    (** with the label of the URL *)
}.

(** ** Checks on text *)

Section checks.
Context {E : Type}.
Abbreviation R := (result (Accounts.AppError E)).
Definition bad {A} (text : rstr) : R A := Err (Accounts.BadRequest text).

Definition ensure_oauth_text_size (value : rstr) (min_bytes max_bytes : Z) (field : rstr) : R unit :=
  let len := byte_len value in
  if (len <? min_bytes) || (max_bytes <? len)
  then bad (field ++ lit " must be between " ++ print_i64 min_bytes ++ lit " and " ++ print_i64 max_bytes ++ lit " bytes") else Ok ().

Definition provider_byte (b : Z) : bool := is_ascii_alphanumeric b || (b =? 45) || (b =? 95) || (b =? 46).
Definition normalize_oauth_provider_id (value : rstr) : R rstr :=
  let value := trim value in
  if is_empty value then bad (lit "OAuth provider is required") else
  if OAUTH_MAX_PROVIDER_ID_BYTES <? byte_len value
  then bad (lit "OAuth provider must be at most " ++ print_i64 OAUTH_MAX_PROVIDER_ID_BYTES ++ lit " bytes") else
  if negb (forallb provider_byte (str_bytes value)) then bad (lit "OAuth provider contains invalid characters") else Ok value.

Definition strip_suffix (p s : rstr) : option rstr :=
  if ends_with p s then Some (take (length s - length p) s) else None.
Definition parse_oauth_provider_path (path : rstr) (bind : bool) : R rstr :=
  let invalid := lit "OAuth provider path is invalid" in
  match Auth.strip_prefix (lit "/api/v1/oauth2/") path with
  | None => bad invalid
  | Some rest =>
      provider_id ← (if bind then match strip_suffix (lit "/bind") rest with Some x => Ok x | None => bad invalid end else Ok rest);
      if contains 47 provider_id then bad invalid else normalize_oauth_provider_id provider_id
  end.

Definition valid_local_return_to (value : rstr) : bool :=
  starts_with (lit "/") value && negb (starts_with (lit "//") value) && (byte_len value <=? OAUTH_MAX_RETURN_TO_BYTES)
  && negb (contains 92 value) && negb (existsb Sessions.is_ascii_control (str_bytes value)).
Definition sanitize_return_to (value : option rstr) : rstr :=
  match value with
  | Some item => if valid_local_return_to item then item else lit "/dashboard"
  | None => lit "/dashboard"
  end.

Definition method_char (c : Z) : Z := if (c =? 45) || (c =? 32) then 95 else c.
Definition normalize_method_name (value : rstr) : rstr := method_char <$> to_ascii_lowercase (trim value).
Definition parse_token_auth_method (value : rstr) : R TokenAuthMethod :=
  let m := normalize_method_name value in
  if contains m (lit <$> ["client_secret_post"; "post"]) then Ok ClientSecretPost else
  if contains m (lit <$> ["client_secret_basic"; "basic"]) then Ok ClientSecretBasic else
  if contains m (lit <$> ["none"; "public"]) then Ok TokenNone else bad (lit "unsupported OAuth token_auth_method: " ++ value).
Definition parse_userinfo_auth_method (value : rstr) : R UserinfoAuthMethod :=
  let m := normalize_method_name value in
  if contains m (lit <$> ["bearer"; "bearer_header"; "authorization_header"]) then Ok Bearer else
  if contains m (lit <$> ["query"; "access_token_query"]) then Ok Query else
  if contains m [lit "none"] then Ok UserinfoNone else bad (lit "unsupported OIDC userinfo_auth_method: " ++ value).
Definition ensure_userinfo_auth_method_allowed (method : UserinfoAuthMethod) (allow_query_token : bool) : R unit :=
  match method with
  | Query => if allow_query_token then Ok () else bad (lit "OIDC userinfo query token auth is disabled")
  | _ => Ok ()
  end.
Definition allow_oidc_userinfo_query_token_value (value : option rstr) : bool :=
  match value with
  | Some v => contains (to_ascii_lowercase (trim v)) (lit <$> ["1"; "true"; "yes"])
  | None => false
  end.
Definition allow_oidc_userinfo_query_token (vars : Security.Env) : bool :=
  allow_oidc_userinfo_query_token_value (vars OAUTH_ALLOW_USERINFO_QUERY_TOKEN_ENV).

Definition is_reserved_auth_param (key : rstr) : bool :=
  contains (to_ascii_lowercase key) (lit <$> ["response_type"; "client_id"; "redirect_uri"; "scope"; "state"; "nonce"]).

Definition normalize_oauth_claim (value label : rstr) : R rstr :=
  let trimmed := trim value in
  if is_empty trimmed then bad (label ++ lit " is empty") else
  ensure_oauth_text_size trimmed 1 OAUTH_MAX_CLAIM_BYTES label;; Ok trimmed.

Definition ensure_oauth_query_size (query : option rstr) : R unit :=
  if OAUTH_MAX_QUERY_BYTES <? byte_len (default [] query)
  then bad (lit "OAuth query must be at most " ++ print_i64 OAUTH_MAX_QUERY_BYTES ++ lit " bytes") else Ok ().

Definition bind_cookie_session_matches (state_user_id : Z) (cookie_user_id : option Z) : R unit :=
  match cookie_user_id with
  | Some c => if c =? state_user_id then Ok () else Err (Accounts.Forbidden (lit "OAuth bind session does not match state user"))
  | None => Err (Accounts.Unauthorized (lit "OAuth bind requires an active cookie session"))
  end.
Definition require_cookie_session (u : Accounts.AuthUser) : R unit :=
  if Auth.is_pat (Accounts.au_kind u) then Err (Accounts.Forbidden (lit "Cookie session required")) else Ok ().
End checks.

(** ** The signed state of a flow *)

(** [cookie_jar.get(name)], its value. *)
Abbreviation CookieJar := (rstr → option rstr).

Section signed.
Context {E : Type} `{OAuthLib}.
Abbreviation R := (result (Accounts.AppError E)).

Definition constant_time_eq (left right : list Z) : bool := Auth.constant_time_eq left right.
(** [HmacSha256::new_from_slice] takes a key of any length. *)
Definition sign_state (secret : rstr) (payload : list Z) : rstr := Auth.hex_encode (Auth.hmac_sha256 (str_bytes secret) payload).

Definition encode_state (secret : rstr) (st : OAuthState) : R rstr :=
  match state_to_vec st with
  | Err e => bad (lit "OAuth state encode failed: " ++ e)
  | Ok payload => let payload_hex := Auth.hex_encode payload in Ok (payload_hex ++ lit "." ++ sign_state secret (str_bytes payload_hex))
  end.

Definition decode_state (secret encoded : rstr) (now : Z) : R OAuthState :=
  ensure_oauth_text_size encoded 1 OAUTH_MAX_STATE_BYTES (lit "OAuth state");;
  match split_once 46 encoded with
  | None => bad (lit "OAuth state is invalid")
  | Some (payload_hex, signature) =>
      if (OAUTH_MAX_STATE_BYTES <? byte_len payload_hex) || negb (byte_len signature =? 64) then bad (lit "OAuth state is invalid") else
      if negb (forallb Auth.is_ascii_hexdigit (str_bytes payload_hex)) || negb (forallb Auth.is_ascii_hexdigit (str_bytes signature))
      then bad (lit "OAuth state is invalid") else
      if negb (constant_time_eq (str_bytes signature) (str_bytes (sign_state secret (str_bytes payload_hex))))
      then bad (lit "OAuth state signature is invalid") else
      match hex_decode payload_hex with
      | Err e => bad (lit "OAuth state payload is invalid: " ++ e)
      | Ok payload =>
          match state_from_slice payload with
          | Err e => bad (lit "OAuth state payload is invalid: " ++ e)
          | Ok st => if exp st <? timestamp now then bad (lit "OAuth state has expired") else Ok st
          end
      end
  end.

Definition oauth_state_cookie_value (encoded_state : rstr) : rstr := Auth.hash_token encoded_state.

Definition oauth_state_cookie_matches (jar : CookieJar) (encoded_state : rstr) : R unit :=
  match jar OAUTH_STATE_COOKIE_NAME with
  | None => Err (Accounts.Unauthorized (lit "OAuth state cookie is missing"))
  | Some cookie =>
      if constant_time_eq (str_bytes cookie) (str_bytes (oauth_state_cookie_value encoded_state)) then Ok ()
      else Err (Accounts.Forbidden (lit "OAuth state cookie does not match"))
  end.

Definition header_from_str (text : rstr) : R rstr :=
  match header_error text with None => Ok text | Some e => bad (lit "Invalid OAuth state cookie: " ++ e) end.
Definition oauth_state_cookie_header (cookie_secure : bool) (encoded_state : rstr) : R rstr :=
  header_from_str (OAUTH_STATE_COOKIE_NAME ++ lit "=" ++ oauth_state_cookie_value encoded_state ++ lit "; HttpOnly; SameSite=Lax; Path="
    ++ OAUTH_STATE_COOKIE_PATH ++ lit "; Max-Age=" ++ print_i64 OAUTH_STATE_TTL_SECONDS ++ Accounts.cookie_secure_attr cookie_secure).
Definition oauth_state_cookie_clear_header (cookie_secure : bool) : R rstr :=
  header_from_str (OAUTH_STATE_COOKIE_NAME ++ lit "=; HttpOnly; SameSite=Lax; Path=" ++ OAUTH_STATE_COOKIE_PATH ++ lit "; Max-Age=0"
    ++ Accounts.cookie_secure_attr cookie_secure).

(** ** Redirections *)

Definition auth_params (p : OidcProviderConfig) (st nonce_ : rstr) : list (rstr * rstr) :=
  [(lit "response_type", lit "code"); (lit "client_id", client_id p); (lit "redirect_uri", redirect_url p);
   (lit "scope", join (lit " ") (scopes p)); (lit "state", st); (lit "nonce", nonce_)].
Definition extra_pair (u : Url) (kv : rstr * rstr) : Url :=
  let key := trim kv.1 in if is_empty key || is_reserved_auth_param key then u else append_pair u key kv.2.
Definition authorize_url (p : OidcProviderConfig) (st nonce_ : rstr) : R rstr :=
  match parse_with_params (auth_url p) (auth_params p st nonce_) with
  | Err e => bad (lit "invalid OAuth auth URL: " ++ e)
  | Ok url => Ok (url_to_string (foldl extra_pair url (extra_auth_params p)))
  end.

Definition frontend_redirect (frontend_redirect_url : rstr) (st : OAuthState) (success : bool) (message : rstr) : R rstr :=
  match parse_with_params frontend_redirect_url
          [(lit "oauth", if success then lit "success" else lit "error"); (lit "message", message); (lit "return_to", return_to st)] with
  | Err e => bad (lit "invalid OAuth frontend redirect URL: " ++ e)
  | Ok url => Ok (url_to_string url)
  end.

(** ** Answers of the provider *)

Fixpoint read_chunks (chunks : list (result rstr (list Z))) (bytes : list Z) (max_bytes : Z) (label : rstr) : R (list Z) :=
  match chunks with
  | [] => Ok bytes
  | Err e :: _ => bad (label ++ lit " read failed: " ++ e)
  | Ok chunk :: chunks =>
      if max_bytes <? zlen bytes + zlen chunk then bad (label ++ lit " exceeds " ++ print_i64 max_bytes ++ lit " bytes")
      else read_chunks chunks (bytes ++ chunk) max_bytes label
  end.
Definition parse_limited_json_bytes {T} (from_slice : list Z → result rstr T) (bytes : list Z) (max_bytes : Z) (label : rstr) : R T :=
  if max_bytes <? zlen bytes then bad (label ++ lit " exceeds " ++ print_i64 max_bytes ++ lit " bytes") else
  match from_slice bytes with Ok t => Ok t | Err e => bad (label ++ lit " is invalid: " ++ e) end.
Definition parse_limited_json_response {T} (from_slice : list Z → result rstr T) (reply : HttpReply) (max_bytes : Z) (label : rstr) : R T :=
  if match rp_content_length reply with Some length => max_bytes <? length | None => false end
  then bad (label ++ lit " exceeds " ++ print_i64 max_bytes ++ lit " bytes") else
  bytes ← read_chunks (rp_chunks reply) [] max_bytes label;
  parse_limited_json_bytes from_slice bytes max_bytes label.

Definition json_scalar (value : json) : option rstr :=
  match value with
  | JString s => let trimmed := trim s in if is_empty trimmed then None else Some trimmed
  | JNumber n => Some (number_to_string n)
  | JBool b => Some (if b then lit "true" else lit "false")
  | _ => None
  end.

Fixpoint by_path (current : json) (parts : list rstr) : option json :=
  match parts with
  | [] => Some current
  | part :: parts =>
      let part := trim part in
      if is_empty part then None else next ← json_get part current; by_path next parts
  end.
Definition userinfo_field (raw : json) (field label : rstr) : R (option rstr) :=
  let field := trim field in
  if is_empty field then Ok None else
  let value := if starts_with (lit "/") field then pointer raw field else by_path raw (split_by (Z.eqb 46) field) in
  match value ≫= json_scalar with
  | Some v => v ← normalize_oauth_claim v label; Ok (Some v)
  | None => Ok None
  end.
Definition normalize_userinfo (p : OidcProviderConfig) (raw : json) : R OidcUserInfo :=
  subject ← userinfo_field raw (subject_field p) (lit "OIDC subject");
  subject ← ok_or subject (Accounts.BadRequest (lit "OIDC userinfo missing subject"));
  mail ← userinfo_field raw (email_field p) (lit "OIDC email");
  nm ← userinfo_field raw (name_field p) (lit "OIDC name");
  un ← userinfo_field raw (username_field p) (lit "OIDC username");
  if is_empty (trim subject) then bad (lit "OIDC userinfo missing subject")
  else Ok {| sub := subject; email := mail; name := nm; preferred_username := un |}.
End signed.

(** ** State and environment

    [sent] is what was sent to providers. At each step the environment supplies
    the clock, random bytes, identifiers and failing statements of [Tables], name
    resolution, whether an HTTP client could be built, and the answer of the
    provider to a request. *)

Record State := { tables : Tables; accounts : list OAuthRow; sent : list HttpRequest }.
Definition set_tables x s : State := {| tables := x; accounts := accounts s; sent := sent s |}.
Definition set_accounts x s : State := {| tables := tables s; accounts := x; sent := sent s |}.
Definition set_sent x s : State := {| tables := tables s; accounts := accounts s; sent := x |}.

Record Env (E : Type) := {
  oracle : Oracle E; lookup_host : rstr → Z → option (list Security.SocketAddr); client_error : option rstr;
  exchange : HttpRequest → result rstr HttpReply;
}.
Arguments oracle {E}. Arguments lookup_host {E}. Arguments client_error {E}. Arguments exchange {E}.

(** [frontend_redirect_url] and the providers, [security.session_secret],
    [security.session_ttl_hours] and [security.cookie_secure]. *)
Record Config := {
  providers : list OidcProviderConfig; frontend_redirect_url : rstr; session_secret : rstr; session_ttl_hours : Z; cookie_secure : bool;
}.
(** [OAuth2Config::provider]. *)
Definition find_provider (c : Config) (provider_id : rstr) : option OidcProviderConfig :=
  head (filter (fun p => id p = provider_id) (providers c)).

Inductive Response : Type :=
| Redirect (cookies : list rstr) (location : rstr)
| Started (cookies : list rstr) (authorization_url : rstr)
| Bindings (l : list OAuthAccountView)
| Unbound.

Section handlers.
Context {E : Type} `{UuidLib, Rfc3339, Users.Argon2, Secrets.SecretLib, OAuthLib}.
Context (hmac_sha1 : list Z → list Z → list Z) (cell : option Secrets.SecretCrypto) (url_parse : rstr → option Security.Url).
Context (vars : Security.Env) (config : Config) (header_ok : rstr → bool).
Abbreviation PO := (P (Env E) State (Accounts.AppError E)).

(** A call into the account modules. *)
Definition call {A} (m : Oracle E → M (Accounts.AppError E) A) : PO A :=
  atomic (fun e s => let '(r, w) := m (oracle e) {| db := tables s; tick := 0%nat |} in (r, set_tables (db w) s)).
Definition now_ : PO Z := call (fun o => utc_now o).
(** A statement, or a transaction, on [oauth_accounts]. *)
Definition statement {A} (f : Env E → State → result (Accounts.AppError E) A * State) : PO A :=
  atomic (fun e s => match fault (oracle e) 0%nat with Some x => (Err (Accounts.Database (Sqlx x)), s) | None => f e s end).
Definition refuse {A} (text : rstr) : PO A := throw (Accounts.BadRequest text).

Definition oauth_provider (provider_id : rstr) : result (Accounts.AppError E) OidcProviderConfig :=
  provider_id ← normalize_oauth_provider_id provider_id;
  ok_or (find_provider config provider_id) (Accounts.NotFound (lit "OAuth provider not found")).
Definition parse_user_id (text : rstr) : result (Accounts.AppError E) Z :=
  ok_or (uuid_parse text) (Accounts.BadRequest (lit "invalid user id: " ++ uuid_error text)).

(** *** Talking to the provider *)

(** [validate_outbound_url_resolved] and the client built for its addresses. *)
Definition outbound (url label : rstr) : PO Security.ValidatedOutboundUrl :=
  checked ← observe (fun e => Security.validate_outbound_url_resolved (lookup_host e) url_parse vars url);
  match checked with
  | Err x => refuse (outbound_error label x)
  | Ok validated => mret validated
  end.
Definition build_client (failure : rstr) : PO unit :=
  problem ← observe client_error;
  match problem with None => mret () | Some e => refuse (failure ++ e) end.
(** [request.send()] and the test of its status. *)
Definition send (request : HttpRequest) (failure : rstr) : PO HttpReply :=
  answer ← atomic (fun e s => (Ok (exchange e request), set_sent (sent s ++ [request]) s));
  match answer with
  | Err e => refuse (failure ++ lit " failed: " ++ e)
  | Ok reply => if rp_success reply then mret reply else refuse (failure ++ lit " failed with " ++ rp_status reply)
  end.

Definition token_form (p : OidcProviderConfig) (method : TokenAuthMethod) (code_ : rstr) : list (rstr * rstr) :=
  [(lit "grant_type", lit "authorization_code"); (lit "code", code_); (lit "redirect_uri", redirect_url p)] ++
  match method with
  | ClientSecretPost => [(lit "client_id", client_id p); (lit "client_secret", client_secret p)]
  | ClientSecretBasic => []
  | TokenNone => [(lit "client_id", client_id p)]
  end.
Definition token_request (p : OidcProviderConfig) (to : Security.ValidatedOutboundUrl) (method : TokenAuthMethod) (code_ : rstr) : HttpRequest :=
  {| rq_post := true; rq_to := to; rq_query := []; rq_form := token_form p method code_;
     rq_basic := match method with ClientSecretBasic => Some (client_id p, client_secret p) | _ => None end; rq_bearer := None |}.
Definition needs_secret (method : TokenAuthMethod) : bool := match method with TokenNone => false | _ => true end.
Definition exchange_code (p : OidcProviderConfig) (code_ : rstr) : PO rstr :=
  validated ← outbound (token_url p) (lit "OAuth token endpoint");
  build_client (lit "OAuth token client init failed: ");;
  method ← of_result (parse_token_auth_method (token_auth_method p));
  if needs_secret method && is_empty (trim (client_secret p))
  then refuse (lit "OAuth client_secret is required for the configured token auth method") else
  reply ← send (token_request p validated method code_) (lit "OAuth token request");
  token ← of_result (parse_limited_json_response token_from_slice reply OAUTH_MAX_TOKEN_RESPONSE_BYTES (lit "OAuth token response"));
  of_result (ensure_oauth_text_size token 1 OAUTH_MAX_ACCESS_TOKEN_BYTES (lit "OAuth access_token"));;
  mret token.

Definition userinfo_request (to : Security.ValidatedOutboundUrl) (method : UserinfoAuthMethod) (access_token : rstr) : HttpRequest :=
  {| rq_post := false; rq_to := to; rq_query := match method with Query => [(lit "access_token", access_token)] | _ => [] end;
     rq_form := []; rq_basic := None; rq_bearer := match method with Bearer => Some access_token | _ => None end |}.
Definition fetch_userinfo (p : OidcProviderConfig) (access_token : rstr) : PO OidcUserInfo :=
  method ← of_result (parse_userinfo_auth_method (userinfo_auth_method p));
  of_result (ensure_userinfo_auth_method_allowed method (allow_oidc_userinfo_query_token vars));;
  validated ← outbound (userinfo_url p) (lit "OIDC userinfo endpoint");
  build_client (lit "OIDC userinfo client init failed: ");;
  reply ← send (userinfo_request validated method access_token) (lit "OIDC userinfo request");
  raw ← of_result (parse_limited_json_response value_from_slice reply OAUTH_MAX_USERINFO_RESPONSE_BYTES (lit "OIDC userinfo response"));
  of_result (normalize_userinfo p raw).

(** *** The table [oauth_accounts] *)

Definition is_account (provider_id subject : rstr) (r : OAuthRow) : bool :=
  bool_decide (oa_provider r = provider_id) && bool_decide (oa_subject r = subject).
Definition of_user (provider_id user : rstr) (r : OAuthRow) : bool :=
  bool_decide (oa_provider r = provider_id) && bool_decide (oa_user_id r = user).

Definition find_bound_user (p : OidcProviderConfig) (subject : rstr) : PO (option Z) :=
  row ← statement (fun _ s => (Ok (head (filter (fun r => is_account (id p) subject r = true) (accounts s))), s));
  match row with
  | None => mret None
  | Some r => user ← of_result (parse_user_id (oa_user_id r)); mret (Some user)
  end.

Definition oauth_account_already_bound_error : Accounts.AppError E :=
  Accounts.Forbidden (lit "OAuth account is already bound to another user").
Definition refreshed (info : OidcUserInfo) (now : rstr) (r : OAuthRow) : OAuthRow :=
  {| oa_id := oa_id r; oa_user_id := oa_user_id r; oa_provider := oa_provider r; oa_subject := oa_subject r; oa_email := email info;
     oa_display_name := match name info with Some n => Some n | None => preferred_username info end;
     oa_created_at := oa_created_at r; oa_updated_at := now |}.
Definition new_account (row_id user : rstr) (p : OidcProviderConfig) (info : OidcUserInfo) (now : rstr) : OAuthRow :=
  {| oa_id := row_id; oa_user_id := user; oa_provider := id p; oa_subject := sub info; oa_email := email info;
     oa_display_name := match name info with Some n => Some n | None => preferred_username info end;
     oa_created_at := now; oa_updated_at := now |}.
(** The statements of the transaction. The primary key, the two unique
    constraints and the reference to the user can refuse the new row; a conflict
    on provider and subject inserts nothing. *)
Definition bind_transaction (user : Z) (p : OidcProviderConfig) (info : OidcUserInfo) (row_id now : rstr) (s : State)
    : result (Accounts.AppError E) unit * State :=
  let mine := uuid_to_string user in
  match head (filter (fun r => is_account (id p) (sub info) r = true) (accounts s)) with
  | Some existing =>
      match parse_user_id (oa_user_id existing) with
      | Err x => (Err x, s)
      | Ok other =>
          if negb (other =? user) then (Err oauth_account_already_bound_error, s) else
          (Ok (), set_accounts ((fun r => if is_account (id p) (sub info) r && bool_decide (oa_user_id r = mine)
                                          then refreshed info now r else r) <$> accounts s) s)
      end
  | None =>
      let rest := filter (fun r => of_user (id p) mine r = false) (accounts s) in
      let row := new_account row_id mine p info now in
      if existsb (is_account (id p) (sub info)) rest then (Err oauth_account_already_bound_error, s) else
      if bool_decide (row_id ∈ (oa_id <$> rest)) || existsb (of_user (id p) mine) rest
         || negb (bool_decide (mine ∈ (ur_id <$> users (tables s))))
      then (Err (Accounts.Database (Bail ConstraintViolated)), s)
      else (Ok (), set_accounts (rest ++ [row]) s)
  end.
Definition bind_oauth_account (user : Z) (p : OidcProviderConfig) (info : OidcUserInfo) : PO unit :=
  row_id ← call (fun o => now_v7 o);
  now ← now_;
  statement (fun _ s => bind_transaction user p info (uuid_to_string row_id) (to_rfc3339 now) s).

Definition delete_oauth_account (user : Z) (provider_id : rstr) : PO unit :=
  statement (fun _ s => (Ok (), set_accounts (filter (fun r => of_user provider_id (uuid_to_string user) r = false) (accounts s)) s)).

Definition by_provider (r q : OAuthRow) : Prop := str_leb (oa_provider r) (oa_provider q) = true.
#[global] Instance by_provider_dec r q : Decision (by_provider r q).
Proof. unfold by_provider. apply _. Defined.
Definition oauth_account_view (r : OAuthRow) : OAuthAccountView :=
  {| av_provider_display_name := default (oa_provider r) (find_provider config (oa_provider r) ≫= display_name); av_row := r |}.
Definition load_oauth_accounts (user : Z) : PO (list OAuthAccountView) :=
  statement (fun _ s => (Ok (oauth_account_view <$> merge_sort by_provider
                               (filter (fun r => oa_user_id r = uuid_to_string user) (accounts s))), s)).

(** *** Handlers *)

Definition oauth_redirect_with_state_cookie_clear (st : OAuthState) (success : bool) (message : rstr) : result (Accounts.AppError E) Response :=
  cookie ← oauth_state_cookie_clear_header (cookie_secure config);
  location ← frontend_redirect (frontend_redirect_url config) st success message;
  Ok (Redirect [cookie] location).
Definition oauth_start_response (p : OidcProviderConfig) (st : OAuthState) : result (Accounts.AppError E) Response :=
  encoded ← encode_state (session_secret config) st;
  cookie ← oauth_state_cookie_header (cookie_secure config) encoded;
  location ← authorize_url p encoded (nonce st);
  Ok (Redirect [cookie] location).
Definition oauth_start_json_response (p : OidcProviderConfig) (st : OAuthState) : result (Accounts.AppError E) Response :=
  encoded ← encode_state (session_secret config) st;
  cookie ← oauth_state_cookie_header (cookie_secure config) encoded;
  location ← authorize_url p encoded (nonce st);
  Ok (Started [cookie] location).
Definition random_nonce : PO rstr := call (fun o => bytes ← random_bytes o; mret (Auth.hex_encode bytes)).
(** [Utc::now() + Duration::minutes(10)], in seconds. *)
Definition ten_minutes_on (now : Z) : Z := timestamp (now + seconds 600).

Definition parse_oauth_start_query (query : option rstr) : result (Accounts.AppError E) (option rstr) :=
  ensure_oauth_query_size query;; ok_or (parse_start_query (default [] query)) (Accounts.BadRequest (lit "OAuth query is invalid")).
Definition parse_oauth_callback_query (query : option rstr) : result (Accounts.AppError E) OAuthCallbackQuery :=
  ensure_oauth_query_size query;; ok_or (parse_callback_query (default [] query)) (Accounts.BadRequest (lit "OAuth query is invalid")).

(** The test for a ban the two public handlers begin with. *)
Definition refuse_banned (ip : rstr) (who : option rstr) : PO unit :=
  ban ← call (fun o => Accounts.active_waf_ban o ip);
  match ban with
  | Some _ =>
      call (fun o => Accounts.record_waf_event o ip who (lit "oauth_blocked") (Some (lit "active WAF ban")));;
      throw (Accounts.Forbidden (lit "IP temporarily blocked by WAF"))
  | None => mret ()
  end.

Definition start_oauth_login (path : rstr) (query : option rstr) (client_ip : rstr) : PO Response :=
  provider_id ← of_result (parse_oauth_provider_path path false);
  return_ ← of_result (parse_oauth_start_query query);
  refuse_banned client_ip (Some provider_id);;
  p ← of_result (oauth_provider provider_id);
  n ← random_nonce;
  now ← now_;
  of_result (oauth_start_response p
    {| provider := id p; flow := Login; user_id := None; return_to := sanitize_return_to return_; nonce := n; exp := ten_minutes_on now |}).

Definition start_oauth_bind (u : Accounts.AuthUser) (headers : rstr → option (list Z)) (path : rstr) (query : option rstr) : PO Response :=
  provider_id ← of_result (parse_oauth_provider_path path true);
  return_ ← of_result (parse_oauth_start_query query);
  of_result (require_cookie_session u);;
  call (fun o => Accounts.require_sensitive_totp hmac_sha1 cell o (Users.id (Accounts.au_user u)) headers);;
  p ← of_result (oauth_provider provider_id);
  n ← random_nonce;
  now ← now_;
  of_result (oauth_start_json_response p
    {| provider := id p; flow := Bind; user_id := Some (uuid_to_string (Users.id (Accounts.au_user u)));
       return_to := sanitize_return_to return_; nonce := n; exp := ten_minutes_on now |}).

Definition list_oauth_bindings (u : Accounts.AuthUser) : PO Response :=
  of_result (require_cookie_session u);;
  l ← load_oauth_accounts (Users.id (Accounts.au_user u));
  mret (Bindings l).

Definition unbind_oauth_provider (u : Accounts.AuthUser) (headers : rstr → option (list Z)) (provider_id : rstr) : PO Response :=
  of_result (require_cookie_session u);;
  call (fun o => Accounts.require_sensitive_totp hmac_sha1 cell o (Users.id (Accounts.au_user u)) headers);;
  provider_id ← of_result (normalize_oauth_provider_id provider_id);
  delete_oauth_account (Users.id (Accounts.au_user u)) provider_id;;
  mret Unbound.

Definition create_oauth_session (client_ip : rstr) (headers : rstr → option (list Z)) (user : Z) : PO (rstr * rstr) :=
  token ← call (fun o => Accounts.generate_session_token o);
  let token_hash := Auth.hash_token token in
  now ← now_;
  call (fun o => Accounts.repo (Sessions.create o
    {| Sessions.in_user_id := user; Sessions.in_ip := Some client_ip;
       Sessions.in_user_agent := Accounts.header_value headers (lit "user-agent");
       Sessions.in_expires_at := now + seconds (session_ttl_hours config * 3600) |} token_hash));;
  let secure_attr := Accounts.cookie_secure_attr (cookie_secure config) in
  let age := print_i64 (session_ttl_hours config * 3600) in
  session_cookie ← call (fun _ => Accounts.make_cookie header_ok (Accounts.SESSION_COOKIE_NAME ++ lit "=" ++ token
    ++ lit "; HttpOnly; SameSite=Lax; Path=/; Max-Age=" ++ age ++ secure_attr));
  csrf_cookie ← call (fun _ => Accounts.make_cookie header_ok (Accounts.CSRF_COOKIE_NAME ++ lit "=" ++ Auth.derive_csrf_token token_hash
    ++ lit "; SameSite=Lax; Path=/; Max-Age=" ++ age ++ secure_attr));
  mret (session_cookie, csrf_cookie).

Definition cookie_session_user_id (jar : CookieJar) : PO (option Z) :=
  match jar Accounts.SESSION_COOKIE_NAME with
  | None => mret None
  | Some token =>
      if negb (Auth.session_cookie_token_is_valid token) then mret None else
      found ← call (fun o => Accounts.repo (Sessions.find_by_token_hash o (Auth.hash_token token)));
      mret (Sessions.user_id <$> (found : option Sessions.Session))
  end.

(** [register_oauth_failure(..).await?; return Err(err)]. *)
Definition fail_oauth {A} (ip : rstr) (who : option rstr) (reason : rstr) (err : Accounts.AppError E) : PO A :=
  call (fun o => Accounts.register_oauth_failure o ip who reason);; throw err.
(** The arms of a [match] on a [Result] that register the failure. *)
Definition or_fail {A} (ip : rstr) (who : option rstr) (reason : Accounts.AppError E → rstr) (m : PO A) : PO A :=
  proc_bind m (fun r => match r with Ok a => Ret (Ok a) | Err err => fail_oauth ip who (reason err) err end).

Definition state_cookie_reason (err : Accounts.AppError E) : rstr :=
  match err with
  | Accounts.Unauthorized _ => lit "oauth state cookie missing"
  | Accounts.Forbidden _ => lit "oauth state cookie mismatch"
  | _ => lit "oauth state cookie invalid"
  end.
Definition bind_session_reason (err : Accounts.AppError E) : rstr :=
  match err with
  | Accounts.Forbidden _ => lit "bind session user mismatch"
  | Accounts.Unauthorized _ => lit "bind session missing"
  | _ => lit "bind session invalid"
  end.

Definition check_callback_texts (q : OAuthCallbackQuery) : result (Accounts.AppError E) unit :=
  (match code q with Some c => ensure_oauth_text_size c 1 OAUTH_MAX_CODE_BYTES (lit "OAuth code") | None => Ok () end);;
  (match error q with Some x => ensure_oauth_text_size x 1 OAUTH_MAX_ERROR_BYTES (lit "OAuth error") | None => Ok () end);;
  match error_description q with
  | Some x => ensure_oauth_text_size x 0 OAUTH_MAX_ERROR_BYTES (lit "OAuth error_description")
  | None => Ok ()
  end.

(** The user of a flow that binds an account: the one of the state, who must be
    the one of the session cookie. *)
Definition bind_user (st : OAuthState) (jar : CookieJar) (ip : rstr) : PO (option Z) :=
  match flow st with
  | Login => mret None
  | Bind =>
      text ← of_result (ok_or (user_id st) (Accounts.BadRequest (lit "OAuth bind state missing user")));
      user ← of_result (parse_user_id text);
      cookie_user ← cookie_session_user_id jar;
      or_fail ip (Some (provider st)) bind_session_reason (of_result (bind_cookie_session_matches user cookie_user));;
      mret (Some user)
  end.

Definition finish_bind (st : OAuthState) (p : OidcProviderConfig) (info : OidcUserInfo) (bound : option Z) : PO Response :=
  user ← of_result (ok_or bound (Accounts.BadRequest (lit "OAuth bind state missing user")));
  bind_oauth_account user p info;;
  of_result (oauth_redirect_with_state_cookie_clear st true (lit "oauth_bound")).

Definition finish_login (st : OAuthState) (p : OidcProviderConfig) (info : OidcUserInfo) (ip : rstr) (headers : rstr → option (list Z)) : PO Response :=
  bound ← find_bound_user p (sub info);
  match bound with
  | None =>
      call (fun o => Accounts.register_oauth_failure o ip (Some (provider st)) (lit "account not bound"));;
      of_result (oauth_redirect_with_state_cookie_clear st false (lit "oauth_account_not_bound"))
  | Some user =>
      found ← call (fun o => Accounts.repo (Users.find_by_id o user));
      user ← of_result (ok_or found (Accounts.Unauthorized (lit "OAuth account user not found")));
      cookies ← create_oauth_session ip headers (Users.id user);
      call (fun o => Accounts.record_waf_event o ip (Some (provider st)) (lit "oauth_success") None);;
      clear ← of_result (oauth_state_cookie_clear_header (cookie_secure config));
      location ← of_result (frontend_redirect (frontend_redirect_url config) st true (lit "oauth_login"));
      mret (Redirect [cookies.1; cookies.2; clear] location)
  end.

Definition oauth_callback (query : option rstr) (client_ip : rstr) (headers : rstr → option (list Z)) (jar : CookieJar) : PO Response :=
  q ← of_result (parse_oauth_callback_query query);
  refuse_banned client_ip None;;
  of_result (check_callback_texts q);;
  now ← now_;
  st ← or_fail client_ip None (fun _ => lit "invalid state") (of_result (decode_state (session_secret config) (state q) now));
  or_fail client_ip (Some (provider st)) state_cookie_reason (of_result (oauth_state_cookie_matches jar (state q)));;
  match error q with
  | Some x =>
      let message := default x (error_description q) in
      call (fun o => Accounts.register_oauth_failure o client_ip (Some (provider st)) message);;
      of_result (oauth_redirect_with_state_cookie_clear st false message)
  | None =>
      p ← of_result (oauth_provider (provider st));
      bound ← bind_user st jar client_ip;
      code_ ← or_fail client_ip (Some (provider st)) (fun _ => lit "missing code")
                (of_result (ok_or (code q) (Accounts.BadRequest (lit "OAuth callback missing code"))));
      token ← or_fail client_ip (Some (provider st)) (fun _ => lit "token exchange failed") (exchange_code p code_);
      info ← or_fail client_ip (Some (provider st)) (fun _ => lit "userinfo request failed") (fetch_userinfo p token);
      match flow st with
      | Bind => finish_bind st p info bound
      | Login => finish_login st p info client_ip headers
      end
  end.
End handlers.
End OAuth.
