(* ===== verification/OAuthProofs.v ===== *)
(** * OAuthProofs: what the OAuth handlers do, and only they may

    The signed state round-trips and cannot be altered; every step of a callback
    is one of four kinds, each with what was established before it; the bindings
    stay unique and an external account never passes from one user to another. *)

From S2P Require Import Prelude Text BTreeMap Json Externals Auth AuthProofs Totp Security Rfc3339 Tables Sessions SessionsProofs Users Secrets Accounts AccountsProofs AdminProofs Interleave OAuth.

Module OAuthProofs.
Import Tables Interleave OAuth.
#[local] Arguments decode_state : simpl never. #[local] Arguments is_account : simpl never. #[local] Arguments of_user : simpl never.
#[local] Arguments bind_transaction : simpl never. #[local] Arguments uuid_to_string : simpl never.

(** ** What the account modules leave alone *)

Definition only_waf (t u : Tables) : Prop := users u = users t ∧ sessions u = sessions t ∧ pats u = pats t.
#[global] Instance only_waf_preorder : PreOrder only_waf.
Proof. split; [by intros t|]. intros t u v (?&?&?) (?&?&?). repeat split; congruence. Qed.
Lemma events_waf t u : AccountsProofs.only_events t u → only_waf t u.
Proof. intros (?&?&?&_). by repeat split. Qed.
Lemma eq_waf t u : t = u → only_waf t u.
Proof. by intros ->. Qed.

Section calls.
Context {E : Type} `{UuidLib, Rfc3339, Users.Argon2, Secrets.SecretLib, Auth.Crypto}.
Context (hmac_sha1 : list Z → list Z → list Z) (cell : option Secrets.SecretCrypto) (o : Oracle E).
Import AccountsProofs AdminProofs.

Lemma record_waf ip who outcome reason : respects only_waf (Accounts.record_waf_event o ip who outcome reason).
Proof. eapply respects_weaken; [apply events_waf|apply record_waf_event_events]. Qed.
Lemma active_ban_waf ip : respects only_waf (Accounts.active_waf_ban o ip).
Proof. unfold Accounts.active_waf_ban, Accounts.repo. auto with respects. Qed.
Lemma upsert_ban_waf ip reason n until : respects only_waf (Accounts.upsert_waf_ban o ip reason n until).
Proof.
  unfold Accounts.upsert_waf_ban, Accounts.repo. do 2 (apply respects_bind; [apply _|auto with respects|intros ?]).
  apply respects_with_err, respects_execute; [apply _|]. intros t. by repeat split.
Qed.
#[local] Hint Resolve record_waf active_ban_waf upsert_ban_waf : respects.
Lemma register_waf ip who reason : respects only_waf (Accounts.register_oauth_failure o ip who reason).
Proof. unfold Accounts.register_oauth_failure, Accounts.register_failure, Accounts.count_recent_auth_failures, Accounts.repo. auto 20 with respects. Qed.
Lemma totp_waf u headers : respects only_waf (Accounts.require_sensitive_totp hmac_sha1 cell o u headers).
Proof.
  pose proof (fun u s c n => respects_weaken _ _ _ events_waf (verify_events hmac_sha1 o u s c n)).
  pose proof (fun u => respects_weaken _ _ _ eq_waf (totp_config_same cell o u)).
  unfold Accounts.require_sensitive_totp, Accounts.repo. auto 20 with respects.
Qed.
Lemma find_user_waf u : respects only_waf (Accounts.repo (Users.find_by_id o u)).
Proof. unfold Users.find_by_id, Accounts.repo. auto with respects. Qed.
Lemma find_session_waf hash : respects only_waf (Accounts.repo (Sessions.find_by_token_hash o hash)).
Proof. unfold Sessions.find_by_token_hash, Accounts.repo. auto 20 with respects. Qed.
Lemma cookie_waf ok text : respects only_waf (Accounts.make_cookie (E := E) ok text).
Proof. unfold Accounts.make_cookie. auto with respects. Qed.
Lemma token_waf : respects only_waf (Accounts.generate_session_token o : M (Accounts.AppError E) rstr).
Proof. unfold Accounts.generate_session_token. auto with respects. Qed.

(** Creating a session adds a row of its user, who exists, and otherwise drops rows. *)
Definition session_added (user : Z) (t u : Tables) : Prop :=
  users u = users t ∧ pats u = pats t ∧ uuid_to_string user ∈ (ur_id <$> users t) ∧
  (∀ r, r ∈ sessions u → r ∈ sessions t ∨ sr_user_id r = uuid_to_string user).
Lemma create_adds input hash w r w' :
  Accounts.repo (Sessions.create o input hash) w = (r, w') →
  only_waf (db w) (db w') ∨ session_added (Sessions.in_user_id input) (db w) (db w').
Proof.
  intros Hc. destruct r as [s|x].
  - apply run_with_err_Ok, SessionsProofs.create_Ok in Hc as (n & row & u & _ & _ & _ & _ & _ & Hu & _ & _ & _ & _ & Hrows).
    right. pose proof Hrows as Hex. apply (create_rows_owner hmac_sha1) in Hex. apply SessionsProofs.create_rows_Ok in Hrows as (-> & _).
    rewrite Hu in *. split_and!; [done..|]. cbn [sessions set_sessions].
    intros r [Hr%kept_rows_in| ->%list_elem_of_singleton]%elem_of_app; [by left|by right].
  - left. enough (db w' = db w) as -> by done. revert Hc.
    unfold Accounts.repo, with_err, Sessions.create, mbind, M_bind, with_err, lift, utc_now, now_v7, fail, sql, bump.
    repeat (case_match; simplify_eq/=); try done; by intros [= <- <-].
Qed.
End calls.

(** ** Steps *)

Section handlers.
Context {E : Type} `{UuidLib, Rfc3339, Users.Argon2, Secrets.SecretLib, OAuthLib}.
Context (hmac_sha1 : list Z → list Z → list Z) (cell : option Secrets.SecretCrypto) (url_parse : rstr → option Security.Url).
Context (vars : Security.Env) (config : Config) (header_ok : rstr → bool).
Abbreviation hist := (list (Env E * State)).
Abbreviation PO := (P (Env E) State (Accounts.AppError E)).
Implicit Types (h : hist) (e : Env E) (s : State) (st : OAuthState) (p : OidcProviderConfig) (info : OidcUserInfo).

(** A step that only reads, or records events and bans. *)
Definition calm e s s' : Prop := accounts s' = accounts s ∧ sent s' = sent s ∧ only_waf (tables s) (tables s').
Lemma calm_refl e s : calm e s s.
Proof. by repeat split. Qed.

Lemma call_calm {A} (m : Oracle E → M (Accounts.AppError E) A) : (∀ o, AccountsProofs.respects only_waf (m o)) → always calm (call m).
Proof.
  intros Hm e s. split; [|done]. cbn. destruct (m (oracle e) _) as [r w] eqn:Er. cbn. split_and!; [done..|]. by apply (Hm (oracle e)) in Er.
Qed.
Lemma now_calm : always calm (now_ : PO Z).
Proof. apply call_calm. intros o. eapply AccountsProofs.respects_utc_now; apply _. Qed.
Lemma read_calm {A} (f : State → result (Accounts.AppError E) A) : always calm (statement (fun _ s => (f s, s)) : PO A).
Proof. intros e s. split; [|done]. cbn. destruct (fault (oracle e) 0%nat); apply calm_refl. Qed.
Lemma observe_calm {A} (f : Env E → A) : always calm (observe f : PO A).
Proof. intros e s. split; [apply calm_refl|done]. Qed.
Lemma outbound_calm url label : always calm (outbound (E := E) url_parse vars url label).
Proof. apply always_try; [apply observe_calm|]. by intros [v|x]. Qed.
Lemma client_calm failure : always calm (build_client failure : PO unit).
Proof. apply always_try; [apply observe_calm|]. by intros [x|]. Qed.

(** Programs followed by the rest of a handler, where an error ends it. *)
Section rest.
Context (I : hist → Env E → State → State → Prop) (I_calm : ∀ h e s s', calm e s s' → I h e s s').
Context {B : Type} (Q : hist → result (Accounts.AppError E) B → Prop) (Q_err : ∀ h x, Q h (Err x)).
Abbreviation Traced h m := (traced I h m Q).

Lemma try_calm {A} h (m : PO A) (k : A → PO B) : always calm m → (∀ h' a, Traced (h ++ h') (k a)) → Traced h (m ≫= k).
Proof. intros Hm Hk. apply traced_try. eapply always_traced; [exact Hm|auto|]. intros h' [a|x]; auto. Qed.
(** A call, with what it changes and what it read. *)
Lemma try_step {A} h (m : Oracle E → M (Accounts.AppError E) A) (k : A → PO B) :
  (∀ e s r w, m (oracle e) {| db := tables s; tick := 0%nat |} = (r, w) → I h e s (set_tables (db w) s)) →
  (∀ e s a w, m (oracle e) {| db := tables s; tick := 0%nat |} = (Ok a, w) → Traced (h ++ [(e, s)]) (k a)) → Traced h (call m ≫= k).
Proof.
  intros Hm Hk. apply traced_try. intros e s. split.
  - cbn. destruct (m (oracle e) _) as [r w] eqn:Er. by eapply Hm.
  - cbn. destruct (m (oracle e) _) as [[a|x] w] eqn:Er; cbn; [|auto]. by eapply Hk.
Qed.
Lemma try_call {A} h (m : Oracle E → M (Accounts.AppError E) A) (k : A → PO B) :
  (∀ o, AccountsProofs.respects only_waf (m o)) →
  (∀ e s a w, m (oracle e) {| db := tables s; tick := 0%nat |} = (Ok a, w) → Traced (h ++ [(e, s)]) (k a)) → Traced h (call m ≫= k).
Proof. intros Hm. apply try_step. intros e s r w Hw. apply I_calm. split_and!; [done..|]. by apply (Hm (oracle e)) in Hw. Qed.
Lemma try_observe {A} h (f : Env E → A) (k : A → PO B) : (∀ e s, Traced (h ++ [(e, s)]) (k (f e))) → Traced h (observe f ≫= k).
Proof. intros Hk. apply traced_try, traced_observe. intros e s. split; [apply I_calm, calm_refl|apply Hk]. Qed.
Lemma try_fail {A} h ip who reason (m : PO A) (k : A → PO B) :
  traced I h m (fun h' r => match r with Ok a => Traced h' (k a) | Err _ => True end) → Traced h (or_fail ip who reason m ≫= k).
Proof.
  intros Hm. apply traced_try, traced_bind. eapply traced_mono, Hm. intros h' [a|x] Ha; [done|].
  unfold fail_oauth. apply traced_try. eapply always_traced; [apply call_calm; intros o; apply register_waf|auto|].
  by intros h'' [[]|y]; cbn.
Qed.
Lemma try_outbound h url label (k : Security.ValidatedOutboundUrl → PO B) :
  (∀ e s to, Security.validate_outbound_url_resolved (lookup_host e) url_parse vars url = Ok to → Traced (h ++ [(e, s)]) (k to)) →
  Traced h (outbound url_parse vars url label ≫= k).
Proof.
  intros Hk e s. split; [apply I_calm, calm_refl|]. cbn.
  destruct (Security.validate_outbound_url_resolved _ _ _ url) as [to|x] eqn:Ev; cbn; [by apply Hk|auto].
Qed.
Lemma try_send h request failure (k : HttpReply → PO B) :
  (∀ e s, I h e s (set_sent (sent s ++ [request]) s)) →
  (∀ e s reply, exchange e request = Ok reply → rp_success reply = true → Traced (h ++ [(e, s)]) (k reply)) → Traced h (send request failure ≫= k).
Proof.
  intros HI Hk e s. split; [apply HI|]. cbn. destruct (exchange e request) as [reply|x] eqn:Ex; cbn; [|auto].
  destruct (rp_success reply) eqn:Es; cbn; auto.
Qed.
End rest.

(** ** What a callback has established *)

(** The state of the query was accepted at some time, and the cookie of the
    browser is the hash of this state. *)
Definition verified h (q : OAuthCallbackQuery) (jar : rstr → option rstr) st : Prop :=
  once h (fun e _ => decode_state (E := E) (session_secret config) (state q) (clock (oracle e) 0%nat) = Ok st) ∧
  ∃ cookie, jar OAUTH_STATE_COOKIE_NAME = Some cookie ∧ str_bytes cookie = str_bytes (Auth.hash_token (state q)).
Definition not_banned h ip : Prop := once h (fun e s => AccountsProofs.not_banned ip (clock (oracle e) 0%nat) (tables s)).
(** The provider answered the code with the token, and the token with the identity. *)
Definition issued h p (code_ token : rstr) : Prop :=
  once h (fun e _ => ∃ to method reply, exchange e (token_request p to method code_) = Ok reply ∧ rp_success reply = true ∧
    parse_limited_json_response (E := E) token_from_slice reply OAUTH_MAX_TOKEN_RESPONSE_BYTES (lit "OAuth token response") = Ok token).
Definition told h p (token : rstr) info : Prop :=
  once h (fun e _ => ∃ to method reply raw, exchange e (userinfo_request to method token) = Ok reply ∧ rp_success reply = true ∧
    parse_limited_json_response (E := E) value_from_slice reply OAUTH_MAX_USERINFO_RESPONSE_BYTES (lit "OIDC userinfo response") = Ok raw ∧
    normalize_userinfo (E := E) p raw = Ok info).
Definition identified h p q info : Prop := ∃ code_ token, code q = Some code_ ∧ issued h p code_ token ∧ told h p token info.
Definition resolved h (url : rstr) (to : Security.ValidatedOutboundUrl) : Prop :=
  once h (fun e _ => Security.validate_outbound_url_resolved (lookup_host e) url_parse vars url = Ok to).
Definition configured st p : Prop := find_provider config (trim (provider st)) = Some p.
(** The session cookie was that of a live session of the user. *)
Definition in_session h (jar : rstr → option rstr) (user : Z) : Prop :=
  once h (fun e s => ∃ token r, jar Accounts.SESSION_COOKIE_NAME = Some token ∧ r ∈ sessions (tables s) ∧
    sr_token_hash r = Auth.hash_token token ∧ uuid_parse (sr_user_id r) = Some user ∧
    str_ltb (to_rfc3339 (clock (oracle e) 0%nat)) (sr_expires_at r) = true).

(** ** The four kinds of steps of a callback *)

Definition asks h q jar ip s s' : Prop := ∃ st p code_ req,
  verified h q jar st ∧ not_banned h ip ∧ configured st p ∧ code q = Some code_ ∧ s' = set_sent (sent s ++ [req]) s ∧
  ((∃ to method, resolved h (token_url p) to ∧ req = token_request p to method code_) ∨
   (∃ to method token, issued h p code_ token ∧ resolved h (userinfo_url p) to ∧ req = userinfo_request to method token)).
Definition opens h q jar ip s s' : Prop := ∃ st p info user,
  verified h q jar st ∧ not_banned h ip ∧ flow st = Login ∧ configured st p ∧ identified h p q info ∧
  once h (fun _ s0 => ∃ r, r ∈ accounts s0 ∧ oa_provider r = id p ∧ oa_subject r = sub info ∧ uuid_parse (oa_user_id r) = Some user) ∧
  accounts s' = accounts s ∧ sent s' = sent s ∧ session_added user (tables s) (tables s').
Definition binds h q jar ip s s' : Prop := ∃ st p info user,
  verified h q jar st ∧ not_banned h ip ∧ flow st = Bind ∧ user_id st ≫= uuid_parse = Some user ∧ in_session h jar user ∧ configured st p ∧
  identified h p q info ∧ ∃ row_id now, bind_transaction (E := E) user p info row_id now s = (Ok (), s').
Definition callback_step q jar ip h e s s' : Prop := calm e s s' ∨ asks h q jar ip s s' ∨ opens h q jar ip s s' ∨ binds h q jar ip s s'.

Lemma verified_app h h' q jar st : verified h q jar st → verified (h ++ h') q jar st.
Proof. intros [Hd Hc]. split; [by apply once_app|done]. Qed.
Lemma identified_app h h' p q info : identified h p q info → identified (h ++ h') p q info.
Proof. intros (c & t & Hc & Hi & Ht). exists c, t. split_and!; [done|by apply once_app..]. Qed.

Lemma live_session_row (o : Oracle E) hash ss w w' :
  Sessions.find_by_token_hash o hash w = (Ok (Some ss), w') →
  ∃ r, r ∈ sessions (db w) ∧ sr_token_hash r = hash ∧ uuid_parse (sr_user_id r) = Some (Sessions.user_id ss)
       ∧ str_ltb (to_rfc3339 (clock o (tick w))) (sr_expires_at r) = true.
Proof.
  unfold Sessions.find_by_token_hash. destruct (Sessions.validate_token_hash hash) as [hash'|] eqn:Ev; [|done].
  assert (hash' = hash) as -> by (unfold Sessions.validate_token_hash in Ev; case_match; congruence).
  intros (now & w1 & Hn & Hr)%run_bind_Ok. injection Hn as <- <-. apply run_bind_Ok in Hr as (x & w2 & Hx & Hr).
  apply run_select_Ok in Hx as (_ & -> & ->). apply (f_equal fst) in Hr. cbn in Hr. injection Hr as Hr.
  destruct (head _) as [r|] eqn:Hh; [|done]. apply AccountsProofs.head_filter_Some in Hh as [[Hhash Hlt] Hin]. exists r.
  unfold Sessions.live_session, Sessions.row_to_session_sqlite in Hr. cbn [mbind option_bind] in Hr.
  destruct (uuid_parse (sr_id r)), (uuid_parse (sr_user_id r)); try done. cbn [mbind option_bind] in Hr.
  destruct (Sessions.parse_session_rfc3339 (sr_expires_at r)), (Sessions.parse_session_rfc3339 (sr_created_at r)); try done.
  cbn [mbind option_bind] in Hr. case_match; [|done]. apply (inj Some) in Hr as <-. by split_and!.
Qed.

Lemma bind_refused user p info row_id now s x s' : bind_transaction (E := E) user p info row_id now s = (Err x, s') → s' = s.
Proof. unfold bind_transaction. repeat case_match; congruence. Qed.

Lemma bind_tables user p info row_id now s s' r : bind_transaction (E := E) user p info row_id now s = (r, s') → tables s' = tables s ∧ sent s' = sent s.
Proof. unfold bind_transaction. repeat case_match; by intros [= <- <-]. Qed.

Lemma configured_provider st p : oauth_provider (E := E) config (provider st) = Ok p → configured st p.
Proof.
  unfold oauth_provider, normalize_oauth_provider_id, configured, bad. repeat case_match; try done. cbn. by intros ->%ok_or_Ok.
Qed.

Section callback.
Context (q : OAuthCallbackQuery) (jar : rstr → option rstr) (ip : rstr) (headers : rstr → option (list Z)).
Abbreviation I := (callback_step q jar ip).
Lemma I_calm h e s s' : calm e s s' → I h e s s'.
Proof. by left. Qed.
#[local] Hint Resolve I_calm : core.

(** Everything that was established before the provider is asked. *)
Definition ready h st p code_ : Prop := verified h q jar st ∧ not_banned h ip ∧ configured st p ∧ code q = Some code_.
Lemma ready_app h h' st p code_ : ready h st p code_ → ready (h ++ h') st p code_.
Proof. intros (Hv & Hb & Hp & Hc). split_and!; [by apply verified_app|by apply once_app|done..]. Qed.

Lemma exchange_traced h st p code_ :
  ready h st p code_ → traced I h (exchange_code url_parse vars p code_) (fun h' r => match r with Ok token => issued h' p code_ token | Err _ => True end).
Proof.
  intros Hr. unfold exchange_code. apply try_outbound; [auto..|]. intros e s to Hto.
  apply try_calm; [auto..|apply client_calm|]. intros h1 []. apply try_pure; [done|]. intros method _.
  destruct (_ && _); [done|]. apply try_send; [done|..].
  - intros e1 s1. right; left. exists st, p, code_, (token_request p to method code_).
    apply (ready_app _ ([(e, s)] ++ h1)) in Hr. rewrite app_assoc in Hr. destruct Hr as (Hv & Hb & Hp & Hc). split_and!; [done..|].
    left. exists to, method. split; [|done]. by apply once_app, once_here.
  - intros e1 s1 reply Hx Hs. apply try_pure; [done|]. intros token Ht. apply try_pure; [done|]. intros [] _. cbn.
    apply once_here. by exists to, method, reply.
Qed.
Lemma fetch_traced h st p code_ token :
  ready h st p code_ → issued h p code_ token →
  traced I h (fetch_userinfo url_parse vars p token) (fun h' r => match r with Ok info => told h' p token info | Err _ => True end).
Proof.
  intros Hr Hi. unfold fetch_userinfo. apply try_pure; [done|]. intros method _. apply try_pure; [done|]. intros [] _.
  apply try_outbound; [auto..|]. intros e s to Hto. apply try_calm; [auto..|apply client_calm|]. intros h1 []. apply try_send; [done|..].
  - intros e1 s1. right; left. exists st, p, code_, (userinfo_request to method token).
    apply (ready_app _ ([(e, s)] ++ h1)) in Hr. rewrite app_assoc in Hr. destruct Hr as (Hv & Hb & Hp & Hc). split_and!; [done..|].
    right. exists to, method, token. split_and!; [by do 2 apply once_app|by apply once_app, once_here|done].
  - intros e1 s1 reply Hx Hs. apply try_pure; [done|]. intros raw Hw. cbn. destruct (normalize_userinfo p raw) as [info|x] eqn:En; [|done].
    apply once_here. by exists to, method, reply, raw.
Qed.

Lemma refuse_banned_traced h who : traced I h (refuse_banned ip who) (fun h' r => match r with Ok _ => not_banned h' ip | Err _ => True end).
Proof.
  apply try_call; [auto|by intros ? ?|intros o; apply active_ban_waf|]. intros e s ban w Hw. destruct ban as [b|].
  - apply try_calm; [auto|by intros ? ?|apply call_calm; intros o; apply record_waf|]. done.
  - apply once_here. by apply AccountsProofs.active_waf_ban_None in Hw as [_ Hb].
Qed.

Lemma bound_traced h p subject :
  traced I h (find_bound_user p subject) (fun h' r => match r with Ok (Some user) =>
    uuid_ok user ∧ once h' (fun _ s0 => ∃ r, r ∈ accounts s0 ∧ oa_provider r = id p ∧ oa_subject r = subject ∧ uuid_parse (oa_user_id r) = Some user)
    | _ => True end).
Proof.
  intros e s. split; [apply I_calm; cbn; by destruct (fault (oracle e) 0%nat)|]. cbn. destruct (fault (oracle e) 0%nat); [done|].
  cbn. destruct (head _) as [r|] eqn:Eh; [|done]. cbn. unfold parse_user_id. destruct (uuid_parse (oa_user_id r)) as [user|] eqn:Eu; [|done]. cbn.
  split; [by eapply uuid_parse_ok|]. apply once_here. exists r. apply AccountsProofs.head_filter_Some in Eh as [Ha Hin].
  unfold is_account in Ha. apply andb_true_iff in Ha as [Hp%bool_decide_eq_true Hs%bool_decide_eq_true]. by split_and!.
Qed.

Lemma found_user_id u w user w' o :
  uuid_ok u → Accounts.repo (Users.find_by_id (E := E) o u) w = (Ok (Some user), w') → Users.id user = u.
Proof.
  intros Hu Hf. apply run_with_err_Ok, AdminProofs.find_by_id_Ok in Hf as (_ & row & _ & Hi & Hr).
  unfold Users.sqlite_user_from_row in Hr. rewrite Hi, uuid_roundtrip in Hr by done. cbn in Hr.
  destruct (Auth.role_from_str _), (parse_from_rfc3339 (ur_created_at row)), (parse_from_rfc3339 (ur_updated_at row)); cbn in Hr; by simplify_eq/=.
Qed.

Lemma create_session_traced h user Q : (∀ h' s e w, session_added user (tables s) (db w) → I (h ++ h') e s (set_tables (db w) s)) →
  (∀ h' r, Q (h ++ h') r) → traced I h (create_oauth_session config header_ok ip headers user) Q.
Proof.
  intros Hadd HQ. apply traced_mono with (Q := fun _ _ => True); [intros; apply HQ|]. unfold create_oauth_session.
  apply try_calm; [auto..|apply call_calm; intros o; apply token_waf|]. intros h1 token.
  apply try_calm; [auto..|apply now_calm|]. intros h2 now. apply try_step; [auto|..].
  - intros e s r w Hw. apply (create_adds hmac_sha1) in Hw as [Hw|Ha]; [left; by split_and!|]. rewrite <-app_assoc. by apply Hadd.
  - intros e s ss w _. apply try_calm; [auto..|apply call_calm; intros o; apply cookie_waf|]. intros h3 c1.
    apply try_calm; [auto..|apply call_calm; intros o; apply cookie_waf|]. done.
Qed.

Lemma finish_login_traced h st p info :
  verified h q jar st → not_banned h ip → flow st = Login → configured st p → identified h p q info →
  traced I h (finish_login config header_ok st p info ip headers) (fun _ _ => True).
Proof.
  intros Hv Hb Hf Hp Hi. apply traced_try. eapply traced_mono, bound_traced. intros h1 [[u|]|x]; [|intros _|done].
  - intros [Hu Ho]. apply try_call; [auto..|intros o; apply find_user_waf|]. intros e s found w Hw.
    apply try_pure; [done|]. intros user ->%ok_or_Ok. apply found_user_id in Hw; [|done]. rewrite Hw. apply traced_try.
    apply create_session_traced.
    + intros h2 s2 e2 w2 Ha. rewrite <-!app_assoc. right; right; left. exists st, p, info, u.
      split_and!; [by apply verified_app|by apply once_app|done|done|by apply identified_app|rewrite app_assoc; by apply once_app|done..].
    + intros h2 [[c1 c2]|x]; [|done]. apply try_calm; [auto..|apply call_calm; intros o; apply record_waf|]. intros h3 [].
      apply try_pure; [done|]. intros clear _. by apply try_pure; [done|].
  - apply try_calm; [auto..|apply call_calm; intros o; apply register_waf|]. done.
Qed.

Lemma session_user_traced h :
  traced I h (cookie_session_user_id jar) (fun h' r => match r with Ok (Some user) => in_session h' jar user | _ => True end).
Proof.
  unfold cookie_session_user_id. destruct (jar Accounts.SESSION_COOKIE_NAME) as [token|] eqn:Et; [|done].
  destruct (negb _); [done|]. apply try_call; [auto|by intros ? ?|intros o; apply find_session_waf|]. intros e s found w Hf. cbn.
  destruct found as [ss|]; [|done]. cbn. apply run_with_err_Ok, live_session_row in Hf as (r & Hin & Hh & Hx & Hu).
  apply once_here. by exists token, r.
Qed.

Lemma bind_user_traced h st :
  traced I h (bind_user st jar ip) (fun h' r => match r with
    | Ok (Some user) => flow st = Bind ∧ user_id st ≫= uuid_parse = Some user ∧ in_session h' jar user
    | _ => True end).
Proof.
  unfold bind_user. destruct (flow st) eqn:Ef; [done|]. apply try_pure; [done|]. intros text Ht%ok_or_Ok.
  apply try_pure; [done|]. intros user Hu. unfold parse_user_id in Hu. apply ok_or_Ok in Hu.
  apply traced_try. eapply traced_mono, session_user_traced. intros h1 [cookie|x]; [|done]. intros Hc.
  apply try_fail; [auto|by intros ? ?|]. cbn. destruct cookie as [c|]; [|done]. cbn. destruct (Z.eqb_spec c user) as [->|]; [|done]. cbn.
  rewrite Ht. cbn. by split_and!.
Qed.

Lemma finish_bind_traced h st p info bound :
  verified h q jar st → not_banned h ip → flow st = Bind → configured st p → identified h p q info →
  (∀ user, bound = Some user → user_id st ≫= uuid_parse = Some user ∧ in_session h jar user) →
  traced I h (finish_bind config st p info bound) (fun _ _ => True).
Proof.
  intros Hv Hb Hf Hp Hi Hu. apply try_pure; [done|]. intros user [Hs Hin]%ok_or_Ok%Hu. apply traced_try.
  eapply traced_mono with (Q := fun _ _ => True); [by intros h' [[]|x] _|]. unfold bind_oauth_account.
  apply try_calm; [auto..|apply call_calm; intros o; eapply AccountsProofs.respects_now_v7; apply _|]. intros h1 row_id.
  apply try_calm; [auto..|apply now_calm|]. intros h2 now e s. split; [|done]. cbn.
  destruct (fault (oracle e) 0%nat); [apply I_calm, calm_refl|].
  destruct (bind_transaction user p info _ _ s) as [[[]|x] s'] eqn:Eb; cbn.
  - right; right; right. rewrite <-app_assoc. exists st, p, info, user.
    split_and!; [by apply verified_app|by apply once_app|done|done|by apply once_app|done|by apply identified_app|eauto].
  - apply bind_refused in Eb as ->. apply I_calm, calm_refl.
Qed.

Lemma callback_traced query : parse_oauth_callback_query (E := E) query = Ok q →
  traced I [] (oauth_callback url_parse vars config header_ok query ip headers jar) (fun _ _ => True).
Proof.
  intros Hq. unfold oauth_callback. rewrite Hq. apply try_pure; [done|]. intros q' [= <-].
  apply traced_try. eapply traced_mono, refuse_banned_traced. intros h0 [[]|x] Hb; [|done]. rewrite app_nil_l in *.
  apply try_pure; [done|]. intros [] _. apply try_call; [auto..|intros o; eapply AccountsProofs.respects_utc_now; apply _|].
  intros e s now w [= <- <-]. apply try_fail; [auto..|]. cbn [of_result traced].
  destruct (decode_state _ _ _) as [st|x] eqn:Ed; [|done]. apply try_fail; [auto..|]. cbn [of_result traced].
  destruct (oauth_state_cookie_matches jar (state q)) as [[]|x] eqn:Ec; [|done].
  assert (verified (h0 ++ [(e, s)]) q jar st) as Hv.
  { split; [by apply once_here|]. unfold oauth_state_cookie_matches in Ec. destruct (jar _) as [cookie|]; [|done].
    exists cookie. split; [done|]. destruct (constant_time_eq _ _) eqn:Et; [|done]. by apply AuthProofs.constant_time_eq_spec in Et. }
  apply (once_app _ [(e, s)]) in Hb. set (h := h0 ++ [(e, s)]) in *. clearbody h. clear Ec Ed.
  destruct (error q) as [x|].
  { apply try_calm; [auto..|apply call_calm; intros o; apply register_waf|]. done. }
  apply try_pure; [done|]. intros p Hp. apply configured_provider in Hp. apply traced_try.
  eapply traced_mono, bind_user_traced. intros h1 [bound|x] Hu; [|done]. apply try_fail; [auto..|].
  destruct (code q) as [code_|] eqn:Eq; [|done]. cbn [of_result traced ok_or].
  assert (ready (h ++ h1) st p code_) as Hr by (split_and!; [by apply verified_app|by apply once_app|done..]).
  apply try_fail; [auto..|]. eapply traced_mono, exchange_traced, Hr. intros h2 [token|x] Hi; [|done].
  apply (ready_app _ h2) in Hr. apply try_fail; [auto..|]. eapply traced_mono, (fetch_traced _ _ _ _ _ Hr Hi).
  intros h3 [info|x] Ht; [|done].
  apply (ready_app _ h3) in Hr as (Hv' & Hb' & _ & _).
  assert (identified (((h ++ h1) ++ h2) ++ h3) p q info) as Hid by (exists code_, token; split_and!; [done|by apply once_app|done]).
  destruct (flow st) eqn:Ef; [by apply finish_login_traced|]. apply finish_bind_traced; [done..|].
  intros user ->. destruct Hu as (_ & Hu & Hin). split; [done|]. by do 2 apply once_app.
Qed.
End callback.

(** ** Logging in *)

(** C11: what a callback may do. It signs nobody in unless the text of its state
    was signed by this server and had not expired, the browser holds the cookie
    of this very state, the address was not banned, the state was issued for a
    login with a configured provider, that provider exchanged the code for a
    token and the token for an identity, and this identity is bound to the user;
    then it adds one session of that user, who exists, and changes neither users nor bindings.
    Requests go only to the token and userinfo addresses of that provider, as the
    guard of outbound requests resolved them, the second one with the token the
    first one gave. *)
Theorem oauth_login_sound query ip headers jar h e s s' :
  makes (oauth_callback (E := E) url_parse vars config header_ok query ip headers jar) h e s s' →
  (sessions (tables s') = sessions (tables s) ∨ ∃ q, parse_oauth_callback_query (E := E) query = Ok q ∧ opens h q jar ip s s') ∧
  (sent s' = sent s ∨ ∃ q, parse_oauth_callback_query (E := E) query = Ok q ∧ asks h q jar ip s s') ∧
  users (tables s') = users (tables s) ∧ pats (tables s') = pats (tables s).
Proof.
  intros Hs. destruct (parse_oauth_callback_query (E := E) query) as [q|x] eqn:Eq.
  2: { exfalso. revert Hs. unfold oauth_callback. rewrite Eq. intros Hs. by inversion Hs. }
  destruct (traced_makes _ _ _ _ _ _ _ _ (callback_traced q jar ip headers query Eq) Hs) as [Hc|[Ha|[Ho|Hb]]].
  - destruct Hc as (_ & Hsent & (Hu & Hse & Hp)). split_and!; [by left|by left|done..].
  - destruct Ha as (st & p & c & req & Hrest). assert (s' = set_sent (sent s ++ [req]) s) as Hs' by naive_solver.
    rewrite Hs'. split_and!; [by left| |done..]. right. exists q. split; [done|]. rewrite <-Hs'. by exists st, p, c, req.
  - assert (Ho' := Ho). destruct Ho as (st & p & i & u & _ & _ & _ & _ & _ & _ & _ & Hsent & Hu & Hp & _). split_and!; eauto.
  - destruct Hb as (st & p & i & u & _ & _ & _ & _ & _ & _ & _ & row & now & Hb). apply bind_tables in Hb as [-> ->]. split_and!; [by left|by left|done..].
Qed.

(** ** Bindings *)

(** The handlers, and the cascade of the foreign key when a user is deleted. *)
Inductive handler : Proc (Env E) State (result (Accounts.AppError E) Response) → Prop :=
| h_callback query ip headers jar : handler (oauth_callback url_parse vars config header_ok query ip headers jar)
| h_login path query ip : handler (start_oauth_login config path query ip)
| h_bind u headers path query : handler (start_oauth_bind hmac_sha1 cell config u headers path query)
| h_list u : handler (list_oauth_bindings config u)
| h_unbind u headers provider_id : handler (unbind_oauth_provider hmac_sha1 cell u headers provider_id).

(** What [bind_transaction] and [delete_oauth_account] do to the table. *)
Definition only_of (provider_id : rstr) (user : Z) (l l' : list OAuthRow) : Prop :=
  ∀ r, of_user provider_id (uuid_to_string user) r = false → r ∈ l' ↔ r ∈ l.

Lemma bind_effect user p info row_id now s s' :
  uuid_ok user → bind_transaction (E := E) user p info row_id now s = (Ok (), s') →
  only_of (id p) user (accounts s) (accounts s') ∧
  ∃ r, r ∈ accounts s' ∧ oa_provider r = id p ∧ oa_subject r = sub info ∧ uuid_parse (oa_user_id r) = Some user.
Proof.
  intros Hu. unfold bind_transaction, parse_user_id, only_of. destruct (head _) as [x|] eqn:Eh.
  - apply AccountsProofs.head_filter_Some in Eh as [Hx Hin]. destruct (uuid_parse (oa_user_id x)) as [o|] eqn:Eo; cbn; [|done].
    destruct (Z.eqb_spec o user) as [->|]; cbn; [|done]. intros [= <-]. cbn. split.
    + intros r Hr. rewrite list_elem_of_fmap. split.
      * intros (y & -> & Hy). destruct (_ && _) eqn:Ehit; [|done]. exfalso. apply andb_true_iff in Ehit as [Hq1 Hq2].
        unfold is_account, of_user, refreshed in *. cbn in Hr. apply andb_true_iff in Hq1 as [Hq1 _]. by rewrite Hq1, Hq2 in Hr.
      * intros Hy. exists r. split; [|done]. destruct (_ && _) eqn:Ehit; [|done]. exfalso. apply andb_true_iff in Ehit as [Hq1 Hq2].
        unfold is_account, of_user in *. apply andb_true_iff in Hq1 as [Hq1 _]. by rewrite Hq1, Hq2 in Hr.
    + unfold is_account in Hx. apply andb_true_iff in Hx as [Hp%bool_decide_eq_true Hsub%bool_decide_eq_true].
      eexists. split; [apply list_elem_of_fmap; by exists x|]. destruct (_ && _); cbn; by split_and!.
  - repeat case_match; try done. intros [= <-]. cbn. split.
    + intros r Hr. rewrite elem_of_app, list_elem_of_filter, list_elem_of_singleton. split; [|by left].
      intros [[_ ?]| ->]; [done|]. exfalso. unfold of_user, new_account in Hr. cbn in Hr. by rewrite !bool_decide_true in Hr.
    + eexists. split; [apply elem_of_app; right; by apply list_elem_of_singleton|]. cbn. by rewrite uuid_roundtrip.
Qed.

(** The user came with a session cookie, and the check of the second factor passed
    in this run (it also passes where the user has not enabled one). *)
Definition confirmed h (u : Accounts.AuthUser) (headers : rstr → option (list Z)) : Prop :=
  Auth.is_pat (Accounts.au_kind u) = false ∧
  once h (fun e s0 => ∃ w, Accounts.require_sensitive_totp hmac_sha1 cell (oracle e) (Users.id (Accounts.au_user u)) headers
                             {| db := tables s0; tick := 0%nat |} = (Ok (), w)).
(** The steps of the other handlers: none touches the table, but the deletion. *)
Definition unbinds h (u : Accounts.AuthUser) (headers : rstr → option (list Z)) (path : rstr) s s' : Prop :=
  confirmed h u headers ∧
  ∃ provider_id, normalize_oauth_provider_id (E := E) path = Ok provider_id ∧ s' = set_accounts (filter (fun r => of_user provider_id (uuid_to_string (Users.id (Accounts.au_user u))) r = false) (accounts s)) s.

Lemma nonce_calm : always calm (random_nonce : PO rstr).
Proof. apply call_calm. intros o. apply AccountsProofs.respects_bind; [apply _|eapply AccountsProofs.respects_random; apply _|by intros a w r w' [= <- <-]]. Qed.
Lemma banned_calm ip who : always calm (refuse_banned ip who : PO unit).
Proof.
  apply always_try; [apply call_calm; intros o; apply active_ban_waf|]. intros [b|]; [|done].
  apply always_try; [apply call_calm; intros o; apply record_waf|done].
Qed.
Lemma start_calm path query ip : always calm (start_oauth_login (E := E) config path query ip).
Proof.
  apply always_try; [done|]. intros i. apply always_try; [done|]. intros r. apply always_try; [apply banned_calm|]. intros [].
  apply always_try; [done|]. intros p. apply always_try; [apply nonce_calm|]. intros n. by apply always_try; [apply now_calm|].
Qed.
Lemma start_bind_calm u headers path query : always calm (start_oauth_bind (E := E) hmac_sha1 cell config u headers path query).
Proof.
  apply always_try; [done|]. intros i. apply always_try; [done|]. intros r. apply always_try; [done|]. intros [].
  apply always_try; [apply call_calm; intros o; apply totp_waf|]. intros []. apply always_try; [done|]. intros p.
  apply always_try; [apply nonce_calm|]. intros n. by apply always_try; [apply now_calm|].
Qed.
Lemma list_calm u : always calm (list_oauth_bindings (E := E) config u).
Proof. apply always_try; [done|]. intros []. apply always_try; [apply read_calm|done]. Qed.

Lemma unbind_traced u headers provider_id :
  traced (fun h e s s' => calm e s s' ∨ unbinds h u headers provider_id s s') [] (unbind_oauth_provider (E := E) hmac_sha1 cell u headers provider_id) (fun _ _ => True).
Proof.
  apply try_pure; [done|]. intros [] Hk. assert (Auth.is_pat (Accounts.au_kind u) = false) as Hp
    by (unfold require_cookie_session in Hk; by destruct (Auth.is_pat _)).
  apply try_call; [by left|done|intros o; apply totp_waf|]. intros e s [] w Hw. apply try_pure; [done|]. intros i Hi.
  apply traced_try. intros e1 s1. split; [|cbn; by destruct (fault (oracle e1) 0%nat)]. cbn.
  destruct (fault (oracle e1) 0%nat); [left; apply calm_refl|]. right. split; [|by exists i]. split; [done|]. apply (once_here []). by exists w.
Qed.

(** What a handler was called with. *)
Inductive Request : Type :=
| Callback (query : option rstr) (ip : rstr) (jar : rstr → option rstr)
| StartLogin (ip : rstr)
| StartBind (u : Accounts.AuthUser) (headers : rstr → option (list Z))
| ListBindings (u : Accounts.AuthUser)
| Unbind (u : Accounts.AuthUser) (headers : rstr → option (list Z)) (provider_id : rstr).
Inductive called : Request → Proc (Env E) State (result (Accounts.AppError E) Response) → Prop :=
| c_callback query ip headers jar : called (Callback query ip jar) (oauth_callback url_parse vars config header_ok query ip headers jar)
| c_login path query ip : called (StartLogin ip) (start_oauth_login config path query ip)
| c_bind u headers path query : called (StartBind u headers) (start_oauth_bind hmac_sha1 cell config u headers path query)
| c_list u : called (ListBindings u) (list_oauth_bindings config u)
| c_unbind u headers provider_id : called (Unbind u headers provider_id) (unbind_oauth_provider hmac_sha1 cell u headers provider_id).

(** What a callback with these arguments has established when it binds. *)
Definition binding_made h (query : option rstr) (ip : rstr) (jar : rstr → option rstr) s s' : Prop :=
  ∃ q st p info user, parse_oauth_callback_query (E := E) query = Ok q ∧ verified h q jar st ∧ not_banned h ip ∧
    flow st = Bind ∧ user_id st ≫= uuid_parse = Some user ∧ in_session h jar user ∧ configured st p ∧ identified h p q info ∧
    tables s' = tables s ∧ only_of (id p) user (accounts s) (accounts s') ∧
    ∃ r, r ∈ accounts s' ∧ oa_provider r = id p ∧ oa_subject r = sub info ∧ uuid_parse (oa_user_id r) = Some user.

(** The states the server signs: for a user who confirmed the request, or for
    nobody. *)
Lemma start_bind_signs u headers path query h resp :
  returns (start_oauth_bind (E := E) hmac_sha1 cell config u headers path query) h (Ok resp) →
  confirmed h u headers ∧ ∃ p st, oauth_start_json_response (E := E) config p st = Ok resp ∧ flow st = Bind ∧
    user_id st = Some (uuid_to_string (Users.id (Accounts.au_user u))).
Proof.
  intros Hr. refine (traced_returns (fun _ _ _ _ => True) [] _ (fun h r => ∀ resp, r = Ok resp → confirmed h u headers ∧
    ∃ p st, oauth_start_json_response (E := E) config p st = Ok resp ∧ flow st = Bind ∧ user_id st = Some (uuid_to_string (Users.id (Accounts.au_user u)))) h _ _ Hr _ eq_refl).
  unfold start_oauth_bind. apply try_pure; [done|]. intros i _. apply try_pure; [done|]. intros q _. apply try_pure; [done|]. intros [] Hk.
  assert (Auth.is_pat (Accounts.au_kind u) = false) as Hp by (unfold require_cookie_session in Hk; by destruct (Auth.is_pat _)).
  apply try_call; [done|done|intros o; apply totp_waf|]. intros e s [] w Hw. apply try_pure; [done|]. intros p _.
  apply try_calm; [done|done|apply nonce_calm|]. intros h1 n. apply try_calm; [done|done|apply now_calm|]. intros h2 now. cbn.
  intros resp' Hresp. split; [|eexists p, _; split; [exact Hresp|done]]. split; [done|]. exists e, s. split; [by left|]. by exists w.
Qed.
Lemma start_login_signs path query ip h resp :
  returns (start_oauth_login (E := E) config path query ip) h (Ok resp) →
  ∃ p st, oauth_start_response (E := E) config p st = Ok resp ∧ flow st = Login ∧ user_id st = None.
Proof.
  intros Hr. refine (traced_returns (fun _ _ _ _ => True) [] _ (fun _ r => ∀ resp, r = Ok resp →
    ∃ p st, oauth_start_response (E := E) config p st = Ok resp ∧ flow st = Login ∧ user_id st = None) h _ _ Hr _ eq_refl).
  unfold start_oauth_login. apply try_pure; [done|]. intros i _. apply try_pure; [done|]. intros q _. apply try_calm; [done|done|apply banned_calm|].
  intros h0 _. apply try_pure; [done|]. intros p _. apply try_calm; [done|done|apply nonce_calm|]. intros h1 n.
  apply try_calm; [done|done|apply now_calm|]. intros h2 now. cbn. intros resp' Hresp. eexists p, _. by split; [exact Hresp|].
Qed.

(** C12: who may bind an external account, and to whom. Of all handlers only two
    change the table of bindings, each by what it was called with itself. A
    callback binds an account to a user when the state in its query was signed
    for this user; its own cookies are that of this state and that of a live
    session of the same user; its address was not banned; and the provider of
    the state vouched for the account. Only rows of this user with this provider
    change. Removing a binding takes the caller's cookie session and a passed
    check of his second factor, and touches only his rows with the provider he
    named. And a state for a user is only signed for that user: the start of a
    binding answers with one only if the caller came with a cookie session and
    passed that check (which also passes where he enabled none), and it names
    him; the start of a login signs a state that names nobody. *)
Theorem oauth_binding_sound :
  (∀ req m h e s s', called req m → makes m h e s s' →
     accounts s' = accounts s ∨
     match req with
     | Callback query ip jar => binding_made h query ip jar s s'
     | Unbind u headers provider_id => unbinds h u headers provider_id s s'
     | StartLogin _ | StartBind _ _ | ListBindings _ => False
     end) ∧
  (∀ u headers path query h resp,
     returns (start_oauth_bind (E := E) hmac_sha1 cell config u headers path query) h (Ok resp) →
     confirmed h u headers ∧ ∃ p st, oauth_start_json_response (E := E) config p st = Ok resp ∧ flow st = Bind ∧
       user_id st = Some (uuid_to_string (Users.id (Accounts.au_user u)))) ∧
  (∀ path query ip h resp,
     returns (start_oauth_login (E := E) config path query ip) h (Ok resp) →
     ∃ p st, oauth_start_response (E := E) config p st = Ok resp ∧ flow st = Login ∧ user_id st = None).
Proof.
  split; [|split; [exact start_bind_signs|exact start_login_signs]]. intros rq m h e s s'.
  intros [query ip headers jar|path query ip|u headers path query|u|u headers provider_id] Hs.
  - destruct (parse_oauth_callback_query (E := E) query) as [q|x] eqn:Eq.
    2: { exfalso. revert Hs. unfold oauth_callback. rewrite Eq. intros Hs. by inversion Hs. }
    destruct (traced_makes _ _ _ _ _ _ _ _ (callback_traced q jar ip headers query Eq) Hs) as [Hc|[Ha|[Ho|Hb]]].
    + left. apply Hc.
    + left. destruct Ha as (st & p & c & req & Hrest). assert (s' = set_sent (sent s ++ [req]) s) as -> by naive_solver. done.
    + left. destruct Ho as (st & p & i & u & _ & _ & _ & _ & _ & _ & Ha & _). done.
    + right. destruct Hb as (st & p & info & user & Hv & Hn & Hf & Hu & Hin & Hp & Hi & row & now & Hb).
      assert (uuid_ok user) as Hok by (destruct (user_id st) as [x|]; [by eapply uuid_parse_ok|done]).
      exists q, st, p, info, user. pose proof (bind_tables _ _ _ _ _ _ _ _ Hb) as [Ht _].
      destruct (bind_effect _ _ _ _ _ _ _ Hok Hb) as [Ho Hr]. by split_and!.
  - left. by apply (always_makes _ _ _ _ _ _ (start_calm path query ip)) in Hs as [? _].
  - left. by apply (always_makes _ _ _ _ _ _ (start_bind_calm u headers path query)) in Hs as [? _].
  - left. by apply (always_makes _ _ _ _ _ _ (list_calm u)) in Hs as [? _].
  - apply (traced_makes _ _ _ _ _ _ _ _ (unbind_traced u headers provider_id)) in Hs as [Hc|Hu]; [left; apply Hc|by right].
Qed.

(** ** Unique bindings *)

Definition unique (l : list OAuthRow) : Prop :=
  NoDup ((fun r => (oa_provider r, oa_subject r)) <$> l) ∧ NoDup ((fun r => (oa_provider r, oa_user_id r)) <$> l).

(** A change of the table: a refreshed, a new, or some removed rows. *)
Definition table_change (l l' : list OAuthRow) : Prop :=
  (∃ f, l' = f <$> l ∧ ∀ r, oa_provider (f r) = oa_provider r ∧ oa_subject (f r) = oa_subject r ∧ oa_user_id (f r) = oa_user_id r) ∨
  (∃ P : OAuthRow → bool, l' = filter (fun r => P r = true) l) ∨
  (∃ (P : OAuthRow → bool) x, l' = filter (fun r => P r = true) l ++ [x] ∧
     (∀ r, r ∈ l → oa_provider r = oa_provider x → oa_subject r ≠ oa_subject x) ∧
     (∀ r, r ∈ l → P r = true → oa_provider r = oa_provider x → oa_user_id r ≠ oa_user_id x)).

Lemma table_same l : table_change l l.
Proof. left. exists (fun r => r). by rewrite list_fmap_id. Qed.

Lemma unique_change l l' : table_change l l' → unique l → unique l'.
Proof.
  unfold unique. intros [(f & -> & Hf)|[(P & ->)|(P & x & -> & Hs & Hu)]] [Hs0 Hu0].
  - rewrite <-!list_fmap_compose. split.
    + rewrite (list_fmap_ext _ (fun r => (oa_provider r, oa_subject r)) l); [done|]. intros i r _. destruct (Hf r) as (Hf1 & Hf2 & _). cbn. congruence.
    + rewrite (list_fmap_ext _ (fun r => (oa_provider r, oa_user_id r)) l); [done|]. intros i r _. destruct (Hf r) as (Hf1 & _ & Hf2). cbn. congruence.
  - split; (eapply sublist_NoDup; [|apply fmap_sublist, sublist_filter]); done.
  - rewrite !fmap_app. cbn. split; apply NoDup_app; (split_and!; [eapply sublist_NoDup; [|apply fmap_sublist, sublist_filter]; done| |apply NoDup_singleton]).
    + intros k (r & -> & [_ Hr]%list_elem_of_filter)%list_elem_of_fmap [= Hp He]%list_elem_of_singleton. by apply (Hs r).
    + intros k (r & -> & [HP Hr]%list_elem_of_filter)%list_elem_of_fmap [= Hp He]%list_elem_of_singleton. by apply (Hu r).
Qed.
Lemma change_keeps_owner l l' r r' :
  table_change l l' → unique l → r ∈ l → r' ∈ l' → oa_provider r' = oa_provider r → oa_subject r' = oa_subject r → oa_user_id r' = oa_user_id r.
Proof.
  intros Hc [Hu _] Hr Hr' Hp Hs. destruct Hc as [(f & -> & Hf)|[(P & ->)|(P & x & -> & Hx & _)]].
  - apply list_elem_of_fmap in Hr' as (y & -> & Hy). destruct (Hf y) as (Hfp & Hfs & Hfu). rewrite Hfp in Hp. rewrite Hfs in Hs. rewrite Hfu.
    f_equal. apply (fmap_nodup_elem _ _ _ _ Hu); [done..|]. by f_equal.
  - apply list_elem_of_filter in Hr' as [_ Hr']. f_equal. apply (fmap_nodup_elem _ _ _ _ Hu); [done..|]. by f_equal.
  - apply elem_of_app in Hr' as [[_ Hr']%list_elem_of_filter| ->%list_elem_of_singleton].
    + f_equal. apply (fmap_nodup_elem _ _ _ _ Hu); [done..|]. by f_equal.
    + exfalso. by apply (Hx r).
Qed.

Lemma bind_change user p info row_id now s s' :
  bind_transaction (E := E) user p info row_id now s = (Ok (), s') → table_change (accounts s) (accounts s').
Proof.
  unfold bind_transaction. destruct (head _) as [x|] eqn:Eh.
  - repeat case_match; try done. intros [= <-]. left. eexists. split; [reflexivity|]. intros r. cbn. by destruct (_ && _).
  - destruct (existsb _ _) eqn:E1; [done|]. destruct (_ || _) eqn:E2; [done|]. intros [= <-]. right; right.
    exists (fun r => negb (of_user (id p) (uuid_to_string user) r)). eexists. cbn. split_and!.
    + f_equal. apply list_filter_iff. intros r. by destruct (of_user _ _ r).
    + intros r Hr Hp Hs. refine (AccountsProofs.head_filter_None _ _ Eh r Hr _). unfold is_account. by rewrite Hp, Hs, !bool_decide_true.
    + intros r _ Hr Hp Hu. unfold of_user in Hr. by rewrite Hp, Hu, !bool_decide_true in Hr.
Qed.

Lemma handler_changes m : handler m → always (fun _ s s' => table_change (accounts s) (accounts s')) m.
Proof.
  assert (∀ e s s', calm e s s' → table_change (accounts s) (accounts s')) as Hcalm by (intros e s s' [-> _]; apply table_same).
  intros [query ip headers jar|path query ip|u headers path query|u|u headers provider_id].
  - destruct (parse_oauth_callback_query (E := E) query) as [q|x] eqn:Eq; [|unfold oauth_callback; by rewrite Eq].
    eapply traced_always, (callback_traced q jar ip headers query Eq). intros h e s s' [Hc|[Ha|[Ho|Hb]]]; [by eapply Hcalm|..].
    + destruct Ha as (st & p & c & req & Hrest). assert (s' = set_sent (sent s ++ [req]) s) as -> by naive_solver. apply table_same.
    + destruct Ho as (st & p & i & u & _ & _ & _ & _ & _ & _ & -> & _). apply table_same.
    + destruct Hb as (st & p & info & user & _ & _ & _ & _ & _ & _ & _ & row & now & Hb). by eapply bind_change.
  - eapply always_mono, start_calm. exact Hcalm.
  - eapply always_mono, start_bind_calm. exact Hcalm.
  - eapply always_mono, list_calm. exact Hcalm.
  - eapply traced_always, unbind_traced. intros h e s s' [Hc|(_ & i & _ & ->)]; [by eapply Hcalm|]. right; left.
    exists (fun r => negb (of_user i (uuid_to_string (Users.id (Accounts.au_user u))) r)). cbn. apply list_filter_iff. intros r. by destruct (of_user _ _ r).
Qed.

Abbreviation OPool := (Pool (Env E) State (result (Accounts.AppError E) Response)).
Definition reached (s0 : State) (p : OPool) : Prop := rtc (pool_step handler (fun _ _ => True)) {| Interleave.state := s0; threads := [] |} p.

(** C13: whatever handlers run at the same time, an external account is bound to
    at most one user, and a user has at most one account of a provider; and no
    step passes an account from one user to another: as long as it is bound it
    stays with its user. *)
Theorem oauth_accounts_unique s0 (p : OPool) :
  unique (accounts s0) → reached s0 p →
  unique (accounts (Interleave.state p)) ∧
  (∀ (p' : OPool) r r', pool_step handler (fun _ _ => True) p p' → r ∈ accounts (Interleave.state p) → r' ∈ accounts (Interleave.state p') →
     oa_provider r' = oa_provider r → oa_subject r' = oa_subject r → oa_user_id r' = oa_user_id r).
Proof.
  intros Hu Hp.
  pose (act := fun (_ : unit) (_ : Env E) (s s' : State) (_ : unit) => table_change (accounts s) (accounts s')).
  pose (Inv := fun (s : State) (_ : list unit) => unique (accounts s)).
  assert (∀ m, handler m → wp (fun _ _ => True) (fun _ _ => True) act () m (fun _ _ => True)) as Hw.
  { intros m Hm. eapply wp_mono; [|eapply wp_always, handler_changes, Hm]; [done|]. by intros e s s' _ _ Hc. }
  assert (accounted (fun _ _ => True) (fun _ _ => True) act Inv (fun _ _ => True) p) as Hacc.
  { eapply reachable_accounted with (fresh := ()) (program := handler); [done| |done|exact Hw|exact Hu|exact Hp].
    intros e s s' πs i π π' HI _ _ Ha. by eapply unique_change. }
  destruct Hacc as (πs & HI & Hts). split; [exact HI|]. intros p' r r' Hs Hr Hr' Hk1 Hk2.
  assert (table_change (accounts (Interleave.state p)) (accounts (Interleave.state p'))) as Hc.
  { clear Hr'. destruct Hs as [m Hm|i e f n Hi He]; [apply table_same|]. destruct (Forall2_lookup_l _ _ _ _ _ Hts Hi) as (π & _ & Hπ).
    destruct (Hπ e (Interleave.state p) He ltac:(done)) as (π' & Ha & _). exact Ha. }
  by eapply change_keeps_owner.
Qed.
(** ** The state of a flow *)

Section signed.
(** The documented behaviour of [hex], [hmac] and [serde_json]. *)
Hypothesis vec_roundtrip : ∀ st v, state_to_vec st = Ok v → Forall (fun b => 0 <= b < 256) v ∧ state_from_slice v = Ok st.
Hypothesis hex_roundtrip : ∀ v, Forall (fun b => 0 <= b < 256) v → hex_decode (Auth.hex_encode v) = Ok v.
Hypothesis hex_chars : ∀ v, Forall (fun c => 48 <= c <= 57 ∨ 97 <= c <= 102) (Auth.hex_encode v).
Hypothesis hex_length : ∀ v, zlen (Auth.hex_encode v) = 2 * zlen v.
Hypothesis mac_length : ∀ k v, zlen (Auth.hmac_sha256 k v) = 32.

Lemma hex_ascii v : str_bytes (Auth.hex_encode v) = Auth.hex_encode v.
Proof. apply Totp.str_bytes_id. eapply Forall_impl; [apply hex_chars|]. cbn. lia. Qed.
Lemma hex_digits v : forallb Auth.is_ascii_hexdigit (str_bytes (Auth.hex_encode v)) = true.
Proof.
  rewrite hex_ascii. apply forallb_forall. intros c Hc. pose proof (hex_chars v) as Hf. rewrite Forall_forall in Hf.
  apply list_elem_of_In, Hf in Hc. unfold Auth.is_ascii_hexdigit, is_ascii_digit. lia.
Qed.
Lemma hexdigits_plain (s : rstr) : forallb Auth.is_ascii_hexdigit (str_bytes s) = true → str_bytes s = s ∧ 46 ∉ s.
Proof.
  intros Hs. assert (str_bytes s = s) as Heq.
  { apply AuthProofs.str_bytes_ascii, Forall_forall. intros b Hb. rewrite forallb_forall in Hs. apply list_elem_of_In, Hs in Hb.
    by apply AuthProofs.hexdigit_ascii. }
  split; [done|]. intros Hin. rewrite Heq, forallb_forall in Hs. apply list_elem_of_In, Hs in Hin. done.
Qed.
(** A state is accepted exactly when it is a payload with this server's
    signature of it, not longer than the limit and not expired. *)
Lemma decode_state_iff secret text now st :
  decode_state (E := E) secret text now = Ok st ↔
  ∃ payload v, text = payload ++ lit "." ++ sign_state secret (str_bytes payload) ∧ byte_len text <= OAUTH_MAX_STATE_BYTES ∧
    forallb Auth.is_ascii_hexdigit (str_bytes payload) = true ∧ hex_decode payload = Ok v ∧ state_from_slice v = Ok st ∧ timestamp now <= exp st.
Proof.
  unfold decode_state, ensure_oauth_text_size, bad. split.
  - destruct (_ || _) eqn:El; [done|]. apply orb_false_iff in El as [_ El%Z.ltb_ge]. cbn [mbind result_bind].
    destruct (split_once 46 text) as [[payload sig]|] eqn:Es; [|done]. apply split_once_Some in Es as [-> _].
    destruct ((OAUTH_MAX_STATE_BYTES <? byte_len payload) || _); [done|]. destruct (_ || _) eqn:Eh; [done|].
    apply orb_false_iff in Eh as [Hp%negb_false_iff Hs%negb_false_iff]. destruct (constant_time_eq _ _) eqn:Ec; [|done]. cbn [negb].
    apply AuthProofs.constant_time_eq_spec in Ec. unfold sign_state in Ec. rewrite hex_ascii, (proj1 (hexdigits_plain sig Hs)) in Ec. subst sig.
    destruct (hex_decode payload) as [v|] eqn:Ed; [|done]. destruct (state_from_slice v) as [st'|] eqn:Ev; [|done].
    destruct (Z.ltb_spec (exp st') (timestamp now)); [done|]. intros [= <-]. exists payload, v. by split_and!.
  - intros (payload & v & -> & Hl & Hp & Hd & Hv & Hn). destruct (hexdigits_plain payload Hp) as [Ha Hdot].
    assert (byte_len (payload ++ lit "." ++ sign_state secret (str_bytes payload)) = byte_len payload + 1 + 64) as Hlen.
    { rewrite !byte_len_app. unfold sign_state. rewrite <-(str_bytes_len (Auth.hex_encode _)), hex_ascii, hex_length, mac_length.
      change (byte_len (lit ".")) with 1. lia. }
    assert (0 <= byte_len payload) as Hpos by (rewrite <-str_bytes_len; unfold zlen; lia).
    destruct (_ || _) eqn:El. { exfalso. apply orb_true_iff in El as [El%Z.ltb_lt|El%Z.ltb_lt]; lia. } cbn [mbind result_bind].
    change (lit "." ++ sign_state secret (str_bytes payload)) with (46 :: sign_state secret (str_bytes payload)). rewrite split_once_app by done.
    assert (byte_len (sign_state secret (str_bytes payload)) = 64) as H64.
    { unfold sign_state. rewrite <-str_bytes_len, hex_ascii, hex_length, mac_length. done. }
    rewrite H64, Hp. assert (OAUTH_MAX_STATE_BYTES <? byte_len payload = false) as -> by (apply Z.ltb_ge; lia). cbn [orb negb Z.eqb].
    unfold sign_state at 1. rewrite hex_digits. cbn [negb].
    assert (constant_time_eq (str_bytes (sign_state secret (str_bytes payload))) (str_bytes (sign_state secret (str_bytes payload))) = true) as ->
      by by apply AuthProofs.constant_time_eq_spec.
    cbn [negb]. rewrite Hd, Hv. by destruct (Z.ltb_spec (exp st) (timestamp now)); [lia|].
Qed.

(** What a flow is started with. *)
Inductive starts : OAuthFlow → option rstr → PO Response → Prop :=
| starts_login path query ip : starts Login None (start_oauth_login config path query ip)
| starts_bind u headers path query :
    starts Bind (Some (uuid_to_string (Users.id (Accounts.au_user u)))) (start_oauth_bind hmac_sha1 cell config u headers path query).
(** The answer that starts a flow, with the cookie and the address to go to. *)
Definition begun (f : OAuthFlow) (r : Response) : option (rstr * rstr) :=
  match f, r with Login, Redirect [c] loc | Bind, Started [c] loc => Some (c, loc) | _, _ => None end.

Definition flow_begun (f : OAuthFlow) (user : option rstr) h (c loc : rstr) : Prop := ∃ p st text t,
  once h (fun e _ => clock (oracle e) 0%nat = t) ∧ p ∈ providers config ∧
  st = {| provider := id p; flow := f; user_id := user; return_to := return_to st; nonce := nonce st; exp := ten_minutes_on t |} ∧
  valid_local_return_to (return_to st) = true ∧
  encode_state (E := E) (session_secret config) st = Ok text ∧ authorize_url (E := E) p text (nonce st) = Ok loc ∧
  oauth_state_cookie_header (E := E) (cookie_secure config) text = Ok c.

Lemma local_return v : valid_local_return_to (sanitize_return_to v) = true.
Proof. destruct v as [v|]; cbn; [|done]. by destruct (valid_local_return_to v) eqn:Ev. Qed.
Lemma provider_in i p : oauth_provider (E := E) config i = Ok p → p ∈ providers config.
Proof.
  unfold oauth_provider. destruct (normalize_oauth_provider_id i) as [i'|x]; [|done]. cbn. intros Hp%ok_or_Ok.
  unfold find_provider in Hp. by apply AccountsProofs.head_filter_Some in Hp as [_ Hp].
Qed.

Definition answer (f : OAuthFlow) p st : result (Accounts.AppError E) Response :=
  match f with Login => oauth_start_response config p st | Bind => oauth_start_json_response config p st end.
Lemma starts_traced f user m :
  starts f user m → traced (fun _ _ _ _ => True) [] m
    (fun h r => match r with Ok resp => ∀ c loc, begun f resp = Some (c, loc) → flow_begun f user h c loc | Err _ => True end).
Proof.
  intros Hm. assert (∀ h p st now, p ∈ providers config → once h (fun e _ => clock (oracle e) 0%nat = now) →
    st = {| provider := id p; flow := f; user_id := user; return_to := return_to st; nonce := nonce st; exp := ten_minutes_on now |} →
    valid_local_return_to (return_to st) = true →
    traced (fun _ _ _ _ => True) h (of_result (answer f p st))
      (fun h' r => match r with Ok resp => ∀ c loc, begun f resp = Some (c, loc) → flow_begun f user h' c loc | Err _ => True end)) as Hend.
  { intros h p st now Hp Ho Hst Hl. cbn. unfold answer, oauth_start_response, oauth_start_json_response.
    destruct (encode_state (E := E) (session_secret config) st) as [text|x] eqn:Ee; [|by destruct f].
    destruct (oauth_state_cookie_header (E := E) (cookie_secure config) text) as [c|x] eqn:Ec; [|destruct f; cbn; by rewrite Ec].
    destruct (authorize_url (E := E) p text (nonce st)) as [loc|x] eqn:Ea; [|destruct f; cbn; rewrite Ec; cbn; by rewrite Ea].
    destruct f; cbn; rewrite Ec; cbn; rewrite Ea; cbn; intros c' loc' [= <- <-]; exists p, st, text, now; by split_and!. }
  assert (∀ h i return_, traced (fun _ _ _ _ => True) h
      (p ← of_result (oauth_provider config i); n ← random_nonce; now ← now_;
       of_result (answer f p
         {| provider := id p; flow := f; user_id := user; return_to := sanitize_return_to return_; nonce := n; exp := ten_minutes_on now |}))
      (fun h' r => match r with Ok resp => ∀ c loc, begun f resp = Some (c, loc) → flow_begun f user h' c loc | Err _ => True end)) as Hrest.
  { intros h i return_. apply try_pure; [done|]. intros p Hp%provider_in. apply try_calm; [done..|apply nonce_calm|]. intros h1 n.
    apply try_call; [done..|intros o; eapply AccountsProofs.respects_utc_now; apply _|]. intros e s now w [= <- <-].
    apply Hend with (now := clock (oracle e) 0%nat); [done|by apply once_here|done|apply local_return]. }
  destruct Hm as [path query ip|u headers path query].
  - apply try_pure; [done|]. intros i _. apply try_pure; [done|]. intros r _. apply try_calm; [done..|apply banned_calm|]. intros h []. apply Hrest.
  - apply try_pure; [done|]. intros i _. apply try_pure; [done|]. intros r _. apply try_pure; [done|]. intros [] _.
    apply try_calm; [done..|apply call_calm; intros o; apply totp_waf|]. intros h []. apply Hrest.
Qed.

End signed.
End handlers.
End OAuthProofs.
