(* ===== verification/OAuthExamples.v ===== *)
(** * OAuthExamples: concrete OAuth flows

    One provider, a library of concrete primitives that has the properties
    [OAuthProofs] relies on, and a login, a binding and the start of a flow. *)

From S2P Require Import Prelude Text BTreeMap Json Externals Auth AuthProofs Totp Net Security Rfc3339 Tables Sessions Users Secrets SecretsProofs Accounts AccountsProofs AccountExamples Interleave OAuth OAuthProofs.

Module OAuthExamples.
Import Tables Interleave OAuth OAuthProofs.
#[local] Existing Instances SecretsProofs.plain_secrets AuthProofs.crypto0 AccountExamples.argon2_plain.

Definition now0 : Z := AccountExamples.now0.
Definition acme : OidcProviderConfig :=
  {| id := lit "acme"; display_name := None; auth_url := lit "https://id.acme.org/auth"; token_url := lit "https://id.acme.org/token";
     userinfo_url := lit "https://id.acme.org/me"; client_id := lit "xlstatus"; client_secret := lit "s3cret";
     redirect_url := lit "https://status.org/api/v1/oauth2/callback"; scopes := [lit "openid"]; token_auth_method := lit "client_secret_post";
     userinfo_auth_method := lit "bearer"; extra_auth_params := []; subject_field := lit "sub"; email_field := lit "email";
     name_field := lit "name"; username_field := lit "preferred_username" |}.
Definition config0 : Config :=
  {| providers := [acme]; frontend_redirect_url := lit "https://status.org/login"; session_secret := lit "session secret"; session_ttl_hours := 24;
     cookie_secure := true |}.

(** The two states of the examples, and their bytes. *)
Definition nonce0 : rstr := repeat 0 32 ≫= AuthProofs.hex_byte.
Definition login_state : OAuthState :=
  {| provider := lit "acme"; flow := Login; user_id := None; return_to := lit "/dashboard"; nonce := nonce0; exp := timestamp (now0 + seconds 600) |}.
Definition bind_state : OAuthState :=
  {| provider := lit "acme"; flow := Bind; user_id := Some (uuid_to_string 3); return_to := lit "/dashboard"; nonce := nonce0; exp := timestamp (now0 + seconds 600) |}.
#[local] Instance state_eq_dec : EqDecision OAuthState.
Proof. solve_decision. Defined.

Fixpoint unhex (s : rstr) : result rstr (list Z) :=
  match s with
  | [] => Ok []
  | a :: b :: s =>
      match to_digit 16 a, to_digit 16 b, unhex s with
      | Some x, Some y, Ok l => Ok (16 * x + y :: l)
      | _, _, _ => Err (lit "Invalid character")
      end
  | _ => Err (lit "Odd number of digits")
  end.

Definition identity : json := JObject [(lit "sub", JString (lit "42"))].
#[local] Instance lib0 : OAuthLib := {|
  state_to_vec st := if decide (st = login_state) then Ok [1] else if decide (st = bind_state) then Ok [2] else Err [];
  state_from_slice v := if decide (v = [1]) then Ok login_state else if decide (v = [2]) then Ok bind_state else Err [];
  hex_decode := unhex;
  token_from_slice v := if decide (v = [7]) then Ok (lit "token") else Err [];
  value_from_slice v := if decide (v = [8]) then Ok identity else Err [];
  pointer _ _ := None;
  number_to_string _ := [];
  Url := rstr;
  parse_with_params base params := Ok (base ++ lit "?" ++ join (lit "&") ((fun kv => kv.1 ++ lit "=" ++ kv.2) <$> params));
  append_pair u k v := u ++ lit "&" ++ k ++ lit "=" ++ v;
  url_to_string u := u;
  parse_start_query _ := Some None;
  parse_callback_query text := Some {| code := Some (lit "code"); state := text; error := None; error_description := None |};
  header_error _ := None;
  uuid_error _ := [];
  outbound_error label _ := label;
|}.

Lemma vec_roundtrip0 st v : state_to_vec st = Ok v → Forall (fun b => 0 <= b < 256) v ∧ state_from_slice v = Ok st.
Proof.
  cbn. destruct (decide (st = login_state)) as [->|]; [intros [= <-]; split; [repeat constructor; lia|done]|].
  destruct (decide (st = bind_state)) as [->|]; [|done]. intros [= <-]. split; [repeat constructor; lia|done].
Qed.
Lemma hex_chars0 v : Forall (fun c => 48 <= c <= 57 ∨ 97 <= c <= 102) (Auth.hex_encode v).
Proof.
  cbn. induction v as [|b v IH]; [constructor|]. cbn. pose proof (Z.mod_pos_bound (b / 16) 16). pose proof (Z.mod_pos_bound b 16).
  repeat (constructor; [destruct (Z.ltb_spec (b / 16 mod 16) 10), (Z.ltb_spec (b mod 16) 10); lia|]). exact IH.
Qed.
Lemma hex_length0 v : zlen (Auth.hex_encode v) = 2 * zlen v.
Proof. cbn. unfold zlen. induction v as [|b v IH]; [done|]. cbn [mbind list_bind AuthProofs.hex_byte app length]. lia. Qed.
Lemma to_digit0 d : 0 <= d < 16 → to_digit 16 (if d <? 10 then d + 48 else d + 87) = Some d.
Proof.
  intros Hd. assert (d ∈ [0;1;2;3;4;5;6;7;8;9;10;11;12;13;14;15]) as Hin by (rewrite !elem_of_cons; lia).
  repeat (apply elem_of_cons in Hin as [->|Hin]; [reflexivity|]). by apply not_elem_of_nil in Hin.
Qed.
Lemma hex_roundtrip0 v : Forall (fun b => 0 <= b < 256) v → hex_decode (Auth.hex_encode v) = Ok v.
Proof.
  cbn [hex_decode Auth.hex_encode AuthProofs.crypto0 lib0]. induction v as [|b v IH]; [done|]. intros [Hb Hv]%Forall_cons. rewrite bind_cons.
  unfold AuthProofs.hex_byte at 1. cbn [app unhex]. rewrite !to_digit0 by (apply Z.mod_pos_bound; lia). rewrite IH by done.
  do 2 f_equal. rewrite (Z.mod_small (b / 16)) by (split; [apply Z.div_pos; lia|apply Z.div_lt_upper_bound; lia]).
  rewrite <-Z.div_mod by lia. done.
Qed.
Lemma mac_length0 k v : zlen (Auth.hmac_sha256 k v) = 32.
Proof. cbn. unfold AuthProofs.pad32, zlen. rewrite length_take, length_app, length_replicate. lia. Qed.

(** ** Environment and state *)

Definition host (url : rstr) : option Security.Url :=
  Some {| Security.scheme := lit "https"; Security.username := []; Security.password := None; Security.host_str := Some (lit "id.acme.org");
          Security.port := None; Security.port_or_known_default := Some 443; Security.path := url; Security.query := None; Security.fragment := None |}.
Definition env0 : Env unit :=
  {| oracle := {| clock k := now0; uuid_v7 k := 1000; random k := repeat 0 32; fault _ := None |};
     lookup_host _ p := Some [{| Security.sa_ip := Net.V4 0x08080808; Security.sa_port := p |}]; client_error := None;
     exchange rq := Ok {| rp_success := true; rp_status := lit "200"; rp_content_length := None; rp_chunks := [Ok [if rq_post rq then 7 else 8]] |} |}.
Definition no_vars (name : rstr) : option rstr := None.
Definition any_header (text : rstr) : bool := true.
Definition no_headers (name : rstr) : option (list Z) := None.
Definition account0 : OAuthRow :=
  {| oa_id := uuid_to_string 70; oa_user_id := uuid_to_string 3; oa_provider := lit "acme"; oa_subject := lit "42"; oa_email := None;
     oa_display_name := None; oa_created_at := to_rfc3339 now0; oa_updated_at := to_rfc3339 now0 |}.
Definition with_account : State := {| tables := AccountExamples.tables0; accounts := [account0]; sent := [] |}.
Definition without_account : State := {| tables := AccountExamples.tables0; accounts := []; sent := [] |}.

Definition text_of (st : OAuthState) : rstr := match encode_state (E := unit) (session_secret config0) st with Ok t => t | Err _ => [] end.
(** The browser holds the cookie of the flow and the session of the user 3. *)
Definition jar0 (text name : rstr) : option rstr :=
  if decide (name = OAUTH_STATE_COOKIE_NAME) then Some (oauth_state_cookie_value text)
  else if decide (name = Accounts.SESSION_COOKIE_NAME) then Some (replicate 64 97) else None.
Definition callback (st : OAuthState) : P (Env unit) State (Accounts.AppError unit) Response :=
  oauth_callback host no_vars config0 any_header (Some (text_of st)) (lit "203.0.113.9") no_headers (jar0 (text_of st)).
Definition envs : list (Env unit) := replicate 20 env0.
Definition nth_step {A} (k : nat) (m : Proc (Env unit) State A) (s : State) : Env unit * State * State := default (env0, s, s) (solo envs m s !! k).
Definition steps_before {A} (k : nat) (m : Proc (Env unit) State A) (s : State) : list (Env unit * State) := fst <$> take k (solo envs m s).

(** ** A login *)

Lemma login_step : solo envs (callback login_state) with_account !! 12%nat = Some (nth_step 12 (callback login_state) with_account).
Proof. vm_compute. reflexivity. Qed.
Lemma oauth_login_sound_witness :
  length (sessions (tables (nth_step 12 (callback login_state) with_account).2)) = 3%nat ∧
  (let '(e, s, s') := nth_step 12 (callback login_state) with_account in
   sessions (tables s') = sessions (tables s) ∨
   ∃ q, parse_oauth_callback_query (E := unit) (Some (text_of login_state)) = Ok q ∧
        opens config0 (steps_before 12 (callback login_state) with_account) q (jar0 (text_of login_state)) (lit "203.0.113.9") s s').
Proof.
  split; [vm_compute; reflexivity|]. pose proof login_step as Hs. destruct (nth_step 12 (callback login_state) with_account) as [[e s] s'].
  refine (proj1 (oauth_login_sound AccountExamples.hmac0 host no_vars config0 any_header (Some (text_of login_state)) (lit "203.0.113.9") no_headers
    (jar0 (text_of login_state)) (steps_before 12 (callback login_state) with_account) e s s' _)).
  exact (solo_makes _ _ _ _ _ _ _ Hs).
Defined.

(** ** A binding *)

Lemma bind_step : solo envs (callback bind_state) without_account !! 11%nat = Some (nth_step 11 (callback bind_state) without_account).
Proof. vm_compute. reflexivity. Qed.
Definition step11 : State * State := let '(_, s, s') := nth_step 11 (callback bind_state) without_account in (s, s').
Lemma oauth_binding_sound_witness :
  oa_user_id <$> accounts step11.2 = [uuid_to_string 3] ∧
  (accounts step11.2 = accounts step11.1 ∨
   binding_made config0 (steps_before 11 (callback bind_state) without_account) (Some (text_of bind_state)) (lit "203.0.113.9") (jar0 (text_of bind_state)) step11.1 step11.2).
Proof.
  split; [vm_compute; reflexivity|]. pose proof bind_step as Hs. unfold step11.
  destruct (nth_step 11 (callback bind_state) without_account) as [[e s] s'].
  refine (proj1 (oauth_binding_sound AccountExamples.hmac0 None host no_vars config0 any_header) (Callback (Some (text_of bind_state)) (lit "203.0.113.9") (jar0 (text_of bind_state))) (callback bind_state)
    (steps_before 11 (callback bind_state) without_account) e s s' _ _).
  - apply c_callback.
  - exact (solo_makes _ _ _ _ _ _ _ Hs).
Defined.

(** ** Two browsers bind the same account *)

Definition pool0 : Pool (Env unit) State (result (Accounts.AppError unit) Response) :=
  execute (fun _ _ => True) (concat (replicate 12 [(0%nat, env0); (1%nat, env0)]))
    {| Interleave.state := without_account; threads := [callback bind_state; callback bind_state] |}.
Lemma pool0_reached_oauth : reached AccountExamples.hmac0 None host no_vars config0 any_header without_account pool0.
Proof.
  unfold reached. etransitivity; [apply (spawn_all _ _ _ [callback bind_state; callback bind_state])|apply execute_steps].
  repeat constructor.
Qed.
Lemma oauth_accounts_unique_witness : length (accounts (Interleave.state pool0)) = 1%nat ∧ unique (accounts (Interleave.state pool0)).
Proof.
  split; [vm_compute; reflexivity|].
  refine (proj1 (oauth_accounts_unique AccountExamples.hmac0 None host no_vars config0 any_header without_account pool0 _ pool0_reached_oauth)).
  split; constructor.
Defined.

(** ** The start of a flow *)

Definition start : P (Env unit) State (Accounts.AppError unit) Response :=
  start_oauth_login config0 (lit "/api/v1/oauth2/acme") None (lit "203.0.113.9").
Definition started : rstr * rstr :=
  match outcome envs start with_account with Some (Ok (Redirect [c] loc)) => (c, loc) | _ => ([], []) end.
Lemma start_outcome : outcome envs start with_account = Some (Ok (Redirect [started.1] started.2)).
Proof. vm_compute. reflexivity. Qed.
End OAuthExamples.
