(* ===== verification/Pats.v ===== *)
(** * Pats: issuing and revoking personal access tokens

    [crates/server/src/api/v1/pat.rs] with the rest of
    [crates/server/src/db/repository/pat.rs] (reading a token, marking it used and
    revoking are in [Users]): the checks on a request for a token, the check that
    its server allowlist names servers of the user, and the three handlers. A
    handler is a program of single statements over the account tables and the
    table of Agents ([Interleave]). *)

From S2P Require Import Prelude Text Externals Rfc3339 Auth Tables Users Secrets Accounts Interleave Fleet.

Module Pats.
Import Tables Interleave.

Definition DEFAULT_PAT_TTL_DAYS : Z := 90.
Definition MAX_PAT_TTL_DAYS : Z := 365.
Definition PAT_MAX_NAME_BYTES : Z := 128.
Definition PAT_MAX_SCOPES : Z := 64.
Definition PAT_MAX_SCOPE_BYTES : Z := 128.
Definition PAT_MAX_SERVER_IDS : Z := 64.
Definition PAT_MAX_EXPIRES_AT_BYTES : Z := 64.
Definition PAT_RESOURCE_UUID_TEXT_LEN : Z := 36.

Record CreatePATRequest := { rq_name : rstr; rq_scopes : list rstr; rq_server_ids : option (list rstr); rq_expires_at : option rstr }.
Record NormalizedPATRequest := { name : rstr; scopes : list rstr; server_ids : option (list rstr); expires_at : option rstr }.
Record CreatePATResponse := {
  rs_id : rstr; rs_name : rstr; rs_token : rstr; rs_scopes : list rstr; rs_expires_at : rstr; rs_created_at : rstr;
}.
Record PATInfo := {
  pi_id : rstr; pi_name : rstr; pi_scopes : list rstr; pi_server_ids : option (list rstr); pi_expires_at : option rstr;
  pi_last_used_at : option rstr; pi_created_at : rstr;
}.
Record CreatePATInput := {
  in_user_id : Z; in_name : rstr; in_scopes : list rstr; in_server_ids : option (list rstr); in_expires_at : option Z;
}.

(** [serde_json] on a list of strings, which it can always print, and the texts
    of the errors of [uuid] and [chrono]. *)
Class PatLib : Type := {
  strings_to_json : list rstr → rstr;
  json_strings : rstr → option (list rstr);
  uuid_error : rstr → rstr;
  rfc3339_error : rstr → rstr;
}.

(** [str::contains] of a text. *)
Definition contains_text (part s : rstr) : bool := match split_once_str part s with Some _ => true | None => false end.

(** The messages of [rbac.rs]. *)
Definition policy_text (e : Auth.PolicyError) : rstr :=
  match e with
  | Auth.ScopesEmpty => lit "scopes must not be empty"
  | Auth.TooManyScopes => lit "scopes must contain at most " ++ print_i64 Auth.PAT_RUNTIME_MAX_SCOPES ++ lit " items"
  | Auth.ScopeTooLong => lit "scope must be at most " ++ print_i64 Auth.PAT_RUNTIME_MAX_SCOPE_BYTES ++ lit " bytes"
  | Auth.BareWildcard => lit "wildcard '*' is not allowed in PAT scopes"
  | Auth.AdminStarRequiresAdmin => lit "admin:* scope requires admin role"
  | Auth.ScopeRequiresAdmin scope => lit "scope " ++ scope ++ lit " requires admin role"
  | Auth.InvalidScopeFormat scope => lit "invalid scope format: " ++ scope
  | Auth.UnknownNamespace ns => lit "unknown scope namespace: " ++ ns
  | Auth.WildcardIncludesAdminOnly scope => lit "scope " ++ scope ++ lit " includes admin-only permissions"
  | Auth.UnknownScope scope => lit "unknown scope: " ++ scope
  | Auth.NotNamespaceAction scope => lit "scope '" ++ scope ++ lit "' must use 'namespace:action' format"
  | Auth.TooManyServerIds => lit "server allowlist must contain at most " ++ print_i64 Auth.PAT_RUNTIME_MAX_SERVER_IDS ++ lit " items"
  | Auth.ServerIdTooLong => lit "server id in allowlist must be at most " ++ print_i64 Auth.PAT_RUNTIME_MAX_SERVER_ID_BYTES ++ lit " bytes"
  | Auth.InvalidServerId id => lit "invalid server id in allowlist: " ++ id
  | Auth.NonCanonicalServerId id => lit "server id in allowlist must be a canonical UUID: " ++ id
  | Auth.AllowlistRequired => lit "non-admin PATs with server-scoped permissions require a non-empty server allowlist"
  end.

(** ** Checks on a request *)

Section checks.
Context {E : Type} `{UuidLib, Rfc3339, PatLib}.
Abbreviation R := (result (Accounts.AppError E)).
Definition bad {A} (text : rstr) : R A := Err (Accounts.BadRequest text).

Definition validate_scopes (scopes : list rstr) (is_admin : bool) : R unit :=
  match Auth.validate_pat_scopes scopes is_admin with
  | Ok _ => Ok ()
  | Err e => let msg := policy_text e in if contains_text (lit "admin") msg then Err (Accounts.Forbidden msg) else bad msg
  end.

Definition validate_servers (ids : option (list rstr)) (scopes : list rstr) (is_admin : bool) : R unit :=
  match Auth.validate_server_ids ids with
  | Err e => bad (policy_text e)
  | Ok _ =>
      if negb is_admin && Auth.pat_scopes_require_server_allowlist scopes && match ids with Some ids => is_empty ids | None => true end
      then Err (Accounts.Forbidden (policy_text Auth.AllowlistRequired)) else Ok ()
  end.

Definition normalize_required_text (value : rstr) (max_bytes : Z) (field : rstr) : R rstr :=
  let value := trim value in
  if is_empty value then bad (field ++ lit " is required") else
  if max_bytes <? byte_len value then bad (field ++ lit " must be at most " ++ print_i64 max_bytes ++ lit " bytes") else Ok value.

(** The loop: the scopes kept so far are also the set of those seen. *)
Fixpoint scopes_loop (values kept : list rstr) : R (list rstr) :=
  match values with
  | [] => Ok kept
  | value :: values =>
      let value := trim value in
      if is_empty value then scopes_loop values kept else
      if PAT_MAX_SCOPE_BYTES <? byte_len value then bad (lit "scope must be at most " ++ print_i64 PAT_MAX_SCOPE_BYTES ++ lit " bytes") else
      scopes_loop values (if contains value kept then kept else kept ++ [value])
  end.
Definition normalize_scopes (values : list rstr) : R (list rstr) :=
  if is_empty values then bad (lit "scopes must not be empty") else
  if PAT_MAX_SCOPES <? zlen values then bad (lit "scopes must contain at most " ++ print_i64 PAT_MAX_SCOPES ++ lit " items") else
  scopes ← scopes_loop values [];
  if is_empty scopes then bad (lit "scopes must not be empty") else Ok scopes.

Fixpoint servers_loop (values : list rstr) (seen : list Z) (kept : list rstr) : R (list rstr) :=
  match values with
  | [] => Ok kept
  | value :: values =>
      let value := trim value in
      if is_empty value then servers_loop values seen kept else
      match uuid_parse value with
      | None => bad (lit "invalid server id in allowlist: " ++ uuid_error value)
      | Some parsed => if contains parsed seen then servers_loop values seen kept
                       else servers_loop values (parsed :: seen) (kept ++ [uuid_to_string parsed])
      end
  end.
Definition normalize_server_ids (values : option (list rstr)) : R (option (list rstr)) :=
  match values with
  | None => Ok None
  | Some values =>
      if PAT_MAX_SERVER_IDS <? zlen values then bad (lit "server_ids must contain at most " ++ print_i64 PAT_MAX_SERVER_IDS ++ lit " items") else
      server_ids ← servers_loop values [] [];
      if is_empty server_ids then bad (lit "server_ids must not be empty when provided") else Ok (Some server_ids)
  end.

Definition normalize_expires_at (value : option rstr) : R (option rstr) :=
  match trim <$> value with
  | None => Ok None
  | Some value =>
      if is_empty value then Ok None else
      if PAT_MAX_EXPIRES_AT_BYTES <? byte_len value
      then bad (lit "expires_at must be at most " ++ print_i64 PAT_MAX_EXPIRES_AT_BYTES ++ lit " bytes") else Ok (Some value)
  end.

Definition normalize_create_pat_request (req : CreatePATRequest) : R NormalizedPATRequest :=
  name ← normalize_required_text (rq_name req) PAT_MAX_NAME_BYTES (lit "name");
  scopes ← normalize_scopes (rq_scopes req);
  server_ids ← normalize_server_ids (rq_server_ids req);
  expires_at ← normalize_expires_at (rq_expires_at req);
  Ok {| name := name; scopes := scopes; server_ids := server_ids; expires_at := expires_at |}.

Definition normalize_pat_resource_uuid (value field : rstr) : R rstr :=
  if is_empty value then bad (field ++ lit " is required") else
  if negb (byte_len value =? PAT_RESOURCE_UUID_TEXT_LEN) then bad (field ++ lit " must be a canonical UUID") else
  match uuid_parse value with
  | None => bad (field ++ lit " must be a canonical UUID")
  | Some parsed => if bool_decide (uuid_to_string parsed = value) then Ok value else bad (field ++ lit " must be a canonical UUID")
  end.

Definition resolve_pat_expires_at (input : option rstr) (now : Z) : R Z :=
  expires_at ← match trim <$> input with
               | Some (c :: value) => match parse_from_rfc3339 (c :: value) with
                                      | Some t => Ok t
                                      | None => bad (lit "Invalid expires_at: " ++ rfc3339_error (c :: value))
                                      end
               | _ => Ok (now + days DEFAULT_PAT_TTL_DAYS)
               end;
  if expires_at <=? now then bad (lit "expires_at must be in the future") else
  if now + days MAX_PAT_TTL_DAYS <? expires_at then bad (lit "expires_at must be within " ++ print_i64 MAX_PAT_TTL_DAYS ++ lit " days")
  else Ok expires_at.
End checks.

(** ** The repository *)

Section repository.
Context {E : Type} `{UuidLib, Rfc3339, PatLib} (o : Oracle E).
Abbreviation MM := (M (Anyhow E)).

Definition new_row (id : rstr) (input : CreatePATInput) (token_hash : rstr) (now : Z) : PatRow :=
  {| pr_id := id; pr_user_id := uuid_to_string (in_user_id input); pr_name := in_name input; pr_token_hash := token_hash;
     pr_scopes := strings_to_json (in_scopes input); pr_server_ids := strings_to_json <$> in_server_ids input;
     pr_expires_at := to_rfc3339 <$> in_expires_at input; pr_last_used_at := None; pr_last_used_ip := None;
     pr_created_at := to_rfc3339 now; pr_revoked_at := None |}.
(** The primary key, the unique hash and the reference to the user. *)
Definition insert_pat (row : PatRow) (t : Tables) : result Why unit * Tables :=
  if bool_decide (pr_id row ∈ (pr_id <$> pats t)) || bool_decide (pr_token_hash row ∈ (pr_token_hash <$> pats t))
     || negb (bool_decide (pr_user_id row ∈ (ur_id <$> users t)))
  then (Err ConstraintViolated, t) else (Ok (), set_pats (pats t ++ [row]) t).
Definition create (input : CreatePATInput) (token_hash : rstr) : MM Users.PersonalAccessToken :=
  id ← now_v7 o;
  now ← utc_now o;
  sql o (insert_pat (new_row (uuid_to_string id) input token_hash now));;
  mret {| Users.p_id := uuid_to_string id; Users.p_user_id := in_user_id input; Users.p_name := in_name input; Users.p_token_hash := token_hash;
          Users.p_scopes := in_scopes input; Users.p_server_ids := in_server_ids input; Users.p_expires_at := in_expires_at input;
          Users.p_last_used_at := None; Users.p_last_used_ip := None; Users.p_created_at := now; Users.p_revoked_at := None |}.

(** [ORDER BY created_at DESC LIMIT 500]; a row that does not decode is skipped. *)
Definition newest_first (p q : PatRow) : Prop := str_leb (pr_created_at q) (pr_created_at p) = true.
#[global] Instance newest_first_dec p q : Decision (newest_first p q).
Proof. unfold newest_first. apply _. Defined.
Definition list_by_user (user_id : Z) : MM (list Users.PersonalAccessToken) :=
  rows ← select o (fun t => take 500 (merge_sort newest_first
           (filter (fun r => pr_user_id r = uuid_to_string user_id ∧ pr_revoked_at r = None) (pats t))));
  mret (omap (Users.row_to_pat_sqlite json_strings) rows).

(** [generate_pat] of [auth/mod.rs]. *)
Definition generate_pat `{Auth.Crypto} : M (Accounts.AppError E) (rstr * rstr) :=
  bytes ← random_bytes o;
  let token := Auth.PAT_PREFIX ++ Auth.hex_encode bytes in
  mret (token, Auth.hash_token token).
End repository.

(** ** Handlers *)

Record State := { tables : Tables; agents : list Fleet.AgentRow }.
Definition set_tables x s : State := {| tables := x; agents := agents s |}.

Inductive Response : Type := Created (r : CreatePATResponse) | Listed (l : list PATInfo) | Revoked.

Section handlers.
Context {E : Type} `{UuidLib, Rfc3339, Users.Argon2, Secrets.SecretLib, Auth.Crypto, PatLib}.
Context (hmac_sha1 : list Z → list Z → list Z) (cell : option Secrets.SecretCrypto).
Abbreviation PO := (P (Oracle E) State (Accounts.AppError E)).

(** A call into the account modules, and a statement on the Agents. *)
Definition call {A} (m : Oracle E → M (Accounts.AppError E) A) : PO A :=
  atomic (fun o s => let '(r, w) := m o {| db := tables s; tick := 0%nat |} in (r, set_tables (db w) s)).
Definition find_agent (agent_id : Z) : PO (option Fleet.Agent) :=
  atomic (fun o s => (match fault o 0%nat with
                      | Some e => Err (Accounts.Database (Sqlx e))
                      | None => Ok (head (filter (fun r => Fleet.ag_id r = uuid_to_string agent_id) (agents s)) ≫= Fleet.sqlite_agent_row_to_agent)
                      end, s)).

Definition require_cookie_session (u : Accounts.AuthUser) : result (Accounts.AppError E) unit :=
  if Auth.is_pat (Accounts.au_kind u) then Err (Accounts.Forbidden (lit "PAT cannot manage API tokens")) else Ok ().

Fixpoint each_owned (user_id : Z) (is_admin : bool) (ids : list rstr) : PO unit :=
  match ids with
  | [] => mret ()
  | i :: ids =>
      agent_id ← of_result (ok_or (uuid_parse i) (Accounts.BadRequest (lit "invalid server id in allowlist: " ++ i)));
      found ← find_agent agent_id;
      match found with
      | None => throw (Accounts.BadRequest (lit "server id in allowlist does not exist: " ++ i))
      | Some agent =>
          if bool_decide (is_Some (Fleet.revoked_at agent)) then throw (Accounts.BadRequest (lit "server id in allowlist has been revoked: " ++ i)) else
          if negb is_admin && negb (Fleet.owner_user_id agent =? user_id)
          then throw (Accounts.Forbidden (lit "non-admin PAT server allowlist can only contain owned servers")) else
          each_owned user_id is_admin ids
      end
  end.
Definition validate_server_allowlist_ownership (user_id : Z) (is_admin : bool) (ids : option (list rstr)) : PO unit :=
  match ids with None => mret () | Some ids => each_owned user_id is_admin ids end.

(** [expect("new PAT has an expiration")] finds the expiry [create] was given. *)
Definition create_pat (u : Accounts.AuthUser) (headers : rstr → option (list Z)) (req : CreatePATRequest) : PO Response :=
  let user_id := Users.id (Accounts.au_user u) in
  of_result (require_cookie_session u);;
  call (fun o => Accounts.require_sensitive_totp hmac_sha1 cell o user_id headers);;
  let is_admin := Auth.is_admin (Users.role (Accounts.au_user u)) in
  req ← of_result (normalize_create_pat_request req);
  of_result (validate_scopes (scopes req) is_admin);;
  of_result (validate_servers (server_ids req) (scopes req) is_admin);;
  validate_server_allowlist_ownership user_id is_admin (server_ids req);;
  '(token, token_hash) ← call (fun o => generate_pat o);
  now ← call (fun o => utc_now o);
  expires_at ← of_result (resolve_pat_expires_at (expires_at req) now);
  pat ← call (fun o => Accounts.repo (create o {| in_user_id := user_id; in_name := name req; in_scopes := scopes req;
                                                 in_server_ids := server_ids req; in_expires_at := Some expires_at |} token_hash));
  mret (Created {| rs_id := Users.p_id pat; rs_name := Users.p_name pat; rs_token := token; rs_scopes := Users.p_scopes pat;
                   rs_expires_at := to_rfc3339 (default expires_at (Users.p_expires_at pat)); rs_created_at := to_rfc3339 (Users.p_created_at pat) |}).

Definition pat_info (pat : Users.PersonalAccessToken) : PATInfo :=
  {| pi_id := Users.p_id pat; pi_name := Users.p_name pat; pi_scopes := Users.p_scopes pat; pi_server_ids := Users.p_server_ids pat;
     pi_expires_at := to_rfc3339 <$> Users.p_expires_at pat; pi_last_used_at := to_rfc3339 <$> Users.p_last_used_at pat;
     pi_created_at := to_rfc3339 (Users.p_created_at pat) |}.
Definition list_pats (u : Accounts.AuthUser) : PO Response :=
  of_result (require_cookie_session u);;
  pats ← call (fun o => Accounts.repo (list_by_user o (Users.id (Accounts.au_user u))));
  mret (Listed (pat_info <$> pats)).

Definition revoke_pat (u : Accounts.AuthUser) (headers : rstr → option (list Z)) (id : rstr) : PO Response :=
  of_result (require_cookie_session u);;
  call (fun o => Accounts.require_sensitive_totp hmac_sha1 cell o (Users.id (Accounts.au_user u)) headers);;
  id ← of_result (normalize_pat_resource_uuid id (lit "token_id"));
  revoked ← call (fun o => Accounts.repo (Users.revoke o id (Users.id (Accounts.au_user u))));
  if negb revoked then throw (Accounts.BadRequest (lit "Token not found or already revoked")) else mret Revoked.
End handlers.
End Pats.
