(* ===== verification/PatsProofs.v ===== *)
(** * PatsProofs: who may issue and revoke API tokens, and what a token is good for

    Every step of the handlers of [Pats], with what was established before it;
    and the life of a token, from the answer that shows it to the session
    middleware that accepts or refuses it. *)

From S2P Require Import Prelude Text Externals Rfc3339 Auth AuthProofs Totp Tables Sessions Users Secrets Accounts AccountsProofs AdminProofs Interleave Fleet OAuthProofs Pats.

Module PatsProofs.
Import Tables Interleave Pats.
#[local] Arguments uuid_to_string : simpl never.

Section handlers.
Context {E : Type} `{UuidLib, Rfc3339, Users.Argon2, Secrets.SecretLib, Auth.Crypto, PatLib}.
Context (hmac_sha1 : list Z → list Z → list Z) (cell : option Secrets.SecretCrypto).
Abbreviation hist := (list (Oracle E * State)).
Abbreviation PO := (P (Oracle E) State (Accounts.AppError E)).
Implicit Types (h : hist) (o : Oracle E) (s : State) (u : Accounts.AuthUser) (headers : rstr → option (list Z)).

Definition user_of u : Z := Users.id (Accounts.au_user u).
Definition admin u : bool := Auth.is_admin (Users.role (Accounts.au_user u)).

(** ** Steps *)

(** A step that only reads, or records attempts. *)
Definition calm o s s' : Prop := agents s' = agents s ∧ OAuthProofs.only_waf (tables s) (tables s').
Lemma pat_calm_refl o s : calm o s s.
Proof. by repeat split. Qed.

(** The user came with a cookie and passed the check of the second factor, which
    also passes where the user has not enabled one. *)
Definition vouched h u headers : Prop :=
  Auth.is_pat (Accounts.au_kind u) = false ∧
  once h (fun o s => ∃ w, Accounts.require_sensitive_totp hmac_sha1 cell o (user_of u) headers {| db := tables s; tick := 0%nat |} = (Ok (), w)).
(** The server was there, not revoked, and the user's own unless an administrator asks. *)
Definition may_list u s (i : rstr) : Prop := ∃ k r a,
  uuid_parse i = Some k ∧ head (filter (fun r => Fleet.ag_id r = uuid_to_string k) (agents s)) = Some r ∧
  Fleet.sqlite_agent_row_to_agent r = Some a ∧ Fleet.revoked_at a = None ∧ (admin u = true ∨ Fleet.owner_user_id a = user_of u).
Definition within_year h (t : Z) : Prop := once h (fun o _ => clock o 0%nat < t <= clock o 0%nat + days MAX_PAT_TTL_DAYS).
Definition drawn h (token : rstr) : Prop := once h (fun o _ => token = Auth.PAT_PREFIX ++ Auth.hex_encode (random o 0%nat)).

(** The row that [create] writes in [o]. *)
Definition row_of o u (n : NormalizedPATRequest) (t : Z) (token : rstr) : PatRow :=
  new_row (uuid_to_string (uuid_v7 o 0%nat)) {| in_user_id := user_of u; in_name := name n; in_scopes := scopes n; in_server_ids := server_ids n;
                                                in_expires_at := Some t |} (Auth.hash_token token) (clock o 1%nat).
Definition issues h o u headers req n t token s s' : Prop :=
  vouched h u headers ∧ normalize_create_pat_request (E := E) req = Ok n ∧
  Auth.validate_pat_runtime (scopes n) (admin u) (server_ids n) = Ok () ∧
  Forall (fun i => once h (fun _ s0 => may_list u s0 i)) (default [] (server_ids n)) ∧
  within_year h t ∧ drawn h token ∧
  Auth.hash_token token ∉ (pr_token_hash <$> pats (tables s)) ∧ uuid_to_string (user_of u) ∈ (ur_id <$> users (tables s)) ∧
  s' = set_tables (set_pats (pats (tables s) ++ [row_of o u n t token]) (tables s)) s.
Definition mine (id : rstr) u (r : PatRow) : bool :=
  bool_decide (pr_id r = id) && bool_decide (pr_user_id r = uuid_to_string (user_of u)) && bool_decide (pr_revoked_at r = None).
Definition withdraws h u headers (id : rstr) s s' : Prop := vouched h u headers ∧
  ∃ at_, s' = set_tables (set_pats ((fun r => if mine id u r then Users.set_revoked at_ r else r) <$> pats (tables s)) (tables s)) s.

Lemma pat_call_calm {A} (m : Oracle E → M (Accounts.AppError E) A) :
  (∀ o, AccountsProofs.respects OAuthProofs.only_waf (m o)) → always calm (call m).
Proof. intros Hm o s. split; [|done]. cbn. destruct (m o _) as [r w] eqn:Er. cbn. split; [done|]. by apply (Hm o) in Er. Qed.

(** Programs followed by the rest of a handler, where an error ends it. *)
Section rest.
Context (I : hist → Oracle E → State → State → Prop) (I_calm : ∀ h o s s', calm o s s' → I h o s s').
Context {B : Type} (Q : hist → result (Accounts.AppError E) B → Prop) (Q_err : ∀ h x, Q h (Err x)).
Abbreviation Traced h m := (traced I h m Q).

Lemma pat_step {A} h (m : Oracle E → M (Accounts.AppError E) A) (k : A → PO B) :
  (∀ o s r w, m o {| db := tables s; tick := 0%nat |} = (r, w) → I h o s (set_tables (db w) s)) →
  (∀ o s a w, m o {| db := tables s; tick := 0%nat |} = (Ok a, w) → Traced (h ++ [(o, s)]) (k a)) → Traced h (call m ≫= k).
Proof.
  intros Hm Hk. apply traced_try. intros o s. split.
  - cbn. destruct (m o _) as [r w] eqn:Er. by eapply Hm.
  - cbn. destruct (m o _) as [[a|x] w] eqn:Er; cbn; [|auto]. by eapply Hk.
Qed.
Lemma pat_call {A} h (m : Oracle E → M (Accounts.AppError E) A) (k : A → PO B) :
  (∀ o, AccountsProofs.respects OAuthProofs.only_waf (m o)) →
  (∀ o s a w, m o {| db := tables s; tick := 0%nat |} = (Ok a, w) → Traced (h ++ [(o, s)]) (k a)) → Traced h (call m ≫= k).
Proof. intros Hm. apply pat_step. intros o s r w Hw. apply I_calm. split; [done|]. by apply (Hm o) in Hw. Qed.

(** The check of an allowlist. *)
Lemma owned_traced h u ids k :
  (∀ h', Forall (fun i => once (h ++ h') (fun _ s0 => may_list u s0 i)) ids → Traced (h ++ h') (k ())) →
  Traced h (each_owned (user_of u) (admin u) ids ≫= k).
Proof.
  intros Hk. apply traced_try.
  enough (∀ h0 done_, Forall (fun i => once h0 (fun _ s0 => may_list u s0 i)) done_ → (∃ g, h0 = h ++ g) →
    traced I h0 (each_owned (user_of u) (admin u) ids) (fun h1 r => match r with
      | Ok _ => (∃ g, h1 = h ++ g) ∧ Forall (fun i => once h1 (fun _ s0 => may_list u s0 i)) (done_ ++ ids) | Err _ => True end)) as Hall.
  { eapply traced_mono; [|apply (Hall h []); [done|exists []; by rewrite app_nil_r]]. intros h1 [[]|x]; [|by intros _]. intros [[g ->] Hf]. by apply Hk. }
  clear Hk. induction ids as [|i ids IH]; intros h0 done_ Hd [g ->]; cbn [each_owned]; [cbn; rewrite app_nil_r; eauto|].
  apply traced_try. destruct (uuid_parse i) as [a|] eqn:Ea; [|done]. cbn. intros o s.
  split; [cbn; apply I_calm, pat_calm_refl|]. cbn. destruct (fault o 0%nat); [done|]. cbn.
  destruct (head _) as [r|] eqn:Eh; [|done]. cbn. destruct (Fleet.sqlite_agent_row_to_agent r) as [ag|] eqn:Er; [|done]. cbn.
  case_bool_decide as Hr; [done|]. destruct (negb (admin u) && _) eqn:Eo; [done|].
  rewrite (cons_middle i done_ ids), app_assoc. apply IH; [|exists (g ++ [(o, s)]); by rewrite app_assoc].
  apply Forall_app. split; [eapply Forall_impl; [exact Hd|]; intros; by apply once_app|]. apply Forall_singleton, once_here.
  exists a, r, ag. split_and!; [done..|by apply eq_None_not_Some|]. destruct (admin u); [by left|right]. cbn in Eo. lia.
Qed.
Lemma allowlist_traced h u ids k :
  (∀ h', Forall (fun i => once (h ++ h') (fun _ s0 => may_list u s0 i)) (default [] ids) → Traced (h ++ h') (k ())) →
  Traced h (validate_server_allowlist_ownership (user_of u) (admin u) ids ≫= k).
Proof.
  intros Hk. destruct ids as [ids|]; [by apply owned_traced|]. cbn in *. rewrite <- (app_nil_r h). apply Hk. constructor.
Qed.
End rest.

(** ** What the calls leave alone *)

Section quiet.
Import AccountsProofs.
Lemma draw_waf o : respects OAuthProofs.only_waf (generate_pat o).
Proof. unfold generate_pat. cbv zeta. auto with respects. Qed.
Lemma clock_waf o : respects OAuthProofs.only_waf (utc_now o : M (Accounts.AppError E) Z).
Proof. auto with respects. Qed.
Lemma listing_waf o user : respects OAuthProofs.only_waf (Accounts.repo (list_by_user o user)).
Proof. unfold Accounts.repo, list_by_user. auto with respects. Qed.
End quiet.

(** [validate_scopes] and [validate_servers] together are the check the
    middleware repeats on every use of the token. *)
Lemma validated_runtime l is_admin ids :
  validate_scopes (E := E) l is_admin = Ok () → validate_servers (E := E) ids l is_admin = Ok () → Auth.validate_pat_runtime l is_admin ids = Ok ().
Proof.
  unfold validate_scopes, validate_servers, Auth.validate_pat_runtime, bad.
  destruct (Auth.validate_pat_scopes l is_admin) as [[]|x]; [intros _|by case_match].
  destruct (Auth.validate_server_ids ids) as [[]|x]; [|done]. cbn. by destruct (_ && _).
Qed.
Lemma resolved_within (input : option rstr) now t :
  resolve_pat_expires_at (E := E) input now = Ok t → now < t <= now + days MAX_PAT_TTL_DAYS.
Proof.
  unfold resolve_pat_expires_at, bad. destruct (match trim <$> input with Some _ => _ | None => _ end) as [x|x]; [|done]. cbn.
  destruct (x <=? now) eqn:E1; [done|]. destruct (_ <? x) eqn:E2; [done|]. intros [= <-]. lia.
Qed.

Lemma create_run o input hash w r w' :
  Accounts.repo (create o input hash) w = (r, w') →
  (db w' = db w ∧ ∃ x, r = Err x) ∨
  ∃ pat, r = Ok pat ∧ let row := new_row (uuid_to_string (uuid_v7 o (tick w))) input hash (clock o (S (tick w))) in
    insert_pat row (db w) = (Ok (), db w') ∧ Users.p_id pat = pr_id row ∧ Users.p_scopes pat = in_scopes input ∧ Users.p_expires_at pat = in_expires_at input.
Proof.
  unfold Accounts.repo, with_err, create, mbind, M_bind, now_v7, utc_now, sql, bump. cbn.
  destruct (fault o _); [intros [= <- <-]; left; eauto|]. destruct (insert_pat _ _) as [[[]|x] t] eqn:Ei; intros [= <- <-]; [|left; eauto].
  right. eexists. split; [done|]. by split_and!.
Qed.
Lemma insert_Ok row t t' : insert_pat row t = (Ok (), t') →
  pr_token_hash row ∉ (pr_token_hash <$> pats t) ∧ pr_user_id row ∈ (ur_id <$> users t) ∧ t' = set_pats (pats t ++ [row]) t.
Proof.
  unfold insert_pat. destruct (_ || _) eqn:Eo; [done|]. intros [= <-]. apply orb_false_iff in Eo as [[_ Eh]%orb_false_iff Eu].
  split_and!; [by apply bool_decide_eq_false in Eh|by apply negb_false_iff, bool_decide_eq_true in Eu|done].
Qed.

(** What is known of a token when its answer is sent. *)
Definition answered h u headers req resp : Prop := ∃ h0 o s s' n t,
  h = h0 ++ [(o, s)] ∧ issues h0 o u headers req n t (rs_token resp) s s' ∧ rs_id resp = uuid_to_string (uuid_v7 o 0%nat) ∧
  rs_scopes resp = scopes n ∧ rs_expires_at resp = to_rfc3339 t.

Lemma create_traced u headers req :
  traced (fun h o s s' => calm o s s' ∨ ∃ n t token, issues h o u headers req n t token s s') []
    (create_pat hmac_sha1 cell u headers req)
    (fun h r => match r with Ok (Created resp) => answered h u headers req resp | Ok _ => False | Err _ => True end).
Proof.
  unfold create_pat. fold (user_of u) (admin u). cbv zeta. apply try_pure; [done|]. intros [] Hk.
  apply pat_call; [by left|done|intros o; apply OAuthProofs.totp_waf|]. intros o0 s0 [] w0 Ht.
  assert (vouched ([] ++ [(o0, s0)]) u headers) as Hv.
  { split; [unfold require_cookie_session in Hk; by destruct (Auth.is_pat _)|]. apply once_here. eauto. }
  apply try_pure; [done|]. intros n Hn. apply try_pure; [done|]. intros [] Hsc. apply try_pure; [done|]. intros [] Hsv.
  pose proof (validated_runtime _ _ _ Hsc Hsv) as Hr. clear Hk Hsc Hsv Ht.
  apply allowlist_traced; [by left|done|]. intros h1 Hl. apply pat_call; [by left|done|apply draw_waf|]. intros o1 s1 [token hash] w1 Hd.
  assert (token = Auth.PAT_PREFIX ++ Auth.hex_encode (random o1 0%nat) ∧ hash = Auth.hash_token token) as [Htok ->].
  { unfold generate_pat, mbind, M_bind, random_bytes in Hd. cbn in Hd. by injection Hd as <- <- _. }
  apply pat_call; [by left|done|apply clock_waf|]. intros o2 s2 now w2 Hnow. injection Hnow as <- _.
  apply try_pure; [done|]. intros t Hexp%resolved_within.
  set (h := ((([] ++ [(o0, s0)]) ++ h1) ++ [(o1, s1)]) ++ [(o2, s2)]).
  assert (∀ o s t', insert_pat (row_of o u n t token) (tables s) = (Ok (), t') → issues h o u headers req n t token s (set_tables t' s)) as Hissue.
  { intros o s t' (Hf & Hu & ->)%insert_Ok. destruct Hv as [Hp Hv]. split_and!.
    - split; [done|]. by do 3 apply once_app.
    - done.
    - done.
    - eapply Forall_impl; [exact Hl|]. intros i Hi. by do 2 apply once_app.
    - by apply once_here.
    - by apply once_app, once_here.
    - exact Hf.
    - exact Hu.
    - done. }
  apply pat_step; [done|..].
  - intros o s r w [[Hdb _]|(pat & _ & Hi & _)]%create_run.
    + left. cbn in Hdb. rewrite Hdb. by repeat split.
    + right. exists n, t, token. by apply Hissue.
  - intros o s pat w [[_ [x [=]]]|(pat' & [= <-] & Hi & Hid & Hsc & Hex)]%create_run. cbn.
    exists h, o, s, (set_tables (db w) s), n, t. split; [done|]. split; [by apply Hissue|]. rewrite Hex. by split_and!.
Qed.

Lemma revoke_run o id user w r w' :
  Accounts.repo (Users.revoke o id user) w = (r, w') →
  db w' = db w ∨ ∃ at_, db w' = set_pats ((fun x => if bool_decide (pr_id x = id) && bool_decide (pr_user_id x = uuid_to_string user)
                                                     && bool_decide (pr_revoked_at x = None) then Users.set_revoked at_ x else x) <$> pats (db w)) (db w).
Proof.
  unfold Accounts.repo, with_err, Users.revoke, Users.update_pats, mbind, M_bind, utc_now, sql, bump. cbn.
  destruct (fault o _); intros [= <- <-]; [by left|right]. by eexists.
Qed.
Lemma revoke_traced u headers id :
  traced (fun h o s s' => calm o s s' ∨ withdraws h u headers id s s') [] (revoke_pat hmac_sha1 cell u headers id) (fun _ _ => True).
Proof.
  unfold revoke_pat. fold (user_of u). apply try_pure; [done|]. intros [] Hk.
  apply pat_call; [by left|done|intros o; apply OAuthProofs.totp_waf|]. intros o0 s0 [] w0 Ht.
  assert (vouched ([] ++ [(o0, s0)]) u headers) as Hv.
  { split; [unfold require_cookie_session in Hk; by destruct (Auth.is_pat _)|]. apply once_here. eauto. }
  apply try_pure; [done|]. intros id' Hid. assert (id' = id) as ->.
  { unfold normalize_pat_resource_uuid, bad in Hid. repeat (case_match; try done). congruence. }
  apply pat_step; [done|..].
  - intros o s r w [Hdb|[at_ Hdb]]%revoke_run; cbn in Hdb; rewrite Hdb; [left; by repeat split|right]. split; [done|]. by exists at_.
  - intros o s b w _. by destruct (negb b).
Qed.
Lemma list_pats_calm u : always calm (list_pats u : PO Response).
Proof. apply always_try; [by destruct (require_cookie_session u)|]. intros []. apply always_try; [apply pat_call_calm; intros o; apply listing_waf|done]. Qed.

(** What a handler was called with. *)
Inductive Request : Type :=
| Create (u : Accounts.AuthUser) (headers : rstr → option (list Z)) (req : CreatePATRequest)
| List (u : Accounts.AuthUser)
| Revoke (u : Accounts.AuthUser) (headers : rstr → option (list Z)) (id : rstr).
Inductive called : Request → Proc (Oracle E) State (result (Accounts.AppError E) Response) → Prop :=
| c_create u headers req : called (Create u headers req) (create_pat hmac_sha1 cell u headers req)
| c_list u : called (List u) (list_pats u)
| c_revoke u headers id : called (Revoke u headers id) (revoke_pat hmac_sha1 cell u headers id).

(** C15: who may issue and withdraw API tokens, and which. The table of tokens
    changes in two ways only, each by what the handler was called with itself: its
    caller came with a session cookie and passed the check of his second factor
    (it passes where he enabled none). Creating adds one row: a token of the
    caller with the name, scopes and servers of his request, freshly drawn and
    stored as its hash, which expires within a year; its scopes and servers pass,
    for the caller's role, the check that the middleware repeats at every use
    (for a member, stricter than docs/api.md: a permission for servers takes a
    list of servers); and every server of its list existed, was not revoked and was the
    caller's own, unless he is an administrator. Revoking marks the caller's row
    with the given id, and touches no other. Users, sessions and Agents never
    change. *)
Theorem pat_issue_sound call m h o s s' :
  called call m → makes m h o s s' →
  (agents s' = agents s ∧ users (tables s') = users (tables s) ∧ sessions (tables s') = sessions (tables s)) ∧
  (pats (tables s') = pats (tables s) ∨
   match call with
   | Create u headers req => ∃ n t token, issues h o u headers req n t token s s'
   | List _ => False
   | Revoke u headers id => withdraws h u headers id s s'
   end).
Proof.
  intros Hm Hs. assert (∀ o s s', calm o s s' → agents s' = agents s ∧ users (tables s') = users (tables s) ∧
    sessions (tables s') = sessions (tables s) ∧ pats (tables s') = pats (tables s)) as Hcalm by (intros ??? (? & ? & ? & ?); done).
  destruct Hm as [u headers req|u|u headers id].
  - eapply traced_makes in Hs; [|apply create_traced]. destruct Hs as [(?&?&?&?)%Hcalm|(n & t & token & Hi)]; [by split; [|left]|].
    split; [|right; eauto 10]. by destruct Hi as (_ & _ & _ & _ & _ & _ & _ & _ & ->).
  - eapply always_makes in Hs; [|apply list_pats_calm]. apply Hcalm in Hs as (?&?&?&?). by split; [|left].
  - eapply traced_makes in Hs; [|apply revoke_traced]. destruct Hs as [(?&?&?&?)%Hcalm|Hw]; [by split; [|left]|].
    split; [|by right]. by destruct Hw as [_ [at_ ->]].
Qed.
End handlers.
End PatsProofs.
