(* ===== verification/PatsLife.v ===== *)
(** * PatsLife: the life of an API token

    From the answer that shows a token once, through every use of it, to its end:
    what the session middleware, reading the tables that [Pats] wrote, makes of a
    request that carries the token. *)

From S2P Require Import Prelude Text Externals Rfc3339 Auth AuthProofs Totp Tables Sessions Users Secrets Accounts AccountsProofs AdminProofs Interleave Fleet Pats PatsProofs.

Module PatsLife.
Import Tables Interleave Pats PatsProofs.
#[local] Arguments uuid_to_string : simpl never. #[local] Arguments strings_to_json : simpl never. #[local] Arguments json_strings : simpl never.
#[local] Arguments to_rfc3339 : simpl never. #[local] Arguments parse_from_rfc3339 : simpl never.

(** Characters JSON prints as they are. *)
Definition plain (c : Z) : bool := (32 <=? c) && (c <? 127) && negb (c =? 34) && negb (c =? 92).

Lemma known_plain k : k ∈ Auth.KNOWN_SCOPES → forallb plain k = true.
Proof. revert k. apply forallb_In. by vm_compute. Qed.
Lemma exists_plain scope : AuthProofs.exists_scope scope → forallb plain scope = true.
Proof.
  intros [Hk|(ns & -> & k & Hk & (a & -> & _)%AuthProofs.namespace_is_spec)]; [by apply known_plain|].
  apply known_plain in Hk. unfold AuthProofs.scope_of in *. rewrite forallb_app in *. cbn in *. by destruct (forallb plain ns).
Qed.

Section life.
Context {E : Type} `{UuidLib, Rfc3339, Users.Argon2, Secrets.SecretLib, Auth.Crypto, PatLib}.
Context (hmac_sha1 : list Z → list Z → list Z) (cell : option Secrets.SecretCrypto).
Implicit Types (o : Oracle E) (s : State) (u : Accounts.AuthUser) (headers : rstr → option (list Z)) (n : NormalizedPATRequest).

(** The libraries: JSON reads back a list it printed, and prints each plain text
    with two quotes and at most a comma; a byte is two hexadecimal digits. *)
Hypothesis json_roundtrip : ∀ l, json_strings (strings_to_json l) = Some l.
Hypothesis json_length : ∀ l, Forall (fun x => forallb plain x = true) l →
  byte_len (strings_to_json l) <= 2 + foldr (fun x k => byte_len x + 3 + k) 0 l.
Hypothesis hex_chars : ∀ v, Forall (fun c => 48 <= c <= 57 ∨ 97 <= c <= 102) (Auth.hex_encode v).
Hypothesis hex_length : ∀ v, length (Auth.hex_encode v) = (2 * length v)%nat.

(** ** The stored row *)

Lemma texts_length (l : list rstr) b : Forall (fun x => byte_len x <= b) l → foldr (fun x k => byte_len x + 3 + k) 0 l <= (b + 3) * zlen l.
Proof. unfold zlen. induction 1; cbn [foldr length]; nia. Qed.
Lemma stored_scopes is_admin l ids : Auth.validate_pat_runtime l is_admin ids = Ok () →
  Users.parse_string_array_json json_strings (strings_to_json l) Users.PAT_RUNTIME_SCOPES_JSON_MAX_BYTES = Some l.
Proof.
  intros (_ & Hn & Hl & _)%AuthProofs.validate_pat_runtime_exact. unfold Users.parse_string_array_json, Users.PAT_RUNTIME_SCOPES_JSON_MAX_BYTES.
  apply Forall_and in Hl as [Hb Ha]. pose proof (texts_length l 128 Hb).
  assert (Forall (fun x => forallb plain x = true) l) as Hp by (eapply Forall_impl; [exact Ha|]; intros x [Hs _]; by apply exists_plain).
  apply json_length in Hp. rewrite (proj2 (Z.ltb_ge _ _)) by lia. apply json_roundtrip.
Qed.
Lemma stored_servers is_admin l ids : Auth.validate_pat_runtime l is_admin ids = Ok () →
  Users.optional (fun x => Users.parse_string_array_json json_strings x Users.PAT_RUNTIME_SERVER_IDS_JSON_MAX_BYTES) (strings_to_json <$> ids) = Some ids.
Proof.
  intros (_ & _ & _ & Hl & _)%AuthProofs.validate_pat_runtime_exact. destruct ids as [ids|]; [|done]. destruct (Hl ids eq_refl) as [Hn Hc]. cbn.
  unfold Users.parse_string_array_json, Users.PAT_RUNTIME_SERVER_IDS_JSON_MAX_BYTES.
  pose proof (texts_length ids 36) as Hb. assert (Forall (fun x => forallb plain x = true) ids) as Hp%json_length.
  { eapply Forall_impl; [exact Hc|]. intros x (k & _ & ->). apply forallb_forall. intros c Hin%list_elem_of_In%uuid_text_hex. unfold plain. lia. }
  rewrite (proj2 (Z.ltb_ge _ _)); [by rewrite json_roundtrip|].
  enough (foldr (fun x k => byte_len x + 3 + k) 0 ids <= 39 * zlen ids) by lia. apply Hb.
  eapply Forall_impl; [exact Hc|]. intros x (k & _ & ->). by rewrite uuid_text_len.
Qed.

(** The row, as it was written or after uses of the token. *)
Definition touched (row r : PatRow) : Prop := r = row ∨ ∃ at_ ip, era at_ ∧ r = Users.set_used (to_rfc3339 at_) ip row.
Lemma row_decodes o u n t token r :
  uuid_ok (user_of u) → Auth.validate_pat_runtime (scopes n) (admin u) (server_ids n) = Ok () → era t → era (clock o 1%nat) →
  touched (row_of o u n t token) r →
  ∃ pat, Users.row_to_pat_sqlite json_strings r = Some pat ∧ Users.p_id pat = uuid_to_string (uuid_v7 o 0%nat) ∧ Users.p_user_id pat = user_of u ∧
    Users.p_scopes pat = scopes n ∧ Users.p_server_ids pat = server_ids n ∧ Users.p_expires_at pat = Some t.
Proof.
  intros Hu Hr Ht Hc Htouch. unfold Users.row_to_pat_sqlite.
  assert (is_ok (Auth.validate_pat_policy_resource_limits (scopes n) (server_ids n)) = true) as Hlimits.
  { unfold Auth.validate_pat_policy_resource_limits. unfold Auth.validate_pat_runtime, Auth.validate_pat_scopes in Hr.
    apply bind_Ok in Hr as ([] & ([] & -> & _)%bind_Ok & ([] & Hs & _)%bind_Ok). cbn. by rewrite Hs. }
  assert (∃ used, Users.optional parse_from_rfc3339 (pr_last_used_at r) = Some used) as [used Hused].
  { destruct Htouch as [->|(at_ & ip & Ha & ->)]; cbn; [by eexists|]. rewrite rfc3339_roundtrip by done. by eexists. }
  assert (pr_user_id r = uuid_to_string (user_of u) ∧ pr_scopes r = strings_to_json (scopes n) ∧ pr_server_ids r = strings_to_json <$> server_ids n ∧
    pr_expires_at r = Some (to_rfc3339 t) ∧ pr_created_at r = to_rfc3339 (clock o 1%nat) ∧ pr_revoked_at r = None ∧ pr_id r = uuid_to_string (uuid_v7 o 0%nat))
    as (E1 & E2 & E3 & E4 & E5 & E6 & E7) by (destruct Htouch as [->|(at_ & ip & _ & ->)]; done).
  rewrite E1, E2, E3, E4, E5, E6, Hused, uuid_roundtrip by done. cbn [mbind option_bind].
  rewrite (stored_scopes _ _ _ Hr). cbn [mbind option_bind]. rewrite (stored_servers _ _ _ Hr). cbn [mbind option_bind]. rewrite Hlimits.
  cbn. rewrite !rfc3339_roundtrip by done. cbn. eexists. split; [done|]. by split_and!.
Qed.

(** ** What the middleware reads *)

Definition quiet o : Prop := ∀ k, fault o k = None.
Definition view o s : Auth.AuthDb (Accounts.AppError E) :=
  AdminProofs.auth_view o json_strings
    (fun user is_admin ids => (run_to_end (fun _ => o) (fun _ => id) (validate_server_allowlist_ownership (E := E) user is_admin ids) s).1)
    {| db := tables s; tick := 0%nat |}.
Definition unbanned o s ip : Prop := AccountsProofs.not_banned ip (clock o 0%nat) (tables s).
Definition carries (request : Auth.Request) (token : rstr) : Prop := ∃ value,
  Auth.authorization request = [value] ∧ zlen value <= Auth.AUTHORIZATION_HEADER_MAX_BYTES ∧ Auth.header_to_str value = Some (lit "Bearer " ++ token).
Definition current (hash : rstr) (r : PatRow) : Prop := pr_token_hash r = hash ∧ pr_revoked_at r = None.
#[global] Instance current_dec hash r : Decision (current hash r).
Proof. unfold current. apply _. Defined.
(** The token is in the table and not revoked; its user is there with the role
    the token was issued for, and may still list its servers. *)
Definition in_force u n (row : PatRow) (user : Users.User) s : Prop :=
  (∃ r, head (filter (current (pr_token_hash row)) (pats (tables s))) = Some r ∧ touched row r) ∧
  (∃ r, head (filter (fun r => ur_id r = uuid_to_string (user_of u)) (users (tables s))) = Some r ∧ Users.sqlite_user_from_row r = Some user) ∧
  Users.id user = user_of u ∧ Users.role user = Users.role (Accounts.au_user u) ∧ Forall (may_list u s) (default [] (server_ids n)).
Definition dead (hash : rstr) s : Prop := ∀ r, r ∈ pats (tables s) → ¬ current hash r.

Lemma view_ban o s ip : quiet o → unbanned o s ip → Auth.active_waf_ban (view o s) ip = Ok None.
Proof.
  intros Hq Hb. unfold view, AdminProofs.auth_view. cbn. unfold AdminProofs.answer, Accounts.active_waf_ban, Accounts.repo, with_err, mbind, M_bind, utc_now, select, sql. cbn.
  rewrite Hq. cbn. destruct (head _) as [b|] eqn:Eh; [|done]. apply AccountsProofs.head_filter_Some in Eh as [[Hip Hlt] Hin].
  specialize (Hb b Hin Hip). congruence.
Qed.
Lemma view_pat o s hash : quiet o →
  Auth.find_pat_by_token_hash (view o s) hash = Ok ((fun p => {| Auth.p_id := Users.p_id p; Auth.p_user_id := Users.p_user_id p; Auth.p_scopes := Users.p_scopes p;
    Auth.p_server_ids := Users.p_server_ids p; Auth.p_expires_at := Users.p_expires_at p |}) <$>
    (head (filter (current hash) (pats (tables s))) ≫= Users.row_to_pat_sqlite json_strings)).
Proof.
  intros Hq. unfold view, AdminProofs.auth_view. cbn. unfold AdminProofs.answer, Accounts.repo, with_err, Users.find_pat_by_token_hash, mbind, M_bind, select, sql. cbn.
  by rewrite Hq.
Qed.
Lemma view_user o s u r user : quiet o →
  head (filter (fun r => ur_id r = uuid_to_string (user_of u)) (users (tables s))) = Some r → Users.sqlite_user_from_row r = Some user →
  Auth.find_user_by_id (view o s) (user_of u) = Ok (Some {| Auth.u_id := Users.id user; Auth.u_username := Users.username user; Auth.u_role := Users.role user |}).
Proof.
  intros Hq Hh Hd. unfold view, AdminProofs.auth_view. cbn. unfold AdminProofs.answer, Accounts.repo, with_err, Users.find_by_id, mbind, M_bind, select, sql. cbn.
  rewrite Hq. cbn. rewrite Hh. cbn. by rewrite Hd.
Qed.
Lemma view_allowlist o s u ids : quiet o → Forall (may_list u s) (default [] ids) →
  Auth.validate_server_allowlist_ownership (view o s) (user_of u) (admin u) ids = Ok ().
Proof.
  intros Hq Hf. unfold view, AdminProofs.auth_view. cbn. destruct ids as [ids|]; [|done]. cbn in *.
  induction Hf as [|i ids (k & r & a & Hk & Hh & Ha & Hr & Ho) _ IH]; [done|]. cbn. rewrite Hk. cbn. rewrite Hq. cbn. rewrite Hh. cbn.
  rewrite Ha. cbn. rewrite Hr, bool_decide_eq_false_2 by (by intros [? [=]]).
  replace (negb (admin u) && negb (Fleet.owner_user_id a =? user_of u)) with false; [done|].
  destruct Ho as [->| ->]; [done|]. rewrite Z.eqb_refl. by destruct (admin u).
Qed.

Lemma trim_end_keep f a (b : rstr) : Forall (fun c => f c = false) b → b ≠ [] → trim_end_by f (a ++ b) = a ++ b.
Proof.
  intros Hf Hb. unfold trim_end_by. assert (trim_start_by f (reverse (a ++ b)) = reverse (a ++ b)) as ->; [|apply reverse_involutive].
  rewrite reverse_app. apply Forall_reverse in Hf. destruct (reverse b) as [|c l] eqn:Er.
  - apply (f_equal reverse) in Er. by rewrite reverse_involutive in Er.
  - apply Forall_cons in Hf as [Hc _]. by apply trim_start_by_id.
Qed.
Lemma bearer request token : carries request token → (∃ v, length v = 32%nat ∧ token = Auth.PAT_PREFIX ++ Auth.hex_encode v) →
  Auth.pat_bearer_token_from_headers (Auth.authorization request) = Ok (Some token).
Proof.
  intros (value & -> & Hl & Hv) (v & H32 & ->). unfold Auth.pat_bearer_token_from_headers. rewrite (proj2 (Z.ltb_ge _ _)) by done. rewrite Hv. clear Hv.
  specialize (hex_length v). specialize (hex_chars v). rewrite H32 in hex_length. set (x := Auth.hex_encode v) in *. clearbody x.
  assert (Forall (fun c => is_whitespace c = false) x) as Hw.
  { eapply Forall_impl; [exact hex_chars|]. cbn. intros c Hc. unfold is_whitespace. lia. }
  assert (x ≠ []) as Hx by (by intros ->).
  assert (str_bytes x = x) as Hbytes by (apply Totp.str_bytes_id; eapply Forall_impl; [exact hex_chars|]; cbn; lia).
  assert (byte_len x = 64) as Hlen by (rewrite <- str_bytes_len, Hbytes; unfold zlen; lia).
  assert (∀ p, trim_start_by is_whitespace (p ++ x) = p ++ x → trim (p ++ x) = p ++ x) as Htrim.
  { intros p Hp. unfold trim, trim_by. rewrite Hp. by apply trim_end_keep. }
  assert (∀ p y, Auth.strip_prefix p (p ++ y) = Some y) as Hstrip.
  { intros p y. unfold Auth.strip_prefix, starts_with. rewrite bool_decide_eq_true_2 by apply prefix_app_r, reflexivity. by rewrite drop_app_length. }
  cbn [ok_or mbind result_bind]. rewrite (app_assoc (lit "Bearer ")), Htrim by done. rewrite <- app_assoc, Hstrip, Htrim by done.
  assert (starts_with Auth.PAT_PREFIX (Auth.PAT_PREFIX ++ x) = true) as Hs by (apply bool_decide_eq_true_2; by exists x).
  rewrite Hs. cbn [is_empty app Auth.PAT_PREFIX lit fmap list_fmap]. rewrite !byte_len_app, Hlen.
  replace (Auth.pat_token_is_valid (Auth.PAT_PREFIX ++ x)) with true; [done|]. symmetry. unfold Auth.pat_token_is_valid.
  rewrite Hs, drop_app_length, Hbytes, byte_len_app, Hlen. cbn. apply forallb_forall. intros c Hc%list_elem_of_In.
  rewrite Forall_forall in hex_chars. specialize (hex_chars c Hc). unfold Auth.is_ascii_hexdigit, is_ascii_digit. lia.
Qed.

(** ** The verdict of the middleware *)

Definition grant (i : rstr) (user : Users.User) n : Auth.AuthSession :=
  {| Auth.session_id := i; Auth.user_id := Users.id user; Auth.username := Users.username user; Auth.role := Users.role user; Auth.csrf_token := [];
     Auth.auth_kind := Auth.PersonalAccessToken; Auth.scopes := scopes n; Auth.server_ids := server_ids n; Auth.pat_id := Some i |}.
Definition verdict (i : rstr) (t : Z) (user : Users.User) n (now : Z) (request : Auth.Request) : list Auth.AuthEvent * Auth.Outcome :=
  if t <=? now then ([Auth.RegisterPatFailure (Auth.client_ip request) (Some i) Auth.ExpiredToken], Auth.csrf_gate request None)
  else ([Auth.MarkUsed i (Auth.client_ip request)], Auth.Next (Some (grant i user n))).

Lemma pat_gate request a : Auth.auth_kind a = Auth.PersonalAccessToken → Auth.csrf_gate request (Some a) = Auth.Next (Some a).
Proof. intros Hk. unfold Auth.csrf_gate, Auth.session_request_requires_csrf. destruct (Auth.mutating (Auth.method request)); [|done]. by rewrite Hk. Qed.

Section token.
Context o0 u n (t : Z) (token : rstr) (v : list Z).
Hypothesis shape : length v = 32%nat ∧ token = Auth.PAT_PREFIX ++ Auth.hex_encode v.
Hypothesis runtime : Auth.validate_pat_runtime (scopes n) (admin u) (server_ids n) = Ok ().
Hypothesis sane_expiry : era t.
Hypothesis sane_creation : era (clock o0 1%nat).

Lemma accepted s o now request user :
  in_force u n (row_of o0 u n t token) user s → quiet o → unbanned o s (Auth.client_ip request) → carries request token →
  Auth.session_middleware (view o s) now request = verdict (uuid_to_string (uuid_v7 o0 0%nat)) t user n now request.
Proof.
  intros ((r & Hr & Htouch) & (ur & Hur & Hdec) & Hid & Hrole & Hlist) Hq Hb Hc. unfold Auth.session_middleware.
  rewrite (bearer request token Hc (ex_intro _ v shape)). unfold Auth.authenticate_pat. rewrite (view_ban _ _ _ Hq Hb).
  assert (uuid_ok (user_of u)) as Hu.
  { rewrite <- Hid. unfold Users.sqlite_user_from_row in Hdec. destruct (uuid_parse (ur_id ur)) as [k|] eqn:Ek; [|done]. cbn in Hdec.
    destruct (Auth.role_from_str _), (parse_from_rfc3339 (ur_created_at ur)), (parse_from_rfc3339 (ur_updated_at ur)); cbn in Hdec; simplify_eq/=.
    by eapply uuid_parse_ok. }
  destruct (row_decodes o0 u n t token r Hu runtime sane_expiry sane_creation Htouch) as (pat & Hpat & Hi & Hpu & Hsc & Hse & Hex).
  rewrite (view_pat _ _ _ Hq). cbn in Hr. rewrite Hr. cbn [mbind option_bind]. rewrite Hpat. cbn [fmap option_fmap option_map Auth.p_expires_at Auth.p_user_id Auth.p_id].
  rewrite Hex, Hpu, Hi. unfold verdict. destruct (t <=? now); [done|].
  rewrite (view_user _ _ _ _ _ Hq Hur Hdec). cbn [Auth.u_role Auth.u_id Auth.p_scopes Auth.p_server_ids Auth.u_username].
  rewrite Hsc, Hse, Hrole. fold (admin u). rewrite runtime, Hid, (view_allowlist _ _ _ _ Hq Hlist). rewrite pat_gate by done.
  unfold grant. by rewrite Hid, Hrole.
Qed.
End token.

Lemma refused s o now request token v :
  length v = 32%nat ∧ token = Auth.PAT_PREFIX ++ Auth.hex_encode v →
  dead (Auth.hash_token token) s → quiet o → unbanned o s (Auth.client_ip request) → carries request token →
  Auth.session_middleware (view o s) now request =
    ([Auth.RegisterPatFailure (Auth.client_ip request) None Auth.InvalidToken], Auth.csrf_gate request None).
Proof.
  intros Hv Hd Hq Hb Hc. unfold Auth.session_middleware. rewrite (bearer request token Hc (ex_intro _ v Hv)).
  unfold Auth.authenticate_pat. rewrite (view_ban _ _ _ Hq Hb), (view_pat _ _ _ Hq).
  destruct (head _) as [r|] eqn:Eh; [|done]. apply AccountsProofs.head_filter_Some in Eh as [Hr Hin]. by apply Hd in Hr.
Qed.

(** After [revoke_pat] no row of the user with this id is left unrevoked. *)
Lemma revoked_rows env others u headers i s0 s' :
  run_to_end env others (revoke_pat (E := E) hmac_sha1 cell u headers i) s0 = (Ok Revoked, s') →
  ∀ r, r ∈ pats (tables s') → pr_id r = i → pr_user_id r = uuid_to_string (user_of u) → pr_revoked_at r ≠ None.
Proof.
  unfold revoke_pat. generalize (lit "token_id"). intros field. destruct (require_cookie_session (E := E) u) as [[]|x]; [|done]. cbn.
  destruct (Accounts.require_sensitive_totp _ _ _ _ _ _) as [[[]|x] w]; [|done]. cbn.
  destruct (normalize_pat_resource_uuid i _) as [i'|x] eqn:Ei; [|done]. cbn.
  assert (i' = i) as -> by (unfold normalize_pat_resource_uuid, bad in Ei; repeat (case_match; try done); congruence).
  unfold Accounts.repo, with_err, Users.revoke, Users.update_pats, mbind, M_bind, utc_now, sql. cbn.
  destruct (fault _ _); [done|]. cbn. destruct (negb _); [done|]. cbn. intros [= <-]. cbn. intros r (x & -> & Hx)%list_elem_of_fmap Hi Hu.
  intros Hn. destruct (bool_decide (pr_id x = i) && bool_decide (pr_user_id x = uuid_to_string (Users.id (Accounts.au_user u))) && bool_decide (pr_revoked_at x = None)) eqn:Eb; [done|].
  unfold user_of in Hu. rewrite Hi, Hu, Hn, !bool_decide_eq_true_2 in Eb by done. done.
Qed.

(** ** The whole life *)

Definition sane o : Prop := ∀ k, era (clock o k) ∧ era (clock o k + days MAX_PAT_TTL_DAYS) ∧ length (random o k) = 32%nat.
Lemma sane_within (h : list (Oracle E * State)) t : Forall (fun x => sane x.1) h → within_year h t → era t.
Proof.
  intros Hh (o & s & Hin & Ht). rewrite Forall_forall in Hh. destruct (Hh _ Hin 0%nat) as ([Hlo _] & [_ Hhi] & _). cbn in *. unfold era. lia.
Qed.
Lemma sane_drawn (h : list (Oracle E * State)) token : Forall (fun x => sane x.1) h → drawn h token →
  ∃ v, length v = 32%nat ∧ token = Auth.PAT_PREFIX ++ Auth.hex_encode v.
Proof. intros Hh (o & s & Hin & Ht). rewrite Forall_forall in Hh. destruct (Hh _ Hin 0%nat) as (_ & _ & Hv). eauto. Qed.

(** C16: the life of an API token. When [create_pat] answers, the last thing it
    did was to store the token, which expires within a year. From then on, in
    whatever state, at whatever time: as long as the row is there, its user keeps
    his role and may list its servers, a request with this token passes the session
    middleware as this user with exactly the scopes and servers that were asked
    for until the token expires, and without a session from that moment on; once
    the row is revoked or gone, the token is refused as unknown. And when the
    user revokes the token by its id, the table is left without a row that would
    still let it in. *)
Theorem pat_lifecycle u headers req h resp :
  returns (create_pat hmac_sha1 cell u headers req) h (Ok (Created resp)) → Forall (fun x => sane x.1) h →
  ∃ n t row, normalize_create_pat_request (E := E) req = Ok n ∧ within_year h t ∧ rs_expires_at resp = to_rfc3339 t ∧
    (∃ h0 o s s', h = h0 ++ [(o, s)] ∧ issues hmac_sha1 cell h0 o u headers req n t (rs_token resp) s s' ∧
       head (filter (current (Auth.hash_token (rs_token resp))) (pats (tables s'))) = Some row) ∧
    (∀ s o now request user, in_force u n row user s → quiet o → unbanned o s (Auth.client_ip request) → carries request (rs_token resp) →
       Auth.session_middleware (view o s) now request = verdict (rs_id resp) t user n now request) ∧
    (∀ s o now request, dead (Auth.hash_token (rs_token resp)) s → quiet o → unbanned o s (Auth.client_ip request) → carries request (rs_token resp) →
       Auth.session_middleware (view o s) now request =
         ([Auth.RegisterPatFailure (Auth.client_ip request) None Auth.InvalidToken], Auth.csrf_gate request None)) ∧
    (∀ env others headers' s s', run_to_end env others (revoke_pat (E := E) hmac_sha1 cell u headers' (rs_id resp)) s = (Ok Revoked, s') →
       (∀ r, r ∈ pats (tables s') → pr_token_hash r = Auth.hash_token (rs_token resp) → pr_id r = rs_id resp ∧ pr_user_id r = uuid_to_string (user_of u)) →
       dead (Auth.hash_token (rs_token resp)) s').
Proof.
  intros Hret Hsane. eapply traced_returns in Hret; [|apply create_traced]. cbn in Hret.
  destruct Hret as (h0 & o & s & s' & n & t & -> & Hi & Hid & Hsc & Hex). pose proof Hi as (Hv & Hn & Hr & Hl & Hy & Hd & Hf & Hu & Hs).
  apply (once_app _ [(o, s)]) in Hy, Hd. fold (within_year (h0 ++ [(o, s)]) t) in Hy. fold (drawn (h0 ++ [(o, s)]) (rs_token resp)) in Hd.
  pose proof (sane_within _ _ Hsane Hy) as Ht. destruct (sane_drawn _ _ Hsane Hd) as [v Hshape].
  assert (era (clock o 1%nat)) as Hc by (apply Forall_app in Hsane as [_ [Ho _]%Forall_cons]; apply Ho).
  exists n, t, (row_of o u n t (rs_token resp)). split; [done|]. split; [done|]. split; [done|]. split_and!.
  - exists h0, o, s, s'. split; [done|]. split; [done|]. rewrite Hs. cbn. rewrite filter_app.
    assert (filter (current (Auth.hash_token (rs_token resp))) (pats (tables s)) = []) as ->.
    { apply elem_of_nil_inv. intros r [[Hh _] Hin]%list_elem_of_filter. apply Hf. rewrite <- Hh. by apply list_elem_of_fmap_2. }
    cbn. by rewrite decide_True.
  - intros s1 o1 now request user. rewrite Hid. by apply accepted with (v := v).
  - intros s1 o1 now request. by apply refused with (v := v).
  - intros env others headers' s1 s2 Hrev Hrows r Hin [Hh Hnone]. destruct (Hrows r Hin Hh) as [Hri Hru].
    exact (revoked_rows _ _ _ _ _ _ _ Hrev r Hin Hri Hru Hnone).
Qed.
End life.
End PatsLife.
