(* ===== verification/PatsExamples.v ===== *)
(** * PatsExamples: a concrete API token

    A JSON printer and reader with the properties [PatsLife] relies on, and a
    token that the member "eve" issues for her server, uses and revokes. *)

From S2P Require Import Prelude Text Externals Rfc3339 Auth AuthProofs Tables Users Secrets SecretsProofs Accounts AccountsProofs AccountExamples AdminProofs Interleave Fleet OAuthExamples Pats PatsProofs PatsLife.

Module PatsExamples.
Import Tables Interleave Pats PatsProofs PatsLife.
#[local] Existing Instances SecretsProofs.plain_secrets AuthProofs.crypto0 AccountExamples.argon2_plain.

(** ** Lists of texts in JSON *)

Definition escape (s : rstr) : rstr := s ≫= (fun c => if (c =? 34) || (c =? 92) then [92; c] else [c]).
Definition quoted (s : rstr) : rstr := 34 :: escape s ++ [34].
Definition print_texts (l : list rstr) : rstr := 91 :: join [44] (quoted <$> l) ++ [93].
(** [inside] is the text that is being read, if any. *)
Fixpoint read_texts (s : rstr) (inside : option rstr) (acc : list rstr) : option (list rstr) :=
  match s with
  | [] => None
  | c :: s =>
      match inside with
      | Some t =>
          if c =? 34 then read_texts s None (acc ++ [t]) else
          if c =? 92 then match s with d :: s => read_texts s (Some (t ++ [d])) acc | [] => None end
          else read_texts s (Some (t ++ [c])) acc
      | None =>
          if c =? 34 then read_texts s (Some []) acc else
          if c =? 93 then if is_empty s then Some acc else None
          else read_texts s None acc
      end
  end.

Lemma read_escaped t t0 rest acc : read_texts (escape t ++ 34 :: rest) (Some t0) acc = read_texts rest None (acc ++ [t0 ++ t]).
Proof.
  revert t0. induction t as [|c t IH]; intros t0; [cbn; by rewrite app_nil_r|]. unfold escape in *. rewrite bind_cons.
  rewrite (cons_middle c t0 t), app_assoc, <- IH. destruct (Z.eqb_spec c 34) as [->|H34]; [done|]. destruct (Z.eqb_spec c 92) as [->|H92]; [done|].
  cbn [orb app read_texts]. by rewrite (proj2 (Z.eqb_neq c 34)), (proj2 (Z.eqb_neq c 92)).
Qed.
Lemma read_quoted t rest acc : read_texts (quoted t ++ rest) None acc = read_texts rest None (acc ++ [t]).
Proof. unfold quoted. cbn [app read_texts]. rewrite <- app_assoc. cbn. apply read_escaped. Qed.
Lemma print_read l : read_texts (print_texts l) None [] = Some l.
Proof.
  unfold print_texts. cbn [read_texts]. cbn. change l with ([] ++ l) at 2. generalize (@nil rstr). induction l as [|t l IH]; intros acc; [cbn; by rewrite app_nil_r|].
  rewrite (cons_middle t acc l), app_assoc, <- IH. destruct l as [|t' l]; [cbn [fmap list_fmap join]; by rewrite read_quoted|].
  change (join [44] (quoted <$> t :: t' :: l)) with (quoted t ++ [44] ++ join [44] (quoted <$> t' :: l)).
  rewrite <- !app_assoc, read_quoted. done.
Qed.
Lemma escape_plain t : forallb plain t = true → escape t = t.
Proof.
  unfold escape. induction t as [|c t IH]; [done|]. cbn [forallb]. intros [Hc Ht]%andb_true_iff. rewrite bind_cons, IH by done.
  unfold plain in Hc. by replace ((c =? 34) || (c =? 92)) with false by lia.
Qed.
Lemma print_length l : Forall (fun x => forallb plain x = true) l → byte_len (print_texts l) <= 2 + foldr (fun x k => byte_len x + 3 + k) 0 l.
Proof.
  intros Hl. unfold print_texts. cbn [byte_len]. rewrite byte_len_app. enough (byte_len (join [44] (quoted <$> l)) <= foldr (fun x k => byte_len x + 3 + k) 0 l) by (cbn; lia).
  induction Hl as [|t l Ht Hl IH]; [done|]. cbn [foldr]. assert (byte_len (quoted t) = byte_len t + 2) as Hq
    by (unfold quoted; cbn [byte_len]; rewrite byte_len_app, escape_plain by done; cbn; lia).
  destruct l as [|t' l]; [cbn [fmap list_fmap join foldr]; lia|].
  change (join [44] (quoted <$> t :: t' :: l)) with (quoted t ++ [44] ++ join [44] (quoted <$> t' :: l)). rewrite !byte_len_app. cbn [byte_len]. change (len_utf8 44) with 1. lia.
Qed.
#[local] Instance texts0 : PatLib :=
  {| strings_to_json := print_texts; json_strings s := read_texts s None []; uuid_error _ := []; rfc3339_error _ := [] |}.
Lemma json_roundtrip0 l : json_strings (strings_to_json l) = Some l.
Proof. exact (print_read l). Qed.
Lemma json_length0 l : Forall (fun x => forallb plain x = true) l → byte_len (strings_to_json l) <= 2 + foldr (fun x k => byte_len x + 3 + k) 0 l.
Proof. exact (print_length l). Qed.
Lemma hex_length_nat v : length (Auth.hex_encode v) = (2 * length v)%nat.
Proof. pose proof (OAuthExamples.hex_length0 v) as H. unfold zlen in H. lia. Qed.

(** An administrator who asks for a scope that does not exist is told that he may not have it. *)
Example unknown_admin_scope :
  validate_scopes (E := unit) [lit "admin:read"] true = Err (Accounts.Forbidden (lit "unknown scope: admin:read")) ∧
  validate_scopes (E := unit) [lit "server:reed"] true = Err (Accounts.BadRequest (lit "unknown scope: server:reed")).
Proof. split; vm_compute; reflexivity. Qed.

(** ** The token *)

Definition now0 : Z := AccountExamples.now0.
Definition oracle0 : Oracle unit := {| clock k := now0; uuid_v7 k := 1000; random k := repeat 0 32; fault _ := None |}.
Definition agent_row : Fleet.AgentRow :=
  {| Fleet.ag_id := uuid_to_string 50; Fleet.ag_name := lit "web"; Fleet.ag_public_key := []; Fleet.ag_owner_user_id := uuid_to_string 3;
     Fleet.ag_last_seen_at := None; Fleet.ag_revoked_at := None; Fleet.ag_created_at := to_rfc3339 now0; Fleet.ag_updated_at := to_rfc3339 now0;
     Fleet.ag_remark := None; Fleet.ag_expires_at := None; Fleet.ag_renewal_price := None; Fleet.ag_dashboard_metadata_json := None;
     Fleet.ag_last_state_json := None; Fleet.ag_last_state_at := None; Fleet.ag_last_info_json := None; Fleet.ag_last_info_at := None |}.
Definition state0 : State := {| tables := AccountExamples.tables0; agents := [agent_row] |}.
Definition eve_user : Users.User :=
  {| Users.id := 3; Users.username := lit "eve"; Users.password_hash := lit "swordfish"; Users.role := Auth.Member; Users.token_version := 0;
     Users.created_at := now0; Users.updated_at := now0 |}.
Definition eve : Accounts.AuthUser := {| Accounts.au_user := eve_user; Accounts.au_session_id := uuid_to_string 31; Accounts.au_kind := Auth.Session |}.
Definition wanted : CreatePATRequest :=
  {| rq_name := lit "ci"; rq_scopes := [lit " server:read "; lit "task:read"; lit "server:read"]; rq_server_ids := Some [uuid_to_string 50]; rq_expires_at := None |}.
Definition issue : P (Oracle unit) State (Accounts.AppError unit) Response := create_pat AccountExamples.hmac0 None eve OAuthExamples.no_headers wanted.
Definition envs : list (Oracle unit) := replicate 10 oracle0.
Definition last_step : Oracle unit * State * State := default (oracle0, state0, state0) (solo envs issue state0 !! 4%nat).
Definition stored : State := last_step.2.
Definition answer0 : CreatePATResponse := match outcome envs issue state0 with
  | Some (Ok (Created r)) => r | _ => {| rs_id := []; rs_name := []; rs_token := []; rs_scopes := []; rs_expires_at := []; rs_created_at := [] |} end.

Lemma issued0 : solo envs issue state0 !! 4%nat = Some (oracle0, last_step.1.2, stored).
Proof. vm_compute. reflexivity. Qed.
Lemma pat_issue_sound_witness :
  length (pats (tables stored)) = 1%nat ∧ pats (tables last_step.1.2) = [] ∧
  ∃ n t token, issues AccountExamples.hmac0 None (fst <$> take 4 (solo envs issue state0)) oracle0 eve OAuthExamples.no_headers wanted n t token last_step.1.2 stored.
Proof.
  split; [by vm_compute|]. split; [by vm_compute|].
  destruct (pat_issue_sound AccountExamples.hmac0 None _ issue _ _ _ _ (c_create _ _ _ _ _) (solo_makes _ _ _ _ _ _ _ issued0)) as [_ [Hsame|Hi]].
  - exfalso. revert Hsame. by vm_compute.
  - exact Hi.
Defined.

(** ** Its use *)

Definition request1 : Auth.Request := {|
  Auth.method := lit "DELETE"; Auth.authorization := [lit "Bearer " ++ rs_token answer0]; Auth.csrf_header_values := []; Auth.session_cookie := None;
  Auth.client_ip := lit "192.0.2.1" |}.
Lemma sane0 : sane oracle0.
Proof. intros k. cbn [clock random oracle0]. split_and!; [unfold era, now0, AccountExamples.now0, days, MAX_PAT_TTL_DAYS, seconds; lia..|by vm_compute]. Qed.
Lemma outcome0 : outcome envs issue state0 = Some (Ok (Created answer0)).
Proof. vm_compute. reflexivity. Qed.
Definition norm0 : NormalizedPATRequest :=
  {| name := lit "ci"; scopes := [lit "server:read"; lit "task:read"]; server_ids := Some [uuid_to_string 50]; expires_at := None |}.
Lemma normalized0 : normalize_create_pat_request (E := unit) wanted = Ok norm0.
Proof. vm_compute. reflexivity. Qed.
Definition row0 : PatRow := row_of oracle0 eve norm0 (now0 + days 90) (rs_token answer0).
Lemma stored0 : pats (tables stored) = [row0].
Proof. vm_compute. reflexivity. Qed.
Lemma in_force0 : in_force eve norm0 row0 eve_user stored.
Proof.
  refine (conj (ex_intro _ row0 (conj _ (or_introl eq_refl))) (conj (ex_intro _ _ (conj _ _)) (conj eq_refl (conj eq_refl _)))).
  - rewrite stored0. cbn [filter list_filter]. rewrite decide_True by (split; reflexivity). reflexivity.
  - vm_compute. reflexivity.
  - vm_compute. reflexivity.
  - apply Forall_singleton. refine (ex_intro _ 50 (ex_intro _ agent_row (ex_intro _ _ (conj _ (conj _ (conj _ (conj _ _))))))).
    + vm_compute. reflexivity.
    + vm_compute. reflexivity.
    + vm_compute. reflexivity.
    + vm_compute. reflexivity.
    + right. vm_compute. reflexivity.
Qed.

Lemma some_pair {A B} (a c : A) (b d : B) : Some (a, b) = Some (c, d) → a = c ∧ b = d.
Proof. by intros [= -> ->]. Qed.
Lemma history_end : last (fst <$> solo envs issue state0) = Some (oracle0, last_step.1.2).
Proof. vm_compute. reflexivity. Qed.
Lemma before0 : pats (tables last_step.1.2) = [].
Proof. vm_compute. reflexivity. Qed.
Lemma quiet0 : quiet oracle0.
Proof. by intros k. Qed.
Lemma bans0 : waf_bans (tables stored) = [].
Proof. vm_compute. reflexivity. Qed.
Lemma unbanned0 : unbanned oracle0 stored (Auth.client_ip request1).
Proof. unfold unbanned, AccountsProofs.not_banned. rewrite bans0. intros b Hb. destruct (not_elem_of_nil b Hb). Qed.
Lemma carries0 : carries request1 (rs_token answer0).
Proof. exists (lit "Bearer " ++ rs_token answer0). split; [reflexivity|]. split; [by vm_compute|]. vm_compute. reflexivity. Qed.

Lemma pat_lifecycle_witness :
  ∃ n t, scopes n = [lit "server:read"; lit "task:read"] ∧ now0 < t ∧
    Auth.session_middleware (view oracle0 stored) now0 request1 =
      ([Auth.MarkUsed (rs_id answer0) (lit "192.0.2.1")], Auth.Next (Some (grant (rs_id answer0) eve_user n))) ∧
    Auth.session_middleware (view oracle0 stored) t request1 =
      ([Auth.RegisterPatFailure (lit "192.0.2.1") (Some (rs_id answer0)) Auth.ExpiredToken], Auth.Respond Auth.UNAUTHORIZED).
Proof.
  destruct (pat_lifecycle AccountExamples.hmac0 None json_roundtrip0 json_length0 OAuthExamples.hex_chars0 hex_length_nat eve OAuthExamples.no_headers wanted
    (fst <$> solo envs issue state0) answer0) as (n & t & row & Hn & Ht & Hexp & (h0 & o & s & s' & Hh & Hi & Hrow) & Huse & _).
  - apply outcome_returns, outcome0.
  - apply Forall_fmap, Forall_forall. intros [[o s] s'] Hin%solo_env. apply elem_of_replicate in Hin as [-> _]. apply sane0.
  - assert (t = now0 + days 90) as ->.
    { assert (to_rfc3339 t = to_rfc3339 (now0 + days 90)) as Heq by (rewrite <- Hexp; by vm_compute).
      apply (f_equal parse_from_rfc3339) in Heq. destruct Ht as (o1 & s1 & Hin & Ht). apply list_elem_of_fmap in Hin as ([[o2 s2] s3] & [= -> ->] & Hin%solo_env).
      apply elem_of_replicate in Hin as [-> _]. cbn in Ht.
      rewrite !rfc3339_roundtrip in Heq by (revert Ht; unfold era, now0, AccountExamples.now0, days, MAX_PAT_TTL_DAYS, seconds; lia). by injection Heq. }
    assert (norm0 = n) as <- by (rewrite normalized0 in Hn; by injection Hn).
    assert (row0 = row) as <-.
    { apply (f_equal last) in Hh. rewrite last_snoc, history_end in Hh. apply some_pair in Hh as [<- <-].
      destruct Hi as (_ & _ & _ & _ & _ & _ & _ & _ & ->). revert Hrow. cbn [tables set_tables set_pats pats]. rewrite before0. cbn [app filter list_filter].
      rewrite decide_True by (split; reflexivity). cbn [head]. unfold row0. intros Hr. exact (inj Some _ _ Hr). }
    exists norm0, (now0 + days 90). pose proof (fun now => Huse stored oracle0 now request1 eve_user in_force0 quiet0 unbanned0 carries0) as Hv.
    split; [reflexivity|]. split; [unfold days, seconds; lia|]. rewrite !Hv. unfold verdict.
    rewrite (proj2 (Z.leb_gt _ _)) by (unfold days, seconds; lia). rewrite Z.leb_refl. split; reflexivity.
Defined.
End PatsExamples.
