(* ===== verification/Monitor.v ===== *)
(** * Monitor: the service monitor

    [crates/server/src/services/monitor.rs], on SQLite. Every ten seconds a tick
    loads the enabled services, drops what it remembers of the others, and probes
    those that are due: from the server itself, or from the Agents a service
    covers, side by side. A result is stored, and the tasks of the service are
    started when it is the first failure or differs from the result before.

    The environment of a step supplies what the monitor asks of the outside: the
    clock, fresh identifiers, whether a statement fails and with which text, the
    answers of the registries of sessions and replies (which [Registry] and
    [IoStreams] model), the outcome of a probe over the network
    ([services/probe.rs]), and whose turn it is among concurrent probes. *)

From S2P Require Import Prelude Text BTreeMap Externals Rfc3339 Security IoStreams AgentSession Interleave Fleet.

Module Monitor.
Import Interleave.

Definition SERVICE_AGENT_PROBE_STDOUT_MAX_BYTES : Z := 16 * 1024.
Definition SERVICE_AGENT_PROBE_ERROR_MAX_BYTES : Z := 4096.
Definition SERVICE_UUID_TEXT_LEN : Z := 36.
Definition SERVICE_MAX_NAME_BYTES : Z := 128.
Definition SERVICE_MAX_TARGET_BYTES : Z := 2048.
Definition SERVICE_MIN_INTERVAL_SECONDS : Z := 10.
Definition SERVICE_MAX_INTERVAL_SECONDS : Z := 86400.
Definition SERVICE_MIN_TIMEOUT_SECONDS : Z := 1.
Definition SERVICE_MAX_TIMEOUT_SECONDS : Z := 30.
Definition SERVICE_MAX_SERVER_IDS : Z := 64.
Definition SERVICE_MAX_TASK_IDS : Z := 32.
Definition SERVICE_MAX_TARGETS_PER_PROBE : Z := 64.

(** ** Data *)

Inductive ProbeType : Type := Http | Tcp | Icmp.
(** No character but their own capitals has one of these letters as its lower case. *)
Definition probe_type_from_str (s : rstr) : option ProbeType :=
  let s := to_ascii_lowercase s in
  if bool_decide (s = lit "http") then Some Http
  else if bool_decide (s = lit "tcp") then Some Tcp
  else if bool_decide (s = lit "icmp") then Some Icmp
  else None.

(** [id], [service_id] and [checked_at] are read by nobody. *)
Record ServiceProbe := {
  success : bool; latency_ms : option Z; status_code : option Z; error : option rstr; cert_fingerprint : option rstr; cert_not_after : option Z;
}.
Record AgentProbeOutput := {
  out_success : bool; out_latency_ms : option Z; out_status_code : option Z; out_error : option rstr; out_cert_fingerprint : option rstr;
  out_cert_not_after : option rstr;
}.
Record ServiceConfig := {
  id : rstr; owner_user_id : option rstr; name : rstr; kind : rstr; target : rstr; interval_seconds : Z; timeout_seconds : Z; enabled : bool;
  cover_mode : rstr; server_ids : list rstr; exclude_server_ids : list rstr; notification_group_id : option rstr;
  failure_task_ids : list rstr; recovery_task_ids : list rstr;
}.

(** The columns of [services] that the monitor reads. *)
Record ServiceRow := {
  sr_id : rstr; sr_owner_user_id : option rstr; sr_name : rstr; sr_type : rstr; sr_target : rstr; sr_interval_seconds : Z; sr_timeout_seconds : Z;
  sr_enabled : Z; sr_server_id : option rstr; sr_notification_group_id : option rstr; sr_cover_mode : option rstr;
  sr_exclude_server_ids_json : option rstr; sr_failure_task_ids_json : option rstr; sr_recovery_task_ids_json : option rstr;
}.
Record ServiceServerRow := { ss_service_id : rstr; ss_server_id : rstr; ss_created_at : rstr }.
Record ResultRow := {
  re_id : rstr; re_service_id : rstr; re_server_id : option rstr; re_status : rstr; re_delay_ms : option Z; re_status_code : option Z;
  re_error : option rstr; re_cert_fingerprint : option rstr; re_cert_not_after : option rstr; re_created_at : rstr;
}.
Record HistoryRow := {
  hi_id : rstr; hi_service_id : rstr; hi_success : Z; hi_latency_ms : option Z; hi_status_code : option Z; hi_error : option rstr; hi_checked_at : rstr;
}.
Record LoadedServiceRow := {
  lo_id : rstr; lo_owner_user_id : option rstr; lo_name : rstr; lo_kind : rstr; lo_target : rstr; lo_interval_seconds : Z; lo_timeout_seconds : Z;
  lo_enabled : bool; lo_server_id : option rstr; lo_notification_group_id : option rstr; lo_cover_mode : rstr;
  lo_exclude_server_ids_json : option rstr; lo_failure_task_ids_json : option rstr; lo_recovery_task_ids_json : option rstr;
}.
(** A call of [spawn_triggered_tasks]. *)
Record Trigger := { tr_task_ids : list rstr; tr_source : rstr; tr_server_id : option rstr; tr_owner : rstr }.

(** [serde_json] on a list of strings and on the output of a probe, [Url::parse],
    and the text of a violated constraint. *)
Class MonitorLib : Type := {
  json_strings : rstr → option (list rstr);
  probe_output : rstr → option AgentProbeOutput;
  url_parse : rstr → option Security.Url;
  constraint_text : rstr;
}.

(** ** Checks on a loaded service *)

Section checks.
Context `{UuidLib, MonitorLib}.
Abbreviation R := (result rstr).

Definition bounded_interval_seconds (seconds : Z) : Z := Z.max SERVICE_MIN_INTERVAL_SECONDS (Z.min seconds SERVICE_MAX_INTERVAL_SECONDS).
Definition bounded_timeout_seconds (seconds : Z) : Z := Z.max SERVICE_MIN_TIMEOUT_SECONDS (Z.min seconds SERVICE_MAX_TIMEOUT_SECONDS).

Definition ensure_probe_target_count (count : Z) : R unit :=
  if SERVICE_MAX_TARGETS_PER_PROBE <? count
  then Err (lit "service probe resolves to " ++ print_i64 count ++ lit " target servers; maximum is " ++ print_i64 SERVICE_MAX_TARGETS_PER_PROBE)
  else Ok ().

Definition unsafe_host_char (c : Z) : bool := is_control c || is_whitespace c || contains c (lit "/\?#@;|&$`'" ++ [34]).
Definition ensure_safe_probe_host (host purpose : rstr) : R unit :=
  let trimmed := trim host in
  if is_empty trimmed then Err (purpose ++ lit " host is required") else
  if starts_with (lit "-") trimmed then Err (purpose ++ lit " host must not start with '-'") else
  if existsb unsafe_host_char trimmed then Err (purpose ++ lit " host contains invalid characters") else Ok ().

Definition parse_tcp_target (target : rstr) : R (rstr * Z) :=
  '(host, port) ← ok_or (rsplit_once 58 target) (lit "tcp target must be host:port");
  ensure_safe_probe_host host (lit "tcp");;
  port ← ok_or (parse_unsigned u16_max port) (lit "invalid port");
  if port =? 0 then Err (lit "tcp port must be greater than zero") else Ok (host, port).

Definition validate_http_target (target : rstr) : R unit :=
  parsed ← ok_or (url_parse target) (lit "HTTP monitor URL is invalid");
  if negb (contains (Security.scheme parsed) [lit "http"; lit "https"])
  then Err (lit "HTTP monitor URL scheme '" ++ Security.scheme parsed ++ lit "' is not allowed") else
  if negb (is_empty (Security.username parsed)) || bool_decide (is_Some (Security.password parsed))
  then Err (lit "HTTP monitor URL must not include credentials") else
  ok_or (Security.host_str parsed) (lit "HTTP monitor URL must include a host");;
  ok_or (Security.port_or_known_default parsed) (lit "HTTP monitor URL must include a port or known scheme");;
  Ok ().
Definition validate_probe_target_shape (probe_type : ProbeType) (target : rstr) : R unit :=
  match probe_type with
  | Http => validate_http_target target
  | Tcp => parse_tcp_target target;; Ok ()
  | Icmp => ensure_safe_probe_host target (lit "ICMP monitor")
  end.

Definition checked_runtime_seconds (value min max : Z) (field : rstr) : R Z :=
  if (value <? min) || (max <? value) then Err (field ++ lit " must be between " ++ print_i64 min ++ lit " and " ++ print_i64 max) else Ok value.
Definition ensure_nonempty_bounded_text (value : rstr) (max_bytes : Z) (field : rstr) : R unit :=
  if is_empty value then Err (field ++ lit " is required") else
  if max_bytes <? byte_len value then Err (field ++ lit " must be at most " ++ print_i64 max_bytes ++ lit " bytes") else Ok ().
Definition normalize_loaded_cover_mode (value : rstr) : R rstr :=
  let value := to_ascii_lowercase (trim value) in
  if contains value [lit "local"; lit "all"; lit "specific"; lit "exclude"] then Ok value
  else Err (lit "cover_mode must be local, all, specific, or exclude").

Definition require_canonical_uuid (value field : rstr) : R rstr :=
  let trimmed := trim value in
  if negb (byte_len trimmed =? SERVICE_UUID_TEXT_LEN) then Err (field ++ lit " must be a canonical UUID") else
  parsed ← ok_or (uuid_parse trimmed) (lit "invalid UUID");
  if negb (bool_decide (uuid_to_string parsed = trimmed)) then Err (field ++ lit " must be a canonical UUID") else Ok trimmed.
Definition canonical_uuid (value field : rstr) : R rstr :=
  let trimmed := trim value in
  if is_empty trimmed then Err (field ++ lit " contains an empty UUID") else
  parsed ← ok_or (uuid_parse trimmed) (lit "invalid UUID");
  Ok (uuid_to_string parsed).

(** The loop of the two functions below: each value is read, and kept the first time. *)
Definition push_new (id : rstr) (out : list rstr) : list rstr := if contains id out then out else out ++ [id].
Definition bounded_uuid_list (read : rstr → rstr → R rstr) (values : list rstr) (max_len : Z) (field : rstr) : R (list rstr) :=
  if max_len <? zlen values then Err (field ++ lit " must contain at most " ++ print_i64 max_len ++ lit " entries") else
  try_fold (fun out value => id ← read value field; Ok (push_new id out)) values [].
Definition bounded_normalized_uuid_list (values : list rstr) (max_len : Z) (field : rstr) : R (list rstr) :=
  bounded_uuid_list canonical_uuid values max_len field.
Definition bounded_canonical_uuid_list (values : list rstr) (max_len : Z) (field : rstr) : R (list rstr) :=
  bounded_uuid_list require_canonical_uuid values max_len field.
Definition parse_bounded_json_list (bounded : list rstr → Z → rstr → R (list rstr)) (value : option rstr) (max_len : Z) (field : rstr) : R (list rstr) :=
  match value with
  | None => Ok []
  | Some value =>
      if is_empty (trim value) then Ok [] else
      values ← ok_or (json_strings value) (field ++ lit " must be a JSON string array");
      bounded values max_len field
  end.
Definition parse_bounded_normalized_uuid_json_list := parse_bounded_json_list bounded_normalized_uuid_list.
Definition parse_bounded_canonical_uuid_json_list := parse_bounded_json_list bounded_canonical_uuid_list.

(** [Option<..>::map(..).transpose()?]. *)
Definition optional {A} (f : rstr → R A) (v : option rstr) : R (option A) :=
  match v with None => Ok None | Some s => x ← f s; Ok (Some x) end.

Definition validate_loaded_service_config (row : LoadedServiceRow) : R ServiceConfig :=
  id ← require_canonical_uuid (lo_id row) (lit "service_id");
  owner_user_id ← optional (fun value => require_canonical_uuid value (lit "owner_user_id")) (lo_owner_user_id row);
  let name := trim (lo_name row) in
  ensure_nonempty_bounded_text name SERVICE_MAX_NAME_BYTES (lit "name");;
  let kind := to_ascii_lowercase (trim (lo_kind row)) in
  probe_type ← ok_or (probe_type_from_str kind) (lit "invalid kind");
  let target := trim (lo_target row) in
  ensure_nonempty_bounded_text target SERVICE_MAX_TARGET_BYTES (lit "target");;
  validate_probe_target_shape probe_type target;;
  interval_seconds ← checked_runtime_seconds (lo_interval_seconds row) SERVICE_MIN_INTERVAL_SECONDS SERVICE_MAX_INTERVAL_SECONDS (lit "interval_seconds");
  timeout_seconds ← checked_runtime_seconds (lo_timeout_seconds row) SERVICE_MIN_TIMEOUT_SECONDS SERVICE_MAX_TIMEOUT_SECONDS (lit "timeout_seconds");
  cover_mode ← normalize_loaded_cover_mode (lo_cover_mode row);
  server_ids ← match lo_server_id row with
               | Some server_id => bounded_normalized_uuid_list [server_id] SERVICE_MAX_SERVER_IDS (lit "server_id")
               | None => Ok []
               end;
  exclude_server_ids ← parse_bounded_normalized_uuid_json_list (lo_exclude_server_ids_json row) SERVICE_MAX_SERVER_IDS (lit "exclude_server_ids_json");
  notification_group_id ← optional (fun value => require_canonical_uuid value (lit "notification_group_id")) (lo_notification_group_id row);
  failure_task_ids ← parse_bounded_canonical_uuid_json_list (lo_failure_task_ids_json row) SERVICE_MAX_TASK_IDS (lit "failure_task_ids_json");
  recovery_task_ids ← parse_bounded_canonical_uuid_json_list (lo_recovery_task_ids_json row) SERVICE_MAX_TASK_IDS (lit "recovery_task_ids_json");
  Ok {| id := id; owner_user_id := owner_user_id; name := name; kind := kind; target := target; interval_seconds := interval_seconds;
        timeout_seconds := timeout_seconds; enabled := lo_enabled row; cover_mode := cover_mode; server_ids := server_ids;
        exclude_server_ids := exclude_server_ids; notification_group_id := notification_group_id; failure_task_ids := failure_task_ids;
        recovery_task_ids := recovery_task_ids |}.

Definition set_server_ids (l : list rstr) (s : ServiceConfig) : ServiceConfig :=
  {| id := id s; owner_user_id := owner_user_id s; name := name s; kind := kind s; target := target s; interval_seconds := interval_seconds s;
     timeout_seconds := timeout_seconds s; enabled := enabled s; cover_mode := cover_mode s; server_ids := l;
     exclude_server_ids := exclude_server_ids s; notification_group_id := notification_group_id s; failure_task_ids := failure_task_ids s;
     recovery_task_ids := recovery_task_ids s |}.
Definition validate_loaded_service_runtime_lists (s : ServiceConfig) : R ServiceConfig :=
  servers ← bounded_normalized_uuid_list (server_ids s) SERVICE_MAX_SERVER_IDS (lit "server_ids");
  excluded ← bounded_normalized_uuid_list (exclude_server_ids s) SERVICE_MAX_SERVER_IDS (lit "exclude_server_ids");
  failure ← bounded_canonical_uuid_list (failure_task_ids s) SERVICE_MAX_TASK_IDS (lit "failure_task_ids");
  recovery ← bounded_canonical_uuid_list (recovery_task_ids s) SERVICE_MAX_TASK_IDS (lit "recovery_task_ids");
  Ok {| id := id s; owner_user_id := owner_user_id s; name := name s; kind := kind s; target := target s; interval_seconds := interval_seconds s;
        timeout_seconds := timeout_seconds s; enabled := enabled s; cover_mode := cover_mode s; server_ids := servers;
        exclude_server_ids := excluded; notification_group_id := notification_group_id s; failure_task_ids := failure;
        recovery_task_ids := recovery |}.
(** Rows that fail are logged and left out. *)
Definition is_valid {A} (r : R A) : option A := match r with Ok a => Some a | Err _ => None end.
Definition retain_valid_loaded_services (l : list ServiceConfig) : list ServiceConfig :=
  omap (fun s => is_valid (validate_loaded_service_runtime_lists s)) l.

(** ** Owners and targets *)

Definition trusted_service_owner_from_config (s : ServiceConfig) : option rstr :=
  owner ← trim <$> owner_user_id s; if is_empty owner then None else Some owner.
Definition trusted_service_owner_uuid_from_config (s : ServiceConfig) : option Z := trusted_service_owner_from_config s ≫= uuid_parse.
Definition service_effective_server_ids (s : ServiceConfig) : list rstr :=
  if negb (bool_decide (cover_mode s = lit "specific")) then [] else
  foldl (fun out server_id => let trimmed := trim server_id in if is_empty trimmed then out else push_new trimmed out) [] (server_ids s).
Definition normalize_uuid_id_list (values : list rstr) : list rstr :=
  foldl (fun out value => match uuid_parse (trim value) with Some id => push_new (uuid_to_string id) out | None => out end) [] values.
(** The values form a set with one element. *)
Definition unique_nonempty_value (values : list rstr) : option rstr :=
  match filter (fun v => v ≠ []) (trim <$> values) with
  | v :: rest => if forallb (fun w => bool_decide (w = v)) rest then Some v else None
  | [] => None
  end.
Definition service_state_key (service_id : rstr) (server_id : option rstr) : rstr := service_id ++ lit ":" ++ default (lit "local") server_id.

(** ** Probes through an Agent *)

Definition probe_spec (probe_type : ProbeType) (target : rstr) (timeout : Z) : R AgentSession.Spec :=
  match probe_type with
  | Http => Ok (AgentSession.HttpGet {| AgentSession.hg_url := target; AgentSession.hg_headers := []; AgentSession.hg_verify_tls := true;
                                        AgentSession.hg_timeout := timeout |})
  | Tcp => '(host, port) ← parse_tcp_target target;
           Ok (AgentSession.TcpPing {| AgentSession.tp_host := host; AgentSession.tp_port := port; AgentSession.tp_timeout := timeout |})
  | Icmp => Ok (AgentSession.IcmpPing {| AgentSession.ip_host := target; AgentSession.ip_count := 4; AgentSession.ip_timeout := timeout |})
  end.
Definition build_agent_probe_task (task_id : rstr) (s : ServiceConfig) : R AgentSession.ServerTask :=
  probe_type ← ok_or (probe_type_from_str (kind s)) (lit "invalid kind");
  validate_probe_target_shape probe_type (target s);;
  spec ← probe_spec probe_type (target s) (bounded_timeout_seconds (timeout_seconds s));
  Ok {| AgentSession.task_id := task_id; AgentSession.spec := Some spec |}.

Definition failure_probe (message : rstr) : ServiceProbe :=
  {| success := false; latency_ms := None; status_code := None; error := Some message; cert_fingerprint := None; cert_not_after := None |}.
(** [{status:?}] of a [TaskOutcome]; a number that is none is [Unspecified]. *)
Definition outcome_debug (status : Z) : rstr :=
  if status =? 1 then lit "Success" else if status =? 2 then lit "Failure" else if status =? 3 then lit "Timeout" else lit "Unspecified".
Definition too_long_text (e : IoStreams.TextTooLong) : rstr :=
  let exceeds field max := lit "agent probe result " ++ field ++ lit " exceeds " ++ print_i64 max ++ lit " bytes" in
  match e with
  | IoStreams.StdoutTooLong => exceeds (lit "stdout") SERVICE_AGENT_PROBE_STDOUT_MAX_BYTES
  | IoStreams.StderrTooLong => exceeds (lit "stderr") SERVICE_AGENT_PROBE_ERROR_MAX_BYTES
  | IoStreams.ErrorTooLong => exceeds (lit "error") SERVICE_AGENT_PROBE_ERROR_MAX_BYTES
  end.
Definition service_probe_from_task_result `{Rfc3339} (r : IoStreams.TaskResult) : R ServiceProbe :=
  match IoStreams.ensure_task_result_text_within r SERVICE_AGENT_PROBE_STDOUT_MAX_BYTES SERVICE_AGENT_PROBE_ERROR_MAX_BYTES
          SERVICE_AGENT_PROBE_ERROR_MAX_BYTES with
  | Err e => Ok (failure_probe (too_long_text e))
  | Ok _ =>
      if negb (IoStreams.status r =? 1) then
        Ok (failure_probe (if negb (is_empty (trim (IoStreams.error r))) then IoStreams.error r
                           else if negb (is_empty (trim (IoStreams.stderr r))) then IoStreams.stderr r
                           else lit "agent task status: " ++ outcome_debug (IoStreams.status r)))
      else
        output ← ok_or (probe_output (IoStreams.stdout r)) (lit "agent probe output is invalid");
        Ok {| success := out_success output; latency_ms := out_latency_ms output; status_code := out_status_code output;
              error := out_error output; cert_fingerprint := out_cert_fingerprint output;
              cert_not_after := out_cert_not_after output ≫= parse_from_rfc3339 |}
  end.
End checks.

(** ** The monitor *)

Inductive Reply : Type := Replied (r : IoStreams.TaskResult) | Dropped | TimedOut.
Record Env := {
  utc : Z; uuid : Z; fault : option rstr; online : Z → bool; send_failure : option rstr; reply : Reply;
  http_probe : rstr → Z → result rstr ServiceProbe; tcp_probe : rstr → Z → Z → result rstr ServiceProbe; icmp_probe : rstr → Z → result rstr ServiceProbe;
  service_turn : nat → bool; target_turn : nat → bool;
}.
(** The tables, the two maps of the monitor, the replies it waits for, and what it
    has asked of Agents and of the task engine. *)
Record State := {
  services : list ServiceRow; service_servers : list ServiceServerRow; agents : list Fleet.AgentRow; results : list ResultRow; history : list HistoryRow;
  scheduled : gmap rstr Z; service_states : gmap rstr bool; waiting : gset rstr; asked : list (Z * AgentSession.ServerTask); triggered : list Trigger;
}.
Definition set_results x s : State :=
  {| services := services s; service_servers := service_servers s; agents := agents s; results := x; history := history s; scheduled := scheduled s;
     service_states := service_states s; waiting := waiting s; asked := asked s; triggered := triggered s |}.
Definition set_history x s : State :=
  {| services := services s; service_servers := service_servers s; agents := agents s; results := results s; history := x; scheduled := scheduled s;
     service_states := service_states s; waiting := waiting s; asked := asked s; triggered := triggered s |}.
Definition set_scheduled x s : State :=
  {| services := services s; service_servers := service_servers s; agents := agents s; results := results s; history := history s; scheduled := x;
     service_states := service_states s; waiting := waiting s; asked := asked s; triggered := triggered s |}.
Definition set_states x s : State :=
  {| services := services s; service_servers := service_servers s; agents := agents s; results := results s; history := history s;
     scheduled := scheduled s; service_states := x; waiting := waiting s; asked := asked s; triggered := triggered s |}.
Definition set_waiting x s : State :=
  {| services := services s; service_servers := service_servers s; agents := agents s; results := results s; history := history s;
     scheduled := scheduled s; service_states := service_states s; waiting := x; asked := asked s; triggered := triggered s |}.
Definition set_asked x s : State :=
  {| services := services s; service_servers := service_servers s; agents := agents s; results := results s; history := history s;
     scheduled := scheduled s; service_states := service_states s; waiting := waiting s; asked := x; triggered := triggered s |}.
Definition set_triggered x s : State :=
  {| services := services s; service_servers := service_servers s; agents := agents s; results := results s; history := history s;
     scheduled := scheduled s; service_states := service_states s; waiting := waiting s; asked := asked s; triggered := x |}.

Section monitor.
Context `{UuidLib, Rfc3339, MonitorLib}.
Abbreviation PM := (P Env State rstr).

(** A query, a statement that may violate a constraint, and a change in memory. *)
Definition select {A} (f : State → A) : PM A := atomic (fun e s => (match fault e with Some x => Err x | None => Ok (f s) end, s)).
Definition statement (f : State → option State) : PM unit :=
  atomic (fun e s => match fault e with
                     | Some x => (Err x, s)
                     | None => match f s with Some t => (Ok (), t) | None => (Err constraint_text, s) end
                     end).
Definition look {A} (f : State → A) : PM A := atomic (fun e s => (Ok (f s), s)).
Definition modify (f : State → State) : PM unit := atomic (fun e s => (Ok (), f s)).

(** *** Loading *)

Definition load_row (r : ServiceRow) : LoadedServiceRow :=
  {| lo_id := sr_id r; lo_owner_user_id := sr_owner_user_id r; lo_name := sr_name r; lo_kind := sr_type r; lo_target := sr_target r;
     lo_interval_seconds := sr_interval_seconds r; lo_timeout_seconds := sr_timeout_seconds r; lo_enabled := negb (sr_enabled r =? 0);
     lo_server_id := sr_server_id r; lo_notification_group_id := sr_notification_group_id r; lo_cover_mode := default (lit "local") (sr_cover_mode r);
     lo_exclude_server_ids_json := sr_exclude_server_ids_json r; lo_failure_task_ids_json := sr_failure_task_ids_json r;
     lo_recovery_task_ids_json := sr_recovery_task_ids_json r |}.
(** [ORDER BY created_at ASC, server_id ASC LIMIT 65]. *)
Definition assigned_before (a b : ServiceServerRow) : Prop :=
  str_ltb (ss_created_at a) (ss_created_at b) = true ∨ ss_created_at a = ss_created_at b ∧ str_leb (ss_server_id a) (ss_server_id b) = true.
#[global] Instance assigned_before_dec a b : Decision (assigned_before a b).
Proof. unfold assigned_before. apply _. Defined.
Definition load_service_server_ids (service_id : rstr) : PM (list rstr) :=
  select (fun s => ss_server_id <$> take (Z.to_nat (SERVICE_MAX_SERVER_IDS + 1))
                     (merge_sort assigned_before (filter (fun r => ss_service_id r = service_id) (service_servers s)))).
Fixpoint attach_service_server_ids (l : list ServiceConfig) : PM (list ServiceConfig) :=
  match l with
  | [] => mret []
  | service :: l =>
      server_ids ← load_service_server_ids (id service);
      rest ← attach_service_server_ids l;
      mret ((if is_empty server_ids then service else set_server_ids server_ids service) :: rest)
  end.
Definition load_services : PM (list ServiceConfig) :=
  rows ← select (fun s => filter (fun r => sr_enabled r = 1) (services s));
  loaded ← attach_service_server_ids (omap (fun r => is_valid (validate_loaded_service_config (load_row r))) rows);
  mret (retain_valid_loaded_services loaded).

(** *** Targets *)

Definition agent_before (a b : Fleet.AgentRow) : Prop :=
  str_ltb (Fleet.ag_created_at a) (Fleet.ag_created_at b) = true
  ∨ Fleet.ag_created_at a = Fleet.ag_created_at b ∧ str_leb (Fleet.ag_id a) (Fleet.ag_id b) = true.
#[global] Instance agent_before_dec a b : Decision (agent_before a b).
Proof. unfold agent_before. apply _. Defined.
Definition load_agent_ids_for_owner (owner_user_id : Z) : PM (list rstr) :=
  rows ← select (fun s => Fleet.ag_id <$> merge_sort agent_before
           (filter (fun r => Fleet.ag_owner_user_id r = uuid_to_string owner_user_id ∧ Fleet.ag_revoked_at r = None) (agents s)));
  mret (normalize_uuid_id_list rows).
Definition covered_agent_ids (s : ServiceConfig) : PM (list rstr) :=
  match trusted_service_owner_uuid_from_config s with
  | None => mret []
  | Some owner_user_id =>
      all ← load_agent_ids_for_owner owner_user_id;
      if bool_decide (cover_mode s = lit "exclude") then
        let excluded := normalize_uuid_id_list (exclude_server_ids s) in
        mret (filter (fun id => id ∉ excluded) all)
      else mret all
  end.

Fixpoint load_agent_owner_ids (server_ids : list rstr) : PM (list rstr) :=
  match server_ids with
  | [] => mret []
  | server_id :: server_ids =>
      row ← select (fun s => Fleet.ag_owner_user_id <$> head (filter (fun r => Fleet.ag_id r = server_id) (agents s)));
      rest ← load_agent_owner_ids server_ids;
      mret (match row with Some owner_user_id => owner_user_id :: rest | None => rest end)
  end.
Definition unique_owner_from_service_servers (s : ServiceConfig) : PM (option rstr) :=
  let server_ids := service_effective_server_ids s in
  if is_empty server_ids then mret None else
  owner_ids ← load_agent_owner_ids server_ids;
  if negb (zlen owner_ids =? zlen server_ids) then mret None else mret (unique_nonempty_value owner_ids).
Definition service_probe_owner (s : ServiceConfig) : PM (option Z) :=
  match trusted_service_owner_from_config s with
  | Some owner_user_id => mret (uuid_parse owner_user_id)
  | None => owner ← unique_owner_from_service_servers s; mret (owner ≫= uuid_parse)
  end.
Definition service_trigger_owner (s : ServiceConfig) : PM (option rstr) :=
  match trusted_service_owner_from_config s with
  | Some owner_user_id => mret (Some owner_user_id)
  | None => unique_owner_from_service_servers s
  end.
Definition specific_agent_ids (s : ServiceConfig) : PM (list rstr) :=
  owner ← service_probe_owner s;
  match owner with
  | None => mret []
  | Some owner_user_id =>
      let requested := normalize_uuid_id_list (server_ids s) in
      if is_empty requested then mret [] else
      owned ← load_agent_ids_for_owner owner_user_id;
      mret (filter (fun id => id ∈ owned) requested)
  end.

(** *** Results *)

(** [ORDER BY created_at DESC LIMIT 1]; among equal times SQL leaves the choice open. *)
Definition newest_result (a b : ResultRow) : Prop := str_leb (re_created_at b) (re_created_at a) = true.
#[global] Instance newest_result_dec a b : Decision (newest_result a b).
Proof. unfold newest_result. apply _. Defined.
Definition last_status (service_id : rstr) (server_id : option rstr) (s : State) : option rstr :=
  re_status <$> head (merge_sort newest_result (filter (fun r => re_service_id r = service_id ∧ re_server_id r = server_id) (results s))).
Definition previous_service_success (service_id : rstr) (server_id : option rstr) : PM (option bool) :=
  known ← look (fun s => service_states s !! service_state_key service_id server_id);
  match known with
  | Some value => mret (Some value)
  | None => row ← select (last_status service_id server_id);
            mret ((fun status => bool_decide (status = lit "success")) <$> row)
  end.

(** The primary key and the reference to the service. *)
Definition insert_result (row : ResultRow) (s : State) : option State :=
  if bool_decide (re_id row ∈ (re_id <$> results s)) || negb (bool_decide (re_service_id row ∈ (sr_id <$> services s))) then None
  else Some (set_results (results s ++ [row]) s).
Definition insert_history (row : HistoryRow) (s : State) : option State :=
  if bool_decide (hi_id row ∈ (hi_id <$> history s)) || negb (bool_decide (hi_service_id row ∈ (sr_id <$> services s))) then None
  else Some (set_history (history s ++ [row]) s).
Definition prune_old_sqlite : PM unit :=
  now ← observe utc;
  let cutoff := to_rfc3339 (now - days 30) in
  statement (fun s => Some (set_results (filter (fun r => str_ltb (re_created_at r) cutoff = false) (results s)) s));;
  statement (fun s => Some (set_history (filter (fun r => str_ltb (hi_checked_at r) cutoff = false) (history s)) s)).

Definition handle_service_transition (service : ServiceConfig) (server_id : option rstr) (success : bool) (previous_success : option bool) : PM unit :=
  modify (fun s => set_states (<[service_state_key (id service) server_id := success]> (service_states s)) s);;
  if bool_decide (previous_success = Some success) || (bool_decide (previous_success = None) && success) then mret () else
  let task_ids := if success then recovery_task_ids service else failure_task_ids service in
  if is_empty task_ids then mret () else
  proc_bind (service_trigger_owner service) (fun r =>
    match r return PM unit with
    | Ok (Some owner_user_id) =>
        modify (fun s => set_triggered (triggered s ++ [{|
          tr_task_ids := task_ids;
          tr_source := lit "service:" ++ id service ++ lit ":" ++ default (lit "local") server_id ++ lit ":" ++ (if success then lit "recovered" else lit "failed");
          tr_server_id := server_id; tr_owner := owner_user_id |}]) s)
    | Ok None | Err _ => mret ()
    end).

Definition result_row (new_id : rstr) (now : Z) (service_id : rstr) (server_id : option rstr) (r : ServiceProbe) : ResultRow :=
  {| re_id := new_id; re_service_id := service_id; re_server_id := server_id; re_status := if success r then lit "success" else lit "failure";
     re_delay_ms := latency_ms r; re_status_code := status_code r; re_error := error r; re_cert_fingerprint := cert_fingerprint r;
     re_cert_not_after := to_rfc3339 <$> cert_not_after r; re_created_at := to_rfc3339 now |}.
Definition history_row (new_id : rstr) (now : Z) (service_id : rstr) (r : ServiceProbe) : HistoryRow :=
  {| hi_id := new_id; hi_service_id := service_id; hi_success := if success r then 1 else 0; hi_latency_ms := latency_ms r;
     hi_status_code := status_code r; hi_error := error r; hi_checked_at := to_rfc3339 now |}.
Definition save (service : ServiceConfig) (server_id : option rstr) (r : ServiceProbe) : PM unit :=
  previous_success ← previous_service_success (id service) server_id;
  '(new_id, now) ← observe (fun e => (uuid_to_string (uuid e), utc e));
  statement (insert_result (result_row new_id now (id service) server_id r));;
  ignore (statement (insert_history (history_row new_id now (id service) r)));;
  prune_old_sqlite;;
  handle_service_transition service server_id (success r) previous_success.

(** *** Probes *)

Definition probe_locally (s : ServiceConfig) : PM ServiceProbe :=
  probe_type ← of_result (ok_or (probe_type_from_str (kind s)) (lit "invalid kind"));
  let timeout_seconds := bounded_timeout_seconds (timeout_seconds s) in
  match probe_type with
  | Http => atomic (fun e t => (http_probe e (target s) timeout_seconds, t))
  | Tcp => '(host, port) ← of_result (parse_tcp_target (target s));
           atomic (fun e t => (tcp_probe e host port timeout_seconds, t))
  | Icmp => atomic (fun e t => (icmp_probe e (target s) timeout_seconds, t))
  end.

(** A reply, and a dropped sender, are out of the registry; a probe that times
    out takes itself out. *)
Definition wait_for_reply (task_id : rstr) : PM IoStreams.TaskResult :=
  got ← atomic (fun e s => match reply e with
                           | TimedOut => (Ok TimedOut, s)
                           | r => (Ok r, set_waiting (waiting s ∖ {[ task_id ]}) s)
                           end);
  match got with
  | Replied r => mret r
  | Dropped => throw (lit "agent disconnected before reply")
  | TimedOut => modify (fun s => set_waiting (waiting s ∖ {[ task_id ]}) s);; throw (lit "agent probe timed out")
  end.
Definition probe_via_agent (s : ServiceConfig) (server_id : rstr) : PM ServiceProbe :=
  agent_id ← of_result (ok_or (uuid_parse server_id) (lit "invalid server_id"));
  up ← observe (fun e => online e agent_id);
  if negb up then throw (lit "agent offline") else
  new_id ← observe uuid;
  let task_id := uuid_to_string new_id in
  task ← of_result (build_agent_probe_task task_id s);
  modify (fun s => set_waiting (waiting s ∪ {[ task_id ]}) s);;
  sent ← atomic (fun e s => match send_failure e with
                            | Some x => (Ok (Some x), s)
                            | None => (Ok None, set_asked (asked s ++ [(agent_id, task)]) s)
                            end);
  match sent with
  | Some x => modify (fun s => set_waiting (waiting s ∖ {[ task_id ]}) s);; throw x
  | None => result ← wait_for_reply task_id; of_result (service_probe_from_task_result result)
  end.

(** One target; [None] is an Agent that is offline and may be. *)
Definition probe_unless_offline (s : ServiceConfig) (skip_offline : bool) (server_id : rstr) : PM (option ServiceProbe) :=
  up ← (if skip_offline then
          agent_id ← of_result (ok_or (uuid_parse server_id) (lit "invalid server_id"));
          observe (fun e => online e agent_id)
        else mret true);
  if negb up then mret None else (result ← probe_via_agent s server_id; mret (Some result)).
Definition probe_target (s : ServiceConfig) (skip_offline : bool) (server_id : rstr) : PM unit :=
  proc_bind (probe_unless_offline s skip_offline server_id) (fun probe =>
    match probe return PM unit with
    | Ok (Some result) => save s (Some server_id) result
    | Ok None => mret ()
    | Err e => save s (Some server_id) (failure_probe (lit "agent probe failed: " ++ e))
    end).
(** Eight targets are probed at a time, and eight in all services: these are some
    of the interleavings of all of them. *)
Definition probe_agents (s : ServiceConfig) (server_ids : list rstr) (skip_offline : bool) : PM unit :=
  proc_bind (par (fun i e => target_turn e i) 0 (probe_target s skip_offline <$> server_ids))
    (fun rs => of_result (try_for_each (fun r => r) rs) : PM unit).

Definition prune_service_target_states (service_id : rstr) (server_ids : option (list rstr)) : PM unit :=
  let active_keys := match server_ids with
                     | Some server_ids => (fun server_id => service_state_key service_id (Some server_id)) <$> server_ids
                     | None => [service_state_key service_id None]
                     end in
  modify (fun s => set_states (filter (fun p => starts_with (service_id ++ lit ":") p.1 = false ∨ p.1 ∈ active_keys) (service_states s)) s).
Definition probe (s : ServiceConfig) : PM unit :=
  if contains (cover_mode s) [lit "all"; lit "exclude"] then
    server_ids ← covered_agent_ids s;
    of_result (ensure_probe_target_count (zlen server_ids));;
    prune_service_target_states (id s) (Some server_ids);;
    probe_agents s server_ids true
  else if bool_decide (cover_mode s = lit "specific") then
    server_ids ← specific_agent_ids s;
    of_result (ensure_probe_target_count (zlen server_ids));;
    prune_service_target_states (id s) (Some server_ids);;
    probe_agents s server_ids false
  else
    prune_service_target_states (id s) None;;
    result ← probe_locally s;
    save s None result.

(** *** Ticks *)

Definition key_active (active_service_ids : list rstr) (key : rstr) : bool :=
  match split_once 58 key with Some (service_id, _) => contains service_id active_service_ids | None => false end.
Definition prune_inactive_runtime_state (active_service_ids : list rstr) : PM unit :=
  modify (fun s => set_scheduled (filter (fun p => p.1 ∈ active_service_ids) (scheduled s)) s);;
  modify (fun s => set_states (filter (fun p => key_active active_service_ids p.1 = true) (service_states s)) s).
Fixpoint due_services (now : Z) (l : list ServiceConfig) : PM (list ServiceConfig) :=
  match l with
  | [] => mret []
  | s :: l =>
      should ← look (fun t => match scheduled t !! id s with Some at_ => at_ <=? now | None => true end);
      if should : bool then
        let next := now + seconds (bounded_interval_seconds (interval_seconds s)) in
        modify (fun t => set_scheduled (<[id s := next]> (scheduled t)) t);;
        rest ← due_services now l;
        mret (s :: rest)
      else due_services now l
  end.
Definition tick_once : PM unit :=
  now ← observe utc;
  services ← load_services;
  prune_inactive_runtime_state (id <$> services);;
  due ← due_services now services;
  proc_bind (par (fun i e => service_turn e i) 0 (probe <$> due)) (fun _ => mret () : PM unit).
End monitor.
End Monitor.
