(* ===== verification/MonitorProofs.v ===== *)
(** * MonitorProofs: what the service monitor asks of Agents and of the task engine

    The lists a service is loaded with; every step of a tick, with what the steps
    before it had seen; the schedule; and the transitions that start tasks. *)

From S2P Require Import Prelude Text BTreeMap Externals Rfc3339 Security IoStreams AgentSession Interleave Fleet Monitor.

Module MonitorProofs.
Import Interleave Monitor.
#[local] Arguments uuid_to_string : simpl never.
#[local] Arguments lit : simpl never.

(** ** Lists of identifiers *)

Lemma sublist_same_length {A} (l k : list A) : l `sublist_of` k → (length k <= length l)%nat → l = k.
Proof.
  induction 1 as [|x l k Hs IH|x l k Hs IH]; cbn; intros Hl; [done|f_equal; apply IH; lia|].
  apply sublist_length in Hs. lia.
Qed.

Section lists.
Context `{UuidLib, MonitorLib}.

Lemma elem_of_push_new x i out : x ∈ push_new i out ↔ x = i ∨ x ∈ out.
Proof.
  unfold push_new. destruct (contains i out) eqn:Hi; [|set_solver]. apply contains_spec in Hi. split; [by right|]. by intros [->|].
Qed.
Lemma NoDup_push_new i out : NoDup out → NoDup (push_new i out).
Proof.
  intros Hn. unfold push_new. destruct (contains i out) eqn:Hi; [done|]. apply contains_false in Hi.
  apply NoDup_app. split_and!; [done| |apply NoDup_singleton]. set_solver.
Qed.
Lemma length_push_new i out : (length (push_new i out) <= S (length out))%nat.
Proof. unfold push_new. destruct (contains i out); rewrite ?length_app; cbn; lia. Qed.

Lemma normalize_uuid_id_list_spec values :
  NoDup (normalize_uuid_id_list values) ∧
  ∀ x, x ∈ normalize_uuid_id_list values ↔ ∃ v k, v ∈ values ∧ uuid_parse (trim v) = Some k ∧ x = uuid_to_string k.
Proof.
  unfold normalize_uuid_id_list. set (f := fun out value => _).
  assert (∀ out, NoDup out → NoDup (foldl f out values) ∧ ∀ x, x ∈ foldl f out values ↔
    x ∈ out ∨ ∃ v k, v ∈ values ∧ uuid_parse (trim v) = Some k ∧ x = uuid_to_string k) as Hall.
  { induction values as [|v values IH]; intros out Hn; cbn.
    - split; [done|]. intros x. split; [by left|]. intros [?|(v & k & ?%not_elem_of_nil & _)]; done.
    - destruct (IH (f out v)) as [Hn' Hx]; [subst f; cbn; destruct (uuid_parse (trim v)); [by apply NoDup_push_new|done]|].
      split; [done|]. intros x. rewrite Hx. subst f; cbn. destruct (uuid_parse (trim v)) as [k|] eqn:Ek.
      + rewrite elem_of_push_new. split.
        * intros [[->|?]|(w & k' & ? & ? & ?)]; [right; exists v, k; set_solver|by left|right; exists w, k'; set_solver].
        * intros [?|(w & k' & [->|?]%elem_of_cons & Hp & ->)]; [by left; right|left; left; congruence|right; by exists w, k'].
      + split; [intros [?|(w & k' & ? & ? & ?)]; [by left|right; exists w, k'; set_solver]|].
        intros [?|(w & k' & [->|?]%elem_of_cons & Hp & ->)]; [by left|congruence|right; by exists w, k']. }
  destruct (Hall [] (NoDup_nil_2)) as [Hn Hx]. split; [done|]. intros x. rewrite Hx. set_solver.
Qed.

(** What a list that was read holds. *)
Lemma bounded_uuid_list_spec (read : rstr → rstr → result rstr rstr) values max field l :
  bounded_uuid_list read values max field = Ok l →
  NoDup l ∧ zlen l <= max ∧ ∀ x, x ∈ l ↔ ∃ v, v ∈ values ∧ read v field = Ok x.
Proof.
  unfold bounded_uuid_list. destruct (max <? zlen values) eqn:Em; [done|]. apply Z.ltb_ge in Em.
  assert (∀ values out, NoDup out → try_fold (fun out value => id ← read value field; Ok (push_new id out)) values out = Ok l →
    NoDup l ∧ (length l <= length out + length values)%nat ∧ ∀ x, x ∈ l ↔ x ∈ out ∨ ∃ v, v ∈ values ∧ read v field = Ok x) as Hall.
  { clear Em values. induction values as [|v values IH]; intros out Hn; cbn.
    - intros [= ->]. split_and!; [done|lia|]. intros x. split; [by left|]. intros [?|(v & ?%not_elem_of_nil & _)]; done.
    - destruct (read v field) as [i|] eqn:Er; [|done]. cbn. intros Hf. apply IH in Hf as (Hl & Hlen & Hx); [|by apply NoDup_push_new].
      pose proof (length_push_new i out). split_and!; [done|lia|]. intros x. rewrite Hx, elem_of_push_new. split.
      + intros [[->|?]|(w & ? & ?)]; [right; exists v; set_solver|by left|right; exists w; set_solver].
      + intros [?|(w & [->|?]%elem_of_cons & Hw)]; [by left; right|left; left; congruence|right; by exists w]. }
  intros Hf. apply Hall in Hf as (Hn & Hlen & Hx); [|apply NoDup_nil_2]. unfold zlen in *. cbn in Hlen.
  split_and!; [done|lia|]. intros x. rewrite Hx. set_solver.
Qed.

Definition canonical (x : rstr) : Prop := ∃ k, uuid_ok k ∧ x = uuid_to_string k.
Lemma require_canonical_uuid_ok v field x : require_canonical_uuid v field = Ok x → canonical x ∧ x = trim v.
Proof.
  unfold require_canonical_uuid. destruct (negb _); [done|]. destruct (uuid_parse (trim v)) as [k|] eqn:Ek; [|done]. cbn.
  case_bool_decide as Ht; [|done]. cbn. intros [= <-]. split; [|done]. exists k. by apply uuid_parse_ok in Ek.
Qed.
Lemma canonical_uuid_ok v field x : canonical_uuid v field = Ok x → canonical x.
Proof.
  unfold canonical_uuid. destruct (is_empty _); [done|]. destruct (uuid_parse (trim v)) as [k|] eqn:Ek; [|done]. cbn. intros [= <-].
  exists k. by apply uuid_parse_ok in Ek.
Qed.
Lemma normalized_list_ok values max field l :
  bounded_normalized_uuid_list values max field = Ok l → NoDup l ∧ zlen l <= max ∧ Forall canonical l.
Proof.
  intros (Hn & Hl & Hx)%bounded_uuid_list_spec. split_and!; [done..|]. apply Forall_forall. intros x (v & _ & Hv)%Hx. by eapply canonical_uuid_ok.
Qed.
Lemma canonical_list_ok values max field l :
  bounded_canonical_uuid_list values max field = Ok l → NoDup l ∧ zlen l <= max ∧ Forall canonical l.
Proof.
  intros (Hn & Hl & Hx)%bounded_uuid_list_spec. split_and!; [done..|]. apply Forall_forall. intros x (v & _ & Hv)%Hx.
  by eapply require_canonical_uuid_ok.
Qed.
End lists.

(** ** Services as they are loaded *)

Section loaded.
Context `{UuidLib, Rfc3339, MonitorLib}.

(** The servers that are listed for a service: of its rows, oldest first, the first
    65 (one more than a service may have). *)
Definition listed (service_id : rstr) (s : State) (l : list rstr) : Prop := ∃ rows,
  Sorted assigned_before rows ∧ rows ≡ₚ filter (fun r => ss_service_id r = service_id) (service_servers s) ∧ l = ss_server_id <$> take 65 rows.
(** The service is what the monitor makes of the row and of the servers that were
    listed for it; the row names its one server itself if none are. *)
Definition configures (r : ServiceRow) (l : list rstr) (svc : ServiceConfig) : Prop := sr_enabled r = 1 ∧ ∃ base,
  validate_loaded_service_config (load_row r) = Ok base ∧
  validate_loaded_service_runtime_lists (if is_empty l then base else set_server_ids l base) = Ok svc.

Definition uuid_list_wf (max : Z) (l : list rstr) : Prop := NoDup l ∧ zlen l <= max ∧ Forall canonical l.
Record service_wf (s : ServiceConfig) : Prop := {
  wf_id : canonical (id s);
  wf_owner : ∀ o, owner_user_id s = Some o → canonical o;
  wf_name : name s ≠ [] ∧ byte_len (name s) <= SERVICE_MAX_NAME_BYTES;
  wf_target : target s ≠ [] ∧ byte_len (target s) <= SERVICE_MAX_TARGET_BYTES;
  wf_probe : ∃ t, probe_type_from_str (kind s) = Some t ∧ validate_probe_target_shape t (target s) = Ok ();
  wf_interval : bounded_interval_seconds (interval_seconds s) = interval_seconds s;
  wf_timeout : bounded_timeout_seconds (timeout_seconds s) = timeout_seconds s;
  wf_cover : cover_mode s ∈ [lit "local"; lit "all"; lit "specific"; lit "exclude"];
  wf_servers : uuid_list_wf SERVICE_MAX_SERVER_IDS (server_ids s);
  wf_excluded : uuid_list_wf SERVICE_MAX_SERVER_IDS (exclude_server_ids s);
  wf_failure : uuid_list_wf SERVICE_MAX_TASK_IDS (failure_task_ids s);
  wf_recovery : uuid_list_wf SERVICE_MAX_TASK_IDS (recovery_task_ids s);
}.

Lemma checked_runtime_seconds_ok v min max field x : checked_runtime_seconds v min max field = Ok x → x = v ∧ min <= x <= max.
Proof. unfold checked_runtime_seconds. destruct (_ || _) eqn:Eb; [done|]. intros [= <-]. bool_prop. lia. Qed.
Lemma bounded_text_ok v max field x : ensure_nonempty_bounded_text v max field = Ok x → v ≠ [] ∧ byte_len v <= max.
Proof.
  unfold ensure_nonempty_bounded_text. destruct (is_empty v) eqn:Ev; [done|]. destruct (max <? byte_len v) eqn:El; [done|]. intros _.
  bool_prop. by apply is_empty_false in Ev.
Qed.
Lemma loaded_cover_mode_ok v x : normalize_loaded_cover_mode v = Ok x → x ∈ [lit "local"; lit "all"; lit "specific"; lit "exclude"].
Proof. unfold normalize_loaded_cover_mode. destruct (contains _ _) eqn:Ec; [|done]. intros [= <-]. by apply contains_spec in Ec. Qed.

Lemma set_server_ids_same svc : set_server_ids (server_ids svc) svc = svc.
Proof. by destruct svc. Qed.

Lemma configured_wf r l svc : configures r l svc → service_wf svc.
Proof.
  intros (_ & b & Hb & Hr). assert (∃ k, validate_loaded_service_runtime_lists (set_server_ids k b) = Ok svc) as [k Hk].
  { destruct (is_empty l); [exists (server_ids b); by rewrite set_server_ids_same|by exists l]. }
  clear Hr. rename Hk into Hr. unfold validate_loaded_service_config in Hb.
  repeat (apply bind_Ok in Hb as (? & ? & Hb)). injection Hb as <-.
  unfold validate_loaded_service_runtime_lists in Hr. repeat (apply bind_Ok in Hr as (? & ? & Hr)). injection Hr as <-. cbn in *.
  repeat match goal with
  | Hx : require_canonical_uuid _ _ = Ok _ |- _ => apply require_canonical_uuid_ok in Hx as [? ->]
  | Hx : ensure_nonempty_bounded_text _ _ _ = Ok _ |- _ => apply bounded_text_ok in Hx
  | Hx : checked_runtime_seconds _ _ _ _ = Ok _ |- _ => apply checked_runtime_seconds_ok in Hx as [-> ?]
  | Hx : normalize_loaded_cover_mode _ = Ok _ |- _ => apply loaded_cover_mode_ok in Hx
  | Hx : bounded_normalized_uuid_list _ _ _ = Ok _ |- _ => apply normalized_list_ok in Hx
  | Hx : bounded_canonical_uuid_list _ _ _ = Ok _ |- _ => apply canonical_list_ok in Hx
  | Hx : ok_or ?v _ = Ok _ |- _ => destruct v eqn:?; [injection Hx as ->|done]
  | x : unit |- _ => destruct x
  end.
  constructor; cbn; try done; try (unfold bounded_interval_seconds, bounded_timeout_seconds, SERVICE_MIN_INTERVAL_SECONDS,
    SERVICE_MAX_INTERVAL_SECONDS, SERVICE_MIN_TIMEOUT_SECONDS, SERVICE_MAX_TIMEOUT_SECONDS in *; lia); [|by eexists].
  intros o ->. match goal with Hx : optional _ (sr_owner_user_id r) = _ |- _ => destruct (sr_owner_user_id r); [|done]; cbn in Hx;
    apply bind_Ok in Hx as (? & [? ->]%require_canonical_uuid_ok & [= <-]); done end.
Qed.

(** A loaded service can be asked of an Agent: no task fails to be built. *)
Lemma wf_task_built s task_id : service_wf s → ∃ spec,
  build_agent_probe_task task_id s = Ok {| AgentSession.task_id := task_id; AgentSession.spec := Some spec |}.
Proof.
  intros Hs. destruct (wf_probe s Hs) as (t & Ht & Hv). unfold build_agent_probe_task. rewrite Ht. cbn. rewrite Hv. cbn.
  destruct t; cbn; [by eexists| |by eexists]. cbn in Hv. destruct (parse_tcp_target (target s)) as [[host port]|]; [by eexists|done].
Qed.
End loaded.

(** ** What a tick does *)

Section steps.
Context `{UuidLib, Rfc3339, MonitorLib}.
Abbreviation hist := (list (Env * State)).
Abbreviation PM := (P Env State rstr).
Implicit Types (h : hist) (e : Env) (s : State) (svc : ServiceConfig).

Definition calm e s s' : Prop :=
  services s' = services s ∧ service_servers s' = service_servers s ∧ agents s' = agents s ∧ asked s' = asked s ∧ triggered s' = triggered s.

(** The tick read the row, and the servers listed for it. *)
Definition loaded h svc : Prop := ∃ r l,
  once h (fun _ s => r ∈ services s) ∧ once h (fun _ s => listed (id svc) s l) ∧ configures r l svc.
(** The service names its owner; or it names none, is for specific servers only,
    and all of them were this one user's. *)
Definition owner_row (o : rstr) (r : Fleet.AgentRow) : Prop := trim (Fleet.ag_owner_user_id r) = o ∨ trim (Fleet.ag_owner_user_id r) = [].
Definition of_servers h svc (o : rstr) : Prop :=
  trusted_service_owner_from_config svc = None ∧ cover_mode svc = lit "specific" ∧
  (∃ i, i ∈ service_effective_server_ids svc ∧ once h (fun _ s => ∃ r, r ∈ agents s ∧ Fleet.ag_id r = i ∧ trim (Fleet.ag_owner_user_id r) = o)) ∧
  Forall (fun i => once h (fun _ s => ∃ r, r ∈ agents s ∧ Fleet.ag_id r = i ∧ owner_row o r)) (service_effective_server_ids svc).
Definition owner_of h svc (o : rstr) : Prop := trusted_service_owner_from_config svc = Some o ∨ of_servers h svc o.
Definition covers svc (agent : Z) : Prop :=
  cover_mode svc = lit "all"
  ∨ cover_mode svc = lit "exclude" ∧ uuid_to_string agent ∉ normalize_uuid_id_list (exclude_server_ids svc)
  ∨ cover_mode svc = lit "specific" ∧ uuid_to_string agent ∈ normalize_uuid_id_list (server_ids svc).
Definition active_of (owner agent : Z) (r : Fleet.AgentRow) : Prop :=
  Fleet.ag_owner_user_id r = uuid_to_string owner ∧ Fleet.ag_revoked_at r = None ∧ uuid_parse (trim (Fleet.ag_id r)) = Some agent.
Definition target_of h svc (agent : Z) : Prop := covers svc agent ∧ ∃ o owner,
  owner_of h svc o ∧ uuid_parse o = Some owner ∧ once h (fun _ s => ∃ r, r ∈ agents s ∧ active_of owner agent r).

Definition asks h s s' : Prop := ∃ svc agent task_id task,
  loaded h svc ∧ target_of h svc agent ∧ once h (fun e _ => online e agent = true) ∧ once h (fun e _ => task_id = uuid_to_string (uuid e)) ∧
  build_agent_probe_task task_id svc = Ok task ∧ s' = set_asked (asked s ++ [(agent, task)]) s.
Definition trigger_of svc (server_id : option rstr) (ok : bool) (o : rstr) : Trigger :=
  {| tr_task_ids := if ok then recovery_task_ids svc else failure_task_ids svc;
     tr_source := lit "service:" ++ id svc ++ lit ":" ++ default (lit "local") server_id ++ lit ":" ++ (if ok then lit "recovered" else lit "failed");
     tr_server_id := server_id; tr_owner := o |}.
Definition reported h svc (server_id : option rstr) : Prop :=
  match server_id with None => True | Some i => ∃ agent, i = uuid_to_string agent ∧ target_of h svc agent end.
Definition triggers h s s' : Prop := ∃ svc server_id ok o,
  loaded h svc ∧ reported h svc server_id ∧ owner_of h svc o ∧ tr_task_ids (trigger_of svc server_id ok o) ≠ [] ∧
  s' = set_triggered (triggered s ++ [trigger_of svc server_id ok o]) s.
Definition allowed h e s s' : Prop := calm e s s' ∨ asks h s s' ∨ triggers h s s'.

(** What was seen stays seen. *)
Lemma owner_of_sub h h' svc o : h `sublist_of` h' → owner_of h svc o → owner_of h' svc o.
Proof.
  intros Hs [?|(Ht & Hm & (i & Hi & Ho) & Hf)]; [by left|]. right. split_and!; [done..| |].
  - exists i. split; [done|]. by eapply once_sub.
  - eapply Forall_impl; [exact Hf|]. cbn. intros j. by apply once_sub.
Qed.
Lemma target_of_sub h h' svc agent : h `sublist_of` h' → target_of h svc agent → target_of h' svc agent.
Proof. intros Hs (Hc & o & owner & Ho & Hp & Hr). split; [done|]. exists o, owner. eauto using owner_of_sub, once_sub. Qed.
Lemma reported_sub h h' svc i : h `sublist_of` h' → reported h svc i → reported h' svc i.
Proof. destruct i as [i|]; [|done]. intros Hs (agent & -> & Ht). exists agent. eauto using target_of_sub. Qed.
Lemma loaded_sub h h' svc : h `sublist_of` h' → loaded h svc → loaded h' svc.
Proof. intros Hs (r & l & Hr & Hl & Hc). exists r, l. eauto using once_sub. Qed.
#[local] Hint Resolve owner_of_sub target_of_sub reported_sub loaded_sub once_sub : xls.
Lemma allowed_grows : grows allowed.
Proof.
  intros h h' e s s' Hs [?|[(svc & agent & i & task & Hr)|(svc & i & ok & o & Hr)]]; [by left|..]; right; [left|right].
  - destruct Hr as (? & ? & ? & ? & ? & ?). exists svc, agent, i, task. split_and!; eauto with xls.
  - destruct Hr as (? & ? & ? & ? & ?). exists svc, i, ok, o. split_and!; eauto with xls.
Qed.
Lemma sub_app h h' : h `sublist_of` h ++ h'.
Proof. by apply sublist_inserts_r. Qed.

(** Programs that ask nothing and trigger nothing. *)
Lemma monitor_calm_refl e s : calm e s s.
Proof. by repeat split. Qed.
Lemma monitor_calm_select {A} (f : State → A) : always calm (select f : PM A).
Proof. intros e s. split; [|done]. cbn. destruct (fault e); apply monitor_calm_refl. Qed.
Lemma monitor_calm_observe {A} (f : Env → A) : always calm (observe f : PM A).
Proof. intros e s. split; [apply monitor_calm_refl|done]. Qed.
Lemma monitor_calm_look {A} (f : State → A) : always calm (look f : PM A).
Proof. intros e s. split; [apply monitor_calm_refl|done]. Qed.
Lemma monitor_calm_modify (f : State → State) : (∀ e s, calm e s (f s)) → always calm (modify f : PM unit).
Proof. intros Hf e s. split; [apply Hf|done]. Qed.
Lemma monitor_calm_statement (f : State → option State) : (∀ e s t, f s = Some t → calm e s t) → always calm (statement f : PM unit).
Proof. intros Hf e s. split; [|done]. cbn. destruct (fault e); [apply monitor_calm_refl|]. destruct (f s) eqn:Ef; [by apply Hf|apply monitor_calm_refl]. Qed.
Lemma monitor_calm_allowed {A} h (m : PM A) : always calm m → traced allowed h m (fun _ _ => True).
Proof. intros Hm. eapply always_traced; [exact Hm| |done]. intros. by left. Qed.

Lemma monitor_calm_rest {A B} h (m : PM A) (k : A → PM B) Q :
  always calm m → (∀ h x, Q h (Err x)) → (∀ h' a, traced allowed (h ++ h') (k a) Q) → traced allowed h (m ≫= k) Q.
Proof. intros Hm He Hk. eapply traced_seq; [by apply monitor_calm_allowed|done|]. intros h' a _. apply Hk. Qed.
Lemma select_rest {A B} h (f : State → A) (k : A → PM B) Q :
  (∀ h x, Q h (Err x)) → (∀ e s, traced allowed (h ++ [(e, s)]) (k (f s)) Q) → traced allowed h (select f ≫= k) Q.
Proof.
  intros He Hk. apply traced_try. intros e s. split; [left; apply (monitor_calm_select f e s)|]. cbn. destruct (fault e); cbn; [apply He|apply Hk].
Qed.
Lemma observe_rest {A B} h (f : Env → A) (k : A → PM B) Q :
  (∀ e s, traced allowed (h ++ [(e, s)]) (k (f e)) Q) → traced allowed h (observe f ≫= k) Q.
Proof. intros Hk. apply traced_try. intros e s. split; [left; apply monitor_calm_refl|]. apply Hk. Qed.
Lemma atomic_rest {A B} h (f : Env → State → result rstr A * State) (k : A → PM B) Q :
  (∀ h x, Q h (Err x)) →
  (∀ e s, allowed h e s (f e s).2 ∧ ∀ a, (f e s).1 = Ok a → traced allowed (h ++ [(e, s)]) (k a) Q) → traced allowed h (atomic f ≫= k) Q.
Proof.
  intros He Hk. apply traced_try. intros e s. destruct (Hk e s) as [Ha Hn]. split; [done|]. cbn. destruct (f e s).1; [by apply Hn|apply He].
Qed.

(** *** Owners *)

Definition had_owner h (i o : rstr) : Prop := once h (fun _ s => ∃ r, r ∈ agents s ∧ Fleet.ag_id r = i ∧ Fleet.ag_owner_user_id r = o).
Lemma had_owner_sub h h' i o : h `sublist_of` h' → had_owner h i o → had_owner h' i o.
Proof. apply once_sub. Qed.
Lemma load_agent_owner_ids_traced h ids :
  traced allowed h (load_agent_owner_ids ids) (fun h' r => ∀ l, r = Ok l → ∃ js, js `sublist_of` ids ∧ Forall2 (had_owner h') js l).
Proof.
  revert h. induction ids as [|i ids IH]; intros h; cbn [load_agent_owner_ids]; [intros l [= <-]; exists []; split; constructor|].
  apply select_rest; [done|]. intros e s. eapply traced_seq; [apply IH|done|]. cbn. intros h' rest Hr l [= <-].
  destruct (Hr rest eq_refl) as (js & Hs & Hf). set (row := head _). destruct row as [r|] eqn:Er; cbn; [|exists js; split; [by constructor|done]].
  exists (i :: js). split; [by constructor|]. constructor; [|done]. eapply once_sub; [apply sub_app|]. apply once_here. exists r.
  assert (r ∈ filter (fun r => Fleet.ag_id r = i) (agents s)) as Hin by (subst row; by apply head_Some_elem_of).
  apply list_elem_of_filter in Hin as [? ?]. done.
Qed.

Lemma unique_nonempty_value_Some l v :
  unique_nonempty_value l = Some v → v ∈ trim <$> l ∧ ∀ w, w ∈ l → trim w = v ∨ trim w = [].
Proof.
  unfold unique_nonempty_value. destruct (filter _ _) as [|x rest] eqn:Ef; [done|].
  destruct (forallb _ rest) eqn:Ea; [|done]. intros [= ->]. rewrite forallb_forall in Ea.
  assert (∀ y, y ∈ filter (fun v => v ≠ []) (trim <$> l) → y = v) as Hall.
  { rewrite Ef. intros y [->|Hy]%elem_of_cons; [done|]. apply list_elem_of_In, Ea in Hy. by apply bool_decide_eq_true in Hy. }
  split.
  - assert (v ∈ filter (fun v => v ≠ []) (trim <$> l)) as Hv by (rewrite Ef; left). by apply list_elem_of_filter in Hv as [_ ?].
  - intros w Hw. destruct (decide (trim w = [])) as [|Hn]; [by right|left]. apply Hall, list_elem_of_filter. split; [done|]. by apply list_elem_of_fmap_2.
Qed.
Lemma effective_specific svc : service_effective_server_ids svc ≠ [] → cover_mode svc = lit "specific".
Proof. unfold service_effective_server_ids. case_bool_decide; cbn; done. Qed.

Lemma unique_owner_traced h svc :
  trusted_service_owner_from_config svc = None →
  traced allowed h (unique_owner_from_service_servers svc) (fun h' r => ∀ o, r = Ok (Some o) → of_servers h' svc o).
Proof.
  intros Ht. unfold unique_owner_from_service_servers. destruct (is_empty _) eqn:Ee; [done|]. apply is_empty_false in Ee.
  eapply traced_seq; [apply load_agent_owner_ids_traced|done|]. cbn. intros h' l Hl. destruct (Hl l eq_refl) as (js & Hs & Hf).
  destruct (negb _) eqn:En; [done|]. bool_prop. intros o [= Ho]. apply unique_nonempty_value_Some in Ho as [Hin Hall].
  assert (js = service_effective_server_ids svc) as ->.
  { apply sublist_same_length; [done|]. apply Forall2_length in Hf. unfold zlen in En. lia. }
  split_and!; [done|by apply effective_specific| |].
  - apply list_elem_of_fmap in Hin as (w & -> & Hw). apply list_elem_of_lookup in Hw as [n Hn].
    destruct (Forall2_lookup_r _ _ _ _ _ Hf Hn) as (i & Hi & Hr). exists i. split; [by eapply list_elem_of_lookup_2|].
    destruct Hr as (e & s & Hes & r & Hr & Hri & Hro). exists e, s. split; [done|]. exists r. by rewrite Hro.
  - apply Forall_forall. intros i [n Hn]%list_elem_of_lookup. destruct (Forall2_lookup_l _ _ _ _ _ Hf Hn) as (w & Hw & Hr).
    destruct Hr as (e & s & Hes & r & Hr & Hri & Hro). exists e, s. split; [done|]. exists r. split_and!; [done..|].
    unfold owner_row. rewrite Hro. apply Hall. by eapply list_elem_of_lookup_2.
Qed.
Lemma service_trigger_owner_traced h svc :
  traced allowed h (service_trigger_owner svc) (fun h' r => ∀ o, r = Ok (Some o) → owner_of h' svc o).
Proof.
  unfold service_trigger_owner. destruct (trusted_service_owner_from_config svc) as [o|] eqn:Et; [intros ? [= <-]; by left|].
  eapply traced_mono; [|by apply unique_owner_traced]. cbn. intros h' r Hr o Ho. right. auto.
Qed.
Lemma service_probe_owner_traced h svc :
  traced allowed h (service_probe_owner svc) (fun h' r => ∀ owner, r = Ok (Some owner) → ∃ o, owner_of h' svc o ∧ uuid_parse o = Some owner).
Proof.
  unfold service_probe_owner. destruct (trusted_service_owner_from_config svc) as [o|] eqn:Et.
  - intros owner [= Ho]. exists o. split; [by left|done].
  - eapply traced_seq; [by apply unique_owner_traced|done|]. cbn. intros h' a Ha owner [= Ho]. destruct a as [o|]; [|done]. exists o.
    split; [right; by apply Ha|done].
Qed.

(** *** Targets *)

Definition had_active h (owner : Z) (x : rstr) : Prop := ∃ agent,
  x = uuid_to_string agent ∧ once h (fun _ s => ∃ r, r ∈ agents s ∧ active_of owner agent r).
Lemma load_agent_ids_traced h owner :
  traced allowed h (load_agent_ids_for_owner owner) (fun h' r => ∀ l, r = Ok l → Forall (had_active h' owner) l).
Proof.
  unfold load_agent_ids_for_owner. apply select_rest; [done|]. cbn. intros e s l [= <-]. apply Forall_forall. intros x Hx.
  apply normalize_uuid_id_list_spec in Hx as (v & agent & Hv & Hp & ->). exists agent. split; [done|]. apply once_here.
  apply list_elem_of_fmap in Hv as (r & -> & Hr). rewrite merge_sort_Permutation in Hr. apply list_elem_of_filter in Hr as [[Ho Hn] Hr]. by exists r.
Qed.

Definition is_target h svc (x : rstr) : Prop := ∃ agent, x = uuid_to_string agent ∧ target_of h svc agent.
Lemma is_target_sub h h' svc x : h `sublist_of` h' → is_target h svc x → is_target h' svc x.
Proof. intros Hs (agent & -> & Ht). exists agent. eauto using target_of_sub. Qed.
Lemma had_active_target h svc o owner x :
  (∀ agent, x = uuid_to_string agent → covers svc agent) → owner_of h svc o → uuid_parse o = Some owner → had_active h owner x → is_target h svc x.
Proof. intros Hc Ho Hp (agent & -> & Ha). exists agent. split; [done|]. split; [by apply Hc|]. by exists o, owner. Qed.

Lemma covered_agent_ids_traced h svc :
  cover_mode svc = lit "all" ∨ cover_mode svc = lit "exclude" →
  traced allowed h (covered_agent_ids svc) (fun h' r => ∀ l, r = Ok l → Forall (is_target h' svc) l).
Proof.
  intros Hm. unfold covered_agent_ids. destruct (trusted_service_owner_uuid_from_config svc) as [owner|] eqn:Eo; [|intros l [= <-]; constructor].
  unfold trusted_service_owner_uuid_from_config in Eo. apply bind_Some in Eo as (o & Et & Eo).
  eapply traced_seq; [apply load_agent_ids_traced|done|]. cbn. intros h' all Hall. specialize (Hall all eq_refl).
  case_bool_decide as Hx; intros l [= <-]; apply Forall_forall.
  - intros x [Hn Hin]%list_elem_of_filter. rewrite Forall_forall in Hall. eapply had_active_target; [|by left|done|by apply Hall].
    intros agent ->. right; left. done.
  - rewrite Forall_forall in Hall. intros x Hin. eapply had_active_target; [|by left|done|by apply Hall]. intros agent ->. left. naive_solver.
Qed.
Lemma specific_agent_ids_traced h svc :
  cover_mode svc = lit "specific" →
  traced allowed h (specific_agent_ids svc) (fun h' r => ∀ l, r = Ok l → Forall (is_target h' svc) l).
Proof.
  intros Hm. unfold specific_agent_ids. eapply traced_seq; [apply service_probe_owner_traced|done|]. cbv beta. intros h1 found Hf.
  destruct found as [owner|]; [|intros l [= <-]; constructor]. destruct (Hf owner eq_refl) as (o & Ho & Hp).
  destruct (is_empty _); [intros l [= <-]; constructor|].
  eapply traced_seq; [apply load_agent_ids_traced|done|]. cbn. intros h2 owned Hown l [= <-]. specialize (Hown owned eq_refl).
  apply Forall_forall. intros x [Hin Hreq]%list_elem_of_filter. rewrite Forall_forall in Hown.
  eapply had_active_target; [|eapply owner_of_sub, Ho; apply sub_app|done|by apply Hown]. intros agent ->. right; right. done.
Qed.

(** *** Results and transitions *)

Lemma calm_save_part service_id server_id : always calm (previous_service_success service_id server_id : PM _).
Proof. apply always_try; [apply monitor_calm_look|]. intros [b|]; [done|]. apply always_try; [apply monitor_calm_select|done]. Qed.
Lemma calm_prune_old : always calm (prune_old_sqlite : PM unit).
Proof.
  apply always_try; [apply monitor_calm_observe|]. intros now.
  apply always_try; [|intros _]; apply monitor_calm_statement; intros e s t [= <-]; by repeat split.
Qed.
Lemma calm_insert_result row : always calm (statement (insert_result row) : PM unit).
Proof. apply monitor_calm_statement. intros e s t. unfold insert_result. destruct (_ || _); [done|]. intros [= <-]. by repeat split. Qed.
Lemma calm_insert_history row : always calm (statement (insert_history row) : PM unit).
Proof. apply monitor_calm_statement. intros e s t. unfold insert_history. destruct (_ || _); [done|]. intros [= <-]. by repeat split. Qed.

Lemma handle_service_transition_traced h svc server_id ok previous :
  loaded h svc → reported h svc server_id → traced allowed h (handle_service_transition svc server_id ok previous) (fun _ _ => True).
Proof.
  intros Hl Hr. unfold handle_service_transition. apply monitor_calm_rest; [apply monitor_calm_modify; by repeat split|done|]. intros h1 _.
  destruct (_ || _); [done|]. destruct (is_empty _) eqn:Ee; [done|]. apply is_empty_false in Ee. apply traced_bind.
  eapply traced_mono; [|apply service_trigger_owner_traced]. cbn. intros h2 [[o|]|x] Ho; try done. intros e s. split; [|done]. right; right.
  exists svc, server_id, ok, o. specialize (Ho o eq_refl). assert (h `sublist_of` (h ++ h1) ++ h2) by (rewrite <-app_assoc; apply sub_app).
  split_and!; [by eapply loaded_sub|by eapply reported_sub|done|done|done].
Qed.
Lemma save_traced h svc server_id r :
  loaded h svc → reported h svc server_id → traced allowed h (save svc server_id r) (fun _ _ => True).
Proof.
  intros Hl Hr. unfold save. apply monitor_calm_rest; [apply calm_save_part|done|]. intros h1 previous.
  apply monitor_calm_rest; [apply monitor_calm_observe|done|]. intros h2 [new_id now].
  apply monitor_calm_rest; [apply calm_insert_result|done|]. intros h3 _.
  apply monitor_calm_rest; [apply always_ignore, calm_insert_history|done|]. intros h4 _.
  apply monitor_calm_rest; [apply calm_prune_old|done|]. intros h5 _. rewrite <-!app_assoc.
  apply handle_service_transition_traced; [eapply loaded_sub, Hl|eapply reported_sub, Hr]; apply sub_app.
Qed.

(** *** Probes *)

Lemma calm_wait task_id : always calm (wait_for_reply task_id : PM _).
Proof.
  apply always_try; [intros e s; split; [|done]; cbn; destruct (reply e); by repeat split|]. intros [r| |]; [done..|].
  apply always_try; [apply monitor_calm_modify; by repeat split|done].
Qed.
Lemma probe_via_agent_traced h svc agent :
  loaded h svc → target_of h svc agent → traced allowed h (probe_via_agent svc (uuid_to_string agent)) (fun _ _ => True).
Proof.
  intros Hl Ht. unfold probe_via_agent. apply try_pure; [done|]. intros agent' Hp.
  assert (uuid_parse (uuid_to_string agent) = Some agent) as Hround.
  { apply uuid_roundtrip. destruct Ht as (_ & o & owner & _ & _ & (e & s & _ & r & _ & _ & _ & Hr)). by apply uuid_parse_ok in Hr. }
  rewrite Hround in Hp. injection Hp as <-. apply observe_rest. intros e1 s1. destruct (online e1 agent) eqn:Eon; cbn [negb]; [|done].
  apply observe_rest. intros e2 s2. apply try_pure; [done|]. intros task Htask.
  apply monitor_calm_rest; [apply monitor_calm_modify; by repeat split|done|]. intros h3 _. apply atomic_rest; [done|]. intros e4 s4. split.
  - destruct (send_failure e4); [left; apply monitor_calm_refl|]. right; left. exists svc, agent, (uuid_to_string (uuid e2)), task. split_and!; try done.
    + eapply loaded_sub, Hl. rewrite <-!app_assoc. apply sub_app.
    + eapply target_of_sub, Ht. rewrite <-!app_assoc. apply sub_app.
    + rewrite <-!app_assoc. eapply once_sub; [apply sublist_app; [reflexivity|apply sub_app]|]. by apply once_here.
    + eapply once_sub; [apply sub_app|]. by apply once_here.
  - intros a. destruct (send_failure e4); intros [= <-]; apply monitor_calm_allowed; apply always_try; try done. apply calm_wait.
Qed.

Lemma calm_online_check (skip_offline : bool) server_id : always calm (
  (if skip_offline then agent_id ← of_result (ok_or (uuid_parse server_id) (lit "invalid server_id")); observe (fun e => online e agent_id)
   else mret true) : PM bool).
Proof. destruct skip_offline; [|done]. apply always_try; [done|]. intros agent. apply monitor_calm_observe. Qed.
Lemma probe_target_traced h svc skip_offline i :
  loaded h svc → is_target h svc i → traced allowed h (probe_target svc skip_offline i) (fun _ _ => True).
Proof.
  intros Hl (agent & -> & Ht). unfold probe_target. apply traced_bind.
  eapply (traced_mono _ _ _ (fun h' _ => True)); [intros h' r _|].
  - assert (loaded (h ++ h') svc) by (eapply loaded_sub, Hl; apply sub_app).
    assert (reported (h ++ h') svc (Some (uuid_to_string agent))) by (exists agent; split; [done|eapply target_of_sub, Ht; apply sub_app]).
    destruct r as [[r|]|x]; [by apply save_traced|done|by apply save_traced].
  - unfold probe_unless_offline. apply monitor_calm_rest; [apply calm_online_check|done|]. intros h1 up. destruct (negb up); [done|].
    eapply traced_seq; [apply probe_via_agent_traced|done|done]; [eapply loaded_sub, Hl|eapply target_of_sub, Ht]; apply sub_app.
Qed.
Lemma probe_agents_traced h svc ids skip_offline :
  loaded h svc → Forall (is_target h svc) ids → traced allowed h (probe_agents svc ids skip_offline) (fun _ _ => True).
Proof.
  intros Hl Hids. unfold probe_agents. apply traced_bind. eapply traced_mono; [|apply (traced_par _ _ _ _ _ (fun _ _ => True)); [apply allowed_grows|done|]]; [done|].
  apply Forall_fmap. eapply Forall_impl; [exact Hids|]. cbn. intros i. by apply probe_target_traced.
Qed.

Lemma calm_prune_targets i ids : always calm (prune_service_target_states i ids : PM unit).
Proof. apply monitor_calm_modify. by repeat split. Qed.
Lemma calm_probe_locally svc : always calm (probe_locally svc : PM _).
Proof.
  apply always_try; [done|]. intros t. assert (∀ f, always calm (atomic (fun e s => (f e, s)) : PM ServiceProbe)) as Ha by (intros f e s; split; [apply monitor_calm_refl|done]).
  destruct t; [apply Ha| |apply Ha]. apply always_try; [done|]. intros [host port]. apply Ha.
Qed.
(** The targets of a service, counted, then probed. *)
Lemma targets_rest h svc (m : PM (list rstr)) skip_offline :
  loaded h svc → traced allowed h m (fun h' r => ∀ l, r = Ok l → Forall (is_target h' svc) l) →
  traced allowed h (ids ← m; of_result (ensure_probe_target_count (zlen ids));; prune_service_target_states (id svc) (Some ids);;
                    probe_agents svc ids skip_offline) (fun _ _ => True).
Proof.
  intros Hl Hm. eapply traced_seq; [exact Hm|done|]. cbv beta. intros h1 ids Hids. specialize (Hids ids eq_refl). apply try_pure; [done|]. intros _ _.
  apply monitor_calm_rest; [apply calm_prune_targets|done|]. intros h2 _. rewrite <-app_assoc.
  apply probe_agents_traced; [eapply loaded_sub, Hl; apply sub_app|]. eapply Forall_impl; [exact Hids|]. cbn. intros i. apply is_target_sub.
  rewrite app_assoc. apply sub_app.
Qed.
Lemma probe_traced h svc : loaded h svc → traced allowed h (probe svc) (fun _ _ => True).
Proof.
  intros Hl. unfold probe. destruct (contains (cover_mode svc) _) eqn:Ec.
  - apply contains_spec in Ec. apply targets_rest; [done|]. apply covered_agent_ids_traced. set_solver.
  - case_bool_decide as Hs; [by apply targets_rest, specific_agent_ids_traced|].
    apply monitor_calm_rest; [apply calm_prune_targets|done|]. intros h1 _. apply monitor_calm_rest; [apply calm_probe_locally|done|]. intros h2 r.
    apply save_traced; [|done]. eapply loaded_sub, Hl. rewrite <-app_assoc. apply sub_app.
Qed.

(** *** Ticks *)

#[local] Instance assigned_before_total : Total assigned_before.
Proof.
  intros a b. unfold assigned_before, str_leb. destruct (key_total (ss_created_at a) (ss_created_at b)) as [?|[E|?]]; [by left; left| |by right; left].
  destruct (key_total (ss_server_id a) (ss_server_id b)) as [Hlt|[E2|Hlt]].
  - left; right. split; [done|]. apply key_asym in Hlt. cbn in Hlt. by rewrite Hlt.
  - left; right. split; [done|]. rewrite E2. pose proof (key_irrefl (ss_server_id b)) as Hi. cbn in Hi. by rewrite Hi.
  - right; right. split; [done|]. apply key_asym in Hlt. cbn in Hlt. by rewrite Hlt.
Qed.
Lemma listed_read i s :
  listed i s (ss_server_id <$> take (Z.to_nat (SERVICE_MAX_SERVER_IDS + 1)) (merge_sort assigned_before (filter (fun r => ss_service_id r = i) (service_servers s)))).
Proof. eexists. split_and!; [apply (Sorted_merge_sort assigned_before)|apply merge_sort_Permutation|reflexivity]. Qed.
(** A service with the servers that were read for it. *)
Definition attached h base svc : Prop :=
  ∃ l, once h (fun _ s => listed (id base) s l) ∧ svc = if is_empty l then base else set_server_ids l base.
Lemma attach_traced h l :
  traced allowed h (attach_service_server_ids l) (fun h' r => ∀ k, r = Ok k → Forall2 (attached h') l k).
Proof.
  revert h. induction l as [|svc l IH]; intros h; cbn [attach_service_server_ids]; [intros k [= <-]; constructor|].
  apply select_rest; [done|]. intros e s. eapply traced_seq; [apply IH|done|]. cbv beta. intros h2 rest Hr k [= <-].
  constructor; [|by apply Hr]. eexists. split; [|reflexivity]. apply once_app, once_here. apply listed_read.
Qed.
Lemma load_services_traced h : traced allowed h load_services (fun h' r => ∀ l, r = Ok l → Forall (loaded h') l).
Proof.
  unfold load_services. apply select_rest; [done|]. intros e s. eapply traced_seq; [apply attach_traced|done|]. cbv beta.
  intros h1 k Hk l [= <-]. specialize (Hk k eq_refl). apply Forall_forall. intros svc (svc0 & Hin & Hv)%list_elem_of_omap.
  destruct (validate_loaded_service_runtime_lists svc0) as [svc'|] eqn:Ev; [|done]. injection Hv as ->.
  apply list_elem_of_lookup in Hin as [n Hn]. destruct (Forall2_lookup_r _ _ _ _ _ Hk Hn) as (base & Hb & ids & Hids & ->).
  apply list_elem_of_lookup_2 in Hb. apply list_elem_of_omap in Hb as (r & Hr & Hb). apply list_elem_of_filter in Hr as [Hen Hr].
  destruct (validate_loaded_service_config (load_row r)) as [base'|] eqn:Eb; [|done]. injection Hb as ->.
  assert (id svc = id base) as Hid.
  { unfold validate_loaded_service_runtime_lists in Ev. repeat (apply bind_Ok in Ev as (? & _ & Ev)). injection Ev as <-. cbn. by destruct (is_empty ids). }
  exists r, ids. split; [|split; [by rewrite Hid|split; [done|by exists base]]]. eapply once_sub; [apply sub_app|]. by apply once_here.
Qed.

Lemma calm_prune_inactive ids : always calm (prune_inactive_runtime_state ids : PM unit).
Proof. apply always_try; [|intros _]; apply monitor_calm_modify; by repeat split. Qed.
Lemma due_services_traced h now l : traced allowed h (due_services now l) (fun _ r => ∀ k, r = Ok k → k `sublist_of` l).
Proof.
  revert h. induction l as [|svc l IH]; intros h; cbn [due_services]; [intros k [= <-]; constructor|].
  apply monitor_calm_rest; [apply monitor_calm_look|done|]. intros h1 [].
  - apply monitor_calm_rest; [apply monitor_calm_modify; by repeat split|done|]. intros h2 _. eapply traced_seq; [apply IH|done|]. cbv beta. intros h3 rest Hr k [= <-].
    constructor. by apply Hr.
  - eapply traced_mono; [|apply IH]. cbv beta. intros h2 r Hr k Hk. constructor. by apply Hr.
Qed.
Lemma tick_once_traced : traced allowed [] tick_once (fun _ _ => True).
Proof.
  unfold tick_once. apply monitor_calm_rest; [apply monitor_calm_observe|done|]. intros h1 now. eapply traced_seq; [apply load_services_traced|done|]. cbv beta.
  intros h2 l Hl. specialize (Hl l eq_refl). apply monitor_calm_rest; [apply calm_prune_inactive|done|]. intros h3 _.
  eapply traced_seq; [apply due_services_traced|done|]. cbv beta. intros h4 due Hd. specialize (Hd due eq_refl).
  apply traced_bind. eapply traced_mono; [|apply (traced_par _ _ _ _ _ (fun _ _ => True)); [apply allowed_grows|done|]]; [done|].
  apply Forall_fmap, Forall_forall. cbn. intros svc Hin. eapply elem_of_sublist in Hin; [|exact Hd]. rewrite Forall_forall in Hl.
  apply probe_traced. eapply loaded_sub, Hl, Hin. etrans; apply sub_app.
Qed.

(** C17: The monitor works for the owner of a service and nobody else. Take any step of
    a tick, whatever other programs did to the tables between its steps and however
    its probes are interleaved. It leaves the services, their servers and the Agents
    as they are. If it asks an Agent for a probe, the tick has loaded, from a row that
    was enabled, a service that covers this Agent (all Agents, all but the excluded,
    or those that were listed for it); it has seen the Agent's row, not revoked and the property of
    the owner of the service; it has found the Agent online; and the task is the probe
    of that service, under an identifier drawn in this tick. If it starts tasks, they are the failure
    or recovery tasks of a loaded service, for a target that passed the same test, in
    the name of its owner. The owner is the one the service names; only a service for
    specific servers that names none takes the one user to whom all of them belong. *)
Theorem monitor_owned h e s s' :
  makes tick_once h e s s' →
  services s' = services s ∧ service_servers s' = service_servers s ∧ agents s' = agents s ∧
  (asked s' = asked s ∨ asks h s s') ∧ (triggered s' = triggered s ∨ triggers h s s').
Proof.
  intros Hm. eapply traced_makes in Hm; [|exact tick_once_traced]. cbn in Hm.
  destruct Hm as [(? & ? & ? & ? & ?)|[Ha|Ht]].
  - split_and!; try done; by left.
  - pose proof Ha as (? & ? & ? & ? & _ & _ & _ & _ & _ & ->). split_and!; [done..|by right|by left].
  - pose proof Ht as (? & ? & ? & ? & _ & _ & _ & _ & ->). split_and!; [done..|by left|by right].
Qed.
End steps.

(** ** Transitions *)

Section transitions.
Context `{UuidLib, Rfc3339, MonitorLib} (svc : ServiceConfig) (server_id : option rstr).
Abbreviation PM := (P Env State rstr).
Implicit Types (s t : State).

(** The result before: what is remembered, else the newest that is stored. *)
Definition memory s : option bool := service_states s !! service_state_key (id svc) server_id.
Definition previous s : option bool :=
  match memory s with
  | Some b => Some b
  | None => (fun status => bool_decide (status = lit "success")) <$> last_status (id svc) server_id s
  end.
(** The triggers of this service and target. *)
Definition mine (tr : Trigger) : Prop :=
  tr_source tr = tr_source (trigger_of svc server_id true []) ∨ tr_source tr = tr_source (trigger_of svc server_id false []).
#[global] Instance mine_dec tr : Decision (mine tr).
Proof. unfold mine. apply _. Defined.
Definition own s : list Trigger := filter mine (triggered s).
(** What others may do: anything, but to what is known of this target. *)
Definition unmoved s t : Prop :=
  memory t = memory s ∧ own t = own s ∧ (memory s = None → last_status (id svc) server_id t = last_status (id svc) server_id s).
Definition same s0 t : Prop := memory t = memory s0 ∧ own t = own s0.

(** The reference: a failure with nothing before it, and every change. *)
Definition fires (before : option bool) (ok : bool) : bool :=
  match before with None => negb ok | Some b => xorb b ok end.
Fixpoint transitions (before : option bool) (oks : list bool) : list bool :=
  match oks with
  | [] => []
  | ok :: oks => (if fires before ok then [ok] else []) ++ transitions (Some ok) oks
  end.
(** A transition starts the tasks there are. *)
Definition started (o : rstr) (ok : bool) : list Trigger :=
  let tr := trigger_of svc server_id ok o in if is_empty (tr_task_ids tr) then [] else [tr].

(** Results saved one after the other; a save that fails is reported and passed over. *)
Fixpoint saves (rs : list ServiceProbe) : Proc Env State (list (result rstr unit)) :=
  match rs with
  | [] => Ret []
  | r :: rs => proc_bind (save svc server_id r) (fun x => proc_bind (saves rs) (fun xs => Ret (x :: xs)))
  end.
(** Those that were saved. *)
Fixpoint saved (rs : list ServiceProbe) (xs : list (result rstr unit)) : list bool :=
  match rs, xs with
  | r :: rs, x :: xs => (if is_ok x then [success r] else []) ++ saved rs xs
  | _, _ => []
  end.

Definition quiet (e : Env) s t : Prop := service_states t = service_states s ∧ triggered t = triggered s.
Lemma quiet_same e s0 s t : quiet e s t → same s0 s → same s0 t.
Proof. intros [Hs Ht] [Hm Ho]. unfold same, memory, own in *. by rewrite Hs, Ht. Qed.
Lemma unmoved_same s0 s t : unmoved s t → same s0 s → same s0 t.
Proof. intros (Hm & Ho & _) [Hm0 Ho0]. split; congruence. Qed.
Lemma quiet_statement f : (∀ e s t, f s = Some t → quiet e s t) → always quiet (statement f : PM unit).
Proof. intros Hf e s. split; [|done]. cbn. destruct (fault e); [done|]. destruct (f s) eqn:Ef; [by apply Hf|done]. Qed.

Abbreviation Among := (among unmoved).
Lemma quiet_rest {A B} (m : PM A) (k : A → PM B) s0 s Q :
  always quiet m → same s0 s → (∀ x t, same s0 t → Q (Err x) t) → (∀ a t, same s0 t → Among (k a) t Q) → Among (m ≫= k) s Q.
Proof.
  intros Hm Hs He Hk. apply among_try. eapply among_mono; [|eapply (among_keeps _ quiet (same s0)), Hs; [apply unmoved_same|intros e; apply quiet_same|done]].
  cbn. intros [a|x] t Ht; auto.
Qed.
Lemma quiet_insert_result row : always quiet (statement (insert_result row) : PM unit).
Proof. apply quiet_statement. intros e s t. unfold insert_result. destruct (_ || _); [done|by intros [= <-]]. Qed.
Lemma quiet_insert_history row : always quiet (statement (insert_history row) : PM unit).
Proof. apply quiet_statement. intros e s t. unfold insert_history. destruct (_ || _); [done|by intros [= <-]]. Qed.
Lemma quiet_prune_old : always quiet (prune_old_sqlite : PM unit).
Proof. apply always_try; [done|intros ?]. apply always_try; [|intros _]; apply quiet_statement; intros e s t [= <-]; done. Qed.

Lemma previous_among {B} (k : option bool → PM B) s Q :
  (∀ x t, same s t → Q (Err x) t) → (∀ t, same s t → Among (k (previous s)) t Q) → Among (previous_service_success (id svc) server_id ≫= k) s Q.
Proof.
  intros He Hk. apply among_try. unfold previous_service_success. apply among_try. intros e s1 (Hm & Ho & Hl). cbn.
  fold (memory s1). rewrite Hm. destruct (memory s) as [b|] eqn:Em.
  - cbn. replace (Some b) with (previous s) by (unfold previous; by rewrite Em). apply Hk. split; congruence.
  - cbn. intros e2 s2 (Hm2 & Ho2 & Hl2). assert (same s s2) by (split; congruence). destruct (fault e2); cbn; [by apply He|].
    rewrite Hl2, Hl by congruence. replace (_ <$> _) with (previous s) by (unfold previous; by rewrite Em). by apply Hk.
Qed.

Definition after_save (o : rstr) s (ok : bool) (x : result rstr unit) t : Prop :=
  match x with
  | Ok _ => memory t = Some ok ∧ own t = own s ++ (if fires (previous s) ok then started o ok else [])
  | Err _ => same s t
  end.
Lemma mine_trigger ok o : mine (trigger_of svc server_id ok o).
Proof. destruct ok; [left|right]; done. Qed.
Lemma fires_spec before ok : bool_decide (before = Some ok) || (bool_decide (before = None) && ok) = negb (fires before ok).
Proof. by destruct before as [[]|], ok. Qed.
Lemma handle_among o s0 s ok :
  trusted_service_owner_from_config svc = Some o → same s0 s →
  Among (handle_service_transition svc server_id ok (previous s0)) s (after_save o s0 ok).
Proof.
  intros Ho Hs. unfold handle_service_transition. apply among_try. intros e1 s1 Hr1. pose proof (unmoved_same _ _ _ Hr1 Hs) as [_ Hown].
  set (s2 := set_states _ s1). assert (memory s2 = Some ok ∧ own s2 = own s0) as [Hm2 Ho2].
  { split; [unfold memory; cbn; by rewrite lookup_insert_eq|done]. }
  cbn [among]. rewrite fires_spec. unfold service_trigger_owner. rewrite Ho.
  destruct (fires (previous s0) ok) eqn:Ef; cbn [negb]; [|cbn; rewrite Ef, app_nil_r; done].
  destruct (is_empty _) eqn:Ee; [cbn; rewrite Ef; unfold started; cbn; rewrite Ee, app_nil_r; done|].
  cbn. intros _ s3 (Hm3 & Ho3 & _). rewrite Ef. unfold started. cbn. rewrite Ee. split; [unfold memory; cbn; fold (memory s3); congruence|].
  unfold own in *. cbn [triggered set_triggered]. rewrite filter_app, Ho3, Ho2. f_equal. by rewrite (filter_cons_True mine) by apply (mine_trigger ok o).
Qed.
Lemma save_among o s r : trusted_service_owner_from_config svc = Some o → Among (save svc server_id r) s (after_save o s (success r)).
Proof.
  intros Ho. unfold save. apply previous_among; [done|]. intros t1 Ht1.
  apply (quiet_rest _ _ s); [done..|]. intros [new_id now] t2 Ht2.
  apply (quiet_rest _ _ s); [apply quiet_insert_result|done..|]. intros _ t3 Ht3.
  apply (quiet_rest _ _ s); [apply always_ignore, quiet_insert_history|done..|]. intros _ t4 Ht4.
  apply (quiet_rest _ _ s); [apply quiet_prune_old|done..|]. intros _ t5 Ht5. by apply handle_among.
Qed.

Lemma saves_among o rs s : trusted_service_owner_from_config svc = Some o →
  Among (saves rs) s (fun xs t => is_Some (memory s) ∨ is_ok <$> head xs = Some true →
    own t = own s ++ (transitions (previous s) (saved rs xs) ≫= started o)).
Proof.
  intros Ho. revert s. induction rs as [|r rs IH]; intros s; cbn [saves]; [cbn; rewrite app_nil_r; done|].
  apply among_bind. eapply among_mono; [|by apply save_among]. intros x t Hx. apply among_bind. eapply among_mono; [|apply IH].
  cbn. intros xs t' Hxs Hknown. destruct x as [[]|x]; cbn in *.
  - destruct Hx as [Hm Hown]. rewrite Hxs by (left; by rewrite Hm). rewrite Hown. unfold previous at 2. rewrite Hm.
    destruct (fires (previous s) (success r)); cbn; by rewrite <-?app_assoc.
  - destruct Hx as [Hm Hown]. destruct Hknown as [[b Hb]|]; [|done]. rewrite Hxs by (left; rewrite Hm; by exists b). rewrite Hown.
    f_equal. unfold previous. by rewrite Hm, Hb.
Qed.

(** C18: The tasks of a service start exactly at its transitions. Save any sequence of
    results of one target of a service that names its owner, while anything else goes
    on (statements fail, other targets are probed, rows come and go) that leaves alone
    what is known of this target. The tasks started for it meanwhile are exactly these,
    in order: the failure tasks at a failure that differs from the result before it or
    has none before it, the recovery tasks at a success that follows a failure; nothing
    else, and nothing where the list of tasks is empty. A result that could not be saved
    counts for nothing. The result before the first is the one remembered, or else the
    newest one stored; in that case the first result has to be saved. *)
Theorem service_transitions_exact o rs env others s xs t :
  trusted_service_owner_from_config svc = Some o →
  (∀ i u, unmoved u (others i u)) →
  run_to_end env others (saves rs) s = (xs, t) →
  is_Some (memory s) ∨ is_ok <$> head xs = Some true →
  own t = own s ++ (transitions (previous s) (saved rs xs) ≫= started o).
Proof.
  intros Ho Hothers Hrun. pose proof (among_run unmoved (saves rs) s _ env others Hothers (saves_among o rs s Ho)) as Hp.
  rewrite Hrun in Hp. exact Hp.
Qed.
End transitions.

(** ** The schedule *)

Lemma filter_agree {A} (P1 P2 : A → Prop) `{∀ x, Decision (P1 x), ∀ x, Decision (P2 x)} (l : list A) :
  (∀ x, x ∈ l → P1 x ↔ P2 x) → filter P1 l = filter P2 l.
Proof.
  induction l as [|x l IH]; intros Hx; [done|]. rewrite !filter_cons, IH by (intros y Hy; apply Hx; by right).
  pose proof (Hx x (list_elem_of_here _ _)). repeat case_decide; tauto.
Qed.

Section schedule.
Context `{UuidLib, Rfc3339, MonitorLib}.
Implicit Types (s t : State) (v : ServiceConfig) (l : list ServiceConfig).

Definition due (now : Z) (next : option Z) : bool := match next with Some at_ => at_ <=? now | None => true end.
Definition current (k : rstr) l : option ServiceConfig := head (filter (fun v => id v = k) l).
(** The clock of one service: a probe sets it, a tick without the service stops it. *)
Definition next_clock (now : Z) l (k : rstr) (next : option Z) : option Z :=
  match current k l with
  | None => None
  | Some v => if due now next then Some (now + seconds (bounded_interval_seconds (interval_seconds v))) else next
  end.
Fixpoint probed (k : rstr) (next : option Z) (ts : list (Z * list ServiceConfig)) : list bool :=
  match ts with
  | [] => []
  | (now, l) :: ts => (bool_decide (is_Some (current k l)) && due now next) :: probed k (next_clock now l k next) ts
  end.
(** The part of a tick that decides what to probe, tick after tick. *)
Fixpoint ticks (ts : list (Z * list ServiceConfig)) : Proc Env State (list (result rstr (list ServiceConfig))) :=
  match ts with
  | [] => Ret []
  | (now, l) :: ts =>
      proc_bind (prune_inactive_runtime_state (id <$> l);; due_services now l) (fun x => proc_bind (ticks ts) (fun xs => Ret (x :: xs)))
  end.
Definition clocks_kept s t : Prop := scheduled t = scheduled s.

Lemma current_None k l : k ∉ id <$> l → current k l = None.
Proof.
  intros Hk. unfold current. destruct (filter _ l) as [|v k'] eqn:Ef; [done|]. exfalso. apply Hk.
  assert (v ∈ filter (fun v => id v = k) l) as Hin by (rewrite Ef; left). apply list_elem_of_filter in Hin as [<- Hin]. by apply list_elem_of_fmap_2.
Qed.
Lemma current_loaded k l : k ∈ id <$> l → ∃ v, current k l = Some v.
Proof.
  intros (v & -> & Hv)%list_elem_of_fmap. unfold current. destruct (filter _ l) as [|w l'] eqn:Ef; [|by exists w].
  eapply (filter_nil_not_elem_of (fun w => id w = id v) l v) in Ef; done.
Qed.
Lemma current_Some k l v : current k l = Some v → v ∈ l ∧ id v = k.
Proof. intros Hc%head_Some_elem_of. apply list_elem_of_filter in Hc as [? ?]. done. Qed.
Lemma current_elem l v : NoDup (id <$> l) → v ∈ l → current (id v) l = Some v.
Proof.
  intros Hn Hin. destruct (current (id v) l) as [w|] eqn:Ew.
  - apply current_Some in Ew as [Hw Hid]. f_equal. apply list_elem_of_lookup in Hw as [i Hi]. apply list_elem_of_lookup in Hin as [j Hj].
    assert (i = j) as ->; [|congruence]. eapply NoDup_lookup; [exact Hn|rewrite list_lookup_fmap, Hi; done|rewrite list_lookup_fmap, Hj; cbn; congruence].
  - destruct (current_loaded (id v) l) as [w Hw]; [by apply list_elem_of_fmap_2|congruence].
Qed.
Lemma current_cons k v l : current k (v :: l) = if decide (id v = k) then Some v else current k l.
Proof. unfold current. rewrite filter_cons. by case_decide. Qed.

Lemma due_services_among now l s : NoDup (id <$> l) →
  among clocks_kept (due_services now l) s (fun x t => x = Ok (filter (fun v => due now (scheduled s !! id v) = true) l) ∧
    ∀ k, scheduled t !! k = if current k l then next_clock now l k (scheduled s !! k) else scheduled s !! k).
Proof.
  revert s. induction l as [|v l IH]; intros s Hn; cbn [due_services]; [done|]. apply NoDup_cons in Hn as [Hv Hn].
  apply among_try. intros e s1 Hs1. unfold clocks_kept in Hs1. cbn [fst]. rewrite Hs1. fold (due now (scheduled s !! id v)).
  rewrite filter_cons. cbn. destruct (due now (scheduled s !! id v)) eqn:Ed; cbn.
  - intros e2 s2 Hs2. unfold clocks_kept in Hs2. set (s3 := set_scheduled _ s2).
    apply (among_try clocks_kept (due_services now l)). eapply among_mono; [|by apply IH]. cbn. intros x t [-> Ht].
    assert (∀ k, k ≠ id v → scheduled s3 !! k = scheduled s !! k) as Hk.
    { intros k Hk. subst s3. cbn. rewrite lookup_insert_ne by done. congruence. }
    cbn. split.
    + do 2 f_equal. apply filter_agree. intros w Hw. rewrite Hk; [done|]. intros Heq. apply Hv. rewrite <-Heq. by apply list_elem_of_fmap_2.
    + intros k. rewrite Ht. unfold next_clock. rewrite current_cons. case_decide as Hid.
      * subst k. rewrite (current_None _ l) by done. rewrite Ed. subst s3. cbn. by rewrite lookup_insert_eq.
      * by rewrite Hk.
  - eapply among_mono; [|by apply IH]. cbn. intros x t [-> Ht]. split.
    + by rewrite Hs1.
    + intros k. rewrite Ht, Hs1. unfold next_clock. rewrite current_cons. case_decide as Hid; [|done]. subst k. by rewrite (current_None _ l), Ed.
Qed.

(** The decision of one tick. *)
Lemma phase_among now l s : NoDup (id <$> l) →
  among clocks_kept (prune_inactive_runtime_state (id <$> l);; due_services now l) s (fun x t =>
    x = Ok (filter (fun v => due now (scheduled s !! id v) = true) l) ∧ ∀ k, scheduled t !! k = next_clock now l k (scheduled s !! k)).
Proof.
  intros Hn. apply among_try. intros e1 s1 Hs1 e2 s2 Hs2. unfold clocks_kept in *. cbn in Hs2. set (s3 := set_states _ s2).
  assert (∀ k, scheduled s3 !! k = if decide (k ∈ id <$> l) then scheduled s !! k else None) as Hk.
  { intros k. subst s3. cbn. rewrite Hs2, Hs1, map_lookup_filter. destruct (scheduled s !! k); cbn; [case_guard|]; by repeat case_decide. }
  refine (among_mono clocks_kept (due_services now l) s3 _ _ _ (due_services_among now l s3 Hn)). cbn. intros x t [-> Ht]. split.
  - f_equal. apply filter_agree. intros v Hv. rewrite Hk, decide_True by (by apply list_elem_of_fmap_2). done.
  - intros k. rewrite Ht, Hk. unfold next_clock. case_decide as Hin; [|by rewrite current_None].
    by destruct (current_loaded k l Hin) as [v ->].
Qed.

Definition is_due (j : nat) (ts : list (Z * list ServiceConfig)) s v : Prop := probed (id v) (scheduled s !! id v) ts !! j = Some true.
Definition loaded_at (ts : list (Z * list ServiceConfig)) (j : nat) (k : rstr) : Prop := ∃ now l, ts !! j = Some (now, l) ∧ k ∈ id <$> l.
Definition distinct_ids (tick : Z * list ServiceConfig) : Prop := NoDup (id <$> tick.2).

Lemma ticks_among ts s : Forall distinct_ids ts →
  among clocks_kept (ticks ts) s (fun xs t => ∃ dues, xs = Ok <$> dues ∧ length dues = length ts ∧
    ∀ j now l d v, ts !! j = Some (now, l) → dues !! j = Some d → (v ∈ d ↔ v ∈ l ∧ is_due j ts s v)).
Proof.
  intros Hts. revert s. induction Hts as [|[now l] ts Hn Hts IH]; intros s; cbn [ticks]; [by exists []|]. unfold distinct_ids in Hn; cbn in Hn.
  apply among_bind. eapply among_mono; [|by apply phase_among]. intros x t [-> Ht].
  apply among_bind. eapply among_mono; [|apply IH]. cbn. intros xs t' (dues & -> & Hlen & Hd).
  exists (filter (fun v => due now (scheduled s !! id v) = true) l :: dues). split_and!; [done|cbn; lia|].
  intros [|j] now' l' d v; cbn.
  - intros [= <- <-] [= <-]. rewrite list_elem_of_filter. unfold is_due. cbn. split.
    + intros [Hdue Hv]. split; [done|]. by rewrite (current_elem l v), Hdue.
    + intros [Hv [= Hb]]. bool_prop. by split.
  - intros Hj Hdj. rewrite (Hd j now' l' d v Hj Hdj). unfold is_due. cbn. by rewrite Ht.
Qed.

(** Once probed, a service that stays loaded is not probed before its interval is over. *)
Lemma interval_positive v : 0 < seconds (bounded_interval_seconds (interval_seconds v)).
Proof.
  unfold bounded_interval_seconds, SERVICE_MIN_INTERVAL_SECONDS, seconds. lia.
Qed.
Lemma probed_after k c b ts j now l :
  b <= c → (∀ i, (i < j)%nat → loaded_at ts i k) → probed k (Some c) ts !! j = Some true → ts !! j = Some (now, l) → b <= now.
Proof.
  revert c j. induction ts as [|[now0 l0] ts IH]; intros c [|j] Hb Hin; cbn; try done.
  - intros [= Hp] [= <- <-]. bool_prop. cbn in *. bool_prop. lia.
  - unfold next_clock. destruct (Hin 0%nat ltac:(lia)) as (? & ? & [= <- <-] & Hk). destruct (current_loaded k l0 Hk) as [v ->].
    assert (∀ i, (i < j)%nat → loaded_at ts i k) as Hin' by (intros i Hi; exact (Hin (S i) ltac:(lia))).
    destruct (due now0 (Some c)) eqn:Ed; [|by eapply IH]. cbn in Ed. bool_prop. pose proof (interval_positive v). eapply IH; [|done]. lia.
Qed.
Lemma probed_spacing k ts next i j now l v now' l' :
  (i < j)%nat → probed k next ts !! i = Some true → probed k next ts !! j = Some true → ts !! i = Some (now, l) → ts !! j = Some (now', l') →
  current k l = Some v → (∀ n, (i < n < j)%nat → loaded_at ts n k) → now + seconds (bounded_interval_seconds (interval_seconds v)) <= now'.
Proof.
  revert next i j. induction ts as [|[now0 l0] ts IH]; intros next i j Hij Hi Hj Hti Htj Hc Hin; [done|].
  destruct j as [|j]; [lia|]. cbn in Hj, Htj. destruct i as [|i]; cbn in Hi, Hti.
  - injection Hti as -> ->. injection Hi as Hb. bool_prop. unfold next_clock in Hj. rewrite Hc in Hj.
    match goal with Hd : due now next = true |- _ => rewrite Hd in Hj end. eapply probed_after; [|  |exact Hj|exact Htj]; [lia|].
    intros n Hn. exact (Hin (S n) ltac:(lia)).
  - eapply IH; [|exact Hi|exact Hj|done..|]; [lia|]. intros n Hn. exact (Hin (S n) ltac:(lia)).
Qed.

(** C19: Every service has a clock of its own. Run the scheduling part of any sequence
    of ticks, each with its time and the services it loaded (no identifier twice),
    while anything goes on that does not touch the schedule. Every tick decides without
    error, and it probes a service exactly if it loaded it and the service has no clock
    or its clock has run out; a probe sets the clock to the time of the tick plus the
    interval of the service, held between ten seconds and a day, and a tick that does
    not load the service takes its clock away ([probed] is this one-service reference).
    So no service holds up another, and a service that stays loaded is never probed
    again before the interval it had at its last probe is over. *)
Theorem monitor_schedule_exact ts env others s xs t :
  Forall distinct_ids ts → (∀ i u, clocks_kept u (others i u)) → run_to_end env others (ticks ts) s = (xs, t) →
  ∃ dues, xs = Ok <$> dues ∧ length dues = length ts ∧
    (∀ j now l d v, ts !! j = Some (now, l) → dues !! j = Some d → (v ∈ d ↔ v ∈ l ∧ probed (id v) (scheduled s !! id v) ts !! j = Some true)) ∧
    (∀ i j now l d v now' l' d' v', (i < j)%nat → ts !! i = Some (now, l) → ts !! j = Some (now', l') → dues !! i = Some d → dues !! j = Some d' →
       v ∈ d → v' ∈ d' → id v' = id v → (∀ n, (i < n < j)%nat → loaded_at ts n (id v)) →
       now + seconds (bounded_interval_seconds (interval_seconds v)) <= now').
Proof.
  intros Hts Hothers Hrun. pose proof (among_run clocks_kept (ticks ts) s _ env others Hothers (ticks_among ts s Hts)) as Hp.
  rewrite Hrun in Hp. destruct Hp as (dues & -> & Hlen & Hd). exists dues. split_and!; [done..|].
  intros i j now l d v now' l' d' v' Hij Hti Htj Hdi Hdj Hv Hv' Hid Hin.
  apply (Hd i now l d v Hti Hdi) in Hv as [Hv Hi]. apply (Hd j now' l' d' v' Htj Hdj) in Hv' as [_ Hj]. unfold is_due in *. rewrite Hid in Hj.
  eapply probed_spacing; [exact Hij|exact Hi|exact Hj|done..| |done]. apply current_elem; [|done].
  rewrite Forall_forall in Hts. apply (Hts (now, l)). by eapply list_elem_of_lookup_2.
Qed.
End schedule.

Section types.
Context `{UuidLib, Rfc3339, MonitorLib}.

(** C20: What the monitor works on is well formed, whatever the tables hold. Every
    service that loading returns comes from a row that was enabled, has a canonical
    identifier and owner, a name and a target within their lengths, a target of the
    shape its kind of probe asks for, an interval between ten seconds and a day, a
    timeout between one and thirty seconds, one of the four ways to choose servers, and
    lists of servers and tasks that are within their bounds, without duplicates and
    canonical. So the bounds that are applied again later change nothing, and for no
    loaded service does the task for an Agent fail to be built. *)
Theorem loaded_services_wf h l :
  returns load_services h (Ok l) →
  Forall (fun svc => service_wf svc ∧ loaded h svc ∧ ∀ task_id, ∃ spec,
    build_agent_probe_task task_id svc = Ok {| AgentSession.task_id := task_id; AgentSession.spec := Some spec |}) l.
Proof.
  intros Hr. eapply traced_returns in Hr; [|apply (load_services_traced [])]. specialize (Hr l eq_refl). eapply Forall_impl; [exact Hr|].
  cbn. intros svc Hl. assert (service_wf svc) as Hwf by (destruct Hl as (r & ids & _ & _ & Hc); by eapply configured_wf).
  split_and!; [done..|]. intros i. by apply wf_task_built.
Qed.
End types.
End MonitorProofs.
