(* ===== verification/MonitorExamples.v ===== *)
(** * MonitorExamples: a service, its owner's Agents, and a failure

    A TCP service of the user 3 on all Agents: one is online, one offline, one
    revoked, and one is another user's. *)

From S2P Require Import Prelude Text BTreeMap Externals Rfc3339 Security IoStreams AgentSession Interleave Fleet PatsExamples Monitor MonitorProofs.

Module MonitorExamples.
Import Interleave Monitor MonitorProofs.

#[local] Instance monitor0 : MonitorLib := {|
  json_strings s := PatsExamples.read_texts s None [];
  probe_output s := if bool_decide (s = lit "up") then Some {| out_success := true; out_latency_ms := Some 3; out_status_code := None; out_error := None;
    out_cert_fingerprint := None; out_cert_not_after := None |} else None;
  url_parse _ := None; constraint_text := lit "constraint failed" |}.

Definition now0 : Z := PatsExamples.now0.
Definition agent (i owner : Z) (revoked_at : option rstr) : Fleet.AgentRow :=
  {| Fleet.ag_id := uuid_to_string i; Fleet.ag_name := lit "web"; Fleet.ag_public_key := []; Fleet.ag_owner_user_id := uuid_to_string owner;
     Fleet.ag_last_seen_at := None; Fleet.ag_revoked_at := revoked_at; Fleet.ag_created_at := to_rfc3339 now0; Fleet.ag_updated_at := to_rfc3339 now0;
     Fleet.ag_remark := None; Fleet.ag_expires_at := None; Fleet.ag_renewal_price := None; Fleet.ag_dashboard_metadata_json := None;
     Fleet.ag_last_state_json := None; Fleet.ag_last_state_at := None; Fleet.ag_last_info_json := None; Fleet.ag_last_info_at := None |}.
Definition service_row (mode : rstr) : ServiceRow :=
  {| sr_id := uuid_to_string 70; sr_owner_user_id := Some (uuid_to_string 3); sr_name := lit " web "; sr_type := lit "TCP"; sr_target := lit "example.org:443";
     sr_interval_seconds := 60; sr_timeout_seconds := 5; sr_enabled := 1; sr_server_id := None; sr_notification_group_id := None;
     sr_cover_mode := Some mode; sr_exclude_server_ids_json := None; sr_failure_task_ids_json := Some (PatsExamples.print_texts [uuid_to_string 90]);
     sr_recovery_task_ids_json := Some (PatsExamples.print_texts [uuid_to_string 91]) |}.
Definition state0 (mode : rstr) : State :=
  {| services := [service_row mode]; service_servers := [];
     agents := [agent 50 3 None; agent 51 3 None; agent 52 4 None; agent 53 3 (Some (to_rfc3339 now0))];
     results := []; history := []; scheduled := ∅; service_states := ∅; waiting := ∅; asked := []; triggered := [] |}.
(** Agent 50 and 52 are online; nobody answers; a local probe cannot resolve the host. *)
Definition env (fault : option rstr) (i : nat) : Env :=
  {| utc := now0; uuid := 1000 + Z.of_nat i; fault := fault; online a := (a =? 50) || (a =? 52); send_failure := None; reply := TimedOut;
     http_probe _ _ := Err (lit "no address"); tcp_probe _ _ _ := Err (lit "no address"); icmp_probe _ _ := Err (lit "no address");
     service_turn _ := true; target_turn _ := true |}.
Definition envs : list Env := env None <$> seq 0 40.
Definition run : list (Env * State * State) := solo envs tick_once (state0 (lit "all")).
Definition asked_at : Env * State * State := default (env None 0, state0 [], state0 []) (run !! 13%nat).
Definition triggered_at : Env * State * State := default (env None 0, state0 [], state0 []) (run !! 25%nat).
Lemma run_length : length run = 27%nat.
Proof. vm_compute. reflexivity. Qed.
Lemma step_at k d : (k < 27)%nat → let x := default d (run !! k) in run !! k = Some (x.1.1, x.1.2, x.2).
Proof.
  intros Hk. destruct (run !! k) as [[[e s] s']|] eqn:Ek; [done|]. apply lookup_ge_None in Ek. rewrite run_length in Ek. lia.
Qed.
Lemma asked_step : run !! 13%nat = Some (asked_at.1.1, asked_at.1.2, asked_at.2).
Proof. apply step_at. lia. Qed.
Lemma triggered_step : run !! 25%nat = Some (triggered_at.1.1, triggered_at.1.2, triggered_at.2).
Proof. apply step_at. lia. Qed.
Lemma monitor_owned_witness :
  (fst <$> asked asked_at.2 = [50] ∧ asks (fst <$> take 13 run) asked_at.1.2 asked_at.2) ∧
  (tr_owner <$> triggered triggered_at.2 = [uuid_to_string 3] ∧ triggers (fst <$> take 25 run) triggered_at.1.2 triggered_at.2).
Proof.
  split; (split; [by vm_compute|]).
  - destruct (monitor_owned _ _ _ _ (solo_makes _ _ _ _ _ _ _ asked_step)) as (_ & _ & _ & [Hs|Ha] & _); [|exact Ha].
    exfalso. apply (f_equal length) in Hs. by vm_compute in Hs.
  - destruct (monitor_owned _ _ _ _ (solo_makes _ _ _ _ _ _ _ triggered_step)) as (_ & _ & _ & _ & [Hs|Ht]); [|exact Ht].
    exfalso. apply (f_equal length) in Hs. by vm_compute in Hs.
Defined.

(** ** Loading *)

Definition load_run : list (Env * State * State) := solo envs load_services (state0 (lit "all")).
Definition services0 : list ServiceConfig := match outcome envs load_services (state0 (lit "all")) with Some (Ok l) => l | _ => [] end.
Lemma load_outcome : outcome envs load_services (state0 (lit "all")) = Some (Ok services0).
Proof. vm_compute. reflexivity. Qed.
Lemma loaded_services_wf_witness : kind <$> services0 = [lit "tcp"] ∧ Forall service_wf services0.
Proof.
  split; [by vm_compute|]. eapply Forall_impl; [exact (loaded_services_wf _ _ (outcome_returns _ _ _ _ load_outcome))|]. by intros svc [Hwf _].
Defined.

(** ** Transitions *)

Definition svc0 : ServiceConfig := default {| id := []; owner_user_id := None; name := []; kind := []; target := []; interval_seconds := 0; timeout_seconds := 0;
  enabled := false; cover_mode := []; server_ids := []; exclude_server_ids := []; notification_group_id := None; failure_task_ids := [];
  recovery_task_ids := [] |} (head services0).
Definition target0 : option rstr := Some (uuid_to_string 50).
Definition up : ServiceProbe := {| success := true; latency_ms := Some 3; status_code := None; error := None; cert_fingerprint := None; cert_not_after := None |}.
Definition down : ServiceProbe := failure_probe (lit "refused").
(** The first result of a target is a failure; the third is not saved, since its statement fails. *)
Definition results0 : list ServiceProbe := [down; down; up; up; down].
Definition env0 (i : nat) : Env := env (if Nat.eqb i 20 then Some (lit "disk full") else None) i.
Definition end0 : list (result rstr unit) * State := run_to_end env0 (fun _ => Datatypes.id) (saves svc0 target0 results0) (state0 (lit "all")).
Lemma service_transitions_exact_witness :
  is_ok <$> end0.1 = [true; true; false; true; true] ∧
  own svc0 target0 end0.2 = [trigger_of svc0 target0 false (uuid_to_string 3); trigger_of svc0 target0 true (uuid_to_string 3);
                             trigger_of svc0 target0 false (uuid_to_string 3)].
Proof.
  split; [by vm_compute|].
  rewrite (service_transitions_exact svc0 target0 (uuid_to_string 3) results0 env0 (fun _ => Datatypes.id) (state0 (lit "all")) end0.1 end0.2).
  - vm_compute. reflexivity.
  - vm_compute. reflexivity.
  - intros i u. by repeat split.
  - apply surjective_pairing.
  - right. by vm_compute.
Defined.

(** When the deletion of old rows fails after the first result of a target, a failure,
    was stored, no task starts, neither then nor at the next failure. *)
Definition env1 (i : nat) : Env := env (if Nat.eqb i 6 then Some (lit "disk full") else None) i.
Definition end1 : list (result rstr unit) * State := run_to_end env1 (fun _ => Datatypes.id) (saves svc0 target0 [down; down]) (state0 (lit "all")).
Example first_failure_unnoticed :
  is_ok <$> end1.1 = [false; true] ∧ re_status <$> results end1.2 = [lit "failure"; lit "failure"] ∧ triggered end1.2 = [].
Proof. vm_compute. split_and!; reflexivity. Qed.

(** A host that does not resolve is a failure when an Agent probes it, and nothing at
    all when the server does. *)
Definition local_run : list (Env * State * State) := solo envs tick_once (state0 (lit "local")).
Example unresolved_host_unnoticed :
  outcome envs tick_once (state0 (lit "local")) = Some (Ok ()) ∧
  (fun x => (results x.2, triggered x.2)) <$> last local_run = Some ([], []) ∧
  (fun x => (re_status <$> results x.2, length (triggered x.2))) <$> last run = Some ([lit "failure"], 1%nat).
Proof. vm_compute. split_and!; reflexivity. Qed.

(** ** The schedule *)

Definition ticks0 : list (Z * list ServiceConfig) :=
  [(now0, services0); (now0 + seconds 30, services0); (now0 + seconds 60, services0); (now0 + seconds 70, []); (now0 + seconds 80, services0)].
Definition planned0 : list (result rstr (list ServiceConfig)) * State := run_to_end (env None) (fun _ => Datatypes.id) (ticks ticks0) (state0 (lit "all")).
Lemma services0_ids : id <$> services0 = [uuid_to_string 70].
Proof. vm_compute. reflexivity. Qed.
Lemma ticks0_distinct : Forall distinct_ids ticks0.
Proof. unfold ticks0, distinct_ids. rewrite !Forall_cons, Forall_nil. cbn [snd]. rewrite services0_ids. split_and!; try apply NoDup_singleton; [apply NoDup_nil_2|done]. Qed.
Lemma monitor_schedule_exact_witness :
  planned0.1 = [Ok services0; Ok []; Ok services0; Ok []; Ok services0] ∧
  ∃ dues, planned0.1 = Ok <$> dues ∧ ∀ d, dues !! 1%nat = Some d → svc0 ∉ d.
Proof.
  split; [by vm_compute|].
  destruct (monitor_schedule_exact ticks0 (env None) (fun _ => Datatypes.id) (state0 (lit "all")) planned0.1 planned0.2) as (dues & Hd & _ & Hp & _).
  - exact ticks0_distinct.
  - done.
  - apply surjective_pairing.
  - exists dues. split; [done|]. intros d Hdue Hin. apply (Hp 1%nat (now0 + seconds 30) services0 d svc0 eq_refl Hdue) in Hin as [_ Hb]. by vm_compute in Hb.
Defined.
End MonitorExamples.
